(* ===== verification/_CoqProject ===== *)
-Q . S2P
Prelude.v
Glob.v
CoreTypes.v
Numbers.v
GrantTypes.v
Attenuation.v
GrantLifecycle.v
ChainCrypto.v
EventTypes.v
EventCodec.v
EventDecode.v
Envelope.v
Trust.v
LogTypes.v
Materialize.v
Authorize.v
EventLog.v
MemoryLog.v
VerifyChain.v
UseTime.v
LogText.v
StoredLog.v
StateGrants.v
Sync.v
Ssrf.v
BranchGlob.v
ProxyMatch.v
Metering.v
OutboundLeak.v
ProxyPolicy.v
ProxyForward.v
ProxyDaemon.v
Lease.v
LeaseSigning.v
GrantTable.v
GrantMint.v
ActionPolicy.v
Approvals.v
AccessRequests.v
AuditLog.v
Presence.v
Sessions.v
Dispatch.v
Receipts.v
ClaimJournal.v
