(* ===== verification/Prelude.v ===== *)
(** * Emberlink authority core: a verification library

    Emberlink is a local authority platform. Identities (a root, its devices and personas)
    live in a log of signed events, each of which names its predecessor; authority over credentials and tools is given out
    as grants, signed chains of blocks that may be delegated further and only ever narrowed; a
    proxy spends the credentials on behalf of agents, under those grants. This library models the
    three cores and proves the properties that make them trustworthy. The Rust sources are under
    src/crates; paths below are relative to it.

    ** The program and the files

    Grants.
    - [Glob]: the pattern matchers [wildcard_match] (core-grants/src/scope.rs) and
      [glob_matches] (core-grant-types/src/grant_chain.rs).
    - [GrantTypes]: the composite grant, its statements, budgets, usage and derived status
      (core-grant-types/src/grant_chain.rs).
    - [Attenuation]: scope strings, statement attenuation, resolution of needs, ancestry
      (core-grants/src/scope.rs).
    - [GrantLifecycle]: module [Lifecycle], the delegation-aware state machine
      (core-grants/src/grant.rs, state.rs); module [ChainBuild], statements from scope strings
      (core-grants/src/chain.rs).
    - [ChainCrypto]: signing and verification of grant chains (core-crypto/src/grant_chain.rs,
      core-grants/src/chain.rs).
    - [UseTime]: the verification of a grant at the time of use
      (ember-daemon/src/trust/use_time_verify.rs).
    - [StateGrants]: the access grants kept beside the event log, their edits, renewals and revocation
      (core-state/src/lib.rs, persist.rs).

    Events.
    - [CoreTypes], [Numbers]: errors, size limits and the canonical record format
      (core-types/src), parsing and printing of numbers.
    - [EventTypes], [EventCodec], [EventDecode]: the forty event bodies, their validation,
      routing, canonical encoding and decoding (core-event-types/src/events.rs, storage.rs,
      core-principals/src).
    - [Envelope]: signed envelopes (core-events/src/lib.rs) and context signing
      (core-crypto/src/lib.rs).
    - [Trust]: derived trust scores (core-trust/src/lib.rs).
    - [LogTypes], [Materialize]: the materialized state and its transition for each event
      (core-eventlog/src/types.rs, materialize.rs).
    - [Authorize]: the authorizer of events (core-eventlog/src/authorize.rs).
    - [EventLog]: the interface of the log (core-eventlog/src/event_log.rs) as a class with its
      laws, and what follows from the laws for every run of authorized appends. The log in memory
      satisfies the laws; the stored one does not (it checks no chains, and a refused append can
      keep its effect), so its properties are proved of its own operations.
    - [MemoryLog], [LogText]: the in-memory log (core-eventlog/src/memory.rs), which discharges
      the laws, and the text form of a log.
    - [StoredLog]: the log on SQLite (core-state/src/lib.rs, persist.rs, snapshot.rs): its tables, transactions with failing
      statements, rebuilding and opening.
    - [VerifyChain]: the offline verifier (core-eventlog/src/verify.rs).
    - [Sync]: synchronization between peers and admission at relays (core-sync/src/lib.rs,
      core-principals/src/network.rs).

    The proxy.
    - [Ssrf], [BranchGlob], [ProxyMatch], [OutboundLeak]: the guard of destination addresses,
      branch patterns, classification of requests, the scanner for leaked credentials
      (core-proxy-forward/src/ssrf.rs, match.rs, allowed_targets.rs, outbound_leak.rs).
    - [Metering]: prices and usage, of whole responses and of streams
      (proxy-forward-runtime/src/pricing.rs).
    - [ProxyPolicy]: the decisions of the request handler, header rules, budgets and the metering
      body (proxy-forward-runtime/src/forward.rs).
    - [ProxyForward]: the handler itself, over the class [PolicyBackend]
      (core-proxy-forward/src/policy_backend.rs, proxy-forward-runtime/src/forward.rs).
    - [ProxyDaemon]: the daemon's implementation of that class over its grant and persona tables
      (ember-daemon/src/infra/proxy.rs, persona.rs, trust/grant.rs, grant_projection.rs).

    The daemon's grants.
    - [Lease]: leases, the grant-scoped keys without which an active row gives no authority: the
      registry, its sealed table, renewal and rehydration (ember-daemon/src/trust/lease.rs,
      infra/store.rs).
    - [LeaseSigning]: the secrets of a grant sealed under its lease, and the signatures made
      with them (ember-daemon/src/trust/grant.rs, infra/persona.rs).
    - [GrantTable]: the operations that end or suspend a grant, cascades, receipts, workflow
      revocation (ember-daemon/src/trust/grant.rs, grant_projection.rs, infra/receipt.rs,
      grants/cascade.rs).
    - [GrantMint]: creation, delegation, extension and metering of grants, and the runs of all
      operations on the tables; the chains of composite grants (ember-daemon/src/trust/grant.rs,
      infra/proxy.rs, trust/approval.rs).

    Approval.
    - [ActionPolicy]: references to actions (core-event-types/src/action_ref.rs), the policy
      that says which actions need a human, and the state machine of an approval
      (core-approval/src/policy.rs, states.rs, outcome.rs, core-grant-types/src/approval.rs).
    - [Approvals]: the queue of requests, bindings of approved executions, decisions and the grants
      they mint, standing grants (ember-daemon/src/trust/approval.rs, standing_grant.rs,
      infra/handlers/approval.rs).
    - [AccessRequests]: the rate limit, what answers a request without a human, the handler of
      access requests and the wait for a decision (ember-daemon/src/infra/rate_limit.rs,
      infra/handler/access_requests.rs, trust/standing_grant.rs).

    Audit.
    - [AuditLog]: the hash-linked table of audit rows, its writers and verifier, quarantine and the repair
      that an operator signs (ember-daemon/src/infra/audit.rs, runtime.rs,
      handler/audit_receipts.rs).
    - [Receipts]: signed receipts, the roots over lists of claims, the verification along rotations of the signing key, the
      rollup of the receipts of an invocation (core-events/src/receipt, rollup.rs).
    - [ClaimJournal]: the journal of the claims of sessions and grants, in segments with roots, and the receipts issued from it
      (ember-daemon/src/infra/claim_journal.rs, infra/receipt/issue.rs, infra/identity_substrate.rs).

    Requests.
    - [Presence]: the proofs that a human is there: signed operations with their nonces, tokens, the session one tap opens, its
      pins and locks (ember-daemon/src/auth/presence_gate.rs, presence_token.rs, trust/presence.rs, infra/unlock_pin.rs,
      interactive_unlock.rs, store.rs).
    - [Sessions]: the directory of sessions and their attachments (core-state/src/sessions.rs).
    - [Dispatch]: what a request passes before its handler runs, and the runs of requests, timers and handlers on the state
      of the gates (ember-daemon/src/infra/handler.rs, handler/authority.rs, context.rs, presence_runtime.rs).

    An append validates the envelope ([EventCodec], [Envelope]), verifies its signature, asks the
    authorizer ([Authorize]) against the materialized state, checks the root's chain, applies the
    event and advances the head ([Materialize]), applies the storage event, and writes the
    indices ([MemoryLog]). The offline verifier repeats the checks on a slice of events without a
    state. Grants are resolved against requests by [Attenuation], over the types of [GrantTypes];
    their blocks are signed and verified by [ChainCrypto]. A proxied request is classified
    ([ProxyMatch]), resolved to a statement of a grant by the backend ([ProxyDaemon], with the
    matcher of [ProxyPolicy]), checked for its host ([ProxyPolicy], [Ssrf]) and its budget, given
    the credential, scanned ([OutboundLeak]), sent, and metered ([Metering]); [ProxyForward] is
    the sequence of these steps. An agent gets its grants by an access request ([AccessRequests]):
    what it holds already or the policy ([ActionPolicy]) answers it, or it waits in the queue
    ([Approvals]) for a decision, which mints through [GrantMint]. A resolved credential is recorded in
    the journal together with a row of the audit log ([ClaimJournal], [AuditLog]); when a session or grant ends its scope is closed and a
    signed receipt issued ([Receipts]). Every request to the daemon passes [Dispatch] first,
    which asks [Presence], [Sessions] and the quarantine of [AuditLog].

    ** How code is modelled

    A [Result] is the type [result]; [?] is the notation [let? x := e in k] or [e ;? k]. A
    method that changes its receiver is a function from the old to the new value; where a failing
    call can leave changes behind ([MemoryLog], [StoredLog], [StateGrants]) the model returns the result together with the
    value afterwards. The request handler is a function in a monad [M] of [ProxyForward] that
    keeps the trace of effects (decryptions, requests sent, metering, log entries) and ends early
    with a response or an error. An unsigned integer is a [Z] with saturation or wrap-around
    written out. A [BTreeMap] or [HashMap] is a [gmap], iterated in key order where the code
    iterates a [BTreeMap]. A [String] is a byte string; [trim], [split], [find] and the like are
    defined on bytes; [trim] strips Unicode white space by its UTF-8 encodings. A [f32] is the
    Standard Library's binary32 [spec_float]. Third-party code is a class: hexadecimal encoding
    ([HexOps]), Ed25519 and block encoding ([CryptoOps]), JSON ([JsonOps], [JsonArrayOps],
    [JsonText]), MessagePack ([MsgPack]), device signatures ([DeviceSignatures]), URIs and percent
    decoding ([UriOps], [PercentOps]), header maps and methods ([HeaderOps], [MethodOps]), regular
    expressions and multi-pattern search ([SearchOps]), authenticated encryption ([AeadOps]), the
    JSON forms of lease metadata, sealed secrets and blocks ([MetaJson], [SecretJson],
    [BlocksJson]), uuids ([UuidOps]), the case and classes of characters beyond ASCII
    ([UnicodeOps]), the JSON forms, hashes and timestamps of the queue ([QueueOps]), BLAKE3 and the objects of
    the audit log ([AuditOps]), RFC 8785 ([JcsOps]), the hash of receipts ([Blake3Ops]), JSON texts of claims ([JsonString]), the daemon's identity key ([DaemonSigner]); laws are separate classes ([HexLaws],
    [CryptoLaws], [MsgPackLaws], [UriLaws], [HeaderLaws], [SearchLaws], [AeadLaws],
    [MetaJsonLaws], [SecretJsonLaws], [AuditLaws], [JcsLaws], [JcsMemberLaws], [Blake3Laws]) with a concrete instance
    each. Where roots bind their inputs the hash is assumed free of collisions on the messages hashed, listed by [history_inputs]. Randomness, time and identifiers are arguments.

    ** Fuel

    [glob_matches] loops with [glob_fuel], which [glob_loop_total] shows to be enough for every
    pattern and text. The walk through a signer's parents in [VerifyChain] has [size + 3]
    iterations for [size] known principals; [principal_walk_terminates] shows that it ends within
    them, since each iteration meets another one. The tokenizer of [BranchGlob] has the length of
    the pattern as fuel, the UTF-8 decoder and the frame loop of [Metering] the length of the text;
    each iteration consumes at least a byte. The walks of [ProxyDaemon] through ancestors and
    parent personas have the bounds 256 and 3 of the source. The cascade of a revocation and the
    collection of descendants in [GrantTable] have one more step than there are rows;
    [cascade_loop_total] and [collect_loop_spec] show that they end within them on every table,
    cyclic parent links included, since each step ends or visits another row. The loop of [merkle_root] has
    as many rounds as leaves, enough by [merkle_loop_total]; the walk through principals in [ClaimJournal] one more than records,
    enough by [principal_chain_exact]. All other recursion is structural.

    ** What the theorems show

    - Delegation: accepted children denote subsets of their parents, for statements and for scope
      strings, across any number of generations; needs are covered only by live, unconditional,
      funded grants; the matchers decide their languages ([Glob], [Attenuation],
      [GrantLifecycle]).
    - Grant chains: built chains verify; under unforgeability verified chains are authentic;
      errors name the first bad link ([ChainCrypto]); an authorized use is backed by a block the
      root signed ([UseTime]); edits and renewals of a stored grant attenuate it on the axes that are compared, and
      revocation is final short of a new creation ([StateGrants]).
    - Encoding: canonical records and event bodies round trip, payloads determine routing,
      signing pre-images are injective up to line breaks ([CoreTypes], [EventCodec],
      [EventDecode], [Envelope]).
    - Identity log: authority is confined to its owners ([Authorize]); for every run of authorized
      appends that satisfies the laws the state is referentially intact, revocation is final and silences,
      executed recoveries are backed by guardians ([EventLog]); in the log in memory each root's events form one
      chain of references and what is revoked stays silent, in runs of appends and accepted batches; the
      derived data are a function of the events, batches refine single appends, fail atomically
      and are idempotent, queries are exact ([MemoryLog]); the stored log refines the log in memory up to the chain heads,
      keeps what it acknowledged through any failures and restarts, and opens as it was closed ([StoredLog]); importing an exported log appends what
      is missing ([LogText]); what the offline verifier passes is rooted in its anchor and linked
      ([VerifyChain]); pulls converge, wire forms round trip up to what they drop, admission to a
      relay is backed by a trusted issuer ([Sync]).
    - Proxy: a credential is read and sent only after every gate, whatever the backend
      ([ProxyForward]), and over the daemon's tables only under a live grant whose verified chain
      covers the request ([ProxyDaemon]); lanes follow the labels of the host ([ProxyMatch]), the
      address guard decides its table ([Ssrf]), branch patterns decide their language
      ([BranchGlob]), headers are replaced exactly, streams are metered once ([ProxyPolicy]), and
      metering does not depend on how a stream is cut ([Metering]).
    - Daemon: a live lease is always backed by an issue, even when the sealed table is rewritten,
      and a revoked grant stays without one ([Lease]); chains made through leases verify
      ([LeaseSigning]); a workflow revocation ends exactly the active descendants
      ([GrantTable]); in every run of operations stored chains attenuate, ended grants stay ended,
      a grant has at most one receipt, delegations are bounded, failed mints leave
      nothing, metered usage adds up ([GrantMint]).
    - Approval: references to actions parse as they print, the policy decides an action in any
      spelling by its first rule that covers the names ([ActionPolicy]); a request is decided at most once, a binding used at
      most once, a decision grants what was asked for and what was proposed, unless an outsider
      removed the stored proposal or changed its hash ([Approvals]); the rate limit holds in every window, every
      answer to an access request has its cause and waiting ends ([AccessRequests]).
    - Audit: what the daemon writes verifies, in full and on every tail, in every run with failures
      and repairs; the last hash of a log fixes its hashed rows and their hashed columns; rows are erased only with the
      signature of an operator's device ([AuditLog]).
    - Receipts: what is accepted was signed by an honest key, or a rotation an honest key signed was said to introduce another one; rollups partition the receipts ([Receipts]); a claim
      is recorded once and for all, the claims of a scope are numbered without gaps and cut into segments, the history root of a
      receipt binds the input hashes of all claims, the issued receipt carries the summary ([ClaimJournal]).
    - Requests: one tap of a device admits one operation, the one it was shown; every request of the operator's lane has one of
      four causes; requests over the bridge act as the persona of their certificate only; tokens come from
      the daemon ([Dispatch]); an attachment resolves to exactly one open session ([Sessions]).
    - Privacy: refusals shown to clients are independent of the state ([Authorize]), derived
      scores of attestations bound to others ([Trust]).
    - Defects the model exposes are theorems as well: [signed_bytes_collision],
      [foreign_root_rotates_guardian], [import_sync_batch_leaks], [root_rotation_not_followed],
      [glob_matches_misses_starred_text], [canonical_record_loses_cr],
      [synced_successor_rejected], [appended_block_does_not_narrow],
      [translated_addresses_pass], [long_chunk_loses_frames], [dropped_stream_unmetered],
      [userinfo_hides_provider], [attachment_ignores_hours], [proxy_honours_widening_block],
      [failed_renewal_keeps_old_lease], [renew_long_ttl_panics], [renewal_orphans_secrets],
      [cascade_skips_paused], [delegated_usage_unmetered], [delegation_does_not_narrow],
      [extension_outlives_lease], [uppercase_rule_inert], [proposal_bypassed],
      [narrowed_decision_unreported], [always_covers_any_resource], [unfinished_grants_answer],
      [repair_replayable], [second_repair_never_verifies], [repair_accepts_broken_prefix],
      [wrong_key_opens_window], [idle_timeout_inert], [unclassified_arms_ungated], [session_read_escapes],
      [refused_event_takes_effect], [store_ignores_chain], [unreadable_event_bricks_store], [export_drops_seq],
      [edit_lifts_restrictions], [renewal_never_extends], [create_revives_revoked], [abandoned_becomes_active],
      [merkle_root_pads], [service_outcomes_undercounted], [closed_scope_accepts_claims].

    ** Not modelled

    Sockets, processes, databases and command lines (the emberlink-* crates, most of
    ember-daemon), third-party cryptography and parsers, serde. Of the modelled crates: badge
    weights, vault objects and presentations, the loopback projectors and the passthrough body of
    the proxy, payments, the bodies of the receipts of single events, the listing and migration of audit rows, policy
    files, notifications, the enrolment of devices, the columns of the derived tables of the stored log and its blocks, catalogs,
    badges and deposits. Of failing transactions only those are modelled that SQLite rolls back: a COMMIT that is busy and
    leaves the transaction open is not. Of the writers of the grant table the birth of a sub-persona (infra/persona.rs) and the
    retirement of a persona for a new enrolment are left out of the runs of [GrantMint].

    This file holds what the others share: results, the tactics [step_match], [inv_ok] and
    [bool_to_prop], machine integers, byte strings, sorting, the hint database [ember]. *)

From stdpp Require Import base gmap strings list fin_maps sorting pretty.
From Stdlib Require Import ZArith Lia Ascii.

Declare Scope ember_scope.
Delimit Scope ember_scope with ember.
Open Scope ember_scope.

(** ** Results: Rust's [Result<A, E>] *)

Inductive result (A E : Type) : Type :=
| Ok (a : A)
| Err (e : E).
Arguments Ok {A E} a.
Arguments Err {A E} e.

Definition result_bind {A B E} (r : result A E) (k : A → result B E) : result B E :=
  match r with
  | Ok a => k a
  | Err e => Err e
  end.

(** [let? x := e in k] is the source's [let x = e?; k]. *)
Notation "'let?' x ':=' e 'in' k" := (result_bind e (fun x => k))
  (at level 10, x name, e at level 100, k at level 200) : ember_scope.
(** [e ;? k] is the source's [e?; k]. *)
Notation "e ';?' k" := (result_bind e (fun _ => k))
  (at level 100, k at level 200, right associativity) : ember_scope.

Definition map_err {A E F} (f : E → F) (r : result A E) : result A F :=
  match r with
  | Ok a => Ok a
  | Err e => Err (f e)
  end.

Definition ok_or {A E} (o : option A) (e : E) : result A E :=
  match o with
  | Some a => Ok a
  | None => Err e
  end.

Definition is_ok {A E} (r : result A E) : bool :=
  match r with
  | Ok _ => true
  | Err _ => false
  end.

(** [for x in l { f(x)?; }] *)
Fixpoint try_for_each {A E} (f : A → result unit E) (l : list A) : result unit E :=
  match l with
  | [] => Ok tt
  | x :: l' => f x ;? try_for_each f l'
  end.

Lemma result_bind_Ok {A B E} (r : result A E) (k : A → result B E) b :
  result_bind r k = Ok b ↔ ∃ a, r = Ok a ∧ k a = Ok b.
Proof. destruct r; simpl; naive_solver. Qed.

(** Sequencing two checks. *)
Lemma seq_Ok {B E} (r : result unit E) (k : result B E) b :
  result_bind r (λ _, k) = Ok b ↔ r = Ok tt ∧ k = Ok b.
Proof. destruct r as [[]|]; simpl; naive_solver. Qed.

Lemma result_bind_Err {A B E} (r : result A E) (k : A → result B E) e :
  result_bind r k = Err e ↔ r = Err e ∨ ∃ a, r = Ok a ∧ k a = Err e.
Proof. destruct r; simpl; naive_solver. Qed.

Lemma ok_or_Ok {A E} (o : option A) (e : E) a : ok_or o e = Ok a ↔ o = Some a.
Proof. destruct o; simpl; naive_solver. Qed.

Lemma map_err_Ok {A E F} (f : E → F) (r : result A E) a : map_err f r = Ok a ↔ r = Ok a.
Proof. destruct r; simpl; naive_solver. Qed.

Lemma is_ok_true {A E} (r : result A E) : is_ok r = true ↔ ∃ a, r = Ok a.
Proof. destruct r; simpl; naive_solver. Qed.

Lemma is_ok_unit {E} (r : result unit E) : is_ok r = true ↔ r = Ok tt.
Proof. destruct r as [[]|]; simpl; naive_solver. Qed.

Lemma try_for_each_Ok {A E} (f : A → result unit E) l :
  try_for_each f l = Ok tt ↔ Forall (λ x, f x = Ok tt) l.
Proof.
  induction l as [|x l IH]; simpl; [by split|].
  rewrite result_bind_Ok, Forall_cons, <-IH. split.
  - by intros ([] & ? & ?).
  - intros [??]. by exists tt.
Qed.

(** A guard that fails when its condition holds: [if b { return Err(e); }]. *)
Lemma guard_bind_Ok {A E} (b : bool) (e : E) (k : result A E) a :
  result_bind (if b then Err e else Ok tt) (λ _, k) = Ok a ↔ b = false ∧ k = Ok a.
Proof. destruct b; simpl; naive_solver. Qed.

Lemma guard_Ok {E} (b : bool) (e : E) : (if b then Err e else Ok tt) = Ok tt ↔ b = false.
Proof. destruct b; naive_solver. Qed.

Lemma guard2_bind_Ok {A E} (b c : bool) (e : E) (k : result A E) a :
  result_bind (if b then if c then Err e else Ok tt else Ok tt) (λ _, k) = Ok a ↔
  b && c = false ∧ k = Ok a.
Proof. destruct b, c; simpl; naive_solver. Qed.

Lemma unless_false (P Q : Prop) `{Decision P} (b : bool) :
  (b = true ↔ Q) → negb (bool_decide P) && negb b = false ↔ P ∨ Q.
Proof. case_bool_decide; destruct b; simpl; naive_solver. Qed.

Create HintDb ember.
Create Rewrite HintDb ember.
#[export] Hint Rewrite @result_bind_Ok @ok_or_Ok @map_err_Ok @is_ok_true : ember.

(** Case analysis on the conditionals and matches a handler tests, in the goal
    and in a hypothesis [H : handler ... = Ok _]. *)
Ltac step_match H :=
  match type of H with
  | context [match ?x with _ => _ end] =>
      lazymatch x with context [match _ with _ => _ end] => fail | _ => idtac end;
      first [ is_var x; destruct x
            | let E := fresh "E" in destruct x eqn:E ]
  end; simplify_eq/=.
Ltac inv_ok H := repeat (step_match H; try done).
Ltac bool_to_prop :=
  repeat match goal with
  | H : bool_decide _ = true |- _ => apply bool_decide_eq_true in H
  | H : bool_decide _ = false |- _ => apply bool_decide_eq_false in H
  | H : (_ && _) = true |- _ => apply andb_true_iff in H as [? ?]
  | H : (_ || _) = false |- _ => apply orb_false_iff in H as [? ?]
  | H : negb _ = true |- _ => apply negb_true_iff in H
  | H : negb _ = false |- _ => apply negb_false_iff in H
  | H : (_ <=? _)%Z = true |- _ => apply Z.leb_le in H
  | H : (_ <=? _)%Z = false |- _ => apply Z.leb_gt in H
  | H : (_ <? _)%Z = true |- _ => apply Z.ltb_lt in H
  | H : (_ <? _)%Z = false |- _ => apply Z.ltb_ge in H
  end.

(** ** Machine integers

    An unsigned integer is a [Z]; the operations clamp or wrap at the width
    the source declares. *)

Definition u32_max : Z := 2 ^ 32 - 1.
Definition u64_max : Z := 2 ^ 64 - 1.
Definition in_u32 (z : Z) : Prop := (0 ≤ z ≤ u32_max)%Z.
Definition in_u64 (z : Z) : Prop := (0 ≤ z ≤ u64_max)%Z.

(** [u64::saturating_add], [saturating_sub], [saturating_mul]. *)
Definition u64_sat_add (a b : Z) : Z := Z.min (a + b) u64_max.
Definition u64_sat_sub (a b : Z) : Z := Z.max (a - b) 0.
Definition u64_sat_mul (a b : Z) : Z := Z.min (a * b) u64_max.

Lemma u64_sat_add_in a b : in_u64 a → in_u64 b → in_u64 (u64_sat_add a b).
Proof. unfold in_u64, u64_sat_add, u64_max. lia. Qed.

Lemma u64_sat_add_ge a b : in_u64 a → in_u64 b → (a ≤ u64_sat_add a b)%Z.
Proof. unfold in_u64, u64_sat_add, u64_max. lia. Qed.

#[export] Hint Resolve u64_sat_add_in u64_sat_add_ge : ember.

(** ** Strings

    A Rust [str] is its UTF-8 byte sequence, here Stdlib's [string]; the
    algorithms run on the list of its bytes. *)

Abbreviation bytes := (list ascii).
Definition to_bytes (s : string) : bytes := String.list_ascii_of_string s.
Definition of_bytes (b : bytes) : string := String.string_of_list_ascii b.

Lemma of_to_bytes s : of_bytes (to_bytes s) = s.
Proof. apply String.string_of_list_ascii_of_string. Qed.

Lemma to_of_bytes b : to_bytes (of_bytes b) = b.
Proof. apply String.list_ascii_of_string_of_list_ascii. Qed.

Lemma to_bytes_inj s t : to_bytes s = to_bytes t → s = t.
Proof. intros H. by rewrite <-(of_to_bytes s), H, of_to_bytes. Qed.

Lemma of_bytes_inj a b : of_bytes a = of_bytes b → a = b.
Proof. intros H. by rewrite <-(to_of_bytes a), H, to_of_bytes. Qed.

Lemma to_bytes_app s t : to_bytes (String.append s t) = to_bytes s ++ to_bytes t.
Proof. induction s as [|a s IH]; simpl; [done|]. unfold to_bytes in *. simpl. by rewrite IH. Qed.

#[export] Hint Rewrite of_to_bytes to_of_bytes to_bytes_app : ember.

(** [str::len], in bytes. *)
Definition str_len (s : string) : Z := Z.of_nat (String.length s).

(** [str::split(c)] on bytes: always at least one fragment. *)
Fixpoint split_on (c : ascii) (l : bytes) : list bytes :=
  match l with
  | [] => [[]]
  | a :: l' =>
      if bool_decide (a = c) then [] :: split_on c l'
      else match split_on c l' with
           | [] => [[a]]
           | f :: fs => (a :: f) :: fs
           end
  end.

Definition str_split (c : ascii) (s : string) : list string := of_bytes <$> split_on c (to_bytes s).

(** [[..].join(sep)] *)
Fixpoint join_on (sep : bytes) (ls : list bytes) : bytes :=
  match ls with
  | [] => []
  | [l] => l
  | l :: ls' => l ++ sep ++ join_on sep ls'
  end.

Definition str_join (sep : string) (ls : list string) : string :=
  of_bytes (join_on (to_bytes sep) (to_bytes <$> ls)).

(** [str::split_once(c)] *)
Fixpoint split_once_on (c : ascii) (l : bytes) : option (bytes * bytes) :=
  match l with
  | [] => None
  | a :: l' =>
      if bool_decide (a = c) then Some ([], l')
      else match split_once_on c l' with
           | Some (x, y) => Some (a :: x, y)
           | None => None
           end
  end.

Definition str_split_once (c : ascii) (s : string) : option (string * string) :=
  match split_once_on c (to_bytes s) with
  | Some (x, y) => Some (of_bytes x, of_bytes y)
  | None => None
  end.

(** [str::strip_prefix] / [str::starts_with] *)
Fixpoint strip_prefix_on (p l : bytes) : option bytes :=
  match p, l with
  | [], _ => Some l
  | a :: p', b :: l' => if bool_decide (a = b) then strip_prefix_on p' l' else None
  | _ :: _, [] => None
  end.

Definition starts_with_on (p l : bytes) : bool := bool_decide (is_Some (strip_prefix_on p l)).
Definition ends_with_on (p l : bytes) : bool := starts_with_on (rev p) (rev l).
Definition str_starts_with (s p : string) : bool := starts_with_on (to_bytes p) (to_bytes s).
Definition str_ends_with (s p : string) : bool := ends_with_on (to_bytes p) (to_bytes s).

(** [str::find(needle)]: the leftmost occurrence; here, what follows it. *)
Fixpoint find_on (p l : bytes) : option nat :=
  if starts_with_on p l then Some 0
  else match l with
       | [] => None
       | _ :: l' => S <$> find_on p l'
       end.

Definition str_contains (s p : string) : bool := bool_decide (is_Some (find_on (to_bytes p) (to_bytes s))).
Definition str_contains_char (s : string) (c : ascii) : bool := bool_decide (c ∈ to_bytes s).

(** [str::trim]: White_Space characters, by their UTF-8 encodings: U+0009..D,
    U+0020 (one byte); U+0085, U+00A0 (two bytes); U+1680, U+2000..200A,
    U+2028, U+2029, U+202F, U+205F, U+3000 (three bytes). *)
Definition ws1 (a : ascii) : bool :=
  let n := N_of_ascii a in ((9 <=? n) && (n <=? 13) || (n =? 32))%N.
Definition ws2 (a b : ascii) : bool :=
  let n := N_of_ascii a in let m := N_of_ascii b in
  ((n =? 194) && ((m =? 133) || (m =? 160)))%N.
Definition ws3 (a b c : ascii) : bool :=
  let n := N_of_ascii a in let m := N_of_ascii b in let k := N_of_ascii c in
  ((n =? 225) && (m =? 154) && (k =? 128)
   || (n =? 226) && (m =? 128) &&
        ((128 <=? k) && (k <=? 138) || (k =? 168) || (k =? 169) || (k =? 175))
   || (n =? 226) && (m =? 129) && (k =? 159)
   || (n =? 227) && (m =? 128) && (k =? 128))%N.

Fixpoint trim_start_on (l : bytes) : bytes :=
  match l with
  | [] => []
  | a :: l1 =>
      if ws1 a then trim_start_on l1
      else match l1 with
           | [] => l
           | b :: l2 =>
               if ws2 a b then trim_start_on l2
               else match l2 with
                    | [] => l
                    | c :: l3 => if ws3 a b c then trim_start_on l3 else l
                    end
           end
  end.

(** The same from the end, on the reversed bytes. *)
Fixpoint trim_end_rev_on (l : bytes) : bytes :=
  match l with
  | [] => []
  | a :: l1 =>
      if ws1 a then trim_end_rev_on l1
      else match l1 with
           | [] => l
           | b :: l2 =>
               if ws2 b a then trim_end_rev_on l2
               else match l2 with
                    | [] => l
                    | c :: l3 => if ws3 c b a then trim_end_rev_on l3 else l
                    end
           end
  end.

Definition trim_on (l : bytes) : bytes := rev (trim_end_rev_on (rev (trim_start_on l))).
Definition str_trim (s : string) : string := of_bytes (trim_on (to_bytes s)).

Definition str_is_empty (s : string) : bool := bool_decide (s = "").

(** Printing of unsigned integers: [u64::to_string]. *)
Definition u64_to_string (z : Z) : string := pretty (Z.to_N z).

(** [slice::sort_by]: a stable sort; [le] is "not greater". *)
Fixpoint insert_by {A} (le : A → A → bool) (x : A) (l : list A) : list A :=
  match l with
  | [] => [x]
  | y :: l' => if le x y then x :: l else y :: insert_by le x l'
  end.
Definition sort_by {A} (le : A → A → bool) (l : list A) : list A := foldr (insert_by le) [] l.

Lemma insert_by_perm {A} (le : A → A → bool) x l : insert_by le x l ≡ₚ x :: l.
Proof. induction l as [|y l IH]; simpl; [done|]. case_match; [done|]. rewrite IH. constructor. Qed.

Lemma sort_by_perm {A} (le : A → A → bool) l : sort_by le l ≡ₚ l.
Proof. induction l as [|x l IH]; simpl; [done|]. by rewrite insert_by_perm, IH. Qed.

(** *** Lemmas on the byte operations *)

Lemma strip_prefix_on_Some p l r : strip_prefix_on p l = Some r ↔ l = p ++ r.
Proof.
  revert l. induction p as [|a p IH]; intros l; simpl; [naive_solver|].
  destruct l as [|b l]; [naive_solver|].
  case_bool_decide; subst; [rewrite IH|]; naive_solver.
Qed.

Lemma starts_with_on_true p l : starts_with_on p l = true ↔ ∃ r, l = p ++ r.
Proof.
  unfold starts_with_on. rewrite bool_decide_eq_true. unfold is_Some.
  by setoid_rewrite strip_prefix_on_Some.
Qed.

Lemma ends_with_on_true p l : ends_with_on p l = true ↔ ∃ r, l = r ++ p.
Proof.
  unfold ends_with_on. rewrite starts_with_on_true. split; intros [r Hr].
  - exists (rev r). rewrite <-(rev_involutive l), Hr, rev_app_distr, rev_involutive. done.
  - exists (rev r). by rewrite Hr, rev_app_distr.
Qed.

Lemma find_on_Some p l n :
  find_on p l = Some n → ∃ pre r, l = pre ++ p ++ r ∧ length pre = n.
Proof.
  revert n. induction l as [|a l IH]; intros n; simpl.
  - destruct (starts_with_on p []) eqn:E; [|done]. intros [= <-].
    apply starts_with_on_true in E as [r ->]. by exists [], r.
  - destruct (starts_with_on p (a :: l)) eqn:E.
    + intros [= <-]. apply starts_with_on_true in E as [r ->]. by exists [], r.
    + intros H. apply fmap_Some in H as (m & Hm & ->).
      destruct (IH m Hm) as (pre & r & -> & <-). by exists (a :: pre), r.
Qed.

(** No occurrence is further left than the one [find] reports. *)
Lemma find_on_leftmost p pre r :
  ∃ n, find_on p (pre ++ p ++ r) = Some n ∧ n ≤ length pre.
Proof.
  induction pre as [|a pre (n & Hn & Hle)]; simpl.
  - exists 0. split; [|lia].
    assert (starts_with_on p (p ++ r) = true) as E by (apply starts_with_on_true; eauto).
    destruct (p ++ r) eqn:Hpr; simpl; by rewrite E.
  - destruct (starts_with_on p (a :: pre ++ p ++ r)); [exists 0; split; [done|lia]|].
    rewrite Hn. exists (S n). split; [done|lia].
Qed.

Lemma split_on_nonempty c l : split_on c l ≠ [].
Proof. destruct l as [|a l]; simpl; [done|]. case_bool_decide; [done|]. by case_match. Qed.

Lemma split_on_no_sep c l f : f ∈ split_on c l → c ∉ f.
Proof.
  revert f. induction l as [|a l IH]; intros f; simpl.
  - intros ->%list_elem_of_singleton. set_solver.
  - case_bool_decide as Ha.
    + intros [->|Hf]%elem_of_cons; [set_solver|]. by apply IH.
    + destruct (split_on c l) as [|g gs] eqn:E.
      * by destruct (split_on_nonempty c l).
      * intros [->|Hf]%elem_of_cons.
        -- intros [->|Hc]%elem_of_cons; [done|].
           apply (IH g); [set_solver|done].
        -- apply IH. set_solver.
Qed.

Lemma join_split_on c l : join_on [c] (split_on c l) = l.
Proof.
  induction l as [|a l IH]; simpl; [done|].
  pose proof (split_on_nonempty c l) as Hne.
  case_bool_decide as Ha; subst.
  - destruct (split_on c l) as [|g gs]; [done|]. by rewrite <-IH.
  - destruct (split_on c l) as [|g gs]; [done|].
    rewrite <-IH. by destruct gs.
Qed.

Lemma split_on_no_sep_id c l : c ∉ l → split_on c l = [l].
Proof.
  induction l as [|a l IH]; intros Hc; simpl; [done|].
  rewrite not_elem_of_cons in Hc. destruct Hc as [Hne Hc].
  rewrite bool_decide_eq_false_2 by done. by rewrite IH.
Qed.

Lemma split_on_app c x l : c ∉ x → split_on c (x ++ c :: l) = x :: split_on c l.
Proof.
  induction x as [|a x IH]; intros Hc; simpl.
  - by rewrite bool_decide_eq_true_2.
  - rewrite not_elem_of_cons in Hc. destruct Hc as [Hne Hc].
    rewrite bool_decide_eq_false_2 by done. by rewrite IH.
Qed.

Lemma split_join_on c ls : ls ≠ [] → Forall (λ l, c ∉ l) ls → split_on c (join_on [c] ls) = ls.
Proof.
  induction ls as [|l ls IH]; intros Hne Hf; [done|].
  apply Forall_cons in Hf as [Hl Hf]. destruct ls as [|l' ls]; [by apply split_on_no_sep_id|].
  change (join_on [c] (l :: l' :: ls)) with (l ++ c :: join_on [c] (l' :: ls)).
  rewrite split_on_app by done. f_equal. by apply IH.
Qed.

(** Bytes that no white space contains: the printable part of ASCII. *)
Definition plain_byte (a : ascii) : bool := let n := N_of_ascii a in ((33 <=? n) && (n <=? 126))%N.

Lemma plain_not_ws a b c :
  plain_byte a = true →
  ws1 a = false ∧ ws2 a b = false ∧ ws2 b a = false ∧ ws3 a b c = false ∧ ws3 c b a = false.
Proof.
  unfold plain_byte, ws1, ws2, ws3.
  generalize (N_of_ascii a) (N_of_ascii b) (N_of_ascii c). intros x y z Hx.
  repeat split; rewrite <-not_true_iff_false;
    rewrite ?andb_true_iff, ?orb_true_iff, ?andb_true_iff, ?orb_true_iff, ?andb_true_iff,
      ?N.leb_le, ?N.eqb_eq in *; lia.
Qed.

Lemma trim_start_plain a l : plain_byte a = true → trim_start_on (a :: l) = a :: l.
Proof.
  intros Ha. destruct (plain_not_ws a a a Ha) as (H1 & _). simpl. rewrite H1.
  destruct l as [|b l]; [done|]. destruct (plain_not_ws a b a Ha) as (_ & H2 & _). rewrite H2.
  destruct l as [|c l]; [done|]. by destruct (plain_not_ws a b c Ha) as (_ & _ & _ & -> & _).
Qed.

Lemma trim_end_plain a l : plain_byte a = true → trim_end_rev_on (a :: l) = a :: l.
Proof.
  intros Ha. destruct (plain_not_ws a a a Ha) as (H1 & _). simpl. rewrite H1.
  destruct l as [|b l]; [done|]. destruct (plain_not_ws a b a Ha) as (_ & _ & H2 & _). rewrite H2.
  destruct l as [|c l]; [done|]. by destruct (plain_not_ws a b c Ha) as (_ & _ & _ & _ & ->).
Qed.

(** Trimming takes the trailing white space [w] of a text with plain ends, and nothing else. *)
Lemma trim_plain_ends a l z w :
  plain_byte a = true → plain_byte z = true → Forall (λ b, ws1 b = true) w →
  trim_on (a :: l ++ z :: w) = a :: l ++ [z].
Proof.
  intros Ha Hz Hw. unfold trim_on. rewrite trim_start_plain by done.
  assert (trim_end_rev_on (rev (a :: l ++ z :: w)) = rev (a :: l ++ [z])) as ->;
    [|apply rev_involutive].
  change (a :: l ++ z :: w) with ((a :: l) ++ [z] ++ w).
  change (a :: l ++ [z]) with ((a :: l) ++ [z]).
  rewrite (assoc_L (++)), rev_app_distr. apply Forall_rev in Hw.
  induction (rev w) as [|b w' IH]; simpl.
  - rewrite rev_app_distr. by apply trim_end_plain.
  - apply Forall_cons in Hw as [Hb Hw]. rewrite Hb. by apply IH.
Qed.

Lemma split_once_on_Some c l x y :
  split_once_on c l = Some (x, y) ↔ l = x ++ c :: y ∧ c ∉ x.
Proof.
  revert x y. induction l as [|a l IH]; intros x y; simpl.
  - split; [done|]. intros [H _]. by destruct x.
  - case_bool_decide as Ha; subst.
    + split; [intros [= <- <-]; set_solver|].
      intros [H Hx]. destruct x as [|b x]; simplify_eq/=; [done|]. set_solver.
    + destruct (split_once_on c l) as [[x' y']|] eqn:E.
      * split.
        -- intros [= <- <-]. destruct (proj1 (IH x' y') eq_refl) as [-> ?]. set_solver.
        -- intros [H Hx]. destruct x as [|b x]; simplify_eq/=.
           assert (Some (x', y') = Some (x, y)) as [= -> ->]; [|done].
           apply IH. set_solver.
      * split; [done|]. intros [H Hx]. destruct x as [|b x]; simplify_eq/=.
        assert (None = Some (x, y)); [|done]. apply IH. set_solver.
Qed.
