(* ===== verification/Glob.v ===== *)
(** * Glob: the two pattern matchers of the grant algebra

    [wildcard_match] (crates/core-grants/src/scope.rs) splits the pattern at its
    stars and searches the fragments greedily; it decides attenuation.
    [glob_matches] (crates/core-grant-types/src/grant_chain.rs) backtracks to the
    last star and also knows [?]; it decides which statements apply to a request.
    Both are compared with the languages [star_lang] and [glob_lang], the
    declarative reading of a pattern.  The backtracking loop runs on fuel
    [glob_fuel], which [glob_loop_total] shows to be enough for every input. *)

From S2P Require Import Prelude.
From stdpp Require Import base list sets strings.
From Stdlib Require Import Ascii Lia.

Definition star : ascii := "*"%char.
Definition qmark : ascii := "?"%char.

(** ** Reference semantics *)

(** [s] belongs to the pattern [p], where a star is any run of bytes. *)
Inductive star_lang : bytes → bytes → Prop :=
| sl_nil : star_lang [] []
| sl_lit a p s : a ≠ star → star_lang p s → star_lang (a :: p) (a :: s)
| sl_star p g s : star_lang p s → star_lang (star :: p) (g ++ s).

(** The same with [?] for exactly one byte. *)
Inductive glob_lang : bytes → bytes → Prop :=
| gl_nil : glob_lang [] []
| gl_one c p s : glob_lang p s → glob_lang (qmark :: p) (c :: s)
| gl_lit a p s : a ≠ star → a ≠ qmark → glob_lang p s → glob_lang (a :: p) (a :: s)
| gl_star p g s : glob_lang p s → glob_lang (star :: p) (g ++ s).

Create HintDb glob.
#[export] Hint Constructors star_lang glob_lang : glob.

(** ** [wildcard_match] *)

(** The loop over the middle fragments; the cursor is the suffix it leaves. *)
Fixpoint mid_loop (frags : list bytes) (cur : bytes) : option bytes :=
  match frags with
  | [] => Some cur
  | frag :: frags' =>
      if bool_decide (frag = []) then mid_loop frags' cur
      else match find_on frag cur with
           | Some idx => mid_loop frags' (drop (idx + length frag) cur)
           | None => None
           end
  end.

Definition wildcard_match_on (pattern s : bytes) : bool :=
  if negb (bool_decide (star ∈ pattern)) then bool_decide (pattern = s)
  else
    let parts := split_on star pattern in
    if bool_decide (length parts = 1) then bool_decide (pattern = s)
    else
      let first := default [] (head parts) in
      match strip_prefix_on first s with
      | None => false
      | Some cursor =>
          match mid_loop (removelast (tail parts)) cursor with
          | None => false
          | Some cursor' =>
              let last := List.last parts [] in
              if bool_decide (last = []) then true
              else ends_with_on last cursor' && bool_decide (length last ≤ length cursor')
          end
      end.

Definition wildcard_match (pattern s : string) : bool :=
  wildcard_match_on (to_bytes pattern) (to_bytes s).

(** ** [glob_matches] *)

Fixpoint drop_stars (p : bytes) : bytes :=
  match p with
  | a :: p' => if bool_decide (a = star) then drop_stars p' else p
  | [] => []
  end.

(** One turn of [while si < s.len()] per unit of fuel. [p] and [s] are the
    suffixes at [pi] and [si]; [bt] holds those at [star_pi + 1] and [star_si],
    and is [None] while [star_pi == usize::MAX]. *)
Fixpoint glob_loop (fuel : nat) (p s : bytes) (bt : option (bytes * bytes)) : option bool :=
  match fuel with
  | 0 => None
  | S fuel =>
      match s with
      | [] => Some (bool_decide (drop_stars p = []))
      | c :: s' =>
          let backtrack :=
            match bt with
            | Some (sp, ss) => glob_loop fuel sp (tail ss) (Some (sp, tail ss))
            | None => Some false
            end in
          match p with
          | a :: p' =>
              if bool_decide (a = qmark) || bool_decide (a = c) then glob_loop fuel p' s' bt
              else if bool_decide (a = star) then glob_loop fuel p' s (Some (p', s))
              else backtrack
          | [] => backtrack
          end
      end
  end.

Definition glob_fuel (p s : bytes) : nat := (length s + 2) * ((length s + 1) * (length p + 1)).

Definition glob_matches_on (p s : bytes) : bool :=
  default false (glob_loop (glob_fuel p s) p s None).

Definition glob_matches (pattern s : string) : bool :=
  glob_matches_on (to_bytes pattern) (to_bytes s).

(** ** Facts about the languages *)

Lemma star_lang_nil_inv s : star_lang [] s → s = [].
Proof. by inversion 1. Qed.

Lemma star_lang_lit_inv a p s :
  a ≠ star → star_lang (a :: p) s → ∃ s', s = a :: s' ∧ star_lang p s'.
Proof. intros Ha H. inversion H; subst; [eauto|done]. Qed.

Lemma star_lang_star_inv p s :
  star_lang (star :: p) s → ∃ g s', s = g ++ s' ∧ star_lang p s'.
Proof. inversion 1; subst; [done|eauto]. Qed.

Lemma star_lang_no_star p s : star ∉ p → star_lang p s ↔ p = s.
Proof.
  revert s. induction p as [|a p IH]; intros s Hp.
  - split; [by intros ->%star_lang_nil_inv|intros <-; constructor].
  - rewrite not_elem_of_cons in Hp. destruct Hp as [Ha Hp]. split.
    + intros (s' & -> & Hs)%star_lang_lit_inv; [|done]. by apply IH in Hs as ->.
    + intros <-. constructor; [done|]. by apply IH.
Qed.

Lemma star_lang_app_split p1 p2 s :
  star_lang (p1 ++ p2) s → ∃ s1 s2, s = s1 ++ s2 ∧ star_lang p2 s2.
Proof.
  revert s. induction p1 as [|a p1 IH]; intros s H; [by exists [], s|].
  destruct (decide (a = star)) as [->|Ha].
  - apply star_lang_star_inv in H as (g & s' & -> & H).
    destruct (IH _ H) as (s1 & s2 & -> & ?). exists (g ++ s1), s2. by rewrite (assoc_L (++)).
  - apply star_lang_lit_inv in H as (s' & -> & H); [|done].
    destruct (IH _ H) as (s1 & s2 & -> & ?). by exists (a :: s1), s2.
Qed.

(** A pattern that, read as a plain string, belongs to [g] denotes a sublanguage of [g]. *)
Lemma star_lang_trans g p s : star_lang g p → star_lang p s → star_lang g s.
Proof.
  intros Hg. revert s. induction Hg as [|a g p Ha Hg IH|g p1 p2 Hg IH]; intros s Hs.
  - done.
  - apply star_lang_lit_inv in Hs as (s' & -> & Hs); [|done]. auto with glob.
  - apply star_lang_app_split in Hs as (s1 & s2 & -> & Hs). auto with glob.
Qed.

Lemma star_lang_glob_lang p s : star_lang p s → glob_lang p s.
Proof.
  induction 1 as [|a p s Ha H IH|p g s H IH]; auto with glob.
  destruct (decide (a = qmark)) as [->|]; auto with glob.
Qed.

(** ** Correctness of [wildcard_match] *)

(** The text after the first fragment: each further fragment occurs after a gap,
    and the last one ends the text. *)
Fixpoint tail_lang (frags : list bytes) (t : bytes) : Prop :=
  match frags with
  | [] => t = []
  | f :: fs => ∃ g r, t = g ++ f ++ r ∧ tail_lang fs r
  end.

Lemma tail_lang_mono frags g t : frags ≠ [] → tail_lang frags t → tail_lang frags (g ++ t).
Proof.
  destruct frags as [|f fs]; [done|]. intros _ (g' & r & -> & H).
  exists (g ++ g'), r. by rewrite <-(assoc_L (++)).
Qed.

Lemma star_lang_parts p first rest s :
  split_on star p = first :: rest →
  star_lang p s ↔ ∃ t, s = first ++ t ∧ tail_lang rest t.
Proof.
  revert first rest s. induction p as [|a p IH]; intros first rest s; simpl.
  - intros [= <- <-]. split.
    + intros ->%star_lang_nil_inv. by exists [].
    + intros (t & -> & ->). constructor.
  - destruct (split_on star p) as [|f fs] eqn:E; [by destruct (split_on_nonempty star p)|].
    case_bool_decide as Ha; intros [= <- <-].
    + subst a. split.
      * intros (g & s' & -> & Hs)%star_lang_star_inv.
        apply (IH f fs) in Hs as (t & -> & Ht); [|done]. exists (g ++ f ++ t). split; [done|]. by exists g, t.
      * intros (? & -> & (g & r & -> & Hr)). rewrite app_nil_l. apply sl_star.
        apply (IH f fs); [done|]. by exists r.
    + split.
      * intros (s' & -> & Hs)%star_lang_lit_inv; [|done].
        apply (IH f fs) in Hs as (t & -> & Ht); [|done]. by exists t.
      * intros (t & -> & Ht). simpl. constructor; [done|]. apply (IH f fs); [done|]. by exists t.
Qed.

Lemma find_on_tail_lang f fs t idx :
  fs ≠ [] → find_on f t = Some idx →
  tail_lang (f :: fs) t ↔ tail_lang fs (drop (idx + length f) t).
Proof.
  intros Hfs Hfind. pose proof Hfind as (pre & r & -> & <-)%find_on_Some.
  rewrite (assoc_L (++)), drop_app_length' by (rewrite length_app; done).
  split; [|intros H; exists pre, r; by rewrite (assoc_L (++))].
  intros (g & r' & Heq & Hr). rewrite <-(assoc_L (++)) in Heq.
  destruct (find_on_leftmost f g r') as (n & Hn & Hle).
  rewrite <-Heq, Hfind in Hn. simplify_eq.
  rewrite !(assoc_L (++)) in Heq. apply app_eq_inv in Heq as [(k & Hk & ->)|(k & Hk & ->)].
  - apply (f_equal length) in Hk. rewrite !length_app in Hk.
    assert (k = []) as -> by (apply length_zero_iff_nil; lia). done.
  - by apply tail_lang_mono.
Qed.

Lemma find_on_None_tail_lang f fs t : find_on f t = None → ¬ tail_lang (f :: fs) t.
Proof.
  intros Hn (g & r & -> & _). destruct (find_on_leftmost f g r) as (n & Hs & _). congruence.
Qed.

Lemma tail_lang_nil_frag fs t : fs ≠ [] → tail_lang ([] :: fs) t ↔ tail_lang fs t.
Proof.
  intros Hfs. split.
  - intros (g & r & -> & H). by apply tail_lang_mono.
  - intros H. by exists [], t.
Qed.

(** Greedy search loses nothing. *)
Lemma mid_loop_spec mids l t :
  tail_lang (mids ++ [l]) t ↔
  match mid_loop mids t with
  | Some cur => ∃ g, cur = g ++ l
  | None => False
  end.
Proof.
  revert t. induction mids as [|f mids IH]; intros t; simpl.
  - split; [intros (g & r & -> & ->); exists g; by rewrite app_nil_r|].
    intros (g & ->). exists g, []. by rewrite app_nil_r.
  - assert (mids ++ [l] ≠ []) as Hne by (by destruct mids).
    case_bool_decide as Hf; [subst f|].
    + rewrite <-IH. by apply (tail_lang_nil_frag (mids ++ [l])).
    + destruct (find_on f t) as [idx|] eqn:E.
      * rewrite <-IH. by apply (find_on_tail_lang f (mids ++ [l])).
      * split; [|done]. by apply (find_on_None_tail_lang f (mids ++ [l])).
Qed.

Lemma split_on_star_two p : star ∈ p → ∃ first mids l, split_on star p = first :: mids ++ [l].
Proof.
  intros Hs. destruct (split_on star p) as [|f rest] eqn:E; [by destruct (split_on_nonempty star p)|].
  destruct rest as [|g rest] using rev_ind; [|by exists f, rest, g].
  pose proof (join_split_on star p) as Hj. rewrite E in Hj. simpl in Hj. subst f.
  exfalso. apply (split_on_no_sep star p p); [rewrite E; set_solver|done].
Qed.

Lemma wildcard_match_on_spec p s : wildcard_match_on p s = true ↔ star_lang p s.
Proof.
  unfold wildcard_match_on. case_bool_decide as Hstar; simpl.
  2: { rewrite bool_decide_eq_true. symmetry. by apply star_lang_no_star. }
  destruct (split_on_star_two p Hstar) as (first & mids & l & E).
  rewrite (star_lang_parts p first (mids ++ [l]) s E), E.
  rewrite bool_decide_eq_false_2 by (simpl; rewrite length_app; simpl; lia).
  cbn [default head tail from_option id]. rewrite removelast_last.
  replace (List.last (first :: mids ++ [l]) []) with l
    by (symmetry; apply (last_last (first :: mids))).
  destruct (strip_prefix_on first s) as [t|] eqn:Es.
  2: { split; [done|]. intros (t & Ht%strip_prefix_on_Some & _). congruence. }
  apply strip_prefix_on_Some in Es as ->.
  transitivity (tail_lang (mids ++ [l]) t).
  2: { split; [eauto|]. by intros (t' & ->%app_inv_head & ?). }
  rewrite mid_loop_spec. destruct (mid_loop mids t) as [cur|]; [|done].
  case_bool_decide as Hl; [subst l; split; [exists cur; by rewrite app_nil_r|done]|].
  rewrite andb_true_iff, ends_with_on_true, bool_decide_eq_true.
  split; [tauto|]. intros [g ->]. rewrite length_app. split; [eauto|lia].
Qed.

(** ** Correctness of [glob_matches] *)

Lemma glob_lang_nil_inv s : glob_lang [] s → s = [].
Proof. by inversion 1. Qed.

Lemma glob_lang_star_inv p s : glob_lang (star :: p) s → ∃ g s', s = g ++ s' ∧ glob_lang p s'.
Proof. inversion 1; subst; [done|eauto]. Qed.

Lemma glob_lang_star_mono p g s : glob_lang (star :: p) s → glob_lang (star :: p) (g ++ s).
Proof.
  intros (g' & s' & -> & H)%glob_lang_star_inv. rewrite (assoc_L (++)). by constructor.
Qed.

(** A star-free pattern consumes exactly as many bytes as it has. *)
Lemma glob_lang_app_inv u p s :
  star ∉ u → glob_lang (u ++ p) s → ∃ v r, s = v ++ r ∧ length v = length u ∧ glob_lang p r.
Proof.
  revert s. induction u as [|a u IH]; intros s Hu H; simpl in *; [by exists [], s|].
  rewrite not_elem_of_cons in Hu. destruct Hu as [Ha Hu].
  inversion H as [|c ? s' H'|? ? s' ? ? H'|]; subst; [| |done];
    destruct (IH s' Hu H') as (v & r & -> & <- & Hr); [exists (c :: v), r|exists (a :: v), r]; done.
Qed.

Lemma drop_stars_nil p : drop_stars p = [] ↔ glob_lang p [].
Proof.
  induction p as [|a p IH]; simpl; [by split; [constructor|]|].
  case_bool_decide as Ha; [subst a; rewrite IH|].
  - split; [intros H; by apply (gl_star p [] [])|].
    by intros (g & s' & [-> ->]%eq_sym%app_eq_nil & H)%glob_lang_star_inv.
  - split; [done|]. intros H. inversion H; subst; done.
Qed.

Definition bt_inv (P T : bytes) (p s : bytes) (bt : option (bytes * bytes)) : Prop :=
  length s ≤ length T ∧ length p ≤ length P ∧
  match bt with
  | Some (sp, ss) => length sp ≤ length P ∧ length s ≤ length ss ∧ length ss ≤ length T
  | None => True
  end.

Definition glob_measure (P T : bytes) (p s : bytes) (bt : option (bytes * bytes)) : nat :=
  match bt with
  | Some (_, ss) => length ss
  | None => S (length T)
  end * ((length T + 1) * (length P + 1)) + length s * (length P + 1) + length p.

(** The loop of [glob_matches] ends: the measure decreases lexicographically in
    the position of the last star, the text and the pattern. *)
Lemma glob_loop_total P T fuel p s bt :
  bt_inv P T p s bt → glob_measure P T p s bt < fuel → ∃ b, glob_loop fuel p s bt = Some b.
Proof.
  revert p s bt. induction fuel as [|fuel IH]; intros p s bt Hinv Hm; [lia|].
  unfold bt_inv, glob_measure in *. simpl.
  destruct s as [|c s]; [eauto|].
  assert (∀ sp ss, bt = Some (sp, ss) →
    ∃ b, glob_loop fuel sp (tail ss) (Some (sp, tail ss)) = Some b) as Hbt.
  { intros sp ss ->. destruct ss as [|d ss]; simpl in *; [lia|]. apply IH; simpl; [lia|]. nia. }
  destruct p as [|a p]; [destruct bt as [[sp ss]|]; eauto|].
  case_bool_decide; simpl; [|case_bool_decide; simpl; [|case_bool_decide]].
  1-2: apply IH; simpl in *; destruct bt as [[sp ss]|]; simpl in *; nia.
  - apply IH; simpl in *; destruct bt as [[sp ss]|]; simpl in *; try lia; nia.
  - destruct bt as [[sp ss]|]; eauto.
Qed.

Lemma glob_matches_on_total p s :
  ∃ b, glob_loop (glob_fuel p s) p s None = Some b ∧ glob_matches_on p s = b.
Proof.
  destruct (glob_loop_total p s (glob_fuel p s) p s None) as [b Hb].
  - unfold bt_inv. lia.
  - unfold glob_measure, glob_fuel. nia.
  - exists b. unfold glob_matches_on. by rewrite Hb.
Qed.

Lemma glob_loop_sound fuel p s bt :
  glob_loop fuel p s bt = Some true →
  glob_lang p s ∨ ∃ sp ss g t, bt = Some (sp, ss) ∧ ss = g ++ t ∧ glob_lang sp t.
Proof.
  revert p s bt. induction fuel as [|fuel IH]; intros p s bt H; [done|]. simpl in H.
  destruct s as [|c s].
  { left. apply drop_stars_nil. by simplify_eq; case_bool_decide. }
  assert (∀ sp ss, bt = Some (sp, ss) →
    glob_loop fuel sp (tail ss) (Some (sp, tail ss)) = Some true →
    ∃ sp ss g t, bt = Some (sp, ss) ∧ ss = g ++ t ∧ glob_lang sp t) as Hbt.
  { intros sp ss -> H'. assert (∃ h, ss = h ++ tail ss) as [h Hh].
    { destruct ss as [|d ss]; [by exists []|by exists [d]]. }
    apply IH in H' as [H'|(sp' & ss' & g & t & ? & ? & H')]; simplify_eq.
    - exists sp, ss, h, (tail ss). done.
    - exists sp', ss, (h ++ g), t. split; [done|]. split; [|done].
      rewrite Hh at 1. rewrite <-(assoc_L (++)). by f_equal. }
  destruct p as [|a p]; [destruct bt as [[sp ss]|]; [right; eauto|done]|].
  destruct (bool_decide (a = qmark) || bool_decide (a = c)) eqn:Eac.
  - apply IH in H as [H|H]; [left|by right].
    destruct (decide (a = qmark)) as [->|Hq]; [by constructor|].
    apply orb_true_iff in Eac as [?|?]; bool_to_prop; [done|subst a].
    destruct (decide (c = star)) as [->|]; [by apply (gl_star p [star] s)|by constructor].
  - case_bool_decide as Ha; [subst a|destruct bt as [[sp ss]|]; [right; eauto|done]].
    apply IH in H as [H|(sp & ss & g & t & ? & ? & H)]; left; simplify_eq.
    + by apply (gl_star p [] (c :: s)).
    + replace (c :: s) with (g ++ t) by done. by constructor.
Qed.

(** The state of the loop relative to its last star: the pattern between the star
    and the cursor is star-free and has consumed exactly the text between them. *)
Definition bt_aligned (p s : bytes) (bt : option (bytes * bytes)) : Prop :=
  match bt with
  | Some (sp, ss) =>
      ∃ u v, sp = u ++ p ∧ ss = v ++ s ∧ length u = length v ∧ star ∉ u ∧ star ∉ ss
  | None => True
  end.

(** An alternative start of the last star that succeeds also succeeds from the cursor on. *)
Lemma bt_alternative sp ss p s g t :
  bt_aligned p s (Some (sp, ss)) → ss = g ++ t → glob_lang sp t →
  ∃ h r, s = h ++ r ∧ glob_lang p r ∧ (length g = length h).
Proof.
  intros (u & v & -> & -> & Huv & Hu & _) Heq Hsp.
  destruct (glob_lang_app_inv u p t Hu Hsp) as (w & r & -> & Hw & Hr).
  rewrite (assoc_L (++)) in Heq. apply app_eq_inv in Heq as [(k & Hk & ->)|(k & Hk & ->)].
  - apply (f_equal length) in Hk. rewrite !length_app in Hk.
    assert (k = []) as -> by (apply length_zero_iff_nil; lia).
    exists [], s. simpl in *. split; [done|]. split; [done|]. lia.
  - exists k, r. split; [done|]. split; [done|].
    apply (f_equal length) in Hk. rewrite !length_app in Hk. lia.
Qed.

(** What a [false] answer excludes: a match from the cursor, and a match from any
    later start of the last star. *)
Definition excludes (p s : bytes) (bt : option (bytes * bytes)) : Prop :=
  ¬ glob_lang p s ∧
  ∀ sp ss g t, bt = Some (sp, ss) → ss = g ++ t → g ≠ [] → ¬ glob_lang sp t.

Lemma excludes_backtrack p s sp ss :
  bt_aligned p s (Some (sp, ss)) → s ≠ [] → ¬ glob_lang p s →
  excludes sp (tail ss) (Some (sp, tail ss)) → excludes p s (Some (sp, ss)).
Proof.
  intros (u & v & -> & -> & _) Hs Hp [H1 H2]. split; [done|].
  intros sp ss g t [= <- <-] Heq Hg Ht.
  destruct g as [|d g]; [done|]. destruct (v ++ s) as [|e l] eqn:E; simplify_eq/=.
  destruct g as [|e g]; [by apply H1|]. by eapply (H2 _ _ (e :: g) t).
Qed.

Lemma glob_loop_complete fuel p s bt :
  star ∉ s → bt_aligned p s bt → glob_loop fuel p s bt = Some false → excludes p s bt.
Proof.
  revert p s bt. induction fuel as [|fuel IH]; intros p s bt Hs Hal H; [done|]. simpl in H.
  destruct s as [|c s].
  { simplify_eq. case_bool_decide as Hd; [done|]. rewrite drop_stars_nil in Hd.
    split; [done|]. intros sp ss g t -> Heq Hg Ht.
    destruct (bt_alternative _ _ _ _ _ _ Hal Heq Ht) as (h & r & Hh & _ & Hlen).
    destruct h, g; done. }
  assert (∀ q, ¬ glob_lang q (c :: s) → bt_aligned q (c :: s) bt →
    match bt with
    | Some (sp, ss) => glob_loop fuel sp (tail ss) (Some (sp, tail ss))
    | None => Some false
    end = Some false → excludes q (c :: s) bt) as Hback.
  { intros q Hq Hqal Hl. destruct bt as [[sp ss]|]; [|by split].
    apply excludes_backtrack; [done|done|done|].
    destruct Hqal as (u & v & ? & ? & ? & ? & Hss).
    assert (star ∉ tail ss) by (destruct ss; set_solver).
    apply IH; [done| |done]. exists [], []. set_solver. }
  rewrite not_elem_of_cons in Hs. destruct Hs as [Hc Hs].
  destruct p as [|a p]; [apply Hback; [by inversion 1|done|done]|].
  destruct (bool_decide (a = qmark) || bool_decide (a = c)) eqn:Eac.
  - assert (a ≠ star) as Ha.
    { intros ->. apply orb_true_iff in Eac as [?|?]; bool_to_prop; [discriminate|congruence]. }
    destruct (IH p s bt) as [H1 H2]; [done| |done|].
    { destruct bt as [[sp ss]|]; [|done]. destruct Hal as (u & v & -> & -> & ? & ? & ?).
      exists (u ++ [a]), (v ++ [c]). rewrite <-!(assoc_L (++)), !length_app. simpl. set_solver by lia. }
    split; [|done]. intros Hg. apply H1. inversion Hg; subst; done.
  - apply orb_false_iff in Eac as [??]; bool_to_prop.
    case_bool_decide as Ha; [subst a|apply Hback; [|done|done]; intros Hg; inversion Hg; subst; done].
    destruct (IH p (c :: s) (Some (p, c :: s))) as [Hno Halt];
      [set_solver|exists [], []; set_solver|done|].
    assert (¬ glob_lang (star :: p) (c :: s)) as Hn.
    { intros (g & t & Heq & Ht)%glob_lang_star_inv. destruct g as [|d g].
      - simpl in Heq. by subst t.
      - by eapply (Halt p (c :: s) (d :: g) t). }
    split; [done|]. intros sp ss g t -> Heq Hg Ht.
    destruct (bt_alternative _ _ _ _ _ _ Hal Heq Ht) as (h & r & Hh & Hr & _).
    apply Hn. rewrite Hh. by apply glob_lang_star_mono.
Qed.

Lemma glob_matches_on_sound p s : glob_matches_on p s = true → glob_lang p s.
Proof.
  destruct (glob_matches_on_total p s) as (b & Hb & ->). intros ->.
  apply glob_loop_sound in Hb as [|(? & ? & ? & ? & ? & _)]; done.
Qed.

Lemma glob_matches_on_complete p s : star ∉ s → glob_lang p s → glob_matches_on p s = true.
Proof.
  intros Hs Hl. destruct (glob_matches_on_total p s) as ([] & Hb & ->); [done|].
  apply glob_loop_complete in Hb as [Hn _]; done.
Qed.

Lemma glob_matches_sound p s : glob_matches p s = true → glob_lang (to_bytes p) (to_bytes s).
Proof. apply glob_matches_on_sound. Qed.

Lemma wildcard_match_true p s :
  wildcard_match p s = true ↔ star_lang (to_bytes p) (to_bytes s).
Proof. apply wildcard_match_on_spec. Qed.

(** Attenuation composes: a pattern admitted by [g] admits only what [g] admits. *)
Lemma wildcard_match_trans g p s :
  wildcard_match g p = true → wildcard_match p s = true → wildcard_match g s = true.
Proof. rewrite !wildcard_match_true. apply star_lang_trans. Qed.

Lemma wildcard_match_refl p : wildcard_match p p = true.
Proof.
  apply wildcard_match_true. induction (to_bytes p) as [|a l IH]; [constructor|].
  destruct (decide (a = star)) as [->|]; [by apply (sl_star l [star] l)|by constructor].
Qed.

(** A request string admitted by attenuation is admitted by the authorizer's matcher,
    as long as it has no star itself. *)
Lemma wildcard_match_glob_matches p s :
  star ∉ to_bytes s → wildcard_match p s = true → glob_matches p s = true.
Proof.
  intros Hs Hw%wildcard_match_true. apply glob_matches_on_complete; [done|].
  by apply star_lang_glob_lang.
Qed.

#[export] Hint Resolve wildcard_match_refl wildcard_match_glob_matches : ember.

(** ** Properties *)

(** The greedy fragment search of [wildcard_match] decides exactly the
    language of the pattern, where a star stands for any run of bytes: it neither
    admits a string outside the pattern nor misses one inside it. *)
Theorem wildcard_match_correct (pattern s : string) :
  wildcard_match pattern s = true ↔ star_lang (to_bytes pattern) (to_bytes s).
Proof. apply wildcard_match_on_spec. Qed.

(** On a text without a star, the backtracking loop of [glob_matches] ends
    and answers exactly the language of the pattern with [*] and [?]. *)
Theorem glob_matches_correct (pattern s : string) (Hs : star ∉ to_bytes s) :
  (∃ b, glob_loop (glob_fuel (to_bytes pattern) (to_bytes s)) (to_bytes pattern) (to_bytes s) None
        = Some b) ∧
  (glob_matches pattern s = true ↔ glob_lang (to_bytes pattern) (to_bytes s)).
Proof.
  destruct (glob_matches_on_total (to_bytes pattern) (to_bytes s)) as (b & Hb & _).
  split; [eauto|]. split; [apply glob_matches_on_sound|by apply glob_matches_on_complete].
Qed.

Lemma glob_matches_correct_witness :
  glob_matches "acme/*" "acme/widgets" = true ∧
  glob_lang (to_bytes "acme/*") (to_bytes "acme/widgets").
Proof.
  assert (star ∉ to_bytes "acme/widgets") as Hs
    by (apply (bool_decide_eq_false (star ∈ to_bytes "acme/widgets")); vm_compute; reflexivity).
  assert (glob_matches "acme/*" "acme/widgets" = true) as Hm by (vm_compute; reflexivity).
  split; [exact Hm|].
  exact (proj1 (proj2 (glob_matches_correct "acme/*" "acme/widgets" Hs)) Hm).
Defined.

(** A text that contains a star can be missed: the literal comparison is
    tried before the star case, so a star of the pattern is spent on a star of the text
    without recording a backtracking point. The pattern denotes the text, the matcher
    refuses it. *)
Theorem glob_matches_misses_starred_text :
  glob_lang (to_bytes "*a") (to_bytes "*ba") ∧ glob_matches "*a" "*ba" = false.
Proof.
  split; [|vm_compute; reflexivity].
  apply (gl_star (to_bytes "a") (to_bytes "*b") (to_bytes "a")).
  constructor; [done|done|constructor].
Qed.
