(* ===== verification/Numbers.v ===== *)
(** * Decimal text

    The conversions between numbers and text of Rust's standard library that the sources use:
    [str::parse] for the integer types, with its four errors, and for [f32], correctly rounded;
    and the lemmas that parsing inverts printing. *)

From stdpp Require Import base gmap sets list strings pretty.
From Stdlib Require Import Ascii Lia ZArith SpecFloat.
From S2P Require Import Prelude CoreTypes.

Local Infix "+:+" := String.append (at level 60, right associativity).

(** ** Integers *)

(** [std::num::IntErrorKind], as far as base ten integers meet it. *)
Inductive ParseIntError := PIE_Empty | PIE_InvalidDigit | PIE_PosOverflow | PIE_NegOverflow.

Definition ParseIntError_display (e : ParseIntError) : string :=
  match e with
  | PIE_Empty => "cannot parse integer from empty string"
  | PIE_InvalidDigit => "invalid digit found in string"
  | PIE_PosOverflow => "number too large to fit in target type"
  | PIE_NegOverflow => "number too small to fit in target type"
  end.

(** [char::to_digit(10)] *)
Definition to_digit (a : ascii) : option Z :=
  if in_range 48 57 a then Some (Z.of_N (N_of_ascii a) - 48)%Z else None.

(** The loop over the digits: every multiplication and addition is checked against the
    range [lo..=hi] of the type; a byte that is not a digit is reported first. *)
Fixpoint digits_loop (neg : bool) (lo hi acc : Z) (l : bytes) : result Z ParseIntError :=
  match l with
  | [] => Ok acc
  | a :: l' =>
      match to_digit a with
      | None => Err PIE_InvalidDigit
      | Some d =>
          let overflow := if neg then PIE_NegOverflow else PIE_PosOverflow in
          let mul := (acc * 10)%Z in
          if negb ((lo <=? mul) && (mul <=? hi))%Z then Err overflow
          else let next := if neg then (mul - d)%Z else (mul + d)%Z in
               if negb ((lo <=? next) && (next <=? hi))%Z then Err overflow
               else digits_loop neg lo hi next l'
      end
  end.

Definition plus_sign : ascii := "+"%char.
Definition minus_sign : ascii := "-"%char.

(** [from_str_radix(s, 10)] for a type with the range [lo..=hi]. A lone sign is an invalid
    digit; a minus sign is only special for signed types. *)
Definition parse_integer (lo hi : Z) (s : string) : result Z ParseIntError :=
  match to_bytes s with
  | [] => Err PIE_Empty
  | a :: rest =>
      if (bool_decide (a = plus_sign) || bool_decide (a = minus_sign)) && bool_decide (rest = [])
      then Err PIE_InvalidDigit
      else if bool_decide (a = plus_sign) then digits_loop false lo hi 0 rest
      else if bool_decide (a = minus_sign) && (lo <? 0)%Z then digits_loop true lo hi 0 rest
      else digits_loop false lo hi 0 (a :: rest)
  end.

Definition parse_u8 : string → result Z ParseIntError := parse_integer 0 (2 ^ 8 - 1).
Definition parse_u16 : string → result Z ParseIntError := parse_integer 0 (2 ^ 16 - 1).
Definition parse_u32 : string → result Z ParseIntError := parse_integer 0 u32_max.
Definition parse_u64 : string → result Z ParseIntError := parse_integer 0 u64_max.
(** [usize] on the 64-bit targets the programs are built for. *)
Definition parse_usize : string → result Z ParseIntError := parse_integer 0 u64_max.
Definition parse_i64 : string → result Z ParseIntError :=
  parse_integer (- 2 ^ 63) (2 ^ 63 - 1).

Definition i64_to_string (z : Z) : string :=
  if (z <? 0)%Z then "-" +:+ u64_to_string (- z) else u64_to_string z.

(** ** Floats *)

Inductive ParseFloatError := PFE_Empty | PFE_Invalid.
Definition ParseFloatError_display (e : ParseFloatError) : string :=
  match e with
  | PFE_Empty => "cannot parse float from empty string"
  | PFE_Invalid => "invalid float literal"
  end.

(** The digits a text starts with: how many, their value after [acc], and the rest. *)
Fixpoint take_digits (acc : Z) (l : bytes) : nat * Z * bytes :=
  match l with
  | a :: l' =>
      match to_digit a with
      | Some d => let '(n, v, r) := take_digits (acc * 10 + d) l' in (S n, v, r)
      | None => (0, acc, l)
      end
  | [] => (0, acc, [])
  end.

(** The exponent is accumulated only below 0x10000. *)
Fixpoint take_exponent (acc : Z) (l : bytes) : nat * Z * bytes :=
  match l with
  | a :: l' =>
      match to_digit a with
      | Some d =>
          let '(n, v, r) := take_exponent (if (acc <? 65536)%Z then (acc * 10 + d)%Z else acc) l' in
          (S n, v, r)
      | None => (0, acc, l)
      end
  | [] => (0, acc, [])
  end.

Definition ascii_lower (a : ascii) : ascii :=
  if in_range 65 90 a then ascii_of_N (N_of_ascii a + 32) else a.
Definition str_to_ascii_lowercase (s : string) : string := of_bytes (ascii_lower <$> to_bytes s).

(** [m * 10^e] with a sign, rounded to the nearest binary32, ties to even. *)
Definition f32_of_decimal (sign : bool) (m e : Z) : spec_float :=
  match m with
  | Zpos p =>
      if (0 <=? e)%Z then binary_normalize 24 128 ((if sign then -1 else 1) * (m * 10 ^ e)) 0 sign
      else match (10 ^ (- e))%Z with
           | Zpos d => SFdiv 24 128 (S754_finite sign p 0) (S754_finite false d 0)
           | _ => S754_nan
           end
  | _ => S754_zero sign
  end.

(** [Exp?] to the end of the text. *)
Definition parse_exponent (l : bytes) : option Z :=
  match l with
  | [] => Some 0%Z
  | a :: l1 =>
      if bool_decide (ascii_lower a = "e"%char) then
        let '(neg, l2) := match l1 with
                          | c :: l' => if bool_decide (c = plus_sign) then (false, l')
                                       else if bool_decide (c = minus_sign) then (true, l')
                                       else (false, l1)
                          | [] => (false, [])
                          end in
        match take_exponent 0 l2 with
        | (S _, v, []) => Some (if neg then - v else v)%Z
        | _ => None
        end
      else None
  end.

(** [Digit* [. Digit*] Exp?] with at least one digit. *)
Definition parse_number (sign : bool) (l : bytes) : option spec_float :=
  let '(n1, v1, r1) := take_digits 0 l in
  let '(n2, v2, r2) := match r1 with
                       | a :: r => if bool_decide (a = "."%char) then take_digits v1 r
                                   else (0, v1, r1)
                       | [] => (0, v1, [])
                       end in
  if bool_decide (n1 + n2 = 0) then None
  else match parse_exponent r2 with
       | Some e => Some (f32_of_decimal sign v2 (e - Z.of_nat n2))
       | None => None
       end.

Definition parse_special (sign : bool) (l : bytes) : option spec_float :=
  let w := of_bytes (ascii_lower <$> l) in
  if bool_decide (w = "inf") || bool_decide (w = "infinity") then Some (S754_infinity sign)
  else if bool_decide (w = "nan") then Some S754_nan
  else None.

(** [str::parse::<f32>] *)
Definition parse_f32 (s : string) : result spec_float ParseFloatError :=
  match to_bytes s with
  | [] => Err PFE_Empty
  | a :: rest =>
      let neg := bool_decide (a = minus_sign) in
      let l := if neg || bool_decide (a = plus_sign) then rest else a :: rest in
      if bool_decide (l = []) then Err PFE_Invalid
      else match parse_number neg l with
           | Some v => Ok v
           | None => ok_or (parse_special neg l) PFE_Invalid
           end
  end.

(** ** Lemmas on decimal text *)

Definition is_digit (a : ascii) : Prop := (48 ≤ N_of_ascii a ≤ 57)%N.

Lemma pretty_N_char_digit n : is_digit (pretty_N_char n).
Proof. unfold is_digit, pretty_N_char. repeat case_match; vm_compute; split; discriminate. Qed.

Lemma pretty_N_go_digits n s : Forall is_digit (to_bytes s) → Forall is_digit (to_bytes (pretty_N_go n s)).
Proof.
  revert s. induction (N.lt_wf_0 n) as [n _ IH]; intros s Hs.
  destruct (decide (n = 0)%N) as [->|]; [by rewrite pretty_N_go_0|].
  rewrite pretty_N_go_step by lia. apply IH; [apply N.div_lt; lia|].
  constructor; [apply pretty_N_char_digit|done].
Qed.

Lemma pretty_N_digits (n : N) : Forall is_digit (to_bytes (pretty n)).
Proof.
  unfold pretty, pretty_N. case_decide; [|by apply pretty_N_go_digits; constructor].
  repeat constructor; vm_compute; discriminate.
Qed.

Lemma pretty_N_no_newline (n : N) : newline ∉ to_bytes (pretty n).
Proof.
  intros Hin. pose proof (pretty_N_digits n) as Hd. rewrite Forall_forall in Hd.
  apply Hd in Hin. vm_compute in Hin. by destruct Hin as [? _].
Qed.

Lemma u64_to_string_no_newline z : newline ∉ to_bytes (u64_to_string z).
Proof. apply pretty_N_no_newline. Qed.

Lemma u64_to_string_inj a b : (0 ≤ a)%Z → (0 ≤ b)%Z → u64_to_string a = u64_to_string b → a = b.
Proof. unfold u64_to_string. intros ?? Heq. apply (inj pretty) in Heq. lia. Qed.


(** ** Parsing inverts printing *)

Definition digit_value (a : ascii) : Z := (Z.of_N (N_of_ascii a) - 48)%Z.

Lemma to_digit_digit a : is_digit a → to_digit a = Some (digit_value a) ∧ (0 ≤ digit_value a ≤ 9)%Z.
Proof.
  unfold is_digit, to_digit, in_range, digit_value. intros [??].
  replace (_ && _) with true by (symmetry; apply andb_true_iff; rewrite !N.leb_le; lia).
  split; [done|lia].
Qed.

(** The value of a text of digits after [acc]. *)
Definition dec_value (acc : Z) (l : bytes) : Z := foldl (λ v a, v * 10 + digit_value a)%Z acc l.

Lemma dec_value_ge acc l : Forall is_digit l → (0 ≤ acc)%Z → (acc ≤ dec_value acc l)%Z.
Proof.
  intros H. revert acc. induction H as [|a l Ha H IH]; intros acc Hacc; simpl; [lia|].
  apply to_digit_digit in Ha as [_ ?]. etransitivity; [|apply IH]; lia.
Qed.

Lemma digits_loop_pos lo hi acc l :
  (lo ≤ 0)%Z → Forall is_digit l → (0 ≤ acc)%Z → (dec_value acc l ≤ hi)%Z →
  digits_loop false lo hi acc l = Ok (dec_value acc l).
Proof.
  intros Hlo H. revert acc. induction H as [|a l Ha H IH]; intros acc Hacc Hle; simpl; [done|].
  destruct (to_digit_digit a Ha) as [-> Hd]. simpl in Hle.
  pose proof (dec_value_ge (acc * 10 + digit_value a) l H).
  replace (negb _) with false
    by (symmetry; apply negb_false_iff, andb_true_iff; rewrite !Z.leb_le; lia).
  replace (negb _) with false
    by (symmetry; apply negb_false_iff, andb_true_iff; rewrite !Z.leb_le; lia).
  apply IH; [lia|done].
Qed.

Lemma digits_loop_neg lo hi acc l :
  (0 ≤ hi)%Z → Forall is_digit l → (0 ≤ acc)%Z → (lo ≤ - dec_value acc l)%Z →
  digits_loop true lo hi (- acc) l = Ok (- dec_value acc l)%Z.
Proof.
  intros Hlo H. revert acc. induction H as [|a l Ha H IH]; intros acc Hacc Hle; simpl; [done|].
  destruct (to_digit_digit a Ha) as [-> Hd]. simpl in Hle.
  pose proof (dec_value_ge (acc * 10 + digit_value a) l H).
  replace (negb _) with false
    by (symmetry; apply negb_false_iff, andb_true_iff; rewrite !Z.leb_le; lia).
  replace (negb _) with false
    by (symmetry; apply negb_false_iff, andb_true_iff; rewrite !Z.leb_le; lia).
  replace (- acc * 10 - digit_value a)%Z with (- (acc * 10 + digit_value a))%Z by lia.
  apply IH; [lia|done].
Qed.

Lemma digit_value_pretty n : (n < 10)%N → digit_value (pretty_N_char n) = Z.of_N n.
Proof.
  intros Hn. assert (n ∈ [0; 1; 2; 3; 4; 5; 6; 7; 8; 9]%N) as Hin.
  { rewrite !elem_of_cons. lia. }
  repeat (apply elem_of_cons in Hin as [->|Hin]; [reflexivity|]). by apply elem_of_nil in Hin.
Qed.

Lemma dec_value_go n s : dec_value 0 (to_bytes (pretty_N_go n s)) = dec_value (Z.of_N n) (to_bytes s).
Proof.
  revert s. induction (N.lt_wf_0 n) as [n _ IH]; intros s.
  destruct (decide (n = 0)%N) as [->|]; [by rewrite pretty_N_go_0|].
  rewrite pretty_N_go_step by lia. rewrite IH by (apply N.div_lt; lia).
  change (to_bytes (String ?a ?s)) with (a :: to_bytes s). simpl.
  rewrite digit_value_pretty by (apply N.mod_lt; lia).
  f_equal. pose proof (N.div_mod' n 10). lia.
Qed.

Lemma dec_value_pretty (n : N) : dec_value 0 (to_bytes (pretty n)) = Z.of_N n.
Proof.
  unfold pretty, pretty_N. case_decide as Hn; [by subst|]. by rewrite dec_value_go.
Qed.

Lemma pretty_nonempty (n : N) : to_bytes (pretty n) ≠ [].
Proof.
  intros E. destruct (decide (n = 0)%N) as [->|Hn]; [discriminate|].
  pose proof (dec_value_pretty n) as Hv. rewrite E in Hv. simpl in Hv. lia.
Qed.

Lemma digits_no_sign a l :
  Forall is_digit (a :: l) → a ≠ plus_sign ∧ a ≠ minus_sign.
Proof. intros [Ha _]%Forall_cons. split; intros ->; vm_compute in Ha; by destruct Ha. Qed.

(** Any non-empty text of digits whose value fits is read as that value. *)
Lemma parse_integer_digits lo hi s :
  (lo ≤ 0)%Z → to_bytes s ≠ [] → Forall is_digit (to_bytes s) → (dec_value 0 (to_bytes s) ≤ hi)%Z →
  parse_integer lo hi s = Ok (dec_value 0 (to_bytes s)).
Proof.
  unfold parse_integer. intros Hlo Hne Hd Hle. destruct (to_bytes s) as [|a l]; [done|].
  destruct (digits_no_sign a l Hd) as [Hp Hm].
  rewrite !(bool_decide_eq_false_2 (a = _)) by done. simpl andb. cbv iota.
  by apply digits_loop_pos.
Qed.

Lemma digits_loop_bounds neg lo hi acc l z :
  (lo ≤ acc ≤ hi)%Z → digits_loop neg lo hi acc l = Ok z → (lo ≤ z ≤ hi)%Z.
Proof.
  revert acc. induction l as [|a l IH]; intros acc Hacc; simpl; [by intros [=<-]|].
  destruct (to_digit a) as [d|]; [|done]. cbv zeta. set (next := if neg then (acc * 10 - d)%Z else (acc * 10 + d)%Z).
  destruct (negb ((lo <=? acc * 10)%Z && _)); [done|]. destruct (negb ((lo <=? next)%Z && _)) eqn:E; [done|].
  apply IH. apply negb_false_iff, andb_prop in E as [E1 E2]. lia.
Qed.

(** A parsed integer is in the range of its type. *)
Lemma parse_integer_bounds lo hi s z : (lo ≤ 0 ≤ hi)%Z → parse_integer lo hi s = Ok z → (lo ≤ z ≤ hi)%Z.
Proof.
  intros Hr. unfold parse_integer. destruct (to_bytes s) as [|a rest]; [done|].
  destruct (_ && _); [done|]. destruct (bool_decide _); [by apply digits_loop_bounds|].
  destruct (_ && _); by apply digits_loop_bounds.
Qed.

Lemma parse_integer_to_string lo hi z :
  (lo ≤ 0)%Z → (0 ≤ z ≤ hi)%Z → parse_integer lo hi (u64_to_string z) = Ok z.
Proof.
  intros Hlo Hz. unfold u64_to_string.
  rewrite parse_integer_digits; rewrite ?dec_value_pretty; try lia; [|by apply pretty_nonempty|apply pretty_N_digits].
  f_equal. lia.
Qed.

Lemma parse_i64_to_string z : (- 2 ^ 63 ≤ z < 2 ^ 63)%Z → parse_i64 (i64_to_string z) = Ok z.
Proof.
  intros Hz. unfold i64_to_string, parse_i64. destruct (Z.ltb_spec z 0) as [Hneg|Hneg].
  2: { apply parse_integer_to_string; lia. }
  unfold parse_integer. rewrite to_bytes_app. change (to_bytes "-") with [minus_sign].
  cbn [app]. change (bool_decide (minus_sign = plus_sign)) with false.
  change (bool_decide (minus_sign = minus_sign)) with true. cbn [orb andb].
  unfold u64_to_string. rewrite bool_decide_eq_false_2 by apply pretty_nonempty.
  change (- 2 ^ 63 <? 0)%Z with true. cbv iota.
  rewrite (digits_loop_neg _ _ 0); rewrite ?dec_value_pretty; try lia; [f_equal; lia|apply pretty_N_digits].
Qed.

Example parse_f32_examples :
  parse_f32 "0.500000" = Ok (S754_finite false 8388608 (-24)) ∧
  parse_f32 "1.000000" = Ok (S754_finite false 8388608 (-23)) ∧
  parse_f32 "-0" = Ok (S754_zero true) ∧ parse_f32 "NaN" = Ok S754_nan ∧
  parse_f32 "-inf" = Ok (S754_infinity true) ∧ parse_f32 "1e40" = Ok (S754_infinity false) ∧
  parse_f32 "." = Err PFE_Invalid ∧ parse_f32 "1e" = Err PFE_Invalid.
Proof. repeat split. Qed.
