(* ===== verification/GrantTypes.v ===== *)
(** * GrantTypes: the composite grant

    crates/core-grant-types/src/grant_chain.rs: statuses, budgets, usage, resource
    selectors, statements, signed blocks and the [AccessGrant] envelope with its
    derived views (effective expiry, effective status, aggregate usage). *)

From S2P Require Import Prelude CoreTypes Glob.
From stdpp Require Import base gmap sets list strings.
From Stdlib Require Import Ascii Lia ZArith.

(** ** Enumerations with their wire names *)

Inductive PresentationAudienceKind := Peer | Service.
Inductive RecipientProfile := RP_Human | RP_Agent | RP_Service.
Inductive GrantStatus := Active | Paused | Revoked | Abandoned | Expired | Pending | ExhaustedByBudget.
Inductive GrantMode := OneShot | Renewable | Standing.
Inductive ResourceType := Credential | Session | Payment | Compute | Time | Recovery.
Inductive AttestationStatus := UnattestedLocalDev | SandboxContained | SignedBinary | Spiffe | Tee.
Inductive ApprovalMethod := Notification | Passkey | YubiKey | Ciba | DeviceFlow.

#[export] Instance PresentationAudienceKind_eq_dec : EqDecision PresentationAudienceKind.
Proof. solve_decision. Defined.
#[export] Instance RecipientProfile_eq_dec : EqDecision RecipientProfile.
Proof. solve_decision. Defined.
#[export] Instance GrantStatus_eq_dec : EqDecision GrantStatus.
Proof. solve_decision. Defined.
#[export] Instance GrantMode_eq_dec : EqDecision GrantMode.
Proof. solve_decision. Defined.
#[export] Instance ResourceType_eq_dec : EqDecision ResourceType.
Proof. solve_decision. Defined.
#[export] Instance AttestationStatus_eq_dec : EqDecision AttestationStatus.
Proof. solve_decision. Defined.
#[export] Instance ApprovalMethod_eq_dec : EqDecision ApprovalMethod.
Proof. solve_decision. Defined.

Definition RecipientProfile_as_str (p : RecipientProfile) : string :=
  match p with RP_Human => "human" | RP_Agent => "agent" | RP_Service => "service" end.

Definition RecipientProfile_parse (value : string) : option RecipientProfile :=
  if bool_decide (value = "human") then Some RP_Human
  else if bool_decide (value = "agent") then Some RP_Agent
  else if bool_decide (value = "service") then Some RP_Service
  else None.

Definition GrantStatus_as_str (s : GrantStatus) : string :=
  match s with
  | Active => "active"
  | Paused => "paused"
  | Revoked => "revoked"
  | Abandoned => "abandoned"
  | Expired => "expired"
  | Pending => "pending"
  | ExhaustedByBudget => "exhausted_by_budget"
  end.

Definition GrantStatus_parse (value : string) : option GrantStatus :=
  if bool_decide (value = "active") then Some Active
  else if bool_decide (value = "paused") then Some Paused
  else if bool_decide (value = "revoked") then Some Revoked
  else if bool_decide (value = "abandoned") then Some Abandoned
  else if bool_decide (value = "expired") then Some Expired
  else if bool_decide (value = "pending") then Some Pending
  else if bool_decide (value = "exhausted_by_budget") || bool_decide (value = "expired_by_budget")
       then Some ExhaustedByBudget
  else None.

(** [GrantStatus::derive] *)
Definition GrantStatus_derive (stored_status : string) (not_before expires_at : option Z) (now : Z)
  : GrantStatus :=
  if bool_decide (stored_status = "revoked") then Revoked
  else if bool_decide (stored_status = "abandoned") then Abandoned
  else if bool_decide (stored_status = "exhausted_by_budget")
          || bool_decide (stored_status = "expired_by_budget") then ExhaustedByBudget
  else if bool_decide (stored_status = "paused") then Paused
  else if (match not_before with Some nb => (now <? nb)%Z | None => false end) then Pending
  else if (match expires_at with Some exp => (exp <? now)%Z | None => false end) then Expired
  else Active.

Definition GrantMode_as_str (m : GrantMode) : string :=
  match m with OneShot => "one_shot" | Renewable => "renewable" | Standing => "standing" end.

Definition GrantMode_parse (value : string) : option GrantMode :=
  if bool_decide (value = "one_shot") then Some OneShot
  else if bool_decide (value = "renewable") then Some Renewable
  else if bool_decide (value = "standing") then Some Standing
  else None.

Definition ResourceType_as_str (r : ResourceType) : string :=
  match r with
  | Credential => "credential"
  | Session => "session"
  | Payment => "payment"
  | Compute => "compute"
  | Time => "time"
  | Recovery => "recovery"
  end.

Definition ResourceType_parse (value : string) : option ResourceType :=
  if bool_decide (value = "credential") then Some Credential
  else if bool_decide (value = "session") then Some Session
  else if bool_decide (value = "payment") then Some Payment
  else if bool_decide (value = "compute") then Some Compute
  else if bool_decide (value = "time") then Some Time
  else if bool_decide (value = "recovery") then Some Recovery
  else None.

Definition AttestationStatus_as_str (a : AttestationStatus) : string :=
  match a with
  | UnattestedLocalDev => "unattested_local_dev"
  | SandboxContained => "sandbox_contained"
  | SignedBinary => "signed_binary"
  | Spiffe => "spiffe"
  | Tee => "tee"
  end.

Definition AttestationStatus_parse (value : string) : option AttestationStatus :=
  if bool_decide (value = "unattested_local_dev") then Some UnattestedLocalDev
  else if bool_decide (value = "sandbox_contained") then Some SandboxContained
  else if bool_decide (value = "signed_binary") then Some SignedBinary
  else if bool_decide (value = "spiffe") then Some Spiffe
  else if bool_decide (value = "tee") then Some Tee
  else None.

(** ** Budgets and usage *)

Record Budget := mkBudget {
  b_tokens : option Z;
  b_cents : option Z;
  b_requests : option Z;
  b_workload_hours : option Z;
  b_wall_clock_secs : option Z
}.

Definition is_none_set (b : Budget) : bool :=
  bool_decide (b_tokens b = None) && bool_decide (b_cents b = None)
  && bool_decide (b_requests b = None) && bool_decide (b_workload_hours b = None)
  && bool_decide (b_wall_clock_secs b = None).

Record Usage := mkUsage {
  u_tokens : Z;
  u_cents : Z;
  u_requests : Z;
  u_workload_hours : Z;
  u_wall_clock_secs : Z;
  u_last_updated : Z;
  u_cents_micro : Z
}.

Definition Usage_default : Usage := mkUsage 0 0 0 0 0 0 0.

(** Every counter of a usage record is a [u64]. *)
Definition usage_wf (u : Usage) : Prop :=
  in_u64 (u_tokens u) ∧ in_u64 (u_cents u) ∧ in_u64 (u_requests u) ∧ in_u64 (u_workload_hours u)
  ∧ in_u64 (u_wall_clock_secs u) ∧ in_u64 (u_last_updated u) ∧ in_u64 (u_cents_micro u).

(** ** Attestation, selectors, conditions *)

Record AttestationBinding := mkAttestation {
  att_status : AttestationStatus;
  att_runtime : option string;
  att_binary_hash : option string;
  att_signer : option string;
  att_spiffe_id : option string;
  att_sandbox_id : option string;
  att_tee_quote : option string
}.

Definition AttestationBinding_default : AttestationBinding :=
  mkAttestation UnattestedLocalDev None None None None None None.

Inductive ResourceSelector :=
| Exact (value : string)
| Glob (pattern : string)
| GlobWithSubtarget (primary_glob subtarget_glob : string)
| Regex (pattern : string)
| Any.

#[export] Instance ResourceSelector_eq_dec : EqDecision ResourceSelector.
Proof. solve_decision. Defined.

Definition covers (sel : ResourceSelector) (resource : string) : bool :=
  match sel with
  | Exact value => bool_decide (value = resource)
  | Glob pattern => glob_matches pattern resource
  | GlobWithSubtarget primary_glob _ => glob_matches primary_glob resource
  | Regex _ => false
  | Any => true
  end.

Definition subtarget_glob (sel : ResourceSelector) : option string :=
  match sel with
  | GlobWithSubtarget _ s => Some s
  | _ => None
  end.

Definition is_unbounded (sel : ResourceSelector) : bool :=
  match sel with
  | Any => true
  | Glob pattern => bool_decide (pattern = "*")
  | _ => false
  end.

Inductive Condition :=
| C_Subpath (field prefix : string)
| C_OneOf (field : string) (values : list string)
| C_NotOneOf (field : string) (values : list string)
| C_Range (field : string) (min max : option Z)
| C_Cidr (field : string) (cidrs : list string)
| C_UrlPattern (field pattern : string)
| C_Regex (field pattern : string)
| C_TimeWindow (start_secs_of_day end_secs_of_day : Z)
| C_MerchantAllowlist (merchants : list string).

#[export] Instance Condition_eq_dec : EqDecision Condition.
Proof. solve_decision. Defined.

Record ApprovalChallenge := mkChallenge {
  ac_method : ApprovalMethod;
  ac_verification_uri : option string;
  ac_user_code : option string;
  ac_expires_in_secs : Z;
  ac_poll_interval_secs : Z
}.

Record CanDelegate := mkCanDelegate { max_depth : Z }.

(** ** Statements *)

Record Statement := mkStatement {
  sid : string;
  resource_type : ResourceType;
  actions : list string;
  resource : ResourceSelector;
  budget : option Budget;
  usage : Usage;
  conditions : list Condition;
  can_delegate : option CanDelegate
}.

Definition applicable_to (s : Statement) (action res : string) : bool :=
  existsb (λ a, bool_decide (a = action)) (actions s) && covers (resource s) res.

(** One budget axis: [if let Some(cap) = b.axis && usage.axis >= cap { return false }]. *)
Definition axis_exhausted (cap : option Z) (used : Z) : bool :=
  match cap with
  | Some cap => (cap <=? used)%Z
  | None => false
  end.

(** The cents axis runs on the micro-cent accumulator once it is non-zero. *)
Definition cents_exhausted (cap : option Z) (u : Usage) : bool :=
  match cap with
  | Some cap =>
      let cap_micro := u64_sat_mul cap 1000000 in
      if (0 <? u_cents_micro u)%Z then (cap_micro <=? u_cents_micro u)%Z
      else (cap <=? u_cents u)%Z
  | None => false
  end.

Definition has_budget_remaining (s : Statement) : bool :=
  match budget s with
  | None => true
  | Some b =>
      if axis_exhausted (b_tokens b) (u_tokens (usage s)) then false
      else if cents_exhausted (b_cents b) (usage s) then false
      else if axis_exhausted (b_requests b) (u_requests (usage s)) then false
      else if axis_exhausted (b_workload_hours b) (u_workload_hours (usage s)) then false
      else if axis_exhausted (b_wall_clock_secs b) (u_wall_clock_secs (usage s)) then false
      else true
  end.

(** ** Blocks and the grant envelope *)

Record Block := mkBlock {
  statements : list Statement;
  nbf : option Z;
  expires_at : option Z;
  issued_by : string;
  issued_at : Z;
  approval : option ApprovalChallenge;
  note : option string
}.

Record SignedBlock := mkSigned {
  block : Block;
  pubkey_next : string;
  signature : string
}.

Record AccessGrant := mkGrant {
  g_id : string;
  g_version : Z;
  g_issuing_persona_id : string;
  g_recipient_kind : PresentationAudienceKind;
  g_recipient_id : string;
  g_recipient_profile : RecipientProfile;
  g_status : GrantStatus;
  g_mode : GrantMode;
  g_blocks : list SignedBlock;
  g_attestation : AttestationBinding;
  g_created_at : Z;
  g_updated_at : Z;
  g_revoked_at : option Z;
  g_revoked_reason : option string;
  g_last_used_at : option Z;
  g_label : option string
}.

Definition single_statement (id issuer_principal_id recipient_id : string) (statement : Statement)
  (pubkey_next signature : string) (issued_at : Z) : AccessGrant :=
  let blk := mkBlock [statement] None None issuer_principal_id issued_at None None in
  mkGrant id 1 issuer_principal_id Service recipient_id RP_Human Active OneShot
    [mkSigned blk pubkey_next signature] AttestationBinding_default issued_at issued_at
    None None None None.

(** [AccessGrant::statements]: every (block index, statement) pair in chain order. *)
Definition grant_statements (g : AccessGrant) : list (nat * Statement) :=
  mjoin (imap (λ i sb, (λ s, (i, s)) <$> statements (block sb)) (g_blocks g)).

Definition statement_count (g : AccessGrant) : nat :=
  sum_list ((λ sb, length (statements (block sb))) <$> g_blocks g).

(** [Iterator::min] / [Iterator::max] over [u64]. *)
Definition iter_min (l : list Z) : option Z :=
  match l with [] => None | z :: l' => Some (foldl Z.min z l') end.
Definition iter_max (l : list Z) : option Z :=
  match l with [] => None | z :: l' => Some (foldl Z.max z l') end.

Definition effective_expires_at (g : AccessGrant) : option Z :=
  iter_min (omap (λ sb, expires_at (block sb)) (g_blocks g)).
Definition effective_nbf (g : AccessGrant) : option Z :=
  iter_max (omap (λ sb, nbf (block sb)) (g_blocks g)).

Definition effective_status (g : AccessGrant) (now_secs : Z) : GrantStatus :=
  GrantStatus_derive (GrantStatus_as_str (g_status g)) (effective_nbf g) (effective_expires_at g)
    now_secs.

(** Distinct resource types in first-seen order. *)
Definition resource_types (g : AccessGrant) : list ResourceType :=
  foldl (λ seen ist, if bool_decide (resource_type ist.2 ∈ seen) then seen
                     else seen ++ [resource_type ist.2]) [] (grant_statements g).

Definition add_usage (u v : Usage) : Usage :=
  mkUsage (u64_sat_add (u_tokens u) (u_tokens v))
          (u64_sat_add (u_cents u) (u_cents v))
          (u64_sat_add (u_requests u) (u_requests v))
          (u64_sat_add (u_workload_hours u) (u_workload_hours v))
          (u64_sat_add (u_wall_clock_secs u) (u_wall_clock_secs v))
          (if (u_last_updated u <? u_last_updated v)%Z then u_last_updated v else u_last_updated u)
          (u_cents_micro u).

Definition aggregate_usage (g : AccessGrant) : Usage :=
  foldl (λ u ist, add_usage u (usage ist.2)) Usage_default (grant_statements g).

(** ** Validation *)

Definition selector_validate (r : ResourceSelector) : verdict :=
  match r with
  | Exact value => validate_non_empty value "resource selector exact value"
  | Glob pattern => validate_non_empty pattern "resource selector glob pattern"
  | GlobWithSubtarget p s =>
      validate_non_empty p "resource selector primary glob pattern" ;?
      validate_non_empty s "resource selector subtarget glob pattern"
  | Regex pattern => validate_non_empty pattern "resource selector regex pattern"
  | Any => Ok tt
  end.

Definition statement_validate (s : Statement) : verdict :=
  validate_non_empty (sid s) "statement sid" ;?
  (if bool_decide (actions s = []) then Err (VE.new "statement must declare at least one action")
   else Ok tt) ;?
  try_for_each (λ a, validate_non_empty a "statement action") (actions s) ;?
  selector_validate (resource s).

Definition block_validate (b : Block) : verdict :=
  validate_non_empty (issued_by b) "block issued_by principal id" ;?
  (if bool_decide (statements b = [])
   then Err (VE.new "block must contain at least one statement") else Ok tt) ;?
  try_for_each statement_validate (statements b) ;?
  match nbf b, expires_at b with
  | Some nb, Some exp =>
      if (exp <=? nb)%Z then Err (VE.new "block expires_at must be after nbf") else Ok tt
  | _, _ => Ok tt
  end.

Definition signed_block_validate (sb : SignedBlock) : verdict :=
  block_validate (block sb) ;?
  validate_non_empty (pubkey_next sb) "signed block pubkey_next" ;?
  validate_non_empty (signature sb) "signed block signature".

Definition access_grant_validate (g : AccessGrant) : verdict :=
  validate_non_empty (g_id g) "access grant id" ;?
  (if (g_version g =? 0)%Z then Err (VE.new "access grant version must be at least 1") else Ok tt) ;?
  validate_non_empty (g_issuing_persona_id g) "access grant issuer principal id" ;?
  validate_non_empty (g_recipient_id g) "access grant recipient id" ;?
  (if bool_decide (g_blocks g = [])
   then Err (VE.new "access grant must have at least one signed block") else Ok tt) ;?
  try_for_each signed_block_validate (g_blocks g) ;?
  (if (g_created_at g =? 0)%Z then Err (VE.new "access grant created_at must be non-zero")
   else Ok tt) ;?
  (if (g_updated_at g <? g_created_at g)%Z
   then Err (VE.new "access grant updated_at must not precede created_at") else Ok tt).

(** ** Lemmas *)

Lemma is_none_set_true b :
  is_none_set b = true ↔ b = mkBudget None None None None None.
Proof.
  destruct b as [[] [] [] [] []]; unfold is_none_set; simpl; split; intros; (done || congruence).
Qed.

Lemma iter_min_le l m : iter_min l = Some m → Forall (λ z, m ≤ z)%Z l.
Proof.
  destruct l as [|z l]; [done|]. intros [= <-]. revert z.
  induction l as [|y l IH]; intros z; simpl; [constructor; [lia|constructor]|].
  specialize (IH (Z.min z y)). rewrite Forall_cons in IH. destruct IH as [H1 H2].
  rewrite !Forall_cons. split; [lia|]. split; [lia|done].
Qed.

Lemma iter_min_in l m : iter_min l = Some m → m ∈ l.
Proof.
  destruct l as [|z l]; [done|]. intros [= <-]. revert z.
  induction l as [|y l IH]; intros z; simpl; [set_solver|].
  specialize (IH (Z.min z y)). destruct (Z.min_spec z y) as [[_ E]|[_ E]]; rewrite E in *; set_solver.
Qed.

Lemma iter_max_ge l m : iter_max l = Some m → Forall (λ z, z ≤ m)%Z l.
Proof.
  destruct l as [|z l]; [done|]. intros [= <-]. revert z.
  induction l as [|y l IH]; intros z; simpl; [constructor; [lia|constructor]|].
  specialize (IH (Z.max z y)). rewrite Forall_cons in IH. destruct IH as [H1 H2].
  rewrite !Forall_cons. split; [lia|]. split; [lia|done].
Qed.

Lemma iter_max_in l m : iter_max l = Some m → m ∈ l.
Proof.
  destruct l as [|z l]; [done|]. intros [= <-]. revert z.
  induction l as [|y l IH]; intros z; simpl; [set_solver|].
  specialize (IH (Z.max z y)). destruct (Z.max_spec z y) as [[_ E]|[_ E]]; rewrite E in *; set_solver.
Qed.

Lemma elem_of_grant_statements g i s :
  (i, s) ∈ grant_statements g ↔ ∃ sb, g_blocks g !! i = Some sb ∧ s ∈ statements (block sb).
Proof.
  unfold grant_statements. rewrite list_elem_of_join. split.
  - intros (l & Hin & Hl). apply elem_of_lookup_imap in Hl as (j & sb & -> & Hsb).
    apply list_elem_of_fmap in Hin as (s' & [= -> ->] & Hs). eauto.
  - intros (sb & Hsb & Hs). exists ((λ s, (i, s)) <$> statements (block sb)). split.
    + apply list_elem_of_fmap. eauto.
    + apply elem_of_lookup_imap. eauto.
Qed.

(** What it takes for a wall clock to be inside every block's window. *)
Definition in_window (g : AccessGrant) (now : Z) : Prop :=
  Forall (λ sb, (∀ nb, nbf (block sb) = Some nb → (nb ≤ now)%Z) ∧
                (∀ exp, expires_at (block sb) = Some exp → (now ≤ exp)%Z)) (g_blocks g).

Lemma in_window_nbf g now :
  (∀ sb, sb ∈ g_blocks g → ∀ nb, nbf (block sb) = Some nb → (nb ≤ now)%Z) ↔
  match effective_nbf g with Some nb => (nb ≤ now)%Z | None => True end.
Proof.
  unfold effective_nbf. destruct (iter_max _) as [m|] eqn:E.
  - split.
    + intros H. apply iter_max_in, list_elem_of_omap in E as (sb & Hin & Hsb). eauto.
    + intros Hm sb Hin nb Hnb. apply iter_max_ge in E. rewrite Forall_forall in E.
      assert (nb ≤ m)%Z; [|lia]. apply E, list_elem_of_omap. eauto.
  - split; [done|]. intros _ sb Hin nb Hnb.
    destruct (omap _ _) as [|z l] eqn:Eo; [|done].
    assert (nb ∈ omap (λ sb, nbf (block sb)) (g_blocks g)) as Hc by (apply list_elem_of_omap; eauto).
    rewrite Eo in Hc. set_solver.
Qed.

Lemma in_window_exp g now :
  (∀ sb, sb ∈ g_blocks g → ∀ exp, expires_at (block sb) = Some exp → (now ≤ exp)%Z) ↔
  match effective_expires_at g with Some exp => (now ≤ exp)%Z | None => True end.
Proof.
  unfold effective_expires_at. destruct (iter_min _) as [m|] eqn:E.
  - split.
    + intros H. apply iter_min_in, list_elem_of_omap in E as (sb & Hin & Hsb). eauto.
    + intros Hm sb Hin exp Hexp. apply iter_min_le in E. rewrite Forall_forall in E.
      assert (m ≤ exp)%Z; [|lia]. apply E, list_elem_of_omap. eauto.
  - split; [done|]. intros _ sb Hin exp Hexp.
    destruct (omap _ _) as [|z l] eqn:Eo; [|done].
    assert (exp ∈ omap (λ sb, expires_at (block sb)) (g_blocks g)) as Hc
      by (apply list_elem_of_omap; eauto).
    rewrite Eo in Hc. set_solver.
Qed.

(** The sum of one axis over a list of statements. *)
Definition axis_sum (f : Usage → Z) (l : list (nat * Statement)) : Z :=
  foldr (λ ist acc, f (usage ist.2) + acc)%Z 0%Z l.

Lemma aggregate_axis (f : Usage → Z) l u :
  (∀ u v, f (add_usage u v) = u64_sat_add (f u) (f v)) →
  Forall (λ ist, in_u64 (f (usage ist.2))) l → in_u64 (f u) →
  f (foldl (λ u ist, add_usage u (usage ist.2)) u l) = Z.min (f u + axis_sum f l) u64_max.
Proof.
  intros Hf. revert u. induction l as [|x l IH]; intros u Hl Hu; simpl.
  - unfold in_u64, u64_max in *. lia.
  - inversion Hl as [|? ? Hx Hl']; subst.
    rewrite IH; [|done|rewrite Hf; by apply u64_sat_add_in].
    rewrite Hf. unfold u64_sat_add. unfold in_u64 in *.
    assert (0 ≤ axis_sum f l)%Z; [|lia].
    clear -Hl'. induction Hl' as [|y l Hy Hl IHl]; simpl; [done|]. unfold in_u64 in Hy. lia.
Qed.

(** ** Properties *)

(** A grant is effectively active at [now] exactly when its stored status is
    none of revoked, abandoned, exhausted and paused and [now] lies in the window of every
    block of the chain, so no block can extend the window an earlier one set. *)
Theorem effective_status_active (g : AccessGrant) (now : Z) :
  effective_status g now = Active ↔
  g_status g ∉ [Revoked; Abandoned; ExhaustedByBudget; Paused] ∧ in_window g now.
Proof.
  unfold in_window. rewrite Forall_and, !Forall_forall, in_window_nbf, in_window_exp.
  unfold effective_status, GrantStatus_derive.
  destruct (effective_nbf g) as [nb|], (effective_expires_at g) as [ex|];
    destruct (g_status g); simpl;
    repeat (case_match; bool_to_prop); rewrite ?not_elem_of_cons;
    (split; [intros ?; try done|intros [? [? ?]]; try lia; try done]);
    try set_solver by lia.
Qed.

(** The aggregate view of a grant is, on each metered axis, the sum over all
    statements of all blocks capped at [u64::MAX]; it never wraps. *)
Theorem aggregate_usage_sum (g : AccessGrant)
  (Hwf : Forall (λ ist, usage_wf (usage ist.2)) (grant_statements g)) :
  let total f := Z.min (axis_sum f (grant_statements g)) u64_max in
  u_tokens (aggregate_usage g) = total u_tokens ∧
  u_cents (aggregate_usage g) = total u_cents ∧
  u_requests (aggregate_usage g) = total u_requests ∧
  u_workload_hours (aggregate_usage g) = total u_workload_hours ∧
  u_wall_clock_secs (aggregate_usage g) = total u_wall_clock_secs.
Proof.
  simpl. unfold aggregate_usage. repeat split;
    (rewrite aggregate_axis; [simpl; f_equal; lia|done| |done];
     eapply Forall_impl; [done|]; unfold usage_wf; naive_solver).
Qed.

(** A statement and a one-block grant to evaluate the theorems on. *)
Definition demo_statement (s : string) (acts : list string) (sel : ResourceSelector) : Statement :=
  mkStatement s Credential acts sel (Some (mkBudget (Some 10%Z) None None None None))
    (mkUsage 3 0 1 0 0 0 0) [] None.

Definition demo_grant (acts : list string) (sel : ResourceSelector) : AccessGrant :=
  single_statement "g1" "alice" "svc" (demo_statement "S0" acts sel) "pk" "sig" 100.

Lemma aggregate_usage_sum_witness :
  u_tokens (aggregate_usage (demo_grant ["github:push"] Any)) = 3%Z.
Proof.
  assert (Forall (λ ist, usage_wf (usage ist.2)) (grant_statements (demo_grant ["github:push"] Any)))
    as Hwf by (repeat constructor; vm_compute; discriminate).
  exact (proj1 (aggregate_usage_sum (demo_grant ["github:push"] Any) Hwf)).
Defined.
