(* ===== verification/Attenuation.v ===== *)
(** * Attenuation: delegation never widens authority

    crates/core-grants/src/scope.rs. [enforce_subset] compares legacy scope strings,
    [check_statement_attenuation] compares the statements of two grants,
    [resolve_need_against_grants] authorizes a request against a set of standing
    grants, [first_revoked_ancestor] walks the ancestry of a grant. The section on
    semantics gives scopes and statements their meaning as sets of requests; the
    properties show that a child accepted by the checks denotes a subset. *)

From S2P Require Import Prelude CoreTypes Glob GrantTypes.
From stdpp Require Import base gmap sets list strings.
From Stdlib Require Import Ascii Lia ZArith.

Local Infix "+:+" := String.append (at level 60, right associativity).

Record DelegationViolation := mkViolation { reason : string }.
Abbreviation check := (result unit DelegationViolation).

(** ** Scope strings *)

Record ScopeParts := mkScope {
  sp_provider : string;
  sp_action : string;
  sp_target : string;
  sp_subtarget : option string
}.

Definition colon : ascii := ":"%char.

Definition parse_scope (scope : string) : result ScopeParts string :=
  let scope := str_trim scope in
  if str_is_empty scope then Err "empty scope"
  else if bool_decide (scope = "*") then Ok (mkScope "*" "*" "*" None)
  else
    let parts := str_split colon scope in
    if existsb str_is_empty parts then Err ("malformed scope: '" +:+ scope +:+ "'")
    else if (4 <? length parts)%nat then Err ("scope has too many segments: '" +:+ scope +:+ "'")
    else match parts with
         | [action] => Ok (mkScope "*" action "*" None)
         | [provider; action] => Ok (mkScope provider action "*" None)
         | [provider; action; target] => Ok (mkScope provider action target None)
         | [provider; action; target; subtarget] =>
             Ok (mkScope provider action target (Some subtarget))
         | _ => Err ("malformed scope: '" +:+ scope +:+ "'")
         end.

Definition action_synonym (p c : string) : bool :=
  bool_decide (p = "push") && bool_decide (c = "write")
  || bool_decide (p = "write") && bool_decide (c = "push").

(** The comparison of [enforce_subset] once both scopes are parsed. *)
Definition subset_parts (c p : ScopeParts) : check :=
  (if negb (bool_decide (sp_provider p = "*")) && negb (bool_decide (sp_provider p = sp_provider c))
   then Err (mkViolation "scope.provider not subset of parent") else Ok tt) ;?
  (if negb (bool_decide (sp_action p = "*")) && negb (bool_decide (sp_action p = sp_action c))
   then if negb (action_synonym (sp_action p) (sp_action c))
        then Err (mkViolation "scope.action not subset of parent") else Ok tt
   else Ok tt) ;?
  (if negb (bool_decide (sp_target p = "*")) && negb (wildcard_match (sp_target p) (sp_target c))
   then Err (mkViolation "scope.target not subset of parent") else Ok tt) ;?
  match sp_subtarget p, sp_subtarget c with
  | None, _ => Ok tt
  | Some _, None => Err (mkViolation "scope.subtarget required: parent has subtarget")
  | Some ps, Some cs =>
      if negb (bool_decide (ps = "*")) && negb (wildcard_match ps cs)
      then Err (mkViolation "scope.subtarget not subset of parent") else Ok tt
  end.

Definition enforce_subset (child parent : string) : check :=
  let? p := map_err (λ e, mkViolation ("parent scope unparseable: " +:+ e)) (parse_scope parent) in
  let? c := map_err (λ e, mkViolation ("child scope unparseable: " +:+ e)) (parse_scope child) in
  subset_parts c p.

(** ** Budgets and expiry *)

Definition axis_check (axis : string) (parent : option Z) (usage : Z) (child : option Z) : check :=
  match parent with
  | None => Ok tt
  | Some parent_cap =>
      let remaining := u64_sat_sub parent_cap usage in
      match child with
      | None => Err (mkViolation ("budget." +:+ axis +:+ " required: parent bounds " +:+ axis))
      | Some child_cap =>
          if (remaining <? child_cap)%Z
          then Err (mkViolation ("budget." +:+ axis +:+ " exceeds parent remaining"))
          else Ok tt
      end
  end.

Definition check_budget_attenuation (parent_budget : option Budget) (parent_usage : Usage)
  (child_budget : option Budget) : check :=
  match parent_budget with
  | None => Ok tt
  | Some parent =>
      if is_none_set parent then Ok tt
      else
        match child_budget with
        | Some child =>
            if negb (is_none_set child) then
              axis_check "tokens" (b_tokens parent) (u_tokens parent_usage) (b_tokens child) ;?
              axis_check "cents" (b_cents parent) (u_cents parent_usage) (b_cents child) ;?
              axis_check "requests" (b_requests parent) (u_requests parent_usage)
                (b_requests child) ;?
              axis_check "workload_hours" (b_workload_hours parent)
                (u_workload_hours parent_usage) (b_workload_hours child) ;?
              axis_check "wall_clock_secs" (b_wall_clock_secs parent)
                (u_wall_clock_secs parent_usage) (b_wall_clock_secs child) ;?
              Ok tt
            else Err (mkViolation "budget required: parent has budget")
        | None => Err (mkViolation "budget required: parent has budget")
        end
  end.

Definition check_expiry_attenuation (parent_expires_at child_expires_at : option Z) : check :=
  match parent_expires_at with
  | None => Ok tt
  | Some parent_ts =>
      match child_expires_at with
      | None => Err (mkViolation "expiry required: parent has expiry")
      | Some child_ts =>
          if (parent_ts <? child_ts)%Z then Err (mkViolation "expiry exceeds parent remaining")
          else Ok tt
      end
  end.

(** ** Statements *)

Definition selector_subset (child parent : ResourceSelector) : bool :=
  match parent, child with
  | Any, _ => true
  | Exact p, Exact c => bool_decide (p = c)
  | Glob p, Exact c => wildcard_match p c
  | Glob p, Glob c => bool_decide (p = "*") || bool_decide (p = c)
  | GlobWithSubtarget pp ps, GlobWithSubtarget cp cs =>
      (bool_decide (pp = "*") || bool_decide (pp = cp))
      && (bool_decide (ps = "*") || bool_decide (ps = cs))
  | Glob p, GlobWithSubtarget cp _ => bool_decide (p = "*") || bool_decide (p = cp)
  | _, _ => false
  end.

Definition action_covers (parent_action child_action : string) : bool :=
  if bool_decide (parent_action = child_action) then true
  else match str_split_once colon parent_action with
       | Some (p_provider, p_rest) =>
           if negb (bool_decide (p_rest = "*")) || str_is_empty p_provider then false
           else match str_split_once colon child_action with
                | Some (c_provider, _) => bool_decide (c_provider = p_provider)
                | None => false
                end
       | None => false
       end.

Definition actions_subset (parent_actions child_actions : list string) : bool :=
  if existsb (λ a, bool_decide (a = "*")) parent_actions then true
  else forallb (λ ca, existsb (λ pa, action_covers pa ca) parent_actions) child_actions.

Definition conditions_subsumed (parent_conditions child_conditions : list Condition) : bool :=
  forallb (λ pc, existsb (λ cc, bool_decide (cc = pc)) child_conditions) parent_conditions.

Definition can_delegate_subsumed (parent child : option CanDelegate) : bool :=
  match parent, child with
  | _, None => true
  | Some p, Some c => (max_depth c <=? max_depth p)%Z
  | None, Some _ => false
  end.

(** The mutable variables of the inner loop of [check_statement_attenuation]. *)
Record AttState := mkAtt {
  saw_selector_match : bool;
  budget_violation : option DelegationViolation;
  conditions_violation : option DelegationViolation;
  delegation_violation : option DelegationViolation;
  matched : bool
}.

Definition first_some {A} (o : option A) (a : A) : option A :=
  match o with Some _ => o | None => Some a end.

(** [for (_pi, pstmt) in parent.statements()], with its [continue]s and [break]. *)
Fixpoint parent_loop (cstmt : Statement) (ps : list Statement) (st : AttState) : AttState :=
  match ps with
  | [] => st
  | pstmt :: ps' =>
      if negb (actions_subset (actions pstmt) (actions cstmt)
               && selector_subset (resource cstmt) (resource pstmt))
      then parent_loop cstmt ps' st
      else if negb (conditions_subsumed (conditions pstmt) (conditions cstmt))
      then parent_loop cstmt ps'
             (mkAtt true (budget_violation st)
                (first_some (conditions_violation st)
                   (mkViolation ("statement[" +:+ sid cstmt
                                 +:+ "] drops or weakens a parent condition")))
                (delegation_violation st) (matched st))
      else if negb (can_delegate_subsumed (can_delegate pstmt) (can_delegate cstmt))
      then parent_loop cstmt ps'
             (mkAtt true (budget_violation st) (conditions_violation st)
                (first_some (delegation_violation st)
                   (mkViolation ("statement[" +:+ sid cstmt
                                 +:+ "] requests delegation beyond parent"))) (matched st))
      else match check_budget_attenuation (budget pstmt) (usage pstmt) (budget cstmt) with
           | Ok _ => mkAtt true (budget_violation st) (conditions_violation st)
                       (delegation_violation st) true
           | Err err =>
               parent_loop cstmt ps'
                 (mkAtt true (first_some (budget_violation st) err) (conditions_violation st)
                    (delegation_violation st) (matched st))
           end
  end.

Definition child_check (ps : list Statement) (cstmt : Statement) : check :=
  let st := parent_loop cstmt ps (mkAtt false None None None false) in
  if matched st then Ok tt
  else if negb (saw_selector_match st)
  then Err (mkViolation ("statement[" +:+ sid cstmt
                         +:+ "] has no parent with matching selector/actions"))
  else match budget_violation st with
       | Some err => Err (mkViolation ("statement[" +:+ sid cstmt +:+ "] " +:+ reason err))
       | None =>
           match delegation_violation st with
           | Some err => Err err
           | None =>
               match conditions_violation st with
               | Some err => Err err
               | None => Ok tt
               end
           end
       end.

Definition check_statement_attenuation (parent child : AccessGrant) : check :=
  try_for_each (child_check (grant_statements parent).*2) (grant_statements child).*2.

(** ** Use-time authorization *)

Inductive NeedUnsatisfiable := EmptyNeed | NoActiveGrant | UncoveredClause | SpansMultipleGrants.

Inductive NeedResolution :=
| Covered (grant_id : string) (matched_statement_sids : list string)
| Unsatisfiable (why : NeedUnsatisfiable).

Definition clause_covers_need (grant_stmt need_clause : Statement) : bool :=
  actions_subset (actions grant_stmt) (actions need_clause)
  && selector_subset (resource need_clause) (resource grant_stmt)
  && has_budget_remaining grant_stmt
  && bool_decide (conditions grant_stmt = []).

(** [grant.status != Active || grant.revoked_at.is_some()] negated. *)
Definition grant_usable (g : AccessGrant) : bool :=
  bool_decide (g_status g = Active) && bool_decide (g_revoked_at g = None).

Fixpoint cover_clauses (stmts need : list Statement) : option (list string) :=
  match need with
  | [] => Some []
  | clause :: need' =>
      match List.find (λ gstmt, clause_covers_need gstmt clause) stmts with
      | Some gstmt =>
          match cover_clauses stmts need' with
          | Some sids => Some (sid gstmt :: sids)
          | None => None
          end
      | None => None
      end
  end.

Definition grant_covers_need (g : AccessGrant) (need : list Statement) : option (list string) :=
  if negb (grant_usable g) then None else cover_clauses (grant_statements g).*2 need.

Fixpoint resolve_loop (grants : list AccessGrant) (need : list Statement) (saw_active : bool)
  : NeedResolution + bool :=
  match grants with
  | [] => inr saw_active
  | g :: grants' =>
      if negb (grant_usable g) then resolve_loop grants' need saw_active
      else match grant_covers_need g need with
           | Some sids => inl (Covered (g_id g) sids)
           | None => resolve_loop grants' need true
           end
  end.

Definition coverable_somewhere (grants : list AccessGrant) (clause : Statement) : bool :=
  existsb (λ g, grant_usable g
                && existsb (λ gstmt, clause_covers_need gstmt clause) (grant_statements g).*2) grants.

Definition resolve_need_against_grants (grants : list AccessGrant) (need : list Statement)
  : NeedResolution :=
  if bool_decide (need = []) then Unsatisfiable EmptyNeed
  else match resolve_loop grants need false with
       | inl r => r
       | inr saw_active =>
           if negb saw_active then Unsatisfiable NoActiveGrant
           else if forallb (coverable_somewhere grants) need
           then Unsatisfiable SpansMultipleGrants
           else Unsatisfiable UncoveredClause
       end.

(** ** Revocation walk *)

Inductive AncestorRevocation := AR_Revoked | AR_NonActive | AR_Absent.
Record RevokedAncestor := mkAncestor { ra_grant_id : string; ra_reason : AncestorRevocation }.

Definition ancestor_verdict (active_grants : list AccessGrant) (ancestor_id : string)
  : option AncestorRevocation :=
  match List.find (λ g, bool_decide (g_id g = ancestor_id)) active_grants with
  | None => Some AR_Absent
  | Some g =>
      if bool_decide (is_Some (g_revoked_at g)) then Some AR_Revoked
      else if negb (bool_decide (g_status g = Active)) then Some AR_NonActive
      else None
  end.

Fixpoint first_revoked_ancestor (ancestry_ids : list string) (active_grants : list AccessGrant)
  : option RevokedAncestor :=
  match ancestry_ids with
  | [] => None
  | ancestor_id :: ids =>
      match ancestor_verdict active_grants ancestor_id with
      | Some r => Some (mkAncestor ancestor_id r)
      | None => first_revoked_ancestor ids active_grants
      end
  end.

Definition compute_statements_union_bound (stmts : list Statement) : list Statement :=
  (λ s, mkStatement (sid s) (resource_type s) (actions s) (resource s) (budget s) Usage_default
          (conditions s) (can_delegate s)) <$> stmts.

(** ** Semantics: what a scope, a selector and a statement admit *)

Record Request := mkRequest {
  rq_provider : string;
  rq_action : string;
  rq_target : string;
  rq_subtarget : option string
}.

Definition field_admits (pattern value : string) : Prop :=
  pattern = "*" ∨ wildcard_match pattern value = true.

Definition scope_admits (p : ScopeParts) (r : Request) : Prop :=
  (sp_provider p = "*" ∨ sp_provider p = rq_provider r) ∧
  (sp_action p = "*" ∨ sp_action p = rq_action r
   ∨ action_synonym (sp_action p) (rq_action r) = true) ∧
  field_admits (sp_target p) (rq_target r) ∧
  match sp_subtarget p with
  | None => True
  | Some ps => ∃ rs, rq_subtarget r = Some rs ∧ field_admits ps rs
  end.

Definition action_admits (acts : list string) (a : string) : Prop :=
  "*" ∈ acts ∨ ∃ pa, pa ∈ acts ∧ action_covers pa a = true.

(** A selector admits a resource and, when it carries a subtarget glob, a subtarget. *)
Definition selector_admits (sel : ResourceSelector) (res : string) (sub : option string) : Prop :=
  covers sel res = true ∧
  match subtarget_glob sel with
  | None => True
  | Some g => ∃ b, sub = Some b ∧ glob_matches g b = true
  end.

Definition starless (s : string) : Prop := star ∉ to_bytes s.

Section Meaning.
(** Use-time evaluation of a condition against the invocation context is owned by the
    caller of this module; any predicate will do. *)
Variable sat : Condition → Prop.

Definition statement_admits (s : Statement) (a res : string) (sub : option string) : Prop :=
  action_admits (actions s) a ∧ selector_admits (resource s) res sub ∧ Forall sat (conditions s).

Definition grant_admits (g : AccessGrant) (a res : string) (sub : option string) : Prop :=
  ∃ s, s ∈ (grant_statements g).*2 ∧ statement_admits s a res sub.
End Meaning.

(** ** Lemmas on scopes *)

Lemma action_synonym_spec p c :
  action_synonym p c = true ↔ (p = "push" ∧ c = "write") ∨ (p = "write" ∧ c = "push").
Proof.
  unfold action_synonym. rewrite orb_true_iff, !andb_true_iff, !bool_decide_eq_true. done.
Qed.

Lemma wildcard_match_star s : wildcard_match "*" s = true.
Proof.
  apply wildcard_match_true. rewrite <-(app_nil_r (to_bytes s)). apply (sl_star [] _ []). constructor.
Qed.

Lemma subset_parts_Ok c p :
  subset_parts c p = Ok tt ↔
  (sp_provider p = "*" ∨ sp_provider p = sp_provider c) ∧
  (sp_action p = "*" ∨ sp_action p = sp_action c
   ∨ action_synonym (sp_action p) (sp_action c) = true) ∧
  field_admits (sp_target p) (sp_target c) ∧
  match sp_subtarget p, sp_subtarget c with
  | None, _ => True
  | Some _, None => False
  | Some ps, Some cs => field_admits ps cs
  end.
Proof.
  unfold subset_parts, field_admits.
  rewrite guard_bind_Ok, guard2_bind_Ok, guard_bind_Ok.
  rewrite (unless_false (sp_provider p = "*") _ _ (bool_decide_eq_true _)).
  rewrite (unless_false (sp_target p = "*") (wildcard_match (sp_target p) (sp_target c) = true))
    by done.
  rewrite <-andb_assoc, <-negb_orb.
  rewrite (unless_false (sp_action p = "*")
             (sp_action p = sp_action c ∨ action_synonym (sp_action p) (sp_action c) = true))
    by (rewrite orb_true_iff, bool_decide_eq_true; done).
  do 3 f_equiv.
  destruct (sp_subtarget p) as [ps|], (sp_subtarget c) as [cs|]; [|done|done|done].
  rewrite guard_Ok. by apply unless_false.
Qed.

Lemma field_admits_trans g p s : field_admits g p → field_admits p s → field_admits g s.
Proof.
  unfold field_admits. intros [->|Hg]; [by left|]. intros [->|Hp].
  - right. eapply wildcard_match_trans; [done|apply wildcard_match_star].
  - right. by eapply wildcard_match_trans.
Qed.

Lemma subset_parts_admits c p r : subset_parts c p = Ok tt → scope_admits c r → scope_admits p r.
Proof.
  rewrite subset_parts_Ok. intros (Hp & Ha & Ht & Hs) (Hp' & Ha' & Ht' & Hs').
  split; [|split; [|split]].
  - destruct Hp as [?|Hp]; [by left|]. rewrite Hp. done.
  - destruct Ha as [?|[Ha|Ha]]; [by left|by rewrite Ha|].
    apply action_synonym_spec in Ha as [[Ep Ec]|[Ep Ec]]; rewrite Ep, Ec in *;
      destruct Ha' as [?|[Ea|Ha']]; try discriminate;
      rewrite ?action_synonym_spec in *; naive_solver.
  - by eapply field_admits_trans.
  - destruct (sp_subtarget p) as [ps|]; [|done]. destruct (sp_subtarget c) as [cs|]; [|done].
    destruct Hs' as (rs & ? & ?). exists rs. split; [done|]. by eapply field_admits_trans.
Qed.

Lemma subset_parts_trans c p g :
  subset_parts c p = Ok tt → subset_parts p g = Ok tt → subset_parts c g = Ok tt.
Proof.
  rewrite !subset_parts_Ok. intros (Hp & Ha & Ht & Hs) (Hp' & Ha' & Ht' & Hs').
  split; [|split; [|split]].
  - destruct Hp' as [?|Hp']; [by left|]. rewrite Hp' in *. done.
  - destruct Ha' as [?|[Ha'|Ha']]; [by left|by rewrite Ha'|].
    apply action_synonym_spec in Ha' as [[Ep Ec]|[Ep Ec]]; rewrite Ep, Ec in *;
      destruct Ha as [?|[Ea|Ha]]; try discriminate;
      rewrite ?action_synonym_spec in *; naive_solver.
  - by eapply field_admits_trans.
  - destruct (sp_subtarget g), (sp_subtarget p), (sp_subtarget c); try done.
    by eapply field_admits_trans.
Qed.

Lemma enforce_subset_Ok child parent :
  enforce_subset child parent = Ok tt ↔
  ∃ c p, parse_scope child = Ok c ∧ parse_scope parent = Ok p ∧ subset_parts c p = Ok tt.
Proof.
  unfold enforce_subset. destruct (parse_scope parent), (parse_scope child); simpl; naive_solver.
Qed.

(** ** Lemmas on actions and selectors *)

Lemma str_split_once_Some c s x y :
  str_split_once c s = Some (x, y) ↔
  to_bytes s = to_bytes x ++ c :: to_bytes y ∧ c ∉ to_bytes x.
Proof.
  unfold str_split_once. rewrite <-split_once_on_Some.
  destruct (split_once_on c (to_bytes s)) as [[x' y']|]; [|naive_solver]. split.
  - intros [= <- <-]. by rewrite !to_of_bytes.
  - intros [= -> ->]. by rewrite !of_to_bytes.
Qed.

(** Either the same action, or an anchored [provider:*] over an action of that provider. *)
Lemma action_covers_true pa ca :
  action_covers pa ca = true ↔
  pa = ca ∨ ∃ prov rest, prov ≠ "" ∧ str_split_once colon pa = Some (prov, "*")
                         ∧ str_split_once colon ca = Some (prov, rest).
Proof.
  unfold action_covers. case_bool_decide as Heq; [naive_solver|].
  destruct (str_split_once colon pa) as [[pp pr]|]; [|naive_solver].
  unfold str_is_empty. case_bool_decide as Hr; simpl; [|naive_solver].
  case_bool_decide as Hp; [naive_solver|].
  destruct (str_split_once colon ca) as [[cp cr]|]; [|naive_solver].
  rewrite bool_decide_eq_true. naive_solver.
Qed.

Lemma action_covers_refl a : action_covers a a = true.
Proof. apply action_covers_true. by left. Qed.

Lemma action_covers_trans a b c :
  action_covers a b = true → action_covers b c = true → action_covers a c = true.
Proof.
  rewrite !action_covers_true. intros [->|(prov & r & Hne & Ha & Hb)]; [done|].
  intros [->|(prov' & r' & Hne' & Hb' & Hc)]; right; [eauto 6|].
  rewrite Hb in Hb'. simplify_eq. eauto 6.
Qed.

Lemma action_covers_not_star pa : action_covers pa "*" = true → pa = "*".
Proof. rewrite action_covers_true. intros [?|(? & ? & _ & _ & H)]; [done|]. vm_compute in H. done. Qed.

Lemma actions_subset_true P C :
  actions_subset P C = true ↔
  "*" ∈ P ∨ ∀ ca, ca ∈ C → ∃ pa, pa ∈ P ∧ action_covers pa ca = true.
Proof.
  unfold actions_subset. destruct (existsb _ P) eqn:E.
  - split; [intros _; left|done]. apply existsb_exists in E as (a & Hin & Ha). bool_to_prop.
    subst a. by apply list_elem_of_In.
  - rewrite forallb_forall. setoid_rewrite existsb_exists. setoid_rewrite <-list_elem_of_In.
    split; [naive_solver|]. intros [Hs|H]; [|naive_solver].
    assert (existsb (λ a : string, bool_decide (a = "*")) P = true); [|congruence].
    apply existsb_exists. exists "*". by rewrite <-list_elem_of_In, bool_decide_eq_true.
Qed.

Lemma actions_subset_admits P C a :
  actions_subset P C = true → action_admits C a → action_admits P a.
Proof.
  rewrite actions_subset_true. unfold action_admits. intros [?|H]; [by left|].
  intros [Hs|(ca & Hin & Hca)].
  - destruct (H "*" Hs) as (pa & Hpa & Hc). apply action_covers_not_star in Hc as ->. by left.
  - destruct (H ca Hin) as (pa & Hpa & Hc). right. exists pa. eauto using action_covers_trans.
Qed.

Lemma actions_subset_refl P : actions_subset P P = true.
Proof. apply actions_subset_true. right. intros ca ?. exists ca. eauto using action_covers_refl. Qed.

Lemma actions_subset_trans P Q R :
  actions_subset P Q = true → actions_subset Q R = true → actions_subset P R = true.
Proof.
  rewrite !actions_subset_true. intros [?|HPQ]; [by left|]. intros [Hs|HQR].
  - destruct (HPQ "*" Hs) as (pa & Hpa & Hc). apply action_covers_not_star in Hc as ->. by left.
  - right. intros ca Hca. destruct (HQR ca Hca) as (qa & Hqa & H1).
    destruct (HPQ qa Hqa) as (pa & Hpa & H2). eauto using action_covers_trans.
Qed.

Lemma glob_matches_star s : starless s → glob_matches "*" s = true.
Proof. intros Hs. apply wildcard_match_glob_matches; [done|apply wildcard_match_star]. Qed.

Lemma selector_subset_admits child parent res sub :
  starless res → (∀ b, sub = Some b → starless b) →
  selector_subset child parent = true →
  selector_admits child res sub → selector_admits parent res sub.
Proof.
  unfold selector_admits. intros Hres Hsub.
  destruct parent as [p|p|pp ps|p|], child as [c|c|cp cs|c|]; simpl; try done;
    rewrite ?andb_true_iff, ?orb_true_iff, ?bool_decide_eq_true.
  - intros -> [-> _]. done.
  - intros Hw [<- _]. split; [by apply wildcard_match_glob_matches|done].
  - intros [->| ->] [Hc _]; [by split; [apply glob_matches_star|]|done].
  - intros [->| ->] [Hc _]; [by split; [apply glob_matches_star|]|done].
  - intros [Hp Hs] [Hc (b & -> & Hb)]. split.
    + destruct Hp as [->| ->]; [by apply glob_matches_star|done].
    + exists b. split; [done|]. destruct Hs as [->| ->]; [|done]. apply glob_matches_star. eauto.
Qed.

Lemma selector_subset_trans c p g :
  selector_subset c p = true → selector_subset p g = true → selector_subset c g = true.
Proof.
  destruct c as [c|c|cp cs|c|], p as [p|p|pp ps|p|], g as [g|g|gp gs|g|]; simpl; try done;
    rewrite ?andb_true_iff, ?orb_true_iff, ?bool_decide_eq_true; naive_solver.
Qed.

Lemma selector_subset_refl s : (∀ p, s ≠ Regex p) → selector_subset s s = true.
Proof.
  intros H. destruct s; simpl; rewrite ?andb_true_iff, ?orb_true_iff, ?bool_decide_eq_true; auto.
  by destruct (H pattern).
Qed.

(** ** Lemmas on budgets and the statement loop *)

(** One axis: the child is bounded wherever the parent is, and by what the parent has left. *)
Definition axis_le (parent : option Z) (used : Z) (child : option Z) : Prop :=
  ∀ pc, parent = Some pc → ∃ cc, child = Some cc ∧ (cc ≤ Z.max (pc - used) 0)%Z.

Lemma axis_check_Ok axis parent used child :
  axis_check axis parent used child = Ok tt ↔ axis_le parent used child.
Proof.
  unfold axis_check, axis_le, u64_sat_sub. destruct parent as [pc|]; [|by split; [intros _ ? [=]|]].
  destruct child as [cc|].
  - rewrite guard_Ok, Z.ltb_ge. split; [intros ? ? [= <-]; eauto|].
    intros H. by destruct (H pc eq_refl) as (? & [= <-] & ?).
  - split; [intros [=]|]. intros H. by destruct (H pc eq_refl) as (? & [=] & _).
Qed.

Definition budget_le (pb : option Budget) (u : Usage) (cb : option Budget) : Prop :=
  ∀ p, pb = Some p → is_none_set p = false →
  ∃ c, cb = Some c ∧ is_none_set c = false ∧
    axis_le (b_tokens p) (u_tokens u) (b_tokens c) ∧
    axis_le (b_cents p) (u_cents u) (b_cents c) ∧
    axis_le (b_requests p) (u_requests u) (b_requests c) ∧
    axis_le (b_workload_hours p) (u_workload_hours u) (b_workload_hours c) ∧
    axis_le (b_wall_clock_secs p) (u_wall_clock_secs u) (b_wall_clock_secs c).

Lemma check_budget_attenuation_Ok pb u cb :
  check_budget_attenuation pb u cb = Ok tt ↔ budget_le pb u cb.
Proof.
  unfold check_budget_attenuation, budget_le. destruct pb as [p|]; [|by split; [intros _ ? [=]|]].
  destruct (is_none_set p) eqn:Ep; [split; [intros _ ? [= <-] ?; congruence|done]|].
  destruct cb as [c|].
  2: { split; [intros [=]|]. intros H. by destruct (H p eq_refl Ep) as (? & [=] & _). }
  destruct (is_none_set c) eqn:Ec; simpl.
  { split; [intros [=]|]. intros H. destruct (H p eq_refl Ep) as (? & [= <-] & ? & _). congruence. }
  rewrite !seq_Ok, !axis_check_Ok. split.
  - intros (? & ? & ? & ? & ? & _) ? [= <-] _. eauto 10.
  - intros H. by destruct (H p eq_refl Ep) as (? & [= <-] & _ & ? & ? & ? & ? & ?).
Qed.

Lemma conditions_subsumed_true P C : conditions_subsumed P C = true ↔ P ⊆ C.
Proof.
  unfold conditions_subsumed. rewrite forallb_forall.
  split.
  - intros H x Hx. apply list_elem_of_In in Hx. apply H, existsb_exists in Hx as (y & Hy & Hxy).
    bool_to_prop. subst. by apply list_elem_of_In.
  - intros H x Hx. apply existsb_exists. exists x. rewrite bool_decide_eq_true.
    split; [|done]. apply list_elem_of_In, H, list_elem_of_In, Hx.
Qed.

(** A parent statement dominates a child statement on every enforced axis. *)
Definition dominates (p c : Statement) : Prop :=
  actions_subset (actions p) (actions c) = true ∧
  selector_subset (resource c) (resource p) = true ∧
  conditions_subsumed (conditions p) (conditions c) = true ∧
  can_delegate_subsumed (can_delegate p) (can_delegate c) = true ∧
  budget_le (budget p) (usage p) (budget c).

(** What the loop over parents leaves behind when no parent dominates: if some parent
    matched selector and actions, at least one violation is recorded. *)
Definition violation_recorded (st : AttState) : Prop :=
  saw_selector_match st = true →
  is_Some (budget_violation st) ∨ is_Some (conditions_violation st)
  ∨ is_Some (delegation_violation st).

Lemma first_some_is_Some {A} (o : option A) a : is_Some (first_some o a).
Proof. destruct o; simpl; eauto. Qed.

#[local] Hint Resolve first_some_is_Some : core.

Lemma parent_loop_spec c ps st :
  matched st = false → violation_recorded st →
  (matched (parent_loop c ps st) = true ↔ Exists (λ p, dominates p c) ps) ∧
  (matched (parent_loop c ps st) = false → violation_recorded (parent_loop c ps st)).
Proof.
  revert st. induction ps as [|p ps IH]; intros st Hm Hv; simpl.
  { rewrite Hm, Exists_nil. split; [done|]. done. }
  rewrite Exists_cons. unfold dominates at 1.
  destruct (actions_subset _ _ && selector_subset _ _) eqn:E1; simpl.
  2: { rewrite andb_false_iff in E1. destruct (IH st Hm Hv) as [-> ?]. split; [|done].
       split; [auto|]. intros [(? & ? & _)|?]; [|done]. destruct E1; congruence. }
  apply andb_true_iff in E1 as [Ea Es].
  destruct (conditions_subsumed _ _) eqn:Ec; simpl.
  2: { edestruct IH as [-> ?]; [done| |split; [|done]]; [right; left; apply first_some_is_Some|].
       split; [auto|]. intros [(_ & _ & ? & _)|?]; [congruence|done]. }
  destruct (can_delegate_subsumed _ _) eqn:Ed; simpl.
  2: { edestruct IH as [-> ?]; [done| |split; [|done]]; [right; right; apply first_some_is_Some|].
       split; [auto|]. intros [(_ & _ & _ & ? & _)|?]; [congruence|done]. }
  rewrite <-check_budget_attenuation_Ok.
  destruct (check_budget_attenuation _ _ _) as [[]|err] eqn:Eb; simpl.
  - split; [|done]. split; [|done]. intros _. by left.
  - edestruct IH as [-> ?]; [done| |split; [|done]]; [left; apply first_some_is_Some|].
    split; [auto|]. intros [(_ & _ & _ & _ & ?)|?]; [done|done].
Qed.

Lemma child_check_Ok ps c : child_check ps c = Ok tt ↔ Exists (λ p, dominates p c) ps.
Proof.
  unfold child_check.
  destruct (parent_loop_spec c ps (mkAtt false None None None false)) as [Hm Hv]; [done|done|].
  destruct (matched _) eqn:E; [naive_solver|]. specialize (Hv eq_refl).
  split; [|intros H; apply Hm in H; done]. unfold violation_recorded in Hv.
  destruct (saw_selector_match _); simpl; [|done].
  specialize (Hv eq_refl).
  destruct (budget_violation _); [done|]. destruct (delegation_violation _); [done|].
  destruct (conditions_violation _); [done|].
  by destruct Hv as [[? [=]]|[[? [=]]|[? [=]]]].
Qed.

Lemma check_statement_attenuation_Ok parent child :
  check_statement_attenuation parent child = Ok tt ↔
  ∀ c, c ∈ (grant_statements child).*2 →
  ∃ p, p ∈ (grant_statements parent).*2 ∧ dominates p c.
Proof.
  unfold check_statement_attenuation. rewrite try_for_each_Ok, Forall_forall.
  setoid_rewrite child_check_Ok. by setoid_rewrite Exists_exists.
Qed.

Lemma dominates_admits sat p c a res sub :
  starless res → (∀ b, sub = Some b → starless b) → dominates p c →
  statement_admits sat c a res sub → statement_admits sat p a res sub.
Proof.
  intros Hr Hs (Ha & Hsel & Hc & _) (H1 & H2 & H3). split; [|split].
  - by eapply actions_subset_admits.
  - by eapply selector_subset_admits.
  - apply conditions_subsumed_true in Hc. rewrite Forall_forall in *. auto.
Qed.

Lemma axis_le_trans g ug p up c :
  (0 ≤ up)%Z → axis_le g ug p → axis_le p up c → axis_le g ug c.
Proof.
  unfold axis_le. intros Hup Hgp Hpc gc Hg. destruct (Hgp gc Hg) as (pc & Hp & Hle).
  destruct (Hpc pc Hp) as (cc & Hc & Hle'). exists cc. split; [done|]. lia.
Qed.

Lemma budget_le_trans gb gu pb pu cb :
  usage_wf pu → budget_le gb gu pb → budget_le pb pu cb → budget_le gb gu cb.
Proof.
  unfold budget_le, usage_wf, in_u64. intros Hu Hgp Hpc g Hg Hgn.
  destruct (Hgp g Hg Hgn) as (p & Hp & Hpn & ?).
  destruct (Hpc p Hp Hpn) as (c & Hc & Hcn & ?). exists c. split; [done|]. split; [done|].
  destruct_and!. repeat split; (eapply axis_le_trans; [|eassumption|eassumption]; lia).
Qed.

Lemma dominates_trans g p c :
  usage_wf (usage p) → dominates g p → dominates p c → dominates g c.
Proof.
  intros Hu (Ha & Hs & Hc & Hd & Hb) (Ha' & Hs' & Hc' & Hd' & Hb'). repeat split.
  - by eapply actions_subset_trans.
  - by eapply selector_subset_trans.
  - rewrite conditions_subsumed_true in *. by transitivity (conditions p).
  - destruct (can_delegate g), (can_delegate p), (can_delegate c); simpl in *; try done.
    rewrite Z.leb_le in *. lia.
  - by eapply budget_le_trans.
Qed.

Lemma dominates_refl s :
  (∀ p, resource s ≠ Regex p) → usage s = Usage_default → dominates s s.
Proof.
  intros Hr Hu. repeat split.
  - apply actions_subset_refl.
  - by apply selector_subset_refl.
  - by apply conditions_subsumed_true.
  - destruct (can_delegate s); simpl; [|done]. apply Z.leb_le. lia.
  - rewrite Hu. intros b -> Hb. exists b. split; [done|]. split; [done|].
    repeat split; intros z ->; exists z; (split; [done|]); simpl; lia.
Qed.

(** Dropping the usage counters of the dominating side keeps it dominating. *)
Lemma union_bound_elem stmts s :
  s ∈ stmts →
  mkStatement (sid s) (resource_type s) (actions s) (resource s) (budget s) Usage_default
    (conditions s) (can_delegate s) ∈ compute_statements_union_bound stmts.
Proof. intros Hs. apply list_elem_of_fmap. eauto. Qed.

(** ** Lemmas on the resolver *)

Definition covers_clause (s c : Statement) : Prop :=
  actions_subset (actions s) (actions c) = true ∧
  selector_subset (resource c) (resource s) = true ∧
  has_budget_remaining s = true ∧ conditions s = [].

Lemma clause_covers_need_true s c : clause_covers_need s c = true ↔ covers_clause s c.
Proof.
  unfold clause_covers_need, covers_clause. rewrite !andb_true_iff, bool_decide_eq_true. tauto.
Qed.

Definition usable (g : AccessGrant) : Prop := g_status g = Active ∧ g_revoked_at g = None.

Lemma grant_usable_true g : grant_usable g = true ↔ usable g.
Proof. unfold grant_usable, usable. rewrite andb_true_iff, !bool_decide_eq_true. done. Qed.

(** Some statement of the grant covers the clause. *)
Definition grant_covers_clause (g : AccessGrant) (c : Statement) : Prop :=
  ∃ s, s ∈ (grant_statements g).*2 ∧ covers_clause s c.

Lemma find_true {A} (f : A → bool) l x : List.find f l = Some x → x ∈ l ∧ f x = true.
Proof. intros [? ?]%List.find_some. by rewrite list_elem_of_In. Qed.

Lemma find_None_Forall {A} (f : A → bool) l :
  List.find f l = None ↔ ∀ x, x ∈ l → f x = false.
Proof.
  split; [intros H x Hx%list_elem_of_In; by eapply List.find_none|].
  intros H. destruct (List.find f l) as [x|] eqn:E; [|done].
  apply find_true in E as [Hx ?]. apply H in Hx. congruence.
Qed.

Lemma cover_clauses_Some stmts need sids :
  cover_clauses stmts need = Some sids →
  Forall2 (λ c i, ∃ s, s ∈ stmts ∧ sid s = i ∧ covers_clause s c) need sids.
Proof.
  revert sids. induction need as [|c need IH]; intros sids; simpl; [intros [= <-]; constructor|].
  destruct (List.find _ _) as [s|] eqn:Ef; [|done].
  apply find_true in Ef as [Hin Hc%clause_covers_need_true].
  destruct (cover_clauses stmts need) as [sids'|]; [|done]. intros [= <-].
  constructor; [eauto|]. by apply IH.
Qed.

Lemma cover_clauses_None g need :
  cover_clauses (grant_statements g).*2 need = None ↔
  Exists (λ c, ¬ grant_covers_clause g c) need.
Proof.
  induction need as [|c need IH]; simpl; [by rewrite Exists_nil|].
  rewrite Exists_cons, <-IH. unfold grant_covers_clause at 1.
  destruct (List.find _ _) as [s|] eqn:Ef.
  - apply find_true in Ef as [Hin Hc%clause_covers_need_true].
    destruct (cover_clauses _ need); [|tauto]. split; [done|].
    intros [Hn|?]; [|done]. destruct Hn. eauto.
  - split; [|done]. intros _. left. intros (s & Hin & Hc%clause_covers_need_true).
    rewrite find_None_Forall in Ef. rewrite Ef in Hc; done.
Qed.

Lemma resolve_loop_inl grants need b r :
  resolve_loop grants need b = inl r →
  ∃ g sids, g ∈ grants ∧ usable g ∧ r = Covered (g_id g) sids ∧
    cover_clauses (grant_statements g).*2 need = Some sids.
Proof.
  revert b. induction grants as [|g gs IH]; intros b; simpl; [done|].
  unfold grant_covers_need. destruct (grant_usable g) eqn:Eu; simpl.
  - destruct (cover_clauses _ _) as [sids|] eqn:Ec.
    + intros [= <-]. exists g, sids. rewrite <-grant_usable_true. set_solver.
    + intros H. destruct (IH _ H) as (g' & ? & ? & ?). set_solver.
  - intros H. destruct (IH _ H) as (g' & ? & ? & ?). set_solver.
Qed.

Lemma resolve_loop_inr grants need b b' :
  resolve_loop grants need b = inr b' →
  (b' = true ↔ b = true ∨ Exists usable grants) ∧
  ∀ g, g ∈ grants → usable g → Exists (λ c, ¬ grant_covers_clause g c) need.
Proof.
  revert b. induction grants as [|g gs IH]; intros b; simpl.
  { intros [= <-]. rewrite Exists_nil. split; [tauto|set_solver]. }
  unfold grant_covers_need. setoid_rewrite elem_of_cons. setoid_rewrite Exists_cons.
  destruct (grant_usable g) eqn:Eu; simpl.
  - destruct (cover_clauses _ _) as [sids|] eqn:Ec; [done|].
    rewrite cover_clauses_None in Ec. apply grant_usable_true in Eu.
    intros H. apply IH in H as [Hb Hg]. split; [tauto|]. naive_solver.
  - assert (¬ usable g) as Hnu by (rewrite <-grant_usable_true; congruence).
    intros H. apply IH in H as [Hb Hg]. split; [tauto|]. naive_solver.
Qed.

Lemma coverable_somewhere_true grants c :
  coverable_somewhere grants c = true ↔ ∃ g, g ∈ grants ∧ usable g ∧ grant_covers_clause g c.
Proof.
  unfold coverable_somewhere, grant_covers_clause. rewrite existsb_exists.
  setoid_rewrite andb_true_iff. setoid_rewrite existsb_exists.
  setoid_rewrite grant_usable_true. setoid_rewrite clause_covers_need_true.
  by setoid_rewrite <-list_elem_of_In.
Qed.

Lemma forallb_false_Exists {A} (f : A → bool) l :
  forallb f l = false → ∃ x, x ∈ l ∧ f x = false.
Proof.
  induction l as [|x l IH]; simpl; [done|]. destruct (f x) eqn:E; simpl; [|set_solver].
  intros (y & ? & ?)%IH. set_solver.
Qed.

(** ** Lemmas on the ancestry walk *)

(** The grant recorded for the id is present, active and carries no revocation mark. *)
Definition live (active_grants : list AccessGrant) (i : string) : Prop :=
  ∃ g, List.find (λ g, bool_decide (g_id g = i)) active_grants = Some g ∧ usable g.

Lemma ancestor_verdict_None gs i : ancestor_verdict gs i = None ↔ live gs i.
Proof.
  unfold ancestor_verdict, live, usable. destruct (List.find _ gs) as [g|].
  2: { split; [done|]. by intros (? & [=] & _). }
  destruct (g_revoked_at g) as [r|] eqn:Er; simpl.
  - split; [done|]. intros (? & [= <-] & _ & ?). congruence.
  - case_bool_decide; simpl; [by split; eauto|].
    split; [done|]. by intros (? & [= <-] & ? & _).
Qed.

Lemma first_revoked_ancestor_Some ids gs r :
  first_revoked_ancestor ids gs = Some r ↔
  ∃ pre post, ids = pre ++ ra_grant_id r :: post ∧ Forall (live gs) pre ∧
    ancestor_verdict gs (ra_grant_id r) = Some (ra_reason r).
Proof.
  induction ids as [|i ids IH]; simpl; [split; [done|]; intros (pre & ? & ? & _); by destruct pre|].
  destruct (ancestor_verdict gs i) as [v|] eqn:Ev.
  - split; [intros [= <-]; by exists [], ids|].
    intros (pre & post & Heq & Hl & Hv). destruct pre as [|j pre]; simplify_eq/=.
    + by destruct r.
    + inversion Hl as [|? ? Hj]; subst. apply ancestor_verdict_None in Hj. congruence.
  - rewrite IH. split.
    + intros (pre & post & -> & Hl & Hv). exists (i :: pre), post. split; [done|]. split; [|done].
      constructor; [by apply ancestor_verdict_None|done].
    + intros (pre & post & Heq & Hl & Hv). destruct pre as [|j pre]; simplify_eq/=.
      exists pre, post. inversion Hl. done.
Qed.

Lemma first_revoked_ancestor_None ids gs :
  first_revoked_ancestor ids gs = None ↔ Forall (live gs) ids.
Proof.
  induction ids as [|i ids IH]; simpl; [split; auto|]. rewrite Forall_cons, <-IH, <-ancestor_verdict_None.
  destruct (ancestor_verdict gs i); naive_solver.
Qed.

(** ** Chains of delegations *)

Lemma attenuation_admits sat parent child a res sub :
  starless res → (∀ b, sub = Some b → starless b) →
  check_statement_attenuation parent child = Ok tt →
  grant_admits sat child a res sub → grant_admits sat parent a res sub.
Proof.
  intros Hr Hs. rewrite check_statement_attenuation_Ok. intros H (s & Hin & Hadm).
  destruct (H s Hin) as (p & Hp & Hd). exists p. split; [done|]. by eapply dominates_admits.
Qed.

(** [delegation_chain g gs]: [gs] are successive delegations below [g], each accepted
    against the grant before it. *)
Fixpoint delegation_chain (g : AccessGrant) (gs : list AccessGrant) : Prop :=
  match gs with
  | [] => True
  | c :: gs' => check_statement_attenuation g c = Ok tt ∧ delegation_chain c gs'
  end.

(** Within its validity a grant with this expiry is usable at [now]. *)
Definition unexpired (expiry : option Z) (now : Z) : Prop :=
  match expiry with Some ts => (now ≤ ts)%Z | None => True end.

(** A delegated grant with a smaller token cap, to evaluate the theorems on. *)
Definition demo_child (cap : Z) (acts : list string) (sel : ResourceSelector) : AccessGrant :=
  single_statement "g2" "alice" "bot"
    (mkStatement "S0" Credential acts sel (Some (mkBudget (Some cap) None None None None))
       Usage_default [] None) "pk" "sig" 100.

(** ** Properties *)

(** A child scope string that [enforce_subset] accepts denotes a subset of the
    requests its parent scope admits, synonyms, wildcards and optional subtargets included. *)
Theorem enforce_subset_sound (child parent : string) (H : enforce_subset child parent = Ok tt) :
  ∃ c p, parse_scope child = Ok c ∧ parse_scope parent = Ok p ∧
  ∀ r, scope_admits c r → scope_admits p r.
Proof.
  apply enforce_subset_Ok in H as (c & p & Hc & Hp & H).
  exists c, p. eauto using subset_parts_admits.
Qed.

Lemma enforce_subset_sound_witness :
  ∃ c p, parse_scope "github:push:acme/web*" = Ok c ∧ parse_scope "github:write:acme/*" = Ok p ∧
  ∀ r, scope_admits c r → scope_admits p r.
Proof. apply enforce_subset_sound. vm_compute. reflexivity. Defined.

(** Acceptance composes: a grandchild scope accepted under a child that was
    accepted under the root scope is accepted under the root scope. *)
Theorem enforce_subset_trans (c p g : string)
  (Hcp : enforce_subset c p = Ok tt) (Hpg : enforce_subset p g = Ok tt) :
  enforce_subset c g = Ok tt.
Proof.
  rewrite enforce_subset_Ok in *. destruct Hcp as (x & y & Hx & Hy & H1).
  destruct Hpg as (y' & z & Hy' & Hz & H2). rewrite Hy in Hy'. simplify_eq. exists x, z.
  split_and!; [done|done|by eapply subset_parts_trans].
Qed.

Lemma enforce_subset_trans_witness :
  enforce_subset "github:push:acme/web" "github:*:*" = Ok tt.
Proof. apply (enforce_subset_trans _ "github:write:acme/*"); vm_compute; reflexivity. Defined.

(** [check_statement_attenuation] accepts exactly when every statement of the child
    is dominated by one and the same parent statement on all five axes: actions, selector,
    conditions, delegation depth and remaining budget. The order in which violations are
    recorded and reported never turns a failure into an acceptance. *)
Theorem check_statement_attenuation_iff (parent child : AccessGrant) :
  check_statement_attenuation parent child = Ok tt ↔
  ∀ c, c ∈ (grant_statements child).*2 →
  ∃ p, p ∈ (grant_statements parent).*2 ∧ dominates p c.
Proof. apply check_statement_attenuation_Ok. Qed.

(** C1. Along a delegation chain of any length in which each grant was accepted
    against the one before it (check_statement_attenuation), every invocation the last grant
    admits is admitted by the root grant, whatever the conditions mean, provided that the
    invoked resource and the subtarget, if there is one, contain no star character. Without
    this proviso it would be false: a parent's glob a*c does not match the text a*bc that it
    may delegate as an exact resource. *)
Theorem delegation_chain_never_widens (sat : Condition → Prop) (root : AccessGrant)
  (gs : list AccessGrant) (a res : string) (sub : option string)
  (Hres : starless res) (Hsub : ∀ b, sub = Some b → starless b)
  (Hchain : delegation_chain root gs)
  (Hadm : grant_admits sat (default root (last gs)) a res sub) :
  grant_admits sat root a res sub.
Proof.
  revert root Hchain Hadm. induction gs as [|c gs IH]; intros root Hchain Hadm; [done|].
  destruct Hchain as [Hc Hchain]. eapply attenuation_admits; [done|done|done|].
  apply IH; [done|]. rewrite last_cons in Hadm. by destruct (last gs).
Qed.

Lemma delegation_chain_never_widens_witness :
  grant_admits (λ _, True) (demo_grant ["github:*"] (Glob "acme/*")) "github:push" "acme/web" None.
Proof.
  apply (delegation_chain_never_widens _ _
           [demo_child 5 ["github:push"; "github:read"] (Glob "acme/*");
            demo_child 2 ["github:push"] (Exact "acme/web")]).
  - apply (bool_decide_unpack _). vm_compute. exact I.
  - discriminate.
  - split; [vm_compute; reflexivity|]. split; [vm_compute; reflexivity|exact I].
  - eexists. split; [left|]. split; [|split; [split; [vm_compute; reflexivity|exact I]|constructor]].
    right. exists "github:push". split; [left|vm_compute; reflexivity].
Defined.

(** Statement attenuation composes across generations, budgets included: what
    a grandchild may spend is bounded by what the root statement has left. *)
Theorem check_statement_attenuation_trans (g p c : AccessGrant)
  (Hwf : Forall (λ ist, usage_wf (usage ist.2)) (grant_statements p))
  (Hgp : check_statement_attenuation g p = Ok tt)
  (Hpc : check_statement_attenuation p c = Ok tt) :
  check_statement_attenuation g c = Ok tt.
Proof.
  rewrite check_statement_attenuation_Ok in *. intros s Hs.
  destruct (Hpc s Hs) as (q & Hq & Hqs). destruct (Hgp q Hq) as (r & Hr & Hrq).
  exists r. split; [done|]. eapply dominates_trans; [|done|done].
  rewrite Forall_forall in Hwf. apply list_elem_of_fmap in Hq as (ist & -> & Hin). by apply Hwf.
Qed.

Lemma check_statement_attenuation_trans_witness :
  check_statement_attenuation (demo_grant ["github:*"] (Glob "acme/*"))
    (demo_child 2 ["github:push"] (Exact "acme/web")) = Ok tt.
Proof.
  apply (check_statement_attenuation_trans _
           (demo_child 5 ["github:push"; "github:read"] (Glob "acme/*"))).
  - repeat constructor; vm_compute; discriminate.
  - vm_compute. reflexivity.
  - vm_compute. reflexivity.
Defined.

(** Use-time resolution is exact. [Covered] names a live grant of the list and, per
    clause of the need, one of its unconditional statements with budget left that covers the
    clause; each refusal reason holds exactly in its own case, so coverage is never composed
    from two grants and never granted by an inactive or revoked one. *)
Theorem resolve_need_exact (grants : list AccessGrant) (need : list Statement) :
  match resolve_need_against_grants grants need with
  | Covered i sids =>
      need ≠ [] ∧ ∃ g, g ∈ grants ∧ usable g ∧ g_id g = i ∧
      Forall2 (λ c k, ∃ s, s ∈ (grant_statements g).*2 ∧ sid s = k ∧ covers_clause s c) need sids
  | Unsatisfiable EmptyNeed => need = []
  | Unsatisfiable NoActiveGrant => need ≠ [] ∧ ¬ Exists usable grants
  | Unsatisfiable UncoveredClause =>
      Exists usable grants ∧
      ∃ c, c ∈ need ∧ ∀ g, g ∈ grants → usable g → ¬ grant_covers_clause g c
  | Unsatisfiable SpansMultipleGrants =>
      (∀ c, c ∈ need → ∃ g, g ∈ grants ∧ usable g ∧ grant_covers_clause g c) ∧
      (∀ g, g ∈ grants → usable g → Exists (λ c, ¬ grant_covers_clause g c) need)
  end.
Proof.
  unfold resolve_need_against_grants. case_bool_decide as Hn; [done|].
  destruct (resolve_loop grants need false) as [r|b] eqn:Er.
  - apply resolve_loop_inl in Er as (g & sids & Hin & Hu & -> & Hc%cover_clauses_Some). eauto 10.
  - apply resolve_loop_inr in Er as [Hb Hg]. destruct b; simpl; [|split; [done|]; naive_solver].
    assert (Exists usable grants) by naive_solver.
    destruct (forallb _ need) eqn:Ef.
    + split; [|done]. intros c Hc. apply coverable_somewhere_true.
      rewrite forallb_forall in Ef. by apply Ef, list_elem_of_In.
    + apply forallb_false_Exists in Ef as (c & Hc & Hf). split; [done|]. exists c.
      split; [done|]. intros g Hgin Hug Hcov.
      assert (coverable_somewhere grants c = true) by (apply coverable_somewhere_true; eauto).
      congruence.
Qed.

(** The ancestry walk reports no revocation exactly when every ancestor has a live
    grant, and otherwise reports the first dead ancestor (absent, revoked or inactive) with
    all ancestors before it live: a missing ancestor fails closed. *)
Theorem first_revoked_ancestor_correct (ids : list string) (gs : list AccessGrant) :
  (first_revoked_ancestor ids gs = None ↔ Forall (live gs) ids) ∧
  ∀ r, first_revoked_ancestor ids gs = Some r ↔
    ∃ pre post, ids = pre ++ ra_grant_id r :: post ∧ Forall (live gs) pre ∧
      ancestor_verdict gs (ra_grant_id r) = Some (ra_reason r).
Proof. split; [apply first_revoked_ancestor_None|intros r; apply first_revoked_ancestor_Some]. Qed.

(** Expiry attenuation accepts exactly the children whose lifetime is contained in
    the parent's. *)
Theorem check_expiry_attenuation_iff (parent child : option Z) :
  check_expiry_attenuation parent child = Ok tt ↔
  ∀ now, unexpired child now → unexpired parent now.
Proof.
  unfold check_expiry_attenuation, unexpired. destruct parent as [p|]; [|by split].
  destruct child as [c|].
  - rewrite guard_Ok, Z.ltb_ge. split; [lia|]. intros H. apply H. lia.
  - split; [done|]. intros H. specialize (H (p + 1)%Z I). lia.
Qed.

(** The union bound of a list of statements dominates each of them, whatever they
    have already spent, provided none selects by regular expression. *)
Theorem union_bound_dominates (stmts : list Statement) (s : Statement)
  (Hin : s ∈ stmts) (Hregex : ∀ p, resource s ≠ Regex p) :
  ∃ b, b ∈ compute_statements_union_bound stmts ∧ dominates b s.
Proof.
  eexists. split; [by apply union_bound_elem|].
  apply (dominates_refl (mkStatement (sid s) (resource_type s) (actions s) (resource s) (budget s)
                           Usage_default (conditions s) (can_delegate s))); done.
Qed.

Lemma union_bound_dominates_witness :
  ∃ b, b ∈ compute_statements_union_bound [demo_statement "S0" ["a"] Any] ∧
  dominates b (demo_statement "S0" ["a"] Any).
Proof. apply union_bound_dominates; [left|discriminate]. Defined.

(** With a regular-expression selector the bound does not even dominate the
    statement it was computed from: the grant built from the bound refuses it. *)
Theorem union_bound_regex_refused (s : Statement) (p : string) (H : resource s = Regex p) :
  ¬ ∃ b, b ∈ compute_statements_union_bound [s] ∧ dominates b s.
Proof.
  intros (b & ->%list_elem_of_singleton & (_ & Hs & _)). simpl in Hs. by rewrite H in Hs.
Qed.

Lemma union_bound_regex_refused_witness :
  ¬ ∃ b, b ∈ compute_statements_union_bound [demo_statement "S0" ["a"] (Regex "^x$")] ∧
    dominates b (demo_statement "S0" ["a"] (Regex "^x$")).
Proof. apply (union_bound_regex_refused _ "^x$"). reflexivity. Defined.
