(* ===== verification/GrantLifecycle.v ===== *)
(** * The grant state machine and the chain builders

    crates/core-grants/src/grant.rs, state.rs and chain.rs. [Lifecycle] is the
    delegation-aware state machine of a grant (create, extend, delegate, use, pause,
    resume, revoke and the transition table [apply_event]); its theorems follow a grant
    through any sequence of events and any tree of delegations. [ChainBuild] maps legacy
    scope strings to statements; its theorem relates the statement to the scope. *)

From S2P Require Import Prelude CoreTypes Glob GrantTypes Attenuation.
From stdpp Require Import base gmap sets list strings relations.
From Stdlib Require Import Ascii Lia ZArith.

Local Infix "+:+" := String.append (at level 60, right associativity).

Module Lifecycle.

Definition MAX_DELEGATION_DEPTH : Z := 8.
Definition GRANT_SCHEMA_VERSION_PIN : Z := 1.

Abbreviation PrincipalId := string.
Abbreviation Uuid := string.

Record Scope := mkLScope {
  capability : string;
  resource_id : option string;
  constraints : list string
}.

Definition is_subset_of (self other : Scope) : bool :=
  if negb (bool_decide (capability self = capability other)) then false
  else
    let constraints_in := forallb (λ c, bool_decide (c ∈ constraints other)) (constraints self) in
    match resource_id other, resource_id self with
    | None, _ => constraints_in
    | Some o_id, Some s_id => if negb (bool_decide (o_id = s_id)) then false else constraints_in
    | Some _, None => false
    end.

Record Usage := mkLUsage { used : Z }.
Record UsageDelta := mkDelta { amount : Z }.
Record UsageReceipt := mkReceipt { rc_grant_id : Uuid; rc_amount : Z }.

Definition Usage_zero : Usage := mkLUsage 0.
Definition Usage_saturating_add (self : Usage) (delta : UsageDelta) : Usage :=
  mkLUsage (u64_sat_add (used self) (amount delta)).

Inductive GrantState := Active | Paused | Revoked.
#[global] Instance GrantState_eq_dec : EqDecision GrantState.
Proof. solve_decision. Defined.

Inductive GrantError := InvalidState | ScopeViolation | BudgetExhausted | NotAuthorized.

Section Machine.

(** chrono's [DateTime<Utc>] and [Duration], with [DateTime + Duration]: [None] is the
    panic chrono documents when the sum leaves the representable range. *)
Context {DateTime Duration : Type}.
Variable dt_add : DateTime → Duration → option DateTime.

Record GrantSpec := mkSpec {
  spec_issuer : PrincipalId;
  spec_scope : Scope;
  spec_expires_at : option DateTime
}.

Record Grant := mkGrant {
  id : Uuid;
  issuer : PrincipalId;
  scope : Scope;
  state : GrantState;
  expires_at : option DateTime;
  parent_id : option Uuid;
  delegation_depth : Z;
  usage : Usage;
  schema_version : Z
}.

Definition set_state (g : Grant) (s : GrantState) : Grant :=
  mkGrant (id g) (issuer g) (scope g) s (expires_at g) (parent_id g) (delegation_depth g)
    (usage g) (schema_version g).
Definition set_expiry (g : Grant) (e : option DateTime) : Grant :=
  mkGrant (id g) (issuer g) (scope g) (state g) e (parent_id g) (delegation_depth g)
    (usage g) (schema_version g).
Definition set_usage (g : Grant) (u : Usage) : Grant :=
  mkGrant (id g) (issuer g) (scope g) (state g) (expires_at g) (parent_id g)
    (delegation_depth g) u (schema_version g).

(** [fresh] is the identifier [Uuid::new_v4] draws. *)
Definition create (fresh : Uuid) (spec : GrantSpec) : result Grant GrantError :=
  Ok (mkGrant fresh (spec_issuer spec) (spec_scope spec) Active (spec_expires_at spec) None 0
        Usage_zero GRANT_SCHEMA_VERSION_PIN).

(** The outcome is [None] when the addition of the deadline panics. *)
Definition extend (grant : Grant) (ttl : Duration) : option (result Grant GrantError) :=
  if negb (bool_decide (state grant = Active)) then Some (Err InvalidState)
  else match expires_at grant with
       | Some current =>
           match dt_add current ttl with
           | Some later => Some (Ok (set_expiry grant (Some later)))
           | None => None
           end
       | None => Some (Ok grant)
       end.

Definition delegate (fresh : Uuid) (grant : Grant) (narrowed_scope : Scope)
  : result Grant GrantError :=
  (if negb (bool_decide (state grant = Active)) then Err InvalidState else Ok tt) ;?
  (if (MAX_DELEGATION_DEPTH <=? delegation_depth grant)%Z then Err InvalidState else Ok tt) ;?
  (if negb (is_subset_of narrowed_scope (scope grant)) then Err ScopeViolation else Ok tt) ;?
  Ok (mkGrant fresh (issuer grant) narrowed_scope Active (expires_at grant) (Some (id grant))
        (delegation_depth grant + 1) Usage_zero (schema_version grant)).

Definition use_grant (grant : Grant) (amt : UsageDelta) : result (Grant * UsageReceipt) GrantError :=
  (if negb (bool_decide (state grant = Active)) then Err InvalidState else Ok tt) ;?
  let receipt := mkReceipt (id grant) (amount amt) in
  Ok (set_usage grant (Usage_saturating_add (usage grant) amt), receipt).

Definition revoke (grant : Grant) (by_principal : PrincipalId) : result Grant GrantError :=
  if negb (bool_decide (by_principal = issuer grant)) then Err NotAuthorized
  else Ok (set_state grant Revoked).

Definition pause (grant : Grant) (by_principal : PrincipalId) : result Grant GrantError :=
  (if negb (bool_decide (by_principal = issuer grant)) then Err NotAuthorized else Ok tt) ;?
  (if negb (bool_decide (state grant = Active)) then Err InvalidState else Ok tt) ;?
  Ok (set_state grant Paused).

Definition resume (grant : Grant) (by_principal : PrincipalId) : result Grant GrantError :=
  (if negb (bool_decide (by_principal = issuer grant)) then Err NotAuthorized else Ok tt) ;?
  (if negb (bool_decide (state grant = Paused)) then Err InvalidState else Ok tt) ;?
  Ok (set_state grant Active).

Inductive TransitionEvent :=
| Extend (ttl : Duration)
| Delegate (s : Scope)
| Use (delta : UsageDelta)
| Pause (by_ : PrincipalId)
| Resume (by_ : PrincipalId)
| Revoke (by_ : PrincipalId).

(** [fresh] is the identifier of the child a [Delegate] event builds and drops. *)
Definition apply_event (fresh : Uuid) (grant : Grant) (event : TransitionEvent)
  : option (result Grant GrantError) :=
  match state grant, event with
  | Revoked, _ => Some (Err InvalidState)
  | Active, Extend ttl => extend grant ttl
  | Active, Use delta =>
      Some (match use_grant grant delta with Ok (g, _) => Ok g | Err e => Err e end)
  | Active, Pause by_ => Some (pause grant by_)
  | Active, Revoke by_ => Some (revoke grant by_)
  | Active, Delegate s => Some (let? _ := delegate fresh grant s in Ok grant)
  | Active, Resume _ => Some (Err InvalidState)
  | Paused, Resume by_ => Some (resume grant by_)
  | Paused, Revoke by_ => Some (revoke grant by_)
  | Paused, _ => Some (Err InvalidState)
  end.

Definition can_transition (from to : GrantState) : bool :=
  match from, to with
  | Active, Active | Active, Paused | Active, Revoked | Paused, Active | Paused, Revoked => true
  | _, _ => false
  end.

(** The amount of a [Use] event is a [u64]. *)
Definition event_wf (ev : TransitionEvent) : Prop :=
  match ev with Use d => in_u64 (amount d) | _ => True end.

(** One accepted event. *)
Definition step (g g' : Grant) : Prop :=
  ∃ fresh ev, event_wf ev ∧ apply_event fresh g ev = Some (Ok g').

(** A grant descends from [root] through accepted events and delegations. *)
Inductive descends (root : Grant) : Grant → Prop :=
| desc_root : descends root root
| desc_step g g' : descends root g → step g g' → descends root g'
| desc_delegate g fresh s g' :
    descends root g → delegate fresh g s = Ok g' → descends root g'.

(** ** Lemmas *)

Lemma is_subset_of_true a b :
  is_subset_of a b = true ↔
  capability a = capability b ∧
  (resource_id b = None ∨ resource_id a = resource_id b) ∧
  constraints a ⊆ constraints b.
Proof.
  unfold is_subset_of. case_bool_decide as Hc; simpl; [|naive_solver].
  assert (forallb (λ c, bool_decide (c ∈ constraints b)) (constraints a) = true ↔
          constraints a ⊆ constraints b) as Hf.
  { rewrite forallb_forall. setoid_rewrite bool_decide_eq_true.
    setoid_rewrite <-list_elem_of_In. done. }
  destruct (resource_id b) as [o|], (resource_id a) as [s|];
    try case_bool_decide; simpl; rewrite ?Hf; naive_solver.
Qed.

Lemma is_subset_of_refl a : is_subset_of a a = true.
Proof. apply is_subset_of_true. auto. Qed.

Lemma is_subset_of_trans a b c :
  is_subset_of a b = true → is_subset_of b c = true → is_subset_of a c = true.
Proof.
  rewrite !is_subset_of_true. intros (-> & Hr & Hc) (-> & Hr' & Hc').
  split; [done|]. split; [|by etransitivity].
  destruct Hr as [Hr|Hr], Hr' as [Hr'|Hr']; try (by left); try congruence.
  - left. congruence.
  - right. congruence.
Qed.

Lemma delegate_Ok fresh g s c :
  delegate fresh g s = Ok c ↔
  state g = Active ∧ (delegation_depth g < MAX_DELEGATION_DEPTH)%Z ∧
  is_subset_of s (scope g) = true ∧
  c = mkGrant fresh (issuer g) s Active (expires_at g) (Some (id g)) (delegation_depth g + 1)
        Usage_zero (schema_version g).
Proof.
  unfold delegate. rewrite !guard_bind_Ok, !negb_false_iff, bool_decide_eq_true, Z.leb_gt.
  naive_solver.
Qed.

(** The fields an accepted event may not touch. *)
Definition same_frame (g g' : Grant) : Prop :=
  id g' = id g ∧ issuer g' = issuer g ∧ scope g' = scope g ∧ parent_id g' = parent_id g ∧
  delegation_depth g' = delegation_depth g ∧ schema_version g' = schema_version g.

Lemma step_spec g g' :
  step g g' →
  can_transition (state g) (state g') = true ∧ same_frame g g' ∧
  (usage g' = usage g ∨
   ∃ d, in_u64 (amount d) ∧ usage g' = Usage_saturating_add (usage g) d ∧ state g' = Active).
Proof.
  intros (fresh & ev & Hwf & H). unfold apply_event in H. unfold same_frame.
  destruct (state g) eqn:Es, ev; simplify_eq/=;
    unfold extend, use_grant, pause, resume, revoke, delegate in *; rewrite ?Es in *;
    repeat case_bool_decide; simplify_eq/=; repeat (case_match; simplify_eq/=);
    rewrite ?Es; naive_solver.
Qed.

Lemma step_usage g g' :
  in_u64 (used (usage g)) → step g g' →
  in_u64 (used (usage g')) ∧ (used (usage g) ≤ used (usage g'))%Z.
Proof.
  intros Hu H. apply step_spec in H as (_ & _ & [->|(d & Hd & -> & _)]); [done|].
  simpl. auto with ember.
Qed.

Lemma steps_frame g g' : rtc step g g' → same_frame g g'.
Proof.
  induction 1 as [|x y z Hxy _ IH]; [by repeat split|].
  apply step_spec in Hxy as (_ & Hf & _). unfold same_frame in *. naive_solver congruence.
Qed.

(** What a grant keeps from the grant it descends from. *)
Definition lineage_inv (root g : Grant) : Prop :=
  issuer g = issuer root ∧ schema_version g = schema_version root ∧
  is_subset_of (scope g) (scope root) = true ∧
  (delegation_depth root ≤ delegation_depth g ≤ MAX_DELEGATION_DEPTH)%Z ∧
  (delegation_depth g = delegation_depth root → parent_id g = parent_id root ∧ id g = id root) ∧
  in_u64 (used (usage g)).

Lemma descends_inv root g :
  (0 ≤ delegation_depth root ≤ MAX_DELEGATION_DEPTH)%Z → in_u64 (used (usage root)) →
  descends root g → lineage_inv root g.
Proof.
  intros Hd Hu. unfold lineage_inv.
  induction 1 as [|g g' _ IH Hs|g fresh s g' _ IH Hs].
  - split_and!; try done; try lia. apply is_subset_of_refl.
  - pose proof (step_usage g g') as Hmono. destruct IH as (? & ? & ? & ? & ? & ?).
    pose proof Hs as (_ & (? & ? & Hsc & ? & ? & ?) & _)%step_spec. rewrite Hsc.
    split_and!; try congruence; try lia; [|by apply Hmono]. intros ?. split; naive_solver congruence.
  - destruct IH as (? & ? & ? & ? & ? & ?).
    apply delegate_Ok in Hs as (_ & ? & ? & ->); simpl.
    split_and!; try done; try lia. by eapply is_subset_of_trans.
Qed.

(** ** Properties *)

(** Whatever events and delegations lead from a root grant to a grant, the grant
    keeps the root's issuer and schema version, its scope is a subset of the root's scope, at
    most [MAX_DELEGATION_DEPTH] delegations lie between them and its usage stays a [u64]. *)
Theorem lineage_invariant (root g : Grant)
  (Hroot : (0 ≤ delegation_depth root ≤ MAX_DELEGATION_DEPTH)%Z)
  (Husage : in_u64 (used (usage root))) (Hdesc : descends root g) :
  issuer g = issuer root ∧ schema_version g = schema_version root ∧
  is_subset_of (scope g) (scope root) = true ∧
  (delegation_depth root ≤ delegation_depth g ≤ MAX_DELEGATION_DEPTH)%Z ∧
  in_u64 (used (usage g)).
Proof. destruct (descends_inv root g Hroot Husage Hdesc) as (? & ? & ? & ? & _ & ?). done. Qed.

(** Revocation is terminal: nothing descends from a revoked grant but the grant
    itself, so no sequence of events, by anyone, reactivates it, charges it, extends it or
    derives a child from it. *)
Theorem revoked_terminal (g g' : Grant) (H : state g = Revoked) (Hdesc : descends g g') :
  g' = g.
Proof.
  induction Hdesc as [|x y _ -> Hs|x fresh s y _ -> Hs]; [done| |].
  - apply step_spec in Hs as (Ht & _). rewrite H in Ht. by destruct (state y).
  - apply delegate_Ok in Hs as (Ha & _). congruence.
Qed.

(** The machine realizes exactly the state table: an accepted event moves along an
    edge of [can_transition] and changes none of identifier, issuer, scope, parent and depth;
    and every edge out of a grant's state is taken by some event its issuer can send. *)
Theorem apply_event_table (g : Grant) :
  (∀ g', step g g' → can_transition (state g) (state g') = true ∧ same_frame g g') ∧
  (∀ to, can_transition (state g) to = true → ∃ g', step g g' ∧ state g' = to).
Proof.
  split; [intros g' H; by apply step_spec in H as (? & ? & _)|].
  intros to Hto. destruct (state g) eqn:Es, to; try done.
  - exists (set_usage g (Usage_saturating_add (usage g) (mkDelta 0))). split; [|done].
    exists "", (Use (mkDelta 0)). split; [done|].
    unfold apply_event, use_grant. rewrite Es, bool_decide_eq_true_2 by done. done.
  - exists (set_state g Paused). split; [|done]. exists "", (Pause (issuer g)). split; [done|].
    unfold apply_event, pause. rewrite Es, !bool_decide_eq_true_2 by done. done.
  - exists (set_state g Revoked). split; [|done]. exists "", (Revoke (issuer g)). split; [done|].
    unfold apply_event, revoke. rewrite Es, !bool_decide_eq_true_2 by done. done.
  - exists (set_state g Active). split; [|done]. exists "", (Resume (issuer g)). split; [done|].
    unfold apply_event, resume. rewrite Es, !bool_decide_eq_true_2 by done. done.
  - exists (set_state g Revoked). split; [|done]. exists "", (Revoke (issuer g)). split; [done|].
    unfold apply_event, revoke. rewrite Es, !bool_decide_eq_true_2 by done. done.
Qed.

(** Over any run of accepted events the usage counter never decreases and never
    leaves the range of [u64]. *)
Theorem usage_monotone (g g' : Grant) (Hu : in_u64 (used (usage g))) (Hrun : rtc step g g') :
  in_u64 (used (usage g')) ∧ (used (usage g) ≤ used (usage g'))%Z.
Proof.
  induction Hrun as [|x y z Hxy _ IH]; [split; [done|lia]|].
  destruct (step_usage x y Hu Hxy) as [Hy Hle]. destruct (IH Hy). split; [done|lia].
Qed.

End Machine.
Arguments Grant : clear implicits.
Arguments TransitionEvent : clear implicits.

(** Deadlines as seconds, to evaluate the theorems on. *)
Definition demo_add (t d : Z) : option Z := Some (t + d)%Z.
Definition demo_root : Grant Z :=
  mkGrant "r" "alice" (mkLScope "repo" None ["a"; "b"]) Active (Some 100%Z) None 0 Usage_zero 1.
Definition demo_sub : Grant Z :=
  mkGrant "c" "alice" (mkLScope "repo" (Some "web") ["a"]) Active (Some 100%Z) (Some "r") 1
    Usage_zero 1.

Lemma lineage_invariant_witness :
  is_subset_of (scope (set_usage demo_sub (mkLUsage 5))) (scope demo_root) = true.
Proof.
  assert (descends demo_add demo_root (set_usage demo_sub (mkLUsage 5))) as Hd.
  { apply (desc_step _ _ demo_sub).
    - apply (desc_delegate _ _ demo_root "c" (mkLScope "repo" (Some "web") ["a"]));
        [constructor|vm_compute; reflexivity].
    - exists "", (Use (mkDelta 5)). split; [split; vm_compute; discriminate|].
      vm_compute. reflexivity. }
  refine (proj1 (proj2 (proj2 (lineage_invariant demo_add demo_root _ _ _ Hd)))).
  - split; vm_compute; discriminate.
  - split; vm_compute; discriminate.
Defined.

Lemma revoked_terminal_witness :
  set_state demo_root Revoked = set_state demo_root Revoked.
Proof. apply (revoked_terminal demo_add); [reflexivity|constructor]. Defined.

Lemma usage_monotone_witness : (0 ≤ used (usage (set_usage demo_root (mkLUsage 7))))%Z.
Proof.
  refine (proj2 (usage_monotone demo_add demo_root _ _ _)).
  - split; vm_compute; discriminate.
  - eapply rtc_l; [|constructor]. exists "", (Use (mkDelta 7)).
    split; [split; vm_compute; discriminate|vm_compute; reflexivity].
Defined.

End Lifecycle.

Module ChainBuild.

Definition classify_resource_type (credential_name scope : string) : ResourceType :=
  if str_starts_with scope "llm:" || str_contains scope "anthropic" || str_contains scope "openai"
  then Session
  else if str_starts_with scope "x402:" || str_contains scope "payment" then Payment
  else if str_starts_with scope "time:" then Time
  else if str_starts_with scope "compute:" then Compute
  else if str_starts_with scope "recovery:" then Recovery
  else Credential.

Definition scope_action (parts : list string) : string :=
  match parts with
  | [] => "*"
  | [a] => if bool_decide (a = "*") then "*" else a
  | provider :: a :: _ => provider +:+ ":" +:+ a
  end.

Definition tail_selector (tail : string) : ResourceSelector :=
  if str_contains_char tail star then Glob tail else Exact tail.

Definition scope_to_actions_and_selector (scope credential_name : string)
  : list string * ResourceSelector :=
  let scope := str_trim scope in
  let parts := str_split colon scope in
  let selector :=
    if bool_decide (scope = "*") then Any
    else if bool_decide (length parts = 4) && negb (existsb str_is_empty parts)
    then GlobWithSubtarget (nth 2 parts "") (nth 3 parts "")
    else if (3 <=? length parts)%nat then tail_selector (str_join ":" (drop 2 parts))
    else if str_contains_char scope star then Glob scope
    else Exact credential_name in
  ([scope_action parts], selector).

Definition build_single_statement_block (persona_id credential_name scope : string)
  (created_at : Z) (expires_at : option Z) (budget : option Budget) (usage : Usage) : Block :=
  let resource_type := classify_resource_type credential_name scope in
  let '(actions, selector) := scope_to_actions_and_selector scope credential_name in
  let budget := match budget with
                | Some b => if is_none_set b then None else Some b
                | None => None
                end in
  let statement := mkStatement "S0" resource_type actions selector budget usage [] None in
  mkBlock [statement] None expires_at persona_id created_at None None.

Definition access_grant_envelope (id persona_id credential_name status : string)
  (signed_block : SignedBlock) (created_at : Z) : AccessGrant :=
  GrantTypes.mkGrant id 1 persona_id Service credential_name RP_Agent
    (default GrantTypes.Active (GrantStatus_parse status)) OneShot [signed_block]
    AttestationBinding_default created_at created_at None None None None.

(** ** Lemmas *)

Lemma glob_lang_star_lang p s : qmark ∉ p → glob_lang p s → star_lang p s.
Proof. intros Hq H. induction H; try (constructor; set_solver); set_solver. Qed.

Lemma glob_matches_wildcard p s :
  qmark ∉ to_bytes p → glob_matches p s = true → wildcard_match p s = true.
Proof.
  intros Hq H%glob_matches_sound. by apply wildcard_match_true, glob_lang_star_lang.
Qed.

Lemma str_split_no_sep c s f : f ∈ str_split c s → c ∉ to_bytes f.
Proof.
  unfold str_split. intros (b & -> & Hb)%list_elem_of_fmap. rewrite to_of_bytes.
  by eapply split_on_no_sep.
Qed.

Lemma split_once_pair p a :
  colon ∉ to_bytes p → str_split_once colon (p +:+ ":" +:+ a) = Some (p, a).
Proof.
  intros Hp. apply str_split_once_Some. split; [|done]. by rewrite to_bytes_app.
Qed.

Lemma action_covers_pair p a p' a' :
  colon ∉ to_bytes p → colon ∉ to_bytes p' →
  action_covers (p +:+ ":" +:+ a) (p' +:+ ":" +:+ a') = true → p = p' ∧ (a = a' ∨ a = "*").
Proof.
  intros Hp Hp' [Heq|(q & r & _ & H1 & H2)]%action_covers_true.
  - pose proof (split_once_pair p a Hp) as H. rewrite Heq, split_once_pair in H by done.
    naive_solver.
  - rewrite split_once_pair in H1, H2 by done. naive_solver.
Qed.

Lemma bare_action_admits a v c :
  colon ∉ to_bytes a → action_admits [a] (v +:+ ":" +:+ c) → a = "*".
Proof.
  intros Ha [->%list_elem_of_singleton|(? & ->%list_elem_of_singleton & H)]; [done|].
  destruct Ha. apply action_covers_true in H as [->|(q & r & _ & H & _)].
  - rewrite !to_bytes_app. set_solver.
  - apply str_split_once_Some in H as [-> _]. set_solver.
Qed.

Lemma pair_action_admits p a p' a' :
  colon ∉ to_bytes p → colon ∉ to_bytes p' →
  action_admits [p +:+ ":" +:+ a] (p' +:+ ":" +:+ a') → p = p' ∧ (a = "*" ∨ a = a').
Proof.
  intros Hp Hp' [H%list_elem_of_singleton|(? & ->%list_elem_of_singleton & H)].
  - assert (colon ∈ to_bytes "*") as Hc; [|vm_compute in Hc; set_solver].
    rewrite H, !to_bytes_app. set_solver.
  - apply action_covers_pair in H; naive_solver.
Qed.

(** The shape of a scope that parses. *)
Lemma parse_scope_Ok s p :
  parse_scope s = Ok p →
  (str_trim s = "*" ∧ p = mkScope "*" "*" "*" None) ∨
  str_trim s ≠ "*" ∧ existsb str_is_empty (str_split colon (str_trim s)) = false ∧
  ((∃ a, str_split colon (str_trim s) = [a] ∧ p = mkScope "*" a "*" None) ∨
   (∃ v a, str_split colon (str_trim s) = [v; a] ∧ p = mkScope v a "*" None) ∨
   (∃ v a t, str_split colon (str_trim s) = [v; a; t] ∧ p = mkScope v a t None) ∨
   (∃ v a t u, str_split colon (str_trim s) = [v; a; t; u] ∧ p = mkScope v a t (Some u))).
Proof.
  unfold parse_scope. destruct (str_is_empty _); [done|].
  case_bool_decide as Hs; [intros [= <-]; auto|]. right. split; [done|].
  destruct (existsb _ _); [done|]. split; [done|].
  destruct (4 <? _)%nat; [done|].
  destruct (str_split _ _) as [|v [|a [|t [|u [|? ?]]]]]; simplify_eq; eauto 12.
Qed.

Lemma split_single c s x : str_split c s = [x] → x = s.
Proof.
  unfold str_split. intros H. apply to_bytes_inj. rewrite <-(join_split_on c (to_bytes s)).
  destruct (split_on c (to_bytes s)) as [|b [|? ?]]; simplify_eq/=. by rewrite to_of_bytes.
Qed.

(** The selector of a target segment admits no more than the wildcard pattern. *)
Lemma tail_selector_field t res :
  qmark ∉ to_bytes t → covers (tail_selector t) res = true → field_admits t res.
Proof.
  intros Hq. unfold tail_selector, field_admits. destruct (str_contains_char _ _); simpl.
  - intros H. right. by apply glob_matches_wildcard.
  - intros ->%bool_decide_eq_true. right. apply wildcard_match_refl.
Qed.

Lemma str_join_one x : str_join ":" [x] = x.
Proof. unfold str_join. simpl. apply of_to_bytes. Qed.

(** ** Property *)

(** The statement built from a scope string admits no more than the scope string:
    an invocation [provider:action] on a target that the block's statement admits is admitted
    by the parsed scope. Patterns must not use the single-byte wildcard, which only the
    statement's selector understands. *)
Theorem built_statement_refines_scope (persona cred scope : string) (created : Z)
  (expires : option Z) (bud : option Budget) (u : Usage) (p : ScopeParts) (r : Request)
  (s : Statement)
  (Hparse : parse_scope scope = Ok p)
  (Hqt : qmark ∉ to_bytes (sp_target p))
  (Hqs : ∀ x, sp_subtarget p = Some x → qmark ∉ to_bytes x)
  (Hprov : colon ∉ to_bytes (rq_provider r))
  (Hact : colon ∉ to_bytes (rq_action r))
  (Hs : s ∈ statements (build_single_statement_block persona cred scope created expires bud u))
  (Hadm : statement_admits (λ _, True) s (rq_provider r +:+ ":" +:+ rq_action r)
            (rq_target r) (rq_subtarget r)) :
  scope_admits p r.
Proof.
  unfold build_single_statement_block, scope_to_actions_and_selector in Hs.
  simpl in Hs. apply list_elem_of_singleton in Hs as ->.
  destruct Hadm as (Ha & Hsel & _). simpl in Ha, Hsel. unfold scope_admits.
  apply parse_scope_Ok in Hparse as [[Ht ->]|(Hne & Hemp & Hshape)].
  { simpl. unfold field_admits. auto. }
  rewrite bool_decide_eq_false_2 in Hsel by done. rewrite Hemp in Hsel.
  pose proof (str_split_no_sep colon (str_trim scope)) as Hno.
  destruct Hshape as [(x & E & ->)|[(v & x & E & ->)|[(v & x & t & E & ->)|(v & x & t & w & E & ->)]]];
    rewrite E in Ha, Hsel, Hno; simpl in *.
  - apply split_single in E. subst x. rewrite bool_decide_eq_false_2 in Ha by done.
    by apply bare_action_admits in Ha; [|set_solver].
  - apply pair_action_admits in Ha as [-> Ha]; [|set_solver|done].
    unfold field_admits. naive_solver.
  - apply pair_action_admits in Ha as [-> Ha]; [|set_solver|done].
    rewrite str_join_one in Hsel. destruct Hsel as [Hc _]. apply tail_selector_field in Hc; [|done].
    naive_solver.
  - apply pair_action_admits in Ha as [-> Ha]; [|set_solver|done].
    destruct Hsel as [Hc (b & Hb & Hg)]. split; [auto|]. split; [naive_solver|].
    split; [right; by apply glob_matches_wildcard|].
    exists b. split; [done|]. right. apply glob_matches_wildcard; auto.
Qed.

Lemma built_statement_refines_scope_witness :
  ∃ p, parse_scope "github:push:acme/*:feat/*" = Ok p ∧
  scope_admits p (mkRequest "github" "push" "acme/web" (Some "feat/x")).
Proof.
  eexists. split; [vm_compute; reflexivity|].
  refine (built_statement_refines_scope "alice" "gh" "github:push:acme/*:feat/*" 0 None None
            Usage_default _ (mkRequest "github" "push" "acme/web" (Some "feat/x")) _ _ _ _ _ _ _ _).
  - vm_compute. reflexivity.
  - apply (bool_decide_unpack _). vm_compute. exact I.
  - intros x [= <-]. apply (bool_decide_unpack _). vm_compute. exact I.
  - apply (bool_decide_unpack _). vm_compute. exact I.
  - apply (bool_decide_unpack _). vm_compute. exact I.
  - left.
  - split; [|split; [split; [vm_compute; reflexivity|]|constructor]].
    + right. eexists. split; [left|vm_compute; reflexivity].
    + exists "feat/x". split; [reflexivity|vm_compute; reflexivity].
Defined.

End ChainBuild.
