(* ===== verification/ChainCrypto.v ===== *)
(** * Signed grant chains

    crates/core-crypto/src/grant_chain.rs and the signing half of
    crates/core-grants/src/chain.rs. Block 0 of a chain is signed by the persona's root
    key, every later block by the ephemeral key its predecessor announced; each signature
    covers the block and the key announced next. Ed25519, hexadecimal encoding and the
    JSON bytes of a block are the class [CryptoOps], what is documented of them the class
    [CryptoLaws]; the theorems are proved against the classes. *)

From stdpp Require Import base gmap sets list strings pretty.
From Stdlib Require Import Ascii Lia ZArith.
From S2P Require Import Prelude CoreTypes GrantTypes.

Local Infix "+:+" := String.append (at level 60, right associativity).

(** ** Interface to ed25519-dalek, hex and serde_json *)

Class CryptoOps := {
  SigningKey : Type;
  VerifyingKey : Type;
  sk_from_bytes : bytes → SigningKey;
  verifying_key : SigningKey → VerifyingKey;
  vk_to_bytes : VerifyingKey → bytes;
  vk_from_bytes : bytes → result VerifyingKey string;
  sign : SigningKey → bytes → bytes;
  verify_strict : VerifyingKey → bytes → bytes → bool;
  crypto_hex :: HexOps;
  block_json : Block → bytes
}.

Class CryptoLaws (O : CryptoOps) := {
  crypto_hex_laws :: HexLaws crypto_hex;
  vk_bytes_length k : length (vk_to_bytes k) = 32;
  vk_bytes_roundtrip k : vk_from_bytes (vk_to_bytes k) = Ok k;
  sign_length k m : length (sign k m) = 64;
  sign_verifies k m : verify_strict (verifying_key k) m (sign k m) = true
}.

(** ** Signed messages *)

Definition DOMAIN_GRANT_CHAIN : bytes := to_bytes "emberlink/v1/grant-chain".
Definition UNSIGNED_PHASE1_PLACEHOLDER : string := "unsigned-phase1".
Definition PUBKEY_HEX_LEN : nat := 64.

Definition chain_msg (payload : bytes) : bytes := DOMAIN_GRANT_CHAIN ++ to_bytes "||" ++ payload.

(** [u32::to_be_bytes] *)
Definition byte_of (z : Z) : ascii := ascii_of_N (Z.to_N (z mod 256)).
Definition u32_be (z : Z) : bytes :=
  [byte_of (Z.shiftr z 24); byte_of (Z.shiftr z 16); byte_of (Z.shiftr z 8); byte_of z].

(** [usize as u32] keeps the low 32 bits. *)
Definition as_u32 (n : nat) : Z := Z.of_nat n mod 2 ^ 32.

Fixpoint len_prefixed_concat (components : list bytes) : bytes :=
  match components with
  | [] => []
  | c :: cs => u32_be (as_u32 (length c)) ++ c ++ len_prefixed_concat cs
  end.

Definition chain_block_zero_msg (block_canonical pubkey_next root_pubkey : bytes) : bytes :=
  chain_msg (len_prefixed_concat [block_canonical; pubkey_next; root_pubkey]).

Definition chain_appended_msg (block_canonical pubkey_next : bytes) : bytes :=
  chain_msg (len_prefixed_concat [block_canonical; pubkey_next]).

Inductive ChainError :=
| InvalidEncoding (detail : string)
| SignatureMismatch (block_index : nat)
| RootKeyMismatch
| EmptyChain
| ChainUnsigned (block_index : nat)
| Internal (detail : string).

Definition nat_str (n : nat) : string := pretty (N.of_nat n).

Definition ChainError_display (e : ChainError) : string :=
  match e with
  | InvalidEncoding detail => "invalid encoding: " +:+ detail
  | SignatureMismatch i => "signature verification failed at block " +:+ nat_str i
  | RootKeyMismatch => "block 0 signature does not verify against the declared root public key"
  | EmptyChain => "grant chain must contain at least one block"
  | ChainUnsigned i =>
      "block " +:+ nat_str i
      +:+ " carries pre-migration 'unsigned-phase1' placeholder; refusing to authorize"
  | Internal detail => "internal chain error: " +:+ detail
  end.

Definition is_unsigned_phase1 (sb : SignedBlock) : bool :=
  bool_decide (signature sb = UNSIGNED_PHASE1_PLACEHOLDER)
  || bool_decide (pubkey_next sb = UNSIGNED_PHASE1_PLACEHOLDER).

Record PubkeyNextKeyPair := mkNext { public_hex : string; secret_hex : string }.
Record RootKeyPair := mkRoot { root_public_hex : string; root_secret_hex : string }.
Record SignedBlockOutput := mkOutput { signed : SignedBlock; pubkey_next_secret : PubkeyNextKeyPair }.

Inductive ChainBuildError := SigningFailed (detail : string).

(** [TryInto<[u8; N]>] *)
Definition sized (n : nat) (err : ChainError) (b : bytes) : result bytes ChainError :=
  if bool_decide (length b = n) then Ok b else Err err.

Section Chain.
Context {O : CryptoOps}.

Definition Block_canonical_encode (b : Block) : bytes :=
  to_bytes (String.append "type=grant-block-v1" (String.String newline "")) ++ block_json b.

Definition decode_signature (hex_str : string) : result bytes ChainError :=
  let? sig_bytes := map_err (λ err, InvalidEncoding ("invalid signature hex: " +:+ err))
                      (hex_decode hex_str) in
  sized 64 (InvalidEncoding "signature must be 64 bytes") sig_bytes.

Definition decode_secret (hex_str : string) : result bytes ChainError :=
  let? b := map_err (λ err, InvalidEncoding ("invalid secret hex: " +:+ err)) (hex_decode hex_str) in
  sized 32 (InvalidEncoding "secret key must be 32 bytes") b.

Definition decode_pubkey (hex_str : string) : result bytes ChainError :=
  if negb (bool_decide (String.length hex_str = PUBKEY_HEX_LEN))
  then Err (InvalidEncoding ("public key hex must be " +:+ nat_str PUBKEY_HEX_LEN
                             +:+ " chars, got " +:+ nat_str (String.length hex_str)))
  else
    let? b := map_err (λ err, InvalidEncoding ("invalid pubkey hex: " +:+ err)) (hex_decode hex_str) in
    sized 32 (InvalidEncoding "public key must be 32 bytes") b.

(** [seed] is what the operating system's entropy source fills in. *)
Definition PubkeyNextKeyPair_generate (seed : bytes) : PubkeyNextKeyPair :=
  mkNext (hex_encode (vk_to_bytes (verifying_key (sk_from_bytes seed)))) (hex_encode seed).

Definition PubkeyNextKeyPair_from_hex (pub sec : string) : result PubkeyNextKeyPair ChainError :=
  let? _ := decode_secret sec in
  let? _ := decode_pubkey pub in
  Ok (mkNext pub sec).

Definition PubkeyNextKeyPair_signing_key (k : PubkeyNextKeyPair) : result SigningKey ChainError :=
  let? secret := decode_secret (secret_hex k) in Ok (sk_from_bytes secret).

Definition RootKeyPair_from_hex (pub sec : string) : result RootKeyPair ChainError :=
  let? _ := decode_secret sec in
  let? _ := decode_pubkey pub in
  Ok (mkRoot pub sec).

Definition RootKeyPair_public_bytes (k : RootKeyPair) : result bytes ChainError :=
  decode_pubkey (root_public_hex k).

Definition RootKeyPair_signing_key (k : RootKeyPair) : result SigningKey ChainError :=
  let? secret := decode_secret (root_secret_hex k) in Ok (sk_from_bytes secret).

Definition sign_block_zero (seed : bytes) (root_key : RootKeyPair) (b : Block)
  : result SignedBlockOutput ChainError :=
  let? root_signing := RootKeyPair_signing_key root_key in
  let? root_pubkey_bytes := RootKeyPair_public_bytes root_key in
  let next := PubkeyNextKeyPair_generate seed in
  let? pubkey_next_bytes := decode_pubkey (public_hex next) in
  let payload := Block_canonical_encode b in
  let sig := sign root_signing (chain_block_zero_msg payload pubkey_next_bytes root_pubkey_bytes) in
  Ok (mkOutput (mkSigned b (public_hex next) (hex_encode sig)) next).

Definition sign_appended_block (seed : bytes) (prev_pubkey_next : PubkeyNextKeyPair) (b : Block)
  : result SignedBlockOutput ChainError :=
  let? prev_signing := PubkeyNextKeyPair_signing_key prev_pubkey_next in
  let next := PubkeyNextKeyPair_generate seed in
  let? pubkey_next_bytes := decode_pubkey (public_hex next) in
  let payload := Block_canonical_encode b in
  let sig := sign prev_signing (chain_appended_msg payload pubkey_next_bytes) in
  Ok (mkOutput (mkSigned b (public_hex next) (hex_encode sig)) next).

Definition verify_block_zero (sb : SignedBlock) (signer_pubkey : VerifyingKey)
  (root_pubkey_bytes : bytes) : result unit ChainError :=
  let? sig := decode_signature (signature sb) in
  let? pubkey_next_bytes := decode_pubkey (pubkey_next sb) in
  let payload := Block_canonical_encode (block sb) in
  if verify_strict signer_pubkey
       (chain_block_zero_msg payload pubkey_next_bytes root_pubkey_bytes) sig
  then Ok tt else Err (SignatureMismatch 0).

Definition verify_appended (sb : SignedBlock) (signer_pubkey : VerifyingKey) (block_index : nat)
  : result unit ChainError :=
  let? sig := decode_signature (signature sb) in
  let? pubkey_next_bytes := decode_pubkey (pubkey_next sb) in
  let payload := Block_canonical_encode (block sb) in
  if verify_strict signer_pubkey (chain_appended_msg payload pubkey_next_bytes) sig
  then Ok tt else Err (SignatureMismatch block_index).

(** The loop that rejects placeholders, at index [i]. *)
Fixpoint reject_placeholders (i : nat) (blocks : list SignedBlock) : result unit ChainError :=
  match blocks with
  | [] => Ok tt
  | sb :: rest =>
      if is_unsigned_phase1 sb then Err (ChainUnsigned i) else reject_placeholders (S i) rest
  end.

(** [for i in 1..blocks.len()]: [prev] is block [i - 1]. *)
Fixpoint verify_rest (i : nat) (prev : SignedBlock) (blocks : list SignedBlock)
  : result unit ChainError :=
  match blocks with
  | [] => Ok tt
  | sb :: rest =>
      let? prev_pubkey_bytes := decode_pubkey (pubkey_next prev) in
      let? prev_verifying :=
        map_err (λ err, InvalidEncoding ("invalid pubkey_next at block " +:+ nat_str (i - 1)
                                         +:+ ": " +:+ err))
          (vk_from_bytes prev_pubkey_bytes) in
      verify_appended sb prev_verifying i ;? verify_rest (S i) sb rest
  end.

Definition remap_root_mismatch (e : ChainError) : ChainError :=
  match e with SignatureMismatch 0 => RootKeyMismatch | _ => e end.

Definition verify_chain (blocks : list SignedBlock) (root_pubkey : bytes)
  : result unit ChainError :=
  match blocks with
  | [] => Err EmptyChain
  | first :: rest =>
      reject_placeholders 0 blocks ;?
      let? root_pubkey_bytes :=
        sized 32 (InvalidEncoding "root pubkey must be 32 bytes") root_pubkey in
      let? root_verifying :=
        map_err (λ err, InvalidEncoding ("invalid root pubkey: " +:+ err))
          (vk_from_bytes root_pubkey_bytes) in
      map_err remap_root_mismatch (verify_block_zero first root_verifying root_pubkey_bytes) ;?
      verify_rest 1 first rest
  end.

Definition strip_prefix (value prefix : string) : result string ChainError :=
  ok_or (of_bytes <$> strip_prefix_on (to_bytes prefix) (to_bytes value))
    (InvalidEncoding ("expected prefix '" +:+ prefix +:+ "' on key encoding")).

Definition root_pubkey_bytes_from_ed25519_hex (hex : string) : result bytes ChainError :=
  let? body := ok_or (of_bytes <$> strip_prefix_on (to_bytes "ed25519:") (to_bytes hex))
                 (InvalidEncoding "expected ed25519: prefix") in
  let? b := map_err (λ err, InvalidEncoding ("invalid root pubkey hex: " +:+ err))
              (hex_decode body) in
  sized 32 (InvalidEncoding "root pubkey must be 32 bytes") b.

(** *** The wrappers of core-grants/src/chain.rs *)

Definition signing_failed {A} (r : result A ChainError) : result A ChainBuildError :=
  map_err (λ e, SigningFailed (ChainError_display e)) r.

Definition sign_block_zero_with (seed : bytes) (root : RootKeyPair) (b : Block)
  : result SignedBlock ChainBuildError :=
  signing_failed (let? out := sign_block_zero seed root b in Ok (signed out)).

Definition sign_block_zero_with_returning_output (seed : bytes) (root : RootKeyPair) (b : Block)
  : result SignedBlockOutput ChainBuildError := signing_failed (sign_block_zero seed root b).

Definition sign_appended_block_with (seed : bytes) (prev : PubkeyNextKeyPair) (b : Block)
  : result SignedBlockOutput ChainBuildError := signing_failed (sign_appended_block seed prev b).

Definition access_grant_from_statements (seed : bytes) (id persona_id recipient_id : string)
  (stmts : list Statement) (created_at : Z) (expires : option Z) (root : RootKeyPair)
  : result AccessGrant ChainBuildError :=
  let blk := mkBlock stmts None expires persona_id created_at None None in
  let? sb := sign_block_zero_with seed root blk in
  Ok (mkGrant id 1 persona_id Service recipient_id RP_Agent Active OneShot [sb]
        AttestationBinding_default created_at created_at None None None None).

(** Appending a list of blocks, each under the key its predecessor announced. *)
Fixpoint append_blocks (prev : PubkeyNextKeyPair) (todo : list (bytes * Block))
  : result (list SignedBlock * PubkeyNextKeyPair) ChainError :=
  match todo with
  | [] => Ok ([], prev)
  | (seed, b) :: todo' =>
      let? out := sign_appended_block seed prev b in
      let? tail := append_blocks (pubkey_next_secret out) todo' in
      Ok (signed out :: tail.1, tail.2)
  end.

Definition sign_chain (root : RootKeyPair) (seed : bytes) (b : Block) (todo : list (bytes * Block))
  : result (list SignedBlock * PubkeyNextKeyPair) ChainError :=
  let? out := sign_block_zero seed root b in
  let? tail := append_blocks (pubkey_next_secret out) todo in
  Ok (signed out :: tail.1, tail.2).

End Chain.

(** ** Lemmas on the message encoding *)

Lemma N_of_byte_of z : Z.of_N (N_of_ascii (byte_of z)) = (z mod 256)%Z.
Proof.
  unfold byte_of. pose proof (Z.mod_pos_bound z 256 ltac:(lia)).
  rewrite N_ascii_embedding by lia. lia.
Qed.

Lemma u32_be_inj a b : in_u32 a → in_u32 b → u32_be a = u32_be b → a = b.
Proof.
  unfold in_u32, u32_max, u32_be. intros Ha Hb [= H3 H2 H1 H0].
  apply (f_equal (λ c, Z.of_N (N_of_ascii c))) in H0, H1, H2, H3.
  rewrite !N_of_byte_of in *. rewrite !Z.shiftr_div_pow2 in * by lia.
  change (2 ^ 24)%Z with 16777216%Z in *. change (2 ^ 16)%Z with 65536%Z in *.
  change (2 ^ 8)%Z with 256%Z in *. Z.to_euclidean_division_equations. lia.
Qed.

Lemma as_u32_in n : in_u32 (as_u32 n).
Proof.
  unfold in_u32, as_u32, u32_max. pose proof (Z.mod_pos_bound (Z.of_nat n) (2 ^ 32)). lia.
Qed.

(** A component whose length fits the prefix. *)
Definition fits_u32 (b : bytes) : Prop := (Z.of_nat (length b) ≤ u32_max)%Z.

Lemma as_u32_small b : fits_u32 b → as_u32 (length b) = Z.of_nat (length b).
Proof. unfold fits_u32, as_u32, u32_max. intros. apply Z.mod_small. lia. Qed.

Lemma len_prefixed_inj cs cs' :
  Forall fits_u32 cs → Forall fits_u32 cs' →
  len_prefixed_concat cs = len_prefixed_concat cs' → cs = cs'.
Proof.
  intros H. revert cs'. induction H as [|c cs Hc _ IH]; intros cs' H'.
  { by destruct H'. }
  destruct H' as [|c' cs' Hc' Hcs']; [done|].
  change (u32_be (as_u32 (length c)) ++ c ++ len_prefixed_concat cs =
          u32_be (as_u32 (length c')) ++ c' ++ len_prefixed_concat cs' → c :: cs = c' :: cs').
  intros Heq. apply app_inj_1 in Heq as [Hl Heq]; [|done].
  apply u32_be_inj in Hl; [|apply as_u32_in..]. rewrite !as_u32_small in Hl by done.
  apply app_inj_1 in Heq as [-> Heq]; [|lia]. f_equal. by apply IH.
Qed.

Lemma chain_msg_inj p p' : chain_msg p = chain_msg p' → p = p'.
Proof. unfold chain_msg. intros H. by do 2 apply app_inv_head in H. Qed.

Lemma fits_32 b : length b = 32 → fits_u32 b.
Proof. unfold fits_u32, u32_max. lia. Qed.

Lemma zero_msg_inj c n r c' n' r' :
  fits_u32 c → fits_u32 c' → length n = 32 → length n' = 32 → length r = 32 → length r' = 32 →
  chain_block_zero_msg c n r = chain_block_zero_msg c' n' r' → c = c' ∧ n = n' ∧ r = r'.
Proof.
  intros ?????? H%chain_msg_inj. apply len_prefixed_inj in H; [naive_solver|..];
    repeat (constructor; auto using fits_32).
Qed.

Lemma appended_msg_inj c n c' n' :
  fits_u32 c → fits_u32 c' → length n = 32 → length n' = 32 →
  chain_appended_msg c n = chain_appended_msg c' n' → c = c' ∧ n = n'.
Proof.
  intros ???? H%chain_msg_inj. apply len_prefixed_inj in H; [naive_solver|..];
    repeat (constructor; auto using fits_32).
Qed.

(** A block-zero message is never an appended-block message. *)
Lemma zero_msg_ne_appended c n r c' n' :
  fits_u32 c → fits_u32 c' → length n = 32 → length n' = 32 → length r = 32 →
  chain_block_zero_msg c n r ≠ chain_appended_msg c' n'.
Proof.
  intros ????? H%chain_msg_inj. apply len_prefixed_inj in H; [done|..];
    repeat (constructor; auto using fits_32).
Qed.

(** ** Lemmas on verification *)

Section Verify.
Context {O : CryptoOps}.

Lemma sized_Ok n e b b' : sized n e b = Ok b' ↔ b' = b ∧ length b = n.
Proof. unfold sized. case_bool_decide; naive_solver. Qed.

Lemma decode_pubkey_length h b : decode_pubkey h = Ok b → length b = 32.
Proof.
  unfold decode_pubkey. case_bool_decide; [|done]. simpl.
  rewrite result_bind_Ok. intros (b' & _ & [-> ?]%sized_Ok). done.
Qed.

(** The signature of [sb], decoded, verifies under the key bytes [pk] for the message
    [msg] builds from the block and the announced key. *)
Definition link_ok (msg : bytes → bytes → bytes) (pk : bytes) (sb : SignedBlock) : Prop :=
  ∃ vk sig next,
    vk_from_bytes pk = Ok vk ∧ decode_signature (signature sb) = Ok sig ∧
    decode_pubkey (pubkey_next sb) = Ok next ∧
    verify_strict vk (msg (Block_canonical_encode (block sb)) next) sig = true.

(** Every block is verified under the key its predecessor announced. *)
Fixpoint links_ok (prev : SignedBlock) (blocks : list SignedBlock) : Prop :=
  match blocks with
  | [] => True
  | sb :: rest =>
      (∃ pk, decode_pubkey (pubkey_next prev) = Ok pk ∧ link_ok chain_appended_msg pk sb) ∧
      links_ok sb rest
  end.

Lemma decode2_Ok {A B E} (r1 : result A E) (r2 : result B E) (c : A → B → bool) e :
  (let? a := r1 in let? b := r2 in if c a b then Ok tt else Err e) = Ok tt ↔
  ∃ a b, r1 = Ok a ∧ r2 = Ok b ∧ c a b = true.
Proof.
  destruct r1 as [a|]; simpl; [|by split; [|intros (? & ? & [=] & _)]].
  destruct r2 as [b|]; simpl; [|by split; [|intros (? & ? & _ & [=] & _)]].
  destruct (c a b) eqn:E'; split; try done; [eauto|].
  intros (? & ? & [= <-] & [= <-] & ?). congruence.
Qed.

Lemma verify_block_zero_Ok sb vk pk :
  verify_block_zero sb vk pk = Ok tt ↔
  ∃ sig next, decode_signature (signature sb) = Ok sig ∧ decode_pubkey (pubkey_next sb) = Ok next ∧
    verify_strict vk (chain_block_zero_msg (Block_canonical_encode (block sb)) next pk) sig = true.
Proof. apply (decode2_Ok _ _ (λ sig next, verify_strict _ (chain_block_zero_msg _ next _) sig)). Qed.

Lemma verify_appended_Ok sb vk i :
  verify_appended sb vk i = Ok tt ↔
  ∃ sig next, decode_signature (signature sb) = Ok sig ∧ decode_pubkey (pubkey_next sb) = Ok next ∧
    verify_strict vk (chain_appended_msg (Block_canonical_encode (block sb)) next) sig = true.
Proof. apply (decode2_Ok _ _ (λ sig next, verify_strict _ (chain_appended_msg _ next) sig)). Qed.

Lemma verify_rest_Ok i prev blocks : verify_rest i prev blocks = Ok tt ↔ links_ok prev blocks.
Proof.
  revert i prev. induction blocks as [|sb rest IH]; intros i prev; simpl; [done|].
  rewrite <-(IH (S i)). destruct (decode_pubkey (pubkey_next prev)) as [pk|] eqn:Ep; simpl.
  2: { split; [done|]. intros [(? & [=] & _) _]. }
  destruct (vk_from_bytes pk) as [vk|] eqn:Ev; simpl.
  - rewrite seq_Ok, verify_appended_Ok. unfold link_ok. split.
    + intros [(sig & next & ? & ? & ?) ?]. split; [|done]. exists pk. split; [done|]. eauto 10.
    + intros [(? & [= <-] & (vk' & sig & next & Hv & ?)) ?]. split; [|done].
      rewrite Ev in Hv. simplify_eq. eauto.
  - split; [done|]. intros [(? & [= <-] & (vk' & ? & ? & Hv & _)) _]. congruence.
Qed.

Lemma reject_placeholders_Ok i blocks :
  reject_placeholders i blocks = Ok tt ↔ Forall (λ sb, is_unsigned_phase1 sb = false) blocks.
Proof.
  revert i. induction blocks as [|sb rest IH]; intros i; simpl; [by split|].
  rewrite Forall_cons, <-(IH (S i)). destruct (is_unsigned_phase1 sb); naive_solver.
Qed.

Lemma verify_chain_Ok blocks root :
  verify_chain blocks root = Ok tt ↔
  ∃ first rest, blocks = first :: rest ∧
    Forall (λ sb, is_unsigned_phase1 sb = false) blocks ∧ length root = 32 ∧
    link_ok (λ c n, chain_block_zero_msg c n root) root first ∧ links_ok first rest.
Proof.
  unfold verify_chain. destruct blocks as [|first rest]; [by split; [|intros (? & ? & [=] & _)]|].
  rewrite seq_Ok, reject_placeholders_Ok. unfold sized, link_ok.
  case_bool_decide as Hl; simpl; [|by split; [intros [_ [=]]|intros (? & ? & _ & _ & ? & _)]].
  destruct (vk_from_bytes root) as [vk|] eqn:Ev; simpl.
  2: { split; [by intros [_ [=]]|]. by intros (? & ? & _ & _ & _ & (? & ? & ? & [=] & _) & _). }
  rewrite seq_Ok, map_err_Ok, verify_block_zero_Ok, verify_rest_Ok. split.
  - intros (? & (sig & next & ? & ? & ?) & ?). exists first, rest. eauto 15.
  - intros (? & ? & [= <- <-] & ? & _ & (vk' & sig & next & [= <-] & ? & ? & ?) & ?). eauto 10.
Qed.

Lemma links_ok_app prev l1 l2 : links_ok prev (l1 ++ l2) → links_ok prev l1.
Proof. revert prev. induction l1 as [|sb l1 IH]; intros prev; simpl; [done|]. naive_solver. Qed.

(** Decoding reports nothing but encoding errors. *)
Lemma decode_pubkey_Err h e : decode_pubkey h = Err e → ∃ d, e = InvalidEncoding d.
Proof.
  unfold decode_pubkey, sized. intros H. destruct (negb _); simplify_eq; [eauto|].
  destruct (hex_decode h); simplify_eq/=; [|eauto]. case_bool_decide; simplify_eq; eauto.
Qed.

Lemma decode_signature_Err h e : decode_signature h = Err e → ∃ d, e = InvalidEncoding d.
Proof.
  unfold decode_signature, sized. intros H.
  destruct (hex_decode h); simplify_eq/=; [|eauto]. case_bool_decide; simplify_eq; eauto.
Qed.

Lemma verify_appended_mismatch sb vk j i :
  verify_appended sb vk j = Err (SignatureMismatch i) → i = j.
Proof.
  unfold verify_appended.
  destruct (decode_signature _) as [sig|e] eqn:E1; simpl.
  2: { intros [= ->]. by apply decode_signature_Err in E1 as [? [=]]. }
  destruct (decode_pubkey _) as [n|e] eqn:E2; simpl.
  2: { intros [= ->]. by apply decode_pubkey_Err in E2 as [? [=]]. }
  case_match; congruence.
Qed.

Lemma reject_placeholders_Err k blocks e :
  reject_placeholders k blocks = Err e → ∃ j, e = ChainUnsigned j.
Proof.
  revert k. induction blocks as [|sb l IH]; intros k; simpl; [done|].
  case_match; [intros [= <-]; eauto|apply IH].
Qed.

Lemma zero_remapped_mismatch sb vk pk i :
  map_err remap_root_mismatch (verify_block_zero sb vk pk) ≠ Err (SignatureMismatch i).
Proof.
  unfold verify_block_zero.
  destruct (decode_signature _) as [sig|e] eqn:E1; simpl.
  2: { by apply decode_signature_Err in E1 as [? ->]. }
  destruct (decode_pubkey _) as [n|e] eqn:E2; simpl.
  2: { by apply decode_pubkey_Err in E2 as [? ->]. }
  by case_match.
Qed.

Lemma verify_rest_mismatch j prev blocks i :
  verify_rest j prev blocks = Err (SignatureMismatch i) →
  j ≤ i ∧ i - j < length blocks ∧ links_ok prev (take (i - j) blocks).
Proof.
  revert j prev. induction blocks as [|sb rest IH]; intros j prev; simpl; [done|].
  destruct (decode_pubkey (pubkey_next prev)) as [pk|e] eqn:Ep; simpl.
  2: { intros [= ->]. by apply decode_pubkey_Err in Ep as [? [=]]. }
  destruct (vk_from_bytes pk) as [vk|] eqn:Ev; simpl; [|done].
  destruct (verify_appended sb vk j) as [[]|e] eqn:Ea; simpl.
  - intros (Hle & Hlt & Hl)%IH. split; [lia|]. replace (i - j) with (S (i - S j)) by lia.
    split; [lia|]. simpl. split; [|done]. exists pk. split; [done|].
    apply verify_appended_Ok in Ea as (sig & next & ? & ? & ?). by exists vk, sig, next.
  - intros [= ->]. apply verify_appended_mismatch in Ea as ->.
    rewrite Nat.sub_diag. split_and!; [lia|lia|done].
Qed.

End Verify.

(** ** Lemmas on signing *)

Section Sign.
Context {O : CryptoOps} {L : CryptoLaws O}.

Lemma decode_pubkey_encode k :
  decode_pubkey (hex_encode (vk_to_bytes k)) = Ok (vk_to_bytes k).
Proof.
  unfold decode_pubkey, sized. rewrite hex_encode_length, vk_bytes_length, hex_decode_encode.
  simpl. by rewrite vk_bytes_length.
Qed.

Lemma decode_secret_encode seed : length seed = 32 → decode_secret (hex_encode seed) = Ok seed.
Proof. intros H. unfold decode_secret, sized. rewrite hex_decode_encode. simpl. by rewrite H. Qed.

Lemma decode_signature_encode k m :
  decode_signature (hex_encode (sign k m)) = Ok (sign k m).
Proof. unfold decode_signature, sized. rewrite hex_decode_encode. simpl. by rewrite sign_length. Qed.

(** A freshly encoded key or signature is never the placeholder. *)
Lemma hex_not_placeholder b : hex_encode b ≠ UNSIGNED_PHASE1_PLACEHOLDER.
Proof.
  intros H. apply (f_equal String.length) in H. rewrite hex_encode_length in H.
  change (String.length UNSIGNED_PHASE1_PLACEHOLDER) with 15 in H. lia.
Qed.

Lemma signed_not_placeholder b x y :
  is_unsigned_phase1 (mkSigned b (hex_encode x) (hex_encode y)) = false.
Proof.
  unfold is_unsigned_phase1. simpl.
  rewrite !bool_decide_eq_false_2 by apply hex_not_placeholder. done.
Qed.

Lemma sign_appended_block_spec seed seed' b :
  length seed = 32 →
  ∃ out, sign_appended_block seed' (PubkeyNextKeyPair_generate seed) b = Ok out ∧
    pubkey_next_secret out = PubkeyNextKeyPair_generate seed' ∧ block (signed out) = b ∧
    pubkey_next (signed out) = public_hex (PubkeyNextKeyPair_generate seed') ∧
    is_unsigned_phase1 (signed out) = false ∧
    link_ok chain_appended_msg (vk_to_bytes (verifying_key (sk_from_bytes seed))) (signed out).
Proof.
  intros Hs. unfold sign_appended_block, PubkeyNextKeyPair_signing_key, PubkeyNextKeyPair_generate.
  simpl. rewrite decode_secret_encode by done. simpl. rewrite decode_pubkey_encode. simpl.
  eexists. split; [reflexivity|]. simpl. split_and!; try done; [apply signed_not_placeholder|].
  eexists _, _, _. split; [apply vk_bytes_roundtrip|]. simpl.
  split; [apply decode_signature_encode|]. split; [apply decode_pubkey_encode|]. apply sign_verifies.
Qed.

Lemma sign_block_zero_spec root_seed seed b :
  length root_seed = 32 →
  let pk := vk_to_bytes (verifying_key (sk_from_bytes root_seed)) in
  ∃ out, sign_block_zero seed (mkRoot (hex_encode pk) (hex_encode root_seed)) b = Ok out ∧
    pubkey_next_secret out = PubkeyNextKeyPair_generate seed ∧ block (signed out) = b ∧
    pubkey_next (signed out) = public_hex (PubkeyNextKeyPair_generate seed) ∧
    is_unsigned_phase1 (signed out) = false ∧
    link_ok (λ c n, chain_block_zero_msg c n pk) pk (signed out).
Proof.
  intros Hr pk. unfold sign_block_zero, RootKeyPair_signing_key, RootKeyPair_public_bytes.
  simpl. rewrite decode_secret_encode by done. simpl. unfold pk. rewrite !decode_pubkey_encode. simpl.
  eexists. split; [reflexivity|]. simpl. split_and!; try done; [apply signed_not_placeholder|].
  eexists _, _, _. split; [apply vk_bytes_roundtrip|]. simpl.
  split; [apply decode_signature_encode|]. split; [apply decode_pubkey_encode|]. apply sign_verifies.
Qed.

Lemma append_blocks_spec todo prev seed :
  length seed = 32 → Forall (λ sb, length sb.1 = 32) todo →
  pubkey_next prev = public_hex (PubkeyNextKeyPair_generate seed) →
  ∃ blocks key, append_blocks (PubkeyNextKeyPair_generate seed) todo = Ok (blocks, key) ∧
    links_ok prev blocks ∧ Forall (λ sb, is_unsigned_phase1 sb = false) blocks ∧
    block <$> blocks = todo.*2.
Proof.
  revert prev seed. induction todo as [|[seed' b] todo IH]; intros prev seed Hs Ht Hp; simpl.
  { eexists [], _. by split_and!. }
  apply Forall_cons in Ht as [Hs' Ht].
  destruct (sign_appended_block_spec seed seed' b Hs) as (out & -> & Hk & Hb & Hn & Hu & Hl). simpl.
  destruct (IH (signed out) seed' Hs' Ht Hn) as (blocks & key & Hab & ? & ? & Hbl).
  rewrite Hk, Hab. simpl. eexists _, _. split; [done|]. simpl. split_and!; try done.
  - exists (vk_to_bytes (verifying_key (sk_from_bytes seed))). split; [|done].
    rewrite Hp. simpl. apply decode_pubkey_encode.
  - by constructor.
  - simpl. rewrite Hb. f_equal. exact Hbl.
Qed.

End Sign.

(** ** Lemmas on authenticity *)

Section Unforgeable.
Context {O : CryptoOps}.

(** [honest pk]: the secret of [pk] is only used by the signers of this module.
    [zero_log pk b n] and [app_log pk b n]: it signed block [b], announcing [n] as the next
    key, as block 0 or as an appended block. *)
Variable honest : bytes → Prop.
Variable zero_log app_log : bytes → Block → bytes → Prop.

Definition log_wf (log : bytes → Block → bytes → Prop) : Prop :=
  ∀ pk b n, log pk b n → fits_u32 (Block_canonical_encode b) ∧ length n = 32.

(** Existential unforgeability: a signature that verifies under an honest key is over a
    message that its owner signed. *)
Definition unforgeable : Prop :=
  ∀ pk vk m s, honest pk → vk_from_bytes pk = Ok vk → verify_strict vk m s = true →
  (∃ b n, zero_log pk b n ∧ m = chain_block_zero_msg (Block_canonical_encode b) n pk) ∨
  (∃ b n, app_log pk b n ∧ m = chain_appended_msg (Block_canonical_encode b) n).

(** The owner of [pk] signed the very bytes of the block and announced the very next key. *)
Definition signed_by (log : bytes → Block → bytes → Prop) (pk : bytes) (sb : SignedBlock) : Prop :=
  ∃ b next, log pk b next ∧ decode_pubkey (pubkey_next sb) = Ok next ∧
    Block_canonical_encode b = Block_canonical_encode (block sb).

Hypothesis Hzero : log_wf zero_log.
Hypothesis Happ : log_wf app_log.
Hypothesis Huf : unforgeable.

Lemma link_zero_signed pk sb :
  honest pk → length pk = 32 → fits_u32 (Block_canonical_encode (block sb)) →
  link_ok (λ c n, chain_block_zero_msg c n pk) pk sb → signed_by zero_log pk sb.
Proof.
  intros Hh Hl Hf (vk & sig & next & Hv & _ & Hn & Hs).
  pose proof (decode_pubkey_length _ _ Hn).
  destruct (Huf pk vk _ sig Hh Hv Hs) as [(b & n & Hlog & Hm)|(b & n & Hlog & Hm)].
  - destruct (Hzero _ _ _ Hlog). apply zero_msg_inj in Hm as (? & -> & _); [|done..].
    by exists b, n.
  - destruct (Happ _ _ _ Hlog). by apply zero_msg_ne_appended in Hm.
Qed.

Lemma link_appended_signed pk sb :
  honest pk → length pk = 32 → fits_u32 (Block_canonical_encode (block sb)) →
  link_ok chain_appended_msg pk sb → signed_by app_log pk sb.
Proof.
  intros Hh Hl Hf (vk & sig & next & Hv & _ & Hn & Hs).
  pose proof (decode_pubkey_length _ _ Hn).
  destruct (Huf pk vk _ sig Hh Hv Hs) as [(b & n & Hlog & Hm)|(b & n & Hlog & Hm)].
  - destruct (Hzero _ _ _ Hlog). symmetry in Hm. by apply zero_msg_ne_appended in Hm.
  - destruct (Happ _ _ _ Hlog). apply appended_msg_inj in Hm as (? & ->); [|done..].
    by exists b, n.
Qed.

Lemma links_signed prev blocks i p sb pk :
  Forall (λ sb, fits_u32 (Block_canonical_encode (block sb))) blocks →
  links_ok prev blocks → (prev :: blocks) !! i = Some p → blocks !! i = Some sb →
  decode_pubkey (pubkey_next p) = Ok pk → honest pk → signed_by app_log pk sb.
Proof.
  revert prev i. induction blocks as [|sb' blocks IH]; intros prev i Hf Hl Hp Hsb Hd Hh; [done|].
  apply Forall_cons in Hf as [Hf Hfs]. destruct Hl as [(pk' & Hd' & Hlink) Hl].
  destruct i as [|i]; simplify_eq/=; [|by eapply IH].
  rewrite Hd in Hd'. simplify_eq. apply link_appended_signed; eauto using decode_pubkey_length.
Qed.

End Unforgeable.

(** ** A toy instance to evaluate the theorems on

    One key pair, real hexadecimal, and a verifier that accepts one message. *)

Definition zeros (n : nat) : bytes := repeat Ascii.zero n.

Definition toy_ops (accept : bytes → bool) : CryptoOps := {|
  SigningKey := unit;
  VerifyingKey := unit;
  sk_from_bytes _ := tt;
  verifying_key _ := tt;
  vk_to_bytes _ := zeros 32;
  vk_from_bytes _ := Ok tt;
  sign _ _ := zeros 64;
  verify_strict _ m _ := accept m;
  crypto_hex := toy_hex_ops;
  block_json _ := []
|}.

Lemma toy_laws : CryptoLaws (toy_ops (λ _, true)).
Proof.
  constructor; try done; [apply toy_hex_laws|by intros []].
Qed.

Definition demo_block : Block := mkBlock [demo_statement "S0" ["a"] Any] None None "alice" 1 None None.
Definition demo_canonical : bytes := @Block_canonical_encode (toy_ops (λ _, true)) demo_block.
Definition demo_msg : bytes := chain_block_zero_msg demo_canonical (zeros 32) (zeros 32).
Definition demo_ops : CryptoOps := toy_ops (λ m, bool_decide (m = demo_msg)).
Definition demo_signed : SignedBlock :=
  mkSigned demo_block (of_bytes (toy_hex (zeros 32))) (of_bytes (toy_hex (zeros 64))).

(** ** Properties *)

(** The length-prefixed concatenation is unambiguously decomposable: two lists
    of components, of any number, whose lengths fit the 32-bit prefix and whose encodings
    coincide are the same list. *)
Theorem len_prefixed_concat_inj (cs cs' : list bytes)
  (Hcs : Forall fits_u32 cs) (Hcs' : Forall fits_u32 cs')
  (Heq : len_prefixed_concat cs = len_prefixed_concat cs') : cs = cs'.
Proof. by apply len_prefixed_inj. Qed.

Lemma len_prefixed_concat_inj_witness : [zeros 3; zeros 0] = [zeros 3; zeros 0].
Proof.
  apply len_prefixed_concat_inj; [repeat constructor; vm_compute; discriminate..|].
  vm_compute. reflexivity.
Defined.

(** Completeness: signing block 0 under a root key and appending any number of
    blocks, each under the ephemeral key minted for its predecessor, succeeds and yields a
    chain of exactly those blocks that verifies against the root's public key. *)
Theorem sign_chain_verifies {O : CryptoOps} {L : CryptoLaws O} (root_seed seed : bytes) (b : Block)
  (todo : list (bytes * Block))
  (Hroot : length root_seed = 32) (Hseed : length seed = 32)
  (Htodo : Forall (λ sb, length sb.1 = 32) todo) :
  let pk := vk_to_bytes (verifying_key (sk_from_bytes root_seed)) in
  ∃ blocks key,
    sign_chain (mkRoot (hex_encode pk) (hex_encode root_seed)) seed b todo = Ok (blocks, key) ∧
    verify_chain blocks pk = Ok tt ∧ block <$> blocks = b :: todo.*2.
Proof.
  intros pk. unfold sign_chain.
  destruct (sign_block_zero_spec root_seed seed b Hroot) as (out & Ho & Hk & Hb0 & Hn & Hu0 & Hl0).
  fold pk in Ho, Hl0. rewrite Ho. simpl. rewrite Hk.
  destruct (append_blocks_spec todo (signed out) seed Hseed Htodo Hn) as (blocks & key & -> & Hl & Hu & Hb).
  simpl. eexists _, _. split; [done|]. split; [|simpl; rewrite Hb0; f_equal; exact Hb].
  apply verify_chain_Ok. exists (signed out), blocks. split; [done|]. split; [by constructor|].
  split; [apply vk_bytes_length|done].
Qed.

Lemma sign_chain_verifies_witness :
  ∃ blocks key,
    @sign_chain (toy_ops (λ _, true)) (mkRoot (of_bytes (toy_hex (zeros 32))) (of_bytes (toy_hex (zeros 32))))
      (zeros 32) demo_block [(zeros 32, demo_block)] = Ok (blocks, key) ∧
    @verify_chain (toy_ops (λ _, true)) blocks (zeros 32) = Ok tt ∧
    block <$> blocks = [demo_block; demo_block].
Proof.
  apply (@sign_chain_verifies (toy_ops (λ _, true)) toy_laws (zeros 32) (zeros 32) demo_block
           [(zeros 32, demo_block)]); [reflexivity|reflexivity|].
  repeat constructor.
Defined.

(** C26. Soundness under unforgeability: in a chain that verifies against an honest
    root, the root signed block 0 together with the key it announces, and whenever a block's
    announced key is honest its owner signed the following block together with the key that
    one announces. So neither a payload nor an announced key can be swapped, reordered or
    spliced in from another persona while the keys before it are honest. *)
Theorem verified_chain_authentic {O : CryptoOps} (honest : bytes → Prop)
  (zero_log app_log : bytes → Block → bytes → Prop) (root : bytes) (blocks : list SignedBlock)
  (Hzero : log_wf zero_log) (Happ : log_wf app_log)
  (Huf : unforgeable honest zero_log app_log) (Hroot : honest root)
  (Hfits : Forall (λ sb, fits_u32 (Block_canonical_encode (block sb))) blocks)
  (Hver : verify_chain blocks root = Ok tt) :
  (∃ first, head blocks = Some first ∧ signed_by zero_log root first) ∧
  ∀ i p sb pk, blocks !! i = Some p → blocks !! S i = Some sb →
    decode_pubkey (pubkey_next p) = Ok pk → honest pk → signed_by app_log pk sb.
Proof.
  apply verify_chain_Ok in Hver as (first & rest & -> & _ & Hlen & Hz & Hl).
  apply Forall_cons in Hfits as [Hf Hfs]. split.
  - exists first. split; [done|]. by apply (link_zero_signed honest zero_log app_log).
  - intros i p sb pk Hp Hsb.
    by apply (links_signed honest zero_log app_log Hzero Happ Huf first rest i p).
Qed.

Lemma verified_chain_authentic_witness :
  ∃ first, head [demo_signed] = Some first ∧
    @signed_by demo_ops (λ _ b n, b = demo_block ∧ n = zeros 32) (zeros 32) first.
Proof.
  refine (proj1 (@verified_chain_authentic demo_ops (λ pk, pk = zeros 32)
            (λ _ b n, b = demo_block ∧ n = zeros 32) (λ _ _ _, False) (zeros 32) [demo_signed]
            _ _ _ eq_refl _ _)).
  - intros pk b n [-> ->]. split; [vm_compute; discriminate|reflexivity].
  - intros pk b n [].
  - intros pk vk m s -> _ Hm%bool_decide_eq_true. left. exists demo_block, (zeros 32).
    split; [split; reflexivity|exact Hm].
  - repeat constructor. vm_compute. discriminate.
  - vm_compute. reflexivity.
Defined.

(** Truncation: every non-empty prefix of a verified chain verifies under the same
    root, so the narrowing of a tail binds only holders who are shown the whole chain. *)
Theorem verify_chain_prefix {O : CryptoOps} (l1 l2 : list SignedBlock) (root : bytes)
  (Hne : l1 ≠ []) (H : verify_chain (l1 ++ l2) root = Ok tt) : verify_chain l1 root = Ok tt.
Proof.
  rewrite verify_chain_Ok in *. destruct H as (first & rest & Heq & Hu & Hr & Hz & Hl).
  destruct l1 as [|sb l1]; [done|]. simplify_eq/=. exists first, l1.
  apply Forall_cons in Hu as [? Hu]. apply Forall_app in Hu as [? _].
  split_and!; eauto using links_ok_app.
Qed.

Lemma verify_chain_prefix_witness :
  @verify_chain demo_ops [demo_signed] (zeros 32) = Ok tt.
Proof. apply (verify_chain_prefix [demo_signed] []); [discriminate|vm_compute; reflexivity]. Defined.

(** A reported signature mismatch names the first bad link: the index is at least
    1 and within the chain, and the blocks before it form a chain that verifies. *)
Theorem verify_chain_mismatch_index {O : CryptoOps} (blocks : list SignedBlock) (root : bytes)
  (i : nat) (H : verify_chain blocks root = Err (SignatureMismatch i)) :
  0 < i < length blocks ∧ verify_chain (take i blocks) root = Ok tt.
Proof.
  unfold verify_chain in H. destruct blocks as [|first rest]; [done|].
  destruct (reject_placeholders 0 (first :: rest)) as [[]|e] eqn:Er; simpl in H.
  2: { by apply reject_placeholders_Err in Er as [j ->]. }
  destruct (sized _ _ root) as [rb|e] eqn:Es; simpl in H.
  2: { unfold sized in Es. by case_bool_decide; simplify_eq. }
  apply sized_Ok in Es as [-> Hlen].
  destruct (vk_from_bytes root) as [vk|] eqn:Ev; simpl in H; [|done].
  destruct (map_err _ _) as [[]|e] eqn:Ez; simpl in H.
  2: { simplify_eq. by apply zero_remapped_mismatch in Ez. }
  apply verify_rest_mismatch in H as (Hle & Hlt & Hl). split; [simpl; lia|].
  destruct i as [|i]; [lia|]. replace (S i - 1) with i in * by lia.
  apply verify_chain_Ok. exists first, (take i rest). split; [done|].
  apply reject_placeholders_Ok, Forall_cons in Er as [? Hu].
  apply map_err_Ok, verify_block_zero_Ok in Ez as (sig & next & ? & ? & ?).
  split_and!; [by constructor; [|apply Forall_take]|done|by exists vk, sig, next|done].
Qed.

Lemma verify_chain_mismatch_index_witness :
  @verify_chain demo_ops (take 1 [demo_signed; demo_signed]) (zeros 32) = Ok tt.
Proof.
  refine (proj2 (verify_chain_mismatch_index [demo_signed; demo_signed] (zeros 32) 1 _)).
  vm_compute. reflexivity.
Defined.
