(* ===== verification/EventTypes.v ===== *)
(** * Event data

    crates/core-event-types/src/events.rs and the identity, recovery, network, trust and
    storage types of crates/core-principals and core-event-types/src/storage.rs that events
    carry: key material, subjects, signer bindings, the forty event bodies, the wire names
    of the enumerations and the routing functions of a body (its type, its subject and the
    root whose chain it belongs to). *)

From stdpp Require Import base gmap sets list strings.
From Stdlib Require Import Ascii Lia ZArith SpecFloat.
From S2P Require Import Prelude CoreTypes.

(** [f32]: IEEE 754 binary32, as the Standard Library's [spec_float]. *)
Abbreviation f32 := spec_float.

(** ** Principals and storage *)

Inductive KeyAlgorithm :=
| KA_DevEd25519Like | KA_Ed25519 | KA_AgeX25519 | KA_EcdsaP256.
#[export] Instance KeyAlgorithm_eq_dec : EqDecision KeyAlgorithm.
Proof. solve_decision. Defined.

Definition KeyAlgorithm_as_str (x : KeyAlgorithm) : string :=
  match x with
  | KA_DevEd25519Like => "dev-ed25519-like"
  | KA_Ed25519 => "ed25519"
  | KA_AgeX25519 => "age-x25519"
  | KA_EcdsaP256 => "ecdsa-p256"
  end.

Definition KeyAlgorithm_parse (value : string) : option KeyAlgorithm :=
  if bool_decide (value = "dev-ed25519-like") then Some KA_DevEd25519Like else
  if bool_decide (value = "ed25519") then Some KA_Ed25519 else
  if bool_decide (value = "age-x25519") then Some KA_AgeX25519 else
  if bool_decide (value = "ecdsa-p256") then Some KA_EcdsaP256 else
  None.

Record PublicKeyMaterial := mkPublicKeyMaterial {
  pk_key_id : string;
  pk_algorithm : KeyAlgorithm;
  pk_public_key : string
}.

Inductive SurvivalMode :=
| SM_Strict | SM_LimitedPersonaContinuity.
#[export] Instance SurvivalMode_eq_dec : EqDecision SurvivalMode.
Proof. solve_decision. Defined.

Definition SurvivalMode_as_str (x : SurvivalMode) : string :=
  match x with
  | SM_Strict => "strict"
  | SM_LimitedPersonaContinuity => "limited-persona-continuity"
  end.

Definition SurvivalMode_parse (value : string) : option SurvivalMode :=
  if bool_decide (value = "strict") then Some SM_Strict else
  if bool_decide (value = "limited-persona-continuity") then Some SM_LimitedPersonaContinuity else
  None.

Inductive RecoveryScope :=
| RS_FreezeDevice | RS_RestorePersonaAccess.
#[export] Instance RecoveryScope_eq_dec : EqDecision RecoveryScope.
Proof. solve_decision. Defined.

Definition RecoveryScope_as_str (x : RecoveryScope) : string :=
  match x with
  | RS_FreezeDevice => "freeze-device"
  | RS_RestorePersonaAccess => "restore-persona-access"
  end.

Definition RecoveryScope_parse (value : string) : option RecoveryScope :=
  if bool_decide (value = "freeze-device") then Some RS_FreezeDevice else
  if bool_decide (value = "restore-persona-access") then Some RS_RestorePersonaAccess else
  None.

Record EndpointDescriptor := mkEndpointDescriptor {
  ep_peer_id : string;
  ep_device_id : string;
  ep_transport_hint : string
}.

Record TrustAttestation := mkTrustAttestation {
  tru_id : string;
  tru_attester : string;
  tru_subject : string;
  tru_domain : string;
  tru_score : f32;
  tru_recipient_bound : option string
}.

Record DerivedTrustStatement := mkDerivedTrustStatement {
  dts_id : string;
  dts_subject : string;
  dts_domain : string;
  dts_normalized_score : f32
}.

Record StorageRelationship := mkStorageRelationship {
  sr_id : string;
  sr_local_peer_id : string;
  sr_remote_peer_id : string;
  sr_approved : bool
}.

Record StorageLedgerEntry := mkStorageLedgerEntry {
  sl_relationship_id : string;
  sl_stored_bytes_delta : Z
}.

Record ManifestDeviceAccess := mkManifestDeviceAccess {
  mda_device_id : string;
  mda_wrapped_manifest_key_hex : string
}.

Record ChunkReference := mkChunkReference {
  ck_manifest_id : string;
  ck_chunk_id : string;
  ck_ordinal : Z;
  ck_ciphertext_bytes : Z
}.

Record FileManifest := mkFileManifest {
  fm_id : string;
  fm_encrypted_root_chunk_id : string;
  fm_chunks : list ChunkReference;
  fm_authorized_devices : list ManifestDeviceAccess
}.

(** ** Enumerations and bindings of events *)

Inductive SubjectKind :=
| SK_Principal | SK_Root | SK_Persona | SK_Device | SK_Guardian | SK_RecoveryRequest |
SK_TrustStatement | SK_StorageRelationship | SK_Endpoint | SK_GrantOffer | SK_Badge |
SK_CredentialDeposit | SK_Unknown.
#[export] Instance SubjectKind_eq_dec : EqDecision SubjectKind.
Proof. solve_decision. Defined.

Definition SubjectKind_as_str (x : SubjectKind) : string :=
  match x with
  | SK_Principal => "principal"
  | SK_Root => "root"
  | SK_Persona => "persona"
  | SK_Device => "device"
  | SK_Guardian => "guardian"
  | SK_RecoveryRequest => "recovery-request"
  | SK_TrustStatement => "trust-statement"
  | SK_StorageRelationship => "storage-relationship"
  | SK_Endpoint => "endpoint"
  | SK_GrantOffer => "grant-offer"
  | SK_Badge => "badge"
  | SK_CredentialDeposit => "credential-deposit"
  | SK_Unknown => "unknown"
  end.

Definition SubjectKind_parse (value : string) : option SubjectKind :=
  if bool_decide (value = "principal") then Some SK_Principal else
  if bool_decide (value = "root") then Some SK_Root else
  if bool_decide (value = "persona") then Some SK_Persona else
  if bool_decide (value = "device") then Some SK_Device else
  if bool_decide (value = "guardian") then Some SK_Guardian else
  if bool_decide (value = "recovery-request") then Some SK_RecoveryRequest else
  if bool_decide (value = "trust-statement") then Some SK_TrustStatement else
  if bool_decide (value = "storage-relationship") then Some SK_StorageRelationship else
  if bool_decide (value = "endpoint") then Some SK_Endpoint else
  if bool_decide (value = "grant-offer") then Some SK_GrantOffer else
  if bool_decide (value = "badge") then Some SK_Badge else
  if bool_decide (value = "credential-deposit") then Some SK_CredentialDeposit else
  if bool_decide (value = "unknown") then Some SK_Unknown else
  None.

Inductive KeyRole :=
| KR_Principal | KR_Root | KR_Persona | KR_Device | KR_Guardian | KR_Unknown.
#[export] Instance KeyRole_eq_dec : EqDecision KeyRole.
Proof. solve_decision. Defined.

Definition KeyRole_as_str (x : KeyRole) : string :=
  match x with
  | KR_Principal => "principal"
  | KR_Root => "root"
  | KR_Persona => "persona"
  | KR_Device => "device"
  | KR_Guardian => "guardian"
  | KR_Unknown => "unknown"
  end.

Definition KeyRole_parse (value : string) : option KeyRole :=
  if bool_decide (value = "principal") then Some KR_Principal else
  if bool_decide (value = "root") then Some KR_Root else
  if bool_decide (value = "persona") then Some KR_Persona else
  if bool_decide (value = "device") then Some KR_Device else
  if bool_decide (value = "guardian") then Some KR_Guardian else
  if bool_decide (value = "unknown") then Some KR_Unknown else
  None.

Inductive EventRefRelation :=
| Rel_Previous | Rel_Authorization | Rel_Approval | Rel_RecoveryPolicy | Rel_Replacement |
Rel_Related.
#[export] Instance EventRefRelation_eq_dec : EqDecision EventRefRelation.
Proof. solve_decision. Defined.

Definition EventRefRelation_as_str (x : EventRefRelation) : string :=
  match x with
  | Rel_Previous => "previous"
  | Rel_Authorization => "authorization"
  | Rel_Approval => "approval"
  | Rel_RecoveryPolicy => "recovery-policy"
  | Rel_Replacement => "replacement"
  | Rel_Related => "related"
  end.

Definition EventRefRelation_parse (value : string) : option EventRefRelation :=
  if bool_decide (value = "previous") then Some Rel_Previous else
  if bool_decide (value = "authorization") then Some Rel_Authorization else
  if bool_decide (value = "approval") then Some Rel_Approval else
  if bool_decide (value = "recovery-policy") then Some Rel_RecoveryPolicy else
  if bool_decide (value = "replacement") then Some Rel_Replacement else
  if bool_decide (value = "related") then Some Rel_Related else
  None.

Inductive CustodyClass :=
| CC_Daemon | CC_Presence | CC_CoAuthority | CC_Container | CC_Recovery.
#[export] Instance CustodyClass_eq_dec : EqDecision CustodyClass.
Proof. solve_decision. Defined.

Definition CustodyClass_as_str (x : CustodyClass) : string :=
  match x with
  | CC_Daemon => "daemon"
  | CC_Presence => "presence"
  | CC_CoAuthority => "co-authority"
  | CC_Container => "container"
  | CC_Recovery => "recovery"
  end.

Definition CustodyClass_parse (value : string) : option CustodyClass :=
  if bool_decide (value = "daemon") then Some CC_Daemon else
  if bool_decide (value = "presence") then Some CC_Presence else
  if bool_decide (value = "co-authority") then Some CC_CoAuthority else
  if bool_decide (value = "container") then Some CC_Container else
  if bool_decide (value = "recovery") then Some CC_Recovery else
  None.

Inductive AttestationTier :=
| AT_None | AT_GenuineApp | AT_VendorHw.
#[export] Instance AttestationTier_eq_dec : EqDecision AttestationTier.
Proof. solve_decision. Defined.

Definition AttestationTier_as_str (x : AttestationTier) : string :=
  match x with
  | AT_None => "none"
  | AT_GenuineApp => "genuine_app"
  | AT_VendorHw => "vendor_hw"
  end.

Definition AttestationTier_parse (value : string) : option AttestationTier :=
  if bool_decide (value = "none") then Some AT_None else
  if bool_decide (value = "genuine_app") then Some AT_GenuineApp else
  if bool_decide (value = "vendor_hw") then Some AT_VendorHw else
  None.

Inductive PresenceFactor :=
| PF_Unattended | PF_UserPresence | PF_Biometric | PF_HardwareTouch.
#[export] Instance PresenceFactor_eq_dec : EqDecision PresenceFactor.
Proof. solve_decision. Defined.

Definition PresenceFactor_as_str (x : PresenceFactor) : string :=
  match x with
  | PF_Unattended => "unattended"
  | PF_UserPresence => "user_presence"
  | PF_Biometric => "biometric"
  | PF_HardwareTouch => "hardware_touch"
  end.

Definition PresenceFactor_parse (value : string) : option PresenceFactor :=
  if bool_decide (value = "unattended") then Some PF_Unattended else
  if bool_decide (value = "user_presence") then Some PF_UserPresence else
  if bool_decide (value = "biometric") then Some PF_Biometric else
  if bool_decide (value = "hardware_touch") then Some PF_HardwareTouch else
  None.

Inductive ContentVisibility :=
| CV_Public | CV_TrustGated | CV_Direct.
#[export] Instance ContentVisibility_eq_dec : EqDecision ContentVisibility.
Proof. solve_decision. Defined.

Definition ContentVisibility_as_str (x : ContentVisibility) : string :=
  match x with
  | CV_Public => "public"
  | CV_TrustGated => "trust_gated"
  | CV_Direct => "direct"
  end.

Definition ContentVisibility_parse (value : string) : option ContentVisibility :=
  if bool_decide (value = "public") then Some CV_Public else
  if bool_decide (value = "trust_gated") then Some CV_TrustGated else
  if bool_decide (value = "direct") then Some CV_Direct else
  None.

Inductive EventType :=
| ET_RootCreated | ET_RootKeyRotated | ET_RootRevoked | ET_DeviceAdded | ET_DeviceEnrolled |
ET_DeviceKeyRotated | ET_DeviceEncryptionKeyRotated | ET_DeviceRevoked | ET_DeviceFrozen |
ET_DeviceReplaced | ET_PersonaCreated | ET_PersonaKeyRotated | ET_PersonaRevoked |
ET_LinkageAsserted | ET_LinkageRevoked | ET_TrustAttested | ET_TrustRevoked |
ET_DerivedTrustPublished | ET_DerivedTrustRevoked | ET_RecoveryPolicyCreated |
ET_RecoveryPolicyUpdated | ET_GuardianEnrolled | ET_GuardianKeyRotated | ET_RecoveryRequested |
ET_RecoveryApproved | ET_RecoveryContested | ET_RecoveryRejected | ET_RecoveryExecuted |
ET_FreezeExecuted | ET_MessageSent | ET_ContentPublished | ET_StorageRelationshipCreated |
ET_StorageRelationshipUpdated | ET_StorageManifestPublished | ET_StorageLedgerUpdated |
ET_StorageRetentionNotice | ET_RelayHintUpdated | ET_EndpointRotated | ET_RelayShutdownNotice |
ET_DisclosurePolicyUpdated | ET_DisclosureRevoked | ET_GrantOfferCreated | ET_GrantOfferClaimed
| ET_GrantOfferRevoked | ET_BadgeIssued | ET_BadgeRevoked | ET_BadgeDisputed |
ET_CredentialDeposited | ET_CredentialRevoked.
#[export] Instance EventType_eq_dec : EqDecision EventType.
Proof. solve_decision. Defined.

Definition EventType_as_str (x : EventType) : string :=
  match x with
  | ET_RootCreated => "root_created"
  | ET_RootKeyRotated => "root_key_rotated"
  | ET_RootRevoked => "root_revoked"
  | ET_DeviceAdded => "device_added"
  | ET_DeviceEnrolled => "device_enrolled"
  | ET_DeviceKeyRotated => "device_key_rotated"
  | ET_DeviceEncryptionKeyRotated => "device_encryption_key_rotated"
  | ET_DeviceRevoked => "device_revoked"
  | ET_DeviceFrozen => "device_frozen"
  | ET_DeviceReplaced => "device_replaced"
  | ET_PersonaCreated => "persona_created"
  | ET_PersonaKeyRotated => "persona_key_rotated"
  | ET_PersonaRevoked => "persona_revoked"
  | ET_LinkageAsserted => "linkage_asserted"
  | ET_LinkageRevoked => "linkage_revoked"
  | ET_TrustAttested => "trust_attested"
  | ET_TrustRevoked => "trust_revoked"
  | ET_DerivedTrustPublished => "derived_trust_published"
  | ET_DerivedTrustRevoked => "derived_trust_revoked"
  | ET_RecoveryPolicyCreated => "recovery_policy_created"
  | ET_RecoveryPolicyUpdated => "recovery_policy_updated"
  | ET_GuardianEnrolled => "guardian_enrolled"
  | ET_GuardianKeyRotated => "guardian_key_rotated"
  | ET_RecoveryRequested => "recovery_requested"
  | ET_RecoveryApproved => "recovery_approved"
  | ET_RecoveryContested => "recovery_contested"
  | ET_RecoveryRejected => "recovery_rejected"
  | ET_RecoveryExecuted => "recovery_executed"
  | ET_FreezeExecuted => "freeze_executed"
  | ET_MessageSent => "message_sent"
  | ET_ContentPublished => "content_published"
  | ET_StorageRelationshipCreated => "storage_relationship_created"
  | ET_StorageRelationshipUpdated => "storage_relationship_updated"
  | ET_StorageManifestPublished => "storage_manifest_published"
  | ET_StorageLedgerUpdated => "storage_ledger_updated"
  | ET_StorageRetentionNotice => "storage_retention_notice"
  | ET_RelayHintUpdated => "relay_hint_updated"
  | ET_EndpointRotated => "endpoint_rotated"
  | ET_RelayShutdownNotice => "relay_shutdown_notice"
  | ET_DisclosurePolicyUpdated => "disclosure_policy_updated"
  | ET_DisclosureRevoked => "disclosure_revoked"
  | ET_GrantOfferCreated => "grant_offer_created"
  | ET_GrantOfferClaimed => "grant_offer_claimed"
  | ET_GrantOfferRevoked => "grant_offer_revoked"
  | ET_BadgeIssued => "badge_issued"
  | ET_BadgeRevoked => "badge_revoked"
  | ET_BadgeDisputed => "badge_disputed"
  | ET_CredentialDeposited => "credential_deposited"
  | ET_CredentialRevoked => "credential_revoked"
  end.

Definition EventType_parse (value : string) : option EventType :=
  if bool_decide (value = "root_created") then Some ET_RootCreated else
  if bool_decide (value = "root_key_rotated") then Some ET_RootKeyRotated else
  if bool_decide (value = "root_revoked") then Some ET_RootRevoked else
  if bool_decide (value = "device_added") then Some ET_DeviceAdded else
  if bool_decide (value = "device_enrolled") then Some ET_DeviceEnrolled else
  if bool_decide (value = "device_key_rotated") then Some ET_DeviceKeyRotated else
  if bool_decide (value = "device_encryption_key_rotated") then Some ET_DeviceEncryptionKeyRotated else
  if bool_decide (value = "device_revoked") then Some ET_DeviceRevoked else
  if bool_decide (value = "device_frozen") then Some ET_DeviceFrozen else
  if bool_decide (value = "device_replaced") then Some ET_DeviceReplaced else
  if bool_decide (value = "persona_created") then Some ET_PersonaCreated else
  if bool_decide (value = "persona_key_rotated") then Some ET_PersonaKeyRotated else
  if bool_decide (value = "persona_revoked") then Some ET_PersonaRevoked else
  if bool_decide (value = "linkage_asserted") then Some ET_LinkageAsserted else
  if bool_decide (value = "linkage_revoked") then Some ET_LinkageRevoked else
  if bool_decide (value = "trust_attested") then Some ET_TrustAttested else
  if bool_decide (value = "trust_revoked") then Some ET_TrustRevoked else
  if bool_decide (value = "derived_trust_published") then Some ET_DerivedTrustPublished else
  if bool_decide (value = "derived_trust_revoked") then Some ET_DerivedTrustRevoked else
  if bool_decide (value = "recovery_policy_created") then Some ET_RecoveryPolicyCreated else
  if bool_decide (value = "recovery_policy_updated") then Some ET_RecoveryPolicyUpdated else
  if bool_decide (value = "guardian_enrolled") then Some ET_GuardianEnrolled else
  if bool_decide (value = "guardian_key_rotated") then Some ET_GuardianKeyRotated else
  if bool_decide (value = "recovery_requested") then Some ET_RecoveryRequested else
  if bool_decide (value = "recovery_approved") then Some ET_RecoveryApproved else
  if bool_decide (value = "recovery_contested") then Some ET_RecoveryContested else
  if bool_decide (value = "recovery_rejected") then Some ET_RecoveryRejected else
  if bool_decide (value = "recovery_executed") then Some ET_RecoveryExecuted else
  if bool_decide (value = "freeze_executed") then Some ET_FreezeExecuted else
  if bool_decide (value = "message_sent") then Some ET_MessageSent else
  if bool_decide (value = "content_published") then Some ET_ContentPublished else
  if bool_decide (value = "storage_relationship_created") then Some ET_StorageRelationshipCreated else
  if bool_decide (value = "storage_relationship_updated") then Some ET_StorageRelationshipUpdated else
  if bool_decide (value = "storage_manifest_published") then Some ET_StorageManifestPublished else
  if bool_decide (value = "storage_ledger_updated") then Some ET_StorageLedgerUpdated else
  if bool_decide (value = "storage_retention_notice") then Some ET_StorageRetentionNotice else
  if bool_decide (value = "relay_hint_updated") then Some ET_RelayHintUpdated else
  if bool_decide (value = "endpoint_rotated") then Some ET_EndpointRotated else
  if bool_decide (value = "relay_shutdown_notice") then Some ET_RelayShutdownNotice else
  if bool_decide (value = "disclosure_policy_updated") then Some ET_DisclosurePolicyUpdated else
  if bool_decide (value = "disclosure_revoked") then Some ET_DisclosureRevoked else
  if bool_decide (value = "grant_offer_created") then Some ET_GrantOfferCreated else
  if bool_decide (value = "grant_offer_claimed") then Some ET_GrantOfferClaimed else
  if bool_decide (value = "grant_offer_revoked") then Some ET_GrantOfferRevoked else
  if bool_decide (value = "badge_issued") then Some ET_BadgeIssued else
  if bool_decide (value = "badge_revoked") then Some ET_BadgeRevoked else
  if bool_decide (value = "badge_disputed") then Some ET_BadgeDisputed else
  if bool_decide (value = "credential_deposited") then Some ET_CredentialDeposited else
  if bool_decide (value = "credential_revoked") then Some ET_CredentialRevoked else
  None.

Record EventSubject := mkEventSubject {
  es_kind : SubjectKind;
  es_subject_id : string
}.

Record SignerBinding := mkSignerBinding {
  sb_signer : EventSubject;
  sb_key_id : string;
  sb_role : KeyRole
}.

(** ** Predicates of the enumerations *)

Definition SubjectKind_is_principal_kind (k : SubjectKind) : bool :=
  match k with SK_Principal | SK_Root | SK_Persona => true | _ => false end.

Definition SubjectKind_canonical_principal_kind (k : SubjectKind) : SubjectKind :=
  if SubjectKind_is_principal_kind k then SK_Principal else k.

Definition EventSubject_canonical_principal_alias (s : EventSubject) : EventSubject :=
  mkEventSubject (SubjectKind_canonical_principal_kind (es_kind s)) (es_subject_id s).

Definition KeyRole_is_principal_role (r : KeyRole) : bool :=
  match r with KR_Principal | KR_Root | KR_Persona => true | _ => false end.

Definition KeyRole_canonical_principal_role (r : KeyRole) : KeyRole :=
  if KeyRole_is_principal_role r then KR_Principal else r.

Definition SignerBinding_canonical_principal_alias (s : SignerBinding) : SignerBinding :=
  mkSignerBinding (EventSubject_canonical_principal_alias (sb_signer s)) (sb_key_id s)
    (KeyRole_canonical_principal_role (sb_role s)).

Definition CustodyClass_satisfies_operator_presence (c : CustodyClass) : bool :=
  match c with CC_Presence => true | _ => false end.

Definition CustodyClass_requires_attestation (c : CustodyClass) : bool :=
  match c with CC_CoAuthority => true | _ => false end.

Definition AttestationTier_requires_statement (t : AttestationTier) : bool :=
  match t with AT_GenuineApp | AT_VendorHw => true | _ => false end.

Definition PresenceFactor_is_human_present (p : PresenceFactor) : bool :=
  match p with PF_Unattended => false | _ => true end.

(** ** Bodies *)

Record BadgeEvidence := mkBadgeEvidence {
  bev_evidence_type : string;
  bev_payload_hex : string
}.

Record RootCreatedEvent := mkRootCreated {
  rc_root_id : string;
  rc_display_name : string;
  rc_initial_key : PublicKeyMaterial
}.

Record RootKeyRotatedEvent := mkRootKeyRotated {
  rkr_root_id : string;
  rkr_previous_key_id : string;
  rkr_new_key : PublicKeyMaterial
}.

Record RootRevokedEvent := mkRootRevoked {
  rr_root_id : string;
  rr_reason : string
}.

Record DeviceAddedEvent := mkDeviceAdded {
  da_root_id : string;
  da_device_id : string;
  da_label : string;
  da_initial_key : PublicKeyMaterial;
  da_initial_encryption_key : PublicKeyMaterial
}.

Record DeviceEnrolledEvent := mkDeviceEnrolled {
  de_root_id : string;
  de_device_id : string;
  de_label : string;
  de_device_key : PublicKeyMaterial;
  de_encryption_key : PublicKeyMaterial;
  de_custody_class : CustodyClass;
  de_attestation_statement : option string;
  de_attestation_tier : AttestationTier;
  de_presence_factor : PresenceFactor
}.

Record DeviceKeyRotatedEvent := mkDeviceKeyRotated {
  dkr_root_id : string;
  dkr_device_id : string;
  dkr_previous_key_id : string;
  dkr_new_key : PublicKeyMaterial
}.

Record DeviceEncryptionKeyRotatedEvent := mkDeviceEncryptionKeyRotated {
  dekr_root_id : string;
  dekr_device_id : string;
  dekr_previous_encryption_key_id : string;
  dekr_new_encryption_key : PublicKeyMaterial
}.

Record DeviceRevokedEvent := mkDeviceRevoked {
  drv_root_id : string;
  drv_device_id : string;
  drv_reason : string
}.

Record DeviceFrozenEvent := mkDeviceFrozen {
  df_root_id : string;
  df_device_id : string;
  df_reason : string
}.

Record DeviceReplacedEvent := mkDeviceReplaced {
  drp_root_id : string;
  drp_replaced_device_id : string;
  drp_replacement_device_id : string
}.

Record PersonaCreatedEvent := mkPersonaCreated {
  pc_root_id : string;
  pc_persona_id : string;
  pc_label : string;
  pc_disclosure_profile : option string;
  pc_survival_mode : SurvivalMode;
  pc_initial_key : PublicKeyMaterial
}.

Record PersonaKeyRotatedEvent := mkPersonaKeyRotated {
  pkr_root_id : string;
  pkr_persona_id : string;
  pkr_previous_key_id : string;
  pkr_new_key : PublicKeyMaterial
}.

Record PersonaRevokedEvent := mkPersonaRevoked {
  prv_root_id : string;
  prv_persona_id : string;
  prv_reason : string
}.

Record TrustAttestedEvent := mkTrustAttested {
  ta_attestation_id : string;
  ta_attester_persona_id : string;
  ta_subject_persona_id : string;
  ta_domain : string;
  ta_score : f32;
  ta_recipient_bound : option string
}.

Record TrustRevokedEvent := mkTrustRevoked {
  tr_attestation_id : string;
  tr_attester_persona_id : string
}.

Record RecoveryPolicyCreatedEvent := mkRecoveryPolicyCreated {
  rpc_root_id : string;
  rpc_guardian_threshold : Z;
  rpc_cooldown_seconds : Z
}.

Record GuardianEnrolledEvent := mkGuardianEnrolled {
  ge_root_id : string;
  ge_guardian_id : string;
  ge_guardian_label : string;
  ge_guardian_public_key : string
}.

Record GuardianKeyRotatedEvent := mkGuardianKeyRotated {
  gkr_guardian_id : string;
  gkr_root_id : string;
  gkr_previous_key_id : string;
  gkr_new_guardian_public_key : string
}.

Record RecoveryRequestedEvent := mkRecoveryRequested {
  rrq_request_id : string;
  rrq_root_id : string;
  rrq_target_device_id : string
}.

Record RecoveryApprovedEvent := mkRecoveryApproved {
  rap_request_id : string;
  rap_guardian_id : string
}.

Record RecoveryContestedEvent := mkRecoveryContested {
  rct_request_id : string;
  rct_guardian_id : string;
  rct_reason : string;
  rct_contested_at_epoch : Z
}.

Record RecoveryRejectedEvent := mkRecoveryRejected {
  rrj_request_id : string;
  rrj_rejected_by : string;
  rrj_reason : string
}.

Record RecoveryExecutedEvent := mkRecoveryExecuted {
  rex_request_id : string;
  rex_executed_scope : RecoveryScope
}.

Record RelayHintUpdatedEvent := mkRelayHintUpdated {
  rhu_peer_id : string;
  rhu_device_id : string;
  rhu_transport_hint : string
}.

Record EndpointRotatedEvent := mkEndpointRotated {
  er_peer_id : string;
  er_device_id : string;
  er_previous_transport_hint : string;
  er_new_transport_hint : string
}.

Record StorageRelationshipCreatedEvent := mkStorageRelationshipCreated {
  src_root_id : string;
  src_relationship : StorageRelationship
}.

Record StorageLedgerUpdatedEvent := mkStorageLedgerUpdated {
  slu_root_id : string;
  slu_entry : StorageLedgerEntry
}.

Record StorageManifestPublishedEvent := mkStorageManifestPublished {
  smp_root_id : string;
  smp_relationship_id : string;
  smp_manifest : FileManifest
}.

Record RelayShutdownNoticeEvent := mkRelayShutdownNotice {
  rsn_relay_peer_id : string;
  rsn_reason : string;
  rsn_deadline_epoch : Z
}.

Record MessageSentEvent := mkMessageSent {
  ms_message_id : string;
  ms_sender_persona_id : string;
  ms_recipient_persona_id : string;
  ms_ciphertext_hex : string
}.

Record ContentPublishedEvent := mkContentPublished {
  cp_content_id : string;
  cp_author_persona_id : string;
  cp_content_type : string;
  cp_payload_hex : string;
  cp_visibility : ContentVisibility
}.

Record DisclosureRevokedEvent := mkDisclosureRevoked {
  dr_revocation_id : string;
  dr_artifact_id : string;
  dr_revoker_persona_id : string;
  dr_reason : string
}.

Record GrantOfferCreatedEvent := mkGrantOfferCreated {
  goc_offer_id : string;
  goc_issuer_persona_id : string;
  goc_ephemeral_public_key_hex : string;
  goc_sealed_payload_hex : string;
  goc_relay_hint : option string;
  goc_expires_at : Z;
  goc_conditions_json : string
}.

Record GrantOfferClaimedEvent := mkGrantOfferClaimed {
  gcl_offer_id : string;
  gcl_recipient_persona_id : string;
  gcl_claim_response_hex : string;
  gcl_claimed_at : Z
}.

Record GrantOfferRevokedEvent := mkGrantOfferRevoked {
  gor_offer_id : string;
  gor_issuer_persona_id : string;
  gor_reason : string
}.

Record BadgeIssuedEvent := mkBadgeIssued {
  bi_badge_id : string;
  bi_issuer_persona_id : string;
  bi_recipient_persona_id : string;
  bi_badge_type : string;
  bi_display_name : string;
  bi_evidence : option BadgeEvidence;
  bi_issued_at : Z;
  bi_expires_at : option Z
}.

Record BadgeRevokedEvent := mkBadgeRevoked {
  br_badge_id : string;
  br_revoker_persona_id : string;
  br_reason : string
}.

Record BadgeDisputedEvent := mkBadgeDisputed {
  bd_dispute_id : string;
  bd_target_badge_id : string;
  bd_disputer_persona_id : string;
  bd_reason : string;
  bd_evidence : option string
}.

Record CredentialDepositedEvent := mkCredentialDeposited {
  cd_deposit_id : string;
  cd_grant_id : string;
  cd_credential_id : string;
  cd_issuer_id : string;
  cd_encrypted_blocks_json : string;
  cd_created_at : Z;
  cd_expires_at : option Z
}.

Record CredentialRevokedEvent := mkCredentialRevoked {
  cr_grant_id : string;
  cr_revoker_id : string;
  cr_reason : string;
  cr_revoked_at : Z
}.

Inductive EventBody :=
| RootCreated (body : RootCreatedEvent)
| RootKeyRotated (body : RootKeyRotatedEvent)
| RootRevoked (body : RootRevokedEvent)
| DeviceAdded (body : DeviceAddedEvent)
| DeviceEnrolled (body : DeviceEnrolledEvent)
| DeviceKeyRotated (body : DeviceKeyRotatedEvent)
| DeviceEncryptionKeyRotated (body : DeviceEncryptionKeyRotatedEvent)
| DeviceRevoked (body : DeviceRevokedEvent)
| DeviceFrozen (body : DeviceFrozenEvent)
| DeviceReplaced (body : DeviceReplacedEvent)
| PersonaCreated (body : PersonaCreatedEvent)
| PersonaKeyRotated (body : PersonaKeyRotatedEvent)
| PersonaRevoked (body : PersonaRevokedEvent)
| TrustAttested (body : TrustAttestedEvent)
| TrustRevoked (body : TrustRevokedEvent)
| RecoveryPolicyCreated (body : RecoveryPolicyCreatedEvent)
| GuardianEnrolled (body : GuardianEnrolledEvent)
| GuardianKeyRotated (body : GuardianKeyRotatedEvent)
| RecoveryRequested (body : RecoveryRequestedEvent)
| RecoveryApproved (body : RecoveryApprovedEvent)
| RecoveryContested (body : RecoveryContestedEvent)
| RecoveryRejected (body : RecoveryRejectedEvent)
| RecoveryExecuted (body : RecoveryExecutedEvent)
| RelayHintUpdated (body : RelayHintUpdatedEvent)
| EndpointRotated (body : EndpointRotatedEvent)
| StorageRelationshipCreated (body : StorageRelationshipCreatedEvent)
| StorageLedgerUpdated (body : StorageLedgerUpdatedEvent)
| StorageManifestPublished (body : StorageManifestPublishedEvent)
| RelayShutdownNotice (body : RelayShutdownNoticeEvent)
| MessageSent (body : MessageSentEvent)
| ContentPublished (body : ContentPublishedEvent)
| DisclosureRevoked (body : DisclosureRevokedEvent)
| GrantOfferCreated (body : GrantOfferCreatedEvent)
| GrantOfferClaimed (body : GrantOfferClaimedEvent)
| GrantOfferRevoked (body : GrantOfferRevokedEvent)
| BadgeIssued (body : BadgeIssuedEvent)
| BadgeRevoked (body : BadgeRevokedEvent)
| BadgeDisputed (body : BadgeDisputedEvent)
| CredentialDeposited (body : CredentialDepositedEvent)
| CredentialRevoked (body : CredentialRevokedEvent).

Definition EventBody_event_type (b : EventBody) : EventType :=
  match b with
  | RootCreated _ => ET_RootCreated
  | RootKeyRotated _ => ET_RootKeyRotated
  | RootRevoked _ => ET_RootRevoked
  | DeviceAdded _ => ET_DeviceAdded
  | DeviceEnrolled _ => ET_DeviceEnrolled
  | DeviceKeyRotated _ => ET_DeviceKeyRotated
  | DeviceEncryptionKeyRotated _ => ET_DeviceEncryptionKeyRotated
  | DeviceRevoked _ => ET_DeviceRevoked
  | DeviceFrozen _ => ET_DeviceFrozen
  | DeviceReplaced _ => ET_DeviceReplaced
  | PersonaCreated _ => ET_PersonaCreated
  | PersonaKeyRotated _ => ET_PersonaKeyRotated
  | PersonaRevoked _ => ET_PersonaRevoked
  | TrustAttested _ => ET_TrustAttested
  | TrustRevoked _ => ET_TrustRevoked
  | RecoveryPolicyCreated _ => ET_RecoveryPolicyCreated
  | GuardianEnrolled _ => ET_GuardianEnrolled
  | GuardianKeyRotated _ => ET_GuardianKeyRotated
  | RecoveryRequested _ => ET_RecoveryRequested
  | RecoveryApproved _ => ET_RecoveryApproved
  | RecoveryContested _ => ET_RecoveryContested
  | RecoveryRejected _ => ET_RecoveryRejected
  | RecoveryExecuted _ => ET_RecoveryExecuted
  | RelayHintUpdated _ => ET_RelayHintUpdated
  | EndpointRotated _ => ET_EndpointRotated
  | StorageRelationshipCreated _ => ET_StorageRelationshipCreated
  | StorageLedgerUpdated _ => ET_StorageLedgerUpdated
  | StorageManifestPublished _ => ET_StorageManifestPublished
  | RelayShutdownNotice _ => ET_RelayShutdownNotice
  | MessageSent _ => ET_MessageSent
  | ContentPublished _ => ET_ContentPublished
  | DisclosureRevoked _ => ET_DisclosureRevoked
  | GrantOfferCreated _ => ET_GrantOfferCreated
  | GrantOfferClaimed _ => ET_GrantOfferClaimed
  | GrantOfferRevoked _ => ET_GrantOfferRevoked
  | BadgeIssued _ => ET_BadgeIssued
  | BadgeRevoked _ => ET_BadgeRevoked
  | BadgeDisputed _ => ET_BadgeDisputed
  | CredentialDeposited _ => ET_CredentialDeposited
  | CredentialRevoked _ => ET_CredentialRevoked
  end.

Definition EventBody_subject (b : EventBody) : EventSubject :=
  match b with
  | RootCreated body => mkEventSubject SK_Principal (rc_root_id body)
  | RootKeyRotated body => mkEventSubject SK_Principal (rkr_root_id body)
  | RootRevoked body => mkEventSubject SK_Principal (rr_root_id body)
  | DeviceAdded body => mkEventSubject SK_Device (da_device_id body)
  | DeviceEnrolled body => mkEventSubject SK_Device (de_device_id body)
  | DeviceKeyRotated body => mkEventSubject SK_Device (dkr_device_id body)
  | DeviceEncryptionKeyRotated body => mkEventSubject SK_Device (dekr_device_id body)
  | DeviceRevoked body => mkEventSubject SK_Device (drv_device_id body)
  | DeviceFrozen body => mkEventSubject SK_Device (df_device_id body)
  | DeviceReplaced body => mkEventSubject SK_Device (drp_replaced_device_id body)
  | PersonaCreated body => mkEventSubject SK_Principal (pc_persona_id body)
  | PersonaKeyRotated body => mkEventSubject SK_Principal (pkr_persona_id body)
  | PersonaRevoked body => mkEventSubject SK_Principal (prv_persona_id body)
  | TrustAttested body => mkEventSubject SK_Principal (ta_subject_persona_id body)
  | TrustRevoked body => mkEventSubject SK_Principal (tr_attester_persona_id body)
  | RecoveryPolicyCreated body => mkEventSubject SK_Principal (rpc_root_id body)
  | GuardianEnrolled body => mkEventSubject SK_Guardian (ge_guardian_id body)
  | GuardianKeyRotated body => mkEventSubject SK_Guardian (gkr_guardian_id body)
  | RecoveryRequested body => mkEventSubject SK_RecoveryRequest (rrq_request_id body)
  | RecoveryApproved body => mkEventSubject SK_RecoveryRequest (rap_request_id body)
  | RecoveryContested body => mkEventSubject SK_RecoveryRequest (rct_request_id body)
  | RecoveryRejected body => mkEventSubject SK_RecoveryRequest (rrj_request_id body)
  | RecoveryExecuted body => mkEventSubject SK_RecoveryRequest (rex_request_id body)
  | RelayHintUpdated body => mkEventSubject SK_Endpoint (rhu_peer_id body)
  | EndpointRotated body => mkEventSubject SK_Endpoint (er_peer_id body)
  | StorageRelationshipCreated body => mkEventSubject SK_StorageRelationship (sr_id (src_relationship body))
  | StorageLedgerUpdated body => mkEventSubject SK_StorageRelationship (sl_relationship_id (slu_entry body))
  | StorageManifestPublished body => mkEventSubject SK_StorageRelationship (smp_relationship_id body)
  | RelayShutdownNotice body => mkEventSubject SK_Endpoint (rsn_relay_peer_id body)
  | MessageSent body => mkEventSubject SK_Principal (ms_sender_persona_id body)
  | ContentPublished body => mkEventSubject SK_Principal (cp_author_persona_id body)
  | DisclosureRevoked body => mkEventSubject SK_Principal (dr_revoker_persona_id body)
  | GrantOfferCreated body => mkEventSubject SK_GrantOffer (goc_offer_id body)
  | GrantOfferClaimed body => mkEventSubject SK_GrantOffer (gcl_offer_id body)
  | GrantOfferRevoked body => mkEventSubject SK_GrantOffer (gor_offer_id body)
  | BadgeIssued body => mkEventSubject SK_Badge (bi_badge_id body)
  | BadgeRevoked body => mkEventSubject SK_Badge (br_badge_id body)
  | BadgeDisputed body => mkEventSubject SK_Badge (bd_target_badge_id body)
  | CredentialDeposited body => mkEventSubject SK_CredentialDeposit (cd_deposit_id body)
  | CredentialRevoked body => mkEventSubject SK_CredentialDeposit (cr_grant_id body)
  end.

Definition EventBody_root_id (b : EventBody) : option string :=
  match b with
  | RootCreated body => Some (rc_root_id body)
  | RootKeyRotated body => Some (rkr_root_id body)
  | RootRevoked body => Some (rr_root_id body)
  | DeviceAdded body => Some (da_root_id body)
  | DeviceEnrolled body => Some (de_root_id body)
  | DeviceKeyRotated body => Some (dkr_root_id body)
  | DeviceEncryptionKeyRotated body => Some (dekr_root_id body)
  | DeviceRevoked body => Some (drv_root_id body)
  | DeviceFrozen body => Some (df_root_id body)
  | DeviceReplaced body => Some (drp_root_id body)
  | PersonaCreated body => Some (pc_root_id body)
  | PersonaKeyRotated body => Some (pkr_root_id body)
  | PersonaRevoked body => Some (prv_root_id body)
  | RecoveryPolicyCreated body => Some (rpc_root_id body)
  | GuardianEnrolled body => Some (ge_root_id body)
  | GuardianKeyRotated body => Some (gkr_root_id body)
  | RecoveryRequested body => Some (rrq_root_id body)
  | StorageRelationshipCreated body => Some (src_root_id body)
  | StorageLedgerUpdated body => Some (slu_root_id body)
  | StorageManifestPublished body => Some (smp_root_id body)
  | _ => None
  end.

(** ** Properties *)

(** The wire names of all enumerations that events and keys carry round trip:
    parsing the name of a value gives the value back, so no two values share a name. *)
Theorem wire_names_roundtrip :
  (∀ x, KeyAlgorithm_parse (KeyAlgorithm_as_str x) = Some x) ∧
  (∀ x, SurvivalMode_parse (SurvivalMode_as_str x) = Some x) ∧
  (∀ x, RecoveryScope_parse (RecoveryScope_as_str x) = Some x) ∧
  (∀ x, SubjectKind_parse (SubjectKind_as_str x) = Some x) ∧
  (∀ x, KeyRole_parse (KeyRole_as_str x) = Some x) ∧
  (∀ x, EventRefRelation_parse (EventRefRelation_as_str x) = Some x) ∧
  (∀ x, CustodyClass_parse (CustodyClass_as_str x) = Some x) ∧
  (∀ x, AttestationTier_parse (AttestationTier_as_str x) = Some x) ∧
  (∀ x, PresenceFactor_parse (PresenceFactor_as_str x) = Some x) ∧
  (∀ x, ContentVisibility_parse (ContentVisibility_as_str x) = Some x) ∧
  (∀ x, EventType_parse (EventType_as_str x) = Some x).
Proof. split_and!; by intros []. Qed.
