(* ===== verification/EventCodec.v ===== *)
(** * Validation and canonical encoding of events

    The [Validate] and [CanonicalEncode] impls of crates/core-event-types/src/events.rs and
    storage.rs. A body's payload is the canonical record of its fields
    (core-types/src/encoding.rs, [canonical_record]); the theorems show what a validated
    body guarantees and which parts of a body its signed payload determines. *)

From stdpp Require Import base gmap sets list strings pretty.
From Stdlib Require Import Ascii Lia ZArith SpecFloat.
From S2P Require Import Prelude CoreTypes Numbers EventTypes.

Local Infix "+:+" := String.append (at level 60, right associativity).

(** ** Numbers *)

Definition f32_is_nan (x : f32) : bool := match x with S754_nan => true | _ => false end.
Definition f32_is_neg_zero (x : f32) : bool := match x with S754_zero true => true | _ => false end.
Definition f32_zero : f32 := S754_zero false.
Definition f32_one : f32 := S754_finite false 8388608 (-23).
(** [(0.0..=1.0).contains(&x)] *)
Definition f32_in_unit (x : f32) : bool := SFleb f32_zero x && SFleb x f32_one.

Fixpoint pad_zeros (n : nat) (s : string) : string :=
  match n with O => s | S n' => "0" +:+ pad_zeros n' s end.
(** [format!("{:0w$}", n)] *)
Definition pad_left (w : nat) (s : string) : string := pad_zeros (w - String.length s) s.

(** [m * 2^e * k] rounded to the nearest integer, ties to even. *)
Definition scaled (k : Z) (m : positive) (e : Z) : Z :=
  let num := (Zpos m * k)%Z in
  if (0 <=? e)%Z then Z.shiftl num e
  else
    let den := Z.shiftl 1 (- e) in
    let q := (num / den)%Z in
    let r := (num mod den)%Z in
    match (2 * r ?= den)%Z with
    | Lt => q
    | Gt => (q + 1)%Z
    | Eq => if Z.even q then q else (q + 1)%Z
    end.

(** [format!("{:.d$}", x)] for [d > 0] decimals *)
Definition f32_fixed (d : nat) (x : f32) : string :=
  let sign (s : bool) := if s then "-" else "" in
  let k := (10 ^ Z.of_nat d)%Z in
  match x with
  | S754_nan => "NaN"
  | S754_infinity s => sign s +:+ "inf"
  | S754_zero s => sign s +:+ "0." +:+ pad_zeros d ""
  | S754_finite s m e =>
      let n := scaled k m e in
      sign s +:+ u64_to_string (n / k) +:+ "." +:+ pad_left d (u64_to_string (n mod k))
  end.

Definition f32_fmt6 (x : f32) : string := f32_fixed 6 x.

Definition bool_to_string (b : bool) : string := if b then "true" else "false".

(** ** Validation *)

Definition PublicKeyMaterial_validate (k : PublicKeyMaterial) : verdict :=
  validate_non_empty (pk_key_id k) "key id" ;?
  validate_non_empty (pk_public_key k) "public key" ;?
  Ok tt.

Definition StorageRelationship_validate (r : StorageRelationship) : verdict :=
  validate_non_empty (sr_id r) "storage relationship id" ;?
  validate_non_empty (sr_local_peer_id r) "local peer id" ;?
  validate_non_empty (sr_remote_peer_id r) "remote peer id" ;?
  (if bool_decide (sr_local_peer_id r = sr_remote_peer_id r)
   then Err (VE.new "storage relationship peers must differ") else Ok tt) ;?
  Ok tt.

Definition StorageLedgerEntry_validate (e : StorageLedgerEntry) : verdict :=
  validate_non_empty (sl_relationship_id e) "storage relationship id".

Definition ManifestDeviceAccess_validate (a : ManifestDeviceAccess) : verdict :=
  validate_non_empty (mda_device_id a) "manifest device id" ;?
  validate_non_empty (mda_wrapped_manifest_key_hex a) "wrapped manifest key".

Definition ChunkReference_validate (c : ChunkReference) : verdict :=
  validate_non_empty (ck_manifest_id c) "chunk manifest id" ;?
  validate_non_empty (ck_chunk_id c) "chunk id" ;?
  (if (ck_ciphertext_bytes c =? 0)%Z
   then Err (VE.new "chunk ciphertext size must be greater than zero") else Ok tt) ;?
  Ok tt.

(** The loop over the chunks: the sets seen so far and whether the root chunk was met. *)
Fixpoint manifest_chunks (id root_chunk : string) (chunks : list ChunkReference)
  (seen_chunk_ids : list string) (seen_ordinals : list Z) (root_chunk_found : bool)
  : result bool ValidationError :=
  match chunks with
  | [] => Ok root_chunk_found
  | chunk :: rest =>
      ChunkReference_validate chunk ;?
      (if negb (bool_decide (ck_manifest_id chunk = id))
       then Err (VE.new "file manifest chunk references must point back to the manifest id")
       else Ok tt) ;?
      (if bool_decide (ck_chunk_id chunk ∈ seen_chunk_ids)
       then Err (VE.new "file manifest chunk ids must be unique") else Ok tt) ;?
      (if bool_decide (ck_ordinal chunk ∈ seen_ordinals)
       then Err (VE.new "file manifest chunk ordinals must be unique") else Ok tt) ;?
      let? found :=
        (if bool_decide (ck_chunk_id chunk = root_chunk)
         then if negb (ck_ordinal chunk =? 0)%Z
              then Err (VE.new "encrypted root chunk must be the first chunk in the manifest")
              else Ok true
         else Ok root_chunk_found) in
      manifest_chunks id root_chunk rest (ck_chunk_id chunk :: seen_chunk_ids)
        (ck_ordinal chunk :: seen_ordinals) found
  end.

Fixpoint manifest_devices (devices : list ManifestDeviceAccess) (seen : list string) : verdict :=
  match devices with
  | [] => Ok tt
  | access :: rest =>
      ManifestDeviceAccess_validate access ;?
      (if bool_decide (mda_device_id access ∈ seen)
       then Err (VE.new "file manifest device access entries must be unique") else Ok tt) ;?
      manifest_devices rest (mda_device_id access :: seen)
  end.

Definition FileManifest_validate (m : FileManifest) : verdict :=
  validate_non_empty (fm_id m) "file manifest id" ;?
  validate_non_empty (fm_encrypted_root_chunk_id m) "encrypted root chunk id" ;?
  (if bool_decide (fm_chunks m = [])
   then Err (VE.new "file manifest must contain at least one chunk reference") else Ok tt) ;?
  let? root_chunk_found :=
    manifest_chunks (fm_id m) (fm_encrypted_root_chunk_id m) (fm_chunks m) [] [] false in
  (if negb root_chunk_found
   then Err (VE.new "file manifest must include the encrypted root chunk at ordinal 0")
   else Ok tt) ;?
  manifest_devices (fm_authorized_devices m) [] ;?
  Ok tt.

Definition EventSubject_validate (s : EventSubject) : verdict :=
  validate_non_empty (es_subject_id s) "subject id".

Definition SignerBinding_validate (s : SignerBinding) : verdict :=
  EventSubject_validate (sb_signer s) ;?
  validate_non_empty (sb_key_id s) "signer key id".

Definition MAX_ENCRYPTED_BLOCKS_JSON_BYTES : Z := 1048576.

Definition BadgeEvidence_validate (b : BadgeEvidence) : verdict :=
  validate_non_empty (bev_evidence_type b) "evidence type" ;?
  validate_size (bev_evidence_type b) "evidence type" MAX_LABEL_BYTES ;?
  validate_non_empty (bev_payload_hex b) "evidence payload" ;?
  validate_size (bev_payload_hex b) "evidence payload" MAX_BADGE_PAYLOAD_HEX_BYTES.

Definition RootCreatedEvent_validate (b : RootCreatedEvent) : verdict :=
  validate_non_empty (rc_root_id b) "root id" ;?
  validate_non_empty (rc_display_name b) "display name" ;?
  validate_size (rc_display_name b) "display name" MAX_LABEL_BYTES ;?
  PublicKeyMaterial_validate (rc_initial_key b).

Definition RootKeyRotatedEvent_validate (b : RootKeyRotatedEvent) : verdict :=
  validate_non_empty (rkr_root_id b) "root id" ;?
  validate_non_empty (rkr_previous_key_id b) "previous key id" ;?
  PublicKeyMaterial_validate (rkr_new_key b) ;?
  (if bool_decide (rkr_previous_key_id b = pk_key_id (rkr_new_key b))
   then Err (VE.state_violation "rotated root key must change key id") else Ok tt) ;?
  Ok tt.

Definition RootRevokedEvent_validate (b : RootRevokedEvent) : verdict :=
  validate_non_empty (rr_root_id b) "root id" ;?
  validate_non_empty (rr_reason b) "revocation reason" ;?
  validate_size (rr_reason b) "revocation reason" MAX_REASON_BYTES.

Definition DeviceAddedEvent_validate (b : DeviceAddedEvent) : verdict :=
  validate_non_empty (da_root_id b) "root id" ;?
  validate_non_empty (da_device_id b) "device id" ;?
  validate_non_empty (da_label b) "device label" ;?
  validate_size (da_label b) "device label" MAX_LABEL_BYTES ;?
  PublicKeyMaterial_validate (da_initial_key b) ;?
  PublicKeyMaterial_validate (da_initial_encryption_key b).

Definition DeviceEnrolledEvent_validate (b : DeviceEnrolledEvent) : verdict :=
  validate_non_empty (de_root_id b) "root id" ;?
  validate_non_empty (de_device_id b) "device id" ;?
  validate_non_empty (de_label b) "device label" ;?
  validate_size (de_label b) "device label" MAX_LABEL_BYTES ;?
  PublicKeyMaterial_validate (de_device_key b) ;?
  PublicKeyMaterial_validate (de_encryption_key b) ;?
  (if (AttestationTier_requires_statement (de_attestation_tier b)
       || bool_decide (de_custody_class b = CC_CoAuthority))
      && str_is_empty (default "" (str_trim <$> de_attestation_statement b))
   then Err (VE.new ("custody class " +:+ CustodyClass_as_str (de_custody_class b)
                     +:+ " at attestation tier " +:+ AttestationTier_as_str (de_attestation_tier b)
                     +:+ " requires a recorded attestation statement"))
   else Ok tt) ;?
  (if negb (bool_decide (de_attestation_tier b = AT_None))
      && negb (bool_decide (de_custody_class b = CC_Presence))
   then Err (VE.new "attestation tier above `none` is only valid for a presence Device")
   else Ok tt) ;?
  (match de_custody_class b with
   | CC_Presence =>
       if negb (PresenceFactor_is_human_present (de_presence_factor b))
       then Err (VE.new "a presence Device requires a human presence factor, not `unattended`")
       else Ok tt
   | c =>
       if PresenceFactor_is_human_present (de_presence_factor b)
       then Err (VE.new ("custody class " +:+ CustodyClass_as_str c
                         +:+ " must record an `unattended` presence factor"))
       else Ok tt
   end) ;?
  validate_optional_size (de_attestation_statement b) "attestation statement"
    MAX_SEALED_PAYLOAD_HEX_BYTES.

Definition DeviceKeyRotatedEvent_validate (b : DeviceKeyRotatedEvent) : verdict :=
  validate_non_empty (dkr_root_id b) "root id" ;?
  validate_non_empty (dkr_device_id b) "device id" ;?
  validate_non_empty (dkr_previous_key_id b) "previous key id" ;?
  PublicKeyMaterial_validate (dkr_new_key b) ;?
  (if bool_decide (dkr_previous_key_id b = pk_key_id (dkr_new_key b))
   then Err (VE.state_violation "rotated device key must change key id") else Ok tt) ;?
  Ok tt.

Definition DeviceEncryptionKeyRotatedEvent_validate (b : DeviceEncryptionKeyRotatedEvent)
  : verdict :=
  validate_non_empty (dekr_root_id b) "root id" ;?
  validate_non_empty (dekr_device_id b) "device id" ;?
  validate_non_empty (dekr_previous_encryption_key_id b) "previous encryption key id" ;?
  PublicKeyMaterial_validate (dekr_new_encryption_key b) ;?
  (if bool_decide (dekr_previous_encryption_key_id b = pk_key_id (dekr_new_encryption_key b))
   then Err (VE.state_violation "rotated device encryption key must change key id") else Ok tt) ;?
  Ok tt.

Definition DeviceRevokedEvent_validate (b : DeviceRevokedEvent) : verdict :=
  validate_non_empty (drv_root_id b) "root id" ;?
  validate_non_empty (drv_device_id b) "device id" ;?
  validate_non_empty (drv_reason b) "revocation reason" ;?
  validate_size (drv_reason b) "revocation reason" MAX_REASON_BYTES.

Definition DeviceFrozenEvent_validate (b : DeviceFrozenEvent) : verdict :=
  validate_non_empty (df_root_id b) "root id" ;?
  validate_non_empty (df_device_id b) "device id" ;?
  validate_non_empty (df_reason b) "freeze reason" ;?
  validate_size (df_reason b) "freeze reason" MAX_REASON_BYTES.

Definition DeviceReplacedEvent_validate (b : DeviceReplacedEvent) : verdict :=
  validate_non_empty (drp_root_id b) "root id" ;?
  validate_non_empty (drp_replaced_device_id b) "replaced device id" ;?
  validate_non_empty (drp_replacement_device_id b) "replacement device id" ;?
  (if bool_decide (drp_replaced_device_id b = drp_replacement_device_id b)
   then Err (VE.state_violation "replacement device must differ from replaced device")
   else Ok tt) ;?
  Ok tt.

Definition PersonaCreatedEvent_validate (b : PersonaCreatedEvent) : verdict :=
  validate_non_empty (pc_root_id b) "root id" ;?
  validate_non_empty (pc_persona_id b) "persona id" ;?
  validate_non_empty (pc_label b) "persona label" ;?
  validate_size (pc_label b) "persona label" MAX_LABEL_BYTES ;?
  PublicKeyMaterial_validate (pc_initial_key b).

Definition PersonaKeyRotatedEvent_validate (b : PersonaKeyRotatedEvent) : verdict :=
  validate_non_empty (pkr_root_id b) "root id" ;?
  validate_non_empty (pkr_persona_id b) "persona id" ;?
  validate_non_empty (pkr_previous_key_id b) "previous key id" ;?
  PublicKeyMaterial_validate (pkr_new_key b) ;?
  (if bool_decide (pkr_previous_key_id b = pk_key_id (pkr_new_key b))
   then Err (VE.state_violation "rotated persona key must change key id") else Ok tt) ;?
  Ok tt.

Definition PersonaRevokedEvent_validate (b : PersonaRevokedEvent) : verdict :=
  validate_non_empty (prv_root_id b) "root id" ;?
  validate_non_empty (prv_persona_id b) "persona id" ;?
  validate_non_empty (prv_reason b) "revocation reason" ;?
  validate_size (prv_reason b) "revocation reason" MAX_REASON_BYTES.

Definition TrustAttestedEvent_validate (b : TrustAttestedEvent) : verdict :=
  validate_non_empty (ta_attestation_id b) "attestation id" ;?
  validate_non_empty (ta_attester_persona_id b) "attester persona id" ;?
  validate_non_empty (ta_subject_persona_id b) "subject persona id" ;?
  validate_non_empty (ta_domain b) "trust domain" ;?
  validate_size (ta_domain b) "trust domain" MAX_LABEL_BYTES ;?
  (if f32_is_nan (ta_score b)
   then Err (VE.invalid_format "trust score must not be NaN") else Ok tt) ;?
  (if f32_is_neg_zero (ta_score b)
   then Err (VE.invalid_format "trust score must not be negative zero") else Ok tt) ;?
  (if negb (f32_in_unit (ta_score b))
   then Err (VE.invalid_format "trust score must be in [0.0, 1.0]") else Ok tt) ;?
  Ok tt.

Definition TrustRevokedEvent_validate (b : TrustRevokedEvent) : verdict :=
  validate_non_empty (tr_attestation_id b) "attestation id" ;?
  validate_non_empty (tr_attester_persona_id b) "attester persona id".

Definition RecoveryPolicyCreatedEvent_validate (b : RecoveryPolicyCreatedEvent) : verdict :=
  validate_non_empty (rpc_root_id b) "root id" ;?
  (if (rpc_guardian_threshold b =? 0)%Z
   then Err (VE.invalid_format "guardian threshold must be greater than zero") else Ok tt) ;?
  Ok tt.

Definition GuardianEnrolledEvent_validate (b : GuardianEnrolledEvent) : verdict :=
  validate_non_empty (ge_root_id b) "root id" ;?
  validate_non_empty (ge_guardian_id b) "guardian id" ;?
  validate_non_empty (ge_guardian_label b) "guardian label" ;?
  validate_size (ge_guardian_label b) "guardian label" MAX_LABEL_BYTES ;?
  validate_non_empty (ge_guardian_public_key b) "guardian public key" ;?
  validate_size (ge_guardian_public_key b) "guardian public key" MAX_PUBLIC_KEY_HEX_BYTES.

Definition GuardianKeyRotatedEvent_validate (b : GuardianKeyRotatedEvent) : verdict :=
  validate_non_empty (gkr_guardian_id b) "guardian id" ;?
  validate_non_empty (gkr_root_id b) "root id" ;?
  validate_non_empty (gkr_previous_key_id b) "previous key id" ;?
  validate_size (gkr_previous_key_id b) "previous key id" MAX_PUBLIC_KEY_HEX_BYTES ;?
  validate_non_empty (gkr_new_guardian_public_key b) "new guardian public key" ;?
  validate_size (gkr_new_guardian_public_key b) "new guardian public key"
    MAX_PUBLIC_KEY_HEX_BYTES ;?
  (if bool_decide (gkr_previous_key_id b = gkr_new_guardian_public_key b)
   then Err (VE.state_violation "rotated guardian key must change key id") else Ok tt) ;?
  Ok tt.

Definition RecoveryRequestedEvent_validate (b : RecoveryRequestedEvent) : verdict :=
  validate_non_empty (rrq_request_id b) "request id" ;?
  validate_non_empty (rrq_root_id b) "root id" ;?
  validate_non_empty (rrq_target_device_id b) "target device id".

Definition RecoveryApprovedEvent_validate (b : RecoveryApprovedEvent) : verdict :=
  validate_non_empty (rap_request_id b) "request id" ;?
  validate_non_empty (rap_guardian_id b) "guardian id".

Definition RecoveryContestedEvent_validate (b : RecoveryContestedEvent) : verdict :=
  validate_non_empty (rct_request_id b) "request id" ;?
  validate_non_empty (rct_guardian_id b) "guardian id" ;?
  validate_non_empty (rct_reason b) "contest reason" ;?
  validate_size (rct_reason b) "contest reason" MAX_REASON_BYTES.

Definition RecoveryRejectedEvent_validate (b : RecoveryRejectedEvent) : verdict :=
  validate_non_empty (rrj_request_id b) "request id" ;?
  validate_non_empty (rrj_rejected_by b) "rejected by" ;?
  validate_non_empty (rrj_reason b) "rejection reason" ;?
  validate_size (rrj_reason b) "rejection reason" MAX_REASON_BYTES.

Definition RecoveryExecutedEvent_validate (b : RecoveryExecutedEvent) : verdict :=
  validate_non_empty (rex_request_id b) "request id".

Definition RelayHintUpdatedEvent_validate (b : RelayHintUpdatedEvent) : verdict :=
  validate_non_empty (rhu_peer_id b) "peer id" ;?
  validate_non_empty (rhu_device_id b) "device id" ;?
  validate_non_empty (rhu_transport_hint b) "transport hint" ;?
  validate_size (rhu_transport_hint b) "transport hint" MAX_TRANSPORT_HINT_BYTES.

Definition EndpointRotatedEvent_validate (b : EndpointRotatedEvent) : verdict :=
  validate_non_empty (er_peer_id b) "peer id" ;?
  validate_non_empty (er_device_id b) "device id" ;?
  validate_non_empty (er_previous_transport_hint b) "previous transport hint" ;?
  validate_size (er_previous_transport_hint b) "previous transport hint" MAX_TRANSPORT_HINT_BYTES ;?
  validate_non_empty (er_new_transport_hint b) "new transport hint" ;?
  validate_size (er_new_transport_hint b) "new transport hint" MAX_TRANSPORT_HINT_BYTES ;?
  (if bool_decide (er_previous_transport_hint b = er_new_transport_hint b)
   then Err (VE.state_violation "endpoint rotation must change transport hint") else Ok tt) ;?
  Ok tt.

Definition StorageRelationshipCreatedEvent_validate (b : StorageRelationshipCreatedEvent)
  : verdict :=
  validate_non_empty (src_root_id b) "storage relationship root id" ;?
  StorageRelationship_validate (src_relationship b).

Definition StorageLedgerUpdatedEvent_validate (b : StorageLedgerUpdatedEvent) : verdict :=
  validate_non_empty (slu_root_id b) "storage ledger root id" ;?
  StorageLedgerEntry_validate (slu_entry b).

Definition StorageManifestPublishedEvent_validate (b : StorageManifestPublishedEvent) : verdict :=
  validate_non_empty (smp_root_id b) "storage manifest root id" ;?
  validate_non_empty (smp_relationship_id b) "storage relationship id" ;?
  FileManifest_validate (smp_manifest b).

Definition RelayShutdownNoticeEvent_validate (b : RelayShutdownNoticeEvent) : verdict :=
  validate_non_empty (rsn_relay_peer_id b) "relay peer id" ;?
  validate_non_empty (rsn_reason b) "shutdown reason" ;?
  validate_size (rsn_reason b) "shutdown reason" MAX_REASON_BYTES.

Definition MessageSentEvent_validate (b : MessageSentEvent) : verdict :=
  validate_non_empty (ms_message_id b) "message id" ;?
  validate_non_empty (ms_sender_persona_id b) "sender persona id" ;?
  validate_non_empty (ms_recipient_persona_id b) "recipient persona id" ;?
  validate_non_empty (ms_ciphertext_hex b) "ciphertext" ;?
  validate_size (ms_ciphertext_hex b) "ciphertext" MAX_CIPHERTEXT_HEX_BYTES ;?
  Ok tt.

Definition ContentPublishedEvent_validate (b : ContentPublishedEvent) : verdict :=
  validate_non_empty (cp_content_id b) "content id" ;?
  validate_non_empty (cp_author_persona_id b) "author persona id" ;?
  validate_non_empty (cp_content_type b) "content type" ;?
  validate_size (cp_content_type b) "content type" MAX_LABEL_BYTES ;?
  validate_non_empty (cp_payload_hex b) "payload" ;?
  validate_size (cp_payload_hex b) "payload" MAX_CIPHERTEXT_HEX_BYTES ;?
  Ok tt.

Definition DisclosureRevokedEvent_validate (b : DisclosureRevokedEvent) : verdict :=
  validate_non_empty (dr_revocation_id b) "revocation id" ;?
  validate_non_empty (dr_artifact_id b) "artifact id" ;?
  validate_non_empty (dr_revoker_persona_id b) "revoker persona id" ;?
  validate_non_empty (dr_reason b) "reason" ;?
  validate_size (dr_reason b) "reason" MAX_REASON_BYTES ;?
  Ok tt.

Definition GrantOfferCreatedEvent_validate (b : GrantOfferCreatedEvent) : verdict :=
  validate_non_empty (goc_offer_id b) "offer id" ;?
  validate_non_empty (goc_issuer_persona_id b) "issuer persona id" ;?
  validate_non_empty (goc_ephemeral_public_key_hex b) "ephemeral public key" ;?
  validate_size (goc_ephemeral_public_key_hex b) "ephemeral public key" MAX_PUBLIC_KEY_HEX_BYTES ;?
  validate_non_empty (goc_sealed_payload_hex b) "sealed payload" ;?
  validate_size (goc_sealed_payload_hex b) "sealed payload" MAX_SEALED_PAYLOAD_HEX_BYTES ;?
  validate_size (goc_conditions_json b) "conditions json" MAX_CONDITIONS_JSON_BYTES ;?
  (if (goc_expires_at b =? 0)%Z
   then Err (VE.invalid_format "grant offer must have a non-zero expiry") else Ok tt) ;?
  (match goc_relay_hint b with
   | Some hint =>
       if negb (str_is_empty hint) && negb (str_starts_with hint "https://")
          && negb (str_starts_with hint "wss://")
       then Err (VE.invalid_format "relay_hint must be an https:// or wss:// URL") else Ok tt
   | None => Ok tt
   end) ;?
  validate_optional_size (goc_relay_hint b) "relay hint" MAX_TRANSPORT_HINT_BYTES ;?
  Ok tt.

Definition GrantOfferClaimedEvent_validate (b : GrantOfferClaimedEvent) : verdict :=
  validate_non_empty (gcl_offer_id b) "offer id" ;?
  validate_non_empty (gcl_recipient_persona_id b) "recipient persona id" ;?
  validate_non_empty (gcl_claim_response_hex b) "claim response" ;?
  validate_size (gcl_claim_response_hex b) "claim response" MAX_SEALED_PAYLOAD_HEX_BYTES ;?
  (if (gcl_claimed_at b =? 0)%Z
   then Err (VE.invalid_format "claim timestamp must be non-zero") else Ok tt) ;?
  Ok tt.

Definition GrantOfferRevokedEvent_validate (b : GrantOfferRevokedEvent) : verdict :=
  validate_non_empty (gor_offer_id b) "offer id" ;?
  validate_non_empty (gor_issuer_persona_id b) "issuer persona id" ;?
  validate_non_empty (gor_reason b) "revocation reason" ;?
  validate_size (gor_reason b) "revocation reason" MAX_REASON_BYTES.

Definition BadgeIssuedEvent_validate (b : BadgeIssuedEvent) : verdict :=
  validate_non_empty (bi_badge_id b) "badge id" ;?
  validate_non_empty (bi_issuer_persona_id b) "issuer persona id" ;?
  validate_non_empty (bi_recipient_persona_id b) "recipient persona id" ;?
  validate_non_empty (bi_badge_type b) "badge type" ;?
  validate_size (bi_badge_type b) "badge type" MAX_LABEL_BYTES ;?
  validate_non_empty (bi_display_name b) "display name" ;?
  validate_size (bi_display_name b) "display name" MAX_LABEL_BYTES ;?
  (match bi_evidence b with Some evidence => BadgeEvidence_validate evidence | None => Ok tt end) ;?
  (if (bi_issued_at b =? 0)%Z
   then Err (VE.invalid_format "badge issued_at must be non-zero") else Ok tt) ;?
  Ok tt.

Definition BadgeRevokedEvent_validate (b : BadgeRevokedEvent) : verdict :=
  validate_non_empty (br_badge_id b) "badge id" ;?
  validate_non_empty (br_revoker_persona_id b) "revoker persona id" ;?
  validate_non_empty (br_reason b) "revocation reason" ;?
  validate_size (br_reason b) "revocation reason" MAX_REASON_BYTES.

Definition BadgeDisputedEvent_validate (b : BadgeDisputedEvent) : verdict :=
  validate_non_empty (bd_dispute_id b) "dispute id" ;?
  validate_non_empty (bd_target_badge_id b) "target badge id" ;?
  validate_non_empty (bd_disputer_persona_id b) "disputer persona id" ;?
  validate_non_empty (bd_reason b) "dispute reason" ;?
  validate_size (bd_reason b) "dispute reason" MAX_REASON_BYTES ;?
  validate_optional_size (bd_evidence b) "dispute evidence" MAX_BADGE_PAYLOAD_HEX_BYTES.

Definition CredentialDepositedEvent_validate (b : CredentialDepositedEvent) : verdict :=
  validate_non_empty (cd_deposit_id b) "deposit id" ;?
  validate_non_empty (cd_grant_id b) "grant id" ;?
  validate_non_empty (cd_credential_id b) "credential id" ;?
  validate_non_empty (cd_issuer_id b) "issuer id" ;?
  validate_non_empty (cd_encrypted_blocks_json b) "encrypted blocks json" ;?
  (if (MAX_ENCRYPTED_BLOCKS_JSON_BYTES <? str_len (cd_encrypted_blocks_json b))%Z
   then Err (VE.invalid_format ("encrypted_blocks_json exceeds maximum size of "
                                +:+ u64_to_string MAX_ENCRYPTED_BLOCKS_JSON_BYTES +:+ " bytes"))
   else Ok tt) ;?
  (if (cd_created_at b =? 0)%Z
   then Err (VE.invalid_format "credential deposit created_at must be non-zero") else Ok tt) ;?
  Ok tt.

Definition CredentialRevokedEvent_validate (b : CredentialRevokedEvent) : verdict :=
  validate_non_empty (cr_grant_id b) "grant id" ;?
  validate_non_empty (cr_revoker_id b) "revoker id" ;?
  validate_non_empty (cr_reason b) "revocation reason" ;?
  validate_size (cr_reason b) "revocation reason" MAX_REASON_BYTES ;?
  (if (cr_revoked_at b =? 0)%Z
   then Err (VE.invalid_format "credential revocation revoked_at must be non-zero") else Ok tt) ;?
  Ok tt.

Definition EventBody_validate (b : EventBody) : verdict :=
  match b with
  | RootCreated body => RootCreatedEvent_validate body
  | RootKeyRotated body => RootKeyRotatedEvent_validate body
  | RootRevoked body => RootRevokedEvent_validate body
  | DeviceAdded body => DeviceAddedEvent_validate body
  | DeviceEnrolled body => DeviceEnrolledEvent_validate body
  | DeviceKeyRotated body => DeviceKeyRotatedEvent_validate body
  | DeviceEncryptionKeyRotated body => DeviceEncryptionKeyRotatedEvent_validate body
  | DeviceRevoked body => DeviceRevokedEvent_validate body
  | DeviceFrozen body => DeviceFrozenEvent_validate body
  | DeviceReplaced body => DeviceReplacedEvent_validate body
  | PersonaCreated body => PersonaCreatedEvent_validate body
  | PersonaKeyRotated body => PersonaKeyRotatedEvent_validate body
  | PersonaRevoked body => PersonaRevokedEvent_validate body
  | TrustAttested body => TrustAttestedEvent_validate body
  | TrustRevoked body => TrustRevokedEvent_validate body
  | RecoveryPolicyCreated body => RecoveryPolicyCreatedEvent_validate body
  | GuardianEnrolled body => GuardianEnrolledEvent_validate body
  | GuardianKeyRotated body => GuardianKeyRotatedEvent_validate body
  | RecoveryRequested body => RecoveryRequestedEvent_validate body
  | RecoveryApproved body => RecoveryApprovedEvent_validate body
  | RecoveryContested body => RecoveryContestedEvent_validate body
  | RecoveryRejected body => RecoveryRejectedEvent_validate body
  | RecoveryExecuted body => RecoveryExecutedEvent_validate body
  | RelayHintUpdated body => RelayHintUpdatedEvent_validate body
  | EndpointRotated body => EndpointRotatedEvent_validate body
  | StorageRelationshipCreated body => StorageRelationshipCreatedEvent_validate body
  | StorageLedgerUpdated body => StorageLedgerUpdatedEvent_validate body
  | StorageManifestPublished body => StorageManifestPublishedEvent_validate body
  | RelayShutdownNotice body => RelayShutdownNoticeEvent_validate body
  | MessageSent body => MessageSentEvent_validate body
  | ContentPublished body => ContentPublishedEvent_validate body
  | DisclosureRevoked body => DisclosureRevokedEvent_validate body
  | GrantOfferCreated body => GrantOfferCreatedEvent_validate body
  | GrantOfferClaimed body => GrantOfferClaimedEvent_validate body
  | GrantOfferRevoked body => GrantOfferRevokedEvent_validate body
  | BadgeIssued body => BadgeIssuedEvent_validate body
  | BadgeRevoked body => BadgeRevokedEvent_validate body
  | BadgeDisputed body => BadgeDisputedEvent_validate body
  | CredentialDeposited body => CredentialDepositedEvent_validate body
  | CredentialRevoked body => CredentialRevokedEvent_validate body
  end.

(** ** Canonical encoding *)

#[export] Instance ChunkReference_eq_dec : EqDecision ChunkReference.
Proof. solve_decision. Defined.

(** [Ord for String] compares bytes; [sort_by] is stable. *)
Definition chunk_le (l r : ChunkReference) : bool :=
  if (ck_ordinal l <? ck_ordinal r)%Z then true
  else if (ck_ordinal r <? ck_ordinal l)%Z then false
  else String.leb (ck_chunk_id l) (ck_chunk_id r).
Definition access_le (l r : ManifestDeviceAccess) : bool :=
  String.leb (mda_device_id l) (mda_device_id r).

Definition index4 (i : nat) : string := pad_left 4 (pretty (N.of_nat i)).

Definition chunk_fields (i : nat) (c : ChunkReference) : list (string * string) :=
  [("chunk_" +:+ index4 i +:+ "_chunk_id", ck_chunk_id c);
   ("chunk_" +:+ index4 i +:+ "_ordinal", u64_to_string (ck_ordinal c));
   ("chunk_" +:+ index4 i +:+ "_ciphertext_bytes", u64_to_string (ck_ciphertext_bytes c))].

Definition access_fields (i : nat) (a : ManifestDeviceAccess) : list (string * string) :=
  [("device_access_" +:+ index4 i +:+ "_device_id", mda_device_id a);
   ("device_access_" +:+ index4 i +:+ "_wrapped_manifest_key_hex", mda_wrapped_manifest_key_hex a)].

Definition FileManifest_canonical_encode (m : FileManifest) : bytes :=
  canonical_record "file-manifest"
    ([("id", fm_id m); ("encrypted_root_chunk_id", fm_encrypted_root_chunk_id m);
      ("chunk_count", pretty (N.of_nat (length (fm_chunks m))));
      ("authorized_device_count", pretty (N.of_nat (length (fm_authorized_devices m))))]
     ++ mjoin (imap chunk_fields (sort_by chunk_le (fm_chunks m)))
     ++ mjoin (imap access_fields (sort_by access_le (fm_authorized_devices m)))).

Definition EventSubject_canonical_encode (s : EventSubject) : bytes :=
  canonical_record "event-subject"
    [("kind", SubjectKind_as_str (es_kind s)); ("subject_id", es_subject_id s)].

Definition SignerBinding_canonical_encode (s : SignerBinding) : bytes :=
  canonical_record "signer-binding"
    [("signer_kind", SubjectKind_as_str (es_kind (sb_signer s)));
     ("signer_id", es_subject_id (sb_signer s)); ("key_id", sb_key_id s);
     ("role", KeyRole_as_str (sb_role s))].

Section Encode.
Context {H : HexOps}.

(** The record type and the fields each arm of the encoder passes to [canonical_record]. *)
Abbreviation record := (string * list (string * string))%type.

Definition RootCreated_record (body : RootCreatedEvent) : record :=
  ("root-created",
    [("root_id", rc_root_id body);
     ("display_name", rc_display_name body);
     ("key_id", pk_key_id (rc_initial_key body));
     ("algorithm", KeyAlgorithm_as_str (pk_algorithm (rc_initial_key body)));
     ("public_key", pk_public_key (rc_initial_key body))]).

Definition RootKeyRotated_record (body : RootKeyRotatedEvent) : record :=
  ("root-key-rotated",
    [("root_id", rkr_root_id body);
     ("previous_key_id", rkr_previous_key_id body);
     ("new_key_id", pk_key_id (rkr_new_key body));
     ("algorithm", KeyAlgorithm_as_str (pk_algorithm (rkr_new_key body)));
     ("public_key", pk_public_key (rkr_new_key body))]).

Definition RootRevoked_record (body : RootRevokedEvent) : record :=
  ("root-revoked",
    [("root_id", rr_root_id body);
     ("reason", rr_reason body)]).

Definition DeviceAdded_record (body : DeviceAddedEvent) : record :=
  ("device-added",
    [("root_id", da_root_id body);
     ("device_id", da_device_id body);
     ("label", da_label body);
     ("key_id", pk_key_id (da_initial_key body));
     ("algorithm", KeyAlgorithm_as_str (pk_algorithm (da_initial_key body)));
     ("public_key", pk_public_key (da_initial_key body));
     ("encryption_key_id", pk_key_id (da_initial_encryption_key body));
     ("encryption_algorithm",
      KeyAlgorithm_as_str (pk_algorithm (da_initial_encryption_key body)));
     ("encryption_public_key", pk_public_key (da_initial_encryption_key body))]).

Definition DeviceEnrolled_record (body : DeviceEnrolledEvent) : record :=
  ("device-enrolled",
    [("root_id", de_root_id body);
     ("device_id", de_device_id body);
     ("label", de_label body);
     ("key_id", pk_key_id (de_device_key body));
     ("algorithm", KeyAlgorithm_as_str (pk_algorithm (de_device_key body)));
     ("public_key", pk_public_key (de_device_key body));
     ("encryption_key_id", pk_key_id (de_encryption_key body));
     ("encryption_algorithm", KeyAlgorithm_as_str (pk_algorithm (de_encryption_key body)));
     ("encryption_public_key", pk_public_key (de_encryption_key body));
     ("custody_class", CustodyClass_as_str (de_custody_class body));
     ("attestation_statement", default "" (de_attestation_statement body));
     ("attestation_tier", AttestationTier_as_str (de_attestation_tier body));
     ("presence_factor", PresenceFactor_as_str (de_presence_factor body))]).

Definition DeviceKeyRotated_record (body : DeviceKeyRotatedEvent) : record :=
  ("device-key-rotated",
    [("root_id", dkr_root_id body);
     ("device_id", dkr_device_id body);
     ("previous_key_id", dkr_previous_key_id body);
     ("new_key_id", pk_key_id (dkr_new_key body));
     ("algorithm", KeyAlgorithm_as_str (pk_algorithm (dkr_new_key body)));
     ("public_key", pk_public_key (dkr_new_key body))]).

Definition DeviceEncryptionKeyRotated_record (body : DeviceEncryptionKeyRotatedEvent) : record :=
  ("device-encryption-key-rotated",
    [("root_id", dekr_root_id body);
     ("device_id", dekr_device_id body);
     ("previous_encryption_key_id", dekr_previous_encryption_key_id body);
     ("new_encryption_key_id", pk_key_id (dekr_new_encryption_key body));
     ("encryption_algorithm",
      KeyAlgorithm_as_str (pk_algorithm (dekr_new_encryption_key body)));
     ("encryption_public_key", pk_public_key (dekr_new_encryption_key body))]).

Definition DeviceRevoked_record (body : DeviceRevokedEvent) : record :=
  ("device-revoked",
    [("root_id", drv_root_id body);
     ("device_id", drv_device_id body);
     ("reason", drv_reason body)]).

Definition DeviceFrozen_record (body : DeviceFrozenEvent) : record :=
  ("device-frozen",
    [("root_id", df_root_id body);
     ("device_id", df_device_id body);
     ("reason", df_reason body)]).

Definition DeviceReplaced_record (body : DeviceReplacedEvent) : record :=
  ("device-replaced",
    [("root_id", drp_root_id body);
     ("replaced_device_id", drp_replaced_device_id body);
     ("replacement_device_id", drp_replacement_device_id body)]).

Definition PersonaCreated_record (body : PersonaCreatedEvent) : record :=
  ("persona-created",
    [("root_id", pc_root_id body);
     ("persona_id", pc_persona_id body);
     ("label", pc_label body);
     ("disclosure_profile", default "" (pc_disclosure_profile body));
     ("survival_mode", SurvivalMode_as_str (pc_survival_mode body));
     ("key_id", pk_key_id (pc_initial_key body));
     ("algorithm", KeyAlgorithm_as_str (pk_algorithm (pc_initial_key body)));
     ("public_key", pk_public_key (pc_initial_key body))]).

Definition PersonaKeyRotated_record (body : PersonaKeyRotatedEvent) : record :=
  ("persona-key-rotated",
    [("root_id", pkr_root_id body);
     ("persona_id", pkr_persona_id body);
     ("previous_key_id", pkr_previous_key_id body);
     ("new_key_id", pk_key_id (pkr_new_key body));
     ("algorithm", KeyAlgorithm_as_str (pk_algorithm (pkr_new_key body)));
     ("public_key", pk_public_key (pkr_new_key body))]).

Definition PersonaRevoked_record (body : PersonaRevokedEvent) : record :=
  ("persona-revoked",
    [("root_id", prv_root_id body);
     ("persona_id", prv_persona_id body);
     ("reason", prv_reason body)]).

Definition RecoveryPolicyCreated_record (body : RecoveryPolicyCreatedEvent) : record :=
  ("recovery-policy-created",
    [("cooldown_seconds", u64_to_string (rpc_cooldown_seconds body));
     ("guardian_threshold", u64_to_string (rpc_guardian_threshold body));
     ("root_id", rpc_root_id body)]).

Definition GuardianEnrolled_record (body : GuardianEnrolledEvent) : record :=
  ("guardian-enrolled",
    [("root_id", ge_root_id body);
     ("guardian_id", ge_guardian_id body);
     ("guardian_label", ge_guardian_label body);
     ("guardian_public_key", ge_guardian_public_key body)]).

Definition GuardianKeyRotated_record (body : GuardianKeyRotatedEvent) : record :=
  ("guardian-key-rotated",
    [("guardian_id", gkr_guardian_id body);
     ("root_id", gkr_root_id body);
     ("previous_key_id", gkr_previous_key_id body);
     ("new_guardian_public_key", gkr_new_guardian_public_key body)]).

Definition RecoveryRequested_record (body : RecoveryRequestedEvent) : record :=
  ("recovery-requested",
    [("request_id", rrq_request_id body);
     ("root_id", rrq_root_id body);
     ("target_device_id", rrq_target_device_id body)]).

Definition RecoveryApproved_record (body : RecoveryApprovedEvent) : record :=
  ("recovery-approved",
    [("request_id", rap_request_id body);
     ("guardian_id", rap_guardian_id body)]).

Definition RecoveryContested_record (body : RecoveryContestedEvent) : record :=
  ("recovery-contested",
    [("contested_at_epoch", u64_to_string (rct_contested_at_epoch body));
     ("guardian_id", rct_guardian_id body);
     ("reason", rct_reason body);
     ("request_id", rct_request_id body)]).

Definition RecoveryRejected_record (body : RecoveryRejectedEvent) : record :=
  ("recovery-rejected",
    [("request_id", rrj_request_id body);
     ("rejected_by", rrj_rejected_by body);
     ("reason", rrj_reason body)]).

Definition RecoveryExecuted_record (body : RecoveryExecutedEvent) : record :=
  ("recovery-executed",
    [("request_id", rex_request_id body);
     ("executed_scope", RecoveryScope_as_str (rex_executed_scope body))]).

Definition RelayHintUpdated_record (body : RelayHintUpdatedEvent) : record :=
  ("relay-hint-updated",
    [("peer_id", rhu_peer_id body);
     ("device_id", rhu_device_id body);
     ("transport_hint", rhu_transport_hint body)]).

Definition EndpointRotated_record (body : EndpointRotatedEvent) : record :=
  ("endpoint-rotated",
    [("peer_id", er_peer_id body);
     ("device_id", er_device_id body);
     ("previous_transport_hint", er_previous_transport_hint body);
     ("new_transport_hint", er_new_transport_hint body)]).

Definition RelayShutdownNotice_record (body : RelayShutdownNoticeEvent) : record :=
  ("relay-shutdown-notice",
    [("deadline_epoch", u64_to_string (rsn_deadline_epoch body));
     ("reason", rsn_reason body);
     ("relay_peer_id", rsn_relay_peer_id body)]).

Definition StorageRelationshipCreated_record (body : StorageRelationshipCreatedEvent) : record :=
  ("storage-relationship-created",
    [("root_id", src_root_id body);
     ("relationship_id", sr_id (src_relationship body));
     ("local_peer_id", sr_local_peer_id (src_relationship body));
     ("remote_peer_id", sr_remote_peer_id (src_relationship body));
     ("approved", bool_to_string (sr_approved (src_relationship body)))]).

Definition StorageLedgerUpdated_record (body : StorageLedgerUpdatedEvent) : record :=
  ("storage-ledger-updated",
    [("root_id", slu_root_id body);
     ("relationship_id", sl_relationship_id (slu_entry body));
     ("stored_bytes_delta", i64_to_string (sl_stored_bytes_delta (slu_entry body)))]).

Definition StorageManifestPublished_record (body : StorageManifestPublishedEvent) : record :=
  ("storage-manifest-published",
    [("root_id", smp_root_id body);
     ("relationship_id", smp_relationship_id body);
     ("manifest_payload_hex", bytes_to_hex (FileManifest_canonical_encode (smp_manifest body)))]).

Definition TrustAttested_record (body : TrustAttestedEvent) : record :=
  ("trust-attested",
    [("attestation_id", ta_attestation_id body);
     ("attester_persona_id", ta_attester_persona_id body);
     ("subject_persona_id", ta_subject_persona_id body);
     ("domain", ta_domain body);
     ("score", f32_fmt6 (ta_score body));
     ("recipient_bound", default "" (ta_recipient_bound body))]).

Definition TrustRevoked_record (body : TrustRevokedEvent) : record :=
  ("trust-revoked",
    [("attestation_id", tr_attestation_id body);
     ("attester_persona_id", tr_attester_persona_id body)]).

Definition MessageSent_record (body : MessageSentEvent) : record :=
  ("message-sent",
    [("message_id", ms_message_id body);
     ("sender_persona_id", ms_sender_persona_id body);
     ("recipient_persona_id", ms_recipient_persona_id body);
     ("ciphertext_hex", ms_ciphertext_hex body)]).

Definition ContentPublished_record (body : ContentPublishedEvent) : record :=
  ("content-published",
    [("content_id", cp_content_id body);
     ("author_persona_id", cp_author_persona_id body);
     ("content_type", cp_content_type body);
     ("payload_hex", cp_payload_hex body);
     ("visibility", ContentVisibility_as_str (cp_visibility body))]).

Definition DisclosureRevoked_record (body : DisclosureRevokedEvent) : record :=
  ("disclosure-revoked",
    [("revocation_id", dr_revocation_id body);
     ("artifact_id", dr_artifact_id body);
     ("revoker_persona_id", dr_revoker_persona_id body);
     ("reason", dr_reason body)]).

Definition GrantOfferCreated_record (body : GrantOfferCreatedEvent) : record :=
  ("grant-offer-created",
    [("offer_id", goc_offer_id body);
     ("issuer_persona_id", goc_issuer_persona_id body);
     ("ephemeral_public_key_hex", goc_ephemeral_public_key_hex body);
     ("sealed_payload_hex", goc_sealed_payload_hex body);
     ("relay_hint", default "" (goc_relay_hint body));
     ("expires_at", u64_to_string (goc_expires_at body));
     ("conditions_json", goc_conditions_json body)]).

Definition GrantOfferClaimed_record (body : GrantOfferClaimedEvent) : record :=
  ("grant-offer-claimed",
    [("offer_id", gcl_offer_id body);
     ("recipient_persona_id", gcl_recipient_persona_id body);
     ("claim_response_hex", gcl_claim_response_hex body);
     ("claimed_at", u64_to_string (gcl_claimed_at body))]).

Definition GrantOfferRevoked_record (body : GrantOfferRevokedEvent) : record :=
  ("grant-offer-revoked",
    [("offer_id", gor_offer_id body);
     ("issuer_persona_id", gor_issuer_persona_id body);
     ("reason", gor_reason body)]).

Definition BadgeIssued_record (body : BadgeIssuedEvent) : record :=
  let ev_type := match bi_evidence body with Some e => bev_evidence_type e | None => "" end in
  let ev_payload := match bi_evidence body with Some e => bev_payload_hex e | None => "" end in
  ("badge-issued",
    [("badge_id", bi_badge_id body);
     ("issuer_persona_id", bi_issuer_persona_id body);
     ("recipient_persona_id", bi_recipient_persona_id body);
     ("badge_type", bi_badge_type body);
     ("display_name", bi_display_name body);
     ("evidence_type", ev_type);
     ("evidence_payload_hex", ev_payload);
     ("issued_at", u64_to_string (bi_issued_at body));
     ("expires_at", default "" (u64_to_string <$> bi_expires_at body))]).

Definition BadgeRevoked_record (body : BadgeRevokedEvent) : record :=
  ("badge-revoked",
    [("badge_id", br_badge_id body);
     ("revoker_persona_id", br_revoker_persona_id body);
     ("reason", br_reason body)]).

Definition BadgeDisputed_record (body : BadgeDisputedEvent) : record :=
  ("badge-disputed",
    [("dispute_id", bd_dispute_id body);
     ("target_badge_id", bd_target_badge_id body);
     ("disputer_persona_id", bd_disputer_persona_id body);
     ("reason", bd_reason body);
     ("evidence", default "" (bd_evidence body))]).

Definition CredentialDeposited_record (body : CredentialDepositedEvent) : record :=
  ("credential-deposited",
    [("deposit_id", cd_deposit_id body);
     ("grant_id", cd_grant_id body);
     ("credential_id", cd_credential_id body);
     ("issuer_id", cd_issuer_id body);
     ("encrypted_blocks_json", cd_encrypted_blocks_json body);
     ("created_at", u64_to_string (cd_created_at body));
     ("expires_at", default "" (u64_to_string <$> cd_expires_at body))]).

Definition CredentialRevoked_record (body : CredentialRevokedEvent) : record :=
  ("credential-revoked",
    [("grant_id", cr_grant_id body);
     ("revoker_id", cr_revoker_id body);
     ("reason", cr_reason body);
     ("revoked_at", u64_to_string (cr_revoked_at body))]).

Definition EventBody_record (b : EventBody) : record :=
  match b with
  | RootCreated body => RootCreated_record body
  | RootKeyRotated body => RootKeyRotated_record body
  | RootRevoked body => RootRevoked_record body
  | DeviceAdded body => DeviceAdded_record body
  | DeviceEnrolled body => DeviceEnrolled_record body
  | DeviceKeyRotated body => DeviceKeyRotated_record body
  | DeviceEncryptionKeyRotated body => DeviceEncryptionKeyRotated_record body
  | DeviceRevoked body => DeviceRevoked_record body
  | DeviceFrozen body => DeviceFrozen_record body
  | DeviceReplaced body => DeviceReplaced_record body
  | PersonaCreated body => PersonaCreated_record body
  | PersonaKeyRotated body => PersonaKeyRotated_record body
  | PersonaRevoked body => PersonaRevoked_record body
  | RecoveryPolicyCreated body => RecoveryPolicyCreated_record body
  | GuardianEnrolled body => GuardianEnrolled_record body
  | GuardianKeyRotated body => GuardianKeyRotated_record body
  | RecoveryRequested body => RecoveryRequested_record body
  | RecoveryApproved body => RecoveryApproved_record body
  | RecoveryContested body => RecoveryContested_record body
  | RecoveryRejected body => RecoveryRejected_record body
  | RecoveryExecuted body => RecoveryExecuted_record body
  | RelayHintUpdated body => RelayHintUpdated_record body
  | EndpointRotated body => EndpointRotated_record body
  | RelayShutdownNotice body => RelayShutdownNotice_record body
  | StorageRelationshipCreated body => StorageRelationshipCreated_record body
  | StorageLedgerUpdated body => StorageLedgerUpdated_record body
  | StorageManifestPublished body => StorageManifestPublished_record body
  | TrustAttested body => TrustAttested_record body
  | TrustRevoked body => TrustRevoked_record body
  | MessageSent body => MessageSent_record body
  | ContentPublished body => ContentPublished_record body
  | DisclosureRevoked body => DisclosureRevoked_record body
  | GrantOfferCreated body => GrantOfferCreated_record body
  | GrantOfferClaimed body => GrantOfferClaimed_record body
  | GrantOfferRevoked body => GrantOfferRevoked_record body
  | BadgeIssued body => BadgeIssued_record body
  | BadgeRevoked body => BadgeRevoked_record body
  | BadgeDisputed body => BadgeDisputed_record body
  | CredentialDeposited body => CredentialDeposited_record body
  | CredentialRevoked body => CredentialRevoked_record body
  end.

Definition EventBody_canonical_encode (b : EventBody) : bytes :=
  canonical_record (EventBody_record b).1 (EventBody_record b).2.

End Encode.

(** ** Lemmas on the encoding *)

Section EncodeLemmas.
Context {H : HexOps}.

(** The record type is the event type's wire name with dashes. *)
Definition dash (a : ascii) : ascii := if bool_decide (a = "_"%char) then "-"%char else a.
Definition undash (a : ascii) : ascii := if bool_decide (a = "-"%char) then "_"%char else a.
Definition on_bytes (f : ascii → ascii) (s : string) : string := of_bytes (f <$> to_bytes s).

Lemma record_type_name b :
  (EventBody_record b).1 = on_bytes dash (EventType_as_str (EventBody_event_type b)).
Proof. by destruct b. Qed.

Lemma record_type_inj b b' :
  (EventBody_record b).1 = (EventBody_record b').1 →
  EventBody_event_type b = EventBody_event_type b'.
Proof.
  assert (∀ t, EventType_parse (on_bytes undash (on_bytes dash (EventType_as_str t))) = Some t)
    as Hback by (by intros []).
  rewrite !record_type_name. intros Heq. apply (f_equal (on_bytes undash)) in Heq.
  apply (f_equal EventType_parse) in Heq. rewrite !Hback in Heq. by simplify_eq.
Qed.

Lemma record_type_no_newline b : newline ∉ to_bytes (EventBody_record b).1.
Proof.
  rewrite record_type_name. apply (bool_decide_eq_true_1 _).
  by destruct (EventBody_event_type b).
Qed.

Lemma record_names_ok b : Forall (λ f, name_ok f.1) (EventBody_record b).2.
Proof.
  apply (Forall_fmap fst name_ok).
  destruct b; apply (bool_decide_eq_true_1 (Forall name_ok _)); reflexivity.
Qed.

Lemma encode_record_inj b b' :
  EventBody_canonical_encode b = EventBody_canonical_encode b' →
  EventBody_record b = EventBody_record b'.
Proof.
  unfold EventBody_canonical_encode. intros Heq.
  apply canonical_record_inj in Heq as [H1 H2];
    [by destruct (EventBody_record b), (EventBody_record b'); simplify_eq/=|apply record_type_no_newline..|apply record_names_ok|apply record_names_ok].
Qed.

End EncodeLemmas.

(** ** Lemmas on manifests *)

Lemma manifest_chunks_Ok id root chunks ids ords found found' :
  manifest_chunks id root chunks ids ords found = Ok found' →
  NoDup ids → NoDup ords →
  NoDup (rev (ck_chunk_id <$> chunks) ++ ids) ∧ NoDup (rev (ck_ordinal <$> chunks) ++ ords) ∧
  Forall (λ c, ck_manifest_id c = id ∧ ck_ciphertext_bytes c ≠ 0%Z ∧
               (ck_chunk_id c = root → ck_ordinal c = 0%Z)) chunks ∧
  (found' = true → found = true ∨ ∃ c, c ∈ chunks ∧ ck_chunk_id c = root).
Proof.
  revert ids ords found. induction chunks as [|c chunks IH]; intros ids ords found; simpl.
  { intros [= ->] ? ?. split_and!; auto. }
  rewrite !seq_Ok, !guard_Ok. intros (Hv & Hid & Hc & Ho & Hk) Hids Hords. bool_to_prop.
  apply result_bind_Ok in Hk as (f & Hf & Hk).
  apply IH in Hk as (Hi & Ho' & Hall & Hfound); [|by constructor..].
  unfold ChunkReference_validate in Hv. rewrite !seq_Ok, guard_Ok in Hv.
  destruct Hv as (_ & _ & Hz & _). apply Z.eqb_neq in Hz.
  rewrite <-!(assoc_L (++)). simpl. split_and!; [done|done| |].
  - constructor; [|done]. split_and!; [done|done|]. intros Hr.
    rewrite bool_decide_eq_true_2 in Hf by done.
    destruct (ck_ordinal c =? 0)%Z eqn:E; [by apply Z.eqb_eq|done].
  - intros Hf'. destruct (Hfound Hf') as [->|(c' & ? & ?)]; [|set_solver].
    case_bool_decide; [set_solver|]. simplify_eq. by left.
Qed.

Lemma manifest_devices_Ok devices seen :
  manifest_devices devices seen = Ok tt → NoDup seen →
  NoDup (rev (mda_device_id <$> devices) ++ seen).
Proof.
  revert seen. induction devices as [|a devices IH]; intros seen; simpl; [done|].
  rewrite !seq_Ok, guard_Ok. intros (_ & Ha & Hk) Hs. bool_to_prop.
  apply IH in Hk; [|by constructor]. by rewrite <-(assoc_L (++)).
Qed.

Lemma NoDup_rev_nil {A} (l : list A) : NoDup (rev l ++ []) → NoDup l.
Proof. rewrite app_nil_r. intros Hn. by rewrite (Permutation_rev l). Qed.

(** ** Properties *)

(** The signed payload determines the routing of an event: two bodies with the
    same canonical encoding have the same type, the same subject and belong to the same root,
    although options, scores and manifests are flattened to text. *)
Theorem payload_determines_routing {H : HexOps} (b b' : EventBody)
  (Heq : EventBody_canonical_encode b = EventBody_canonical_encode b') :
  EventBody_event_type b = EventBody_event_type b' ∧
  EventBody_subject b = EventBody_subject b' ∧ EventBody_root_id b = EventBody_root_id b'.
Proof.
  apply encode_record_inj in Heq as Hrec.
  assert (EventBody_event_type b = EventBody_event_type b') as Ht
    by (apply record_type_inj; by rewrite Hrec).
  split; [done|]. destruct b, b'; try discriminate Ht; simpl in *; simplify_eq; by split; congruence.
Qed.

Definition demo_hex : HexOps := {| hex_encode b := of_bytes b; hex_decode s := Ok (to_bytes s) |}.

Lemma payload_determines_routing_witness :
  EventBody_subject (BadgeDisputed (mkBadgeDisputed "d" "b" "p" "r" None)) =
  EventBody_subject (BadgeDisputed (mkBadgeDisputed "d" "b" "p" "r" (Some ""))).
Proof.
  refine (proj1 (proj2 (@payload_determines_routing demo_hex
            (BadgeDisputed (mkBadgeDisputed "d" "b" "p" "r" None))
            (BadgeDisputed (mkBadgeDisputed "d" "b" "p" "r" (Some ""))) _))).
  vm_compute. reflexivity.
Defined.

(** A validated manifest has chunks that all point back to it, are not empty and
    have pairwise distinct identifiers and ordinals, contains its root chunk, and only at
    ordinal 0, and lists no device twice. *)
Theorem manifest_validate_sound (m : FileManifest) (Hv : FileManifest_validate m = Ok tt) :
  NoDup (ck_chunk_id <$> fm_chunks m) ∧ NoDup (ck_ordinal <$> fm_chunks m) ∧
  Forall (λ c, ck_manifest_id c = fm_id m ∧ ck_ciphertext_bytes c ≠ 0%Z) (fm_chunks m) ∧
  (∃ c, c ∈ fm_chunks m ∧ ck_chunk_id c = fm_encrypted_root_chunk_id m ∧ ck_ordinal c = 0%Z) ∧
  NoDup (mda_device_id <$> fm_authorized_devices m).
Proof.
  unfold FileManifest_validate in Hv. rewrite !seq_Ok in Hv.
  destruct Hv as (_ & _ & _ & Hv). apply result_bind_Ok in Hv as (found & Hc & Hv).
  rewrite !seq_Ok, guard_Ok in Hv. destruct Hv as (Hf & Hd & _). bool_to_prop. subst.
  apply manifest_chunks_Ok in Hc as (Hi & Ho & Hall & Hroot); [|constructor..].
  apply manifest_devices_Ok in Hd; [|constructor].
  destruct (Hroot eq_refl) as [?|(c & Hin & Hid)]; [done|].
  rewrite Forall_forall in Hall. split_and!; [by apply NoDup_rev_nil..| | |by apply NoDup_rev_nil].
  - apply Forall_forall. intros c' Hc'. destruct (Hall c' Hc') as (? & ? & _). done.
  - exists c. destruct (Hall c Hin) as (_ & _ & ?). auto.
Qed.

Definition demo_manifest : FileManifest :=
  mkFileManifest "m" "c0" [mkChunkReference "m" "c1" 1 9; mkChunkReference "m" "c0" 0 7]
    [mkManifestDeviceAccess "d" "aa"].

Lemma manifest_validate_sound_witness : NoDup (ck_ordinal <$> fm_chunks demo_manifest).
Proof.
  refine (proj1 (proj2 (manifest_validate_sound demo_manifest _))). vm_compute. reflexivity.
Defined.

(** A validated device enrollment is coherent on both axes: the device asserts a
    human presence factor exactly when its custody class is presence, an attestation tier
    above none occurs only on presence devices, and a tier that needs a statement, like
    co-authority custody, carries one that is not blank. *)
Theorem enrollment_coherent (b : DeviceEnrolledEvent) (Hv : DeviceEnrolledEvent_validate b = Ok tt) :
  (PresenceFactor_is_human_present (de_presence_factor b) = true ↔ de_custody_class b = CC_Presence) ∧
  (de_attestation_tier b ≠ AT_None → de_custody_class b = CC_Presence) ∧
  (AttestationTier_requires_statement (de_attestation_tier b) = true
   ∨ de_custody_class b = CC_CoAuthority →
   ∃ s, de_attestation_statement b = Some s ∧ str_trim s ≠ "").
Proof.
  unfold DeviceEnrolledEvent_validate in Hv. rewrite !seq_Ok, !guard_Ok in Hv.
  destruct Hv as (_ & _ & _ & _ & _ & _ & Hs & Ht & Hp & _). split_and!.
  - destruct (de_custody_class b) eqn:E; rewrite ?guard_Ok in Hp; try (rewrite Hp; done).
    bool_to_prop. by rewrite Hp.
  - intros Hne. apply andb_false_iff in Ht as [Ht|Ht]; bool_to_prop; done.
  - intros Hreq. apply andb_false_iff in Hs as [Hs|Hs]; bool_to_prop.
    + destruct Hreq; congruence.
    + destruct (de_attestation_statement b) as [s|]; simpl in Hs; [|done].
      exists s. split; [done|]. unfold str_is_empty in Hs. by apply bool_decide_eq_false in Hs.
Qed.

Definition demo_key : PublicKeyMaterial := mkPublicKeyMaterial "k" KA_EcdsaP256 "p".
Definition demo_enrolled : DeviceEnrolledEvent :=
  mkDeviceEnrolled "r" "d" "phone" demo_key demo_key CC_Presence (Some "stmt") AT_VendorHw PF_Biometric.

Lemma enrollment_coherent_witness : ∃ s, de_attestation_statement demo_enrolled = Some s ∧ str_trim s ≠ "".
Proof.
  refine (proj2 (proj2 (enrollment_coherent demo_enrolled _)) _); [vm_compute; reflexivity|].
  left. reflexivity.
Defined.
