(* ===== verification/EventDecode.v ===== *)
(** * Decoding of canonical event payloads

    [EventBody::decode_canonical] of crates/core-event-types/src/events.rs, one definition per arm,
    and [decode_file_manifest_canonical] of storage.rs. The reader inverts the encoder of
    [EventCodec] on bodies whose optional fields, numbers and scores survive their text forms.
    Memory is taken to suffice: [Vec::with_capacity] of a declared count always succeeds. *)

From stdpp Require Import base gmap sets list strings pretty.
From Stdlib Require Import Ascii Lia ZArith SpecFloat.
From S2P Require Import Prelude CoreTypes Numbers EventTypes EventCodec.

Local Infix "+:+" := String.append (at level 60, right associativity).

(** [Result::ok] *)
Definition ok {A E} (r : result A E) : option A := match r with Ok a => Some a | Err _ => None end.

Definition parse_public_key_material (fields : gmap string string)
  (key_id_field algorithm_field public_key_field : string)
  : result PublicKeyMaterial ValidationError :=
  let? key_id := required_field fields key_id_field in
  let? algorithm :=
    (let? v := required_field fields algorithm_field in
     ok_or (KeyAlgorithm_parse v) (VE.invalid_format "invalid key algorithm")) in
  let? public_key := required_field fields public_key_field in
  Ok (mkPublicKeyMaterial key_id algorithm public_key).

(** ** Manifests *)

(** A required field read as a number; a failure is reported under [label]. *)
Definition numeric_field (fields : gmap string string) (name label : string)
  (parse : string → result Z ParseIntError) : result Z ValidationError :=
  let? v := required_field fields name in
  map_err (λ err, VE.new (label +:+ ParseIntError_display err)) (parse v).

(** [for index in 0..count { out.push(item(index)?) }] *)
Fixpoint decode_items {A} (item : nat → result A ValidationError) (index count : nat)
  : result (list A) ValidationError :=
  match count with
  | O => Ok []
  | S count' =>
      let? x := item index in
      let? rest := decode_items item (S index) count' in
      Ok (x :: rest)
  end.

Definition decode_chunk (fields : gmap string string) (manifest_id : string) (index : nat)
  : result ChunkReference ValidationError :=
  let? chunk_id := required_field fields ("chunk_" +:+ index4 index +:+ "_chunk_id") in
  let? ordinal := numeric_field fields ("chunk_" +:+ index4 index +:+ "_ordinal")
                    "invalid chunk ordinal: " parse_u32 in
  let? ciphertext_bytes := numeric_field fields ("chunk_" +:+ index4 index +:+ "_ciphertext_bytes")
                             "invalid chunk ciphertext bytes: " parse_u64 in
  Ok (mkChunkReference manifest_id chunk_id ordinal ciphertext_bytes).

Definition decode_access (fields : gmap string string) (index : nat)
  : result ManifestDeviceAccess ValidationError :=
  let? device_id := required_field fields ("device_access_" +:+ index4 index +:+ "_device_id") in
  let? wrapped := required_field fields
                    ("device_access_" +:+ index4 index +:+ "_wrapped_manifest_key_hex") in
  Ok (mkManifestDeviceAccess device_id wrapped).

Definition decode_file_manifest_canonical (payload : bytes) : result FileManifest ValidationError :=
  let? rf := parse_canonical_record payload in
  let '(record_type, fields) := rf in
  (if negb (bool_decide (record_type = "file-manifest"))
   then Err (VE.new ("unsupported canonical file manifest type: " +:+ record_type)) else Ok tt) ;?
  let? manifest_id := required_field fields "id" in
  let? chunk_count := numeric_field fields "chunk_count" "invalid chunk count: " parse_usize in
  let? chunks := decode_items (decode_chunk fields manifest_id) 0 (Z.to_nat chunk_count) in
  let? authorized_device_count :=
    numeric_field fields "authorized_device_count" "invalid authorized device count: "
      parse_usize in
  let? authorized_devices :=
    decode_items (decode_access fields) 0 (Z.to_nat authorized_device_count) in
  let? encrypted_root_chunk_id := required_field fields "encrypted_root_chunk_id" in
  Ok (mkFileManifest manifest_id encrypted_root_chunk_id chunks authorized_devices).

(** ** Event bodies *)

Section Decode.
Context {H : HexOps}.

Definition RootCreated_decode (fields : gmap string string)
  : result EventBody ValidationError :=
  let? root_id := required_field fields "root_id" in
  let? display_name := required_field fields "display_name" in
  let? initial_key := parse_public_key_material fields "key_id" "algorithm" "public_key" in
  Ok (RootCreated (mkRootCreated root_id display_name initial_key)).

Definition RootKeyRotated_decode (fields : gmap string string)
  : result EventBody ValidationError :=
  let? root_id := required_field fields "root_id" in
  let? previous_key_id := required_field fields "previous_key_id" in
  let? new_key := parse_public_key_material fields "new_key_id" "algorithm" "public_key" in
  Ok (RootKeyRotated (mkRootKeyRotated root_id previous_key_id new_key)).

Definition RootRevoked_decode (fields : gmap string string)
  : result EventBody ValidationError :=
  let? root_id := required_field fields "root_id" in
  let? reason := required_field fields "reason" in
  Ok (RootRevoked (mkRootRevoked root_id reason)).

Definition DeviceAdded_decode (fields : gmap string string)
  : result EventBody ValidationError :=
  let? root_id := required_field fields "root_id" in
  let? device_id := required_field fields "device_id" in
  let? label := required_field fields "label" in
  let? initial_key := parse_public_key_material fields "key_id" "algorithm" "public_key" in
  let? initial_encryption_key := parse_public_key_material fields "encryption_key_id"
    "encryption_algorithm" "encryption_public_key" in
  Ok (DeviceAdded (mkDeviceAdded root_id device_id label initial_key initial_encryption_key)).

Definition DeviceEnrolled_decode (fields : gmap string string)
  : result EventBody ValidationError :=
  let? root_id := required_field fields "root_id" in
  let? device_id := required_field fields "device_id" in
  let? label := required_field fields "label" in
  let? device_key := parse_public_key_material fields "key_id" "algorithm" "public_key" in
  let? encryption_key := parse_public_key_material fields "encryption_key_id"
    "encryption_algorithm" "encryption_public_key" in
  let? custody_class :=
    (let? v := required_field fields "custody_class" in
     ok_or (CustodyClass_parse v) (VE.new "invalid custody_class")) in
  let attestation_statement := optional_non_empty_field fields "attestation_statement" in
  let? attestation_tier :=
    ok_or (AttestationTier_parse
             (default "none" (optional_non_empty_field fields "attestation_tier")))
      (VE.new "invalid attestation_tier") in
  let? presence_factor :=
    ok_or (PresenceFactor_parse
             (default "unattended" (optional_non_empty_field fields "presence_factor")))
      (VE.new "invalid presence_factor") in
  Ok (DeviceEnrolled (mkDeviceEnrolled root_id device_id label device_key encryption_key
    custody_class attestation_statement attestation_tier presence_factor)).

Definition DeviceKeyRotated_decode (fields : gmap string string)
  : result EventBody ValidationError :=
  let? root_id := required_field fields "root_id" in
  let? device_id := required_field fields "device_id" in
  let? previous_key_id := required_field fields "previous_key_id" in
  let? new_key := parse_public_key_material fields "new_key_id" "algorithm" "public_key" in
  Ok (DeviceKeyRotated (mkDeviceKeyRotated root_id device_id previous_key_id new_key)).

Definition DeviceEncryptionKeyRotated_decode (fields : gmap string string)
  : result EventBody ValidationError :=
  let? root_id := required_field fields "root_id" in
  let? device_id := required_field fields "device_id" in
  let? previous_encryption_key_id := required_field fields "previous_encryption_key_id" in
  let? new_encryption_key := parse_public_key_material fields "new_encryption_key_id"
    "encryption_algorithm" "encryption_public_key" in
  Ok (DeviceEncryptionKeyRotated (mkDeviceEncryptionKeyRotated root_id device_id
    previous_encryption_key_id new_encryption_key)).

Definition DeviceRevoked_decode (fields : gmap string string)
  : result EventBody ValidationError :=
  let? root_id := required_field fields "root_id" in
  let? device_id := required_field fields "device_id" in
  let? reason := required_field fields "reason" in
  Ok (DeviceRevoked (mkDeviceRevoked root_id device_id reason)).

Definition DeviceFrozen_decode (fields : gmap string string)
  : result EventBody ValidationError :=
  let? root_id := required_field fields "root_id" in
  let? device_id := required_field fields "device_id" in
  let? reason := required_field fields "reason" in
  Ok (DeviceFrozen (mkDeviceFrozen root_id device_id reason)).

Definition DeviceReplaced_decode (fields : gmap string string)
  : result EventBody ValidationError :=
  let? root_id := required_field fields "root_id" in
  let? replaced_device_id := required_field fields "replaced_device_id" in
  let? replacement_device_id := required_field fields "replacement_device_id" in
  Ok (DeviceReplaced (mkDeviceReplaced root_id replaced_device_id replacement_device_id)).

Definition PersonaCreated_decode (fields : gmap string string)
  : result EventBody ValidationError :=
  let? root_id := required_field fields "root_id" in
  let? persona_id := required_field fields "persona_id" in
  let? label := required_field fields "label" in
  let disclosure_profile := optional_non_empty_field fields "disclosure_profile" in
  let? survival_mode :=
    (let? v := required_field fields "survival_mode" in
     ok_or (SurvivalMode_parse v) (VE.invalid_format "invalid survival mode")) in
  let? initial_key := parse_public_key_material fields "key_id" "algorithm" "public_key" in
  Ok (PersonaCreated (mkPersonaCreated root_id persona_id label disclosure_profile survival_mode
    initial_key)).

Definition PersonaKeyRotated_decode (fields : gmap string string)
  : result EventBody ValidationError :=
  let? root_id := required_field fields "root_id" in
  let? persona_id := required_field fields "persona_id" in
  let? previous_key_id := required_field fields "previous_key_id" in
  let? new_key := parse_public_key_material fields "new_key_id" "algorithm" "public_key" in
  Ok (PersonaKeyRotated (mkPersonaKeyRotated root_id persona_id previous_key_id new_key)).

Definition PersonaRevoked_decode (fields : gmap string string)
  : result EventBody ValidationError :=
  let? root_id := required_field fields "root_id" in
  let? persona_id := required_field fields "persona_id" in
  let? reason := required_field fields "reason" in
  Ok (PersonaRevoked (mkPersonaRevoked root_id persona_id reason)).

Definition RecoveryPolicyCreated_decode (fields : gmap string string)
  : result EventBody ValidationError :=
  let? root_id := required_field fields "root_id" in
  let? guardian_threshold :=
    (let? v := required_field fields "guardian_threshold" in
     map_err (λ _, VE.invalid_format "guardian threshold must be a valid u8") (parse_u8 v)) in
  let cooldown_seconds := default 0%Z (fields !! "cooldown_seconds" ≫= λ v, ok (parse_u32 v)) in
  Ok (RecoveryPolicyCreated (mkRecoveryPolicyCreated root_id guardian_threshold cooldown_seconds)).

Definition GuardianEnrolled_decode (fields : gmap string string)
  : result EventBody ValidationError :=
  let? root_id := required_field fields "root_id" in
  let? guardian_id := required_field fields "guardian_id" in
  let? guardian_label := required_field fields "guardian_label" in
  let? guardian_public_key := required_field fields "guardian_public_key" in
  Ok (GuardianEnrolled (mkGuardianEnrolled root_id guardian_id guardian_label guardian_public_key)).

Definition GuardianKeyRotated_decode (fields : gmap string string)
  : result EventBody ValidationError :=
  let? guardian_id := required_field fields "guardian_id" in
  let? root_id := required_field fields "root_id" in
  let? previous_key_id := required_field fields "previous_key_id" in
  let? new_guardian_public_key := required_field fields "new_guardian_public_key" in
  Ok (GuardianKeyRotated (mkGuardianKeyRotated guardian_id root_id previous_key_id
    new_guardian_public_key)).

Definition RecoveryRequested_decode (fields : gmap string string)
  : result EventBody ValidationError :=
  let? request_id := required_field fields "request_id" in
  let? root_id := required_field fields "root_id" in
  let? target_device_id := required_field fields "target_device_id" in
  Ok (RecoveryRequested (mkRecoveryRequested request_id root_id target_device_id)).

Definition RecoveryApproved_decode (fields : gmap string string)
  : result EventBody ValidationError :=
  let? request_id := required_field fields "request_id" in
  let? guardian_id := required_field fields "guardian_id" in
  Ok (RecoveryApproved (mkRecoveryApproved request_id guardian_id)).

Definition RecoveryContested_decode (fields : gmap string string)
  : result EventBody ValidationError :=
  let? request_id := required_field fields "request_id" in
  let? guardian_id := required_field fields "guardian_id" in
  let? reason := required_field fields "reason" in
  let contested_at_epoch :=
    default 0%Z (fields !! "contested_at_epoch" ≫= λ v, ok (parse_u64 v)) in
  Ok (RecoveryContested (mkRecoveryContested request_id guardian_id reason contested_at_epoch)).

Definition RecoveryRejected_decode (fields : gmap string string)
  : result EventBody ValidationError :=
  let? request_id := required_field fields "request_id" in
  let? rejected_by := required_field fields "rejected_by" in
  let? reason := required_field fields "reason" in
  Ok (RecoveryRejected (mkRecoveryRejected request_id rejected_by reason)).

Definition RecoveryExecuted_decode (fields : gmap string string)
  : result EventBody ValidationError :=
  let? request_id := required_field fields "request_id" in
  let? executed_scope :=
    (let? v := required_field fields "executed_scope" in
     ok_or (RecoveryScope_parse v) (VE.invalid_format "invalid recovery scope")) in
  Ok (RecoveryExecuted (mkRecoveryExecuted request_id executed_scope)).

Definition RelayHintUpdated_decode (fields : gmap string string)
  : result EventBody ValidationError :=
  let? peer_id := required_field fields "peer_id" in
  let? device_id := required_field fields "device_id" in
  let? transport_hint := required_field fields "transport_hint" in
  Ok (RelayHintUpdated (mkRelayHintUpdated peer_id device_id transport_hint)).

Definition EndpointRotated_decode (fields : gmap string string)
  : result EventBody ValidationError :=
  let? peer_id := required_field fields "peer_id" in
  let? device_id := required_field fields "device_id" in
  let? previous_transport_hint := required_field fields "previous_transport_hint" in
  let? new_transport_hint := required_field fields "new_transport_hint" in
  Ok (EndpointRotated (mkEndpointRotated peer_id device_id previous_transport_hint
    new_transport_hint)).

Definition RelayShutdownNotice_decode (fields : gmap string string)
  : result EventBody ValidationError :=
  let? relay_peer_id := required_field fields "relay_peer_id" in
  let? reason := required_field fields "reason" in
  let? deadline_epoch :=
    (let? v := required_field fields "deadline_epoch" in
     map_err (λ _, VE.invalid_format "deadline_epoch must be a valid u64") (parse_u64 v)) in
  Ok (RelayShutdownNotice (mkRelayShutdownNotice relay_peer_id reason deadline_epoch)).

Definition StorageRelationshipCreated_decode (fields : gmap string string)
  : result EventBody ValidationError :=
  let? root_id := required_field fields "root_id" in
  let? id := required_field fields "relationship_id" in
  let? local_peer_id := required_field fields "local_peer_id" in
  let? remote_peer_id := required_field fields "remote_peer_id" in
  let? approved := (let? v := required_field fields "approved" in Ok (bool_decide (v = "true"))) in
  let relationship := mkStorageRelationship id local_peer_id remote_peer_id approved in
  Ok (StorageRelationshipCreated (mkStorageRelationshipCreated root_id relationship)).

Definition StorageLedgerUpdated_decode (fields : gmap string string)
  : result EventBody ValidationError :=
  let? root_id := required_field fields "root_id" in
  let? relationship_id := required_field fields "relationship_id" in
  let? stored_bytes_delta :=
    (let? v := required_field fields "stored_bytes_delta" in
     map_err (λ err, VE.invalid_format
                       ("invalid storage ledger delta: " +:+ ParseIntError_display err))
       (parse_i64 v)) in
  let entry := mkStorageLedgerEntry relationship_id stored_bytes_delta in
  Ok (StorageLedgerUpdated (mkStorageLedgerUpdated root_id entry)).

Definition StorageManifestPublished_decode (fields : gmap string string)
  : result EventBody ValidationError :=
  let? root_id := required_field fields "root_id" in
  let? relationship_id := required_field fields "relationship_id" in
  let? manifest :=
    (let? v := required_field fields "manifest_payload_hex" in
     let? payload := hex_to_bytes v in decode_file_manifest_canonical payload) in
  Ok (StorageManifestPublished (mkStorageManifestPublished root_id relationship_id manifest)).

Definition TrustAttested_decode (fields : gmap string string)
  : result EventBody ValidationError :=
  let? score :=
    (let? v := required_field fields "score" in
     map_err (λ err, VE.invalid_format ("invalid trust score: " +:+ ParseFloatError_display err))
       (parse_f32 v)) in
  (if f32_is_nan score then Err (VE.invalid_format "trust score must not be NaN") else Ok tt) ;?
  (if f32_is_neg_zero score
   then Err (VE.invalid_format "trust score must not be negative zero") else Ok tt) ;?
  (if negb (f32_in_unit score)
   then Err (VE.invalid_format "trust score must be in [0.0, 1.0]") else Ok tt) ;?
  let? attestation_id := required_field fields "attestation_id" in
  let? attester_persona_id := required_field fields "attester_persona_id" in
  let? subject_persona_id := required_field fields "subject_persona_id" in
  let? domain := required_field fields "domain" in
  let recipient_bound := optional_non_empty_field fields "recipient_bound" in
  Ok (TrustAttested (mkTrustAttested attestation_id attester_persona_id subject_persona_id domain
    score recipient_bound)).

Definition TrustRevoked_decode (fields : gmap string string)
  : result EventBody ValidationError :=
  let? attestation_id := required_field fields "attestation_id" in
  let? attester_persona_id := required_field fields "attester_persona_id" in
  Ok (TrustRevoked (mkTrustRevoked attestation_id attester_persona_id)).

Definition MessageSent_decode (fields : gmap string string)
  : result EventBody ValidationError :=
  let? message_id := required_field fields "message_id" in
  let? sender_persona_id := required_field fields "sender_persona_id" in
  let? recipient_persona_id := required_field fields "recipient_persona_id" in
  let? ciphertext_hex := required_field fields "ciphertext_hex" in
  Ok (MessageSent (mkMessageSent message_id sender_persona_id recipient_persona_id ciphertext_hex)).

Definition ContentPublished_decode (fields : gmap string string)
  : result EventBody ValidationError :=
  let? content_id := required_field fields "content_id" in
  let? author_persona_id := required_field fields "author_persona_id" in
  let? content_type := required_field fields "content_type" in
  let? payload_hex := required_field fields "payload_hex" in
  let? visibility :=
    (let? v := required_field fields "visibility" in
     ok_or (ContentVisibility_parse v) (VE.invalid_format "invalid content visibility")) in
  Ok (ContentPublished (mkContentPublished content_id author_persona_id content_type payload_hex
    visibility)).

Definition DisclosureRevoked_decode (fields : gmap string string)
  : result EventBody ValidationError :=
  let? revocation_id := required_field fields "revocation_id" in
  let? artifact_id := required_field fields "artifact_id" in
  let? revoker_persona_id := required_field fields "revoker_persona_id" in
  let? reason := required_field fields "reason" in
  Ok (DisclosureRevoked (mkDisclosureRevoked revocation_id artifact_id revoker_persona_id reason)).

Definition GrantOfferCreated_decode (fields : gmap string string)
  : result EventBody ValidationError :=
  let? offer_id := required_field fields "offer_id" in
  let? issuer_persona_id := required_field fields "issuer_persona_id" in
  let? ephemeral_public_key_hex := required_field fields "ephemeral_public_key_hex" in
  let? sealed_payload_hex := required_field fields "sealed_payload_hex" in
  let relay_hint := optional_non_empty_field fields "relay_hint" in
  let? expires_at :=
    (let? v := required_field fields "expires_at" in
     map_err (λ _, VE.invalid_format "expires_at must be a valid u64") (parse_u64 v)) in
  let conditions_json := default "" (optional_non_empty_field fields "conditions_json") in
  Ok (GrantOfferCreated (mkGrantOfferCreated offer_id issuer_persona_id ephemeral_public_key_hex
    sealed_payload_hex relay_hint expires_at conditions_json)).

Definition GrantOfferClaimed_decode (fields : gmap string string)
  : result EventBody ValidationError :=
  let? offer_id := required_field fields "offer_id" in
  let? recipient_persona_id := required_field fields "recipient_persona_id" in
  let? claim_response_hex := required_field fields "claim_response_hex" in
  let? claimed_at :=
    (let? v := required_field fields "claimed_at" in
     map_err (λ _, VE.invalid_format "claimed_at must be a valid u64") (parse_u64 v)) in
  Ok (GrantOfferClaimed (mkGrantOfferClaimed offer_id recipient_persona_id claim_response_hex
    claimed_at)).

Definition GrantOfferRevoked_decode (fields : gmap string string)
  : result EventBody ValidationError :=
  let? offer_id := required_field fields "offer_id" in
  let? issuer_persona_id := required_field fields "issuer_persona_id" in
  let? reason := required_field fields "reason" in
  Ok (GrantOfferRevoked (mkGrantOfferRevoked offer_id issuer_persona_id reason)).

Definition BadgeIssued_decode (fields : gmap string string)
  : result EventBody ValidationError :=
  let etype := default "" (fields !! "evidence_type") in
  let payload := default "" (fields !! "evidence_payload_hex") in
  let evidence := if str_is_empty etype && str_is_empty payload then None
                  else Some (mkBadgeEvidence etype payload) in
  let? badge_id := required_field fields "badge_id" in
  let? issuer_persona_id := required_field fields "issuer_persona_id" in
  let? recipient_persona_id := required_field fields "recipient_persona_id" in
  let? badge_type := required_field fields "badge_type" in
  let? display_name := required_field fields "display_name" in
  let? issued_at :=
    (let? v := required_field fields "issued_at" in
     map_err (λ _, VE.invalid_format "issued_at must be a valid u64") (parse_u64 v)) in
  let expires_at := optional_non_empty_field fields "expires_at" ≫= λ v, ok (parse_u64 v) in
  Ok (BadgeIssued (mkBadgeIssued badge_id issuer_persona_id recipient_persona_id badge_type
    display_name evidence issued_at expires_at)).

Definition BadgeRevoked_decode (fields : gmap string string)
  : result EventBody ValidationError :=
  let? badge_id := required_field fields "badge_id" in
  let? revoker_persona_id := required_field fields "revoker_persona_id" in
  let? reason := required_field fields "reason" in
  Ok (BadgeRevoked (mkBadgeRevoked badge_id revoker_persona_id reason)).

Definition BadgeDisputed_decode (fields : gmap string string)
  : result EventBody ValidationError :=
  let? dispute_id := required_field fields "dispute_id" in
  let? target_badge_id := required_field fields "target_badge_id" in
  let? disputer_persona_id := required_field fields "disputer_persona_id" in
  let? reason := required_field fields "reason" in
  let evidence := optional_non_empty_field fields "evidence" in
  Ok (BadgeDisputed (mkBadgeDisputed dispute_id target_badge_id disputer_persona_id reason
    evidence)).

Definition CredentialDeposited_decode (fields : gmap string string)
  : result EventBody ValidationError :=
  let? deposit_id := required_field fields "deposit_id" in
  let? grant_id := required_field fields "grant_id" in
  let? credential_id := required_field fields "credential_id" in
  let? issuer_id := required_field fields "issuer_id" in
  let? encrypted_blocks_json := required_field fields "encrypted_blocks_json" in
  let? created_at :=
    (let? v := required_field fields "created_at" in
     map_err (λ _, VE.invalid_format "created_at must be a valid u64") (parse_u64 v)) in
  let expires_at := optional_non_empty_field fields "expires_at" ≫= λ v, ok (parse_u64 v) in
  Ok (CredentialDeposited (mkCredentialDeposited deposit_id grant_id credential_id issuer_id
    encrypted_blocks_json created_at expires_at)).

Definition CredentialRevoked_decode (fields : gmap string string)
  : result EventBody ValidationError :=
  let? grant_id := required_field fields "grant_id" in
  let? revoker_id := required_field fields "revoker_id" in
  let? reason := required_field fields "reason" in
  let? revoked_at :=
    (let? v := required_field fields "revoked_at" in
     map_err (λ _, VE.invalid_format "revoked_at must be a valid u64") (parse_u64 v)) in
  Ok (CredentialRevoked (mkCredentialRevoked grant_id revoker_id reason revoked_at)).

(** The [match] on the record type. *)
Definition decode_record (record_type : string) (fields : gmap string string)
  : result EventBody ValidationError :=
  if bool_decide (record_type = "root-created") then RootCreated_decode fields
  else if bool_decide (record_type = "root-key-rotated") then RootKeyRotated_decode fields
  else if bool_decide (record_type = "root-revoked") then RootRevoked_decode fields
  else if bool_decide (record_type = "device-added") then DeviceAdded_decode fields
  else if bool_decide (record_type = "device-enrolled") then DeviceEnrolled_decode fields
  else if bool_decide (record_type = "device-key-rotated") then DeviceKeyRotated_decode fields
  else if bool_decide (record_type = "device-encryption-key-rotated")
    then DeviceEncryptionKeyRotated_decode fields
  else if bool_decide (record_type = "device-revoked") then DeviceRevoked_decode fields
  else if bool_decide (record_type = "device-frozen") then DeviceFrozen_decode fields
  else if bool_decide (record_type = "device-replaced") then DeviceReplaced_decode fields
  else if bool_decide (record_type = "persona-created") then PersonaCreated_decode fields
  else if bool_decide (record_type = "persona-key-rotated") then PersonaKeyRotated_decode fields
  else if bool_decide (record_type = "persona-revoked") then PersonaRevoked_decode fields
  else if bool_decide (record_type = "recovery-policy-created")
    then RecoveryPolicyCreated_decode fields
  else if bool_decide (record_type = "guardian-enrolled") then GuardianEnrolled_decode fields
  else if bool_decide (record_type = "guardian-key-rotated")
    then GuardianKeyRotated_decode fields
  else if bool_decide (record_type = "recovery-requested") then RecoveryRequested_decode fields
  else if bool_decide (record_type = "recovery-approved") then RecoveryApproved_decode fields
  else if bool_decide (record_type = "recovery-contested") then RecoveryContested_decode fields
  else if bool_decide (record_type = "recovery-rejected") then RecoveryRejected_decode fields
  else if bool_decide (record_type = "recovery-executed") then RecoveryExecuted_decode fields
  else if bool_decide (record_type = "relay-hint-updated") then RelayHintUpdated_decode fields
  else if bool_decide (record_type = "endpoint-rotated") then EndpointRotated_decode fields
  else if bool_decide (record_type = "relay-shutdown-notice")
    then RelayShutdownNotice_decode fields
  else if bool_decide (record_type = "storage-relationship-created")
    then StorageRelationshipCreated_decode fields
  else if bool_decide (record_type = "storage-ledger-updated")
    then StorageLedgerUpdated_decode fields
  else if bool_decide (record_type = "storage-manifest-published")
    then StorageManifestPublished_decode fields
  else if bool_decide (record_type = "trust-attested") then TrustAttested_decode fields
  else if bool_decide (record_type = "trust-revoked") then TrustRevoked_decode fields
  else if bool_decide (record_type = "message-sent") then MessageSent_decode fields
  else if bool_decide (record_type = "content-published") then ContentPublished_decode fields
  else if bool_decide (record_type = "disclosure-revoked") then DisclosureRevoked_decode fields
  else if bool_decide (record_type = "grant-offer-created") then GrantOfferCreated_decode fields
  else if bool_decide (record_type = "grant-offer-claimed") then GrantOfferClaimed_decode fields
  else if bool_decide (record_type = "grant-offer-revoked") then GrantOfferRevoked_decode fields
  else if bool_decide (record_type = "badge-issued") then BadgeIssued_decode fields
  else if bool_decide (record_type = "badge-revoked") then BadgeRevoked_decode fields
  else if bool_decide (record_type = "badge-disputed") then BadgeDisputed_decode fields
  else if bool_decide (record_type = "credential-deposited")
    then CredentialDeposited_decode fields
  else if bool_decide (record_type = "credential-revoked") then CredentialRevoked_decode fields
  else Err (VE.invalid_format ("unsupported canonical event body type: " +:+ record_type)).

Definition EventBody_decode_canonical (payload : bytes) : result EventBody ValidationError :=
  let? rf := parse_canonical_record payload in
  decode_record rf.1 rf.2.

End Decode.

(** ** Lemmas: reading back the fields of a record *)

(** The field the encoder wrote under a name. *)
Fixpoint field_of (l : list (string * string)) (k : string) : option string :=
  match l with
  | [] => None
  | (n, v) :: l' => if bool_decide (n = k) then Some v else field_of l' k
  end.

Abbreviation parsed_fields := (foldl (λ (acc : gmap string string) f, <[f.1 := f.2]> acc) ∅).

Lemma foldl_insert_lookup (l : list (string * string)) (m : gmap string string) k :
  NoDup l.*1 →
  foldl (λ acc f, <[f.1 := f.2]> acc) m l !! k =
  match field_of l k with Some v => Some v | None => m !! k end.
Proof.
  revert m. induction l as [|[n v] l IH]; intros m Hn; simpl; [done|].
  apply NoDup_cons in Hn as [Hni Hn]. rewrite IH by done.
  case_bool_decide as E; [subst|by rewrite lookup_insert_ne].
  replace (field_of l k) with (@None string); [by rewrite lookup_insert_eq|].
  symmetry. clear -Hni. induction l as [|[n' v'] l IH]; simpl in *; [done|].
  rewrite not_elem_of_cons in Hni. rewrite bool_decide_eq_false_2 by naive_solver. naive_solver.
Qed.

Lemma parsed_fields_lookup l k : NoDup l.*1 → parsed_fields l !! k = field_of l k.
Proof. intros Hn. rewrite foldl_insert_lookup by done. by destruct (field_of l k). Qed.

Lemma field_of_here k v l : field_of ((k, v) :: l) k = Some v.
Proof. simpl. by rewrite bool_decide_eq_true_2. Qed.
Lemma field_of_ne n k v l : n ≠ k → field_of ((n, v) :: l) k = field_of l k.
Proof. intros. simpl. by rewrite bool_decide_eq_false_2. Qed.

Lemma required_parsed l k v :
  NoDup l.*1 → field_of l k = Some v → required_field (parsed_fields l) k = Ok v.
Proof. intros Hn Hf. unfold required_field. by rewrite parsed_fields_lookup, Hf. Qed.

Ltac find_field :=
  repeat first [rewrite field_of_here; reflexivity | rewrite field_of_ne by discriminate].


(** ** Lemmas: sorting *)

Section Sorting.
Context {A : Type} (le : A → A → bool).
Hypothesis le_total : ∀ x y, le x y = false → le y x = true.

Fixpoint ordered (l : list A) : Prop :=
  match l with
  | x :: (y :: _) as l' => le x y = true ∧ ordered l'
  | _ => True
  end.

Lemma insert_by_ordered x l : ordered l → ordered (insert_by le x l).
Proof.
  induction l as [|y l IH]; [done|]. intros Ho. simpl. destruct (le x y) eqn:E; [done|].
  apply le_total in E. destruct l as [|z l]; [done|]. destruct Ho as [Hyz Ho]. specialize (IH Ho).
  simpl in *. destruct (le x z); done.
Qed.

Lemma sort_by_ordered l : ordered (sort_by le l).
Proof. induction l as [|x l IH]; [done|]. by apply insert_by_ordered. Qed.

Lemma sort_by_id l : ordered l → sort_by le l = l.
Proof.
  induction l as [|x l IH]; [done|]. intros Ho. change (sort_by le (x :: l)) with (insert_by le x (sort_by le l)).
  destruct l as [|y l]; [done|]. destruct Ho as [Hxy Ho]. rewrite IH by done. simpl. by rewrite Hxy.
Qed.

Lemma sort_by_idemp l : sort_by le (sort_by le l) = sort_by le l.
Proof. apply sort_by_id, sort_by_ordered. Qed.
End Sorting.

Lemma string_leb_total a b : String.leb a b = false → String.leb b a = true.
Proof. intros E. destruct (String.leb_total a b); congruence. Qed.
Lemma chunk_le_total l r : chunk_le l r = false → chunk_le r l = true.
Proof.
  unfold chunk_le. destruct (Z.ltb_spec (ck_ordinal l) (ck_ordinal r)), (Z.ltb_spec (ck_ordinal r) (ck_ordinal l));
    try done. apply string_leb_total.
Qed.
Lemma access_le_total l r : access_le l r = false → access_le r l = true.
Proof. apply string_leb_total. Qed.

(** ** Lemmas: the names of a manifest's fields *)

Lemma pad_zeros_digits n s : Forall is_digit (to_bytes s) → Forall is_digit (to_bytes (pad_zeros n s)).
Proof.
  intros Hs. induction n as [|n IH]; [done|]. simpl. rewrite to_bytes_app.
  constructor; [split; vm_compute; discriminate|done].
Qed.

Lemma pad_zeros_value n s : dec_value 0 (to_bytes (pad_zeros n s)) = dec_value 0 (to_bytes s).
Proof. induction n as [|n IH]; [done|]. simpl. rewrite to_bytes_app. simpl. apply IH. Qed.

Lemma index4_digits i : Forall is_digit (to_bytes (index4 i)).
Proof. apply pad_zeros_digits, pretty_N_digits. Qed.

Lemma index4_value i : dec_value 0 (to_bytes (index4 i)) = Z.of_nat i.
Proof. unfold index4, pad_left. rewrite pad_zeros_value, dec_value_pretty. lia. Qed.

Lemma index4_no_underscore i : "_"%char ∉ to_bytes (index4 i).
Proof.
  intros Hin. pose proof (index4_digits i) as Hd. rewrite Forall_forall in Hd.
  apply Hd in Hin. vm_compute in Hin. by destruct Hin as [_ ?].
Qed.

(** A name made of a prefix, a padded index and a suffix after an underscore determines both. *)
Lemma indexed_name_inj p i j s t :
  p +:+ index4 i +:+ "_" +:+ s = p +:+ index4 j +:+ "_" +:+ t → i = j ∧ s = t.
Proof.
  intros E. apply (f_equal to_bytes) in E. rewrite !to_bytes_app in E. apply app_inv_head in E.
  change (to_bytes "_") with ["_"%char] in E. cbn [app] in E.
  apply cut_inj in E as [Ei Es]; [|apply index4_no_underscore..]. split; [|by apply to_bytes_inj].
  apply (f_equal (dec_value 0)) in Ei. rewrite !index4_value in Ei. lia.
Qed.

Lemma NoDup_join_imap {A B} (g : nat → A → list B) (l : list A) :
  (∀ i x, NoDup (g i x)) → (∀ i j x y b, b ∈ g i x → b ∈ g j y → i = j) →
  NoDup (mjoin (imap g l)).
Proof.
  intros Hg Hd. assert (∀ k, NoDup (mjoin (imap (λ i, g (k + i)) l)) ∧
    ∀ b, b ∈ mjoin (imap (λ i, g (k + i)) l) → ∃ j x, k ≤ j ∧ b ∈ g j x) as Hk.
  { induction l as [|x l IH]; intros k; [split; [constructor|intros b Hb; by apply elem_of_nil in Hb]|].
    rewrite imap_cons. cbn [mjoin list_join]. rewrite Nat.add_0_r.
    replace (imap ((λ i, g (k + i)) ∘ S) l) with (imap (λ i, g (S k + i)) l)
      by (apply imap_ext; intros; simpl; f_equal; lia).
    destruct (IH (S k)) as [Hn Hin]. split.
    - apply NoDup_app. split_and!; [done| |done]. intros b Hb Hb'.
      destruct (Hin b Hb') as (j & y & Hj & Hb''). pose proof (Hd _ _ _ _ _ Hb Hb''). lia.
    - intros b [Hb|Hb]%elem_of_app; [by eauto|]. destruct (Hin b Hb) as (j & y & ? & ?).
      exists j, y. split; [lia|done]. }
  specialize (Hk 0). tauto.
Qed.

(** ** Manifests round trip *)

Definition manifest_fields (m : FileManifest) : list (string * string) :=
  [("id", fm_id m); ("encrypted_root_chunk_id", fm_encrypted_root_chunk_id m);
   ("chunk_count", pretty (N.of_nat (length (fm_chunks m))));
   ("authorized_device_count", pretty (N.of_nat (length (fm_authorized_devices m))))]
  ++ mjoin (imap chunk_fields (sort_by chunk_le (fm_chunks m)))
  ++ mjoin (imap access_fields (sort_by access_le (fm_authorized_devices m))).

(** What the text of a manifest keeps of it: its lists in canonical order. *)
Definition canonical_manifest (m : FileManifest) : FileManifest :=
  mkFileManifest (fm_id m) (fm_encrypted_root_chunk_id m)
    ((λ c, mkChunkReference (fm_id m) (ck_chunk_id c) (ck_ordinal c) (ck_ciphertext_bytes c))
       <$> sort_by chunk_le (fm_chunks m))
    (sort_by access_le (fm_authorized_devices m)).

(** The numbers of a manifest fit their types, its text is UTF-8 and no value ends in a
    carriage return. *)
Definition manifest_typed (m : FileManifest) : Prop :=
  Forall (λ c, in_u32 (ck_ordinal c) ∧ in_u64 (ck_ciphertext_bytes c)) (fm_chunks m) ∧
  in_u64 (Z.of_nat (length (fm_chunks m))) ∧ in_u64 (Z.of_nat (length (fm_authorized_devices m))) ∧
  Forall (λ f, value_ok f.2) (manifest_fields m) ∧
  utf8_error 0 (FileManifest_canonical_encode m) = None.

Lemma in_chunk_names i c n :
  n ∈ (chunk_fields i c).*1 → ∃ s, n = "chunk_" +:+ index4 i +:+ "_" +:+ s.
Proof.
  unfold chunk_fields. cbn [fmap list_fmap fst]. rewrite !elem_of_cons, elem_of_nil.
  intros [->|[->|[->|[]]]]; [by exists "chunk_id"|by exists "ordinal"|by exists "ciphertext_bytes"].
Qed.

Lemma in_access_names i a n :
  n ∈ (access_fields i a).*1 → ∃ s, n = "device_access_" +:+ index4 i +:+ "_" +:+ s.
Proof.
  unfold access_fields. cbn [fmap list_fmap fst]. rewrite !elem_of_cons, elem_of_nil.
  intros [->|[->|[]]]; [by exists "device_id"|by exists "wrapped_manifest_key_hex"].
Qed.

(** A name that starts with the prefix and goes on with a byte that is no digit is not indexed. *)
Lemma not_indexed p a r i s : ¬ is_digit a → p +:+ String a r ≠ p +:+ index4 i +:+ "_" +:+ s.
Proof.
  intros Ha E. apply (f_equal to_bytes) in E. rewrite !to_bytes_app in E. apply app_inv_head in E.
  change (to_bytes (String a r)) with (a :: to_bytes r) in E.
  pose proof (index4_digits i) as Hd. destruct (to_bytes (index4 i)) as [|d l] eqn:Ei.
  - pose proof (index4_value i) as Hv. unfold index4, pad_left in Ei.
    assert (to_bytes (pad_zeros (4 - String.length (pretty (N.of_nat i))) (pretty (N.of_nat i))) ≠ [])
      as Hne; [|done].
    clear. destruct (4 - _); simpl; [apply pretty_nonempty|done].
  - simpl in E. simplify_eq. apply Forall_cons in Hd as [? _]. done.
Qed.

Lemma chunk_names_NoDup i c : NoDup (chunk_fields i c).*1.
Proof.
  unfold chunk_fields. cbn [fmap list_fmap fst].
  assert (∀ s t, s ≠ t → "chunk_" +:+ index4 i +:+ "_" +:+ s ≠ "chunk_" +:+ index4 i +:+ "_" +:+ t) as Hne.
  { intros s t Hst E. by apply indexed_name_inj in E as [_ ?]. }
  repeat constructor; rewrite ?elem_of_cons, ?elem_of_nil; intros E; destruct_or?; try done;
    revert E; by apply Hne.
Qed.

Lemma access_names_NoDup i a : NoDup (access_fields i a).*1.
Proof.
  unfold access_fields. cbn [fmap list_fmap fst].
  assert (∀ s t, s ≠ t → "device_access_" +:+ index4 i +:+ "_" +:+ s
                         ≠ "device_access_" +:+ index4 i +:+ "_" +:+ t) as Hne.
  { intros s t Hst E. by apply indexed_name_inj in E as [_ ?]. }
  repeat constructor; rewrite ?elem_of_cons, ?elem_of_nil; intros E; destruct_or?; try done;
    revert E; by apply Hne.
Qed.

Lemma fmap_join {A B} (f : A → B) (ls : list (list A)) : f <$> mjoin ls = mjoin (fmap f <$> ls).
Proof. induction ls as [|l ls IH]; [done|]. simpl. by rewrite fmap_app, IH. Qed.

Lemma join_imap_names {A} (g : nat → A → list (string * string)) l :
  (mjoin (imap g l)).*1 = mjoin (imap (λ i x, (g i x).*1) l).
Proof. by rewrite fmap_join, fmap_imap. Qed.

Lemma in_join_imap {A B} (g : nat → A → list B) l b :
  b ∈ mjoin (imap g l) ↔ ∃ i x, l !! i = Some x ∧ b ∈ g i x.
Proof.
  rewrite list_elem_of_join. setoid_rewrite elem_of_lookup_imap. naive_solver.
Qed.

Lemma chunk_list_names_NoDup l : NoDup (mjoin (imap chunk_fields l)).*1.
Proof.
  rewrite join_imap_names. apply NoDup_join_imap; [intros; apply chunk_names_NoDup|].
  intros i j x y n Hi Hj. apply in_chunk_names in Hi as [s ->], Hj as [t E].
  by apply indexed_name_inj in E as [? _].
Qed.

Lemma access_list_names_NoDup l : NoDup (mjoin (imap access_fields l)).*1.
Proof.
  rewrite join_imap_names. apply NoDup_join_imap; [intros; apply access_names_NoDup|].
  intros i j x y n Hi Hj. apply in_access_names in Hi as [s ->], Hj as [t E].
  by apply indexed_name_inj in E as [? _].
Qed.

Lemma in_chunk_list_names l n :
  n ∈ (mjoin (imap chunk_fields l)).*1 → ∃ i s, n = "chunk_" +:+ index4 i +:+ "_" +:+ s.
Proof.
  rewrite join_imap_names, in_join_imap. intros (i & x & _ & Hn). exists i. by eapply in_chunk_names.
Qed.

Lemma in_access_list_names l n :
  n ∈ (mjoin (imap access_fields l)).*1 → ∃ i s, n = "device_access_" +:+ index4 i +:+ "_" +:+ s.
Proof.
  rewrite join_imap_names, in_join_imap. intros (i & x & _ & Hn). exists i. by eapply in_access_names.
Qed.

Lemma manifest_names_NoDup m : NoDup (manifest_fields m).*1.
Proof.
  unfold manifest_fields. rewrite !fmap_app. apply NoDup_app. split_and!.
  - apply (bool_decide_eq_true_1 (NoDup _)); reflexivity.
  - cbn [fmap list_fmap fst]. intros n Hn. rewrite elem_of_app.
    intros [(i & s & E)%in_chunk_list_names|(i & s & E)%in_access_list_names]; subst n;
      rewrite !elem_of_cons, elem_of_nil in Hn; destruct Hn as [E|[E|[E|[E|[]]]]]; try discriminate E.
    symmetry in E. revert E. change "chunk_count" with ("chunk_" +:+ String "c" "ount").
    apply not_indexed. intros [_ Hd]. by vm_compute in Hd.
  - apply NoDup_app. split_and!; [apply chunk_list_names_NoDup| |apply access_list_names_NoDup].
    intros n (i & s & ->)%in_chunk_list_names (j & t & E)%in_access_list_names. discriminate E.
Qed.

Lemma name_ok_app s t : name_ok s → name_ok t → name_ok (s +:+ t).
Proof. unfold name_ok. rewrite !to_bytes_app, !elem_of_app. tauto. Qed.

Lemma index4_name_ok i : name_ok (index4 i).
Proof.
  pose proof (index4_digits i) as Hd. rewrite Forall_forall in Hd.
  repeat split; intros Hin; apply Hd in Hin; vm_compute in Hin; destruct Hin; done.
Qed.

Lemma manifest_names_ok m : Forall (λ f, name_ok f.1) (manifest_fields m).
Proof.
  apply (Forall_fmap fst name_ok), Forall_forall. unfold manifest_fields. rewrite !fmap_app. intros n.
  rewrite !elem_of_app, !join_imap_names, !in_join_imap.
  assert (∀ p i s, name_ok p → name_ok s → name_ok (p +:+ index4 i +:+ s)) as Hok.
  { intros. repeat apply name_ok_app; [done|apply index4_name_ok|done]. }
  assert (∀ s, bool_decide (name_ok s) = true → name_ok s) as Hc by (intros s; apply bool_decide_eq_true_1).
  intros [Hn|[(i & x & _ & Hn)|(i & x & _ & Hn)]]; cbn in Hn;
    repeat (apply elem_of_cons in Hn as [->|Hn]); try (by apply elem_of_nil in Hn);
    try (apply Hok); by apply Hc.
Qed.

Lemma field_of_elem l k v : NoDup l.*1 → (k, v) ∈ l → field_of l k = Some v.
Proof.
  induction l as [|[n w] l IH]; [by intros _ ?%elem_of_nil|]. intros [Hni Hn]%NoDup_cons.
  rewrite elem_of_cons. intros [[= <- <-]|Hin]; [apply field_of_here|].
  rewrite field_of_ne; [by apply IH|]. intros ->. apply Hni. apply list_elem_of_fmap. by exists (k, v).
Qed.

Lemma decode_items_Ok {A} (item : nat → result A ValidationError) k l :
  (∀ j x, l !! j = Some x → item (k + j) = Ok x) → decode_items item k (length l) = Ok l.
Proof.
  revert k. induction l as [|x l IH]; intros k Hi; simpl; [done|].
  rewrite <-(Nat.add_0_r k) at 1. rewrite (Hi 0 x) by done. simpl.
  rewrite IH; [done|]. intros j y Hj. rewrite <-(Hi (S j) y) by done. f_equal. lia.
Qed.

Lemma length_sort_by {A} (le : A → A → bool) l : length (sort_by le l) = length l.
Proof. by rewrite sort_by_perm. Qed.

Lemma parse_count n : in_u64 (Z.of_nat n) → parse_usize (pretty (N.of_nat n)) = Ok (Z.of_nat n).
Proof.
  intros Hn. unfold parse_usize. rewrite <-(Nat2Z.id n) at 1. rewrite <-Z_N_nat, N2Nat.id.
  apply parse_integer_to_string; [lia|exact Hn].
Qed.

Lemma chunk_decodes m j c :
  manifest_typed m → sort_by chunk_le (fm_chunks m) !! j = Some c →
  decode_chunk (parsed_fields (manifest_fields m)) (fm_id m) j =
  Ok (mkChunkReference (fm_id m) (ck_chunk_id c) (ck_ordinal c) (ck_ciphertext_bytes c)).
Proof.
  intros (Hc & _) Hj. pose proof (manifest_names_NoDup m) as Hn.
  assert (∀ k v, (k, v) ∈ chunk_fields j c →
            required_field (parsed_fields (manifest_fields m)) k = Ok v) as Hf.
  { intros k v Hin. apply required_parsed, field_of_elem; [done..|]. unfold manifest_fields.
    rewrite !elem_of_app. right. left. apply in_join_imap. eauto. }
  assert (in_u32 (ck_ordinal c) ∧ in_u64 (ck_ciphertext_bytes c)) as [Ho Hb].
  { rewrite Forall_forall in Hc. apply Hc. rewrite <-(sort_by_perm chunk_le).
    by eapply list_elem_of_lookup_2. }
  unfold decode_chunk, numeric_field. rewrite !(Hf _ _ (list_elem_of_here _ _)). simpl result_bind.
  rewrite (Hf _ (u64_to_string (ck_ordinal c))) by (unfold chunk_fields; set_solver).
  rewrite (Hf _ (u64_to_string (ck_ciphertext_bytes c))) by (unfold chunk_fields; set_solver).
  simpl result_bind. unfold parse_u32, parse_u64.
  rewrite !parse_integer_to_string by (unfold in_u32, in_u64 in *; lia). done.
Qed.

Lemma access_decodes m j a :
  sort_by access_le (fm_authorized_devices m) !! j = Some a →
  decode_access (parsed_fields (manifest_fields m)) j = Ok a.
Proof.
  intros Hj. pose proof (manifest_names_NoDup m) as Hn.
  assert (∀ k v, (k, v) ∈ access_fields j a →
            required_field (parsed_fields (manifest_fields m)) k = Ok v) as Hf.
  { intros k v Hin. apply required_parsed, field_of_elem; [done..|]. unfold manifest_fields.
    rewrite !elem_of_app. right. right. apply in_join_imap. eauto. }
  unfold decode_access. rewrite !(Hf _ _ (list_elem_of_here _ _)). simpl result_bind.
  rewrite (Hf _ (mda_wrapped_manifest_key_hex a)) by (unfold access_fields; set_solver).
  by destruct a.
Qed.

Lemma manifest_roundtrip m :
  manifest_typed m →
  decode_file_manifest_canonical (FileManifest_canonical_encode m) = Ok (canonical_manifest m).
Proof.
  intros Ht. pose proof Ht as (Hc & Hlc & Hla & Hv & Hu).
  pose proof (manifest_names_NoDup m) as Hn. unfold decode_file_manifest_canonical.
  change (FileManifest_canonical_encode m) with (canonical_record "file-manifest" (manifest_fields m)).
  rewrite parse_canonical_record_spec.
  2: { split; [apply (bool_decide_eq_true_1 (_ ∉ _))|apply (bool_decide_eq_true_1 (value_ok _))]; done. }
  2: { apply Forall_and. split; [apply manifest_names_ok|done]. }
  2: done.
  assert (∀ k v, (k, v) ∈ take 4 (manifest_fields m) →
            required_field (parsed_fields (manifest_fields m)) k = Ok v) as Hf.
  { intros k v Hin. apply required_parsed, field_of_elem; [done..|].
    rewrite <-(take_drop 4 (manifest_fields m)). apply elem_of_app. by left. }
  assert (∀ j c, sort_by chunk_le (fm_chunks m) !! j = Some c → _) as Hchunk
    by exact (λ j c, chunk_decodes m j c Ht).
  pose proof (access_decodes m) as Haccess.
  set (F := parsed_fields (manifest_fields m)) in *. clearbody F.
  cbn [result_bind]. rewrite bool_decide_eq_true_2 by done. cbn [negb result_bind]. unfold numeric_field.
  rewrite (Hf "id" (fm_id m)) by left. cbn [result_bind].
  rewrite (Hf "chunk_count" (pretty (N.of_nat (length (fm_chunks m))))) by (right; right; left).
  cbn [result_bind]. rewrite parse_count by done. cbn [map_err result_bind]. rewrite Nat2Z.id.
  rewrite <-(length_sort_by chunk_le (fm_chunks m)), <-(length_fmap
    (λ c, mkChunkReference (fm_id m) (ck_chunk_id c) (ck_ordinal c) (ck_ciphertext_bytes c))).
  rewrite decode_items_Ok.
  2: { intros j x Hj. apply list_lookup_fmap_Some in Hj as (c & -> & Hj). by apply Hchunk. }
  cbn [result_bind].
  rewrite (Hf "authorized_device_count" (pretty (N.of_nat (length (fm_authorized_devices m)))))
    by (right; right; right; left).
  cbn [result_bind]. rewrite parse_count by done. cbn [map_err result_bind]. rewrite Nat2Z.id.
  rewrite <-(length_sort_by access_le (fm_authorized_devices m)).
  rewrite decode_items_Ok by (intros j x Hj; by apply Haccess). cbn [result_bind].
  rewrite (Hf "encrypted_root_chunk_id" (fm_encrypted_root_chunk_id m)) by (right; left). done.
Qed.

(** Reading a manifest back and writing it again gives the same text. *)
Lemma canonical_manifest_encode m :
  FileManifest_canonical_encode (canonical_manifest m) = FileManifest_canonical_encode m.
Proof.
  unfold FileManifest_canonical_encode, canonical_manifest. cbn [fm_id fm_encrypted_root_chunk_id
    fm_chunks fm_authorized_devices]. rewrite length_fmap, !length_sort_by.
  rewrite sort_by_idemp by apply access_le_total. do 4 f_equal.
  rewrite sort_by_id.
  - by rewrite imap_fmap.
  - assert (∀ l, ordered chunk_le l → ordered chunk_le
      ((λ c, mkChunkReference (fm_id m) (ck_chunk_id c) (ck_ordinal c) (ck_ciphertext_bytes c)) <$> l)) as Ho.
    { induction l as [|x [|y l] IH]; [done..|]. intros [Hxy Hl]. split; [exact Hxy|by apply IH]. }
    apply Ho, sort_by_ordered, chunk_le_total.
Qed.

(** ** Bodies round trip *)

(** An optional field is written as its text, an absent one as the empty text. *)
Definition canonical_option (o : option string) : option string :=
  match o with Some s => if str_is_empty s then None else Some s | None => None end.

Definition canonical_evidence (o : option BadgeEvidence) : option BadgeEvidence :=
  match o with
  | Some e => if str_is_empty (bev_evidence_type e) && str_is_empty (bev_payload_hex e) then None else o
  | None => None
  end.

(** The body a reader of the canonical text is left with. *)
Definition canonical_form (b : EventBody) : EventBody :=
  match b with
  | DeviceEnrolled b =>
      DeviceEnrolled (mkDeviceEnrolled (de_root_id b) (de_device_id b) (de_label b)
        (de_device_key b) (de_encryption_key b) (de_custody_class b)
        (canonical_option (de_attestation_statement b)) (de_attestation_tier b) (de_presence_factor b))
  | PersonaCreated b =>
      PersonaCreated (mkPersonaCreated (pc_root_id b) (pc_persona_id b) (pc_label b)
        (canonical_option (pc_disclosure_profile b)) (pc_survival_mode b) (pc_initial_key b))
  | StorageManifestPublished b =>
      StorageManifestPublished (mkStorageManifestPublished (smp_root_id b) (smp_relationship_id b)
        (canonical_manifest (smp_manifest b)))
  | TrustAttested b =>
      TrustAttested (mkTrustAttested (ta_attestation_id b) (ta_attester_persona_id b)
        (ta_subject_persona_id b) (ta_domain b) (ta_score b) (canonical_option (ta_recipient_bound b)))
  | GrantOfferCreated b =>
      GrantOfferCreated (mkGrantOfferCreated (goc_offer_id b) (goc_issuer_persona_id b)
        (goc_ephemeral_public_key_hex b) (goc_sealed_payload_hex b)
        (canonical_option (goc_relay_hint b)) (goc_expires_at b) (goc_conditions_json b))
  | BadgeIssued b =>
      BadgeIssued (mkBadgeIssued (bi_badge_id b) (bi_issuer_persona_id b) (bi_recipient_persona_id b)
        (bi_badge_type b) (bi_display_name b) (canonical_evidence (bi_evidence b)) (bi_issued_at b)
        (bi_expires_at b))
  | BadgeDisputed b =>
      BadgeDisputed (mkBadgeDisputed (bd_dispute_id b) (bd_target_badge_id b)
        (bd_disputer_persona_id b) (bd_reason b) (canonical_option (bd_evidence b)))
  | _ => b
  end.

(** The numbers of a body fit their types; a score is a validated one that its six decimals
    determine; a manifest is well typed. *)
Definition body_typed (b : EventBody) : Prop :=
  match b with
  | RecoveryPolicyCreated b =>
      (0 ≤ rpc_guardian_threshold b ≤ 2 ^ 8 - 1)%Z ∧ in_u32 (rpc_cooldown_seconds b)
  | RecoveryContested b => in_u64 (rct_contested_at_epoch b)
  | RelayShutdownNotice b => in_u64 (rsn_deadline_epoch b)
  | StorageLedgerUpdated b => (- 2 ^ 63 ≤ sl_stored_bytes_delta (slu_entry b) < 2 ^ 63)%Z
  | StorageManifestPublished b => manifest_typed (smp_manifest b)
  | TrustAttested b =>
      parse_f32 (f32_fmt6 (ta_score b)) = Ok (ta_score b) ∧ f32_is_nan (ta_score b) = false ∧
      f32_is_neg_zero (ta_score b) = false ∧ f32_in_unit (ta_score b) = true
  | GrantOfferCreated b => in_u64 (goc_expires_at b)
  | GrantOfferClaimed b => in_u64 (gcl_claimed_at b)
  | BadgeIssued b => in_u64 (bi_issued_at b) ∧ ∀ t, bi_expires_at b = Some t → in_u64 t
  | CredentialDeposited b => in_u64 (cd_created_at b) ∧ ∀ t, cd_expires_at b = Some t → in_u64 t
  | CredentialRevoked b => in_u64 (cr_revoked_at b)
  | _ => True
  end.

Section RoundTrip.
Context {H : HexOps}.

Lemma record_names_NoDup b : NoDup (EventBody_record b).2.*1.
Proof. destruct b; apply (bool_decide_eq_true_1 (NoDup _)); reflexivity. Qed.

Lemma optional_parsed l k (o : option string) :
  NoDup l.*1 → field_of l k = Some (default "" o) →
  optional_non_empty_field (parsed_fields l) k = canonical_option o.
Proof.
  intros Hn Hf. unfold optional_non_empty_field. rewrite parsed_fields_lookup, Hf by done.
  by destruct o as [s|].
Qed.

Lemma key_parsed l k a p key :
  NoDup l.*1 → field_of l k = Some (pk_key_id key) →
  field_of l a = Some (KeyAlgorithm_as_str (pk_algorithm key)) →
  field_of l p = Some (pk_public_key key) →
  parse_public_key_material (parsed_fields l) k a p = Ok key.
Proof.
  intros Hn Hk Ha Hp. unfold parse_public_key_material. rewrite (required_parsed _ _ _ Hn Hk).
  rewrite (required_parsed _ _ _ Hn Ha), (required_parsed _ _ _ Hn Hp).
  by destruct key as [? [] ?].
Qed.

(** The arm that reads a body of this kind. *)
Definition decode_arm (b : EventBody) (fields : gmap string string) : result EventBody ValidationError :=
  match b with
  | RootCreated _ => RootCreated_decode fields
  | RootKeyRotated _ => RootKeyRotated_decode fields
  | RootRevoked _ => RootRevoked_decode fields
  | DeviceAdded _ => DeviceAdded_decode fields
  | DeviceEnrolled _ => DeviceEnrolled_decode fields
  | DeviceKeyRotated _ => DeviceKeyRotated_decode fields
  | DeviceEncryptionKeyRotated _ => DeviceEncryptionKeyRotated_decode fields
  | DeviceRevoked _ => DeviceRevoked_decode fields
  | DeviceFrozen _ => DeviceFrozen_decode fields
  | DeviceReplaced _ => DeviceReplaced_decode fields
  | PersonaCreated _ => PersonaCreated_decode fields
  | PersonaKeyRotated _ => PersonaKeyRotated_decode fields
  | PersonaRevoked _ => PersonaRevoked_decode fields
  | RecoveryPolicyCreated _ => RecoveryPolicyCreated_decode fields
  | GuardianEnrolled _ => GuardianEnrolled_decode fields
  | GuardianKeyRotated _ => GuardianKeyRotated_decode fields
  | RecoveryRequested _ => RecoveryRequested_decode fields
  | RecoveryApproved _ => RecoveryApproved_decode fields
  | RecoveryContested _ => RecoveryContested_decode fields
  | RecoveryRejected _ => RecoveryRejected_decode fields
  | RecoveryExecuted _ => RecoveryExecuted_decode fields
  | RelayHintUpdated _ => RelayHintUpdated_decode fields
  | EndpointRotated _ => EndpointRotated_decode fields
  | RelayShutdownNotice _ => RelayShutdownNotice_decode fields
  | StorageRelationshipCreated _ => StorageRelationshipCreated_decode fields
  | StorageLedgerUpdated _ => StorageLedgerUpdated_decode fields
  | StorageManifestPublished _ => StorageManifestPublished_decode fields
  | TrustAttested _ => TrustAttested_decode fields
  | TrustRevoked _ => TrustRevoked_decode fields
  | MessageSent _ => MessageSent_decode fields
  | ContentPublished _ => ContentPublished_decode fields
  | DisclosureRevoked _ => DisclosureRevoked_decode fields
  | GrantOfferCreated _ => GrantOfferCreated_decode fields
  | GrantOfferClaimed _ => GrantOfferClaimed_decode fields
  | GrantOfferRevoked _ => GrantOfferRevoked_decode fields
  | BadgeIssued _ => BadgeIssued_decode fields
  | BadgeRevoked _ => BadgeRevoked_decode fields
  | BadgeDisputed _ => BadgeDisputed_decode fields
  | CredentialDeposited _ => CredentialDeposited_decode fields
  | CredentialRevoked _ => CredentialRevoked_decode fields
  end.

Lemma decode_record_arm b fields : decode_record (EventBody_record b).1 fields = decode_arm b fields.
Proof. by destruct b. Qed.

Lemma parse_u64_printed z : in_u64 z → parse_u64 (u64_to_string z) = Ok z.
Proof. intros [??]. apply parse_integer_to_string; lia. Qed.

(** An optional time stamp is written as its digits, an absent one as the empty text. *)
Lemma optional_time_reparse (o : option Z) :
  (∀ t, o = Some t → in_u64 t) →
  (canonical_option (u64_to_string <$> o) ≫= λ v, ok (parse_u64 v)) = o.
Proof.
  intros Ho. destruct o as [t|]; [|done].
  assert (str_is_empty (u64_to_string t) = false) as Hne.
  { apply bool_decide_eq_false. intros E. apply (pretty_nonempty (Z.to_N t)).
    by change (pretty (Z.to_N t)) with (u64_to_string t); rewrite E. }
  cbn [fmap option_fmap option_map canonical_option]. rewrite Hne. cbn [mbind option_bind].
  by rewrite parse_u64_printed by auto.
Qed.

Lemma present_parsed l k v :
  NoDup l.*1 → field_of l k = Some v → str_is_empty v = false →
  optional_non_empty_field (parsed_fields l) k = Some v.
Proof.
  intros Hn Hf Hv. unfold optional_non_empty_field. rewrite parsed_fields_lookup, Hf by done. cbn.
  by rewrite Hv.
Qed.

Lemma enums_reparse :
  (∀ x, CustodyClass_parse (CustodyClass_as_str x) = Some x) ∧
  (∀ x, AttestationTier_parse (AttestationTier_as_str x) = Some x) ∧
  (∀ x, PresenceFactor_parse (PresenceFactor_as_str x) = Some x) ∧
  (∀ x, SurvivalMode_parse (SurvivalMode_as_str x) = Some x) ∧
  (∀ x, RecoveryScope_parse (RecoveryScope_as_str x) = Some x) ∧
  (∀ x, ContentVisibility_parse (ContentVisibility_as_str x) = Some x).
Proof. split_and!; by intros []. Qed.

Lemma decode_arm_spec b :
  HexLaws H → body_typed b →
  decode_arm b (parsed_fields (EventBody_record b).2) = Ok (canonical_form b).
Proof.
  intros HL Ht. pose proof (record_names_NoDup b) as Hn.
  pose proof (λ k v, required_parsed _ k v Hn) as Hreq.
  pose proof (λ k o, optional_parsed _ k o Hn) as Hopt.
  pose proof (λ k a p key, key_parsed _ k a p key Hn) as Hkey.
  pose proof (λ k, parsed_fields_lookup _ k Hn) as Hlook.
  pose proof (λ k v, present_parsed _ k v Hn) as Hpres.
  destruct enums_reparse as (E1 & E2 & E3 & E4 & E5 & E6).
  set (F := parsed_fields (EventBody_record b).2) in *. clearbody F. clear Hn.
  destruct b as [b|b|b|b|b|b|b|b|b|b|b|b|b|b|b|b|b|b|b|b|b|b|b|b|b|b|b|b|b|b|b|b|b|b|b|b|b|b|b|b];
    cbn [decode_arm EventBody_record snd canonical_form body_typed] in *.
  all: unfold RootCreated_decode, RootKeyRotated_decode, RootRevoked_decode, DeviceAdded_decode,
    DeviceEnrolled_decode, DeviceKeyRotated_decode, DeviceEncryptionKeyRotated_decode,
    DeviceRevoked_decode, DeviceFrozen_decode, DeviceReplaced_decode, PersonaCreated_decode,
    PersonaKeyRotated_decode, PersonaRevoked_decode, RecoveryPolicyCreated_decode,
    GuardianEnrolled_decode, GuardianKeyRotated_decode, RecoveryRequested_decode,
    RecoveryApproved_decode, RecoveryContested_decode, RecoveryRejected_decode,
    RecoveryExecuted_decode, RelayHintUpdated_decode, EndpointRotated_decode,
    RelayShutdownNotice_decode, StorageRelationshipCreated_decode, StorageLedgerUpdated_decode,
    StorageManifestPublished_decode, TrustAttested_decode, TrustRevoked_decode,
    MessageSent_decode, ContentPublished_decode, DisclosureRevoked_decode,
    GrantOfferCreated_decode, GrantOfferClaimed_decode, GrantOfferRevoked_decode,
    BadgeIssued_decode, BadgeRevoked_decode, BadgeDisputed_decode, CredentialDeposited_decode,
    CredentialRevoked_decode.
  all: repeat (first [ erewrite Hreq by reflexivity | erewrite Hkey by reflexivity
                     | erewrite Hopt by reflexivity | rewrite E1 | rewrite E4 | rewrite E5 | rewrite E6
                     | rewrite parse_u64_printed by tauto ];
               cbn [result_bind map_err ok_or]).
  all: try (by destruct b).
  - (* DeviceEnrolled *)
    rewrite (Hpres _ (AttestationTier_as_str (de_attestation_tier b)))
      by (done || by destruct (de_attestation_tier b)).
    rewrite (Hpres _ (PresenceFactor_as_str (de_presence_factor b)))
      by (done || by destruct (de_presence_factor b)).
    repeat change (default _ (Some ?v)) with v. rewrite E2. cbn [ok_or result_bind]. rewrite E3.
    rewrite (Hopt _ (de_attestation_statement b)) by done. by destruct b.
  - (* TrustAttested *)
    destruct Ht as (-> & Hnan & Hneg & Hunit). cbn [map_err result_bind].
    by rewrite Hnan, Hneg, Hunit.
  - (* RecoveryPolicyCreated *)
    destruct Ht as [? [??]]. unfold parse_u8. rewrite parse_integer_to_string by lia.
    replace (F !! _) with (Some (u64_to_string (rpc_cooldown_seconds b))) by (by rewrite Hlook).
    cbn [map_err result_bind mbind option_bind]. unfold parse_u32.
    rewrite parse_integer_to_string by lia. by destruct b.
  - (* RecoveryContested *)
    replace (F !! _) with (Some (u64_to_string (rct_contested_at_epoch b))) by (by rewrite Hlook).
    cbn [mbind option_bind]. rewrite parse_u64_printed by done. by destruct b.
  - (* StorageRelationshipCreated *) by destruct b as [? [? ? ? []]].
  - (* StorageLedgerUpdated *) rewrite parse_i64_to_string by done. by destruct b as [? []].
  - (* StorageManifestPublished *)
    unfold hex_to_bytes, bytes_to_hex. rewrite hex_decode_encode. cbn [map_err result_bind].
    by rewrite manifest_roundtrip.
  - (* GrantOfferCreated *)
    rewrite (Hopt _ (Some (goc_conditions_json b))) by done. cbn [canonical_option].
    destruct (str_is_empty (goc_conditions_json b)) eqn:Ec; [|done].
    apply bool_decide_eq_true in Ec. by rewrite Ec.
  - (* BadgeIssued *)
    rewrite !Hlook, optional_time_reparse by tauto.
    destruct b as [? ? ? ? ? [[]|] ? ?]; done.
  - (* CredentialDeposited *)
    rewrite optional_time_reparse by tauto. by destruct b.
Qed.

Lemma decode_encode b :
  HexLaws H → body_typed b → Forall (λ f, value_ok f.2) (EventBody_record b).2 →
  utf8_error 0 (EventBody_canonical_encode b) = None →
  EventBody_decode_canonical (EventBody_canonical_encode b) = Ok (canonical_form b).
Proof.
  intros HL Ht Hv Hu. unfold EventBody_decode_canonical, EventBody_canonical_encode in *.
  rewrite parse_canonical_record_spec; [..|done].
  - cbn [result_bind fst snd]. rewrite decode_record_arm. by apply decode_arm_spec.
  - split; [apply record_type_no_newline|]. rewrite record_type_name.
    apply (bool_decide_eq_true_1 (value_ok _)). by destruct (EventBody_event_type b).
  - apply Forall_and. split; [apply record_names_ok|done].
Qed.

Lemma default_canonical_option o : default "" (canonical_option o) = default "" o.
Proof.
  destruct o as [s|]; [|done]. simpl. destruct (str_is_empty s) eqn:E; [|done].
  apply bool_decide_eq_true in E. by subst.
Qed.

Lemma encode_canonical_form b :
  EventBody_canonical_encode (canonical_form b) = EventBody_canonical_encode b.
Proof.
  unfold EventBody_canonical_encode. f_equal; [by destruct b|].
  destruct b as [b|b|b|b|b|b|b|b|b|b|b|b|b|b|b|b|b|b|b|b|b|b|b|b|b|b|b|b|b|b|b|b|b|b|b|b|b|b|b|b];
    try done; cbn -[FileManifest_canonical_encode canonical_manifest canonical_option];
    rewrite ?default_canonical_option, ?canonical_manifest_encode; try done.
  destruct b as [? ? ? ? ? [[t p]|] ? ?]; [|done]. cbn.
  destruct (str_is_empty t) eqn:Et, (str_is_empty p) eqn:Ep; try done.
  apply bool_decide_eq_true in Et, Ep. by subst.
Qed.
End RoundTrip.

(** ** Properties *)

(** C33. Reading a canonical payload inverts writing it. The payload of any body whose numbers fit
    their types, whose score six decimals determine, whose text is UTF-8 and in which no value
    ends in a carriage return decodes to the canonical form of the body (blank options absent,
    manifest lists in order), and that form has the same payload, so the check of a stored
    payload against its decoded body succeeds. *)
Theorem decode_canonical_roundtrip {H : HexOps} {HL : HexLaws H} (b : EventBody)
  (Htyped : body_typed b)
  (Hvalues : Forall (λ f, value_ok f.2) (EventBody_record b).2)
  (Hutf8 : utf8_error 0 (EventBody_canonical_encode b) = None) :
  EventBody_decode_canonical (EventBody_canonical_encode b) = Ok (canonical_form b) ∧
  EventBody_canonical_encode (canonical_form b) = EventBody_canonical_encode b.
Proof. split; [by apply decode_encode|apply encode_canonical_form]. Qed.

Definition demo_trust : EventBody :=
  TrustAttested (mkTrustAttested "a" "p" "q" "work" (S754_finite false 8388608 (-24)) (Some "")).

Lemma decode_canonical_roundtrip_witness :
  @EventBody_decode_canonical toy_hex_ops (@EventBody_canonical_encode toy_hex_ops demo_trust) =
  Ok (TrustAttested (mkTrustAttested "a" "p" "q" "work" (S754_finite false 8388608 (-24)) None)).
Proof.
  refine (proj1 (@decode_canonical_roundtrip toy_hex_ops toy_hex_laws demo_trust _ _ _)).
  - repeat split.
  - repeat constructor; cbn [snd]; apply (bool_decide_eq_true_1 (value_ok _)); vm_compute; reflexivity.
  - vm_compute. reflexivity.
Defined.
