(* ===== verification/Envelope.v ===== *)
(** * Event envelopes

    crates/core-events/src/lib.rs (envelope, validation, signing pre-image) and the
    domain-separated signing of crates/core-crypto/src/lib.rs ([context_message],
    [sign_with_context], [verify_with_context]). Signers and verifiers are the traits of
    core-crypto: records of functions. *)

From stdpp Require Import base gmap sets list strings pretty.
From Stdlib Require Import Ascii Lia ZArith.
From S2P Require Import Prelude CoreTypes Numbers EventTypes EventCodec EventDecode.

Local Infix "+:+" := String.append (at level 60, right associativity).

(** ** Signing (core-crypto) *)

Definition DOMAIN_EVENT : bytes := to_bytes "emberlink/v1/event".

Definition context_message (ctx payload : bytes) : bytes := ctx ++ to_bytes "||" ++ payload.

(** The traits [Signer] and [Verifier]; public keys and signatures are strings. *)
Record Signer := mkSigner { signer_sign : bytes → string; signer_public_key : string }.
Abbreviation Verifier := (string → bytes → string → bool).

Definition sign_with_context (ctx : bytes) (signer : Signer) (payload : bytes) : string :=
  signer_sign signer (context_message ctx payload).

Definition verify_with_context (ctx : bytes) (verify : Verifier) (public_key : string)
  (payload : bytes) (sig : string) : bool :=
  verify public_key (context_message ctx payload) sig.

(** ** Envelopes *)

Record EventRef := mkEventRef {
  ref_relation : EventRefRelation;
  ref_target_event_id : string;
  ref_seq : Z
}.

Definition EventRef_previous (target : string) (seq : Z) : EventRef :=
  mkEventRef Rel_Previous target seq.
Definition EventRef_other (relation : EventRefRelation) (target : string) : EventRef :=
  mkEventRef relation target 0.

Definition EventRef_validate (r : EventRef) : verdict :=
  if str_is_empty (str_trim (ref_target_event_id r))
  then Err (VE.new "event ref target must not be empty") else Ok tt.

Record EventEnvelope := mkEventEnvelope {
  ev_schema_version : Z * Z * Z;
  ev_event_id : string;
  ev_event_type : EventType;
  ev_subject : EventSubject;
  ev_signer_binding : SignerBinding;
  ev_signer : string;
  ev_payload : bytes;
  ev_refs : list EventRef;
  ev_signature : string;
  ev_body : EventBody
}.

#[export] Instance EventSubject_eq_dec : EqDecision EventSubject.
Proof. solve_decision. Defined.

Definition nl : string := String.String newline "".

Definition ref_lines (i : nat) (r : EventRef) : string :=
  let n := pretty (N.of_nat i) in
  "ref." +:+ n +:+ ".relation=" +:+ EventRefRelation_as_str (ref_relation r) +:+ nl
  +:+ "ref." +:+ n +:+ ".target=" +:+ ref_target_event_id r +:+ nl
  +:+ "ref." +:+ n +:+ ".seq=" +:+ u64_to_string (ref_seq r) +:+ nl.

Definition concat_strings (l : list string) : string := foldr String.append "" l.

Definition canonical_signed_bytes (schema_version : Z * Z * Z) (event_id : string)
  (event_type : EventType) (subject : EventSubject) (signer_binding : SignerBinding)
  (refs : list EventRef) (payload : bytes) : bytes :=
  to_bytes
    ("schema_version=" +:+ SchemaVersion_display schema_version +:+ nl
     +:+ "event_id=" +:+ event_id +:+ nl
     +:+ "event_type=" +:+ EventType_as_str event_type +:+ nl
     +:+ "subject_kind=" +:+ SubjectKind_as_str (es_kind subject) +:+ nl
     +:+ "subject_id=" +:+ es_subject_id subject +:+ nl
     +:+ "signer_kind=" +:+ SubjectKind_as_str (es_kind (sb_signer signer_binding)) +:+ nl
     +:+ "signer_id=" +:+ es_subject_id (sb_signer signer_binding) +:+ nl
     +:+ "signer_key_id=" +:+ sb_key_id signer_binding +:+ nl
     +:+ "signer_role=" +:+ KeyRole_as_str (sb_role signer_binding) +:+ nl
     +:+ "ref_count=" +:+ pretty (N.of_nat (length refs)) +:+ nl
     +:+ concat_strings (imap ref_lines refs))
  ++ to_bytes ("payload=" +:+ nl) ++ payload.

Definition signed_bytes (e : EventEnvelope) : bytes :=
  canonical_signed_bytes (ev_schema_version e) (ev_event_id e) (ev_event_type e) (ev_subject e)
    (ev_signer_binding e) (ev_refs e) (ev_payload e).

(** The check for duplicate refs: [seen] are the refs before the current index. *)
Fixpoint duplicate_refs (seen refs : list EventRef) : verdict :=
  match refs with
  | [] => Ok tt
  | r :: rest =>
      if existsb (λ x, bool_decide (ref_relation x = ref_relation r)
                       && bool_decide (ref_target_event_id x = ref_target_event_id r)) seen
      then Err (VE.new "duplicate event refs with the same relation and target are not allowed")
      else duplicate_refs (seen ++ [r]) rest
  end.

Section Envelope.
Context {H : HexOps}.

Definition EventEnvelope_validate (e : EventEnvelope) : verdict :=
  (if str_is_empty (str_trim (ev_event_id e))
   then Err (VE.new "event id must not be empty") else Ok tt) ;?
  (if bool_decide (ev_payload e = [])
   then Err (VE.new "event payload must not be empty") else Ok tt) ;?
  validate_envelope_payload_size (Z.of_nat (length (ev_payload e))) ;?
  EventSubject_validate (ev_subject e) ;?
  SignerBinding_validate (ev_signer_binding e) ;?
  EventBody_validate (ev_body e) ;?
  (if negb (bool_decide (ev_event_type e = EventBody_event_type (ev_body e)))
   then Err (VE.new "event type must match the typed event body") else Ok tt) ;?
  (if negb (bool_decide (EventSubject_canonical_principal_alias (ev_subject e) =
                         EventSubject_canonical_principal_alias (EventBody_subject (ev_body e))))
   then Err (VE.new "event subject must match the typed event body") else Ok tt) ;?
  (if negb (bool_decide (ev_payload e = EventBody_canonical_encode (ev_body e)))
   then Err (VE.new "event payload must match canonical body encoding") else Ok tt) ;?
  try_for_each EventRef_validate (ev_refs e) ;?
  duplicate_refs [] (ev_refs e) ;?
  Ok tt.

(** The checks [from_body], [from_oob_signed] and [signing_pre_image] start with. *)
Definition construction_checks (body : EventBody) (refs : list EventRef) (binding : SignerBinding)
  : verdict :=
  EventBody_validate body ;?
  SignerBinding_validate binding ;?
  try_for_each EventRef_validate refs.

Definition pre_image (event_id : string) (body : EventBody) (refs : list EventRef)
  (binding : SignerBinding) : bytes :=
  canonical_signed_bytes SCHEMA_V0_1_0 event_id (EventBody_event_type body) (EventBody_subject body)
    binding refs (EventBody_canonical_encode body).

Definition signing_pre_image (event_id : string) (body : EventBody) (refs : list EventRef)
  (binding : SignerBinding) : result bytes ValidationError :=
  construction_checks body refs binding ;?
  Ok (pre_image event_id body refs binding).

Definition from_oob_signed (event_id : string) (body : EventBody) (refs : list EventRef)
  (binding : SignerBinding) (signer : string) (oob_sign : bytes → string)
  : result EventEnvelope ValidationError :=
  construction_checks body refs binding ;?
  Ok (mkEventEnvelope SCHEMA_V0_1_0 event_id (EventBody_event_type body) (EventBody_subject body)
        binding signer (EventBody_canonical_encode body) refs
        (oob_sign (pre_image event_id body refs binding)) body).

Definition from_body (event_id : string) (body : EventBody) (refs : list EventRef)
  (binding : SignerBinding) (signer : Signer) : result EventEnvelope ValidationError :=
  construction_checks body refs binding ;?
  Ok (mkEventEnvelope SCHEMA_V0_1_0 event_id (EventBody_event_type body) (EventBody_subject body)
        binding (signer_public_key signer) (EventBody_canonical_encode body) refs
        (sign_with_context DOMAIN_EVENT signer (pre_image event_id body refs binding)) body).

(** The body of a stored event is decoded from its payload. *)
Definition from_stored_parts (schema_version : Z * Z * Z) (event_id : string)
  (event_type : EventType) (subject : EventSubject) (binding : SignerBinding) (signer : string)
  (payload : bytes) (refs : list EventRef) (signature : string)
  : result EventEnvelope ValidationError :=
  let? body := EventBody_decode_canonical payload in
  let envelope := mkEventEnvelope schema_version event_id event_type subject binding signer payload
                    refs signature body in
  EventEnvelope_validate envelope ;?
  Ok envelope.

End Envelope.

(** ** Lemmas on the signing pre-image *)

Definition line_ok (s : string) : Prop := newline ∉ to_bytes s.
#[export] Instance line_ok_dec s : Decision (line_ok s).
Proof. unfold line_ok. apply _. Defined.

Lemma line_inj k x y r s :
  line_ok x → line_ok y →
  to_bytes k ++ to_bytes x ++ newline :: r = to_bytes k ++ to_bytes y ++ newline :: s →
  x = y ∧ r = s.
Proof.
  intros Hx Hy Heq. apply app_inv_head in Heq. apply cut_inj in Heq as [Hxy ?]; [|done..].
  split; [by apply to_bytes_inj|done].
Qed.

Lemma line_ok_app x y : line_ok x → line_ok y → line_ok (x +:+ y).
Proof. unfold line_ok. rewrite to_bytes_app, elem_of_app. tauto. Qed.

Lemma SchemaVersion_line_ok v : line_ok (SchemaVersion_display v).
Proof.
  unfold SchemaVersion_display.
  repeat apply line_ok_app; try apply u64_to_string_no_newline;
    apply (bool_decide_eq_true_1 _); reflexivity.
Qed.

Lemma EventType_line_ok t : line_ok (EventType_as_str t).
Proof. apply (bool_decide_eq_true_1 _). by destruct t. Qed.
Lemma SubjectKind_line_ok k : line_ok (SubjectKind_as_str k).
Proof. apply (bool_decide_eq_true_1 _). by destruct k. Qed.
Lemma KeyRole_line_ok r : line_ok (KeyRole_as_str r).
Proof. apply (bool_decide_eq_true_1 _). by destruct r. Qed.
Lemma Relation_line_ok r : line_ok (EventRefRelation_as_str r).
Proof. apply (bool_decide_eq_true_1 _). by destruct r. Qed.

Lemma parse_inj {A} (f : A → string) (g : string → option A) x y :
  (∀ x, g (f x) = Some x) → f x = f y → x = y.
Proof. intros Hg Heq. apply (f_equal g) in Heq. rewrite !Hg in Heq. by simplify_eq. Qed.

Definition ref_wf (r : EventRef) : Prop := line_ok (ref_target_event_id r) ∧ (0 ≤ ref_seq r)%Z.

Fixpoint refs_text (i : nat) (refs : list EventRef) : bytes :=
  match refs with [] => [] | r :: rest => to_bytes (ref_lines i r) ++ refs_text (S i) rest end.

Lemma concat_ref_lines i refs :
  to_bytes (concat_strings (imap (λ j, ref_lines (i + j)) refs)) = refs_text i refs.
Proof.
  revert i. induction refs as [|r refs IH]; intros i; [done|].
  rewrite imap_cons. cbn [concat_strings foldr refs_text].
  rewrite Nat.add_0_r, to_bytes_app, <-IH. f_equal. fold concat_strings. do 2 f_equal.
  apply imap_ext. intros j x _. cbn. by rewrite Nat.add_succ_r.
Qed.

Lemma ref_lines_inj i r r' s s' :
  ref_wf r → ref_wf r' → to_bytes (ref_lines i r) ++ s = to_bytes (ref_lines i r') ++ s' →
  r = r' ∧ s = s'.
Proof.
  intros [Ht Hs] [Ht' Hs']. unfold ref_lines. rewrite !to_bytes_app, <-!(assoc_L (++)).
  change (to_bytes nl) with [newline]. intros Heq.
  do 3 apply app_inv_head in Heq.
  apply cut_inj in Heq as [Hrel Heq]; [|apply Relation_line_ok..].
  do 3 apply app_inv_head in Heq. apply cut_inj in Heq as [Htgt Heq]; [|done..].
  do 3 apply app_inv_head in Heq. apply cut_inj in Heq as [Hseq Heq];
    [|apply u64_to_string_no_newline..].
  split; [|done]. apply to_bytes_inj in Hrel, Htgt, Hseq. apply u64_to_string_inj in Hseq; [|done..].
  apply (parse_inj _ EventRefRelation_parse) in Hrel; [|by intros []].
  destruct r, r'; simpl in *; congruence.
Qed.

Lemma refs_text_inj i refs refs' s s' :
  Forall ref_wf refs → Forall ref_wf refs' → length refs = length refs' →
  refs_text i refs ++ s = refs_text i refs' ++ s' → refs = refs' ∧ s = s'.
Proof.
  intros Hr. revert i refs'. induction Hr as [|r refs Hr Hrs IH]; intros i refs' Hr' Hlen Heq.
  { by destruct Hr'. }
  destruct Hr' as [|r' refs' Hr' Hrs']; [done|]. simpl in Heq. rewrite <-!(assoc_L (++)) in Heq.
  apply ref_lines_inj in Heq as [-> Heq]; [|done..].
  apply IH in Heq as [-> ->]; [done|done|by simplify_eq/=].
Qed.

(** The identifiers of an envelope contain no line break, and sequence numbers are unsigned. *)
Definition envelope_lines_ok (e : EventEnvelope) : Prop :=
  line_ok (ev_event_id e) ∧ line_ok (es_subject_id (ev_subject e)) ∧
  line_ok (es_subject_id (sb_signer (ev_signer_binding e))) ∧
  line_ok (sb_key_id (ev_signer_binding e)) ∧ Forall ref_wf (ev_refs e).

Lemma signed_bytes_eq e :
  signed_bytes e =
  to_bytes "schema_version=" ++ to_bytes (SchemaVersion_display (ev_schema_version e)) ++ newline ::
  to_bytes "event_id=" ++ to_bytes (ev_event_id e) ++ newline ::
  to_bytes "event_type=" ++ to_bytes (EventType_as_str (ev_event_type e)) ++ newline ::
  to_bytes "subject_kind=" ++ to_bytes (SubjectKind_as_str (es_kind (ev_subject e))) ++ newline ::
  to_bytes "subject_id=" ++ to_bytes (es_subject_id (ev_subject e)) ++ newline ::
  to_bytes "signer_kind="
    ++ to_bytes (SubjectKind_as_str (es_kind (sb_signer (ev_signer_binding e)))) ++ newline ::
  to_bytes "signer_id=" ++ to_bytes (es_subject_id (sb_signer (ev_signer_binding e))) ++ newline ::
  to_bytes "signer_key_id=" ++ to_bytes (sb_key_id (ev_signer_binding e)) ++ newline ::
  to_bytes "signer_role=" ++ to_bytes (KeyRole_as_str (sb_role (ev_signer_binding e))) ++ newline ::
  to_bytes "ref_count=" ++ to_bytes (pretty (N.of_nat (length (ev_refs e)))) ++ newline ::
  refs_text 0 (ev_refs e) ++ to_bytes ("payload=" +:+ nl) ++ ev_payload e.
Proof.
  unfold signed_bytes, canonical_signed_bytes. rewrite !to_bytes_app, <-!(assoc_L (++)).
  change (to_bytes nl) with [newline]. by rewrite <-(concat_ref_lines 0).
Qed.

Lemma signed_bytes_fields e e' :
  envelope_lines_ok e → envelope_lines_ok e' → signed_bytes e = signed_bytes e' →
  ev_event_id e = ev_event_id e' ∧ ev_event_type e = ev_event_type e' ∧
  ev_subject e = ev_subject e' ∧ ev_signer_binding e = ev_signer_binding e' ∧
  ev_refs e = ev_refs e' ∧ ev_payload e = ev_payload e'.
Proof.
  intros (H1 & H2 & H3 & H4 & H5) (G1 & G2 & G3 & G4 & G5) Heq. rewrite !signed_bytes_eq in Heq.
  apply line_inj in Heq as [_ Heq]; [|apply SchemaVersion_line_ok..].
  apply line_inj in Heq as [Hid Heq]; [|done..].
  apply line_inj in Heq as [Het Heq]; [|apply EventType_line_ok..].
  apply line_inj in Heq as [Hsk Heq]; [|apply SubjectKind_line_ok..].
  apply line_inj in Heq as [Hsi Heq]; [|done..].
  apply line_inj in Heq as [Hgk Heq]; [|apply SubjectKind_line_ok..].
  apply line_inj in Heq as [Hgi Heq]; [|done..].
  apply line_inj in Heq as [Hki Heq]; [|done..].
  apply line_inj in Heq as [Hro Heq]; [|apply KeyRole_line_ok..].
  apply line_inj in Heq as [Hn Heq]; [|apply pretty_N_no_newline..].
  apply (inj pretty) in Hn. apply refs_text_inj in Heq as [Hr Heq]; [|done|done|lia].
  apply app_inv_head in Heq.
  apply (parse_inj _ EventType_parse) in Het; [|by intros []].
  apply (parse_inj _ SubjectKind_parse) in Hsk, Hgk; [|by intros []..].
  apply (parse_inj _ KeyRole_parse) in Hro; [|by intros []].
  destruct (ev_subject e), (ev_subject e'), (ev_signer_binding e) as [[]], (ev_signer_binding e') as [[]].
  simpl in *. by subst.
Qed.

(** The subject of a validated body is never blank. *)
Lemma non_empty_relabel v l l' : validate_non_empty v l = Ok tt → validate_non_empty v l' = Ok tt.
Proof. unfold validate_non_empty. by destruct (str_is_empty _). Qed.

Ltac head_of t := match t with ?f _ => head_of f | _ => t end.
Ltac unfold_validate Hv :=
  match type of Hv with ?t = _ => let h := head_of t in unfold h in Hv end.

(** The subject of a validated body is never blank. *)
Lemma validated_subject b :
  EventBody_validate b = Ok tt → EventSubject_validate (EventBody_subject b) = Ok tt.
Proof.
  unfold EventSubject_validate.
  destruct b; simpl; intros Hv; unfold_validate Hv;
    unfold StorageRelationship_validate, StorageLedgerEntry_validate in Hv;
    rewrite ?seq_Ok in Hv; destruct_and?; eauto using non_empty_relabel.
Qed.

Lemma duplicate_refs_app seen refs :
  NoDup ((λ r, (ref_relation r, ref_target_event_id r)) <$> (seen ++ refs)) →
  duplicate_refs seen refs = Ok tt.
Proof.
  revert seen. induction refs as [|r refs IH]; intros seen Hn; simpl; [done|].
  rewrite fmap_app in Hn. simpl in Hn. apply NoDup_app in Hn as Hn'. destruct Hn' as (_ & Hd & _).
  destruct (existsb _ seen) eqn:E.
  - apply existsb_exists in E as (x & Hx & Hk). bool_to_prop. exfalso.
    apply (Hd (ref_relation x, ref_target_event_id x)); [apply list_elem_of_fmap; eauto|].
    + exists x. split; [done|by apply list_elem_of_In].
    + rewrite H, H0. by left.
  - apply IH. by rewrite <-(assoc_L (++)), fmap_app.
Qed.

(** ** Properties *)

(** The signing pre-image is injective on envelopes whose identifiers contain no
    line break: event id, type, subject, signer binding, references and payload are all bound
    by the signature, so none can be changed without signing again. *)
Theorem signed_bytes_injective (e e' : EventEnvelope)
  (He : envelope_lines_ok e) (He' : envelope_lines_ok e') (Heq : signed_bytes e = signed_bytes e') :
  ev_event_id e = ev_event_id e' ∧ ev_event_type e = ev_event_type e' ∧
  ev_subject e = ev_subject e' ∧ ev_signer_binding e = ev_signer_binding e' ∧
  ev_refs e = ev_refs e' ∧ ev_payload e = ev_payload e'.
Proof. by apply signed_bytes_fields. Qed.

(** A signed event is accepted by its consumers: an envelope that [from_body]
    builds carries a signature that verifies over its signed bytes whenever the verifier
    accepts the signer's signatures, and it validates when its id is not blank, the payload
    fits and no two references agree on relation and target. *)
Theorem from_body_accepted {H : HexOps} (verify : Verifier) (signer : Signer) (event_id : string)
  (body : EventBody) (refs : list EventRef) (binding : SignerBinding) (e : EventEnvelope)
  (Hsig : ∀ m, verify (signer_public_key signer) m (signer_sign signer m) = true)
  (He : from_body event_id body refs binding signer = Ok e)
  (Hid : str_trim event_id ≠ "")
  (Hsize : (Z.of_nat (length (EventBody_canonical_encode body)) ≤ MAX_EVENT_PAYLOAD_BYTES)%Z)
  (Hrefs : NoDup ((λ r, (ref_relation r, ref_target_event_id r)) <$> refs)) :
  verify_with_context DOMAIN_EVENT verify (ev_signer e) (signed_bytes e) (ev_signature e) = true ∧
  EventEnvelope_validate e = Ok tt.
Proof.
  unfold from_body, construction_checks in He. rewrite !seq_Ok in He.
  destruct He as ((Hb & Hs & Hr) & [= <-]). split; [apply Hsig|].
  unfold EventEnvelope_validate. simpl. rewrite Hb, Hs, Hr, (validated_subject body Hb). simpl.
  unfold str_is_empty. rewrite (bool_decide_eq_false_2 (str_trim event_id = "")) by done. simpl.
  unfold validate_envelope_payload_size.
  replace (MAX_EVENT_PAYLOAD_BYTES <? _)%Z with false by (symmetry; by apply Z.ltb_ge).
  rewrite (bool_decide_eq_true_2 (EventBody_event_type _ = _)) by done. simpl.
  rewrite (bool_decide_eq_true_2 (EventSubject_canonical_principal_alias _ = _)) by done. simpl.
  rewrite (bool_decide_eq_true_2 (EventBody_canonical_encode _ = EventBody_canonical_encode _)) by done.
  simpl. by rewrite (duplicate_refs_app [] refs Hrefs).
Qed.

Definition demo_signer : Signer := mkSigner (λ _, "sig") "pub".
Definition demo_binding : SignerBinding := mkSignerBinding (mkEventSubject SK_Root "r") "k" KR_Root.
Definition demo_body : EventBody := RootRevoked (mkRootRevoked "r" "lost").

Lemma from_body_accepted_witness :
  ∃ e, @from_body demo_hex "e1" demo_body [EventRef_previous "e0" 1] demo_binding demo_signer = Ok e ∧
  @EventEnvelope_validate demo_hex e = Ok tt.
Proof.
  eexists. split; [vm_compute; reflexivity|].
  refine (proj2 (@from_body_accepted demo_hex (λ _ _ s, bool_decide (s = "sig")) demo_signer "e1"
            demo_body [EventRef_previous "e0" 1] demo_binding _ _ _ _ _ _)).
  - intros m. vm_compute. reflexivity.
  - vm_compute. reflexivity.
  - vm_compute. discriminate.
  - vm_compute. discriminate.
  - repeat constructor. apply not_elem_of_nil.
Defined.

(** An envelope for the given signer and key ids. *)
Definition demo_envelope (signer_id key_id : string) : EventEnvelope :=
  mkEventEnvelope SCHEMA_V0_1_0 "e1" ET_RootRevoked (mkEventSubject SK_Principal "r")
    (mkSignerBinding (mkEventSubject SK_Root signer_id) key_id KR_Root) "pub"
    (@EventBody_canonical_encode demo_hex demo_body) [EventRef_previous "e0" 1] "sig" demo_body.

Lemma signed_bytes_injective_witness :
  ev_payload (demo_envelope "r" "k") = ev_payload (demo_envelope "r" "k").
Proof.
  assert (envelope_lines_ok (demo_envelope "r" "k")) as Hok.
  { repeat split; try (apply (bool_decide_eq_true_1 (line_ok _)); vm_compute; reflexivity).
    repeat constructor; [apply (bool_decide_eq_true_1 (line_ok _)); vm_compute; reflexivity|].
    vm_compute. discriminate. }
  exact (proj2 (proj2 (proj2 (proj2 (proj2
          (signed_bytes_injective (demo_envelope "r" "k") (demo_envelope "r" "k") Hok Hok eq_refl)))))).
Defined.

(** The restriction on line breaks is needed: the pre-image does not escape
    identifiers and validation does not exclude line breaks, so two valid envelopes that name
    different signers and different keys have the same signed bytes. *)
Theorem signed_bytes_collision :
  let e1 := demo_envelope "a" ("b" +:+ nl +:+ "signer_key_id=c") in
  let e2 := demo_envelope ("a" +:+ nl +:+ "signer_key_id=b") "c" in
  @EventEnvelope_validate demo_hex e1 = Ok tt ∧ @EventEnvelope_validate demo_hex e2 = Ok tt ∧
  ev_signer_binding e1 ≠ ev_signer_binding e2 ∧ signed_bytes e1 = signed_bytes e2.
Proof. split_and!; try (vm_compute; reflexivity). vm_compute. discriminate. Qed.
