(* ===== verification/Trust.v ===== *)
(** * Derived trust

    crates/core-trust/src/lib.rs: [derive_score_for_recipient], [derive_score],
    [derive_public_statements]. Scores are binary32 floats; sums run in the order of the
    list, since float addition is not associative. *)

From stdpp Require Import base gmap sets list strings.
From Stdlib Require Import Ascii Lia ZArith SpecFloat.
From S2P Require Import Prelude CoreTypes EventTypes EventCodec.

Local Infix "+:+" := String.append (at level 60, right associativity).

Definition f32_add (x y : f32) : f32 := SFadd 24 128 x y.
Definition f32_div (x y : f32) : f32 := SFdiv 24 128 x y.
(** [usize as f32], to nearest even. *)
Definition f32_of_nat (n : nat) : f32 := binary_normalize 24 128 (Z.of_nat n) 0 false.
(** [Iterator::sum] over floats starts from negative zero, the neutral element. *)
Definition f32_sum (l : list f32) : f32 := foldl f32_add (S754_zero true) l.

Definition visible_to (recipient : option string) (a : TrustAttestation) : bool :=
  match tru_recipient_bound a, recipient with
  | None, _ => true
  | Some bound, Some viewer => bool_decide (bound = viewer)
  | Some _, None => false
  end.

Definition derive_score_for_recipient (attestations : list TrustAttestation) (subject domain : string)
  (recipient : option string) : option DerivedTrustStatement :=
  let matches := List.filter (λ a, bool_decide (tru_subject a = subject)
                                   && bool_decide (tru_domain a = domain)
                                   && visible_to recipient a) attestations in
  if bool_decide (length matches = 0) then None
  else
    let total := f32_sum (tru_score <$> matches) in
    Some (mkDerivedTrustStatement ("derived:" +:+ subject +:+ ":" +:+ domain) subject domain
            (f32_div total (f32_of_nat (length matches)))).

Definition derive_score (attestations : list TrustAttestation) (subject domain : string)
  : option DerivedTrustStatement :=
  derive_score_for_recipient attestations subject domain None.

(** The order of a [BTreeSet<(String, String)>]. *)
Definition pair_leb (x y : string * string) : bool :=
  match String.compare x.1 y.1 with
  | Lt => true
  | Gt => false
  | Eq => String.leb x.2 y.2
  end.

Definition subject_domains (attestations : list TrustAttestation) : list (string * string) :=
  sort_by pair_leb (remove_dups ((λ a, (tru_subject a, tru_domain a)) <$> attestations)).

Definition derive_public_statements (attestations : list TrustAttestation)
  : list DerivedTrustStatement :=
  omap (λ k, derive_score attestations k.1 k.2) (subject_domains attestations).

(** ** Lemmas *)

Lemma filter_filter_b {A} (f g : A → bool) l :
  (∀ x, f x = true → g x = true) → List.filter f (List.filter g l) = List.filter f l.
Proof.
  intros Hfg. induction l as [|x l IH]; simpl; [done|].
  destruct (g x) eqn:Eg; simpl; [by rewrite IH|].
  destruct (f x) eqn:Ef; [|done]. apply Hfg in Ef. congruence.
Qed.

(** An attestation shown to [viewer]: unbound, or bound to the viewer. *)
Definition disclosed_to (viewer : option string) (a : TrustAttestation) : bool :=
  bool_decide (tru_recipient_bound a = None) || bool_decide (tru_recipient_bound a = viewer).

Lemma disclosed_visible viewer a : visible_to viewer a = disclosed_to viewer a.
Proof.
  unfold visible_to, disclosed_to. destruct (tru_recipient_bound a) as [b|], viewer as [v|];
    repeat case_bool_decide; simpl; congruence.
Qed.

(** ** Properties *)

(** A derived score depends only on the attestations disclosed to the viewer:
    removing every attestation bound to somebody else leaves the statement unchanged, to the
    last bit. In particular public statements ignore all recipient-bound attestations. *)
Theorem derived_score_noninterference (attestations : list TrustAttestation)
  (subject domain : string) (viewer : option string) :
  derive_score_for_recipient attestations subject domain viewer =
  derive_score_for_recipient (List.filter (disclosed_to viewer) attestations) subject domain viewer.
Proof.
  unfold derive_score_for_recipient. rewrite filter_filter_b; [done|].
  intros a Ha. bool_to_prop. by rewrite <-disclosed_visible.
Qed.
