(* ===== verification/LogTypes.v ===== *)
(** * The materialized state

    crates/core-eventlog/src/types.rs: the records the event log materializes and the state
    that holds them. A [BTreeMap<String, _>] is a [gmap string _]; where the code iterates,
    the entries are taken in key order ([btree_entries]). *)

From stdpp Require Import base gmap sets list strings.
From Stdlib Require Import Ascii Lia ZArith.
From S2P Require Import Prelude CoreTypes EventTypes.

(** The entries of a [BTreeMap] in key order. *)
Definition btree_entries {A} (m : gmap string A) : list (string * A) :=
  sort_by (λ x y, String.leb x.1 y.1) (map_to_list m).
Definition btree_values {A} (m : gmap string A) : list A := (btree_entries m).*2.

Lemma elem_of_btree_values {A} (m : gmap string A) x :
  x ∈ btree_values m ↔ ∃ k, m !! k = Some x.
Proof.
  unfold btree_values, btree_entries. rewrite list_elem_of_fmap. setoid_rewrite sort_by_perm.
  split.
  - intros ([k y] & -> & Hin). exists k. by apply elem_of_map_to_list.
  - intros [k Hk]. exists (k, x). split; [done|]. by apply elem_of_map_to_list.
Qed.

Inductive RootStatus :=
| Root_Active | Root_Revoked.
#[export] Instance RootStatus_eq_dec : EqDecision RootStatus.
Proof. solve_decision. Defined.

Inductive DeviceStatus :=
| Dev_Active | Dev_Revoked | Dev_Frozen | Dev_Replaced.
#[export] Instance DeviceStatus_eq_dec : EqDecision DeviceStatus.
Proof. solve_decision. Defined.

Inductive PersonaStatus :=
| Per_Active | Per_Revoked.
#[export] Instance PersonaStatus_eq_dec : EqDecision PersonaStatus.
Proof. solve_decision. Defined.

Inductive RecoveryRequestStatus :=
| Req_Requested | Req_Approved | Req_Contested | Req_Rejected | Req_Executed.
#[export] Instance RecoveryRequestStatus_eq_dec : EqDecision RecoveryRequestStatus.
Proof. solve_decision. Defined.

Inductive CredentialDepositStatus :=
| Dep_Active | Dep_Revoked.
#[export] Instance CredentialDepositStatus_eq_dec : EqDecision CredentialDepositStatus.
Proof. solve_decision. Defined.

Inductive GrantOfferStatus :=
| Off_Pending | Off_Claimed | Off_Revoked.
#[export] Instance GrantOfferStatus_eq_dec : EqDecision GrantOfferStatus.
Proof. solve_decision. Defined.

Record RootRecord := mkRootRecord {
  root_root_id : string;
  root_display_name : string;
  root_active_key : PublicKeyMaterial;
  root_status : RootStatus
}.

Record DeviceRecord := mkDeviceRecord {
  dev_root_id : string;
  dev_device_id : string;
  dev_label : string;
  dev_active_key : PublicKeyMaterial;
  dev_active_encryption_key : PublicKeyMaterial;
  dev_status : DeviceStatus;
  dev_replacement_device_id : option string;
  dev_custody_class : CustodyClass;
  dev_attestation_statement : option string;
  dev_attestation_tier : AttestationTier;
  dev_presence_factor : PresenceFactor
}.

Record PersonaRecord := mkPersonaRecord {
  per_root_id : string;
  per_persona_id : string;
  per_label : string;
  per_disclosure_profile : option string;
  per_survival_mode : SurvivalMode;
  per_active_key : PublicKeyMaterial;
  per_status : PersonaStatus
}.

Record RecoveryPolicyRecord := mkRecoveryPolicyRecord {
  pol_root_id : string;
  pol_guardian_threshold : Z;
  pol_cooldown_seconds : Z
}.

Record GuardianRecord := mkGuardianRecord {
  gua_guardian_id : string;
  gua_root_id : string;
  gua_label : string;
  gua_public_key : string
}.

Record RecoveryRequestRecord := mkRecoveryRequestRecord {
  req_request_id : string;
  req_root_id : string;
  req_target_device_id : string;
  req_approvals : gset string;
  req_contested_by : gset string;
  req_status : RecoveryRequestStatus;
  req_executed_scope : option RecoveryScope;
  req_cooldown_until : option Z;
  req_contest_reason : option string;
  req_rejection_reason : option string
}.

Record BadgeRecord := mkBadgeRecord {
  bdg_badge_id : string;
  bdg_issuer_persona_id : string;
  bdg_recipient_persona_id : string;
  bdg_badge_type : string;
  bdg_display_name : string;
  bdg_evidence : option BadgeEvidence;
  bdg_issued_at : Z;
  bdg_expires_at : option Z;
  bdg_revoked : bool;
  bdg_revoked_reason : option string
}.

Record BadgeDisputeRecord := mkBadgeDisputeRecord {
  dsp_dispute_id : string;
  dsp_target_badge_id : string;
  dsp_disputer_persona_id : string;
  dsp_reason : string;
  dsp_evidence : option string
}.

Record CredentialDepositRecord := mkCredentialDepositRecord {
  dep_deposit_id : string;
  dep_grant_id : string;
  dep_credential_id : string;
  dep_issuer_id : string;
  dep_encrypted_blocks_json : string;
  dep_status : CredentialDepositStatus;
  dep_created_at : Z;
  dep_expires_at : option Z;
  dep_revoked_at : option Z;
  dep_revoked_reason : option string
}.

Record DisclosureRecord := mkDisclosureRecord {
  dis_artifact_id : string;
  dis_issuer_persona_id : string
}.

Record GrantOfferRecord := mkGrantOfferRecord {
  off_offer_id : string;
  off_issuer_persona_id : string;
  off_ephemeral_public_key_hex : string;
  off_sealed_payload_hex : string;
  off_relay_hint : option string;
  off_expires_at : Z;
  off_conditions_json : string;
  off_status : GrantOfferStatus;
  off_recipient_persona_id : option string;
  off_claim_response_hex : option string;
  off_claimed_at : option Z
}.

Record SyncBatchRecord := mkSyncBatchRecord {
  syn_batch_id : string;
  syn_peer_id : string;
  syn_last_event_id : option string
}.

Record MaterializedState := mkState {
  roots_current : gmap string RootRecord;
  devices_current : gmap string DeviceRecord;
  personas_current : gmap string PersonaRecord;
  trust_edges_current : gmap string TrustAttestation;
  derived_trust_current : gmap string DerivedTrustStatement;
  recovery_policies_current : gmap string RecoveryPolicyRecord;
  guardians_current : gmap string GuardianRecord;
  recovery_requests_current : gmap string RecoveryRequestRecord;
  storage_relationships_current : gmap string StorageRelationship;
  storage_balances_current : gmap string StorageLedgerEntry;
  endpoints_current : gmap string EndpointDescriptor;
  grant_offers_current : gmap string GrantOfferRecord;
  badges_current : gmap string BadgeRecord;
  badge_disputes_current : gmap string BadgeDisputeRecord;
  credential_deposits_current : gmap string CredentialDepositRecord;
  disclosures_current : gmap string DisclosureRecord;
  root_key_history : gmap string (list string);
  device_key_history : gmap string (list string);
  device_encryption_key_history : gmap string (list string);
  persona_key_history : gmap string (list string);
  root_chain_heads : gmap string (string * Z)
}.

Definition empty_state : MaterializedState :=
  mkState ∅ ∅ ∅ ∅ ∅ ∅ ∅ ∅ ∅ ∅ ∅ ∅ ∅ ∅ ∅ ∅ ∅ ∅ ∅ ∅ ∅.

(** [state.f = v] *)

Definition set_roots_current (v : gmap string RootRecord) (s : MaterializedState) : MaterializedState :=
  mkState v (devices_current s) (personas_current s) (trust_edges_current s)
    (derived_trust_current s) (recovery_policies_current s) (guardians_current s)
    (recovery_requests_current s) (storage_relationships_current s) (storage_balances_current
    s) (endpoints_current s) (grant_offers_current s) (badges_current s)
    (badge_disputes_current s) (credential_deposits_current s) (disclosures_current s)
    (root_key_history s) (device_key_history s) (device_encryption_key_history s)
    (persona_key_history s) (root_chain_heads s).

Definition set_devices_current (v : gmap string DeviceRecord) (s : MaterializedState) : MaterializedState :=
  mkState (roots_current s) v (personas_current s) (trust_edges_current s)
    (derived_trust_current s) (recovery_policies_current s) (guardians_current s)
    (recovery_requests_current s) (storage_relationships_current s) (storage_balances_current
    s) (endpoints_current s) (grant_offers_current s) (badges_current s)
    (badge_disputes_current s) (credential_deposits_current s) (disclosures_current s)
    (root_key_history s) (device_key_history s) (device_encryption_key_history s)
    (persona_key_history s) (root_chain_heads s).

Definition set_personas_current (v : gmap string PersonaRecord) (s : MaterializedState) : MaterializedState :=
  mkState (roots_current s) (devices_current s) v (trust_edges_current s)
    (derived_trust_current s) (recovery_policies_current s) (guardians_current s)
    (recovery_requests_current s) (storage_relationships_current s) (storage_balances_current
    s) (endpoints_current s) (grant_offers_current s) (badges_current s)
    (badge_disputes_current s) (credential_deposits_current s) (disclosures_current s)
    (root_key_history s) (device_key_history s) (device_encryption_key_history s)
    (persona_key_history s) (root_chain_heads s).

Definition set_trust_edges_current (v : gmap string TrustAttestation) (s : MaterializedState) : MaterializedState :=
  mkState (roots_current s) (devices_current s) (personas_current s) v (derived_trust_current
    s) (recovery_policies_current s) (guardians_current s) (recovery_requests_current s)
    (storage_relationships_current s) (storage_balances_current s) (endpoints_current s)
    (grant_offers_current s) (badges_current s) (badge_disputes_current s)
    (credential_deposits_current s) (disclosures_current s) (root_key_history s)
    (device_key_history s) (device_encryption_key_history s) (persona_key_history s)
    (root_chain_heads s).

Definition set_derived_trust_current (v : gmap string DerivedTrustStatement) (s : MaterializedState) : MaterializedState :=
  mkState (roots_current s) (devices_current s) (personas_current s) (trust_edges_current s) v
    (recovery_policies_current s) (guardians_current s) (recovery_requests_current s)
    (storage_relationships_current s) (storage_balances_current s) (endpoints_current s)
    (grant_offers_current s) (badges_current s) (badge_disputes_current s)
    (credential_deposits_current s) (disclosures_current s) (root_key_history s)
    (device_key_history s) (device_encryption_key_history s) (persona_key_history s)
    (root_chain_heads s).

Definition set_recovery_policies_current (v : gmap string RecoveryPolicyRecord) (s : MaterializedState) : MaterializedState :=
  mkState (roots_current s) (devices_current s) (personas_current s) (trust_edges_current s)
    (derived_trust_current s) v (guardians_current s) (recovery_requests_current s)
    (storage_relationships_current s) (storage_balances_current s) (endpoints_current s)
    (grant_offers_current s) (badges_current s) (badge_disputes_current s)
    (credential_deposits_current s) (disclosures_current s) (root_key_history s)
    (device_key_history s) (device_encryption_key_history s) (persona_key_history s)
    (root_chain_heads s).

Definition set_guardians_current (v : gmap string GuardianRecord) (s : MaterializedState) : MaterializedState :=
  mkState (roots_current s) (devices_current s) (personas_current s) (trust_edges_current s)
    (derived_trust_current s) (recovery_policies_current s) v (recovery_requests_current s)
    (storage_relationships_current s) (storage_balances_current s) (endpoints_current s)
    (grant_offers_current s) (badges_current s) (badge_disputes_current s)
    (credential_deposits_current s) (disclosures_current s) (root_key_history s)
    (device_key_history s) (device_encryption_key_history s) (persona_key_history s)
    (root_chain_heads s).

Definition set_recovery_requests_current (v : gmap string RecoveryRequestRecord) (s : MaterializedState) : MaterializedState :=
  mkState (roots_current s) (devices_current s) (personas_current s) (trust_edges_current s)
    (derived_trust_current s) (recovery_policies_current s) (guardians_current s) v
    (storage_relationships_current s) (storage_balances_current s) (endpoints_current s)
    (grant_offers_current s) (badges_current s) (badge_disputes_current s)
    (credential_deposits_current s) (disclosures_current s) (root_key_history s)
    (device_key_history s) (device_encryption_key_history s) (persona_key_history s)
    (root_chain_heads s).

Definition set_storage_relationships_current (v : gmap string StorageRelationship) (s : MaterializedState) : MaterializedState :=
  mkState (roots_current s) (devices_current s) (personas_current s) (trust_edges_current s)
    (derived_trust_current s) (recovery_policies_current s) (guardians_current s)
    (recovery_requests_current s) v (storage_balances_current s) (endpoints_current s)
    (grant_offers_current s) (badges_current s) (badge_disputes_current s)
    (credential_deposits_current s) (disclosures_current s) (root_key_history s)
    (device_key_history s) (device_encryption_key_history s) (persona_key_history s)
    (root_chain_heads s).

Definition set_storage_balances_current (v : gmap string StorageLedgerEntry) (s : MaterializedState) : MaterializedState :=
  mkState (roots_current s) (devices_current s) (personas_current s) (trust_edges_current s)
    (derived_trust_current s) (recovery_policies_current s) (guardians_current s)
    (recovery_requests_current s) (storage_relationships_current s) v (endpoints_current s)
    (grant_offers_current s) (badges_current s) (badge_disputes_current s)
    (credential_deposits_current s) (disclosures_current s) (root_key_history s)
    (device_key_history s) (device_encryption_key_history s) (persona_key_history s)
    (root_chain_heads s).

Definition set_endpoints_current (v : gmap string EndpointDescriptor) (s : MaterializedState) : MaterializedState :=
  mkState (roots_current s) (devices_current s) (personas_current s) (trust_edges_current s)
    (derived_trust_current s) (recovery_policies_current s) (guardians_current s)
    (recovery_requests_current s) (storage_relationships_current s) (storage_balances_current
    s) v (grant_offers_current s) (badges_current s) (badge_disputes_current s)
    (credential_deposits_current s) (disclosures_current s) (root_key_history s)
    (device_key_history s) (device_encryption_key_history s) (persona_key_history s)
    (root_chain_heads s).

Definition set_grant_offers_current (v : gmap string GrantOfferRecord) (s : MaterializedState) : MaterializedState :=
  mkState (roots_current s) (devices_current s) (personas_current s) (trust_edges_current s)
    (derived_trust_current s) (recovery_policies_current s) (guardians_current s)
    (recovery_requests_current s) (storage_relationships_current s) (storage_balances_current
    s) (endpoints_current s) v (badges_current s) (badge_disputes_current s)
    (credential_deposits_current s) (disclosures_current s) (root_key_history s)
    (device_key_history s) (device_encryption_key_history s) (persona_key_history s)
    (root_chain_heads s).

Definition set_badges_current (v : gmap string BadgeRecord) (s : MaterializedState) : MaterializedState :=
  mkState (roots_current s) (devices_current s) (personas_current s) (trust_edges_current s)
    (derived_trust_current s) (recovery_policies_current s) (guardians_current s)
    (recovery_requests_current s) (storage_relationships_current s) (storage_balances_current
    s) (endpoints_current s) (grant_offers_current s) v (badge_disputes_current s)
    (credential_deposits_current s) (disclosures_current s) (root_key_history s)
    (device_key_history s) (device_encryption_key_history s) (persona_key_history s)
    (root_chain_heads s).

Definition set_badge_disputes_current (v : gmap string BadgeDisputeRecord) (s : MaterializedState) : MaterializedState :=
  mkState (roots_current s) (devices_current s) (personas_current s) (trust_edges_current s)
    (derived_trust_current s) (recovery_policies_current s) (guardians_current s)
    (recovery_requests_current s) (storage_relationships_current s) (storage_balances_current
    s) (endpoints_current s) (grant_offers_current s) (badges_current s) v
    (credential_deposits_current s) (disclosures_current s) (root_key_history s)
    (device_key_history s) (device_encryption_key_history s) (persona_key_history s)
    (root_chain_heads s).

Definition set_credential_deposits_current (v : gmap string CredentialDepositRecord) (s : MaterializedState) : MaterializedState :=
  mkState (roots_current s) (devices_current s) (personas_current s) (trust_edges_current s)
    (derived_trust_current s) (recovery_policies_current s) (guardians_current s)
    (recovery_requests_current s) (storage_relationships_current s) (storage_balances_current
    s) (endpoints_current s) (grant_offers_current s) (badges_current s)
    (badge_disputes_current s) v (disclosures_current s) (root_key_history s)
    (device_key_history s) (device_encryption_key_history s) (persona_key_history s)
    (root_chain_heads s).

Definition set_disclosures_current (v : gmap string DisclosureRecord) (s : MaterializedState) : MaterializedState :=
  mkState (roots_current s) (devices_current s) (personas_current s) (trust_edges_current s)
    (derived_trust_current s) (recovery_policies_current s) (guardians_current s)
    (recovery_requests_current s) (storage_relationships_current s) (storage_balances_current
    s) (endpoints_current s) (grant_offers_current s) (badges_current s)
    (badge_disputes_current s) (credential_deposits_current s) v (root_key_history s)
    (device_key_history s) (device_encryption_key_history s) (persona_key_history s)
    (root_chain_heads s).

Definition set_root_key_history (v : gmap string (list string)) (s : MaterializedState) : MaterializedState :=
  mkState (roots_current s) (devices_current s) (personas_current s) (trust_edges_current s)
    (derived_trust_current s) (recovery_policies_current s) (guardians_current s)
    (recovery_requests_current s) (storage_relationships_current s) (storage_balances_current
    s) (endpoints_current s) (grant_offers_current s) (badges_current s)
    (badge_disputes_current s) (credential_deposits_current s) (disclosures_current s) v
    (device_key_history s) (device_encryption_key_history s) (persona_key_history s)
    (root_chain_heads s).

Definition set_device_key_history (v : gmap string (list string)) (s : MaterializedState) : MaterializedState :=
  mkState (roots_current s) (devices_current s) (personas_current s) (trust_edges_current s)
    (derived_trust_current s) (recovery_policies_current s) (guardians_current s)
    (recovery_requests_current s) (storage_relationships_current s) (storage_balances_current
    s) (endpoints_current s) (grant_offers_current s) (badges_current s)
    (badge_disputes_current s) (credential_deposits_current s) (disclosures_current s)
    (root_key_history s) v (device_encryption_key_history s) (persona_key_history s)
    (root_chain_heads s).

Definition set_device_encryption_key_history (v : gmap string (list string)) (s : MaterializedState) : MaterializedState :=
  mkState (roots_current s) (devices_current s) (personas_current s) (trust_edges_current s)
    (derived_trust_current s) (recovery_policies_current s) (guardians_current s)
    (recovery_requests_current s) (storage_relationships_current s) (storage_balances_current
    s) (endpoints_current s) (grant_offers_current s) (badges_current s)
    (badge_disputes_current s) (credential_deposits_current s) (disclosures_current s)
    (root_key_history s) (device_key_history s) v (persona_key_history s) (root_chain_heads
    s).

Definition set_persona_key_history (v : gmap string (list string)) (s : MaterializedState) : MaterializedState :=
  mkState (roots_current s) (devices_current s) (personas_current s) (trust_edges_current s)
    (derived_trust_current s) (recovery_policies_current s) (guardians_current s)
    (recovery_requests_current s) (storage_relationships_current s) (storage_balances_current
    s) (endpoints_current s) (grant_offers_current s) (badges_current s)
    (badge_disputes_current s) (credential_deposits_current s) (disclosures_current s)
    (root_key_history s) (device_key_history s) (device_encryption_key_history s) v
    (root_chain_heads s).

Definition set_root_chain_heads (v : gmap string (string * Z)) (s : MaterializedState) : MaterializedState :=
  mkState (roots_current s) (devices_current s) (personas_current s) (trust_edges_current s)
    (derived_trust_current s) (recovery_policies_current s) (guardians_current s)
    (recovery_requests_current s) (storage_relationships_current s) (storage_balances_current
    s) (endpoints_current s) (grant_offers_current s) (badges_current s)
    (badge_disputes_current s) (credential_deposits_current s) (disclosures_current s)
    (root_key_history s) (device_key_history s) (device_encryption_key_history s)
    (persona_key_history s) v.
