(* ===== verification/Materialize.v ===== *)
(** * Materialization

    crates/core-eventlog/src/materialize.rs: the per-root chain check ([check_chain],
    [advance_chain_head]), the transition of the materialized state for each of the forty
    event bodies ([apply_event]) and for storage manifests ([apply_storage_event]). Every
    arm tests before it writes, so an error leaves the state as it was and the model
    returns the new state on success only. *)

From stdpp Require Import base gmap sets list strings.
From Stdlib Require Import Ascii Lia ZArith SpecFloat.
From S2P Require Import Prelude CoreTypes EventTypes EventCodec Envelope Trust LogTypes.

Local Infix "+:+" := String.append (at level 60, right associativity).

(** Release builds wrap on overflow. *)
Definition u64_add (a b : Z) : Z := (a + b) mod 2 ^ 64.

(** ** The chain of a root *)

Definition previous_ref (e : EventEnvelope) : option EventRef :=
  List.find (λ r, bool_decide (ref_relation r = Rel_Previous)) (ev_refs e).

Definition check_chain (state : MaterializedState) (e : EventEnvelope) : verdict :=
  match EventBody_root_id (ev_body e) with
  | None => Ok tt
  | Some root_id =>
      match previous_ref e, root_chain_heads state !! root_id with
      | None, None => Ok tt
      | None, Some (head_event_id, head_seq) =>
          Err (VE.state_violation
                 ("out-of-order event: missing Previous ref for root " +:+ root_id
                  +:+ "; expected prev_event_id=" +:+ head_event_id
                  +:+ " seq=" +:+ u64_to_string (u64_add head_seq 1)))
      | Some r, None =>
          Err (VE.state_violation
                 ("out-of-order event: Previous ref points to " +:+ ref_target_event_id r
                  +:+ " but root " +:+ root_id +:+ " has no chain head"))
      | Some r, Some (head_event_id, head_seq) =>
          let expected_seq := u64_add head_seq 1 in
          if negb (bool_decide (ref_target_event_id r = head_event_id))
             || negb (ref_seq r =? expected_seq)%Z
          then Err (VE.state_violation
                      ("out-of-order event: expected prev_event_id=" +:+ head_event_id
                       +:+ " seq=" +:+ u64_to_string expected_seq
                       +:+ ", got prev_event_id=" +:+ ref_target_event_id r
                       +:+ " seq=" +:+ u64_to_string (ref_seq r)))
          else Ok tt
      end
  end.

Definition advance_chain_head (state : MaterializedState) (e : EventEnvelope) : MaterializedState :=
  match EventBody_root_id (ev_body e) with
  | None => state
  | Some root_id =>
      let seq := match previous_ref e with Some r => ref_seq r | None => 0%Z end in
      set_root_chain_heads (<[root_id := (ev_event_id e, seq)]> (root_chain_heads state)) state
  end.

(** ** Grant conditions in offers

    [serde_json::Value], with parsing and typed decoding as an interface. *)

Inductive Json :=
| JNull
| JBool (b : bool)
| JNumber (n : string)
| JString (s : string)
| JArray (arr : list Json)
| JObject (map : list (string * Json)).

Definition list_max (l : list Z) : Z := foldr Z.max 0%Z l.

Fixpoint json_max_depth (v : Json) : Z :=
  match v with
  | JArray arr => list_max (List.map (λ x, 1 + json_max_depth x)%Z arr)
  | JObject m => list_max (List.map (λ kv, 1 + json_max_depth kv.2)%Z m)
  | _ => 0
  end.

Inductive GrantCondition :=
| BadgeGate (badge_type : string) (min_convergence : option spec_float)
    (max_distance : option Z) (min_authority : option spec_float)
| All (subs : list GrantCondition)
| AnyOf (subs : list GrantCondition).

Definition MAX_CONDITION_DEPTH : Z := 10.

(** [Err depth] is [ConditionsTooDeep { depth }]. *)
Fixpoint check_depth_inner (c : GrantCondition) (depth : Z) : result unit Z :=
  if (MAX_CONDITION_DEPTH <? depth)%Z then Err depth
  else match c with
       | BadgeGate _ _ _ _ => Ok tt
       | All subs | AnyOf subs =>
           (fix loop (l : list GrantCondition) : result unit Z :=
              match l with
              | [] => Ok tt
              | sub :: rest => check_depth_inner sub (depth + 1) ;? loop rest
              end) subs
       end.

Definition validate_depth (c : GrantCondition) : result unit Z := check_depth_inner c 0.

Definition condition_error_display (depth : Z) : string :=
  "grant condition tree exceeds maximum nesting depth of " +:+ u64_to_string MAX_CONDITION_DEPTH
  +:+ " (reached depth " +:+ u64_to_string depth +:+ ")".

Class JsonOps := {
  json_from_str : string → result Json string;
  conditions_from_value : Json → result (list GrantCondition) string
}.

Definition check_conditions {J : JsonOps} (conditions_json : string) : verdict :=
  if str_is_empty conditions_json then Ok tt
  else
    let invalid e := VE.invalid_format ("grant offer conditions_json is not valid JSON: " +:+ e) in
    let? raw_value := map_err invalid (json_from_str conditions_json) in
    let depth := json_max_depth raw_value in
    (if (MAX_CONDITION_DEPTH <? depth)%Z
     then Err (VE.invalid_format
                 ("grant offer conditions_json rejected: JSON nesting depth " +:+ u64_to_string depth
                  +:+ " exceeds maximum of " +:+ u64_to_string MAX_CONDITION_DEPTH))
     else Ok tt) ;?
    let? conditions := map_err invalid (conditions_from_value raw_value) in
    try_for_each
      (λ c, map_err (λ d, VE.invalid_format ("grant offer conditions_json rejected: "
                                             +:+ condition_error_display d))
              (validate_depth c)) conditions.

(** ** Helpers of the arms *)

Definition push_key_history (history : gmap string (list string)) (entity_id key_id : string)
  : gmap string (list string) :=
  let entries := default [] (history !! entity_id) in
  <[entity_id := if bool_decide (key_id ∈ entries) then entries else entries ++ [key_id]]> history.

Definition recompute_derived_trust (state : MaterializedState) : MaterializedState :=
  set_derived_trust_current
    (foldl (λ m st, <[dts_id st := st]> m) ∅
       (derive_public_statements (btree_values (trust_edges_current state)))) state.

Definition with_root_key (r : RootRecord) (k : PublicKeyMaterial) : RootRecord :=
  mkRootRecord (root_root_id r) (root_display_name r) k (root_status r).
Definition with_root_status (r : RootRecord) (st : RootStatus) : RootRecord :=
  mkRootRecord (root_root_id r) (root_display_name r) (root_active_key r) st.

Definition with_device (d : DeviceRecord) (key enc : PublicKeyMaterial) (st : DeviceStatus)
  (replacement : option string) : DeviceRecord :=
  mkDeviceRecord (dev_root_id d) (dev_device_id d) (dev_label d) key enc st replacement
    (dev_custody_class d) (dev_attestation_statement d) (dev_attestation_tier d)
    (dev_presence_factor d).
Definition with_device_status (d : DeviceRecord) (st : DeviceStatus) : DeviceRecord :=
  with_device d (dev_active_key d) (dev_active_encryption_key d) st (dev_replacement_device_id d).

Definition with_persona_key (p : PersonaRecord) (k : PublicKeyMaterial) : PersonaRecord :=
  mkPersonaRecord (per_root_id p) (per_persona_id p) (per_label p) (per_disclosure_profile p)
    (per_survival_mode p) k (per_status p).
Definition with_persona_status (p : PersonaRecord) (st : PersonaStatus) : PersonaRecord :=
  mkPersonaRecord (per_root_id p) (per_persona_id p) (per_label p) (per_disclosure_profile p)
    (per_survival_mode p) (per_active_key p) st.

Abbreviation step_result := (result MaterializedState ValidationError).

(** ** The arms of [apply_event] *)

Definition apply_root_created (s : MaterializedState) (body : RootCreatedEvent) : step_result :=
  if bool_decide (is_Some (roots_current s !! rc_root_id body))
  then Err (VE.new ("root already exists: " +:+ rc_root_id body))
  else
    let s1 := set_roots_current
                (<[rc_root_id body := mkRootRecord (rc_root_id body) (rc_display_name body)
                                        (rc_initial_key body) Root_Active]> (roots_current s)) s in
    Ok (set_root_key_history (push_key_history (root_key_history s1) (rc_root_id body)
                                (pk_key_id (rc_initial_key body))) s1).

Definition apply_root_key_rotated (s : MaterializedState) (body : RootKeyRotatedEvent) : step_result :=
  let? root := ok_or (roots_current s !! rkr_root_id body)
                 (VE.new ("unknown root: " +:+ rkr_root_id body)) in
  if negb (bool_decide (pk_key_id (root_active_key root) = rkr_previous_key_id body))
  then Err (VE.new "root rotation previous key does not match current state")
  else
    let s1 := set_roots_current
                (<[rkr_root_id body := with_root_key root (rkr_new_key body)]> (roots_current s)) s in
    Ok (set_root_key_history (push_key_history (root_key_history s1) (rkr_root_id body)
                                (pk_key_id (rkr_new_key body))) s1).

Definition apply_root_revoked (s : MaterializedState) (body : RootRevokedEvent) : step_result :=
  let? root := ok_or (roots_current s !! rr_root_id body)
                 (VE.new ("unknown root: " +:+ rr_root_id body)) in
  Ok (set_roots_current (<[rr_root_id body := with_root_status root Root_Revoked]> (roots_current s)) s).

(** The insertion that [DeviceAdded] and [DeviceEnrolled] end with. *)
Definition insert_device (s : MaterializedState) (d : DeviceRecord) : MaterializedState :=
  let s1 := set_devices_current (<[dev_device_id d := d]> (devices_current s)) s in
  let s2 := set_device_key_history
              (push_key_history (device_key_history s1) (dev_device_id d)
                 (pk_key_id (dev_active_key d))) s1 in
  set_device_encryption_key_history
    (push_key_history (device_encryption_key_history s2) (dev_device_id d)
       (pk_key_id (dev_active_encryption_key d))) s2.

Definition apply_device_added (s : MaterializedState) (body : DeviceAddedEvent) : step_result :=
  if negb (bool_decide (is_Some (roots_current s !! da_root_id body)))
  then Err (VE.new ("device references unknown root: " +:+ da_root_id body))
  else if bool_decide (is_Some (devices_current s !! da_device_id body))
  then Err (VE.new ("device already exists: " +:+ da_device_id body))
  else Ok (insert_device s
             (mkDeviceRecord (da_root_id body) (da_device_id body) (da_label body)
                (da_initial_key body) (da_initial_encryption_key body) Dev_Active None
                CC_Daemon None AT_None PF_Unattended)).

Definition apply_device_enrolled (s : MaterializedState) (body : DeviceEnrolledEvent) : step_result :=
  if negb (bool_decide (is_Some (roots_current s !! de_root_id body)))
  then Err (VE.new ("device references unknown root: " +:+ de_root_id body))
  else if bool_decide (is_Some (devices_current s !! de_device_id body))
  then Err (VE.new ("device already exists: " +:+ de_device_id body))
  else
    let statement_required := AttestationTier_requires_statement (de_attestation_tier body)
                              || bool_decide (de_custody_class body = CC_CoAuthority) in
    if statement_required && str_is_empty (default "" (str_trim <$> de_attestation_statement body))
    then Err (VE.new ("custody class " +:+ CustodyClass_as_str (de_custody_class body)
                      +:+ " at attestation tier " +:+ AttestationTier_as_str (de_attestation_tier body)
                      +:+ " requires a recorded attestation statement"))
    else Ok (insert_device s
               (mkDeviceRecord (de_root_id body) (de_device_id body) (de_label body)
                  (de_device_key body) (de_encryption_key body) Dev_Active None
                  (de_custody_class body) (de_attestation_statement body)
                  (de_attestation_tier body) (de_presence_factor body))).

Definition get_device (s : MaterializedState) (device_id : string) : result DeviceRecord ValidationError :=
  ok_or (devices_current s !! device_id) (VE.new ("unknown device: " +:+ device_id)).

Definition put_device (s : MaterializedState) (device_id : string) (d : DeviceRecord)
  : MaterializedState := set_devices_current (<[device_id := d]> (devices_current s)) s.

Definition apply_device_key_rotated (s : MaterializedState) (body : DeviceKeyRotatedEvent)
  : step_result :=
  let? d := get_device s (dkr_device_id body) in
  if negb (bool_decide (pk_key_id (dev_active_key d) = dkr_previous_key_id body))
  then Err (VE.new "device rotation previous key does not match current state")
  else
    let s1 := put_device s (dkr_device_id body)
                (with_device d (dkr_new_key body) (dev_active_encryption_key d) (dev_status d)
                   (dev_replacement_device_id d)) in
    Ok (set_device_key_history
          (push_key_history (device_key_history s1) (dkr_device_id body)
             (pk_key_id (dkr_new_key body))) s1).

Definition apply_device_encryption_key_rotated (s : MaterializedState)
  (body : DeviceEncryptionKeyRotatedEvent) : step_result :=
  let? d := get_device s (dekr_device_id body) in
  if negb (bool_decide (pk_key_id (dev_active_encryption_key d) = dekr_previous_encryption_key_id body))
  then Err (VE.new "device encryption rotation previous key does not match current state")
  else
    let s1 := put_device s (dekr_device_id body)
                (with_device d (dev_active_key d) (dekr_new_encryption_key body) (dev_status d)
                   (dev_replacement_device_id d)) in
    Ok (set_device_encryption_key_history
          (push_key_history (device_encryption_key_history s1) (dekr_device_id body)
             (pk_key_id (dekr_new_encryption_key body))) s1).

Definition apply_device_revoked (s : MaterializedState) (body : DeviceRevokedEvent) : step_result :=
  let? d := get_device s (drv_device_id body) in
  Ok (put_device s (drv_device_id body) (with_device_status d Dev_Revoked)).

Definition apply_device_frozen (s : MaterializedState) (body : DeviceFrozenEvent) : step_result :=
  let? d := get_device s (df_device_id body) in
  Ok (put_device s (df_device_id body) (with_device_status d Dev_Frozen)).

Definition apply_device_replaced (s : MaterializedState) (body : DeviceReplacedEvent) : step_result :=
  let? replacement :=
    ok_or (devices_current s !! drp_replacement_device_id body)
      (VE.new ("replacement device does not exist: " +:+ drp_replacement_device_id body)) in
  (if negb (bool_decide (dev_root_id replacement = drp_root_id body))
   then Err (VE.new ("replacement device " +:+ drp_replacement_device_id body
                     +:+ " does not belong to root " +:+ drp_root_id body)) else Ok tt) ;?
  let? replaced :=
    ok_or (devices_current s !! drp_replaced_device_id body)
      (VE.new ("unknown replaced device: " +:+ drp_replaced_device_id body)) in
  (if negb (bool_decide (dev_root_id replaced = drp_root_id body))
   then Err (VE.new ("replaced device " +:+ drp_replaced_device_id body
                     +:+ " does not belong to root " +:+ drp_root_id body)) else Ok tt) ;?
  Ok (put_device s (drp_replaced_device_id body)
        (with_device replaced (dev_active_key replaced) (dev_active_encryption_key replaced)
           Dev_Replaced (Some (drp_replacement_device_id body)))).

Definition apply_persona_created (s : MaterializedState) (body : PersonaCreatedEvent) : step_result :=
  if negb (bool_decide (is_Some (roots_current s !! pc_root_id body)))
  then Err (VE.new ("persona references unknown root: " +:+ pc_root_id body))
  else if bool_decide (is_Some (personas_current s !! pc_persona_id body))
  then Err (VE.new ("persona already exists: " +:+ pc_persona_id body))
  else
    let s1 := set_personas_current
                (<[pc_persona_id body :=
                     mkPersonaRecord (pc_root_id body) (pc_persona_id body) (pc_label body)
                       (pc_disclosure_profile body) (pc_survival_mode body) (pc_initial_key body)
                       Per_Active]> (personas_current s)) s in
    Ok (set_persona_key_history
          (push_key_history (persona_key_history s1) (pc_persona_id body)
             (pk_key_id (pc_initial_key body))) s1).

Definition get_persona (s : MaterializedState) (persona_id : string)
  : result PersonaRecord ValidationError :=
  ok_or (personas_current s !! persona_id) (VE.new ("unknown persona: " +:+ persona_id)).

Definition apply_persona_key_rotated (s : MaterializedState) (body : PersonaKeyRotatedEvent)
  : step_result :=
  let? p := get_persona s (pkr_persona_id body) in
  if negb (bool_decide (pk_key_id (per_active_key p) = pkr_previous_key_id body))
  then Err (VE.new "persona rotation previous key does not match current state")
  else
    let s1 := set_personas_current
                (<[pkr_persona_id body := with_persona_key p (pkr_new_key body)]>
                   (personas_current s)) s in
    Ok (set_persona_key_history
          (push_key_history (persona_key_history s1) (pkr_persona_id body)
             (pk_key_id (pkr_new_key body))) s1).

Definition apply_persona_revoked (s : MaterializedState) (body : PersonaRevokedEvent) : step_result :=
  let? p := get_persona s (prv_persona_id body) in
  Ok (set_personas_current
        (<[prv_persona_id body := with_persona_status p Per_Revoked]> (personas_current s)) s).

Definition apply_trust_attested (s : MaterializedState) (body : TrustAttestedEvent) : step_result :=
  if negb (bool_decide (is_Some (personas_current s !! ta_attester_persona_id body)))
  then Err (VE.new ("unknown attester persona: " +:+ ta_attester_persona_id body))
  else if negb (bool_decide (is_Some (personas_current s !! ta_subject_persona_id body)))
  then Err (VE.new ("unknown trust subject persona: " +:+ ta_subject_persona_id body))
  else Ok (recompute_derived_trust
             (set_trust_edges_current
                (<[ta_attestation_id body :=
                     mkTrustAttestation (ta_attestation_id body) (ta_attester_persona_id body)
                       (ta_subject_persona_id body) (ta_domain body) (ta_score body)
                       (ta_recipient_bound body)]> (trust_edges_current s)) s)).

Definition apply_trust_revoked (s : MaterializedState) (body : TrustRevokedEvent) : step_result :=
  let mismatch := match trust_edges_current s !! tr_attestation_id body with
                  | Some existing => negb (bool_decide (tru_attester existing = tr_attester_persona_id body))
                  | None => false
                  end in
  if mismatch then Err (VE.new "trust revocation signer does not match original attester")
  else Ok (recompute_derived_trust
             (set_trust_edges_current (delete (tr_attestation_id body) (trust_edges_current s)) s)).

Definition apply_recovery_policy_created (s : MaterializedState) (body : RecoveryPolicyCreatedEvent)
  : step_result :=
  Ok (set_recovery_policies_current
        (<[rpc_root_id body := mkRecoveryPolicyRecord (rpc_root_id body) (rpc_guardian_threshold body)
                                 (rpc_cooldown_seconds body)]> (recovery_policies_current s)) s).

Definition apply_guardian_enrolled (s : MaterializedState) (body : GuardianEnrolledEvent)
  : step_result :=
  Ok (set_guardians_current
        (<[ge_guardian_id body := mkGuardianRecord (ge_guardian_id body) (ge_root_id body)
                                    (ge_guardian_label body) (ge_guardian_public_key body)]>
           (guardians_current s)) s).

Definition apply_guardian_key_rotated (s : MaterializedState) (body : GuardianKeyRotatedEvent)
  : step_result :=
  let? g := ok_or (guardians_current s !! gkr_guardian_id body)
              (VE.new ("unknown guardian: " +:+ gkr_guardian_id body)) in
  if negb (bool_decide (gua_public_key g = gkr_previous_key_id body))
  then Err (VE.new "guardian rotation previous key does not match current state")
  else Ok (set_guardians_current
             (<[gkr_guardian_id body := mkGuardianRecord (gua_guardian_id g) (gua_root_id g)
                                          (gua_label g) (gkr_new_guardian_public_key body)]>
                (guardians_current s)) s).

Definition apply_recovery_requested (s : MaterializedState) (body : RecoveryRequestedEvent)
  : step_result :=
  if bool_decide (is_Some (recovery_requests_current s !! rrq_request_id body))
  then Err (VE.new ("recovery request already exists: " +:+ rrq_request_id body))
  else if negb (bool_decide (is_Some (devices_current s !! rrq_target_device_id body)))
  then Err (VE.new ("recovery target device does not exist: " +:+ rrq_target_device_id body))
  else Ok (set_recovery_requests_current
             (<[rrq_request_id body :=
                  mkRecoveryRequestRecord (rrq_request_id body) (rrq_root_id body)
                    (rrq_target_device_id body) ∅ ∅ Req_Requested None None None None]>
                (recovery_requests_current s)) s).

Definition get_request (s : MaterializedState) (request_id : string)
  : result RecoveryRequestRecord ValidationError :=
  ok_or (recovery_requests_current s !! request_id)
    (VE.new ("unknown recovery request: " +:+ request_id)).

Definition put_request (s : MaterializedState) (request_id : string) (r : RecoveryRequestRecord)
  : MaterializedState :=
  set_recovery_requests_current (<[request_id := r]> (recovery_requests_current s)) s.

Definition approval_threshold (s : MaterializedState) (root : string) : Z :=
  match recovery_policies_current s !! root with
  | Some policy => pol_guardian_threshold policy
  | None => 1
  end.

Definition apply_recovery_approved (s : MaterializedState) (body : RecoveryApprovedEvent)
  : step_result :=
  let? r := get_request s (rap_request_id body) in
  (match req_status r with
   | Req_Contested | Req_Rejected | Req_Executed =>
       Err (VE.new "cannot approve a contested, rejected, or executed recovery request")
   | _ => Ok tt
   end) ;?
  let approvals := {[rap_guardian_id body]} ∪ req_approvals r in
  let status := if (approval_threshold s (req_root_id r) <=? Z.of_nat (size approvals))%Z
                then Req_Approved else req_status r in
  Ok (put_request s (rap_request_id body)
        (mkRecoveryRequestRecord (req_request_id r) (req_root_id r) (req_target_device_id r)
           approvals (req_contested_by r) status (req_executed_scope r) (req_cooldown_until r)
           (req_contest_reason r) (req_rejection_reason r))).

Definition apply_recovery_contested (s : MaterializedState) (body : RecoveryContestedEvent)
  : step_result :=
  let? r := get_request s (rct_request_id body) in
  (match req_status r with
   | Req_Rejected | Req_Executed =>
       Err (VE.new "cannot contest a rejected or executed recovery request")
   | _ => Ok tt
   end) ;?
  let cooldown_secs := match recovery_policies_current s !! req_root_id r with
                       | Some p => pol_cooldown_seconds p
                       | None => 0%Z
                       end in
  let cooldown_until := if (0 <? cooldown_secs)%Z
                        then Some (u64_add (rct_contested_at_epoch body) cooldown_secs) else None in
  Ok (put_request s (rct_request_id body)
        (mkRecoveryRequestRecord (req_request_id r) (req_root_id r) (req_target_device_id r)
           (req_approvals r) ({[rct_guardian_id body]} ∪ req_contested_by r) Req_Contested
           (req_executed_scope r) cooldown_until (Some (rct_reason body))
           (req_rejection_reason r))).

Definition apply_recovery_rejected (s : MaterializedState) (body : RecoveryRejectedEvent)
  : step_result :=
  let? r := get_request s (rrj_request_id body) in
  if bool_decide (req_status r = Req_Executed)
  then Err (VE.new "cannot reject an executed recovery request")
  else Ok (put_request s (rrj_request_id body)
             (mkRecoveryRequestRecord (req_request_id r) (req_root_id r) (req_target_device_id r)
                (req_approvals r) (req_contested_by r) Req_Rejected (req_executed_scope r) None
                (req_contest_reason r) (Some (rrj_reason body)))).

Definition apply_recovery_executed (s : MaterializedState) (body : RecoveryExecutedEvent)
  : step_result :=
  let? r := get_request s (rex_request_id body) in
  (if bool_decide (is_Some (req_cooldown_until r))
   then Err (VE.new "recovery request is in cooldown after contest") else Ok tt) ;?
  (if negb (bool_decide (req_status r = Req_Approved))
   then Err (VE.new "recovery request must be approved before execution") else Ok tt) ;?
  Ok (put_request s (rex_request_id body)
        (mkRecoveryRequestRecord (req_request_id r) (req_root_id r) (req_target_device_id r)
           (req_approvals r) (req_contested_by r) Req_Executed (Some (rex_executed_scope body))
           (req_cooldown_until r) (req_contest_reason r) (req_rejection_reason r))).

Definition apply_relay_hint_updated (s : MaterializedState) (body : RelayHintUpdatedEvent)
  : step_result :=
  let? device := get_device s (rhu_device_id body) in
  (if negb (bool_decide (dev_status device = Dev_Active))
   then Err (VE.new "only active devices may advertise endpoint hints") else Ok tt) ;?
  (match endpoints_current s !! rhu_peer_id body with
   | Some existing =>
       if negb (bool_decide (ep_device_id existing = rhu_device_id body))
       then let? existing_device :=
              ok_or (devices_current s !! ep_device_id existing)
                (VE.new ("unknown existing endpoint device: " +:+ ep_device_id existing)) in
            if negb (bool_decide (dev_root_id existing_device = dev_root_id device))
            then Err (VE.new "endpoint peer id is already claimed by a different root") else Ok tt
       else Ok tt
   | None => Ok tt
   end) ;?
  Ok (set_endpoints_current
        (<[rhu_peer_id body := mkEndpointDescriptor (rhu_peer_id body) (rhu_device_id body)
                                 (rhu_transport_hint body)]> (endpoints_current s)) s).

Definition apply_endpoint_rotated (s : MaterializedState) (body : EndpointRotatedEvent)
  : step_result :=
  let? device := get_device s (er_device_id body) in
  (if negb (bool_decide (dev_status device = Dev_Active))
   then Err (VE.new "only active devices may rotate endpoint hints") else Ok tt) ;?
  let? endpoint := ok_or (endpoints_current s !! er_peer_id body)
                     (VE.new ("unknown endpoint: " +:+ er_peer_id body)) in
  (if negb (bool_decide (ep_device_id endpoint = er_device_id body))
   then Err (VE.new "endpoint rotation device does not own current endpoint descriptor")
   else Ok tt) ;?
  (if negb (bool_decide (ep_transport_hint endpoint = er_previous_transport_hint body))
   then Err (VE.new "endpoint rotation previous transport hint does not match current state")
   else Ok tt) ;?
  Ok (set_endpoints_current
        (<[er_peer_id body := mkEndpointDescriptor (ep_peer_id endpoint) (ep_device_id endpoint)
                                (er_new_transport_hint body)]> (endpoints_current s)) s).

Definition known_root (s : MaterializedState) (what root : string) : verdict :=
  if negb (bool_decide (is_Some (roots_current s !! root)))
  then Err (VE.new ("unknown root for " +:+ what +:+ ": " +:+ root)) else Ok tt.

Definition apply_storage_relationship_created (s : MaterializedState)
  (body : StorageRelationshipCreatedEvent) : step_result :=
  known_root s "storage relationship" (src_root_id body) ;?
  Ok (set_storage_relationships_current
        (<[sr_id (src_relationship body) := src_relationship body]>
           (storage_relationships_current s)) s).

Definition apply_storage_ledger_updated (s : MaterializedState) (body : StorageLedgerUpdatedEvent)
  : step_result :=
  known_root s "storage ledger update" (slu_root_id body) ;?
  let rel := sl_relationship_id (slu_entry body) in
  (if negb (bool_decide (is_Some (storage_relationships_current s !! rel)))
   then Err (VE.new ("unknown storage relationship for ledger update: " +:+ rel)) else Ok tt) ;?
  Ok (set_storage_balances_current (<[rel := slu_entry body]> (storage_balances_current s)) s).

Definition apply_grant_offer_created {J : JsonOps} (s : MaterializedState)
  (body : GrantOfferCreatedEvent) : step_result :=
  check_conditions (goc_conditions_json body) ;?
  Ok (set_grant_offers_current
        (<[goc_offer_id body :=
             mkGrantOfferRecord (goc_offer_id body) (goc_issuer_persona_id body)
               (goc_ephemeral_public_key_hex body) (goc_sealed_payload_hex body)
               (goc_relay_hint body) (goc_expires_at body) (goc_conditions_json body) Off_Pending
               None None None]> (grant_offers_current s)) s).

Definition apply_grant_offer_claimed (s : MaterializedState) (body : GrantOfferClaimedEvent)
  : MaterializedState :=
  match grant_offers_current s !! gcl_offer_id body with
  | None => s
  | Some o =>
      set_grant_offers_current
        (<[gcl_offer_id body :=
             mkGrantOfferRecord (off_offer_id o) (off_issuer_persona_id o)
               (off_ephemeral_public_key_hex o) (off_sealed_payload_hex o) (off_relay_hint o)
               (off_expires_at o) (off_conditions_json o) Off_Claimed
               (Some (gcl_recipient_persona_id body)) (Some (gcl_claim_response_hex body))
               (Some (gcl_claimed_at body))]> (grant_offers_current s)) s
  end.

Definition apply_grant_offer_revoked (s : MaterializedState) (body : GrantOfferRevokedEvent)
  : MaterializedState :=
  match grant_offers_current s !! gor_offer_id body with
  | None => s
  | Some o =>
      set_grant_offers_current
        (<[gor_offer_id body :=
             mkGrantOfferRecord (off_offer_id o) (off_issuer_persona_id o)
               (off_ephemeral_public_key_hex o) (off_sealed_payload_hex o) (off_relay_hint o)
               (off_expires_at o) (off_conditions_json o) Off_Revoked (off_recipient_persona_id o)
               (off_claim_response_hex o) (off_claimed_at o)]> (grant_offers_current s)) s
  end.

Definition apply_badge_issued (s : MaterializedState) (body : BadgeIssuedEvent) : MaterializedState :=
  set_badges_current
    (<[bi_badge_id body :=
         mkBadgeRecord (bi_badge_id body) (bi_issuer_persona_id body) (bi_recipient_persona_id body)
           (bi_badge_type body) (bi_display_name body) (bi_evidence body) (bi_issued_at body)
           (bi_expires_at body) false None]> (badges_current s)) s.

Definition apply_badge_revoked (s : MaterializedState) (body : BadgeRevokedEvent) : MaterializedState :=
  match badges_current s !! br_badge_id body with
  | None => s
  | Some b =>
      set_badges_current
        (<[br_badge_id body :=
             mkBadgeRecord (bdg_badge_id b) (bdg_issuer_persona_id b) (bdg_recipient_persona_id b)
               (bdg_badge_type b) (bdg_display_name b) (bdg_evidence b) (bdg_issued_at b)
               (bdg_expires_at b) true (Some (br_reason body))]> (badges_current s)) s
  end.

Definition apply_badge_disputed (s : MaterializedState) (body : BadgeDisputedEvent)
  : MaterializedState :=
  set_badge_disputes_current
    (<[bd_dispute_id body :=
         mkBadgeDisputeRecord (bd_dispute_id body) (bd_target_badge_id body)
           (bd_disputer_persona_id body) (bd_reason body) (bd_evidence body)]>
       (badge_disputes_current s)) s.

Definition apply_credential_deposited (s : MaterializedState) (body : CredentialDepositedEvent)
  : MaterializedState :=
  set_credential_deposits_current
    (<[cd_deposit_id body :=
         mkCredentialDepositRecord (cd_deposit_id body) (cd_grant_id body) (cd_credential_id body)
           (cd_issuer_id body) (cd_encrypted_blocks_json body) Dep_Active (cd_created_at body)
           (cd_expires_at body) None None]> (credential_deposits_current s)) s.

Definition revoke_deposit (body : CredentialRevokedEvent) (d : CredentialDepositRecord)
  : CredentialDepositRecord :=
  if bool_decide (dep_grant_id d = cr_grant_id body)
  then mkCredentialDepositRecord (dep_deposit_id d) (dep_grant_id d) (dep_credential_id d)
         (dep_issuer_id d) (dep_encrypted_blocks_json d) Dep_Revoked (dep_created_at d)
         (dep_expires_at d) (Some (cr_revoked_at body)) (Some (cr_reason body))
  else d.

Definition apply_credential_revoked (s : MaterializedState) (body : CredentialRevokedEvent)
  : MaterializedState :=
  set_credential_deposits_current (revoke_deposit body <$> credential_deposits_current s) s.

(** ** The whole transition *)

Definition apply_event {J : JsonOps} (s : MaterializedState) (e : EventEnvelope) : step_result :=
  match ev_body e with
  | RootCreated body => apply_root_created s body
  | RootKeyRotated body => apply_root_key_rotated s body
  | RootRevoked body => apply_root_revoked s body
  | DeviceAdded body => apply_device_added s body
  | DeviceEnrolled body => apply_device_enrolled s body
  | DeviceKeyRotated body => apply_device_key_rotated s body
  | DeviceEncryptionKeyRotated body => apply_device_encryption_key_rotated s body
  | DeviceRevoked body => apply_device_revoked s body
  | DeviceFrozen body => apply_device_frozen s body
  | DeviceReplaced body => apply_device_replaced s body
  | PersonaCreated body => apply_persona_created s body
  | PersonaKeyRotated body => apply_persona_key_rotated s body
  | PersonaRevoked body => apply_persona_revoked s body
  | TrustAttested body => apply_trust_attested s body
  | TrustRevoked body => apply_trust_revoked s body
  | RecoveryPolicyCreated body => apply_recovery_policy_created s body
  | GuardianEnrolled body => apply_guardian_enrolled s body
  | GuardianKeyRotated body => apply_guardian_key_rotated s body
  | RecoveryRequested body => apply_recovery_requested s body
  | RecoveryApproved body => apply_recovery_approved s body
  | RecoveryContested body => apply_recovery_contested s body
  | RecoveryRejected body => apply_recovery_rejected s body
  | RecoveryExecuted body => apply_recovery_executed s body
  | RelayHintUpdated body => apply_relay_hint_updated s body
  | EndpointRotated body => apply_endpoint_rotated s body
  | StorageRelationshipCreated body => apply_storage_relationship_created s body
  | StorageLedgerUpdated body => apply_storage_ledger_updated s body
  | StorageManifestPublished body =>
      known_root s "storage manifest" (smp_root_id body) ;? Ok s
  | MessageSent _ | ContentPublished _ | DisclosureRevoked _ | RelayShutdownNotice _ => Ok s
  | GrantOfferCreated body => apply_grant_offer_created s body
  | GrantOfferClaimed body => Ok (apply_grant_offer_claimed s body)
  | GrantOfferRevoked body => Ok (apply_grant_offer_revoked s body)
  | BadgeIssued body => Ok (apply_badge_issued s body)
  | BadgeRevoked body => Ok (apply_badge_revoked s body)
  | BadgeDisputed body => Ok (apply_badge_disputed s body)
  | CredentialDeposited body => Ok (apply_credential_deposited s body)
  | CredentialRevoked body => Ok (apply_credential_revoked s body)
  end.

Definition event_affects_materialized_state (e : EventEnvelope) : bool :=
  match ev_body e with
  | MessageSent _ | ContentPublished _ | DisclosureRevoked _ | RelayShutdownNotice _
  | StorageManifestPublished _ => false
  | _ => true
  end.

Definition check_manifest_devices (s : MaterializedState) (root : string)
  (devices : list ManifestDeviceAccess) : verdict :=
  try_for_each
    (λ access,
       let? device := ok_or (devices_current s !! mda_device_id access)
                        (VE.new ("storage manifest references unknown device: "
                                 +:+ mda_device_id access)) in
       if negb (bool_decide (dev_root_id device = root))
       then Err (VE.new "storage manifest authorized devices must belong to the publishing root")
       else Ok tt) devices.

Definition apply_storage_event (manifests : gmap string FileManifest) (e : EventEnvelope)
  (s : MaterializedState) : result (gmap string FileManifest) ValidationError :=
  match ev_body e with
  | StorageManifestPublished body =>
      known_root s "storage manifest" (smp_root_id body) ;?
      FileManifest_validate (smp_manifest body) ;?
      check_manifest_devices s (smp_root_id body) (fm_authorized_devices (smp_manifest body)) ;?
      Ok (<[fm_id (smp_manifest body) := smp_manifest body]> manifests)
  | _ => Ok manifests
  end.

(** ** Lemmas on single steps *)

(** Run the arm an accepted event took: [H : apply_event s e = Ok s'] becomes the equation for
    [s'] with the tests that held. *)
Ltac run_arm H :=
  unfold apply_event in H;
  destruct (ev_body _) as [body|body|body|body|body|body|body|body|body|body
                          |body|body|body|body|body|body|body|body|body|body
                          |body|body|body|body|body|body|body|body|body|body
                          |body|body|body|body|body|body|body|body|body|body] eqn:Hbody;
  try (match type of H with ?t = _ => let h := head_of t in unfold h in H end);
  unfold known_root, get_device, get_persona, get_request, result_bind, ok_or in H;
  repeat (step_match H; try done);
  try (match goal with Hx : Ok _ = Ok _ |- _ => injection Hx as <- end).

(** Lay open the state an arm built. *)
Ltac open_state :=
  unfold insert_device, put_device, put_request, recompute_derived_trust,
    apply_grant_offer_claimed, apply_grant_offer_revoked, apply_badge_issued,
    apply_badge_revoked, apply_badge_disputed, apply_credential_deposited,
    apply_credential_revoked in *;
  repeat match goal with
  | |- context [match ?m !! ?k with Some _ => _ | None => _ end] => destruct (m !! k) eqn:?
  end.

(** A map whose entries satisfy a property: after an insertion. *)
Lemma map_Forall_set {A} (P Q : string → A → Prop) (m : gmap string A) k v :
  map_Forall P m → (∀ i x, P i x → Q i x) → Q k v → map_Forall Q (<[k := v]> m).
Proof. intros Hm HPQ Hv. apply map_Forall_insert_2; [done|]. by eapply map_Forall_impl. Qed.

(** Referential integrity: records are stored under their own identifiers and what they
    refer to exists. *)
Definition state_wf (s : MaterializedState) : Prop :=
  map_Forall (λ i r, root_root_id r = i) (roots_current s) ∧
  map_Forall (λ i d, dev_device_id d = i ∧ is_Some (roots_current s !! dev_root_id d))
    (devices_current s) ∧
  map_Forall (λ i p, per_persona_id p = i ∧ is_Some (roots_current s !! per_root_id p))
    (personas_current s) ∧
  map_Forall (λ i a, tru_id a = i ∧ is_Some (personas_current s !! tru_attester a)
                     ∧ is_Some (personas_current s !! tru_subject a)) (trust_edges_current s) ∧
  map_Forall (λ i r, req_request_id r = i ∧ is_Some (devices_current s !! req_target_device_id r))
    (recovery_requests_current s) ∧
  map_Forall (λ i e, ep_peer_id e = i ∧ is_Some (devices_current s !! ep_device_id e))
    (endpoints_current s) ∧
  map_Forall (λ i b, sl_relationship_id b = i ∧ is_Some (storage_relationships_current s !! i))
    (storage_balances_current s).

Lemma is_Some_insert {A} (m : gmap string A) k v i :
  is_Some (m !! i) → is_Some (<[k := v]> m !! i).
Proof. intros. apply lookup_insert_is_Some. destruct (decide (k = i)); auto. Qed.

Lemma is_Some_here {A} (m : gmap string A) k v : is_Some (<[k := v]> m !! k).
Proof. rewrite lookup_insert_eq. eauto. Qed.

#[export] Hint Resolve is_Some_insert is_Some_here : ember.

(** What the invariant says of the entries an arm looked up. *)
Ltac use_entries :=
  repeat match goal with
  | Hm : map_Forall _ ?m, E : ?m !! ?k = Some ?a |- _ =>
      lazymatch goal with
      | _ : is_Some (m !! k) |- _ => fail
      | _ => pose proof (Hm k a E); assert (is_Some (m !! k)) by (rewrite E; eauto)
      end
  end.

Ltac solve_wf :=
  unfold state_wf in *; destruct_and?; simpl; split_and!; try assumption;
  first [ eapply map_Forall_set; [eassumption|naive_solver (eauto with ember)|]
        | eapply map_Forall_impl; [eassumption|naive_solver (eauto with ember)]
        | idtac ].

Section Steps.
Context {J : JsonOps}.

Lemma apply_event_wf s e s' : state_wf s → apply_event s e = Ok s' → state_wf s'.
Proof.
  intros Hwf H. run_arm H.
  all: open_state; try exact Hwf; try solve_wf.
  all: use_entries; bool_to_prop; simpl in *.
  all: try (split_and?; eauto 3 with ember; naive_solver (eauto with ember)).
  all: by apply map_Forall_delete.
Qed.

End Steps.

(** ** Evolution of records

    How a record may change while the log grows. Nothing is deleted from the identity maps,
    owners and custody data are fixed, and a status that left [Active] does not come back. *)

Definition map_evolves {A} (R : A → A → Prop) (m m' : gmap string A) : Prop :=
  ∀ i a, m !! i = Some a → ∃ b, m' !! i = Some b ∧ R a b.

#[export] Instance map_evolves_preorder {A} (R : relation A) `{!PreOrder R} :
  PreOrder (map_evolves R).
Proof.
  split.
  - intros m i a Ha. exists a. by split.
  - intros m1 m2 m3 H12 H23 i a Ha.
    destruct (H12 i a Ha) as (b & Hb & Rab). destruct (H23 i b Hb) as (c & Hc & Rbc).
    exists c. split; [done|]. by transitivity b.
Qed.

Lemma map_evolves_fresh {A} (R : relation A) `{!PreOrder R} m k v :
  m !! k = None → map_evolves R m (<[k := v]> m).
Proof.
  intros Hk i a Ha. exists a. split; [|done]. by rewrite lookup_insert_ne by naive_solver.
Qed.

Lemma map_evolves_update {A} (R : relation A) `{!PreOrder R} m k a v :
  m !! k = Some a → R a v → map_evolves R m (<[k := v]> m).
Proof.
  intros Hk HR i b Hb. destruct (decide (k = i)) as [->|].
  - exists v. rewrite lookup_insert_eq. split; [done|]. congruence.
  - exists b. by rewrite lookup_insert_ne.
Qed.

#[export] Hint Resolve map_evolves_fresh map_evolves_update : ember.

Definition root_evolves (r r' : RootRecord) : Prop :=
  root_root_id r' = root_root_id r ∧ (root_status r' = Root_Active → root_status r = Root_Active).

Definition device_evolves (d d' : DeviceRecord) : Prop :=
  dev_device_id d' = dev_device_id d ∧ dev_root_id d' = dev_root_id d
  ∧ dev_custody_class d' = dev_custody_class d
  ∧ dev_attestation_statement d' = dev_attestation_statement d
  ∧ dev_attestation_tier d' = dev_attestation_tier d
  ∧ dev_presence_factor d' = dev_presence_factor d
  ∧ (dev_status d' = Dev_Active → dev_status d = Dev_Active).

Definition persona_evolves (p p' : PersonaRecord) : Prop :=
  per_persona_id p' = per_persona_id p ∧ per_root_id p' = per_root_id p
  ∧ (per_status p' = Per_Active → per_status p = Per_Active).

(** The moves of a recovery request. *)
Definition request_move (a b : RecoveryRequestStatus) : Prop :=
  match a with
  | Req_Requested => True
  | Req_Approved => b ≠ Req_Requested
  | Req_Contested => b = Req_Contested ∨ b = Req_Rejected
  | Req_Rejected => b = Req_Rejected
  | Req_Executed => b = Req_Executed
  end.

Definition request_evolves (r r' : RecoveryRequestRecord) : Prop :=
  req_request_id r' = req_request_id r ∧ req_root_id r' = req_root_id r
  ∧ req_target_device_id r' = req_target_device_id r
  ∧ req_approvals r ⊆ req_approvals r' ∧ req_contested_by r ⊆ req_contested_by r'
  ∧ request_move (req_status r) (req_status r').

#[export] Instance root_evolves_preorder : PreOrder root_evolves.
Proof. unfold root_evolves. split; [done|]. intros ???; naive_solver congruence. Qed.
#[export] Instance device_evolves_preorder : PreOrder device_evolves.
Proof. unfold device_evolves. split; [done|]. intros ???; naive_solver congruence. Qed.
#[export] Instance persona_evolves_preorder : PreOrder persona_evolves.
Proof. unfold persona_evolves. split; [done|]. intros ???; naive_solver congruence. Qed.
#[export] Instance request_move_preorder : PreOrder request_move.
Proof.
  split; [by intros []; simpl; auto|].
  by intros [] [] []; simpl; intuition congruence.
Qed.
#[export] Instance request_evolves_preorder : PreOrder request_evolves.
Proof.
  unfold request_evolves. split.
  - intros r. split_and!; done.
  - intros r1 r2 r3 (?&?&?&?&?&?) (?&?&?&?&?&?).
    split_and!; try congruence; try set_solver. by transitivity (req_status r2).
Qed.

Definition state_evolves (s s' : MaterializedState) : Prop :=
  map_evolves root_evolves (roots_current s) (roots_current s')
  ∧ map_evolves device_evolves (devices_current s) (devices_current s')
  ∧ map_evolves persona_evolves (personas_current s) (personas_current s')
  ∧ map_evolves request_evolves (recovery_requests_current s) (recovery_requests_current s').

#[export] Instance state_evolves_preorder : PreOrder state_evolves.
Proof.
  split.
  - intros s. unfold state_evolves. split_and!; done.
  - intros s1 s2 s3 (?&?&?&?) (?&?&?&?). unfold state_evolves. split_and!; by etransitivity.
Qed.

Lemma not_is_Some_lookup {A} (m : gmap string A) k : ¬ is_Some (m !! k) → m !! k = None.
Proof. apply eq_None_not_Some. Qed.

#[export] Hint Resolve not_is_Some_lookup : ember.

Ltac solve_evolves :=
  first
    [ reflexivity
    | apply map_evolves_fresh; [exact _|solve [auto with ember]]
    | eapply map_evolves_update; [exact _|eassumption|];
      unfold root_evolves, device_evolves, persona_evolves, request_evolves; simpl;
      split_and!; try done; try set_solver ].

(** The invariant of recovery requests: a request that is open, approved or executed has never
    been contested, so no cool-down is pending on it. *)
Definition uncontested_unless_stopped (r : RecoveryRequestRecord) : Prop :=
  match req_status r with
  | Req_Requested | Req_Approved | Req_Executed =>
      req_contested_by r = ∅ ∧ req_cooldown_until r = None ∧ req_rejection_reason r = None
  | _ => True
  end.

Definition requests_wf (s : MaterializedState) : Prop :=
  map_Forall (λ _ r, uncontested_unless_stopped r) (recovery_requests_current s).

Section Evolution.
Context {J : JsonOps}.

Lemma apply_event_evolves s e s' : apply_event s e = Ok s' → state_evolves s s'.
Proof.
  intros H. run_arm H.
  all: open_state; bool_to_prop; try reflexivity.
  all: unfold state_evolves; simpl; split_and!; try solve_evolves.
  all: repeat case_match; simpl in *;
    try match goal with Hs : req_status _ = _ |- _ => rewrite Hs end;
    destruct (req_status r); simpl; intuition congruence.
Qed.

Lemma apply_event_requests_wf s e s' :
  requests_wf s → apply_event s e = Ok s' → requests_wf s'.
Proof.
  unfold requests_wf. intros Hwf H. run_arm H.
  all: open_state; bool_to_prop; simpl; try exact Hwf.
  all: eapply map_Forall_set; [exact Hwf|done|]; use_entries.
  all: unfold uncontested_unless_stopped in *; simpl in *; try done.
  all: repeat case_match; try done; naive_solver congruence.
Qed.

(** A request becomes approved only by an approval that reaches the threshold of the root's
    policy, and executed only from approved. *)
Lemma apply_event_request_status s e s' i r r' :
  apply_event s e = Ok s' →
  recovery_requests_current s !! i = Some r → recovery_requests_current s' !! i = Some r' →
  (req_status r' = Req_Approved →
     req_status r = Req_Approved
     ∨ (approval_threshold s' (req_root_id r) <= Z.of_nat (size (req_approvals r')))%Z)
  ∧ (req_status r' = Req_Executed →
     (req_status r = Req_Executed ∨ req_status r = Req_Approved)).
Proof.
  intros H Hr. run_arm H.
  all: open_state; bool_to_prop; simpl; intros Hr'.
  all: try (rewrite Hr in Hr'; simplify_eq; tauto).
  all: apply lookup_insert_Some in Hr' as [[? ?]|[? Hr']];
    [simplify_eq; simpl in *|rewrite Hr in Hr'; simplify_eq; tauto].
  all: repeat case_match; bool_to_prop; simplify_eq/=.
  all: split; intros Hst; first [by simplify_eq | by left | by right | intuition congruence].
Qed.

(** A request starts out as requested. *)
Lemma apply_event_new_request s e s' i r' :
  apply_event s e = Ok s' →
  recovery_requests_current s !! i = None → recovery_requests_current s' !! i = Some r' →
  req_status r' = Req_Requested.
Proof.
  intros H Hn. run_arm H.
  all: open_state; simpl; intros Hr'; try congruence.
  all: apply lookup_insert_Some in Hr' as [[? ?]|[? Hr']]; [simplify_eq; simpl|]; congruence.
Qed.

(** An approval is on record because its event was applied. *)
Lemma apply_event_approvals s e s' i r' g :
  apply_event s e = Ok s' → recovery_requests_current s' !! i = Some r' → g ∈ req_approvals r' →
  (∃ r, recovery_requests_current s !! i = Some r ∧ g ∈ req_approvals r)
  ∨ ev_body e = RecoveryApproved (mkRecoveryApproved i g).
Proof.
  intros H. run_arm H.
  all: open_state; simpl; intros Hr' Hg.
  all: try (left; by eauto).
  all: apply lookup_insert_Some in Hr' as [[? ?]|[? Hr']]; [simplify_eq; simpl in *|left; by eauto].
  all: try (left; by eauto).
  all: try (apply elem_of_union in Hg as [Hg%elem_of_singleton|Hg]; [|left; by eauto];
            right; destruct body; by subst).
Qed.

(** Applying an event leaves the chain heads to [advance_chain_head]. *)
Lemma apply_event_heads s e s' :
  apply_event s e = Ok s' → root_chain_heads s' = root_chain_heads s.
Proof. intros H. run_arm H; open_state; done. Qed.

End Evolution.

(** ** The chain head *)

Lemma advance_chain_head_evolves s e : state_evolves s (advance_chain_head s e).
Proof. unfold advance_chain_head. destruct (EventBody_root_id _); split_and!; reflexivity. Qed.

Lemma advance_chain_head_wf s e : state_wf s → state_wf (advance_chain_head s e).
Proof. unfold advance_chain_head. by destruct (EventBody_root_id _). Qed.

Lemma advance_chain_head_requests_wf s e : requests_wf s → requests_wf (advance_chain_head s e).
Proof. unfold advance_chain_head. by destruct (EventBody_root_id _). Qed.

(** What [check_chain] accepts: the first event of a root has no predecessor, every later one
    names the current head and the next sequence number. *)
Lemma check_chain_Ok s e :
  check_chain s e = Ok tt ↔
  match EventBody_root_id (ev_body e) with
  | None => True
  | Some root =>
      match root_chain_heads s !! root with
      | None => previous_ref e = None
      | Some (head, seq) => ∃ r, previous_ref e = Some r ∧ ref_target_event_id r = head
                                 ∧ ref_seq r = u64_add seq 1
      end
  end.
Proof.
  unfold check_chain. destruct (EventBody_root_id _) as [root|]; [|done].
  destruct (previous_ref e) as [r|], (root_chain_heads s !! root) as [[h q]|]; simpl.
  - destruct (bool_decide_reflect (ref_target_event_id r = h)), (Z.eqb_spec (ref_seq r) (u64_add q 1));
      simpl; naive_solver.
  - split; intros [=].
  - split; [intros [=]|naive_solver].
  - done.
Qed.
