(* ===== verification/Authorize.v ===== *)
(** * The event authorizer

    crates/core-eventlog/src/authorize.rs: the [Authorizer] interface, the permissive and the
    identity authorizer ([authorize_inner], one arm per event body), the key and ownership
    checks they use, the signer/subject coherence check and the sanitizer of public errors. *)

From stdpp Require Import base gmap sets list strings.
From Stdlib Require Import Ascii Lia ZArith.
From S2P Require Import Prelude CoreTypes EventTypes EventCodec Envelope LogTypes Materialize.

Local Infix "+:+" := String.append (at level 60, right associativity).

(** The [Authorizer] trait: its one required method. *)
Record Authorizer := mkAuthorizer {
  authorize_raw : EventEnvelope → MaterializedState → Z → verdict
}.

Definition AllowAllAuthorizer : Authorizer := mkAuthorizer (λ _ _ _, Ok tt).

(** ** Keys and ownership *)

Definition key_material_matches (key : PublicKeyMaterial) (binding : SignerBinding)
  (signer_public_key : string) : bool :=
  bool_decide (pk_key_id key = sb_key_id binding)
  && bool_decide (pk_public_key key = signer_public_key).

Definition is_presence_authority (binding : SignerBinding) (signer_public_key root_id : string)
  (device : DeviceRecord) : bool :=
  bool_decide (dev_root_id device = root_id)
  && bool_decide (dev_status device = Dev_Active)
  && bool_decide (dev_custody_class device = CC_Presence)
  && key_material_matches (dev_active_key device) binding signer_public_key.

Definition authorize_root_key (binding : SignerBinding) (signer_public_key root_id : string)
  (state : MaterializedState) : verdict :=
  let? root := ok_or (roots_current state !! root_id) (VE.not_found "root" root_id) in
  if negb (bool_decide (root_status root = Root_Active))
  then Err (VE.state_violation ("root " +:+ root_id +:+ " is revoked"))
  else if key_material_matches (root_active_key root) binding signer_public_key then Ok tt
  else if existsb (is_presence_authority binding signer_public_key root_id)
            (btree_values (devices_current state)) then Ok tt
  else Err (VE.unauthorized ("signer " +:+ sb_key_id binding
              +:+ " is neither the root key nor an active presence Device for root " +:+ root_id)).

Definition authorize_device_key (binding : SignerBinding) (signer_public_key device_id : string)
  (state : MaterializedState) : verdict :=
  let? device := ok_or (devices_current state !! device_id) (VE.not_found "device" device_id) in
  if negb (bool_decide (pk_key_id (dev_active_key device) = sb_key_id binding))
  then Err (VE.unauthorized ("signer key " +:+ sb_key_id binding
              +:+ " does not match active device key for " +:+ device_id))
  else if negb (bool_decide (pk_public_key (dev_active_key device) = signer_public_key))
  then Err (VE.unauthorized
              ("signer public key does not match active device key material for " +:+ device_id))
  else if negb (bool_decide (dev_status device = Dev_Active))
  then Err (VE.state_violation ("device " +:+ device_id +:+ " is not active"))
  else Ok tt.

Definition require_device_owned_by_root (device_id root_id : string) (state : MaterializedState)
  : verdict :=
  let? device := ok_or (devices_current state !! device_id) (VE.not_found "device" device_id) in
  if negb (bool_decide (dev_root_id device = root_id))
  then Err (VE.unauthorized ("device " +:+ device_id +:+ " belongs to root "
                             +:+ dev_root_id device +:+ ", not " +:+ root_id))
  else Ok tt.

Definition require_persona_owned_by_root (persona_id root_id : string) (state : MaterializedState)
  : verdict :=
  let? persona := ok_or (personas_current state !! persona_id)
                    (VE.not_found "persona" persona_id) in
  if negb (bool_decide (per_root_id persona = root_id))
  then Err (VE.unauthorized ("persona " +:+ persona_id +:+ " belongs to root "
                             +:+ per_root_id persona +:+ ", not " +:+ root_id))
  else Ok tt.

Definition authorize_enrolled_guardian (binding : SignerBinding)
  (signer_public_key guardian_id root_id : string) (state : MaterializedState) : verdict :=
  let? guardian := ok_or (guardians_current state !! guardian_id)
                     (VE.not_found "guardian" guardian_id) in
  if negb (bool_decide (gua_root_id guardian = root_id))
  then Err (VE.unauthorized ("guardian " +:+ guardian_id +:+ " is enrolled for root "
                             +:+ gua_root_id guardian +:+ ", not " +:+ root_id))
  else if negb (bool_decide (sb_key_id binding = gua_public_key guardian))
  then Err (VE.unauthorized ("signer key " +:+ sb_key_id binding
              +:+ " does not match enrolled guardian key for " +:+ guardian_id))
  else if negb (bool_decide (signer_public_key = gua_public_key guardian))
  then Err (VE.unauthorized
              ("signer public key does not match enrolled guardian key material for " +:+ guardian_id))
  else Ok tt.

Definition authorize_persona_key (binding : SignerBinding) (signer_public_key persona_id : string)
  (state : MaterializedState) : verdict :=
  let? persona := ok_or (personas_current state !! persona_id)
                    (VE.not_found "persona" persona_id) in
  if negb (bool_decide (pk_key_id (per_active_key persona) = sb_key_id binding))
  then Err (VE.unauthorized ("signer key " +:+ sb_key_id binding
              +:+ " does not match active persona key for " +:+ persona_id))
  else if negb (bool_decide (pk_public_key (per_active_key persona) = signer_public_key))
  then Err (VE.unauthorized
              ("signer public key does not match active persona key material for " +:+ persona_id))
  else if negb (bool_decide (per_status persona = Per_Active))
  then Err (VE.state_violation ("persona " +:+ persona_id +:+ " is not active"))
  else Ok tt.

Definition is_active_persona_key_under_root (state : MaterializedState)
  (root_id public_key : string) : bool :=
  let root_active := match roots_current state !! root_id with
                     | Some r => bool_decide (root_status r = Root_Active)
                     | None => false
                     end in
  if negb root_active then false
  else existsb (λ persona, bool_decide (per_root_id persona = root_id)
                           && bool_decide (per_status persona = Per_Active)
                           && bool_decide (pk_public_key (per_active_key persona) = public_key))
         (btree_values (personas_current state)).

(** ** Errors shown to untrusted clients *)

Definition sanitize_authorize_error (err : ValidationError) : ValidationError :=
  match kind err with
  | NotFound | Unauthorized | StateViolation =>
      mkError Unauthorized "unauthorized for the requested operation"
  | _ => err
  end.

Definition authorize (a : Authorizer) (e : EventEnvelope) (state : MaterializedState) (now : Z)
  : verdict := map_err sanitize_authorize_error (authorize_raw a e state now).

(** ** Time windows *)

Definition check_time_window (now : Z) (not_before not_after : option Z)
  (before_msg after_msg : string) : verdict :=
  (match not_before with
   | Some start => if (now <? start)%Z then Err (VE.state_violation before_msg) else Ok tt
   | None => Ok tt
   end) ;?
  (match not_after with
   | Some end_ => if (end_ <=? now)%Z then Err (VE.state_violation after_msg) else Ok tt
   | None => Ok tt
   end).

(** ** Coherence of the signer's subject with the body *)

Definition signer_is_root_principal (binding : SignerBinding) (expected_id : string) : bool :=
  match es_kind (sb_signer binding) with
  | SK_Principal | SK_Root => bool_decide (es_subject_id (sb_signer binding) = expected_id)
  | _ => false
  end.

Definition signer_is_persona_principal (binding : SignerBinding) (expected_id : string) : bool :=
  match es_kind (sb_signer binding) with
  | SK_Principal | SK_Persona => bool_decide (es_subject_id (sb_signer binding) = expected_id)
  | _ => false
  end.

Definition signer_is_device (binding : SignerBinding) (device_id : string) : bool :=
  bool_decide (es_kind (sb_signer binding) = SK_Device)
  && bool_decide (es_subject_id (sb_signer binding) = device_id).

Definition check_signer_subject_coherence (binding : SignerBinding) (body : EventBody) : verdict :=
  let mismatch expected_kind expected_id :=
    Err (VE.new ("signer subject " +:+ SubjectKind_as_str (es_kind (sb_signer binding)) +:+ ":"
                 +:+ es_subject_id (sb_signer binding) +:+ " does not match body authority "
                 +:+ SubjectKind_as_str expected_kind +:+ ":" +:+ expected_id)) in
  let root_principal id :=
    if negb (signer_is_root_principal binding id) then mismatch SK_Principal id else Ok tt in
  let persona_principal id :=
    if negb (signer_is_persona_principal binding id) then mismatch SK_Principal id else Ok tt in
  let device id := if negb (signer_is_device binding id) then mismatch SK_Device id else Ok tt in
  let root_or_device root_id device_id :=
    if negb (signer_is_root_principal binding root_id) && negb (signer_is_device binding device_id)
    then mismatch SK_Device device_id else Ok tt in
  match body with
  | RootCreated b => root_principal (rc_root_id b)
  | RootKeyRotated b => root_principal (rkr_root_id b)
  | RootRevoked b => root_principal (rr_root_id b)
  | DeviceAdded b => root_principal (da_root_id b)
  | DeviceEnrolled b => root_principal (de_root_id b)
  | PersonaCreated b => root_principal (pc_root_id b)
  | RecoveryPolicyCreated b => root_principal (rpc_root_id b)
  | RecoveryRequested b => root_principal (rrq_root_id b)
  | GuardianEnrolled b => root_principal (ge_root_id b)
  | DeviceReplaced b => root_principal (drp_root_id b)
  | StorageRelationshipCreated b => root_principal (src_root_id b)
  | StorageLedgerUpdated b => root_principal (slu_root_id b)
  | StorageManifestPublished b => root_principal (smp_root_id b)
  | TrustAttested b => persona_principal (ta_attester_persona_id b)
  | TrustRevoked b => persona_principal (tr_attester_persona_id b)
  | MessageSent b => persona_principal (ms_sender_persona_id b)
  | ContentPublished b => persona_principal (cp_author_persona_id b)
  | DisclosureRevoked b => persona_principal (dr_revoker_persona_id b)
  | GrantOfferCreated b => persona_principal (goc_issuer_persona_id b)
  | GrantOfferClaimed b => persona_principal (gcl_recipient_persona_id b)
  | GrantOfferRevoked b => persona_principal (gor_issuer_persona_id b)
  | BadgeIssued b => persona_principal (bi_issuer_persona_id b)
  | BadgeRevoked b => persona_principal (br_revoker_persona_id b)
  | BadgeDisputed b => persona_principal (bd_disputer_persona_id b)
  | CredentialDeposited b => persona_principal (cd_issuer_id b)
  | CredentialRevoked b => persona_principal (cr_revoker_id b)
  | DeviceKeyRotated b => device (dkr_device_id b)
  | DeviceEncryptionKeyRotated b => device (dekr_device_id b)
  | RelayHintUpdated b => device (rhu_device_id b)
  | EndpointRotated b => device (er_device_id b)
  | DeviceRevoked b => root_or_device (drv_root_id b) (drv_device_id b)
  | DeviceFrozen b => root_or_device (df_root_id b) (df_device_id b)
  | PersonaRevoked b =>
      if negb (signer_is_root_principal binding (prv_root_id b))
         && negb (signer_is_persona_principal binding (prv_persona_id b))
      then mismatch SK_Principal (prv_persona_id b) else Ok tt
  | PersonaKeyRotated b => persona_principal (pkr_persona_id b)
  | GuardianKeyRotated _ | RecoveryApproved _ | RecoveryContested _ | RecoveryRejected _
  | RecoveryExecuted _ | RelayShutdownNotice _ => Ok tt
  end.

(** ** The identity authorizer *)

Definition is_ok (v : verdict) : bool := match v with Ok _ => true | Err _ => false end.

(** Scan of the deposits of one grant. *)
Fixpoint deposits_scan (grant_id revoker : string) (found_any : bool)
  (deposits : list CredentialDepositRecord) : verdict :=
  match deposits with
  | [] => if negb found_any
          then Err (VE.unauthorized "no credential deposit found for grant") else Ok tt
  | d :: rest =>
      if bool_decide (dep_grant_id d = grant_id)
      then if negb (bool_decide (dep_issuer_id d = revoker))
           then Err (VE.unauthorized "credential revocation signer does not match original issuer")
           else deposits_scan grant_id revoker true rest
      else deposits_scan grant_id revoker found_any rest
  end.

Definition authorize_inner (e : EventEnvelope) (state : MaterializedState) (now : Z) : verdict :=
  let binding := ev_signer_binding e in
  let signer_pk := ev_signer e in
  let root id := authorize_root_key binding signer_pk id state in
  let device id := authorize_device_key binding signer_pk id state in
  let persona id := authorize_persona_key binding signer_pk id state in
  let request id := ok_or (recovery_requests_current state !! id)
                      (VE.not_found "recovery request" id) in
  check_signer_subject_coherence binding (ev_body e) ;?
  match ev_body e with
  | RootCreated body =>
      if negb (bool_decide (signer_pk = pk_public_key (rc_initial_key body)))
      then Err (VE.unauthorized "root genesis signer key does not match the recorded initial_key (self-root invariant — an external verify_chain would reject)")
      else try_for_each
             (λ existing,
                if negb (bool_decide (root_root_id existing = rc_root_id body))
                   && bool_decide (pk_public_key (root_active_key existing)
                                   = pk_public_key (rc_initial_key body))
                then Err (VE.unauthorized ("root initial key material collides with existing root "
                                           +:+ root_root_id existing))
                else Ok tt) (btree_values (roots_current state))
  | RootKeyRotated body => root (rkr_root_id body)
  | RootRevoked body => root (rr_root_id body)
  | DeviceAdded body => root (da_root_id body)
  | DeviceEnrolled body => root (de_root_id body)
  | PersonaCreated body => root (pc_root_id body)
  | DeviceKeyRotated body =>
      require_device_owned_by_root (dkr_device_id body) (dkr_root_id body) state ;?
      device (dkr_device_id body)
  | DeviceEncryptionKeyRotated body =>
      require_device_owned_by_root (dekr_device_id body) (dekr_root_id body) state ;?
      device (dekr_device_id body)
  | DeviceRevoked body =>
      if is_ok (root (drv_root_id body))
      then require_device_owned_by_root (drv_device_id body) (drv_root_id body) state
      else device (drv_device_id body)
  | DeviceFrozen body =>
      if is_ok (root (df_root_id body))
      then require_device_owned_by_root (df_device_id body) (df_root_id body) state
      else device (df_device_id body)
  | DeviceReplaced body =>
      root (drp_root_id body) ;?
      require_device_owned_by_root (drp_replaced_device_id body) (drp_root_id body) state ;?
      require_device_owned_by_root (drp_replacement_device_id body) (drp_root_id body) state
  | PersonaKeyRotated body => persona (pkr_persona_id body)
  | PersonaRevoked body =>
      if is_ok (root (prv_root_id body))
      then require_persona_owned_by_root (prv_persona_id body) (prv_root_id body) state
      else persona (prv_persona_id body)
  | TrustAttested body => persona (ta_attester_persona_id body)
  | TrustRevoked body =>
      persona (tr_attester_persona_id body) ;?
      match trust_edges_current state !! tr_attestation_id body with
      | Some existing =>
          if negb (bool_decide (tru_attester existing = tr_attester_persona_id body))
          then Err (VE.unauthorized "trust revocation signer does not match original attester")
          else Ok tt
      | None => Ok tt
      end
  | RecoveryPolicyCreated body => root (rpc_root_id body)
  | RecoveryRequested body => root (rrq_root_id body)
  | GuardianEnrolled body => root (ge_root_id body)
  | GuardianKeyRotated body =>
      if is_ok (root (gkr_root_id body)) then Ok tt
      else authorize_enrolled_guardian binding signer_pk (gkr_guardian_id body) (gkr_root_id body)
             state
  | RecoveryApproved body =>
      if negb (bool_decide (sb_role binding = KR_Guardian))
      then Err (VE.unauthorized "recovery approvals must be signed by a guardian role")
      else let? request := request (rap_request_id body) in
           authorize_enrolled_guardian binding signer_pk (rap_guardian_id body)
             (req_root_id request) state
  | RecoveryContested body =>
      if negb (bool_decide (sb_role binding = KR_Guardian))
      then Err (VE.unauthorized "recovery contests must be signed by a guardian role")
      else let? request := request (rct_request_id body) in
           authorize_enrolled_guardian binding signer_pk (rct_guardian_id body)
             (req_root_id request) state
  | RecoveryRejected body =>
      let? request := request (rrj_request_id body) in root (req_root_id request)
  | RecoveryExecuted body =>
      let? request := request (rex_request_id body) in
      check_time_window now (req_cooldown_until request) None
        "recovery request is in cooldown after contest"
        "recovery request cannot have a past-dated window" ;?
      if negb (bool_decide (req_status request = Req_Approved))
      then Err (VE.state_violation "recovery request must be approved before execution")
      else root (req_root_id request)
  | RelayHintUpdated body => device (rhu_device_id body)
  | EndpointRotated body => device (er_device_id body)
  | RelayShutdownNotice body =>
      match endpoints_current state !! rsn_relay_peer_id body with
      | Some endpoint =>
          let? d := ok_or (devices_current state !! ep_device_id endpoint)
                      (VE.not_found "device" (ep_device_id endpoint)) in
          if negb (bool_decide (pk_key_id (dev_active_key d) = sb_key_id binding))
             || negb (bool_decide (pk_public_key (dev_active_key d) = signer_pk))
          then Err (VE.unauthorized
                      ("relay shutdown notice signer does not match endpoint device for "
                       +:+ rsn_relay_peer_id body))
          else Ok tt
      | None => Ok tt
      end
  | StorageRelationshipCreated body => root (src_root_id body)
  | StorageLedgerUpdated body => root (slu_root_id body)
  | StorageManifestPublished body => root (smp_root_id body)
  | MessageSent body => persona (ms_sender_persona_id body)
  | ContentPublished body => persona (cp_author_persona_id body)
  | DisclosureRevoked body =>
      persona (dr_revoker_persona_id body) ;?
      match disclosures_current state !! dr_artifact_id body with
      | Some disclosure =>
          if negb (bool_decide (dis_issuer_persona_id disclosure = dr_revoker_persona_id body))
          then Err (VE.unauthorized "only the original issuer can revoke this disclosure")
          else Ok tt
      | None => Ok tt
      end
  | GrantOfferCreated body => persona (goc_issuer_persona_id body)
  | GrantOfferClaimed body =>
      persona (gcl_recipient_persona_id body) ;?
      match grant_offers_current state !! gcl_offer_id body with
      | Some offer =>
          if negb (bool_decide (off_status offer = Off_Pending))
          then Err (VE.state_violation "grant offer is not in Pending status")
          else check_time_window now None (Some (off_expires_at offer))
                 "grant offer cannot have a future-only earliest window" "grant offer has expired"
      | None => Ok tt
      end
  | GrantOfferRevoked body =>
      persona (gor_issuer_persona_id body) ;?
      match grant_offers_current state !! gor_offer_id body with
      | Some offer =>
          if negb (bool_decide (off_issuer_persona_id offer = gor_issuer_persona_id body))
          then Err (VE.unauthorized "grant offer revocation signer does not match original issuer")
          else Ok tt
      | None => Ok tt
      end
  | BadgeIssued body => persona (bi_issuer_persona_id body)
  | BadgeRevoked body =>
      persona (br_revoker_persona_id body) ;?
      match badges_current state !! br_badge_id body with
      | Some badge =>
          if negb (bool_decide (bdg_issuer_persona_id badge = br_revoker_persona_id body))
          then Err (VE.unauthorized "badge revocation signer does not match original issuer")
          else Ok tt
      | None => Ok tt
      end
  | BadgeDisputed body => persona (bd_disputer_persona_id body)
  | CredentialDeposited body => persona (cd_issuer_id body)
  | CredentialRevoked body =>
      persona (cr_revoker_id body) ;?
      deposits_scan (cr_grant_id body) (cr_revoker_id body) false
        (btree_values (credential_deposits_current state))
  end.

Definition IdentityAuthorizer : Authorizer := mkAuthorizer authorize_inner.

(** ** Authority

    Who may act: the holder of the signing key named in the binding, as the current state
    knows it. *)

Definition holds_key (e : EventEnvelope) (key : PublicKeyMaterial) : Prop :=
  pk_key_id key = sb_key_id (ev_signer_binding e) ∧ pk_public_key key = ev_signer e.

Definition root_authority (s : MaterializedState) (e : EventEnvelope) (root_id : string) : Prop :=
  ∃ r, roots_current s !! root_id = Some r ∧ root_status r = Root_Active ∧
    (holds_key e (root_active_key r)
     ∨ ∃ i d, devices_current s !! i = Some d ∧ dev_root_id d = root_id
              ∧ dev_status d = Dev_Active ∧ dev_custody_class d = CC_Presence
              ∧ holds_key e (dev_active_key d)).

Definition device_authority (s : MaterializedState) (e : EventEnvelope) (device_id : string) : Prop :=
  ∃ d, devices_current s !! device_id = Some d ∧ dev_status d = Dev_Active
       ∧ holds_key e (dev_active_key d).

Definition persona_authority (s : MaterializedState) (e : EventEnvelope) (persona_id : string) : Prop :=
  ∃ p, personas_current s !! persona_id = Some p ∧ per_status p = Per_Active
       ∧ holds_key e (per_active_key p).

Definition guardian_authority (s : MaterializedState) (e : EventEnvelope)
  (guardian_id root_id : string) : Prop :=
  ∃ g, guardians_current s !! guardian_id = Some g ∧ gua_root_id g = root_id
       ∧ sb_key_id (ev_signer_binding e) = gua_public_key g ∧ ev_signer e = gua_public_key g.

Lemma ok_or_bind_Ok {A B E} (o : option A) (err : E) (f : A → result B E) b :
  result_bind (ok_or o err) f = Ok b ↔ ∃ a, o = Some a ∧ f a = Ok b.
Proof. destruct o; simpl; split; [eauto|naive_solver|done|]. by intros (?&?&?). Qed.

Lemma negb_guard_Ok {A} (P : Prop) `{!Decision P} (err : ValidationError) (r : result A ValidationError) a :
  (if negb (bool_decide P) then Err err else r) = Ok a ↔ P ∧ r = Ok a.
Proof. case_bool_decide; simpl; intuition congruence. Qed.

Lemma key_material_matches_iff e key :
  key_material_matches key (ev_signer_binding e) (ev_signer e) = true ↔ holds_key e key.
Proof. unfold key_material_matches, holds_key. rewrite andb_true_iff, !bool_decide_eq_true. done. Qed.

Lemma authorize_root_key_Ok s e root_id :
  authorize_root_key (ev_signer_binding e) (ev_signer e) root_id s = Ok tt
  ↔ root_authority s e root_id.
Proof.
  unfold authorize_root_key, root_authority. rewrite ok_or_bind_Ok.
  apply exist_proper; intros r. rewrite negb_guard_Ok.
  rewrite <-key_material_matches_iff. destruct (key_material_matches _ _ _); [tauto|].
  assert (existsb (is_presence_authority (ev_signer_binding e) (ev_signer e) root_id)
            (btree_values (devices_current s)) = true ↔
          ∃ i d, devices_current s !! i = Some d ∧ dev_root_id d = root_id
              ∧ dev_status d = Dev_Active ∧ dev_custody_class d = CC_Presence
              ∧ holds_key e (dev_active_key d)) as <-.
  { rewrite existsb_exists. unfold is_presence_authority.
    setoid_rewrite <-list_elem_of_In. setoid_rewrite elem_of_btree_values.
    setoid_rewrite andb_true_iff. setoid_rewrite key_material_matches_iff.
    setoid_rewrite andb_true_iff. setoid_rewrite andb_true_iff.
    setoid_rewrite bool_decide_eq_true. naive_solver. }
  destruct (existsb _ _); intuition congruence.
Qed.

Lemma authorize_device_key_Ok s e device_id :
  authorize_device_key (ev_signer_binding e) (ev_signer e) device_id s = Ok tt
  ↔ device_authority s e device_id.
Proof.
  unfold authorize_device_key, device_authority, holds_key. rewrite ok_or_bind_Ok.
  apply exist_proper; intros d. rewrite !negb_guard_Ok. naive_solver.
Qed.

Lemma authorize_persona_key_Ok s e persona_id :
  authorize_persona_key (ev_signer_binding e) (ev_signer e) persona_id s = Ok tt
  ↔ persona_authority s e persona_id.
Proof.
  unfold authorize_persona_key, persona_authority, holds_key. rewrite ok_or_bind_Ok.
  apply exist_proper; intros d. rewrite !negb_guard_Ok. naive_solver.
Qed.

Lemma authorize_enrolled_guardian_Ok s e guardian_id root_id :
  authorize_enrolled_guardian (ev_signer_binding e) (ev_signer e) guardian_id root_id s = Ok tt
  ↔ guardian_authority s e guardian_id root_id.
Proof.
  unfold authorize_enrolled_guardian, guardian_authority. rewrite ok_or_bind_Ok.
  apply exist_proper; intros d. rewrite !negb_guard_Ok. naive_solver.
Qed.

Lemma require_device_owned_by_root_Ok s device_id root_id :
  require_device_owned_by_root device_id root_id s = Ok tt
  ↔ ∃ d, devices_current s !! device_id = Some d ∧ dev_root_id d = root_id.
Proof.
  unfold require_device_owned_by_root. rewrite ok_or_bind_Ok.
  apply exist_proper; intros d. rewrite !negb_guard_Ok. naive_solver.
Qed.

Lemma require_persona_owned_by_root_Ok s persona_id root_id :
  require_persona_owned_by_root persona_id root_id s = Ok tt
  ↔ ∃ p, personas_current s !! persona_id = Some p ∧ per_root_id p = root_id.
Proof.
  unfold require_persona_owned_by_root. rewrite ok_or_bind_Ok.
  apply exist_proper; intros d. rewrite !negb_guard_Ok. naive_solver.
Qed.

Lemma root_or_else_Ok s e root_id (r : verdict) (r' : verdict) :
  (if is_ok (authorize_root_key (ev_signer_binding e) (ev_signer e) root_id s) then r else r') = Ok tt
  → (root_authority s e root_id ∧ r = Ok tt) ∨ r' = Ok tt.
Proof.
  destruct (authorize_root_key _ _ _ _) as [[]|] eqn:E; simpl; [|by right].
  left. split; [|done]. by apply authorize_root_key_Ok.
Qed.

(** Read off the authority an accepted event had. *)
Ltac read_authority Ha :=
  first
    [ apply authorize_root_key_Ok in Ha
    | apply authorize_device_key_Ok in Ha
    | apply authorize_persona_key_Ok in Ha
    | apply authorize_enrolled_guardian_Ok in Ha
    | apply require_device_owned_by_root_Ok in Ha
    | apply require_persona_owned_by_root_Ok in Ha
    | apply seq_Ok in Ha; let H1 := fresh "Ha" in destruct Ha as [H1 Ha];
      read_authority H1; read_authority Ha
    | apply root_or_else_Ok in Ha; let H1 := fresh "Ha" in
      destruct Ha as [[H1 Ha]|Ha]; read_authority Ha
    | apply negb_guard_Ok in Ha; let H1 := fresh "Ha" in destruct Ha as [H1 Ha];
      read_authority Ha
    | apply ok_or_bind_Ok in Ha; let x := fresh "x" in let H1 := fresh "Ha" in
      destruct Ha as (x & H1 & Ha); read_authority Ha
    | idtac ].

Ltac run_auth Ha Hbody :=
  unfold authorize_inner in Ha; rewrite Hbody in Ha; cbv beta zeta in Ha;
  apply seq_Ok in Ha; destruct Ha as [_ Ha]; read_authority Ha.

(** ** Confinement *)

(** Every entry a step adds, changes or removes satisfies [P]. *)
Definition changes_only {A} (m m' : gmap string A) (P : string → option A → option A → Prop) : Prop :=
  ∀ i, m' !! i ≠ m !! i → P i (m !! i) (m' !! i).

Lemma changes_only_refl {A} (m : gmap string A) P : changes_only m m P.
Proof. intros i Hne. done. Qed.

Lemma changes_only_insert {A} (m : gmap string A) k v P :
  P k (m !! k) (Some v) → changes_only m (<[k := v]> m) P.
Proof.
  intros HP i Hne. destruct (decide (k = i)) as [<-|].
  - by rewrite lookup_insert_eq.
  - by rewrite lookup_insert_ne in Hne.
Qed.

Definition device_change (s : MaterializedState) (e : EventEnvelope) (i : string)
  (old new : option DeviceRecord) : Prop :=
  match old, new with
  | Some d, Some _ => device_authority s e i ∨ root_authority s e (dev_root_id d)
  | None, Some d => root_authority s e (dev_root_id d)
  | _, None => False
  end.

Definition persona_change (s : MaterializedState) (e : EventEnvelope) (i : string)
  (old new : option PersonaRecord) : Prop :=
  match old, new with
  | Some p, Some _ => persona_authority s e i ∨ root_authority s e (per_root_id p)
  | None, Some p => root_authority s e (per_root_id p)
  | _, None => False
  end.

Definition root_change (s : MaterializedState) (e : EventEnvelope) (i : string)
  (old new : option RootRecord) : Prop :=
  match old, new with
  | Some _, Some _ => root_authority s e i
  | None, Some r => ev_signer e = pk_public_key (root_active_key r)
                    ∧ ∀ j r', roots_current s !! j = Some r' → root_root_id r' ≠ i →
                              pk_public_key (root_active_key r') ≠ ev_signer e
  | _, None => False
  end.

Definition request_change (s : MaterializedState) (e : EventEnvelope) (i : string)
  (old new : option RecoveryRequestRecord) : Prop :=
  match old, new with
  | Some r, Some r' =>
      (root_authority s e (req_root_id r) ∧ req_approvals r' = req_approvals r)
      ∨ ∃ g, guardian_authority s e g (req_root_id r) ∧ req_approvals r' ⊆ {[g]} ∪ req_approvals r
  | None, Some r => root_authority s e (req_root_id r)
  | _, None => False
  end.

(** Use what is known of the entry under consideration. *)
Ltac know_entry :=
  repeat match goal with
  | H : ¬ is_Some (?m !! ?k) |- _ => apply eq_None_not_Some in H
  end;
  repeat match goal with
  | H : ?m !! ?k = Some _ |- context [?m !! ?k] => rewrite H
  | H : ?m !! ?k = None |- context [?m !! ?k] => rewrite H
  | H : ?m !! ?k = Some _, H' : ?m !! ?k = Some _ |- _ => rewrite H in H'; simplify_eq
  end.

(** The key of a new root is not the active key of another root. *)
Lemma genesis_unique s e body :
  try_for_each
    (λ existing,
       if negb (bool_decide (root_root_id existing = rc_root_id body))
          && bool_decide (pk_public_key (root_active_key existing)
                          = pk_public_key (rc_initial_key body))
       then Err (VE.unauthorized ("root initial key material collides with existing root "
                                  +:+ root_root_id existing))
       else Ok tt) (btree_values (roots_current s)) = Ok tt →
  ev_signer e = pk_public_key (rc_initial_key body) →
  ∀ j r', roots_current s !! j = Some r' → root_root_id r' ≠ rc_root_id body →
          pk_public_key (root_active_key r') ≠ ev_signer e.
Proof.
  rewrite try_for_each_Ok, Forall_forall. intros Hall He j r' Hj Hid Hk.
  assert (r' ∈ btree_values (roots_current s)) as Hin by (apply elem_of_btree_values; eauto).
  specialize (Hall r' Hin). rewrite bool_decide_eq_false_2, bool_decide_eq_true_2 in Hall by congruence.
  done.
Qed.

Section Confinement.
Context {J : JsonOps}.

(** C2. Confinement of authority: when the identity authorizer accepts an event and
    the event is applied, every root it creates is signed by the key it records, which is no
    other root's active key; every root it changes had an active root key or an active presence
    device behind the signature; every device (persona) it changes was changed by the device's
    (persona's) own active key or by the authority of the root that owns it; every device or
    persona it adds was added by the authority of its root; and a recovery request is opened by
    its root, changed by its root or by a guardian enrolled for that root, and gains at most
    the approval of the guardian who signed. *)
Theorem authority_confined s e now s' :
  authorize_inner e s now = Ok tt → apply_event s e = Ok s' →
  changes_only (roots_current s) (roots_current s') (root_change s e)
  ∧ changes_only (devices_current s) (devices_current s') (device_change s e)
  ∧ changes_only (personas_current s) (personas_current s') (persona_change s e)
  ∧ changes_only (recovery_requests_current s) (recovery_requests_current s') (request_change s e).
Proof.
  intros Ha H. run_arm H.
  all: open_state; bool_to_prop; simpl.
  all: split_and!; try apply changes_only_refl.
  all: run_auth Ha Hbody.
  all: apply changes_only_insert; unfold root_change, device_change, persona_change, request_change;
    simpl; know_entry.
  all: try solve [eauto 3].
  all: try (right; eexists; split; [exact Ha|set_solver]).
  all: try (split; [done|]; by apply genesis_unique).
  all: repeat match goal with Hx : ∃ _, _ ∧ _ = _ |- _ => destruct Hx as (?&?&?) end.
  all: simplify_eq; auto.
  all: right; congruence.
Qed.
End Confinement.

(** ** Public errors *)

(** The kinds of error that tell something of the state. *)
Definition state_dependent (x : ValidationError) : Prop :=
  kind x = NotFound ∨ kind x = Unauthorized ∨ kind x = StateViolation.

Definition only_state_errors (v : verdict) : Prop := ∀ x, v = Err x → state_dependent x.

Lemma only_state_ok : only_state_errors (Ok tt).
Proof. intros x [=]. Qed.
Lemma only_state_err k m : k = NotFound ∨ k = Unauthorized ∨ k = StateViolation →
  only_state_errors (Err (mkError k m)).
Proof. intros Hk x [= <-]. exact Hk. Qed.
Lemma only_state_if (b : bool) v w :
  only_state_errors v → only_state_errors w → only_state_errors (if b then v else w).
Proof. by destruct b. Qed.
Lemma only_state_seq v w : only_state_errors v → only_state_errors w → only_state_errors (v ;? w).
Proof. intros Hv Hw x. destruct v; simpl; [apply Hw|]. intros [= ->]. by apply Hv. Qed.
Lemma only_state_lookup {A} (o : option A) k m (f : A → verdict) :
  k = NotFound ∨ k = Unauthorized ∨ k = StateViolation →
  (∀ a, only_state_errors (f a)) → only_state_errors (result_bind (ok_or o (mkError k m)) f).
Proof. intros Hk Hf. destruct o; simpl; [apply Hf|by apply only_state_err]. Qed.
Lemma only_state_option {A} (o : option A) (f : A → verdict) w :
  (∀ a, only_state_errors (f a)) → only_state_errors w →
  only_state_errors (match o with Some a => f a | None => w end).
Proof. by destruct o. Qed.
Lemma only_state_each {A} (f : A → verdict) l :
  (∀ a, only_state_errors (f a)) → only_state_errors (try_for_each f l).
Proof.
  intros Hf. induction l as [|a l IH]; simpl; [apply only_state_ok|].
  by apply only_state_seq.
Qed.

Ltac state_errors :=
  repeat first
    [ apply only_state_ok
    | apply only_state_err; solve [auto]
    | apply only_state_if
    | apply only_state_lookup; [solve [auto]|intros ?]
    | apply only_state_option; [intros ?|]
    | apply only_state_each; intros ?
    | apply only_state_seq ].

Lemma root_key_errors b k i s : only_state_errors (authorize_root_key b k i s).
Proof. unfold authorize_root_key. state_errors. Qed.
Lemma device_key_errors b k i s : only_state_errors (authorize_device_key b k i s).
Proof. unfold authorize_device_key. state_errors. Qed.
Lemma persona_key_errors b k i s : only_state_errors (authorize_persona_key b k i s).
Proof. unfold authorize_persona_key. state_errors. Qed.
Lemma guardian_errors b k g i s : only_state_errors (authorize_enrolled_guardian b k g i s).
Proof. unfold authorize_enrolled_guardian. state_errors. Qed.
Lemma device_owned_errors d i s : only_state_errors (require_device_owned_by_root d i s).
Proof. unfold require_device_owned_by_root. state_errors. Qed.
Lemma persona_owned_errors d i s : only_state_errors (require_persona_owned_by_root d i s).
Proof. unfold require_persona_owned_by_root. state_errors. Qed.
Lemma time_window_errors n a b m m' : only_state_errors (check_time_window n a b m m').
Proof. unfold check_time_window. state_errors. Qed.
Lemma deposits_errors g r found l : only_state_errors (deposits_scan g r found l).
Proof. revert found. induction l as [|d l IH]; intros found; simpl; state_errors; apply IH. Qed.

#[export] Hint Resolve root_key_errors device_key_errors persona_key_errors guardian_errors
  device_owned_errors persona_owned_errors time_window_errors deposits_errors : ember.

(** The authorizer fails on the coherence of the event alone, or with an error of the kinds
    the sanitizer covers. *)
Lemma authorize_inner_error e s now x :
  authorize_inner e s now = Err x →
  check_signer_subject_coherence (ev_signer_binding e) (ev_body e) = Err x
  ∨ (check_signer_subject_coherence (ev_signer_binding e) (ev_body e) = Ok tt ∧ state_dependent x).
Proof.
  unfold authorize_inner.
  destruct (check_signer_subject_coherence _ _) as [[]|y]; simpl; [|intros [= ->]; by left].
  intros H. right. split; [done|]. revert x H.
  match goal with |- ∀ x, ?v = Err x → _ => change (only_state_errors v) end.
  destruct (ev_body e); state_errors; auto with ember.
Qed.

(** What an untrusted client sees of a refusal carries no information on the state:
    two refusals of the same event, in any two states and at any two times, are the same
    error. *)
Theorem authorize_error_noninterference e s1 s2 now1 now2 x1 x2 :
  authorize IdentityAuthorizer e s1 now1 = Err x1 →
  authorize IdentityAuthorizer e s2 now2 = Err x2 → x1 = x2.
Proof.
  unfold authorize; simpl.
  destruct (authorize_inner e s1 now1) as [|y1] eqn:H1; [intros [=]|].
  destruct (authorize_inner e s2 now2) as [|y2] eqn:H2; [intros _ [=]|].
  simpl. intros [= <-] [= <-].
  apply authorize_inner_error in H1, H2.
  assert (∀ y, state_dependent y → sanitize_authorize_error y
            = mkError Unauthorized "unauthorized for the requested operation") as Hs.
  { unfold sanitize_authorize_error. by intros y [-> | [-> | ->]]. }
  destruct H1 as [H1|[H1 D1]], H2 as [H2|[H2 D2]]; try congruence. by rewrite !Hs.
Qed.

(** ** Who an event speaks for *)

Definition acting_persona (b : EventBody) : option string :=
  match b with
  | PersonaKeyRotated b => Some (pkr_persona_id b)
  | TrustAttested b => Some (ta_attester_persona_id b)
  | TrustRevoked b => Some (tr_attester_persona_id b)
  | MessageSent b => Some (ms_sender_persona_id b)
  | ContentPublished b => Some (cp_author_persona_id b)
  | DisclosureRevoked b => Some (dr_revoker_persona_id b)
  | GrantOfferCreated b => Some (goc_issuer_persona_id b)
  | GrantOfferClaimed b => Some (gcl_recipient_persona_id b)
  | GrantOfferRevoked b => Some (gor_issuer_persona_id b)
  | BadgeIssued b => Some (bi_issuer_persona_id b)
  | BadgeRevoked b => Some (br_revoker_persona_id b)
  | BadgeDisputed b => Some (bd_disputer_persona_id b)
  | CredentialDeposited b => Some (cd_issuer_id b)
  | CredentialRevoked b => Some (cr_revoker_id b)
  | _ => None
  end.

Definition acting_device (b : EventBody) : option string :=
  match b with
  | DeviceKeyRotated b => Some (dkr_device_id b)
  | DeviceEncryptionKeyRotated b => Some (dekr_device_id b)
  | RelayHintUpdated b => Some (rhu_device_id b)
  | EndpointRotated b => Some (er_device_id b)
  | _ => None
  end.

Definition acting_root (b : EventBody) : option string :=
  match b with
  | RootKeyRotated b => Some (rkr_root_id b)
  | RootRevoked b => Some (rr_root_id b)
  | DeviceAdded b => Some (da_root_id b)
  | DeviceEnrolled b => Some (de_root_id b)
  | DeviceReplaced b => Some (drp_root_id b)
  | PersonaCreated b => Some (pc_root_id b)
  | RecoveryPolicyCreated b => Some (rpc_root_id b)
  | RecoveryRequested b => Some (rrq_root_id b)
  | GuardianEnrolled b => Some (ge_root_id b)
  | StorageRelationshipCreated b => Some (src_root_id b)
  | StorageLedgerUpdated b => Some (slu_root_id b)
  | StorageManifestPublished b => Some (smp_root_id b)
  | _ => None
  end.

Lemma authorize_acting e s now :
  authorize_inner e s now = Ok tt →
  (∀ p, acting_persona (ev_body e) = Some p → persona_authority s e p)
  ∧ (∀ d, acting_device (ev_body e) = Some d → device_authority s e d)
  ∧ (∀ r, acting_root (ev_body e) = Some r → root_authority s e r).
Proof.
  intros Ha. destruct (ev_body e) eqn:Hbody; simpl; split_and!; intros ? [=]; subst.
  all: run_auth Ha Hbody; assumption.
Qed.

(** ** A guardian of another root

    The rotation of a guardian's key asks for the authority of the root named in the body and
    not of the root the guardian is enrolled for. *)

Section Guardian.
Context {J : JsonOps}.

(** Any active root can replace the key of any guardian, of whatever root: an
    event signed with the authority of the root its body names is accepted and applied, and the
    guardian keeps its own root with the new key. *)
Theorem foreign_root_rotates_guardian s e now body g :
  ev_body e = GuardianKeyRotated body →
  root_authority s e (gkr_root_id body) →
  guardians_current s !! gkr_guardian_id body = Some g →
  gua_public_key g = gkr_previous_key_id body →
  authorize_inner e s now = Ok tt ∧
  ∃ s', apply_event s e = Ok s' ∧
    guardians_current s' !! gkr_guardian_id body
    = Some (mkGuardianRecord (gua_guardian_id g) (gua_root_id g) (gua_label g)
              (gkr_new_guardian_public_key body)).
Proof.
  intros Hb Hroot Hg Hk. apply authorize_root_key_Ok in Hroot.
  unfold authorize_inner, apply_event. rewrite Hb. split.
  - simpl. by rewrite Hroot.
  - eexists. split.
    + simpl. unfold apply_guardian_key_rotated. rewrite Hg. simpl.
      rewrite bool_decide_eq_true_2 by done. simpl. reflexivity.
    + simpl. apply lookup_insert_eq.
Qed.

End Guardian.

(** ** Witnesses *)

Definition demo_root (i : string) : RootRecord :=
  mkRootRecord i "Primary" (mkPublicKeyMaterial ("key-" +:+ i) KA_Ed25519 ("pub-" +:+ i)) Root_Active.

Definition demo_device (root i : string) : DeviceRecord :=
  mkDeviceRecord root i "Laptop"
    (mkPublicKeyMaterial ("key-" +:+ i) KA_Ed25519 ("pub-" +:+ i))
    (mkPublicKeyMaterial ("enc-" +:+ i) KA_AgeX25519 ("age1" +:+ i)) Dev_Active None
    CC_Presence (Some "statement") AT_VendorHw PF_HardwareTouch.

Definition demo_state : MaterializedState :=
  set_guardians_current {["g" := mkGuardianRecord "g" "b" "Guardian" "old"]}
    (set_devices_current {["d" := demo_device "a" "d"]}
       (set_roots_current (<["a" := demo_root "a"]> {["b" := demo_root "b"]}) empty_state)).

Definition demo_event (signer : EventSubject) (key : string) (role : KeyRole) (body : EventBody)
  : EventEnvelope :=
  mkEventEnvelope SCHEMA_V0_1_0 "evt" (EventBody_event_type body) (EventBody_subject body)
    (mkSignerBinding signer ("key-" +:+ key) role) ("pub-" +:+ key) [] [] "sig" body.

Definition no_json : JsonOps := {| json_from_str := λ _, Err "no parser";
                                   conditions_from_value := λ _, Err "no parser" |}.

Definition demo_revocation : EventEnvelope :=
  demo_event (mkEventSubject SK_Root "a") "d" KR_Device
    (DeviceRevoked (mkDeviceRevoked "a" "d" "lost")).

Lemma authority_confined_witness :
  ∃ s', (@apply_event no_json demo_state demo_revocation = Ok s' ∧
         authorize_inner demo_revocation demo_state 0 = Ok tt) ∧
        devices_current s' !! "d" ≠ devices_current demo_state !! "d" ∧
        changes_only (devices_current demo_state) (devices_current s')
          (device_change demo_state demo_revocation).
Proof.
  eexists. split; [split; [vm_compute; reflexivity|vm_compute; reflexivity]|].
  split; [vm_compute; congruence|].
  apply (@authority_confined no_json demo_state demo_revocation 0);
    [vm_compute; reflexivity|vm_compute; reflexivity].
Defined.

Definition demo_message : EventEnvelope :=
  demo_event (mkEventSubject SK_Persona "p") "p" KR_Persona
    (MessageSent (mkMessageSent "m" "p" "q" "00")).

Lemma authorize_error_noninterference_witness :
  authorize_raw IdentityAuthorizer demo_message demo_state 0 = Err (VE.not_found "persona" "p")
  ∧ ∃ x, authorize IdentityAuthorizer demo_message demo_state 0 = Err x
         ∧ authorize IdentityAuthorizer demo_message empty_state 7 = Err x.
Proof.
  split; [vm_compute; reflexivity|].
  assert (∃ x1 x2, authorize IdentityAuthorizer demo_message demo_state 0 = Err x1
                   ∧ authorize IdentityAuthorizer demo_message empty_state 7 = Err x2)
    as (x1 & x2 & H1 & H2) by (do 2 eexists; split; vm_compute; reflexivity).
  exists x1. split; [exact H1|].
  rewrite (authorize_error_noninterference _ _ _ _ _ _ _ H1 H2). exact H2.
Defined.

Definition demo_takeover : EventEnvelope :=
  demo_event (mkEventSubject SK_Root "a") "a" KR_Root
    (GuardianKeyRotated (mkGuardianKeyRotated "g" "a" "old" "attacker")).

Lemma foreign_root_rotates_guardian_witness :
  gua_root_id <$> guardians_current demo_state !! "g" = Some "b" ∧
  authorize_inner demo_takeover demo_state 0 = Ok tt ∧
  ∃ s', @apply_event no_json demo_state demo_takeover = Ok s' ∧
    guardians_current s' !! "g" = Some (mkGuardianRecord "g" "b" "Guardian" "attacker").
Proof.
  split; [reflexivity|].
  apply (@foreign_root_rotates_guardian no_json demo_state demo_takeover 0
           (mkGuardianKeyRotated "g" "a" "old" "attacker")
           (mkGuardianRecord "g" "b" "Guardian" "old")); try reflexivity.
  exists (demo_root "a"). split_and!; [reflexivity|reflexivity|]. left. split; reflexivity.
Defined.
