(* ===== verification/EventLog.v ===== *)
(** * The event log interface

    crates/core-eventlog/src/event_log.rs: the operations every backend of the event log
    supports, with the laws of [append_with_authorizer] the rest of the system relies on, and
    what follows from these laws alone for every log that grows by authorized appends: which
    records exist and how they may change, the chain of references of each root, who has spoken
    and what backs an executed recovery. [MemoryLog] discharges the laws; the stored log of
    [StoredLog] does not satisfy them (it checks no chain, and a refused append may leave its
    effect), and has theorems of its own. *)

From stdpp Require Import base gmap sets list strings relations.
From Stdlib Require Import Ascii Lia ZArith.
From S2P Require Import Prelude CoreTypes EventTypes EventCodec Envelope LogTypes Materialize.
From S2P Require Import Authorize.

(** The operations of the trait [EventLog] the laws below are about. *)
Class EventLog (L : Type) := {
  log_new : L;
  append_with_authorizer : L → EventEnvelope → Verifier → Authorizer → Z → verdict * L;
  materialized : L → MaterializedState;
  events : L → list EventEnvelope
}.

Section Interface.
Context {H : HexOps} {J : JsonOps}.

(** The tests an appended event passed and the state it produced. *)
Definition admitted (verify : Verifier) (a : Authorizer) (now : Z) (s : MaterializedState)
  (e : EventEnvelope) (s' : MaterializedState) : Prop :=
  EventEnvelope_validate e = Ok tt
  ∧ verify_with_context DOMAIN_EVENT verify (ev_signer e) (signed_bytes e) (ev_signature e) = true
  ∧ authorize_raw a e s now = Ok tt
  ∧ check_chain s e = Ok tt
  ∧ ∃ s1, apply_event s e = Ok s1 ∧ s' = advance_chain_head s1 e.

(** What a backend promises: a new log is empty, an append that succeeds admitted the event (at
    a time not later than the caller's) and put it at the end, one that fails changed nothing. *)
Class EventLogLaws (L : Type) `{!EventLog L} : Prop := {
  log_new_events : events (log_new : L) = [];
  log_new_materialized : materialized (log_new : L) = empty_state;
  append_ok : ∀ (l l' : L) e v a now,
    append_with_authorizer l e v a now = (Ok tt, l') →
    events l' = events l ++ [e]
    ∧ ∃ now', (now' ≤ now)%Z ∧ admitted v a now' (materialized l) e (materialized l');
  append_err : ∀ (l l' : L) e v a now x,
    append_with_authorizer l e v a now = (Err x, l') → l' = l
}.

(** ** Runs *)

Section Runs.
Context {L : Type} `{!EventLog L} `{!EventLogLaws L}.

(** One authorized append, accepted or refused. *)
Definition log_step (l l' : L) : Prop :=
  ∃ e v now r, append_with_authorizer l e v IdentityAuthorizer now = (r, l').

Definition reachable (l : L) : Prop := rtc log_step log_new l.

(** An authorized append either changes nothing or admits one event. *)
Lemma log_step_cases l l' :
  log_step l l' →
  l' = l ∨ ∃ e v now, events l' = events l ++ [e]
                      ∧ admitted v IdentityAuthorizer now (materialized l) e (materialized l').
Proof.
  intros (e & v & now & [[]|x] & Hstep).
  - right. destruct (append_ok _ _ _ _ _ _ Hstep) as (He & now' & _ & Hadm). eauto.
  - left. by eapply append_err.
Qed.

Lemma log_step_evolves l l' : log_step l l' → state_evolves (materialized l) (materialized l').
Proof.
  intros [->|(e & v & now & _ & _ & _ & _ & _ & s1 & Hs & ->)]%log_step_cases; [done|].
  transitivity s1; [by eapply apply_event_evolves|apply advance_chain_head_evolves].
Qed.

Lemma run_evolves l l' : rtc log_step l l' → state_evolves (materialized l) (materialized l').
Proof.
  induction 1 as [|l1 l2 l3 Hs _ IH]; [done|]. etransitivity; [by apply log_step_evolves|done].
Qed.

(** An invariant of the events and the state that admitted events keep holds of every reachable
    log. *)
Lemma reachable_ind (P : list EventEnvelope → MaterializedState → Prop) :
  P [] empty_state →
  (∀ es s e v now s', P es s → admitted v IdentityAuthorizer now s e s' → P (es ++ [e]) s') →
  ∀ l, reachable l → P (events l) (materialized l).
Proof.
  intros H0 Hstep. unfold reachable.
  apply (rtc_ind_r (λ l, P (events l) (materialized l)) log_new).
  - by rewrite log_new_events, log_new_materialized.
  - intros l1 l2 _ [->|(e & v & now & -> & Hadm)]%log_step_cases IH; [done|]. eauto.
Qed.

(** ** Referential integrity *)

(** In every log built by authorized appends, the materialized records are stored
    under their own identifiers and refer to records that exist: devices and personas to their
    root, trust edges to both personas, recovery requests and endpoints to a device, ledger
    balances to a relationship. *)
Theorem reachable_state_wf (l : L) : reachable l → state_wf (materialized l).
Proof.
  apply (reachable_ind (λ _, state_wf)).
  - unfold state_wf. split_and!; apply map_Forall_empty.
  - intros es s e v now s' Hwf (_ & _ & _ & _ & s1 & Hs & ->).
    apply advance_chain_head_wf. by eapply apply_event_wf.
Qed.

(** Revocation is final: whatever is appended later, a root, device or persona that
    is on record stays on record under the same owner, a device keeps its custody class,
    attestation and presence factor, and a status other than active never becomes active
    again. *)
Theorem revocation_final (l l' : L) :
  rtc log_step l l' →
  (∀ i r, roots_current (materialized l) !! i = Some r →
     ∃ r', roots_current (materialized l') !! i = Some r' ∧ root_evolves r r') ∧
  (∀ i d, devices_current (materialized l) !! i = Some d →
     ∃ d', devices_current (materialized l') !! i = Some d' ∧ device_evolves d d') ∧
  (∀ i p, personas_current (materialized l) !! i = Some p →
     ∃ p', personas_current (materialized l') !! i = Some p' ∧ persona_evolves p p').
Proof. intros (?&?&?&_)%run_evolves. done. Qed.

(** ** Silence of revoked principals *)

Definition dead_persona (s : MaterializedState) (i : string) : Prop :=
  ∃ p, personas_current s !! i = Some p ∧ per_status p ≠ Per_Active.
Definition dead_device (s : MaterializedState) (i : string) : Prop :=
  ∃ d, devices_current s !! i = Some d ∧ dev_status d ≠ Dev_Active.
Definition dead_root (s : MaterializedState) (i : string) : Prop :=
  ∃ r, roots_current s !! i = Some r ∧ root_status r ≠ Root_Active.

Lemma dead_stays s s' : state_evolves s s' →
  (∀ i, dead_persona s i → dead_persona s' i) ∧ (∀ i, dead_device s i → dead_device s' i)
  ∧ (∀ i, dead_root s i → dead_root s' i).
Proof.
  intros (Hr & Hd & Hp & _). split_and!; intros i (x & Hx & Hst).
  - destruct (Hp i x Hx) as (y & Hy & _ & _ & Hev). exists y. auto.
  - destruct (Hd i x Hx) as (y & Hy & _ & _ & _ & _ & _ & _ & Hev). exists y. auto.
  - destruct (Hr i x Hx) as (y & Hy & _ & Hev). exists y. auto.
Qed.

Definition speaks_for_dead (s : MaterializedState) (e : EventEnvelope) : Prop :=
  (∃ i, acting_persona (ev_body e) = Some i ∧ dead_persona s i)
  ∨ (∃ i, acting_device (ev_body e) = Some i ∧ dead_device s i)
  ∨ (∃ i, acting_root (ev_body e) = Some i ∧ dead_root s i).

Lemma admitted_not_dead v now s e s' :
  admitted v IdentityAuthorizer now s e s' → ¬ speaks_for_dead s e.
Proof.
  intros (_ & _ & Ha & _) Hdead. apply authorize_acting in Ha as (Hp & Hd & Hr).
  destruct Hdead as [(i & Hi & x & Hx & Hst)|[(i & Hi & x & Hx & Hst)|(i & Hi & x & Hx & Hst)]].
  - destruct (Hp i Hi) as (?&?&?&_). congruence.
  - destruct (Hd i Hi) as (?&?&?&_). congruence.
  - destruct (Hr i Hi) as (?&?&?&_). congruence.
Qed.

(** Once a persona, device or root has been revoked, frozen or replaced, no event
    that speaks for it is ever admitted again: the events a log gains in any later run contain
    none whose acting persona, device or root was already dead at the start of the run. *)
Theorem revoked_principals_silent (l l' : L) :
  rtc log_step l l' →
  ∃ added, events l' = events l ++ added
           ∧ Forall (λ e, ¬ speaks_for_dead (materialized l) e) added.
Proof.
  intros Hrun. induction Hrun as [l|l1 l2 l3 Hs Hrun (added & Hev & Hsil)].
  - exists []. by rewrite app_nil_r.
  - pose proof (log_step_evolves _ _ Hs) as Hevo. apply dead_stays in Hevo as (Hp & Hd & Hr).
    apply log_step_cases in Hs as [->|(e & v & now & He & Hadm)]; [by exists added|].
    exists (e :: added). rewrite Hev, He, <-app_assoc. split; [done|].
    constructor; [by eapply admitted_not_dead|].
    eapply Forall_impl; [exact Hsil|]. unfold speaks_for_dead. naive_solver.
Qed.

(** ** The chain of a root *)

Definition root_chain (root : string) (es : list EventEnvelope) : list EventEnvelope :=
  filter (λ e, EventBody_root_id (ev_body e) = Some root) es.

(** What the event at position [i] of a chain says of its predecessor. *)
Definition link_ok (es : list EventEnvelope) (i : nat) (e : EventEnvelope) : Prop :=
  match i with
  | 0 => previous_ref e = None
  | S j => ∃ p r, es !! j = Some p ∧ previous_ref e = Some r
                  ∧ ref_target_event_id r = ev_event_id p
                  ∧ ref_seq r = (Z.of_nat i mod 2 ^ 64)%Z
  end.

Definition linked (es : list EventEnvelope) : Prop := ∀ i e, es !! i = Some e → link_ok es i e.

Definition head_of_chain (es : list EventEnvelope) : option (string * Z) :=
  e ← last es; Some (ev_event_id e, (Z.of_nat (length es - 1) mod 2 ^ 64)%Z).

Definition chains_ok (es : list EventEnvelope) (s : MaterializedState) : Prop :=
  ∀ root, linked (root_chain root es)
          ∧ root_chain_heads s !! root = head_of_chain (root_chain root es).

Lemma link_ok_app es es' i e : link_ok es i e → link_ok (es ++ es') i e.
Proof.
  destruct i; simpl; [done|]. intros (p & r & Hp & ?). exists p, r.
  split; [by apply lookup_app_l_Some|done].
Qed.

Lemma linked_snoc es e : linked es → link_ok es (length es) e → linked (es ++ [e]).
Proof.
  intros Hl Hlink i x. intros [Hx|[Hi Hx]]%lookup_app_Some; apply link_ok_app; [by apply Hl|].
  apply list_lookup_singleton_Some in Hx as [Hx <-].
  by replace i with (length es) by lia.
Qed.

(** The event that [check_chain] accepted continues the chain. *)
Lemma check_chain_links es s e root :
  chains_ok es s → check_chain s e = Ok tt → EventBody_root_id (ev_body e) = Some root →
  link_ok (root_chain root es) (length (root_chain root es)) e.
Proof.
  intros Hok Hc Hroot. apply check_chain_Ok in Hc. rewrite Hroot in Hc.
  destruct (Hok root) as [_ Hhead]. rewrite Hhead in Hc. unfold head_of_chain in Hc.
  destruct (root_chain root es) as [|p c _] using rev_ind; [done|].
  rewrite last_snoc in Hc. simpl in Hc. destruct Hc as (r & Hr & Ht & Hseq).
  rewrite length_app in *; simpl in *. rewrite Nat.add_1_r in *. simpl in *.
  exists p, r. split_and!; [|done|done|].
  - by rewrite lookup_app_r, Nat.sub_diag by done.
  - rewrite Hseq. unfold u64_add. rewrite Nat.sub_0_r, Zplus_mod_idemp_l. f_equal. lia.
Qed.

(** Where an accepted event stands is the sequence number it claims. *)
Lemma link_ok_seq es e :
  link_ok es (length es) e →
  match previous_ref e with Some r => ref_seq r | None => 0%Z end
  = (Z.of_nat (length es) mod 2 ^ 64)%Z.
Proof.
  unfold link_ok. destruct (length es) as [|n]; [by intros ->|].
  by intros (p & r & _ & -> & _ & ->).
Qed.

Lemma chains_ok_step es s e s1 :
  chains_ok es s → check_chain s e = Ok tt → root_chain_heads s1 = root_chain_heads s →
  chains_ok (es ++ [e]) (advance_chain_head s1 e).
Proof.
  intros Hok Hc Hh root. unfold root_chain, advance_chain_head. rewrite filter_app.
  destruct (EventBody_root_id (ev_body e)) as [r|] eqn:Hroot.
  - destruct (decide (r = root)) as [->|Hne].
    + pose proof (check_chain_links _ _ _ _ Hok Hc Hroot) as Hlink.
      rewrite (filter_cons_True _ e), filter_nil by done. split.
      * apply linked_snoc; [apply Hok|exact Hlink].
      * simpl. rewrite lookup_insert_eq. unfold head_of_chain. rewrite last_snoc. simpl.
        rewrite (link_ok_seq _ _ Hlink), length_app. simpl. unfold root_chain.
        do 4 f_equal. lia.
    + rewrite (filter_cons_False _ e), filter_nil, app_nil_r by congruence. simpl.
      rewrite lookup_insert_ne, Hh by done. apply Hok.
  - rewrite (filter_cons_False _ e), filter_nil, app_nil_r by congruence. rewrite Hh. apply Hok.
Qed.

(** An append, under whatever authorizer, keeps the chains. *)
Lemma append_chains (l l' : L) e v a now r :
  append_with_authorizer l e v a now = (r, l') →
  chains_ok (events l) (materialized l) → chains_ok (events l') (materialized l').
Proof.
  destruct r as [[]|x]; intros Happ Hok; [|by rewrite (append_err _ _ _ _ _ _ _ Happ)].
  apply append_ok in Happ as (-> & now' & _ & _ & _ & _ & Hc & s1 & Hs & ->).
  apply (chains_ok_step _ _ e s1 Hok Hc). by eapply apply_event_heads.
Qed.

Lemma chains_ok_new : chains_ok [] empty_state.
Proof. intros root. split; [intros i e [=]|done]. Qed.

(** ** Recovery *)

Lemma advance_chain_head_requests s e :
  recovery_requests_current (advance_chain_head s e) = recovery_requests_current s
  ∧ recovery_policies_current (advance_chain_head s e) = recovery_policies_current s.
Proof. unfold advance_chain_head. by destruct (EventBody_root_id _). Qed.

Definition approvals_backed (es : list EventEnvelope) (s : MaterializedState) : Prop :=
  ∀ i r g, recovery_requests_current s !! i = Some r → g ∈ req_approvals r →
           ∃ e, e ∈ es ∧ ev_body e = RecoveryApproved (mkRecoveryApproved i g).

Lemma reachable_requests (l : L) :
  reachable l → requests_wf (materialized l) ∧ approvals_backed (events l) (materialized l).
Proof.
  apply (reachable_ind (λ es s, requests_wf s ∧ approvals_backed es s)).
  - split; [apply map_Forall_empty|]. intros i r g [=].
  - intros es s e v now s' [Hwf Hb] (_ & _ & _ & _ & s1 & Hs & ->). split.
    + apply advance_chain_head_requests_wf. by eapply apply_event_requests_wf.
    + intros i r g Hr Hg. rewrite (proj1 (advance_chain_head_requests _ _)) in Hr.
      setoid_rewrite elem_of_app.
      destruct (apply_event_approvals _ _ _ _ _ _ Hs Hr Hg) as [(r0 & Hr0 & Hg0)|He].
      * destruct (Hb i r0 g Hr0 Hg0) as (x & ? & ?). eauto.
      * exists e. split; [right; by apply list_elem_of_singleton|done].
Qed.

(** The log at which the request [i] had the approvals its root's policy asks for. *)
Definition threshold_reached (l : L) (i : string) (r : RecoveryRequestRecord) : Prop :=
  ∃ lm rm, reachable lm ∧ rtc log_step lm l
    ∧ recovery_requests_current (materialized lm) !! i = Some rm
    ∧ req_approvals rm ⊆ req_approvals r
    ∧ (approval_threshold (materialized lm) (req_root_id r) <= Z.of_nat (size (req_approvals rm)))%Z.

Lemma threshold_reached_later l l' i r r' :
  threshold_reached l i r → log_step l l' → request_evolves r r' → threshold_reached l' i r'.
Proof.
  intros (lm & rm & Hm & Hrun & Hrm & Hsub & Hthr) Hs (_ & Hroot & _ & Happ & _ & _).
  exists lm, rm. rewrite Hroot. split_and!; try done; [by eapply rtc_r|]. by transitivity (req_approvals r).
Qed.

Lemma threshold_step l l' i r' e s1 :
  reachable l → log_step l l' →
  apply_event (materialized l) e = Ok s1 → materialized l' = advance_chain_head s1 e →
  (∀ r, recovery_requests_current (materialized l) !! i = Some r →
        req_status r = Req_Approved ∨ req_status r = Req_Executed → threshold_reached l i r) →
  recovery_requests_current (materialized l') !! i = Some r' →
  req_status r' = Req_Approved ∨ req_status r' = Req_Executed → threshold_reached l' i r'.
Proof.
  intros Hl Hs Happ Hm IH Hr' Hst.
  assert (recovery_requests_current s1 !! i = Some r') as Hr1.
  { by rewrite Hm, (proj1 (advance_chain_head_requests _ _)) in Hr'. }
  destruct (recovery_requests_current (materialized l) !! i) as [r|] eqn:Hr.
  2:{ pose proof (apply_event_new_request _ _ _ _ _ Happ Hr Hr1) as Hn. destruct Hst; congruence. }
  destruct (log_step_evolves _ _ Hs) as (_ & _ & _ & Hev).
  destruct (Hev i r Hr) as (b & Hb & Hrev). rewrite Hr' in Hb. injection Hb as <-.
  destruct (apply_event_request_status _ _ _ _ _ _ Happ Hr Hr1) as [Hap Hex].
  assert (req_status r = Req_Approved ∨ req_status r = Req_Executed
          ∨ (approval_threshold s1 (req_root_id r) <= Z.of_nat (size (req_approvals r')))%Z)
    as [Ho|[Ho|Ho]] by (destruct Hst as [Hst|Hst]; [destruct (Hap Hst)|destruct (Hex Hst)]; auto).
  1,2: eapply threshold_reached_later; [apply IH; auto|done|done].
  exists l', r'. split_and!; [by eapply rtc_r|done|done|done|].
  destruct Hrev as (_ & -> & _). unfold approval_threshold in *.
  by rewrite Hm, (proj2 (advance_chain_head_requests _ _)).
Qed.

Lemma reachable_threshold (l : L) :
  reachable l → ∀ i r, recovery_requests_current (materialized l) !! i = Some r →
  req_status r = Req_Approved ∨ req_status r = Req_Executed → threshold_reached l i r.
Proof.
  revert l. apply (rtc_ind_r (λ l : L, ∀ i r, recovery_requests_current (materialized l) !! i = Some r →
    req_status r = Req_Approved ∨ req_status r = Req_Executed → threshold_reached l i r) log_new).
  - intros i r. rewrite log_new_materialized. intros [=].
  - intros l1 l2 Hl Hs IH i r. destruct (log_step_cases _ _ Hs) as [->|(e & v & now & _ & Hadm)]; [eauto|].
    destruct Hadm as (_ & _ & _ & _ & s1 & Happ & Hm). by eapply threshold_step; eauto.
Qed.

(** An executed recovery was never contested nor rejected; every approval it
    counts is an approval event of the log for this request; and at some point of the history
    the approvals on record had reached the guardian threshold that the policy of its root
    then set. *)
Theorem executed_recovery_backed (l : L) i r :
  reachable l → recovery_requests_current (materialized l) !! i = Some r →
  req_status r = Req_Executed →
  req_contested_by r = ∅ ∧ req_rejection_reason r = None
  ∧ (∀ g, g ∈ req_approvals r →
       ∃ e, e ∈ events l ∧ ev_body e = RecoveryApproved (mkRecoveryApproved i g))
  ∧ threshold_reached l i r.
Proof.
  intros Hl Hr Hst. destruct (reachable_requests l Hl) as [Hwf Hb].
  specialize (Hwf i r Hr). unfold uncontested_unless_stopped in Hwf. rewrite Hst in Hwf.
  destruct Hwf as (?&_&?). split_and!; try done; [intros g; by apply Hb|].
  apply reachable_threshold; auto.
Qed.

(** A contested or rejected recovery request is stopped for good: in no later log
    is it approved or executed. *)
Theorem contested_recovery_stops (l l' : L) i r :
  rtc log_step l l' → recovery_requests_current (materialized l) !! i = Some r →
  req_status r = Req_Contested ∨ req_status r = Req_Rejected →
  ∃ r', recovery_requests_current (materialized l') !! i = Some r' ∧
        (req_status r' = Req_Contested ∨ req_status r' = Req_Rejected).
Proof.
  intros (_ & _ & _ & Hreq)%run_evolves Hr Hst.
  destruct (Hreq i r Hr) as (r' & Hr' & _ & _ & _ & _ & _ & Hmove). exists r'. split; [done|].
  destruct Hst as [Hst|Hst]; rewrite Hst in Hmove; simpl in Hmove; tauto.
Qed.

End Runs.
End Interface.
