(* ===== verification/MemoryLog.v ===== *)
(** * The in-memory event log

    crates/core-eventlog/src/memory.rs: [MemoryEventLog] with its operations as functions from
    a log to the result and the log afterwards, so that what a failing call leaves behind is
    part of the model. The text form of a log, [export_events] and [import_events], is in the
    file LogText. *)

From stdpp Require Import base gmap sets list strings relations.
From Stdlib Require Import Ascii Lia ZArith.
From S2P Require Import Prelude CoreTypes EventTypes EventCodec Envelope LogTypes Materialize.
From S2P Require Import Authorize EventLog.

Local Infix "+:+" := String.append (at level 60, right associativity).

#[export] Instance EventType_countable : Countable EventType.
Proof. apply (inj_countable EventType_as_str EventType_parse). by intros []. Defined.

Definition MEMORY_LOG_NOW_CEILING : Z := 16725225600.
Definition clamp_now (now_epoch_secs : Z) : Z := Z.min now_epoch_secs MEMORY_LOG_NOW_CEILING.

Record PeerCursor := mkPeerCursor {
  pcu_peer_id : string;
  pcu_last_event_id : option string
}.

Record MemoryEventLog := mkMemoryEventLog {
  ml_events : list EventEnvelope;
  ml_event_index : gmap string nat;
  ml_type_index : gmap EventType (list nat);
  ml_materialized : MaterializedState;
  ml_storage_manifests : gmap string FileManifest;
  ml_peer_cursors : gmap string (option string);
  ml_sync_batches : list SyncBatchRecord
}.

Definition memory_new : MemoryEventLog := mkMemoryEventLog [] ∅ ∅ empty_state ∅ ∅ [].

(** [self.materialized = m; self.storage_manifests = f] *)
Definition set_derived (m : MaterializedState) (f : gmap string FileManifest) (l : MemoryEventLog)
  : MemoryEventLog :=
  mkMemoryEventLog (ml_events l) (ml_event_index l) (ml_type_index l) m f (ml_peer_cursors l)
    (ml_sync_batches l).

(** Indexing of the event [e] at position [idx]. *)
Definition index_event_id (idx : nat) (e : EventEnvelope) (m : gmap string nat) : gmap string nat :=
  <[ev_event_id e := idx]> m.
Definition index_event_type (idx : nat) (e : EventEnvelope) (m : gmap EventType (list nat))
  : gmap EventType (list nat) :=
  <[ev_event_type e := default [] (m !! ev_event_type e) ++ [idx]]> m.

Section Memory.
Context {H : HexOps} {J : JsonOps}.

Definition append_validated (l : MemoryEventLog) (e : EventEnvelope) : verdict * MemoryEventLog :=
  let snapshot_materialized := ml_materialized l in
  let snapshot_manifests := ml_storage_manifests l in
  match check_chain (ml_materialized l) e with
  | Err err => (Err err, l)
  | Ok _ =>
      match apply_event (ml_materialized l) e with
      | Err err => (Err err, set_derived snapshot_materialized snapshot_manifests l)
      | Ok m1 =>
          let m2 := advance_chain_head m1 e in
          match apply_storage_event (ml_storage_manifests l) e m2 with
          | Err err => (Err err, set_derived snapshot_materialized snapshot_manifests l)
          | Ok f =>
              let idx := length (ml_events l) in
              (Ok tt,
               mkMemoryEventLog (ml_events l ++ [e])
                 (index_event_id idx e (ml_event_index l))
                 (index_event_type idx e (ml_type_index l)) m2 f
                 (ml_peer_cursors l) (ml_sync_batches l))
          end
      end
  end.

Definition memory_append_with_authorizer (l : MemoryEventLog) (e : EventEnvelope)
  (verifier : Verifier) (authorizer : Authorizer) (now_epoch_secs : Z) : verdict * MemoryEventLog :=
  let effective_now := clamp_now now_epoch_secs in
  match EventEnvelope_validate e with
  | Err err => (Err err, l)
  | Ok _ =>
      if negb (verify_with_context DOMAIN_EVENT verifier (ev_signer e) (signed_bytes e)
                 (ev_signature e))
      then (Err (VE.new "signature verification failed"), l)
      else match authorize_raw authorizer e (ml_materialized l) effective_now with
           | Err err => (Err err, l)
           | Ok _ => append_validated l e
           end
  end.

Definition append (l : MemoryEventLog) (e : EventEnvelope) (verifier : Verifier)
  : verdict * MemoryEventLog := memory_append_with_authorizer l e verifier AllowAllAuthorizer 0.

(** ** Rebuilding *)

(** The loop of [rebuild]: the derived state after the events, or at the first error. *)
Fixpoint replay (m : MaterializedState) (f : gmap string FileManifest) (es : list EventEnvelope)
  : verdict * (MaterializedState * gmap string FileManifest) :=
  match es with
  | [] => (Ok tt, (m, f))
  | e :: rest =>
      match apply_event m e with
      | Err err => (Err err, (m, f))
      | Ok m1 =>
          let m2 := advance_chain_head m1 e in
          match apply_storage_event f e m2 with
          | Err err => (Err err, (m2, f))
          | Ok f' => replay m2 f' rest
          end
      end
  end.

Definition collect_event_index (es : list EventEnvelope) : gmap string nat :=
  foldl (λ m x, index_event_id x.1 x.2 m) ∅ (imap pair es).
Definition collect_type_index (es : list EventEnvelope) : gmap EventType (list nat) :=
  foldl (λ m x, index_event_type x.1 x.2 m) ∅ (imap pair es).

Definition rebuild_indices (l : MemoryEventLog) : MemoryEventLog :=
  mkMemoryEventLog (ml_events l) (collect_event_index (ml_events l))
    (collect_type_index (ml_events l)) (ml_materialized l) (ml_storage_manifests l)
    (ml_peer_cursors l) (ml_sync_batches l).

(** A failing replay leaves the log without its events: they were taken out before the loop. *)
Definition rebuild (l : MemoryEventLog) : verdict * MemoryEventLog :=
  match replay empty_state ∅ (ml_events l) with
  | (Err err, (m, f)) =>
      (Err err, mkMemoryEventLog [] (ml_event_index l) (ml_type_index l) m f (ml_peer_cursors l)
                  (ml_sync_batches l))
  | (Ok _, (m, f)) => (Ok tt, rebuild_indices (set_derived m f l))
  end.

(** ** Queries *)

Definition event_count (l : MemoryEventLog) : nat := length (ml_events l).
Definition has_event (l : MemoryEventLog) (event_id : string) : bool :=
  bool_decide (is_Some (ml_event_index l !! event_id)).

(** [self.events[idx]] panics out of range: [None] at the outer level. *)
Definition current_event_type_for (l : MemoryEventLog) (event_id : string)
  : option (option EventType) :=
  match ml_event_index l !! event_id with
  | None => Some None
  | Some idx => e ← ml_events l !! idx; Some (Some (ev_event_type e))
  end.

Definition event_ids (l : MemoryEventLog) : list string := ev_event_id <$> ml_events l.

Definition events_by_ids (l : MemoryEventLog) (ids : list string) : option (list EventEnvelope) :=
  mapM (λ idx, ml_events l !! idx) (omap (λ i, ml_event_index l !! i) ids).

Definition events_of_type (l : MemoryEventLog) (t : EventType) : option (list EventEnvelope) :=
  mapM (λ idx, ml_events l !! idx) (default [] (ml_type_index l !! t)).

Definition events_of_type_rev (l : MemoryEventLog) (t : EventType) : option (list EventEnvelope) :=
  mapM (λ idx, ml_events l !! idx) (reverse (default [] (ml_type_index l !! t))).

Definition peer_cursor (l : MemoryEventLog) (peer_id : string) : PeerCursor :=
  mkPeerCursor peer_id (default None (ml_peer_cursors l !! peer_id)).

Definition peer_cursors (l : MemoryEventLog) : list PeerCursor :=
  (λ x, mkPeerCursor x.1 x.2) <$> btree_entries (ml_peer_cursors l).

Definition sync_batches (l : MemoryEventLog) : list SyncBatchRecord := ml_sync_batches l.

(** ** Synchronization *)

(** The loop of [import_sync_batch] on the log [l]; [snapshot] is the log before the batch. A
    validation error returns without the snapshot being put back. *)
Fixpoint import_loop (verifier : Verifier) (authorizer : Authorizer) (effective_now : Z)
  (snapshot l : MemoryEventLog) (imported events : list EventEnvelope)
  : result (list EventEnvelope) ValidationError * MemoryEventLog :=
  let restored := set_derived (ml_materialized snapshot) (ml_storage_manifests snapshot) l in
  match events with
  | [] => (Ok imported, l)
  | e :: rest =>
      match EventEnvelope_validate e with
      | Err err => (Err err, l)
      | Ok _ =>
          if negb (verify_with_context DOMAIN_EVENT verifier (ev_signer e) (signed_bytes e)
                     (ev_signature e))
          then (Err (VE.new "signature verification failed"), restored)
          else if bool_decide (is_Some (ml_event_index l !! ev_event_id e))
                  || existsb (λ x, bool_decide (ev_event_id x = ev_event_id e)) imported
          then import_loop verifier authorizer effective_now snapshot l imported rest
          else match authorize_raw authorizer e (ml_materialized l) effective_now with
               | Err err => (Err err, restored)
               | Ok _ =>
                   match check_chain (ml_materialized l) e with
                   | Err err => (Err err, restored)
                   | Ok _ =>
                       match apply_event (ml_materialized l) e with
                       | Err err => (Err err, restored)
                       | Ok m1 =>
                           let m2 := advance_chain_head m1 e in
                           match apply_storage_event (ml_storage_manifests l) e m2 with
                           | Err err => (Err err, restored)
                           | Ok f =>
                               import_loop verifier authorizer effective_now snapshot
                                 (set_derived m2 f l) (imported ++ [e]) rest
                           end
                       end
                   end
               end
      end
  end.

(** The indices after the events of a batch were put behind the first [base] ones. *)
Definition index_batch (base : nat) (imported : list EventEnvelope) (l : MemoryEventLog)
  : gmap string nat * gmap EventType (list nat) :=
  foldl (λ m x, (index_event_id (base + x.1) x.2 m.1, index_event_type (base + x.1) x.2 m.2))
    (ml_event_index l, ml_type_index l) (imap pair imported).

Definition import_sync_batch (l : MemoryEventLog) (peer_id batch_id : string)
  (events : list EventEnvelope) (last_remote_event_id : option string) (verifier : Verifier)
  (authorizer : Authorizer) (now_epoch_secs : Z)
  : result nat ValidationError * MemoryEventLog :=
  match import_loop verifier authorizer (clamp_now now_epoch_secs) l l [] events with
  | (Err err, l') => (Err err, l')
  | (Ok imported, l1) =>
      let batches := ml_sync_batches l1 ++ [mkSyncBatchRecord batch_id peer_id last_remote_event_id] in
      let cursors := match last_remote_event_id with
                     | Some last_id => <[peer_id := Some last_id]> (ml_peer_cursors l1)
                     | None => ml_peer_cursors l1
                     end in
      let indices := index_batch (length (ml_events l1)) imported l1 in
      (Ok (length imported),
       mkMemoryEventLog (ml_events l1 ++ imported) indices.1 indices.2 (ml_materialized l1)
         (ml_storage_manifests l1) cursors batches)
  end.

End Memory.

#[export] Instance memory_event_log {H : HexOps} {J : JsonOps} : EventLog MemoryEventLog := {|
  log_new := memory_new;
  append_with_authorizer := memory_append_with_authorizer;
  materialized := ml_materialized;
  events := ml_events
|}.

(** ** Lemmas *)

Lemma set_derived_same l : set_derived (ml_materialized l) (ml_storage_manifests l) l = l.
Proof. by destruct l. Qed.

Lemma collect_event_index_snoc es e :
  collect_event_index (es ++ [e]) = index_event_id (length es) e (collect_event_index es).
Proof.
  unfold collect_event_index. rewrite imap_app, foldl_app. simpl. by rewrite Nat.add_0_r.
Qed.

Lemma collect_type_index_snoc es e :
  collect_type_index (es ++ [e]) = index_event_type (length es) e (collect_type_index es).
Proof.
  unfold collect_type_index. rewrite imap_app, foldl_app. simpl. by rewrite Nat.add_0_r.
Qed.

Lemma index_batch_snoc base imported e l :
  index_batch base (imported ++ [e]) l =
  (index_event_id (base + length imported) e (index_batch base imported l).1,
   index_event_type (base + length imported) e (index_batch base imported l).2).
Proof. unfold index_batch. rewrite imap_app, foldl_app. simpl. by rewrite Nat.add_0_r. Qed.

Section Properties.
Context {H : HexOps} {J : JsonOps}.

Lemma replay_app m f es es' :
  replay m f (es ++ es') =
  match replay m f es with
  | (Ok _, (m', f')) => replay m' f' es'
  | r => r
  end.
Proof.
  revert m f. induction es as [|e es IH]; intros m f; simpl; [done|].
  destruct (apply_event m e); [|done]. destruct (apply_storage_event _ _ _); [apply IH|done].
Qed.

(** The shape of an append: refused without a trace, or one event at the end. *)
Lemma append_validated_cases l e :
  (∃ x, append_validated l e = (Err x, l))
  ∨ (∃ m1 f, check_chain (ml_materialized l) e = Ok tt
     ∧ apply_event (ml_materialized l) e = Ok m1
     ∧ apply_storage_event (ml_storage_manifests l) e (advance_chain_head m1 e) = Ok f
     ∧ append_validated l e =
       (Ok tt, mkMemoryEventLog (ml_events l ++ [e])
                 (index_event_id (length (ml_events l)) e (ml_event_index l))
                 (index_event_type (length (ml_events l)) e (ml_type_index l))
                 (advance_chain_head m1 e) f (ml_peer_cursors l) (ml_sync_batches l))).
Proof.
  unfold append_validated. rewrite set_derived_same.
  destruct (check_chain _ _) as [[]|x]; [|left; by exists x].
  destruct (apply_event _ _) as [m1|x]; [|left; by exists x].
  destruct (apply_storage_event _ _ _) as [f|x] eqn:Hf; [|left; by exists x].
  right. by exists m1, f.
Qed.

Lemma memory_append_cases l e v a now :
  (∃ x, memory_append_with_authorizer l e v a now = (Err x, l))
  ∨ (EventEnvelope_validate e = Ok tt
     ∧ verify_with_context DOMAIN_EVENT v (ev_signer e) (signed_bytes e) (ev_signature e) = true
     ∧ authorize_raw a e (ml_materialized l) (clamp_now now) = Ok tt
     ∧ memory_append_with_authorizer l e v a now = append_validated l e).
Proof.
  unfold memory_append_with_authorizer.
  destruct (EventEnvelope_validate e) as [[]|x]; [|left; by exists x].
  destruct (verify_with_context _ _ _ _ _); simpl; [|left; by eexists].
  destruct (authorize_raw a e _ _) as [[]|x]; [by right|left; by exists x].
Qed.

#[export] Instance memory_event_log_laws : EventLogLaws MemoryEventLog.
Proof.
  split; [done|done|..]; simpl.
  - intros l l' e v a now Happ.
    destruct (memory_append_cases l e v a now) as [(x & Hx)|(Hv & Hsig & Hauth & Heq)]; [congruence|].
    destruct (append_validated_cases l e) as [(x & Hx)|(m1 & f & Hc & Hm & Hf & Hok)]; [congruence|].
    rewrite Heq, Hok in Happ. injection Happ as <-. split; [done|]. exists (clamp_now now). split; [unfold clamp_now; lia|].
    split_and!; try done. by exists m1.
  - intros l l' e v a now x Happ.
    destruct (memory_append_cases l e v a now) as [(y & Hy)|(Hv & Hsig & Hauth & Heq)]; [congruence|].
    destruct (append_validated_cases l e) as [(y & Hy)|(m1 & f & Hc & Hm & Hf & Hok)]; congruence.
Qed.

(** ** The derived data are a function of the events *)

Definition memory_wf (l : MemoryEventLog) : Prop :=
  replay empty_state ∅ (ml_events l) = (Ok tt, (ml_materialized l, ml_storage_manifests l))
  ∧ ml_event_index l = collect_event_index (ml_events l)
  ∧ ml_type_index l = collect_type_index (ml_events l).

Lemma append_validated_wf l e : memory_wf l → memory_wf (append_validated l e).2.
Proof.
  intros (Hr & Hi & Ht). destruct (append_validated_cases l e) as [(x & ->)|(m1 & f & Hc & Hm & Hf & ->)];
    [done|].
  unfold memory_wf. simpl. rewrite replay_app, Hr. simpl. rewrite Hm, Hf.
  by rewrite collect_event_index_snoc, collect_type_index_snoc, Hi, Ht.
Qed.

Lemma memory_append_wf l e v a now :
  memory_wf l → memory_wf (memory_append_with_authorizer l e v a now).2.
Proof.
  intros Hwf. destruct (memory_append_cases l e v a now) as [(x & ->)|(_ & _ & _ & ->)]; [done|].
  by apply append_validated_wf.
Qed.

Lemma rebuild_wf l : memory_wf l → rebuild l = (Ok tt, l).
Proof. intros (Hr & Hi & Ht). unfold rebuild. rewrite Hr. destruct l; simpl in *. by subst. Qed.

(** ** Batches and single appends *)

Fixpoint append_all (l : MemoryEventLog) (es : list EventEnvelope) (v : Verifier) (a : Authorizer)
  (now : Z) : verdict * MemoryEventLog :=
  match es with
  | [] => (Ok tt, l)
  | e :: rest =>
      match memory_append_with_authorizer l e v a now with
      | (Ok _, l') => append_all l' rest v a now
      | (Err x, l') => (Err x, l')
      end
  end.

Lemma append_all_snoc l es e v a now l1 :
  append_all l es v a now = (Ok tt, l1) →
  append_all l (es ++ [e]) v a now = memory_append_with_authorizer l1 e v a now.
Proof.
  revert l. induction es as [|x es IH]; intros l; simpl.
  - intros [= ->]. by destruct (memory_append_with_authorizer _ _ _ _ _) as [[[]|] ?].
  - destruct (memory_append_with_authorizer l x v a now) as [[[]|] l2]; [apply IH|done].
Qed.

Lemma append_all_wf l es v a now : memory_wf l → memory_wf (append_all l es v a now).2.
Proof.
  revert l. induction es as [|e es IH]; intros l Hwf; simpl; [done|].
  pose proof (memory_append_wf l e v a now Hwf) as Hwf'.
  destruct (memory_append_with_authorizer l e v a now) as [[[]|] l2]; [by apply IH|done].
Qed.

(** The log [l2] after single appends of [imported] to [l0] agrees with the log [l] in the middle
    of the import loop: only the events and the indices are not written yet. *)
Definition batch_pending (v : Verifier) (a : Authorizer) (now : Z) (l0 l : MemoryEventLog)
  (imported : list EventEnvelope) : Prop :=
  append_all l0 imported v a now =
    (Ok tt, mkMemoryEventLog (ml_events l0 ++ imported)
              (index_batch (length (ml_events l0)) imported l0).1
              (index_batch (length (ml_events l0)) imported l0).2
              (ml_materialized l) (ml_storage_manifests l) (ml_peer_cursors l0) (ml_sync_batches l0))
  ∧ l = set_derived (ml_materialized l) (ml_storage_manifests l) l0.

Lemma batch_pending_step v a now l0 l imported e m1 f :
  batch_pending v a now l0 l imported →
  EventEnvelope_validate e = Ok tt →
  verify_with_context DOMAIN_EVENT v (ev_signer e) (signed_bytes e) (ev_signature e) = true →
  authorize_raw a e (ml_materialized l) (clamp_now now) = Ok tt →
  check_chain (ml_materialized l) e = Ok tt → apply_event (ml_materialized l) e = Ok m1 →
  apply_storage_event (ml_storage_manifests l) e (advance_chain_head m1 e) = Ok f →
  batch_pending v a now l0 (set_derived (advance_chain_head m1 e) f l) (imported ++ [e]).
Proof.
  intros [Hall Hl] Hv Hsig Hauth Hc Hm Hf. split; [|by rewrite Hl].
  rewrite (append_all_snoc _ _ _ _ _ _ _ Hall).
  unfold memory_append_with_authorizer, append_validated. simpl.
  rewrite Hv, Hsig, Hauth. simpl. rewrite Hc, Hm, Hf, index_batch_snoc, length_app. simpl.
  by rewrite <-app_assoc.
Qed.

Lemma import_loop_Ok v a now l0 l imported es imported' l' :
  batch_pending v a now l0 l imported →
  import_loop v a (clamp_now now) l0 l imported es = (Ok imported', l') →
  batch_pending v a now l0 l' imported' ∧ ∃ added, imported' = imported ++ added ∧ added `sublist_of` es.
Proof.
  revert l imported. induction es as [|e es IH]; intros l imported Hp; simpl.
  - intros [= <- <-]. split; [done|]. exists []. by rewrite app_nil_r.
  - destruct (EventEnvelope_validate e) as [[]|] eqn:Hv; [|done].
    destruct (verify_with_context _ _ _ _ _) eqn:Hsig; simpl; [|done].
    destruct (_ || _).
    { intros Hloop. destruct (IH _ _ Hp Hloop) as (? & added & -> & ?).
      split; [done|]. exists added. split; [done|]. by apply sublist_cons. }
    destruct (authorize_raw _ _ _ _) as [[]|] eqn:Hauth; [|done].
    destruct (check_chain _ _) as [[]|] eqn:Hc; [|done].
    destruct (apply_event _ _) as [m1|] eqn:Hm; [|done].
    destruct (apply_storage_event _ _ _) as [f|] eqn:Hf; [|done]. intros Hloop.
    destruct (IH _ _ (batch_pending_step _ _ _ _ _ _ _ _ _ Hp Hv Hsig Hauth Hc Hm Hf) Hloop)
      as (? & added & -> & ?).
    split; [done|]. exists (e :: added). rewrite <-app_assoc. split; [done|]. by apply sublist_skip.
Qed.

(** The bookkeeping of a finished batch. *)
Definition record_sync (peer_id batch_id : string) (last : option string) (l : MemoryEventLog)
  : MemoryEventLog :=
  mkMemoryEventLog (ml_events l) (ml_event_index l) (ml_type_index l) (ml_materialized l)
    (ml_storage_manifests l)
    (match last with Some i => <[peer_id := Some i]> (ml_peer_cursors l) | None => ml_peer_cursors l end)
    (ml_sync_batches l ++ [mkSyncBatchRecord batch_id peer_id last]).

Lemma import_Ok_appends l peer batch es last v a now n l' :
  import_sync_batch l peer batch es last v a now = (Ok n, l') →
  ∃ imported l2, imported `sublist_of` es ∧ length imported = n
    ∧ append_all l imported v a now = (Ok tt, l2) ∧ l' = record_sync peer batch last l2.
Proof.
  unfold import_sync_batch.
  destruct (import_loop _ _ _ _ _ _ _) as [[imported|] l1] eqn:Hloop; [|done].
  intros [= <- <-].
  assert (batch_pending v a now l l []) as Hp.
  { unfold batch_pending. rewrite app_nil_r, set_derived_same. by destruct l. }
  destruct (import_loop_Ok _ _ _ _ _ _ _ _ _ Hp Hloop) as ((Hall & Hl1) & added & -> & Hsub).
  simpl in *. do 2 eexists. split_and!; [exact Hsub|done|exact Hall|].
  unfold record_sync. simpl. rewrite Hl1. by destruct last.
Qed.

(** A successful batch import does exactly what single appends of the new events of
    the batch, in their order, would have done, each one validated, verified, authorized in the
    state its predecessors left and checked against its chain; in addition it records the batch
    and the peer's cursor. The count it returns is the number of these events. *)
Theorem import_sync_batch_refines_appends l peer batch es last v a now n l' :
  import_sync_batch l peer batch es last v a now = (Ok n, l') →
  ∃ imported l2, imported `sublist_of` es ∧ length imported = n
    ∧ append_all l imported v a now = (Ok tt, l2) ∧ l' = record_sync peer batch last l2.
Proof. apply import_Ok_appends. Qed.

(** ** Rebuilding *)

(** What the holder of a log can do to it: append under any authorizer, or import a batch that is
    accepted as a whole. *)
Definition memory_step (l l' : MemoryEventLog) : Prop :=
  (∃ e v a now r, memory_append_with_authorizer l e v a now = (r, l'))
  ∨ (∃ peer batch es last v a now n, import_sync_batch l peer batch es last v a now = (Ok n, l')).

Lemma memory_new_wf : memory_wf memory_new.
Proof. done. Qed.

Lemma memory_step_wf l l' : memory_step l l' → memory_wf l → memory_wf l'.
Proof.
  intros [(e & v & a & now & r & Happ)|(peer & batch & es & last & v & a & now & n & Himp)] Hwf.
  - pose proof (memory_append_wf l e v a now Hwf) as Hwf'. by rewrite Happ in Hwf'.
  - destruct (import_Ok_appends _ _ _ _ _ _ _ _ _ _ Himp) as (imported & l2 & _ & _ & Hall & ->).
    pose proof (append_all_wf l imported v a now Hwf) as Hwf'. by rewrite Hall in Hwf'.
Qed.

Lemma memory_run_wf l : rtc memory_step memory_new l → memory_wf l.
Proof.
  revert l. apply (rtc_ind_r memory_wf memory_new); [apply memory_new_wf|].
  intros l1 l2 _ Hs Hwf. by eapply memory_step_wf.
Qed.

(** Rebuilding gives back the log: for every log reached by appends, under
    whatever authorizers, and accepted batches, [rebuild] succeeds and leaves the materialized
    state, the manifests and both indices exactly as they were. The derived data are a function
    of the events. *)
Theorem rebuild_identity l : rtc memory_step memory_new l → rebuild l = (Ok tt, l).
Proof. intros Hl. by apply rebuild_wf, memory_run_wf. Qed.

(** ** A failing batch *)

Lemma import_loop_Err v a now l0 l imported es x l' :
  l = set_derived (ml_materialized l) (ml_storage_manifests l) l0 →
  Forall (λ e, EventEnvelope_validate e = Ok tt) es →
  import_loop v a now l0 l imported es = (Err x, l') → l' = l0.
Proof.
  intros Hl Hval. revert l imported Hl.
  induction Hval as [|e es Hv _ IH]; intros l imported Hl; simpl; [done|]. rewrite Hv.
  assert (set_derived (ml_materialized l0) (ml_storage_manifests l0) l = l0) as ->.
  { rewrite Hl. by destruct l0. }
  repeat case_match; try (intros [=]; congruence); try by apply IH.
  apply IH. by rewrite Hl.
Qed.

(** A batch of well-formed events that is refused, by a bad signature, the
    authorizer, a broken chain or the state, leaves the log exactly as it was. *)
Theorem import_sync_batch_atomic l peer batch es last v a now x l' :
  Forall (λ e, EventEnvelope_validate e = Ok tt) es →
  import_sync_batch l peer batch es last v a now = (Err x, l') → l' = l.
Proof.
  intros Hval. unfold import_sync_batch.
  destruct (import_loop _ _ _ _ _ _ _) as [[?|?] ?] eqn:Hloop; [done|]. intros [= <- <-].
  eapply import_loop_Err; [|exact Hval|exact Hloop]. by rewrite set_derived_same.
Qed.

(** ** Queries *)

Lemma collect_event_index_spec es i :
  match collect_event_index es !! i with
  | Some n => ∃ e, es !! n = Some e ∧ ev_event_id e = i
  | None => i ∉ ev_event_id <$> es
  end.
Proof.
  induction es as [|e es IH] using rev_ind; [apply not_elem_of_nil|].
  rewrite collect_event_index_snoc. unfold index_event_id.
  destruct (decide (ev_event_id e = i)) as [<-|Hne].
  - rewrite lookup_insert_eq. exists e. by rewrite lookup_app_r, Nat.sub_diag by done.
  - rewrite lookup_insert_ne by done. destruct (collect_event_index es !! i) as [n|].
    + destruct IH as (x & Hx & Hid). exists x. split; [by apply lookup_app_l_Some|done].
    + rewrite fmap_app, elem_of_app. simpl. rewrite list_elem_of_singleton. naive_solver.
Qed.

Lemma indexed_iff es i : is_Some (collect_event_index es !! i) ↔ i ∈ ev_event_id <$> es.
Proof.
  pose proof (collect_event_index_spec es i) as Hspec.
  destruct (collect_event_index es !! i) as [n|]; split; try done.
  destruct Hspec as (e & He & <-). intros _. apply list_elem_of_fmap_2. by eapply list_elem_of_lookup_2.
Qed.

Lemma mapM_lookup_app (es es' : list EventEnvelope) idx r :
  mapM (λ i, es !! i) idx = Some r → mapM (λ i, (es ++ es') !! i) idx = Some r.
Proof.
  rewrite !mapM_Some. intros Hf. eapply Forall2_impl; [exact Hf|]. intros; by apply lookup_app_l_Some.
Qed.

Lemma mapM_snoc {A B} (f : A → option B) l x r y :
  mapM f l = Some r → f x = Some y → mapM f (l ++ [x]) = Some (r ++ [y]).
Proof. rewrite !mapM_Some. intros ??. apply Forall2_app; [done|]. by constructor. Qed.

Lemma collect_type_index_spec es t :
  mapM (λ i, es !! i) (default [] (collect_type_index es !! t))
  = Some (filter (λ e, ev_event_type e = t) es).
Proof.
  induction es as [|e es IH] using rev_ind; [done|].
  rewrite collect_type_index_snoc, filter_app. unfold index_event_type.
  destruct (decide (ev_event_type e = t)) as [<-|Hne].
  - rewrite lookup_insert_eq, (filter_cons_True _ e), filter_nil by done. simpl.
    apply mapM_snoc; [by apply mapM_lookup_app|]. by rewrite lookup_app_r, Nat.sub_diag by done.
  - rewrite lookup_insert_ne, (filter_cons_False _ e), filter_nil, app_nil_r by done.
    by apply mapM_lookup_app.
Qed.

Lemma events_by_ids_spec l ids :
  memory_wf l →
  ∃ es, events_by_ids l ids = Some es
        ∧ ev_event_id <$> es = filter (λ i, i ∈ event_ids l) ids.
Proof.
  intros (_ & Hi & _). unfold events_by_ids, event_ids. rewrite Hi.
  setoid_rewrite mapM_Some.
  induction ids as [|i ids (es & Hes & Hids)]; [by exists []; split; [constructor|]|].
  simpl. pose proof (collect_event_index_spec (ml_events l) i) as Hspec.
  pose proof (indexed_iff (ml_events l) i) as Hiff.
  destruct (collect_event_index (ml_events l) !! i) as [n|]; simpl.
  - destruct Hspec as (e & He & <-). exists (e :: es). split; [by constructor|].
    rewrite filter_cons_True by (apply Hiff; eauto). rewrite fmap_cons. by rewrite Hids.
  - exists es. split; [done|]. rewrite filter_cons_False; [done|]. by rewrite <-Hiff; intros [? [=]].
Qed.

(** On every log reached by appends and accepted batches the index lookups never
    go out of range and answer from the events alone: an event is present exactly when an event
    with its identifier is in the log, the events of a type are the log filtered by the type (or
    its reverse), and a lookup by identifiers returns one event for each requested identifier
    that is present, in the order of the request. *)
Theorem queries_exact l :
  rtc memory_step memory_new l →
  (∀ i, has_event l i = true ↔ i ∈ event_ids l)
  ∧ (∀ t, events_of_type l t = Some (filter (λ e, ev_event_type e = t) (ml_events l)))
  ∧ (∀ t, events_of_type_rev l t
          = Some (reverse (filter (λ e, ev_event_type e = t) (ml_events l))))
  ∧ (∀ ids, ∃ es, events_by_ids l ids = Some es
                  ∧ ev_event_id <$> es = filter (λ i, i ∈ event_ids l) ids).
Proof.
  intros Hl%memory_run_wf. pose proof Hl as (_ & Hi & Ht). split_and!.
  - intros i. unfold has_event, event_ids. rewrite bool_decide_eq_true, Hi. apply indexed_iff.
  - intros t. unfold events_of_type. rewrite Ht. apply collect_type_index_spec.
  - intros t. unfold events_of_type_rev. rewrite Ht.
    pose proof (collect_type_index_spec (ml_events l) t) as Hspec.
    rewrite mapM_Some in *. by apply Forall2_reverse.
  - intros ids. by apply events_by_ids_spec.
Qed.

(** ** Importing twice *)

Lemma import_loop_accepted v a now l0 l imported es r l' :
  import_loop v a now l0 l imported es = (Ok r, l') →
  Forall (λ e, EventEnvelope_validate e = Ok tt
    ∧ verify_with_context DOMAIN_EVENT v (ev_signer e) (signed_bytes e) (ev_signature e) = true
    ∧ (is_Some (ml_event_index l !! ev_event_id e) ∨ ev_event_id e ∈ ev_event_id <$> r)) es
  ∧ (ev_event_id <$> imported) ⊆ (ev_event_id <$> r).
Proof.
  revert l imported. induction es as [|e es IH]; intros l imported; simpl.
  - intros [= <- <-]. by split.
  - destruct (EventEnvelope_validate e) as [[]|] eqn:Hv; [|done].
    destruct (verify_with_context _ _ _ _ _) eqn:Hsig; simpl; [|done].
    destruct (_ || _) eqn:Hseen.
    + intros Hloop. destruct (IH _ _ Hloop) as [Hall Hsub]. split; [|done].
      constructor; [|done]. split_and!; try done.
      apply orb_true_iff in Hseen as [Hs%bool_decide_eq_true|Hs]; [by left|right].
      apply Hsub. apply existsb_exists in Hs as (x & Hx%list_elem_of_In & Hid%bool_decide_eq_true).
      rewrite <-Hid. by apply list_elem_of_fmap_2.
    + repeat case_match; try done. intros Hloop. destruct (IH _ _ Hloop) as [Hall Hsub].
      rewrite fmap_app in Hsub. split; [|set_solver].
      constructor; [|exact Hall]. split_and!; try done. right. apply Hsub. set_solver.
Qed.

Lemma import_loop_seen v a now l0 l es :
  Forall (λ e, EventEnvelope_validate e = Ok tt
    ∧ verify_with_context DOMAIN_EVENT v (ev_signer e) (signed_bytes e) (ev_signature e) = true
    ∧ is_Some (ml_event_index l !! ev_event_id e)) es →
  import_loop v a now l0 l [] es = (Ok [], l).
Proof.
  induction 1 as [|e es (Hv & Hsig & Hseen) _ IH]; simpl; [done|].
  rewrite Hv, Hsig, bool_decide_eq_true_2 by done. exact IH.
Qed.

(** Importing an accepted batch once more imports nothing: it succeeds with count 0
    and leaves the events, the indices, the materialized state and the manifests as they were;
    only the batch record and the peer's cursor are written again. *)
Theorem import_sync_batch_idempotent l peer batch es last v a now n l' peer' batch' last' a' now' :
  rtc memory_step memory_new l →
  import_sync_batch l peer batch es last v a now = (Ok n, l') →
  import_sync_batch l' peer' batch' es last' v a' now' = (Ok 0, record_sync peer' batch' last' l').
Proof.
  intros Hl Himp.
  assert (memory_wf l') as (_ & Hi & _).
  { eapply memory_step_wf; [|by apply memory_run_wf]. right. eauto 10. }
  pose proof (memory_run_wf l Hl) as (_ & Hi0 & _).
  unfold import_sync_batch in Himp.
  destruct (import_loop _ _ _ _ _ _ _) as [[r|] l1] eqn:Hloop; [|done].
  assert (batch_pending v a now l l []) as Hp.
  { unfold batch_pending. rewrite app_nil_r, set_derived_same. by destruct l. }
  destruct (import_loop_Ok _ _ _ _ _ _ _ _ _ Hp Hloop) as [[_ Hl1] _].
  assert (ml_events l' = ml_events l ++ r) as Hev.
  { injection Himp as _ <-. simpl. by rewrite Hl1. }
  destruct (import_loop_accepted _ _ _ _ _ _ _ _ _ Hloop) as [Hall _].
  unfold import_sync_batch. rewrite import_loop_seen.
  - simpl. unfold record_sync. rewrite app_nil_r. by destruct last', l'.
  - eapply Forall_impl; [exact Hall|]. intros e (? & ? & Hseen). split_and!; try done.
    rewrite Hi, Hev, indexed_iff, fmap_app. rewrite Hi0, indexed_iff in Hseen. set_solver.
Qed.

(** ** Chains and silence in the log in memory *)

Lemma append_all_chains l es v a now r l' :
  append_all l es v a now = (r, l') → chains_ok (ml_events l) (ml_materialized l) → chains_ok (ml_events l') (ml_materialized l').
Proof.
  revert l. induction es as [|e es IH]; intros l; simpl; [by intros [= _ ->]|].
  destruct (memory_append_with_authorizer l e v a now) as [[[]|x] l1] eqn:Happ; intros Hall Hok;
    pose proof (append_chains l l1 e v a now _ Happ Hok) as Hok1; [by eapply IH|by injection Hall as _ <-].
Qed.

(** C10. In the log in memory the events of each root form one chain, in the order of the log, whatever authorizers
    its events were appended or imported under (in batches that were accepted as a whole): the first event has no predecessor,
    the one at position [i] names, by its id, the event at position [i - 1] and carries the sequence number [i] (modulo 2^64), and
    the head on record is the id and the number of the last one. Ids are chosen by the authors of events, so this is
    a chain of references, not of hashes; the stored log checks none ([store_ignores_chain] of [StoredLog]). *)
Theorem memory_root_chain_linked (l : MemoryEventLog) (root : string) :
  rtc memory_step memory_new l →
  linked (root_chain root (ml_events l))
  ∧ root_chain_heads (ml_materialized l) !! root = head_of_chain (root_chain root (ml_events l)).
Proof.
  intros Hl. revert root. change (chains_ok (ml_events l) (ml_materialized l)). revert l Hl.
  apply (rtc_ind_r (λ l, chains_ok (ml_events l) (ml_materialized l)) memory_new); [apply chains_ok_new|].
  intros l1 l2 _ [(e & v & a & now & r & Happ)|(peer & batch & es & last & v & a & now & n & Himp)] IH.
  - exact (append_chains l1 l2 e v a now r Happ IH).
  - destruct (import_Ok_appends _ _ _ _ _ _ _ _ _ _ Himp) as (imported & l' & _ & _ & Hall & ->).
    exact (append_all_chains _ _ _ _ _ _ _ Hall IH).
Qed.

(** Calls under the identity authorizer: appends, accepted or refused, and batches accepted as a whole. *)
Definition identity_step (l l' : MemoryEventLog) : Prop :=
  (∃ e v now r, memory_append_with_authorizer l e v IdentityAuthorizer now = (r, l'))
  ∨ (∃ peer batch es last v now n, import_sync_batch l peer batch es last v IdentityAuthorizer now = (Ok n, l')).

(** ** Runs of the in-memory log *)

Lemma append_all_run (l l' : MemoryEventLog) es v now r :
  append_all l es v IdentityAuthorizer now = (r, l') → rtc log_step l l'.
Proof.
  revert l. induction es as [|e es IH]; intros l; simpl; [by intros [= _ ->]|].
  destruct (memory_append_with_authorizer l e v IdentityAuthorizer now) as [[[]|x] l1] eqn:Happ.
  - intros Hall. eapply rtc_l; [|by apply IH]. by exists e, v, now, (Ok tt).
  - intros [= _ <-]. apply rtc_once. by exists e, v, now, (Err x).
Qed.

Lemma identity_step_run l l' :
  identity_step l l' →
  ∃ l1, rtc log_step l l1 ∧ ml_events l' = ml_events l1 ∧ ml_materialized l' = ml_materialized l1.
Proof.
  intros [(e & v & now & r & Happ)|(peer & batch & es & last & v & now & n & Himp)].
  - exists l'. split; [|done]. apply rtc_once. by exists e, v, now, r.
  - destruct (import_Ok_appends _ _ _ _ _ _ _ _ _ _ Himp) as (imported & l1 & _ & _ & Hall & ->).
    exists l1. split; [by eapply append_all_run|done].
Qed.

(** C11. In the log in memory, under the identity authorizer, a persona, device or root that is no longer active stays
    silent: whatever is appended or imported (in batches accepted as a whole) afterwards, the events the log gains contain none whose acting
    persona, device or root was on record and not active at the start. *)
Theorem memory_revoked_silent (l l' : MemoryEventLog) :
  rtc identity_step l l' →
  ∃ added, ml_events l' = ml_events l ++ added
           ∧ Forall (λ e, ¬ speaks_for_dead (ml_materialized l) e) added
           ∧ (∀ i, dead_persona (ml_materialized l) i → dead_persona (ml_materialized l') i)
           ∧ (∀ i, dead_device (ml_materialized l) i → dead_device (ml_materialized l') i)
           ∧ (∀ i, dead_root (ml_materialized l) i → dead_root (ml_materialized l') i).
Proof.
  induction 1 as [l|l1 l2 l3 Hs _ (added & Hev & Hsil & Hp & Hd & Hr)]; [exists []; by rewrite app_nil_r|].
  destruct (identity_step_run _ _ Hs) as (lm & Hrun & Eev & Em). pose proof (run_evolves _ _ Hrun) as (Hp' & Hd' & Hr')%dead_stays.
  destruct (revoked_principals_silent _ _ Hrun) as (added1 & Hev1 & Hsil1). simpl in *. rewrite Em in *. rewrite Eev in Hev.
  exists (added1 ++ added). rewrite Hev, Hev1, <-app_assoc. split_and!; [done| |auto|auto|auto].
  apply Forall_app. split; [done|]. eapply Forall_impl; [exact Hsil|]. unfold speaks_for_dead. naive_solver.
Qed.

Lemma log_step_memory_step (l l' : MemoryEventLog) : log_step l l' → memory_step l l'.
Proof. intros (e & v & now & r & Happ). left. by exists e, v, IdentityAuthorizer, now, r. Qed.

Lemma reachable_memory (l : MemoryEventLog) : reachable l → rtc memory_step memory_new l.
Proof.
  intros Hl. eapply rtc_subrel; [|exact Hl]. apply log_step_memory_step.
Qed.

End Properties.

(** ** A sample history *)

#[local] Existing Instance demo_hex.
#[local] Existing Instance no_json.

Definition sample_key (i : string) : PublicKeyMaterial :=
  mkPublicKeyMaterial ("key-" +:+ i) KA_Ed25519 ("pub-" +:+ i).
Definition sample_enc_key (i : string) : PublicKeyMaterial :=
  mkPublicKeyMaterial ("enc-" +:+ i) KA_AgeX25519 ("age1" +:+ i).

Definition sample_event (event_id : string) (body : EventBody) (refs : list EventRef)
  (binding : SignerBinding) (signer : string) : EventEnvelope :=
  mkEventEnvelope SCHEMA_V0_1_0 event_id (EventBody_event_type body) (EventBody_subject body)
    binding signer (EventBody_canonical_encode body) refs "sig" body.

Definition sample_verifier : Verifier := λ _ _ s, bool_decide (s = "sig").

Definition by_root : SignerBinding := mkSignerBinding (mkEventSubject SK_Root "a") "key-a" KR_Root.
Definition by_guardian : SignerBinding := mkSignerBinding (mkEventSubject SK_Principal "g") "gk" KR_Guardian.

Definition sample_genesis : EventEnvelope :=
  sample_event "e0" (RootCreated (mkRootCreated "a" "Primary" (sample_key "a"))) [] by_root "pub-a".

(** A root, its device and its guardian. *)
Definition sample_setup : list EventEnvelope :=
  [ sample_genesis;
    sample_event "e1" (DeviceAdded (mkDeviceAdded "a" "d" "Laptop" (sample_key "d") (sample_enc_key "d")))
      [EventRef_previous "e0" 1] by_root "pub-a";
    sample_event "e2" (GuardianEnrolled (mkGuardianEnrolled "a" "g" "Guardian" "gk"))
      [EventRef_previous "e1" 2] by_root "pub-a";
    sample_event "e3" (RecoveryRequested (mkRecoveryRequested "q" "a" "d"))
      [EventRef_previous "e2" 3] by_root "pub-a" ].

(** The guardian approves and the root executes. *)
Definition sample_recovery : list EventEnvelope :=
  [ sample_event "e4" (RecoveryApproved (mkRecoveryApproved "q" "g")) [] by_guardian "gk";
    sample_event "e5" (RecoveryExecuted (mkRecoveryExecuted "q" RS_FreezeDevice)) [] by_root "pub-a" ].

(** The guardian contests. *)
Definition sample_contest : list EventEnvelope :=
  [ sample_event "e4" (RecoveryContested (mkRecoveryContested "q" "g" "not me" 7)) [] by_guardian "gk" ].

(** The device is lost. *)
Definition sample_loss : list EventEnvelope :=
  [ sample_event "e4" (DeviceRevoked (mkDeviceRevoked "a" "d" "lost")) [EventRef_previous "e3" 4]
      by_root "pub-a" ].

Definition sample_log (es : list EventEnvelope) : verdict * MemoryEventLog :=
  append_all memory_new es sample_verifier IdentityAuthorizer 100.

Lemma sample_reachable es : reachable (sample_log es).2.
Proof. eapply append_all_run. apply surjective_pairing. Qed.

Lemma sample_continues es es' :
  rtc log_step (sample_log es).2
    (append_all (sample_log es).2 es' sample_verifier IdentityAuthorizer 100).2.
Proof. eapply append_all_run. apply surjective_pairing. Qed.

(** The state after the sample recovery, contest and loss. *)
Definition sample_after (es : list EventEnvelope) : MemoryEventLog :=
  (append_all (sample_log sample_setup).2 es sample_verifier IdentityAuthorizer 100).2.

(** A batch with a malformed event behind a good one is refused and yet leaves
    the effect of the good one in the materialized state: here an empty log gets the root of a
    batch it rejected, holds no event, is no longer what its events rebuild to, and refuses the
    root's own genesis event afterwards. *)
Theorem import_sync_batch_leaks :
  let bad := sample_event "" (RootRevoked (mkRootRevoked "a" "lost")) [EventRef_previous "e0" 1]
               by_root "pub-a" in
  ∃ x l', import_sync_batch memory_new "peer" "b" [sample_genesis; bad] None sample_verifier
            IdentityAuthorizer 100 = (Err x, l')
    ∧ ml_events l' = []
    ∧ is_Some (roots_current (ml_materialized l') !! "a")
    ∧ rebuild l' = (Ok tt, memory_new)
    ∧ ∃ y, memory_append_with_authorizer l' sample_genesis sample_verifier IdentityAuthorizer 100
           = (Err y, l').
Proof.
  do 2 eexists. split_and!; try (vm_compute; reflexivity).
  - vm_compute. eauto.
  - eexists. vm_compute. reflexivity.
Qed.

Lemma reachable_state_wf_witness :
  size (devices_current (ml_materialized (sample_log sample_setup).2)) = 1
  ∧ state_wf (ml_materialized (sample_log sample_setup).2).
Proof.
  split; [vm_compute; reflexivity|].
  exact (reachable_state_wf (sample_log sample_setup).2 (sample_reachable sample_setup)).
Defined.

Lemma revocation_final_witness :
  ∃ d', devices_current (ml_materialized (sample_after sample_loss)) !! "d" = Some d'
        ∧ dev_root_id d' = "a" ∧ dev_status d' = Dev_Revoked.
Proof.
  destruct (revocation_final (sample_log sample_setup).2 _ (sample_continues sample_setup sample_loss))
    as (_ & Hd & _).
  destruct (devices_current (ml_materialized (sample_log sample_setup).2) !! "d") as [d|] eqn:E;
    [|vm_compute in E; discriminate].
  destruct (Hd "d" d E) as (d' & Hd' & _). exists d'. split; [exact Hd'|].
  vm_compute in Hd'. injection Hd' as <-. split; reflexivity.
Defined.

(** The lost device announces a relay. *)
Definition sample_late : EventEnvelope :=
  sample_event "e9" (RelayHintUpdated (mkRelayHintUpdated "peer" "d" "hint")) []
    (mkSignerBinding (mkEventSubject SK_Device "d") "key-d" KR_Device) "pub-d".

Definition sample_after_late : MemoryEventLog :=
  (append_all (sample_after sample_loss) [sample_late] sample_verifier IdentityAuthorizer 100).2.

Lemma sample_after_reachable es : reachable (sample_after es).
Proof. unfold reachable. transitivity (sample_log sample_setup).2; [apply sample_reachable|apply sample_continues]. Qed.

Lemma sample_late_run : rtc identity_step (sample_after sample_loss) sample_after_late.
Proof.
  apply rtc_once. left. exists sample_late, sample_verifier, 100%Z. unfold sample_after_late. cbn [append_all].
  destruct (memory_append_with_authorizer _ _ _ _ _) as [[[]|] l1]; by eexists.
Qed.

Lemma memory_revoked_silent_witness :
  dead_device (ml_materialized (sample_after sample_loss)) "d"
  ∧ ∃ added, ml_events sample_after_late = ml_events (sample_after sample_loss) ++ added
             ∧ Forall (λ e, ¬ speaks_for_dead (ml_materialized (sample_after sample_loss)) e) added.
Proof.
  split.
  - destruct (devices_current (ml_materialized (sample_after sample_loss)) !! "d") as [d|] eqn:E;
      vm_compute in E; [|discriminate]. injection E as E. subst d.
    eexists. split; [vm_compute; reflexivity|]. simpl. discriminate.
  - destruct (memory_revoked_silent (sample_after sample_loss) sample_after_late sample_late_run) as (added & H1 & H2 & _).
    by exists added.
Defined.

Lemma memory_root_chain_linked_witness :
  length (root_chain "a" (ml_events (sample_after sample_loss))) = 5
  ∧ linked (root_chain "a" (ml_events (sample_after sample_loss))).
Proof.
  split; [vm_compute; reflexivity|].
  exact (proj1 (memory_root_chain_linked (sample_after sample_loss) "a" (reachable_memory _ (sample_after_reachable sample_loss)))).
Defined.

Lemma executed_recovery_backed_witness :
  ∃ r, recovery_requests_current (materialized (sample_after sample_recovery)) !! "q" = Some r
       ∧ req_status r = Req_Executed ∧ "g" ∈ req_approvals r
       ∧ threshold_reached (sample_after sample_recovery) "q" r.
Proof.
  destruct (recovery_requests_current (materialized (sample_after sample_recovery)) !! "q")
    as [r|] eqn:E; [|vm_compute in E; discriminate].
  assert (req_status r = Req_Executed ∧ "g" ∈ req_approvals r) as [Hst Hg].
  { vm_compute in E. injection E as <-. split; [reflexivity|].
    apply (bool_decide_eq_true_1 _). vm_compute. reflexivity. }
  exists r. split_and!; [reflexivity|exact Hst|exact Hg|].
  exact (proj2 (proj2 (proj2 (executed_recovery_backed (sample_after sample_recovery) "q" r
           (sample_after_reachable sample_recovery) E Hst)))).
Defined.

(** After the contest the approval and the execution are tried again. *)
Definition sample_after_more : MemoryEventLog :=
  (append_all (sample_after sample_contest) sample_recovery sample_verifier IdentityAuthorizer 100).2.

Lemma sample_more_run : rtc log_step (sample_after sample_contest) sample_after_more.
Proof. eapply append_all_run. apply surjective_pairing. Qed.

Lemma contested_recovery_stops_witness :
  ∃ r', recovery_requests_current (materialized (sample_after_more)) !! "q" = Some r'
        ∧ (req_status r' = Req_Contested ∨ req_status r' = Req_Rejected).
Proof.
  destruct (recovery_requests_current (materialized (sample_after sample_contest)) !! "q")
    as [r|] eqn:E; [|vm_compute in E; discriminate].
  refine (contested_recovery_stops (sample_after sample_contest) sample_after_more "q" r
            sample_more_run E _).
  vm_compute in E. injection E as <-. left. reflexivity.
Defined.

Definition sample_import : result nat ValidationError * MemoryEventLog :=
  import_sync_batch memory_new "peer" "b" sample_setup (Some "e3") sample_verifier
    IdentityAuthorizer 100.

Lemma sample_import_eq : sample_import = (Ok 4, sample_import.2).
Proof.
  assert (sample_import.1 = Ok 4) as <- by (vm_compute; reflexivity). apply surjective_pairing.
Qed.

Lemma import_sync_batch_refines_appends_witness :
  ∃ imported l2, imported `sublist_of` sample_setup ∧ length imported = 4
    ∧ append_all memory_new imported sample_verifier IdentityAuthorizer 100 = (Ok tt, l2)
    ∧ sample_import.2 = record_sync "peer" "b" (Some "e3") l2.
Proof.
  exact (import_sync_batch_refines_appends memory_new "peer" "b" sample_setup (Some "e3")
           sample_verifier IdentityAuthorizer 100 4 sample_import.2 sample_import_eq).
Defined.

Lemma sample_import_run : rtc memory_step memory_new sample_import.2.
Proof. apply rtc_once. right. do 8 eexists. exact sample_import_eq. Qed.

Lemma rebuild_identity_witness :
  length (ml_events sample_import.2) = 4 ∧ rebuild sample_import.2 = (Ok tt, sample_import.2).
Proof.
  split; [vm_compute; reflexivity|]. exact (rebuild_identity sample_import.2 sample_import_run).
Defined.

Lemma queries_exact_witness :
  has_event sample_import.2 "e2" = true ∧ "e2" ∈ event_ids sample_import.2.
Proof.
  assert (has_event sample_import.2 "e2" = true) as Hh by (vm_compute; reflexivity).
  split; [exact Hh|].
  exact (proj1 (proj1 (queries_exact sample_import.2 sample_import_run) "e2") Hh).
Defined.

Lemma import_sync_batch_idempotent_witness :
  import_sync_batch sample_import.2 "peer" "b2" sample_setup (Some "e3") sample_verifier
    IdentityAuthorizer 200 = (Ok 0, record_sync "peer" "b2" (Some "e3") sample_import.2).
Proof.
  exact (import_sync_batch_idempotent memory_new "peer" "b" sample_setup (Some "e3")
           sample_verifier IdentityAuthorizer 100 4 sample_import.2 "peer" "b2" (Some "e3")
           IdentityAuthorizer 200 (rtc_refl _ _) sample_import_eq).
Defined.

(** A batch that starts in the middle of the chain. *)
Definition sample_gap : result nat ValidationError * MemoryEventLog :=
  import_sync_batch memory_new "peer" "b" (sample_genesis :: drop 2 sample_setup) None
    sample_verifier IdentityAuthorizer 100.

Lemma import_sync_batch_atomic_witness :
  ∃ x, sample_gap = (Err x, memory_new).
Proof.
  destruct sample_gap as [[n|x] l'] eqn:E; [vm_compute in E; discriminate|].
  exists x. f_equal.
  refine (import_sync_batch_atomic memory_new "peer" "b" (sample_genesis :: drop 2 sample_setup) None
            sample_verifier IdentityAuthorizer 100 x l' _ E).
  repeat constructor; vm_compute; reflexivity.
Defined.
