(* ===== verification/VerifyChain.v ===== *)
(** * Offline verification of an event chain

    crates/core-eventlog/src/verify.rs: the verifier of a slice of envelopes against a pinned
    identity root, with the evolution of the root-authority set and the walk through the parents
    of the signing principal. The two signature algorithms behind [DeviceSignatureVerifier]
    (crates/core-crypto/src/lib.rs), the attestation reverifier and Rust's [Debug] rendering of
    strings are parameters. *)

From stdpp Require Import base gmap sets list strings.
From Stdlib Require Import Ascii Lia ZArith.
From S2P Require Import Prelude CoreTypes EventTypes EventCodec Envelope LogTypes Materialize.
From S2P Require Import Authorize EventLog MemoryLog.

Local Infix "+:+" := String.append (at level 60, right associativity).

(** ** Device signatures (core-crypto) *)

Class DeviceSignatures := {
  ed25519_verify : Verifier;
  p256_verify : Verifier;
  str_debug : string → string
}.

Definition P256_PUBLIC_KEY_PREFIX : string := "p256:".

Definition verify_device_signature {D : DeviceSignatures} : Verifier := λ public_key payload sig,
  if str_starts_with public_key P256_PUBLIC_KEY_PREFIX
  then p256_verify public_key payload sig
  else ed25519_verify public_key payload sig.

(** ** Outcomes *)

Inductive VerifyReasonClass :=
| SignatureInvalid | BodyHashMismatch | ChainKindOutOfOrder | PrincipalChainInvalid.

Record VerifyFailure := mkVerifyFailure {
  vf_event_id : string;
  vf_reason_class : VerifyReasonClass;
  vf_detail : string
}.

Inductive VerifyOutcome :=
| Pass (verified_count : nat) (head_event_id : option string)
| Break (verified_count : nat) (failures : list VerifyFailure).

(** ** Principals *)

Record VerifyPrincipal := mkVerifyPrincipal {
  vp_id : string;
  vp_parent_id : string;
  vp_active_key_id : string;
  vp_active_public_key : string
}.

Definition VerifyPrincipal_self_parented (id key_id public_key : string) : VerifyPrincipal :=
  mkVerifyPrincipal id id key_id public_key.
Definition VerifyPrincipal_child (id parent_id key_id public_key : string) : VerifyPrincipal :=
  mkVerifyPrincipal id parent_id key_id public_key.
Definition is_self_parented (p : VerifyPrincipal) : bool := bool_decide (vp_id p = vp_parent_id p).

Definition signer_principal_id (binding : SignerBinding) : option string :=
  match sb_role binding with
  | KR_Principal | KR_Root | KR_Persona => Some (es_subject_id (sb_signer binding))
  | KR_Device | KR_Guardian | KR_Unknown => None
  end.

Definition root_created_candidate (body : EventBody) (principal_id : string)
  : option VerifyPrincipal :=
  match body with
  | RootCreated root =>
      if bool_decide (rc_root_id root = principal_id)
      then Some (VerifyPrincipal_self_parented (rc_root_id root) (pk_key_id (rc_initial_key root))
                   (pk_public_key (rc_initial_key root)))
      else None
  | _ => None
  end.

Definition principal_lookup (principals : gmap string VerifyPrincipal) (e : EventEnvelope)
  (id : string) : option VerifyPrincipal :=
  match principals !! id with
  | Some r => Some r
  | None => root_created_candidate (ev_body e) id
  end.

(** The test of the first record of the walk. *)
Definition signer_matches (e : EventEnvelope) (trusted : gset string)
  (device_keys : gmap string string) (record : VerifyPrincipal) : bool :=
  let binding := ev_signer_binding e in
  let active_key_matches := bool_decide (vp_active_key_id record = sb_key_id binding)
                            && bool_decide (vp_active_public_key record = ev_signer e) in
  let signing_device_matches := match device_keys !! sb_key_id binding with
                                | Some pk => bool_decide (pk = ev_signer e)
                                | None => false
                                end in
  let root_authority_matches := is_self_parented record && bool_decide (ev_signer e ∈ trusted)
                                && (active_key_matches || signing_device_matches) in
  active_key_matches || root_authority_matches.

Definition role_is_principal_or_persona (r : KeyRole) : bool :=
  match r with KR_Principal | KR_Persona => true | _ => false end.

(** The loop over the parents. It is given [fuel] iterations; [None] is a loop cut short. *)
Fixpoint principal_walk (fuel : nat) (e : EventEnvelope) (identity_root : string)
  (principals : gmap string VerifyPrincipal) (trusted : gset string)
  (device_keys : gmap string string) (seen : gset string) (first : bool) (current : string)
  : option (result unit string) :=
  match fuel with
  | O => None
  | S fuel =>
      if bool_decide (current ∈ seen)
      then Some (Err ("Principal parent chain contains a cycle at " +:+ current))
      else
        match principal_lookup principals e current with
        | None => Some (Err ("missing Principal record while walking parent_id=" +:+ current))
        | Some record =>
            if first && role_is_principal_or_persona (sb_role (ev_signer_binding e))
               && negb (signer_matches e trusted device_keys record)
            then Some (Err ("signer key_id " +:+ sb_key_id (ev_signer_binding e)
                            +:+ " / pubkey do not match Principal " +:+ vp_id record))
            else if is_self_parented record
            then if negb (bool_decide (vp_active_public_key record = identity_root))
                 then Some (Err ("Principal chain terminates at " +:+ vp_id record
                                 +:+ " but that anchor is not the pinned trust anchor"))
                 else Some (Ok tt)
            else principal_walk fuel e identity_root principals trusted device_keys
                   ({[current]} ∪ seen) false (vp_parent_id record)
        end
  end.

(** Each iteration visits another known principal, so [size principals + 3] iterations are
    enough ([principal_walk_terminates] below). *)
Definition verify_signer_principal_chain (e : EventEnvelope) (identity_root : string)
  (principals : gmap string VerifyPrincipal) (trusted : gset string)
  (device_keys : gmap string string) : result unit string :=
  match signer_principal_id (ev_signer_binding e) with
  | None => Ok tt
  | Some principal_id =>
      default (Err "walk cut short")
        (principal_walk (size principals + 3) e identity_root principals trusted device_keys ∅ true
           principal_id)
  end.

Definition with_principal_key (r : VerifyPrincipal) (k : PublicKeyMaterial) : VerifyPrincipal :=
  mkVerifyPrincipal (vp_id r) (vp_parent_id r) (pk_key_id k) (pk_public_key k).

Definition apply_principal_event (body : EventBody) (principals : gmap string VerifyPrincipal)
  : gmap string VerifyPrincipal :=
  match body with
  | RootCreated root =>
      <[rc_root_id root := VerifyPrincipal_self_parented (rc_root_id root)
                             (pk_key_id (rc_initial_key root)) (pk_public_key (rc_initial_key root))]>
        principals
  | PersonaCreated persona =>
      <[pc_persona_id persona := VerifyPrincipal_child (pc_persona_id persona) (pc_root_id persona)
                                   (pk_key_id (pc_initial_key persona))
                                   (pk_public_key (pc_initial_key persona))]> principals
  | PersonaKeyRotated persona =>
      match principals !! pkr_persona_id persona with
      | Some record => <[pkr_persona_id persona := with_principal_key record (pkr_new_key persona)]>
                         principals
      | None => principals
      end
  | PersonaRevoked persona => delete (prv_persona_id persona) principals
  | _ => principals
  end.

(** ** Root authority *)

(** [Option<&dyn AttestationReverifier>] *)
Abbreviation Reverifier := (option (PublicKeyMaterial → option string → AttestationTier)).

Definition admits (reverifier : Reverifier) (b : DeviceEnrolledEvent) : bool :=
  bool_decide (de_attestation_tier b = AT_None)
  || match reverifier with
     | Some proven_tier =>
         bool_decide (proven_tier (de_device_key b) (de_attestation_statement b)
                      = de_attestation_tier b)
     | None => false
     end.

Definition drop_device (device_id : string) (trusted : gset string) (device_keys : gmap string string)
  : gset string :=
  match device_keys !! device_id with
  | Some k => trusted ∖ {[k]}
  | None => trusted
  end.

(** The change of the authority set and of the device keys by a clean event of a trusted
    signer. *)
Definition evolve_authority (reverifier : Reverifier) (body : EventBody)
  (trusted : gset string) (device_keys : gmap string string) : gset string * gmap string string :=
  match body with
  | DeviceEnrolled b =>
      if bool_decide (de_custody_class b = CC_Presence)
      then if admits reverifier b
           then ({[pk_public_key (de_device_key b)]} ∪ drop_device (de_device_id b) trusted device_keys,
                 <[de_device_id b := pk_public_key (de_device_key b)]> device_keys)
           else (trusted, device_keys)
      else (trusted, device_keys)
  | DeviceAdded b => (trusted, <[da_device_id b := pk_public_key (da_initial_key b)]> device_keys)
  | DeviceKeyRotated b =>
      match device_keys !! dkr_device_id b with
      | Some old =>
          let new := pk_public_key (dkr_new_key b) in
          let removed := trusted ∖ {[old]} in
          ((if bool_decide (old ∈ trusted) then {[new]} ∪ removed else removed),
           <[dkr_device_id b := new]> device_keys)
      | None => (trusted, device_keys)
      end
  | DeviceRevoked b => (drop_device (drv_device_id b) trusted device_keys, device_keys)
  | DeviceFrozen b => (drop_device (df_device_id b) trusted device_keys, device_keys)
  | DeviceReplaced b => (drop_device (drp_replaced_device_id b) trusted device_keys, device_keys)
  | _ => (trusted, device_keys)
  end.

(** ** The walk *)

Record Walk := mkWalk {
  wk_failures : list VerifyFailure;
  wk_verified_count : nat;
  wk_chain_heads : gmap string (string * Z);
  wk_trusted : gset string;
  wk_device_keys : gmap string string;
  wk_principals : gmap string VerifyPrincipal
}.

Section Verify.
Context {H : HexOps} {D : DeviceSignatures}.

Definition root_signer_failures (trusted : gset string) (e : EventEnvelope) : list VerifyFailure :=
  if bool_decide (sb_role (ev_signer_binding e) = KR_Root)
     && negb (bool_decide (ev_signer e ∈ trusted))
  then [mkVerifyFailure (ev_event_id e) SignatureInvalid
          ("root signer pubkey is not in the root authority set (envelope.signer=PublicKey("
           +:+ str_debug (ev_signer e) +:+ "))")]
  else [].

Definition signature_failures (e : EventEnvelope) : list VerifyFailure :=
  if negb (verify_with_context DOMAIN_EVENT verify_device_signature (ev_signer e) (signed_bytes e)
             (ev_signature e))
  then [mkVerifyFailure (ev_event_id e) SignatureInvalid
          "device signature failed to verify under DOMAIN_EVENT"]
  else [].

Definition principal_failures (identity_root : string) (w : Walk) (e : EventEnvelope)
  : list VerifyFailure :=
  match verify_signer_principal_chain e identity_root (wk_principals w) (wk_trusted w)
          (wk_device_keys w) with
  | Err detail => [mkVerifyFailure (ev_event_id e) PrincipalChainInvalid detail]
  | Ok _ => []
  end.

Definition body_failures (e : EventEnvelope) : list VerifyFailure :=
  match EventEnvelope_validate e with
  | Err err => [mkVerifyFailure (ev_event_id e) BodyHashMismatch
                  ("envelope validate failed: " +:+ message err)]
  | Ok _ => []
  end.

Definition chain_failures (heads : gmap string (string * Z)) (e : EventEnvelope)
  : list VerifyFailure :=
  let failure detail := [mkVerifyFailure (ev_event_id e) ChainKindOutOfOrder detail] in
  match EventBody_root_id (ev_body e) with
  | None => []
  | Some root_id =>
      match previous_ref e, heads !! root_id with
      | None, None => []
      | None, Some (head_event_id, head_seq) =>
          failure ("missing Previous ref for root " +:+ root_id +:+ "; expected prev_event_id="
                   +:+ head_event_id +:+ " seq=" +:+ u64_to_string (u64_add head_seq 1))
      | Some r, None =>
          failure ("Previous ref points to " +:+ ref_target_event_id r +:+ " but root " +:+ root_id
                   +:+ " has no chain head in slice")
      | Some r, Some (head_event_id, head_seq) =>
          let expected_seq := u64_add head_seq 1 in
          if negb (bool_decide (ref_target_event_id r = head_event_id))
             || negb (ref_seq r =? expected_seq)%Z
          then failure ("chain break: expected prev_event_id=" +:+ head_event_id +:+ " seq="
                        +:+ u64_to_string expected_seq +:+ ", got prev_event_id="
                        +:+ ref_target_event_id r +:+ " seq=" +:+ u64_to_string (ref_seq r))
          else []
      end
  end.

Definition advance_head (heads : gmap string (string * Z)) (e : EventEnvelope)
  : gmap string (string * Z) :=
  match EventBody_root_id (ev_body e) with
  | None => heads
  | Some root_id =>
      <[root_id := (ev_event_id e, match previous_ref e with Some r => ref_seq r | None => 0%Z end)]>
        heads
  end.

Definition envelope_failures (identity_root : string) (w : Walk) (e : EventEnvelope)
  : list VerifyFailure :=
  root_signer_failures (wk_trusted w) e ++ signature_failures e
  ++ principal_failures identity_root w e ++ body_failures e
  ++ chain_failures (wk_chain_heads w) e.

(** One iteration of the loop over the envelopes. *)
Definition verify_step (identity_root : string) (reverifier : Reverifier) (w : Walk)
  (e : EventEnvelope) : Walk :=
  let fs := envelope_failures identity_root w e in
  let envelope_clean := bool_decide (fs = []) in
  let authority := if envelope_clean && bool_decide (ev_signer e ∈ wk_trusted w)
                   then evolve_authority reverifier (ev_body e) (wk_trusted w) (wk_device_keys w)
                   else (wk_trusted w, wk_device_keys w) in
  mkWalk (wk_failures w ++ fs)
    (if envelope_clean then S (wk_verified_count w) else wk_verified_count w)
    (advance_head (wk_chain_heads w) e) authority.1 authority.2
    (if envelope_clean then apply_principal_event (ev_body e) (wk_principals w) else wk_principals w).

Definition walk_start (identity_root : string) : Walk := mkWalk [] 0 ∅ {[identity_root]} ∅ ∅.

Definition verify_chain_with_reverifier (events : list EventEnvelope) (identity_root : string)
  (reverifier : Reverifier) : VerifyOutcome :=
  if bool_decide (events = []) then Pass 0 None
  else
    let w := foldl (verify_step identity_root reverifier) (walk_start identity_root) events in
    let head_event_id := ev_event_id <$> last events in
    if bool_decide (wk_failures w = []) then Pass (wk_verified_count w) head_event_id
    else Break (wk_verified_count w) (wk_failures w).

Definition verify_chain (events : list EventEnvelope) (identity_root : string) : VerifyOutcome :=
  verify_chain_with_reverifier events identity_root None.

End Verify.

(** ** The walk through the parents *)

(** The principals a walk can meet. *)
Definition known_principals (principals : gmap string VerifyPrincipal) (e : EventEnvelope)
  : gset string :=
  dom principals ∪ match ev_body e with RootCreated root => {[rc_root_id root]} | _ => ∅ end.

Lemma principal_lookup_known principals e id r :
  principal_lookup principals e id = Some r → id ∈ known_principals principals e.
Proof.
  unfold principal_lookup, known_principals, root_created_candidate.
  destruct (principals !! id) eqn:E; [intros _; apply elem_of_union_l; by apply elem_of_dom|].
  destruct (ev_body e); try done. case_bool_decide as Hid; [|done]. intros _. set_solver.
Qed.

Lemma known_principals_size principals e :
  size (known_principals principals e) ≤ size principals + 1.
Proof.
  unfold known_principals. rewrite size_union_alt, size_dom.
  assert (size (match ev_body e with RootCreated root => {[rc_root_id root]} | _ => ∅ end
                : gset string) ≤ 1) as Hc.
  { destruct (ev_body e); rewrite ?size_singleton, ?size_empty; lia. }
  apply Nat.add_le_mono_l. etransitivity; [|exact Hc]. apply subseteq_size. set_solver.
Qed.

Lemma principal_walk_enough fuel e root principals trusted keys seen first current :
  seen ⊆ known_principals principals e →
  size (known_principals principals e) + 2 ≤ fuel + size seen →
  principal_walk fuel e root principals trusted keys seen first current ≠ None.
Proof.
  revert seen first current. induction fuel as [|fuel IH]; intros seen first current Hsub Hfuel; simpl.
  { apply subseteq_size in Hsub. lia. }
  case_bool_decide as Hseen; [done|].
  destruct (principal_lookup principals e current) as [r|] eqn:Hr; [|done].
  repeat (case_match; try done). apply IH.
  - apply principal_lookup_known in Hr. set_solver.
  - rewrite size_union by set_solver. rewrite size_singleton. lia.
Qed.

(** The walk ends within the iterations it is given. *)
Lemma principal_walk_terminates e root principals trusted keys first current :
  principal_walk (size principals + 3) e root principals trusted keys ∅ first current ≠ None.
Proof.
  apply principal_walk_enough; [set_solver|]. rewrite size_empty.
  pose proof (known_principals_size principals e). lia.
Qed.

(** A principal whose chain of parents ends at a self-parented principal with the pinned key. *)
Inductive anchored (lookup : string → option VerifyPrincipal) (anchor : string) : string → Prop :=
| anchored_root id r : lookup id = Some r → is_self_parented r = true →
    vp_active_public_key r = anchor → anchored lookup anchor id
| anchored_child id r : lookup id = Some r → anchored lookup anchor (vp_parent_id r) →
    anchored lookup anchor id.

(** The record of the first principal of the walk is there, and the signer passed its test. *)
Lemma principal_walk_first fuel e root principals trusted keys seen current :
  principal_walk fuel e root principals trusted keys seen true current = Some (Ok tt) →
  ∃ r, principal_lookup principals e current = Some r
       ∧ (role_is_principal_or_persona (sb_role (ev_signer_binding e)) = true → signer_matches e trusted keys r = true).
Proof.
  destruct fuel; simpl; [done|]. case_bool_decide; [done|].
  destruct (principal_lookup principals e current) as [r|]; [|done]. intros Hw. exists r. split; [done|].
  intros Hrole. rewrite Hrole in Hw. simpl in Hw. by destruct (signer_matches _ _ _ _).
Qed.

Lemma principal_walk_anchored fuel e root principals trusted keys seen first current :
  principal_walk fuel e root principals trusted keys seen first current = Some (Ok tt) →
  anchored (principal_lookup principals e) root current.
Proof.
  revert seen first current. induction fuel as [|fuel IH]; intros seen first current; simpl; [done|].
  case_bool_decide; [done|].
  destruct (principal_lookup principals e current) as [r|] eqn:Hr; [|done].
  destruct (_ && _); [done|]. destruct (is_self_parented r) eqn:Hself.
  - case_bool_decide; [|done]. intros _. by eapply anchored_root.
  - intros Hw. eapply anchored_child; [exact Hr|]. by eapply IH.
Qed.

(** ** Authority derived from the anchor *)

(** The attestation tier of an enrollment is the lowest, or the reverifier proves it. *)
Definition proven_tier (rev : Reverifier) (b : DeviceEnrolledEvent) : Prop :=
  de_attestation_tier b = AT_None
  ∨ ∃ f, rev = Some f ∧ f (de_device_key b) (de_attestation_statement b) = de_attestation_tier b.

Lemma admits_true rev b : admits rev b = true ↔ proven_tier rev b.
Proof.
  unfold admits, proven_tier. rewrite orb_true_iff, bool_decide_eq_true. destruct rev as [f|]; [|naive_solver].
  rewrite bool_decide_eq_true. naive_solver.
Qed.

(** [authorized_key anchor rev es k]: after the events [es] the key [k] may speak for the root:
    it is the anchor, or an event signed by a key that already could enrolled it as a presence
    device, at the lowest attestation tier or at one that the reverifier proves, or rotated it in. *)
Inductive authorized_key (anchor : string) (rev : Reverifier) : list EventEnvelope → string → Prop :=
| key_anchor es : authorized_key anchor rev es anchor
| key_enrolled es e es' b : authorized_key anchor rev es (ev_signer e) →
    ev_body e = DeviceEnrolled b → de_custody_class b = CC_Presence →
    proven_tier rev b →
    authorized_key anchor rev (es ++ e :: es') (pk_public_key (de_device_key b))
| key_rotated es e es' b : authorized_key anchor rev es (ev_signer e) →
    ev_body e = DeviceKeyRotated b →
    authorized_key anchor rev (es ++ e :: es') (pk_public_key (dkr_new_key b)).

Lemma authorized_key_later anchor rev es es' k :
  authorized_key anchor rev es k → authorized_key anchor rev (es ++ es') k.
Proof.
  destruct 1; [constructor|rewrite <-app_assoc; by eapply key_enrolled|rewrite <-app_assoc; by eapply key_rotated].
Qed.

Lemma drop_device_subset i trusted keys : drop_device i trusted keys ⊆ trusted.
Proof. unfold drop_device. destruct (keys !! i); set_solver. Qed.

Lemma evolve_authority_sound anchor rev es e trusted keys k :
  (∀ x, x ∈ trusted → authorized_key anchor rev es x) → ev_signer e ∈ trusted →
  k ∈ (evolve_authority rev (ev_body e) trusted keys).1 → authorized_key anchor rev (es ++ [e]) k.
Proof.
  intros Htr Hsig. assert (∀ x, x ∈ trusted → authorized_key anchor rev (es ++ [e]) x) as Hold.
  { intros x Hx. by apply authorized_key_later, Htr. }
  unfold evolve_authority. destruct (ev_body e) eqn:Hb; simpl; try apply Hold.
  - case_bool_decide; [|apply Hold]. destruct (admits rev _) eqn:Ha; [|apply Hold]. simpl.
    intros [->%elem_of_singleton|Hk%drop_device_subset]%elem_of_union; [|by apply Hold].
    eapply (key_enrolled _ _ _ _ []); [by apply Htr|exact Hb|done|by apply admits_true].
  - destruct (keys !! _) as [old|]; [|apply Hold]. simpl.
    case_bool_decide; [|set_solver].
    intros [->%elem_of_singleton|Hk]%elem_of_union; [|set_solver].
    eapply (key_rotated _ _ _ _ []); eauto.
  - intros Hk%drop_device_subset. by apply Hold.
  - intros Hk%drop_device_subset. by apply Hold.
  - intros Hk%drop_device_subset. by apply Hold.
Qed.

(** The devices' keys that the events name. *)
Definition names_key (d k : string) (body : EventBody) : Prop :=
  match body with
  | DeviceEnrolled b => de_device_id b = d ∧ pk_public_key (de_device_key b) = k
  | DeviceAdded b => da_device_id b = d ∧ pk_public_key (da_initial_key b) = k
  | DeviceKeyRotated b => dkr_device_id b = d ∧ pk_public_key (dkr_new_key b) = k
  | _ => False
  end.

Lemma evolve_keys_named rev body trusted keys d k :
  (evolve_authority rev body trusted keys).2 !! d = Some k → keys !! d = Some k ∨ names_key d k body.
Proof.
  unfold evolve_authority, names_key. destruct body; simpl; try (by left); repeat (case_match; simpl; try (by left));
    rewrite lookup_insert_Some; naive_solver.
Qed.

(** ** The verdict *)

Section Soundness.
Context {H : HexOps} {D : DeviceSignatures}.

(** Chain heads as a materialized state holds them. *)
Definition heads_state (heads : gmap string (string * Z)) : MaterializedState :=
  set_root_chain_heads heads empty_state.

(** The verifier's chain check is that of the event log. *)
Lemma chain_failures_check heads e :
  chain_failures heads e = [] → check_chain (heads_state heads) e = Ok tt.
Proof.
  unfold chain_failures, check_chain. simpl. destruct (EventBody_root_id _) as [root|]; [|done].
  destruct (previous_ref e), (heads !! root) as [[]|]; simpl; try done. by destruct (_ || _).
Qed.

Lemma advance_head_state heads e :
  advance_chain_head (heads_state heads) e = heads_state (advance_head heads e).
Proof. unfold advance_chain_head, advance_head. by destruct (EventBody_root_id _). Qed.

Definition principals_after (es : list EventEnvelope) : gmap string VerifyPrincipal :=
  foldl (λ m e, apply_principal_event (ev_body e) m) ∅ es.

(** The signer of [e] may speak as the principal [r]: its key is the active key of [r], or [r] is a root principal and
    the key is one of the root's authority, which is the active key or was named for the signing device before. *)
Definition speaks_as (anchor : string) (rev : Reverifier) (before : list EventEnvelope) (e : EventEnvelope)
  (r : VerifyPrincipal) : Prop :=
  (vp_active_key_id r = sb_key_id (ev_signer_binding e) ∧ vp_active_public_key r = ev_signer e)
  ∨ (vp_id r = vp_parent_id r ∧ authorized_key anchor rev before (ev_signer e)
     ∧ ∃ e', e' ∈ before ∧ names_key (sb_key_id (ev_signer_binding e)) (ev_signer e) (ev_body e')).

(** What a passing verdict says of the event [e] behind the events [before]. *)
Definition event_verified (anchor : string) (rev : Reverifier) (before : list EventEnvelope)
  (e : EventEnvelope) : Prop :=
  EventEnvelope_validate e = Ok tt
  ∧ verify_with_context DOMAIN_EVENT verify_device_signature (ev_signer e) (signed_bytes e)
      (ev_signature e) = true
  ∧ (sb_role (ev_signer_binding e) = KR_Root → authorized_key anchor rev before (ev_signer e))
  ∧ (∀ p, signer_principal_id (ev_signer_binding e) = Some p →
          anchored (principal_lookup (principals_after before) e) anchor p
          ∧ (sb_role (ev_signer_binding e) = KR_Principal ∨ sb_role (ev_signer_binding e) = KR_Persona →
             ∃ r, principal_lookup (principals_after before) e p = Some r
                  ∧ speaks_as anchor rev before e r)).

Record walk_ok (anchor : string) (rev : Reverifier) (es : list EventEnvelope) (w : Walk) : Prop := {
  ok_count : wk_verified_count w = length es;
  ok_principals : wk_principals w = principals_after es;
  ok_trusted : ∀ k, k ∈ wk_trusted w → authorized_key anchor rev es k;
  ok_keys : ∀ d k, wk_device_keys w !! d = Some k → ∃ e, e ∈ es ∧ names_key d k (ev_body e);
  ok_chains : chains_ok es (heads_state (wk_chain_heads w));
  ok_events : ∀ i e, es !! i = Some e → event_verified anchor rev (take i es) e
}.

Lemma signer_matches_speaks anchor rev es w e r :
  walk_ok anchor rev es w → signer_matches e (wk_trusted w) (wk_device_keys w) r = true → speaks_as anchor rev es e r.
Proof.
  intros Hok. unfold signer_matches, speaks_as, is_self_parented. destruct (bool_decide _ && bool_decide _) eqn:Ea.
  - intros _. left. by apply andb_true_iff in Ea as [?%bool_decide_eq_true ?%bool_decide_eq_true].
  - simpl. rewrite !andb_true_iff, !bool_decide_eq_true. intros [[Hid Htr] Hdev]. right.
    split_and!; [done|by apply (ok_trusted _ _ _ _ Hok)|].
    destruct (wk_device_keys w !! _) as [k|] eqn:Ek; [|done]. apply bool_decide_eq_true in Hdev as ->.
    by apply (ok_keys _ _ _ _ Hok).
Qed.

Lemma envelope_failures_nil anchor rev es w e :
  walk_ok anchor rev es w → envelope_failures anchor w e = [] →
  event_verified anchor rev es e ∧ check_chain (heads_state (wk_chain_heads w)) e = Ok tt.
Proof.
  intros Hok. unfold envelope_failures. rewrite !app_nil.
  intros (Hroot & Hsig & Hprin & Hbody & Hchain). split; [|by apply chain_failures_check].
  unfold event_verified. split_and!.
  - unfold body_failures in Hbody. by destruct (EventEnvelope_validate e) as [[]|].
  - unfold signature_failures in Hsig. by destruct (verify_with_context _ _ _ _ _).
  - intros Hrole. apply (ok_trusted _ _ _ _ Hok).
    unfold root_signer_failures in Hroot. rewrite bool_decide_eq_true_2 in Hroot by done.
    by case_bool_decide.
  - intros p Hp. unfold principal_failures, verify_signer_principal_chain in Hprin.
    rewrite Hp, (ok_principals _ _ _ _ Hok) in Hprin.
    destruct (principal_walk _ _ _ _ _ _ _ _ _) as [[[]|]|] eqn:Hw; try done.
    split; [by eapply principal_walk_anchored|]. intros Hrole.
    apply principal_walk_first in Hw as (r & Hr & Hm). exists r. split; [done|].
    apply (signer_matches_speaks _ _ _ w); [done|]. apply Hm. by destruct Hrole as [-> | ->].
Qed.

Lemma verify_step_ok anchor rev es w e :
  walk_ok anchor rev es w → envelope_failures anchor w e = [] →
  walk_ok anchor rev (es ++ [e]) (verify_step anchor rev w e).
Proof.
  intros Hok Hnil. destruct (envelope_failures_nil _ _ _ _ _ Hok Hnil) as [Hev Hchain].
  unfold verify_step. rewrite bool_decide_eq_true_2 by done. split; simpl.
  - rewrite length_app, (ok_count _ _ _ _ Hok). simpl. lia.
  - unfold principals_after. rewrite foldl_app. simpl. by rewrite (ok_principals _ _ _ _ Hok).
  - intros k. case_bool_decide as Hs.
    + apply evolve_authority_sound; [apply Hok|done].
    + intros Hk. apply authorized_key_later. by apply Hok.
  - intros d k Hk. assert (wk_device_keys w !! d = Some k ∨ names_key d k (ev_body e)) as [Hk'|Hk'].
    { case_bool_decide; [by apply evolve_keys_named in Hk|by left]. }
    + destruct (ok_keys _ _ _ _ Hok _ _ Hk') as (x & Hx & Hn). exists x. split; [|done]. apply elem_of_app. by left.
    + exists e. split; [|done]. apply elem_of_app. right. by apply list_elem_of_singleton.
  - rewrite <-advance_head_state. eapply chains_ok_step; [apply Hok|exact Hchain|done].
  - intros i x. intros [Hx|[Hi Hx]]%lookup_app_Some.
    + rewrite take_app_le by (apply lookup_lt_Some in Hx; lia). by apply Hok.
    + apply list_lookup_singleton_Some in Hx as [Hx <-].
      by replace i with (length es) by lia; rewrite take_app_length.
Qed.

Lemma walk_start_ok anchor rev : walk_ok anchor rev [] (walk_start anchor).
Proof.
  split; simpl; try done.
  intros k ->%elem_of_singleton. constructor.
Qed.

Lemma walk_failures_nil anchor rev es :
  wk_failures (foldl (verify_step anchor rev) (walk_start anchor) es) = [] →
  walk_ok anchor rev es (foldl (verify_step anchor rev) (walk_start anchor) es).
Proof.
  induction es as [|e es IH] using rev_ind; simpl; [intros _; apply walk_start_ok|].
  rewrite foldl_app. simpl. rewrite app_nil. intros [Hnil Hfs]. apply verify_step_ok; auto.
Qed.

Lemma verify_pass_ok events anchor rev n head :
  verify_chain_with_reverifier events anchor rev = Pass n head →
  ∃ w, walk_ok anchor rev events w ∧ n = length events ∧ head = ev_event_id <$> last events.
Proof.
  unfold verify_chain_with_reverifier. case_bool_decide as He.
  - intros [= <- <-]. subst. exists (walk_start anchor). split; [apply walk_start_ok|done].
  - case_bool_decide as Hf; [|done]. intros [= <- <-].
    eexists. split; [by apply walk_failures_nil|]. split; [|done].
    by apply (ok_count _ _ _ _ (walk_failures_nil _ _ _ Hf)).
Qed.

(** *** Devices that were revoked *)

Definition names_device (d : string) (body : EventBody) : Prop :=
  match body with
  | DeviceEnrolled b => de_device_id b = d
  | DeviceAdded b => da_device_id b = d
  | DeviceKeyRotated b => dkr_device_id b = d
  | _ => False
  end.

Definition introduces (k : string) (body : EventBody) : Prop :=
  match body with
  | DeviceEnrolled b => pk_public_key (de_device_key b) = k
  | DeviceKeyRotated b => pk_public_key (dkr_new_key b) = k
  | _ => False
  end.

Definition revokes_device (d : string) (body : EventBody) : Prop :=
  match body with
  | DeviceRevoked b => drv_device_id b = d
  | DeviceFrozen b => df_device_id b = d
  | DeviceReplaced b => drp_replaced_device_id b = d
  | _ => False
  end.

(** The walk after the first [n] events. *)
Definition walk_at (anchor : string) (rev : Reverifier) (es : list EventEnvelope) (n : nat) : Walk :=
  foldl (verify_step anchor rev) (walk_start anchor) (take n es).

Lemma walk_at_S anchor rev es n e :
  es !! n = Some e → walk_at anchor rev es (S n) = verify_step anchor rev (walk_at anchor rev es n) e.
Proof. intros He. unfold walk_at. by rewrite (take_S_r _ _ _ He), foldl_app. Qed.

Lemma pass_clean anchor rev es n e :
  wk_failures (foldl (verify_step anchor rev) (walk_start anchor) es) = [] → es !! n = Some e →
  envelope_failures anchor (walk_at anchor rev es n) e = [].
Proof.
  induction es as [|x es IH] using rev_ind; [done|]. rewrite foldl_app. simpl. rewrite app_nil. intros [Hf Hx].
  intros [Hn|[Hi Hn]]%lookup_app_Some; unfold walk_at.
  - rewrite take_app_le by (apply lookup_lt_Some in Hn; lia). by apply IH.
  - apply list_lookup_singleton_Some in Hn as [Hn <-]. replace n with (length es) by lia. by rewrite take_app_length.
Qed.

Lemma root_signer_trusted anchor w e :
  envelope_failures anchor w e = [] → sb_role (ev_signer_binding e) = KR_Root → ev_signer e ∈ wk_trusted w.
Proof.
  unfold envelope_failures. rewrite !app_nil. intros (Hroot & _) Hrole. unfold root_signer_failures in Hroot.
  rewrite bool_decide_eq_true_2 in Hroot by done. by case_bool_decide.
Qed.

(** A clean event of the root changes the authority, another may. *)
Lemma step_authority anchor rev w e :
  envelope_failures anchor w e = [] →
  let r := evolve_authority rev (ev_body e) (wk_trusted w) (wk_device_keys w) in
  let w' := verify_step anchor rev w e in
  (ev_signer e ∈ wk_trusted w → wk_trusted w' = r.1 ∧ wk_device_keys w' = r.2) ∧
  (ev_signer e ∉ wk_trusted w → wk_trusted w' = wk_trusted w ∧ wk_device_keys w' = wk_device_keys w).
Proof.
  intros Hc. unfold verify_step. rewrite bool_decide_eq_true_2 by done. simpl.
  split; intros Hs; [rewrite bool_decide_eq_true_2 by done|rewrite bool_decide_eq_false_2 by done]; done.
Qed.

Lemma evolve_keys_kept rev body trusted keys d :
  ¬ names_device d body → (evolve_authority rev body trusted keys).2 !! d = keys !! d.
Proof.
  unfold evolve_authority, names_device. destruct body; simpl; try done; intros ?; repeat (case_match; simpl; try done);
    by rewrite lookup_insert_ne.
Qed.

Lemma evolve_not_introduced rev body trusted keys k :
  ¬ introduces k body → k ∉ trusted → k ∉ (evolve_authority rev body trusted keys).1.
Proof.
  intros Hi Hk. unfold evolve_authority, introduces in *. assert (∀ d, k ∉ drop_device d trusted keys) as Hd.
  { intros d Hin%drop_device_subset. done. }
  destruct body; simpl; try done; repeat (case_match; simpl; try done); set_solver.
Qed.

Lemma evolve_revokes rev body trusted keys d k :
  revokes_device d body → keys !! d = Some k → k ∉ (evolve_authority rev body trusted keys).1.
Proof.
  unfold evolve_authority, revokes_device. destruct body; simpl; try done; intros -> Hk; unfold drop_device; rewrite Hk; set_solver.
Qed.

Section Revoked.
Context (anchor : string) (rev : Reverifier) (es : list EventEnvelope).
Hypothesis clean : wk_failures (foldl (verify_step anchor rev) (walk_start anchor) es) = [].

Lemma keys_until d n m :
  n ≤ m ≤ length es → (∀ x e, n ≤ x < m → es !! x = Some e → ¬ names_device d (ev_body e)) →
  wk_device_keys (walk_at anchor rev es m) !! d = wk_device_keys (walk_at anchor rev es n) !! d.
Proof.
  induction m as [|m IH]; intros Hm Hno; [by replace n with 0 by lia|].
  destruct (decide (n = S m)) as [->|]; [done|].
  destruct (lookup_lt_is_Some_2 es m ltac:(lia)) as [e He]. rewrite (walk_at_S _ _ _ _ _ He).
  destruct (step_authority anchor rev _ e (pass_clean _ _ _ _ _ clean He)) as [Hin Hout].
  rewrite <-IH by (lia || (intros x e' ? ?; apply (Hno x e'); [lia|done])).
  destruct (decide (ev_signer e ∈ wk_trusted (walk_at anchor rev es m))) as [Hs|Hs].
  - destruct (Hin Hs) as [_ ->]. apply evolve_keys_kept. apply (Hno m e); [lia|done].
  - by destruct (Hout Hs) as [_ ->].
Qed.

Lemma untrusted_until k n m :
  n ≤ m ≤ length es → (∀ x e, n ≤ x < m → es !! x = Some e → ¬ introduces k (ev_body e)) →
  k ∉ wk_trusted (walk_at anchor rev es n) → k ∉ wk_trusted (walk_at anchor rev es m).
Proof.
  intros Hm Hno Hk. induction m as [|m IH]; [by replace 0 with n by lia|].
  destruct (decide (n = S m)) as [->|]; [done|].
  destruct (lookup_lt_is_Some_2 es m ltac:(lia)) as [e He]. rewrite (walk_at_S _ _ _ _ _ He).
  destruct (step_authority anchor rev _ e (pass_clean _ _ _ _ _ clean He)) as [Hin Hout].
  assert (k ∉ wk_trusted (walk_at anchor rev es m)) as IH' by (apply IH; [lia|intros x e' ? ?; apply (Hno x e'); [lia|done]]).
  destruct (decide (ev_signer e ∈ wk_trusted (walk_at anchor rev es m))) as [Hs|Hs].
  - destruct (Hin Hs) as [-> _]. apply evolve_not_introduced; [|done]. apply (Hno m e); [lia|done].
  - by destruct (Hout Hs) as [-> _].
Qed.

Lemma revoked_until i j n ei ej en b :
  i < j → j < n → es !! i = Some ei → es !! j = Some ej → es !! n = Some en →
  sb_role (ev_signer_binding ei) = KR_Root → sb_role (ev_signer_binding ej) = KR_Root →
  sb_role (ev_signer_binding en) = KR_Root →
  ev_body ei = DeviceEnrolled b → de_custody_class b = CC_Presence → admits rev b = true →
  revokes_device (de_device_id b) (ev_body ej) →
  (∀ x e, i < x < j → es !! x = Some e → ¬ names_device (de_device_id b) (ev_body e)) →
  (∀ x e, j < x < n → es !! x = Some e → ¬ introduces (pk_public_key (de_device_key b)) (ev_body e)) →
  ev_signer en ≠ pk_public_key (de_device_key b).
Proof.
  intros Hij Hjn Hi Hj Hn Ri Rj Rn Hb Hcc Hadm Hrev Hno1 Hno2 E. set (k := pk_public_key (de_device_key b)) in *.
  pose proof (lookup_lt_Some _ _ _ Hn) as Hlen.
  assert (wk_device_keys (walk_at anchor rev es (S i)) !! de_device_id b = Some k) as Hk.
  { rewrite (walk_at_S _ _ _ _ _ Hi). pose proof (pass_clean _ _ _ _ _ clean Hi) as Hc.
    destruct (proj1 (step_authority anchor rev _ ei Hc) (root_signer_trusted _ _ _ Hc Ri)) as [_ ->].
    rewrite Hb. simpl. rewrite bool_decide_eq_true_2, Hadm by done. simpl. by rewrite lookup_insert_eq. }
  rewrite <-(keys_until (de_device_id b) (S i) j) in Hk; [|lia|intros x e ? ?; apply (Hno1 x e); [lia|done]].
  assert (k ∉ wk_trusted (walk_at anchor rev es (S j))) as Hgone.
  { rewrite (walk_at_S _ _ _ _ _ Hj). pose proof (pass_clean _ _ _ _ _ clean Hj) as Hc.
    destruct (proj1 (step_authority anchor rev _ ej Hc) (root_signer_trusted _ _ _ Hc Rj)) as [-> _]. by eapply evolve_revokes. }
  apply (untrusted_until k (S j) n) in Hgone; [|lia|intros x e ? ?; apply (Hno2 x e); [lia|done]].
  pose proof (root_signer_trusted _ _ _ (pass_clean _ _ _ _ _ clean Hn) Rn) as Hs. by rewrite E in Hs.
Qed.

End Revoked.

(** C27. Trust ends at the pinned anchor: when the verifier passes a slice, every
    envelope of it is well formed and its signature verifies under the signer's key; every
    envelope signed in the root's role is signed by a key that the anchor authorized, directly or
    through a chain of presence enrollments and rotations each signed by a key authorized before
    it, and with an attestation tier that is the floor or was proven; the principal an
    envelope is attributed to descends from a self-parented principal that holds the anchor; one
    signed as a principal or a persona is signed with the active key of that principal, or, for a
    root principal, with an authorized key that an earlier event named for the signing device; and
    once the root has revoked, frozen or replaced an enrolled presence device, no later event of the root is
    signed with its key, unless an event in between named another key for the device or brought the key in again. *)
Theorem verified_slice_rooted events anchor rev n head :
  verify_chain_with_reverifier events anchor rev = Pass n head →
  n = length events
  ∧ (∀ i e, events !! i = Some e → event_verified anchor rev (take i events) e)
  ∧ (∀ i j m ei ej em b, i < j → j < m →
       events !! i = Some ei → events !! j = Some ej → events !! m = Some em →
       sb_role (ev_signer_binding ei) = KR_Root → sb_role (ev_signer_binding ej) = KR_Root →
       sb_role (ev_signer_binding em) = KR_Root →
       ev_body ei = DeviceEnrolled b → de_custody_class b = CC_Presence → proven_tier rev b →
       revokes_device (de_device_id b) (ev_body ej) →
       (∀ x e, i < x < j → events !! x = Some e → ¬ names_device (de_device_id b) (ev_body e)) →
       (∀ x e, j < x < m → events !! x = Some e → ¬ introduces (pk_public_key (de_device_key b)) (ev_body e)) →
       ev_signer em ≠ pk_public_key (de_device_key b)).
Proof.
  intros Hpass. pose proof (verify_pass_ok _ _ _ _ _ Hpass) as (w & Hok & -> & _).
  split; [done|]. split; [apply Hok|]. unfold verify_chain_with_reverifier in Hpass.
  case_bool_decide as He; [by subst|]. case_bool_decide as Hf; [|done].
  setoid_rewrite <-admits_true. intros i j m ei ej em b. apply (revoked_until anchor rev events Hf).
Qed.

(** A slice the verifier passes is, for each root, one unbroken chain from the
    genesis event: the first event has no predecessor and each later one names the event before
    it and the next sequence number. This is the discipline of the event log
    ([memory_root_chain_linked] of [MemoryLog]). *)
Theorem verified_slice_linked events anchor rev n head root :
  verify_chain_with_reverifier events anchor rev = Pass n head →
  linked (root_chain root events).
Proof. intros (w & Hok & _)%verify_pass_ok. apply Hok. Qed.

(** Every failure names the envelope it was found in. *)
Lemma envelope_failures_id anchor w e :
  Forall (λ f, vf_event_id f = ev_event_id e) (envelope_failures anchor w e).
Proof.
  unfold envelope_failures, root_signer_failures, signature_failures, principal_failures,
    body_failures, chain_failures.
  repeat apply Forall_app_2; repeat case_match; by repeat constructor.
Qed.

Lemma walk_counts anchor rev es :
  let w := foldl (verify_step anchor rev) (walk_start anchor) es in
  (wk_failures w = [] ∧ wk_verified_count w = length es
   ∨ wk_failures w ≠ [] ∧ wk_verified_count w < length es)
  ∧ Forall (λ f, vf_event_id f ∈ ev_event_id <$> es) (wk_failures w).
Proof.
  induction es as [|e es [IH IHf]] using rev_ind; simpl; [by split; [left|]|].
  rewrite foldl_app. simpl.
  set (w := foldl (verify_step anchor rev) (walk_start anchor) es) in *.
  pose proof (envelope_failures_id anchor w e) as Hid. rewrite length_app. simpl. split.
  - rewrite app_nil. destruct (envelope_failures anchor w e) as [|f fs]; simpl;
      destruct IH as [[-> ?]|[? ?]]; [left|right|right|right]; split; try lia; naive_solver.
  - apply Forall_app. rewrite fmap_app. split.
    + eapply Forall_impl; [exact IHf|]. set_solver.
    + eapply Forall_impl; [exact Hid|]. simpl. intros f ->. set_solver.
Qed.

(** The verdict is exhaustive: the walk through the parents always ends, and a
    slice is refused exactly when some envelope of it is not clean, in which case fewer
    envelopes than the slice has are counted and at least one failure is listed, each for an
    envelope of the slice. *)
Theorem verify_chain_exhaustive events anchor rev :
  (∀ e principals trusted keys p,
     principal_walk (size principals + 3) e anchor principals trusted keys ∅ true p ≠ None) ∧
  match verify_chain_with_reverifier events anchor rev with
  | Pass n head => n = length events ∧ head = ev_event_id <$> last events
  | Break n failures =>
      n < length events ∧ failures ≠ []
      ∧ Forall (λ f, vf_event_id f ∈ ev_event_id <$> events) failures
  end.
Proof.
  split; [intros; apply principal_walk_terminates|].
  unfold verify_chain_with_reverifier. case_bool_decide as He; [by subst|].
  destruct (walk_counts anchor rev events) as [Hc Hf].
  case_bool_decide; destruct Hc as [[? ?]|[? ?]]; done.
Qed.

End Soundness.

(** ** Concrete slices *)

#[local] Existing Instance demo_hex.
#[local] Existing Instance no_json.

Definition toy_signatures : DeviceSignatures := {|
  ed25519_verify := sample_verifier;
  p256_verify := sample_verifier;
  str_debug := λ s, s
|}.
#[local] Existing Instance toy_signatures.

(** An event signed in the root's role with the key of [key]. *)
Definition root_event (id : string) (body : EventBody) (prev : option (string * Z)) (key : string)
  : EventEnvelope :=
  sample_event id body (match prev with Some (p, n) => [EventRef_previous p n] | None => [] end)
    (mkSignerBinding (mkEventSubject SK_Root "a") ("key-" +:+ key) KR_Root) ("pub-" +:+ key).

Definition presence_device (i key : string) : EventBody :=
  DeviceEnrolled (mkDeviceEnrolled "a" i "Key" (mkPublicKeyMaterial ("key-" +:+ key) KA_EcdsaP256 ("pub-" +:+ key))
                    (sample_enc_key i) CC_Presence None AT_None PF_HardwareTouch).

Definition slice_device_event : EventEnvelope :=
  root_event "e2" (DeviceAdded (mkDeviceAdded "a" "x" "Laptop" (sample_key "x") (sample_enc_key "x")))
    (Some ("e1", 2%Z)) "d".

(** The anchor enrolls a presence device, which then adds another device. *)
Definition slice_enrolled : list EventEnvelope :=
  [ root_event "e0" (RootCreated (mkRootCreated "a" "Primary" (sample_key "a"))) None "a";
    root_event "e1" (presence_device "d" "d") (Some ("e0", 1%Z)) "a";
    slice_device_event ].

Lemma slice_enrolled_passes : verify_chain slice_enrolled "pub-a" = Pass 3 (Some "e2").
Proof. vm_compute. reflexivity. Qed.

Lemma verified_slice_rooted_witness :
  authorized_key "pub-a" None (take 2 slice_enrolled) "pub-d".
Proof.
  refine (proj1 (proj2 (proj2 (proj1 (proj2 (verified_slice_rooted slice_enrolled "pub-a" None 3 (Some "e2")
            slice_enrolled_passes)) 2 slice_device_event _))) _); reflexivity.
Defined.

Lemma verified_slice_linked_witness :
  length (root_chain "a" slice_enrolled) = 3 ∧ linked (root_chain "a" slice_enrolled).
Proof.
  split; [vm_compute; reflexivity|].
  exact (verified_slice_linked slice_enrolled "pub-a" None 3 (Some "e2") "a" slice_enrolled_passes).
Defined.

(** After a rotation of the root's key the last event is signed with the key [signer]. *)
Definition slice_rotated (signer : string) : list EventEnvelope :=
  [ root_event "e0" (RootCreated (mkRootCreated "a" "Primary" (sample_key "a"))) None "a";
    root_event "e1" (RootKeyRotated (mkRootKeyRotated "a" "key-a" (sample_key "b")))
      (Some ("e0", 1%Z)) "a";
    root_event "e2" (DeviceAdded (mkDeviceAdded "a" "x" "Laptop" (sample_key "x") (sample_enc_key "x")))
      (Some ("e1", 2%Z)) signer ].

(** The verifier does not follow the rotation of a root key: it refuses a log
    that the event log admitted under the identity authorizer, in which the rotated-in key signs
    after the rotation, and passes one in which the rotated-out key still signs, which the
    event log refuses. *)
Theorem root_rotation_not_followed :
  (sample_log (slice_rotated "b")).1 = Ok tt
  ∧ (∃ n fs, verify_chain (slice_rotated "b") "pub-a" = Break n fs)
  ∧ (sample_log (slice_rotated "a")).1 ≠ Ok tt
  ∧ verify_chain (slice_rotated "a") "pub-a" = Pass 3 (Some "e2").
Proof.
  split_and!; [vm_compute; reflexivity| |vm_compute; discriminate|vm_compute; reflexivity].
  do 2 eexists. vm_compute. reflexivity.
Qed.

(** A device added under the identifier of a presence device hides the key of that device from
    its revocation: the revoked device's key keeps its authority and signs on. *)
Definition slice_orphan : list EventEnvelope :=
  [ root_event "e0" (RootCreated (mkRootCreated "a" "Primary" (sample_key "a"))) None "a";
    root_event "e1" (presence_device "d" "d") (Some ("e0", 1%Z)) "a";
    root_event "e2" (DeviceAdded (mkDeviceAdded "a" "d" "Laptop" (sample_key "x") (sample_enc_key "x")))
      (Some ("e1", 2%Z)) "a";
    root_event "e3" (DeviceRevoked (mkDeviceRevoked "a" "d" "lost")) (Some ("e2", 3%Z)) "a";
    root_event "e4" (DeviceAdded (mkDeviceAdded "a" "y" "Laptop" (sample_key "y") (sample_enc_key "y")))
      (Some ("e3", 4%Z)) "d" ].

Lemma revoked_device_key_orphaned : verify_chain slice_orphan "pub-a" = Pass 5 (Some "e4").
Proof. vm_compute. reflexivity. Qed.
