(* ===== verification/UseTime.v ===== *)
(** * Use-time authority decisions

    crates/ember-daemon/src/trust/use_time_verify.rs: [verify_grant_for_use] composes the
    verifiers of four components on the candidate grants of a persona: the device-set's word on
    the persona's root key, the signatures of the grant's chain ([ChainCrypto]), the attenuation
    of each appended block against its predecessor ([Attenuation]), the cover of the need by one
    grant, and the walk through the ancestors of that grant. The two seams the daemon fills at
    the wiring site, [PersonaRootAuthority] and [GrantAncestry], are records of functions. *)

From stdpp Require Import base gmap sets list strings.
From Stdlib Require Import Ascii Lia ZArith.
From S2P Require Import Prelude CoreTypes GrantTypes Attenuation ChainCrypto.

(** ** Seams *)

Record PersonaRootAuthority := mkAuthority {
  authorized_root_pubkey : string → option bytes
}.

Record GrantAncestry := mkAncestry {
  ancestor_ids : string → list string;
  status_of : list string → list AccessGrant
}.

(** ** Verdicts *)

Inductive RefuseReason :=
| NoRootedChainValidGrant
| ChainAttenuationViolation (grant_id : string) (block_index : nat) (why : string)
| RR_Unsatisfiable (why : NeedUnsatisfiable)
| AncestorRevoked (who : RevokedAncestor).

Inductive UseVerdict :=
| Authorized (grant_id : string) (matched_statement_sids : list string)
| Refused (why : RefuseReason).

(** ** The composition *)

Definition synthetic_grant_from_block (sb : SignedBlock) (grant_id : string) : AccessGrant :=
  mkGrant grant_id 1 (issued_by (block sb)) Service "" RP_Agent Active OneShot [sb]
    AttestationBinding_default (issued_at (block sb)) (issued_at (block sb)) None None None None.

(** The loop [for i in 1..blocks.len()], [prev] being [blocks[i - 1]]. *)
Fixpoint attenuation_loop (i : nat) (prev : SignedBlock) (rest : list SignedBlock)
  (grant_id : string) : option (nat * string) :=
  match rest with
  | [] => None
  | sb :: rest' =>
      match check_statement_attenuation (synthetic_grant_from_block prev grant_id)
              (synthetic_grant_from_block sb grant_id) with
      | Err violation => Some (i, reason violation)
      | Ok _ => attenuation_loop (S i) sb rest' grant_id
      end
  end.

Definition first_attenuation_violation (blocks : list SignedBlock) (grant_id : string)
  : option (nat * string) :=
  match blocks with
  | [] => None
  | first :: rest => attenuation_loop 1 first rest grant_id
  end.

(** The loop over [chain_verified]: the first grant with a widening block ends it. *)
Fixpoint attenuation_filter (chain_verified : list AccessGrant)
  : result (list AccessGrant) RefuseReason :=
  match chain_verified with
  | [] => Ok []
  | grant :: grants =>
      match first_attenuation_violation (g_blocks grant) (g_id grant) with
      | Some (block_index, why) => Err (ChainAttenuationViolation (g_id grant) block_index why)
      | None => let? verified := attenuation_filter grants in Ok (grant :: verified)
      end
  end.

Section Use.
Context {O : CryptoOps}.

Definition rooted_and_verified (authority : PersonaRootAuthority) (g : AccessGrant) : bool :=
  match authorized_root_pubkey authority (g_issuing_persona_id g) with
  | Some root => is_ok (verify_chain (g_blocks g) root)
  | None => false
  end.

Definition verify_grant_for_use (authority : PersonaRootAuthority) (ancestry : GrantAncestry)
  (grants : list AccessGrant) (need : list Statement) : UseVerdict :=
  let chain_verified := List.filter (rooted_and_verified authority) grants in
  if bool_decide (chain_verified = []) then Refused NoRootedChainValidGrant
  else match attenuation_filter chain_verified with
       | Err why => Refused why
       | Ok verified =>
           match resolve_need_against_grants verified need with
           | Unsatisfiable why => Refused (RR_Unsatisfiable why)
           | Covered grant_id matched_statement_sids =>
               let ids := ancestor_ids ancestry grant_id in
               if negb (bool_decide (ids = [])) then
                 match first_revoked_ancestor ids (status_of ancestry ids) with
                 | Some revoked => Refused (AncestorRevoked revoked)
                 | None => Authorized grant_id matched_statement_sids
                 end
               else Authorized grant_id matched_statement_sids
           end
       end.

(** ** Lemmas *)

(** Each block attenuates the one before it. *)
Fixpoint hops_attenuate (grant_id : string) (prev : SignedBlock) (rest : list SignedBlock) : Prop :=
  match rest with
  | [] => True
  | sb :: rest' =>
      check_statement_attenuation (synthetic_grant_from_block prev grant_id)
        (synthetic_grant_from_block sb grant_id) = Ok tt ∧ hops_attenuate grant_id sb rest'
  end.

Lemma attenuation_loop_None i prev rest gid :
  attenuation_loop i prev rest gid = None ↔ hops_attenuate gid prev rest.
Proof.
  revert i prev. induction rest as [|sb rest IH]; intros i prev; simpl; [done|].
  rewrite <-(IH (S i)). destruct (check_statement_attenuation _ _) as [[]|]; naive_solver.
Qed.

Lemma attenuation_filter_Ok gs vs :
  attenuation_filter gs = Ok vs ↔
  vs = gs ∧ Forall (λ g, first_attenuation_violation (g_blocks g) (g_id g) = None) gs.
Proof.
  revert vs. induction gs as [|g gs IH]; intros vs; simpl; [split; [by intros [= <-]|by intros [-> _]]|].
  rewrite Forall_cons.
  destruct (first_attenuation_violation _ _) as [[j w]|] eqn:E; [naive_solver|].
  rewrite result_bind_Ok. setoid_rewrite IH. naive_solver.
Qed.

Lemma synthetic_statements sb gid :
  (grant_statements (synthetic_grant_from_block sb gid)).*2 = statements (block sb).
Proof. unfold grant_statements. cbn. rewrite app_nil_r, <-list_fmap_compose. apply list_fmap_id. Qed.

Lemma grant_statements_elem g s :
  s ∈ (grant_statements g).*2 ↔ ∃ sb, sb ∈ g_blocks g ∧ s ∈ statements (block sb).
Proof.
  unfold grant_statements. setoid_rewrite list_elem_of_fmap.
  setoid_rewrite list_elem_of_join. setoid_rewrite elem_of_lookup_imap. split.
  - intros ([i s'] & -> & l & Hin & (j & sb & -> & Hj)). exists sb.
    apply list_elem_of_fmap in Hin as (? & ? & ?). simplify_eq/=. split; [by eapply list_elem_of_lookup_2|done].
  - intros (sb & Hsb & Hs). apply list_elem_of_lookup in Hsb as [j Hj]. exists (j, s). split; [done|].
    eexists. split; [|by exists j, sb]. apply list_elem_of_fmap. eauto.
Qed.

(** A statement, unconditional, whose actions and resource contain the clause's. *)
Definition within (s c : Statement) : Prop :=
  actions_subset (actions s) (actions c) = true ∧
  selector_subset (resource c) (resource s) = true ∧ conditions s = [].

Lemma covers_within s c : covers_clause s c → within s c.
Proof. unfold covers_clause, within. tauto. Qed.

Lemma within_dominated p s c : dominates p s → within s c → within p c.
Proof.
  intros (Ha & Hs & Hc & _) (Ha' & Hs' & Hn). split; [|split].
  - by eapply actions_subset_trans.
  - by eapply selector_subset_trans.
  - apply conditions_subsumed_true in Hc. rewrite Hn in Hc.
    destruct (conditions p) as [|x l]; [done|]. exfalso. specialize (Hc x (list_elem_of_here _ _)).
    by apply elem_of_nil in Hc.
Qed.

(** What any block of an attenuating chain admits is within some statement of the first. *)
Lemma hops_within gid prev rest sb s c :
  hops_attenuate gid prev rest → sb ∈ prev :: rest → s ∈ statements (block sb) → within s c →
  ∃ s0, s0 ∈ statements (block prev) ∧ within s0 c.
Proof.
  revert prev. induction rest as [|nxt rest IH]; intros prev Hh Hin Hs Hw.
  { apply list_elem_of_singleton in Hin as ->. eauto. }
  apply elem_of_cons in Hin as [->|Hin]; [eauto|]. destruct Hh as [Hc Hh].
  destruct (IH nxt Hh Hin Hs Hw) as (s1 & Hs1 & Hw1).
  apply check_statement_attenuation_Ok with (c := s1) in Hc as (p & Hp & Hd).
  2: { by rewrite synthetic_statements. }
  rewrite synthetic_statements in Hp. exists p. eauto using within_dominated.
Qed.

Lemma verify_grant_for_use_Authorized authority ancestry grants need i sids :
  verify_grant_for_use authority ancestry grants need = Authorized i sids ↔
  List.filter (rooted_and_verified authority) grants ≠ [] ∧
  Forall (λ g, first_attenuation_violation (g_blocks g) (g_id g) = None)
    (List.filter (rooted_and_verified authority) grants) ∧
  resolve_need_against_grants (List.filter (rooted_and_verified authority) grants) need
    = Covered i sids ∧
  Forall (live (status_of ancestry (ancestor_ids ancestry i))) (ancestor_ids ancestry i).
Proof.
  unfold verify_grant_for_use. case_bool_decide as Hn; [by split; [|intros [? _]]|].
  destruct (attenuation_filter _) as [vs|e] eqn:Ea.
  2: { split; [done|]. intros (_ & Hf & _). exfalso.
       assert (attenuation_filter (List.filter (rooted_and_verified authority) grants)
               = Ok (List.filter (rooted_and_verified authority) grants)) as H'
         by (by apply attenuation_filter_Ok).
       congruence. }
  apply attenuation_filter_Ok in Ea as [-> Hf].
  destruct (resolve_need_against_grants _ need) as [j ss|w] eqn:Er; [|naive_solver].
  rewrite <-first_revoked_ancestor_None. case_bool_decide as Hi; simpl.
  - split; [intros [= <- <-]; rewrite Hi; simpl; naive_solver|naive_solver].
  - destruct (first_revoked_ancestor _ _) eqn:Ef; split.
    + done.
    + intros (_ & _ & [= <- <-] & H). congruence.
    + intros [= <- <-]. naive_solver.
    + naive_solver.
Qed.

Lemma rooted_and_verified_true authority g :
  rooted_and_verified authority g = true ↔
  ∃ root, authorized_root_pubkey authority (g_issuing_persona_id g) = Some root ∧
    verify_chain (g_blocks g) root = Ok tt.
Proof.
  unfold rooted_and_verified. destruct (authorized_root_pubkey _ _) as [root|]; [|naive_solver].
  rewrite is_ok_unit. naive_solver.
Qed.

End Use.

Lemma resolve_Covered grants need i sids :
  resolve_need_against_grants grants need = Covered i sids →
  need ≠ [] ∧ ∃ g, g ∈ grants ∧ usable g ∧ g_id g = i ∧
    cover_clauses (grant_statements g).*2 need = Some sids.
Proof.
  unfold resolve_need_against_grants. case_bool_decide as Hn; [done|].
  destruct (resolve_loop grants need false) as [r|b] eqn:Er.
  - intros ->. apply resolve_loop_inl in Er as (g & sids' & ? & ? & [= -> ->] & ?). eauto 10.
  - by destruct b; simpl; [destruct (forallb _ _)|].
Qed.

Lemma attenuation_loop_Some i prev rest gid k why :
  attenuation_loop i prev rest gid = Some (k, why) →
  ∃ pre p sb post, prev :: rest = pre ++ p :: sb :: post ∧ k = i + length pre ∧
    (∀ first pre', prev :: rest = first :: pre' →
       hops_attenuate gid first (take (length pre) pre')) ∧
    check_statement_attenuation (synthetic_grant_from_block p gid)
      (synthetic_grant_from_block sb gid) = Err (mkViolation why).
Proof.
  revert i prev. induction rest as [|sb rest IH]; intros i prev; simpl; [done|].
  destruct (check_statement_attenuation _ _) as [[]|[w]] eqn:Ec.
  - intros H. destruct (IH _ _ H) as (pre & p & sb' & post & Heq & -> & Hpre & Herr).
    exists (prev :: pre), p, sb', post. split; [by rewrite Heq|]. split; [simpl; lia|].
    split; [|done]. intros first pre' [= <- <-]. simpl. split; [done|]. by apply Hpre.
  - intros [= <- <-]. exists [], prev, sb, rest. split_and!; [done|simpl; lia| |done].
    intros first pre' [= <- <-]. done.
Qed.

Lemma attenuation_filter_Err gs why :
  attenuation_filter gs = Err why →
  ∃ pre g post k w, gs = pre ++ g :: post ∧ why = ChainAttenuationViolation (g_id g) k w ∧
    first_attenuation_violation (g_blocks g) (g_id g) = Some (k, w) ∧
    Forall (λ g, first_attenuation_violation (g_blocks g) (g_id g) = None) pre.
Proof.
  induction gs as [|g gs IH]; simpl; [done|].
  destruct (first_attenuation_violation _ _) as [[k w]|] eqn:Ef.
  - intros [= <-]. by exists [], g, gs, k, w.
  - rewrite result_bind_Err. intros [H|(? & _ & [=])].
    destruct (IH H) as (pre & g' & post & k & w & -> & -> & ? & ?).
    exists (g :: pre), g', post, k, w. split_and!; auto.
Qed.

Lemma find_app_l {A} (f : A → bool) l l' x : List.find f l = Some x → List.find f (l ++ l') = Some x.
Proof. induction l as [|y l IH]; simpl; [done|]. by destruct (f y). Qed.

Lemma cover_clauses_app l l' need sids :
  cover_clauses l need = Some sids → cover_clauses (l ++ l') need = Some sids.
Proof.
  revert sids. induction need as [|c need IH]; intros sids; simpl; [done|].
  destruct (List.find _ l) as [s|] eqn:Ef; [|done]. rewrite (find_app_l _ _ _ _ Ef).
  destruct (cover_clauses l need) as [ss|]; [|done]. by rewrite (IH ss).
Qed.

Lemma resolve_single g need i sids :
  resolve_need_against_grants [g] need = Covered i sids ↔
  need ≠ [] ∧ grant_usable g = true ∧ g_id g = i ∧
  cover_clauses (grant_statements g).*2 need = Some sids.
Proof.
  unfold resolve_need_against_grants, resolve_loop, grant_covers_need.
  case_bool_decide; [naive_solver|]. destruct (grant_usable g); simpl; [|naive_solver].
  destruct (cover_clauses _ _); [naive_solver|]. destruct (forallb _ _); naive_solver.
Qed.

Definition append_block (g : AccessGrant) (sb : SignedBlock) : AccessGrant :=
  mkGrant (g_id g) (g_version g) (g_issuing_persona_id g) (g_recipient_kind g) (g_recipient_id g)
    (g_recipient_profile g) (g_status g) (g_mode g) (g_blocks g ++ [sb]) (g_attestation g)
    (g_created_at g) (g_updated_at g) (g_revoked_at g) (g_revoked_reason g) (g_last_used_at g)
    (g_label g).

Lemma append_block_statements g sb :
  ∃ l, (grant_statements (append_block g sb)).*2 = (grant_statements g).*2 ++ l.
Proof.
  unfold grant_statements, append_block. cbn. rewrite imap_app, join_app, fmap_app. by eexists.
Qed.

(** ** Properties *)

(** C8. A use-time authorization is backed by the root. When [verify_grant_for_use] authorizes a
    need, one live candidate grant covers it clause by clause with unconditional statements that
    have budget left; the device-set authorizes the root key of its persona; if that key is
    honest and signatures are unforgeable, its owner signed the first block of the grant, and
    every clause of the need lies within a statement of that very block, so no appended block
    and no injected grant can contribute authority; and every ancestor of the grant is live. *)
Theorem authorized_use_root_backed {O : CryptoOps} (honest : bytes → Prop)
  (zero_log app_log : bytes → Block → bytes → Prop) (authority : PersonaRootAuthority)
  (ancestry : GrantAncestry) (grants : list AccessGrant) (need : list Statement) (i : string)
  (sids : list string)
  (Hzero : log_wf zero_log) (Happ : log_wf app_log)
  (Huf : unforgeable honest zero_log app_log)
  (Hfits : ∀ g sb, g ∈ grants → sb ∈ g_blocks g → fits_u32 (Block_canonical_encode (block sb)))
  (H : verify_grant_for_use authority ancestry grants need = Authorized i sids) :
  need ≠ [] ∧ Forall (live (status_of ancestry (ancestor_ids ancestry i))) (ancestor_ids ancestry i) ∧
  ∃ g root first, g ∈ grants ∧ g_id g = i ∧ usable g ∧
    Forall2 (λ c k, ∃ s, s ∈ (grant_statements g).*2 ∧ sid s = k ∧ covers_clause s c) need sids ∧
    authorized_root_pubkey authority (g_issuing_persona_id g) = Some root ∧
    head (g_blocks g) = Some first ∧ (honest root → signed_by zero_log root first) ∧
    Forall (λ c, ∃ s0, s0 ∈ statements (block first) ∧ within s0 c) need.
Proof.
  apply verify_grant_for_use_Authorized in H as (_ & Hatt & Hres & Hlive).
  apply resolve_Covered in Hres as (Hne & g & Hg & Hu & Hid & Hcov%cover_clauses_Some).
  rewrite Forall_forall in Hatt. specialize (Hatt g Hg).
  apply list_elem_of_In, List.filter_In in Hg as [Hg%list_elem_of_In Hr].
  apply rooted_and_verified_true in Hr as (root & Hroot & Hver).
  apply verify_chain_Ok in Hver as (first & rest & Hb & _ & Hlen & Hz & _).
  split; [done|]. split; [done|]. exists g, root, first. rewrite Hb in *. split_and!; try done.
  - intros Hh. eapply (link_zero_signed honest zero_log app_log); try done.
    apply (Hfits g); [done|]. rewrite Hb. left.
  - apply attenuation_loop_None in Hatt. apply Forall_forall. intros c Hc.
    apply list_elem_of_lookup in Hc as [k Hk].
    eapply Forall2_lookup_l in Hcov as (y & _ & s & Hs & _ & Hsc); [|done].
    apply grant_statements_elem in Hs as (sb & Hsb & Hs). rewrite Hb in Hsb.
    eapply hops_within; eauto using covers_within.
Qed.

(** A persona with one grant, rooted at the toy key, whose parent grant is live. *)
Definition demo_use_grant : AccessGrant :=
  mkGrant "g1" 1 "alice" Service "bot" RP_Agent Active OneShot [demo_signed]
    AttestationBinding_default 1 1 None None None None.
Definition demo_authority : PersonaRootAuthority :=
  mkAuthority (λ p, if bool_decide (p = "alice") then Some (zeros 32) else None).
Definition demo_ancestry (parent : AccessGrant) : GrantAncestry :=
  mkAncestry (λ i, if bool_decide (i = "g1") then [g_id parent] else []) (λ _, [parent]).

Lemma authorized_use_root_backed_witness :
  ∃ g root first, g ∈ [demo_use_grant] ∧ g_id g = "g1" ∧ usable g ∧
    Forall2 (λ c k, ∃ s, s ∈ (grant_statements g).*2 ∧ sid s = k ∧ covers_clause s c)
      [demo_statement "N" ["a"] Any] ["S0"] ∧
    authorized_root_pubkey demo_authority (g_issuing_persona_id g) = Some root ∧
    head (g_blocks g) = Some first ∧
    (root = zeros 32 → @signed_by demo_ops (λ _ b n, b = demo_block ∧ n = zeros 32) root first) ∧
    Forall (λ c, ∃ s0, s0 ∈ statements (block first) ∧ within s0 c) [demo_statement "N" ["a"] Any].
Proof.
  refine (proj2 (proj2 (@authorized_use_root_backed demo_ops (λ pk, pk = zeros 32)
    (λ _ b n, b = demo_block ∧ n = zeros 32) (λ _ _ _, False) demo_authority
    (demo_ancestry (demo_child 5 ["a"] Any)) [demo_use_grant] [demo_statement "N" ["a"] Any] "g1"
    ["S0"] _ _ _ _ _))).
  - intros pk b n [-> ->]. split; [vm_compute; discriminate|reflexivity].
  - intros pk b n [].
  - intros pk vk m s -> _ Hm%bool_decide_eq_true. left. exists demo_block, (zeros 32).
    split; [split; reflexivity|exact Hm].
  - intros g sb ->%list_elem_of_singleton ->%list_elem_of_singleton. vm_compute. discriminate.
  - vm_compute. reflexivity.
Defined.

(** Every refusal names its own cause. No candidate is rooted and verified; or the first rooted
    and verified grant with a widening block is named, with the index of that block and the
    violation it commits, all hops before it attenuating; or the resolver refuses the rooted,
    verified, attenuating grants; or the covering grant has a dead ancestor, and the first one is
    named. A widening chain is never skipped in favour of a sibling grant. *)
Theorem use_refusal_exact {O : CryptoOps} (authority : PersonaRootAuthority)
  (ancestry : GrantAncestry) (grants : list AccessGrant) (need : list Statement) :
  let eligible := List.filter (rooted_and_verified authority) grants in
  match verify_grant_for_use authority ancestry grants need with
  | Authorized _ _ => True
  | Refused NoRootedChainValidGrant =>
      ∀ g root, g ∈ grants → authorized_root_pubkey authority (g_issuing_persona_id g) = Some root →
      verify_chain (g_blocks g) root ≠ Ok tt
  | Refused (ChainAttenuationViolation i k why) =>
      ∃ pre g post bs p sb bs', eligible = pre ++ g :: post ∧ g_id g = i ∧
        Forall (λ g, first_attenuation_violation (g_blocks g) (g_id g) = None) pre ∧
        g_blocks g = bs ++ p :: sb :: bs' ∧ k = S (length bs) ∧
        check_statement_attenuation (synthetic_grant_from_block p i)
          (synthetic_grant_from_block sb i) = Err (mkViolation why)
  | Refused (RR_Unsatisfiable why) => resolve_need_against_grants eligible need = Unsatisfiable why
  | Refused (AncestorRevoked r) =>
      ∃ i sids, resolve_need_against_grants eligible need = Covered i sids ∧
        first_revoked_ancestor (ancestor_ids ancestry i)
          (status_of ancestry (ancestor_ids ancestry i)) = Some r
  end.
Proof.
  intros eligible. unfold verify_grant_for_use. fold eligible. case_bool_decide as Hn.
  { intros g root Hg Hroot Hv. assert (g ∈ eligible) as Hin; [|rewrite Hn in Hin; by apply elem_of_nil in Hin].
    apply list_elem_of_In, List.filter_In. rewrite <-list_elem_of_In, rooted_and_verified_true. eauto. }
  destruct (attenuation_filter eligible) as [vs|e] eqn:Ea.
  - apply attenuation_filter_Ok in Ea as [-> _].
    destruct (resolve_need_against_grants eligible need) as [i sids|w] eqn:Er; [|done].
    case_bool_decide; simpl; [done|]. destruct (first_revoked_ancestor _ _) eqn:Ef; eauto.
  - apply attenuation_filter_Err in Ea as (pre & g & post & k & w & Heq & -> & Hf & Hpre).
    unfold first_attenuation_violation in Hf. destruct (g_blocks g) as [|first rest] eqn:Eb; [done|].
    apply attenuation_loop_Some in Hf as (bs & p & sb & bs' & Hb & -> & _ & Herr).
    exists pre, g, post, bs, p, sb, bs'. split_and!; try done. by rewrite Eb.
Qed.

(** An appended block never narrows what a grant authorizes. If a need is authorized by a grant,
    the same need is authorized by the same grant with any further block that verifies and
    attenuates, however narrow: the resolver takes the union of the statements of all blocks,
    where the module's documentation asks for the intersection. *)
Theorem appended_block_does_not_narrow {O : CryptoOps} (authority : PersonaRootAuthority)
  (ancestry : GrantAncestry) (g : AccessGrant) (sb : SignedBlock) (need : list Statement)
  (i : string) (sids : list string)
  (H : verify_grant_for_use authority ancestry [g] need = Authorized i sids)
  (Hver : rooted_and_verified authority (append_block g sb) = true)
  (Hatt : first_attenuation_violation (g_blocks (append_block g sb)) (g_id g) = None) :
  verify_grant_for_use authority ancestry [append_block g sb] need = Authorized i sids.
Proof.
  rewrite verify_grant_for_use_Authorized in *. cbn [List.filter] in *. rewrite Hver.
  destruct H as (Hne & _ & Hr & Hlive). destruct (rooted_and_verified authority g); [|done].
  split; [done|]. split; [by constructor|]. split; [|done]. rewrite resolve_single in *.
  destruct Hr as (? & ? & ? & Hc). destruct (append_block_statements g sb) as [l ->].
  split_and!; auto using cover_clauses_app.
Qed.

(** A second block that only allows the resource [only]. *)
Definition demo_narrow_block : SignedBlock :=
  mkSigned (mkBlock [mkStatement "S1" Credential ["a"] (Exact "only") (Some (mkBudget (Some 5%Z) None None None None))
                       Usage_default [] None] None None "alice" 2 None None)
    (of_bytes (toy_hex (zeros 32))) (of_bytes (toy_hex (zeros 64))).

Lemma appended_block_does_not_narrow_witness :
  @verify_grant_for_use (toy_ops (λ _, true)) demo_authority (demo_ancestry (demo_child 5 ["a"] Any))
    [append_block demo_use_grant demo_narrow_block] [demo_statement "N" ["a"] Any]
  = Authorized "g1" ["S0"].
Proof. apply appended_block_does_not_narrow; vm_compute; reflexivity. Defined.
