(* ===== verification/LogText.v ===== *)
(** * The text form of a log

    [export_events] and [import_events] of crates/core-eventlog/src/memory.rs: one line of
    tab-separated fields for each event. Reading the text a log was written to is appending its
    events, less the ones the reader has. *)

From stdpp Require Import base gmap sets list strings relations pretty.
From Stdlib Require Import Ascii Lia ZArith.
From S2P Require Import Prelude CoreTypes Numbers EventTypes EventCodec EventDecode Envelope LogTypes.
From S2P Require Import Materialize Authorize EventLog MemoryLog.

Local Infix "+:+" := String.append (at level 60, right associativity).

Definition colon : ascii := ":"%char.
Definition comma : ascii := ","%char.

(** [str::splitn(3, c)] *)
Definition splitn3 (c : ascii) (s : string) : list string :=
  match str_split_once c s with
  | None => [s]
  | Some (x, r) =>
      match str_split_once c r with
      | None => [x; r]
      | Some (y, z) => [x; y; z]
      end
  end.

(** [.collect::<Result<Vec<_>, _>>()] after a fallible [map] *)
Fixpoint collect_results {A B E} (f : A → result B E) (l : list A) : result (list B) E :=
  match l with
  | [] => Ok []
  | x :: l' => let? y := f x in let? ys := collect_results f l' in Ok (y :: ys)
  end.

(** ** Writing *)

Definition export_ref (r : EventRef) : string :=
  EventRefRelation_as_str (ref_relation r) +:+ ":" +:+ ref_target_event_id r +:+ ":"
  +:+ u64_to_string (ref_seq r).

Section Text.
Context {H : HexOps} {J : JsonOps}.

Definition export_fields (e : EventEnvelope) : list string :=
  [ev_event_id e;
   SchemaVersion_display (ev_schema_version e);
   EventType_as_str (ev_event_type e);
   SubjectKind_as_str (es_kind (ev_subject e));
   es_subject_id (ev_subject e);
   SubjectKind_as_str (es_kind (sb_signer (ev_signer_binding e)));
   es_subject_id (sb_signer (ev_signer_binding e));
   KeyRole_as_str (sb_role (ev_signer_binding e));
   sb_key_id (ev_signer_binding e);
   ev_signer e;
   bytes_to_hex (ev_payload e);
   ev_signature e;
   str_join "," (export_ref <$> ev_refs e)].

Definition tab_string : string := String.String tab "".

Definition export_line (e : EventEnvelope) : string := str_join tab_string (export_fields e).

Definition export_events (l : MemoryEventLog) : string :=
  str_join nl (export_line <$> ml_events l).

(** ** Reading *)

Definition import_ref (r : string) : result EventRef ValidationError :=
  let parts := splitn3 colon r in
  (if bool_decide (length parts < 2) then Err (VE.new ("invalid ref: " +:+ r)) else Ok tt) ;?
  let? relation := ok_or (EventRefRelation_parse (parts !!! 0))
                     (VE.new ("unknown ref relation: " +:+ (parts !!! 0))) in
  let? seq := if bool_decide (length parts = 3)
              then map_err (λ _, VE.new ("invalid ref seq in: " +:+ r)) (parse_u64 (parts !!! 2))
              else Ok 0%Z in
  Ok (mkEventRef relation (parts !!! 1) seq).

Definition import_refs (refs_str : string) : result (list EventRef) ValidationError :=
  if str_is_empty refs_str then Ok [] else collect_results import_ref (str_split comma refs_str).

(** The fields of a line to an envelope; the reader has checked that there are twelve. *)
Definition import_envelope (fields : list string) : result EventEnvelope ValidationError :=
  let? schema_version := ok_or (SchemaVersion_parse (fields !!! 1))
                           (VE.new ("invalid schema version: " +:+ (fields !!! 1))) in
  let? event_type := ok_or (EventType_parse (fields !!! 2))
                       (VE.new ("unknown event type: " +:+ (fields !!! 2))) in
  let? subject_kind := ok_or (SubjectKind_parse (fields !!! 3))
                         (VE.new ("unknown subject kind: " +:+ (fields !!! 3))) in
  let subject := mkEventSubject subject_kind (fields !!! 4) in
  let? signer_kind := ok_or (SubjectKind_parse (fields !!! 5))
                        (VE.new ("unknown signer kind: " +:+ (fields !!! 5))) in
  let? role := ok_or (KeyRole_parse (fields !!! 7))
                 (VE.new ("unknown key role: " +:+ (fields !!! 7))) in
  let signer_binding :=
    mkSignerBinding (mkEventSubject signer_kind (fields !!! 6)) (fields !!! 8) role in
  let? payload := map_err (λ err, VE.new ("invalid payload hex: " +:+ message err))
                    (hex_to_bytes (fields !!! 10)) in
  let refs_str := if bool_decide (12 < length fields) then fields !!! 12 else "" in
  let? refs := import_refs refs_str in
  let? body := EventBody_decode_canonical payload in
  Ok (mkEventEnvelope schema_version (fields !!! 0) event_type subject signer_binding
        (fields !!! 9) payload refs (fields !!! 11) body).

Definition known (l : MemoryEventLog) (event_id : string) : bool :=
  existsb (λ e, bool_decide (ev_event_id e = event_id)) (ml_events l).

Fixpoint import_lines (verifier : Verifier) (authorizer : Authorizer) (now_epoch_secs : Z)
  (lines : list string) (imported : nat) (l : MemoryEventLog)
  : result nat ValidationError * MemoryEventLog :=
  match lines with
  | [] => (Ok imported, l)
  | line0 :: rest =>
      let line := str_trim line0 in
      if str_is_empty line
      then import_lines verifier authorizer now_epoch_secs rest imported l
      else
        let fields := str_split tab line in
        if bool_decide (length fields < 12)
        then (Err (VE.new ("import line has " +:+ pretty (N.of_nat (length fields))
                           +:+ " fields, expected at least 12")), l)
        else if known l (fields !!! 0)
        then import_lines verifier authorizer now_epoch_secs rest imported l
        else
          match import_envelope fields with
          | Err x => (Err x, l)
          | Ok envelope =>
              match memory_append_with_authorizer l envelope verifier authorizer now_epoch_secs with
              | (Err x, l') => (Err x, l')
              | (Ok _, l') =>
                  import_lines verifier authorizer now_epoch_secs rest (S imported) l'
              end
          end
  end.

Definition import_events (l : MemoryEventLog) (data : string) (verifier : Verifier)
  (authorizer : Authorizer) (now_epoch_secs : Z) : result nat ValidationError * MemoryEventLog :=
  import_lines verifier authorizer now_epoch_secs (of_bytes <$> lines_on (to_bytes data)) 0 l.

End Text.

(** ** What the reader makes of a written log *)

(** An event as its stored form gives it back: the body is read from the payload. *)
Definition stored (e : EventEnvelope) : EventEnvelope :=
  mkEventEnvelope (ev_schema_version e) (ev_event_id e) (ev_event_type e) (ev_subject e)
    (ev_signer_binding e) (ev_signer e) (ev_payload e) (ev_refs e) (ev_signature e)
    (canonical_form (ev_body e)).

(** The reference: append the events the log does not have, stop at the first error. *)
Fixpoint append_missing {H : HexOps} {J : JsonOps} (v : Verifier) (a : Authorizer) (now : Z)
  (es : list EventEnvelope) (n : nat) (l : MemoryEventLog)
  : result nat ValidationError * MemoryEventLog :=
  match es with
  | [] => (Ok n, l)
  | e :: rest =>
      if known l (ev_event_id e) then append_missing v a now rest n l
      else match memory_append_with_authorizer l (stored e) v a now with
           | (Err x, l') => (Err x, l')
           | (Ok _, l') => append_missing v a now rest (S n) l'
           end
  end.

Definition field_wf (s : string) : Prop := tab ∉ to_bytes s ∧ newline ∉ to_bytes s.
#[export] Instance field_wf_dec s : Decision (field_wf s).
Proof. unfold field_wf. apply _. Defined.

Definition ref_text_wf (r : EventRef) : Prop :=
  field_wf (ref_target_event_id r) ∧ colon ∉ to_bytes (ref_target_event_id r) ∧
  comma ∉ to_bytes (ref_target_event_id r) ∧ in_u64 (ref_seq r).

Definition plain_end (o : option ascii) : Prop := option_map plain_byte o = Some true.

(** The event fits the line format: no separators in its identifiers, a printable first byte of
    its identifier and last byte of its signature, and a payload that is its body's encoding. *)
Record line_wf {H : HexOps} (e : EventEnvelope) : Prop := {
  lw_version : ev_schema_version e = SCHEMA_V0_1_0;
  lw_fields : Forall field_wf [ev_event_id e; es_subject_id (ev_subject e);
                es_subject_id (sb_signer (ev_signer_binding e)); sb_key_id (ev_signer_binding e);
                ev_signer e; ev_signature e];
  lw_start : plain_end (head (to_bytes (ev_event_id e)));
  lw_end : plain_end (last (to_bytes (ev_signature e)));
  lw_refs : Forall ref_text_wf (ev_refs e);
  lw_payload : ev_payload e = EventBody_canonical_encode (ev_body e);
  lw_typed : body_typed (ev_body e);
  lw_values : Forall (λ f, value_ok f.2) (EventBody_record (ev_body e)).2;
  lw_utf8 : utf8_error 0 (ev_payload e) = None
}.

#[local] Instance is_digit_dec a : Decision (is_digit a).
Proof. unfold is_digit. apply _. Defined.

Lemma digits_not_elem l c : Forall is_digit l → ¬ is_digit c → c ∉ l.
Proof. intros Hl Hc Hin. rewrite Forall_forall in Hl. by apply Hc, Hl. Qed.

Lemma join_on_snoc sep ls x : ls ≠ [] → join_on sep (ls ++ [x]) = join_on sep ls ++ sep ++ x.
Proof.
  induction ls as [|l ls IH]; intros Hne; [done|]. destruct ls as [|l' ls]; [done|].
  change (l ++ sep ++ join_on sep ((l' :: ls) ++ [x]) =
          (l ++ sep ++ join_on sep (l' :: ls)) ++ sep ++ x).
  rewrite IH by done. by rewrite <-!(assoc_L (++)).
Qed.

Lemma elem_of_join_on sep ls a : a ∈ join_on sep ls → a ∈ sep ∨ ∃ l, l ∈ ls ∧ a ∈ l.
Proof.
  induction ls as [|l ls IH]; [by intros ?%elem_of_nil|]. destruct ls as [|l' ls].
  - intros Ha. right. exists l. split; [apply list_elem_of_here|done].
  - change (join_on sep (l :: l' :: ls)) with (l ++ sep ++ join_on sep (l' :: ls)).
    rewrite !elem_of_app. intros [Ha|[Ha|Ha]].
    + right. exists l. split; [apply list_elem_of_here|done].
    + by left.
    + destruct (IH Ha) as [?|(l0 & Hl & Hin)]; [by left|]. right. exists l0.
      split; [by apply elem_of_cons; right|done].
Qed.

(** A joined line starts with the first byte of its first field, ends with the last of its last. *)
Lemma join_on_ends sep x mid y :
  plain_end (head x) → plain_end (last y) →
  ∃ a l z, join_on sep (x :: mid ++ [y]) = a :: l ++ [z] ∧ plain_byte a = true ∧ plain_byte z = true.
Proof.
  intros Hx Hy. destruct x as [|a x]; [done|]. destruct y as [|z y _] using rev_ind; [done|].
  unfold plain_end in *. rewrite last_snoc in Hy. injection Hx as Hx. injection Hy as Hy.
  exists a, (tail (join_on sep ((a :: x) :: mid)) ++ sep ++ y), z. split; [|done].
  rewrite app_comm_cons, join_on_snoc by done.
  destruct mid as [|m mid]; simpl; by rewrite <-?(assoc_L (++)).
Qed.

Lemma lines_on_join ls :
  Forall (λ l, newline ∉ l ∧ last l ≠ Some cr ∧ l ≠ []) ls →
  lines_on (join_on [newline] ls) = ls.
Proof.
  intros Hf. destruct (decide (ls = [])) as [->|Hne]; [done|]. unfold lines_on.
  rewrite split_join_on; [|done|by eapply Forall_impl; [exact Hf|]; intros ? (? & _)].
  clear Hne. induction ls as [|l ls IH]; [done|].
  apply Forall_cons in Hf as [(Hn & Hc & Hl) Hf]. destruct ls as [|l' ls].
  - simpl. by rewrite bool_decide_eq_false_2.
  - change (lines_of (l :: l' :: ls)) with (strip_cr l :: lines_of (l' :: ls)).
    rewrite strip_cr_id by done. f_equal. by apply IH.
Qed.

Lemma to_bytes_join sep (ls : list string) : to_bytes (str_join sep ls) = join_on (to_bytes sep) (to_bytes <$> ls).
Proof. unfold str_join. apply to_of_bytes. Qed.

Lemma of_to_bytes_map (ls : list string) : of_bytes <$> (to_bytes <$> ls) = ls.
Proof. rewrite <-list_fmap_compose. induction ls as [|s ls IH]; [done|]. csimpl. by rewrite of_to_bytes, IH. Qed.

Lemma str_split_join (c : ascii) (ls : list string) :
  ls ≠ [] → Forall (λ s, c ∉ to_bytes s) ls → str_split c (str_join (String.String c "") ls) = ls.
Proof.
  intros Hne Hf. unfold str_split. rewrite to_bytes_join. change (to_bytes (String.String c "")) with [c].
  rewrite split_join_on; [apply of_to_bytes_map|by destruct ls|by apply Forall_fmap].
Qed.

(** ** References *)

Lemma u64_digits z : Forall is_digit (to_bytes (u64_to_string z)).
Proof. apply pretty_N_digits. Qed.

Lemma str_split_once_app c x y :
  c ∉ to_bytes x → str_split_once c (x +:+ String.String c y) = Some (x, y).
Proof.
  intros Hc. unfold str_split_once. rewrite to_bytes_app.
  change (to_bytes (String.String c y)) with (c :: to_bytes y).
  rewrite (proj2 (split_once_on_Some c _ (to_bytes x) (to_bytes y))) by done.
  by rewrite !of_to_bytes.
Qed.

Lemma import_export_ref r : ref_text_wf r → import_ref (export_ref r) = Ok r.
Proof.
  intros (_ & Hc & _ & Hs). unfold import_ref, splitn3, export_ref.
  change (":" +:+ ref_target_event_id r +:+ ":" +:+ u64_to_string (ref_seq r)) with
    (String.String colon (ref_target_event_id r +:+ String.String colon (u64_to_string (ref_seq r)))).
  rewrite str_split_once_app by (apply (bool_decide_eq_true_1 _); by destruct (ref_relation r)).
  rewrite str_split_once_app by done. cbn [lookup_total list_lookup_total length].
  rewrite bool_decide_eq_false_2 by lia. cbn [result_bind].
  assert (EventRefRelation_parse (EventRefRelation_as_str (ref_relation r)) = Some (ref_relation r))
    as -> by (by destruct (ref_relation r)).
  cbn [ok_or result_bind]. rewrite bool_decide_eq_true_2 by done.
  unfold parse_u64. rewrite parse_integer_to_string by (unfold in_u64 in Hs; lia). cbn. by destruct r.
Qed.

Lemma export_ref_free c r :
  ref_text_wf r → ¬ is_digit c → c ≠ colon → c ∉ to_bytes (ref_target_event_id r) →
  c ∉ to_bytes (EventRefRelation_as_str (ref_relation r)) → c ∉ to_bytes (export_ref r).
Proof.
  intros Hr Hd Hc Ht Hrel. unfold export_ref. rewrite !to_bytes_app, !elem_of_app.
  change (to_bytes ":") with [colon]. rewrite !list_elem_of_singleton.
  pose proof (digits_not_elem _ _ (u64_digits (ref_seq r)) Hd). tauto.
Qed.

Lemma export_ref_comma r : ref_text_wf r → comma ∉ to_bytes (export_ref r).
Proof.
  intros Hr. pose proof Hr as (_ & _ & Hc & _). apply export_ref_free; try done.
  - by apply (bool_decide_eq_true_1 _).
  - apply (bool_decide_eq_true_1 _). by destruct (ref_relation r).
Qed.

Lemma export_ref_field r : ref_text_wf r → field_wf (export_ref r).
Proof.
  intros Hr. pose proof Hr as ([Ht Hn] & _ & _ & _).
  split; apply export_ref_free; try done; try (by apply (bool_decide_eq_true_1 _));
    apply (bool_decide_eq_true_1 _); by destruct (ref_relation r).
Qed.

Lemma collect_results_map {A B E} (f : A → result B E) g (l : list B) :
  Forall (λ x, f (g x) = Ok x) l → collect_results f (g <$> l) = Ok l.
Proof. induction 1 as [|x l Hx _ IH]; [done|]. csimpl. by rewrite Hx; simpl; rewrite IH. Qed.

Lemma export_ref_nonempty r : export_ref r ≠ "".
Proof. unfold export_ref. by destruct (ref_relation r). Qed.

Lemma import_export_refs refs :
  Forall ref_text_wf refs → import_refs (str_join "," (export_ref <$> refs)) = Ok refs.
Proof.
  intros Hr. unfold import_refs. destruct refs as [|r refs]; [done|].
  assert (str_is_empty (str_join "," (export_ref <$> r :: refs)) = false) as ->.
  { apply bool_decide_eq_false_2. intros Hj%(f_equal to_bytes). rewrite to_bytes_join in Hj.
    csimpl in Hj. pose proof (export_ref_nonempty r) as Hne.
    destruct (export_ref r); [done|]. by destruct (to_bytes <$> (export_ref <$> refs)). }
  change "," with (String.String comma "").
  rewrite str_split_join; [|done|by apply Forall_fmap; eapply Forall_impl; [exact Hr|apply export_ref_comma]].
  apply collect_results_map. eapply Forall_impl; [exact Hr|apply import_export_ref].
Qed.

(** ** Lines *)

Section Lines.
Context {H : HexOps} {HL : HexLaws H} {J : JsonOps}.

Lemma hex_field_wf b : field_wf (bytes_to_hex b).
Proof.
  pose proof (hex_encode_digits b) as Hd. rewrite Forall_forall in Hd.
  split; intros Hin%Hd; revert Hin; apply (bool_decide_eq_false_1 (hex_char _)); reflexivity.
Qed.

Lemma refs_field_wf refs : Forall ref_text_wf refs → field_wf (str_join "," (export_ref <$> refs)).
Proof.
  intros Hr. assert (∀ c, c ∈ to_bytes (str_join "," (export_ref <$> refs)) →
    c = comma ∨ ∃ r, r ∈ refs ∧ c ∈ to_bytes (export_ref r)) as Hc.
  { intros c. rewrite to_bytes_join. intros [Hc|(l & Hl & Hc)]%elem_of_join_on.
    - left. by apply list_elem_of_singleton in Hc.
    - apply list_elem_of_fmap in Hl as (s & -> & (r & -> & ?)%list_elem_of_fmap). eauto. }
  rewrite Forall_forall in Hr.
  split; intros [|(r & Hin & Hr')]%Hc; try done; by apply (export_ref_field _ (Hr _ Hin)) in Hr'.
Qed.

Lemma export_fields_wf e : line_wf e → Forall field_wf (export_fields e).
Proof.
  intros W. pose proof (lw_fields e W) as Hf. rewrite !Forall_cons in Hf.
  destruct Hf as (? & ? & ? & ? & ? & ? & _). unfold export_fields.
  repeat (apply Forall_cons; split); try done;
    try (apply hex_field_wf); try (apply refs_field_wf, (lw_refs e W));
    try (apply (bool_decide_eq_true_1 (field_wf _))).
  - by rewrite (lw_version e W).
  - by destruct (ev_event_type e).
  - by destruct (es_kind (ev_subject e)).
  - by destruct (es_kind (sb_signer (ev_signer_binding e))).
  - by destruct (sb_role (ev_signer_binding e)).
Qed.

(** What is left of the fields once the line is trimmed: the empty last one goes. *)
Definition line_fields (e : EventEnvelope) : list string :=
  match ev_refs e with [] => take 12 (export_fields e) | _ => export_fields e end.

Lemma refs_text_end refs :
  refs ≠ [] → plain_end (last (to_bytes (str_join "," (export_ref <$> refs)))).
Proof.
  intros Hne. destruct (exists_last Hne) as (refs' & r & ->).
  assert (plain_end (last (to_bytes (export_ref r))) ∧ to_bytes (export_ref r) ≠ []) as [Hr Hr0].
  { pose proof (u64_digits (ref_seq r)) as Hd. unfold export_ref. rewrite !to_bytes_app.
    destruct (exists_last (pretty_nonempty (Z.to_N (ref_seq r)))) as (d & z & Hz).
    unfold u64_to_string in *. rewrite Hz in *. rewrite !(assoc_L (++)). split; [|by intros [_ ?]%app_nil].
    unfold plain_end. rewrite last_snoc. cbn. f_equal.
    apply Forall_app in Hd as [_ [Hd _]%Forall_cons]. unfold is_digit, plain_byte in *.
    rewrite andb_true_iff, !N.leb_le. lia. }
  rewrite to_bytes_join, fmap_app, fmap_app. csimpl. destruct refs' as [|r' refs']; [done|].
  rewrite join_on_snoc by done. rewrite (assoc_L (++)). by rewrite last_app_nonempty.
Qed.

Lemma line_shape e :
  line_wf e → ∃ a l z w, to_bytes (export_line e) = a :: l ++ z :: w ∧
    to_bytes (str_join tab_string (line_fields e)) = a :: l ++ [z] ∧
    plain_byte a = true ∧ plain_byte z = true ∧ (w = [] ∨ w = [tab]).
Proof.
  intros W. unfold export_line, line_fields. rewrite !to_bytes_join. change (to_bytes tab_string) with [tab].
  destruct (ev_refs e) as [|r refs] eqn:Er.
  - destruct (join_on_ends [tab] _ (to_bytes <$> drop 1 (take 11 (export_fields e))) _
                (lw_start e W) (lw_end e W)) as (a & l & z & Hl & Ha & Hz).
    exists a, l, z, [tab]. split_and!; try done; [|by auto].
    change (a :: l ++ z :: [tab]) with (a :: l ++ [z] ++ [tab] ++ []).
    rewrite (assoc_L (++) l), app_comm_cons, <-Hl, <-join_on_snoc by done.
    unfold export_fields. by rewrite Er.
  - assert (ev_refs e ≠ []) as Hne by (by rewrite Er).
    destruct (join_on_ends [tab] _ (to_bytes <$> drop 1 (take 12 (export_fields e))) _
                (lw_start e W) (refs_text_end _ Hne)) as (a & l & z & Hl & Ha & Hz).
    exists a, l, z, []. split_and!; try done. by left.
Qed.

Lemma trim_export_line e :
  line_wf e → str_trim (export_line e) = str_join tab_string (line_fields e).
Proof.
  intros W. destruct (line_shape e W) as (a & l & z & w & Hl & Hj & Ha & Hz & Hw).
  unfold str_trim. rewrite Hl, trim_plain_ends, <-Hj, of_to_bytes; try done.
  destruct Hw as [->| ->]; by repeat constructor.
Qed.

Lemma export_line_wf e :
  line_wf e → newline ∉ to_bytes (export_line e) ∧ last (to_bytes (export_line e)) ≠ Some cr ∧
    to_bytes (export_line e) ≠ [].
Proof.
  intros W. destruct (line_shape e W) as (a & l & z & w & Hl & _ & _ & Hz & Hw).
  split_and!.
  - unfold export_line. rewrite to_bytes_join. intros [Hn|(f & Hf & Hn)]%elem_of_join_on.
    + by apply list_elem_of_singleton in Hn.
    + apply list_elem_of_fmap in Hf as (s & -> & Hs). pose proof (export_fields_wf e W) as Hw'.
      rewrite Forall_forall in Hw'. by apply (Hw' s Hs) in Hn.
  - rewrite Hl. destruct Hw as [->| ->].
    + rewrite app_comm_cons, last_snoc. intros [= ->]. done.
    + change (a :: l ++ [z; tab]) with (a :: l ++ [z] ++ [tab]).
      by rewrite (assoc_L (++)), app_comm_cons, last_snoc.
  - by rewrite Hl.
Qed.

Lemma split_line_fields e :
  line_wf e → str_split tab (str_join tab_string (line_fields e)) = line_fields e.
Proof.
  intros W. apply str_split_join; [unfold line_fields; by destruct (ev_refs e)|].
  apply (Forall_impl field_wf); [|by intros s []].
  unfold line_fields. destruct (ev_refs e); [apply Forall_take|]; by apply export_fields_wf.
Qed.

Lemma import_line_fields e : line_wf e → import_envelope (line_fields e) = Ok (stored e).
Proof.
  intros W. pose proof (import_export_refs _ (lw_refs e W)) as Hrefs.
  assert (∀ i, i < 12 → line_fields e !!! i = export_fields e !!! i) as Hi.
  { intros i ?. unfold line_fields. destruct (ev_refs e); [|done].
    rewrite !list_lookup_total_alt. by rewrite lookup_take_lt by done. }
  assert ((if bool_decide (12 < length (line_fields e)) then line_fields e !!! 12 else "")
          = str_join "," (export_ref <$> ev_refs e)) as Hr.
  { unfold line_fields, export_fields. by destruct (ev_refs e). }
  unfold import_envelope. rewrite Hr, Hrefs, !Hi by lia. clear Hr Hi.
  cbn [export_fields lookup_total list_lookup_total]. rewrite (lw_version e W).
  change (SchemaVersion_parse (SchemaVersion_display SCHEMA_V0_1_0)) with (Some SCHEMA_V0_1_0).
  assert (EventType_parse (EventType_as_str (ev_event_type e)) = Some (ev_event_type e)) as ->
    by (by destruct (ev_event_type e)).
  assert (∀ k, SubjectKind_parse (SubjectKind_as_str k) = Some k) as Hk by (by intros []).
  assert (∀ k, KeyRole_parse (KeyRole_as_str k) = Some k) as Hro by (by intros []).
  cbn [ok_or result_bind]. rewrite !Hk, Hro. cbn [ok_or result_bind].
  unfold hex_to_bytes, bytes_to_hex. rewrite hex_decode_encode. cbn [map_err result_bind].
  pose proof (lw_utf8 e W) as Hu. rewrite (lw_payload e W) in *.
  rewrite (decode_encode (ev_body e) HL (lw_typed e W) (lw_values e W) Hu).
  cbn [result_bind]. unfold stored. rewrite (lw_version e W), (lw_payload e W).
  by destruct (ev_subject e), (ev_signer_binding e) as [[] ? ?].
Qed.

(** A line that an event was written to is one step of the reference. *)
Lemma import_lines_step v a now e rest n l :
  line_wf e →
  import_lines v a now (export_line e :: rest) n l =
  if known l (ev_event_id e) then import_lines v a now rest n l
  else match memory_append_with_authorizer l (stored e) v a now with
       | (Err x, l') => (Err x, l')
       | (Ok _, l') => import_lines v a now rest (S n) l'
       end.
Proof.
  intros W. cbn [import_lines]. rewrite trim_export_line, split_line_fields by done.
  assert (str_is_empty (str_join tab_string (line_fields e)) = false) as ->.
  { destruct (line_shape e W) as (a' & l' & z & w & _ & Hj & _).
    apply bool_decide_eq_false_2. intros He. by rewrite He in Hj. }
  rewrite bool_decide_eq_false_2 by (unfold line_fields, export_fields; destruct (ev_refs e); simpl; lia).
  assert (line_fields e !!! 0 = ev_event_id e) as -> by (unfold line_fields; by destruct (ev_refs e)).
  by rewrite import_line_fields.
Qed.

Lemma append_missing_known v a now es n l :
  Forall (λ e, known l (ev_event_id e) = true) es → append_missing v a now es n l = (Ok n, l).
Proof. induction 1 as [|e es He _ IH]; [done|]. simpl. by rewrite He. Qed.

Lemma known_own l : Forall (λ e, known l (ev_event_id e) = true) (ml_events l).
Proof.
  apply Forall_forall. intros e He. unfold known. rewrite existsb_exists. exists e.
  split; [by apply list_elem_of_In|by apply bool_decide_eq_true_2].
Qed.

Lemma import_exported (src l : MemoryEventLog) v a now :
  Forall line_wf (ml_events src) →
  import_events l (export_events src) v a now = append_missing v a now (ml_events src) 0 l.
Proof.
  intros Hf. unfold import_events, export_events. rewrite to_bytes_join.
  change (to_bytes nl) with [newline].
  rewrite lines_on_join by (rewrite !Forall_fmap; eapply Forall_impl; [exact Hf|apply export_line_wf]).
  rewrite of_to_bytes_map. generalize 0. revert l.
  induction Hf as [|e es W _ IH]; intros l n; [done|].
  rewrite fmap_cons, import_lines_step by done. cbn [append_missing].
  destruct (known l (ev_event_id e)); [apply IH|].
  destruct (memory_append_with_authorizer l (stored e) v a now) as [[?|?] l']; [apply IH|done].
Qed.

(** Writing a log out and reading the text into any log is appending the written events the
    reader does not have, in order and up to the first one it refuses, each with the body its
    payload encodes; nothing else of the text has an effect. Read back into the log itself the
    text imports nothing and changes nothing. *)
Theorem import_export_appends (src l : MemoryEventLog) v a now :
  Forall line_wf (ml_events src) →
  import_events l (export_events src) v a now = append_missing v a now (ml_events src) 0 l
  ∧ import_events src (export_events src) v a now = (Ok 0, src).
Proof.
  intros Hf. rewrite !import_exported by done. split; [done|]. apply append_missing_known, known_own.
Qed.

End Lines.

#[local] Existing Instance no_json.

Definition text_event (event_id : string) (body : EventBody) (refs : list EventRef) : EventEnvelope :=
  mkEventEnvelope SCHEMA_V0_1_0 event_id (EventBody_event_type body) (EventBody_subject body)
    by_root "pub-a" (@EventBody_canonical_encode toy_hex_ops body) refs "sig" body.

Definition text_events : list EventEnvelope :=
  [ text_event "e0" (RootCreated (mkRootCreated "a" "Primary" (sample_key "a"))) [];
    text_event "e1" (PersonaCreated (mkPersonaCreated "a" "p" "Work" (Some "") SM_Strict (sample_key "p")))
      [EventRef_previous "e0" 1] ].

Definition text_log : MemoryEventLog :=
  (@append_all toy_hex_ops no_json memory_new text_events sample_verifier IdentityAuthorizer 100).2.

Lemma text_log_events : ml_events text_log = text_events.
Proof. vm_compute. reflexivity. Qed.

Lemma text_event_wf event_id body refs :
  field_wf event_id → plain_end (head (to_bytes event_id)) → Forall ref_text_wf refs →
  body_typed body →
  field_wf (es_subject_id (EventBody_subject body)) →
  Forall (λ f, value_ok f.2) (@EventBody_record toy_hex_ops body).2 →
  utf8_error 0 (@EventBody_canonical_encode toy_hex_ops body) = None →
  @line_wf toy_hex_ops (text_event event_id body refs).
Proof.
  intros. constructor; try done. cbn.
  repeat (apply Forall_cons; split); try done; by apply (bool_decide_eq_true_1 (field_wf _)).
Qed.

Lemma import_export_appends_witness :
  @import_events toy_hex_ops no_json memory_new (@export_events toy_hex_ops text_log)
    sample_verifier IdentityAuthorizer 100
  = @append_missing toy_hex_ops no_json sample_verifier IdentityAuthorizer 100 (ml_events text_log) 0
      memory_new
  ∧ (@append_missing toy_hex_ops no_json sample_verifier IdentityAuthorizer 100 (ml_events text_log) 0
       memory_new).1 = Ok 2.
Proof.
  split; [|vm_compute; reflexivity].
  refine (proj1 (@import_export_appends toy_hex_ops toy_hex_laws no_json text_log memory_new
                   sample_verifier IdentityAuthorizer 100 _)).
  rewrite text_log_events.
  repeat (apply Forall_cons; split); [apply text_event_wf..|apply Forall_nil; exact I];
    try (apply (bool_decide_eq_true_1 (field_wf _)); reflexivity); try reflexivity;
    try (repeat constructor; cbn [snd]; apply (bool_decide_eq_true_1 (value_ok _)); vm_compute; reflexivity);
    try apply Forall_nil; try exact I.
  apply Forall_cons; split; [|apply Forall_nil; exact I].
  split_and!; try (apply (bool_decide_eq_true_1 _); reflexivity).
Defined.
