(* ===== verification/StoredLog.v ===== *)
(** * The stored event log

    crates/core-state/src/lib.rs and persist.rs: [EventStore], the backend of the event log on SQLite. The tables are what survives a
    restart; the events, indices and the derived state are kept in memory and rebuilt from the tables. The tables of the derived state are
    written and never read back here, so of them only the failing of a write is kept. A transaction that is dropped changes
    nothing. *)

From stdpp Require Import base gmap sets list strings relations pretty.
From Stdlib Require Import Ascii Lia ZArith.
From S2P Require Import Prelude CoreTypes Numbers EventTypes EventCodec EventDecode Envelope LogTypes Materialize Authorize EventLog MemoryLog LogText.

Local Infix "+:+" := String.append (at level 60, right associativity).
Local Open Scope Z_scope.

(** ** Tables *)

(** A row of the table events, in the order of its sequence column; the retention class, written from the type and never read, is
    left out. *)
Record EventRow := mkEventRow {
  er_event_id : string; er_schema_version : string; er_event_type : string; er_subject_kind : string; er_subject_id : string;
  er_signer_kind : string; er_signer_id : string; er_signer_role : string; er_signer_key_id : string;
  er_signer_public_key : string; er_payload : bytes }.

(** A row of event_refs; the sequence number is an [i64]. *)
Record RefRow := mkRefRow { rr_event_id : string; rr_relation : string; rr_target_event_id : string; rr_seq : Z }.

(** With event_signatures (the signer and the signature by event), sync_batches and watch_state. *)
Record Tables := mkTables {
  tb_events : list EventRow; tb_refs : list RefRow; tb_signatures : gmap string (string * string);
  tb_batches : list SyncBatchRecord; tb_watch : gmap string string }.

Definition no_tables : Tables := mkTables [] [] ∅ [] ∅.

(** What fails in a call, with the text of the error: opening the transaction, a statement on events, on the derived tables, on
    the manifests, on sync_batches, on watch_state, the commit; and in a rebuild the queries and its transaction. *)
Record StoreFaults := mkStoreFaults {
  sf_begin : option string; sf_insert : option string; sf_tables : option string; sf_manifests : option string;
  sf_batch : option string; sf_cursor : option string; sf_commit : option string; sf_load : option string;
  sf_rebuild : option string }.

Definition no_faults : StoreFaults := mkStoreFaults None None None None None None None None None.

(** [fault what m] is the error of a failing statement. *)
Definition failing (fault : option string) (what : string) : verdict :=
  match fault with Some m => Err (VE.new (what +:+ ": " +:+ m)) | None => Ok tt end.

(** [as i64] and [as u64] *)
Definition seq_as_i64 (z : Z) : Z := if z <? 2 ^ 63 then z else z - 2 ^ 64.
Definition seq_as_u64 (z : Z) : Z := z mod 2 ^ 64.

(** ** Writing *)

Definition event_row (e : EventEnvelope) : EventRow :=
  mkEventRow (ev_event_id e) (SchemaVersion_display (ev_schema_version e)) (EventType_as_str (ev_event_type e))
    (SubjectKind_as_str (es_kind (ev_subject e))) (es_subject_id (ev_subject e))
    (SubjectKind_as_str (es_kind (sb_signer (ev_signer_binding e)))) (es_subject_id (sb_signer (ev_signer_binding e)))
    (KeyRole_as_str (sb_role (ev_signer_binding e))) (sb_key_id (ev_signer_binding e)) (ev_signer e) (ev_payload e).

Definition ref_row (event_id : string) (r : EventRef) : RefRow :=
  mkRefRow event_id (EventRefRelation_as_str (ref_relation r)) (ref_target_event_id r) (seq_as_i64 (ref_seq r)).

(** The primary key of event_refs. *)
Definition same_ref (a b : RefRow) : bool :=
  bool_decide (rr_event_id a = rr_event_id b) && bool_decide (rr_relation a = rr_relation b)
  && bool_decide (rr_target_event_id a = rr_target_event_id b).

Fixpoint insert_refs (rows : list RefRow) (tb : list RefRow) : result (list RefRow) ValidationError :=
  match rows with
  | [] => Ok tb
  | r :: rows =>
      if existsb (same_ref r) tb
      then Err (VE.new "insert event ref row: UNIQUE constraint failed: event_refs.event_id, event_refs.relation, event_refs.target_event_id")
      else insert_refs rows (tb ++ [r])
  end.

Definition persist_event (f : StoreFaults) (e : EventEnvelope) (t : Tables) : result Tables ValidationError :=
  failing (sf_insert f) "insert event row" ;?
  if existsb (λ r, bool_decide (er_event_id r = ev_event_id e)) (tb_events t)
  then Err (VE.new "insert event row: UNIQUE constraint failed: events.event_id")
  else
    let? refs := insert_refs (ref_row (ev_event_id e) <$> ev_refs e) (tb_refs t) in
    match tb_signatures t !! ev_event_id e with
    | Some _ => Err (VE.new "insert event signature row: UNIQUE constraint failed: event_signatures.event_id")
    | None => Ok (mkTables (tb_events t ++ [event_row e]) refs
                    (<[ev_event_id e := (ev_signer e, ev_signature e)]> (tb_signatures t)) (tb_batches t) (tb_watch t))
    end.

Fixpoint persist_events (f : StoreFaults) (es : list EventEnvelope) (t : Tables) : result Tables ValidationError :=
  match es with [] => Ok t | e :: es => let? t := persist_event f e t in persist_events f es t end.

Definition record_sync_batch (f : StoreFaults) (batch_id peer_id : string) (last_event_id : option string) (t : Tables)
  : result Tables ValidationError :=
  failing (sf_batch f) "insert sync batch row" ;?
  if existsb (λ b, bool_decide (syn_batch_id b = batch_id)) (tb_batches t)
  then Err (VE.new "insert sync batch row: UNIQUE constraint failed: sync_batches.batch_id")
  else Ok (mkTables (tb_events t) (tb_refs t) (tb_signatures t)
             (tb_batches t ++ [mkSyncBatchRecord batch_id peer_id last_event_id]) (tb_watch t)).

Definition peer_cursor_watcher_id (peer_id : string) : string := "peer-cursor:" +:+ peer_id.

Definition write_peer_cursor (f : StoreFaults) (peer_id : string) (last_event_id : option string) (t : Tables)
  : result Tables ValidationError :=
  failing (sf_cursor f) "upsert peer cursor row" ;?
  Ok (mkTables (tb_events t) (tb_refs t) (tb_signatures t) (tb_batches t)
        (<[peer_cursor_watcher_id peer_id := default "" last_event_id]> (tb_watch t))).

(** ** Reading *)

(** ORDER BY event_id, seq, relation, target_event_id *)
Definition ref_row_le (a b : RefRow) : bool :=
  if negb (bool_decide (rr_event_id a = rr_event_id b)) then String.leb (rr_event_id a) (rr_event_id b)
  else if negb (rr_seq a =? rr_seq b) then rr_seq a <? rr_seq b
  else if negb (bool_decide (rr_relation a = rr_relation b)) then String.leb (rr_relation a) (rr_relation b)
  else String.leb (rr_target_event_id a) (rr_target_event_id b).

Definition load_ref (r : RefRow) : result (string * EventRef) ValidationError :=
  let? relation := ok_or (EventRefRelation_parse (rr_relation r)) (VE.new "unsupported event ref relation in sqlite") in
  Ok (rr_event_id r, mkEventRef relation (rr_target_event_id r) (seq_as_u64 (rr_seq r))).

Definition load_all_event_refs (t : Tables) : result (list (string * EventRef)) ValidationError :=
  collect_results load_ref (sort_by ref_row_le (tb_refs t)).

Section Store.
Context {H : HexOps} {J : JsonOps}.

Definition load_row (refs : list (string * EventRef)) (x : EventRow * string) : result EventEnvelope ValidationError :=
  let (r, signature) := x in
  let? schema_version := ok_or (SchemaVersion_parse (er_schema_version r)) (VE.new "unsupported schema version in sqlite") in
  let? event_type := ok_or (EventType_parse (er_event_type r)) (VE.new "unsupported event type in sqlite") in
  let? subject_kind := ok_or (SubjectKind_parse (er_subject_kind r)) (VE.new "unsupported subject kind in sqlite") in
  let? signer_kind := ok_or (SubjectKind_parse (er_signer_kind r)) (VE.new "unsupported signer kind in sqlite") in
  let? role := ok_or (KeyRole_parse (er_signer_role r)) (VE.new "unsupported signer role in sqlite") in
  from_stored_parts schema_version (er_event_id r) event_type (mkEventSubject subject_kind (er_subject_id r))
    (mkSignerBinding (mkEventSubject signer_kind (er_signer_id r)) (er_signer_key_id r) role) (er_signer_public_key r) (er_payload r)
    (snd <$> List.filter (λ x, bool_decide (x.1 = er_event_id r)) refs) signature.

(** JOIN event_signatures *)
Definition joined_rows (t : Tables) : list (EventRow * string) :=
  omap (λ r, (λ s, (r, s.2)) <$> tb_signatures t !! er_event_id r) (tb_events t).

Definition load_events (f : StoreFaults) (t : Tables) : result (list EventEnvelope) ValidationError :=
  failing (sf_load f) "run event load query" ;?
  let? refs := load_all_event_refs t in
  collect_results (load_row refs) (joined_rows t).

(** ** The store *)

Record EventStore := mkEventStore {
  st_tables : Tables; st_events : list EventEnvelope; st_event_index : gmap string nat; st_type_index : gmap EventType (list nat);
  st_materialized : MaterializedState; st_storage_manifests : gmap string FileManifest }.

Definition with_derived (m : MaterializedState) (fm : gmap string FileManifest) (st : EventStore) : EventStore :=
  mkEventStore (st_tables st) (st_events st) (st_event_index st) (st_type_index st) m fm.

(** The loop of a rebuild. *)
Fixpoint replay_stored (m : MaterializedState) (fm : gmap string FileManifest) (es : list EventEnvelope)
  : result (MaterializedState * gmap string FileManifest) ValidationError :=
  match es with
  | [] => Ok (m, fm)
  | e :: es => let? m := apply_event m e in let? fm := apply_storage_event fm e m in replay_stored m fm es
  end.

Definition store_rebuild (f : StoreFaults) (st : EventStore) : verdict * EventStore :=
  match (let? es := load_events f (st_tables st) in
         let? d := replay_stored empty_state ∅ es in
         failing (sf_rebuild f) "commit sqlite rebuild transaction" ;? Ok (es, d)) with
  | Err x => (Err x, st)
  | Ok (es, (m, fm)) => (Ok tt, mkEventStore (st_tables st) es (collect_event_index es) (collect_type_index es) m fm)
  end.

Definition from_connection (f : StoreFaults) (t : Tables) : result EventStore ValidationError :=
  match store_rebuild f (mkEventStore t [] ∅ ∅ empty_state ∅) with (Ok _, st) => Ok st | (Err x, _) => Err x end.

Definition MAX_CLOCK_SKEW_SECS : Z := 300.
Definition effective_now (system_now now_epoch_secs : Z) : Z := Z.min now_epoch_secs (system_now + MAX_CLOCK_SKEW_SECS).

Definition is_manifest_event (e : EventEnvelope) : bool :=
  match ev_body e with StorageManifestPublished _ => true | _ => false end.

(** The statements of the transaction of an append. *)
Definition append_tx (f : StoreFaults) (e : EventEnvelope) (t : Tables) : result Tables ValidationError :=
  failing (sf_begin f) "begin sqlite transaction" ;?
  let? t := persist_event f e t in
  (if event_affects_materialized_state e then failing (sf_tables f) "write materialized tables" else Ok tt) ;?
  (if is_manifest_event e then failing (sf_manifests f) "write file manifests" else Ok tt) ;?
  Ok t.

Definition store_append_with_authorizer (f : StoreFaults) (system_now : Z) (st : EventStore) (e : EventEnvelope) (verifier : Verifier)
  (authorizer : Authorizer) (now_epoch_secs : Z) : verdict * EventStore :=
  match (EventEnvelope_validate e ;?
         (if negb (verify_with_context DOMAIN_EVENT verifier (ev_signer e) (signed_bytes e) (ev_signature e))
          then Err (VE.new "signature verification failed") else Ok tt) ;?
         authorize_raw authorizer e (st_materialized st) (effective_now system_now now_epoch_secs) ;?
         apply_event (st_materialized st) e) with
  | Err x => (Err x, st)
  | Ok m =>
      match apply_storage_event (st_storage_manifests st) e m with
      | Err x => (Err x, with_derived m (st_storage_manifests st) st)
      | Ok fm =>
          let st1 := with_derived m fm st in
          match append_tx f e (st_tables st) with
          | Err x => (Err x, st1)
          | Ok t =>
              match sf_commit f with
              | Some msg =>
                  match store_rebuild f st1 with
                  | (Err x, st) => (Err x, st)
                  | (Ok _, st) => (Err (VE.new ("commit sqlite transaction: " +:+ msg)), st)
                  end
              | None =>
                  let idx := length (st_events st) in
                  (Ok tt, mkEventStore t (st_events st ++ [e]) (index_event_id idx e (st_event_index st))
                            (index_event_type idx e (st_type_index st)) m fm)
              end
          end
      end
  end.

Definition store_append (f : StoreFaults) (system_now : Z) (st : EventStore) (e : EventEnvelope) (verifier : Verifier)
  : verdict * EventStore := store_append_with_authorizer f system_now st e verifier AllowAllAuthorizer 0.

(** ** Batches *)

(** [self.rebuild()?; return Err(x)] *)
Definition rebuild_then {A} (f : StoreFaults) (x : ValidationError) (st : EventStore) : result A ValidationError * EventStore :=
  match store_rebuild f st with (Err y, st) => (Err y, st) | (Ok _, st) => (Err x, st) end.

Fixpoint store_import_loop (f : StoreFaults) (verifier : Verifier) (authorizer : Authorizer) (now_epoch_secs : Z) (st : EventStore)
  (imported es : list EventEnvelope) : result (list EventEnvelope) ValidationError * EventStore :=
  match es with
  | [] => (Ok imported, st)
  | e :: es =>
      match EventEnvelope_validate e with
      | Err x => (Err x, st)
      | Ok _ =>
          if negb (verify_with_context DOMAIN_EVENT verifier (ev_signer e) (signed_bytes e) (ev_signature e))
          then rebuild_then f (VE.new "signature verification failed") st
          else if bool_decide (is_Some (st_event_index st !! ev_event_id e))
                  || existsb (λ x, bool_decide (ev_event_id x = ev_event_id e)) imported
          then store_import_loop f verifier authorizer now_epoch_secs st imported es
          else match authorize authorizer e (st_materialized st) now_epoch_secs with
               | Err x => rebuild_then f x st
               | Ok _ =>
                   match apply_event (st_materialized st) e with
                   | Err x => rebuild_then f x st
                   | Ok m =>
                       match apply_storage_event (st_storage_manifests st) e m with
                       | Err x => rebuild_then f x (with_derived m (st_storage_manifests st) st)
                       | Ok fm => store_import_loop f verifier authorizer now_epoch_secs (with_derived m fm st) (imported ++ [e]) es
                       end
                   end
               end
      end
  end.

Definition import_tx (f : StoreFaults) (peer_id batch_id : string) (imported : list EventEnvelope) (last_remote_event_id : option string)
  (t : Tables) : result Tables ValidationError :=
  failing (sf_begin f) "begin sqlite sync transaction" ;?
  let? t := persist_events f imported t in
  (if bool_decide (imported = []) then Ok tt
   else failing (sf_tables f) "write materialized tables" ;? failing (sf_manifests f) "write file manifests") ;?
  let? t := record_sync_batch f batch_id peer_id last_remote_event_id t in
  match last_remote_event_id with
  | Some last_remote_event_id => write_peer_cursor f peer_id (Some last_remote_event_id) t
  | None => Ok t
  end.

(** The indices of the events put behind the first [base] ones. *)
Definition index_imported (base : nat) (imported : list EventEnvelope) (st : EventStore) : gmap string nat * gmap EventType (list nat) :=
  foldl (λ m x, (index_event_id (base + x.1) x.2 m.1, index_event_type (base + x.1) x.2 m.2))
    (st_event_index st, st_type_index st) (imap pair imported).

Definition store_import_sync_batch (f : StoreFaults) (st : EventStore) (peer_id batch_id : string) (es : list EventEnvelope)
  (last_remote_event_id : option string) (verifier : Verifier) (authorizer : Authorizer) (now_epoch_secs : Z)
  : result nat ValidationError * EventStore :=
  match store_import_loop f verifier authorizer now_epoch_secs st [] es with
  | (Err x, st) => (Err x, st)
  | (Ok imported, st) =>
      match import_tx f peer_id batch_id imported last_remote_event_id (st_tables st) with
      | Err x => (Err x, st)
      | Ok t =>
          match sf_commit f with
          | Some msg => rebuild_then f (VE.new ("commit sqlite sync transaction: " +:+ msg)) st
          | None =>
              let ix := index_imported (length (st_events st)) imported st in
              (Ok (length imported),
               mkEventStore t (st_events st ++ imported) ix.1 ix.2 (st_materialized st) (st_storage_manifests st))
          end
      end
  end.

(** ** Queries *)

Definition store_has_event (st : EventStore) (event_id : string) : bool := bool_decide (is_Some (st_event_index st !! event_id)).
Definition store_event_count (st : EventStore) : nat := length (st_events st).
Definition store_event_ids (st : EventStore) : list string := ev_event_id <$> st_events st.

(** [self.events[idx]] panics out of range: [None]. *)
Definition store_events_by_ids (st : EventStore) (ids : list string) : option (list EventEnvelope) :=
  mapM (λ idx, st_events st !! idx) (omap (λ i, st_event_index st !! i) ids).
Definition store_events_of_type (st : EventStore) (t : EventType) : option (list EventEnvelope) :=
  mapM (λ idx, st_events st !! idx) (default [] (st_type_index st !! t)).
Definition store_events_of_type_rev (st : EventStore) (t : EventType) : option (list EventEnvelope) :=
  mapM (λ idx, st_events st !! idx) (reverse (default [] (st_type_index st !! t))).

Definition nonblank_cursor (s : string) : option string := if str_is_empty (str_trim s) then None else Some s.

Definition store_peer_cursor (st : EventStore) (peer_id : string) : PeerCursor :=
  mkPeerCursor peer_id (tb_watch (st_tables st) !! peer_cursor_watcher_id peer_id ≫= nonblank_cursor).

(** The events after a watermark, of snapshot.rs, where [start + max_events] is in the range of [usize]. *)
Definition events_since (es : list EventEnvelope) (since_watermark : Z) (max_events : nat) : list EventEnvelope :=
  if Z.of_nat (length es) <=? since_watermark then []
  else take max_events (drop (Z.to_nat since_watermark) es).

(** ** The text form *)

(** The sequence number of a reference is not written. *)
Definition store_export_ref (r : EventRef) : string := EventRefRelation_as_str (ref_relation r) +:+ ":" +:+ ref_target_event_id r.

Definition store_export_line (e : EventEnvelope) : string :=
  str_join tab_string
    [ev_event_id e; SchemaVersion_display (ev_schema_version e); EventType_as_str (ev_event_type e);
     SubjectKind_as_str (es_kind (ev_subject e)); es_subject_id (ev_subject e);
     SubjectKind_as_str (es_kind (sb_signer (ev_signer_binding e))); es_subject_id (sb_signer (ev_signer_binding e));
     KeyRole_as_str (sb_role (ev_signer_binding e)); sb_key_id (ev_signer_binding e); ev_signer e; bytes_to_hex (ev_payload e);
     ev_signature e; str_join "," (store_export_ref <$> ev_refs e)].

Definition store_export_events (st : EventStore) : string := str_join nl (store_export_line <$> st_events st).

(** [envs] is what fails in each append, and the clock. *)
Fixpoint store_import_lines (env : nat → StoreFaults * Z) (verifier : Verifier) (authorizer : Authorizer) (now_epoch_secs : Z)
  (lines : list string) (imported : nat) (st : EventStore) : result nat ValidationError * EventStore :=
  match lines with
  | [] => (Ok imported, st)
  | line0 :: rest =>
      let line := str_trim line0 in
      if str_is_empty line then store_import_lines env verifier authorizer now_epoch_secs rest imported st
      else
        let fields := str_split tab line in
        if bool_decide (length fields < 12)%nat
        then (Err (VE.new ("import line has " +:+ pretty (N.of_nat (length fields)) +:+ " fields, expected at least 12")), st)
        else if existsb (λ e, bool_decide (ev_event_id e = fields !!! 0%nat)) (st_events st)
        then store_import_lines env verifier authorizer now_epoch_secs rest imported st
        else
          match import_envelope fields with
          | Err x => (Err x, st)
          | Ok envelope =>
              match store_append_with_authorizer (env imported).1 (env imported).2 st envelope verifier authorizer now_epoch_secs with
              | (Err x, st) => (Err x, st)
              | (Ok _, st) => store_import_lines env verifier authorizer now_epoch_secs rest (S imported) st
              end
          end
  end.

Definition store_import_events (env : nat → StoreFaults * Z) (st : EventStore) (data : string) (verifier : Verifier)
  (authorizer : Authorizer) (now_epoch_secs : Z) : result nat ValidationError * EventStore :=
  store_import_lines env verifier authorizer now_epoch_secs (of_bytes <$> lines_on (to_bytes data)) 0 st.

End Store.

(** ** Lemmas: reading back *)

Lemma seq_as_u64_i64 z : in_u64 z → seq_as_u64 (seq_as_i64 z) = z.
Proof.
  unfold in_u64, u64_max. intros Hz. unfold seq_as_i64, seq_as_u64. destruct (Z.ltb_spec z (2 ^ 63)); [rewrite Z.mod_small; lia|].
  rewrite <-(Z.mod_add _ 1 (2 ^ 64)) by lia. rewrite Z.mod_small; lia.
Qed.

Lemma collect_results_Ok {A B E} (f : A → result B E) l ys : collect_results f l = Ok ys ↔ Forall2 (λ x y, f x = Ok y) l ys.
Proof.
  revert ys. induction l as [|x l IH]; intros ys; cbn.
  - split; [intros [= <-]; constructor|by intros ->%Forall2_nil_inv_l].
  - rewrite result_bind_Ok. split.
    + intros (y & Hy & H). apply result_bind_Ok in H as (ys' & Hys & [= <-]). constructor; [done|by apply IH].
    + intros (y & ys' & Hy & Hys & ->)%Forall2_cons_inv_l. exists y. split; [done|]. by rewrite (proj2 (IH ys') Hys).
Qed.

Section Reading.
Context {H : HexOps} {J : JsonOps}.

Lemma load_row_spec refs e sig e' :
  load_row refs (event_row e, sig) = Ok e' →
  event_row e' = event_row e ∧ ev_signature e' = sig ∧
  ev_refs e' = snd <$> List.filter (λ x, bool_decide (x.1 = ev_event_id e)) refs ∧
  EventBody_decode_canonical (ev_payload e) = Ok (ev_body e') ∧ EventEnvelope_validate e' = Ok tt ∧
  ev_schema_version e' = SCHEMA_V0_1_0 ∧ SchemaVersion_parse (SchemaVersion_display (ev_schema_version e)) = Some SCHEMA_V0_1_0.
Proof.
  pose proof wire_names_roundtrip as (_ & _ & _ & Hsk & Hkr & _ & _ & _ & _ & _ & Het).
  unfold load_row, event_row. cbn. rewrite Het, !Hsk, Hkr. cbn. unfold SchemaVersion_parse. case_bool_decide as Hv; [|done]. cbn.
  unfold from_stored_parts. intros (body & Hb & He)%result_bind_Ok. apply seq_Ok in He as [He [= <-]]. cbn in *.
  split_and!; try done. f_equal. by rewrite Hv.
Qed.

(** *** What the tables hold *)

Definition refs_typed (e : EventEnvelope) : Prop := Forall (λ r, in_u64 (ref_seq r)) (ev_refs e).

Definition row_refs (es : list EventEnvelope) : list RefRow := mjoin ((λ e, ref_row (ev_event_id e) <$> ev_refs e) <$> es).

(** The tables hold exactly the events [es], in their order. *)
Record tables_hold (t : Tables) (es : list EventEnvelope) : Prop := {
  th_rows : tb_events t = event_row <$> es;
  th_ids : NoDup (ev_event_id <$> es);
  th_signed : ∀ e, e ∈ es → tb_signatures t !! ev_event_id e = Some (ev_signer e, ev_signature e);
  th_signatures : ∀ id x, tb_signatures t !! id = Some x → id ∈ ev_event_id <$> es;
  th_refs : tb_refs t ≡ₚ row_refs es;
  th_typed : Forall refs_typed es
}.

Lemma no_tables_hold : tables_hold no_tables [].
Proof. split; try done; [constructor|by intros e ?%elem_of_nil]. Qed.

Lemma insert_refs_Ok rows tb tb' : insert_refs rows tb = Ok tb' → tb' = tb ++ rows.
Proof.
  revert tb. induction rows as [|r rows IH]; intros tb; cbn; [intros [= <-]; by rewrite app_nil_r|].
  destruct (existsb _ _); [done|]. intros ->%IH. by rewrite <-app_assoc.
Qed.

Lemma failing_Ok fault what : failing fault what = Ok tt ↔ fault = None.
Proof. by destruct fault. Qed.

Lemma existsb_id_false es (f : EventEnvelope → EventRow) id :
  (∀ e, er_event_id (f e) = ev_event_id e) → existsb (λ r, bool_decide (er_event_id r = id)) (f <$> es) = false → id ∉ ev_event_id <$> es.
Proof.
  intros Hf. induction es as [|e es IH]; cbn; [by intros _ ?%elem_of_nil|]. intros [H1%bool_decide_eq_false H2]%orb_false_iff.
  rewrite Hf in H1. apply not_elem_of_cons. split; [done|by apply IH].
Qed.

Lemma persist_event_Ok f e t t' es :
  persist_event f e t = Ok t' → tables_hold t es → refs_typed e →
  tables_hold t' (es ++ [e]) ∧ tb_batches t' = tb_batches t ∧ tb_watch t' = tb_watch t.
Proof.
  unfold persist_event. intros [_ Hp]%seq_Ok Ht Hty. destruct (existsb _ _) eqn:Ed; [done|].
  apply result_bind_Ok in Hp as (refs & Hr & Hp). apply insert_refs_Ok in Hr as ->.
  destruct (tb_signatures t !! ev_event_id e) eqn:Es; [done|]. injection Hp as <-. split; [|done]. destruct Ht as [H1 H2 H3 H4 H5 H6].
  rewrite H1 in Ed. apply existsb_id_false in Ed; [|done]. split; cbn.
  - by rewrite H1, fmap_app.
  - rewrite fmap_app. apply NoDup_app. split_and!; [done| |apply NoDup_singleton]. cbn. intros x Hx ->%list_elem_of_singleton. done.
  - intros x [Hx| ->%list_elem_of_singleton]%elem_of_app; [|by rewrite lookup_insert_eq].
    rewrite lookup_insert_ne; [by apply H3|]. intros E. apply Ed. rewrite E. by apply list_elem_of_fmap_2.
  - intros id x. rewrite fmap_app, elem_of_app. intros [[<- _]|[_ Hx]]%lookup_insert_Some; [right; by left|left; by eapply H4].
  - unfold row_refs in *. rewrite fmap_app, join_app, H5. cbn. by rewrite app_nil_r.
  - by apply Forall_app_2; [|constructor].
Qed.

Lemma persist_events_Ok f new t t' es :
  persist_events f new t = Ok t' → tables_hold t es → Forall refs_typed new →
  tables_hold t' (es ++ new) ∧ tb_batches t' = tb_batches t ∧ tb_watch t' = tb_watch t.
Proof.
  revert t es. induction new as [|e new IH]; intros t es; cbn; [intros [= <-]; by rewrite app_nil_r|].
  intros (t1 & Hp & Hr)%result_bind_Ok Ht [He Hn]%Forall_cons. destruct (persist_event_Ok _ _ _ _ _ Hp Ht He) as (Ht1 & Hb & Hw).
  destruct (IH _ _ Hr Ht1 Hn) as (Ht2 & Hb2 & Hw2). rewrite <-app_assoc in Ht2. split_and!; [done|congruence|congruence].
Qed.

(** *** Reading what the tables hold *)

Lemma filter_split_perm {A} (p : A → bool) l : List.filter p l ++ List.filter (λ x, negb (p x)) l ≡ₚ l.
Proof.
  induction l as [|x l IH]; cbn; [done|]. destruct (p x); cbn; [by rewrite IH|]. by rewrite <-Permutation_middle, IH.
Qed.

Lemma filter_filter {A} (p q : A → bool) l : (∀ x, p x = true → q x = true) → List.filter p (List.filter q l) = List.filter p l.
Proof.
  intros Hpq. induction l as [|x l IH]; cbn; [done|]. destruct (q x) eqn:Eq; cbn; [by rewrite IH|].
  destruct (p x) eqn:Ep; [apply Hpq in Ep; congruence|done].
Qed.

(** Grouping by keys that cover the list. *)
Lemma group_perm {A} (key : A → string) ids l :
  NoDup ids → (∀ x, x ∈ l → key x ∈ ids) → mjoin ((λ i, List.filter (λ x, bool_decide (key x = i)) l) <$> ids) ≡ₚ l.
Proof.
  revert l. induction ids as [|i ids IH]; intros l Hnd Hin.
  { destruct l as [|x l]; [done|]. assert (x ∈ x :: l) as Hx by (by left). apply Hin in Hx. by apply elem_of_nil in Hx. }
  apply NoDup_cons in Hnd as [Hi Hnd]. cbn. etransitivity; [|apply (filter_split_perm (λ x, bool_decide (key x = i)) l)]. f_equiv.
  assert (∀ x, x ∈ List.filter (λ x, negb (bool_decide (key x = i))) l → key x ∈ ids) as Hin'.
  { intros x Hx. apply list_elem_of_In, filter_In in Hx as [Hx%list_elem_of_In Hk%negb_true_iff%bool_decide_eq_false].
    apply Hin in Hx. apply elem_of_cons in Hx as [?|?]; done. }
  rewrite <-(IH _ Hnd Hin'). clear IH Hin Hin'. induction ids as [|j ids IH]; [done|]. apply not_elem_of_cons in Hi as [Hij Hi]. apply NoDup_cons in Hnd as [_ Hnd].
  cbn. rewrite filter_filter; [f_equiv; by apply IH|]. intros x ->%bool_decide_eq_true. by rewrite bool_decide_eq_false_2.
Qed.

Lemma load_ref_row id r : in_u64 (ref_seq r) → load_ref (ref_row id r) = Ok (id, r).
Proof.
  intros Hr. unfold load_ref, ref_row. cbn. assert (EventRefRelation_parse (EventRefRelation_as_str (ref_relation r)) = Some (ref_relation r))
    as -> by (by destruct (ref_relation r)). cbn. rewrite seq_as_u64_i64 by done. by destruct r.
Qed.

Lemma row_refs_elem es x : x ∈ row_refs es ↔ ∃ e r, e ∈ es ∧ r ∈ ev_refs e ∧ x = ref_row (ev_event_id e) r.
Proof.
  unfold row_refs. rewrite list_elem_of_join. split.
  - intros (l & Hx & (e & -> & He)%list_elem_of_fmap). apply list_elem_of_fmap in Hx as (r & -> & Hr). eauto.
  - intros (e & r & He & Hr & ->). exists (ref_row (ev_event_id e) <$> ev_refs e). split; [by apply list_elem_of_fmap_2|].
    apply list_elem_of_fmap. by exists e.
Qed.

(** The references read are the rows of the table, in their order. *)
Lemma load_refs_Ok t es refs :
  tables_hold t es → load_all_event_refs t = Ok refs →
  (λ x, ref_row x.1 x.2) <$> refs = sort_by ref_row_le (tb_refs t) ∧ Forall (λ x, in_u64 (ref_seq x.2)) refs.
Proof.
  intros Ht Hl%collect_results_Ok.
  assert (∀ x, x ∈ sort_by ref_row_le (tb_refs t) → ∃ id r, x = ref_row id r ∧ in_u64 (ref_seq r)) as Hall.
  { intros x Hx. rewrite sort_by_perm, (th_refs _ _ Ht) in Hx. apply row_refs_elem in Hx as (e & r & He & Hr & ->).
    pose proof (th_typed _ _ Ht) as Hty. rewrite Forall_forall in Hty. specialize (Hty e He). unfold refs_typed in Hty. rewrite Forall_forall in Hty. eauto. }
  induction Hl as [|x y l ys Hxy _ IH]; [done|].
  destruct (Hall x) as (id & r & -> & Hr); [by left|]. rewrite load_ref_row in Hxy by done. injection Hxy as <-.
  destruct IH as [IH1 IH2]; [intros z Hz; apply Hall; by right|]. cbn. rewrite IH1. split; [done|by constructor].
Qed.

Lemma refs_of_rows (refs : list (string * EventRef)) id :
  ref_row id <$> (snd <$> List.filter (λ x, bool_decide (x.1 = id)) refs) =
  List.filter (λ x, bool_decide (rr_event_id x = id)) ((λ x, ref_row x.1 x.2) <$> refs).
Proof.
  induction refs as [|[i r] refs IH]; cbn; [done|]. case_bool_decide as E; cbn; [|by rewrite IH]. subst. by rewrite IH.
Qed.

Lemma joined_rows_hold t es : tables_hold t es → joined_rows t = (λ e, (event_row e, ev_signature e)) <$> es.
Proof.
  intros Ht. unfold joined_rows. rewrite (th_rows _ _ Ht). pose proof (th_signed _ _ Ht) as Hs. clear Ht.
  induction es as [|e es IH]; [done|]. cbn. rewrite (Hs e) by (by left). cbn. rewrite IH; [done|]. intros x Hx. apply Hs. by right.
Qed.

(** What a reader gets for an event that was written. *)
Definition reloaded (e e' : EventEnvelope) : Prop :=
  event_row e' = event_row e ∧ ev_signature e' = ev_signature e ∧ EventBody_decode_canonical (ev_payload e) = Ok (ev_body e') ∧
  EventEnvelope_validate e' = Ok tt ∧ ev_schema_version e' = SCHEMA_V0_1_0.

Lemma load_Ok f t es es' :
  load_events f t = Ok es' → tables_hold t es → tables_hold t es' ∧ Forall2 reloaded es es'.
Proof.
  unfold load_events. intros [_ Hl]%seq_Ok Ht. apply result_bind_Ok in Hl as (refs & Hr & Hl).
  destruct (load_refs_Ok _ _ _ Ht Hr) as [Hrows Htyped]. rewrite (joined_rows_hold _ _ Ht) in Hl. apply collect_results_Ok, Forall2_fmap_l in Hl.
  assert (Forall2 (λ e e', reloaded e e' ∧ ev_refs e' = snd <$> List.filter (λ x, bool_decide (x.1 = ev_event_id e)) refs) es es') as Hf.
  { eapply Forall2_impl; [exact Hl|]. intros e e' (H1 & H2 & H3 & H4 & H5 & H6 & _)%load_row_spec. by split_and!. }
  assert (event_row <$> es' = event_row <$> es) as Erow.
  { clear -Hf. induction Hf as [|e e' es es' [(He & _) _] _ IH]; [done|]. cbn. by rewrite He, IH. }
  assert (ev_event_id <$> es' = ev_event_id <$> es) as Eid.
  { assert (∀ l : list EventEnvelope, ev_event_id <$> l = er_event_id <$> (event_row <$> l)) as E
      by (intros l; by rewrite <-list_fmap_compose). by rewrite !E, Erow. }
  split; [|eapply Forall2_impl; [exact Hf|by intros ? ? [? _]]]. split.
  - rewrite (th_rows _ _ Ht). by rewrite Erow.
  - rewrite Eid. apply Ht.
  - intros e' [i He']%list_elem_of_lookup. destruct (Forall2_lookup_r _ _ _ _ _ Hf He') as (e & He%list_elem_of_lookup_2 & (Hrow & Hsig & _) & _).
    pose proof (th_signed _ _ Ht e He) as Hs. injection Hrow as Hid _ _ _ _ _ _ _ _ Hsn _. by rewrite Hid, Hsn, Hsig.
  - intros id x Hx. rewrite Eid. by eapply (th_signatures _ _ Ht).
  - rewrite <-(sort_by_perm ref_row_le (tb_refs t)). rewrite <-(group_perm rr_event_id (ev_event_id <$> es) (sort_by ref_row_le (tb_refs t))).
    + unfold row_refs. rewrite <-Hrows. clear -Hf. induction Hf as [|e e' es es' [(He & _) Hr] _ IH]; [done|]. cbn. rewrite IH.
      rewrite Hr. injection He as -> _ _ _ _ _ _ _ _ _ _. by rewrite refs_of_rows.
    + apply Ht.
    + intros x Hx. rewrite sort_by_perm, (th_refs _ _ Ht) in Hx. apply row_refs_elem in Hx as (e & r & He & _ & ->). apply list_elem_of_fmap. by exists e.
  - eapply Forall2_Forall_r; [exact Hf|]. apply Forall_forall. intros e _ e' [_ Hre]. unfold refs_typed. rewrite Hre.
    apply Forall_fmap, Forall_forall. intros x Hx. apply list_elem_of_In, filter_In in Hx as [Hx%list_elem_of_In _].
    rewrite Forall_forall in Htyped. by apply Htyped.
Qed.

End Reading.

(** ** Lemmas: the store *)

Section Invariants.
Context {H : HexOps} {J : JsonOps}.

Definition valid (e : EventEnvelope) : Prop := EventEnvelope_validate e = Ok tt.

(** The tables hold the events of the store, all of them valid, and the indices are those of the events. *)
Definition store_wf (st : EventStore) : Prop :=
  tables_hold (st_tables st) (st_events st) ∧ st_event_index st = collect_event_index (st_events st) ∧
  st_type_index st = collect_type_index (st_events st) ∧ Forall valid (st_events st).

(** The derived state is what a rebuild would make of the events. *)
Definition in_sync (st : EventStore) : Prop :=
  replay_stored empty_state ∅ (st_events st) = Ok (st_materialized st, st_storage_manifests st).

Lemma replay_stored_app m fm es es' :
  replay_stored m fm (es ++ es') = let? d := replay_stored m fm es in replay_stored d.1 d.2 es'.
Proof.
  revert m fm. induction es as [|e es IH]; intros m fm; cbn; [done|].
  destruct (apply_event m e) as [m1|]; cbn; [|done]. destruct (apply_storage_event fm e m1); cbn; [apply IH|done].
Qed.

Lemma store_rebuild_spec f st r st' es :
  store_rebuild f st = (r, st') → tables_hold (st_tables st) es →
  st_tables st' = st_tables st ∧
  match r with
  | Err _ => st' = st
  | Ok _ => store_wf st' ∧ in_sync st' ∧ Forall2 reloaded es (st_events st')
  end.
Proof.
  unfold store_rebuild. destruct (let? es := _ in _) as [[es' [m fm]]|x] eqn:E; intros [= <- <-] Ht; [|done]. split; [done|].
  apply result_bind_Ok in E as (es1 & Hl & E). apply result_bind_Ok in E as ([m1 fm1] & Hr & E). apply seq_Ok in E as [_ [= -> -> ->]].
  destruct (load_Ok _ _ _ _ Hl Ht) as [Ht' Hf]. split; [|done].
  assert (Forall valid es') as Hval; [|done]. eapply Forall2_Forall_r; [exact Hf|].
  apply Forall_forall. by intros e _ e' (_ & _ & _ & ? & _).
Qed.

Lemma store_rebuild_Err f st x st' : store_rebuild f st = (Err x, st') → st' = st.
Proof. unfold store_rebuild. destruct (let? es := _ in _) as [[es' [m fm]]|y]; by intros [= _ <-]. Qed.

Lemma from_connection_spec f t st es :
  from_connection f t = Ok st → tables_hold t es →
  st_tables st = t ∧ store_wf st ∧ in_sync st ∧ Forall2 reloaded es (st_events st).
Proof.
  unfold from_connection. destruct (store_rebuild f _) as [[u|] st1] eqn:E; [|done]. intros [= <-] Ht.
  by destruct (store_rebuild_spec _ _ _ _ es E Ht) as (? & ? & ? & ?).
Qed.

(** The checks an event passed and the derived data it gave. *)
Definition accepted (v : Verifier) (a : Authorizer) (now : Z) (st : EventStore) (e : EventEnvelope) (m : MaterializedState)
  (fm : gmap string FileManifest) : Prop :=
  EventEnvelope_validate e = Ok tt ∧
  verify_with_context DOMAIN_EVENT v (ev_signer e) (signed_bytes e) (ev_signature e) = true ∧
  authorize_raw a e (st_materialized st) now = Ok tt ∧ apply_event (st_materialized st) e = Ok m ∧
  apply_storage_event (st_storage_manifests st) e m = Ok fm.

(** The storage step of an event fails only where the event has no other effect. *)
Lemma storage_Err fm e m m' x : apply_event m e = Ok m' → apply_storage_event fm e m' = Err x → m' = m.
Proof.
  unfold apply_event, apply_storage_event. destruct (ev_body e); try done. by intros [_ [= <-]]%seq_Ok.
Qed.

Lemma with_derived_same st : with_derived (st_materialized st) (st_storage_manifests st) st = st.
Proof. by destruct st. Qed.

(** The outcomes of an append: refused without a trace, refused by the transaction or the commit, or stored. *)
Lemma store_append_cases f sys st e v a now r st' :
  store_append_with_authorizer f sys st e v a now = (r, st') →
  (∃ x, r = Err x ∧ st' = st)
  ∨ ∃ m fm, accepted v a (effective_now sys now) st e m fm ∧
      ((∃ x, append_tx f e (st_tables st) = Err x ∧ r = Err x ∧ st' = with_derived m fm st)
       ∨ ∃ t, append_tx f e (st_tables st) = Ok t ∧
           match sf_commit f with
           | Some msg => (∃ x, r = Err x) ∧ st' = (store_rebuild f (with_derived m fm st)).2
           | None => r = Ok tt ∧ st' = mkEventStore t (st_events st ++ [e]) (index_event_id (length (st_events st)) e (st_event_index st))
                       (index_event_type (length (st_events st)) e (st_type_index st)) m fm
           end).
Proof.
  unfold store_append_with_authorizer. destruct (EventEnvelope_validate e) as [[]|x] eqn:Hv; cbn; [|intros [= <- <-]; left; by exists x].
  destruct (verify_with_context _ _ _ _ _) eqn:Hs; cbn; [|intros [= <- <-]; left; by eexists].
  destruct (authorize_raw _ _ _ _) as [[]|x] eqn:Ha; cbn; [|intros [= <- <-]; left; by exists x].
  destruct (apply_event _ _) as [m|x] eqn:Hm; cbn; [|intros [= <- <-]; left; by exists x].
  destruct (apply_storage_event _ _ _) as [fm|x] eqn:Hfm; cbn.
  2:{ intros [= <- <-]. left. exists x. split; [done|]. by rewrite (storage_Err _ _ _ _ _ Hm Hfm), with_derived_same. }
  intros Hr. right. exists m, fm. split; [done|]. destruct (append_tx f e (st_tables st)) as [t|x]; [right|left; injection Hr as <- <-; by exists x].
  exists t. split; [done|]. destruct (sf_commit f) as [msg|]; [|by injection Hr as <- <-].
  destruct (store_rebuild f _) as [[u|y] st1]; injection Hr as <- <-; by split; [eexists|].
Qed.

Lemma append_tx_Ok f e t t' es : append_tx f e t = Ok t' → tables_hold t es → refs_typed e → tables_hold t' (es ++ [e]).
Proof.
  unfold append_tx. intros [_ Hp]%seq_Ok Ht He. apply result_bind_Ok in Hp as (t1 & Hp & Hr). apply seq_Ok in Hr as [_ Hr].
  apply seq_Ok in Hr as [_ [= ->]]. by destruct (persist_event_Ok _ _ _ _ _ Hp Ht He).
Qed.

Lemma store_append_spec f sys st e v a now r st' :
  store_append_with_authorizer f sys st e v a now = (r, st') → refs_typed e → store_wf st →
  store_wf st' ∧
  match r with
  | Err _ => st_tables st' = st_tables st
  | Ok _ => st_events st' = st_events st ++ [e] ∧ (in_sync st → in_sync st') ∧
            ∃ m fm, accepted v a (effective_now sys now) st e m fm ∧ st_materialized st' = m ∧ st_storage_manifests st' = fm
  end.
Proof.
  intros Hap He Hwf. pose proof Hwf as (Ht & Hi & Hty & Hva).
  destruct (store_append_cases _ _ _ _ _ _ _ _ _ Hap) as [(x & -> & ->)|(m & fm & Hacc & [(x & _ & -> & ->)|(t & Htx & Hc)])]; [done|done|].
  destruct (sf_commit f) as [msg|].
  - destruct Hc as [[x ->] ->]. destruct (store_rebuild f (with_derived m fm st)) as [r st'] eqn:Er.
    destruct (store_rebuild_spec _ _ _ _ _ Er Ht) as [Htab Hr]. cbn in *. split; [|done]. destruct r; [by destruct Hr|by subst st'].
  - destruct Hc as [-> ->]. split; [|split_and!; [done| |by exists m, fm]].
    + split_and!; cbn [st_tables st_events st_event_index st_type_index]; [by eapply append_tx_Ok|by rewrite collect_event_index_snoc, Hi|by rewrite collect_type_index_snoc, Hty|].
      apply Forall_app_2; [done|]. constructor; [by destruct Hacc|done].
    + unfold in_sync. cbn. intros Hsy. rewrite replay_stored_app, Hsy. cbn. destruct Hacc as (_ & _ & _ & -> & Hst). cbn. by rewrite Hst.
Qed.

(** *** Batches *)

Lemma rebuild_then_spec {A} f x st (r : result A ValidationError) st' :
  rebuild_then f x st = (r, st') → store_wf st → (∃ y, r = Err y) ∧ store_wf st' ∧ st_tables st' = st_tables st.
Proof.
  unfold rebuild_then. destruct (store_rebuild f st) as [[u|y] st1] eqn:E; intros [= <- <-] Hwf;
    destruct (store_rebuild_spec _ _ _ _ _ E (proj1 Hwf)) as [Ht Hr]; (split; [by eexists|]).
  - by destruct Hr.
  - by subst st1.
Qed.

Lemma store_import_loop_spec f v a now st imported es r st' :
  store_import_loop f v a now st imported es = (r, st') → store_wf st →
  match r with
  | Err _ => store_wf st' ∧ st_tables st' = st_tables st
  | Ok imported' => ∃ added m fm, imported' = imported ++ added ∧ added `sublist_of` es ∧ st' = with_derived m fm st ∧
      replay_stored (st_materialized st) (st_storage_manifests st) added = Ok (m, fm) ∧ Forall valid added
  end.
Proof.
  revert st imported. induction es as [|e es IH]; intros st imported; cbn.
  - intros [= <- <-] _. exists [], (st_materialized st), (st_storage_manifests st). rewrite app_nil_r, with_derived_same. done.
  - destruct (EventEnvelope_validate e) as [[]|] eqn:Hval; [|by intros [= <- <-]].
    assert (∀ x st1, store_wf st1 → st_tables st1 = st_tables st → rebuild_then f x st1 = (r, st') →
      match r with
      | Err _ => store_wf st' ∧ st_tables st' = st_tables st
      | Ok imported' => ∃ added m fm, imported' = imported ++ added ∧ added `sublist_of` e :: es ∧ st' = with_derived m fm st ∧
          replay_stored (st_materialized st) (st_storage_manifests st) added = Ok (m, fm) ∧ Forall valid added
      end) as Hreb.
    { intros x st1 Hwf1 Htab Hr. destruct (rebuild_then_spec _ _ _ _ _ Hr Hwf1) as ([y ->] & ? & ?). split; [done|congruence]. }
    intros Hl Hwf. destruct (negb _); [by eapply Hreb|]. destruct (_ || _).
    { specialize (IH _ _ Hl Hwf). destruct r as [imported'|]; [|done]. destruct IH as (added & m & fm & ? & ? & ? & ? & ?).
      exists added, m, fm. split_and!; [done|by apply sublist_cons|done|done|done]. }
    destruct (authorize _ _ _ _) as [[]|]; [|by eapply Hreb]. destruct (apply_event _ _) as [m|] eqn:Hm; [|by eapply Hreb].
    destruct (apply_storage_event _ _ _) as [fm|] eqn:Hfm; [|by eapply (Hreb _ (with_derived m (st_storage_manifests st) st))]. apply IH in Hl; [|done]. destruct r as [imported'|]; [|done].
    destruct Hl as (added & m' & fm' & -> & Hsub & -> & Hrep & Hav). exists (e :: added), m', fm'. rewrite <-app_assoc. split_and!; [done|by apply sublist_skip|done| |by constructor].
    cbn. rewrite Hm. cbn. rewrite Hfm. done.
Qed.

Lemma index_imported_collect st imported :
  store_wf st → index_imported (length (st_events st)) imported st =
  (collect_event_index (st_events st ++ imported), collect_type_index (st_events st ++ imported)).
Proof.
  intros (_ & Hi & Ht & _). induction imported as [|e imported IH] using rev_ind; [by rewrite app_nil_r; unfold index_imported; cbn; rewrite Hi, Ht|].
  unfold index_imported in *. rewrite imap_app, foldl_app, IH. cbn [imap foldl fst snd]. rewrite app_assoc, collect_event_index_snoc, collect_type_index_snoc, length_app.
  by rewrite Nat.add_0_r.
Qed.

Lemma hold_other t t' es : tables_hold t es → tb_events t' = tb_events t → tb_refs t' = tb_refs t → tb_signatures t' = tb_signatures t → tables_hold t' es.
Proof. intros [H1 H2 H3 H4 H5 H6] E1 E2 E3. split; by rewrite ?E1, ?E2, ?E3. Qed.

Lemma import_tx_Ok f peer batch imported last t t' es :
  import_tx f peer batch imported last t = Ok t' → tables_hold t es → Forall refs_typed imported → tables_hold t' (es ++ imported).
Proof.
  unfold import_tx. intros [_ Hp]%seq_Ok Ht Hi. apply result_bind_Ok in Hp as (t1 & Hp & Hr). apply seq_Ok in Hr as [_ Hr].
  apply result_bind_Ok in Hr as (t2 & Hb & Hc). destruct (persist_events_Ok _ _ _ _ _ Hp Ht Hi) as (Ht1 & _).
  assert (tables_hold t2 (es ++ imported)) as Ht2.
  { unfold record_sync_batch in Hb. apply seq_Ok in Hb as [_ Hb]. destruct (existsb _ _); [done|]. injection Hb as <-. by eapply hold_other. }
  destruct last; [|by injection Hc as <-]. unfold write_peer_cursor in Hc. apply seq_Ok in Hc as [_ [= <-]]. by eapply hold_other.
Qed.

Lemma store_import_spec f st peer batch es last v a now r st' :
  store_import_sync_batch f st peer batch es last v a now = (r, st') → Forall refs_typed es → store_wf st →
  store_wf st' ∧
  match r with
  | Err _ => st_tables st' = st_tables st
  | Ok n => ∃ added, st_events st' = st_events st ++ added ∧ added `sublist_of` es ∧ n = length added ∧ (in_sync st → in_sync st')
  end.
Proof.
  unfold store_import_sync_batch. intros Hb Hty Hwf. destruct (store_import_loop f v a now st [] es) as [[imported|x] st1] eqn:El;
    pose proof (store_import_loop_spec _ _ _ _ _ _ _ _ _ El Hwf) as Hl; [|by injection Hb as <- <-].
  destruct Hl as (added & m & fm & -> & Hsub & -> & Hrep & Hval). cbn [app] in *.
  assert (store_wf (with_derived m fm st)) as Hwf1 by done.
  assert (Forall refs_typed added) as Hta by (rewrite Forall_forall in Hty |- *; intros x Hx; apply Hty; by eapply elem_of_submseteq, sublist_submseteq).
  destruct (import_tx _ _ _ _ _ _) as [t|x] eqn:Ex; [|by injection Hb as <- <-]. destruct (sf_commit f) as [msg|].
  - by destruct (rebuild_then_spec _ _ _ _ _ Hb Hwf1) as ([y ->] & ? & ?).
  - rewrite index_imported_collect in Hb by done. injection Hb as <- <-. split.
    + split_and!; cbn [st_tables st_events st_event_index st_type_index fst snd with_derived]; [|done|done|by apply Forall_app_2; [apply Hwf|]]. by eapply import_tx_Ok; [|apply Hwf|].
    + exists added. split_and!; [done|done|done|]. unfold in_sync. cbn. intros Hs. by rewrite replay_stored_app, Hs.
Qed.

(** *** Runs *)

(** One call on the store, with anything that can fail, or a restart that opens the tables again. *)
Inductive store_step : EventStore → EventStore → Prop :=
| step_append f sys st e v a now r st' :
    refs_typed e → store_append_with_authorizer f sys st e v a now = (r, st') → store_step st st'
| step_batch f st peer batch es last v a now r st' :
    Forall refs_typed es → store_import_sync_batch f st peer batch es last v a now = (r, st') → store_step st st'
| step_rebuild f st r st' : store_rebuild f st = (r, st') → store_step st st'
| step_restart f st st' : from_connection f (st_tables st) = Ok st' → store_step st st'.

Definition new_store : EventStore := mkEventStore no_tables [] ∅ ∅ empty_state ∅.

Lemma new_store_opens : from_connection no_faults no_tables = Ok new_store.
Proof. done. Qed.

Lemma new_store_wf : store_wf new_store.
Proof. split_and!; [apply no_tables_hold|done|done|constructor]. Qed.

(** The references of one event among all of them. *)
Lemma row_refs_filter es e :
  NoDup (ev_event_id <$> es) → e ∈ es →
  List.filter (λ x, bool_decide (rr_event_id x = ev_event_id e)) (row_refs es) = ref_row (ev_event_id e) <$> ev_refs e.
Proof.
  assert (∀ id (l : list EventRef) i, List.filter (λ x, bool_decide (rr_event_id x = id)) (ref_row i <$> l) =
    if bool_decide (i = id) then ref_row i <$> l else []) as Hone.
  { intros id l i. induction l as [|r l IH]; cbn; [by case_bool_decide|]. rewrite IH. by case_bool_decide. }
  induction es as [|x es IH]; intros Hnd He; [by apply elem_of_nil in He|]. cbn in Hnd. apply NoDup_cons in Hnd as [Hx Hnd].
  change (row_refs (x :: es)) with ((ref_row (ev_event_id x) <$> ev_refs x) ++ row_refs es). rewrite List.filter_app, Hone.
  apply elem_of_cons in He as [<-|He].
  - rewrite bool_decide_eq_true_2 by done. rewrite <-(app_nil_r (ref_row (ev_event_id e) <$> ev_refs e)) at 2. f_equal.
    apply elem_of_nil_inv. intros y Hy. apply list_elem_of_In, filter_In in Hy as [Hy%list_elem_of_In Hk%bool_decide_eq_true].
    apply row_refs_elem in Hy as (e' & r & He' & _ & ->). cbn in Hk. apply Hx. rewrite <-Hk. apply list_elem_of_fmap. by exists e'.
  - rewrite bool_decide_eq_false_2, IH; [done|done|done|]. intros E. apply Hx. rewrite E. apply list_elem_of_fmap. by exists e.
Qed.

Lemma filter_perm {A} (p : A → bool) l l' : l ≡ₚ l' → List.filter p l ≡ₚ List.filter p l'.
Proof.
  induction 1 as [|x l l' _ IH|x y l|l1 l2 l3 _ IH1 _ IH2]; cbn; [done| | |by etransitivity].
  - destruct (p x); [by f_equiv|done].
  - destruct (p x), (p y); try done. apply Permutation_swap.
Qed.

(** The same event, with its references perhaps in another order. *)
Definition same_event (e e' : EventEnvelope) : Prop :=
  event_row e' = event_row e ∧ ev_signature e' = ev_signature e ∧ ev_refs e' ≡ₚ ev_refs e.

Lemma same_event_id e e' : same_event e e' → ev_event_id e' = ev_event_id e.
Proof. intros (E & _). exact (f_equal er_event_id E). Qed.

#[local] Instance same_event_refl : Reflexive same_event.
Proof. by intros e. Qed.

#[local] Instance same_event_trans : Transitive same_event.
Proof. intros e1 e2 e3 (H1 & H2 & H3) (H4 & H5 & H6). split_and!; [congruence|congruence|by rewrite H6]. Qed.

Definition unref (r : RefRow) : option EventRef := match load_ref r with Ok x => Some x.2 | Err _ => None end.

Lemma omap_unref id l : Forall (λ r, in_u64 (ref_seq r)) l → omap unref (ref_row id <$> l) = l.
Proof. induction 1 as [|r l Hr _ IH]; [done|]. cbn. unfold unref at 1. rewrite load_ref_row by done. cbn. by rewrite IH. Qed.

(** The tables determine the events they hold. *)
Lemma hold_same t es es' : tables_hold t es → tables_hold t es' → Forall2 same_event es es'.
Proof.
  intros H1 H2. pose proof (th_rows _ _ H1) as Erow. rewrite (th_rows _ _ H2) in Erow. apply list_eq_Forall2, Forall2_fmap_1 in Erow.
  apply Forall2_same_length_lookup_2; [symmetry; exact (Forall2_length _ _ _ Erow)|]. intros i e e' He He'.
  pose proof (Forall2_lookup_lr _ _ _ _ _ _ Erow He' He) as Ee. assert (ev_event_id e' = ev_event_id e) as Eid by exact (f_equal er_event_id Ee).
  apply list_elem_of_lookup_2 in He, He'. split; [done|]. split.
  - pose proof (th_signed _ _ H1 e He) as Hs. pose proof (th_signed _ _ H2 e' He') as Hs'. congruence.
  - pose proof (th_typed _ _ H1) as Ht1. pose proof (th_typed _ _ H2) as Ht2. rewrite Forall_forall in Ht1, Ht2.
    rewrite <-(omap_unref (ev_event_id e) (ev_refs e') (Ht2 _ He')), <-(omap_unref (ev_event_id e) (ev_refs e) (Ht1 _ He)).
    rewrite <-Eid at 1. rewrite <-(row_refs_filter es e (th_ids _ _ H1) He), <-(row_refs_filter es' e' (th_ids _ _ H2) He'), Eid.
    rewrite (filter_perm _ _ _ (symmetry (th_refs _ _ H1))), (filter_perm _ _ _ (symmetry (th_refs _ _ H2))). done.
Qed.

(** Events are only added. *)
Definition events_kept (es es' : list EventEnvelope) : Prop := ∃ es1 added, es' = es1 ++ added ∧ Forall2 same_event es es1.

Lemma events_kept_app es added : events_kept es (es ++ added).
Proof. exists es, added. split; [done|]. apply Forall_Forall2_diag, Forall_true. by intros x. Qed.

Lemma events_kept_trans es1 es2 es3 : events_kept es1 es2 → events_kept es2 es3 → events_kept es1 es3.
Proof.
  intros (k1 & a1 & -> & H1) (k2 & a2 & -> & H2). apply Forall2_app_inv_l in H2 as (l1 & l2 & H3 & _ & ->).
  exists l1, (l2 ++ a2). split; [by rewrite app_assoc|]. by transitivity k1.
Qed.

Lemma wf_kept st st' : store_wf st → store_wf st' → st_tables st' = st_tables st → events_kept (st_events st) (st_events st').
Proof.
  intros (H1 & _) (H2 & _) E. rewrite E in H2. exists (st_events st'), []. split; [by rewrite app_nil_r|by eapply hold_same].
Qed.

(** A step keeps the tables and the memory together, and every event. *)
Lemma store_step_wf st st' : store_step st st' → store_wf st → store_wf st' ∧ events_kept (st_events st) (st_events st').
Proof.
  intros Hs Hwf. destruct Hs.
  - destruct (store_append_spec _ _ _ _ _ _ _ _ _ H1 H0 Hwf) as [Hwf' Hr]. split; [done|]. destruct r; [|by apply wf_kept].
    destruct Hr as [-> _]. apply events_kept_app.
  - destruct (store_import_spec _ _ _ _ _ _ _ _ _ _ _ H1 H0 Hwf) as [Hwf' Hr]. split; [done|]. destruct r; [|by apply wf_kept].
    destruct Hr as (added & -> & _). apply events_kept_app.
  - destruct (store_rebuild_spec _ _ _ _ _ H0 (proj1 Hwf)) as [Ht Hr].
    assert (store_wf st') as Hw by (destruct r; [by destruct Hr|by subst st']). split; [done|by apply wf_kept].
  - destruct (from_connection_spec _ _ _ _ H0 (proj1 Hwf)) as (Ht & Hw & _). split; [done|by apply wf_kept].
Qed.

Lemma store_run_wf st st' : rtc store_step st st' → store_wf st → store_wf st' ∧ events_kept (st_events st) (st_events st').
Proof.
  induction 1 as [st|st1 st2 st3 Hs _ IH]; intros Hwf; [split; [done|by apply wf_kept]|]. destruct (store_step_wf _ _ Hs Hwf) as [Hwf2 Hk].
  destruct (IH Hwf2) as [? Hk']. split; [done|]. by eapply events_kept_trans.
Qed.

Lemma reachable_store_wf st : rtc store_step new_store st → store_wf st.
Proof. intros Hr. by apply (store_run_wf _ _ Hr new_store_wf). Qed.

(** *** Reading back what was written *)

(** An event that is read as it was written: the version that can be read, a payload that decodes to the body, at most one
    reference, since references are read in the order of their columns. *)
Definition reloadable (e : EventEnvelope) : Prop :=
  ev_schema_version e = SCHEMA_V0_1_0 ∧ EventBody_decode_canonical (ev_payload e) = Ok (ev_body e) ∧ (length (ev_refs e) <= 1)%nat.

(** Of the events the store accepts those are such whose body is made of fields the codec reads back. *)
Lemma valid_reloadable {HL : HexLaws H} e :
  valid e → ev_schema_version e = SCHEMA_V0_1_0 → (length (ev_refs e) <= 1)%nat → body_typed (ev_body e) →
  Forall (λ f, value_ok f.2) (EventBody_record (ev_body e)).2 → utf8_error 0 (ev_payload e) = None →
  canonical_form (ev_body e) = ev_body e → reloadable e.
Proof.
  unfold valid, EventEnvelope_validate. intros Hval Hv Hl Ht Hf Hu Hc. do 8 (apply seq_Ok in Hval as [_ Hval]).
  apply seq_Ok in Hval as [Hp _]. destruct (bool_decide _) eqn:E; [|done]. apply bool_decide_eq_true in E.
  split_and!; [done| |done]. rewrite E in *. rewrite decode_encode; [by rewrite Hc|done..].
Qed.

Lemma load_refs_total t es : tables_hold t es → ∃ refs, load_all_event_refs t = Ok refs.
Proof.
  intros Ht. unfold load_all_event_refs.
  assert (Forall (λ x, ∃ y, load_ref x = Ok y) (sort_by ref_row_le (tb_refs t))) as Hall.
  { apply Forall_forall. intros x Hx. rewrite sort_by_perm, (th_refs _ _ Ht) in Hx. apply row_refs_elem in Hx as (e & r & He & Hr & ->).
    pose proof (th_typed _ _ Ht) as Hty. rewrite Forall_forall in Hty. specialize (Hty e He). unfold refs_typed in Hty. rewrite Forall_forall in Hty.
    eexists. by apply load_ref_row, Hty. }
  induction Hall as [|x l [y Hy] _ [ys IH]]; [by eexists|]. cbn. rewrite Hy. cbn. rewrite IH. by eexists.
Qed.

Lemma perm_short {A} (l l' : list A) : l ≡ₚ l' → (length l' <= 1)%nat → l = l'.
Proof.
  intros Hp Hl. destruct l' as [|x [|y l']]; [by apply Permutation_nil_r|by apply Permutation_singleton_r|cbn in Hl; lia].
Qed.

Lemma from_stored_parts_same e :
  EventBody_decode_canonical (ev_payload e) = Ok (ev_body e) → EventEnvelope_validate e = Ok tt →
  from_stored_parts (ev_schema_version e) (ev_event_id e) (ev_event_type e)
    (mkEventSubject (es_kind (ev_subject e)) (es_subject_id (ev_subject e)))
    (mkSignerBinding (mkEventSubject (es_kind (sb_signer (ev_signer_binding e))) (es_subject_id (sb_signer (ev_signer_binding e))))
       (sb_key_id (ev_signer_binding e)) (sb_role (ev_signer_binding e)))
    (ev_signer e) (ev_payload e) (ev_refs e) (ev_signature e) = Ok e.
Proof.
  intros Hd Hval. unfold from_stored_parts. rewrite Hd. destruct e as [sv id ty [sk si] [[k i] key role] signer pl rf sg body].
  cbn [result_bind ev_schema_version ev_event_id ev_event_type ev_subject es_kind es_subject_id ev_signer_binding sb_signer sb_key_id sb_role
    ev_signer ev_payload ev_refs ev_signature ev_body] in *. by rewrite Hval.
Qed.

Lemma cons_eq_inv {A} (x y : A) l k : x :: l = y :: k → x = y ∧ l = k.
Proof. by intros [= -> ->]. Qed.

(** Rows of typed references are equal only for equal references. *)
Lemma ref_rows_inj id l l' :
  Forall (λ r, in_u64 (ref_seq r)) l → Forall (λ r, in_u64 (ref_seq r)) l' → ref_row id <$> l = ref_row id <$> l' → l = l'.
Proof.
  intros Hl. revert l'. induction Hl as [|r l Hr _ IH]; intros [|r' l'] Hl'; try done. rewrite !fmap_cons. intros [E El]%cons_eq_inv. apply Forall_cons in Hl' as [Hr' Hl'].
  f_equal; [|by apply IH]. pose proof (load_ref_row id r Hr) as E1. pose proof (load_ref_row id r' Hr') as E2.
  rewrite E in E1. congruence.
Qed.

Lemma load_reloadable t es : tables_hold t es → Forall valid es → Forall reloadable es → load_events no_faults t = Ok es.
Proof.
  intros Ht Hval Hre. unfold load_events. cbn. destruct (load_refs_total _ _ Ht) as [refs Hr]. rewrite Hr. cbn.
  destruct (load_refs_Ok _ _ _ Ht Hr) as [Hrows Htyped]. rewrite (joined_rows_hold _ _ Ht). apply collect_results_Ok, Forall2_fmap_l.
  apply Forall_Forall2_diag, Forall_forall. intros e He. rewrite Forall_forall in Hre. destruct (Hre e He) as (Hv & Hd & Hlen). rewrite Forall_forall in Hval. specialize (Hval e He).
  assert (snd <$> List.filter (λ x, bool_decide (x.1 = ev_event_id e)) refs = ev_refs e) as Hrefs.
  { pose proof (th_typed _ _ Ht) as Hty. rewrite Forall_forall in Hty. apply (ref_rows_inj (ev_event_id e)); [|by apply Hty|].
    - apply Forall_fmap, Forall_forall. intros x Hx. apply list_elem_of_In, filter_In in Hx as [Hx%list_elem_of_In _].
      rewrite Forall_forall in Htyped. by apply Htyped.
    - rewrite refs_of_rows, Hrows, <-(row_refs_filter es e (th_ids _ _ Ht) He). apply perm_short.
      + apply filter_perm. by rewrite sort_by_perm, (th_refs _ _ Ht).
      + rewrite (row_refs_filter es e (th_ids _ _ Ht) He), length_fmap. done. }
  pose proof wire_names_roundtrip as (_ & _ & _ & Hsk & Hkr & _ & _ & _ & _ & _ & Het).
  unfold compose, load_row, event_row. cbn [er_schema_version er_event_type er_subject_kind er_signer_kind er_signer_role er_event_id
    er_subject_id er_signer_id er_signer_key_id er_signer_public_key er_payload]. rewrite Het, !Hsk, Hkr, Hrefs, Hv.
  assert (SchemaVersion_parse (SchemaVersion_display SCHEMA_V0_1_0) = Some SCHEMA_V0_1_0) as -> by (by vm_compute).
  cbn [ok_or result_bind]. rewrite <-Hv. by apply from_stored_parts_same.
Qed.

(** C12. What an append acknowledged survives whatever follows: after any run of appends, batches, rebuilds and restarts, whatever
    fails in them, the row of the event, its signature and its references are in the tables at the position it was given, the
    store in memory holds the same event there, and finds it by its id. *)
Theorem acknowledged_events_survive f sys st e v a now st1 st2 :
  rtc store_step new_store st → refs_typed e →
  store_append_with_authorizer f sys st e v a now = (Ok tt, st1) → rtc store_step st1 st2 →
  tb_events (st_tables st2) !! length (st_events st) = Some (event_row e)
  ∧ tb_signatures (st_tables st2) !! ev_event_id e = Some (ev_signer e, ev_signature e)
  ∧ List.filter (λ r, bool_decide (rr_event_id r = ev_event_id e)) (tb_refs (st_tables st2)) ≡ₚ ref_row (ev_event_id e) <$> ev_refs e
  ∧ (∃ e', st_events st2 !! length (st_events st) = Some e' ∧ same_event e e')
  ∧ store_has_event st2 (ev_event_id e) = true.
Proof.
  intros Hreach He Hap Hrun. destruct (store_append_spec _ _ _ _ _ _ _ _ _ Hap He (reachable_store_wf _ Hreach)) as [Hwf1 (Ev & _)].
  destruct (store_run_wf _ _ Hrun Hwf1) as [(Ht & Hi & _ & _) (es1 & added & Ev2 & Hsame)].
  assert (st_events st1 !! length (st_events st) = Some e) as Hl by (by rewrite Ev, list_lookup_middle).
  destruct (Forall2_lookup_l _ _ _ _ _ Hsame Hl) as (e' & Hl' & Hs). pose proof (same_event_id _ _ Hs) as Eid.
  assert (st_events st2 !! length (st_events st) = Some e') as Hl2 by (rewrite Ev2; by apply lookup_app_l_Some).
  pose proof Hs as (Erow & Esig & Eref). pose proof (list_elem_of_lookup_2 _ _ _ Hl2) as Hin. split_and!.
  - by rewrite (th_rows _ _ Ht), list_lookup_fmap, Hl2, <-Erow.
  - rewrite <-Eid, (th_signed _ _ Ht e' Hin), Esig. f_equal. f_equal. exact (f_equal er_signer_public_key Erow).
  - rewrite (filter_perm _ _ _ (th_refs _ _ Ht)), <-Eid, (row_refs_filter _ _ (th_ids _ _ Ht) Hin). by rewrite Eref.
  - by exists e'.
  - unfold store_has_event. apply bool_decide_eq_true_2. rewrite Hi. apply indexed_iff. rewrite <-Eid. by apply list_elem_of_fmap_2.
Qed.

(** A call that returns without error. *)
Inductive ok_step : EventStore → EventStore → Prop :=
| ok_append f sys st e v a now st' :
    refs_typed e → store_append_with_authorizer f sys st e v a now = (Ok tt, st') → ok_step st st'
| ok_batch f st peer batch es last v a now n st' :
    Forall refs_typed es → store_import_sync_batch f st peer batch es last v a now = (Ok n, st') → ok_step st st'
| ok_rebuild f st st' : store_rebuild f st = (Ok tt, st') → ok_step st st'
| ok_restart f st st' : from_connection f (st_tables st) = Ok st' → ok_step st st'.

Lemma ok_step_sync st st' : ok_step st st' → store_wf st → in_sync st → store_wf st' ∧ in_sync st'.
Proof.
  intros Hs Hwf Hsy. destruct Hs.
  - destruct (store_append_spec _ _ _ _ _ _ _ _ _ H1 H0 Hwf) as (? & _ & ? & _). auto.
  - destruct (store_import_spec _ _ _ _ _ _ _ _ _ _ _ H1 H0 Hwf) as (? & ? & _ & _ & _ & ?). auto.
  - by destruct (store_rebuild_spec _ _ _ _ _ H0 (proj1 Hwf)) as (_ & ? & ? & _).
  - by destruct (from_connection_spec _ _ _ _ H0 (proj1 Hwf)) as (_ & ? & ? & _).
Qed.

Lemma ok_run_sync st st' : rtc ok_step st st' → store_wf st → in_sync st → store_wf st' ∧ in_sync st'.
Proof.
  induction 1 as [st|st1 st2 st3 Hs _ IH]; [done|]. intros Hwf Hsy. destruct (ok_step_sync _ _ Hs Hwf Hsy). by apply IH.
Qed.

(** C14. A restart gives back the store: after calls that returned without error, opening the tables again yields the very
    same store (its events in order, both indices, the derived state and the file manifests), when the events are of the
    version the reader knows, their payloads decode to their bodies and none has two references. *)
Theorem restart_identity st :
  rtc ok_step new_store st → Forall reloadable (st_events st) → from_connection no_faults (st_tables st) = Ok st.
Proof.
  intros Hr Hre. destruct (ok_run_sync _ _ Hr new_store_wf) as [(Ht & Hi & Hty & Hval) Hsy]; [done|].
  unfold from_connection, store_rebuild. cbn [st_tables]. rewrite (load_reloadable _ _ Ht Hval Hre). cbn [result_bind]. rewrite Hsy.
  cbn. rewrite <-Hi, <-Hty. by destruct st.
Qed.

End Invariants.

(** ** Refinement: the log in memory *)

(** The store keeps no chain heads. *)
Definition erase (s : MaterializedState) : MaterializedState := set_root_chain_heads ∅ s.

Ltac erase_cases :=
  repeat first
    [ reflexivity
    | match goal with
      | |- context [match ?x with _ => _ end] => lazymatch x with context [match _ with _ => _ end] => fail | _ => destruct x; cbn end
      | |- context [if ?x then _ else _] => lazymatch x with context [match _ with _ => _ end] => fail | _ => destruct x; cbn end
      end ].

Section Refinement.
Context {H : HexOps} {J : JsonOps}.

Lemma apply_event_erase s e : apply_event (erase s) e = (let? s' := apply_event s e in Ok (erase s')).
Proof.
  unfold apply_event. destruct (ev_body e) as [];
  try (match goal with |- ?t = _ => let h := head_of t in unfold h end);
  unfold known_root, get_device, get_persona, get_request, approval_threshold, insert_device, put_device, put_request, recompute_derived_trust,
    apply_grant_offer_claimed, apply_grant_offer_revoked, apply_badge_issued,
    apply_badge_revoked, apply_badge_disputed, apply_credential_deposited,
    apply_credential_revoked, result_bind, ok_or, erase, set_root_chain_heads; cbn; try reflexivity.
  all: erase_cases.
Qed.

Lemma storage_erase fm e s : apply_storage_event fm e (erase s) = apply_storage_event fm e s.
Proof. by destruct s. Qed.

Lemma advance_erase s e : erase (advance_chain_head s e) = erase s.
Proof. unfold advance_chain_head. by destruct (EventBody_root_id _). Qed.

(** An authorizer that does not look at the chain heads. *)
Definition heads_unread (a : Authorizer) : Prop := ∀ e s now, authorize_raw a e (erase s) now = authorize_raw a e s now.

Lemma identity_heads_unread : heads_unread IdentityAuthorizer.
Proof. by intros e [] now. Qed.

Lemma insert_refs_total id tb seen refs :
  Forall (λ x, rr_event_id x ≠ id) tb → duplicate_refs seen refs = Ok tt →
  ∃ tb', insert_refs (ref_row id <$> refs) (tb ++ (ref_row id <$> seen)) = Ok tb'.
Proof.
  intros Htb. revert seen. induction refs as [|r refs IH]; intros seen; cbn; [by eexists|]. destruct (existsb _ seen) eqn:Es; [done|]. intros Hd.
  destruct (IH _ Hd) as [tb' Htb']. exists tb'. rewrite fmap_app in Htb'. rewrite existsb_app.
  assert (existsb (same_ref (ref_row id r)) tb = false) as ->.
  { clear -Htb. induction Htb as [|x tb Hx _ IH]; [done|]. cbn. rewrite IH. unfold same_ref. cbn. by rewrite bool_decide_eq_false_2. }
  assert (existsb (same_ref (ref_row id r)) (ref_row id <$> seen) = false) as ->; [|by rewrite <-app_assoc].
  clear -Es. induction seen as [|x seen IH]; [done|]. cbn in *. apply orb_false_iff in Es as [Ex Es]. rewrite (IH Es), orb_false_r.
  unfold same_ref. cbn. rewrite bool_decide_eq_true_2 by done. cbn.
  destruct (bool_decide (ref_target_event_id x = _)) eqn:Et; rewrite ?andb_true_r in Ex.
  - apply bool_decide_eq_true in Et. rewrite (bool_decide_eq_true_2 (ref_target_event_id r = _)) by done. rewrite andb_true_r.
    apply bool_decide_eq_false. apply bool_decide_eq_false in Ex. intros E. apply Ex. by destruct (ref_relation x), (ref_relation r).
  - apply bool_decide_eq_false in Et. rewrite (bool_decide_eq_false_2 (ref_target_event_id r = _)) by congruence. by rewrite andb_false_r.
Qed.

(** A valid event under a new id is written. *)
Lemma persist_event_total f e t es :
  sf_insert f = None → tables_hold t es → valid e → ev_event_id e ∉ ev_event_id <$> es → ∃ t', persist_event f e t = Ok t'.
Proof.
  intros Hf Ht Hval Hid. unfold persist_event. rewrite Hf. cbn. destruct (existsb _ _) eqn:Ed.
  { exfalso. apply Hid. apply existsb_exists in Ed as (r & Hr%list_elem_of_In & Er%bool_decide_eq_true). rewrite (th_rows _ _ Ht) in Hr.
    apply list_elem_of_fmap in Hr as (x & -> & Hx). rewrite <-Er. change (er_event_id (event_row x)) with (ev_event_id x). by apply list_elem_of_fmap_2. }
  assert (∃ tb', insert_refs (ref_row (ev_event_id e) <$> ev_refs e) (tb_refs t) = Ok tb') as [tb' ->].
  { rewrite <-(app_nil_r (tb_refs t)). apply (insert_refs_total _ _ []).
    - apply Forall_forall. intros x Hx E. rewrite (th_refs _ _ Ht) in Hx. apply row_refs_elem in Hx as (y & r & Hy & _ & ->).
      apply Hid. rewrite <-E. apply (list_elem_of_fmap_2 ev_event_id _ _ Hy).
    - unfold valid, EventEnvelope_validate in Hval. do 10 (apply seq_Ok in Hval as [_ Hval]). by apply seq_Ok in Hval as [? _]. }
  cbn. destruct (tb_signatures t !! ev_event_id e) eqn:Es; [|by eexists]. by apply (th_signatures _ _ Ht) in Es.
Qed.

(** An event that passes the checks under a new id is stored when nothing fails. *)
Lemma append_new_stored sys st e v a now m fm :
  store_wf st → accepted v a (effective_now sys now) st e m fm → ev_event_id e ∉ ev_event_id <$> st_events st →
  ∃ t, store_append_with_authorizer no_faults sys st e v a now =
    (Ok tt, mkEventStore t (st_events st ++ [e]) (index_event_id (length (st_events st)) e (st_event_index st))
              (index_event_type (length (st_events st)) e (st_type_index st)) m fm).
Proof.
  intros (Ht & _) (Hval & Hsig & Ha & Hm & Hfm) Hid. destruct (persist_event_total no_faults e _ _ eq_refl Ht Hval Hid) as [t Hp]. exists t.
  unfold store_append_with_authorizer, append_tx. rewrite Hval, Hsig, Ha, Hm, Hp. cbn. rewrite Hfm.
  by destruct (event_affects_materialized_state e), (is_manifest_event e).
Qed.

Fixpoint store_append_all (sys : Z) (st : EventStore) (es : list EventEnvelope) (v : Verifier) (a : Authorizer) (now : Z)
  : verdict * EventStore :=
  match es with
  | [] => (Ok tt, st)
  | e :: es =>
      match store_append_with_authorizer no_faults sys st e v a now with
      | (Err x, st) => (Err x, st)
      | (Ok _, st) => store_append_all sys st es v a now
      end
  end.

(** The store and the log in memory hold the same. *)
Record refines (l : MemoryEventLog) (st : EventStore) : Prop := {
  rf_events : st_events st = ml_events l;
  rf_index : st_event_index st = ml_event_index l;
  rf_types : st_type_index st = ml_type_index l;
  rf_state : st_materialized st = erase (ml_materialized l);
  rf_manifests : st_storage_manifests st = ml_storage_manifests l
}.

Lemma append_refines sys l st e v a now l' :
  heads_unread a → effective_now sys now = clamp_now now → refs_typed e → store_wf st → refines l st →
  ev_event_id e ∉ ev_event_id <$> st_events st → memory_append_with_authorizer l e v a now = (Ok tt, l') →
  ∃ st', store_append_with_authorizer no_faults sys st e v a now = (Ok tt, st') ∧ refines l' st' ∧ store_wf st'.
Proof.
  intros Ha Hnow He Hwf [R1 R2 R3 R4 R5] Hid. unfold memory_append_with_authorizer, append_validated.
  destruct (EventEnvelope_validate e) as [[]|] eqn:Hval; [|done]. destruct (verify_with_context _ _ _ _ _) eqn:Hsig; cbn; [|done].
  destruct (authorize_raw a e _ _) as [[]|] eqn:Hau; [|done]. destruct (check_chain _ _); [|done].
  destruct (apply_event _ _) as [m|] eqn:Hm; [|done]. destruct (apply_storage_event _ _ _) as [fm|] eqn:Hfm; [|done]. intros [= <-].
  assert (accepted v a (effective_now sys now) st e (erase m) fm) as Hacc.
  { unfold accepted. rewrite R4, Hnow, Ha, apply_event_erase, Hm, R5. split_and!; try done. cbn.
    rewrite <-(advance_erase m e), storage_erase. done. }
  destruct (append_new_stored _ _ _ _ _ _ _ _ Hwf Hacc Hid) as [t Hap]. eexists. split; [exact Hap|]. split.
  - split; cbn; [by rewrite R1|by rewrite R1, R2|by rewrite R1, R3|by rewrite advance_erase|done].
  - by destruct (store_append_spec _ _ _ _ _ _ _ _ _ Hap He Hwf).
Qed.

(** C13. The stored log refines the log in memory, under an authorizer that does not read the chain heads (the identity authorizer is
    one) and at a time that both take alike: the store takes no time later than 300 seconds after the system clock, the log in memory none
    after the year 2500, so that a time below both is taken as it is, and a later one may be judged differently. Events under ids of their own,
    with references within their types, that the log in memory accepts one after the other the stored log then accepts too when nothing
    fails, and it holds the same events in the same order with the same indices and file manifests, and the same derived state apart from
    the chain heads. *)
Theorem store_refines_memory sys es v a now l :
  heads_unread a → effective_now sys now = clamp_now now → Forall refs_typed es → NoDup (ev_event_id <$> es) →
  append_all memory_new es v a now = (Ok tt, l) →
  ∃ st, store_append_all sys new_store es v a now = (Ok tt, st) ∧ refines l st.
Proof.
  intros Ha Hnow. assert (∀ l0 st0, store_wf st0 → refines l0 st0 → Forall refs_typed es → NoDup ((ev_event_id <$> st_events st0) ++ (ev_event_id <$> es)) →
    append_all l0 es v a now = (Ok tt, l) → ∃ st, store_append_all sys st0 es v a now = (Ok tt, st) ∧ refines l st) as Hgen.
  { induction es as [|e es IH]; intros l0 st0 Hwf Hr Hty Hnd; cbn; [intros [= ->]; by exists st0|].
    apply Forall_cons in Hty as [He Hty]. destruct (memory_append_with_authorizer l0 e v a now) as [[[]|] l1] eqn:Hap; [|done]. intros Hrest.
    destruct (append_refines sys l0 st0 e v a now l1 Ha Hnow He Hwf Hr) as (st1 & Hst & Hr1 & Hwf1); [|done|].
    { cbn in Hnd. apply NoDup_app in Hnd as (_ & Hnd & _). intros Hin. apply (Hnd _ Hin). by left. }
    rewrite Hst. apply (IH l1 st1); try done. destruct (store_append_spec _ _ _ _ _ _ _ _ _ Hst He Hwf) as [_ [-> _]].
    rewrite fmap_app, <-app_assoc. done. }
  intros Hty Hnd. apply Hgen; [apply new_store_wf|by split|done|done].
Qed.

End Refinement.

(** ** What a store cannot be opened with *)

Section Opening.
Context {H : HexOps} {J : JsonOps}.

(** What the reader makes of a row before it looks at the references. *)
Definition row_body (r : EventRow) : result EventBody ValidationError :=
  let? _ := ok_or (SchemaVersion_parse (er_schema_version r)) (VE.new "unsupported schema version in sqlite") in
  EventBody_decode_canonical (er_payload r).

(** Rows that no replay gets through. *)
Definition doomed (rs : list EventRow) : Prop :=
  ∀ es, Forall2 (λ r e, row_body r = Ok (ev_body e)) rs es → ∃ x, replay_stored empty_state ∅ es = Err x.

Lemma doomed_app rs rs' : doomed rs → doomed (rs ++ rs').
Proof.
  intros Hd es Hes. apply Forall2_app_inv_l in Hes as (es1 & es2 & H1 & _ & ->). destruct (Hd _ H1) as [x Hx]. exists x.
  by rewrite replay_stored_app, Hx.
Qed.

Lemma unreadable_doomed rs r : r ∈ rs → (∃ x, row_body r = Err x) → doomed rs.
Proof.
  intros [i Hi]%list_elem_of_lookup [x Hx] es Hes. destruct (Forall2_lookup_l _ _ _ _ _ Hes Hi) as (e & _ & E). by rewrite Hx in E.
Qed.

Lemma apply_event_body s e e' : ev_body e = ev_body e' → apply_event s e = apply_event s e'.
Proof. intros E. unfold apply_event. by rewrite E. Qed.

Lemma apply_storage_body fm e e' s : ev_body e = ev_body e' → apply_storage_event fm e s = apply_storage_event fm e' s.
Proof. intros E. unfold apply_storage_event. by rewrite E. Qed.

Lemma replay_bodies m fm es es' : ev_body <$> es = ev_body <$> es' → replay_stored m fm es = replay_stored m fm es'.
Proof.
  revert m fm es'. induction es as [|e es IH]; intros m fm [|e' es'] Hb; try done. rewrite !fmap_cons in Hb. apply cons_eq_inv in Hb as [He Hb].
  cbn. rewrite (apply_event_body _ _ _ He). destruct (apply_event m e') as [m1|]; [cbn|done]. rewrite (apply_storage_body _ _ _ _ He).
  destruct (apply_storage_event fm e' m1); [cbn; by apply IH|done].
Qed.

Lemma doomed_never_opens f t es : tables_hold t es → doomed (tb_events t) → ∃ x, from_connection f t = Err x.
Proof.
  intros Ht Hd. destruct (from_connection f t) as [st|x] eqn:Ef; [|by exists x]. exfalso.
  destruct (from_connection_spec _ _ _ _ Ef Ht) as (_ & _ & Hsy & Hre). destruct (Hd (st_events st)) as [x Hx].
  - rewrite (th_rows _ _ Ht). apply Forall2_fmap_l. eapply Forall2_impl; [exact Hre|]. intros e e' (Hrow & _ & Hb & _ & Hv).
    unfold compose, row_body. rewrite <-Hrow. cbn. rewrite Hv. cbn. assert (ev_payload e' = ev_payload e) as -> by exact (f_equal er_payload Hrow). done.
  - unfold in_sync in Hsy. congruence.
Qed.

(** Once the rows are doomed the store is never opened again. *)
Lemma doomed_for_ever st st' f :
  store_wf st → doomed (tb_events (st_tables st)) → rtc store_step st st' → ∃ x, from_connection f (st_tables st') = Err x.
Proof.
  intros Hwf Hd Hr. destruct (store_run_wf _ _ Hr Hwf) as [(Ht' & _) (es1 & added & Ev & Hs)].
  apply (doomed_never_opens _ _ _ Ht'). rewrite (th_rows _ _ Ht'), Ev, fmap_app. apply doomed_app.
  assert (event_row <$> es1 = tb_events (st_tables st)) as ->; [|done]. rewrite (th_rows _ _ (proj1 Hwf)). clear -Hs.
  induction Hs as [|e e' es es' (He & _) _ IH]; [done|]. cbn. by rewrite He, IH.
Qed.

(** An event the store acknowledged and its reader cannot read keeps the store shut: a version other than 0.1.0 or a payload
    that does not decode passes the checks of an append and is stored, and whatever is done afterwards no opening succeeds. *)
Theorem unreadable_event_bricks_store f sys st e v a now st1 st2 f2 :
  rtc store_step new_store st → refs_typed e → store_append_with_authorizer f sys st e v a now = (Ok tt, st1) →
  SchemaVersion_parse (SchemaVersion_display (ev_schema_version e)) = None ∨ (∃ x, EventBody_decode_canonical (ev_payload e) = Err x) →
  rtc store_step st1 st2 → ∃ x, from_connection f2 (st_tables st2) = Err x.
Proof.
  intros Hr He Hap Hun Hrun. destruct (store_append_spec _ _ _ _ _ _ _ _ _ Hap He (reachable_store_wf _ Hr)) as [Hwf (Ev & _)].
  apply (doomed_for_ever _ _ _ Hwf); [|done]. apply (unreadable_doomed _ (event_row e)).
  - rewrite (th_rows _ _ (proj1 Hwf)). apply list_elem_of_fmap_2. rewrite Ev. apply elem_of_app. right. by left.
  - unfold row_body. cbn. destruct Hun as [->|[x Hx]]; [by eexists|]. destruct (SchemaVersion_parse _); [|by eexists]. by exists x.
Qed.

Definition decodes (e : EventEnvelope) : Prop := row_body (event_row e) = Ok (ev_body e).

(** C39. What an append refused takes effect all the same: when the transaction fails (a failing statement, or an event id that is
    taken) the call returns the error and the tables are as before, but the derived state keeps the effect of the event. An event
    that needs this effect is then accepted and stored, and afterwards no opening of the store succeeds. *)
Theorem refused_event_takes_effect f sys st e v a now m fm x e2 m2 fm2 y :
  rtc ok_step new_store st → Forall decodes (st_events st) → decodes e2 → refs_typed e2 →
  accepted v a (effective_now sys now) st e m fm → append_tx f e (st_tables st) = Err x →
  ev_event_id e2 ∉ store_event_ids st → apply_event (st_materialized st) e2 = Err y →
  accepted v a (effective_now sys now) (with_derived m fm st) e2 m2 fm2 →
  ∃ st2, store_append_with_authorizer f sys st e v a now = (Err x, with_derived m fm st)
    ∧ store_append_with_authorizer no_faults sys (with_derived m fm st) e2 v a now = (Ok tt, st2)
    ∧ ∀ st3 f3, rtc store_step st2 st3 → ∃ z, from_connection f3 (st_tables st3) = Err z.
Proof.
  intros Hr Hdec He2 Hty Hacc Htx Hid Hneed Hacc2. destruct (ok_run_sync _ _ Hr new_store_wf) as [Hwf Hsy]; [done|].
  assert (store_wf (with_derived m fm st)) as Hwf1 by done. destruct (append_new_stored sys _ _ _ _ _ _ _ Hwf1 Hacc2 Hid) as [t Hap].
  eexists. split; [|split; [exact Hap|]].
  - destruct Hacc as (Hv & Hs & Ha & Hm & Hf). unfold store_append_with_authorizer. rewrite Hv, Hs, Ha, Hm. cbn. by rewrite Hf, Htx.
  - intros st3 f3 Hrun. destruct (store_append_spec _ _ _ _ _ _ _ _ _ Hap Hty Hwf1) as [Hwf2 (Ev & _)].
    apply (doomed_for_ever _ _ _ Hwf2); [|done]. intros es Hes. rewrite (th_rows _ _ (proj1 Hwf2)), Ev in Hes. exists y.
    assert (ev_body <$> es = ev_body <$> (st_events st ++ [e2])) as Eb.
    { assert (Forall decodes (st_events st ++ [e2])) as Hall by (apply Forall_app_2; [done|by constructor]).
      clear -Hes Hall. cbn [st_events with_derived] in Hes. apply Forall2_fmap_l in Hes. induction Hes as [|e1 e2' es1 es2 Hx _ IH]; [done|].
      apply Forall_cons in Hall as [Hd Hall]. cbn. rewrite IH by done. unfold decodes in Hd. unfold compose in Hx. f_equal. congruence. }
    rewrite (replay_bodies _ _ _ _ Eb), replay_stored_app, Hsy. cbn. by rewrite Hneed.
Qed.

(** *** The chain *)

Lemma replay_heads m fm es m' fm' : replay_stored m fm es = Ok (m', fm') → root_chain_heads m' = root_chain_heads m.
Proof.
  revert m fm. induction es as [|e es IH]; intros m fm; cbn; [by intros [= -> ->]|]. intros (m1 & Hm & Hr)%result_bind_Ok.
  apply result_bind_Ok in Hr as (fm1 & _ & Hr). by rewrite (IH _ _ Hr), (apply_event_heads _ _ _ Hm).
Qed.

Definition no_heads (st : EventStore) : Prop := root_chain_heads (st_materialized st) = ∅.

Lemma rebuild_heads f st r st' : store_rebuild f st = (r, st') → no_heads st → no_heads st'.
Proof.
  unfold store_rebuild. destruct (let? es := _ in _) as [[es [m fm]]|] eqn:E; intros [= <- <-]; [|done]. intros _.
  apply result_bind_Ok in E as (es1 & _ & E). apply result_bind_Ok in E as ([m1 fm1] & Hr & E). apply seq_Ok in E as [_ [= -> -> ->]].
  by apply replay_heads in Hr.
Qed.

Lemma derived_heads m fm st e : no_heads st → apply_event (st_materialized st) e = Ok m → no_heads (with_derived m fm st).
Proof. unfold no_heads. cbn. intros Hn ->%apply_event_heads. done. Qed.

Lemma rebuild_then_heads {A} f x st (r : result A ValidationError) st' : rebuild_then f x st = (r, st') → no_heads st → no_heads st'.
Proof. unfold rebuild_then. destruct (store_rebuild f st) as [[u|y] st1] eqn:E; intros [= <- <-]; by eapply rebuild_heads. Qed.

Lemma import_loop_heads f v a now st imported es r st' :
  store_import_loop f v a now st imported es = (r, st') → no_heads st → no_heads st'.
Proof.
  revert st imported. induction es as [|e es IH]; intros st imported; cbn; [by intros [= <- <-]|].
  destruct (EventEnvelope_validate e); [|by intros [= <- <-]]. destruct (negb _); [apply rebuild_then_heads|]. destruct (_ || _); [apply IH|].
  destruct (authorize _ _ _ _); [|apply rebuild_then_heads]. destruct (apply_event _ _) as [m|] eqn:Hm; [|apply rebuild_then_heads].
  destruct (apply_storage_event _ _ _) as [fm|]; intros Hl Hn; [eapply IH|eapply rebuild_then_heads]; [exact Hl| |exact Hl|]; by eapply derived_heads.
Qed.

Lemma step_heads st st' : store_step st st' → no_heads st → no_heads st'.
Proof.
  intros [f sys st0 e v a now r st1 _ Hap|f st0 peer batch es last v a now r st1 _ Hb|f st0 r st1 Hr|f st0 st1 Ho] Hn.
  - destruct (store_append_cases _ _ _ _ _ _ _ _ _ Hap) as [(x & -> & ->)|(m & fm & (_ & _ & _ & Hm & _) & Hc)]; [done|].
    pose proof (derived_heads m fm _ _ Hn Hm) as Hn'. destruct Hc as [(x & _ & _ & ->)|(t & _ & Hc)]; [done|].
    destruct (sf_commit f); destruct Hc as [_ ->]; [|done]. destruct (store_rebuild f _) as [r' st2] eqn:Er. by eapply rebuild_heads.
  - unfold store_import_sync_batch in Hb. destruct (store_import_loop f v a now st0 [] es) as [[imported|x] st2] eqn:El;
      apply import_loop_heads in El; try done; [|by injection Hb as <- <-].
    destruct (import_tx _ _ _ _ _ _); [|by injection Hb as <- <-]. destruct (sf_commit f); [by eapply rebuild_then_heads|]. by injection Hb as <- <-.
  - by eapply rebuild_heads.
  - unfold from_connection in Ho. destruct (store_rebuild f _) as [[u|] st2] eqn:Er; [|done]. injection Ho as <-. by eapply rebuild_heads.
Qed.

Lemma run_heads st st' : rtc store_step st st' → no_heads st → no_heads st'.
Proof. induction 1 as [st|st1 st2 st3 Hs _ IH]; [done|]. intros Hn. apply IH. by eapply step_heads. Qed.

Definition with_refs (refs : list EventRef) (e : EventEnvelope) : EventEnvelope :=
  mkEventEnvelope (ev_schema_version e) (ev_event_id e) (ev_event_type e) (ev_subject e) (ev_signer_binding e) (ev_signer e) (ev_payload e)
    refs (ev_signature e) (ev_body e).

Definition with_signature (signature : string) (e : EventEnvelope) : EventEnvelope :=
  mkEventEnvelope (ev_schema_version e) (ev_event_id e) (ev_event_type e) (ev_subject e) (ev_signer_binding e) (ev_signer e) (ev_payload e)
    (ev_refs e) signature (ev_body e).

(** The stored log does not look at the chain of a root: it keeps no chain heads whatever is done with it, and where it accepts an
    event it accepts it with any other valid references in place of its own, signed by the same key: with none, with another
    predecessor or another sequence number, though the log in memory refuses these. *)
Theorem store_ignores_chain sys st e v now st1 refs signature :
  rtc store_step new_store st →
  refs_typed e → store_append_with_authorizer no_faults sys st e v IdentityAuthorizer now = (Ok tt, st1) →
  let e' := with_signature signature (with_refs refs e) in
  try_for_each EventRef_validate refs = Ok tt → duplicate_refs [] refs = Ok tt →
  verify_with_context DOMAIN_EVENT v (ev_signer e') (signed_bytes e') (ev_signature e') = true →
  no_heads st1 ∧
  ∃ st1', store_append_with_authorizer no_faults sys st e' v IdentityAuthorizer now = (Ok tt, st1')
    ∧ st_events st1' = st_events st ++ [e'] ∧ st_materialized st1' = st_materialized st1 ∧ st_storage_manifests st1' = st_storage_manifests st1.
Proof.
  intros Hr Hty Hap e' Hv1 Hv2 Hsig. split; [eapply run_heads; [eapply rtc_r; [exact Hr|by eapply step_append]|done]|].
  pose proof (reachable_store_wf _ Hr) as Hwf. destruct (store_append_spec _ _ _ _ _ _ _ _ _ Hap Hty Hwf) as [Hwf1 (Ev & _ & m & fm & Hacc & -> & ->)].
  destruct Hacc as (Hval & _ & Ha & Hm & Hfm). destruct (append_new_stored sys st e' v IdentityAuthorizer now m fm Hwf) as [t Ht].
  - split_and!; try done. unfold EventEnvelope_validate in *. cbn [ev_event_id ev_payload ev_subject ev_signer_binding ev_body ev_event_type ev_refs e' with_signature with_refs].
    do 9 (apply seq_Ok in Hval as [Hx Hval]; rewrite Hx; clear Hx; cbn [result_bind]). by rewrite Hv1, Hv2.
  - intros Hin. destruct Hwf1 as (Ht1 & _). pose proof (th_ids _ _ Ht1) as Hnd. rewrite Ev, fmap_app in Hnd. apply NoDup_app in Hnd as (_ & Hd & _).
    apply (Hd _ Hin). by left.
  - eexists. split; [exact Ht|]. done.
Qed.

Lemma store_append_all_run sys st es v a now st' :
  store_append_all sys st es v a now = (Ok tt, st') → Forall refs_typed es → rtc ok_step st st'.
Proof.
  revert st. induction es as [|e es IH]; intros st; cbn; [by intros [= ->]|]. destruct (store_append_with_authorizer _ _ _ _ _ _ _) as [[[]|] st1] eqn:Hap; [|done].
  intros Hr [He Hes]%Forall_cons. eapply rtc_l; [by eapply ok_append|by apply IH].
Qed.

Lemma ok_step_step st st' : ok_step st st' → store_step st st'.
Proof. intros []; [eapply step_append|eapply step_batch|eapply step_rebuild|eapply step_restart]; eauto. Qed.

Lemma ok_run_run st st' : rtc ok_step st st' → rtc store_step st st'.
Proof. induction 1; [done|]. eapply rtc_l; [by apply ok_step_step|done]. Qed.

End Opening.

(** ** Witnesses *)

#[local] Existing Instance demo_hex.
#[local] Existing Instance no_json.

Definition stored (es : list EventEnvelope) : EventStore :=
  (store_append_all 100 new_store es sample_verifier IdentityAuthorizer 100).2.

Lemma sample_typed : Forall refs_typed sample_setup.
Proof. repeat constructor; cbn; unfold in_u64, u64_max; lia. Qed.

Lemma stored_setup_Ok : store_append_all 100 new_store sample_setup sample_verifier IdentityAuthorizer 100 = (Ok tt, stored sample_setup).
Proof. assert ((store_append_all 100 new_store sample_setup sample_verifier IdentityAuthorizer 100).1 = Ok tt) as <- by (by vm_compute). apply surjective_pairing. Qed.

Lemma stored_genesis_Ok : store_append_all 100 new_store [sample_genesis] sample_verifier IdentityAuthorizer 100 = (Ok tt, stored [sample_genesis]).
Proof. assert ((store_append_all 100 new_store [sample_genesis] sample_verifier IdentityAuthorizer 100).1 = Ok tt) as <- by (by vm_compute). apply surjective_pairing. Qed.

Lemma genesis_run : rtc ok_step new_store (stored [sample_genesis]).
Proof. eapply store_append_all_run; [exact stored_genesis_Ok|]. repeat constructor. Qed.

Lemma genesis_append :
  store_append_with_authorizer no_faults 100 new_store sample_genesis sample_verifier IdentityAuthorizer 100 = (Ok tt, stored [sample_genesis]).
Proof.
  pose proof stored_genesis_Ok as Hs. cbn [store_append_all] in Hs.
  destruct (store_append_with_authorizer _ _ _ _ _ _ _) as [[[]|] st]; congruence.
Qed.

(** The commit of the next event fails and the store is opened again. *)
Definition failed_commit : StoreFaults := mkStoreFaults None None None None None None (Some "disk full") None None.

Definition sample_device : EventEnvelope :=
  sample_event "e1" (DeviceAdded (mkDeviceAdded "a" "d" "Laptop" (sample_key "d") (sample_enc_key "d"))) [EventRef_previous "e0" 1] by_root "pub-a".

Definition after_failure : EventStore :=
  (store_append_with_authorizer failed_commit 100 (stored [sample_genesis]) sample_device sample_verifier IdentityAuthorizer 100).2.

Lemma failure_run : rtc store_step (stored [sample_genesis]) after_failure.
Proof.
  apply rtc_once. eapply step_append; [|apply surjective_pairing]. repeat constructor; cbn; unfold in_u64, u64_max; lia.
Qed.

Lemma acknowledged_events_survive_witness :
  length (st_events after_failure) = 1%nat ∧ store_has_event after_failure "e0" = true.
Proof.
  split; [by vm_compute|].
  exact (proj2 (proj2 (proj2 (proj2 (acknowledged_events_survive no_faults 100 new_store sample_genesis sample_verifier IdentityAuthorizer 100
    (stored [sample_genesis]) after_failure (rtc_refl _ _) (Forall_nil_2 _) genesis_append failure_run))))).
Defined.

Lemma stored_setup_events : st_events (stored sample_setup) = sample_setup.
Proof. by vm_compute. Qed.

Lemma setup_reloadable : Forall reloadable sample_setup.
Proof. repeat (apply Forall_cons; split; [unfold reloadable; split_and!; [done|by vm_compute|cbn; lia]|]). by apply Forall_nil. Qed.

Lemma restart_identity_witness :
  length (st_events (stored sample_setup)) = 4%nat ∧ from_connection no_faults (st_tables (stored sample_setup)) = Ok (stored sample_setup).
Proof.
  split; [by rewrite stored_setup_events|]. apply restart_identity.
  - exact (store_append_all_run _ _ _ _ _ _ _ stored_setup_Ok sample_typed).
  - rewrite stored_setup_events. exact setup_reloadable.
Defined.

Lemma store_refines_memory_witness :
  ∃ st, store_append_all 100 new_store sample_setup sample_verifier IdentityAuthorizer 100 = (Ok tt, st) ∧ refines (sample_log sample_setup).2 st.
Proof.
  apply (store_refines_memory 100 sample_setup sample_verifier IdentityAuthorizer 100 (sample_log sample_setup).2).
  - exact identity_heads_unread.
  - by vm_compute.
  - exact sample_typed.
  - apply (bool_decide_eq_true_1 (NoDup _)). by vm_compute.
  - assert ((sample_log sample_setup).1 = Ok tt) as <- by (by vm_compute). apply surjective_pairing.
Defined.

(** An event of a later version. *)
Definition sample_newer : EventEnvelope :=
  mkEventEnvelope (0, 2, 0) (ev_event_id sample_genesis) (ev_event_type sample_genesis) (ev_subject sample_genesis) (ev_signer_binding sample_genesis)
    (ev_signer sample_genesis) (ev_payload sample_genesis) [] "sig" (ev_body sample_genesis).

Lemma newer_append :
  store_append_with_authorizer no_faults 100 new_store sample_newer sample_verifier IdentityAuthorizer 100 = (Ok tt, stored [sample_newer]).
Proof.
  assert ((store_append_with_authorizer no_faults 100 new_store sample_newer sample_verifier IdentityAuthorizer 100).1 = Ok tt) as Hs by (by vm_compute).
  unfold stored. cbn [store_append_all]. destruct (store_append_with_authorizer _ _ _ _ _ _ _) as [[[]|] st]; [done|by cbn in Hs].
Qed.

Lemma unreadable_event_bricks_store_witness :
  length (st_events (stored [sample_newer])) = 1%nat ∧ ∃ x, from_connection no_faults (st_tables (stored [sample_newer])) = Err x.
Proof.
  split; [by vm_compute|].
  apply (unreadable_event_bricks_store no_faults 100 new_store sample_newer sample_verifier IdentityAuthorizer 100 (stored [sample_newer])
           (stored [sample_newer]) no_faults (rtc_refl _ _) (Forall_nil_2 _) newer_append); [left; by vm_compute|apply rtc_refl].
Defined.

(** The insertion of the device fails; the revocation of the device that follows is accepted. *)
Definition failed_insert : StoreFaults := mkStoreFaults None (Some "disk full") None None None None None None None.

Definition applied (st : EventStore) (e : EventEnvelope) : MaterializedState :=
  match apply_event (st_materialized st) e with Ok m => m | Err _ => empty_state end.

Definition sample_revocation : EventEnvelope :=
  sample_event "e4" (DeviceRevoked (mkDeviceRevoked "a" "d" "lost")) [EventRef_previous "e1" 2] by_root "pub-a".

Definition is_Ok {A E} (r : result A E) : bool := match r with Ok _ => true | Err _ => false end.

Lemma accepted_sample st e :
  is_Ok (EventEnvelope_validate e) && verify_with_context DOMAIN_EVENT sample_verifier (ev_signer e) (signed_bytes e) (ev_signature e)
  && is_Ok (authorize_raw IdentityAuthorizer e (st_materialized st) (effective_now 100 100)) && is_Ok (apply_event (st_materialized st) e)
  && negb (is_manifest_event e) = true →
  accepted sample_verifier IdentityAuthorizer (effective_now 100 100) st e (applied st e) (st_storage_manifests st).
Proof.
  intros [[[[Hv Hs]%andb_true_iff Ha]%andb_true_iff Hm]%andb_true_iff Hn]%andb_true_iff. unfold accepted, applied. split_and!; try done.
  - destruct (EventEnvelope_validate e) as [[]|]; done.
  - destruct (authorize_raw _ _ _ _) as [[]|]; done.
  - by destruct (apply_event _ _).
  - unfold apply_storage_event, is_manifest_event in *. by destruct (ev_body e).
Qed.

Definition phantom : EventStore := with_derived (applied (stored [sample_genesis]) sample_device) ∅ (stored [sample_genesis]).

Lemma refused_event_takes_effect_witness :
  ∃ x st2, store_append_with_authorizer failed_insert 100 (stored [sample_genesis]) sample_device sample_verifier IdentityAuthorizer 100 = (Err x, phantom)
    ∧ store_append_with_authorizer no_faults 100 phantom sample_revocation sample_verifier IdentityAuthorizer 100 = (Ok tt, st2)
    ∧ ∀ st3 f3, rtc store_step st2 st3 → ∃ z, from_connection f3 (st_tables st3) = Err z.
Proof.
  exists (VE.new "insert event row: disk full").
  refine (refused_event_takes_effect failed_insert 100 (stored [sample_genesis]) sample_device sample_verifier IdentityAuthorizer 100
            (applied (stored [sample_genesis]) sample_device) ∅ (VE.new "insert event row: disk full") sample_revocation (applied phantom sample_revocation) ∅
            _ genesis_run _ _ _ _ _ _ _ _).
  - assert (st_events (stored [sample_genesis]) = [sample_genesis]) as -> by (by vm_compute). constructor; [|constructor]. unfold decodes. by vm_compute.
  - unfold decodes. by vm_compute.
  - repeat constructor; cbn; unfold in_u64, u64_max; lia.
  - apply (accepted_sample (stored [sample_genesis])). by vm_compute.
  - by vm_compute.
  - apply (bool_decide_eq_true_1 (_ ∉ _)). by vm_compute.
  - by vm_compute.
  - apply (accepted_sample phantom). by vm_compute.
Defined.

(** The log in memory refuses a second event of the root without its predecessor. *)
Lemma store_ignores_chain_witness :
  let e' := with_signature "sig" (with_refs [] sample_device) in
  (∃ x, check_chain (ml_materialized (sample_log [sample_genesis]).2) e' = Err x)
  ∧ ∃ st1', store_append_with_authorizer no_faults 100 (stored [sample_genesis]) e' sample_verifier IdentityAuthorizer 100 = (Ok tt, st1')
    ∧ st_events st1' = st_events (stored [sample_genesis]) ++ [e'].
Proof.
  intros e'. split; [eexists; by vm_compute|].
  destruct (store_append_with_authorizer no_faults 100 (stored [sample_genesis]) sample_device sample_verifier IdentityAuthorizer 100) as [r st1] eqn:Hap.
  assert (r = Ok tt) as ->.
  { change r with (r, st1).1. rewrite <-Hap. by vm_compute. }
  destruct (store_ignores_chain 100 (stored [sample_genesis]) sample_device sample_verifier 100 st1 [] "sig" (ok_run_run _ _ genesis_run)) as (_ & st1' & H1 & H2 & _);
    [repeat constructor; cbn; unfold in_u64, u64_max; lia|exact Hap|done|done|by vm_compute|].
  by exists st1'.
Defined.

(** The text form does not carry the sequence numbers: what was signed with one is read back with zero. *)
Definition text_store : EventStore := (@store_append_all toy_hex_ops no_json 100 new_store text_events sample_verifier IdentityAuthorizer 100).2.

Definition reimported : result nat ValidationError * EventStore :=
  @store_import_events toy_hex_ops no_json (λ _, (no_faults, 100)) new_store (@store_export_events toy_hex_ops text_store) sample_verifier IdentityAuthorizer 100.

Lemma export_drops_seq :
  (λ e, ref_seq <$> ev_refs e) <$> st_events text_store = [[]; [1]] ∧ (λ e, ref_seq <$> ev_refs e) <$> st_events reimported.2 = [[]; [0]].
Proof. split; vm_compute; reflexivity. Qed.
