(* ===== verification/StateGrants.v ===== *)
(** * The access grants of the event store

    The part of crates/core-state/src/lib.rs that keeps access grants beside the event log: creating, editing, revoking, renewing and
    touching a grant, its history, the listings, and the check of its chain; the tables are those of crates/core-state/src/persist.rs.
    The columns with the blocks and the attestation as JSON hold the values themselves, as reading gives back what was written. A
    grant and its history entry are two statements outside of a transaction, each of which can fail. *)

From stdpp Require Import base gmap sets list strings relations.
From Stdlib Require Import Ascii Lia ZArith.
From S2P Require Import Prelude Glob CoreTypes Numbers GrantTypes Attenuation ChainCrypto EventTypes LogTypes StoredLog.

Local Infix "+:+" := String.append (at level 60, right associativity).
Local Open Scope Z_scope.

(** ** Rows *)

Definition PresentationAudienceKind_as_str (k : PresentationAudienceKind) : string := match k with Peer => "peer" | Service => "service" end.
Definition PresentationAudienceKind_parse (value : string) : option PresentationAudienceKind :=
  if bool_decide (value = "peer") then Some Peer else if bool_decide (value = "service") then Some Service else None.

Record StoredGrant := mkStoredGrant {
  sg_grant_id : string; sg_version : Z; sg_issuing_persona_id : string; sg_recipient_kind : string; sg_recipient_id : string;
  sg_recipient_profile : string; sg_status : string; sg_mode : string; sg_blocks : list SignedBlock; sg_label : option string;
  sg_created_at : Z; sg_updated_at : Z; sg_expires_at : option Z; sg_revoked_at : option Z; sg_revoked_reason : option string;
  sg_last_used_at : option Z; sg_resource_types_csv : string; sg_attestation : AttestationBinding }.

Record AccessGrantHistoryEntry := mkHistoryEntry {
  he_history_id : string; he_grant_id : string; he_version : Z; he_action : string; he_timestamp : Z;
  he_blocks_snapshot : option (list SignedBlock); he_note : option string }.

(** The tables access_grants and access_grant_history, in the order of insertion. *)
Record GrantStore := mkGrantStore { gt_grants : list StoredGrant; gt_history : list AccessGrantHistoryEntry }.

(** The clock, the identifier drawn for a history entry, and the statements that fail, with the text of the error. *)
Record GrantEnv := mkGrantEnv {
  ge_now : Z; ge_history_id : string; ge_load : option string; ge_write : option string; ge_write_history : option string }.

Definition persisted_status (s : GrantStatus) : string :=
  match s with Revoked => "revoked" | ExhaustedByBudget => "exhausted_by_budget" | Paused => "paused" | _ => "active" end.

Definition grant_row (g : AccessGrant) : StoredGrant :=
  mkStoredGrant (g_id g) (g_version g) (g_issuing_persona_id g) (PresentationAudienceKind_as_str (g_recipient_kind g)) (g_recipient_id g)
    (RecipientProfile_as_str (g_recipient_profile g)) (persisted_status (g_status g)) (GrantMode_as_str (g_mode g)) (g_blocks g) (g_label g)
    (seq_as_i64 (g_created_at g)) (seq_as_i64 (g_updated_at g)) (seq_as_i64 <$> effective_expires_at g) (seq_as_i64 <$> g_revoked_at g)
    (g_revoked_reason g) (seq_as_i64 <$> g_last_used_at g) (str_join "," (ResourceType_as_str <$> resource_types g)) (g_attestation g).

(** ON CONFLICT(grant_id) DO UPDATE: the issuer, the recipient and the time of creation stay. *)
Definition update_grant_row (old new : StoredGrant) : StoredGrant :=
  mkStoredGrant (sg_grant_id old) (sg_version new) (sg_issuing_persona_id old) (sg_recipient_kind old) (sg_recipient_id old)
    (sg_recipient_profile old) (sg_status new) (sg_mode new) (sg_blocks new) (sg_label new) (sg_created_at old) (sg_updated_at new)
    (sg_expires_at new) (sg_revoked_at new) (sg_revoked_reason new) (sg_last_used_at new) (sg_resource_types_csv new) (sg_attestation new).

Fixpoint upsert_grant (new : StoredGrant) (rows : list StoredGrant) : list StoredGrant :=
  match rows with
  | [] => [new]
  | r :: rows => if bool_decide (sg_grant_id r = sg_grant_id new) then update_grant_row r new :: rows else r :: upsert_grant new rows
  end.

Definition write_access_grant (env : GrantEnv) (g : AccessGrant) (s : GrantStore) : result GrantStore ValidationError :=
  failing (ge_write env) "write access grant" ;?
  Ok (mkGrantStore (upsert_grant (grant_row g) (gt_grants s)) (gt_history s)).

Definition write_access_grant_history (env : GrantEnv) (e : AccessGrantHistoryEntry) (s : GrantStore) : result GrantStore ValidationError :=
  failing (ge_write_history env) "write access grant history" ;?
  if existsb (λ x, bool_decide (he_history_id x = he_history_id e)) (gt_history s)
  then Err (VE.new "write access grant history: UNIQUE constraint failed: access_grant_history.history_id")
  else Ok (mkGrantStore (gt_grants s)
             (gt_history s ++ [mkHistoryEntry (he_history_id e) (he_grant_id e) (he_version e) (he_action e) (seq_as_i64 (he_timestamp e))
                                 (he_blocks_snapshot e) (he_note e)])).

Definition row_to_access_grant (r : StoredGrant) (now : Z) : AccessGrant :=
  let nb := iter_max (omap (λ sb, nbf (block sb)) (sg_blocks r)) in
  mkGrant (sg_grant_id r) (sg_version r mod 2 ^ 32) (sg_issuing_persona_id r)
    (default Service (PresentationAudienceKind_parse (sg_recipient_kind r))) (sg_recipient_id r)
    (default RP_Human (RecipientProfile_parse (sg_recipient_profile r)))
    (GrantStatus_derive (sg_status r) nb (seq_as_u64 <$> sg_expires_at r) now) (default OneShot (GrantMode_parse (sg_mode r)))
    (sg_blocks r) (sg_attestation r) (seq_as_u64 (sg_created_at r)) (seq_as_u64 (sg_updated_at r)) (seq_as_u64 <$> sg_revoked_at r)
    (sg_revoked_reason r) (seq_as_u64 <$> sg_last_used_at r) (sg_label r).

Definition grant_row_of (grant_id : string) (s : GrantStore) : option StoredGrant :=
  List.find (λ r, bool_decide (sg_grant_id r = grant_id)) (gt_grants s).

Definition load_access_grant (env : GrantEnv) (grant_id : string) (s : GrantStore) : result (option AccessGrant) ValidationError :=
  failing (ge_load env) "load access grant" ;? Ok ((λ r, row_to_access_grant r (ge_now env)) <$> grant_row_of grant_id s).

(** ** The coarse attenuation of an edit *)

(** The same loop as [glob_matches]. *)
Definition parent_glob_covers_exact (pattern value : string) : bool := glob_matches_on (to_bytes pattern) (to_bytes value).

Definition resource_covers (parent child : ResourceSelector) : bool :=
  match parent, child with
  | Any, _ => true
  | Exact p, Exact c => bool_decide (p = c)
  | Glob pattern, Exact value => parent_glob_covers_exact pattern value
  | Glob p, Glob c => bool_decide (p = c) || bool_decide (p = "*")
  | _, _ => false
  end.

(** One axis: [if let Some(cap) = p.axis && c.axis.unwrap_or(u64::MAX) > cap { return false }]. *)
Definition axis_within (child parent : option Z) : bool :=
  match parent with Some cap => negb (cap <? default u64_max child) | None => true end.

Definition budget_within (child parent : option Budget) : bool :=
  match parent with
  | None => true
  | Some p =>
      let c := default (mkBudget None None None None None) child in
      axis_within (b_tokens c) (b_tokens p) && axis_within (b_cents c) (b_cents p) && axis_within (b_requests c) (b_requests p)
      && axis_within (b_workload_hours c) (b_workload_hours p) && axis_within (b_wall_clock_secs c) (b_wall_clock_secs p)
  end.

Definition statement_dominated_by (new : Statement) (existing : list Statement) : bool :=
  existsb (λ e, bool_decide (resource_type new = resource_type e) && forallb (λ a, bool_decide (a ∈ actions e)) (actions new)
                && resource_covers (resource e) (resource new) && budget_within (budget new) (budget e)) existing.

(** ** Operations *)

(** A grant is written, then its history entry: the first stays when the second fails. *)
Definition write_with_history (env : GrantEnv) (g : AccessGrant) (e : AccessGrantHistoryEntry) (s : GrantStore) : verdict * GrantStore :=
  match write_access_grant env g s with
  | Err x => (Err x, s)
  | Ok s =>
      match write_access_grant_history env e s with
      | Err x => (Err x, s)
      | Ok s => (Ok tt, s)
      end
  end.

Definition history_entry (env : GrantEnv) (g : AccessGrant) (action : string) (timestamp : Z) (snapshot : option (list SignedBlock))
  (note : option string) : AccessGrantHistoryEntry :=
  mkHistoryEntry (ge_history_id env) (g_id g) (g_version g) action timestamp snapshot note.

Definition create_access_grant (env : GrantEnv) (m : MaterializedState) (g : AccessGrant) (s : GrantStore) : verdict * GrantStore :=
  match (access_grant_validate g ;?
         let? persona := ok_or (personas_current m !! g_issuing_persona_id g) (VE.new ("unknown persona: " +:+ g_issuing_persona_id g)) in
         if negb (bool_decide (per_status persona = Per_Active)) then Err (VE.new "cannot create grant for a revoked persona") else Ok tt) with
  | Err x => (Err x, s)
  | Ok _ => write_with_history env g (history_entry env g "created" (g_created_at g) (Some (g_blocks g)) None) s
  end.

Definition require_grant (env : GrantEnv) (grant_id : string) (s : GrantStore) : result AccessGrant ValidationError :=
  let? o := load_access_grant env grant_id s in ok_or o (VE.new ("grant not found: " +:+ grant_id)).

Definition edit_checks (env : GrantEnv) (g : AccessGrant) (s : GrantStore) : verdict :=
  access_grant_validate g ;?
  let? existing := require_grant env (g_id g) s in
  if bool_decide (g_status existing = Revoked) then Err (VE.new "cannot edit a revoked grant")
  else if negb (bool_decide (g_issuing_persona_id g = g_issuing_persona_id existing))
          || negb (bool_decide (g_recipient_kind g = g_recipient_kind existing))
          || negb (bool_decide (g_recipient_id g = g_recipient_id existing))
  then Err (VE.new "cannot change issuing persona, recipient kind, or recipient id")
  else if negb (forallb (λ x, statement_dominated_by x.2 (snd <$> grant_statements existing)) (grant_statements g))
  then Err (VE.new "edit would expand grant authority; create a new grant to add statements")
  else Ok tt.

Definition edit_access_grant (env : GrantEnv) (g : AccessGrant) (note : option string) (s : GrantStore) : verdict * GrantStore :=
  match edit_checks env g s with
  | Err x => (Err x, s)
  | Ok _ => write_with_history env g (history_entry env g "edited" (g_updated_at g) (Some (g_blocks g)) note) s
  end.

(** [u32] arithmetic *)
Definition next_version (v : Z) : Z := (v + 1) mod 2 ^ 32.

Definition with_revocation (now : Z) (reason : option string) (g : AccessGrant) : AccessGrant :=
  mkGrant (g_id g) (next_version (g_version g)) (g_issuing_persona_id g) (g_recipient_kind g) (g_recipient_id g) (g_recipient_profile g)
    Revoked (g_mode g) (g_blocks g) (g_attestation g) (g_created_at g) now (Some now) reason (g_last_used_at g) (g_label g).

Definition revoke_access_grant (env : GrantEnv) (grant_id : string) (reason : option string) (s : GrantStore) : verdict * GrantStore :=
  match require_grant env grant_id s with
  | Err x => (Err x, s)
  | Ok g =>
      if bool_decide (g_status g = Revoked) then (Err (VE.new "grant is already revoked"), s)
      else let g := with_revocation (ge_now env) reason g in
           write_with_history env g (history_entry env g "revoked" (ge_now env) None reason) s
  end.

Definition with_block_expiry (t : Z) (sb : SignedBlock) : SignedBlock :=
  mkSigned (mkBlock (statements (block sb)) (nbf (block sb)) (Some t) (issued_by (block sb)) (issued_at (block sb)) (approval (block sb))
              (note (block sb))) (pubkey_next sb) (signature sb).

(** [if let Some(last) = grant.blocks.last_mut()] *)
Fixpoint extend_last (t : Z) (l : list SignedBlock) : list SignedBlock :=
  match l with [] => [] | [sb] => [with_block_expiry t sb] | sb :: l => sb :: extend_last t l end.

Definition renewed_blocks (g : AccessGrant) (new_expires_at : Z) (new_block : option SignedBlock) : result (list SignedBlock) ValidationError :=
  match new_block with
  | Some sb =>
      if negb (forallb (λ x, statement_dominated_by x (snd <$> grant_statements g)) (statements (block sb)))
      then Err (VE.new "renew would expand grant authority; renew must narrow or keep scope")
      else if match expires_at (block sb) with Some bexp => new_expires_at <? bexp | None => false end
      then Err (VE.new "appended block expires_at must not exceed requested new_expires_at")
      else Ok (g_blocks g ++ [sb])
  | None => Ok (extend_last new_expires_at (g_blocks g))
  end.

Definition with_renewal (now : Z) (blocks : list SignedBlock) (g : AccessGrant) : AccessGrant :=
  mkGrant (g_id g) (next_version (g_version g)) (g_issuing_persona_id g) (g_recipient_kind g) (g_recipient_id g) (g_recipient_profile g)
    (g_status g) (g_mode g) blocks (g_attestation g) (g_created_at g) now (g_revoked_at g) (g_revoked_reason g) (g_last_used_at g) (g_label g).

Definition renew_access_grant (env : GrantEnv) (grant_id : string) (new_expires_at : Z) (new_block : option SignedBlock) (s : GrantStore)
  : verdict * GrantStore :=
  match (let? g := require_grant env grant_id s in
         if negb (bool_decide (g_mode g = Renewable)) then Err (VE.new "only renewable grants can be renewed")
         else if bool_decide (g_status g = Revoked) then Err (VE.new "cannot renew a revoked grant")
         else let? blocks := renewed_blocks g new_expires_at new_block in Ok (with_renewal (ge_now env) blocks g)) with
  | Err x => (Err x, s)
  | Ok g => write_with_history env g (history_entry env g "renewed" (ge_now env) (Some (g_blocks g)) None) s
  end.

Definition with_use (now : Z) (g : AccessGrant) : AccessGrant :=
  mkGrant (g_id g) (g_version g) (g_issuing_persona_id g) (g_recipient_kind g) (g_recipient_id g) (g_recipient_profile g) (g_status g) (g_mode g)
    (g_blocks g) (g_attestation g) (g_created_at g) now (g_revoked_at g) (g_revoked_reason g) (Some now) (g_label g).

Definition touch_access_grant (env : GrantEnv) (grant_id : string) (s : GrantStore) : verdict * GrantStore :=
  match (let? g := require_grant env grant_id s in write_access_grant env (with_use (ge_now env) g) s) with
  | Err x => (Err x, s)
  | Ok s => (Ok tt, s)
  end.

(** [faults]: of the first and of the second statement. *)
Definition delete_access_grant (faults : option string * option string) (grant_id : string) (s : GrantStore)
  : result bool ValidationError * GrantStore :=
  match failing faults.1 "delete grant history" with
  | Err x => (Err x, s)
  | Ok _ =>
      let s := mkGrantStore (gt_grants s) (List.filter (λ e, negb (bool_decide (he_grant_id e = grant_id))) (gt_history s)) in
      match failing faults.2 "delete access grant" with
      | Err x => (Err x, s)
      | Ok _ =>
          let kept := List.filter (λ r, negb (bool_decide (sg_grant_id r = grant_id))) (gt_grants s) in
          (Ok (length kept <? length (gt_grants s))%nat, mkGrantStore kept (gt_history s))
      end
  end.

(** ** Queries *)

Record AccessGrantSummary := mkSummary {
  su_id : string; su_label : option string; su_issuing_persona_id : string; su_recipient_kind : PresentationAudienceKind;
  su_recipient_id : string; su_recipient_profile : RecipientProfile; su_status : GrantStatus; su_mode : GrantMode; su_block_count : nat;
  su_statement_count : nat; su_resource_types : list ResourceType; su_expires_at : option Z; su_last_used_at : option Z;
  su_aggregate_usage : Usage }.

Definition grant_to_summary (g : AccessGrant) : AccessGrantSummary :=
  mkSummary (g_id g) (g_label g) (g_issuing_persona_id g) (g_recipient_kind g) (g_recipient_id g) (g_recipient_profile g) (g_status g)
    (g_mode g) (length (g_blocks g)) (statement_count g) (resource_types g) (effective_expires_at g) (g_last_used_at g) (aggregate_usage g).

Definition opt_is {A} `{EqDecision A} (o : option A) (x : A) : bool := match o with Some y => bool_decide (x = y) | None => true end.

(** ORDER BY created_at DESC *)
Definition newest_first (rows : list StoredGrant) : list StoredGrant := sort_by (λ a b, sg_created_at b <=? sg_created_at a) rows.

Definition load_access_grants_by_persona (persona_id : option string) (recipient_profile : option RecipientProfile) (status_filter : option string)
  (now : Z) (s : GrantStore) : list AccessGrant :=
  (λ r, row_to_access_grant r now) <$>
    newest_first (List.filter (λ r, opt_is persona_id (sg_issuing_persona_id r)
                                    && opt_is (RecipientProfile_as_str <$> recipient_profile) (sg_recipient_profile r)
                                    && opt_is status_filter (sg_status r)) (gt_grants s)).

Definition list_active_access_grants (now : Z) (persona_id : option string) (recipient_profile : option RecipientProfile) (s : GrantStore)
  : list AccessGrantSummary :=
  grant_to_summary <$> List.filter (λ g, bool_decide (g_status g = Active))
    (load_access_grants_by_persona persona_id recipient_profile (Some "active") now s).

Definition list_grants_for_recipient (now : Z) (recipient_kind : PresentationAudienceKind) (recipient_id : string) (s : GrantStore)
  : list AccessGrantSummary :=
  grant_to_summary <$> ((λ r, row_to_access_grant r now) <$>
    newest_first (List.filter (λ r, bool_decide (sg_recipient_kind r = PresentationAudienceKind_as_str recipient_kind)
                                    && bool_decide (sg_recipient_id r = recipient_id)) (gt_grants s))).

(** The columns of a history entry as they are read. *)
Definition read_history_entry (e : AccessGrantHistoryEntry) : AccessGrantHistoryEntry :=
  mkHistoryEntry (he_history_id e) (he_grant_id e) (he_version e mod 2 ^ 32) (he_action e) (seq_as_u64 (he_timestamp e)) (he_blocks_snapshot e)
    (he_note e).

Definition load_access_grant_history (grant_id : string) (s : GrantStore) : list AccessGrantHistoryEntry :=
  read_history_entry <$>
    sort_by (λ a b, he_timestamp a <=? he_timestamp b) (List.filter (λ e, bool_decide (he_grant_id e = grant_id)) (gt_history s)).

Definition load_grant_history_timeline (persona_id : option string) (limit : nat) (before : option Z) (s : GrantStore)
  : list AccessGrantHistoryEntry :=
  read_history_entry <$> take limit (sort_by (λ a b, he_timestamp b <=? he_timestamp a)
    (List.filter (λ e,
       match persona_id with
       | Some pid => existsb (λ r, bool_decide (sg_grant_id r = he_grant_id e) && bool_decide (sg_issuing_persona_id r = pid)) (gt_grants s)
       | None => true
       end && match before with Some ts => he_timestamp e <? seq_as_i64 ts | None => true end) (gt_history s))).

Section Chain.
Context {O : CryptoOps}.

Definition verify_access_grant_chain (m : MaterializedState) (g : AccessGrant) : result unit ChainError :=
  if bool_decide (g_blocks g = []) then Err EmptyChain
  else
    let? persona := ok_or (personas_current m !! g_issuing_persona_id g)
                      (InvalidEncoding ("issuing persona '" +:+ g_issuing_persona_id g +:+ "' not found")) in
    let? root := ok_or (roots_current m !! per_root_id persona)
                   (InvalidEncoding ("root '" +:+ per_root_id persona +:+ "' not found for persona '" +:+ g_issuing_persona_id g +:+ "'")) in
    let? root_pubkey_bytes := root_pubkey_bytes_from_ed25519_hex (pk_public_key (root_active_key root)) in
    verify_chain (g_blocks g) root_pubkey_bytes.

End Chain.

(** ** Lemmas: rows *)

Lemma find_id_upsert id new rows :
  List.find (λ r, bool_decide (sg_grant_id r = id)) (upsert_grant new rows) =
  if bool_decide (sg_grant_id new = id)
  then Some match List.find (λ r, bool_decide (sg_grant_id r = id)) rows with Some old => update_grant_row old new | None => new end
  else List.find (λ r, bool_decide (sg_grant_id r = id)) rows.
Proof.
  induction rows as [|r rows IH]; cbn; [by case_bool_decide|]. destruct (decide (sg_grant_id r = sg_grant_id new)) as [E|E].
  - rewrite (bool_decide_eq_true_2 _ E). cbn. rewrite E. by destruct (bool_decide (sg_grant_id new = id)).
  - rewrite (bool_decide_eq_false_2 _ E). cbn. rewrite IH. case_bool_decide as E1; [|by case_bool_decide].
    case_bool_decide as E2; [congruence|done].
Qed.

(** The row of a grant after a write. *)
Definition written_row (g : AccessGrant) (old : option StoredGrant) : StoredGrant :=
  match old with Some old => update_grant_row old (grant_row g) | None => grant_row g end.

Lemma write_row env g s s' id :
  write_access_grant env g s = Ok s' →
  grant_row_of id s' = if bool_decide (g_id g = id) then Some (written_row g (grant_row_of id s)) else grant_row_of id s.
Proof. unfold write_access_grant. intros [_ [= <-]]%seq_Ok. unfold grant_row_of. cbn [gt_grants]. by rewrite find_id_upsert. Qed.

Lemma history_row env e s s' id : write_access_grant_history env e s = Ok s' → grant_row_of id s' = grant_row_of id s.
Proof. unfold write_access_grant_history. intros [_ Hw]%seq_Ok. destruct (existsb _ _); [done|]. by injection Hw as <-. Qed.

(** A write with its history entry leaves the rows as they were or the grant written. *)
Lemma write_with_history_row env g e s r s' id :
  write_with_history env g e s = (r, s') →
  (r ≠ Ok tt ∧ grant_row_of id s' = grant_row_of id s)
  ∨ grant_row_of id s' = if bool_decide (g_id g = id) then Some (written_row g (grant_row_of id s)) else grant_row_of id s.
Proof.
  unfold write_with_history. destruct (write_access_grant env g s) as [s1|x] eqn:Hw; [|intros [= <- <-]; by left].
  apply (write_row _ _ _ _ id) in Hw. destruct (write_access_grant_history env e s1) as [s2|x] eqn:Hh; intros [= <- <-]; right; [|done].
  by rewrite (history_row _ _ _ _ _ Hh).
Qed.

Lemma grant_row_of_id id s r : grant_row_of id s = Some r → sg_grant_id r = id.
Proof. unfold grant_row_of. intros [_ H]%List.find_some. by apply bool_decide_eq_true in H. Qed.

Lemma require_grant_Ok env id s g :
  require_grant env id s = Ok g ↔ ge_load env = None ∧ ∃ r, grant_row_of id s = Some r ∧ g = row_to_access_grant r (ge_now env).
Proof.
  unfold require_grant, load_access_grant, failing. destruct (ge_load env); cbn; [naive_solver|]. destruct (grant_row_of id s); cbn; naive_solver.
Qed.

Lemma derive_revoked st nb exp now : GrantStatus_derive st nb exp now = Revoked ↔ st = "revoked".
Proof.
  unfold GrantStatus_derive. case_bool_decide; [done|]. split; [|done]. repeat (case_match; try done).
Qed.

(** ** Lemmas: the authority of a stored grant *)

(** The values of a budget are [u64]. *)
Definition axis_typed (o : option Z) : Prop := match o with Some z => in_u64 z | None => True end.

Definition axes : list (Budget → option Z) := [b_tokens; b_cents; b_requests; b_workload_hours; b_wall_clock_secs].

Definition budget_typed (o : option Budget) : Prop := Forall (λ f, axis_typed (o ≫= f)) axes.

Lemma axis_within_trans a b c : axis_typed a → axis_within a b = true → axis_within b c = true → axis_within a c = true.
Proof.
  unfold axis_within, axis_typed, in_u64. destruct c as [c|]; [|done]. destruct a as [a|], b as [b|]; cbn; rewrite ?negb_true_iff, ?Z.ltb_ge; lia.
Qed.

Lemma axis_within_refl a : axis_within a a = true.
Proof. destruct a; cbn; [|done]. by rewrite Z.ltb_irrefl. Qed.

Lemma budget_within_refl b : budget_within b b = true.
Proof. destruct b; cbn; [|done]. by rewrite !axis_within_refl. Qed.

Lemma budget_within_spec c p :
  budget_within c p = true ↔ ∀ p', p = Some p' → Forall (λ f, axis_within (c ≫= f) (f p') = true) axes.
Proof.
  unfold budget_within, axes. destruct p as [p|]; [|naive_solver]. rewrite !andb_true_iff. split.
  - intros Hs p' [= <-]. destruct_and?. destruct c; by repeat constructor.
  - intros Hs. specialize (Hs p eq_refl). apply Forall_cons in Hs as [? Hs]. apply Forall_cons in Hs as [? Hs]. apply Forall_cons in Hs as [? Hs].
    apply Forall_cons in Hs as [? Hs]. apply Forall_cons in Hs as [? _]. destruct c; by split_and!.
Qed.

Lemma budget_within_trans a b c : budget_typed a → budget_within a b = true → budget_within b c = true → budget_within a c = true.
Proof.
  rewrite !budget_within_spec. unfold budget_typed. intros Ha Hab Hbc c' ->. specialize (Hbc c' eq_refl). rewrite Forall_forall in Ha, Hbc |- *.
  intros f Hf. apply (axis_within_trans _ (b ≫= f)); [by apply Ha| |by apply Hbc]. destruct b as [b|]; [|done]. cbn.
  specialize (Hab b eq_refl). rewrite Forall_forall in Hab. by apply Hab.
Qed.

(** *** What a statement allows *)

(** Whatever [s] allows on a resource without a star, [t] allows on the same kind of resource, with no smaller budget. *)
Definition within (s t : Statement) : Prop :=
  resource_type s = resource_type t ∧ budget_within (budget s) (budget t) = true ∧
  ∀ action res, starless res → applicable_to s action res = true → applicable_to t action res = true.

Lemma within_refl s : within s s.
Proof. split_and!; [done|apply budget_within_refl|done]. Qed.

Lemma within_trans s t u : budget_typed (budget s) → within s t → within t u → within s u.
Proof. intros Hs (H1 & H2 & H3) (H4 & H5 & H6). split_and!; [congruence|by eapply budget_within_trans|auto]. Qed.

Lemma resource_covers_sound p c res : resource_covers p c = true → starless res → covers c res = true → covers p res = true.
Proof.
  unfold resource_covers, parent_glob_covers_exact. destruct p as [v|g| | |], c as [v'|g'| | |]; try done; cbn.
  - by intros ->%bool_decide_eq_true.
  - by intros Hg _ <-%bool_decide_eq_true.
  - intros [->%bool_decide_eq_true| ->%bool_decide_eq_true]%orb_true_iff Hs Hc; [done|by apply glob_matches_star].
Qed.

Lemma dominated_within s l : statement_dominated_by s l = true → ∃ t, t ∈ l ∧ within s t.
Proof.
  unfold statement_dominated_by. intros (t & Ht%list_elem_of_In & H)%existsb_exists. exists t. split; [done|].
  rewrite !andb_true_iff in H. destruct H as [[[Hty%bool_decide_eq_true Ha] Hr] Hb]. split_and!; [done|done|].
  intros action res Hs. unfold applicable_to. rewrite !andb_true_iff. intros [(a & Hin & ->%bool_decide_eq_true)%existsb_exists Hc].
  split; [|by eapply resource_covers_sound]. rewrite forallb_forall in Ha. specialize (Ha action Hin). apply bool_decide_eq_true in Ha.
  apply existsb_exists. exists action. split; [by apply list_elem_of_In|by apply bool_decide_eq_true].
Qed.

Definition block_statements (bs : list SignedBlock) : list Statement := mjoin ((λ sb, statements (block sb)) <$> bs).

Lemma grant_statements_blocks g : snd <$> grant_statements g = block_statements (g_blocks g).
Proof.
  unfold grant_statements, block_statements.
  assert (∀ f (l : list SignedBlock), snd <$> mjoin (imap (λ i sb, (λ s, (f i : nat, s)) <$> statements (block sb)) l) = mjoin ((λ sb, statements (block sb)) <$> l)) as Hg;
    [|apply (Hg (λ i, i))].
  intros f l. revert f. induction l as [|sb l IH]; intros f; [done|]. cbn [imap fmap list_fmap mjoin list_join]. rewrite fmap_app. f_equal.
  - rewrite <-list_fmap_compose. induction (statements (block sb)) as [|x k IHk]; [done|]. cbn. by rewrite IHk.
  - exact (IH (f ∘ S)).
Qed.

Definition blocks_typed (bs : list SignedBlock) : Prop := Forall (λ s, budget_typed (budget s)) (block_statements bs).

(** Every statement of the first chain is within one of the second. *)
Definition chain_within (bs bs' : list SignedBlock) : Prop := Forall (λ s, ∃ t, t ∈ block_statements bs' ∧ within s t) (block_statements bs).

Lemma chain_within_same bs bs' : block_statements bs = block_statements bs' → chain_within bs bs'.
Proof. intros E. apply Forall_forall. intros s Hs. exists s. rewrite <-E. split; [done|apply within_refl]. Qed.

Lemma chain_within_trans b1 b2 b3 : blocks_typed b1 → chain_within b1 b2 → chain_within b2 b3 → chain_within b1 b3.
Proof.
  unfold blocks_typed, chain_within. rewrite !Forall_forall. intros Ht H1 H2 s Hs. destruct (H1 s Hs) as (t & Hin & Hst). destruct (H2 t Hin) as (u & Hu & Htu).
  exists u. split; [done|]. by eapply within_trans; [apply Ht| |].
Qed.

Lemma extend_last_statements t l : block_statements (extend_last t l) = block_statements l.
Proof.
  induction l as [|sb l IH]; [done|]. destruct l as [|sb' l]; [done|].
  change (statements (block sb) ++ block_statements (extend_last t (sb' :: l)) = statements (block sb) ++ block_statements (sb' :: l)). by rewrite IH.
Qed.

Lemma block_statements_app l k : block_statements (l ++ k) = block_statements l ++ block_statements k.
Proof. unfold block_statements. by rewrite fmap_app, join_app. Qed.

Lemma forallb_dominated l bs :
  forallb (λ s, statement_dominated_by s (block_statements bs)) l = true → Forall (λ s, ∃ t, t ∈ block_statements bs ∧ within s t) l.
Proof. intros H. apply Forall_forall. intros s Hs. rewrite forallb_forall in H. apply dominated_within, H. by apply list_elem_of_In. Qed.

Lemma renewed_blocks_within g t nb blocks : renewed_blocks g t nb = Ok blocks → chain_within blocks (g_blocks g).
Proof.
  unfold renewed_blocks. rewrite grant_statements_blocks. destruct nb as [sb|].
  - destruct (forallb _ _) eqn:Hf; [|done]. cbn. destruct (match expires_at _ with Some _ => _ | None => _ end); [done|]. intros [= <-].
    unfold chain_within. rewrite block_statements_app. apply Forall_app_2; [by apply chain_within_same|].
    unfold block_statements at 2. cbn. rewrite app_nil_r. by apply forallb_dominated.
  - intros [= <-]. apply chain_within_same, extend_last_statements.
Qed.

(** ** Runs *)

(** A call, with anything that can fail, that may concern the grant [id]; grants are created and deleted under other ids. *)
Inductive grant_step (id : string) : GrantStore → GrantStore → Prop :=
| step_create env m g s r s' : g_id g ≠ id → create_access_grant env m g s = (r, s') → grant_step id s s'
| step_edit env g note s r s' : blocks_typed (g_blocks g) → edit_access_grant env g note s = (r, s') → grant_step id s s'
| step_revoke env i reason s r s' : revoke_access_grant env i reason s = (r, s') → grant_step id s s'
| step_renew env i t nb s r s' :
    (∀ sb, nb = Some sb → blocks_typed [sb]) → renew_access_grant env i t nb s = (r, s') → grant_step id s s'
| step_touch env i s r s' : touch_access_grant env i s = (r, s') → grant_step id s s'
| step_delete faults i s r s' : i ≠ id → delete_access_grant faults i s = (r, s') → grant_step id s s'.

(** What a step may do to the row of the grant. *)
Definition row_moves (r r' : StoredGrant) : Prop :=
  sg_grant_id r' = sg_grant_id r ∧ sg_issuing_persona_id r' = sg_issuing_persona_id r ∧ sg_recipient_kind r' = sg_recipient_kind r ∧
  sg_recipient_id r' = sg_recipient_id r ∧ (blocks_typed (sg_blocks r) → blocks_typed (sg_blocks r')) ∧ chain_within (sg_blocks r') (sg_blocks r) ∧
  (sg_status r = "revoked" → sg_status r' = "revoked" ∧ sg_blocks r' = sg_blocks r ∧ sg_revoked_reason r' = sg_revoked_reason r).

Lemma row_moves_refl r : row_moves r r.
Proof. unfold row_moves. split_and!; try done. by apply chain_within_same. Qed.

(** A written grant that was checked against the row of its id. *)
Lemma written_moves g r :
  chain_within (g_blocks g) (sg_blocks r) → (blocks_typed (sg_blocks r) → blocks_typed (g_blocks g)) →
  (sg_status r = "revoked" → persisted_status (g_status g) = "revoked" ∧ g_blocks g = sg_blocks r ∧ g_revoked_reason g = sg_revoked_reason r) →
  row_moves r (written_row g (Some r)).
Proof. intros H1 H2 H3. unfold row_moves. cbn. by split_and!. Qed.

Lemma write_moves env g e s x s' id r :
  write_with_history env g e s = (x, s') → grant_row_of id s = Some r → (g_id g = id → row_moves r (written_row g (Some r))) →
  ∃ r', grant_row_of id s' = Some r' ∧ row_moves r r'.
Proof.
  intros Hw Hr Hm. destruct (write_with_history_row _ _ _ _ _ _ id Hw) as [[_ ->]| ->]; [exists r; split; [done|apply row_moves_refl]|].
  rewrite Hr. case_bool_decide as E; [|exists r; split; [done|apply row_moves_refl]]. eexists. split; [done|]. by apply Hm.
Qed.

Lemma find_filter_other id i rows :
  i ≠ id → List.find (λ r, bool_decide (sg_grant_id r = id)) (List.filter (λ r, negb (bool_decide (sg_grant_id r = i))) rows) =
           List.find (λ r, bool_decide (sg_grant_id r = id)) rows.
Proof.
  intros Hne. induction rows as [|r rows IH]; [done|]. cbn. case_bool_decide as E; cbn; [|by rewrite IH].
  rewrite IH. by rewrite bool_decide_eq_false_2 by congruence.
Qed.

Lemma edit_checks_Ok env g s :
  edit_checks env g s = Ok tt → ∃ r, grant_row_of (g_id g) s = Some r ∧ sg_status r ≠ "revoked" ∧ chain_within (g_blocks g) (sg_blocks r).
Proof.
  unfold edit_checks. intros [_ He]%seq_Ok. apply result_bind_Ok in He as (x & Hx & He). apply require_grant_Ok in Hx as (_ & r & Hr & ->).
  exists r. case_bool_decide as Hs; [done|]. destruct (_ || _); [done|]. destruct (forallb _ _) eqn:Hf; [|done]. split_and!; [done| |].
  - intros E. apply Hs. cbn. by apply derive_revoked.
  - unfold chain_within. rewrite <-grant_statements_blocks. apply Forall_fmap, Forall_forall. intros x Hx. rewrite forallb_forall in Hf.
    specialize (Hf x (proj1 (list_elem_of_In _ _) Hx)). rewrite grant_statements_blocks in Hf. by apply dominated_within in Hf.
Qed.

(** Every step moves the row of the grant. *)
Lemma grant_step_moves id s s' r : grant_step id s s' → grant_row_of id s = Some r → ∃ r', grant_row_of id s' = Some r' ∧ row_moves r r'.
Proof.
  intros Hs Hr. assert (∃ r', grant_row_of id s = Some r' ∧ row_moves r r') as Hsame by (exists r; split; [done|apply row_moves_refl]).
  destruct Hs as [env m g s x s' Hne Hc|env g nt s x s' Ht He|env i reason s x s' Hv|env i t nb s x s' Hty Hn|env i s x s' Hu|faults i s x s' Hne Hd].
  - unfold create_access_grant in Hc. destruct (_ ;? _) as [[]|y]; [|by injection Hc as <- <-]. by eapply write_moves; [exact Hc| |].
  - unfold edit_access_grant in He. destruct (edit_checks env g s) as [[]|y] eqn:Hok; [|by injection He as <- <-].
    apply edit_checks_Ok in Hok as (r1 & Hr1 & Hst & Hw). eapply write_moves; [exact He|exact Hr|]. intros <-. rewrite Hr in Hr1. injection Hr1 as <-.
    apply written_moves; [done|done|by intros ?].
  - unfold revoke_access_grant in Hv. destruct (require_grant env i s) as [g|y] eqn:Hg; [|by injection Hv as <- <-].
    case_bool_decide as Hst; [by injection Hv as <- <-|]. apply require_grant_Ok in Hg as (_ & r1 & Hr1 & ->).
    eapply write_moves; [exact Hv|exact Hr|]. cbn. rewrite (grant_row_of_id _ _ _ Hr1). intros ->. rewrite Hr in Hr1. injection Hr1 as <-.
    apply written_moves; [by apply chain_within_same|done|]. intros E. exfalso. apply Hst. cbn. by apply derive_revoked.
  - unfold renew_access_grant in Hn. destruct (let? g := _ in _) as [g|y] eqn:Hg; [|by injection Hn as <- <-].
    apply result_bind_Ok in Hg as (g0 & Hg0 & Hg). apply require_grant_Ok in Hg0 as (_ & r1 & Hr1 & ->). destruct (negb _); [done|].
    case_bool_decide as Hst; [done|]. apply result_bind_Ok in Hg as (blocks & Hb & [= <-]). eapply write_moves; [exact Hn|exact Hr|]. cbn.
    rewrite (grant_row_of_id _ _ _ Hr1). intros ->. rewrite Hr in Hr1. injection Hr1 as <-. apply written_moves.
    + exact (renewed_blocks_within _ _ _ _ Hb).
    + intros Hbt. cbn. unfold renewed_blocks in Hb. destruct nb as [sb|].
      * destruct (negb _); [done|]. destruct (match expires_at _ with Some _ => _ | None => _ end); [done|]. injection Hb as <-.
        unfold blocks_typed. rewrite block_statements_app. apply Forall_app_2; [done|by apply Hty].
      * injection Hb as <-. unfold blocks_typed. by rewrite extend_last_statements.
    + intros E. exfalso. apply Hst. cbn. by apply derive_revoked.
  - unfold touch_access_grant in Hu. destruct (let? g := _ in _) as [s1|y] eqn:Hg; injection Hu as <- <-; [|done].
    apply result_bind_Ok in Hg as (g & Hg & Hw). apply require_grant_Ok in Hg as (_ & r1 & Hr1 & ->). rewrite (write_row _ _ _ _ id Hw), Hr. cbn.
    case_bool_decide as E; [|exists r; split; [done|apply row_moves_refl]]. eexists. split; [done|]. rewrite (grant_row_of_id _ _ _ Hr1) in E. subst i. rewrite Hr in Hr1. injection Hr1 as <-.
    apply written_moves; [by apply chain_within_same|done|]. intros Est. cbn. by rewrite (proj2 (derive_revoked _ _ _ _) Est).
  - unfold delete_access_grant in Hd. destruct (failing faults.1 _); [|by injection Hd as <- <-]. destruct (failing faults.2 _); injection Hd as <- <-.
    + unfold grant_row_of in *. cbn. rewrite find_filter_other by done. done.
    + done.
Qed.

Lemma grant_run_moves id s s' r :
  rtc (grant_step id) s s' → grant_row_of id s = Some r → blocks_typed (sg_blocks r) →
  ∃ r', grant_row_of id s' = Some r' ∧ row_moves r r'.
Proof.
  intros Hrun. revert r. induction Hrun as [s|s1 s2 s3 Hs _ IH]; intros r Hr Ht; [exists r; split; [done|apply row_moves_refl]|].
  destruct (grant_step_moves _ _ _ _ Hs Hr) as (r2 & Hr2 & (E1 & E2 & E3 & E4 & E5 & E6 & E7)).
  destruct (IH r2 Hr2 (E5 Ht)) as (r3 & Hr3 & (F1 & F2 & F3 & F4 & F5 & F6 & F7)). exists r3. split; [done|]. unfold row_moves.
  split_and!; try congruence; [auto|by eapply chain_within_trans; [auto| |]|].
  intros Hst. destruct (E7 Hst) as (G1 & G2 & G3). destruct (F7 G1) as (K1 & K2 & K3). split_and!; congruence.
Qed.

(** C29. What a stored grant allows never grows on the axes its edits are checked on: after any calls that create and delete other
    grants and edit, renew, touch and revoke this one, with anything failing on the way, its issuer and recipient are those it had, and
    whatever a statement of it allows on a resource (one that does not contain a star) a statement it had before allowed on the same
    kind of resource, within no larger budget; once revoked it stays revoked, with the same chain, whenever it is read. *)
Theorem stored_grants_attenuate id s s' r now now' :
  rtc (grant_step id) s s' → grant_row_of id s = Some r → blocks_typed (sg_blocks r) →
  ∃ r', grant_row_of id s' = Some r' ∧
    let g := row_to_access_grant r now in
    let g' := row_to_access_grant r' now' in
    g_issuing_persona_id g' = g_issuing_persona_id g ∧ g_recipient_kind g' = g_recipient_kind g ∧ g_recipient_id g' = g_recipient_id g ∧
    (∀ st' action res, st' ∈ grant_statements g' → starless res → applicable_to st'.2 action res = true →
       ∃ st, st ∈ grant_statements g ∧ resource_type st.2 = resource_type st'.2 ∧ applicable_to st.2 action res = true ∧
             budget_within (budget st'.2) (budget st.2) = true) ∧
    (g_status g = Revoked → g_status g' = Revoked ∧ g_blocks g' = g_blocks g).
Proof.
  intros Hrun Hr Ht. destruct (grant_run_moves _ _ _ _ Hrun Hr Ht) as (r' & Hr' & (E1 & E2 & E3 & E4 & _ & E6 & E7)). exists r'. split; [done|].
  cbn zeta. split_and!; cbn [g_issuing_persona_id g_recipient_kind g_recipient_id g_status g_blocks row_to_access_grant]; [done|by rewrite E3|done| |].
  - intros st' action res Hst Hs Happ. unfold chain_within in E6. rewrite Forall_forall in E6. destruct (E6 st'.2) as (t & Hin & Hty & Hb & Hal).
    { change (sg_blocks r') with (g_blocks (row_to_access_grant r' now')). rewrite <-grant_statements_blocks. by apply list_elem_of_fmap_2. }
    change (sg_blocks r) with (g_blocks (row_to_access_grant r now)) in Hin. rewrite <-grant_statements_blocks in Hin.
    apply list_elem_of_fmap in Hin as (st & -> & Hin). exists st. split_and!; auto.
  - rewrite !derive_revoked. intros Hst. destruct (E7 Hst) as (? & ? & _). done.
Qed.

(** ** Where authority grows *)

Definition quiet (env : GrantEnv) (s : GrantStore) : Prop :=
  ge_load env = None ∧ ge_write env = None ∧ ge_write_history env = None ∧ ge_history_id env ∉ he_history_id <$> gt_history s.

Lemma quiet_write env g e s :
  quiet env s → he_history_id e = ge_history_id env →
  ∃ s', write_with_history env g e s = (Ok tt, s') ∧ grant_row_of (g_id g) s' = Some (written_row g (grant_row_of (g_id g) s)).
Proof.
  intros (_ & Hw & Hh & Hid) He. unfold write_with_history, write_access_grant, write_access_grant_history. rewrite Hw, Hh. cbn.
  assert (existsb (λ x, bool_decide (he_history_id x = he_history_id e)) (gt_history s) = false) as ->.
  { apply not_true_is_false. intros (x & Hx%list_elem_of_In & E%bool_decide_eq_true)%existsb_exists. apply Hid. rewrite <-He, <-E. by apply list_elem_of_fmap_2. }
  eexists. split; [done|]. unfold grant_row_of. cbn [gt_grants]. rewrite find_id_upsert. by rewrite bool_decide_eq_true_2.
Qed.

(** A statement without its conditions and with a fresh account of its use, and a grant of such statements without time limits. *)
Definition unconditional (s : Statement) : Statement :=
  mkStatement (sid s) (resource_type s) (actions s) (resource s) (budget s) Usage_default [] (can_delegate s).

Definition unlimited (sb : SignedBlock) : SignedBlock :=
  mkSigned (mkBlock (unconditional <$> statements (block sb)) None None (issued_by (block sb)) (issued_at (block sb)) None (note (block sb)))
    (pubkey_next sb) (signature sb).

Definition lifted (g : AccessGrant) : AccessGrant :=
  mkGrant (g_id g) (g_version g) (g_issuing_persona_id g) (g_recipient_kind g) (g_recipient_id g) (g_recipient_profile g) Active (g_mode g)
    (unlimited <$> g_blocks g) (g_attestation g) (g_created_at g) (g_updated_at g) None None (g_last_used_at g) (g_label g).

Lemma try_for_each_fmap {A B E} (f : B → result unit E) (h : A → B) (k : A → result unit E) l :
  (∀ x, k x = Ok tt → f (h x) = Ok tt) → try_for_each k l = Ok tt → try_for_each f (h <$> l) = Ok tt.
Proof.
  intros Hfh. induction l as [|x l IH]; [done|]. cbn. intros [Hx Hl]%seq_Ok. rewrite (Hfh _ Hx). cbn. by apply IH.
Qed.

Lemma block_validate_unlimited sb : signed_block_validate sb = Ok tt → signed_block_validate (unlimited sb) = Ok tt.
Proof.
  unfold signed_block_validate, block_validate. cbn [unlimited block issued_by statements nbf expires_at pubkey_next signature].
  intros [Hb Hs]%seq_Ok. apply seq_Ok in Hb as [H1 Hb]. apply seq_Ok in Hb as [H2 Hb]. apply seq_Ok in Hb as [H3 _]. rewrite H1. cbn [result_bind].
  assert (try_for_each statement_validate (unconditional <$> statements (block sb)) = Ok tt) as ->.
  { eapply try_for_each_fmap; [|exact H3]. by intros x. }
  destruct (statements (block sb)); [done|]. exact Hs.
Qed.

Lemma lifted_validate g : access_grant_validate g = Ok tt → access_grant_validate (lifted g) = Ok tt.
Proof.
  unfold access_grant_validate. cbn [g_id g_version g_issuing_persona_id g_recipient_id g_blocks g_created_at g_updated_at lifted].
  intros Hv. do 4 (apply seq_Ok in Hv as [Hx Hv]; rewrite Hx; clear Hx; cbn [result_bind]). apply seq_Ok in Hv as [Hb Hv]. apply seq_Ok in Hv as [Hall Hv].
  rewrite (try_for_each_fmap signed_block_validate unlimited signed_block_validate _ block_validate_unlimited Hall).
  destruct (g_blocks g); [done|]. exact Hv.
Qed.

Lemma block_statements_unlimited bs : block_statements (unlimited <$> bs) = unconditional <$> block_statements bs.
Proof.
  induction bs as [|sb bs IH]; [done|].
  change (block_statements (unlimited <$> (sb :: bs))) with ((unconditional <$> statements (block sb)) ++ block_statements (unlimited <$> bs)).
  change (block_statements (sb :: bs)) with (statements (block sb) ++ block_statements bs). by rewrite fmap_app, IH.
Qed.

Definition comparable (s : Statement) : Prop := resource_covers (resource s) (resource s) = true.

Lemma unconditional_dominated s l : s ∈ l → comparable s → statement_dominated_by (unconditional s) l = true.
Proof.
  intros Hs Hc. apply existsb_exists. exists s. split; [by apply list_elem_of_In|]. cbn. rewrite bool_decide_eq_true_2 by done. unfold comparable in Hc. rewrite Hc, budget_within_refl.
  cbn. rewrite !andb_true_r. apply forallb_forall. intros a Ha. apply bool_decide_eq_true_2. by apply list_elem_of_In.
Qed.

(** An edit may lift every restriction it is not checked for: of any grant that is not revoked and whose selectors can be
    compared, the version without its conditions, without its expiry, its not-before and its approval challenge, with the account of
    its use at zero and the status active is accepted as an attenuation, and from then on the grant is active at any time. *)
Theorem edit_lifts_restrictions env s r :
  quiet env s → grant_row_of (sg_grant_id r) s = Some r → sg_status r ≠ "revoked" →
  let g := row_to_access_grant r (ge_now env) in
  access_grant_validate g = Ok tt → Forall comparable (block_statements (g_blocks g)) →
  ∃ s' r', edit_access_grant env (lifted g) None s = (Ok tt, s') ∧ grant_row_of (sg_grant_id r) s' = Some r' ∧
    ∀ now, let g' := row_to_access_grant r' now in
      g_status g' = Active ∧ effective_expires_at g' = None ∧
      snd <$> grant_statements g' = unconditional <$> (snd <$> grant_statements g).
Proof.
  intros Hq Hr Hst g Hv Hc. assert (edit_checks env (lifted g) s = Ok tt) as Hok.
  { unfold edit_checks. rewrite (lifted_validate _ Hv). cbn [result_bind].
    assert (require_grant env (g_id (lifted g)) s = Ok g) as ->.
    { apply require_grant_Ok. split; [by destruct Hq|]. by exists r. }
    cbn [result_bind]. rewrite bool_decide_eq_false_2 by (cbn; by rewrite derive_revoked).
    change (g_issuing_persona_id (lifted g)) with (g_issuing_persona_id g). change (g_recipient_kind (lifted g)) with (g_recipient_kind g).
    change (g_recipient_id (lifted g)) with (g_recipient_id g). rewrite !bool_decide_eq_true_2 by done. cbn [negb orb].
    assert (forallb (λ x, statement_dominated_by x.2 (snd <$> grant_statements g)) (grant_statements (lifted g)) = true) as ->; [|done].
    apply forallb_forall. intros x Hx%list_elem_of_In. apply (list_elem_of_fmap_2 snd) in Hx. rewrite grant_statements_blocks in Hx |- *.
    change (g_blocks (lifted g)) with (unlimited <$> g_blocks g) in Hx. rewrite block_statements_unlimited in Hx.
    apply list_elem_of_fmap in Hx as (y & -> & Hy). rewrite Forall_forall in Hc. apply unconditional_dominated; [done|by apply Hc]. }
  unfold edit_access_grant. rewrite Hok. destruct (quiet_write env (lifted g) (history_entry env (lifted g) "edited" (g_updated_at (lifted g)) (Some (g_blocks (lifted g))) None) s Hq eq_refl) as (s' & Hw & Hr').
  assert (∀ bs, omap (λ sb, expires_at (block sb)) (unlimited <$> bs) = [] ∧ omap (λ sb, nbf (block sb)) (unlimited <$> bs) = []) as Hnone
    by (intros bs; induction bs; done).
  exists s', (written_row (lifted g) (Some r)). split; [done|]. split; [change (sg_grant_id r) with (g_id (lifted g)); rewrite Hr'; cbn; by rewrite Hr|].
  intros now. cbn zeta. destruct (Hnone (sg_blocks r)) as [H1 H2]. split_and!.
  - cbn. unfold effective_expires_at. cbn [g_blocks lifted g row_to_access_grant]. rewrite H1, H2. done.
  - unfold effective_expires_at. cbn [g_blocks row_to_access_grant written_row update_grant_row sg_blocks grant_row lifted g]. by rewrite H1.
  - rewrite !grant_statements_blocks. cbn [g_blocks row_to_access_grant written_row update_grant_row sg_blocks grant_row lifted g]. apply block_statements_unlimited.
Qed.

Lemma iter_min_app l k e : iter_min l = Some e → iter_min (l ++ k) = Some (foldl Z.min e k).
Proof. destruct l as [|z l]; [done|]. cbn. intros [= <-]. by rewrite foldl_app. Qed.

Lemma renewed_row env id t sb s s' :
  renew_access_grant env id t (Some sb) s = (Ok tt, s') →
  ∃ r, grant_row_of id s = Some r ∧
    grant_row_of id s' = Some (written_row (with_renewal (ge_now env) (sg_blocks r ++ [sb]) (row_to_access_grant r (ge_now env))) (Some r)).
Proof.
  unfold renew_access_grant. destruct (let? g := _ in _) as [g|y] eqn:Hg; [|done]. apply result_bind_Ok in Hg as (g0 & Hg0 & Hg).
  apply require_grant_Ok in Hg0 as (_ & r & Hr & ->). destruct (negb _); [done|]. case_bool_decide; [done|]. apply result_bind_Ok in Hg as (blocks & Hb & [= <-]).
  intros Hw. exists r. split; [done|]. unfold renewed_blocks in Hb. destruct (negb _); [done|]. destruct (match expires_at _ with Some _ => _ | None => _ end); [done|].
  injection Hb as <-. destruct (write_with_history_row _ _ _ _ _ _ id Hw) as [[? _]|Hrow]; [done|]. rewrite Hrow. cbn [g_id with_renewal row_to_access_grant].
  rewrite (grant_row_of_id _ _ _ Hr), bool_decide_eq_true_2 by done. by rewrite Hr.
Qed.

(** A renewal by a further block never extends a grant: the expiry of a grant is the earliest of its blocks, so after a renewal
    that succeeds it is no later than before, and the grant is not active after the time at which it would have expired anyway,
    whatever expiry was asked for. *)
Theorem renewal_never_extends env id t sb s s' r e :
  grant_row_of id s = Some r → effective_expires_at (row_to_access_grant r (ge_now env)) = Some e → in_u64 e → axis_typed (expires_at (block sb)) →
  renew_access_grant env id t (Some sb) s = (Ok tt, s') →
  ∃ r', grant_row_of id s' = Some r' ∧ ∀ now,
    (∃ e', effective_expires_at (row_to_access_grant r' now) = Some e' ∧ e' <= e) ∧ (e < now → g_status (row_to_access_grant r' now) ≠ Active).
Proof.
  intros Hr He Hte Htb Hn. destruct (renewed_row _ _ _ _ _ _ Hn) as (r1 & Hr1 & Hr'). rewrite Hr in Hr1. injection Hr1 as <-. eexists. split; [exact Hr'|].
  set (k := omap (λ sb, expires_at (block sb)) [sb]). assert (foldl Z.min e k <= e ∧ in_u64 (foldl Z.min e k)) as [Hle Hin].
  { unfold k. cbn. unfold axis_typed, in_u64 in *. destruct (expires_at (block sb)) as [x|]; cbn; lia. }
  assert (∀ g, g_blocks g = sg_blocks r ++ [sb] → effective_expires_at g = Some (foldl Z.min e k)) as Hexp.
  { intros g Hg. unfold effective_expires_at in *. cbn [g_blocks row_to_access_grant] in He. rewrite Hg, omap_app. by apply iter_min_app. }
  intros now. split; [exists (foldl Z.min e k); split; [by apply Hexp|done]|]. intros Hnow.
  cbn [g_status row_to_access_grant sg_status sg_expires_at written_row update_grant_row grant_row]. rewrite (Hexp (with_renewal _ _ _)) by done. cbn [fmap option_fmap option_map].
  rewrite seq_as_u64_i64 by done. unfold GrantStatus_derive. repeat (case_match; try done).
  all: match goal with Hx : (_ <? _)%Z = false |- _ => apply Z.ltb_ge in Hx; lia end.
Qed.

(** A grant is created over a revoked one: under the id of a revoked grant another persona's grant is accepted as new, and
    afterwards the grant of that id is no longer revoked: it has the blocks and the status of the new grant and the issuer and the
    recipient of the old one. *)
Theorem create_revives_revoked env m g s r p :
  quiet env s → grant_row_of (g_id g) s = Some r → sg_status r = "revoked" → access_grant_validate g = Ok tt →
  personas_current m !! g_issuing_persona_id g = Some p → per_status p = Per_Active → g_status g = Active →
  ∃ s' r', create_access_grant env m g s = (Ok tt, s') ∧ grant_row_of (g_id g) s' = Some r' ∧
    sg_status r' = "active" ∧ sg_blocks r' = g_blocks g ∧ sg_issuing_persona_id r' = sg_issuing_persona_id r ∧ sg_recipient_id r' = sg_recipient_id r.
Proof.
  intros Hq Hr Hst Hv Hp Hpa Hg.
  destruct (quiet_write env g (history_entry env g "created" (g_created_at g) (Some (g_blocks g)) None) s Hq eq_refl) as (s' & Hw & Hr').
  exists s', (written_row g (Some r)). unfold create_access_grant. rewrite Hv, Hp. cbn. rewrite bool_decide_eq_true_2 by done. cbn. rewrite Hw, Hr', Hr.
  split_and!; try done. cbn. by rewrite Hg.
Qed.

(** An abandoned grant without time limits is active once it is read back. *)
Lemma abandoned_becomes_active g now :
  g_status g = Abandoned → effective_nbf g = None → effective_expires_at g = None → g_status (row_to_access_grant (grant_row g) now) = Active.
Proof. unfold effective_nbf. intros Hs Hn He. cbn. by rewrite Hs, Hn, He. Qed.

(** ** Witnesses *)

Definition limited_statement : Statement :=
  mkStatement "s" Credential ["read"] (Glob "repo/*") (Some (mkBudget (Some 10) None None None None)) Usage_default [C_TimeWindow 0 3600] None.

Definition limited_block : SignedBlock := mkSigned (mkBlock [limited_statement] None (Some 500) "p" 1 None None) "k" "sig".

Definition limited_grant (status : GrantStatus) : AccessGrant :=
  mkGrant "g" 1 "p" Service "svc" RP_Agent status Renewable [limited_block] AttestationBinding_default 1 1 None None None None.

Definition limited_store (status : GrantStatus) : GrantStore := mkGrantStore [grant_row (limited_grant status)] [].

Definition quiet_env (now : Z) (history_id : string) : GrantEnv := mkGrantEnv now history_id None None None.

Lemma quiet_limited status now : quiet (quiet_env now "h") (limited_store status).
Proof. unfold quiet. split_and!; try done. apply not_elem_of_nil. Qed.

Definition narrow_block (t : Z) : SignedBlock :=
  mkSigned (mkBlock [mkStatement "s" Credential ["read"] (Exact "repo/a") (Some (mkBudget (Some 5) None None None None)) Usage_default [] None] None (Some t) "p" 1 None None) "k" "sig".

Definition renewed_store : GrantStore := (renew_access_grant (quiet_env 100 "h") "g" 900 (Some (narrow_block 900)) (limited_store Active)).2.

Lemma renewed_Ok : renew_access_grant (quiet_env 100 "h") "g" 900 (Some (narrow_block 900)) (limited_store Active) = (Ok tt, renewed_store).
Proof. assert ((renew_access_grant (quiet_env 100 "h") "g" 900 (Some (narrow_block 900)) (limited_store Active)).1 = Ok tt) as <- by (by vm_compute). apply surjective_pairing. Qed.

Definition revoked_store : GrantStore := (revoke_access_grant (quiet_env 200 "h2") "g" (Some "over") renewed_store).2.

Lemma limited_typed : blocks_typed [limited_block].
Proof. repeat constructor; cbn; unfold in_u64, u64_max; lia. Qed.

Lemma narrow_typed t : blocks_typed [narrow_block t].
Proof. repeat constructor; cbn; unfold in_u64, u64_max; lia. Qed.

Lemma limited_run : rtc (grant_step "g") (limited_store Active) revoked_store.
Proof.
  eapply rtc_l; [eapply step_renew; [|exact renewed_Ok]|].
  - intros sb [= <-]. apply narrow_typed.
  - apply rtc_once. eapply step_revoke. apply surjective_pairing.
Qed.

Lemma stored_grants_attenuate_witness :
  ∃ r', grant_row_of "g" revoked_store = Some r' ∧ length (sg_blocks r') = 2%nat ∧ g_recipient_id (row_to_access_grant r' 300) = "svc".
Proof.
  destruct (stored_grants_attenuate "g" (limited_store Active) revoked_store (grant_row (limited_grant Active)) 100 300 limited_run eq_refl limited_typed)
    as (r' & Hr' & _ & _ & E & _).
  exists r'. split_and!; [done| |by rewrite E]. vm_compute in Hr'. by injection Hr' as <-.
Defined.

Lemma edit_lifts_restrictions_witness :
  ∃ s' r', edit_access_grant (quiet_env 100 "h") (lifted (limited_grant Active)) None (limited_store Active) = (Ok tt, s') ∧ grant_row_of "g" s' = Some r' ∧
    g_status (row_to_access_grant r' 10000) = Active.
Proof.
  destruct (edit_lifts_restrictions (quiet_env 100 "h") (limited_store Active) (grant_row (limited_grant Active)) (quiet_limited Active 100) eq_refl)
    as (s' & r' & He & Hr & Hall); [done|by vm_compute|repeat constructor|].
  exists s', r'. split_and!; [exact He|exact Hr|]. by destruct (Hall 10000) as [? _].
Defined.

Lemma renewal_never_extends_witness :
  ∃ r', grant_row_of "g" renewed_store = Some r' ∧ g_status (row_to_access_grant r' 600) ≠ Active.
Proof.
  destruct (renewal_never_extends (quiet_env 100 "h") "g" 900 (narrow_block 900) (limited_store Active) renewed_store (grant_row (limited_grant Active)) 500 eq_refl)
    as (r' & Hr & Hall); [done|unfold in_u64, u64_max; lia|cbn; unfold in_u64, u64_max; lia|exact renewed_Ok|].
  exists r'. split; [done|]. by apply (Hall 600).
Defined.

Definition other_persona : PersonaRecord := mkPersonaRecord "root" "p" "Other" None SM_Strict (mkPublicKeyMaterial "k" KA_Ed25519 "pub") Per_Active.

Definition other_state : MaterializedState := set_personas_current {["p" := other_persona]} empty_state.

Lemma create_revives_revoked_witness :
  ∃ s' r', create_access_grant (quiet_env 100 "h") other_state (limited_grant Active) (limited_store Revoked) = (Ok tt, s')
    ∧ grant_row_of "g" s' = Some r' ∧ sg_status r' = "active".
Proof.
  destruct (create_revives_revoked (quiet_env 100 "h") other_state (limited_grant Active) (limited_store Revoked) (grant_row (limited_grant Revoked)) other_persona
    (quiet_limited Revoked 100) eq_refl eq_refl) as (s' & r' & H1 & H2 & H3 & _); [by vm_compute|by vm_compute|done|done|].
  by exists s', r'.
Defined.
