(* ===== verification/Sync.v ===== *)
(** * Synchronization and relays

    crates/core-sync/src/lib.rs, with the types of crates/core-principals/src/network.rs and
    trust.rs it uses: cursors and pull batches, the wire form of events, admission of
    submissions to a relay, the light profile. The MessagePack codec (rmp_serde) is a parameter
    for each wire type, its round trip a law. *)

From stdpp Require Import base gmap sets list strings pretty.
From Stdlib Require Import Ascii Lia ZArith SpecFloat.
From S2P Require Import Prelude CoreTypes Numbers EventTypes EventCodec EventDecode Envelope LogTypes.
From S2P Require Import Materialize Authorize EventLog MemoryLog LogText.

Local Infix "+:+" := String.append (at level 60, right associativity).

(** ** core-principals *)

Inductive RelayMode := RM_Open | RM_TrustGated | RM_NetworkScoped.

Definition RelayMode_as_str (m : RelayMode) : string :=
  match m with
  | RM_Open => "open"
  | RM_TrustGated => "trust-gated"
  | RM_NetworkScoped => "network-scoped"
  end.
Definition RelayMode_parse (value : string) : option RelayMode :=
  if bool_decide (value = "open") then Some RM_Open else
  if bool_decide (value = "trust-gated") then Some RM_TrustGated else
  if bool_decide (value = "network-scoped") then Some RM_NetworkScoped else None.

Inductive SyncProfile := SP_Full | SP_Light.

Definition SyncProfile_as_str (p : SyncProfile) : string :=
  match p with SP_Full => "full" | SP_Light => "light" end.
Definition SyncProfile_parse (value : string) : option SyncProfile :=
  if bool_decide (value = "full") then Some SP_Full else
  if bool_decide (value = "light") then Some SP_Light else None.

Inductive NodeTier := NT_MobileLight | NT_PersonalBridge | NT_CommunityRelay | NT_Bootstrap.

Definition NodeTier_as_str (t : NodeTier) : string :=
  match t with
  | NT_MobileLight => "mobile-light"
  | NT_PersonalBridge => "personal-bridge"
  | NT_CommunityRelay => "community-relay"
  | NT_Bootstrap => "bootstrap"
  end.
Definition NodeTier_parse (value : string) : option NodeTier :=
  if bool_decide (value = "mobile-light") then Some NT_MobileLight else
  if bool_decide (value = "personal-bridge") then Some NT_PersonalBridge else
  if bool_decide (value = "community-relay") then Some NT_CommunityRelay else
  if bool_decide (value = "bootstrap") then Some NT_Bootstrap else None.
Definition default_sync_profile (t : NodeTier) : SyncProfile :=
  match t with NT_MobileLight => SP_Light | _ => SP_Full end.
Definition default_relay_mode (t : NodeTier) : option RelayMode :=
  match t with
  | NT_MobileLight => None
  | NT_PersonalBridge => Some RM_NetworkScoped
  | NT_CommunityRelay => Some RM_TrustGated
  | NT_Bootstrap => Some RM_Open
  end.
Definition has_relay_duty (t : NodeTier) : bool := bool_decide (is_Some (default_relay_mode t)).

Inductive RelayAdmission := Accept | Reject (reason : string).

Definition TrustThreshold : Type := f32.
Definition TrustThreshold_new (value : f32) : result TrustThreshold ValidationError :=
  if negb (f32_in_unit value) then Err (VE.new "trust threshold must be in [0.0, 1.0]")
  else Ok value.
Definition is_met_by (t : TrustThreshold) (score : f32) : bool := SFleb t score.

Record AdmissionToken := mkAdmissionToken {
  at_token_id : string;
  at_persona_id : string;
  at_issuer_persona_id : string;
  at_issued_at : Z;
  at_expires_at : Z;
  at_threshold_met : TrustThreshold;
  at_issuer_signature_hex : string
}.

Definition signing_payload (t : AdmissionToken) : bytes :=
  to_bytes ("type=admission-token" +:+ nl
    +:+ "token_id=" +:+ at_token_id t +:+ nl
    +:+ "persona_id=" +:+ at_persona_id t +:+ nl
    +:+ "issuer_persona_id=" +:+ at_issuer_persona_id t +:+ nl
    +:+ "issued_at=" +:+ u64_to_string (at_issued_at t) +:+ nl
    +:+ "expires_at=" +:+ u64_to_string (at_expires_at t) +:+ nl
    +:+ "threshold_met=" +:+ f32_fmt6 (at_threshold_met t) +:+ nl).

Definition AdmissionToken_validate (t : AdmissionToken) : verdict :=
  validate_non_empty (at_token_id t) "token id" ;?
  validate_non_empty (at_persona_id t) "persona id" ;?
  validate_non_empty (at_issuer_persona_id t) "issuer persona id" ;?
  validate_non_empty (at_issuer_signature_hex t) "issuer signature" ;?
  (if (at_expires_at t <=? at_issued_at t)%Z
   then Err (VE.new "admission token expiry must be after issue time") else Ok tt) ;?
  Ok tt.

Record InviteScope := mkInviteScope { is_single_use : bool; is_expires_at : option Z }.
Definition InviteScope_single_use : InviteScope := mkInviteScope true None.
Definition InviteScope_single_use_with_expiry (expires_at : Z) : InviteScope :=
  mkInviteScope true (Some expires_at).
Definition InviteScope_is_expired (s : InviteScope) (now_epoch_secs : Z) : bool :=
  match is_expires_at s with Some exp => (exp <=? now_epoch_secs)%Z | None => false end.

Record RelayEnvelope := mkRelayEnvelope { re_id : string; re_opaque_payload : bytes }.
Record SyncBatch := mkSyncBatch { sb_id : string; sb_event_ids : list string }.

Definition EndpointDescriptor_validate (d : EndpointDescriptor) : verdict :=
  validate_non_empty (ep_peer_id d) "peer id" ;?
  validate_non_empty (ep_device_id d) "device id" ;?
  validate_non_empty (ep_transport_hint d) "transport hint".

(** ** Cursors and batches *)

Definition new_cursor (peer_id : string) : PeerCursor := mkPeerCursor peer_id None.
Definition new_batch (id : string) (event_ids : list string) : SyncBatch := mkSyncBatch id event_ids.

(** [iter().position(|x| x == v)] *)
Fixpoint position (v : string) (l : list string) : option nat :=
  match l with
  | [] => None
  | x :: l' => if bool_decide (x = v) then Some 0 else S <$> position v l'
  end.

Definition plan_pull_batch (cursor : PeerCursor) (batch_id : string)
  (remote_event_ids : list string) (local_has_event : string → bool) : SyncBatch :=
  let start_index :=
    match pcu_last_event_id cursor with
    | Some last =>
        match position last remote_event_ids with Some index => index + 1 | None => 0 end
    | None => 0
    end in
  new_batch batch_id
    (List.filter (λ event_id, negb (local_has_event event_id)) (drop start_index remote_event_ids)).

Definition advance_cursor (cursor : PeerCursor) (batch : SyncBatch) : PeerCursor :=
  match last (sb_event_ids batch) with
  | Some last_event_id => mkPeerCursor (pcu_peer_id cursor) (Some last_event_id)
  | None => cursor
  end.

(** ** Event constructors and transport hints *)

Definition relay_hint_updated_event (peer_id device_id transport_hint : string) : EventBody :=
  RelayHintUpdated (mkRelayHintUpdated peer_id device_id transport_hint).
Definition endpoint_rotated_event (peer_id device_id previous_transport_hint new_transport_hint : string)
  : EventBody :=
  EndpointRotated (mkEndpointRotated peer_id device_id previous_transport_hint new_transport_hint).
Definition relay_shutdown_notice_event (relay_peer_id reason : string) (deadline_epoch : Z) : EventBody :=
  RelayShutdownNotice (mkRelayShutdownNotice relay_peer_id reason deadline_epoch).

Record RelayTransportRoute := mkRelayTransportRoute { rtr_bind_address : string; rtr_peer_id : string }.

Definition build_relay_transport_hint (bind_address peer_id : string) : string :=
  "relay://" +:+ bind_address +:+ "/mailbox/" +:+ peer_id.

(** [str::split_once] with a string: at the first occurrence *)
Definition split_once_str (p l : bytes) : option (bytes * bytes) :=
  match find_on p l with
  | Some n => Some (take n l, drop (n + length p) l)
  | None => None
  end.

Definition parse_relay_transport_hint (hint : string) : result RelayTransportRoute ValidationError :=
  let? remainder := ok_or (strip_prefix_on (to_bytes "relay://") (to_bytes hint))
                      (VE.new "transport hint must start with relay://") in
  let? parts := ok_or (split_once_str (to_bytes "/mailbox/") remainder)
                  (VE.new "transport hint must include /mailbox/<peer-id>") in
  (if bool_decide (trim_on parts.1 = [])
   then Err (VE.new "transport hint bind address must not be empty") else Ok tt) ;?
  (if bool_decide (trim_on parts.2 = [])
   then Err (VE.new "transport hint peer id must not be empty") else Ok tt) ;?
  Ok (mkRelayTransportRoute (of_bytes parts.1) (of_bytes parts.2)).

(** ** The wire form *)

(** rmp_serde for one type: [to_vec] (which the source expects to succeed) and [from_slice]. *)
Class MsgPack (T : Type) := {
  rmp_to_vec : T → bytes;
  rmp_from_slice : bytes → result T string
}.
Class MsgPackLaws (T : Type) `{!MsgPack T} : Prop :=
  rmp_roundtrip (x : T) : rmp_from_slice (rmp_to_vec x) = Ok x.

Record WireEventRef := mkWireEventRef { wr_relation : string; wr_target_event_id : string }.

Record WireEvent := mkWireEvent {
  we_event_id : string;
  we_schema_version : string;
  we_event_type : string;
  we_subject_kind : string;
  we_subject_id : string;
  we_signer_kind : string;
  we_signer_id : string;
  we_signer_role : string;
  we_signer_key_id : string;
  we_signer_public_key : string;
  we_payload : bytes;
  we_signature : string;
  we_refs : list WireEventRef
}.

Record WireInvite := mkWireInvite {
  wi_inviter_name : string;
  wi_inviter_persona_id : string;
  wi_relay_bind_address : string;
  wi_identity_events : list WireEvent
}.

Record WireSyncBatch := mkWireSyncBatch {
  ws_source_peer_id : string;
  ws_profile : string;
  ws_batch_id : string;
  ws_cursor_event_id : option string;
  ws_events : list WireEvent
}.

Record WireRelayEnvelope := mkWireRelayEnvelope { wre_id : string; wre_opaque_payload : bytes }.

Record WireAdmissionToken := mkWireAdmissionToken {
  wa_token_id : string;
  wa_persona_id : string;
  wa_issuer_persona_id : string;
  wa_issued_at : Z;
  wa_expires_at : Z;
  wa_threshold_met : f32;
  wa_issuer_signature_hex : string
}.

Record WireRelaySubmission := mkWireRelaySubmission {
  wrs_source_persona_id : option string;
  wrs_target_peer_id : option string;
  wrs_envelope : WireRelayEnvelope;
  wrs_admission_token : option WireAdmissionToken
}.

Record PortableInvite := mkPortableInvite {
  pi_inviter_name : string;
  pi_inviter_persona_id : string;
  pi_relay_bind_address : string;
  pi_identity_events : list EventEnvelope
}.

Record PortableSyncBatch := mkPortableSyncBatch {
  psb_source_peer_id : string;
  psb_profile : SyncProfile;
  psb_batch : SyncBatch;
  psb_cursor_event_id : option string;
  psb_events : list EventEnvelope
}.

Record PortableRelaySubmission := mkPortableRelaySubmission {
  prs_source_persona_id : option string;
  prs_target_peer_id : option string;
  prs_envelope : RelayEnvelope;
  prs_admission_token : option AdmissionToken
}.

Definition wire_ref_from (r : EventRef) : WireEventRef :=
  mkWireEventRef (EventRefRelation_as_str (ref_relation r)) (ref_target_event_id r).

Definition wire_event_from (e : EventEnvelope) : WireEvent :=
  mkWireEvent (ev_event_id e) (SchemaVersion_display (ev_schema_version e))
    (EventType_as_str (ev_event_type e))
    (SubjectKind_as_str (es_kind (ev_subject e))) (es_subject_id (ev_subject e))
    (SubjectKind_as_str (es_kind (sb_signer (ev_signer_binding e))))
    (es_subject_id (sb_signer (ev_signer_binding e)))
    (KeyRole_as_str (sb_role (ev_signer_binding e))) (sb_key_id (ev_signer_binding e))
    (ev_signer e) (ev_payload e) (ev_signature e) (wire_ref_from <$> ev_refs e).

Definition wire_ref_to (r : WireEventRef) : result EventRef ValidationError :=
  let? relation := ok_or (EventRefRelation_parse (wr_relation r)) (VE.new "invalid ref relation") in
  Ok (mkEventRef relation (wr_target_event_id r) 0).

Section Wire.
Context {H : HexOps}.

Definition wire_event_to_envelope (w : WireEvent) : result EventEnvelope ValidationError :=
  let? schema_version := ok_or (SchemaVersion_parse (we_schema_version w))
                           (VE.new "invalid schema version") in
  let? event_type := ok_or (EventType_parse (we_event_type w)) (VE.new "invalid event type") in
  let? subject_kind := ok_or (SubjectKind_parse (we_subject_kind w)) (VE.new "invalid subject kind") in
  let subject := mkEventSubject subject_kind (we_subject_id w) in
  let? signer_kind := ok_or (SubjectKind_parse (we_signer_kind w)) (VE.new "invalid signer kind") in
  let? role := ok_or (KeyRole_parse (we_signer_role w)) (VE.new "invalid signer role") in
  let signer_binding := mkSignerBinding (mkEventSubject signer_kind (we_signer_id w))
                          (we_signer_key_id w) role in
  let? refs := collect_results wire_ref_to (we_refs w) in
  from_stored_parts schema_version (we_event_id w) event_type subject signer_binding
    (we_signer_public_key w) (we_payload w) refs (we_signature w).

Definition PortableInvite_encode `{!MsgPack WireInvite} (i : PortableInvite) : bytes :=
  rmp_to_vec (mkWireInvite (pi_inviter_name i) (pi_inviter_persona_id i) (pi_relay_bind_address i)
                (wire_event_from <$> pi_identity_events i)).

Definition PortableInvite_decode `{!MsgPack WireInvite} (payload : bytes)
  : result PortableInvite ValidationError :=
  let? wire := map_err (λ err, VE.new ("invite decode: " +:+ err)) (rmp_from_slice payload) in
  let? identity_events := collect_results wire_event_to_envelope (wi_identity_events wire) in
  Ok (mkPortableInvite (wi_inviter_name wire) (wi_inviter_persona_id wire)
        (wi_relay_bind_address wire) identity_events).

Definition PortableSyncBatch_encode `{!MsgPack WireSyncBatch} (b : PortableSyncBatch) : bytes :=
  rmp_to_vec (mkWireSyncBatch (psb_source_peer_id b) (SyncProfile_as_str (psb_profile b))
                (sb_id (psb_batch b)) (psb_cursor_event_id b) (wire_event_from <$> psb_events b)).

Definition PortableSyncBatch_decode `{!MsgPack WireSyncBatch} (payload : bytes)
  : result PortableSyncBatch ValidationError :=
  let? wire := map_err (λ err, VE.new ("msgpack decode: " +:+ err)) (rmp_from_slice payload) in
  let? profile := ok_or (SyncProfile_parse (ws_profile wire)) (VE.new "invalid sync profile") in
  let? events := collect_results wire_event_to_envelope (ws_events wire) in
  Ok (mkPortableSyncBatch (ws_source_peer_id wire) profile
        (mkSyncBatch (ws_batch_id wire) (we_event_id <$> ws_events wire))
        (ws_cursor_event_id wire) events).

End Wire.

Definition PortableRelayEnvelope_encode `{!MsgPack WireRelayEnvelope} (e : RelayEnvelope) : bytes :=
  rmp_to_vec (mkWireRelayEnvelope (re_id e) (re_opaque_payload e)).
Definition PortableRelayEnvelope_decode `{!MsgPack WireRelayEnvelope} (payload : bytes)
  : result RelayEnvelope ValidationError :=
  let? wire := map_err (λ err, VE.new ("msgpack decode: " +:+ err)) (rmp_from_slice payload) in
  Ok (mkRelayEnvelope (wre_id wire) (wre_opaque_payload wire)).

Definition wire_token_from (t : AdmissionToken) : WireAdmissionToken :=
  mkWireAdmissionToken (at_token_id t) (at_persona_id t) (at_issuer_persona_id t) (at_issued_at t)
    (at_expires_at t) (at_threshold_met t) (at_issuer_signature_hex t).

Definition PortableRelaySubmission_encode `{!MsgPack WireRelaySubmission}
  (s : PortableRelaySubmission) : bytes :=
  rmp_to_vec (mkWireRelaySubmission (prs_source_persona_id s) (prs_target_peer_id s)
    (mkWireRelayEnvelope (re_id (prs_envelope s)) (re_opaque_payload (prs_envelope s)))
    (wire_token_from <$> prs_admission_token s)).

Definition PortableRelaySubmission_decode `{!MsgPack WireRelaySubmission} (payload : bytes)
  : result PortableRelaySubmission ValidationError :=
  let? wire := map_err (λ err, VE.new ("msgpack decode: " +:+ err)) (rmp_from_slice payload) in
  let? admission_token :=
    match wrs_admission_token wire with
    | Some wt =>
        let? threshold := TrustThreshold_new (wa_threshold_met wt) in
        let token := mkAdmissionToken (wa_token_id wt) (wa_persona_id wt) (wa_issuer_persona_id wt)
                       (wa_issued_at wt) (wa_expires_at wt) threshold (wa_issuer_signature_hex wt) in
        AdmissionToken_validate token ;?
        Ok (Some token)
    | None => Ok None
    end in
  Ok (mkPortableRelaySubmission (wrs_source_persona_id wire) (wrs_target_peer_id wire)
        (mkRelayEnvelope (wre_id (wrs_envelope wire)) (wre_opaque_payload (wrs_envelope wire)))
        admission_token).

Definition wrap_for_relay (id : string) (opaque_payload : bytes) : RelayEnvelope :=
  mkRelayEnvelope id opaque_payload.

(** ** Admission *)

Definition verify_admission_token (token : AdmissionToken) (expected_source_persona_id : string)
  (required_threshold : TrustThreshold) (trusted_issuer_keys : gmap string string)
  (now_epoch_secs : Z) (verify : Verifier) : RelayAdmission :=
  match AdmissionToken_validate token with
  | Err err => Reject ("invalid admission token: " +:+ message err)
  | Ok _ =>
      if negb (bool_decide (at_persona_id token = expected_source_persona_id))
      then Reject "admission token persona does not match submission source"
      else if (now_epoch_secs <? at_issued_at token)%Z
      then Reject "admission token is not valid yet"
      else if (at_expires_at token <=? now_epoch_secs)%Z
      then Reject "admission token expired"
      else if SFltb (at_threshold_met token) required_threshold
      then Reject ("admission token threshold " +:+ f32_fixed 2 (at_threshold_met token)
                   +:+ " does not satisfy relay threshold " +:+ f32_fixed 2 required_threshold)
      else match trusted_issuer_keys !! at_issuer_persona_id token with
           | None => Reject ("issuer " +:+ at_issuer_persona_id token +:+ " is not in relay trust set")
           | Some issuer_public_key =>
               if negb (verify issuer_public_key (signing_payload token) (at_issuer_signature_hex token))
               then Reject "admission token signature is invalid"
               else Accept
           end
  end.

Definition check_relay_admission (mode : RelayMode) (source_persona_id : string)
  (source_trust_score : option f32) (threshold : option TrustThreshold) (allowlist : list string)
  : RelayAdmission :=
  match mode with
  | RM_Open => Accept
  | RM_TrustGated =>
      match threshold with
      | None => Reject "trust-gated relay requires a configured threshold"
      | Some threshold =>
          match source_trust_score with
          | Some score =>
              if is_met_by threshold score then Accept
              else Reject ("trust score " +:+ f32_fixed 2 score +:+ " does not meet threshold "
                           +:+ f32_fixed 2 threshold)
          | None => Reject "no trust score available for source"
          end
      end
  | RM_NetworkScoped =>
      if existsb (λ id, bool_decide (id = source_persona_id)) allowlist then Accept
      else Reject ("persona " +:+ source_persona_id +:+ " is not in relay allowlist")
  end.

Definition check_relay_submission_admission (mode : RelayMode) (submission : PortableRelaySubmission)
  (threshold : option TrustThreshold) (allowlist : list string)
  (trusted_issuer_keys : gmap string string) (now_epoch_secs : Z) (verify : Verifier)
  : RelayAdmission :=
  match mode with
  | RM_Open => Accept
  | RM_NetworkScoped =>
      match prs_source_persona_id submission with
      | None => Reject "network-scoped relay requires source persona metadata"
      | Some source_persona_id =>
          check_relay_admission mode source_persona_id None None allowlist
      end
  | RM_TrustGated =>
      match prs_source_persona_id submission with
      | None => Reject "trust-gated relay requires source persona metadata"
      | Some source_persona_id =>
          match threshold with
          | None => Reject "trust-gated relay requires a configured threshold"
          | Some required_threshold =>
              match prs_admission_token submission with
              | None => Reject "trust-gated relay requires an admission token"
              | Some token =>
                  verify_admission_token token source_persona_id required_threshold
                    trusted_issuer_keys now_epoch_secs verify
              end
          end
      end
  end.

(** ** The light profile *)

Record LightSyncContext := mkLightSyncContext {
  lc_root_ids : gset string;
  lc_persona_ids : gset string;
  lc_device_ids : gset string;
  lc_recovery_request_ids : gset string
}.

Definition is_event_relevant_to_context (e : EventEnvelope) (context : LightSyncContext) : bool :=
  let root i := bool_decide (i ∈ lc_root_ids context) in
  let persona i := bool_decide (i ∈ lc_persona_ids context) in
  let device i := bool_decide (i ∈ lc_device_ids context) in
  let request i := bool_decide (i ∈ lc_recovery_request_ids context) in
  match ev_body e with
  | RootCreated body => root (rc_root_id body)
  | RootKeyRotated body => root (rkr_root_id body)
  | RootRevoked body => root (rr_root_id body)
  | RecoveryPolicyCreated body => root (rpc_root_id body)
  | GuardianEnrolled body => root (ge_root_id body)
  | GuardianKeyRotated body => root (gkr_root_id body)
  | DeviceAdded body => root (da_root_id body) || device (da_device_id body)
  | DeviceEnrolled body => root (de_root_id body) || device (de_device_id body)
  | DeviceKeyRotated body => root (dkr_root_id body) || device (dkr_device_id body)
  | DeviceEncryptionKeyRotated body => root (dekr_root_id body) || device (dekr_device_id body)
  | DeviceRevoked body => root (drv_root_id body) || device (drv_device_id body)
  | DeviceFrozen body => root (df_root_id body) || device (df_device_id body)
  | DeviceReplaced body =>
      root (drp_root_id body) || device (drp_replaced_device_id body)
      || device (drp_replacement_device_id body)
  | PersonaCreated body => root (pc_root_id body) || persona (pc_persona_id body)
  | PersonaKeyRotated body => root (pkr_root_id body) || persona (pkr_persona_id body)
  | PersonaRevoked body => root (prv_root_id body) || persona (prv_persona_id body)
  | TrustAttested body => persona (ta_attester_persona_id body) || persona (ta_subject_persona_id body)
  | TrustRevoked body => persona (tr_attester_persona_id body)
  | RecoveryRequested body =>
      root (rrq_root_id body) || device (rrq_target_device_id body) || request (rrq_request_id body)
  | RecoveryApproved body => request (rap_request_id body)
  | RecoveryContested body => request (rct_request_id body)
  | RecoveryRejected body => request (rrj_request_id body)
  | RecoveryExecuted body => request (rex_request_id body)
  | RelayHintUpdated body => device (rhu_device_id body)
  | EndpointRotated body => device (er_device_id body)
  | RelayShutdownNotice _ => true
  | StorageRelationshipCreated body => root (src_root_id body)
  | StorageLedgerUpdated body => root (slu_root_id body)
  | StorageManifestPublished body =>
      root (smp_root_id body)
      || existsb (λ access, device (mda_device_id access)) (fm_authorized_devices (smp_manifest body))
  | MessageSent body => persona (ms_sender_persona_id body) || persona (ms_recipient_persona_id body)
  | ContentPublished body => persona (cp_author_persona_id body)
  | DisclosureRevoked body => persona (dr_revoker_persona_id body)
  | GrantOfferCreated body => persona (goc_issuer_persona_id body)
  | GrantOfferClaimed body => persona (gcl_recipient_persona_id body)
  | GrantOfferRevoked body => persona (gor_issuer_persona_id body)
  | BadgeIssued body => persona (bi_issuer_persona_id body) || persona (bi_recipient_persona_id body)
  | BadgeRevoked body => persona (br_revoker_persona_id body)
  | BadgeDisputed body => persona (bd_disputer_persona_id body)
  | CredentialDeposited body => persona (cd_issuer_id body)
  | CredentialRevoked body => persona (cr_revoker_id body)
  end.

Definition relevant_event_ids_for_context (events : list EventEnvelope) (context : LightSyncContext)
  : gset string :=
  list_to_set (ev_event_id <$> List.filter (λ e, is_event_relevant_to_context e context) events).

Definition filter_batch_by_profile (batch : SyncBatch) (profile : SyncProfile)
  (relevant_ids : gset string) : SyncBatch :=
  match profile with
  | SP_Full => batch
  | SP_Light =>
      mkSyncBatch (sb_id batch) (List.filter (λ id, bool_decide (id ∈ relevant_ids)) (sb_event_ids batch))
  end.

(** ** Lemmas *)

(** *** Wire events *)

(** An event as it arrives: the wire form has no sequence numbers. *)
Definition unsequenced (e : EventEnvelope) : EventEnvelope :=
  mkEventEnvelope (ev_schema_version e) (ev_event_id e) (ev_event_type e) (ev_subject e)
    (ev_signer_binding e) (ev_signer e) (ev_payload e)
    ((λ r, mkEventRef (ref_relation r) (ref_target_event_id r) 0) <$> ev_refs e)
    (ev_signature e) (ev_body e).

Lemma collect_results_fmap {A B C E} (f : B → result C E) (g : A → B) (h : A → C) (l : list A) :
  Forall (λ x, f (g x) = Ok (h x)) l → collect_results f (g <$> l) = Ok (h <$> l).
Proof. induction 1 as [|x l Hx _ IH]; [done|]. csimpl. by rewrite Hx; simpl; rewrite IH. Qed.

Lemma wire_refs_roundtrip refs :
  collect_results wire_ref_to (wire_ref_from <$> refs)
  = Ok ((λ r, mkEventRef (ref_relation r) (ref_target_event_id r) 0) <$> refs).
Proof.
  apply collect_results_fmap, Forall_true. intros r. unfold wire_ref_to, wire_ref_from. cbn.
  by destruct (ref_relation r).
Qed.

Lemma unsequenced_validate {H : HexOps} e :
  EventEnvelope_validate (unsequenced e) = EventEnvelope_validate e.
Proof.
  unfold EventEnvelope_validate, unsequenced. cbn [ev_event_id ev_payload ev_subject ev_signer_binding
    ev_body ev_event_type ev_refs].
  assert (∀ refs, try_for_each EventRef_validate
    ((λ r, mkEventRef (ref_relation r) (ref_target_event_id r) 0) <$> refs)
    = try_for_each EventRef_validate refs) as Ht.
  { induction refs as [|r refs IH]; [done|]. csimpl. by rewrite IH. }
  assert (∀ refs seen, duplicate_refs
    ((λ r, mkEventRef (ref_relation r) (ref_target_event_id r) 0) <$> seen)
    ((λ r, mkEventRef (ref_relation r) (ref_target_event_id r) 0) <$> refs)
    = duplicate_refs seen refs) as Hd.
  { induction refs as [|r refs IH]; intros seen; [done|]. csimpl.
    rewrite <-(IH (seen ++ [r])), fmap_app. csimpl.
    assert (∀ l, existsb (λ x, bool_decide (ref_relation x = ref_relation r)
        && bool_decide (ref_target_event_id x = ref_target_event_id r))
        ((λ r, mkEventRef (ref_relation r) (ref_target_event_id r) 0) <$> l)
      = existsb (λ x, bool_decide (ref_relation x = ref_relation r)
        && bool_decide (ref_target_event_id x = ref_target_event_id r)) l) as Hx.
    { induction l as [|y l IHl]; [done|]. csimpl. by rewrite IHl. }
    by rewrite Hx. }
  by rewrite Ht, (Hd _ []).
Qed.

(** The events a peer may send: valid, of the current schema, with a body that its payload
    determines. *)
Record sendable {H : HexOps} (e : EventEnvelope) : Prop := {
  sd_valid : EventEnvelope_validate e = Ok tt;
  sd_version : ev_schema_version e = SCHEMA_V0_1_0;
  sd_body : EventBody_decode_canonical (ev_payload e) = Ok (ev_body e)
}.

Lemma wire_event_roundtrip {H : HexOps} e :
  sendable e → wire_event_to_envelope (wire_event_from e) = Ok (unsequenced e).
Proof.
  intros [Hv Hs Hb]. unfold wire_event_to_envelope, wire_event_from.
  cbn [we_schema_version we_event_type we_subject_kind we_subject_id we_signer_kind we_signer_id
       we_signer_role we_signer_key_id we_signer_public_key we_payload we_signature we_refs we_event_id].
  rewrite Hs. change (SchemaVersion_parse (SchemaVersion_display SCHEMA_V0_1_0)) with (Some SCHEMA_V0_1_0).
  assert (EventType_parse (EventType_as_str (ev_event_type e)) = Some (ev_event_type e)) as ->
    by (by destruct (ev_event_type e)).
  assert (∀ k, SubjectKind_parse (SubjectKind_as_str k) = Some k) as Hk by (by intros []).
  assert (∀ k, KeyRole_parse (KeyRole_as_str k) = Some k) as Hro by (by intros []).
  cbn [ok_or result_bind]. rewrite !Hk, Hro, wire_refs_roundtrip. cbn [ok_or result_bind].
  unfold from_stored_parts. rewrite Hb. cbn [result_bind].
  assert (∀ s, mkEventSubject (es_kind s) (es_subject_id s) = s) as Hsub by (by intros []).
  assert (∀ b, mkSignerBinding (sb_signer b) (sb_key_id b) (sb_role b) = b) as Hbind by (by intros []).
  rewrite !Hsub, Hbind, <-Hs. fold (unsequenced e).
  by rewrite unsequenced_validate, Hv.
Qed.

Lemma unsequenced_lines_ok e : envelope_lines_ok e → envelope_lines_ok (unsequenced e).
Proof.
  intros (? & ? & ? & ? & Hr). split_and!; try done.
  unfold unsequenced. cbn [ev_refs]. apply Forall_fmap. eapply Forall_impl; [exact Hr|].
  intros x [? _]. by split.
Qed.

(** *** Pulling *)

Lemma position_app_r v l r : v ∉ l → position v (l ++ r) = (λ i, length l + i) <$> position v r.
Proof.
  induction l as [|x l IH]; intros Hv; simpl; [by destruct (position v r)|].
  apply not_elem_of_cons in Hv as [Hx Hv]. rewrite bool_decide_eq_false_2 by done.
  rewrite IH by done. by destruct (position v r).
Qed.

Lemma position_here v l r : v ∉ l → position v (l ++ v :: r) = Some (length l).
Proof. intros Hv. rewrite position_app_r by done. simpl. rewrite bool_decide_eq_true_2 by done. simpl. f_equal. lia. Qed.

Lemma position_None v l : position v l = None → v ∉ l.
Proof.
  induction l as [|x l IH]; simpl; [by intros _ ?%elem_of_nil|]. case_bool_decide; [done|].
  destruct (position v l); [done|]. intros _. apply not_elem_of_cons. split; [congruence|by apply IH].
Qed.

Lemma position_Some v l i : position v l = Some i → ∃ a b, l = a ++ v :: b ∧ length a = i ∧ v ∉ a.
Proof.
  revert i. induction l as [|x l IH]; intros i; simpl; [done|]. case_bool_decide as Hx.
  - intros [= <-]. subst. exists [], l. set_solver.
  - destruct (position v l) as [j|]; [|done]. intros [= <-].
    destruct (IH j eq_refl) as (a & b & -> & Hj & Hin). exists (x :: a), b. simpl. set_solver.
Qed.

(** Where a pull starts: the ids before the start, and the ids it looks at. *)
Definition pull_suffix (cursor : PeerCursor) (remote : list string) : list string :=
  drop match pcu_last_event_id cursor with
       | Some last => match position last remote with Some index => index + 1 | None => 0 end
       | None => 0
       end remote.

Lemma pull_suffix_at peer v a b :
  v ∉ a → pull_suffix (mkPeerCursor peer (Some v)) (a ++ v :: b) = b.
Proof.
  intros Hv. unfold pull_suffix. simpl. rewrite position_here by done.
  rewrite drop_app_ge by lia. by replace (length a + 1 - length a) with 1 by lia.
Qed.

Lemma filter_last_split (f : string → bool) l v :
  last (List.filter f l) = Some v →
  ∃ a b, l = a ++ v :: b ∧ Forall (λ x, f x = false) b.
Proof.
  induction l as [|x l IH] using rev_ind; [done|]. rewrite List.filter_app. simpl.
  destruct (f x) eqn:Hx.
  - rewrite last_snoc. intros [= ->]. exists l, []. by rewrite Forall_nil.
  - rewrite app_nil_r. intros (a & b & -> & Hb)%IH. exists a, (b ++ [x]).
    rewrite <-(assoc_L (++)). split; [done|]. apply Forall_app. auto.
Qed.

Lemma filter_all_false (f : string → bool) l : Forall (λ x, f x = false) l → List.filter f l = [].
Proof. induction 1 as [|x l Hx _ IH]; simpl; [done|]. by rewrite Hx. Qed.

(** A cursor that is found, or none at all: the ids from the start on are a suffix. *)
Lemma pull_suffix_app cursor remote new :
  (∀ v, pcu_last_event_id cursor = Some v → v ∉ new ∨ v ∈ remote) →
  pull_suffix cursor (remote ++ new) = pull_suffix cursor remote ++ new.
Proof.
  intros Hc. unfold pull_suffix. destruct (pcu_last_event_id cursor) as [v|]; [|done].
  destruct (position v remote) as [i|] eqn:Ei.
  - apply position_Some in Ei as (a & b & -> & <- & Hv).
    rewrite <-(assoc_L (++)). simpl. rewrite position_here by done.
    change (a ++ v :: b ++ new) with (a ++ (v :: b) ++ new). rewrite (assoc_L (++)).
    rewrite drop_app_le; [done|]. rewrite length_app. simpl. lia.
  - assert (v ∉ remote) as Hn by (by apply position_None). rewrite position_app_r by done.
    destruct (Hc v eq_refl) as [Hv|]; [|done].
    destruct (position v new) as [j|] eqn:Ej; [|done].
    apply position_Some in Ej as (a & b & -> & _). set_solver.
Qed.

Lemma pull_suffix_split cursor remote : ∃ pre, remote = pre ++ pull_suffix cursor remote.
Proof. unfold pull_suffix. eexists. symmetry. apply take_drop. Qed.

(** *** Signed admission tokens *)

Definition newlines (l : bytes) : nat := length (List.filter (λ a, bool_decide (a = newline)) l).

Lemma newlines_app l k : newlines (l ++ k) = newlines l + newlines k.
Proof. unfold newlines. by rewrite List.filter_app, length_app. Qed.

Lemma newlines_cons l : newlines (newline :: l) = S (newlines l).
Proof. done. Qed.

Lemma newlines_0 l : newlines l = 0 ↔ newline ∉ l.
Proof.
  induction l as [|a l IH]; [split; [set_solver|done]|]. unfold newlines in *. simpl.
  case_bool_decide as Ha; simpl; rewrite not_elem_of_cons, <-?IH; naive_solver.
Qed.

Definition token_lines_ok (t : AdmissionToken) : Prop :=
  line_ok (at_token_id t) ∧ line_ok (at_persona_id t) ∧ line_ok (at_issuer_persona_id t) ∧
  (0 ≤ at_issued_at t)%Z ∧ (0 ≤ at_expires_at t)%Z.

Lemma f32_fmt6_line_ok x : line_ok (f32_fmt6 x).
Proof.
  assert (∀ n s, line_ok s → line_ok (pad_zeros n s)) as Hpad.
  { induction n as [|n IH]; intros s Hs; [done|]. simpl. apply line_ok_app; [|by apply IH].
    apply (bool_decide_eq_true_1 _). reflexivity. }
  unfold f32_fmt6, f32_fixed. destruct x as [[]|[]| |[] m e];
    try (apply (bool_decide_eq_true_1 _); reflexivity);
    repeat apply line_ok_app; try apply u64_to_string_no_newline; try apply Hpad, u64_to_string_no_newline;
    apply (bool_decide_eq_true_1 _); reflexivity.
Qed.

Lemma signing_payload_eq t :
  signing_payload t =
  to_bytes "type=admission-token" ++ newline :: to_bytes "token_id=" ++ to_bytes (at_token_id t)
  ++ newline :: to_bytes "persona_id=" ++ to_bytes (at_persona_id t)
  ++ newline :: to_bytes "issuer_persona_id=" ++ to_bytes (at_issuer_persona_id t)
  ++ newline :: to_bytes "issued_at=" ++ to_bytes (u64_to_string (at_issued_at t))
  ++ newline :: to_bytes "expires_at=" ++ to_bytes (u64_to_string (at_expires_at t))
  ++ newline :: to_bytes "threshold_met=" ++ to_bytes (f32_fmt6 (at_threshold_met t)) ++ [newline].
Proof.
  unfold signing_payload. rewrite !to_bytes_app. by change (to_bytes nl) with [newline].
Qed.

Lemma signing_payload_newlines t :
  newlines (signing_payload t) = 7 + newlines (to_bytes (at_token_id t))
    + newlines (to_bytes (at_persona_id t)) + newlines (to_bytes (at_issuer_persona_id t)).
Proof.
  rewrite signing_payload_eq. repeat (rewrite newlines_app || rewrite newlines_cons).
  rewrite (proj2 (newlines_0 _) (u64_to_string_no_newline (at_issued_at t))).
  rewrite (proj2 (newlines_0 _) (u64_to_string_no_newline (at_expires_at t))).
  rewrite (proj2 (newlines_0 _) (f32_fmt6_line_ok (at_threshold_met t))).
  repeat match goal with |- context [newlines (to_bytes ?s)] =>
    let r := eval vm_compute in (newlines (to_bytes s)) in
    match r with 0 => change (newlines (to_bytes s)) with 0 end end.
  change (newlines []) with 0. lia.
Qed.

(** A token with the signing payload of a clean one is clean, and has its fields. *)
Lemma signing_payload_fields t t' :
  token_lines_ok t → (0 ≤ at_issued_at t')%Z → (0 ≤ at_expires_at t')%Z →
  signing_payload t = signing_payload t' →
  at_token_id t = at_token_id t' ∧ at_persona_id t = at_persona_id t' ∧
  at_issuer_persona_id t = at_issuer_persona_id t' ∧ at_issued_at t = at_issued_at t' ∧
  at_expires_at t = at_expires_at t' ∧ f32_fmt6 (at_threshold_met t) = f32_fmt6 (at_threshold_met t').
Proof.
  intros (H1 & H2 & H3 & H4 & H5) G4 G5 Heq.
  pose proof (f_equal newlines Heq) as Hn. rewrite !signing_payload_newlines in Hn.
  unfold line_ok in H1, H2, H3. rewrite <-newlines_0 in H1, H2, H3. rewrite H1, H2, H3 in Hn.
  assert (newlines (to_bytes (at_token_id t')) = 0) as G1 by lia.
  assert (newlines (to_bytes (at_persona_id t')) = 0) as G2 by lia.
  assert (newlines (to_bytes (at_issuer_persona_id t')) = 0) as G3 by lia.
  rewrite newlines_0 in H1, H2, H3, G1, G2, G3. rewrite !signing_payload_eq in Heq.
  apply app_inv_head, (app_inv_head [newline]) in Heq.
  apply line_inj in Heq as [E1 Heq]; [|done..]. apply line_inj in Heq as [E2 Heq]; [|done..].
  apply line_inj in Heq as [E3 Heq]; [|done..].
  apply line_inj in Heq as [E4 Heq]; [|apply u64_to_string_no_newline..].
  apply line_inj in Heq as [E5 Heq]; [|apply u64_to_string_no_newline..].
  apply line_inj in Heq as [E6 _]; [|apply f32_fmt6_line_ok..].
  apply u64_to_string_inj in E4; [|done..]. apply u64_to_string_inj in E5; [|done..]. done.
Qed.

(** *** Comparison of thresholds *)

Lemma SFcompare_swap x y : SFcompare y x = CompOpp <$> SFcompare x y.
Proof.
  destruct x as [sx|sx| |sx mx ex], y as [sy|sy| |sy my ey]; simpl; try done;
    try (by destruct sx); try (by destruct sy); try (by destruct sx, sy).
  f_equal. change PosDef.Pos.compare_cont with Pos.compare_cont.
  rewrite (Z.compare_antisym ex ey).
  change (Pos.compare_cont Eq mx my) with (mx ?= my)%positive.
  change (Pos.compare_cont Eq my mx) with (my ?= mx)%positive.
  rewrite (Pos.compare_antisym mx my).
  destruct sx, sy, (ex ?= ey)%Z, (mx ?= my)%positive; done.
Qed.

Lemma unit_not_nan x : f32_in_unit x = true → x ≠ S754_nan.
Proof. intros Hx ->. discriminate. Qed.

Lemma not_lt_le x y :
  f32_in_unit x = true → f32_in_unit y = true → SFltb x y = false → SFleb y x = true.
Proof.
  intros Hx%unit_not_nan Hy%unit_not_nan. unfold SFltb, SFleb. rewrite (SFcompare_swap x y).
  destruct (SFcompare x y) as [[]|] eqn:E; [done..|].
  destruct x, y; simpl in E; try done; by destruct s.
Qed.

(** ** Properties *)

(** What a batch is after a trip over the wire: the same batch, each event without the sequence
    numbers of its references. A batch whose references carry none comes back as it was. *)
Theorem sync_batch_wire_form {H : HexOps} `{!MsgPack WireSyncBatch} `{!MsgPackLaws WireSyncBatch}
  (b : PortableSyncBatch) :
  Forall sendable (psb_events b) →
  sb_event_ids (psb_batch b) = ev_event_id <$> psb_events b →
  PortableSyncBatch_decode (PortableSyncBatch_encode b)
  = Ok (mkPortableSyncBatch (psb_source_peer_id b) (psb_profile b) (psb_batch b)
          (psb_cursor_event_id b) (unsequenced <$> psb_events b))
  ∧ (Forall (λ e, Forall (λ r, ref_seq r = 0%Z) (ev_refs e)) (psb_events b) →
     unsequenced <$> psb_events b = psb_events b).
Proof.
  intros Hs Hids. split.
  - unfold PortableSyncBatch_decode, PortableSyncBatch_encode. rewrite rmp_roundtrip. simpl.
    assert (SyncProfile_parse (SyncProfile_as_str (psb_profile b)) = Some (psb_profile b)) as ->
      by (by destruct (psb_profile b)). simpl.
    rewrite (collect_results_fmap _ _ unsequenced)
      by (eapply Forall_impl; [exact Hs|apply wire_event_roundtrip]). simpl.
    rewrite <-list_fmap_compose. destruct (psb_batch b) as [i ids]. simpl in *. by rewrite Hids.
  - clear. induction 1 as [|e es He _ IH]; [done|]. csimpl. rewrite IH. f_equal.
    destruct e. unfold unsequenced. simpl in *. f_equal.
    induction He as [|r refs Hr _ IHr]; [done|]. csimpl. rewrite IHr. f_equal. destruct r; simpl in *.
    by subst.
Qed.

(** Sequence numbers are part of what is signed and of what the log checks, and the wire form
    drops them: an event that continues the chain of its root (and that the log of the sender
    accepts) decodes to an event with another signing pre-image, which every log at the same
    head refuses. *)
Theorem synced_successor_rejected {H : HexOps} (s : MaterializedState) (e : EventEnvelope) root h n :
  sendable e → envelope_lines_ok e →
  EventBody_root_id (ev_body e) = Some root → root_chain_heads s !! root = Some (h, n) →
  (0 ≤ n < u64_max)%Z → check_chain s e = Ok tt →
  ∃ e', wire_event_to_envelope (wire_event_from e) = Ok e'
        ∧ signed_bytes e' ≠ signed_bytes e
        ∧ ∃ x, check_chain s e' = Err x.
Proof.
  intros Hs Hl Hroot Hhead Hn Hc. exists (unsequenced e).
  split; [by apply wire_event_roundtrip|].
  assert (u64_add n 1 = n + 1)%Z as Hadd.
  { unfold u64_add, u64_max in *. apply Z.mod_small. lia. }
  assert (previous_ref (unsequenced e)
          = (λ r, mkEventRef (ref_relation r) (ref_target_event_id r) 0) <$> previous_ref e) as Hp.
  { unfold previous_ref, unsequenced. cbn [ev_refs]. induction (ev_refs e) as [|r refs IH]; [done|].
    csimpl. by case_bool_decide. }
  unfold check_chain in *. cbn [unsequenced ev_body] in *. rewrite Hroot, Hhead in *. rewrite Hp.
  destruct (previous_ref e) as [r|] eqn:Er; [|done].
  cbn [fmap option_fmap option_map ref_seq ref_target_event_id]. rewrite Hadd in *.
  case_match eqn:E; [done|]. apply orb_false_iff in E as [_ Hseq].
  apply negb_false_iff, Z.eqb_eq in Hseq. split.
  - intros Hb%signed_bytes_fields; [|by apply unsequenced_lines_ok|done].
    destruct Hb as (_ & _ & _ & _ & Hrefs & _).
    unfold previous_ref in Hp, Er. rewrite Hrefs, Er in Hp. injection Hp as Hp.
    rewrite Hp in Hseq. simpl in Hseq. lia.
  - rewrite (proj2 (Z.eqb_neq 0 (n + 1))) by lia. rewrite orb_true_r. eauto.
Qed.

(** C35. Pulling makes progress and converges: once the events of a planned batch are local, the
    next plan, with the advanced cursor and against a remote log that has grown, asks exactly
    for the new events that are not local yet. *)
Theorem pull_converges cursor id id' remote new (has has' : string → bool) :
  let batch := plan_pull_batch cursor id remote has in
  NoDup (remote ++ new) →
  (∀ v, pcu_last_event_id cursor = Some v → v ∉ new) →
  (∀ i, has' i = true ↔ has i = true ∨ i ∈ sb_event_ids batch) →
  sb_event_ids (plan_pull_batch (advance_cursor cursor batch) id' (remote ++ new) has')
  = List.filter (λ i, negb (has' i)) new.
Proof.
  intros batch Hnd Hcur Hhas. change (sb_event_ids (plan_pull_batch ?c _ ?r ?h)) with
    (List.filter (λ i, negb (h i)) (pull_suffix c r)).
  assert (sb_event_ids batch = List.filter (λ i, negb (has i)) (pull_suffix cursor remote)) as Hb by done.
  unfold advance_cursor. rewrite Hb. destruct (last _) as [v|] eqn:Hlast.
  - destruct (filter_last_split _ _ _ Hlast) as (a & b & Hab & Hbf).
    destruct (pull_suffix_split cursor remote) as [pre Hpre]. rewrite Hab in Hpre.
    assert (remote ++ new = (pre ++ a) ++ v :: (b ++ new)) as Hrn
      by (rewrite Hpre, <-!(assoc_L (++)); done).
    assert (v ∉ pre ++ a) as Hv.
    { rewrite Hrn in Hnd. apply NoDup_app in Hnd as (_ & Hd & _). intros Hin. apply (Hd v Hin). set_solver. }
    rewrite Hrn, pull_suffix_at, List.filter_app by done.
    rewrite filter_all_false; [done|]. eapply Forall_impl; [exact Hbf|]. intros x Hx.
    apply negb_false_iff in Hx. apply negb_false_iff, Hhas. by left.
  - rewrite pull_suffix_app by (intros v Hv; left; by apply Hcur). rewrite List.filter_app.
    rewrite filter_all_false; [done|]. apply Forall_forall. intros x Hx.
    apply negb_false_iff, Hhas. destruct (has x) eqn:Ex; [by left|]. right. rewrite Hb.
    apply last_None in Hlast. rewrite Hlast. exfalso.
    assert (x ∈ []) as []%elem_of_nil. rewrite <-Hlast. apply list_elem_of_In, filter_In.
    rewrite Ex. split; [by apply list_elem_of_In|done].
Qed.

(** A token that may travel: its four texts are not blank, it expires after it was issued, and its threshold is a number from 0
    to 1. *)
Definition token_well_formed (t : AdmissionToken) : Prop :=
  Forall (λ s, str_trim s ≠ "") [at_token_id t; at_persona_id t; at_issuer_persona_id t; at_issuer_signature_hex t] ∧
  (at_issued_at t < at_expires_at t)%Z ∧ SFleb f32_zero (at_threshold_met t) = true ∧ SFleb (at_threshold_met t) f32_one = true.

Lemma validate_non_empty_spec value label : validate_non_empty value label = Ok tt ↔ str_trim value ≠ "".
Proof. unfold validate_non_empty. by destruct (str_trim value). Qed.

Lemma token_well_formed_spec t :
  token_well_formed t ↔ AdmissionToken_validate t = Ok tt ∧ f32_in_unit (at_threshold_met t) = true.
Proof.
  unfold token_well_formed, AdmissionToken_validate, f32_in_unit. rewrite andb_true_iff, !Forall_cons, Forall_nil, !seq_Ok, !validate_non_empty_spec.
  destruct (Z.leb_spec (at_expires_at t) (at_issued_at t)); naive_solver lia.
Qed.

Lemma decoded_token `{!MsgPack WireRelaySubmission} payload s t :
  PortableRelaySubmission_decode payload = Ok s → prs_admission_token s = Some t → token_well_formed t.
Proof.
  intros Hd Ht. apply token_well_formed_spec. unfold PortableRelaySubmission_decode in Hd.
  apply result_bind_Ok in Hd as (w & _ & Hd). apply result_bind_Ok in Hd as (o & Ho & [= <-]).
  simpl in Ht. subst o. destruct (wrs_admission_token w) as [wt|]; [|done].
  apply result_bind_Ok in Ho as (th & Hth & Ho). apply seq_Ok in Ho as [Hv [= <-]].
  split; [done|]. unfold TrustThreshold_new in Hth. simpl.
  destruct (f32_in_unit (wa_threshold_met wt)) eqn:E; [|done]. simpl in Hth. by simplify_eq.
Qed.

Lemma network_scoped_exact s threshold allowlist keys now verify :
  check_relay_submission_admission RM_NetworkScoped s threshold allowlist keys now verify = Accept ↔
  ∃ source, prs_source_persona_id s = Some source ∧ source ∈ allowlist.
Proof.
  unfold check_relay_submission_admission, check_relay_admission. destruct (prs_source_persona_id s) as [p|]; [|naive_solver].
  destruct (existsb _ allowlist) eqn:E.
  - apply existsb_exists in E as (x & Hx%list_elem_of_In & ->%bool_decide_eq_true). naive_solver.
  - split; [done|]. intros (q & [= <-] & Hin). apply not_true_iff_false in E as []. apply existsb_exists. exists p.
    rewrite <-list_elem_of_In, bool_decide_eq_true. done.
Qed.

(** Admission to a trust-gated relay. Let [issued key t] say that the holder of [key] signed the
    token [t], and suppose that a signature on a token can only come from there and that issuers
    do not put line breaks into tokens. Then a submission the relay accepts carries a token
    which a trusted issuer signed for the very persona the submission names, which is valid now
    and whose threshold meets the relay's; each field of it but the threshold is as signed, and the
    threshold is to six decimals. *)
Theorem trust_gated_admission_sound (verify : Verifier) (issued : string → AdmissionToken → Prop)
  (submission : PortableRelaySubmission) threshold allowlist keys now :
  (∀ key t sig, verify key (signing_payload t) sig = true →
     ∃ t0, issued key t0 ∧ signing_payload t0 = signing_payload t) →
  (∀ key t, issued key t → token_lines_ok t) →
  (∀ t, prs_admission_token submission = Some t →
     f32_in_unit (at_threshold_met t) = true ∧ in_u64 (at_issued_at t) ∧ in_u64 (at_expires_at t)) →
  (∀ t, threshold = Some t → f32_in_unit t = true) →
  check_relay_submission_admission RM_TrustGated submission threshold allowlist keys now verify = Accept →
  ∃ source token required key t0,
    prs_source_persona_id submission = Some source ∧ prs_admission_token submission = Some token
    ∧ threshold = Some required ∧ keys !! at_issuer_persona_id token = Some key
    ∧ issued key t0
    ∧ at_token_id t0 = at_token_id token ∧ at_persona_id t0 = source ∧ at_issuer_persona_id t0 = at_issuer_persona_id token
    ∧ at_issued_at t0 = at_issued_at token ∧ at_expires_at t0 = at_expires_at token
    ∧ (at_issued_at t0 ≤ now < at_expires_at t0)%Z
    ∧ is_met_by required (at_threshold_met token) = true
    ∧ f32_fmt6 (at_threshold_met t0) = f32_fmt6 (at_threshold_met token).
Proof.
  intros Hunf Hclean Htok Hthr. unfold check_relay_submission_admission.
  destruct (prs_source_persona_id submission) as [source|]; [|done].
  destruct threshold as [required|]; [|done].
  destruct (prs_admission_token submission) as [token|]; [|done].
  destruct (Htok token eq_refl) as (Hu & Hi & He). pose proof (Hthr required eq_refl) as Hr.
  unfold verify_admission_token. destruct (AdmissionToken_validate token); [|done].
  case_bool_decide as Hp; [|done]. simpl.
  destruct (now <? at_issued_at token)%Z eqn:Ei; [done|].
  destruct (at_expires_at token <=? now)%Z eqn:Ee; [done|].
  destruct (SFltb _ _) eqn:Et; [done|]. destruct (keys !! _) as [key|] eqn:Ek; [|done].
  destruct (verify key _ _) eqn:Ev; [|done]. intros _.
  destruct (Hunf _ _ _ Ev) as (t0 & Ht0 & Heq). pose proof (Hclean _ _ Ht0) as Hc.
  unfold in_u64 in *. apply signing_payload_fields in Heq as (Eid & Ep & Es & Eis & Eex & Eth);
    [|done|lia..].
  exists source, token, required, key, t0. apply Z.ltb_ge in Ei. apply Z.leb_gt in Ee.
  split_and!; try done; try congruence; try lia. by apply not_lt_le.
Qed.

(** C36. What a relay takes in. The token of a decoded submission has a token id, persona, issuer and signature that are not blank, expires
    after it was issued and has a threshold from 0 to 1; a submission whose token, if any, is like this is decoded from its encoding
    as it was (given that MessagePack reads back what it writes). A network-scoped relay accepts exactly the submissions that name a
    source on its list. A trust-gated relay accepts a submission with such a token when it was issued for the source, is valid now, has a
    threshold not below the relay's and a signature that verifies under the trusted key of its issuer. Suppose further that a signature
    under a key on the payload of a token is one the key's holder made on a token with that payload, that issuers put no line breaks
    into tokens, that the times of the token are 64-bit and that the relay's threshold is from 0 to 1. Then a decoded submission that a
    trust-gated relay accepts names a source and carries a token that the holder of a trusted issuer's key signed, with the same id,
    issuer and times, for this source; it is valid now; and the threshold it states meets the relay's and is the signed one to six
    decimals. *)
Theorem relay_submission_admitted `{!MsgPack WireRelaySubmission} `{!MsgPackLaws WireRelaySubmission} :
  (∀ s, (∀ t, prs_admission_token s = Some t → token_well_formed t) →
     PortableRelaySubmission_decode (PortableRelaySubmission_encode s) = Ok s) ∧
  (∀ s threshold allowlist keys now verify,
     (check_relay_submission_admission RM_NetworkScoped s threshold allowlist keys now verify = Accept ↔
      ∃ source, prs_source_persona_id s = Some source ∧ source ∈ allowlist) ∧
     ∀ token required key, prs_admission_token s = Some token → token_well_formed token →
       prs_source_persona_id s = Some (at_persona_id token) → (at_issued_at token ≤ now < at_expires_at token)%Z →
       threshold = Some required → SFltb (at_threshold_met token) required = false →
       keys !! at_issuer_persona_id token = Some key → verify key (signing_payload token) (at_issuer_signature_hex token) = true →
       check_relay_submission_admission RM_TrustGated s threshold allowlist keys now verify = Accept) ∧
  ∀ payload s, PortableRelaySubmission_decode payload = Ok s →
  (∀ t, prs_admission_token s = Some t → token_well_formed t) ∧
  ∀ (verify : Verifier) (issued : string → AdmissionToken → Prop) threshold allowlist keys now,
    (∀ key t sig, verify key (signing_payload t) sig = true → ∃ t0, issued key t0 ∧ signing_payload t0 = signing_payload t) →
    (∀ key t, issued key t → token_lines_ok t) →
    (∀ t, prs_admission_token s = Some t → in_u64 (at_issued_at t) ∧ in_u64 (at_expires_at t)) →
    (∀ t, threshold = Some t → f32_in_unit t = true) →
    check_relay_submission_admission RM_TrustGated s threshold allowlist keys now verify = Accept →
    ∃ source token required key t0,
      prs_source_persona_id s = Some source ∧ prs_admission_token s = Some token
      ∧ threshold = Some required ∧ keys !! at_issuer_persona_id token = Some key ∧ issued key t0
      ∧ at_token_id t0 = at_token_id token ∧ at_persona_id t0 = source ∧ at_issuer_persona_id t0 = at_issuer_persona_id token
      ∧ at_issued_at t0 = at_issued_at token ∧ at_expires_at t0 = at_expires_at token
      ∧ (at_issued_at t0 ≤ now < at_expires_at t0)%Z
      ∧ SFleb required (at_threshold_met token) = true
      ∧ f32_fmt6 (at_threshold_met t0) = f32_fmt6 (at_threshold_met token).
Proof.
  split; [|split].
  - intros s Hs. unfold PortableRelaySubmission_decode, PortableRelaySubmission_encode.
    rewrite rmp_roundtrip. destruct s as [sp tp [i p] [t|]]; simpl in *; [|done].
    destruct (proj1 (token_well_formed_spec t) (Hs t eq_refl)) as [Hv Hu]. unfold TrustThreshold_new. rewrite Hu. simpl.
    destruct t. simpl in *. by rewrite Hv.
  - intros s threshold allowlist keys now verify. split; [apply network_scoped_exact|].
    intros token required key Ht [Hv _]%token_well_formed_spec Hs Hn -> Hthr Hk Hver. unfold check_relay_submission_admission, verify_admission_token.
    rewrite Hs, Ht, Hv, bool_decide_eq_true_2, Hthr, Hk, Hver by done.
    destruct (Z.ltb_spec now (at_issued_at token)), (Z.leb_spec (at_expires_at token) now); [lia..|done].
  - intros payload s Hd. split; [intros t; by eapply decoded_token|]. intros verify issued threshold allowlist keys now Hunf Hl Hu Ht.
    apply trust_gated_admission_sound; try done. intros t Hs. split; [|by apply Hu].
    by eapply (proj1 (token_well_formed_spec t)), decoded_token.
Qed.

(** The light profile keeps what a node needs to follow the roots of its context: of the events
    offered, the ones it asks for contain, in order, the whole chain of each such root (and
    nothing that is not relevant to the context), so that what it pulls links up as the full
    log does. *)
Theorem light_sync_keeps_chains (es : list EventEnvelope) context root id :
  root ∈ lc_root_ids context →
  let batch := filter_batch_by_profile (new_batch id (ev_event_id <$> es)) SP_Light
                 (relevant_event_ids_for_context es context) in
  let pulled := List.filter (λ e, bool_decide (ev_event_id e ∈ sb_event_ids batch)) es in
  root_chain root pulled = root_chain root es
  ∧ ∀ i, i ∈ sb_event_ids batch ↔ ∃ e, e ∈ es ∧ ev_event_id e = i ∧ is_event_relevant_to_context e context = true.
Proof.
  intros Hroot batch pulled.
  assert (∀ i, i ∈ sb_event_ids batch ↔
    ∃ e, e ∈ es ∧ ev_event_id e = i ∧ is_event_relevant_to_context e context = true) as Hin.
  { intros i. subst batch. simpl. rewrite list_elem_of_In, filter_In, <-list_elem_of_In, bool_decide_eq_true.
    unfold relevant_event_ids_for_context. rewrite elem_of_list_to_set, !list_elem_of_fmap.
    setoid_rewrite list_elem_of_In. setoid_rewrite filter_In. naive_solver. }
  split; [|done]. subst pulled. unfold root_chain.
  assert (∀ l, (∀ e, e ∈ l → e ∈ es) →
    filter (λ e, EventBody_root_id (ev_body e) = Some root)
      (List.filter (λ e, bool_decide (ev_event_id e ∈ sb_event_ids batch)) l)
    = filter (λ e, EventBody_root_id (ev_body e) = Some root) l) as Hf.
  { induction l as [|e l IH]; intros Hl; [done|]. cbn [List.filter]. case_bool_decide as Hb.
    - rewrite !filter_cons. case_decide; rewrite IH; try done; intros; apply Hl; set_solver.
    - rewrite filter_cons. case_decide as Hr; [|apply IH; intros; apply Hl; set_solver].
      destruct Hb. apply Hin. exists e. split_and!; [apply Hl; set_solver|done|].
      unfold is_event_relevant_to_context.
      destruct (ev_body e); simpl in Hr; simplify_eq; rewrite ?bool_decide_eq_true_2 by done;
        rewrite ?orb_true_l; done. }
  by apply Hf.
Qed.

(** ** Witnesses *)

(** A codec for any countable type, to run the model with. *)
Fixpoint bits_of (p : positive) : bytes :=
  match p with xH => [] | xO p => "0"%char :: bits_of p | xI p => "1"%char :: bits_of p end.
Fixpoint of_bits (l : bytes) : positive :=
  match l with
  | [] => xH
  | a :: l => if bool_decide (a = "0"%char) then xO (of_bits l) else xI (of_bits l)
  end.

Lemma of_bits_of p : of_bits (bits_of p) = p.
Proof. induction p as [p IH|p IH|]; simpl; by rewrite ?IH. Qed.

Definition countable_msgpack (T : Type) `{Countable T} : MsgPack T := {|
  rmp_to_vec x := bits_of (encode x);
  rmp_from_slice b := match decode (of_bits b) with Some x => Ok x | None => Err "invalid" end
|}.

Lemma countable_msgpack_laws (T : Type) `{Countable T} : @MsgPackLaws T (countable_msgpack T).
Proof. intros x. simpl. by rewrite of_bits_of, countable.decode_encode. Qed.

#[local] Instance WireEventRef_eq_dec : EqDecision WireEventRef.
Proof. solve_decision. Defined.
#[local] Instance WireEventRef_countable : Countable WireEventRef.
Proof.
  apply (inj_countable' (λ r, (wr_relation r, wr_target_event_id r)) (λ p, mkWireEventRef p.1 p.2)).
  by intros [].
Defined.
#[local] Instance WireEvent_eq_dec : EqDecision WireEvent.
Proof. solve_decision. Defined.
#[local] Instance WireEvent_countable : Countable WireEvent.
Proof.
  apply (inj_countable'
    (λ w, ([we_event_id w; we_schema_version w; we_event_type w; we_subject_kind w; we_subject_id w;
            we_signer_kind w; we_signer_id w; we_signer_role w; we_signer_key_id w;
            we_signer_public_key w; we_signature w], we_payload w, we_refs w))
    (λ p, let f i := p.1.1 !!! i in
          mkWireEvent (f 0) (f 1) (f 2) (f 3) (f 4) (f 5) (f 6) (f 7) (f 8) (f 9) p.1.2 (f 10) p.2)).
  by intros [].
Defined.
#[local] Instance WireSyncBatch_eq_dec : EqDecision WireSyncBatch.
Proof. solve_decision. Defined.
#[local] Instance WireSyncBatch_countable : Countable WireSyncBatch.
Proof.
  apply (inj_countable'
    (λ w, (ws_source_peer_id w, ws_profile w, ws_batch_id w, ws_cursor_event_id w, ws_events w))
    (λ p, mkWireSyncBatch p.1.1.1.1 p.1.1.1.2 p.1.1.2 p.1.2 p.2)).
  by intros [].
Defined.

(** The two events of [text_events]: a genesis and its successor. *)
Definition genesis_event : EventEnvelope :=
  text_event "e0" (RootCreated (mkRootCreated "a" "Primary" (sample_key "a"))) [].
Definition successor_event : EventEnvelope :=
  text_event "e1" (DeviceAdded (mkDeviceAdded "a" "d" "Laptop" (sample_key "d") (sample_enc_key "d")))
    [EventRef_previous "e0" 1].

Lemma genesis_sendable : @sendable toy_hex_ops genesis_event.
Proof. constructor; vm_compute; reflexivity. Qed.
Lemma successor_sendable : @sendable toy_hex_ops successor_event.
Proof. constructor; vm_compute; reflexivity. Qed.

Definition sample_batch : PortableSyncBatch :=
  mkPortableSyncBatch "peer" SP_Full (new_batch "b" ["e0"; "e1"]) None [genesis_event; successor_event].

Lemma sync_batch_wire_form_witness :
  let M := countable_msgpack WireSyncBatch in
  @PortableSyncBatch_decode toy_hex_ops M (PortableSyncBatch_encode sample_batch)
  = Ok (mkPortableSyncBatch "peer" SP_Full (new_batch "b" ["e0"; "e1"]) None
          [genesis_event; unsequenced successor_event]).
Proof.
  refine (proj1 (@sync_batch_wire_form toy_hex_ops (countable_msgpack WireSyncBatch)
                   (countable_msgpack_laws WireSyncBatch) sample_batch _ eq_refl)).
  apply Forall_cons; split; [exact genesis_sendable|].
  apply Forall_cons; split; [exact successor_sendable|apply Forall_nil; exact I].
Defined.

(** The sender's log before the successor. *)
Definition sample_base : MemoryEventLog :=
  (@append_all toy_hex_ops no_json memory_new [genesis_event] sample_verifier IdentityAuthorizer 100).2.

Lemma synced_successor_rejected_witness :
  check_chain (ml_materialized sample_base) successor_event = Ok tt
  ∧ ∃ e', @wire_event_to_envelope toy_hex_ops (wire_event_from successor_event) = Ok e'
          ∧ signed_bytes e' ≠ signed_bytes successor_event
          ∧ ∃ x, check_chain (ml_materialized sample_base) e' = Err x.
Proof.
  assert (check_chain (ml_materialized sample_base) successor_event = Ok tt) as Hc
    by (vm_compute; reflexivity).
  split; [exact Hc|].
  refine (@synced_successor_rejected toy_hex_ops (ml_materialized sample_base) successor_event "a" "e0" 0
            successor_sendable _ eq_refl _ _ Hc); [|vm_compute; reflexivity|vm_compute; split; congruence].
  split_and!; try (apply (bool_decide_eq_true_1 (line_ok _)); reflexivity).
  apply Forall_cons; split; [|apply Forall_nil; exact I].
  split; [apply (bool_decide_eq_true_1 (line_ok _)); reflexivity|vm_compute; congruence].
Defined.

Definition sample_has (i : string) : bool := bool_decide (i ∈ ["e0"; "e2"]).
Definition sample_has_next (i : string) : bool := bool_decide (i ∈ ["e0"; "e1"; "e2"; "e3"]).

Lemma pull_converges_witness :
  sb_event_ids (plan_pull_batch
    (advance_cursor (new_cursor "peer") (plan_pull_batch (new_cursor "peer") "b" ["e0"; "e1"; "e2"; "e3"] sample_has))
    "b'" (["e0"; "e1"; "e2"; "e3"] ++ ["e4"; "e5"]) sample_has_next) = ["e4"; "e5"].
Proof.
  refine (pull_converges (new_cursor "peer") "b" "b'" ["e0"; "e1"; "e2"; "e3"] ["e4"; "e5"] sample_has
            sample_has_next _ _ _).
  - apply (bool_decide_eq_true_1 (NoDup _)). reflexivity.
  - intros v Hv. discriminate Hv.
  - intros i. unfold sample_has, sample_has_next. rewrite !bool_decide_eq_true.
    change (sb_event_ids _) with ["e1"; "e3"]. set_solver.
Defined.

#[local] Instance WireRelayEnvelope_eq_dec : EqDecision WireRelayEnvelope.
Proof. solve_decision. Defined.
#[local] Instance WireRelayEnvelope_countable : Countable WireRelayEnvelope.
Proof.
  apply (inj_countable' (λ w, (wre_id w, wre_opaque_payload w)) (λ p, mkWireRelayEnvelope p.1 p.2)).
  by intros [].
Defined.
#[local] Instance f32_eq_dec : EqDecision f32.
Proof. solve_decision. Defined.
#[local] Instance f32_countable : Countable f32.
Proof.
  apply (inj_countable'
    (λ x, match x with
          | S754_zero s => inl (inl s) | S754_infinity s => inl (inr s)
          | S754_nan => inr None | S754_finite s m e => inr (Some (s, m, e)) end)
    (λ p : (bool + bool) + option (bool * positive * Z),
       match p with
       | inl (inl s) => S754_zero s | inl (inr s) => S754_infinity s
       | inr None => S754_nan | inr (Some (s, m, e)) => S754_finite s m e end)).
  by intros [].
Defined.
#[local] Instance WireAdmissionToken_eq_dec : EqDecision WireAdmissionToken.
Proof. solve_decision. Defined.
#[local] Instance WireAdmissionToken_countable : Countable WireAdmissionToken.
Proof.
  apply (inj_countable'
    (λ w, ([wa_token_id w; wa_persona_id w; wa_issuer_persona_id w; wa_issuer_signature_hex w],
           wa_issued_at w, wa_expires_at w, wa_threshold_met w))
    (λ p, let f i := p.1.1.1 !!! i in
          mkWireAdmissionToken (f 0) (f 1) (f 2) p.1.1.2 p.1.2 p.2 (f 3))).
  by intros [].
Defined.
#[local] Instance WireRelaySubmission_eq_dec : EqDecision WireRelaySubmission.
Proof. solve_decision. Defined.
#[local] Instance WireRelaySubmission_countable : Countable WireRelaySubmission.
Proof.
  apply (inj_countable'
    (λ w, (wrs_source_persona_id w, wrs_target_peer_id w, wrs_envelope w, wrs_admission_token w))
    (λ p, mkWireRelaySubmission p.1.1.1 p.1.1.2 p.1.2 p.2)).
  by intros [].
Defined.

Definition sample_token : AdmissionToken := mkAdmissionToken "t" "p" "i" 10 20 f32_one "sig".
Definition sample_submission : PortableRelaySubmission :=
  mkPortableRelaySubmission (Some "p") None (wrap_for_relay "m" []) (Some sample_token).

Definition token_verifier : Verifier :=
  λ key msg sig, bool_decide (key = "ki") && bool_decide (msg = signing_payload sample_token)
                 && bool_decide (sig = "sig").

(** The sample is decoded from its encoding, and accepted: the issuer signed its token. *)
Lemma relay_submission_admitted_witness :
  let M := countable_msgpack WireRelaySubmission in
  let payload := PortableRelaySubmission_encode sample_submission in
  @PortableRelaySubmission_decode M payload = Ok sample_submission
  ∧ check_relay_submission_admission RM_TrustGated sample_submission (Some f32_one) [] {["i" := "ki"]} 15
      token_verifier = Accept
  ∧ ∃ source token required key t0,
      prs_source_persona_id sample_submission = Some source
      ∧ prs_admission_token sample_submission = Some token
      ∧ Some f32_one = Some required
      ∧ ({["i" := "ki"]} : gmap string string) !! at_issuer_persona_id token = Some key
      ∧ (key = "ki" ∧ t0 = sample_token)
      ∧ at_token_id t0 = at_token_id token ∧ at_persona_id t0 = source ∧ at_issuer_persona_id t0 = at_issuer_persona_id token
      ∧ at_issued_at t0 = at_issued_at token ∧ at_expires_at t0 = at_expires_at token
      ∧ (at_issued_at t0 ≤ 15 < at_expires_at t0)%Z
      ∧ SFleb required (at_threshold_met token) = true
      ∧ f32_fmt6 (at_threshold_met t0) = f32_fmt6 (at_threshold_met token).
Proof.
  intros M payload.
  assert (check_relay_submission_admission RM_TrustGated sample_submission (Some f32_one) []
            {["i" := "ki"]} 15 token_verifier = Accept) as Ha by (vm_compute; reflexivity).
  destruct (@relay_submission_admitted M (countable_msgpack_laws WireRelaySubmission)) as (Hback & _ & Hin).
  assert (@PortableRelaySubmission_decode M payload = Ok sample_submission) as Hd.
  { apply Hback. intros t [= <-]. split; [|split; [|split]].
    - repeat (constructor; [vm_compute; discriminate|]). constructor.
    - simpl. lia.
    - reflexivity.
    - reflexivity. }
  split; [exact Hd|]. split; [exact Ha|].
  refine (proj2 (Hin payload sample_submission Hd) token_verifier (λ key t, key = "ki" ∧ t = sample_token)
            (Some f32_one) [] {["i" := "ki"]} 15%Z _ _ _ _ Ha).
  - intros key t sig Hv. unfold token_verifier in Hv. rewrite !andb_true_iff, !bool_decide_eq_true in Hv.
    destruct Hv as [[-> Ht] _]. exists sample_token. auto.
  - intros key t [_ ->]. unfold token_lines_ok.
    split_and!; try (apply (bool_decide_eq_true_1 (line_ok _)); reflexivity); simpl; lia.
  - intros t [= <-]. unfold in_u64, u64_max. simpl. lia.
  - intros t [= <-]. reflexivity.
Defined.

Lemma light_sync_keeps_chains_witness :
  let context := mkLightSyncContext {["a"]} ∅ ∅ ∅ in
  let batch := filter_batch_by_profile (new_batch "b" (ev_event_id <$> text_events)) SP_Light
                 (relevant_event_ids_for_context text_events context) in
  root_chain "a" (List.filter (λ e, bool_decide (ev_event_id e ∈ sb_event_ids batch)) text_events)
  = root_chain "a" text_events.
Proof.
  refine (proj1 (light_sync_keeps_chains text_events (mkLightSyncContext {["a"]} ∅ ∅ ∅) "a" "b" _)).
  simpl. set_solver.
Defined.
