(* ===== verification/Ssrf.v ===== *)
(** * The destination guard of the forward proxy

    crates/core-proxy-forward/src/ssrf.rs: which addresses the proxy refuses as an upstream, and
    the pre-flight check on address literals. An IPv4 address is its four octets, an IPv6 address
    its eight segments, as [Ipv4Addr::octets] and [Ipv6Addr::segments] give them; the predicates
    and the parser of [std::net] that the guard uses are written out.

    The guard works on octets and masks. The reference is a table of address blocks, each a
    prefix of the 32-bit or 128-bit address, in the order in which they take precedence. *)

From stdpp Require Import base list strings pretty.
From Stdlib Require Import ZArith Lia Ascii.
From S2P Require Import Prelude Numbers.

Local Open Scope Z_scope.

(** ** Addresses *)

Record Ipv4Addr := mkIpv4 { o0 : Z; o1 : Z; o2 : Z; o3 : Z }.
Record Ipv6Addr := mkIpv6 { s0 : Z; s1 : Z; s2 : Z; s3 : Z; s4 : Z; s5 : Z; s6 : Z; s7 : Z }.
Inductive IpAddr := V4 (ip : Ipv4Addr) | V6 (ip : Ipv6Addr).

Definition is_octet (z : Z) : Prop := 0 ≤ z < 2 ^ 8.
Definition is_segment (z : Z) : Prop := 0 ≤ z < 2 ^ 16.
Definition ipv4_wf (ip : Ipv4Addr) : Prop :=
  is_octet (o0 ip) ∧ is_octet (o1 ip) ∧ is_octet (o2 ip) ∧ is_octet (o3 ip).
Definition ipv6_wf (ip : Ipv6Addr) : Prop :=
  is_segment (s0 ip) ∧ is_segment (s1 ip) ∧ is_segment (s2 ip) ∧ is_segment (s3 ip) ∧
  is_segment (s4 ip) ∧ is_segment (s5 ip) ∧ is_segment (s6 ip) ∧ is_segment (s7 ip).

(** The predicates of [std::net::Ipv4Addr]. *)
Module Ipv4.

Definition is_loopback (ip : Ipv4Addr) : bool := o0 ip =? 127.
Definition is_link_local (ip : Ipv4Addr) : bool := (o0 ip =? 169) && (o1 ip =? 254).
Definition is_private (ip : Ipv4Addr) : bool :=
  (o0 ip =? 10)
  || (o0 ip =? 172) && (16 <=? o1 ip) && (o1 ip <=? 31)
  || (o0 ip =? 192) && (o1 ip =? 168).
Definition is_broadcast (ip : Ipv4Addr) : bool :=
  (o0 ip =? 255) && (o1 ip =? 255) && (o2 ip =? 255) && (o3 ip =? 255).
Definition is_multicast (ip : Ipv4Addr) : bool := (224 <=? o0 ip) && (o0 ip <=? 239).
Definition is_documentation (ip : Ipv4Addr) : bool :=
  (o0 ip =? 192) && (o1 ip =? 0) && (o2 ip =? 2)
  || (o0 ip =? 198) && (o1 ip =? 51) && (o2 ip =? 100)
  || (o0 ip =? 203) && (o1 ip =? 0) && (o2 ip =? 113).

End Ipv4.

(** The predicates of [std::net::Ipv6Addr]. *)
Module Ipv6.

Definition high_zero (ip : Ipv6Addr) : bool :=
  (s0 ip =? 0) && (s1 ip =? 0) && (s2 ip =? 0) && (s3 ip =? 0) && (s4 ip =? 0).
Definition is_loopback (ip : Ipv6Addr) : bool :=
  high_zero ip && (s5 ip =? 0) && (s6 ip =? 0) && (s7 ip =? 1).
Definition is_unspecified (ip : Ipv6Addr) : bool :=
  high_zero ip && (s5 ip =? 0) && (s6 ip =? 0) && (s7 ip =? 0).
Definition is_multicast (ip : Ipv6Addr) : bool := Z.land (s0 ip) 0xff00 =? 0xff00.
(** [::a.b.c.d] and [::ffff:a.b.c.d] *)
Definition to_ipv4 (ip : Ipv6Addr) : option Ipv4Addr :=
  if high_zero ip && ((s5 ip =? 0) || (s5 ip =? 0xffff))
  then Some (mkIpv4 (s6 ip / 2 ^ 8) (s6 ip mod 2 ^ 8) (s7 ip / 2 ^ 8) (s7 ip mod 2 ^ 8))
  else None.
(** [octets()[0]] *)
Definition octet0 (ip : Ipv6Addr) : Z := s0 ip / 2 ^ 8.

End Ipv6.

(** ** The classifier *)

Inductive BlockedIpReason :=
| Loopback | Unspecified | LinkLocal | Private | SharedCgnat | UniqueLocal | Multicast | Broadcast
| Documentation | Benchmarking | Reserved.

Definition BlockedIpReason_as_str (r : BlockedIpReason) : string :=
  match r with
  | Loopback => "loopback"
  | Unspecified => "unspecified"
  | LinkLocal => "link-local (incl. cloud metadata)"
  | Private => "rfc1918-private"
  | SharedCgnat => "shared/cgnat (incl. cloud metadata)"
  | UniqueLocal => "ipv6-unique-local (incl. cloud metadata)"
  | Multicast => "multicast"
  | Broadcast => "broadcast"
  | Documentation => "documentation"
  | Benchmarking => "benchmarking"
  | Reserved => "reserved"
  end.

Definition classify_v4 (ip : Ipv4Addr) : option BlockedIpReason :=
  if Ipv4.is_loopback ip then Some Loopback else
  if o0 ip =? 0 then Some Unspecified else
  if Ipv4.is_link_local ip then Some LinkLocal else
  if Ipv4.is_private ip then Some Private else
  if Ipv4.is_broadcast ip then Some Broadcast else
  if Ipv4.is_multicast ip then Some Multicast else
  if Ipv4.is_documentation ip then Some Documentation else
  if (o0 ip =? 100) && (Z.land (o1 ip) 0xc0 =? 0x40) then Some SharedCgnat else
  if (o0 ip =? 198) && (Z.land (o1 ip) 0xfe =? 18) then Some Benchmarking else
  if (o0 ip =? 192) && (o1 ip =? 0) && (o2 ip =? 0) then Some Reserved else
  if 240 <=? o0 ip then Some Reserved else
  None.

Definition classify_v6 (ip : Ipv6Addr) : option BlockedIpReason :=
  if Ipv6.is_loopback ip then Some Loopback else
  if Ipv6.is_unspecified ip then Some Unspecified else
  match Ipv6.to_ipv4 ip with
  | Some v4 => classify_v4 v4
  | None =>
      if Ipv6.is_multicast ip then Some Multicast else
      if Z.land (s0 ip) 0xffc0 =? 0xfe80 then Some LinkLocal else
      if Z.land (Ipv6.octet0 ip) 0xfe =? 0xfc then Some UniqueLocal else
      if (s0 ip =? 0x2001) && (s1 ip =? 0x0db8) then Some Documentation else
      None
  end.

Definition classify_blocked_ip (ip : IpAddr) : option BlockedIpReason :=
  match ip with
  | V4 v4 => classify_v4 v4
  | V6 v6 => classify_v6 v6
  end.

(** ** Address literals: the parser of [core::net] *)

Module Parser.

(** [char::to_digit(radix)] for radix 10 and 16 *)
Definition digit_of (radix : Z) (a : ascii) : option Z :=
  let n := Z.of_N (N_of_ascii a) in
  let d := if (48 <=? n) && (n <=? 57) then Some (n - 48)
           else if (97 <=? n) && (n <=? 102) then Some (n - 87)
           else if (65 <=? n) && (n <=? 70) then Some (n - 55)
           else None in
  match d with Some d => if d <? radix then Some d else None | None => None end.

Fixpoint read_digits (radix : Z) (acc : Z) (l : bytes) : nat * Z * bytes :=
  match l with
  | [] => (0%nat, acc, [])
  | a :: l' =>
      match digit_of radix a with
      | None => (0%nat, acc, l)
      | Some d =>
          let '(n, v, rest) := read_digits radix (acc * radix + d) l' in (S n, v, rest)
      end
  end.

(** [read_number(radix, Some(max_digits), allow_zero_prefix)] for values up to [hi]: a longer run
    of digits, or a value that does not fit, fails *)
Definition read_number (radix : Z) (max_digits : nat) (allow_zero_prefix : bool) (hi : Z) (l : bytes)
  : option (Z * bytes) :=
  let '(n, v, rest) := read_digits radix 0 l in
  if (n =? 0)%nat || (max_digits <? n)%nat then None
  else if hi <? v then None
  else if negb allow_zero_prefix && bool_decide (head l = Some "0"%char) && (1 <? n)%nat then None
  else Some (v, rest).

Definition read_given_char (c : ascii) (l : bytes) : option bytes :=
  match l with a :: l' => if bool_decide (a = c) then Some l' else None | [] => None end.

(** [read_separator(sep, index, inner)]: the separator before all but the first *)
Definition read_separator {A} (sep : ascii) (index : nat) (inner : bytes → option (A * bytes))
  (l : bytes) : option (A * bytes) :=
  if (index =? 0)%nat then inner l
  else match read_given_char sep l with Some l' => inner l' | None => None end.

Definition octet (index : nat) (l : bytes) : option (Z * bytes) :=
  read_separator "."%char index (read_number 10 3 false 255) l.

Definition read_ipv4_addr (l : bytes) : option (Ipv4Addr * bytes) :=
  match octet 0 l with
  | Some (a, l1) =>
      match octet 1 l1 with
      | Some (b, l2) =>
          match octet 2 l2 with
          | Some (c, l3) =>
              match octet 3 l3 with
              | Some (d, l4) => Some (mkIpv4 a b c d, l4)
              | None => None
              end
          | None => None
          end
      | None => None
      end
  | None => None
  end.

(** [read_groups] with [limit - i] slots left: the groups read, whether the last two are an
    embedded IPv4 address, and what is left *)
Fixpoint read_groups (slots i : nat) (l : bytes) : list Z * bool * bytes :=
  match slots with
  | O => ([], false, l)
  | S slots' =>
      let v4 := if (0 <? slots')%nat then read_separator ":"%char i read_ipv4_addr l else None in
      match v4 with
      | Some (a, rest) => ([o0 a * 2 ^ 8 + o1 a; o2 a * 2 ^ 8 + o3 a], true, rest)
      | None =>
          match read_separator ":"%char i (read_number 16 4 true 0xffff) l with
          | Some (g, rest) =>
              let '(gs, b, rest') := read_groups slots' (S i) rest in (g :: gs, b, rest')
          | None => ([], false, l)
          end
      end
  end.

Definition of_groups (gs : list Z) : option Ipv6Addr :=
  match gs with
  | [a; b; c; d; e; f; g; h] => Some (mkIpv6 a b c d e f g h)
  | _ => None
  end.

Definition read_ipv6_addr (l : bytes) : option (Ipv6Addr * bytes) :=
  let '(head, head_ipv4, rest) := read_groups 8 0 l in
  if (length head =? 8)%nat then (λ a, (a, rest)) <$> of_groups head
  else if head_ipv4 then None
  else match read_given_char ":"%char rest with
       | None => None
       | Some rest1 =>
           match read_given_char ":"%char rest1 with
           | None => None
           | Some rest2 =>
               let '(tail, _, rest3) := read_groups (8 - (length head + 1)) 0 rest2 in
               (λ a, (a, rest3)) <$>
                 of_groups (head ++ replicate (8 - length head - length tail) 0 ++ tail)
           end
       end.

(** [str::parse::<IpAddr>()]: an IPv4 address, or else an IPv6 address, up to the end *)
Definition parse_ip (l : bytes) : option IpAddr :=
  match read_ipv4_addr l with
  | Some (a, rest) => if bool_decide (rest = []) then Some (V4 a) else None
  | None =>
      match read_ipv6_addr l with
      | Some (a, rest) => if bool_decide (rest = []) then Some (V6 a) else None
      | None => None
      end
  end.

End Parser.

Definition strip_suffix_on (p l : bytes) : option bytes :=
  @rev ascii <$> strip_prefix_on (rev p) (rev l).

Definition host_literal_is_blocked (host : string) : option BlockedIpReason :=
  let h := to_bytes host in
  let trimmed :=
    match strip_prefix_on (to_bytes "[") h with
    | Some h' => default h (strip_suffix_on (to_bytes "]") h')
    | None => h
    end in
  match Parser.parse_ip trimmed with
  | Some ip => classify_blocked_ip ip
  | None => None
  end.

(** ** The reference: tables of address blocks *)

Definition ipv4_bits (ip : Ipv4Addr) : Z := o0 ip * 2 ^ 24 + o1 ip * 2 ^ 16 + o2 ip * 2 ^ 8 + o3 ip.
Definition ipv6_bits (ip : Ipv6Addr) : Z :=
  s0 ip * 2 ^ 112 + s1 ip * 2 ^ 96 + s2 ip * 2 ^ 80 + s3 ip * 2 ^ 64
  + s4 ip * 2 ^ 48 + s5 ip * 2 ^ 32 + s6 ip * 2 ^ 16 + s7 ip.

(** [addr] is in [base/len], for addresses of [width] bits *)
Definition in_block (width : Z) (base len addr : Z) : bool :=
  Z.shiftr addr (width - len) =? Z.shiftr base (width - len).

Fixpoint first_block (width : Z) (table : list (Z * Z * BlockedIpReason)) (addr : Z)
  : option BlockedIpReason :=
  match table with
  | [] => None
  | (base, len, why) :: rest =>
      if in_block width base len addr then Some why else first_block width rest addr
  end.

Definition v4 (a b c d : Z) : Z := ipv4_bits (mkIpv4 a b c d).

Definition v4_blocks : list (Z * Z * BlockedIpReason) :=
  [ (v4 127 0 0 0, 8, Loopback); (v4 0 0 0 0, 8, Unspecified); (v4 169 254 0 0, 16, LinkLocal);
    (v4 10 0 0 0, 8, Private); (v4 172 16 0 0, 12, Private); (v4 192 168 0 0, 16, Private);
    (v4 255 255 255 255, 32, Broadcast); (v4 224 0 0 0, 4, Multicast);
    (v4 192 0 2 0, 24, Documentation); (v4 198 51 100 0, 24, Documentation);
    (v4 203 0 113 0, 24, Documentation); (v4 100 64 0 0, 10, SharedCgnat);
    (v4 198 18 0 0, 15, Benchmarking); (v4 192 0 0 0, 24, Reserved); (v4 240 0 0 0, 4, Reserved) ].

Definition v6_block (hi len : Z) (why : BlockedIpReason) : Z * Z * BlockedIpReason :=
  (hi * 2 ^ 96, len, why).

Definition v6_blocks : list (Z * Z * BlockedIpReason) :=
  [ v6_block 0xff000000 8 Multicast; v6_block 0xfe800000 10 LinkLocal;
    v6_block 0xfc000000 7 UniqueLocal; v6_block 0x20010db8 32 Documentation ].

(** An IPv6 address: the two special ones, the two embeddings of IPv4, or the table. *)
Definition v6_reference (addr : Z) : option BlockedIpReason :=
  if addr =? 1 then Some Loopback else
  if addr =? 0 then Some Unspecified else
  if (Z.shiftr addr 32 =? 0) || (Z.shiftr addr 32 =? 0xffff)
  then first_block 32 v4_blocks (addr mod 2 ^ 32)
  else first_block 128 v6_blocks addr.

(** ** Lemmas *)

Lemma land_high x n k :
  0 ≤ k ≤ n → 0 ≤ x < 2 ^ n → Z.land x (2 ^ n - 2 ^ k) = x / 2 ^ k * 2 ^ k.
Proof.
  intros Hk Hx. pose proof (Z.pow_pos_nonneg 2 k) as Hp. replace (2 ^ n - 2 ^ k) with (Z.shiftl (Z.ones (n - k)) k).
  - replace (Z.land x _) with (Z.shiftl (Z.land (Z.shiftr x k) (Z.ones (n - k))) k).
    + rewrite Z.land_ones, Z.shiftr_div_pow2, Z.shiftl_mul_pow2 by lia.
      rewrite (Z.mod_small (x / 2 ^ k)); [done|]. split; [apply Z.div_pos; lia|].
      apply Z.div_lt_upper_bound; [lia|]. rewrite <-Z.pow_add_r by lia.
      replace (k + (n - k)) with n by lia. lia.
    + apply Z.bits_inj'. intros i Hi. rewrite Z.land_spec, !Z.shiftl_spec, Z.land_spec by lia.
      destruct (Z.lt_ge_cases i k).
      * rewrite !(Z.testbit_neg_r _ (i - k)) by lia. by rewrite ?andb_false_r.
      * rewrite Z.shiftr_spec by lia. by replace (i - k + k) with i by lia.
  - rewrite Z.shiftl_mul_pow2, Z.ones_equiv by lia. rewrite <-Z.sub_1_r, Z.mul_sub_distr_r.
    rewrite <-Z.pow_add_r by lia. replace (n - k + k) with n by lia. lia.
Qed.

(** A mask test on a value of [n] bits is a comparison of its high bits. *)
Lemma mask_test x n k m v :
  m = 2 ^ n - 2 ^ k → 0 ≤ k ≤ n → 0 ≤ x < 2 ^ n → v mod 2 ^ k = 0 →
  (Z.land x m =? v) = (x / 2 ^ k =? v / 2 ^ k).
Proof.
  intros -> Hk Hx Hv. rewrite land_high by done.
  pose proof (Z.pow_pos_nonneg 2 k) as Hp.
  pose proof (Z.div_mod v (2 ^ k)) as Hd. destruct (Z.eqb_spec (x / 2 ^ k) (v / 2 ^ k)) as [He|He].
  - apply Z.eqb_eq. lia.
  - apply Z.eqb_neq. intros Hc. apply He.
    rewrite <-Hc. by rewrite Z.div_mul by lia.
Qed.

Lemma in_block_div width base len addr :
  0 ≤ len ≤ width → in_block width base len addr = (addr / 2 ^ (width - len) =? base / 2 ^ (width - len)).
Proof. intros Hl. unfold in_block. by rewrite !Z.shiftr_div_pow2 by lia. Qed.

Lemma if_orb {A} (b c : bool) (x k : A) :
  (if b || c then x else k) = if b then x else if c then x else k.
Proof. by destruct b. Qed.

(** Equality of two tests that linear arithmetic with division decides. *)
Ltac same_test :=
  apply eq_true_iff_eq; rewrite ?andb_true_iff, ?Z.eqb_eq, ?Z.leb_le;
  Z.div_mod_to_equations; lia.

(** Powers of two with a closed exponent, computed. *)
Ltac compute_powers :=
  repeat match goal with
         | |- context [2 ^ ?k] => let v := eval vm_compute in (2 ^ k) in progress change (2 ^ k) with v
         end.

(** Two cascades of tests with the same answers, test by test. *)
Ltac same_cascade :=
  repeat match goal with
         | |- (if ?b then ?x else _) = (if ?c then ?x else _) =>
             replace c with b by same_test; destruct b; [reflexivity|]
         end.

(** The octet tests are the table's blocks. *)
Lemma classify_v4_blocks ip :
  ipv4_wf ip → classify_v4 ip = first_block 32 v4_blocks (ipv4_bits ip).
Proof.
  destruct ip as [a b c d]. unfold ipv4_wf, is_octet. cbn [o0 o1 o2 o3]. intros (Ha & Hb & Hc & Hd).
  unfold classify_v4, Ipv4.is_loopback, Ipv4.is_link_local, Ipv4.is_private,
    Ipv4.is_broadcast, Ipv4.is_multicast, Ipv4.is_documentation. cbn [o0 o1 o2 o3].
  rewrite (mask_test b 8 6), (mask_test b 8 1) by (done || lia).
  cbn [first_block v4_blocks]. rewrite !in_block_div by lia. rewrite !if_orb.
  unfold v4, ipv4_bits. cbn [o0 o1 o2 o3]. compute_powers. same_cascade. done.
Qed.

Lemma ipv6_bits_low ip :
  ipv6_wf ip →
  ipv6_bits ip mod 2 ^ 32 = s6 ip * 2 ^ 16 + s7 ip ∧
  Z.shiftr (ipv6_bits ip) 32 =
    s0 ip * 2 ^ 80 + s1 ip * 2 ^ 64 + s2 ip * 2 ^ 48 + s3 ip * 2 ^ 32 + s4 ip * 2 ^ 16 + s5 ip.
Proof.
  destruct ip. unfold ipv6_wf, is_segment, ipv6_bits.
  cbn [s0 s1 s2 s3 s4 s5 s6 s7]. intros. rewrite Z.shiftr_div_pow2 by lia.
  compute_powers. split; Z.div_mod_to_equations; lia.
Qed.

(** The embedded address, and when there is one. *)
Lemma to_ipv4_spec ip :
  ipv6_wf ip →
  match Ipv6.to_ipv4 ip with
  | Some a => ipv4_wf a ∧ ipv4_bits a = ipv6_bits ip mod 2 ^ 32 ∧
              (Z.shiftr (ipv6_bits ip) 32 = 0 ∨ Z.shiftr (ipv6_bits ip) 32 = 0xffff)
  | None => Z.shiftr (ipv6_bits ip) 32 ≠ 0 ∧ Z.shiftr (ipv6_bits ip) 32 ≠ 0xffff
  end.
Proof.
  intros W. destruct (ipv6_bits_low ip W) as [Hlow Hhigh]. rewrite Hlow, Hhigh.
  unfold Ipv6.to_ipv4, Ipv6.high_zero, ipv6_wf, is_segment in *.
  destruct (_ && _) eqn:E.
  - rewrite !andb_true_iff, orb_true_iff, !Z.eqb_eq in E. unfold ipv4_wf, is_octet, ipv4_bits.
    cbn [o0 o1 o2 o3]. compute_powers. split_and!; Z.div_mod_to_equations; lia.
  - apply not_true_iff_false in E. rewrite !andb_true_iff, orb_true_iff, !Z.eqb_eq in E. lia.
Qed.

(** The guard of IPv6 addresses is its reference. *)
Lemma classify_v6_blocks ip : ipv6_wf ip → classify_v6 ip = v6_reference (ipv6_bits ip).
Proof.
  intros W. pose proof (to_ipv4_spec ip W) as Hv4. destruct (ipv6_bits_low ip W) as [_ Hhigh].
  unfold classify_v6, v6_reference.
  replace (Ipv6.is_loopback ip) with (ipv6_bits ip =? 1).
  2: { destruct ip. unfold ipv6_wf, is_segment, Ipv6.is_loopback, Ipv6.high_zero, ipv6_bits in *.
       cbn [s0 s1 s2 s3 s4 s5 s6 s7] in *. compute_powers. same_test. }
  replace (Ipv6.is_unspecified ip) with (ipv6_bits ip =? 0).
  2: { destruct ip. unfold ipv6_wf, is_segment, Ipv6.is_unspecified, Ipv6.high_zero, ipv6_bits in *.
       cbn [s0 s1 s2 s3 s4 s5 s6 s7] in *. compute_powers. same_test. }
  destruct (ipv6_bits ip =? 1); [done|]. destruct (ipv6_bits ip =? 0); [done|].
  destruct (Ipv6.to_ipv4 ip) as [a|].
  - destruct Hv4 as (Ha & Hb & He). rewrite classify_v4_blocks, Hb by done.
    replace (_ || _) with true; [done|]. symmetry. rewrite orb_true_iff, !Z.eqb_eq. done.
  - destruct Hv4 as [He1 He2].
    rewrite (proj2 (Z.eqb_neq _ _) He1), (proj2 (Z.eqb_neq _ _) He2). cbn [orb]. clear He1 He2 Hhigh.
    destruct ip. unfold ipv6_wf, is_segment, Ipv6.is_multicast, Ipv6.octet0, ipv6_bits in *.
    cbn [s0 s1 s2 s3 s4 s5 s6 s7] in *. destruct W as (? & ? & ? & ? & ? & ? & ? & ?).
    rewrite (mask_test _ 16 8), (mask_test _ 16 6) by (done || lia).
    rewrite (mask_test (_ / _) 8 1) by (done || lia || (compute_powers; Z.div_mod_to_equations; lia)).
    cbn [first_block v6_blocks v6_block]. unfold v6_block. rewrite !in_block_div by lia.
    compute_powers. same_cascade. done.
Qed.

(** *** Literals *)

Definition stops (rest : bytes) : Prop :=
  match rest with [] => True | a :: _ => Parser.digit_of 10 a = None end.

Lemma digit_of_digit a : is_digit a → Parser.digit_of 10 a = Some (digit_value a).
Proof.
  intros Ha. unfold is_digit in Ha. unfold Parser.digit_of, digit_value.
  replace ((48 <=? _) && (_ <=? 57)) with true by (symmetry; rewrite andb_true_iff, !Z.leb_le; lia).
  by rewrite (proj2 (Z.ltb_lt _ 10)) by lia.
Qed.

Lemma read_digits_app acc l rest :
  Forall is_digit l → stops rest →
  Parser.read_digits 10 acc (l ++ rest) = (length l, dec_value acc l, rest).
Proof.
  intros Hl Hr. revert acc. induction Hl as [|a l Ha _ IH]; intros acc.
  - destruct rest as [|b rest]; [done|]. simpl in *. by rewrite Hr.
  - simpl. rewrite digit_of_digit by done. by rewrite IH.
Qed.

Definition octet_text (n : Z) : bytes := to_bytes (pretty (Z.to_N n)).

(** The text of an octet has at most three digits and no leading zero. *)
Definition octet_shape (t : bytes) : bool :=
  negb ((length t =? 0)%nat || (3 <? length t)%nat)
  && negb (bool_decide (head t = Some "0"%char) && (1 <? length t)%nat).

Lemma octet_text_shape n : is_octet n → octet_shape (octet_text n) = true.
Proof.
  intros [Hlo Hhi].
  assert (forallb (λ k, octet_shape (octet_text (Z.of_nat k))) (seq 0 256) = true) as Hall
    by (vm_compute; reflexivity).
  rewrite forallb_forall in Hall. replace n with (Z.of_nat (Z.to_nat n)) by lia.
  apply Hall, in_seq. lia.
Qed.

Lemma read_octet n rest :
  is_octet n → stops rest →
  Parser.read_number 10 3 false 255 (octet_text n ++ rest) = Some (n, rest).
Proof.
  intros Hn Hr. unfold Parser.read_number.
  rewrite read_digits_app by (apply pretty_N_digits || done).
  replace (dec_value 0 (octet_text n)) with n by (unfold octet_text; rewrite dec_value_pretty; unfold is_octet in Hn; lia).
  pose proof (octet_text_shape n Hn) as Hs. unfold octet_shape in Hs.
  rewrite andb_true_iff, !negb_true_iff in Hs. destruct Hs as [Hl Hz]. rewrite Hl.
  unfold is_octet in Hn. rewrite (proj2 (Z.ltb_ge 255 _)) by lia. cbn [negb andb].
  assert (head (octet_text n ++ rest) = head (octet_text n)) as ->.
  { destruct (octet_text n) eqn:E; [|done]. discriminate Hl. }
  by rewrite Hz.
Qed.

Definition dot : ascii := "."%char.

(** [Display] of an IPv4 address *)
Definition ipv4_text (ip : Ipv4Addr) : bytes :=
  octet_text (o0 ip) ++ dot :: octet_text (o1 ip) ++ dot :: octet_text (o2 ip)
  ++ dot :: octet_text (o3 ip).

Lemma read_ipv4_text ip rest :
  ipv4_wf ip → stops rest → Parser.read_ipv4_addr (ipv4_text ip ++ rest) = Some (ip, rest).
Proof.
  intros (H0 & H1 & H2 & H3) Hr. unfold Parser.read_ipv4_addr, ipv4_text, Parser.octet,
    Parser.read_separator. cbn [Nat.eqb]. rewrite <-!(assoc_L (++)).
  rewrite read_octet by done. cbn [app Parser.read_given_char]. rewrite bool_decide_eq_true_2 by done.
  rewrite <-!(assoc_L (++)), read_octet by done. cbn [app Parser.read_given_char].
  rewrite bool_decide_eq_true_2 by done. rewrite <-!(assoc_L (++)), read_octet by done.
  cbn [app Parser.read_given_char]. rewrite bool_decide_eq_true_2 by done.
  rewrite read_octet by done. by destruct ip.
Qed.

(** [::ffff:a.b.c.d], as text and as an address *)
Definition mapped_text (ip : Ipv4Addr) : bytes := to_bytes "::ffff:" ++ ipv4_text ip.
Definition mapped (ip : Ipv4Addr) : Ipv6Addr :=
  mkIpv6 0 0 0 0 0 0xffff (o0 ip * 2 ^ 8 + o1 ip) (o2 ip * 2 ^ 8 + o3 ip).

Lemma read_ipv4_none a l : Parser.digit_of 10 a = None → Parser.read_ipv4_addr (a :: l) = None.
Proof.
  intros Ha. unfold Parser.read_ipv4_addr, Parser.octet, Parser.read_separator, Parser.read_number.
  cbn [Nat.eqb Parser.read_digits]. by rewrite Ha.
Qed.

Lemma read_mapped_groups ip :
  ipv4_wf ip →
  Parser.read_groups 7 0 (to_bytes "ffff:" ++ ipv4_text ip)
  = ([0xffff; o0 ip * 2 ^ 8 + o1 ip; o2 ip * 2 ^ 8 + o3 ip], true, []).
Proof.
  intros W. pose proof (read_ipv4_text ip [] W I) as Hr. rewrite app_nil_r in Hr.
  cbn [Parser.read_groups Nat.ltb Nat.leb]. unfold Parser.read_separator. cbn [Nat.eqb].
  change (to_bytes "ffff:" ++ ipv4_text ip) with ("f"%char :: to_bytes "fff:" ++ ipv4_text ip).
  rewrite read_ipv4_none by done.
  change (Parser.read_number 16 4 true 0xffff ("f"%char :: to_bytes "fff:" ++ ipv4_text ip)) with
    (Some (0xffff, ":"%char :: ipv4_text ip)).
  cbn beta iota. unfold Parser.read_given_char. rewrite bool_decide_eq_true_2 by done.
  by rewrite Hr.
Qed.

Lemma parse_mapped_text ip : ipv4_wf ip → Parser.parse_ip (mapped_text ip) = Some (V6 (mapped ip)).
Proof.
  intros W. unfold Parser.parse_ip, mapped_text.
  change (to_bytes "::ffff:" ++ ipv4_text ip) with (":"%char :: ":"%char :: to_bytes "ffff:" ++ ipv4_text ip).
  rewrite read_ipv4_none by done. unfold Parser.read_ipv6_addr.
  assert (∀ t, Parser.read_groups 8 0 (":"%char :: t) = ([], false, ":"%char :: t)) as ->.
  { intros t. cbn [Parser.read_groups Nat.ltb Nat.leb]. unfold Parser.read_separator. cbn [Nat.eqb].
    by rewrite read_ipv4_none. }
  cbn [length Nat.eqb]. unfold Parser.read_given_char. rewrite !bool_decide_eq_true_2 by done.
  change (8 - (0 + 1))%nat with 7%nat. by rewrite read_mapped_groups.
Qed.

Lemma classify_mapped ip : ipv4_wf ip → classify_v6 (mapped ip) = classify_v4 ip.
Proof.
  intros W. destruct ip as [a b c d]. unfold ipv4_wf, is_octet in W. cbn [o0 o1 o2 o3] in W.
  unfold classify_v6, mapped, Ipv6.is_loopback, Ipv6.is_unspecified, Ipv6.to_ipv4, Ipv6.high_zero.
  cbn [s0 s1 s2 s3 s4 s5 s6 s7 o0 o1 o2 o3 Z.eqb andb orb Pos.eqb].
  f_equal. compute_powers. f_equal; Z.div_mod_to_equations; lia.
Qed.

(** ** Properties *)

(** The guard decides exactly its table of address blocks. On every IPv4 address the octet tests
    give the reason of the first block [base/len] the 32-bit address lies in (so loopback,
    0/8, link-local with the metadata endpoint, RFC 1918, CGNAT, multicast, broadcast, the
    documentation, benchmarking and reserved blocks, and nothing else, are refused); on every
    IPv6 address the segment tests give the reason of the 128-bit reference, where the two
    embeddings of IPv4 are judged by the IPv4 table. *)
Theorem blocked_exactly_table :
  (∀ ip, ipv4_wf ip → classify_blocked_ip (V4 ip) = first_block 32 v4_blocks (ipv4_bits ip))
  ∧ (∀ ip, ipv6_wf ip → classify_blocked_ip (V6 ip) = v6_reference (ipv6_bits ip)).
Proof. split; intros ip W; [by apply classify_v4_blocks|by apply classify_v6_blocks]. Qed.

(** The pre-flight check sees through the ways to write an IPv4 address: its dotted form, and
    its mapped form in brackets, are refused exactly when the address is, with the same
    reason. *)
Theorem ipv4_literals_judged (ip : Ipv4Addr) :
  ipv4_wf ip →
  host_literal_is_blocked (of_bytes (ipv4_text ip)) = classify_v4 ip
  ∧ host_literal_is_blocked (of_bytes (to_bytes "[" ++ mapped_text ip ++ to_bytes "]")) = classify_v4 ip.
Proof.
  intros W. unfold host_literal_is_blocked. rewrite !to_of_bytes. split.
  - assert (strip_prefix_on (to_bytes "[") (ipv4_text ip) = None) as ->.
    { destruct (strip_prefix_on _ _) as [r|] eqn:E; [|done]. apply strip_prefix_on_Some in E.
      pose proof (pretty_N_digits (Z.to_N (o0 ip))) as Hd. unfold ipv4_text, octet_text in E.
      destruct (to_bytes (pretty (Z.to_N (o0 ip)))) as [|a t] eqn:Ea; [by apply pretty_nonempty in Ea|].
      apply Forall_cons in Hd as [Hd _]. injection E as -> _. unfold is_digit in Hd.
      by destruct Hd as [_ Hd]. }
    unfold Parser.parse_ip. pose proof (read_ipv4_text ip [] W I) as Hr. rewrite app_nil_r in Hr.
    by rewrite Hr.
  - cbn [to_bytes String.list_ascii_of_string app strip_prefix_on]. rewrite bool_decide_eq_true_2 by done.
    unfold strip_suffix_on. rewrite rev_app_distr. cbn [rev app strip_prefix_on].
    rewrite bool_decide_eq_true_2 by done. cbn [fmap option_fmap option_map from_option id].
    rewrite rev_involutive, parse_mapped_text by done. cbn [classify_blocked_ip]. by apply classify_mapped.
Qed.

(** The addresses that embed an IPv4 address for translation by the network are not unwrapped:
    the NAT64 form [64:ff9b::a.b.c.d] and the 6to4 form [2002:ab:cd::] of every IPv4 address,
    the metadata endpoint among them, pass the guard. *)
Theorem translated_addresses_pass (ip : Ipv4Addr) :
  let hi := o0 ip * 2 ^ 8 + o1 ip in
  let lo := o2 ip * 2 ^ 8 + o3 ip in
  classify_blocked_ip (V6 (mkIpv6 0x64 0xff9b 0 0 0 0 hi lo)) = None
  ∧ classify_blocked_ip (V6 (mkIpv6 0x2002 hi lo 0 0 0 0 0)) = None
  ∧ classify_v4 (mkIpv4 169 254 169 254) = Some LinkLocal.
Proof. split_and!; reflexivity. Qed.

Lemma blocked_exactly_table_witness :
  classify_blocked_ip (V4 (mkIpv4 100 100 100 200)) = first_block 32 v4_blocks (ipv4_bits (mkIpv4 100 100 100 200))
  ∧ classify_blocked_ip (V4 (mkIpv4 100 100 100 200)) = Some SharedCgnat.
Proof.
  split; [|reflexivity]. refine (proj1 blocked_exactly_table (mkIpv4 100 100 100 200) _).
  unfold ipv4_wf, is_octet. simpl. lia.
Defined.

Lemma ipv4_literals_judged_witness :
  host_literal_is_blocked "[::ffff:169.254.169.254]" = Some LinkLocal.
Proof.
  refine (proj2 (ipv4_literals_judged (mkIpv4 169 254 169 254) _)).
  unfold ipv4_wf, is_octet. simpl. lia.
Defined.
