(* ===== verification/BranchGlob.v ===== *)
(** * The branch matcher of the forward proxy

    [glob_match_branch] of crates/core-proxy-forward/src/match.rs: patterns with [*] (a run
    without a slash) and [**] (any run), matched by a table of reachable states. The reference is
    the language of the pattern's tokens, an inductive relation; the table decides it. *)

From stdpp Require Import base list strings relations sorting.
From Stdlib Require Import Ascii Lia Arith.
From S2P Require Import Prelude CoreTypes.

Definition star_byte : ascii := "*"%char.
Definition slash_byte : ascii := "/"%char.

Inductive GlobTok :=
| Literal (lit : bytes)
| Star
| DoubleStar.

(** ** Tokens *)

(** The inner loop: the longest prefix without a star. *)
Fixpoint take_literal (l : bytes) : bytes * bytes :=
  match l with
  | [] => ([], [])
  | a :: l' =>
      if bool_decide (a = star_byte) then ([], l)
      else let '(lit, rest) := take_literal l' in (a :: lit, rest)
  end.

(** The outer loop takes at least one byte of the pattern in each iteration: the pattern's
    length is fuel enough. *)
Fixpoint tokenise (fuel : nat) (l : bytes) : list GlobTok :=
  match fuel with
  | O => []
  | S fuel =>
      match l with
      | [] => []
      | a :: l' =>
          if bool_decide (a = star_byte) then
            match l' with
            | b :: l'' =>
                if bool_decide (b = star_byte) then DoubleStar :: tokenise fuel l''
                else Star :: tokenise fuel l'
            | [] => Star :: tokenise fuel l'
            end
          else let '(lit, rest) := take_literal l in Literal lit :: tokenise fuel rest
      end
  end.

(** One iteration of the collapsing loop on the tokens kept so far. *)
Definition collapse_step (collapsed : list GlobTok) (t : GlobTok) : list GlobTok :=
  match last collapsed, t with
  | Some DoubleStar, Star | Some DoubleStar, DoubleStar => collapsed
  | Some Star, DoubleStar => removelast collapsed ++ [DoubleStar]
  | Some Star, Star => collapsed
  | _, _ => collapsed ++ [t]
  end.

Definition collapse (toks : list GlobTok) : list GlobTok := foldl collapse_step [] toks.

(** ** The table *)

Definition char_len (b0 : ascii) : nat :=
  let n := N_of_ascii b0 in
  if (n <? 128)%N then 1
  else if (n <? 192)%N then 1
  else if (n <? 224)%N then 2
  else if (n <? 240)%N then 3
  else 4.

(** [bytes[p]] of the source panics out of range; the callers check [p < s.len()]. *)
Definition next_char_boundary (s : bytes) (p : nat) : nat :=
  match s !! p with
  | Some b0 => Nat.min (p + char_len b0) (length s)
  | None => p
  end.

Abbreviation grid := (list (list bool)).
Definition get (g : grid) (i p : nat) : bool :=
  match g !! i with Some row => default false (row !! p) | None => false end.
Definition set (g : grid) (i p : nat) : grid := alter (λ row, <[p := true]> row) i g.

(** The body of the two loops. *)
Definition visit (toks : list GlobTok) (s : bytes) (g : grid) (c : nat * nat) : grid :=
  let '(i, p) := c in
  if negb (get g i p) then g
  else match toks !! i with
       | None => g
       | Some (Literal lit) =>
           if (p + length lit <=? length s) && bool_decide (take (length lit) (drop p s) = lit)
           then set g (i + 1) (p + length lit) else g
       | Some Star =>
           let g := set g (i + 1) p in
           match s !! p with
           | Some b => if negb (bool_decide (b = slash_byte)) then set g i (next_char_boundary s p) else g
           | None => g
           end
       | Some DoubleStar =>
           let g := set g (i + 1) p in
           match s !! p with
           | Some _ => set g i (next_char_boundary s p)
           | None => g
           end
       end.

(** The cells in the order of the loops. *)
Definition cells (n_tok n_str : nat) : list (nat * nat) :=
  list_prod (seq 0 (S n_tok)) (seq 0 (S n_str)).

Definition empty_grid (n_tok n_str : nat) : grid := replicate (S n_tok) (replicate (S n_str) false).

Definition glob_match_iter (toks : list GlobTok) (s : bytes) : bool :=
  let n_tok := length toks in
  let n_str := length s in
  let reach := set (empty_grid n_tok n_str) 0 0 in
  get (foldl (visit toks s) reach (cells n_tok n_str)) n_tok n_str.

Definition glob_match_branch (pattern s : string) : bool :=
  let bytes := to_bytes pattern in
  glob_match_iter (collapse (tokenise (length bytes) bytes)) (to_bytes s).

(** ** The reference: the language of a list of tokens *)

(** The first character of a text and the rest. *)
Definition first_char (s : bytes) : option (bytes * bytes) :=
  match s with
  | [] => None
  | b :: _ => Some (take (char_len b) s, drop (char_len b) s)
  end.

Inductive lang : list GlobTok → bytes → Prop :=
| lang_nil : lang [] []
| lang_literal lit ts r : lang ts r → lang (Literal lit :: ts) (lit ++ r)
| lang_star_skip ts s : lang ts s → lang (Star :: ts) s
| lang_star_char ts s c r :
    first_char s = Some (c, r) → head s ≠ Some slash_byte → lang (Star :: ts) r → lang (Star :: ts) s
| lang_dstar_skip ts s : lang ts s → lang (DoubleStar :: ts) s
| lang_dstar_char ts s c r :
    first_char s = Some (c, r) → lang (DoubleStar :: ts) r → lang (DoubleStar :: ts) s.

(** ** The table holds the reachable states *)

Section Table.
Context (toks : list GlobTok) (s : bytes).

(** The transitions. *)
Inductive moves : nat * nat → nat * nat → Prop :=
| move_literal i p lit :
    toks !! i = Some (Literal lit) → p + length lit ≤ length s → take (length lit) (drop p s) = lit →
    moves (i, p) (i + 1, p + length lit)
| move_star_skip i p : toks !! i = Some Star → moves (i, p) (i + 1, p)
| move_star_char i p b :
    toks !! i = Some Star → s !! p = Some b → b ≠ slash_byte →
    moves (i, p) (i, next_char_boundary s p)
| move_dstar_skip i p : toks !! i = Some DoubleStar → moves (i, p) (i + 1, p)
| move_dstar_char i p b :
    toks !! i = Some DoubleStar → s !! p = Some b → moves (i, p) (i, next_char_boundary s p).

Definition reachable_cell (c : nat * nat) : Prop := rtc moves (0, 0) c.

Definition before (c d : nat * nat) : Prop := c.1 < d.1 ∨ c.1 = d.1 ∧ c.2 < d.2.

Definition in_table (c : nat * nat) : Prop := c.1 ≤ length toks ∧ c.2 ≤ length s.

Definition grid_wf (g : grid) : Prop :=
  length g = S (length toks) ∧ Forall (λ row, length row = S (length s)) g.

Lemma char_len_pos b : 1 ≤ char_len b.
Proof. unfold char_len. repeat case_match; lia. Qed.

Lemma next_char_boundary_bounds p b :
  s !! p = Some b → p < next_char_boundary s p ∧ next_char_boundary s p ≤ length s.
Proof.
  intros Hp. unfold next_char_boundary. rewrite Hp. apply lookup_lt_Some in Hp.
  pose proof (char_len_pos b). lia.
Qed.

Lemma moves_before c d : moves c d → before c d.
Proof.
  destruct 1 as [| |? ? ? ? Hp| |? ? ? ? Hp]; unfold before; cbn; try lia;
    apply next_char_boundary_bounds in Hp; lia.
Qed.

Lemma moves_in_table c d : moves c d → in_table c → in_table d.
Proof.
  intros Hm [Hi Hp]. destruct Hm as [i p lit Ht|i p Ht|i p b Ht Hb|i p Ht|i p b Ht Hb];
    unfold in_table in *; cbn in *; apply lookup_lt_Some in Ht; try lia;
    apply next_char_boundary_bounds in Hb; lia.
Qed.

Lemma reachable_in_table c : reachable_cell c → in_table c.
Proof.
  unfold reachable_cell. intros Hr. assert (in_table (0, 0)) as H0 by (unfold in_table; cbn; lia).
  revert H0. induction Hr as [|c d e Hm _ IH]; [done|]. intros Hc. apply IH. by apply (moves_in_table c).
Qed.

Lemma set_wf g i p : grid_wf g → grid_wf (set g i p).
Proof.
  intros [Hl Hf]. unfold set. split; [by rewrite length_alter|].
  apply Forall_forall. intros row Hr. apply list_elem_of_lookup in Hr as [j Hj].
  rewrite Forall_forall in Hf. destruct (decide (i = j)) as [->|Hne].
  - rewrite list_lookup_alter_eq in Hj. destruct (g !! j) as [row0|] eqn:E; [|done].
    injection Hj as <-. rewrite length_insert. apply Hf. by apply list_elem_of_lookup_2 in E.
  - rewrite list_lookup_alter_ne in Hj by done. apply Hf. by apply list_elem_of_lookup_2 in Hj.
Qed.

Lemma get_set g i p j q :
  grid_wf g → in_table (i, p) →
  get (set g i p) j q = if decide ((i, p) = (j, q)) then true else get g j q.
Proof.
  intros [Hl Hf] [Hi Hp]. cbn in *. unfold get, set. destruct (decide (i = j)) as [<-|Hne].
  - rewrite list_lookup_alter_eq. destruct (lookup_lt_is_Some_2 g i) as [row Hrow]; [lia|].
    rewrite Hrow. cbn. rewrite Forall_forall in Hf.
    assert (length row = S (length s)) as Hr by (by apply Hf, (list_elem_of_lookup_2 _ i)).
    destruct (decide (p = q)) as [<-|Hq].
    + rewrite list_lookup_insert_eq by lia. by rewrite decide_True.
    + rewrite list_lookup_insert_ne by done. by rewrite decide_False by congruence.
  - rewrite list_lookup_alter_ne by done. by rewrite decide_False by congruence.
Qed.

Lemma visit_wf g c : grid_wf g → grid_wf (visit toks s g c).
Proof. intros Hw. destruct c as [i p]. unfold visit. repeat case_match; auto using set_wf. Qed.

(** After the table's cells are rewritten: a cell is the one just set, or it is as before and no
    move leads to it. *)
Ltac visit_case :=
  repeat case_decide; simplify_eq;
  first [ split; [intros _; right; split; [done|by econstructor]|done]
        | split; [by left|]; intros [?|[_ Hm]]; [done|]; inversion Hm; simplify_eq ].

(** Visiting a cell adds what one move reaches from it. *)
Lemma visit_get g c d :
  grid_wf g → in_table c →
  get (visit toks s g c) d.1 d.2 = true ↔
  get g d.1 d.2 = true ∨ get g c.1 c.2 = true ∧ moves c d.
Proof.
  intros Hw Hc. destruct c as [i p], d as [j q]. unfold visit. cbn [fst snd].
  destruct (get g i p) eqn:Hg; cbn [negb]; [|naive_solver].
  assert (∀ x y, moves (i, p) (x, y) → in_table (x, y)) as Hin
    by (intros x y Hm; by apply (moves_in_table (i, p))).
  destruct (toks !! i) as [[lit| |]|] eqn:Ht.
  - destruct ((p + length lit <=? length s) && _) eqn:E.
    + rewrite andb_true_iff, Nat.leb_le, bool_decide_eq_true in E. destruct E as [Hle Htk].
      rewrite get_set by (done || by apply Hin, move_literal). visit_case.
    + apply not_true_iff_false in E. rewrite andb_true_iff, Nat.leb_le, bool_decide_eq_true in E.
      split; [by left|]. intros [?|[_ Hm]]; [done|]. inversion Hm; simplify_eq; naive_solver.
  - assert (in_table (i + 1, p)) as H1 by (by apply Hin, move_star_skip).
    destruct (s !! p) as [b|] eqn:Hb; [case_bool_decide as Hsl|]; cbn [negb].
    + rewrite get_set by done. visit_case.
    + rewrite get_set by (apply set_wf, Hw || by apply Hin, (move_star_char _ _ b)).
      rewrite get_set by done. visit_case.
    + rewrite get_set by done. visit_case.
  - assert (in_table (i + 1, p)) as H1 by (by apply Hin, move_dstar_skip).
    destruct (s !! p) as [b|] eqn:Hb.
    + rewrite get_set by (apply set_wf, Hw || by apply Hin, (move_dstar_char _ _ b)).
      rewrite get_set by done. visit_case.
    + rewrite get_set by done. visit_case.
  - visit_case.
Qed.

(** What holds of the table once the cells [seen] are visited. *)
Record table_inv (seen : list (nat * nat)) (g : grid) : Prop := {
  ti_wf : grid_wf g;
  ti_sound c : get g c.1 c.2 = true → reachable_cell c;
  ti_start : get g 0 0 = true;
  ti_closed c d : c ∈ seen → get g c.1 c.2 = true → moves c d → get g d.1 d.2 = true
}.

Lemma visit_inv seen g c :
  table_inv seen g → in_table c → (∀ c', c' ∈ seen → ¬ before c c') →
  table_inv (seen ++ [c]) (visit toks s g c).
Proof.
  intros [Hw Hs H0 Hcl] Hc Hb. constructor.
  - by apply visit_wf.
  - intros d Hd. apply visit_get in Hd as [Hd|[Hg Hm]]; [by apply Hs| |done..].
    eapply rtc_r; [by apply Hs|done].
  - apply (visit_get g c (0, 0)); auto.
  - intros c' d Hin Hg Hm. apply visit_get; [done..|].
    apply visit_get in Hg; [|done..]. apply elem_of_app in Hin as [Hin| ->%list_elem_of_singleton].
    + destruct Hg as [Hg|[_ Hm']]; [left; by apply (Hcl c')|].
      by apply moves_before, (Hb c') in Hm'.
    + destruct Hg as [Hg|[Hg _]]; auto.
Qed.

Lemma fold_inv l seen g :
  table_inv seen g → Forall in_table l → StronglySorted before l →
  (∀ c c', c ∈ l → c' ∈ seen → ¬ before c c') →
  table_inv (seen ++ l) (foldl (visit toks s) g l).
Proof.
  revert seen g. induction l as [|c l IH]; intros seen g Hinv Hf Hso Hb; [by rewrite app_nil_r|].
  apply Forall_cons in Hf as [Hc Hf]. apply StronglySorted_inv in Hso as [Hso Hall].
  rewrite Forall_forall in Hall. cbn [foldl].
  change (c :: l) with ([c] ++ l). rewrite (assoc_L (++)). apply IH; [|done..|].
  - apply visit_inv; [done..|]. intros c' Hc'. by apply Hb; [apply list_elem_of_here|].
  - intros d c' Hd [Hc'| ->%list_elem_of_singleton]%elem_of_app.
    + apply Hb; [by apply elem_of_cons; right|done].
    + pose proof (Hall d Hd) as Hbd. unfold before in *. lia.
Qed.

Lemma cells_sorted a n m : StronglySorted before (list_prod (seq a n) (seq 0 m)).
Proof.
  revert a. induction n as [|n IH]; intros a; [constructor|].
  change (list_prod (seq a (S n)) (seq 0 m)) with
    (map (λ y, (a, y)) (seq 0 m) ++ list_prod (seq (S a) n) (seq 0 m)).
  apply StronglySorted_app_2; [|clear IH|by apply IH].
  - intros [i p] [j q] Hc Hd. rewrite list_elem_of_In in Hc, Hd.
    apply in_map_iff in Hc as (y & [= <- <-] & _). apply in_prod_iff in Hd as [Hj _].
    apply in_seq in Hj. unfold before. cbn. lia.
  - generalize 0 as b. induction m as [|m IHm]; intros b; [constructor|].
    cbn [seq map]. constructor; [apply IHm|]. apply Forall_forall. intros c Hc.
    rewrite list_elem_of_In in Hc. apply in_map_iff in Hc as (y & <- & Hy%in_seq).
    unfold before. cbn. lia.
Qed.

Lemma cells_elem c : c ∈ cells (length toks) (length s) ↔ in_table c.
Proof.
  unfold cells, in_table. rewrite list_elem_of_In. destruct c as [i p].
  rewrite in_prod_iff, !in_seq. cbn. lia.
Qed.

Lemma start_inv : table_inv [] (set (empty_grid (length toks) (length s)) 0 0).
Proof.
  assert (grid_wf (empty_grid (length toks) (length s))) as Hw.
  { split; [apply length_replicate|]. apply Forall_replicate, length_replicate. }
  assert (in_table (0, 0)) as H0 by (unfold in_table; cbn; lia).
  assert (∀ i p, get (empty_grid (length toks) (length s)) i p = false) as He.
  { intros i p. unfold get, empty_grid. destruct (replicate _ _ !! i) eqn:E; [|done].
    apply lookup_replicate in E as [-> _]. destruct (replicate _ false !! p) eqn:E'; [|done].
    by apply lookup_replicate in E' as [-> _]. }
  constructor.
  - by apply set_wf.
  - intros [i p]. rewrite get_set, He by done. case_decide; [|done]. intros _. simplify_eq/=.
    apply rtc_refl.
  - by rewrite get_set, decide_True by done.
  - by intros c d ?%elem_of_nil.
Qed.

Lemma table_decides : glob_match_iter toks s = true ↔ reachable_cell (length toks, length s).
Proof.
  pose proof (fold_inv (cells (length toks) (length s)) [] _ start_inv) as [_ Hs H0 Hcl].
  - apply Forall_forall. intros c Hc. by apply cells_elem.
  - apply cells_sorted.
  - by intros c c' _ ?%elem_of_nil.
  - unfold glob_match_iter. split; [apply (Hs (_, _))|].
    cbn [app] in Hcl. set (g := foldl _ _ _) in *.
    assert (∀ c, reachable_cell c → get g c.1 c.2 = true) as Hall; [|apply (Hall (_, _))].
    apply (rtc_ind_r (λ c, get g c.1 c.2 = true)); [done|]. intros c d Hr Hm IH.
    apply (Hcl c); [|done..]. by apply cells_elem, reachable_in_table.
Qed.

(** ** Reachability is the language *)

Lemma drop_cons {A} (l : list A) i x : l !! i = Some x → drop i l = x :: drop (i + 1) l.
Proof. intros Hx. rewrite (drop_S _ _ _ Hx). by rewrite Nat.add_1_r. Qed.

Lemma first_char_drop p b :
  s !! p = Some b →
  first_char (drop p s) = Some (take (char_len b) (drop p s), drop (next_char_boundary s p) s)
  ∧ head (drop p s) = Some b.
Proof.
  intros Hp. pose proof (drop_cons _ _ _ Hp) as Hd. unfold first_char.
  rewrite Hd at 1. split; [|by rewrite Hd]. do 2 f_equal. rewrite drop_drop.
  unfold next_char_boundary. rewrite Hp.
  destruct (Nat.min_spec (p + char_len b) (length s)) as [[? ->]|[? ->]]; [done|].
  by rewrite !drop_ge by lia.
Qed.

Lemma moves_lang c d :
  moves c d → lang (drop d.1 toks) (drop d.2 s) → lang (drop c.1 toks) (drop c.2 s).
Proof.
  destruct 1 as [i p lit Ht Hle Htk|i p Ht|i p b Ht Hb Hsl|i p Ht|i p b Ht Hb]; cbn [fst snd]; intros Hl.
  - rewrite (drop_cons _ _ _ Ht). rewrite <-(take_drop (length lit) (drop p s)), Htk, drop_drop.
    by apply lang_literal.
  - rewrite (drop_cons _ _ _ Ht). by apply lang_star_skip.
  - destruct (first_char_drop p b Hb) as [Hf Hh]. rewrite (drop_cons _ _ _ Ht) in *.
    eapply lang_star_char; [exact Hf|by rewrite Hh; intros [= ->]|done].
  - rewrite (drop_cons _ _ _ Ht). by apply lang_dstar_skip.
  - destruct (first_char_drop p b Hb) as [Hf Hh]. rewrite (drop_cons _ _ _ Ht) in *.
    by eapply lang_dstar_char.
Qed.

Lemma drop_cons_inv {A} (l : list A) i x k : drop i l = x :: k → l !! i = Some x ∧ k = drop (i + 1) l.
Proof.
  intros Hd. assert (l !! i = Some x) as Hx.
  { rewrite <-(Nat.add_0_r i), <-lookup_drop, Hd. done. }
  split; [done|]. rewrite (drop_cons _ _ _ Hx) in Hd. by injection Hd.
Qed.

Lemma lang_moves ts r i p :
  lang ts r → ts = drop i toks → r = drop p s → in_table (i, p) →
  rtc moves (i, p) (length toks, length s).
Proof.
  intros Hl. revert i p.
  induction Hl as [|lit ts r _ IH|ts r _ IH|ts r c r' Hf Hh _ IH|ts r _ IH|ts r c r' Hf _ IH];
    intros i p Hts Hr Hin.
  - unfold in_table in Hin. cbn in Hin.
    assert (length (drop i toks) = 0) as H1 by (by rewrite <-Hts). rewrite length_drop in H1.
    assert (length (drop p s) = 0) as H2 by (by rewrite <-Hr). rewrite length_drop in H2.
    replace (i, p) with (length toks, length s) by (f_equal; lia). apply rtc_refl.
  - symmetry in Hts. apply drop_cons_inv in Hts as [Ht Hts].
    assert (moves (i, p) (i + 1, p + length lit)) as Hm.
    { apply move_literal; [done| |by rewrite <-Hr, take_app_length].
      pose proof (f_equal length Hr) as Hlen. rewrite length_app, length_drop in Hlen.
      unfold in_table in Hin. cbn in Hin. lia. }
    eapply rtc_l; [exact Hm|]. apply IH; [done| |by apply (moves_in_table (i, p))].
    rewrite <-drop_drop, <-Hr. by rewrite drop_app_length.
  - symmetry in Hts. pose proof (drop_cons_inv _ _ _ _ Hts) as [Ht Hts'].
    eapply rtc_l; [by apply move_star_skip|]. apply IH; [done..|].
    apply (moves_in_table (i, p)); [by apply move_star_skip|done].
  - pose proof Hts as Hts'. symmetry in Hts'. apply drop_cons_inv in Hts' as [Ht _].
    destruct r as [|b r0]; [done|]. symmetry in Hr.
    pose proof (drop_cons_inv _ _ _ _ Hr) as [Hb _].
    destruct (first_char_drop p b Hb) as [Hf' _]. rewrite Hr in Hf'. rewrite Hf' in Hf.
    injection Hf as _ Hr'.
    assert (moves (i, p) (i, next_char_boundary s p)) as Hm
      by (apply (move_star_char _ _ b); [done..|]; intros ->; by apply Hh).
    eapply rtc_l; [exact Hm|]. apply IH; [done..|]. by apply (moves_in_table (i, p)).
  - symmetry in Hts. pose proof (drop_cons_inv _ _ _ _ Hts) as [Ht Hts'].
    eapply rtc_l; [by apply move_dstar_skip|]. apply IH; [done..|].
    apply (moves_in_table (i, p)); [by apply move_dstar_skip|done].
  - pose proof Hts as Hts'. symmetry in Hts'. apply drop_cons_inv in Hts' as [Ht _].
    destruct r as [|b r0]; [done|]. symmetry in Hr.
    pose proof (drop_cons_inv _ _ _ _ Hr) as [Hb _].
    destruct (first_char_drop p b Hb) as [Hf' _]. rewrite Hr in Hf'. rewrite Hf' in Hf.
    injection Hf as _ Hr'.
    assert (moves (i, p) (i, next_char_boundary s p)) as Hm by (by apply (move_dstar_char _ _ b)).
    eapply rtc_l; [exact Hm|]. apply IH; [done..|]. by apply (moves_in_table (i, p)).
Qed.

Lemma reachable_lang : reachable_cell (length toks, length s) ↔ lang toks s.
Proof.
  unfold reachable_cell. split.
  - intros Hr. change (lang (drop (0, 0).1 toks) (drop (0, 0).2 s)).
    assert (lang (drop (length toks, length s).1 toks) (drop (length toks, length s).2 s)) as Hend.
    { cbn. rewrite !drop_all. constructor. }
    revert Hend. generalize (length toks, length s) as e, Hr. clear Hr. intros e Hr.
    induction Hr as [|c d e Hm _ IH]; [done|]. intros He. by eapply moves_lang, IH.
  - intros Hl. eapply lang_moves; [exact Hl|done..|]. unfold in_table. cbn. lia.
Qed.

End Table.

Lemma glob_match_iter_lang toks s : glob_match_iter toks s = true ↔ lang toks s.
Proof. rewrite table_decides. apply reachable_lang. Qed.

(** ** Collapsing tokens *)

(** Lists of tokens with the same language. *)
#[export] Instance toks_equiv : Equiv (list GlobTok) := λ ts us, ∀ s, lang ts s ↔ lang us s.
#[export] Instance toks_equivalence : Equivalence (≡@{list GlobTok}).
Proof.
  split; [intros ts s|intros ts us E s|intros ts us vs E F s]; [done|symmetry; apply E|].
  etrans; [apply E|apply F].
Qed.

(** Induction on a derivation for a list of tokens of a given shape. *)
Ltac lang_ind H v :=
  remember v as w eqn:Ew; revert Ew; induction H; intros Ew; simplify_eq; eauto using lang.

Lemma lang_cons_mono t ts us s : (∀ s, lang ts s → lang us s) → lang (t :: ts) s → lang (t :: us) s.
Proof. intros Hs Hl. lang_ind Hl (t :: ts). Qed.

#[export] Instance toks_cons_proper t : Proper ((≡) ==> (≡)) (cons (A := GlobTok) t).
Proof. intros ts us E s. split; apply lang_cons_mono; intros; by apply E. Qed.

#[export] Instance toks_app_proper acc : Proper ((≡) ==> (≡)) (app (A := GlobTok) acc).
Proof.
  intros ts us E. induction acc as [|t acc IH]; [done|]. cbn [app]. by apply toks_cons_proper.
Qed.

(** The collapsing rules: of two adjacent stars the wider one remains. *)
Lemma lang_star_dstar ts s : lang (Star :: ts) s → lang (DoubleStar :: ts) s.
Proof. intros Hl. lang_ind Hl (Star :: ts). Qed.

Lemma dstar_star ts : DoubleStar :: Star :: ts ≡ DoubleStar :: ts.
Proof.
  intros s. split; intros Hl.
  - lang_ind Hl (DoubleStar :: Star :: ts). by apply lang_star_dstar.
  - lang_ind Hl (DoubleStar :: ts).
Qed.
Lemma dstar_dstar ts : DoubleStar :: DoubleStar :: ts ≡ DoubleStar :: ts.
Proof. intros s. split; intros Hl; [lang_ind Hl (DoubleStar :: DoubleStar :: ts)|eauto using lang]. Qed.
Lemma star_dstar ts : Star :: DoubleStar :: ts ≡ DoubleStar :: ts.
Proof. intros s. split; intros Hl; [lang_ind Hl (Star :: DoubleStar :: ts)|eauto using lang]. Qed.
Lemma star_star ts : Star :: Star :: ts ≡ Star :: ts.
Proof. intros s. split; intros Hl; [lang_ind Hl (Star :: Star :: ts)|eauto using lang]. Qed.

Lemma collapse_step_equiv acc t ts : collapse_step acc t ++ ts ≡ acc ++ t :: ts.
Proof.
  destruct acc as [|x acc _] using rev_ind; [done|]. unfold collapse_step.
  rewrite last_snoc, removelast_last, <-!(assoc_L (++)). cbn [app].
  destruct x, t; rewrite <-?(assoc_L (++)); cbn [app]; try done; f_equiv;
    by rewrite ?dstar_star, ?dstar_dstar, ?star_dstar, ?star_star.
Qed.

Lemma collapse_equiv ts : collapse ts ≡ ts.
Proof.
  unfold collapse. change ts with ([] ++ ts) at 2. generalize ([] : list GlobTok) as acc.
  induction ts as [|t ts IH]; intros acc; cbn [foldl]; [by rewrite app_nil_r|].
  rewrite IH. apply collapse_step_equiv.
Qed.

(** ** The language of a pattern *)

(** What a pattern matches, on its text: a byte other than a star matches itself, a single star
    a run of characters without a slash, a double star any run of characters. *)
Inductive branch_matches : bytes → bytes → Prop :=
| bm_nil : branch_matches [] []
| bm_byte a p s : a ≠ star_byte → branch_matches p s → branch_matches (a :: p) (a :: s)
| bm_star_skip p s :
    head p ≠ Some star_byte → branch_matches p s → branch_matches (star_byte :: p) s
| bm_star_char p s c r :
    head p ≠ Some star_byte → first_char s = Some (c, r) → head s ≠ Some slash_byte →
    branch_matches (star_byte :: p) r → branch_matches (star_byte :: p) s
| bm_dstar_skip p s : branch_matches p s → branch_matches (star_byte :: star_byte :: p) s
| bm_dstar_char p s c r :
    first_char s = Some (c, r) → branch_matches (star_byte :: star_byte :: p) r →
    branch_matches (star_byte :: star_byte :: p) s.

Ltac bm_ind H v :=
  remember v as w eqn:Ew; revert Ew; induction H; intros Ew; simplify_eq; eauto using lang, branch_matches.

Lemma star_pattern ts p :
  head p ≠ Some star_byte → (∀ s, lang ts s ↔ branch_matches p s) →
  ∀ s, lang (Star :: ts) s ↔ branch_matches (star_byte :: p) s.
Proof.
  intros Hp E s. split; intros Hl.
  - lang_ind Hl (Star :: ts); [apply bm_star_skip; [done|by apply E]|eapply bm_star_char; eauto].
  - bm_ind Hl (star_byte :: p). apply lang_star_skip. by apply E.
Qed.

Lemma dstar_pattern ts p :
  (∀ s, lang ts s ↔ branch_matches p s) →
  ∀ s, lang (DoubleStar :: ts) s ↔ branch_matches (star_byte :: star_byte :: p) s.
Proof.
  intros E s. split; intros Hl.
  - lang_ind Hl (DoubleStar :: ts); [apply bm_dstar_skip; by apply E|eapply bm_dstar_char; eauto].
  - bm_ind Hl (star_byte :: star_byte :: p). apply lang_dstar_skip. by apply E.
Qed.

Lemma literal_pattern lit p s :
  star_byte ∉ lit → branch_matches (lit ++ p) s ↔ ∃ r, s = lit ++ r ∧ branch_matches p r.
Proof.
  revert s. induction lit as [|a lit IH]; intros s Hs; [naive_solver|].
  apply not_elem_of_cons in Hs as [Ha Hs]. cbn [app]. split.
  - intros Hl. inversion Hl; simplify_eq. apply IH in H3 as (r & -> & Hr); eauto.
  - intros (r & -> & Hr). apply bm_byte; [congruence|]. apply IH; eauto.
Qed.

Lemma take_literal_spec l :
  l = (take_literal l).1 ++ (take_literal l).2 ∧ star_byte ∉ (take_literal l).1.
Proof.
  induction l as [|a l [IHl IHs]]; [split; [done|set_solver]|]. simpl. case_bool_decide.
  - split; [done|set_solver].
  - destruct (take_literal l) as [lit rest]. simpl in *. subst. split; [done|set_solver].
Qed.

Lemma tokenise_pattern fuel p s :
  length p ≤ fuel → lang (tokenise fuel p) s ↔ branch_matches p s.
Proof.
  revert p s. induction fuel as [|fuel IH]; intros p s Hf.
  - destruct p; [|simpl in Hf; lia]. split; intros Hl; inversion Hl; constructor.
  - destruct p as [|a p]; [split; intros Hl; inversion Hl; constructor|].
    cbn [tokenise]. case_bool_decide as Ha.
    + subst a. simpl in Hf. destruct p as [|b p].
      * apply star_pattern; [done|]. intros s'. apply IH. simpl. lia.
      * case_bool_decide as Hb.
        -- subst b. apply dstar_pattern. intros s'. apply IH. simpl in *. lia.
        -- apply star_pattern; [simpl; congruence|]. intros s'. apply IH. lia.
    + destruct (take_literal_spec (a :: p)) as [Hp Hs].
      assert (∃ lit', (take_literal (a :: p)).1 = a :: lit') as [lit' Hlit].
      { simpl. rewrite bool_decide_eq_false_2 by done. destruct (take_literal p). by eexists. }
      destruct (take_literal (a :: p)) as [lit rest]. simpl in Hp, Hs, Hlit. rewrite Hp.
      assert (length rest ≤ fuel) as Hrest.
      { pose proof (f_equal length Hp) as Hlen. rewrite Hlit, length_app in Hlen. simpl in *. lia. }
      rewrite literal_pattern by done. split.
      * intros Hl. inversion Hl; subst. eexists. split; [done|]. by apply IH.
      * intros (r & -> & Hr). apply lang_literal. by apply IH.
Qed.

(** ** Runs of a single star *)

(** No slash inside a character: what follows a lead byte is not one. *)
Fixpoint tame (s : bytes) : Prop :=
  match s with [] => True | b :: r => slash_byte ∉ take (char_len b - 1) r ∧ tame r end.

Definition slashes (s : bytes) : nat := length (List.filter (λ a, bool_decide (a = slash_byte)) s).

Lemma cont_len a : cont a = true → char_len a = 1 ∧ a ≠ slash_byte.
Proof.
  unfold cont, in_range, char_len. rewrite andb_true_iff, !N.leb_le. intros [Hlo Hhi].
  split; [|intros ->; by cbv in Hlo]. destruct (N.ltb_spec (N_of_ascii a) 128); [lia|].
  destruct (N.ltb_spec (N_of_ascii a) 192); [done|lia].
Qed.

Lemma second_cont a b : utf8_second3 a b = true ∨ utf8_second4 a b = true → cont b = true.
Proof.
  unfold utf8_second3, utf8_second4, cont, in_range.
  rewrite !orb_true_iff, !andb_true_iff, !N.leb_le. lia.
Qed.

Lemma char_len_lead a :
  (in_range 0 127 a = true → char_len a = 1) ∧ (in_range 194 223 a = true → char_len a = 2) ∧
  (in_range 224 239 a = true → char_len a = 3) ∧ (in_range 240 244 a = true → char_len a = 4).
Proof.
  unfold in_range, char_len. rewrite !andb_true_iff, !N.leb_le.
  destruct (N.ltb_spec (N_of_ascii a) 128), (N.ltb_spec (N_of_ascii a) 192),
    (N.ltb_spec (N_of_ascii a) 224), (N.ltb_spec (N_of_ascii a) 240); split_and!; intros; lia.
Qed.

Lemma tame_cont b r : cont b = true → tame r → tame (b :: r).
Proof. intros [Hb _]%cont_len Hr. split; [rewrite Hb; simpl; set_solver|done]. Qed.

Lemma utf8_tame l n : utf8_error n l = None → tame l.
Proof.
  remember (length l) as k eqn:Hk. assert (length l ≤ k) as Hle by lia. clear Hk. revert l n Hle.
  induction k as [|k IH]; intros l n Hle; [destruct l; [done|simpl in Hle; lia]|].
  destruct l as [|a l1]; [done|]. cbn [utf8_error tame]. simpl in Hle.
  destruct (char_len_lead a) as (L1 & L2 & L3 & L4).
  destruct (in_range 0 127 a).
  { rewrite L1 by done. intros Hu. split; [simpl; set_solver|]. eapply IH; [|exact Hu]. lia. }
  destruct (in_range 194 223 a); [|destruct (in_range 224 239 a); [|destruct (in_range 240 244 a); [|done]]].
  - rewrite L2 by done. destruct l1 as [|b l2]; [done|]. destruct (cont b) eqn:Cb; [|done]. intros Hu.
    split; [apply cont_len in Cb; simpl; set_solver|]. apply tame_cont; [done|].
    eapply IH; [|exact Hu]. simpl in Hle. lia.
  - rewrite L3 by done. destruct l1 as [|b l2]; [done|].
    destruct (utf8_second3 a b) eqn:S3; [|done].
    assert (cont b = true) as Cb by (by apply (second_cont a); left).
    destruct l2 as [|c l3]; [done|]. destruct (cont c) eqn:Cc; [|done]. intros Hu.
    split; [apply cont_len in Cb, Cc; simpl; set_solver|]. do 2 (apply tame_cont; [done|]).
    eapply IH; [|exact Hu]. simpl in Hle. lia.
  - rewrite L4 by done. destruct l1 as [|b l2]; [done|].
    destruct (utf8_second4 a b) eqn:S4; [|done].
    assert (cont b = true) as Cb by (by apply (second_cont a); right).
    destruct l2 as [|c l3]; [done|]. destruct (cont c) eqn:Cc; [|done].
    destruct l3 as [|d l4]; [done|]. destruct (cont d) eqn:Cd; [|done]. intros Hu.
    split; [apply cont_len in Cb, Cc, Cd; simpl; set_solver|]. do 3 (apply tame_cont; [done|]).
    eapply IH; [|exact Hu]. simpl in Hle. lia.
Qed.

Lemma tame_drop k s : tame s → tame (drop k s).
Proof. revert s. induction k as [|k IH]; intros s Hs; [done|]. destruct s; [done|]. apply IH, Hs. Qed.

Lemma slashes_app s t : slashes (s ++ t) = slashes s + slashes t.
Proof. unfold slashes. by rewrite List.filter_app, length_app. Qed.

Lemma slashes_none s : slash_byte ∉ s → slashes s = 0.
Proof.
  induction s as [|a s IH]; [done|]. intros [Ha Hs]%not_elem_of_cons. unfold slashes in *. simpl.
  rewrite bool_decide_eq_false_2 by congruence. by apply IH.
Qed.

(** A character that does not start with a slash has none. *)
Lemma first_char_slashes s c r :
  tame s → first_char s = Some (c, r) → head s ≠ Some slash_byte → slashes s = slashes r ∧ tame r.
Proof.
  intros Ht Hf Hh. destruct s as [|b s]; [done|]. injection Hf as <- <-.
  split; [|by apply tame_drop]. pose proof (char_len_pos b) as Hl.
  rewrite <-(take_drop (char_len b) (b :: s)) at 1. rewrite slashes_app.
  rewrite (slashes_none (take _ _)); [done|]. destruct (char_len b) as [|n] eqn:E; [lia|].
  cbn [take]. apply not_elem_of_cons. split; [simpl in Hh; congruence|].
  destruct Ht as [Ht _]. rewrite E in Ht. by replace (S n - 1) with n in Ht by lia.
Qed.

(** Adjacent stars. *)
Fixpoint has_dstar (p : bytes) : bool :=
  match p with
  | a :: p' => bool_decide (a = star_byte) && bool_decide (head p' = Some star_byte) || has_dstar p'
  | [] => false
  end.

Lemma single_star_slashes p s :
  branch_matches p s → has_dstar p = false → tame s → slashes s = slashes p.
Proof.
  induction 1 as [|a p s Ha _ IH|p s Hp _ IH|p s c r Hp Hf Hh _ IH|p s _ _|p s c r _ _ _];
    intros Hd Ht; try done.
  - simpl in Hd. rewrite bool_decide_eq_false_2 in Hd by done. destruct Ht as [_ Ht].
    change (a :: s) with ([a] ++ s). change (a :: p) with ([a] ++ p). rewrite !slashes_app. by rewrite IH.
  - simpl in Hd. apply orb_false_iff in Hd as [_ Hd]. rewrite IH by done. done.
  - destruct (first_char_slashes _ _ _ Ht Hf Hh) as [-> Hr]. by apply IH.
Qed.

(** ** Properties *)

(** The branch matcher decides the language of its pattern: the tokenizer, the collapsing of
    adjacent stars and the table together accept a text exactly when the pattern matches it. *)
Theorem glob_match_branch_correct (pattern s : string) :
  glob_match_branch pattern s = true ↔ branch_matches (to_bytes pattern) (to_bytes s).
Proof.
  unfold glob_match_branch. rewrite glob_match_iter_lang. rewrite (collapse_equiv _ _).
  apply tokenise_pattern. done.
Qed.

(** A single star stays within one path segment: a pattern without adjacent stars matches only
    branch names with as many slashes as it has itself, so [feat/*] never reaches
    [feat/a/b]. *)
Theorem single_star_keeps_depth (pattern s : string) :
  has_dstar (to_bytes pattern) = false → utf8_error 0 (to_bytes s) = None →
  glob_match_branch pattern s = true → slashes (to_bytes s) = slashes (to_bytes pattern).
Proof.
  intros Hd Hu Hm. apply single_star_slashes; [|done|by apply (utf8_tame _ 0)].
  unfold glob_match_branch in Hm. rewrite glob_match_iter_lang, (collapse_equiv _ _) in Hm.
  by apply tokenise_pattern in Hm.
Qed.

Lemma single_star_keeps_depth_witness :
  glob_match_branch "feat/*" "feat/login" = true ∧ glob_match_branch "feat/*" "feat/a/b" = false
  ∧ slashes (to_bytes "feat/login") = slashes (to_bytes "feat/*").
Proof.
  split_and!; [reflexivity..|].
  exact (single_star_keeps_depth "feat/*" "feat/login" eq_refl eq_refl eq_refl).
Defined.
