(* ===== verification/ProxyMatch.v ===== *)
(** * Matching in the forward proxy

    crates/core-proxy-forward/src/match.rs (classification of requests, hosts, paths and branches;
    the branch matcher is in [BranchGlob]) and allowed_targets.rs. The crates http (URIs),
    percent_encoding and serde_json are parameters: classes of their functions, with the laws
    that are used as separate classes. A method is its name. *)

From stdpp Require Import base list sets strings.
From Stdlib Require Import Ascii Lia.
From S2P Require Import Prelude CoreTypes Numbers Glob BranchGlob.

Local Infix "+:+" := String.append (at level 60, right associativity).

(** ** Third-party code *)

(** [http::Uri]: parsing, the components, printing, the default, and [Uri::builder()] from scheme,
    authority and path-and-query. *)
Class UriOps := {
  Uri : Type;
  uri_parse : string → result Uri string;
  uri_scheme : Uri → option string;
  uri_authority : Uri → option string;
  uri_host : Uri → option string;
  uri_path : Uri → string;
  uri_query : Uri → option string;
  uri_path_and_query : Uri → option string;
  uri_display : Uri → string;
  uri_default : Uri;
  uri_build : string → string → string → result Uri string
}.

(** The documented behaviour that is used: the host is a function of the authority, a built
    URI has the parts it was built from, and printing it keeps the host. *)
Class UriLaws (U : UriOps) := {
  authority_host : string → string;
  uri_host_authority u a : uri_authority u = Some a → uri_host u = Some (authority_host a);
  uri_build_parts s a pq u :
    uri_build s a pq = Ok u → uri_scheme u = Some s ∧ uri_authority u = Some a;
  uri_build_display s a pq u u' :
    uri_build s a pq = Ok u → uri_parse (uri_display u) = Ok u' → uri_host u' = uri_host u
}.

(** [percent_decode_str(s).decode_utf8_lossy()] *)
Class PercentOps := { percent_decode_lossy : string → string }.

(** [serde_json::from_str::<Vec<String>>] *)
Class JsonArrayOps := { json_string_array : string → option (list string) }.

(** ** Strings *)

Fixpoint trim_start_char (c : ascii) (l : bytes) : bytes :=
  match l with
  | [] => []
  | a :: l' => if bool_decide (a = c) then trim_start_char c l' else l
  end.
(** [trim_end_matches(c)] *)
Definition trim_end_char (c : ascii) (l : bytes) : bytes := rev (trim_start_char c (rev l)).

(** [strip_suffix] *)
Definition strip_suffix (p l : bytes) : option bytes :=
  match strip_prefix_on (rev p) (rev l) with Some r => Some (rev r) | None => None end.

(** [strip_prefix(p).unwrap_or(s)] *)
Definition strip_prefix_or (p l : bytes) : bytes := default l (strip_prefix_on p l).

Definition dot_byte : ascii := "."%char.
Definition question_byte : ascii := "?"%char.
Definition ampersand_byte : ascii := "&"%char.

(** ** The effective URI *)

Section Requests.
Context {U : UriOps}.

Definition effective_scope_uri (target_url : string) (req_uri : Uri) : result Uri string :=
  let? target_uri := map_err (λ e, "invalid X-Ember-Target: " +:+ e) (uri_parse target_url) in
  let? target_authority := ok_or (uri_authority target_uri)
                             "X-Ember-Target must include scheme + authority" in
  let? scheme := ok_or (uri_scheme target_uri) "X-Ember-Target must include a scheme" in
  let target_pq := default "" (uri_path_and_query target_uri) in
  let target_path_is_trivial := str_is_empty target_pq || bool_decide (target_pq = "/") in
  let path_and_query :=
    if target_path_is_trivial then default "/" (uri_path_and_query req_uri) else target_pq in
  map_err (λ e, "failed to assemble effective URI: " +:+ e)
    (uri_build scheme target_authority path_and_query).

Inductive MethodTier := TierRead | TierWrite.

Definition method_tier (method : string) : option MethodTier :=
  if bool_decide (method ∈ ["GET"; "HEAD"; "OPTIONS"]) then Some TierRead
  else if bool_decide (method ∈ ["POST"; "PUT"; "PATCH"; "DELETE"]) then Some TierWrite
  else None.

(** ** Hosts *)

(** The host in lower case without the dots of an absolute name. *)
Definition normal_host (host : string) : bytes :=
  trim_end_char dot_byte (ascii_lower <$> to_bytes host).

Definition host_matches_domain (host domain : string) : bool :=
  let host := normal_host host in
  let domain := ascii_lower <$> to_bytes domain in
  if bool_decide (host = domain) then true
  else ends_with_on (dot_byte :: domain) host.

Fixpoint find_any (cs : list ascii) (l : bytes) : option nat :=
  match l with
  | [] => None
  | a :: l' => if bool_decide (a ∈ cs) then Some 0 else S <$> find_any cs l'
  end.

Definition extract_host_from_url (url : string) : option string :=
  match find_on (to_bytes "://") (to_bytes url) with
  | None => None
  | Some n =>
      let after_scheme := drop (n + 3) (to_bytes url) in
      let stop := default (length after_scheme) (find_any ["/"; "?"; "#"; ":"]%char after_scheme) in
      Some (of_bytes (ascii_lower <$> take stop after_scheme))
  end.

(** ** Action and resource of a request *)

Definition tier_verb (tier : MethodTier) (write : string) : string :=
  match tier with TierRead => "read" | TierWrite => write end.

(** Provider, action and host slug of a host. *)
Definition provider_of_host (host : string) (tier : MethodTier) : string * string * option string :=
  if host_matches_domain host "github.com" then ("github", tier_verb tier "push", None)
  else if host_matches_domain host "api.anthropic.com" then ("llm", "generate", Some "anthropic")
  else if host_matches_domain host "chatgpt.com" then ("llm", "generate", Some "openai")
  else if host_matches_domain host "generativelanguage.googleapis.com"
       then ("llm", "generate", Some "google")
  else if host_matches_domain host "cloudcode-pa.googleapis.com"
       then ("llm", "generate", Some "google")
  else ("generic", tier_verb tier "write", None).

Definition request_to_action_resource (method : string) (uri : Uri) : option (string * string) :=
  match method_tier method with
  | None => None
  | Some tier =>
      let host := default "" (uri_host uri) in
      let path := to_bytes (uri_path uri) in
      let '(provider, action, host_slug) := provider_of_host host tier in
      let trimmed := strip_prefix_or (to_bytes "/") path in
      let resource :=
        if bool_decide (provider = "github") then of_bytes (strip_prefix_or (to_bytes "repos/") trimmed)
        else match host_slug with
             | Some slug =>
                 if bool_decide (provider = "llm") then slug +:+ "/" +:+ of_bytes trimmed
                 else of_bytes path
             | None => of_bytes path
             end in
      Some (provider +:+ ":" +:+ action, resource)
  end.

End Requests.

(** ** Git paths *)

Definition is_git_smart_http_path (path_and_query : string) : bool :=
  let '(path, query) :=
    match split_once_on question_byte (to_bytes path_and_query) with
    | Some (p, q) => (p, Some q)
    | None => (to_bytes path_and_query, None)
    end in
  if ends_with_on (to_bytes "/git-receive-pack") path || ends_with_on (to_bytes "/git-upload-pack") path
  then true
  else if ends_with_on (to_bytes "/info/refs") path then
    match query with
    | Some q =>
        existsb (λ kv, match strip_prefix_on (to_bytes "service=") kv with
                         | Some value => bool_decide (value = to_bytes "git-receive-pack")
                                         || bool_decide (value = to_bytes "git-upload-pack")
                         | None => false
                         end) (split_on ampersand_byte q)
    | None => false
    end
  else false.

Definition non_empty (l : bytes) : option bytes := if bool_decide (l = []) then None else Some l.

Definition git_echo_owner_repo (upstream_path_and_query : string) : option string :=
  let path := default [] (head (split_on question_byte (to_bytes upstream_path_and_query))) in
  let rest := trim_start_char slash_byte path in
  match split_once_on slash_byte rest with
  | None => None
  | Some (owner, rest') =>
      match non_empty owner with
      | None => None
      | Some owner =>
          let repo_raw := match split_once_on slash_byte rest' with Some (r, _) => r | None => rest' end in
          match non_empty repo_raw with
          | None => None
          | Some repo_raw =>
              let repo := default repo_raw (strip_suffix (to_bytes ".git") repo_raw) in
              Some (of_bytes (owner ++ slash_byte :: repo))
          end
      end
  end.

(** ** Wildcards and targets *)

(** The copy of the wildcard matcher in this crate. *)
Definition proxy_wildcard_match (pattern s : string) : bool :=
  if negb (str_contains_char pattern star) then bool_decide (pattern = s)
  else
    let parts := split_on star (to_bytes pattern) in
    let first := default [] (head parts) in
    match strip_prefix_on first (to_bytes s) with
    | None => false
    | Some cur =>
        match mid_loop (removelast (tail parts)) cur with
        | None => false
        | Some cur' => ends_with_on (List.last parts []) cur'
        end
    end.

Definition github_target_matches (target path : string) : bool :=
  match split_once_on slash_byte (to_bytes target) with
  | Some (t_owner, t_repo) =>
      if bool_decide (t_owner = []) || bool_decide (t_repo = []) then false
      else
        let rest := strip_prefix_or (to_bytes "/") (to_bytes path) in
        let rest := strip_prefix_or (to_bytes "repos/") rest in
        let segments := split_on slash_byte rest in
        let owner := default [] (segments !! 0) in
        let repo := default [] (segments !! 1) in
        if bool_decide (owner = []) || bool_decide (repo = []) then false
        else proxy_wildcard_match (of_bytes t_owner) (of_bytes owner)
             && proxy_wildcard_match (of_bytes t_repo) (of_bytes repo)
  | None => false
  end.

(** ** Branches *)

Section Branches.
Context {P : PercentOps}.

Fixpoint first_ref (pairs : list bytes) : option string :=
  match pairs with
  | [] => None
  | kv :: rest =>
      let '(key, value) :=
        match split_once_on equals kv with Some (k, v) => (k, v) | None => (kv, []) end in
      if bool_decide (key = to_bytes "ref") then
        let decoded := percent_decode_lossy (of_bytes value) in
        if str_is_empty decoded then None else Some decoded
      else first_ref rest
  end.

Definition extract_ref_query_param (query : string) : option string :=
  first_ref (split_on ampersand_byte (to_bytes query)).

Definition GITHUB_BRANCH_SUBRESOURCES : list string := ["protection"; "rename"].

(** [rfind('/')]: the text before and after the last slash *)
Definition rsplit_once (c : ascii) (l : bytes) : option (bytes * bytes) :=
  match split_once_on c (rev l) with Some (after, before) => Some (rev before, rev after) | None => None end.

Definition strip_subresource (tail : bytes) : bytes :=
  match rsplit_once slash_byte tail with
  | Some (before, last_seg) =>
      if bool_decide (of_bytes last_seg ∈ GITHUB_BRANCH_SUBRESOURCES) then before else tail
  | None => tail
  end.

(** The text after the first occurrence of [marker], less trailing slashes. *)
Definition tail_after (marker : string) (path : bytes) : option bytes :=
  match find_on (to_bytes marker) path with
  | Some idx => Some (trim_end_char slash_byte (drop (idx + length (to_bytes marker)) path))
  | None => None
  end.

Definition extract_github_branch (raw_path : string) (query : option string) : option string :=
  let path := to_bytes (percent_decode_lossy raw_path) in
  match tail_after "/branches/" path with
  | Some tail =>
      if bool_decide (tail = []) then None
      else of_bytes <$> non_empty (strip_subresource tail)
  | None =>
      match tail_after "/git/refs/heads/" path with
      | Some tail => of_bytes <$> non_empty tail
      | None =>
          if bool_decide (is_Some (find_on (to_bytes "/contents/") path)) then
            match query with Some q => extract_ref_query_param q | None => None end
          else None
      end
  end.

End Branches.

(** ** Allowed targets *)

Definition parse_allowed_targets {J : JsonArrayOps} (s : string) : list string :=
  let trimmed := str_trim s in
  if str_is_empty trimmed then []
  else
    let single := [trimmed] in
    if str_starts_with trimmed "[" then
      match json_string_array trimmed with
      | Some arr => List.filter (λ e, negb (str_is_empty e)) (str_trim <$> arr)
      | None => single
      end
    else single.

Definition validate_allowed_target_entry (entry : string) : result unit string :=
  let trimmed := str_trim entry in
  if str_is_empty trimmed then Err "entry must not be empty"
  else if bool_decide (trimmed = "*") then Err "bare '*' is not a valid host pattern"
  else match strip_prefix_on (to_bytes "*.") (to_bytes trimmed) with
       | Some domain =>
           if bool_decide (trim_on domain = [])
           then Err "'*.' with empty domain is not a valid host pattern" else Ok tt
       | None => Ok tt
       end.

(** ** Lemmas *)

Lemma split_on_app_sep c x y : split_on c (x ++ c :: y) = split_on c x ++ split_on c y.
Proof.
  induction x as [|a x IH]; simpl.
  - by rewrite bool_decide_eq_true_2.
  - rewrite IH. case_bool_decide; [done|]. destruct (split_on c x) eqn:E; [|done].
    by destruct (split_on_nonempty c x).
Qed.

Lemma join_on_app c ls ks :
  ls ≠ [] → ks ≠ [] → join_on [c] (ls ++ ks) = join_on [c] ls ++ c :: join_on [c] ks.
Proof.
  intros Hl Hk. induction ls as [|l ls IH]; [done|]. destruct ls as [|l' ls].
  - destruct ks as [|k ks]; [done|]. done.
  - change (join_on [c] ((l :: l' :: ls) ++ ks)) with (l ++ c :: join_on [c] ((l' :: ls) ++ ks)).
    change (join_on [c] (l :: l' :: ls)) with (l ++ c :: join_on [c] (l' :: ls)).
    rewrite IH by done. by rewrite <-(assoc_L (++)).
Qed.

(** The labels of a host name. *)
Definition labels (host : bytes) : list bytes := split_on dot_byte host.

Lemma host_matches_labels host domain :
  host_matches_domain host domain = true ↔
  ∃ sub, labels (normal_host host) = sub ++ labels (ascii_lower <$> to_bytes domain).
Proof.
  unfold host_matches_domain, labels. generalize (normal_host host) (ascii_lower <$> to_bytes domain).
  intros h d. case_bool_decide as Hd.
  - split; [|done]. intros _. exists []. by rewrite Hd.
  - rewrite ends_with_on_true. split.
    + intros [r ->]. exists (split_on dot_byte r). apply split_on_app_sep.
    + intros [sub Hs]. destruct sub as [|x sub].
      * exfalso. apply Hd. simpl in Hs. rewrite <-(join_split_on dot_byte h), Hs. apply join_split_on.
      * exists (join_on [dot_byte] (x :: sub)).
        rewrite <-(join_split_on dot_byte h), Hs, join_on_app by (done || apply split_on_nonempty).
        by rewrite join_split_on.
Qed.

Lemma proxy_wildcard_same pattern s : proxy_wildcard_match pattern s = wildcard_match pattern s.
Proof.
  unfold proxy_wildcard_match, wildcard_match, wildcard_match_on, str_contains_char.
  destruct (bool_decide (star ∈ to_bytes pattern)) eqn:Hstar; cbn [negb].
  2: { apply bool_decide_ext. split; [by intros ->|apply to_bytes_inj]. }
  apply bool_decide_eq_true in Hstar.
  assert (length (split_on star (to_bytes pattern)) ≠ 1) as Hlen.
  { intros H1. destruct (split_on star (to_bytes pattern)) as [|f [|]] eqn:E; [done| |done].
    apply (split_on_no_sep star (to_bytes pattern) f); [rewrite E; apply list_elem_of_here|].
    rewrite <-(join_split_on star (to_bytes pattern)), E in Hstar. done. }
  rewrite (bool_decide_eq_false_2 (_ = 1)) by done.
  destruct (strip_prefix_on _ _) as [cur|]; [|done]. destruct (mid_loop _ _) as [cur'|]; [|done].
  case_bool_decide as Hl.
  - rewrite Hl. apply ends_with_on_true. exists cur'. by rewrite app_nil_r.
  - destruct (ends_with_on _ cur') eqn:E; [|done]. symmetry. apply bool_decide_eq_true.
    apply ends_with_on_true in E as [r Hr]. rewrite Hr, length_app. lia.
Qed.

(** A host is under a domain when its labels end with those of the domain. *)
Definition under (host domain : string) : Prop :=
  ∃ sub, labels (normal_host host) = sub ++ labels (ascii_lower <$> to_bytes domain).

#[global] Instance under_dec host domain : Decision (under host domain).
Proof.
  destruct (host_matches_domain host domain) eqn:E.
  - left. by apply host_matches_labels.
  - right. intros H%host_matches_labels. congruence.
Defined.

Lemma host_matches_under host domain : host_matches_domain host domain = bool_decide (under host domain).
Proof.
  destruct (host_matches_domain host domain) eqn:E.
  - symmetry. apply bool_decide_eq_true. by apply host_matches_labels.
  - symmetry. apply bool_decide_eq_false. intros H%host_matches_labels. congruence.
Qed.

(** Whether two lists disagree at a place both have. *)
Fixpoint conflict (l k : list bytes) : bool :=
  match l, k with
  | x :: l', y :: k' => if decide (x = y) then conflict l' k' else true
  | _, _ => false
  end.

Lemma conflict_app l k x y : conflict l k = true → l ++ x ≠ k ++ y.
Proof.
  revert k. induction l as [|a l IH]; intros [|b k]; try done. simpl.
  destruct (decide (a = b)) as [->|]; [|congruence]. intros Hc [=Heq]. by apply (IH k).
Qed.

(** Two domains, neither of which is under the other, have no host in common. *)
Lemma under_disjoint host d e :
  conflict (rev (labels (ascii_lower <$> to_bytes d))) (rev (labels (ascii_lower <$> to_bytes e))) = true →
  under host d → ¬ under host e.
Proof.
  intros Hc [s Hs] [t Ht]. rewrite Hs in Ht. apply (f_equal (@rev _)) in Ht. rewrite !rev_app_distr in Ht.
  by apply (conflict_app _ _ _ _ Hc) in Ht.
Qed.

Section Lanes.
Context {U : UriOps}.

Abbreviation lane_host uri := (default "" (uri_host uri)).

(** The lane of an LLM request: the slug and the domain that grants it. *)
Definition llm_lanes : list (string * string) :=
  [("anthropic", "api.anthropic.com"); ("openai", "chatgpt.com");
   ("google", "generativelanguage.googleapis.com"); ("google", "cloudcode-pa.googleapis.com")].

Definition lane_domains : list string := "github.com" :: (llm_lanes.*2).

Lemma lane_domains_apart host d e :
  d ∈ lane_domains → e ∈ lane_domains → d ≠ e → under host d → ¬ under host e.
Proof.
  intros Hd He Hne. apply under_disjoint. revert Hne. revert e He. revert d Hd.
  assert (Forall (λ d, Forall (λ e, d ≠ e →
    conflict (rev (labels (ascii_lower <$> to_bytes d))) (rev (labels (ascii_lower <$> to_bytes e))) = true)
    lane_domains) lane_domains) as Hall.
  { repeat constructor; intros Hne; (reflexivity || by destruct Hne). }
  intros d Hd e He. rewrite Forall_forall in Hall. specialize (Hall d Hd). rewrite Forall_forall in Hall.
  by apply Hall.
Qed.

(** The lane a host is in, with the domain that puts it there. *)
Inductive lane_view (host : string) (tier : MethodTier) : string * string * option string → Prop :=
  | lane_github : under host "github.com" → lane_view host tier ("github", tier_verb tier "push", None)
  | lane_llm slug domain :
      (slug, domain) ∈ llm_lanes → under host domain →
      lane_view host tier ("llm", "generate", Some slug)
  | lane_generic :
      (∀ d, d ∈ lane_domains → ¬ under host d) →
      lane_view host tier ("generic", tier_verb tier "write", None).

Lemma provider_of_host_view host tier : lane_view host tier (provider_of_host host tier).
Proof.
  unfold provider_of_host. rewrite !host_matches_under.
  case_bool_decide as H1; [by constructor|].
  case_bool_decide as H2; [eapply lane_llm; [|exact H2]; cbn; set_solver|].
  case_bool_decide as H3; [eapply lane_llm; [|exact H3]; cbn; set_solver|].
  case_bool_decide as H4; [eapply lane_llm; [|exact H4]; cbn; set_solver|].
  case_bool_decide as H5; [eapply lane_llm; [|exact H5]; cbn; set_solver|].
  apply lane_generic. intros d Hd. cbn in Hd. set_solver.
Qed.

(** Slugs are told apart by their text up to the slash. *)
Lemma slug_prefix slug slug' rest :
  slug ∈ llm_lanes.*1 → slug' ∈ llm_lanes.*1 →
  str_starts_with (slug' +:+ "/" +:+ rest) (slug +:+ "/") = true ↔ slug = slug'.
Proof.
  intros H H'. cbn in H, H'.
  assert (slug = "anthropic" ∨ slug = "openai" ∨ slug = "google") as Hs by set_solver.
  assert (slug' = "anthropic" ∨ slug' = "openai" ∨ slug' = "google") as Hs' by set_solver.
  destruct Hs as [->|[->| ->]], Hs' as [->|[->| ->]]; (split; [|done]); done.
Qed.

(** The lane follows the host, by whole labels: a request is classified as a GitHub request exactly
    when its host is github.com or below it, as LLM inference exactly when its host is one of the
    four inference domains or below it, and the first segment of the resource of an inference
    request names the provider that owns the host. No look-alike host enters a lane. *)
Theorem request_lane_exact method uri action resource :
  request_to_action_resource method uri = Some (action, resource) →
  (action ∈ ["github:read"; "github:push"] ↔ under (lane_host uri) "github.com") ∧
  (action = "llm:generate" ↔ ∃ slug domain, (slug, domain) ∈ llm_lanes ∧ under (lane_host uri) domain) ∧
  (action = "llm:generate" → ∀ slug, slug ∈ llm_lanes.*1 →
     str_starts_with resource (slug +:+ "/") = true ↔
     ∃ domain, (slug, domain) ∈ llm_lanes ∧ under (lane_host uri) domain).
Proof.
  unfold request_to_action_resource. destruct (method_tier method) as [tier|]; [|done].
  destruct (provider_of_host_view (lane_host uri) tier) as [Hu|slug domain Hl Hu|Hn]; cbn.
  - intros [=<- <-]. split; [by destruct tier; set_solver|]. split; [|by destruct tier].
    split; [by destruct tier|]. intros (slug & domain & Hl & Hu'). exfalso.
    apply (lane_domains_apart (lane_host uri) "github.com" domain); [set_solver| | |done|done].
    + apply list_elem_of_further, list_elem_of_fmap. by exists (slug, domain).
    + intros <-. cbn in Hl. set_solver.
  - intros [=<- <-]. split.
    { split; [set_solver|]. intros Hg. exfalso.
      apply (lane_domains_apart (lane_host uri) "github.com" domain); [set_solver| | |done|done].
      - apply list_elem_of_further, list_elem_of_fmap. by exists (slug, domain).
      - intros <-. cbn in Hl. set_solver. }
    split; [split; [by eauto|done]|]. intros _ slug' Hslug'.
    rewrite slug_prefix; [|done|apply list_elem_of_fmap; by exists (slug, domain)]. split.
    + intros ->. by exists domain.
    + intros (domain' & Hl' & Hu'). destruct (decide (domain = domain')) as [<-|Hne].
      * revert Hl Hl'. cbn. set_solver.
      * exfalso. apply (lane_domains_apart (lane_host uri) domain domain'); try done;
          apply list_elem_of_further, list_elem_of_fmap; by eexists (_, _).
  - intros [=<- <-]. split; [|split].
    + split; [by destruct tier; set_solver|]. intros Hg. exfalso. apply (Hn "github.com"); [set_solver|done].
    + split; [by destruct tier|]. intros (slug & domain & Hl & Hu). exfalso. apply (Hn domain); [|done].
      apply list_elem_of_further, list_elem_of_fmap. by exists (slug, domain).
    + by destruct tier.
Qed.

Lemma effective_scope_uri_inv `{L : !UriLaws U} target_url r u :
  effective_scope_uri target_url r = Ok u →
  ∃ t a s, uri_parse target_url = Ok t ∧ uri_authority t = Some a ∧ uri_scheme t = Some s ∧
           uri_authority u = Some a ∧ uri_scheme u = Some s ∧
           (∀ u', uri_parse (uri_display u) = Ok u' → uri_host u' = uri_host u).
Proof.
  unfold effective_scope_uri. destruct (uri_parse target_url) as [t|] eqn:Hp; [|done]. cbn.
  destruct (uri_authority t) as [a|] eqn:Ha; [|done]. cbn.
  destruct (uri_scheme t) as [s|] eqn:Hs; [|done]. cbn.
  destruct (uri_build _ _ _) as [u'|] eqn:Hb; [|done]. intros [=<-].
  pose proof (uri_build_parts _ _ _ _ Hb) as [Hs' Ha']. exists t, a, s. split_and!; try done.
  intros u''. by eapply uri_build_display.
Qed.

(** The URI a request is judged by has the authority of the target header, whatever the request
    line says: two requests for the same target have the same scheme, host and action. *)
Theorem lane_bound_to_target `{L : !UriLaws U} target_url r1 r2 u1 u2 method :
  effective_scope_uri target_url r1 = Ok u1 → effective_scope_uri target_url r2 = Ok u2 →
  (∃ t, uri_parse target_url = Ok t ∧ is_Some (uri_host t) ∧
        uri_host u1 = uri_host t ∧ uri_scheme u1 = uri_scheme t) ∧
  uri_host u1 = uri_host u2 ∧
  fst <$> request_to_action_resource method u1 = fst <$> request_to_action_resource method u2.
Proof.
  intros (t & a & s & Hp & Ha & Hs & Hu1 & Hs1 & _)%effective_scope_uri_inv
         (t' & a' & s' & Hp' & Ha' & Hs' & Hu2 & Hs2 & _)%effective_scope_uri_inv.
  rewrite Hp in Hp'. injection Hp' as <-. rewrite Ha in Ha'. injection Ha' as <-.
  apply uri_host_authority in Ha, Hu1, Hu2. split_and!.
  - exists t. rewrite Ha, Hu1, Hs, Hs1. done.
  - by rewrite Hu1, Hu2.
  - unfold request_to_action_resource. rewrite Hu1, Hu2. destruct (method_tier method); [|done].
    by destruct (provider_of_host _ _) as [[??]?].
Qed.

End Lanes.

(** ** A concrete URI library *)

Module ToyUri.

Record uri := { u_scheme : option string; u_authority : option string; u_pq : string }.

(** Everything before the first byte of [cs], and the rest. *)
Definition cut_any (cs : list ascii) (l : bytes) : bytes * bytes :=
  let n := default (length l) (find_any cs l) in (take n l, drop n l).

(** The host in an authority: after the user information, before the port. *)
Definition authority_host_of (a : string) : string :=
  let b := to_bytes a in
  let b := match rsplit_once "@"%char b with Some (_, h) => h | None => b end in
  of_bytes (fst (cut_any [":"%char] b)).

Definition parse (s : string) : result uri string :=
  let b := to_bytes s in
  match find_on (to_bytes "://") b with
  | Some n =>
      let '(a, pq) := cut_any ["/"; "?"; "#"]%char (drop (n + 3) b) in
      if bool_decide (a = []) then Err "empty authority"
      else Ok {| u_scheme := Some (of_bytes (take n b)); u_authority := Some (of_bytes a);
                 u_pq := of_bytes pq |}
  | None =>
      if starts_with_on (to_bytes "/") b
      then Ok {| u_scheme := None; u_authority := None; u_pq := s |} else Err "invalid uri"
  end.

#[export] Instance uri_eq_dec : EqDecision uri.
Proof. solve_decision. Defined.

Definition display (u : uri) : string :=
  match u_scheme u, u_authority u with
  | Some s, Some a => s +:+ "://" +:+ a +:+ u_pq u
  | _, _ => u_pq u
  end.

(** Only what reads back as it was given. *)
Definition build (s a pq : string) : result uri string :=
  let u := {| u_scheme := Some s; u_authority := Some a; u_pq := pq |} in
  match parse (display u) with
  | Ok u' => if bool_decide (u' = u) then Ok u else Err "invalid parts"
  | Err e => Err e
  end.

#[export] Instance ops : UriOps := {|
  Uri := uri;
  uri_display := display;
  uri_default := {| u_scheme := None; u_authority := None; u_pq := "/" |};
  uri_parse := parse;
  uri_scheme := u_scheme;
  uri_authority := u_authority;
  uri_host u := authority_host_of <$> u_authority u;
  uri_path u := of_bytes (fst (cut_any ["?"%char] (to_bytes (u_pq u))));
  uri_query u := match split_once_on question_byte (to_bytes (u_pq u)) with
                 | Some (_, q) => Some (of_bytes q) | None => None end;
  uri_path_and_query u := Some (u_pq u);
  uri_build := build
|}.

#[export] Instance laws : UriLaws ops.
Proof.
  refine {| authority_host := authority_host_of |}; cbn; unfold build.
  - by intros u a ->.
  - intros s a pq u. destruct (parse _); [|done]. by case_bool_decide; intros [=<-].
  - intros s a pq u u'. destruct (parse _) as [v|] eqn:E; [|done]. case_bool_decide as Hv; [|done].
    intros [=<-]. rewrite E. intros [=<-]. by rewrite Hv.
Defined.

Definition of_url (s : string) : uri :=
  match parse s with Ok u => u | Err _ => {| u_scheme := None; u_authority := None; u_pq := "" |} end.

End ToyUri.
Import ToyUri.

Lemma request_lane_exact_witness :
  str_starts_with "anthropic/v1/messages" "anthropic/" = true ↔
  ∃ domain, ("anthropic", domain) ∈ llm_lanes ∧ under "API.Anthropic.com." domain.
Proof.
  exact (proj2 (proj2 (request_lane_exact "POST" (of_url "https://API.Anthropic.com./v1/messages")
    "llm:generate" "anthropic/v1/messages" eq_refl)) eq_refl "anthropic" (list_elem_of_here _ _)).
Defined.

Lemma lane_bound_to_target_witness :
  fst <$> request_to_action_resource "PUT" (of_url "https://api.github.com/repos/a/b") =
  fst <$> request_to_action_resource "PUT" (of_url "https://api.github.com/user").
Proof.
  exact (proj2 (proj2 (lane_bound_to_target "https://api.github.com/" (of_url "/repos/a/b") (of_url "/user")
    (of_url "https://api.github.com/repos/a/b") (of_url "https://api.github.com/user") "PUT"
    eq_refl eq_refl))).
Defined.
