(* ===== verification/Metering.v ===== *)
(** * Metering of LLM traffic in the proxy

    crates/proxy-forward-runtime/src/pricing.rs: the price table, the readers of usage blocks in
    JSON and event-stream bodies, the incremental reader of event streams and the estimate made
    before a call. Bodies are byte lists; [serde_json] is the parameter [JsonText]; the standard
    library's UTF-8 decoding is written out. *)

From stdpp Require Import base list sets strings.
From Stdlib Require Import Ascii Lia.
From S2P Require Import Prelude CoreTypes Numbers Materialize ProxyMatch.

Local Infix "+:+" := String.append (at level 60, right associativity).
Local Open Scope Z_scope.

(** ** Prices *)

Record TokenPricing := { input_cents_per_million : Z; output_cents_per_million : Z }.

#[global] Instance TokenPricing_eq_dec : EqDecision TokenPricing.
Proof. solve_decision. Defined.

Definition UNKNOWN : TokenPricing := {| input_cents_per_million := 0; output_cents_per_million := 0 |}.

Definition TokenPricing_cents_micro_for (p : TokenPricing) (input_tokens output_tokens : Z) : Z :=
  let in_micros := u64_sat_mul input_tokens (input_cents_per_million p) in
  let out_micros := u64_sat_mul output_tokens (output_cents_per_million p) in
  u64_sat_add in_micros out_micros.

Definition TokenPricing_cents_for (p : TokenPricing) (input_tokens output_tokens : Z) : Z :=
  TokenPricing_cents_micro_for p input_tokens output_tokens / 1000000.

Definition is_ascii_digit (a : ascii) : bool :=
  let n := N_of_ascii a in (48 <=? n)%N && (n <=? 57)%N.

Definition strip_anthropic_date_suffix (model : string) : option string :=
  let b := to_bytes model in
  if (length b <? 9)%nat then None
  else
    let head := take (length b - 9) b in
    match drop (length b - 9) b with
    | c :: digits =>
        if bool_decide (c = "-"%char) && forallb is_ascii_digit digits then Some (of_bytes head) else None
    | [] => None
    end.

Definition price (input output : Z) : TokenPricing :=
  {| input_cents_per_million := input; output_cents_per_million := output |}.

(** The rows of the table: provider, models and price. *)
Definition price_table : list (string * list string * TokenPricing) :=
  [("anthropic", ["claude-opus-4-5"; "claude-opus-4-5-20250514"], price 1500 7500);
   ("anthropic", ["claude-opus-4-6"; "claude-opus-4-6-20260101"; "claude-opus-4-7";
                  "claude-opus-4-7-20260401"; "claude-opus-4-7[1m]"], price 1500 7500);
   ("anthropic", ["claude-sonnet-4-5"; "claude-sonnet-4-5-20250514"; "claude-sonnet-4-6";
                  "claude-sonnet-4-6-20260101"], price 300 1500);
   ("anthropic", ["claude-haiku-4-5"; "claude-haiku-4-5-20250514"], price 100 500);
   ("anthropic", ["claude-3-haiku-20240307"], price 25 125);
   ("openai", ["gpt-4"; "gpt-4-0613"], price 3000 6000);
   ("openai", ["gpt-4o"; "gpt-4o-2024-08-06"], price 250 1000);
   ("openai", ["gpt-4o-mini"; "gpt-4o-mini-2024-07-18"], price 15 60);
   ("openai", ["gpt-4.1"; "gpt-4.1-2025-04-14"], price 300 1200)].

Fixpoint match_row (provider model : string) (rows : list (string * list string * TokenPricing))
  : TokenPricing :=
  match rows with
  | [] => UNKNOWN
  | (p, ms, tp) :: rows' =>
      if bool_decide (p = provider) && bool_decide (model ∈ ms) then tp
      else match_row provider model rows'
  end.

Definition pricing_for_exact (provider model : string) : TokenPricing :=
  match_row provider model price_table.

Definition pricing_for (provider model : string) : TokenPricing :=
  let exact := pricing_for_exact provider model in
  if negb (bool_decide (exact = UNKNOWN)) then exact
  else
    match strip_anthropic_date_suffix model with
    | Some stripped =>
        let retry := pricing_for_exact provider stripped in
        if negb (bool_decide (retry = UNKNOWN)) then retry else UNKNOWN
    | None => UNKNOWN
    end.

Definition cents_for (model provider : string) (input_tokens output_tokens : Z) : Z :=
  TokenPricing_cents_for (pricing_for provider model) input_tokens output_tokens.

Definition cents_micro_for (model provider : string) (input_tokens output_tokens : Z) : Z :=
  TokenPricing_cents_micro_for (pricing_for provider model) input_tokens output_tokens.

Definition PROVIDER_ANTHROPIC : string := "anthropic".
Definition PROVIDER_OPENAI : string := "openai".

Definition provider_for_host (host : string) : option string :=
  let lower := of_bytes (normal_host host) in
  if bool_decide (lower = "api.anthropic.com") then Some PROVIDER_ANTHROPIC
  else if bool_decide (lower = "api.openai.com") then Some PROVIDER_OPENAI
  else if bool_decide (lower = "chatgpt.com") then Some PROVIDER_OPENAI
  else None.

(** ** UTF-8

    [core::str::Utf8Chunks] and [from_utf8]: one step reads a character or the bytes of an invalid
    sequence; a byte past the end reads as zero. *)

Definition byte_at (l : bytes) (i : nat) : N := default 0%N (N_of_ascii <$> l !! i).

Definition in_range (lo hi b : N) : bool := (lo <=? b)%N && (b <=? hi)%N.
Definition is_cont (b : N) : bool := in_range 128 191 b.

Definition second_of_3 (b c : N) : bool :=
  if (b =? 224)%N then in_range 160 191 c
  else if (b =? 237)%N then in_range 128 159 c
  else in_range 128 191 c.

Definition second_of_4 (b c : N) : bool :=
  if (b =? 240)%N then in_range 144 191 c
  else if (b =? 244)%N then in_range 128 143 c
  else in_range 128 191 c.

(** Bytes read, and whether they are a character. *)
Definition utf8_step (l : bytes) : nat * bool :=
  let b := byte_at l 0 in
  if (b <? 128)%N then (1%nat, true)
  else if in_range 194 223 b then
    if is_cont (byte_at l 1) then (2%nat, true) else (1%nat, false)
  else if in_range 224 239 b then
    if second_of_3 b (byte_at l 1) then
      if is_cont (byte_at l 2) then (3%nat, true) else (2%nat, false)
    else (1%nat, false)
  else if in_range 240 244 b then
    if second_of_4 b (byte_at l 1) then
      if is_cont (byte_at l 2) then
        if is_cont (byte_at l 3) then (4%nat, true) else (3%nat, false)
      else (2%nat, false)
    else (1%nat, false)
  else (1%nat, false).

Definition REPLACEMENT_CHARACTER : bytes := [ascii_of_N 239; ascii_of_N 191; ascii_of_N 189].

Fixpoint lossy_loop (fuel : nat) (l : bytes) : bytes :=
  match fuel, l with
  | S fuel', _ :: _ =>
      let '(n, ok) := utf8_step l in
      (if ok then take n l else REPLACEMENT_CHARACTER) ++ lossy_loop fuel' (drop n l)
  | _, _ => []
  end.

(** [String::from_utf8_lossy] *)
Definition from_utf8_lossy (l : bytes) : bytes := lossy_loop (length l) l.

Fixpoint valid_loop (fuel : nat) (l : bytes) : bool :=
  match fuel, l with
  | S fuel', _ :: _ => let '(n, ok) := utf8_step l in ok && valid_loop fuel' (drop n l)
  | _, _ => true
  end.

(** [str::from_utf8(body).ok()] *)
Definition from_utf8 (l : bytes) : option bytes := if valid_loop (length l) l then Some l else None.

(** ** JSON values *)

(** [serde_json::from_slice::<Value>] and [from_str::<Value>]. A number is its text. *)
Class JsonText := { json_from_slice : bytes → option Json }.

(** [Value::get] with a key *)
Definition jget (k : string) (v : Json) : option Json :=
  match v with
  | JObject m => snd <$> List.find (λ kv, bool_decide (kv.1 = k)) m
  | _ => None
  end.

Definition as_str (v : Json) : option string := match v with JString s => Some s | _ => None end.

(** [Value::as_u64]: an integer literal without sign that fits. *)
Definition as_u64 (v : Json) : option Z :=
  match v with
  | JNumber n => match parse_u64 n with Ok z => Some z | Err _ => None end
  | _ => None
  end.

Definition get_u64 (k : string) (v : Json) : option Z := jget k v ≫= as_u64.
Definition get_str (k : string) (v : Json) : option string := jget k v ≫= as_str.

(** [a.or_else(|| b)] *)
Definition or_else {A} (a b : option A) : option A := match a with Some _ => a | None => b end.

(** ** Usage blocks *)

Record ParsedUsage := { pu_input_tokens : Z; pu_output_tokens : Z }.

Definition parse_anthropic_usage (usage : Json) : option ParsedUsage :=
  input ← get_u64 "input_tokens" usage;
  output ← get_u64 "output_tokens" usage;
  let cache_create := default 0 (get_u64 "cache_creation_input_tokens" usage) in
  let cache_read := default 0 (get_u64 "cache_read_input_tokens" usage) in
  Some {| pu_input_tokens := u64_sat_add (u64_sat_add input cache_create) cache_read;
          pu_output_tokens := output |}.

Definition parse_openai_usage (usage : Json) : option ParsedUsage :=
  input ← or_else (jget "input_tokens" usage) (jget "prompt_tokens" usage) ≫= as_u64;
  output ← or_else (jget "output_tokens" usage) (jget "completion_tokens" usage) ≫= as_u64;
  Some {| pu_input_tokens := input; pu_output_tokens := output |}.

Fixpoint looks_like_json (body : bytes) : bool :=
  match body with
  | [] => false
  | b :: body' =>
      if bool_decide (b ∈ [" "%char; "009"%char; "013"%char; "010"%char]) then looks_like_json body'
      else bool_decide (b ∈ ["{"%char; "["%char])
  end.

(** The part named [k] of the enclosed response, or of the event itself. *)
Definition response_or_own (k : string) (value : Json) : option Json :=
  or_else (jget "response" value ≫= jget k) (jget k value).

Definition is_completed (value : Json) : bool :=
  bool_decide (get_str "type" value = Some "response.completed").

Section Json.
Context {J : JsonText}.

(** The JSON payload of a [data:] line, when it has one. *)
Definition data_payload (line : bytes) : option Json :=
  match strip_prefix_on (to_bytes "data:") line with
  | None => None
  | Some p =>
      let payload := trim_on p in
      if bool_decide (payload = []) || bool_decide (payload = to_bytes "[DONE]") then None
      else json_from_slice payload
  end.

(** The scan of both readers of OpenAI streams: the first value of a completed event, else the
    last value found. *)
Fixpoint sse_scan {A} (pick : Json → option A) (lines : list bytes) (found : option A) : option A :=
  match lines with
  | [] => found
  | line :: lines' =>
      match data_payload line with
      | None => sse_scan pick lines' found
      | Some value =>
          match pick value with
          | None => sse_scan pick lines' found
          | Some x => if is_completed value then Some x else sse_scan pick lines' (Some x)
          end
      end
  end.

Definition parse_openai_responses_sse_usage (body : bytes) : option ParsedUsage :=
  text ← from_utf8 body;
  sse_scan (λ value, response_or_own "usage" value ≫= parse_openai_usage) (lines_on text) None.

Definition parse_openai_responses_sse_model (body : bytes) : option string :=
  text ← from_utf8 body;
  sse_scan (λ value, response_or_own "model" value ≫= as_str) (lines_on text) None.

(** ** Frames of an event stream *)

Definition cr : ascii := "013"%char.

(** The pending event name and data lines of a frame, as its lines are read. *)
Fixpoint frame_lines (lines : list bytes) (event_name : option bytes) (data_lines : list bytes)
  : option bytes * list bytes :=
  match lines with
  | [] => (event_name, data_lines)
  | line :: lines' =>
      if starts_with_on (to_bytes ":") line || bool_decide (line = []) then
        frame_lines lines' event_name data_lines
      else match strip_prefix_on (to_bytes "event:") line with
           | Some rest => frame_lines lines' (Some (trim_on rest)) data_lines
           | None =>
               match strip_prefix_on (to_bytes "data:") line with
               | Some rest => frame_lines lines' event_name (data_lines ++ [trim_start_on rest])
               | None => frame_lines lines' event_name data_lines
               end
           end
  end.

(** The event of a decoded frame: its type and its payload. *)
Definition frame_event (frame_text : bytes) : option (string * Json) :=
  let '(event_name, data_lines) := frame_lines (lines_on frame_text) None [] in
  match data_lines with
  | [] => None
  | _ =>
      value ← json_from_slice (join_on [newline] data_lines);
      Some (default "" (or_else (of_bytes <$> event_name) (get_str "type" value)), value)
  end.

(** ** The incremental reader *)

Record UsageSummary := {
  input_tokens : Z;
  output_tokens : Z;
  cache_creation_input_tokens : Z;
  cache_read_input_tokens : Z;
  model : option string;
  saw_message_stop : bool;
  saw_any_usage : bool
}.

Definition summary_default : UsageSummary := {|
  input_tokens := 0; output_tokens := 0; cache_creation_input_tokens := 0;
  cache_read_input_tokens := 0; model := None; saw_message_stop := false; saw_any_usage := false |}.

Definition folded_usage (s : UsageSummary) : ParsedUsage :=
  {| pu_input_tokens :=
       u64_sat_add (u64_sat_add (input_tokens s) (cache_creation_input_tokens s))
         (cache_read_input_tokens s);
     pu_output_tokens := output_tokens s |}.

(** [x = x.max(n)] when [n] is there *)
Definition max_opt (x : Z) (n : option Z) : Z := match n with Some n => Z.max x n | None => x end.

Definition process_event (event_type : string) (value : Json) (s : UsageSummary) : UsageSummary :=
  if bool_decide (event_type = "message_start") then
    match jget "message" value with
    | None => s
    | Some msg =>
        let m := or_else (get_str "model" msg) (model s) in
        match jget "usage" msg with
        | None =>
            {| input_tokens := input_tokens s; output_tokens := output_tokens s;
               cache_creation_input_tokens := cache_creation_input_tokens s;
               cache_read_input_tokens := cache_read_input_tokens s; model := m;
               saw_message_stop := saw_message_stop s; saw_any_usage := saw_any_usage s |}
        | Some usage =>
            {| input_tokens := max_opt (input_tokens s) (get_u64 "input_tokens" usage);
               output_tokens := output_tokens s;
               cache_creation_input_tokens :=
                 max_opt (cache_creation_input_tokens s) (get_u64 "cache_creation_input_tokens" usage);
               cache_read_input_tokens :=
                 max_opt (cache_read_input_tokens s) (get_u64 "cache_read_input_tokens" usage);
               model := m; saw_message_stop := saw_message_stop s; saw_any_usage := true |}
        end
    end
  else if bool_decide (event_type = "message_delta") then
    match jget "usage" value with
    | None => s
    | Some usage =>
        {| input_tokens := input_tokens s;
           output_tokens := max_opt (output_tokens s) (get_u64 "output_tokens" usage);
           cache_creation_input_tokens := cache_creation_input_tokens s;
           cache_read_input_tokens := cache_read_input_tokens s; model := model s;
           saw_message_stop := saw_message_stop s; saw_any_usage := true |}
    end
  else if bool_decide (event_type = "message_stop") then
    {| input_tokens := input_tokens s; output_tokens := output_tokens s;
       cache_creation_input_tokens := cache_creation_input_tokens s;
       cache_read_input_tokens := cache_read_input_tokens s; model := model s;
       saw_message_stop := true; saw_any_usage := saw_any_usage s |}
  else if bool_decide (event_type = "response.completed") then
    let parsed := response_or_own "usage" value ≫= parse_openai_usage in
    {| input_tokens := max_opt (input_tokens s) (pu_input_tokens <$> parsed);
       output_tokens := max_opt (output_tokens s) (pu_output_tokens <$> parsed);
       cache_creation_input_tokens := cache_creation_input_tokens s;
       cache_read_input_tokens := cache_read_input_tokens s;
       model := or_else (response_or_own "model" value ≫= as_str) (model s);
       saw_message_stop := true;
       saw_any_usage := match parsed with Some _ => true | None => saw_any_usage s end |}
  else s.

Definition process_frame (s : UsageSummary) (frame : bytes) : UsageSummary :=
  match frame_event (from_utf8_lossy frame) with
  | None => s
  | Some (event_type, value) => process_event event_type value s
  end.

Definition SSE_PARTIAL_FRAME_CAP_BYTES : nat := 8 * 1024.

Record AnthropicSseStreamParser := { partial : bytes; summary : UsageSummary }.

Definition new : AnthropicSseStreamParser := {| partial := []; summary := summary_default |}.

Definition append_capped (buffer chunk : bytes) : bytes :=
  if (length buffer + length chunk <=? SSE_PARTIAL_FRAME_CAP_BYTES)%nat then buffer ++ chunk
  else if (SSE_PARTIAL_FRAME_CAP_BYTES <=? length chunk)%nat then
    drop (length chunk - SSE_PARTIAL_FRAME_CAP_BYTES) chunk
  else
    let keep_existing := (SSE_PARTIAL_FRAME_CAP_BYTES - length chunk)%nat in
    let drop_n := (length buffer - keep_existing)%nat in
    drop drop_n buffer ++ chunk.

Fixpoint normalize_crlf (input : bytes) : bytes :=
  match input with
  | [] => []
  | a :: rest =>
      if bool_decide (a = cr) then
        match rest with
        | b :: rest' =>
            if bool_decide (b = newline) then newline :: normalize_crlf rest' else normalize_crlf rest
        | [] => []
        end
      else a :: normalize_crlf rest
  end.

Fixpoint find_pair (l : bytes) : option nat :=
  match l with
  | a :: (b :: _) as l' =>
      if bool_decide (a = newline) && bool_decide (b = newline) then Some 0%nat else S <$> find_pair l'
  | _ => None
  end.

Definition find_frame_separator (input : bytes) (from : nat) : option nat :=
  if (length input <=? from)%nat then None else Nat.add from <$> find_pair (drop from input).

(** The loop over the separators: the frames found, and where the last one ended. *)
Fixpoint frames_loop (fuel : nat) (working : bytes) (start last_consumed : nat) (frames : list bytes)
  : list bytes * nat :=
  match fuel with
  | O => (frames, last_consumed)
  | S fuel' =>
      match find_frame_separator working start with
      | None => (frames, last_consumed)
      | Some pos =>
          frames_loop fuel' working (pos + 2) (pos + 2)
            (frames ++ [take (pos - start) (drop start working)])
      end
  end.

Definition feed (p : AnthropicSseStreamParser) (chunk : bytes) : AnthropicSseStreamParser :=
  if bool_decide (chunk = []) then p
  else
    let buffer := append_capped (partial p) chunk in
    let working := if bool_decide (cr ∈ buffer) then normalize_crlf buffer else buffer in
    let '(frames, last_consumed) := frames_loop (length working) working 0 0 [] in
    {| partial := if (0 <? last_consumed)%nat then drop last_consumed working else buffer;
       summary := foldl process_frame (summary p) frames |}.

Definition take_summary (p : AnthropicSseStreamParser) : UsageSummary * AnthropicSseStreamParser :=
  (summary p, {| partial := partial p; summary := summary_default |}).

Definition buffered_bytes (p : AnthropicSseStreamParser) : nat := length (partial p).

(** ** The reader of complete bodies *)

Record AnthropicSseSummary := {
  ss_usage : ParsedUsage; ss_model : option string; ss_saw_message_stop : bool }.

(** [text.replace("\r\n", "\n")] *)
Fixpoint replace_crlf (l : bytes) : bytes :=
  match l with
  | [] => []
  | a :: rest =>
      match rest with
      | b :: rest' =>
          if bool_decide (a = cr) && bool_decide (b = newline) then newline :: replace_crlf rest'
          else a :: replace_crlf rest
      | [] => [a]
      end
  end.

(** [text.split("\n\n")]: the pieces before the separators, and the rest. *)
Fixpoint split_pairs (acc l : bytes) : list bytes * bytes :=
  match l with
  | [] => ([], rev acc)
  | a :: rest =>
      match rest with
      | b :: rest' =>
          if bool_decide (a = newline) && bool_decide (b = newline) then
            let '(fs, t) := split_pairs [] rest' in (rev acc :: fs, t)
          else split_pairs (a :: acc) rest
      | [] => ([], rev (a :: acc))
      end
  end.

(** The local variables of the loop. *)
Record SliceState := {
  sl_input : Z; sl_cache_create : Z; sl_cache_read : Z; sl_output_max : Z;
  sl_model : option string; sl_stop : bool; sl_any : bool; sl_start : bool }.

Definition slice_default : SliceState := {|
  sl_input := 0; sl_cache_create := 0; sl_cache_read := 0; sl_output_max := 0;
  sl_model := None; sl_stop := false; sl_any := false; sl_start := false |}.

Definition slice_event (event_type : string) (value : Json) (s : SliceState) : SliceState :=
  if bool_decide (event_type = "message_start") then
    let msg := jget "message" value in
    let usage := msg ≫= jget "usage" in
    {| sl_input := max_opt (sl_input s) (usage ≫= get_u64 "input_tokens");
       sl_cache_create := max_opt (sl_cache_create s) (usage ≫= get_u64 "cache_creation_input_tokens");
       sl_cache_read := max_opt (sl_cache_read s) (usage ≫= get_u64 "cache_read_input_tokens");
       sl_output_max := sl_output_max s;
       sl_model := or_else (msg ≫= get_str "model") (sl_model s);
       sl_stop := sl_stop s;
       sl_any := match usage with Some _ => true | None => sl_any s end;
       sl_start := true |}
  else if bool_decide (event_type = "message_delta") then
    match jget "usage" value with
    | None => s
    | Some usage =>
        {| sl_input := sl_input s; sl_cache_create := sl_cache_create s;
           sl_cache_read := sl_cache_read s;
           sl_output_max := max_opt (sl_output_max s) (get_u64 "output_tokens" usage);
           sl_model := sl_model s; sl_stop := sl_stop s; sl_any := true; sl_start := sl_start s |}
    end
  else if bool_decide (event_type = "message_stop") then
    {| sl_input := sl_input s; sl_cache_create := sl_cache_create s;
       sl_cache_read := sl_cache_read s; sl_output_max := sl_output_max s;
       sl_model := sl_model s; sl_stop := true; sl_any := sl_any s; sl_start := sl_start s |}
  else s.

Definition slice_frame (s : SliceState) (frame : bytes) : SliceState :=
  match frame_event frame with
  | None => s
  | Some (event_type, value) => slice_event event_type value s
  end.

Definition parse_anthropic_sse_usage (body : bytes) : option AnthropicSseSummary :=
  let text := from_utf8_lossy body in
  let text := if bool_decide (cr ∈ text) then replace_crlf text else text in
  let '(frames, tail) := split_pairs [] text in
  let s := foldl slice_frame slice_default (frames ++ [tail]) in
  if negb (sl_any s) && negb (sl_start s) then None
  else Some {| ss_usage := {| pu_input_tokens :=
                                u64_sat_add (u64_sat_add (sl_input s) (sl_cache_create s)) (sl_cache_read s);
                              pu_output_tokens := sl_output_max s |};
               ss_model := sl_model s;
               ss_saw_message_stop := sl_stop s |}.

Definition parse_usage (provider : string) (body : bytes) : option ParsedUsage :=
  if looks_like_json body then
    value ← json_from_slice body;
    usage ← jget "usage" value;
    if bool_decide (provider = PROVIDER_ANTHROPIC) then parse_anthropic_usage usage
    else if bool_decide (provider = PROVIDER_OPENAI) then parse_openai_usage usage
    else None
  else if bool_decide (provider = PROVIDER_ANTHROPIC) then ss_usage <$> parse_anthropic_sse_usage body
  else if bool_decide (provider = PROVIDER_OPENAI) then parse_openai_responses_sse_usage body
  else None.

Definition extract_model (provider : string) (body : bytes) : option string :=
  if looks_like_json body then
    value ← json_from_slice body;
    if bool_decide (provider ∈ [PROVIDER_ANTHROPIC; PROVIDER_OPENAI]) then get_str "model" value else None
  else if bool_decide (provider = PROVIDER_ANTHROPIC) then parse_anthropic_sse_usage body ≫= ss_model
  else if bool_decide (provider = PROVIDER_OPENAI) then parse_openai_responses_sse_model body
  else None.

(** ** Estimates before a call *)

Definition DEFAULT_MAX_OUTPUT : Z := 4000.

Definition estimate_call_tokens_split (body : bytes) : Z * Z :=
  let input_est := Z.of_nat (length body) / 4 in
  match json_from_slice body with
  | None => (input_est, DEFAULT_MAX_OUTPUT)
  | Some value =>
      (input_est,
       default DEFAULT_MAX_OUTPUT (or_else (get_u64 "max_completion_tokens" value)
                                     (get_u64 "max_tokens" value)))
  end.

Definition estimate_call_tokens (body : bytes) : Z :=
  let '(input_est, output_est) := estimate_call_tokens_split body in
  u64_sat_add input_est output_est.

End Json.

(** ** Lemmas on frames *)

Definition no_cr (l : bytes) : bytes := filter (λ a, a ≠ cr) l.

Lemma normalize_no_cr l : normalize_crlf l = no_cr l.
Proof.
  unfold no_cr. induction l as [[|a [|b l]] IH] using (induction_ltof1 _ (@length ascii)); [done| |].
  - simpl. rewrite filter_cons. case_bool_decide; case_decide; (done || congruence).
  - cbn [normalize_crlf]. rewrite (filter_cons _ a). unfold ltof in IH.
    pose proof (IH (b :: l)) as IH1. pose proof (IH l) as IH2. cbn [length] in IH1, IH2.
    case_bool_decide as Ha.
    + rewrite decide_False by auto. case_bool_decide as Hb; [|apply IH1; lia].
      rewrite filter_cons, decide_True by (subst; done). subst b. by rewrite IH2 by lia.
    + rewrite decide_True by done. f_equal. apply IH1. lia.
Qed.

Lemma no_cr_idem l : no_cr (no_cr l) = no_cr l.
Proof.
  unfold no_cr. induction l as [|a l IH]; [done|]. rewrite filter_cons. case_decide; [|done].
  by rewrite filter_cons, decide_True, IH.
Qed.

Lemma no_cr_id l : cr ∉ l → no_cr l = l.
Proof.
  unfold no_cr. induction l as [|a l IH]; [done|]. rewrite not_elem_of_cons. intros [Ha Hl].
  rewrite filter_cons, decide_True by done. by rewrite IH.
Qed.

Lemma no_cr_app l k : no_cr (l ++ k) = no_cr l ++ no_cr k.
Proof. apply filter_app. Qed.

Lemma not_elem_no_cr l : cr ∉ no_cr l.
Proof. unfold no_cr. rewrite list_elem_of_filter. naive_solver. Qed.

(** The buffer the frames are read from. *)
Lemma working_no_cr buffer :
  (if bool_decide (cr ∈ buffer) then normalize_crlf buffer else buffer) = no_cr buffer.
Proof. case_bool_decide; [apply normalize_no_cr|by rewrite no_cr_id]. Qed.

Lemma split_pairs_cons acc a b l :
  split_pairs acc (a :: b :: l) =
  if bool_decide (a = newline) && bool_decide (b = newline) then
    let '(fs, t) := split_pairs [] l in (rev acc :: fs, t)
  else split_pairs (a :: acc) (b :: l).
Proof. done. Qed.

Lemma find_pair_cons a b l :
  find_pair (a :: b :: l) =
  if bool_decide (a = newline) && bool_decide (b = newline) then Some 0%nat else S <$> find_pair (b :: l).
Proof. done. Qed.

Lemma split_pairs_find acc l :
  split_pairs acc l =
  match find_pair l with
  | None => ([], rev acc ++ l)
  | Some n => let '(fs, t) := split_pairs [] (drop (n + 2) l) in ((rev acc ++ take n l) :: fs, t)
  end.
Proof.
  revert acc. induction l as [|a [|b l] IH]; intros acc; [by rewrite app_nil_r|done|].
  rewrite split_pairs_cons, find_pair_cons.
  destruct (bool_decide (a = newline) && bool_decide (b = newline)).
  - cbn. rewrite app_nil_r. done.
  - rewrite IH. destruct (find_pair (b :: l)) as [n|]; cbn [fmap option_fmap option_map Nat.add drop take rev].
    + destruct (split_pairs [] (drop (n + 2) (b :: l))) as [fs t]. by rewrite <-(assoc_L (++)).
    + by rewrite <-(assoc_L (++)).
Qed.

Lemma find_pair_bound l n : find_pair l = Some n → (n + 2 ≤ length l)%nat.
Proof.
  revert n. induction l as [|a [|b l] IH]; intros n; [done|done|]. rewrite find_pair_cons.
  destruct (bool_decide (a = newline) && bool_decide (b = newline)).
  - intros [=<-]. cbn. lia.
  - destruct (find_pair (b :: l)) as [m|]; [|done]. intros [=<-]. specialize (IH m eq_refl). cbn in *. lia.
Qed.

(** The loop over the buffer finds the frames of the reference, and stops at its rest. *)
Lemma frames_loop_split fuel working start last frames :
  (length working ≤ start + fuel)%nat →
  let '(fs, t) := split_pairs [] (drop start working) in
  frames_loop fuel working start last frames =
    (frames ++ fs, if bool_decide (fs = []) then last else (length working - length t)%nat) ∧
  (fs ≠ [] → (0 < length working - length t)%nat ∧ drop (length working - length t) working = t).
Proof.
  revert start last frames. induction fuel as [|fuel IH]; intros start last frames Hlen.
  - rewrite drop_ge by lia. cbn. rewrite app_nil_r. done.
  - rewrite split_pairs_find. cbn [frames_loop]. unfold find_frame_separator.
    destruct (length working <=? start)%nat eqn:Hle.
    { apply Nat.leb_le in Hle. rewrite drop_ge by done. cbn. rewrite app_nil_r. done. }
    destruct (find_pair (drop start working)) as [n|] eqn:Hf.
    2: { cbn. rewrite app_nil_r. done. }
    cbn [fmap option_fmap option_map]. pose proof (find_pair_bound _ _ Hf) as Hb. rewrite length_drop in Hb.
    specialize (IH (start + n + 2)%nat (start + n + 2)%nat
                  (frames ++ [take (start + n - start) (drop start working)]) ltac:(lia)).
    rewrite drop_drop. replace (start + (n + 2))%nat with (start + n + 2)%nat by lia.
    destruct (split_pairs [] (drop (start + n + 2) working)) as [fs t] eqn:Hs.
    destruct IH as [IH1 IH2]. rewrite bool_decide_eq_false_2 by done. rewrite IH1. cbn [rev app].
    replace (start + n - start)%nat with n by lia. rewrite <-(assoc_L (++)). cbn [app].
    destruct fs as [|f fs].
    + rewrite split_pairs_find in Hs. destruct (find_pair _) in Hs; [by destruct (split_pairs [] _)|].
      injection Hs as Ht. cbn in Ht. subst t. rewrite length_drop.
      replace (length working - (length working - (start + n + 2)))%nat with (start + n + 2)%nat by lia.
      split; [done|]. intros _. split; [lia|done].
    + split; [done|]. intros _. by apply IH2.
Qed.

Lemma find_pair_app x y n : find_pair x = Some n → find_pair (x ++ y) = Some n.
Proof.
  revert n. induction x as [|a [|b x] IH]; intros n; [done|done|]. cbn [app]. rewrite !find_pair_cons.
  destruct (bool_decide (a = newline) && bool_decide (b = newline)); [done|].
  destruct (find_pair (b :: x)) as [m|]; [|done]. intros [=<-].
  specialize (IH m eq_refl). cbn [app] in IH. by rewrite IH.
Qed.

(** Reading may stop anywhere and go on from the rest. *)
Lemma split_pairs_app x y :
  split_pairs [] (x ++ y) =
  let '(fs, t) := split_pairs [] x in
  let '(fs', t') := split_pairs [] (t ++ y) in (fs ++ fs', t').
Proof.
  induction x as [x IH] using (induction_ltof1 _ (@length ascii)). unfold ltof in IH.
  rewrite (split_pairs_find [] x). destruct (find_pair x) as [n|] eqn:Hf.
  2: { cbn [rev app]. by destruct (split_pairs [] (x ++ y)). }
  pose proof (find_pair_bound _ _ Hf) as Hb.
  rewrite split_pairs_find, (find_pair_app x y n Hf). rewrite drop_app_le by lia. rewrite take_app_le by lia.
  rewrite IH by (rewrite length_drop; lia).
  destruct (split_pairs [] (drop (n + 2) x)) as [fs t]. by destruct (split_pairs [] (t ++ y)).
Qed.

Lemma split_pairs_rest l : find_pair (split_pairs [] l).2 = None.
Proof.
  induction l as [l IH] using (induction_ltof1 _ (@length ascii)). unfold ltof in IH.
  rewrite split_pairs_find. destruct (find_pair l) as [n|] eqn:Hf; [|done].
  pose proof (find_pair_bound _ _ Hf). specialize (IH (drop (n + 2) l)). rewrite length_drop in IH.
  destruct (split_pairs [] (drop (n + 2) l)). apply IH. lia.
Qed.

Lemma no_cr_elem l : cr ∉ l ↔ no_cr l = l.
Proof. split; [apply no_cr_id|]. intros <-. apply not_elem_no_cr. Qed.

Lemma split_pairs_rest_no_cr l : cr ∉ l → no_cr (split_pairs [] l).2 = (split_pairs [] l).2.
Proof.
  induction l as [l IH] using (induction_ltof1 _ (@length ascii)). unfold ltof in IH. intros Hl.
  rewrite split_pairs_find. destruct (find_pair l) as [n|] eqn:Hf; [|by apply no_cr_id].
  pose proof (find_pair_bound _ _ Hf). specialize (IH (drop (n + 2) l)). rewrite length_drop in IH.
  destruct (split_pairs [] (drop (n + 2) l)). apply IH; [lia|].
  intros Hin. apply Hl. rewrite <-(take_drop (n + 2) l). apply elem_of_app. by right.
Qed.

Section Stream.
Context {J : JsonText}.

Lemma feed_spec p c :
  c ≠ [] →
  let '(fs, t) := split_pairs [] (no_cr (append_capped (partial p) c)) in
  summary (feed p c) = foldl process_frame (summary p) fs ∧
  no_cr (partial (feed p c)) = t ∧
  (length (partial (feed p c)) ≤ length (append_capped (partial p) c))%nat.
Proof.
  intros Hc. unfold feed. rewrite bool_decide_eq_false_2 by done. rewrite working_no_cr.
  set (buffer := append_capped (partial p) c).
  pose proof (frames_loop_split (length (no_cr buffer)) (no_cr buffer) 0 0 [] ltac:(lia)) as Hl.
  rewrite drop_0 in Hl. pose proof (split_pairs_rest_no_cr _ (not_elem_no_cr buffer)) as Hr.
  assert (length (no_cr buffer) ≤ length buffer)%nat as Hlen by apply length_filter.
  destruct (split_pairs [] (no_cr buffer)) as [fs t] eqn:Hs. destruct Hl as [-> Ht]. cbn [app snd] in *.
  case_bool_decide as Hfs.
  - subst fs. cbn. split_and!; [done| |done]. rewrite split_pairs_find in Hs.
    destruct (find_pair _); [by destruct (split_pairs [] _)|]. by injection Hs.
  - destruct (Ht Hfs) as [Hpos Hd]. rewrite (proj2 (Nat.ltb_lt _ _) Hpos). cbn [partial summary].
    rewrite Hd. split_and!; [done|done|]. rewrite <-Hd, length_drop. lia.
Qed.

Lemma append_capped_bound buffer chunk :
  (length (append_capped buffer chunk) ≤ SSE_PARTIAL_FRAME_CAP_BYTES)%nat.
Proof.
  unfold append_capped. destruct (Nat.leb_spec (length buffer + length chunk) SSE_PARTIAL_FRAME_CAP_BYTES).
  { by rewrite length_app. }
  destruct (Nat.leb_spec SSE_PARTIAL_FRAME_CAP_BYTES (length chunk));
    rewrite ?length_app, length_drop; lia.
Qed.

Lemma feed_bound p c :
  (length (partial p) ≤ SSE_PARTIAL_FRAME_CAP_BYTES)%nat →
  (length (partial (feed p c)) ≤ SSE_PARTIAL_FRAME_CAP_BYTES)%nat.
Proof.
  intros Hp. destruct (decide (c = [])) as [->|Hc]; [done|].
  pose proof (feed_spec p c Hc) as H. pose proof (append_capped_bound (partial p) c).
  destruct (split_pairs _ _). lia.
Qed.

(** Whether each chunk fits into the buffer when it arrives. *)
Fixpoint fits (p : AnthropicSseStreamParser) (chunks : list bytes) : bool :=
  match chunks with
  | [] => true
  | c :: cs => (length (partial p) + length c <=? SSE_PARTIAL_FRAME_CAP_BYTES)%nat && fits (feed p c) cs
  end.

Lemma run_frames p chunks :
  find_pair (no_cr (partial p)) = None → fits p chunks = true →
  let '(fs, t) := split_pairs [] (no_cr (partial p ++ concat chunks)) in
  summary (foldl feed p chunks) = foldl process_frame (summary p) fs ∧
  no_cr (partial (foldl feed p chunks)) = t.
Proof.
  revert p. induction chunks as [|c cs IH]; intros p Hp Hf.
  - cbn. rewrite app_nil_r, split_pairs_find, Hp. done.
  - cbn [fits] in Hf. apply andb_prop in Hf as [Hc Hf]. apply Nat.leb_le in Hc. cbn [concat foldl].
    destruct (decide (c = [])) as [->|Hne]; [by apply IH|].
    pose proof (feed_spec p c Hne) as Hs. unfold append_capped in Hs.
    rewrite (proj2 (Nat.leb_le _ _) Hc) in Hs.
    pose proof (split_pairs_rest (no_cr (partial p ++ c))) as Hrest.
    rewrite (assoc_L (++)), no_cr_app, split_pairs_app.
    destruct (split_pairs [] (no_cr (partial p ++ c))) as [fs t]. destruct Hs as (Hsum & Hpart & _).
    cbn [snd] in Hrest. subst t. specialize (IH (feed p c) Hrest Hf).
    rewrite no_cr_app in IH. destruct (split_pairs [] (no_cr (partial (feed p c)) ++ _)) as [fs' t'].
    rewrite Hsum in IH. by rewrite foldl_app.
Qed.

(** However the bytes of a stream are cut into chunks, as long as each chunk fits into the buffer
    on arrival, the running summary is that of the frames of the whole stream with its carriage
    returns removed, and the buffer holds exactly the unfinished frame. *)
Theorem sse_stream_reads_frames chunks :
  fits new chunks = true →
  let '(fs, t) := split_pairs [] (no_cr (concat chunks)) in
  summary (foldl feed new chunks) = foldl process_frame summary_default fs ∧
  no_cr (partial (foldl feed new chunks)) = t.
Proof. by apply (run_frames new). Qed.

(** The in-flight buffer never exceeds eight KiB, whatever the upstream sends and in whatever
    pieces. *)
Theorem sse_buffer_bounded chunks :
  (buffered_bytes (foldl feed new chunks) ≤ SSE_PARTIAL_FRAME_CAP_BYTES)%nat.
Proof.
  unfold buffered_bytes. assert (length (partial new) ≤ SSE_PARTIAL_FRAME_CAP_BYTES)%nat as H by (cbn; lia).
  revert H. generalize new. induction chunks as [|c cs IH]; intros p H; [done|]. cbn. by apply IH, feed_bound.
Qed.

(** A chunk longer than the buffer replaces it by its own last eight KiB before any frame is
    looked for: the reader behaves as if neither the buffered bytes nor the front of the chunk had
    been sent, complete frames included. *)
Lemma long_chunk_truncated p chunk :
  (SSE_PARTIAL_FRAME_CAP_BYTES < length chunk)%nat →
  feed p chunk =
  feed {| partial := []; summary := summary p |} (drop (length chunk - SSE_PARTIAL_FRAME_CAP_BYTES) chunk).
Proof.
  intros Hl. unfold feed.
  rewrite (bool_decide_eq_false_2 (chunk = [])), (bool_decide_eq_false_2 (drop _ chunk = [])).
  2: { intros H. apply (f_equal length) in H. rewrite length_drop in H.
       unfold SSE_PARTIAL_FRAME_CAP_BYTES in *. cbn in H. lia. }
  2: { intros ->. cbn in Hl. lia. }
  cbn [partial summary].
  assert (append_capped (partial p) chunk =
          append_capped [] (drop (length chunk - SSE_PARTIAL_FRAME_CAP_BYTES) chunk)) as ->; [|done].
  unfold append_capped. rewrite length_drop. cbn [length].
  rewrite (proj2 (Nat.leb_gt _ _)) by lia. rewrite (proj2 (Nat.leb_le _ _)) by lia.
  rewrite (proj2 (Nat.leb_le _ _)) by lia. done.
Qed.

End Stream.

(** ** Decoding and line breaks *)

Definition is_ascii (a : ascii) : Prop := (N_of_ascii a < 128)%N.

Lemma utf8_step_pos l : (1 ≤ (utf8_step l).1)%nat.
Proof. unfold utf8_step. repeat case_match; cbn; lia. Qed.

Lemma lossy_fuel fuel l : (length l ≤ fuel)%nat → lossy_loop fuel l = from_utf8_lossy l.
Proof.
  unfold from_utf8_lossy. revert fuel. induction l as [l IH] using (induction_ltof1 _ (@length ascii)).
  unfold ltof in IH. intros fuel Hf. destruct l as [|a l]; [by destruct fuel|].
  destruct fuel as [|fuel]; [cbn in Hf; lia|]. cbn [lossy_loop length].
  pose proof (utf8_step_pos (a :: l)) as Hp. destruct (utf8_step (a :: l)) as [n ok]. cbn [fst] in Hp. f_equal.
  destruct n as [|n]; [lia|]. cbn [drop]. cbn [length] in Hf, IH.
  rewrite (IH (drop n l)) by (rewrite length_drop; lia).
  symmetry. apply IH; rewrite length_drop; lia.
Qed.

Lemma lossy_cons a l :
  from_utf8_lossy (a :: l) =
  let '(n, ok) := utf8_step (a :: l) in
  (if ok then take n (a :: l) else REPLACEMENT_CHARACTER) ++ from_utf8_lossy (drop n (a :: l)).
Proof.
  unfold from_utf8_lossy at 1. cbn [lossy_loop length].
  pose proof (utf8_step_pos (a :: l)) as Hp. destruct (utf8_step (a :: l)) as [n ok]. cbn [fst] in Hp. f_equal.
  apply lossy_fuel. rewrite length_drop. cbn. lia.
Qed.

Lemma lossy_ascii_cons a l : is_ascii a → from_utf8_lossy (a :: l) = a :: from_utf8_lossy l.
Proof.
  intros Ha. rewrite lossy_cons. unfold utf8_step, byte_at. cbn.
  by rewrite (proj2 (N.ltb_lt _ _) Ha).
Qed.

(** A byte below 128 and the end of the text read the same to an unfinished sequence. *)
Lemma ascii_not_cont c : (c < 128)%N → is_cont c = false.
Proof. intros. unfold is_cont, in_range. apply andb_false_intro1, N.leb_gt. lia. Qed.

Lemma ascii_not_second c b :
  (c < 128)%N → second_of_3 b c = false ∧ second_of_4 b c = false.
Proof.
  intros. unfold second_of_3, second_of_4, in_range.
  split; repeat case_match; apply andb_false_intro1, N.leb_gt; lia.
Qed.

Lemma utf8_step_app x a y :
  x ≠ [] → is_ascii a → utf8_step (x ++ a :: y) = utf8_step x ∧ ((utf8_step x).1 ≤ length x)%nat.
Proof.
  intros Hx Ha. unfold is_ascii in Ha.
  assert (is_cont 0 = false) as H0 by done.
  assert (∀ b, second_of_3 b 0 = false) as H03 by (intros; by apply ascii_not_second).
  assert (∀ b, second_of_4 b 0 = false) as H04 by (intros; by apply ascii_not_second).
  assert (is_cont (N_of_ascii a) = false) as Hc by by apply ascii_not_cont.
  assert (∀ b, second_of_3 b (N_of_ascii a) = false) as Hc3 by (intros; by apply ascii_not_second).
  assert (∀ b, second_of_4 b (N_of_ascii a) = false) as Hc4 by (intros; by apply ascii_not_second).
  destruct x as [|b1 [|b2 [|b3 [|b4 x]]]]; [done| | | |]; unfold utf8_step, byte_at;
    cbn [lookup list_lookup app fmap option_fmap option_map default from_option id];
    rewrite ?Hc, ?H0, ?H03, ?H04, ?Hc3, ?Hc4;
    split; repeat case_match; cbn; (reflexivity || lia).
Qed.

(** Decoding goes byte by byte around an ASCII byte. *)
Lemma lossy_app_ascii x a y :
  is_ascii a → from_utf8_lossy (x ++ a :: y) = from_utf8_lossy x ++ a :: from_utf8_lossy y.
Proof.
  intros Ha. induction x as [x IH] using (induction_ltof1 _ (@length ascii)). unfold ltof in IH.
  destruct x as [|b x]; [by apply lossy_ascii_cons|].
  destruct (utf8_step_app (b :: x) a y) as [Hs Hle]; [done|done|].
  cbn [app] in *. rewrite !lossy_cons, Hs. pose proof (utf8_step_pos (b :: x)) as Hp.
  destruct (utf8_step (b :: x)) as [n ok]. cbn [fst] in *.
  rewrite !app_comm_cons, drop_app_le, take_app_le by done.
  rewrite IH by (rewrite length_drop; cbn; lia). by rewrite (assoc_L (++)).
Qed.

(** Decoding makes no ASCII byte. *)
Lemma lossy_elem a l : is_ascii a → a ∈ from_utf8_lossy l → a ∈ l.
Proof.
  intros Ha. induction l as [l IH] using (induction_ltof1 _ (@length ascii)). unfold ltof in IH.
  destruct l as [|b l]; [done|]. rewrite lossy_cons. pose proof (utf8_step_pos (b :: l)) as Hp.
  destruct (utf8_step (b :: l)) as [n ok]. cbn [fst] in Hp. rewrite elem_of_app. intros [Hin|Hin].
  - destruct ok; [rewrite <-(take_drop n (b :: l)); apply elem_of_app; by left|]. exfalso. revert Ha.
    unfold is_ascii. unfold REPLACEMENT_CHARACTER in Hin. rewrite !elem_of_cons in Hin.
    destruct Hin as [->|[->|[->|H]]]; [done..|by apply elem_of_nil in H].
  - rewrite <-(take_drop n (b :: l)). apply elem_of_app. right. apply IH; [|done].
    rewrite length_drop. cbn. lia.
Qed.

Lemma newline_ascii : is_ascii newline.
Proof. done. Qed.
Lemma cr_ascii : is_ascii cr.
Proof. done. Qed.

(** The first occurrence of a byte. *)
Lemma first_split (c : ascii) l : c ∉ l ∨ ∃ x y, l = x ++ c :: y ∧ c ∉ x.
Proof.
  induction l as [|a l [IH|(x & y & -> & Hx)]].
  - left. apply not_elem_of_nil.
  - destruct (decide (a = c)) as [->|]; [right; exists [], l|left]; set_solver.
  - right. destruct (decide (a = c)) as [->|]; [exists [], (x ++ c :: y)|exists (a :: x), y]; set_solver.
Qed.

(** Every carriage return of the text is followed by a line feed. *)
Fixpoint crlf_only (l : bytes) : bool :=
  match l with
  | [] => true
  | a :: rest =>
      if bool_decide (a = cr) then
        match rest with b :: rest' => bool_decide (b = newline) && crlf_only rest' | [] => false end
      else crlf_only rest
  end.

Lemma crlf_only_split x y :
  cr ∉ x → crlf_only (x ++ cr :: y) = true → ∃ z, y = newline :: z ∧ crlf_only z = true.
Proof.
  induction x as [|a x IH]; intros Hx; cbn.
  - destruct y as [|b y]; [done|]. intros [Hb Hy]%andb_prop. apply bool_decide_eq_true in Hb as ->. eauto.
  - apply not_elem_of_cons in Hx as [Ha Hx]. rewrite bool_decide_eq_false_2 by done. by apply IH.
Qed.

Lemma replace_crlf_no_cr x y : cr ∉ x → replace_crlf (x ++ cr :: newline :: y) = x ++ newline :: replace_crlf y.
Proof.
  induction x as [|a x IH]; intros Hx; [done|]. apply not_elem_of_cons in Hx as [Ha Hx].
  cbn [app]. rewrite <-(IH Hx). destruct x; cbn; by rewrite bool_decide_eq_false_2.
Qed.

Lemma replace_crlf_id x : cr ∉ x → replace_crlf x = x.
Proof.
  induction x as [|a x IH]; intros Hx; [done|]. apply not_elem_of_cons in Hx as [Ha Hx]. rewrite <-(IH Hx) at 2.
  destruct x; cbn; [done|]. by rewrite bool_decide_eq_false_2.
Qed.

(** On a text with proper line ends both normalizations agree, before or after decoding. *)
Lemma replace_lossy l :
  crlf_only l = true → replace_crlf (from_utf8_lossy l) = from_utf8_lossy (no_cr l).
Proof.
  induction l as [l IH] using (induction_ltof1 _ (@length ascii)). unfold ltof in IH. intros Hl.
  assert (∀ x, cr ∉ x → cr ∉ from_utf8_lossy x) as Hn.
  { intros x Hx Hin. apply Hx. by apply (lossy_elem cr). }
  destruct (first_split cr l) as [Hno|(x & y & -> & Hx)].
  - rewrite no_cr_id, replace_crlf_id by auto. done.
  - apply crlf_only_split in Hl as (z & -> & Hz); [|done].
    rewrite lossy_app_ascii, lossy_ascii_cons by done. rewrite replace_crlf_no_cr by auto.
    rewrite no_cr_app. change (no_cr (cr :: newline :: z)) with (newline :: no_cr z).
    rewrite lossy_app_ascii by done. rewrite (no_cr_id x) by done. f_equal. f_equal. apply IH; [|done].
    rewrite length_app. cbn. lia.
Qed.

Lemma text_lossy l :
  crlf_only l = true →
  (if bool_decide (cr ∈ from_utf8_lossy l) then replace_crlf (from_utf8_lossy l) else from_utf8_lossy l) =
  from_utf8_lossy (no_cr l).
Proof.
  intros Hl. rewrite <-replace_lossy by done. case_bool_decide; [done|]. by rewrite replace_crlf_id.
Qed.

Lemma split_pairs_skip acc x l : newline ∉ x → split_pairs acc (x ++ l) = split_pairs (rev x ++ acc) l.
Proof.
  revert acc. induction x as [|a x IH]; intros acc Hx; [done|]. apply not_elem_of_cons in Hx as [Ha Hx].
  cbn [rev app]. rewrite <-(assoc_L (++)). cbn [app]. rewrite <-IH by done.
  destruct (x ++ l) as [|b k]; [done|]. by rewrite split_pairs_cons, bool_decide_eq_false_2.
Qed.

Lemma split_pairs_none acc l : newline ∉ l → split_pairs acc l = ([], rev acc ++ l).
Proof.
  intros Hl. rewrite <-(app_nil_r l), split_pairs_skip by done. cbn. by rewrite rev_app_distr, rev_involutive, app_nil_r.
Qed.

(** What was read so far ends at a line break, so that decoding may start after it. *)
Definition line_end (l : bytes) : Prop := l = [] ∨ ∃ l', l = l' ++ [newline].

Lemma lossy_app_line_end l k : line_end l → from_utf8_lossy (l ++ k) = from_utf8_lossy l ++ from_utf8_lossy k.
Proof.
  intros [->|[l' ->]]; [done|]. rewrite <-(assoc_L (++)). cbn [app]. rewrite !lossy_app_ascii by done.
  by rewrite <-(assoc_L (++)).
Qed.

Lemma split_pairs_lossy_acc l w :
  line_end l →
  split_pairs (rev (from_utf8_lossy l)) (from_utf8_lossy w) =
  prod_map (fmap from_utf8_lossy) from_utf8_lossy (split_pairs (rev l) w).
Proof.
  revert l. induction w as [w IH] using (induction_ltof1 _ (@length ascii)). unfold ltof in IH. intros l Hl.
  assert (∀ x, newline ∉ x → newline ∉ from_utf8_lossy x) as Hn.
  { intros x Hx Hin. apply Hx. by apply (lossy_elem newline). }
  destruct (first_split newline w) as [Hno|(x & y & -> & Hx)].
  { rewrite !split_pairs_none, !rev_involutive by auto. unfold prod_map. cbn [fst snd fmap list_fmap].
    by rewrite lossy_app_line_end. }
  rewrite lossy_app_ascii by done. rewrite !split_pairs_skip by auto. rewrite <-!rev_app_distr.
  rewrite <-lossy_app_line_end by done.
  destruct y as [|b y].
  { change (from_utf8_lossy []) with (@nil ascii). cbn [split_pairs rev]. unfold prod_map.
    cbn [fst snd fmap list_fmap]. rewrite !rev_involutive. by rewrite lossy_app_ascii. }
  destruct (decide (b = newline)) as [->|Hb].
  - rewrite lossy_ascii_cons, !split_pairs_cons, !bool_decide_eq_true_2 by done. cbn [andb].
    pose proof (IH y) as IHy. rewrite length_app in IHy. specialize (IHy ltac:(cbn; lia) [] (or_introl eq_refl)).
    change (from_utf8_lossy []) with (@nil ascii) in IHy. cbn [rev] in IHy. rewrite IHy.
    destruct (split_pairs [] y) as [fs t]. unfold prod_map. cbn [fst snd fmap list_fmap].
    by rewrite !rev_involutive.
  - specialize (IH (b :: y)). rewrite length_app in IH.
    specialize (IH ltac:(cbn; lia) ((l ++ x) ++ [newline]) (or_intror (ex_intro _ _ eq_refl))).
    rewrite lossy_app_ascii, !rev_app_distr in IH by done. cbn [rev app] in IH.
    change (from_utf8_lossy []) with (@nil ascii) in IH. cbn [rev app] in IH.
    rewrite (split_pairs_cons _ newline b), (bool_decide_eq_false_2 (b = newline)), andb_false_r by done.
    rewrite rev_app_distr. rewrite <-IH.
    destruct (from_utf8_lossy (b :: y)) as [|c k] eqn:E.
    + exfalso. rewrite lossy_cons in E. pose proof (utf8_step_pos (b :: y)) as Hp.
      destruct (utf8_step (b :: y)) as [[|n] [|]]; cbn in Hp; (lia || done).
    + rewrite split_pairs_cons. rewrite (bool_decide_eq_false_2 (c = newline)), andb_false_r; [done|].
      intros ->. rewrite lossy_cons in E. pose proof (utf8_step_pos (b :: y)) as Hp.
      destruct (utf8_step (b :: y)) as [[|n] [|]]; cbn in Hp; try lia; cbn in E; injection E as E0 _;
        [done|by vm_compute in E0].
Qed.

Lemma split_pairs_lossy w :
  split_pairs [] (from_utf8_lossy w) = prod_map (fmap from_utf8_lossy) from_utf8_lossy (split_pairs [] w).
Proof. apply (split_pairs_lossy_acc []). by left. Qed.

Section Slice.
Context {J : JsonText}.

(** The two readers' accumulators agree. *)
Definition same_counts (u : UsageSummary) (s : SliceState) : Prop :=
  sl_input s = input_tokens u ∧ sl_cache_create s = cache_creation_input_tokens u ∧
  sl_cache_read s = cache_read_input_tokens u ∧ sl_output_max s = output_tokens u ∧
  sl_model s = model u ∧ sl_stop s = saw_message_stop u ∧ sl_any s = saw_any_usage u.

Lemma same_counts_event ty v u s :
  ty ≠ "response.completed" → same_counts u s → same_counts (process_event ty v u) (slice_event ty v s).
Proof.
  intros Hty (H1 & H2 & H3 & H4 & H5 & H6 & H7). unfold process_event, slice_event.
  repeat case_bool_decide; try done.
  - destruct (jget "message" v) as [msg|]; cbn; [|done].
    destruct (jget "usage" msg); unfold same_counts; cbn; by rewrite ?H1, ?H2, ?H3, ?H4, ?H5, ?H6, ?H7.
  - destruct (jget "usage" v); unfold same_counts; cbn; [|done]. by rewrite H4.
Qed.

(** A frame of an OpenAI stream's last event, which only the incremental reader knows. *)
Definition completed_frame (frame : bytes) : bool :=
  match frame_event (from_utf8_lossy frame) with
  | Some (ty, _) => bool_decide (ty = "response.completed")
  | None => false
  end.

Lemma same_counts_frames fs u s :
  Forall (λ f, completed_frame f = false) fs → same_counts u s →
  same_counts (foldl process_frame u fs) (foldl slice_frame s (from_utf8_lossy <$> fs)).
Proof.
  intros Hf. revert u s. induction Hf as [|f fs Hc _ IH]; intros u s H; [done|]. cbn [foldl fmap list_fmap].
  apply IH. unfold process_frame, slice_frame, completed_frame in *.
  destruct (frame_event (from_utf8_lossy f)) as [[ty v]|]; [|done].
  apply same_counts_event; [|done]. intros ->. by rewrite bool_decide_eq_true_2 in Hc.
Qed.

(** A stream without such frames, in which no event is left unfinished. *)
Definition anthropic_stream (body : bytes) : bool :=
  let '(fs, t) := split_pairs [] (no_cr body) in
  forallb (λ f, negb (completed_frame f)) fs &&
  match frame_event (from_utf8_lossy t) with None => true | Some _ => false end.

(** The incremental reader agrees with the reader of complete bodies: on a stream with proper
    line ends whose last frame is finished, cut into any chunks that fit, and without the events
    of the other provider, both find the same usage, model and end marker, and when the reader of
    bodies finds nothing the stream's summary says so too. *)
Theorem stream_matches_slice chunks :
  fits new chunks = true →
  crlf_only (concat chunks) = true →
  anthropic_stream (concat chunks) = true →
  let u := summary (foldl feed new chunks) in
  match parse_anthropic_sse_usage (concat chunks) with
  | Some s => ss_usage s = folded_usage u ∧ ss_model s = model u ∧ ss_saw_message_stop s = saw_message_stop u
  | None => saw_any_usage u = false
  end.
Proof.
  intros Hfit Hcr Hframes. pose proof (run_frames new chunks eq_refl Hfit) as Hrun. cbn [partial new app] in Hrun.
  unfold anthropic_stream in Hframes. unfold parse_anthropic_sse_usage. cbv zeta. rewrite (text_lossy _ Hcr), split_pairs_lossy.
  destruct (split_pairs [] (no_cr (concat chunks))) as [fs t]. destruct Hrun as [-> _].
  apply andb_prop in Hframes as [Hfs Ht]. destruct (frame_event (from_utf8_lossy t)) eqn:Et; [done|].
  clear Ht. rename Et into Ht.
  assert (Forall (λ f, completed_frame f = false) fs) as Hfs'
    by (apply Forall_forall; intros f Hin; apply negb_true_iff;
        exact (proj1 (forallb_forall _ _) Hfs f (proj1 (list_elem_of_In _ _) Hin))).
  clear Hfs. rename Hfs' into Hfs. unfold prod_map. cbn [fst snd]. rewrite foldl_app. cbn [foldl].
  assert (∀ s, slice_frame s (from_utf8_lossy t) = s) as -> by (intros; unfold slice_frame; by rewrite Ht).
  destruct (same_counts_frames fs summary_default slice_default Hfs) as (H1 & H2 & H3 & H4 & H5 & H6 & H7);
    [done|]. rewrite H7. destruct (saw_any_usage _) eqn:Ha; cbn [negb andb].
  - unfold folded_usage. by rewrite H1, H2, H3, H4, H5, H6.
  - destruct (sl_start _); cbn; [|done]. unfold folded_usage. by rewrite H1, H2, H3, H4, H5, H6.
Qed.

End Slice.

(** ** Costs *)

Lemma table_prices_small provider model :
  0 ≤ input_cents_per_million (pricing_for provider model) ≤ 3000 ∧
  0 ≤ output_cents_per_million (pricing_for provider model) ≤ 7500.
Proof.
  assert (∀ m, 0 ≤ input_cents_per_million (pricing_for_exact provider m) ≤ 3000 ∧
               0 ≤ output_cents_per_million (pricing_for_exact provider m) ≤ 7500) as Hex.
  { intros m. unfold pricing_for_exact.
    assert (Forall (λ row, 0 ≤ input_cents_per_million row.2 ≤ 3000 ∧
                           0 ≤ output_cents_per_million row.2 ≤ 7500) price_table) as Ht.
    { unfold price_table, price. repeat constructor; cbn; lia. }
    induction Ht as [|[[p ms] tp] rows Hr _ IH]; [cbn; lia|]. cbn. by destruct (_ && _). }
  unfold pricing_for. destruct (negb _); [apply Hex|].
  destruct (strip_anthropic_date_suffix model); [|cbn; lia]. destruct (negb _); [apply Hex|cbn; lia].
Qed.

(** The metered cost is a [u64] that never wraps: it is the exact product of tokens and prices,
    cut off at the largest [u64]; no cut-off happens below 10^15 tokens of each kind; it never
    decreases with the tokens; and the cents reported are its floor. *)
Theorem metered_cost_bounds model provider i o :
  in_u64 i → in_u64 o →
  let p := pricing_for provider model in
  let exact := i * input_cents_per_million p + o * output_cents_per_million p in
  cents_micro_for model provider i o = Z.min exact u64_max ∧
  (i ≤ 10 ^ 15 → o ≤ 10 ^ 15 → cents_micro_for model provider i o = exact) ∧
  (∀ i' o', i ≤ i' → o ≤ o' → cents_micro_for model provider i o ≤ cents_micro_for model provider i' o') ∧
  1000000 * cents_for model provider i o ≤ cents_micro_for model provider i o
    < 1000000 * (cents_for model provider i o + 1).
Proof.
  intros Hi Ho p exact. unfold cents_for, cents_micro_for, TokenPricing_cents_for, TokenPricing_cents_micro_for.
  destruct (table_prices_small provider model) as [Hpi Hpo]. fold p in Hpi, Hpo. fold p.
  unfold in_u64, u64_sat_mul, u64_sat_add, u64_max in *. cbv zeta.
  split_and!.
  - subst exact. nia.
  - intros. subst exact. nia.
  - intros i' o' Hi' Ho'. assert (i * input_cents_per_million p ≤ i' * input_cents_per_million p) by nia.
    assert (o * output_cents_per_million p ≤ o' * output_cents_per_million p) by nia. lia.
  - apply Z.mul_div_le. lia.
  - match goal with |- ?a < _ => pose proof (Z.mul_succ_div_gt a 1000000 ltac:(lia)) end. lia.
Qed.

(** Complete frames at the front of a chunk are not metered when eight KiB of it follow them:
    whatever they report, the reader ends in the state it would reach had they not been sent. The
    same frames are counted when the same bytes arrive in smaller pieces. *)
Theorem long_chunk_loses_frames `{J : JsonText} p front back :
  front ≠ [] → (SSE_PARTIAL_FRAME_CAP_BYTES ≤ length back)%nat →
  feed p (front ++ back) =
  feed {| partial := []; summary := summary p |} (drop (length back - SSE_PARTIAL_FRAME_CAP_BYTES) back).
Proof.
  intros Hf Hb. assert (0 < length front)%nat by (destruct front; [done|cbn; lia]).
  rewrite long_chunk_truncated by (rewrite length_app; lia). rewrite length_app.
  rewrite drop_app_ge by lia. do 2 f_equal. lia.
Qed.

(** ** A concrete stream *)

Module ToyStream.

(** A reader of two payloads. *)
#[export] Instance json : JsonText := {|
  json_from_slice l :=
    if bool_decide (l = to_bytes "{start}") then
      Some (JObject [("type", JString "message_start");
                     ("message", JObject [("model", JString "claude-haiku-4-5");
                                          ("usage", JObject [("input_tokens", JNumber "1000")])])])
    else if bool_decide (l = to_bytes "{stop}") then Some (JObject [("type", JString "message_stop")])
    else None
|}.

Definition frame (payload : string) : bytes := to_bytes ("data: " +:+ payload) ++ [newline; newline].
Definition start_frame : bytes := frame "{start}".
Definition stop_frame : bytes := frame "{stop}".
(** A comment of eight KiB, which some gateways send to keep a connection open. *)
Definition comment_frame : bytes := ":"%char :: repeat "x"%char (8 * 1024) ++ [newline; newline].

(** The same short stream in two pieces, cut inside a frame and with carriage returns. *)
Definition chunks : list bytes :=
  [to_bytes "data: {sta"; to_bytes "rt}" ++ [cr; newline; cr]; newline :: stop_frame].

End ToyStream.
Import ToyStream.

Lemma sse_stream_reads_frames_witness :
  fits new chunks = true ∧
  input_tokens (summary (foldl feed new chunks)) = 1000 ∧
  (let '(fs, t) := split_pairs [] (no_cr (concat chunks)) in
   summary (foldl feed new chunks) = foldl process_frame summary_default fs ∧
   no_cr (partial (foldl feed new chunks)) = t).
Proof.
  split; [by vm_compute|]. split; [by vm_compute|]. exact (sse_stream_reads_frames chunks eq_refl).
Defined.

Lemma stream_matches_slice_witness :
  match parse_anthropic_sse_usage (concat chunks) with
  | Some s => ss_usage s = {| pu_input_tokens := 1000; pu_output_tokens := 0 |} ∧
              ss_model s = Some "claude-haiku-4-5" ∧ ss_saw_message_stop s = true
  | None => False
  end.
Proof.
  exact (stream_matches_slice chunks eq_refl eq_refl eq_refl).
Defined.

Lemma long_chunk_loses_frames_witness :
  feed new (start_frame ++ comment_frame) =
    feed new (drop (length comment_frame - SSE_PARTIAL_FRAME_CAP_BYTES) comment_frame) ∧
  input_tokens (summary (foldl feed new [start_frame])) = 1000.
Proof.
  split; [|by vm_compute]. apply (long_chunk_loses_frames new start_frame comment_frame); [done|].
  by apply Nat.leb_le; vm_compute.
Defined.

Lemma metered_cost_bounds_witness :
  cents_micro_for "claude-haiku-4-5-20251001" "anthropic" 1000 20 = 1000 * 100 + 20 * 500.
Proof.
  refine (proj1 (proj2 (metered_cost_bounds "claude-haiku-4-5-20251001" "anthropic" 1000 20 _ _)) _ _);
    unfold in_u64, u64_max; lia.
Defined.
