(* ===== verification/ProxyPolicy.v ===== *)
(** * Decisions of the forwarding core

    crates/proxy-forward-runtime/src/forward.rs: which statement of a grant covers a request, which
    hosts a credential may be sent to, the budget checks before a call and the usage recorded after
    it, the headers of the outgoing request, and the body that meters a stream while it forwards
    it. Requests, hosts and URIs come from [ProxyMatch], prices and usage from [Metering], grants
    from [GrantTypes]. The header map of the http crate is the parameter [HeaderOps]. *)

From stdpp Require Import base list sets strings.
From Stdlib Require Import Ascii Lia.
From S2P Require Import Prelude CoreTypes Numbers GrantTypes Materialize BranchGlob ProxyMatch Metering.

Local Infix "+:+" := String.append (at level 60, right associativity).
Local Open Scope Z_scope.

(** ** Hosts a credential may be sent to *)

Inductive HostAuthz := Allow | DenyNotInAllowlist | DenyGenericNoAllowlist.

(** One entry of the allowlist against a host. *)
Definition entry_matches (pattern host : string) : bool :=
  match strip_prefix_on (to_bytes "*.") (to_bytes pattern) with
  | Some domain => host_matches_domain host (of_bytes domain)
  | None => bool_decide (host = pattern)
  end.

Definition authorize_forward_host {A : JsonArrayOps} (is_generic_lane : bool)
  (allowed_targets : option string) (target_host : option string) : HostAuthz :=
  match allowed_targets with
  | Some targets =>
      let entries := parse_allowed_targets targets in
      let ok := match target_host with
                | Some host => existsb (λ pattern, entry_matches pattern host) entries
                | None => false
                end in
      if ok then Allow else DenyNotInAllowlist
  | None => if is_generic_lane then DenyGenericNoAllowlist else Allow
  end.

(** ** Streams of budgeted grants *)

Definition statement_has_effective_budget (stmt : Statement) : bool :=
  match budget stmt with Some b => negb (is_none_set b) | None => false end.

Definition eq_ignore_ascii_case (a b : bytes) : bool :=
  bool_decide (ascii_lower <$> a = ascii_lower <$> b).

(** One [key=value] pair of the query. *)
Definition pair_enables_streaming (pair : bytes) : bool :=
  let '(key, value) :=
    match split_once_on equals pair with Some (k, v) => (k, Some v) | None => (pair, None) end in
  if negb (eq_ignore_ascii_case key (to_bytes "stream")) then false
  else match value with
       | Some v => eq_ignore_ascii_case v (to_bytes "true") || bool_decide (v = to_bytes "1")
       | None => true
       end.

Definition query_enables_streaming (query : string) : bool :=
  existsb pair_enables_streaming (split_on ampersand_byte (to_bytes query)).

Definition as_bool (v : Json) : option bool := match v with JBool b => Some b | _ => None end.

Section Streaming.
Context {U : UriOps} {J : JsonText}.

Definition request_enables_streaming (uri : Uri) (body : bytes) : bool :=
  if match uri_query uri with Some q => query_enables_streaming q | None => false end then true
  else default false (json_from_slice body ≫= λ value, jget "stream" value ≫= as_bool).

Definition budgeted_openai_streaming_request_forbidden (stmt : Statement) (target_host : string)
  (effective_uri : Uri) (body : bytes) : bool :=
  statement_has_effective_budget stmt
  && bool_decide (provider_for_host target_host = Some PROVIDER_OPENAI)
  && request_enables_streaming effective_uri body.

Definition budgeted_openai_streaming_response_forbidden (stmt : Statement) (target_host : string)
  (is_streaming_response : bool) : bool :=
  is_streaming_response && statement_has_effective_budget stmt
  && bool_decide (provider_for_host target_host = Some PROVIDER_OPENAI).

End Streaming.

(** ** The statement that covers a request *)

Definition action_ok (stmt : Statement) (action : string) : bool :=
  existsb (λ a, bool_decide (a = action) || bool_decide (a = "*")) (actions stmt).

(** A bare exact selector names a credential, not a resource. *)
Definition primary_ok (stmt : Statement) (res : string) : bool :=
  match resource stmt with
  | Exact value =>
      if negb (str_contains_char value slash_byte) && negb (str_starts_with value "/") then true
      else covers (Exact value) res
  | other => covers other res
  end.

Definition resolve_statement_for_request (grant : AccessGrant) (action res : string)
  : option (nat * Statement) :=
  List.find (λ ist, if negb (action_ok ist.2 action) then false
                    else if negb (bool_decide (conditions ist.2 = [])) then false
                    else primary_ok ist.2 res) (grant_statements grant).

Definition condition_kind (c : Condition) : string :=
  match c with
  | C_Subpath _ _ => "Subpath"
  | C_OneOf _ _ => "OneOf"
  | C_NotOneOf _ _ => "NotOneOf"
  | C_Range _ _ _ => "Range"
  | C_Cidr _ _ => "Cidr"
  | C_UrlPattern _ _ => "UrlPattern"
  | C_Regex _ _ => "Regex"
  | C_TimeWindow _ _ => "TimeWindow"
  | C_MerchantAllowlist _ => "MerchantAllowlist"
  end.

(** [Vec::dedup] *)
Fixpoint dedup (l : list string) : list string :=
  match l with
  | [] => []
  | x :: l' =>
      match l' with
      | y :: _ => if bool_decide (x = y) then dedup l' else x :: dedup l'
      | [] => [x]
      end
  end.

Definition summarize_condition_kinds (conds : list Condition) : string :=
  of_bytes (join_on (to_bytes ",") (to_bytes <$> dedup (sort_by String.leb (condition_kind <$> conds)))).

Inductive ResolveOutcome :=
| Match (index : nat) (stmt : Statement)
| SubtargetMiss (subtarget_glob : string)
| UnevaluableCondition (conditions : string)
| NoApplicable.

Section Resolve.
Context {U : UriOps} {P : PercentOps}.

Definition subtarget_ok (sub_glob : string) (uri : Uri) : bool :=
  match extract_github_branch (uri_path uri) (uri_query uri) with
  | Some b => glob_match_branch sub_glob b
  | None => false
  end.

Fixpoint resolve_loop (stmts : list (nat * Statement)) (action res : string) (uri : Uri)
  (subtarget_miss condition_miss : option string) : ResolveOutcome :=
  match stmts with
  | [] =>
      match condition_miss with
      | Some conds => UnevaluableCondition conds
      | None => match subtarget_miss with Some sg => SubtargetMiss sg | None => NoApplicable end
      end
  | (idx, stmt) :: rest =>
      if negb (action_ok stmt action) then resolve_loop rest action res uri subtarget_miss condition_miss
      else if negb (primary_ok stmt res) then
        resolve_loop rest action res uri subtarget_miss condition_miss
      else if negb (bool_decide (conditions stmt = [])) then
        resolve_loop rest action res uri subtarget_miss
          (or_else condition_miss (Some (summarize_condition_kinds (conditions stmt))))
      else match subtarget_glob (resource stmt) with
           | Some sub_glob =>
               if subtarget_ok sub_glob uri then Match idx stmt
               else resolve_loop rest action res uri (or_else subtarget_miss (Some sub_glob)) condition_miss
           | None => Match idx stmt
           end
  end.

Definition resolve_statement_for_request_with_uri (grant : AccessGrant) (action res : string) (uri : Uri)
  : ResolveOutcome :=
  resolve_loop (grant_statements grant) action res uri None None.

End Resolve.

(** ** Budgets *)

Inductive PreflightDecision :=
| Allowed
| Rejected (axis : string) (limit used : Z).

Section Budgets.
Context {J : JsonText}.

Definition preflight_budget_check (stmt : Statement) (request_body : bytes) : PreflightDecision :=
  match budget stmt with
  | None => Allowed
  | Some b =>
      let tokens_rejected :=
        match b_tokens b with
        | Some cap =>
            let estimated := estimate_call_tokens request_body in
            let projected := u64_sat_add (u_tokens (usage stmt)) estimated in
            if cap <? projected then Some (Rejected "tokens" cap (u_tokens (usage stmt))) else None
        | None => None
        end in
      match tokens_rejected with
      | Some r => r
      | None =>
          match b_cents b with
          | Some cap =>
              let cap_micro := u64_sat_mul cap 1000000 in
              let exhausted :=
                if 0 <? u_cents_micro (usage stmt) then cap_micro <=? u_cents_micro (usage stmt)
                else cap <=? u_cents (usage stmt) in
              if exhausted then Rejected "cents" cap (u_cents (usage stmt)) else Allowed
          | None => Allowed
          end
      end
  end.

(** The usage delta of one call, before its request is counted. *)
Definition call_usage (tokens cents_micro : Z) : Usage :=
  mkUsage tokens (cents_micro / 1000000) 0 0 0 0 cents_micro.

Definition meter_response (target_host : string) (response_body : bytes) : option Usage :=
  provider ← provider_for_host target_host;
  parsed ← parse_usage provider response_body;
  let model := default "" (extract_model provider response_body) in
  let cents_micro := cents_micro_for model provider (pu_input_tokens parsed) (pu_output_tokens parsed) in
  Some (call_usage (u64_sat_add (pu_input_tokens parsed) (pu_output_tokens parsed)) cents_micro).

Definition usage_from_summary (target_host : string) (s : UsageSummary) : option Usage :=
  provider ← provider_for_host target_host;
  if negb (saw_any_usage s) then None
  else
    let folded := folded_usage s in
    let model := default "" (model s) in
    let cents_micro := cents_micro_for model provider (pu_input_tokens folded) (pu_output_tokens folded) in
    Some (call_usage (u64_sat_add (pu_input_tokens folded) (pu_output_tokens folded)) cents_micro).

Definition record_upstream_request (target_host : string)
  (upstream_status_is_success saw_usage_signal : bool) : Z :=
  if bool_decide (provider_for_host target_host = None) then 0
  else if negb upstream_status_is_success then 0
  else if negb saw_usage_signal then 0
  else 1.

End Budgets.

(** ** Base64 *)

Definition base64_alphabet : bytes :=
  to_bytes "ABCDEFGHIJKLMNOPQRSTUVWXYZabcdefghijklmnopqrstuvwxyz0123456789+/".

(** [ALPHABET[((n >> sh) & 0x3f) as usize]] *)
Definition sextet (n sh : Z) : ascii :=
  default "?"%char (base64_alphabet !! Z.to_nat (Z.land (Z.shiftr n sh) 63)).

Definition u32_of (a : ascii) : Z := Z.of_N (N_of_ascii a).

Fixpoint base64_std_encode (input : bytes) : bytes :=
  match input with
  | a :: b :: c :: rest =>
      let n := Z.lor (Z.lor (Z.shiftl (u32_of a) 16) (Z.shiftl (u32_of b) 8)) (u32_of c) in
      sextet n 18 :: sextet n 12 :: sextet n 6 :: sextet n 0 :: base64_std_encode rest
  | [a; b] =>
      let n := Z.lor (Z.shiftl (u32_of a) 16) (Z.shiftl (u32_of b) 8) in
      [sextet n 18; sextet n 12; sextet n 6; equals]
  | [a] =>
      let n := Z.shiftl (u32_of a) 16 in
      [sextet n 18; sextet n 12; equals; equals]
  | [] => []
  end.

Definition build_github_basic_auth (token : string) : string :=
  let raw := "x-access-token:" +:+ token in
  "Basic " +:+ of_bytes (base64_std_encode (to_bytes raw)).

(** ** Headers *)

(** [http::HeaderMap]: a multimap from lower-case names to values; values that are text. *)
Class HeaderOps := {
  HeaderMap : Type;
  HeaderValue : Type;
  header_entries : HeaderMap → list (string * HeaderValue);
  header_empty : HeaderMap;
  header_append : string → HeaderValue → HeaderMap → HeaderMap;
  header_insert : string → HeaderValue → HeaderMap → HeaderMap;
  header_remove : string → HeaderMap → HeaderMap;
  header_from_static : string → HeaderValue;
  header_from_str : string → option HeaderValue;
  header_to_str : HeaderValue → option string
}.

Section Headers.
Context {H : HeaderOps}.

(** [get_all] *)
Definition header_values (name : string) (m : HeaderMap) : list HeaderValue :=
  snd <$> filter (λ nv, nv.1 = name) (header_entries m).

(** [get(name)] *)
Definition header_get (name : string) (m : HeaderMap) : option HeaderValue := head (header_values name m).

(** [get(name).and_then(|v| v.to_str().ok())] *)
Definition header_str (name : string) (m : HeaderMap) : option string := header_get name m ≫= header_to_str.

Definition non_empty_str (s : string) : option string := if str_is_empty s then None else Some s.

Definition attachment_endpoint_from_headers (headers : HeaderMap) : option (string * string) :=
  attachment_id ← header_str "x-ember-attachment-id" headers ≫= non_empty_str;
  endpoint_token ← header_str "x-ember-endpoint-token" headers ≫= non_empty_str;
  Some (attachment_id, endpoint_token).

Definition HOP_BY_HOP_HEADERS : list string :=
  ["connection"; "keep-alive"; "proxy-authenticate"; "proxy-authorization"; "te"; "trailer";
   "trailers"; "transfer-encoding"; "upgrade"].

Definition ALLOWED_REQUEST_HEADERS : list string :=
  ["accept"; "accept-language"; "content-type"; "content-length"; "user-agent";
   "anthropic-version"; "anthropic-beta"; "openai-organization"].

Definition filter_request_headers (builder src : HeaderMap) : HeaderMap :=
  foldl (λ b nv, if bool_decide (nv.1 ∈ ALLOWED_REQUEST_HEADERS) then header_append nv.1 nv.2 b else b)
    builder (header_entries src).

Inductive AuthScheme := SchemeAnthropic | SchemeBasic | SchemeBearer.

#[global] Instance AuthScheme_eq_dec : EqDecision AuthScheme.
Proof. solve_decision. Defined.

Definition AuthScheme_as_str (s : AuthScheme) : string :=
  match s with SchemeAnthropic => "anthropic" | SchemeBasic => "basic" | SchemeBearer => "bearer" end.

Definition ANTHROPIC_OAUTH_BETA_MARKER : string := "oauth-2025-04-20".
Definition ANTHROPIC_PLAN_OAUTH_PREFIX : string := "anthropic/plan/claude-oauth/".

Definition ensure_anthropic_oauth_beta (headers : HeaderMap) : option HeaderMap :=
  let insert_merged merged :=
    value ← header_from_str merged; Some (header_insert "anthropic-beta" value headers) in
  match header_get "anthropic-beta" headers with
  | Some existing =>
      text ← header_to_str existing;
      if existsb (λ flag, bool_decide (trim_on flag = to_bytes ANTHROPIC_OAUTH_BETA_MARKER))
           (split_on ","%char (to_bytes text))
      then Some headers
      else if str_is_empty (str_trim text) then insert_merged ANTHROPIC_OAUTH_BETA_MARKER
      else insert_merged (text +:+ "," +:+ ANTHROPIC_OAUTH_BETA_MARKER)
  | None => insert_merged ANTHROPIC_OAUTH_BETA_MARKER
  end.

(** [trim_end_matches(['\r', '\n'])] *)
Fixpoint trim_line_ends_rev (l : bytes) : bytes :=
  match l with
  | [] => []
  | a :: l' => if bool_decide (a = cr) || bool_decide (a = newline) then trim_line_ends_rev l' else l
  end.
Definition trim_line_ends (s : string) : string := of_bytes (rev (trim_line_ends_rev (rev (to_bytes s)))).

(** The outgoing headers with the credential, or [None] when it is not a header value. *)
Definition inject_provider_auth (headers : HeaderMap) (target_host_lower : string)
  (is_git_transport : bool) (credential_name credential : string)
  : option (AuthScheme * HeaderMap) :=
  let credential := trim_line_ends credential in
  let headers := header_remove "x-api-key" (header_remove "authorization" headers) in
  if host_matches_domain target_host_lower "anthropic.com" then
    if str_starts_with credential_name ANTHROPIC_PLAN_OAUTH_PREFIX
       || bool_decide (credential_name = "anthropic/oauth-token") then
      bearer_value ← header_from_str ("Bearer " +:+ credential);
      headers' ← ensure_anthropic_oauth_beta (header_insert "authorization" bearer_value headers);
      Some (SchemeBearer, headers')
    else
      key ← header_from_str credential;
      Some (SchemeAnthropic, header_insert "x-api-key" key headers)
  else if is_git_transport then
    basic_value ← header_from_str (build_github_basic_auth credential);
    Some (SchemeBasic, header_insert "authorization" basic_value headers)
  else
    bearer_value ← header_from_str ("Bearer " +:+ credential);
    Some (SchemeBearer, header_insert "authorization" bearer_value headers).

Definition is_streaming_upstream (headers : HeaderMap) : bool :=
  let by_type :=
    match header_str "content-type" headers with
    | Some ct =>
        let mime := trim_on (default [] (head (split_on ";"%char (to_bytes ct)))) in
        eq_ignore_ascii_case mime (to_bytes "text/event-stream")
    | None => false
    end in
  if by_type then true
  else match header_str "transfer-encoding" headers with
       | Some te => existsb (λ t, eq_ignore_ascii_case (trim_on t) (to_bytes "chunked"))
                      (split_on ","%char (to_bytes te))
       | None => false
       end.

End Headers.

(** ** The metering body *)

Inductive StreamOutcome := Complete | Partial.

Definition audit_tag (o : StreamOutcome) : string :=
  match o with Complete => "complete" | Partial => "partial" end.

(** What a poll of the upstream body gives: nothing yet, the end, an error, data, or a frame
    without data. *)
Inductive UpstreamPoll := UPending | UEnd | UError | UData (chunk : bytes) | UTrailers.

(** What the client is given. *)
Inductive ClientFrame := FPending | FNone | FError | FData (chunk : bytes) | FTrailers.

(** The upstream body is the sequence of its polls, given one by one; [fired] holds the calls of
    the meter, which are at most one because the callback is taken when it runs. *)
Record TeeBody := {
  parser : AnthropicSseStreamParser;
  bytes_seen : Z;
  cap_bytes : Z;
  meter_armed : bool;
  fired : list (UsageSummary * StreamOutcome);
  terminated : bool;
  cap_exceeded : bool
}.

Definition TeeBody_new (cap : Z) : TeeBody := {|
  parser := new; bytes_seen := 0; cap_bytes := cap; meter_armed := true; fired := [];
  terminated := false; cap_exceeded := false |}.

Definition fire (t : TeeBody) (s : UsageSummary) (o : StreamOutcome) : list (UsageSummary * StreamOutcome) :=
  if meter_armed t then fired t ++ [(s, o)] else fired t.

(** The state after a terminal poll: the summary is taken and the meter runs. *)
Definition terminate (t : TeeBody) (o : StreamOutcome) (capped : bool) : TeeBody :=
  let '(s, parser') := take_summary (parser t) in
  {| parser := parser'; bytes_seen := bytes_seen t; cap_bytes := cap_bytes t; meter_armed := false;
     fired := fire t s o; terminated := true; cap_exceeded := capped || cap_exceeded t |}.

Definition poll_frame {J : JsonText} (t : TeeBody) (up : UpstreamPoll) : TeeBody * ClientFrame :=
  if terminated t then (t, FNone)
  else match up with
       | UPending => (t, FPending)
       | UEnd => (terminate t Complete false, FNone)
       | UError => (terminate t Partial false, FError)
       | UTrailers => (t, FTrailers)
       | UData chunk =>
           let new_total := u64_sat_add (bytes_seen t) (Z.of_nat (length chunk)) in
           if cap_bytes t <? new_total then (terminate t Partial true, FNone)
           else ({| parser := feed (parser t) chunk; bytes_seen := new_total; cap_bytes := cap_bytes t;
                    meter_armed := meter_armed t; fired := fired t; terminated := terminated t;
                    cap_exceeded := cap_exceeded t |}, FData chunk)
       end.

Definition is_end_stream (t : TeeBody) : bool := terminated t.

Definition MAX_STREAMING_RESPONSE_BYTES : Z := 1024 * 1024.

(** A run of the client: polls until it drops the body; dropping runs no code of the body. *)
Fixpoint poll_run {J : JsonText} (t : TeeBody) (ups : list UpstreamPoll) : TeeBody * list ClientFrame :=
  match ups with
  | [] => (t, [])
  | up :: ups' => let '(t', f) := poll_frame t up in let '(t'', fs) := poll_run t' ups' in (t'', f :: fs)
  end.

(** ** Statement resolution *)

Section ResolveExact.
Context {U : UriOps} {P : PercentOps}.
Variables (action res : string) (uri : Uri).

(** The statement is about the request. *)
Definition applies (stmt : Statement) : Prop := action_ok stmt action = true ∧ primary_ok stmt res = true.

(** The statement authorizes the request: it is about it, has no condition, and its branch
    pattern, when it has one, matches the branch named in the URI. *)
Definition authorizes (stmt : Statement) : Prop :=
  applies stmt ∧ conditions stmt = [] ∧
  ∀ g, subtarget_glob (resource stmt) = Some g → subtarget_ok g uri = true.

Definition resolve_spec (l : list (nat * Statement)) (sm cm : option string) (o : ResolveOutcome) : Prop :=
  match o with
  | Match i s => ∃ pre post, l = pre ++ (i, s) :: post ∧ authorizes s ∧ Forall (λ x, ¬ authorizes x.2) pre
  | UnevaluableCondition c =>
      Forall (λ x, ¬ authorizes x.2) l ∧
      (cm = Some c ∨ cm = None ∧ ∃ pre i s post, l = pre ++ (i, s) :: post ∧ applies s ∧
         conditions s ≠ [] ∧ c = summarize_condition_kinds (conditions s) ∧
         Forall (λ x, applies x.2 → conditions x.2 = []) pre)
  | SubtargetMiss g =>
      Forall (λ x, ¬ authorizes x.2) l ∧ cm = None ∧ Forall (λ x, applies x.2 → conditions x.2 = []) l ∧
      (sm = Some g ∨ sm = None ∧ ∃ pre i s post, l = pre ++ (i, s) :: post ∧ applies s ∧
         subtarget_glob (resource s) = Some g ∧ subtarget_ok g uri = false ∧ Forall (λ x, ¬ applies x.2) pre)
  | NoApplicable => cm = None ∧ sm = None ∧ Forall (λ x, ¬ applies x.2) l
  end.

(** The loop skips a statement that does not authorize the request. *)
Lemma resolve_spec_skip x l sm sm' cm cm' o :
  ¬ authorizes x.2 →
  (cm' = cm ∨ cm = None ∧ applies x.2 ∧ conditions x.2 ≠ [] ∧
              cm' = Some (summarize_condition_kinds (conditions x.2))) →
  (sm' = sm ∨ sm = None ∧ ∃ g, applies x.2 ∧ subtarget_glob (resource x.2) = Some g ∧
                                subtarget_ok g uri = false ∧ sm' = Some g) →
  (is_Some cm' ∨ (applies x.2 → conditions x.2 = [])) →
  (is_Some cm' ∨ is_Some sm' ∨ ¬ applies x.2) →
  resolve_spec l sm' cm' o → resolve_spec (x :: l) sm cm o.
Proof.
  intros Hna Hcm Hsm Hc Hs. destruct x as [i s], o as [j t|g|c|]; cbn [resolve_spec snd] in *.
  - intros (pre & post & -> & Ht & Hpre). exists ((i, s) :: pre), post. split_and!; [done|done|by constructor].
  - intros (Hall & -> & Hcs & Hg). destruct Hc as [[? [=]]|Hc]. split; [by constructor|].
    destruct Hcm as [<-|(-> & ? & ? & [=])]. split; [done|]. split; [by constructor|].
    destruct Hsm as [->|(-> & g' & Ha & Hg' & Hko & ->)].
    + destruct Hg as [->|(-> & pre & k & t & post & -> & Ht & Hgt & Hko & Hpre)]; [by left|]. right. split; [done|].
      exists ((i, s) :: pre), k, t, post. split_and!; try done. constructor; [|done].
      destruct Hs as [[? [=]]|[[? [=]]|Hs]]. done.
    + right. split; [done|]. destruct Hg as [[= ->]|([=] & _)].
      exists [], i, s, l. by split_and!.
  - intros (Hall & Hc'). split; [by constructor|].
    destruct Hcm as [->|(-> & Ha & Hne & ->)].
    + destruct Hc' as [->|(-> & pre & k & t & post & -> & Ht & Hne & -> & Hpre)]; [by left|]. right. split; [done|].
      exists ((i, s) :: pre), k, t, post. split_and!; try done. constructor; [|done].
      destruct Hc as [[? [=]]|Hc]. done.
    + right. split; [done|]. destruct Hc' as [[= <-]|([=] & _)]. exists [], i, s, l. by split_and!.
  - intros (-> & -> & Hall). destruct Hcm as [<-|(_ & _ & _ & [=])].
    destruct Hsm as [<-|(_ & ? & _ & _ & _ & [=])]. split_and!; [done|done|]. constructor; [|done].
    destruct Hs as [[? [=]]|[[? [=]]|Hs]]. done.
Qed.

Lemma resolve_loop_spec l sm cm : resolve_spec l sm cm (resolve_loop l action res uri sm cm).
Proof.
  revert sm cm. induction l as [|[i s] l IH]; intros sm cm.
  - cbn. destruct cm, sm; cbn; split_and!; (done || by left || apply Forall_nil_2).
  - cbn [resolve_loop].
    destruct (action_ok s action) eqn:Ha; cbn [negb].
    2: { apply (resolve_spec_skip _ _ _ sm _ cm); try (by left); cbn; unfold authorizes, applies;
           [intros [[??]?]; congruence|right; intros [??]; congruence|right; right; intros [??]; congruence|apply IH]. }
    destruct (primary_ok s res) eqn:Hp; cbn [negb].
    2: { apply (resolve_spec_skip _ _ _ sm _ cm); try (by left); cbn; unfold authorizes, applies;
           [intros [[??]?]; congruence|right; intros [??]; congruence|right; right; intros [??]; congruence|apply IH]. }
    case_bool_decide as Hc; cbn [negb].
    + destruct (subtarget_glob (resource s)) as [g|] eqn:Hg.
      2: { exists [], l. split_and!; [done| |done]. split_and!; [done|done|congruence]. }
      destruct (subtarget_ok g uri) eqn:Hok.
      { exists [], l. split_and!; [done| |done]. split_and!; [done|done|congruence]. }
      apply (resolve_spec_skip _ _ _ (or_else sm (Some g)) _ cm); cbn; [..|apply IH].
      * intros (_ & _ & H). rewrite (H g Hg) in Hok. done.
      * by left.
      * destruct sm; [by left|right]. split; [done|]. by exists g.
      * by right.
      * right. left. by destruct sm.
    + apply (resolve_spec_skip _ _ _ sm _ (or_else cm (Some (summarize_condition_kinds (conditions s)))));
        cbn; [..|apply IH].
      * by intros (_ & H & _).
      * destruct cm; [by left|by right].
      * by left.
      * left. by destruct cm.
      * left. by destruct cm.
Qed.

(** The resolver picks the first statement of the chain, in order, that authorizes the request:
    action and resource agree, it carries no condition, and its branch pattern matches. A denial
    names its cause: a statement about the request with a condition, else one whose branch pattern
    misses, and [NoApplicable] only when no statement is about the request. *)
Theorem resolve_with_uri_exact grant :
  resolve_spec (grant_statements grant) None None
    (resolve_statement_for_request_with_uri grant action res uri).
Proof. apply resolve_loop_spec. Qed.

End ResolveExact.

(** ** Hosts *)

Lemma forward_host_Allow `{A : JsonArrayOps} is_generic_lane allowed_targets target_host :
  authorize_forward_host is_generic_lane allowed_targets target_host = Allow ↔
  match allowed_targets with
  | Some targets =>
      ∃ host pattern, target_host = Some host ∧ pattern ∈ parse_allowed_targets targets ∧
        match strip_prefix_on (to_bytes "*.") (to_bytes pattern) with
        | Some domain => under host (of_bytes domain)
        | None => host = pattern
        end
  | None => is_generic_lane = false
  end.
Proof.
  unfold authorize_forward_host. destruct allowed_targets as [targets|]; [|by destruct is_generic_lane].
  assert (∀ host pattern, entry_matches pattern host = true ↔
            match strip_prefix_on (to_bytes "*.") (to_bytes pattern) with
            | Some domain => under host (of_bytes domain) | None => host = pattern end) as He.
  { intros host pattern. unfold entry_matches. destruct (strip_prefix_on _ _); [apply host_matches_labels|].
    apply bool_decide_eq_true. }
  destruct target_host as [host|]; [|split; [done|naive_solver]].
  destruct (existsb _ _) eqn:Hx.
  - split; [|done]. intros _. apply existsb_exists in Hx as (pattern & Hin & Hm).
    exists host, pattern. split_and!; [done|by apply list_elem_of_In|by apply He].
  - split; [done|]. intros (host' & pattern & [=<-] & Hin & Hm%He). exfalso.
    apply not_true_iff_false in Hx. apply Hx, existsb_exists. exists pattern. by rewrite <-list_elem_of_In.
Qed.

(** The host is allowed exactly when an allowlist entry names it — the very host, or a domain it
    is under after a star — or when the grant has no allowlist and the lane binds the host. *)
Theorem forward_host_exact `{A : JsonArrayOps} is_generic_lane allowed_targets target_host :
  authorize_forward_host is_generic_lane allowed_targets target_host = Allow ↔
  match allowed_targets with
  | Some targets =>
      ∃ host pattern, target_host = Some host ∧ pattern ∈ parse_allowed_targets targets ∧
        match strip_prefix_on (to_bytes "*.") (to_bytes pattern) with
        | Some domain => under host (of_bytes domain)
        | None => host = pattern
        end
  | None => is_generic_lane = false
  end.
Proof. apply forward_host_Allow. Qed.

(** ** Base64 *)

Fixpoint position (c : ascii) (l : bytes) : option Z :=
  match l with
  | [] => None
  | a :: l' => if bool_decide (a = c) then Some 0 else Z.succ <$> position c l'
  end.

(** The decoder of RFC 4648, section 4. *)
Fixpoint base64_decode (l : bytes) : option bytes :=
  match l with
  | [] => Some []
  | a :: b :: c :: d :: rest =>
      x ← position a base64_alphabet;
      y ← position b base64_alphabet;
      if bool_decide (c = equals) then
        if bool_decide (d = equals) && bool_decide (rest = []) then
          Some [ascii_of_N (Z.to_N (x * 4 + y / 16))]
        else None
      else
        z ← position c base64_alphabet;
        if bool_decide (d = equals) then
          if bool_decide (rest = []) then
            Some [ascii_of_N (Z.to_N (x * 4 + y / 16)); ascii_of_N (Z.to_N (y mod 16 * 16 + z / 4))]
          else None
        else
          w ← position d base64_alphabet;
          tail ← base64_decode rest;
          Some (ascii_of_N (Z.to_N (x * 4 + y / 16)) :: ascii_of_N (Z.to_N (y mod 16 * 16 + z / 4))
                :: ascii_of_N (Z.to_N (z mod 4 * 64 + w)) :: tail)
  | _ => None
  end.

Lemma alphabet_position i :
  0 ≤ i < 64 →
  ∃ c, base64_alphabet !! Z.to_nat i = Some c ∧ position c base64_alphabet = Some i ∧ c ≠ equals.
Proof.
  intros Hi. assert (Forall (λ n, ∃ c, base64_alphabet !! n = Some c ∧
    position c base64_alphabet = Some (Z.of_nat n) ∧ c ≠ equals) (seq 0 64)) as Hall.
  { cbn [seq]. repeat constructor; (eexists; split; [reflexivity|]; split; [reflexivity|done]). }
  rewrite Forall_forall in Hall. destruct (Hall (Z.to_nat i)) as (c & Hc & Hp & He).
  { apply elem_of_seq. lia. }
  exists c. rewrite Z2Nat.id in Hp by lia. done.
Qed.

Lemma sextet_value n sh :
  0 ≤ n → 0 ≤ sh →
  position (sextet n sh) base64_alphabet = Some (n / 2 ^ sh mod 64) ∧ sextet n sh ≠ equals.
Proof.
  intros Hn Hsh. unfold sextet. change 63 with (Z.ones 6). rewrite Z.land_ones by lia.
  rewrite Z.shiftr_div_pow2 by done. change (2 ^ 6) with 64.
  destruct (alphabet_position (n / 2 ^ sh mod 64)) as (c & -> & Hp & He); [apply Z.mod_pos_bound; lia|]. done.
Qed.

Lemma u32_of_bound a : 0 ≤ u32_of a < 256.
Proof. unfold u32_of. pose proof (N_ascii_bounded a). lia. Qed.

Lemma ascii_u32 a : ascii_of_N (Z.to_N (u32_of a)) = a.
Proof. unfold u32_of. by rewrite N2Z.id, ascii_N_embedding. Qed.

Lemma lor_shiftl_add x y k : 0 ≤ x → 0 ≤ y < 2 ^ k → 0 ≤ k → Z.lor (Z.shiftl x k) y = x * 2 ^ k + y.
Proof.
  intros Hx Hy Hk. rewrite <-Z.shiftl_mul_pow2 by done. symmetry. apply Z.add_nocarry_lor.
  apply Z.bits_inj'; intros n Hn; rewrite ?Z.land_spec, ?Z.bits_0, ?Z.shiftl_spec by done.
  destruct (Z.lt_ge_cases n k) as [Hlt|Hge].
  - by rewrite Z.testbit_neg_r by lia.
  - destruct (decide (y = 0)) as [->|]; [by rewrite Z.bits_0, andb_false_r|].
    assert (Z.log2 y < k) by (apply Z.log2_lt_pow2; lia). rewrite (Z.bits_above_log2 y n) by lia. apply andb_false_r.
Qed.

Lemma three_bytes a b c :
  0 ≤ a < 256 → 0 ≤ b < 256 → 0 ≤ c < 256 →
  let n := Z.lor (Z.lor (Z.shiftl a 16) (Z.shiftl b 8)) c in
  n = a * 65536 + b * 256 + c.
Proof.
  intros Ha Hb Hc n. subst n. rewrite (Z.shiftl_mul_pow2 b 8) by lia.
  rewrite (lor_shiftl_add a (b * 2 ^ 8) 16) by lia.
  replace (a * 2 ^ 16 + b * 2 ^ 8) with (Z.shiftl (a * 256 + b) 8) by (rewrite Z.shiftl_mul_pow2 by lia; lia).
  rewrite lor_shiftl_add by lia. lia.
Qed.

(** The four sextets of a group give back its bytes. *)
Lemma sextets_bytes n a b c :
  0 ≤ a < 256 → 0 ≤ b < 256 → 0 ≤ c < 256 → n = a * 65536 + b * 256 + c →
  n / 2 ^ 18 mod 64 * 4 + n / 2 ^ 12 mod 64 / 16 = a ∧
  n / 2 ^ 12 mod 64 mod 16 * 16 + n / 2 ^ 6 mod 64 / 4 = b ∧
  n / 2 ^ 6 mod 64 mod 4 * 64 + n / 2 ^ 0 mod 64 = c.
Proof.
  intros Ha Hb Hc ->. change (2 ^ 18) with 262144. change (2 ^ 12) with 4096. change (2 ^ 6) with 64.
  change (2 ^ 0) with 1. split_and!; Z.to_euclidean_division_equations; lia.
Qed.

Lemma base64_roundtrip_step rest :
  base64_decode (base64_std_encode rest) = Some rest →
  ∀ a b c, base64_decode (base64_std_encode (a :: b :: c :: rest)) = Some (a :: b :: c :: rest).
Proof.
  intros IH a b c. pose proof (u32_of_bound a). pose proof (u32_of_bound b). pose proof (u32_of_bound c).
  cbn [base64_std_encode]. cbv zeta. rewrite three_bytes by done.
  set (n := u32_of a * 65536 + u32_of b * 256 + u32_of c).
  destruct (sextets_bytes n (u32_of a) (u32_of b) (u32_of c)) as (E1 & E2 & E3); try done.
  assert (0 ≤ n) as Hn by lia. cbn [base64_decode].
  destruct (sextet_value n 18 Hn ltac:(lia)) as [-> _]. destruct (sextet_value n 12 Hn ltac:(lia)) as [-> _].
  destruct (sextet_value n 6 Hn ltac:(lia)) as [-> H6]. destruct (sextet_value n 0 Hn ltac:(lia)) as [-> Hs0].
  cbn [mbind option_bind]. rewrite !bool_decide_eq_false_2 by done. cbn [mbind option_bind].
  rewrite IH. cbn [mbind option_bind]. by rewrite E1, E2, E3, !ascii_u32.
Qed.

(** Standard base64 decoding gives back the encoded bytes, at every length. *)
Theorem base64_roundtrip input : base64_decode (base64_std_encode input) = Some input.
Proof.
  induction input as [[|a [|b [|c rest]]] IH] using (induction_ltof1 _ (@length ascii)); unfold ltof in IH.
  - done.
  - pose proof (u32_of_bound a). cbn [base64_std_encode]. cbv zeta. rewrite Z.shiftl_mul_pow2 by lia.
    set (n := u32_of a * 2 ^ 16). assert (0 ≤ n) as Hn by lia.
    destruct (sextets_bytes n (u32_of a) 0 0) as (E1 & _); [lia..|]. cbn [base64_decode].
    destruct (sextet_value n 18 Hn ltac:(lia)) as [-> _]. destruct (sextet_value n 12 Hn ltac:(lia)) as [-> _].
    cbn [mbind option_bind]. rewrite !bool_decide_eq_true_2 by done. cbn [andb]. by rewrite E1, ascii_u32.
  - pose proof (u32_of_bound a). pose proof (u32_of_bound b). cbn [base64_std_encode]. cbv zeta.
    set (n := Z.lor (Z.shiftl (u32_of a) 16) (Z.shiftl (u32_of b) 8)).
    assert (n = u32_of a * 65536 + u32_of b * 256 + 0) as En.
    { rewrite <-three_bytes by lia. by rewrite Z.lor_0_r. }
    assert (0 ≤ n) as Hn by lia.
    destruct (sextets_bytes n (u32_of a) (u32_of b) 0) as (E1 & E2 & _); [lia..|done|]. cbn [base64_decode].
    destruct (sextet_value n 18 Hn ltac:(lia)) as [-> _]. destruct (sextet_value n 12 Hn ltac:(lia)) as [-> _].
    destruct (sextet_value n 6 Hn ltac:(lia)) as [-> H6]. cbn [mbind option_bind].
    rewrite (bool_decide_eq_false_2 (sextet n 6 = equals)), !bool_decide_eq_true_2 by done.
    cbn [mbind option_bind]. by rewrite E1, E2, !ascii_u32.
  - apply base64_roundtrip_step, IH. cbn. lia.
Qed.

(** ** Headers *)

(** The documented behaviour of the header map. *)
Class HeaderLaws (H : HeaderOps) := {
  values_empty n : header_values n header_empty = [];
  values_append n k v m :
    header_values n (header_append k v m) = header_values n m ++ (if decide (n = k) then [v] else []);
  values_insert n k v m :
    header_values n (header_insert k v m) = if decide (n = k) then [v] else header_values n m;
  values_remove n k m :
    header_values n (header_remove k m) = if decide (n = k) then [] else header_values n m
}.

Section HeaderLemmas.
Context {H : HeaderOps} {L : HeaderLaws H}.

Lemma filter_headers_values n builder src :
  header_values n (filter_request_headers builder src) =
  header_values n builder ++ (if decide (n ∈ ALLOWED_REQUEST_HEADERS) then header_values n src else []).
Proof.
  unfold filter_request_headers, header_values at 3. generalize (header_entries src). intros l. revert builder.
  induction l as [|[k v] l IH]; intros b; cbn [foldl].
  - case_decide; by rewrite app_nil_r.
  - rewrite IH. cbn [fst snd]. rewrite filter_cons. cbn [fst].
    case_bool_decide as Hk; [rewrite values_append|]; repeat case_decide; subst; cbn;
      rewrite ?app_nil_r; try done; by rewrite <-(assoc_L (++)).
Qed.

Lemma oauth_beta_values h h' n :
  ensure_anthropic_oauth_beta h = Some h' → n ≠ "anthropic-beta" → header_values n h' = header_values n h.
Proof.
  intros Hb Hn. unfold ensure_anthropic_oauth_beta in Hb.
  assert (∀ v, header_values n (header_insert "anthropic-beta" v h) = header_values n h) as Hi.
  { intros v. by rewrite values_insert, decide_False. }
  destruct (header_get _ h) as [e|].
  - destruct (header_to_str e) as [t|]; [|done]. cbn in Hb. destruct (existsb _ _); [by injection Hb as <-|].
    destruct (str_is_empty _), (header_from_str _); (done || injection Hb as <-; apply Hi).
  - destruct (header_from_str _); (done || injection Hb as <-; apply Hi).
Qed.

(** The text of the one authentication header of a scheme. *)
Definition auth_text (s : AuthScheme) (credential : string) : string :=
  match s with
  | SchemeAnthropic => credential
  | SchemeBasic => build_github_basic_auth credential
  | SchemeBearer => "Bearer " +:+ credential
  end.

(** The outgoing request carries the vault's credential and nothing of the client's in its place:
    exactly one of [authorization] and [x-api-key] is present, with the vault's value in the form
    the scheme demands; every other header is one of the allowlist with the client's own values,
    the beta marker of OAuth credentials apart; all other headers of the client are gone. *)
Theorem outgoing_headers_exact src host is_git name credential scheme h :
  inject_provider_auth (filter_request_headers header_empty src) host is_git name credential = Some (scheme, h) →
  (∃ v, header_from_str (auth_text scheme (trim_line_ends credential)) = Some v ∧
        header_values "authorization" h = (if decide (scheme = SchemeAnthropic) then [] else [v]) ∧
        header_values "x-api-key" h = (if decide (scheme = SchemeAnthropic) then [v] else [])) ∧
  ∀ n, n ∉ ["authorization"; "x-api-key"; "anthropic-beta"] →
       header_values n h = if decide (n ∈ ALLOWED_REQUEST_HEADERS) then header_values n src else [].
Proof.
  unfold inject_provider_auth. set (h0 := header_remove "x-api-key" _).
  assert (header_values "authorization" h0 = [] ∧ header_values "x-api-key" h0 = []) as [Ha Hx].
  { subst h0. by rewrite !values_remove. }
  assert (∀ n, n ∉ ["authorization"; "x-api-key"; "anthropic-beta"] → header_values n h0 =
            if decide (n ∈ ALLOWED_REQUEST_HEADERS) then header_values n src else []) as Hn.
  { intros n Hn. subst h0. rewrite !values_remove, !decide_False by set_solver.
    by rewrite filter_headers_values, values_empty. }
  assert (∀ v, let h1 := header_insert "authorization" v h0 in
            header_values "authorization" h1 = [v] ∧ header_values "x-api-key" h1 = [] ∧
            ∀ n, n ∉ ["authorization"; "x-api-key"; "anthropic-beta"] → header_values n h1 = header_values n h0)
    as Hauth.
  { intros v h1. subst h1. split_and!; [by rewrite values_insert|by rewrite values_insert|].
    intros n ?. rewrite values_insert, decide_False by set_solver. done. }
  destruct (host_matches_domain host "anthropic.com").
  - destruct (_ || _).
    + destruct (header_from_str _) as [v|] eqn:Hv; [|done]. cbn [mbind option_bind].
      destruct (ensure_anthropic_oauth_beta _) as [h'|] eqn:Hb; [|done]. intros [=<- <-].
      destruct (Hauth v) as (Ha' & Hx' & Hn'). split.
      * exists v. rewrite !(oauth_beta_values _ _ _ Hb) by done. by split_and!.
      * intros n Hin. rewrite (oauth_beta_values _ _ _ Hb) by set_solver. by rewrite Hn', Hn.
    + destruct (header_from_str _) as [v|] eqn:Hv; [|done]. intros [=<- <-]. split.
      * exists v. split_and!; [done|by rewrite values_insert|by rewrite values_insert].
      * intros n Hin. rewrite values_insert, decide_False by set_solver. by apply Hn.
  - destruct is_git; destruct (header_from_str _) as [v|] eqn:Hv; try done; intros [=<- <-];
      destruct (Hauth v) as (Ha' & Hx' & Hn'); (split; [by exists v|]; intros n Hin; by rewrite Hn', Hn).
Qed.

End HeaderLemmas.

(** ** Budgets before a call *)

Lemma estimate_nonneg `{J : JsonText} body : 0 ≤ estimate_call_tokens body.
Proof.
  unfold estimate_call_tokens, estimate_call_tokens_split.
  assert (0 ≤ Z.of_nat (length body) / 4) by (apply Z.div_pos; lia).
  assert (∀ k v z, get_u64 k v = Some z → 0 ≤ z) as Hg.
  { intros k v z. unfold get_u64. destruct (jget k v) as [[]|]; try done. cbn.
    unfold parse_u64. destruct (parse_integer 0 u64_max n) eqn:E; [|done]. intros [=<-].
    apply parse_integer_bounds in E; unfold u64_max in *; lia. }
  unfold u64_sat_add, u64_max. destruct (json_from_slice body) as [v|]; [|unfold DEFAULT_MAX_OUTPUT; lia].
  assert (0 ≤ default DEFAULT_MAX_OUTPUT (or_else (get_u64 "max_completion_tokens" v) (get_u64 "max_tokens" v))); [|lia].
  destruct (get_u64 "max_completion_tokens" v) eqn:E1; cbn; [by eapply Hg|].
  destruct (get_u64 "max_tokens" v) eqn:E2; cbn; [by eapply Hg|unfold DEFAULT_MAX_OUTPUT; lia].
Qed.

Lemma cents_checked cap u :
  (if 0 <? u_cents_micro u then u64_sat_mul cap 1000000 <=? u_cents_micro u else cap <=? u_cents u) =
  cents_exhausted (Some cap) u.
Proof. done. Qed.

(** The check before a call, exactly. It admits the call when the tokens used so far and the
    estimate stay within the token budget, with no loss to saturation, and the cents budget is not
    yet exhausted; a refusal names an axis whose budget really is used up, tokens first, with its
    limit and the usage on record. *)
Theorem preflight_exact `{J : JsonText} stmt body :
  in_u64 (u_tokens (usage stmt)) →
  (∀ b cap, budget stmt = Some b → b_tokens b = Some cap → cap < u64_max) →
  match preflight_budget_check stmt body with
  | Allowed =>
      ∀ b, budget stmt = Some b →
        (∀ cap, b_tokens b = Some cap → u_tokens (usage stmt) + estimate_call_tokens body ≤ cap) ∧
        cents_exhausted (b_cents b) (usage stmt) = false
  | Rejected axis limit used =>
      ∃ b, budget stmt = Some b ∧
        ((axis = "tokens" ∧ b_tokens b = Some limit ∧ used = u_tokens (usage stmt) ∧
          limit < used + estimate_call_tokens body) ∨
         (axis = "cents" ∧ b_cents b = Some limit ∧ used = u_cents (usage stmt) ∧
          cents_exhausted (b_cents b) (usage stmt) = true ∧
          ∀ cap, b_tokens b = Some cap → u_tokens (usage stmt) + estimate_call_tokens body ≤ cap))
  end.
Proof.
  intros Hu Hcap. unfold preflight_budget_check. destruct (budget stmt) as [b|] eqn:Hb; [|by intros ? [=]].
  pose proof (estimate_nonneg body) as He. unfold in_u64 in Hu.
  destruct (b_tokens b) as [cap|] eqn:Ht.
  - specialize (Hcap b cap eq_refl Ht). unfold u64_sat_add.
    destruct (Z.ltb_spec cap (Z.min (u_tokens (usage stmt) + estimate_call_tokens body) u64_max)) as [Hlt|Hge].
    { exists b. split; [done|]. left. split_and!; try done. lia. }
    assert (∀ cap', Some cap = Some cap' → u_tokens (usage stmt) + estimate_call_tokens body ≤ cap') as Htok
      by (intros ? [=<-]; lia).
    destruct (b_cents b) as [c|] eqn:Hc; [rewrite cents_checked; destruct (cents_exhausted (Some c) _) eqn:Hx|].
    + exists b. rewrite Hc, Ht. split; [done|]. right. by split_and!.
    + intros ? [=<-]. by rewrite Hc, Ht.
    + intros ? [=<-]. by rewrite Hc, Ht.
  - destruct (b_cents b) as [c|] eqn:Hc; [rewrite cents_checked; destruct (cents_exhausted (Some c) _) eqn:Hx|].
    + exists b. rewrite Hc, Ht. split; [done|]. right. by split_and!.
    + intros ? [=<-]. by rewrite Hc, Ht.
    + intros ? [=<-]. by rewrite Hc, Ht.
Qed.

(** ** The metering body *)

Section Tee.
Context {J : JsonText}.

Definition client_data (fs : list ClientFrame) : list bytes :=
  omap (λ f, match f with FData c => Some c | _ => None end) fs.

Definition total_len (l : list bytes) : Z := Z.of_nat (length (concat l)).

Lemma total_len_app l k : total_len (l ++ k) = total_len l + total_len k.
Proof. unfold total_len. rewrite concat_app, length_app. lia. Qed.

Lemma total_len_nonneg l : 0 ≤ total_len l.
Proof. unfold total_len. lia. Qed.

(** The state of a body that has given [data] to the client. *)
Definition tee_inv (cap : Z) (t : TeeBody) (data : list bytes) : Prop :=
  cap_bytes t = cap ∧ bytes_seen t = total_len data ∧ total_len data ≤ cap ∧
  meter_armed t = negb (terminated t) ∧
  if terminated t
  then ∃ o, fired t = [(summary (foldl feed new data), o)]
  else fired t = [] ∧ parser t = foldl feed new data.

Lemma tee_inv_new cap : 0 ≤ cap → tee_inv cap (TeeBody_new cap) [].
Proof. by intros ?. Qed.

Lemma tee_inv_terminate cap t data o capped :
  terminated t = false → tee_inv cap t data → tee_inv cap (terminate t o capped) data.
Proof.
  intros Ht (H1 & H2 & H3 & H4 & H5). rewrite Ht in H4, H5. destruct H5 as [Hf Hp].
  unfold tee_inv, terminate, take_summary, fire. cbn. rewrite H4, Hf, Hp. cbn. split_and!; eauto.
Qed.

Lemma tee_inv_poll cap t data up :
  cap < u64_max → tee_inv cap t data →
  tee_inv cap (poll_frame t up).1 (data ++ client_data [(poll_frame t up).2]).
Proof.
  intros Hcap Hinv. unfold poll_frame. destruct (terminated t) eqn:Ht.
  { cbn. by rewrite app_nil_r. }
  destruct up as [| | |chunk|]; cbn [fst snd]; unfold client_data; cbn [omap list_omap]; rewrite ?app_nil_r;
    [done|by apply tee_inv_terminate|by apply tee_inv_terminate| |done].
  pose proof Hinv as (H1 & H2 & H3 & H4 & H5). rewrite H1, H2. rewrite Ht in H4, H5. destruct H5 as [Hf Hp].
  pose proof (total_len_nonneg data). unfold u64_sat_add.
  assert (total_len [chunk] = Z.of_nat (length chunk)) as Hl by (unfold total_len; cbn; by rewrite app_nil_r).
  destruct (Z.ltb_spec cap (Z.min (total_len data + Z.of_nat (length chunk)) u64_max)) as [Hlt|Hge];
    cbn [fst snd omap list_omap]; rewrite ?app_nil_r; [by apply tee_inv_terminate|].
  unfold tee_inv. cbn. rewrite total_len_app, Hl, H4, Hf, Hp, foldl_app. cbn. split_and!; (done || lia).
Qed.

Lemma tee_inv_run cap t data ups :
  cap < u64_max → tee_inv cap t data →
  tee_inv cap (poll_run t ups).1 (data ++ client_data (poll_run t ups).2).
Proof.
  intros Hcap. revert t data. induction ups as [|up ups IH]; intros t data Hinv; cbn.
  { by rewrite app_nil_r. }
  pose proof (tee_inv_poll cap t data up Hcap Hinv) as H. destruct (poll_frame t up) as [t' f] eqn:E.
  specialize (IH t' _ H). destruct (poll_run t' ups) as [t'' fs]. cbn [fst snd] in *.
  assert (client_data (f :: fs) = client_data [f] ++ client_data fs) as ->; [|by rewrite (assoc_L (++))].
  unfold client_data. cbn. by destruct f.
Qed.

(** Whatever the upstream sends and however often the client polls, the client is given at most
    the cap, and a body that came to its end has run the meter exactly once, with the summary of
    the very bytes it gave to the client; one that has not, never. *)
Theorem tee_meters_once cap ups :
  0 ≤ cap < u64_max →
  let '(t, fs) := poll_run (TeeBody_new cap) ups in
  total_len (client_data fs) ≤ cap ∧
  if terminated t then ∃ o, fired t = [(summary (foldl feed new (client_data fs)), o)] else fired t = [].
Proof.
  intros [H0 Hcap]. pose proof (tee_inv_run cap _ [] ups Hcap (tee_inv_new cap H0)) as Hinv.
  destruct (poll_run _ ups) as [t fs]. cbn [fst snd app] in Hinv.
  destruct Hinv as (_ & _ & Hle & _ & H). split; [done|]. by destruct (terminated t); [|destruct H].
Qed.

(** A poll that does not end the body. *)
Definition open_poll (up : UpstreamPoll) : Prop := match up with UEnd | UError => False | _ => True end.

Definition upstream_data (ups : list UpstreamPoll) : list bytes :=
  omap (λ u, match u with UData c => Some c | _ => None end) ups.

Lemma open_run t ups :
  cap_bytes t < u64_max → terminated t = false → 0 ≤ bytes_seen t → Forall open_poll ups →
  bytes_seen t + total_len (upstream_data ups) ≤ cap_bytes t →
  fired (poll_run t ups).1 = fired t ∧ client_data (poll_run t ups).2 = upstream_data ups.
Proof.
  intros Hcap Ht H0 Hup. revert t Hcap Ht H0. induction Hup as [|up ups Hu _ IH]; intros t Hcap Ht H0 Hle; [done|].
  cbn [poll_run]. unfold poll_frame. rewrite Ht. destruct up as [| | |chunk|]; try done.
  - specialize (IH t Hcap Ht H0 Hle). by destruct (poll_run t ups) as [t'' fs].
  - assert (total_len (upstream_data (UData chunk :: ups)) = Z.of_nat (length chunk) + total_len (upstream_data ups))
      as Hlen by (unfold upstream_data, total_len; cbn; rewrite length_app; lia).
    rewrite Hlen in Hle. pose proof (total_len_nonneg (upstream_data ups)).
    assert (u64_sat_add (bytes_seen t) (Z.of_nat (length chunk)) = bytes_seen t + Z.of_nat (length chunk)) as Hsat
      by (unfold u64_sat_add; lia).
    rewrite Hsat, (proj2 (Z.ltb_ge _ _)) by lia.
    set (t' := Build_TeeBody _ _ _ _ _ _ _). destruct (IH t') as [IH1 IH2]; subst t'; cbn; try (done || lia).
    destruct (poll_run _ ups) as [t'' fs]. cbn [fst snd] in *. split; [done|]. unfold client_data, upstream_data in *.
    cbn. by rewrite IH2.
  - specialize (IH t Hcap Ht H0 Hle). by destruct (poll_run t ups) as [t'' fs].
Qed.

(** A client that drops the body before the upstream closes it has been given every byte of the
    response and is not metered, however much usage the bytes reported: the meter runs only in a
    poll that sees the end, an error or the cap, and dropping the body runs nothing. *)
Theorem dropped_stream_unmetered cap ups :
  0 ≤ cap < u64_max → Forall open_poll ups → total_len (upstream_data ups) ≤ cap →
  let '(t, fs) := poll_run (TeeBody_new cap) ups in
  client_data fs = upstream_data ups ∧ fired t = [].
Proof.
  intros [H0 Hcap] Hup Hle. destruct (open_run (TeeBody_new cap) ups) as [H1 H2]; cbn; try (done || lia).
  by destruct (poll_run _ ups) as [t fs].
Qed.

End Tee.

(** ** A concrete header map *)

Module ToyHeaders.

Definition visible (a : ascii) : bool :=
  let n := N_of_ascii a in ((32 <=? n)%N && (n <? 127)%N) || (n =? 9)%N.

#[export] Instance ops : HeaderOps := {|
  HeaderMap := list (string * string);
  HeaderValue := string;
  header_entries m := m;
  header_empty := [];
  header_append k v m := m ++ [(k, v)];
  header_insert k v m := filter (λ nv, nv.1 ≠ k) m ++ [(k, v)];
  header_remove k m := filter (λ nv, nv.1 ≠ k) m;
  header_from_static s := s;
  header_from_str s := if forallb visible (to_bytes s) then Some s else None;
  header_to_str v := if forallb visible (to_bytes v) then Some v else None
|}.

Lemma values_app n (m m' : list (string * string)) :
  snd <$> filter (λ nv, nv.1 = n) (m ++ m') =
  (snd <$> filter (λ nv, nv.1 = n) m) ++ (snd <$> filter (λ nv, nv.1 = n) m').
Proof. by rewrite filter_app, fmap_app. Qed.

Lemma values_filter n k (m : list (string * string)) :
  snd <$> filter (λ nv, nv.1 = n) (filter (λ nv, nv.1 ≠ k) m) =
  if decide (n = k) then [] else snd <$> filter (λ nv, nv.1 = n) m.
Proof.
  induction m as [|[a v] m IH]; [by case_decide|]. rewrite (filter_cons _ (a, v) m). cbn [fst].
  destruct (decide (a ≠ k)) as [Hk|Hk%dec_stable]; rewrite ?filter_cons; cbn [fst].
  - destruct (decide (a = n)) as [->|]; [|by rewrite IH]. rewrite !fmap_cons, IH.
    by rewrite !decide_False by done.
  - subst k. rewrite IH. destruct (decide (n = a)) as [->|]; [done|]. by rewrite decide_False.
Qed.

Lemma values_one n k (v : string) :
  snd <$> filter (λ nv : string * string, nv.1 = n) [(k, v)] = if decide (n = k) then [v] else [].
Proof. rewrite filter_cons. cbn [fst]. repeat case_decide; subst; (done || congruence). Qed.

#[export] Instance laws : HeaderLaws ops.
Proof.
  constructor; unfold header_values; cbn.
  - done.
  - intros. by rewrite values_app, values_one.
  - intros. rewrite values_app, values_one, values_filter. by destruct (decide _); rewrite ?app_nil_r.
  - intros. apply values_filter.
Qed.

End ToyHeaders.

(** ** Witnesses *)

Import ToyStream ToyHeaders.

Lemma outgoing_headers_exact_witness :
  let src := [("accept", "*/*"); ("authorization", "Bearer stolen"); ("cookie", "a=b")] in
  ∃ h, inject_provider_auth (filter_request_headers [] src) "api.github.com" false "github/pat" "s3cret" =
         Some (SchemeBearer, h) ∧
       header_values "accept" h = ["*/*"] ∧ header_values "cookie" h = [].
Proof.
  intros src. eexists. split; [reflexivity|].
  pose proof (outgoing_headers_exact src "api.github.com" false "github/pat" "s3cret" SchemeBearer _ eq_refl)
    as [_ H].
  split; [exact (H "accept" ltac:(set_solver))|exact (H "cookie" ltac:(set_solver))].
Defined.

Definition budgeted (tokens : Z) : Statement :=
  mkStatement "s" Credential ["llm:generate"] Any (Some (mkBudget (Some tokens) None None None None))
    Usage_default [] None.

Lemma preflight_exact_witness :
  preflight_budget_check (budgeted 100) (to_bytes "{start}") = Rejected "tokens" 100 0 ∧
  100 < 0 + estimate_call_tokens (to_bytes "{start}").
Proof.
  split; [by vm_compute|].
  pose proof (preflight_exact (budgeted 100) (to_bytes "{start}")) as H.
  assert (preflight_budget_check (budgeted 100) (to_bytes "{start}") = Rejected "tokens" 100 0) as E by by vm_compute.
  rewrite E in H. destruct H as (b & _ & [(_ & _ & Hu & Hl)|(Ha & _)]).
  - cbn. unfold in_u64, u64_max. lia.
  - cbn. intros b cap [=<-] [=<-]. unfold u64_max. lia.
  - exact Hl.
  - done.
Defined.

Lemma tee_meters_once_witness :
  let '(t, fs) := poll_run (TeeBody_new 100) [UData start_frame; UPending; UData stop_frame; UEnd; UEnd] in
  terminated t = true ∧ ∃ o, fired t = [(summary (foldl feed new (client_data fs)), o)].
Proof.
  pose proof (tee_meters_once 100 [UData start_frame; UPending; UData stop_frame; UEnd; UEnd]
                ltac:(unfold u64_max; lia)) as H.
  assert (terminated (poll_run (TeeBody_new 100)
            [UData start_frame; UPending; UData stop_frame; UEnd; UEnd]).1 = true) as Ht by by vm_compute.
  destruct (poll_run _ _) as [t fs]. cbn [fst] in Ht. split; [done|]. rewrite Ht in H. exact (proj2 H).
Defined.

(** The stream reports a thousand input tokens and its end, and is read to the last byte. *)
Lemma dropped_stream_unmetered_witness :
  input_tokens (summary (foldl feed new [start_frame; stop_frame])) = 1000 ∧
  saw_message_stop (summary (foldl feed new [start_frame; stop_frame])) = true ∧
  let '(t, fs) := poll_run (TeeBody_new MAX_STREAMING_RESPONSE_BYTES) [UData start_frame; UData stop_frame] in
  client_data fs = [start_frame; stop_frame] ∧ fired t = [].
Proof.
  split; [by vm_compute|]. split; [by vm_compute|].
  apply (dropped_stream_unmetered MAX_STREAMING_RESPONSE_BYTES [UData start_frame; UData stop_frame]);
    [unfold MAX_STREAMING_RESPONSE_BYTES, u64_max; lia|by repeat constructor|by vm_compute].
Defined.
