(* ===== verification/ProxyDaemon.v ===== *)
(** * The daemon behind the proxy

    crates/ember-daemon: the lookups of the grant table that decide a proxied request
    (src/trust/grant.rs, src/trust/grant_projection.rs, src/infra/persona.rs) and the daemon's
    [PolicyBackend] (src/infra/proxy.rs). The tables are lists of rows, a JSON column is its
    decoded value, a timestamp column its instant in seconds. The clock, the leases and the signing of legacy rows are parts of the store
    record; the theorems hold for all of them. *)

From stdpp Require Import base list relations sets strings.
From Stdlib Require Import Ascii Lia.
From S2P Require Import Prelude CoreTypes Numbers GrantTypes Attenuation ChainCrypto UseTime Materialize BranchGlob Ssrf ProxyMatch Metering OutboundLeak ProxyPolicy ProxyForward.

Local Infix "+:+" := String.append (at level 60, right associativity).
Local Open Scope Z_scope.

(** ** Tables *)

Record GrantRow := mkRow {
  r_id : string;
  r_persona_id : string;
  r_credential_name : string;
  r_scope : string;
  r_created_at : Z;
  r_expires_at : option Z;
  r_status : string;
  r_allowed_hours_start : option Z;
  r_allowed_hours_end : option Z;
  r_allowed_targets : option string;
  r_parent_grant_id : option string;
  r_blocks_json : option (list SignedBlock);
  r_revoked_sids_json : option (list string);
  r_max_delegation_depth : option Z;
  r_budget_json : option Budget;
  r_usage_json : option Usage;
  r_paused : bool;
  r_is_standing : bool;
  r_max_children_per_day : option Z;
  r_receipt_id : option string
}.

Record PersonaRow := mkPersona {
  p_id : string; p_public_key : string; p_parent_grant_id : option string; p_status : string }.

(** The errors of the operations that are modelled. *)
Inductive StoreError :=
| SE_Sqlite (msg : string)
| SE_NotFound
| SE_InvalidInput (msg : string)
| SE_DelegationViolation (reason : string)
| SE_Vault (msg : string)
| SE_AlreadyResolved
| SE_CompositeStatementsTampered
| SE_Unauthorized.

Definition StoreError_display (e : StoreError) : string :=
  match e with
  | SE_Sqlite m => "database error: " +:+ m
  | SE_NotFound => "not found"
  | SE_InvalidInput m => "invalid input: " +:+ m
  | SE_DelegationViolation reason => "delegation violation: " +:+ reason
  | SE_Vault m => "vault error: " +:+ m
  | SE_AlreadyResolved => "approval already resolved"
  | SE_CompositeStatementsTampered =>
      "composite statements integrity violation: stored hash does not match"
  | SE_Unauthorized => "unauthorized"
  end.

(** The store, with the instant it is read at: the second and the hour of the day in UTC. The last
    two fields are the lease registry's answer at that instant, and the signed projection of rows
    that have no stored chain. *)
Record DaemonStore := mkStore {
  grants : list GrantRow;
  personas : list PersonaRow;
  now_secs : Z;
  current_hour : Z;
  has_live_lease : string → bool;
  project_access_grant : GrantRow → result AccessGrant StoreError
}.

(** [SELECT ... WHERE id = ?1] *)
Definition row_by_id (s : DaemonStore) (id : string) : option GrantRow :=
  List.find (λ r, bool_decide (r_id r = id)) (grants s).

(** The status of a row as it is read: a terminal status stays, any other is derived with the
    expiry. *)
Definition effective_row_status (s : DaemonStore) (r : GrantRow) : string :=
  if bool_decide (r_status r ∈ ["revoked"; "abandoned"; "expired"; "exhausted_by_budget";
                                "expired_by_budget"; "parent_cascade_revoked"])
  then r_status r
  else GrantStatus_as_str (GrantStatus_derive (r_status r) None (r_expires_at r) (now_secs s)).

Definition get_grant (s : DaemonStore) (id : string) : result GrantRow StoreError :=
  match row_by_id s id with Some r => Ok r | None => Err SE_NotFound end.

(** Within the hours of the day a grant may be used in. *)
Definition in_hours (s : DaemonStore) (r : GrantRow) : bool :=
  match r_allowed_hours_start r, r_allowed_hours_end r with
  | Some start, Some end_ =>
      if start <=? end_ then (start <=? current_hour s) && (current_hour s <? end_)
      else (start <=? current_hour s) || (current_hour s <? end_)
  | _, _ => true
  end.

Definition evaluate_grant (s : DaemonStore) (persona_id credential_name : string)
  : result GrantRow StoreError :=
  match List.find (λ r, bool_decide (r_persona_id r = persona_id)
                        && bool_decide (r_credential_name r = credential_name)
                        && bool_decide (r_status r = "active")
                        && match r_expires_at r with Some e => now_secs s <? e | None => true end)
          (grants s) with
  | None => Err SE_NotFound
  | Some r =>
      if negb (in_hours s r) then
        Err (SE_InvalidInput ("outside allowed hours ("
               +:+ u64_to_string (default 0 (r_allowed_hours_start r)) +:+ ":00-"
               +:+ u64_to_string (default 0 (r_allowed_hours_end r)) +:+ ":00 UTC)"))
      else Ok r
  end.

(** ** Chains *)

Section Store.
Context {Cr : CryptoOps}.

Definition get_persona_root_pubkey_bytes (s : DaemonStore) (persona_id : string) : option bytes :=
  match List.find (λ p, bool_decide (p_id p = persona_id)) (personas s) with
  | None => None
  | Some p => match root_pubkey_bytes_from_ed25519_hex (p_public_key p) with Ok b => Some b | Err _ => None end
  end.

Definition verify_and_return (s : DaemonStore) (grant : AccessGrant) : result AccessGrant StoreError :=
  match get_persona_root_pubkey_bytes s (g_issuing_persona_id grant) with
  | None =>
      let is_phase1 := match g_blocks grant with
                       | [sb] => bool_decide (signature sb = UNSIGNED_PHASE1_PLACEHOLDER)
                       | _ => false
                       end in
      if is_phase1 then Ok grant
      else Err (SE_InvalidInput ("grant chain verification failed: persona '" +:+ g_issuing_persona_id grant
                  +:+ "' not found and grant is not a phase-1 placeholder"))
  | Some root_pubkey =>
      match verify_chain (g_blocks grant) root_pubkey with
      | Ok _ => Ok grant
      | Err e => Err (SE_InvalidInput ("grant chain verification failed: " +:+ ChainError_display e))
      end
  end.

Definition get_access_grant (s : DaemonStore) (id : string) : result AccessGrant StoreError :=
  let? info := get_grant s id in
  match r_blocks_json info with
  | Some (first :: rest) =>
      let blocks := first :: rest in
      let is_delegated := bool_decide (is_Some (r_parent_grant_id info)) in
      let consistency_ok :=
        if is_delegated
        then bool_decide (issued_by (block (List.last blocks first)) = r_persona_id info)
        else bool_decide (issued_by (block first) = r_persona_id info) in
      if negb consistency_ok then
        let? projected := project_access_grant s info in verify_and_return s projected
      else
        verify_and_return s
          (mkGrant (r_id info) 1 (issued_by (block first)) Service (r_credential_name info) RP_Agent
             (default Active (GrantStatus_parse (effective_row_status s info))) OneShot blocks
             AttestationBinding_default (r_created_at info) (r_created_at info) None None None None)
  | _ => let? projected := project_access_grant s info in verify_and_return s projected
  end.

(** ** Revocation *)

Definition get_revoked_sids_for_grant (s : DaemonStore) (grant_id : string) : list string :=
  default [] (row_by_id s grant_id ≫= r_revoked_sids_json).

Definition MAX_PARENT_PERSONA_CHAIN_HOPS : nat := 3.

Fixpoint persona_chain_loop (fuel : nat) (s : DaemonStore) (seen : list string) (current : string)
  : list string :=
  match fuel with
  | O => []
  | S fuel' =>
      if bool_decide (current ∈ seen) then []
      else current ::
        match List.find (λ p, bool_decide (p_id p = current)) (personas s) ≫= p_parent_grant_id with
        | None => []
        | Some parent_grant_id =>
            match row_by_id s parent_grant_id with
            | None => []
            | Some g => persona_chain_loop fuel' s (current :: seen) (r_persona_id g)
            end
        end
  end.

Definition parent_persona_chain (s : DaemonStore) (persona_id : string) : result (list string) StoreError :=
  match List.find (λ p, bool_decide (p_id p = persona_id)) (personas s) with
  | None => Err SE_NotFound
  | Some _ => Ok (persona_chain_loop MAX_PARENT_PERSONA_CHAIN_HOPS s [] persona_id)
  end.

(** The set as a list; its order and repetitions do not matter to the callers. *)
Definition get_revoked_sids (s : DaemonStore) (grant_id : string) : list string :=
  let own := get_revoked_sids_for_grant s grant_id in
  match row_by_id s grant_id with
  | None => own
  | Some r =>
      let chain := match parent_persona_chain s (r_persona_id r) with
                   | Ok c => c | Err _ => [r_persona_id r] end in
      own ++ mjoin ((λ ancestor,
        mjoin ((λ g, get_revoked_sids_for_grant s (r_id g))
                 <$> List.filter (λ g, bool_decide (r_persona_id g = ancestor)) (grants s))) <$> chain)
  end.

Definition MAX_ANCESTRY_WALK : nat := 256.

Fixpoint ancestor_loop (fuel : nat) (s : DaemonStore) (seen : list string) (current : string) : list string :=
  match fuel with
  | O => []
  | S fuel' =>
      match row_by_id s current ≫= r_parent_grant_id with
      | Some p =>
          if negb (str_is_empty p) && negb (bool_decide (p ∈ seen))
          then p :: ancestor_loop fuel' s (p :: seen) p else []
      | None => []
      end
  end.

Definition store_ancestor_ids (s : DaemonStore) (grant_id : string) : list string :=
  ancestor_loop MAX_ANCESTRY_WALK s [grant_id] grant_id.

Definition bare_status_grant (id : string) (status : GrantStatus) (revoked_at : option Z) : AccessGrant :=
  mkGrant id 1 "" Service "" RP_Agent status OneShot [] AttestationBinding_default 0 0 revoked_at None None None.

Definition store_status_of (s : DaemonStore) (ids : list string) : list AccessGrant :=
  omap (λ id, match get_grant s id with
              | Ok info =>
                  match GrantStatus_parse (effective_row_status s info) with
                  | Some status =>
                      Some (bare_status_grant (r_id info) status
                              (if bool_decide (status = Revoked) then Some 0 else None))
                  | None => None
                  end
              | Err _ => None
              end) ids.

Definition store_ancestry (s : DaemonStore) : GrantAncestry :=
  mkAncestry (store_ancestor_ids s) (store_status_of s).
Definition store_authority (s : DaemonStore) : PersonaRootAuthority :=
  mkAuthority (get_persona_root_pubkey_bytes s).

Definition first_revoked_grant_ancestor (s : DaemonStore) (grant_id : string) : option RevokedAncestor :=
  let ids := store_ancestor_ids s grant_id in
  if bool_decide (ids = []) then None else first_revoked_ancestor ids (store_status_of s ids).

(** ** The backend *)

(** Method names as [hyper::Method] reads them. *)
Class MethodOps := { method_parse : string → option string }.

Section Backend.
Context {U : UriOps} {P : PercentOps} {J : JsonText} {Mt : MethodOps}.

(** The row of the grant a request is made under. *)
Definition select_grant (s : DaemonStore) (persona_id credential_name : string)
  (resolved_grant_id : option string) : result GrantRow PolicyError :=
  let no_lease g := PE_Forbidden ("grant_inactive:no_live_lease:" +:+ r_id g) in
  match resolved_grant_id with
  | Some gid =>
      match get_grant s gid with
      | Ok g =>
          if bool_decide (r_persona_id g ≠ persona_id) then
            Err (PE_Forbidden "grant belongs to a different persona")
          else if bool_decide (r_credential_name g ≠ credential_name) then
            Err (PE_Forbidden "grant credential_name does not match X-Ember-Credential")
          else if bool_decide (effective_row_status s g ≠ "active") then
            Err (PE_Forbidden ("grant_inactive:" +:+ effective_row_status s g +:+ ":" +:+ r_id g))
          else if negb (has_live_lease s (r_id g)) then Err (no_lease g)
          else Ok g
      | Err SE_NotFound => Err (PE_NotFound "attachment resolved to a non-active grant")
      | Err e => Err (PE_Store (StoreError_display e))
      end
  | None =>
      match evaluate_grant s persona_id credential_name with
      | Ok g => if negb (has_live_lease s (r_id g)) then Err (no_lease g) else Ok g
      | Err SE_NotFound => Err (PE_NotFound "no active grant for persona/credential")
      | Err e => Err (PE_Store (StoreError_display e))
      end
  end.

(** The statement of the grant's chain that covers the request. *)
Definition select_statement (access_grant : AccessGrant) (effective_uri : Uri) (method : string)
  : result Statement PolicyError :=
  let hyper_method := default "GET" (method_parse method) in
  let? hyper_uri := map_err (λ e, PE_Other ("invalid URI: " +:+ e)) (uri_parse (uri_display effective_uri)) in
  match request_to_action_resource hyper_method hyper_uri with
  | Some (action, res) =>
      match resolve_statement_for_request_with_uri access_grant action res hyper_uri with
      | NoApplicable => Err (PE_Forbidden "no_applicable_statement")
      | SubtargetMiss _ => Err (PE_Forbidden "denied_subtarget_scope")
      | UnevaluableCondition _ => Err (PE_Forbidden "unevaluable_condition")
      | Match _ stmt => Ok stmt
      end
  | None => Err (PE_Forbidden "unsupported HTTP method")
  end.

Definition daemon_resolve_grant (s : DaemonStore) (persona_id credential_name : string)
  (resolved_grant_id : option string) (effective_uri : Uri) (method : string)
  : result ResolvedGrant PolicyError :=
  let? grant := select_grant s persona_id credential_name resolved_grant_id in
  let? access_grant := map_err (λ e, PE_Store (StoreError_display e)) (get_access_grant s (r_id grant)) in
  match authorized_root_pubkey (store_authority s) (g_issuing_persona_id access_grant) with
  | None => Err (PE_Forbidden "root_unauthorized")
  | Some root =>
      if negb (is_ok (verify_chain (g_blocks access_grant) root)) then Err (PE_Forbidden "chain_invalid")
      else
        let? stmt := select_statement access_grant effective_uri method in
        if bool_decide (sid stmt ∈ get_revoked_sids s (r_id grant)) then
          Err (PE_Forbidden ("statement_revoked:" +:+ sid stmt))
        else match first_revoked_grant_ancestor s (r_id grant) with
             | Some revoked => Err (PE_Forbidden ("ancestor_revoked:" +:+ ra_grant_id revoked))
             | None =>
                 Ok (mkResolved (r_id grant) (r_persona_id grant) (r_credential_name grant) (sid stmt)
                       stmt (r_scope grant) (r_allowed_targets grant))
             end
  end.

Definition daemon_preflight_budget (s : DaemonStore) (resolved : ResolvedGrant) (body_bytes : bytes)
  : result PreflightDecision PolicyError :=
  if negb (has_live_lease s (rg_grant_id resolved)) then
    Err (PE_Forbidden ("grant_inactive:no_live_lease:" +:+ rg_grant_id resolved))
  else Ok (preflight_budget_check (rg_statement resolved) body_bytes).

(** The daemon's implementation of the interface. The attachment registry, the vault and the
    receipts are the arguments. *)
Definition DaemonPolicyBackend (s : DaemonStore)
  (attachment : string → string → result (option ResolvedAttachmentAuthority) PolicyError)
  (session : string → result (option ResolvedAttachmentAuthority) PolicyError)
  (vault : string → result string PolicyError)
  (receipt : ResolvedGrant → ProxyCallReceiptRequest → result (option string) PolicyError)
  : PolicyBackend := {|
  resolve_attachment_authority := attachment;
  resolve_attachment_for_session := session;
  resolve_grant := daemon_resolve_grant s;
  preflight_budget := daemon_preflight_budget s;
  get_credential := vault;
  issue_proxy_call_receipt := receipt
|}.

(** ** What a resolved grant stands for *)

(** The selected row is the caller's own, active, and has a live lease. *)
Lemma select_grant_Ok s persona cred gid g :
  select_grant s persona cred gid = Ok g →
  g ∈ grants s ∧ r_persona_id g = persona ∧ r_credential_name g = cred ∧
  has_live_lease s (r_id g) = true ∧
  match gid with
  | Some id => r_id g = id ∧ effective_row_status s g = "active"
  | None => r_status g = "active" ∧ in_hours s g = true ∧ ∀ e, r_expires_at g = Some e → now_secs s < e
  end.
Proof.
  unfold select_grant. destruct gid as [id|].
  - unfold get_grant, row_by_id. destruct (List.find _ _) as [r|] eqn:Hf; [|done].
    apply find_some in Hf as [Hin%list_elem_of_In Hid%bool_decide_eq_true].
    repeat (case_bool_decide; [done|]). destruct (has_live_lease s (r_id r)) eqn:Hl; [|done]. intros [=<-].
    split_and!; (done || by apply dec_stable).
  - unfold evaluate_grant. destruct (List.find _ _) as [r|] eqn:Hf; [|done].
    apply find_some in Hf as [Hin%list_elem_of_In Hc].
    apply andb_prop in Hc as [Hc Hexp]. apply andb_prop in Hc as [Hc Hst%bool_decide_eq_true].
    apply andb_prop in Hc as [Hp%bool_decide_eq_true Hcr%bool_decide_eq_true].
    destruct (in_hours s r) eqn:Hh; [|done]. cbn [negb].
    destruct (has_live_lease s (r_id r)) eqn:Hl; [|done]. intros [=<-]. split_and!; try done.
    intros e He. rewrite He in Hexp. lia.
Qed.

Lemma select_statement_Ok ag uri method stmt :
  select_statement ag uri method = Ok stmt →
  ∃ m u action res, m = default "GET" (method_parse method) ∧ uri_parse (uri_display uri) = Ok u ∧
    request_to_action_resource m u = Some (action, res) ∧
    authorizes action res u stmt ∧ stmt ∈ (grant_statements ag).*2.
Proof.
  unfold select_statement. destruct (uri_parse _) as [u|]; [|done]. cbn.
  destruct (request_to_action_resource _ u) as [[action res]|] eqn:Ha; [|done].
  pose proof (resolve_loop_spec action res u (grant_statements ag) None None) as Hs.
  unfold resolve_statement_for_request_with_uri. destruct (resolve_loop _ _ _ _ _ _) as [i st|g|c|]; try done.
  intros [=<-]. destruct Hs as (pre & post & Hl & Hau & _).
  exists (default "GET" (method_parse method)), u, action, res. split_and!; try done.
  rewrite Hl, fmap_app. apply elem_of_app. right. apply list_elem_of_here.
Qed.

Lemma first_revoked_grant_ancestor_None s id :
  first_revoked_grant_ancestor s id = None →
  Forall (live (store_status_of s (store_ancestor_ids s id))) (store_ancestor_ids s id).
Proof.
  unfold first_revoked_grant_ancestor. case_bool_decide as He; [by rewrite He|].
  apply first_revoked_ancestor_None.
Qed.

(** A grant the daemon resolves for the proxy. *)
Definition resolved_from (s : DaemonStore) (persona cred : string) (uri : Uri) (method : string)
  (r : ResolvedGrant) (row : GrantRow) (ag : AccessGrant) : Prop :=
  row ∈ grants s ∧ r_persona_id row = persona ∧ r_credential_name row = cred ∧
  has_live_lease s (r_id row) = true ∧
  get_access_grant s (r_id row) = Ok ag ∧
  (∃ root, get_persona_root_pubkey_bytes s (g_issuing_persona_id ag) = Some root ∧
           verify_chain (g_blocks ag) root = Ok tt) ∧
  (∃ u action res,
     uri_parse (uri_display uri) = Ok u ∧
     request_to_action_resource (default "GET" (method_parse method)) u = Some (action, res) ∧
     authorizes action res u (rg_statement r)) ∧
  rg_statement r ∈ (grant_statements ag).*2 ∧ sid (rg_statement r) ∉ get_revoked_sids s (r_id row) ∧
  Forall (live (store_status_of s (store_ancestor_ids s (r_id row)))) (store_ancestor_ids s (r_id row)).

Lemma daemon_resolve_grant_Ok s persona cred gid uri method r :
  daemon_resolve_grant s persona cred gid uri method = Ok r →
  ∃ row ag, resolved_from s persona cred uri method r row ag ∧
    rg_grant_id r = r_id row ∧ rg_allowed_targets r = r_allowed_targets row.
Proof.
  unfold daemon_resolve_grant. destruct (select_grant s persona cred gid) as [row|] eqn:Hsel; [|done].
  apply select_grant_Ok in Hsel as (Hin & Hp & Hc & Hl & _). cbn.
  destruct (get_access_grant s (r_id row)) as [ag|] eqn:Hag; [|done]. cbn.
  destruct (get_persona_root_pubkey_bytes _ _) as [root|] eqn:Hroot; [|done].
  destruct (verify_chain (g_blocks ag) root) as [[]|] eqn:Hv; [|done]. cbn.
  destruct (select_statement ag uri method) as [stmt|] eqn:Hst; [|done]. cbn.
  apply select_statement_Ok in Hst as (m & u & action & res & -> & Hu & Ha & Hau & Hstin).
  case_bool_decide as Hrev; [done|]. destruct (first_revoked_grant_ancestor s (r_id row)) eqn:Hanc; [done|].
  intros [=<-]. apply first_revoked_grant_ancestor_None in Hanc.
  exists row, ag. split; [|done]. split_and!; try done; [by exists root|by exists u, action, res].
Qed.

(** The resolved grant is that of the selected row. *)
Lemma daemon_resolve_grant_row s persona cred gid uri method r :
  daemon_resolve_grant s persona cred gid uri method = Ok r →
  ∃ row, select_grant s persona cred gid = Ok row ∧ rg_grant_id r = r_id row.
Proof.
  unfold daemon_resolve_grant. intros (row & Hs & H1)%result_bind_Ok. apply result_bind_Ok in H1 as (ag & _ & H1).
  destruct (authorized_root_pubkey _ _) as [root|]; [|done]. destruct (negb _); [done|]. apply result_bind_Ok in H1 as (stmt & _ & H1).
  case_bool_decide; [done|]. destruct (first_revoked_grant_ancestor _ _); [done|]. injection H1 as <-. by exists row.
Qed.

(** ** What stands behind a resolved grant, read off the tables *)

(** The persona above [p]: the holder of the grant that [p] was created under. *)
Definition parent_persona (s : DaemonStore) (p q : string) : Prop :=
  ∃ row gid g, List.find (λ x, bool_decide (p_id x = p)) (personas s) = Some row ∧ p_parent_grant_id row = Some gid ∧
    row_by_id s gid = Some g ∧ r_persona_id g = q.

(** The grant a grant was delegated from. *)
Definition parent_grant (s : DaemonStore) (i p : string) : Prop :=
  ∃ row, row_by_id s i = Some row ∧ r_parent_grant_id row = Some p ∧ p ≠ "".

(** A set closed under a step holds whatever is reached from it. *)
Lemma bsteps_closed (R : string → string → Prop) (seen : list string) n x y :
  (∀ a b, a ∈ seen → R a b → b ∈ seen) → bsteps R n x y → x ∈ seen → y ∈ seen.
Proof. intros Hc. induction 1 as [|n x z y Hxz _ IH]; [done|]. intros Hx. apply IH. by eapply Hc. Qed.

Lemma persona_chain_complete s n fuel seen p q :
  (∀ a b, a ∈ seen → parent_persona s a b → b ∈ seen ∨ b = p) → bsteps (parent_persona s) n p q → (n < fuel)%nat →
  q ∈ seen ∨ q ∈ persona_chain_loop fuel s seen p.
Proof.
  revert n seen p. induction fuel as [|fuel IH]; intros n seen p Hinv Hs Hn; [lia|]. cbn.
  case_bool_decide as Hp; [left; eapply (bsteps_closed _ seen); [|done|done]; naive_solver|].
  inversion Hs as [|n' x p' z Hpp Hs']; subst; [right; left|].
  destruct Hpp as (row & gid & g & Hf & Hg & Hr & Hq). rewrite Hf. cbn. rewrite Hg, Hr, Hq.
  destruct (IH n' (p :: seen) p') as [Hin|Hin]; [|done|lia| |].
  - intros a b [->|Ha]%elem_of_cons Hab; [right|destruct (Hinv a b Ha Hab); [left; by right|left; subst; by left]].
    destruct Hab as (row' & gid' & g' & Hf' & Hg' & Hr' & <-). rewrite Hf in Hf'. congruence.
  - apply elem_of_cons in Hin as [->|Hin]; [right; by left|by left].
  - right. by right.
Qed.

Lemma ancestors_complete s n fuel seen i q :
  i ∈ seen → (∀ a b, a ∈ seen → parent_grant s a b → b ∈ seen ∨ a = i) → bsteps (parent_grant s) n i q → (n <= fuel)%nat →
  q ∈ seen ∨ q ∈ ancestor_loop fuel s seen i.
Proof.
  revert n seen i. induction fuel as [|fuel IH]; intros n seen i Hi Hinv Hs Hn.
  { inversion Hs; subst; [by left|lia]. }
  inversion Hs as [|n' x p z Hip Hs']; subst; [by left|]. pose proof Hip as (row & Hrow & Hpar & Hne). cbn. rewrite Hrow. cbn. rewrite Hpar.
  replace (str_is_empty p) with false by (symmetry; unfold str_is_empty; by rewrite bool_decide_eq_false_2). cbn [negb andb].
  assert (∀ b, parent_grant s i b → b = p) as Hdet.
  { intros b (row' & Hrow' & Hpar' & _). rewrite Hrow in Hrow'. congruence. }
  case_bool_decide as Hp; cbn [negb].
  - left. eapply (bsteps_closed _ seen); [|done|done]. intros a b Ha Hab. destruct (Hinv a b Ha Hab) as [?| ->]; [done|]. by rewrite (Hdet b Hab).
  - destruct (IH n' (p :: seen) p) as [Hin|Hin]; [by left| |done|lia| |].
    + intros a b [->|Ha]%elem_of_cons Hab; [by right|]. destruct (Hinv a b Ha Hab) as [?| ->]; [left; by right|]. left. rewrite (Hdet b Hab). by left.
    + apply elem_of_cons in Hin as [->|Hin]; [right; by left|by left].
    + right. by right.
Qed.

(** Ids are the primary key. *)
Lemma row_by_id_own s r : NoDup (r_id <$> grants s) → r ∈ grants s → row_by_id s (r_id r) = Some r.
Proof.
  unfold row_by_id. induction (grants s) as [|x l IH]; cbn; [by intros _ []%elem_of_nil|].
  intros [Hx Hl]%NoDup_cons [->|Hin]%elem_of_cons; [by rewrite bool_decide_eq_true_2|].
  rewrite bool_decide_eq_false_2; [by apply IH|]. intros E. apply Hx. rewrite E. apply list_elem_of_fmap. by exists r.
Qed.

(** The stored chain of a row, when its end (its start, when the row is not delegated) names the persona of the row. *)
Definition stored_chain (row : GrantRow) (first : SignedBlock) (rest : list SignedBlock) : Prop :=
  r_blocks_json row = Some (first :: rest) ∧
  match r_parent_grant_id row with
  | Some _ => issued_by (block (List.last (first :: rest) first)) = r_persona_id row
  | None => issued_by (block first) = r_persona_id row
  end.

(** What a statement of a row's grant rests on: the chain is the stored one, or the signed projection of a row without such a chain;
    the statement is revoked neither on the row nor on a grant of its persona or of the two personas above; and every grant within
    256 delegations above the row is in the table and active. *)
Record tables_back (s : DaemonStore) (row : GrantRow) (ag : AccessGrant) (stmt : Statement) : Prop := {
  tb_chain :
    (∃ first rest, stored_chain row first rest ∧ g_blocks ag = first :: rest ∧ g_issuing_persona_id ag = issued_by (block first)) ∨
    (project_access_grant s row = Ok ag ∧ ∀ first rest, ¬ stored_chain row first rest);
  tb_unrevoked : sid stmt ∉ default [] (r_revoked_sids_json row) ∧
    ∀ q g, bsteps (parent_persona s) 2 (r_persona_id row) q → g ∈ grants s → r_persona_id g = q →
      sid stmt ∉ default [] (r_revoked_sids_json g);
  tb_ancestors : ∀ p, bsteps (parent_grant s) 256 (r_id row) p → p ≠ r_id row →
    ∃ g, row_by_id s p = Some g ∧ GrantStatus_parse (effective_row_status s g) = Some Active
}.

Lemma verify_and_return_same s ag ag' : verify_and_return s ag = Ok ag' → ag' = ag.
Proof. unfold verify_and_return. repeat case_match; congruence. Qed.

Lemma get_access_grant_chain s row ag :
  NoDup (r_id <$> grants s) → row ∈ grants s → get_access_grant s (r_id row) = Ok ag →
  (∃ first rest, stored_chain row first rest ∧ g_blocks ag = first :: rest ∧ g_issuing_persona_id ag = issued_by (block first)) ∨
  (project_access_grant s row = Ok ag ∧ ∀ first rest, ¬ stored_chain row first rest).
Proof.
  intros Hn Hin. unfold get_access_grant, get_grant. rewrite (row_by_id_own s row Hn Hin). cbn.
  assert (∀ r, (let? projected := project_access_grant s row in verify_and_return s projected) = Ok r →
    project_access_grant s row = Ok r) as Hproj.
  { intros r. destruct (project_access_grant s row) as [x|]; [|done]. cbn. intros ->%verify_and_return_same. done. }
  unfold stored_chain. destruct (r_blocks_json row) as [[|first rest]|]; [intros ?%Hproj; right; by split; [|intros ? ? [? _]]| |
    intros ?%Hproj; right; by split; [|intros ? ? [? _]]].
  destruct (r_parent_grant_id row) as [pid|]; cbn [is_Some];
    [rewrite (bool_decide_eq_true_2 (is_Some (Some pid))) by (by eexists)|rewrite (bool_decide_eq_false_2 (is_Some None)) by (by intros [? ?])];
    case_bool_decide as E; cbn [negb];
    first [intros ->%verify_and_return_same; left; by exists first, rest
          |intros ?%Hproj; right; split; [done|]; intros f r [[= <- <-] ?]; by apply E].
Qed.

Lemma revoked_sids_complete s row x :
  NoDup (r_id <$> grants s) → row ∈ grants s → x ∉ get_revoked_sids s (r_id row) →
  x ∉ default [] (r_revoked_sids_json row) ∧
  ∀ q g, bsteps (parent_persona s) 2 (r_persona_id row) q → g ∈ grants s → r_persona_id g = q →
    x ∉ default [] (r_revoked_sids_json g).
Proof.
  intros Hn Hin Hx.
  assert (∀ g, g ∈ grants s → get_revoked_sids_for_grant s (r_id g) = default [] (r_revoked_sids_json g)) as Hown.
  { intros g Hg. unfold get_revoked_sids_for_grant. by rewrite (row_by_id_own s g Hn Hg). }
  unfold get_revoked_sids in Hx. rewrite (row_by_id_own s row Hn Hin), (Hown row Hin) in Hx. apply not_elem_of_app in Hx as [Hx1 Hx2].
  split; [done|]. intros q g Hq Hg Hgp Hxg. apply Hx2. apply list_elem_of_join.
  set (chain := match parent_persona_chain s (r_persona_id row) with Ok c => c | Err _ => [r_persona_id row] end).
  assert (q ∈ chain) as Hqc.
  { unfold chain, parent_persona_chain. destruct (List.find _ (personas s)) as [pr|] eqn:Hf.
    - destruct (persona_chain_complete s 2 3 [] (r_persona_id row) q) as [[]%elem_of_nil|?]; [by intros ? ? []%elem_of_nil|done|lia|done].
    - inversion Hq as [|n' x' p' z (row' & gid & g' & Hf' & _)]; subst; [by left|congruence]. }
  eexists. split; [|apply list_elem_of_fmap; exists q; split; [reflexivity|done]].
  apply list_elem_of_join. exists (get_revoked_sids_for_grant s (r_id g)). split; [by rewrite (Hown g Hg)|].
  apply list_elem_of_fmap. exists g. split; [done|]. apply list_elem_of_In, filter_In. split; [by apply list_elem_of_In|].
  by apply bool_decide_eq_true_2.
Qed.

Lemma ancestors_active s row :
  Forall (live (store_status_of s (store_ancestor_ids s (r_id row)))) (store_ancestor_ids s (r_id row)) →
  ∀ p, bsteps (parent_grant s) 256 (r_id row) p → p ≠ r_id row →
    ∃ g, row_by_id s p = Some g ∧ GrantStatus_parse (effective_row_status s g) = Some Active.
Proof.
  intros Hall p Hp Hne. destruct (ancestors_complete s 256 256 [r_id row] (r_id row) p) as [Hin|Hin]; [by left| |done|lia| |].
  { intros a b ->%list_elem_of_singleton _. by right. }
  { by apply list_elem_of_singleton in Hin. }
  pose proof (proj1 (Forall_forall _ _) Hall p Hin) as (ag & Hf & Hact & _). apply find_some in Hf as [Hag Hid].
  apply bool_decide_eq_true in Hid. apply list_elem_of_In in Hag. unfold store_status_of in Hag. apply list_elem_of_omap in Hag as (i & _ & Hi).
  unfold get_grant in Hi. destruct (row_by_id s i) as [g|] eqn:Hg; [|done].
  destruct (GrantStatus_parse (effective_row_status s g)) as [st|] eqn:Hst; [|done]. injection Hi as <-. cbn in Hid, Hact. subst st.
  assert (r_id g = i) as E. { apply find_some in Hg as [_ E%bool_decide_eq_true]. done. }
  exists g. split; [|done]. congruence.
Qed.

Lemma resolved_tables s persona cred uri method r row ag :
  NoDup (r_id <$> grants s) → resolved_from s persona cred uri method r row ag → tables_back s row ag (rg_statement r).
Proof.
  intros Hn (Hin & _ & _ & _ & Hag & _ & _ & _ & Hrev & Hanc). constructor.
  - by apply get_access_grant_chain.
  - by apply revoked_sids_complete.
  - by apply ancestors_active.
Qed.

(** C3. The whole path of a proxied request. When the proxy, backed by a daemon whose grants have distinct ids (their primary key), sends a
    request upstream, the credential and the persona are those the request speaks for (its attachment's persona when it has an attachment,
    which no header may contradict, and otherwise the persona of its header), and it goes under a row of the grant table of that persona and
    that credential, active, with a live lease: the attachment's grant when there is one, and otherwise within its hours and its expiry.
    The chain is the one stored with the row, or the projection of a row without one, and verifies under the root key stored for its
    issuer; a statement of the chain, revoked neither on the row nor on any grant of its persona and the two above it, with every grant within
    256 delegations above the row active, authorizes the action and resource of the very request that leaves; its host is on the
    allowlist of the row, or the lane binds it when the row has none, and is no blocked address; the budget admits its body; and the headers
    that leave are those of the injection of the credential the vault holds under that name. *)
Theorem proxied_request_authorized {H : HeaderOps} {A : JsonArrayOps} {Se : SearchOps} {L : UriLaws U}
  s attachment session vault receipt upstream inflight req sb out :
  NoDup (r_id <$> grants s) →
  ESend out ∈ (handle_request_inner (B := DaemonPolicyBackend s attachment session vault receipt)
                 upstream inflight req sb).1 →
  ∃ ask row ag r credential,
    Identified (B := DaemonPolicyBackend s attachment session vault receipt) req sb ask ∧
    resolved_from s (ask_persona ask) (ask_credential ask) (og_uri out) (og_method out) r row ag ∧
    tables_back s row ag (rg_statement r) ∧
    match ask_attachment ask with
    | Some a => r_id row = at_grant_id a ∧ effective_row_status s row = "active"
    | None => r_status row = "active" ∧ in_hours s row = true ∧ ∀ e, r_expires_at row = Some e → now_secs s < e
    end ∧
    vault (ask_credential ask) = Ok credential ∧
    (∃ git scheme h,
       inject_provider_auth (filter_request_headers header_empty (rq_headers req))
         (default "" (extract_host_from_url (ask_target ask))) git (ask_credential ask) credential = Some (scheme, h) ∧
       og_headers out = header_insert "accept-encoding" (header_from_static "identity") h) ∧
    match r_allowed_targets row with
    | Some targets =>
        ∃ host pattern, uri_host (og_uri out) = Some host ∧ pattern ∈ parse_allowed_targets targets ∧
          match strip_prefix_on (to_bytes "*.") (to_bytes pattern) with
          | Some domain => under host (of_bytes domain)
          | None => host = pattern
          end
    | None => is_generic_lane (og_method out) (og_uri out) = false
    end ∧
    host_literal_is_blocked (default "" (uri_host (og_uri out))) = None ∧
    preflight_budget_check (rg_statement r) (og_body out) = Allowed.
Proof.
  intros Hn (ask & sc & body & [Hid Hu Hr Hh Hl _ Hb _] & cred & scheme & h & Hcred & Hinj & Huri & ->)%handle_sent.
  apply effective_scope_uri_inv in Hu as (_ & _ & _ & _ & _ & _ & _ & _ & Hhost). apply Hhost in Huri. clear Hhost.
  cbn in Hr, Hb, Hcred. pose proof (daemon_resolve_grant_row _ _ _ _ _ _ _ Hr) as (row' & Hsel & Hrow').
  apply daemon_resolve_grant_Ok in Hr as (row & ag & Hres & Hgid & Hat).
  assert (row' = row) as ->.
  { apply select_grant_Ok in Hsel as (Hin' & _). destruct Hres as (Hin & _). pose proof (row_by_id_own s row' Hn Hin') as E1.
    pose proof (row_by_id_own s row Hn Hin) as E2. rewrite <-Hrow', Hgid in E1. congruence. }
  apply select_grant_Ok in Hsel as (_ & _ & _ & _ & Hstat).
  exists ask, row, ag, (sc_resolved sc), cred. cbn [og_uri og_method og_body og_headers]. rewrite Huri.
  unfold daemon_preflight_budget in Hb. destruct (has_live_lease _ _) in Hb; [|done]. injection Hb as Hb.
  split_and!; try done.
  - by eapply resolved_tables.
  - by destruct (ask_attachment ask).
  - by eexists _, scheme, h.
  - rewrite Hat in Hh. rewrite forward_host_Allow in Hh. done.
Qed.

End Backend.
End Store.

(** ** A concrete daemon *)

Module ToyDaemon.

Import ToyUri ToyHeaders ToyStream ToySearch.

#[export] Instance percent : PercentOps := {| percent_decode_lossy s := s |}.
#[export] Instance arrays : JsonArrayOps := {| json_string_array _ := None |}.
#[export] Instance methods : MethodOps := {| method_parse m := Some m |}.

(** A verifier that accepts every signature. *)
#[export] Instance crypto : CryptoOps := toy_ops (λ _, true).

Definition statement (s : string) (acts : list string) (sel : ResourceSelector) : Statement :=
  mkStatement s Credential acts sel None Usage_default [] None.

Definition signed_block (stmts : list Statement) (issuer : string) : SignedBlock :=
  mkSigned (mkBlock stmts None None issuer 1 None None) (of_bytes (toy_hex (zeros 32)))
    (of_bytes (toy_hex (zeros 64))).

(** A grant of alice to read from GitHub, and a second block on its chain. *)
Definition row (hours : option (Z * Z)) (extra : list SignedBlock) : GrantRow :=
  mkRow "g1" "alice" "github/pat" "github:read" 1 None "active" (fst <$> hours) (snd <$> hours) None None
    (Some (signed_block [statement "s1" ["github:read"] (Glob "acme/*")] "alice" :: extra)) None
    None None None false false None None.

Definition store (r : GrantRow) : DaemonStore :=
  mkStore [r] [mkPersona "alice" ("ed25519:" +:+ of_bytes (toy_hex (zeros 32))) None "active"] 100 12
    (λ id, bool_decide (id = "g1")) (λ _, Err SE_NotFound).

Definition vault (name : string) : result string PolicyError :=
  if bool_decide (name = "github/pat") then Ok "s3cret" else Err (PE_NotFound name).

Definition attachment : ResolvedAttachmentAuthority := mkAttachment "s" "a" "alice" "c" "g1" "active" true.

Definition backend (s : DaemonStore) : PolicyBackend :=
  DaemonPolicyBackend s (λ _ _, Ok None) (λ _, Ok (Some attachment)) vault (λ _ _, Ok None).

Definition request : HttpRequest :=
  mkRequest "GET" (of_url "/repos/acme/app")
    [("x-ember-credential", "github/pat"); ("x-ember-target", "https://api.github.com/");
     ("x-ember-persona", "alice"); ("accept", "*/*"); ("cookie", "a=b")] (Some []).

Definition sent : Outgoing :=
  mkOutgoing "GET" (of_url "https://api.github.com/repos/acme/app")
    [("accept", "*/*"); ("authorization", "Bearer s3cret"); ("accept-encoding", "identity")] [].

End ToyDaemon.

Import ToyUri ToyHeaders ToyStream ToySearch ToyDaemon.

Lemma proxied_request_authorized_witness :
  ∃ ask row' ag r, ask_persona ask = "alice" ∧ ask_credential ask = "github/pat" ∧
    resolved_from (store (row None [])) (ask_persona ask) (ask_credential ask) (og_uri sent) (og_method sent) r row' ag ∧
    tables_back (store (row None [])) row' ag (rg_statement r).
Proof.
  destruct (proxied_request_authorized (store (row None [])) (λ _ _, Ok None) (λ _, Ok (Some attachment))
              vault (λ _ _, Ok None) (λ _, Err "unreachable") 0 request (Some "s") sent)
    as (ask & row' & ag & r & credential & Hid & Hres & Htb & _).
  - apply (bool_decide_unpack _). vm_compute. exact I.
  - apply (list_elem_of_lookup_2 _ 2). vm_compute. reflexivity.
  - destruct Hid as [Hc _ _ Ha Hp]. cbn in Ha. injection Ha as Ha. rewrite <-Ha in Hp. destruct Hp as [Hp _].
    vm_compute in Hc. injection Hc as Hc. exists ask, row', ag, r. by split_and!.
Defined.

(** A request through an attachment is not held to the hours its grant may be used in: outside
    them the lookup by persona and credential refuses the grant, and the lookup by the
    attachment's grant id resolves it. *)
Theorem attachment_ignores_hours :
  let s := store (row (Some (20, 22)) []) in
  evaluate_grant s "alice" "github/pat" = Err (SE_InvalidInput "outside allowed hours (20:00-22:00 UTC)") ∧
  ∃ r, daemon_resolve_grant s "alice" "github/pat" (Some "g1")
         (of_url "https://api.github.com/repos/acme/app") "GET" = Ok r ∧ rg_grant_id r = "g1".
Proof. split; [by vm_compute|]. eexists. split; [by vm_compute|done]. Qed.

(** The proxy honours an appended block that widens the chain: the daemon resolves a request to a
    host no statement of the first block mentions, on a chain for which [verify_grant_for_use]
    refuses every need because the second block does not attenuate the first. *)
Theorem proxy_honours_widening_block :
  let s := store (row None [signed_block [statement "s2" ["*"] Any] "alice"]) in
  ∃ ag r, get_access_grant s "g1" = Ok ag ∧
    daemon_resolve_grant s "alice" "github/pat" (Some "g1") (of_url "https://evil.example/upload") "POST" = Ok r ∧
    rg_statement_sid r = "s2" ∧
    ∀ need, ∃ why, verify_grant_for_use (store_authority s) (store_ancestry s) [ag] need =
                     Refused (ChainAttenuationViolation "g1" 1 why).
Proof.
  intros s. assert (∃ ag, get_access_grant s "g1" = Ok ag ∧
    List.filter (rooted_and_verified (store_authority s)) [ag] = [ag] ∧
    ∃ why, attenuation_filter [ag] = Err (ChainAttenuationViolation "g1" 1 why)) as (ag & Hag & Hf & why & Hw).
  { eexists. split; [by vm_compute|]. split; [by vm_compute|]. eexists. by vm_compute. }
  exists ag. eexists. split; [done|]. split; [by vm_compute|]. split; [done|].
  intros need. exists why. unfold verify_grant_for_use. by rewrite Hf, bool_decide_eq_false_2, Hw.
Qed.

