(* ===== verification/Lease.v ===== *)
(** * Leases: authority to act, in memory and at rest

    crates/ember-daemon/src/trust/lease.rs, with the tables it uses (infra/store.rs) and the
    liveness of grants (trust/grant.rs). A lease is a key the daemon holds for the life of one
    grant. [LeaseRegistry] is the cache of leases in memory; [BoundLeaseRegistry] couples it with
    the table of sealed blobs, so that leases survive a restart. The operations are functions
    from the store to the result and the store afterwards; random keys and nonces are arguments,
    and every database call may fail, as the argument of type [Db] says. An instant is the number
    of nanoseconds since the epoch. *)

From stdpp Require Import base gmap list strings.
From Stdlib Require Import Ascii Lia ZArith.
From S2P Require Import Prelude LogTypes.

Local Infix "+:+" := String.append (at level 60, right associativity).

(** ** Third-party interfaces *)

(** XChaCha20-Poly1305: key, nonce, text and associated data. *)
Class AeadOps := {
  aead_encrypt : bytes → bytes → bytes → bytes → result bytes string;
  aead_decrypt : bytes → bytes → bytes → bytes → result bytes string
}.

Class AeadLaws (A : AeadOps) := {
  aead_open_seal k n m a c : aead_encrypt k n m a = Ok c → aead_decrypt k n c a = Ok m;
  aead_length k n m a c : aead_encrypt k n m a = Ok c → length c = length m + 16
}.

Record SealedLeaseMeta := mkMeta {
  m_grant_id : string;
  m_persona_id : string;
  m_scope : string;
  m_expires_at : option Z;
  m_minted_at : Z
}.

(** serde_json on the metadata. *)
Class MetaJson := {
  meta_to_json : SealedLeaseMeta → result bytes string;
  meta_from_json : bytes → result SealedLeaseMeta string
}.

Class MetaJsonLaws (J : MetaJson) := {
  meta_json_roundtrip m j : meta_to_json m = Ok j → meta_from_json j = Ok m
}.

(** ** Data *)

Definition LeaseKey := bytes.
Definition LeaseWrapKey := bytes.

Record PersistedLease := mkPersisted { pl_grant_id : string; pl_wrapped_blob : bytes }.

Inductive LeaseCustodyError :=
| KekProvisionFailed (m : string)
| Crypto (m : string)
| BadKeyLength (n : nat).

Record Lease := mkLease {
  l_grant_id : string;
  l_persona_id : string;
  l_scope : string;
  l_expires_at : option Z;
  l_minted_at : Z;
  l_key : LeaseKey
}.

Record LeaseAttachment := mkAttachment {
  la_grant_id : string;
  la_persona_id : string;
  la_scope : string;
  la_expires_at : option Z;
  la_minted_at : Z
}.

(** The leases by grant. *)
Notation LeaseRegistry := (gmap string Lease).

(** [matches!(expires_at, Some(exp) if now >= exp)] *)
Definition elapsed (expires_at : option Z) (now : Z) : bool :=
  match expires_at with Some exp => (exp <=? now)%Z | None => false end.

Definition is_expired_at (l : Lease) (now : Z) : bool := elapsed (l_expires_at l) now.

Definition attachment (l : Lease) : LeaseAttachment :=
  mkAttachment (l_grant_id l) (l_persona_id l) (l_scope l) (l_expires_at l) (l_minted_at l).

(** *** The scope that authorizes SSH signing *)

Definition SSH_SIGN_SCOPE_OBJECT : string := "ssh-agent".
Definition SSH_SIGN_SCOPE_VERB : string := "sign".

Definition scope_authorizes_ssh_signing (scope : string) : bool :=
  let scope := str_trim scope in
  if bool_decide (scope = "*") then true
  else match str_split ":"%char scope with
       | [provider; object; verb] =>
           if str_is_empty provider || str_is_empty object || str_is_empty verb then false
           else (bool_decide (object = SSH_SIGN_SCOPE_OBJECT) || bool_decide (object = "*"))
                && (bool_decide (verb = SSH_SIGN_SCOPE_VERB) || bool_decide (verb = "*"))
       | _ => false
       end.

(** ** Sealing *)

Definition LEASE_WRAP_AAD : bytes := to_bytes "lease_wrap:sh.emberlink.daemon.lease-blob".

Section Registry.
Context {A : AeadOps} {J : MetaJson}.

Definition wrap (kek : LeaseWrapKey) (nonce plaintext : bytes) : result bytes LeaseCustodyError :=
  let? ciphertext := map_err (λ e, Crypto ("lease wrap: " +:+ e))
                       (aead_encrypt kek nonce plaintext LEASE_WRAP_AAD) in
  Ok (nonce ++ ciphertext).

(** [{:?}] of an identifier without characters that need escaping. *)
Definition debug_text (s : string) : string :=
  String (ascii_of_nat 34) (s +:+ String (ascii_of_nat 34) "").

Definition unwrap (kek : LeaseWrapKey) (blob : bytes) : result bytes LeaseCustodyError :=
  if bool_decide (length blob < 24 + 16) then
    Err (Crypto ("lease unwrap: blob too short (" +:+ u64_to_string (Z.of_nat (length blob)) +:+ " bytes, minimum 40)"))
  else map_err (λ e, Crypto ("lease unwrap: AEAD verification failed: " +:+ e))
         (aead_decrypt kek (take 24 blob) (drop 24 blob) LEASE_WRAP_AAD).

Definition encode_sealed_plaintext (key : LeaseKey) (meta : SealedLeaseMeta)
  : result bytes LeaseCustodyError :=
  let? json := map_err (λ e, Crypto ("serializing sealed lease metadata: " +:+ e)) (meta_to_json meta) in
  Ok (key ++ json).

Definition from_unwrapped (b : bytes) : result LeaseKey LeaseCustodyError :=
  if bool_decide (length b ≠ 32) then Err (BadKeyLength (length b)) else Ok b.

Definition decode_sealed_plaintext (raw : bytes)
  : result (LeaseKey * SealedLeaseMeta) LeaseCustodyError :=
  if bool_decide (length raw < 32) then Err (BadKeyLength (length raw))
  else
    let? key := from_unwrapped (take 32 raw) in
    let? meta := map_err (λ e, Crypto ("parsing sealed lease metadata: " +:+ e))
                   (meta_from_json (drop 32 raw)) in
    Ok (key, meta).

Definition unwrap_sealed (kek : LeaseWrapKey) (wrapped_blob : bytes)
  : result (LeaseKey * SealedLeaseMeta) LeaseCustodyError :=
  let? raw := unwrap kek wrapped_blob in
  decode_sealed_plaintext raw.

(** ** The registry in memory *)

Definition evict_if_expired (reg : LeaseRegistry) (grant_id : string) (now : Z) : LeaseRegistry :=
  match reg !! grant_id with
  | Some l => if is_expired_at l now then delete grant_id reg else reg
  | None => reg
  end.

Definition registry_mint (reg : LeaseRegistry) (grant_id persona_id scope : string)
  (expires_at : option Z) (now : Z) (key : LeaseKey) : LeaseRegistry :=
  <[grant_id := mkLease grant_id persona_id scope expires_at now key]> reg.

Definition mint_and_seal (reg : LeaseRegistry) (grant_id persona_id scope : string)
  (expires_at : option Z) (now : Z) (kek : LeaseWrapKey) (key : LeaseKey) (nonce : bytes)
  : result (PersistedLease * LeaseRegistry) LeaseCustodyError :=
  let meta := mkMeta grant_id persona_id scope expires_at now in
  let? plaintext := encode_sealed_plaintext key meta in
  let? wrapped_blob := wrap kek nonce plaintext in
  Ok (mkPersisted grant_id wrapped_blob,
      <[grant_id := mkLease grant_id persona_id scope expires_at now key]> reg).

Definition is_cold (reg : LeaseRegistry) (grant_id : string) : bool :=
  bool_decide (reg !! grant_id = None).

Definition rehydrate (reg : LeaseRegistry) (persisted : PersistedLease) (now : Z) (kek : LeaseWrapKey)
  : result (bool * LeaseRegistry) LeaseCustodyError :=
  let? opened := unwrap_sealed kek (pl_wrapped_blob persisted) in
  let '(key, meta) := opened in
  if bool_decide (m_grant_id meta ≠ pl_grant_id persisted) then
    Err (Crypto ("sealed lease grant_id " +:+ debug_text (m_grant_id meta) +:+ " does not match row key "
                 +:+ debug_text (pl_grant_id persisted) +:+ " (blob swap?)"))
  else if elapsed (m_expires_at meta) now then Ok (false, reg)
  else Ok (true, <[m_grant_id meta := mkLease (m_grant_id meta) (m_persona_id meta) (m_scope meta)
                                        (m_expires_at meta) (m_minted_at meta) key]> reg).

Definition registry_drop (reg : LeaseRegistry) (grant_id : string) : bool * LeaseRegistry :=
  (bool_decide (is_Some (reg !! grant_id)), delete grant_id reg).

Definition registry_has_live (reg : LeaseRegistry) (grant_id : string) (now : Z)
  : bool * LeaseRegistry :=
  let reg := evict_if_expired reg grant_id now in
  (bool_decide (is_Some (reg !! grant_id)), reg).

Definition registry_has_live_ssh (reg : LeaseRegistry) (grant_id : string) (now : Z)
  : bool * LeaseRegistry :=
  let reg := evict_if_expired reg grant_id now in
  (match reg !! grant_id with
   | Some l => bool_decide (is_Some (l_expires_at l)) && scope_authorizes_ssh_signing (l_scope l)
   | None => false
   end, reg).

(** The closure the source lends the key to is the caller's: the key is the result. *)
Definition registry_with_key (reg : LeaseRegistry) (grant_id : string) (now : Z)
  : option LeaseKey * LeaseRegistry :=
  let reg := evict_if_expired reg grant_id now in
  (l_key <$> reg !! grant_id, reg).

Definition registry_reattach (reg : LeaseRegistry) (grant_id : string) (now : Z)
  : option LeaseAttachment * LeaseRegistry :=
  let reg := evict_if_expired reg grant_id now in
  (attachment <$> reg !! grant_id, reg).

Definition registry_renew (reg : LeaseRegistry) (grant_id : string) (new_expires_at now : Z)
  (key : LeaseKey) : option LeaseAttachment * LeaseRegistry :=
  let reg := evict_if_expired reg grant_id now in
  match reg !! grant_id with
  | None => (None, reg)
  | Some l =>
      let renewed := mkLease grant_id (l_persona_id l) (l_scope l) (Some new_expires_at) now key in
      (Some (attachment renewed), <[grant_id := renewed]> reg)
  end.

(** The registry is returned on its own: it has changed by the eviction when the call fails. *)
Definition renew_and_seal (reg : LeaseRegistry) (grant_id : string) (new_expires_at now : Z)
  (kek : LeaseWrapKey) (key : LeaseKey) (nonce : bytes)
  : result (option (LeaseAttachment * PersistedLease)) LeaseCustodyError * LeaseRegistry :=
  let reg := evict_if_expired reg grant_id now in
  match reg !! grant_id with
  | None => (Ok None, reg)
  | Some l =>
      let meta := mkMeta grant_id (l_persona_id l) (l_scope l) (Some new_expires_at) now in
      match (let? plaintext := encode_sealed_plaintext key meta in wrap kek nonce plaintext) with
      | Err e => (Err e, reg)
      | Ok wrapped_blob =>
          let renewed := mkLease grant_id (l_persona_id l) (l_scope l) (Some new_expires_at) now key in
          (Ok (Some (attachment renewed, mkPersisted grant_id wrapped_blob)), <[grant_id := renewed]> reg)
      end
  end.

(** ** The store *)

(** What the lease lane uses of [DaemonStore]: the cache, the tables [lease_blobs],
    [grant_persona_secrets] and [grant_chain_secrets], the lease KEK once unlocked, and status and
    expiry of the rows of [grants]. *)
Record LeaseStore := mkLeaseStore {
  ls_cache : LeaseRegistry;
  ls_blobs : gmap string bytes;
  ls_persona_secrets : gmap string bytes;
  ls_chain_secrets : gmap string (Z * bytes);
  ls_kek : option LeaseWrapKey;
  ls_grants : gmap string (string * option Z)
}.

Definition set_cache (st : LeaseStore) (reg : LeaseRegistry) : LeaseStore :=
  mkLeaseStore reg (ls_blobs st) (ls_persona_secrets st) (ls_chain_secrets st) (ls_kek st) (ls_grants st).
Definition set_blobs (st : LeaseStore) (b : gmap string bytes) : LeaseStore :=
  mkLeaseStore (ls_cache st) b (ls_persona_secrets st) (ls_chain_secrets st) (ls_kek st) (ls_grants st).
Definition set_persona_secrets (st : LeaseStore) (b : gmap string bytes) : LeaseStore :=
  mkLeaseStore (ls_cache st) (ls_blobs st) b (ls_chain_secrets st) (ls_kek st) (ls_grants st).
Definition set_chain_secrets (st : LeaseStore) (b : gmap string (Z * bytes)) : LeaseStore :=
  mkLeaseStore (ls_cache st) (ls_blobs st) (ls_persona_secrets st) b (ls_kek st) (ls_grants st).
Definition set_kek (st : LeaseStore) (k : option LeaseWrapKey) : LeaseStore :=
  mkLeaseStore (ls_cache st) (ls_blobs st) (ls_persona_secrets st) (ls_chain_secrets st) k (ls_grants st).
Definition set_grants (st : LeaseStore) (g : gmap string (string * option Z)) : LeaseStore :=
  mkLeaseStore (ls_cache st) (ls_blobs st) (ls_persona_secrets st) (ls_chain_secrets st) (ls_kek st) g.

(** Which database calls of an operation fail, with the error's text. *)
Record Db := mkDb {
  db_write : option string;
  db_read : option string;
  db_delete : string → option string;
  db_delete_secret : string → option string;
  db_query : string → option string
}.

Definition db_ok : Db := mkDb None None (λ _, None) (λ _, None) (λ _, None).

Definition write_lease_blob (db : Db) (st : LeaseStore) (rec : PersistedLease)
  : result unit string * LeaseStore :=
  match db_write db with
  | Some e => (Err e, st)
  | None => (Ok tt, set_blobs st (<[pl_grant_id rec := pl_wrapped_blob rec]> (ls_blobs st)))
  end.

Definition read_lease_blob (db : Db) (st : LeaseStore) (grant_id : string)
  : result (option PersistedLease) string :=
  match db_read db with
  | Some e => Err e
  | None => Ok (mkPersisted grant_id <$> ls_blobs st !! grant_id)
  end.

Definition list_lease_blobs (db : Db) (st : LeaseStore) : result (list PersistedLease) string :=
  match db_read db with
  | Some e => Err e
  | None => Ok ((λ r, mkPersisted r.1 r.2) <$> btree_entries (ls_blobs st))
  end.

Definition delete_lease_blob (db : Db) (st : LeaseStore) (grant_id : string) : LeaseStore :=
  match db_delete db grant_id with
  | Some _ => st
  | None => set_blobs st (delete grant_id (ls_blobs st))
  end.

Definition delete_grant_persona_secret (db : Db) (st : LeaseStore) (grant_id : string) : LeaseStore :=
  match db_delete_secret db grant_id with
  | Some _ => st
  | None => set_persona_secrets st (delete grant_id (ls_persona_secrets st))
  end.

(** [SELECT 1 FROM grants WHERE id = ?1 AND status IN ('active', 'paused') AND (expires_at IS NULL
    OR expires_at > ?2)]; a failed query counts as not active. *)
Definition row_active (row : string * option Z) (now : Z) : bool :=
  bool_decide (row.1 ∈ ["active"; "paused"]) && negb (elapsed row.2 now).

Definition grant_is_active (db : Db) (st : LeaseStore) (grant_id : string) (now : Z) : bool :=
  match db_query db grant_id with
  | Some _ => false
  | None => match ls_grants st !! grant_id with Some row => row_active row now | None => false end
  end.

(** The two deletions that follow a lease that must not come back. *)
Definition forget_blob (db : Db) (st : LeaseStore) (grant_id : string) : LeaseStore :=
  delete_grant_persona_secret db (delete_lease_blob db st grant_id) grant_id.

(** ** The registry bound to the store *)

(** [key'] is the key of the in-memory lease when sealing fails. *)
Definition bound_mint (db : Db) (st : LeaseStore) (grant_id persona_id scope : string)
  (expires_at : option Z) (now : Z) (key key' : LeaseKey) (nonce : bytes) : LeaseStore :=
  match ls_kek st with
  | Some kek =>
      match mint_and_seal (ls_cache st) grant_id persona_id scope expires_at now kek key nonce with
      | Ok (rec, reg) => (write_lease_blob db (set_cache st reg) rec).2
      | Err _ => set_cache st (registry_mint (ls_cache st) grant_id persona_id scope expires_at now key')
      end
  | None => set_cache st (registry_mint (ls_cache st) grant_id persona_id scope expires_at now key)
  end.

Definition bound_drop (db : Db) (st : LeaseStore) (grant_id : string) : bool * LeaseStore :=
  let '(was_present, reg) := registry_drop (ls_cache st) grant_id in
  let st := set_cache st reg in
  let st := if bool_decide (is_Some (ls_kek st)) then delete_lease_blob db st grant_id else st in
  (was_present, delete_grant_persona_secret db st grant_id).

Definition rehydrate_row (db : Db) (now : Z) (kek : LeaseWrapKey) (st : LeaseStore)
  (rec : PersistedLease) : LeaseStore :=
  if negb (grant_is_active db st (pl_grant_id rec) now) then forget_blob db st (pl_grant_id rec)
  else match rehydrate (ls_cache st) rec now kek with
       | Ok (true, reg) => set_cache st reg
       | Ok (false, reg) => forget_blob db (set_cache st reg) (pl_grant_id rec)
       | Err _ => st
       end.

Definition rehydrate_if_cold (db : Db) (st : LeaseStore) (grant_id : string) (now : Z) : LeaseStore :=
  if negb (is_cold (ls_cache st) grant_id) then st
  else match ls_kek st with
       | None => st
       | Some kek =>
           match read_lease_blob db st grant_id with
           | Ok (Some persisted) => rehydrate_row db now kek st persisted
           | _ => st
           end
       end.

(** [DaemonStore::rehydrate_persisted_leases]: at start-up. *)
Definition rehydrate_persisted_leases (db : Db) (st : LeaseStore) (now : Z)
  : result unit string * LeaseStore :=
  match ls_kek st with
  | None => (Ok tt, st)
  | Some kek =>
      match list_lease_blobs db st with
      | Err e => (Err e, st)
      | Ok persisted => (Ok tt, foldl (rehydrate_row db now kek) st persisted)
      end
  end.

Definition on_cache {B} (f : LeaseRegistry → B * LeaseRegistry) (st : LeaseStore) : B * LeaseStore :=
  let '(b, reg) := f (ls_cache st) in (b, set_cache st reg).

Definition bound_has_live (db : Db) (st : LeaseStore) (grant_id : string) (now : Z) : bool * LeaseStore :=
  on_cache (λ reg, registry_has_live reg grant_id now) (rehydrate_if_cold db st grant_id now).

Definition bound_has_live_ssh (db : Db) (st : LeaseStore) (grant_id : string) (now : Z)
  : bool * LeaseStore :=
  on_cache (λ reg, registry_has_live_ssh reg grant_id now) (rehydrate_if_cold db st grant_id now).

Definition bound_with_key (db : Db) (st : LeaseStore) (grant_id : string) (now : Z)
  : option LeaseKey * LeaseStore :=
  on_cache (λ reg, registry_with_key reg grant_id now) (rehydrate_if_cold db st grant_id now).

Definition bound_reattach (db : Db) (st : LeaseStore) (grant_id : string) (now : Z)
  : option LeaseAttachment * LeaseStore :=
  on_cache (λ reg, registry_reattach reg grant_id now) (rehydrate_if_cold db st grant_id now).

(** [now + chrono::Duration::seconds(i64::try_from(secs).unwrap_or(i64::MAX))]: [None] where chrono
    panics, for a duration of more than [i64::MAX] milliseconds and for an instant after the
    year 262142. *)
Definition i64_max : Z := 2 ^ 63 - 1.
Definition MAX_UTC_NANOS : Z := 8210266876799 * 10 ^ 9 + 999999999.

Definition add_seconds (now secs : Z) : option Z :=
  let secs := Z.min secs i64_max in
  if (i64_max / 1000 <? secs)%Z then None
  else let t := (now + secs * 10 ^ 9)%Z in
       if (MAX_UTC_NANOS <? t)%Z then None else Some t.

(** The result is [None] where the call panics. *)
Definition bound_renew (db : Db) (st : LeaseStore) (grant_id : string) (lease_ttl_secs now : Z)
  (key : LeaseKey) (nonce : bytes)
  : option (result (option LeaseAttachment) LeaseCustodyError) * LeaseStore :=
  let st := rehydrate_if_cold db st grant_id now in
  if negb (grant_is_active db st grant_id now) then
    (Some (Ok None), set_cache st (registry_drop (ls_cache st) grant_id).2)
  else match add_seconds now lease_ttl_secs with
       | None => (None, st)
       | Some new_expires_at =>
           match ls_kek st with
           | Some kek =>
               let '(_, reg) := registry_reattach (ls_cache st) grant_id now in
               let '(r, reg) := renew_and_seal reg grant_id new_expires_at now kek key nonce in
               let st := set_cache st reg in
               match r with
               | Err e => (Some (Err e), st)
               | Ok None => (Some (Ok None), st)
               | Ok (Some (att, persisted)) =>
                   match write_lease_blob db st persisted with
                   | (Ok _, st) => (Some (Ok (Some att)), st)
                   | (Err e, st) =>
                       (Some (Err (Crypto ("persist renewed lease blob: " +:+ e))),
                        set_cache st (registry_drop (ls_cache st) grant_id).2)
                   end
               end
           | None =>
               let '(r, st) := on_cache (λ reg, registry_renew reg grant_id new_expires_at now key) st in
               (Some (Ok r), st)
           end
       end.

End Registry.

(** ** Sealed leases open again *)

Section Sealed.
Context {A : AeadOps} {J : MetaJson} {AL : AeadLaws A} {JL : MetaJsonLaws J}.

Lemma unwrap_wrap kek nonce p b : length nonce = 24 → wrap kek nonce p = Ok b → unwrap kek b = Ok p.
Proof.
  intros Hn Hw. unfold wrap in Hw. apply result_bind_Ok in Hw as (c & Hc & [= <-]).
  apply map_err_Ok in Hc. pose proof (aead_length _ _ _ _ _ Hc) as Hlen.
  unfold unwrap. rewrite length_app, Hn, bool_decide_false by lia.
  rewrite take_app_length', drop_app_length' by done.
  by rewrite (aead_open_seal _ _ _ _ _ Hc).
Qed.

Lemma decode_encode_sealed key meta p :
  length key = 32 → encode_sealed_plaintext key meta = Ok p → decode_sealed_plaintext p = Ok (key, meta).
Proof.
  intros Hk He. apply result_bind_Ok in He as (j & Hj & [= <-]). apply map_err_Ok in Hj.
  unfold decode_sealed_plaintext. rewrite length_app, bool_decide_false by lia.
  rewrite take_app_length', drop_app_length' by done. unfold from_unwrapped.
  rewrite bool_decide_false by auto. simpl. by rewrite (meta_json_roundtrip _ _ Hj).
Qed.

(** The blob of a key and its metadata. *)
Definition seals (kek key nonce : bytes) (meta : SealedLeaseMeta) (b : bytes) : Prop :=
  ∃ p, encode_sealed_plaintext key meta = Ok p ∧ wrap kek nonce p = Ok b.

Lemma seals_opens kek key nonce meta b :
  length key = 32 → length nonce = 24 → seals kek key nonce meta b →
  unwrap_sealed kek b = Ok (key, meta).
Proof.
  intros Hk Hn (p & He & Hw). unfold unwrap_sealed. rewrite (unwrap_wrap _ _ _ _ Hn Hw). simpl.
  by apply decode_encode_sealed.
Qed.

(** ** What each operation does to the cache *)

Definition lease_of (key : LeaseKey) (m : SealedLeaseMeta) : Lease :=
  mkLease (m_grant_id m) (m_persona_id m) (m_scope m) (m_expires_at m) (m_minted_at m) key.

Lemma lookup_evict reg g now g' :
  evict_if_expired reg g now !! g'
  = if decide (g' = g) then reg !! g ≫= (λ l, if is_expired_at l now then None else Some l)
    else reg !! g'.
Proof.
  unfold evict_if_expired. case_decide as D.
  - subst g'. destruct (reg !! g) as [l|] eqn:E; simpl; [|done].
    destruct (is_expired_at l now); [by rewrite lookup_delete_eq|done].
  - destruct (reg !! g) as [l|]; [|done]. destruct (is_expired_at l now); [|done].
    by rewrite lookup_delete_ne.
Qed.

Lemma evict_Some reg g now g' l : evict_if_expired reg g now !! g' = Some l → reg !! g' = Some l.
Proof.
  rewrite lookup_evict. case_decide as D; [subst g'|done].
  destruct (reg !! g) as [l'|]; simpl; [|done]. by destruct (is_expired_at l' now).
Qed.

Lemma evict_live reg g now l :
  evict_if_expired reg g now !! g = Some l ↔ reg !! g = Some l ∧ is_expired_at l now = false.
Proof.
  rewrite lookup_evict, decide_True by done. destruct (reg !! g) as [l'|]; simpl; [|naive_solver].
  destruct (is_expired_at l' now) eqn:E.
  - split; [done|]. intros [[= <-] ?]. congruence.
  - split; [by intros [= <-]|by intros [[= <-] _]].
Qed.

Lemma mint_and_seal_Ok reg g p s e now kek key nonce rec reg' :
  mint_and_seal reg g p s e now kek key nonce = Ok (rec, reg') →
  pl_grant_id rec = g ∧ seals kek key nonce (mkMeta g p s e now) (pl_wrapped_blob rec) ∧
  reg' = <[g := lease_of key (mkMeta g p s e now)]> reg.
Proof.
  unfold mint_and_seal. intros H. apply result_bind_Ok in H as (pt & Hp & H).
  apply result_bind_Ok in H as (b & Hb & [= <- <-]). by split_and!; [|exists pt|].
Qed.

(** A row opened back into the cache is the sealed lease, of that row, in its time. *)
Lemma rehydrate_true reg rec now kek reg' :
  rehydrate reg rec now kek = Ok (true, reg') →
  ∃ key meta, unwrap_sealed kek (pl_wrapped_blob rec) = Ok (key, meta) ∧
    m_grant_id meta = pl_grant_id rec ∧ elapsed (m_expires_at meta) now = false ∧
    reg' = <[pl_grant_id rec := lease_of key meta]> reg.
Proof.
  unfold rehydrate. intros H. apply result_bind_Ok in H as ([key meta] & Hu & H).
  case_bool_decide as D; [done|]. destruct (elapsed _ now) eqn:E; [done|].
  injection H as <-. exists key, meta.
  assert (m_grant_id meta = pl_grant_id rec) as Hg by (destruct (decide (m_grant_id meta = pl_grant_id rec)); tauto).
  rewrite <-Hg. done.
Qed.

Lemma rehydrate_false reg rec now kek reg' : rehydrate reg rec now kek = Ok (false, reg') → reg' = reg.
Proof.
  unfold rehydrate. intros H. apply result_bind_Ok in H as ([key meta] & _ & H).
  case_bool_decide; [done|]. destruct (elapsed _ now); [by injection H|done].
Qed.

Lemma cache_forget db st g : ls_cache (forget_blob db st g) = ls_cache st.
Proof.
  unfold forget_blob, delete_grant_persona_secret, delete_lease_blob.
  by destruct (db_delete_secret db g), (db_delete db g).
Qed.
Lemma kek_forget db st g : ls_kek (forget_blob db st g) = ls_kek st.
Proof.
  unfold forget_blob, delete_grant_persona_secret, delete_lease_blob.
  by destruct (db_delete_secret db g), (db_delete db g).
Qed.
Lemma grants_forget db st g : ls_grants (forget_blob db st g) = ls_grants st.
Proof.
  unfold forget_blob, delete_grant_persona_secret, delete_lease_blob.
  by destruct (db_delete_secret db g), (db_delete db g).
Qed.
Lemma blobs_forget db st g : ls_blobs (forget_blob db st g) ⊆ ls_blobs st.
Proof.
  unfold forget_blob, delete_grant_persona_secret, delete_lease_blob.
  destruct (db_delete_secret db g), (db_delete db g); simpl; try done; apply delete_subseteq.
Qed.

(** A step of rehydration changes nothing but the cache at the row, and only for an active grant and a
    blob that opens; the table only shrinks. *)
Lemma rehydrate_row_spec db now kek st rec :
  let st' := rehydrate_row db now kek st rec in
  ls_kek st' = ls_kek st ∧ ls_grants st' = ls_grants st ∧ ls_blobs st' ⊆ ls_blobs st ∧
  (ls_cache st' = ls_cache st ∨
   ∃ key meta, grant_is_active db st (pl_grant_id rec) now = true ∧
     unwrap_sealed kek (pl_wrapped_blob rec) = Ok (key, meta) ∧
     m_grant_id meta = pl_grant_id rec ∧ elapsed (m_expires_at meta) now = false ∧
     ls_cache st' = <[pl_grant_id rec := lease_of key meta]> (ls_cache st)).
Proof.
  simpl. unfold rehydrate_row. destruct (grant_is_active _ _ _ _) eqn:Ea; cbn [negb].
  - destruct (rehydrate _ _ _ _) as [[[] reg]|e] eqn:Er.
    + apply rehydrate_true in Er as (key & meta & ? & ? & ? & ->). split_and!; [done..|].
      right. by exists key, meta.
    + apply rehydrate_false in Er as ->. rewrite cache_forget, kek_forget, grants_forget.
      split_and!; [done..| |by left]. etrans; [apply blobs_forget|done].
    + split_and!; [done..|by left].
  - rewrite cache_forget, kek_forget, grants_forget. split_and!; [done..|apply blobs_forget|by left].
Qed.

(** Opening a row again only ever removes sealed secrets. *)
Lemma secrets_cold db st g now :
  let st' := rehydrate_if_cold db st g now in
  ls_chain_secrets st' = ls_chain_secrets st ∧ ls_persona_secrets st' ⊆ ls_persona_secrets st.
Proof.
  cbn. unfold rehydrate_if_cold, rehydrate_row, forget_blob, delete_grant_persona_secret, delete_lease_blob.
  repeat case_match; split; try done; apply delete_subseteq.
Qed.

Lemma grants_cold db st g now : ls_grants (rehydrate_if_cold db st g now) = ls_grants st.
Proof.
  unfold rehydrate_if_cold. repeat case_match; try done.
  by destruct (rehydrate_row_spec db now l st p) as (_ & -> & _).
Qed.
End Sealed.

(** ** Runs of the daemon *)

(** The store together with what has happened: the leases that were issued (by a mint or a renewal) and
    the blobs that were in the table at some time. *)
Record World := mkWorld { w_store : LeaseStore; w_issued : list Lease; w_seen : list bytes }.

Definition note (w : World) (st : LeaseStore) (issued : list Lease) : World :=
  mkWorld st (issued ++ w_issued w) ((map_to_list (ls_blobs st)).*2 ++ w_seen w).

Definition cached (st : LeaseStore) (g : string) : list Lease :=
  match ls_cache st !! g with Some l => [l] | None => [] end.

(** What a step does to the authority for a grant, as far as the theorems tell steps apart. *)
Inductive Label :=
| LMint (g : string)
| LGrants (m : gmap string (string * option Z))
| LOther.

Section Runs.
Context {A : AeadOps} {J : MetaJson} (kek : LeaseWrapKey).

(** The operations at any time and with any failing database calls; restarts, which lose the cache
    and the key; unlocking; any change of the grants table; and an adversary who can write to the
    table of blobs: remove rows, put back any blob that was ever there under any grant, and write
    anything that does not open under the key. *)
Inductive step : World → Label → World → Prop :=
| step_mint w db g p s e now key key' nonce :
    length key = 32 → length key' = 32 → length nonce = 24 →
    let st := bound_mint db (w_store w) g p s e now key key' nonce in
    step w (LMint g) (note w st (cached st g))
| step_renew w db g ttl now key nonce r st :
    length key = 32 → length nonce = 24 →
    bound_renew db (w_store w) g ttl now key nonce = (r, st) →
    step w LOther (note w st (match r with Some (Ok (Some _)) => cached st g | _ => [] end))
| step_drop w db g : step w LOther (note w (bound_drop db (w_store w) g).2 [])
| step_live w db g now : step w LOther (note w (bound_has_live db (w_store w) g now).2 [])
| step_ssh w db g now : step w LOther (note w (bound_has_live_ssh db (w_store w) g now).2 [])
| step_key w db g now : step w LOther (note w (bound_with_key db (w_store w) g now).2 [])
| step_reattach w db g now : step w LOther (note w (bound_reattach db (w_store w) g now).2 [])
| step_startup w db now : step w LOther (note w (rehydrate_persisted_leases db (w_store w) now).2 [])
| step_restart w : step w LOther (note w (set_kek (set_cache (w_store w) ∅) None) [])
| step_unlock w : step w LOther (note w (set_kek (w_store w) (Some kek)) [])
| step_grants w m : step w (LGrants m) (note w (set_grants (w_store w) m) [])
| step_erase w g : step w LOther (note w (set_blobs (w_store w) (delete g (ls_blobs (w_store w)))) [])
| step_replay w g b :
    b ∈ w_seen w → step w LOther (note w (set_blobs (w_store w) (<[g := b]> (ls_blobs (w_store w)))) [])
| step_garbage w g b :
    (∀ p, unwrap kek b ≠ Ok p) →
    step w LOther (note w (set_blobs (w_store w) (<[g := b]> (ls_blobs (w_store w)))) []).

Inductive run : World → list Label → World → Prop :=
| run_nil w : run w [] w
| run_cons w a w' ls w'' : step w a w' → run w' ls w'' → run w (a :: ls) w''.

(** A fresh installation: no leases, and the key locked. *)
Definition fresh (w : World) : Prop :=
  ls_cache (w_store w) = ∅ ∧ ls_blobs (w_store w) = ∅ ∧ ls_kek (w_store w) = None ∧
  w_issued w = [] ∧ w_seen w = [].

(** *** The invariant *)

Definition cache_issued (reg : LeaseRegistry) (issued : list Lease) : Prop :=
  ∀ g l, reg !! g = Some l → l_grant_id l = g ∧ l ∈ issued.

Definition blob_issued (issued : list Lease) (b : bytes) : Prop :=
  ∀ key meta, unwrap_sealed kek b = Ok (key, meta) → lease_of key meta ∈ issued.

Record inv (w : World) : Prop := {
  inv_kek : ls_kek (w_store w) = None ∨ ls_kek (w_store w) = Some kek;
  inv_cache : cache_issued (ls_cache (w_store w)) (w_issued w);
  inv_seen : ∀ b, b ∈ w_seen w → blob_issued (w_issued w) b;
  inv_table : ∀ g b, ls_blobs (w_store w) !! g = Some b → b ∈ w_seen w
}.

(** What an operation keeps of a store, for the leases issued so far. *)
Definition keeps (issued : list Lease) (st st' : LeaseStore) : Prop :=
  ls_kek st' = ls_kek st ∧ ls_blobs st' ⊆ ls_blobs st ∧
  (cache_issued (ls_cache st) issued → cache_issued (ls_cache st') issued).

Lemma inv_note w st new :
  inv w →
  (ls_kek st = None ∨ ls_kek st = Some kek) →
  cache_issued (ls_cache st) (new ++ w_issued w) →
  (∀ g b, ls_blobs st !! g = Some b → b ∈ w_seen w ∨ blob_issued (new ++ w_issued w) b) →
  inv (note w st new).
Proof.
  intros I Hk Hc Hb. split; simpl; [done|done| |].
  - intros b [Hin|Hin]%elem_of_app.
    + apply list_elem_of_fmap in Hin as ([g b'] & -> & Hin%elem_of_map_to_list). simpl.
      destruct (Hb g b' Hin) as [Hs|?]; [|done].
      intros k m Ho. apply elem_of_app. right. by apply (inv_seen _ I _ Hs).
    + intros k m Ho. apply elem_of_app. right. by apply (inv_seen _ I _ Hin).
  - intros g b Hg. apply elem_of_app. left. apply list_elem_of_fmap.
    exists (g, b). by rewrite elem_of_map_to_list.
Qed.

Lemma inv_keeps w st : inv w → keeps (w_issued w) (w_store w) st → inv (note w st []).
Proof.
  intros I (Hk & Hb & Hc). apply inv_note; [done| | |].
  - rewrite Hk. apply (inv_kek _ I).
  - apply Hc, (inv_cache _ I).
  - intros g b Hg. left. apply (inv_table _ I g). by eapply lookup_weaken.
Qed.

Lemma keeps_refl issued st : keeps issued st st.
Proof. by split_and!. Qed.
Lemma keeps_trans issued st1 st2 st3 : keeps issued st1 st2 → keeps issued st2 st3 → keeps issued st1 st3.
Proof.
  intros (E1 & S1 & C1) (E2 & S2 & C2). split_and!; [congruence|by etrans|naive_solver].
Qed.

Lemma cache_issued_subset reg reg' issued :
  cache_issued reg issued → (∀ g l, reg' !! g = Some l → reg !! g = Some l) → cache_issued reg' issued.
Proof. intros H Hs g l Hl. apply H, Hs, Hl. Qed.

Lemma cache_issued_evict reg g now issued :
  cache_issued reg issued → cache_issued (evict_if_expired reg g now) issued.
Proof. intros H. eapply cache_issued_subset; [done|]. intros ???. by eapply evict_Some. Qed.

Lemma cache_issued_delete reg g issued : cache_issued reg issued → cache_issued (delete g reg) issued.
Proof. intros H. eapply cache_issued_subset; [done|]. by intros ?? [_ ?]%lookup_delete_Some. Qed.

Lemma cache_issued_insert reg g l issued :
  cache_issued reg issued → l_grant_id l = g → l ∈ issued → cache_issued (<[g := l]> reg) issued.
Proof. intros H Hg Hl g' l' [[<- <-]|[_ Hg']]%lookup_insert_Some; [done|by apply H]. Qed.

Lemma cache_issued_mono reg issued new : cache_issued reg issued → cache_issued reg (new ++ issued).
Proof. intros H g l Hl. destruct (H g l Hl). split; [done|]. apply elem_of_app. by right. Qed.

Lemma keeps_evict issued st g now : keeps issued st (set_cache st (evict_if_expired (ls_cache st) g now)).
Proof. split_and!; [done..|]. apply cache_issued_evict. Qed.

(** Rehydration brings back issued leases only. *)
Lemma keeps_row issued db now st rec :
  blob_issued issued (pl_wrapped_blob rec) → keeps issued st (rehydrate_row db now kek st rec).
Proof.
  intros Hb. destruct (rehydrate_row_spec db now kek st rec) as (Hk & _ & Ht & Hc).
  split_and!; [done..|]. intros H. destruct Hc as [->|(key & meta & _ & Hu & Hg & _ & ->)]; [done|].
  apply cache_issued_insert; [done..|]. by apply Hb.
Qed.

Lemma keeps_cold w db g now : inv w → keeps (w_issued w) (w_store w) (rehydrate_if_cold db (w_store w) g now).
Proof.
  intros I. unfold rehydrate_if_cold. destruct (is_cold _ g); cbn [negb]; [|apply keeps_refl].
  destruct (inv_kek _ I) as [-> | ->]; [apply keeps_refl|]. unfold read_lease_blob.
  destruct (db_read db); [apply keeps_refl|].
  destruct (ls_blobs (w_store w) !! g) as [b|] eqn:Eb; simpl; [|apply keeps_refl].
  apply keeps_row. simpl. eapply inv_seen, inv_table; eauto.
Qed.

Lemma keeps_rows issued db now st recs :
  Forall (λ rec, blob_issued issued (pl_wrapped_blob rec)) recs →
  keeps issued st (foldl (rehydrate_row db now kek) st recs).
Proof.
  intros H. revert st. induction H as [|rec recs Hr _ IH]; intros st; simpl; [apply keeps_refl|].
  eapply keeps_trans; [by apply keeps_row|apply IH].
Qed.

End Runs.

Section RunsInv.
Context {A : AeadOps} {J : MetaJson} {AL : AeadLaws A} {JL : MetaJsonLaws J} (kek : LeaseWrapKey).

Lemma evict_idem reg g now :
  evict_if_expired (evict_if_expired reg g now) g now = evict_if_expired reg g now.
Proof.
  unfold evict_if_expired at 1. destruct (evict_if_expired reg g now !! g) as [l|] eqn:E; [|done].
  by apply evict_live in E as [_ ->].
Qed.

Lemma seal_Ok k key nonce meta b :
  (let? plaintext := encode_sealed_plaintext key meta in wrap k nonce plaintext) = Ok b ↔
  seals k key nonce meta b.
Proof. rewrite result_bind_Ok. done. Qed.

(** The two ends of a renewal: a new lease for the same persona and scope in place of the live one, in
    the table when the key is unlocked; or no renewal, with nothing but the cache changed, which
    has lost at most entries. *)
Definition renewed_to (key nonce : bytes) (ttl now : Z) (g : string) (st1 st' : LeaseStore)
  (att : LeaseAttachment) : Prop :=
  ∃ l e, evict_if_expired (ls_cache st1) g now !! g = Some l ∧ add_seconds now ttl = Some e ∧
    let meta := mkMeta g (l_persona_id l) (l_scope l) (Some e) now in
    att = attachment (lease_of key meta) ∧
    ls_cache st' = <[g := lease_of key meta]> (evict_if_expired (ls_cache st1) g now) ∧
    match ls_kek st1 with
    | None => ls_blobs st' = ls_blobs st1
    | Some k => ∃ b, seals k key nonce meta b ∧ ls_blobs st' = <[g := b]> (ls_blobs st1)
    end.

Lemma bound_renew_spec db st g ttl now key nonce r st' :
  bound_renew db st g ttl now key nonce = (r, st') →
  let st1 := rehydrate_if_cold db st g now in
  ls_kek st' = ls_kek st1 ∧ ls_grants st' = ls_grants st1 ∧
  ls_persona_secrets st' = ls_persona_secrets st1 ∧ ls_chain_secrets st' = ls_chain_secrets st1 ∧
  match r with
  | Some (Ok (Some att)) =>
      grant_is_active db st1 g now = true ∧ renewed_to key nonce ttl now g st1 st' att
  | _ => ls_blobs st' = ls_blobs st1 ∧ ∀ g' l, ls_cache st' !! g' = Some l → ls_cache st1 !! g' = Some l
  end.
Proof.
  intros H st1. unfold bound_renew in H. fold st1 in H.
  destruct (grant_is_active db st1 g now) eqn:Ea; cbn [negb] in H.
  2: { injection H as <- <-. split_and!; [done..|]. cbn. by intros g' l [_ ?]%lookup_delete_Some. }
  destruct (add_seconds now ttl) as [e|] eqn:Ee; [|by injection H as <- <-].
  destruct (ls_kek st1) as [k|] eqn:Ek.
  - cbn in H. unfold renew_and_seal in H. rewrite evict_idem in H.
    destruct (evict_if_expired (ls_cache st1) g now !! g) as [l|] eqn:El; cbn in H.
    2: { injection H as <- <-. split_and!; [done..|]. intros g' l'. apply evict_Some. }
    destruct (let? plaintext := _ in _) as [b|er] eqn:Es; cbn in H.
    2: { injection H as <- <-. split_and!; [done..|]. intros g' l'. apply evict_Some. }
    apply seal_Ok in Es. unfold write_lease_blob in H. destruct (db_write db) as [er|] eqn:Ew; cbn in H.
    + injection H as <- <-. split_and!; [done..|]. cbn. intros g' l' [Hne Hl]%lookup_delete_Some.
      rewrite lookup_insert_ne in Hl by done. by apply evict_Some in Hl.
    + injection H as <- <-. split_and!; [done..|]. unfold renewed_to. exists l, e. rewrite Ek. split_and!; try done. by exists b.
  - unfold on_cache, registry_renew in H.
    destruct (evict_if_expired (ls_cache st1) g now !! g) as [l|] eqn:El; injection H as <- <-; cbn.
    + split_and!; [done..|]. unfold renewed_to. exists l, e. by rewrite Ek.
    + split_and!; [done..|]. intros g' l'. apply evict_Some.
Qed.

Lemma inv_mint w db g p s e now key key' nonce :
  inv kek w → length key = 32 → length nonce = 24 →
  let st := bound_mint db (w_store w) g p s e now key key' nonce in
  inv kek (note w st (cached st g)).
Proof.
  intros I Hk Hn. simpl. unfold bound_mint.
  assert (∀ k, inv kek (note w (set_cache (w_store w) (registry_mint (ls_cache (w_store w)) g p s e now k))
                         [mkLease g p s e now k])) as Hplain.
  { intros k. apply inv_note; [done|apply I| |].
    - apply cache_issued_insert; [apply cache_issued_mono, I|done|by left].
    - intros g' b Hb. left. by apply (inv_table _ _ I g'). }
  destruct (ls_kek (w_store w)) as [k|] eqn:Ek.
  2: { unfold cached, registry_mint. cbn. rewrite lookup_insert_eq. apply Hplain. }
  assert (k = kek) as -> by (destruct (inv_kek _ _ I); congruence).
  destruct (mint_and_seal _ _ _ _ _ _ _ _ _) as [[rec reg]|er] eqn:Em.
  2: { unfold cached, registry_mint. cbn. rewrite lookup_insert_eq. apply Hplain. }
  apply mint_and_seal_Ok in Em as (<- & Hs & ->).
  set (meta := mkMeta (pl_grant_id rec) p s e now) in *.
  assert (cache_issued (<[pl_grant_id rec := lease_of key meta]> (ls_cache (w_store w)))
            ([lease_of key meta] ++ w_issued w)) as Hc.
  { apply cache_issued_insert; [apply cache_issued_mono, I|done|by left]. }
  assert (blob_issued kek ([lease_of key meta] ++ w_issued w) (pl_wrapped_blob rec)) as Hb.
  { intros k' m' Ho. rewrite (seals_opens _ _ _ _ _ Hk Hn Hs) in Ho. injection Ho as <- <-. by left. }
  unfold write_lease_blob, cached.
  destruct (db_write db); cbn; rewrite lookup_insert_eq;
    (apply inv_note; [done|cbn; by right|done|]); cbn.
  - intros g' b Hg'. left. by apply (inv_table _ _ I g').
  - intros g' b [[<- <-]|[_ Hg']]%lookup_insert_Some; [by right|left; by apply (inv_table _ _ I g')].
Qed.

Lemma inv_renew w db g ttl now key nonce r st :
  inv kek w → length key = 32 → length nonce = 24 →
  bound_renew db (w_store w) g ttl now key nonce = (r, st) →
  inv kek (note w st (match r with Some (Ok (Some _)) => cached st g | _ => [] end)).
Proof.
  intros I Hk Hn Hr. apply bound_renew_spec in Hr. cbn zeta in Hr.
  destruct (keeps_cold kek w db g now I) as (Ek & Eb & Ec).
  set (st1 := rehydrate_if_cold db (w_store w) g now) in *.
  destruct Hr as (Hkek & _ & _ & _ & Hr).
  assert (ls_kek st1 = None ∨ ls_kek st1 = Some kek) as Hk1 by (rewrite Ek; apply I).
  assert (∀ issued, (match r with Some (Ok (Some _)) => False | _ => True end) →
            ls_blobs st = ls_blobs st1 → (∀ g' l, ls_cache st !! g' = Some l → ls_cache st1 !! g' = Some l) →
            issued = [] → inv kek (note w st issued)) as Hplain.
  { intros ? _ Hb Hc ->. apply inv_keeps; [done|]. split_and!; [congruence|by rewrite Hb|].
    intros Hi. eapply cache_issued_subset; [by apply Ec|done]. }
  destruct r as [[[att|]|]|]; try (destruct Hr; by apply Hplain).
  destruct Hr as (_ & l & e & Hl & _ & -> & Hc & Hb).
  set (meta := mkMeta g (l_persona_id l) (l_scope l) (Some e) now) in *.
  unfold cached. rewrite Hc, lookup_insert_eq. apply inv_note; [done|by rewrite Hkek| |].
  - rewrite Hc. apply cache_issued_insert; [|done|by left].
    apply cache_issued_evict, cache_issued_mono, Ec, I.
  - intros g' b' Hg'. destruct (ls_kek st1) as [k|].
    + destruct Hb as (b & Hs & Hb). rewrite Hb in Hg'.
      apply lookup_insert_Some in Hg' as [[<- <-]|[_ Hg']].
      * right. destruct Hk1 as [|[= ->]]; [done|]. intros k' m' Ho.
        rewrite (seals_opens _ _ _ _ _ Hk Hn Hs) in Ho. injection Ho as <- <-. by left.
      * left. eapply inv_table; [done|]. by eapply lookup_weaken.
    + left. rewrite Hb in Hg'. eapply inv_table; [done|]. by eapply lookup_weaken.
Qed.

(** The store after a check of the lease: opened if cold, and evicted if expired. *)
Definition checked (db : Db) (st : LeaseStore) (g : string) (now : Z) : LeaseStore :=
  let st1 := rehydrate_if_cold db st g now in set_cache st1 (evict_if_expired (ls_cache st1) g now).

Lemma keeps_checked w db g now : inv kek w → keeps (w_issued w) (w_store w) (checked db (w_store w) g now).
Proof. intros I. eapply keeps_trans; [by apply (keeps_cold kek)|apply keeps_evict]. Qed.

Lemma keeps_drop issued db st g : keeps issued st (bound_drop db st g).2.
Proof.
  unfold bound_drop, delete_grant_persona_secret, delete_lease_blob. cbn.
  repeat case_match; split_and!; cbn; try done; try apply cache_issued_delete; apply delete_subseteq.
Qed.

Lemma inv_step w a w' : inv kek w → step kek w a w' → inv kek w'.
Proof.
  intros I S. destruct S.
  - by apply inv_mint.
  - by eapply inv_renew.
  - apply inv_keeps, keeps_drop; done.
  - apply inv_keeps, keeps_checked; done.
  - apply inv_keeps, keeps_checked; done.
  - apply inv_keeps, keeps_checked; done.
  - apply inv_keeps, keeps_checked; done.
  - apply inv_keeps; [done|]. unfold rehydrate_persisted_leases, list_lease_blobs.
    destruct (inv_kek _ _ I) as [-> | ->]; [apply keeps_refl|]. destruct (db_read db); [apply keeps_refl|].
    apply keeps_rows, Forall_fmap, Forall_forall. intros [g b] Hin. cbn.
    unfold btree_entries in Hin. rewrite sort_by_perm in Hin. apply elem_of_map_to_list in Hin.
    eapply inv_seen, inv_table; eauto.
  - apply inv_note; [done|by left|done|]. intros g b Hg. left. by apply (inv_table _ _ I g).
  - apply inv_note; [done|by right|apply I|]. intros g b Hg. left. by apply (inv_table _ _ I g).
  - apply inv_note; [done|apply I|apply I|]. intros g b Hg. left. by apply (inv_table _ _ I g).
  - apply inv_keeps; [done|]. split_and!; [done|apply delete_subseteq|done].
  - apply inv_note; [done|apply I|apply I|]. cbn.
    intros g' b' [[<- <-]|[_ Hg']]%lookup_insert_Some; left; [done|by apply (inv_table _ _ I g')].
  - apply inv_note; [done|apply I|apply I|]. cbn.
    intros g' b' [[<- <-]|[_ Hg']]%lookup_insert_Some; [right|left; by apply (inv_table _ _ I g')].
    intros k m Ho. apply result_bind_Ok in Ho as (p & Hp & _). naive_solver.
Qed.

Lemma inv_run w ls w' : inv kek w → run kek w ls w' → inv kek w'.
Proof. intros I R. induction R; [done|]. eauto using inv_step. Qed.

Lemma inv_fresh w : fresh w → inv kek w.
Proof.
  intros (Hc & Hb & Hk & Hi & Hs). split.
  - by left.
  - rewrite Hc. by intros g l.
  - rewrite Hs. by intros b Hn%elem_of_nil.
  - rewrite Hb. by intros g b.
Qed.

(** *** Grants without authority *)

Definition inactive (st : LeaseStore) (g : string) : Prop :=
  ∀ row now, ls_grants st !! g = Some row → row_active row now = false.

Definition dead (g : string) (st : LeaseStore) : Prop := ls_cache st !! g = None ∧ inactive st g.

(** The steps that do not give a grant new authority. *)
Definition harmless (g : string) (a : Label) : Prop :=
  match a with
  | LMint g' => g' ≠ g
  | LGrants m => ∀ row now, m !! g = Some row → row_active row now = false
  | LOther => True
  end.

Lemma inactive_query db st g now : inactive st g → grant_is_active db st g now = false.
Proof.
  intros H. unfold grant_is_active. destruct (db_query db g); [done|].
  destruct (ls_grants st !! g) as [row|] eqn:E; [by apply H|done].
Qed.

Lemma dead_row g db now k st rec : dead g st → dead g (rehydrate_row db now k st rec).
Proof.
  intros [Hc Hi]. destruct (rehydrate_row_spec db now k st rec) as (_ & Hg & _ & Hr). split.
  - destruct Hr as [->|(key & meta & Ha & _ & _ & _ & ->)]; [done|]. apply lookup_insert_None. split; [done|].
    intros E. by rewrite E, (inactive_query _ _ _ _ Hi) in Ha.
  - unfold inactive. by rewrite Hg.
Qed.

Lemma dead_cold g db st g' now : dead g st → dead g (rehydrate_if_cold db st g' now).
Proof. intros H. unfold rehydrate_if_cold. repeat case_match; try done; by apply dead_row. Qed.

Lemma dead_cache g st reg :
  dead g st → (∀ l, reg !! g = Some l → ls_cache st !! g = Some l) → dead g (set_cache st reg).
Proof.
  intros [Hc Hi] Hs. split; [|done]. cbn. destruct (reg !! g) as [l|] eqn:E; [|done].
  rewrite (Hs l) in Hc; done.
Qed.

Lemma dead_checked g db st g' now : dead g st → dead g (checked db st g' now).
Proof. intros H. apply dead_cache; [by apply dead_cold|]. intros l. apply evict_Some. Qed.

Lemma dead_renew g db st g' ttl now key nonce r st' :
  bound_renew db st g' ttl now key nonce = (r, st') → dead g st → dead g st'.
Proof.
  intros (_ & Hg & _ & _ & Hr)%bound_renew_spec H. cbn zeta in *.
  pose proof (dead_cold g db st g' now H) as [Hc Hi].
  assert (inactive st' g) as Hi' by (unfold inactive; by rewrite Hg). split; [|done].
  destruct r as [[[att|]|]|]; try (destruct Hr as [_ Hs]; destruct (ls_cache st' !! g) as [l|] eqn:E;
    [by rewrite (Hs _ _ E) in Hc|done]).
  destruct Hr as (_ & l & e & Hl & _ & _ & -> & _).
  apply evict_live in Hl as [Hl _]. apply lookup_insert_None. split; [|congruence].
  destruct (evict_if_expired _ g' now !! g) as [l'|] eqn:E; [|done].
  apply evict_Some in E. congruence.
Qed.

Lemma dead_step g w a w' : step kek w a w' → harmless g a → dead g (w_store w) → dead g (w_store w').
Proof.
  intros S Ha H. destruct S; cbn [w_store note].
  - assert (∀ st k, dead g st → dead g (set_cache st (registry_mint (ls_cache st) g0 p s e now k))) as Hm.
    { intros st' k Hd. apply dead_cache; [done|]. intros l. unfold registry_mint. by rewrite lookup_insert_ne. }
    unfold st, bound_mint. destruct (ls_kek (w_store w)); [|by apply Hm].
    destruct (mint_and_seal _ _ _ _ _ _ _ _ _) as [[rec reg]|] eqn:Em; [|by apply Hm].
    apply mint_and_seal_Ok in Em as (_ & _ & ->). unfold write_lease_blob.
    destruct (db_write db); cbn; split; cbn; try apply H; by rewrite lookup_insert_ne; [apply H|].
  - by eapply dead_renew.
  - unfold bound_drop, delete_grant_persona_secret, delete_lease_blob. cbn. destruct H as [Hc Hi].
    repeat case_match; split; cbn; try done; apply lookup_delete_None; by right.
  - by apply dead_checked.
  - by apply dead_checked.
  - by apply dead_checked.
  - by apply dead_checked.
  - unfold rehydrate_persisted_leases, list_lease_blobs. repeat case_match; try done. cbn.
    clear -H. match goal with |- dead _ (foldl _ _ ?l) => generalize l end. intros rows. revert H.
    generalize (w_store w). induction rows as [|r rows IH]; intros st H; cbn; [done|]. by apply IH, dead_row.
  - split; [done|apply H].
  - by split; apply H.
  - split; [apply H|]. exact Ha.
  - by split; apply H.
  - by split; apply H.
  - by split; apply H.
Qed.

Lemma dead_run g w ls w' :
  run kek w ls w' → Forall (harmless g) ls → dead g (w_store w) → dead g (w_store w').
Proof.
  intros R. induction R; intros Hh Hd; [done|]. apply Forall_cons in Hh as [? ?]. eauto using dead_step.
Qed.

Lemma dead_inert g db st now :
  dead g st →
  (bound_with_key db st g now).1 = None ∧ (bound_has_live db st g now).1 = false ∧
  (bound_has_live_ssh db st g now).1 = false ∧ (bound_reattach db st g now).1 = None.
Proof.
  intros H. destruct (dead_checked g db st g now H) as [Hc _]. unfold checked in Hc. cbn in Hc.
  cbn. rewrite Hc. by split_and!.
Qed.
End RunsInv.

(** ** A small instance *)

Module ToyLease.

Definition tag (k : bytes) : bytes := take 16 (k ++ repeat Ascii.zero 16).

#[export] Instance aead : AeadOps := {|
  aead_encrypt k n m a := Ok (tag k ++ m);
  aead_decrypt k n c a := if bool_decide (take 16 c = tag k) then Ok (drop 16 c) else Err "tag mismatch"
|}.

Lemma tag_length k : length (tag k) = 16.
Proof. unfold tag. rewrite length_take, length_app, repeat_length. lia. Qed.

#[export] Instance aead_laws : AeadLaws aead.
Proof.
  split.
  - intros k n m a c [= <-]. cbn. rewrite take_app_length' by (by rewrite tag_length).
    rewrite bool_decide_true by done. by rewrite drop_app_length' by (by rewrite tag_length).
  - intros k n m a c [= <-]. rewrite length_app, tag_length. lia.
Qed.

#[export] Instance meta_eq_dec : EqDecision SealedLeaseMeta.
Proof. solve_decision. Defined.

(** A document is the number of the record in a table. *)
Definition json (table : list SealedLeaseMeta) : MetaJson := {|
  meta_to_json m := match list_find (m =.) table with
                    | Some (i, _) => Ok (repeat Ascii.zero i)
                    | None => Err "unknown"
                    end;
  meta_from_json j := match table !! length j with Some m => Ok m | None => Err "unknown" end
|}.

Lemma json_laws table : MetaJsonLaws (json table).
Proof.
  split. intros m j. cbn. destruct (list_find _ table) as [[i m']|] eqn:E; [|done]. intros [= <-].
  apply list_find_Some in E as (Hi & <- & _). by rewrite repeat_length, Hi.
Qed.

Definition kek : bytes := repeat "k"%char 32.
Definition key (c : ascii) : bytes := repeat c 32.
Definition nonce : bytes := repeat "n"%char 24.
Definition grants : gmap string (string * option Z) := {[ "g" := ("active", None) ]}.
Definition empty : LeaseStore := mkLeaseStore ∅ ∅ ∅ ∅ None grants.
Definition unlocked : LeaseStore := set_kek empty (Some kek).
Definition meta : SealedLeaseMeta := mkMeta "g" "p" "a:b:c" (Some 100%Z) 1.
Definition world : World := mkWorld empty [] [].

End ToyLease.

(** ** Properties *)

(** C31. Authority to act is always backed by an issue. Take any run of the daemon from a fresh
    installation: mints, renewals, revocations, checks, restarts, unlocks, failing database calls,
    and an adversary who rewrites the table of sealed leases (rows removed, swapped between
    grants or replayed, and garbage). A check that then finds a live lease for a grant has found
    one that was issued for that very grant, with the key, persona, scope and expiry of the
    issue, and not past its expiry; the check for SSH signing finds only leases with an expiry and
    a scope that authorizes signing, and a reattached window is the issued one. *)
Theorem live_lease_backed {A : AeadOps} {J : MetaJson} {AL : AeadLaws A} {JL : MetaJsonLaws J}
  kek w0 ls w db g now :
  fresh w0 → run kek w0 ls w →
  let issued P := ∃ l, l ∈ w_issued w ∧ l_grant_id l = g ∧ is_expired_at l now = false ∧ P l in
  (∀ k, (bound_with_key db (w_store w) g now).1 = Some k → issued (λ l, l_key l = k)) ∧
  ((bound_has_live db (w_store w) g now).1 = true → issued (λ _, True)) ∧
  ((bound_has_live_ssh db (w_store w) g now).1 = true →
     issued (λ l, l_expires_at l ≠ None ∧ scope_authorizes_ssh_signing (l_scope l) = true)) ∧
  (∀ a, (bound_reattach db (w_store w) g now).1 = Some a → issued (λ l, a = attachment l)).
Proof.
  intros F R. cbn zeta. pose proof (inv_run _ _ _ _ (inv_fresh kek _ F) R) as I.
  destruct (keeps_checked kek w db g now I) as (_ & _ & Hc). specialize (Hc (inv_cache _ _ I)).
  unfold checked in Hc. cbn in Hc. cbn.
  destruct (evict_if_expired _ g now !! g) as [l|] eqn:E; [|by split_and!].
  destruct (Hc _ _ E) as [Hg Hi]. apply evict_live in E as [_ He].
  split_and!; intros; exists l; simplify_eq/=; split_and!; try done.
  - apply andb_prop in H as [H _]. by apply bool_decide_eq_true, not_eq_None_Some in H.
  - by apply andb_prop in H as [_ H].
Qed.

Lemma live_lease_backed_witness :
  let A := ToyLease.aead in let J := ToyLease.json [ToyLease.meta] in
  ∃ ls w, run ToyLease.kek ToyLease.world ls w ∧
    (bound_with_key db_ok (w_store w) "g" 50).1 = Some (ToyLease.key "x") ∧
    ∃ l, l ∈ w_issued w ∧ l_grant_id l = "g" ∧ is_expired_at l 50 = false ∧ l_key l = ToyLease.key "x".
Proof.
  intros A J. pose proof ToyLease.aead_laws as AL. pose proof (ToyLease.json_laws [ToyLease.meta]) as JL.
  eexists _, _. match goal with |- ?R ∧ _ => assert R as Hr end.
  { eapply run_cons; [apply step_unlock|].
    eapply run_cons; [apply (step_mint _ _ db_ok "g" "p" "a:b:c" (Some 100%Z) 1 (ToyLease.key "x")
                               (ToyLease.key "y") ToyLease.nonce); done|].
    eapply run_cons; [apply step_restart|]. eapply run_cons; [apply step_unlock|]. apply run_nil. }
  split; [exact Hr|].
  match goal with |- (?x.1 = Some ?k) ∧ _ => assert (x.1 = Some k) as Hk by (vm_compute; reflexivity) end.
  split; [exact Hk|].
  eapply (live_lease_backed ToyLease.kek ToyLease.world); [|exact Hr|exact Hk].
  by split_and!.
Defined.

(** A revoked grant stays without authority. Once a lease was dropped and the row of its grant is no
    longer active, no later run that neither mints a lease for the grant nor makes its row active
    again finds a live lease, whatever database calls failed (the deletion of the blob included),
    whatever the adversary writes to the table, and across restarts. No assumption on the
    cipher is needed. *)
Theorem revoked_stays_inert {A : AeadOps} {J : MetaJson} kek w0 db0 st g ls w db now :
  inactive st g →
  w_store w0 = (bound_drop db0 st g).2 →
  run kek w0 ls w → Forall (harmless g) ls →
  (bound_with_key db (w_store w) g now).1 = None ∧ (bound_has_live db (w_store w) g now).1 = false ∧
  (bound_has_live_ssh db (w_store w) g now).1 = false ∧ (bound_reattach db (w_store w) g now).1 = None.
Proof.
  intros Hi Hw R Hh. apply dead_inert. eapply dead_run; [done..|]. rewrite Hw.
  unfold bound_drop, delete_grant_persona_secret, delete_lease_blob. cbn.
  repeat case_match; split; cbn; try done; apply lookup_delete_eq.
Qed.

Lemma revoked_stays_inert_witness :
  let A := ToyLease.aead in let J := ToyLease.json [ToyLease.meta] in
  let st := set_grants (bound_mint db_ok ToyLease.unlocked "g" "p" "a:b:c" (Some 100%Z) 1 (ToyLease.key "x")
                          (ToyLease.key "y") ToyLease.nonce) {[ "g" := ("revoked", None) ]} in
  let db0 := mkDb None None (λ _, Some "locked") (λ _, Some "locked") (λ _, None) in
  let w0 := mkWorld (bound_drop db0 st "g").2 [] [] in
  ∃ ls w, run ToyLease.kek w0 ls w ∧ ls_blobs (w_store w) !! "g" ≠ None ∧
    (bound_with_key db_ok (w_store w) "g" 50).1 = None.
Proof.
  intros A J st db0 w0. eexists _, _. match goal with |- ?R ∧ _ => assert R as Hr end.
  { eapply run_cons; [apply step_restart|]. eapply run_cons; [apply step_unlock|]. apply run_nil. }
  split; [exact Hr|]. split; [vm_compute; done|].
  eapply (revoked_stays_inert ToyLease.kek w0 db0 st "g"); [|done|exact Hr|].
  - intros row now. cbn. intros [= <-]. done.
  - by repeat constructor.
Defined.

(** A lease survives a restart, exactly for its time. After a mint with the key unlocked, a restart and
    an unlock, the lease of a grant that is still active is found again with the key, the
    persona, the scope and the window it was minted with, unless its time is over: then it is not
    found and its blob is gone. *)
Theorem lease_survives_restart {A : AeadOps} {J : MetaJson} {AL : AeadLaws A} {JL : MetaJsonLaws J}
  st kek g p s e now key key' nonce rec reg now' :
  length key = 32 → length nonce = 24 → ls_kek st = Some kek →
  mint_and_seal (ls_cache st) g p s e now kek key nonce = Ok (rec, reg) →
  let minted := bound_mint db_ok st g p s e now key key' nonce in
  let restarted := set_kek (set_cache minted ∅) (Some kek) in
  grant_is_active db_ok restarted g now' = true →
  if elapsed e now' then
    (bound_with_key db_ok restarted g now').1 = None ∧
    ls_blobs (bound_with_key db_ok restarted g now').2 !! g = None
  else
    (bound_with_key db_ok restarted g now').1 = Some key ∧
    (bound_reattach db_ok restarted g now').1 = Some (mkAttachment g p s e now).
Proof.
  intros Hk Hn Ek Em minted restarted Ha. pose proof Em as Em'.
  apply mint_and_seal_Ok in Em' as (Hg & Hs & _). pose proof (seals_opens _ _ _ _ _ Hk Hn Hs) as Ho.
  assert (ls_blobs restarted !! g = Some (pl_wrapped_blob rec)) as Hb.
  { unfold restarted, minted, bound_mint. rewrite Ek, Em. cbn. by rewrite Hg, lookup_insert_eq. }
  assert (ls_cache restarted = ∅) as Hc by done. assert (ls_kek restarted = Some kek) as Hk' by done.
  clearbody restarted. clear minted.
  assert (rehydrate_if_cold db_ok restarted g now'
          = if elapsed e now' then forget_blob db_ok (set_cache restarted ∅) g
            else set_cache restarted {[ g := mkLease g p s e now key ]}) as Hcold.
  { unfold rehydrate_if_cold, is_cold, read_lease_blob. rewrite Hc, Hk', bool_decide_true by done. cbn.
    rewrite Hb. cbn. unfold rehydrate_row. cbn [pl_grant_id pl_wrapped_blob]. rewrite Ha. cbn [negb].
    unfold rehydrate. cbn [pl_grant_id pl_wrapped_blob]. rewrite Ho, Hc. cbn.
    rewrite bool_decide_false by (by intros []). cbn. by destruct (elapsed e now'). }
  unfold bound_with_key, bound_reattach, on_cache. rewrite Hcold.
  destruct (elapsed e now') eqn:Ee; cbn.
  - split; [done|]. by rewrite lookup_delete_eq.
  - assert (evict_if_expired {[g := mkLease g p s e now key]} g now' !! g = Some (mkLease g p s e now key)) as ->.
    { apply evict_live. by rewrite lookup_singleton_eq. }
    done.
Qed.

Lemma lease_survives_restart_witness :
  let A := ToyLease.aead in let J := ToyLease.json [ToyLease.meta] in
  let minted := bound_mint db_ok ToyLease.unlocked "g" "p" "a:b:c" (Some 100%Z) 1 (ToyLease.key "x")
                  (ToyLease.key "y") ToyLease.nonce in
  let restarted := set_kek (set_cache minted ∅) (Some ToyLease.kek) in
  (bound_with_key db_ok restarted "g" 50).1 = Some (ToyLease.key "x") ∧
  (bound_with_key db_ok restarted "g" 100).1 = None.
Proof.
  intros A J minted restarted. pose proof ToyLease.aead_laws as AL.
  pose proof (ToyLease.json_laws [ToyLease.meta]) as JL.
  destruct (mint_and_seal (J := J) ∅ "g" "p" "a:b:c" (Some 100%Z) 1 ToyLease.kek (ToyLease.key "x") ToyLease.nonce)
    as [[rec reg]|] eqn:E; [|vm_compute in E; done].
  split.
  - by apply (lease_survives_restart ToyLease.unlocked ToyLease.kek "g" "p" "a:b:c" (Some 100%Z) 1
                (ToyLease.key "x") (ToyLease.key "y") ToyLease.nonce rec reg 50).
  - by apply (lease_survives_restart ToyLease.unlocked ToyLease.kek "g" "p" "a:b:c" (Some 100%Z) 1
                (ToyLease.key "x") (ToyLease.key "y") ToyLease.nonce rec reg 100).
Defined.

(** A renewal moves the window and nothing else. A renewal that succeeds had a live lease of an active
    grant to start from; the renewed lease has its persona and scope, the new expiry, and a new
    key, which is what every later check finds until the new expiry. *)
Theorem renewal_keeps_identity {A : AeadOps} {J : MetaJson} db st g ttl now key nonce att st' :
  bound_renew db st g ttl now key nonce = (Some (Ok (Some att)), st') →
  ∃ old e, (bound_reattach db st g now).1 = Some old ∧ grant_is_active db st g now = true ∧
    add_seconds now ttl = Some e ∧
    att = mkAttachment g (la_persona_id old) (la_scope old) (Some e) now ∧
    ∀ db' now', (bound_with_key db' st' g now').1 = if (e <=? now')%Z then None else Some key.
Proof.
  intros (_ & _ & _ & _ & Ha & l & e & Hl & He & -> & Hc & _)%bound_renew_spec. cbn zeta in *.
  exists (attachment l), e. cbn. rewrite Hl. split_and!; [done| |done..|].
  { unfold grant_is_active in *. by rewrite grants_cold in Ha. }
  intros db' now'.
  unfold bound_with_key, on_cache, rehydrate_if_cold, is_cold.
  rewrite Hc, lookup_insert_eq, bool_decide_false by done. cbn. rewrite Hc.
  rewrite lookup_evict, decide_True, lookup_insert_eq by done. cbn.
  unfold is_expired_at. cbn. by destruct (e <=? now')%Z.
Qed.

Lemma renewal_keeps_identity_witness :
  let A := ToyLease.aead in
  let renewed := mkMeta "g" "p" "a:b:c" (Some (50 + 7 * 10 ^ 9)%Z) 50 in
  let J := ToyLease.json [ToyLease.meta; renewed] in
  let st := bound_mint db_ok ToyLease.unlocked "g" "p" "a:b:c" (Some 100%Z) 1 (ToyLease.key "x")
              (ToyLease.key "y") ToyLease.nonce in
  ∃ old e, (bound_reattach db_ok st "g" 50).1 = Some old ∧ la_scope old = "a:b:c" ∧
    (bound_with_key db_ok (bound_renew db_ok st "g" 7 50 (ToyLease.key "z") ToyLease.nonce).2 "g" 200).1
    = if (e <=? 200)%Z then None else Some (ToyLease.key "z").
Proof.
  intros A renewed J st.
  destruct (bound_renew db_ok st "g" 7 50 (ToyLease.key "z") ToyLease.nonce)
    as [[[[att|]|]|] st'] eqn:E; try (vm_compute in E; done).
  destruct (renewal_keeps_identity _ _ _ _ _ _ _ _ _ E) as (old & e & Ho & _ & _ & _ & Hk).
  exists old, e. split; [exact Ho|]. split; [|apply Hk]. vm_compute in Ho. by injection Ho as <-.
Defined.

(** A renewal whose blob cannot be written does not leave the persona without authority, as its log
    entry says: the old blob is still in the table, so the next check finds the lease from before
    the renewal, with its old key. *)
Theorem failed_renewal_keeps_old_lease {A : AeadOps} {J : MetaJson} db st kek g l b e nonce key p c ttl now why :
  ls_kek st = Some kek → ls_cache st !! g = Some l → l_grant_id l = g → is_expired_at l now = false →
  ls_blobs st !! g = Some b →
  unwrap_sealed kek b
    = Ok (l_key l, mkMeta g (l_persona_id l) (l_scope l) (l_expires_at l) (l_minted_at l)) →
  grant_is_active db st g now = true → grant_is_active db_ok st g now = true →
  add_seconds now ttl = Some e →
  encode_sealed_plaintext key (mkMeta g (l_persona_id l) (l_scope l) (Some e) now) = Ok p →
  wrap kek nonce p = Ok c →
  db_write db = Some why →
  let '(r, st') := bound_renew db st g ttl now key nonce in
  r = Some (Err (Crypto ("persist renewed lease blob: " +:+ why))) ∧
  (bound_with_key db_ok st' g now).1 = Some (l_key l).
Proof.
  intros Hk Hc Hg He Hb Ho Ha Ha' Hadd Henc Hwrap Hw.
  assert (rehydrate_if_cold db st g now = st) as Hwarm.
  { unfold rehydrate_if_cold, is_cold. by rewrite Hc, bool_decide_false. }
  assert (evict_if_expired (ls_cache st) g now = ls_cache st) as Hev.
  { unfold evict_if_expired. by rewrite Hc, He. }
  unfold bound_renew. rewrite Hwarm, Ha, Hadd, Hk. cbn [negb registry_reattach].
  unfold renew_and_seal. rewrite evict_idem, Hev, Hc, Henc. cbn. rewrite Hwrap. cbn.
  unfold write_lease_blob. rewrite Hw. split; [done|]. cbn.
  unfold rehydrate_if_cold at 1, is_cold. cbn. rewrite lookup_delete_eq, bool_decide_true, Hk by done. cbn.
  rewrite Hb. cbn. unfold rehydrate_row. cbn [pl_grant_id pl_wrapped_blob].
  match goal with |- context [grant_is_active db_ok ?x g now] =>
    assert (grant_is_active db_ok x g now = true) as -> by exact Ha' end.
  cbn [negb]. unfold rehydrate. cbn [pl_grant_id pl_wrapped_blob]. rewrite Ho. cbn.
  rewrite bool_decide_false by (by intros []).
  assert (elapsed (l_expires_at l) now = false) as -> by exact He. cbn.
  rewrite lookup_evict, decide_True, lookup_insert_eq by done. cbn. unfold is_expired_at in *. cbn.
  by rewrite He.
Qed.

(** A time to live of more than [i64::MAX] milliseconds makes the renewal of any live lease panic: the
    clamp to [i64::MAX] seconds is far outside of what chrono accepts. *)
Theorem renew_long_ttl_panics {A : AeadOps} {J : MetaJson} db st g ttl now key nonce :
  (i64_max / 1000 < ttl)%Z → grant_is_active db st g now = true →
  (bound_renew db st g ttl now key nonce).1 = None.
Proof.
  intros Ht Ha. unfold bound_renew.
  assert (grant_is_active db (rehydrate_if_cold db st g now) g now = true) as ->.
  { unfold grant_is_active in *. by rewrite grants_cold. }
  cbn [negb]. unfold add_seconds. rewrite (proj2 (Z.ltb_lt _ _)); [done|].
  assert (i64_max / 1000 < i64_max)%Z by done. lia.
Qed.

Lemma failed_renewal_keeps_old_lease_witness :
  let A := ToyLease.aead in
  let renewed := mkMeta "g" "p" "a:b:c" (Some (50 + 7 * 10 ^ 9)%Z) 50 in
  let J := ToyLease.json [ToyLease.meta; renewed] in
  let st := bound_mint db_ok ToyLease.unlocked "g" "p" "a:b:c" (Some 100%Z) 1 (ToyLease.key "x")
              (ToyLease.key "y") ToyLease.nonce in
  let db := mkDb (Some "disk full") None (λ _, None) (λ _, None) (λ _, None) in
  let '(r, st') := bound_renew db st "g" 7 50 (ToyLease.key "z") ToyLease.nonce in
  r = Some (Err (Crypto "persist renewed lease blob: disk full")) ∧
  (bound_with_key db_ok st' "g" 50).1 = Some (ToyLease.key "x").
Proof.
  intros A renewed J st db.
  set (b := default [] (ls_blobs st !! "g")).
  set (p := match encode_sealed_plaintext (J := J) (ToyLease.key "z") renewed with Ok p => p | Err _ => [] end).
  set (c := match wrap (A := A) ToyLease.kek ToyLease.nonce p with Ok c => c | Err _ => [] end).
  apply (failed_renewal_keeps_old_lease db st ToyLease.kek "g"
           (mkLease "g" "p" "a:b:c" (Some 100%Z) 1 (ToyLease.key "x")) b (50 + 7 * 10 ^ 9)%Z ToyLease.nonce
           (ToyLease.key "z") p c 7 50 "disk full"); vm_compute; reflexivity.
Defined.

Lemma renew_long_ttl_panics_witness :
  let A := ToyLease.aead in let J := ToyLease.json [ToyLease.meta] in
  (bound_renew db_ok ToyLease.unlocked "g" (2 ^ 64 - 1) 50 (ToyLease.key "z") ToyLease.nonce).1 = None.
Proof. intros A J. by apply renew_long_ttl_panics. Defined.
