(* ===== verification/LeaseSigning.v ===== *)
(** * Signing under a lease

    crates/ember-daemon/src/trust/grant.rs: the persona's root key and the key that extends a
    grant's chain are kept in the database, sealed under the key of the grant's lease. Block 0 of
    a chain is signed with the first ([mint_lease_and_lease_sign_block_zero]), an appended block
    with the second ([sign_appended_block_with_lease_handoff]); both need a live lease. The
    seeds and nonces the code draws at random are arguments. *)

From stdpp Require Import base gmap list strings.
From Stdlib Require Import Ascii Lia ZArith.
From S2P Require Import Prelude CoreTypes GrantTypes ChainCrypto ProxyDaemon Lease.

Local Infix "+:+" := String.append (at level 60, right associativity).

(** ** The sealed documents *)

Definition GRANT_PERSONA_SECRET_AAD_PREFIX : bytes := to_bytes "emberlink/adr211/v1/grant-persona-secret".
Definition GRANT_CHAIN_SECRET_AAD_PREFIX : bytes := to_bytes "emberlink/c1-h1-h3/v1/grant-chain-secret".

Record GrantPersonaSecretPlaintext := mkPersonaSecret {
  gp_schema_version : Z;
  gp_grant_id : string;
  gp_persona_id : string;
  gp_public_hex : string;
  gp_secret_hex : string
}.

Record GrantChainSecretPlaintext := mkChainSecret {
  gc_schema_version : Z;
  gc_grant_id : string;
  gc_tail_block_index : Z;
  gc_public_hex : string;
  gc_secret_hex : string
}.

Record PersonaRootKeyMaterial := mkMaterial { pm_public_hex : string; pm_secret_hex : string }.

(** serde_json on the two documents. *)
Class SecretJson := {
  persona_secret_to_json : GrantPersonaSecretPlaintext → result bytes string;
  persona_secret_from_json : bytes → result GrantPersonaSecretPlaintext string;
  chain_secret_to_json : GrantChainSecretPlaintext → result bytes string;
  chain_secret_from_json : bytes → result GrantChainSecretPlaintext string
}.

Class SecretJsonLaws (S : SecretJson) := {
  persona_secret_roundtrip m j : persona_secret_to_json m = Ok j → persona_secret_from_json j = Ok m;
  chain_secret_roundtrip m j : chain_secret_to_json m = Ok j → chain_secret_from_json j = Ok m
}.

(** [u32::to_le_bytes] *)
Definition u32_le (z : Z) : bytes := rev (u32_be z).

Definition grant_persona_secret_aad (grant_id persona_id : string) : bytes :=
  GRANT_PERSONA_SECRET_AAD_PREFIX
  ++ u32_le (as_u32 (String.length grant_id)) ++ to_bytes grant_id
  ++ u32_le (as_u32 (String.length persona_id)) ++ to_bytes persona_id.

Definition grant_chain_secret_aad (grant_id : string) (tail_block_index : Z) : bytes :=
  GRANT_CHAIN_SECRET_AAD_PREFIX
  ++ u32_le (as_u32 (String.length grant_id)) ++ to_bytes grant_id ++ u32_le tail_block_index.

Section Signing.
Context {O : CryptoOps} {A : AeadOps} {J : MetaJson} {S : SecretJson}.

Definition seal_grant_persona_secret (lease_key : LeaseKey) (grant_id persona_id : string)
  (material : PersonaRootKeyMaterial) (nonce : bytes) : result bytes StoreError :=
  let? plaintext :=
    map_err (λ e, SE_InvalidInput ("grant persona secret serialize: " +:+ e))
      (persona_secret_to_json
         (mkPersonaSecret 1 grant_id persona_id (pm_public_hex material) (pm_secret_hex material))) in
  let? ciphertext :=
    map_err (λ e, SE_InvalidInput ("grant persona secret seal: " +:+ e))
      (aead_encrypt lease_key nonce plaintext (grant_persona_secret_aad grant_id persona_id)) in
  Ok (nonce ++ ciphertext).

Definition open_grant_persona_secret (lease_key : LeaseKey) (grant_id persona_id : string) (blob : bytes)
  : result RootKeyPair StoreError :=
  if bool_decide (length blob < 24 + 16) then
    Err (SE_InvalidInput ("grant " +:+ grant_id +:+ " persona-root blob is too short ("
                          +:+ u64_to_string (Z.of_nat (length blob)) +:+ " bytes)"))
  else
    let? plaintext :=
      map_err (λ e, SE_InvalidInput ("grant persona secret open: " +:+ e))
        (aead_decrypt lease_key (take 24 blob) (drop 24 blob) (grant_persona_secret_aad grant_id persona_id)) in
    let? decoded :=
      map_err (λ e, SE_InvalidInput ("grant persona secret plaintext malformed: " +:+ e))
        (persona_secret_from_json plaintext) in
    if negb (gp_schema_version decoded =? 1)%Z || negb (bool_decide (gp_grant_id decoded = grant_id))
       || negb (bool_decide (gp_persona_id decoded = persona_id))
    then Err (SE_InvalidInput ("grant persona secret binding mismatch for grant " +:+ grant_id
                               +:+ " persona " +:+ persona_id))
    else map_err (λ e, SE_InvalidInput ("grant " +:+ grant_id
                         +:+ " lease-wrapped persona root key invalid: " +:+ ChainError_display e))
           (RootKeyPair_from_hex (gp_public_hex decoded) (gp_secret_hex decoded)).

Definition seal_grant_chain_secret (lease_key : LeaseKey) (grant_id : string) (tail_block_index : Z)
  (pubkey_next : PubkeyNextKeyPair) (nonce : bytes) : result bytes StoreError :=
  let? plaintext :=
    map_err (λ e, SE_InvalidInput ("grant chain secret serialize: " +:+ e))
      (chain_secret_to_json
         (mkChainSecret 1 grant_id tail_block_index (public_hex pubkey_next) (secret_hex pubkey_next))) in
  let? ciphertext :=
    map_err (λ e, SE_InvalidInput ("grant chain secret seal: " +:+ e))
      (aead_encrypt lease_key nonce plaintext (grant_chain_secret_aad grant_id tail_block_index)) in
  Ok (nonce ++ ciphertext).

Definition open_grant_chain_secret (lease_key : LeaseKey) (grant_id : string) (tail_block_index : Z)
  (blob : bytes) : result PubkeyNextKeyPair StoreError :=
  if bool_decide (length blob < 24 + 16) then
    Err (SE_InvalidInput ("grant " +:+ grant_id +:+ " chain-secret blob is too short ("
                          +:+ u64_to_string (Z.of_nat (length blob)) +:+ " bytes)"))
  else
    let? plaintext :=
      map_err (λ e, SE_InvalidInput ("grant chain secret open: " +:+ e))
        (aead_decrypt lease_key (take 24 blob) (drop 24 blob) (grant_chain_secret_aad grant_id tail_block_index)) in
    let? decoded :=
      map_err (λ e, SE_InvalidInput ("grant chain secret plaintext malformed: " +:+ e))
        (chain_secret_from_json plaintext) in
    if negb (gc_schema_version decoded =? 1)%Z || negb (bool_decide (gc_grant_id decoded = grant_id))
       || negb (gc_tail_block_index decoded =? tail_block_index)%Z
    then Err (SE_InvalidInput ("grant chain secret binding mismatch for grant " +:+ grant_id
                               +:+ " tail " +:+ u64_to_string tail_block_index))
    else map_err (λ e, SE_InvalidInput ("grant " +:+ grant_id
                         +:+ " lease-wrapped chain secret invalid: " +:+ ChainError_display e))
           (PubkeyNextKeyPair_from_hex (gc_public_hex decoded) (gc_secret_hex decoded)).

(** ** The tables *)

Definition write_grant_persona_secret (db : Db) (st : LeaseStore) (grant_id : string) (blob : bytes)
  : result unit StoreError * LeaseStore :=
  match db_write db with
  | Some e => (Err (SE_Sqlite e), st)
  | None => (Ok tt, set_persona_secrets st (<[grant_id := blob]> (ls_persona_secrets st)))
  end.

Definition read_grant_persona_secret (db : Db) (st : LeaseStore) (grant_id : string)
  : result (option bytes) StoreError :=
  match db_read db with Some e => Err (SE_Sqlite e) | None => Ok (ls_persona_secrets st !! grant_id) end.

Definition write_grant_chain_secret (db : Db) (st : LeaseStore) (grant_id : string) (index : Z) (blob : bytes)
  : result unit StoreError * LeaseStore :=
  match db_write db with
  | Some e => (Err (SE_Sqlite e), st)
  | None => (Ok tt, set_chain_secrets st (<[grant_id := (index, blob)]> (ls_chain_secrets st)))
  end.

Definition read_grant_chain_secret (db : Db) (st : LeaseStore) (grant_id : string)
  : result (option (Z * bytes)) StoreError :=
  match db_read db with Some e => Err (SE_Sqlite e) | None => Ok (ls_chain_secrets st !! grant_id) end.

(** ** The persona's root key *)

(** [public_key] is the column of the persona's row, absent when there is no row; [open_secret] is the
    vault's opening of the sealed secret. *)
Definition persona_root_key_material (persona_id : string) (public_key : option string)
  (open_secret : result string StoreError) : result PersonaRootKeyMaterial StoreError :=
  let? public_key := ok_or public_key SE_NotFound in
  let? secret_plain := open_secret in
  let? public_hex :=
    ok_or (of_bytes <$> strip_prefix_on (to_bytes "ed25519:") (to_bytes public_key))
      (SE_InvalidInput ("persona '" +:+ persona_id +:+ "' public key missing 'ed25519:' prefix")) in
  let? secret_hex :=
    ok_or (of_bytes <$> strip_prefix_on (to_bytes "ed25519-secret:") (to_bytes secret_plain))
      (SE_InvalidInput ("persona '" +:+ persona_id +:+ "' private key missing 'ed25519-secret:' prefix")) in
  map_err (λ e, SE_InvalidInput ("persona '" +:+ persona_id +:+ "' root key invalid: " +:+ ChainError_display e))
    (RootKeyPair_from_hex public_hex secret_hex) ;?
  Ok (mkMaterial public_hex secret_hex).

Definition lease_wrapped_persona_root_keypair (db : Db) (st : LeaseStore) (grant_id persona_id : string)
  (lease_key : LeaseKey) : result RootKeyPair StoreError :=
  let? row := read_grant_persona_secret db st grant_id in
  let? blob := ok_or row (SE_InvalidInput ("grant " +:+ grant_id
                 +:+ " has no lease-wrapped persona root; block-0 signing refused for persona " +:+ persona_id)) in
  open_grant_persona_secret lease_key grant_id persona_id blob.

(** [with_lease_key(..).ok_or_else(..)??]: run the closure with the key of the live lease. *)
Definition under_lease {B} (db : Db) (st : LeaseStore) (grant_id : string) (now : Z) (refusal : string)
  (f : LeaseKey → LeaseStore → result B StoreError) : result B StoreError * LeaseStore :=
  let '(k, st) := bound_with_key db st grant_id now in
  (let? key := ok_or k (SE_InvalidInput refusal) in f key st, st).

Definition seal_persona_root_for_grant_lease (db : Db) (st : LeaseStore) (grant_id persona_id : string)
  (now : Z) (material : result PersonaRootKeyMaterial StoreError) (nonce : bytes)
  : result unit StoreError * LeaseStore :=
  let '(r, st) :=
    under_lease db st grant_id now
      ("grant " +:+ grant_id +:+ " has no live leased authority; refusing to persist grant-scoped persona root for persona " +:+ persona_id)
      (λ lease_key _, let? m := material in seal_grant_persona_secret lease_key grant_id persona_id m nonce) in
  match r with
  | Ok blob => write_grant_persona_secret db st grant_id blob
  | Err e => (Err e, st)
  end.

Definition block_zero_refusal (grant_id purpose : string) : string :=
  "grant " +:+ grant_id +:+ " has no live leased authority; block-0 signing refused for " +:+ purpose
  +:+ "; persona is inert for this grant".

Definition build_error {B} (context : string) (r : result B ChainBuildError) : result B StoreError :=
  map_err (λ e, match e with SigningFailed d => SE_InvalidInput (context +:+ "grant chain signing failed: " +:+ d) end) r.

Definition sign_block_zero_with_live_lease_persisting_chain_secret (db : Db) (st : LeaseStore)
  (grant_id persona_id : string) (b : Block) (now : Z) (purpose : string) (seed nonce : bytes)
  : result SignedBlock StoreError * LeaseStore :=
  let '(r, st) :=
    under_lease db st grant_id now (block_zero_refusal grant_id purpose)
      (λ lease_key st,
         let? root := lease_wrapped_persona_root_keypair db st grant_id persona_id lease_key in
         let? out := build_error "" (sign_block_zero_with_returning_output seed root b) in
         let? chain_blob := seal_grant_chain_secret lease_key grant_id 0 (pubkey_next_secret out) nonce in
         Ok (signed out, chain_blob)) in
  match r with
  | Err e => (Err e, st)
  | Ok (sb, chain_blob) =>
      match write_grant_chain_secret db st grant_id 0 chain_blob with
      | (Ok _, st) => (Ok sb, st)
      | (Err e, st) => (Err e, st)
      end
  end.

Definition sign_appended_block_with_lease_handoff (db : Db) (st : LeaseStore) (parent_grant_id : string)
  (parent_tail_block_index : Z) (child_grant_id : string) (child_block : Block) (now : Z) (purpose : string)
  (seed nonce : bytes) : result SignedBlock StoreError * LeaseStore :=
  let '(r, st) :=
    under_lease db st parent_grant_id now
      ("parent grant " +:+ parent_grant_id +:+ " has no live leased authority; " +:+ purpose
       +:+ " refused — persona inert for parent")
      (λ lease_key st,
         let? row := read_grant_chain_secret db st parent_grant_id in
         let? row := ok_or row (SE_InvalidInput ("parent grant " +:+ parent_grant_id
                       +:+ " has no persisted chain-tail secret; delegation refused — chain cannot be extended")) in
         let '(stored_index, blob) := row in
         if negb (stored_index =? parent_tail_block_index)%Z then
           Err (SE_InvalidInput ("parent grant " +:+ parent_grant_id +:+ " chain-tail index mismatch (stored "
                  +:+ u64_to_string stored_index +:+ ", expected " +:+ u64_to_string parent_tail_block_index +:+ ")"))
         else open_grant_chain_secret lease_key parent_grant_id stored_index blob) in
  match r with
  | Err e => (Err e, st)
  | Ok parent_secret =>
      match build_error "appended-block signing failed: " (sign_appended_block_with seed parent_secret child_block) with
      | Err e => (Err e, st)
      | Ok out =>
          if (u32_max <=? parent_tail_block_index)%Z then (Err (SE_InvalidInput "grant chain index overflow"), st)
          else
            let new_tail_index := (parent_tail_block_index + 1)%Z in
            let '(r, st) :=
              under_lease db st child_grant_id now
                ("child grant " +:+ child_grant_id +:+ " has no live leased authority; " +:+ purpose
                 +:+ " refused — chain-tail secret cannot be sealed")
                (λ lease_key _,
                   seal_grant_chain_secret lease_key child_grant_id new_tail_index (pubkey_next_secret out) nonce) in
            match r with
            | Err e => (Err e, st)
            | Ok chain_blob =>
                match write_grant_chain_secret db st child_grant_id new_tail_index chain_blob with
                | (Ok _, st) => (Ok (signed out), st)
                | (Err e, st) => (Err e, st)
                end
            end
      end
  end.

(** The random values a mint draws. *)
Record MintRandom := mkRandom {
  mr_key : LeaseKey;
  mr_key' : LeaseKey;
  mr_nonce : bytes;
  mr_secret_nonce : bytes;
  mr_seed : bytes;
  mr_chain_nonce : bytes
}.

Definition mint_lease_and_lease_sign_block_zero (db : Db) (st : LeaseStore)
  (grant_id persona_id scope : string) (expires_at : option Z) (b : Block) (now : Z) (purpose : string)
  (material : result PersonaRootKeyMaterial StoreError) (rnd : MintRandom)
  : result SignedBlock StoreError * LeaseStore :=
  let st := bound_mint db st grant_id persona_id scope expires_at now (mr_key rnd) (mr_key' rnd) (mr_nonce rnd) in
  match seal_persona_root_for_grant_lease db st grant_id persona_id now material (mr_secret_nonce rnd) with
  | (Err err, st) => (Err err, (bound_drop db st grant_id).2)
  | (Ok _, st) =>
      match sign_block_zero_with_live_lease_persisting_chain_secret db st grant_id persona_id b now purpose
              (mr_seed rnd) (mr_chain_nonce rnd) with
      | (Ok sb, st) => (Ok sb, st)
      | (Err err, st) => (Err err, (bound_drop db st grant_id).2)
      end
  end.

(** ** Lemmas *)

(** A lease in the cache is found without a look at the table. *)
Lemma with_key_warm db st g now l :
  ls_cache st !! g = Some l → is_expired_at l now = false →
  bound_with_key db st g now = (Some (l_key l), st).
Proof.
  intros Hc He. unfold bound_with_key, on_cache, rehydrate_if_cold, is_cold.
  rewrite Hc, bool_decide_false by done. cbn.
  assert (evict_if_expired (ls_cache st) g now = ls_cache st) as ->.
  { unfold evict_if_expired. by rewrite Hc, He. }
  rewrite Hc. cbn. by destruct st.
Qed.

Lemma under_lease_warm {B} db st g now refusal (f : LeaseKey → LeaseStore → result B StoreError) l :
  ls_cache st !! g = Some l → is_expired_at l now = false →
  under_lease db st g now refusal f = (f (l_key l) st, st).
Proof. intros Hc He. unfold under_lease. by rewrite (with_key_warm _ _ _ _ _ Hc He). Qed.

(** A warm lease, live or not: the secrets the closure reads are those of the store. *)
Lemma under_lease_cached {B} db st g now refusal (f : LeaseKey → LeaseStore → result B StoreError) l :
  ls_cache st !! g = Some l →
  under_lease db st g now refusal f
  = let st' := set_cache st (evict_if_expired (ls_cache st) g now) in
    (if is_expired_at l now then Err (SE_InvalidInput refusal) else f (l_key l) st', st').
Proof.
  intros Hc. unfold under_lease, bound_with_key, on_cache, rehydrate_if_cold, is_cold.
  rewrite Hc, bool_decide_false by done. cbn. rewrite lookup_evict, decide_True, Hc by done. cbn.
  by destruct (is_expired_at l now).
Qed.

(** What runs under a lease had a live one. *)
Lemma under_lease_Ok {B} db st g now refusal (f : LeaseKey → LeaseStore → result B StoreError) b st' :
  under_lease db st g now refusal f = (Ok b, st') →
  ∃ k, bound_with_key db st g now = (Some k, st') ∧ f k st' = Ok b.
Proof.
  unfold under_lease. destruct (bound_with_key db st g now) as [[k|] st1]; [|done].
  cbn. intros [= H <-]. by exists k.
Qed.

(** *** Sealed documents open again *)

Context {L : CryptoLaws O} {AL : AeadLaws A} {SL : SecretJsonLaws S}.

Lemma sealed_blob_opens {E} key nonce p aad c (e : string → E) :
  length nonce = 24 → aead_encrypt key nonce p aad = Ok c →
  bool_decide (length (nonce ++ c) < 24 + 16) = false ∧
  map_err e (aead_decrypt key (take 24 (nonce ++ c)) (drop 24 (nonce ++ c)) aad) = Ok p.
Proof.
  intros Hn Hc. pose proof (aead_length _ _ _ _ _ Hc) as Hl. split.
  - apply bool_decide_false. rewrite length_app. lia.
  - rewrite take_app_length', drop_app_length' by done. by rewrite (aead_open_seal _ _ _ _ _ Hc).
Qed.

Lemma open_seal_persona key g p m nonce blob :
  length nonce = 24 → seal_grant_persona_secret key g p m nonce = Ok blob →
  is_ok (RootKeyPair_from_hex (pm_public_hex m) (pm_secret_hex m)) = true →
  open_grant_persona_secret key g p blob = Ok (mkRoot (pm_public_hex m) (pm_secret_hex m)).
Proof.
  intros Hn Hs Hv. unfold seal_grant_persona_secret in Hs.
  apply result_bind_Ok in Hs as (pt & Hpt%map_err_Ok & Hs).
  apply result_bind_Ok in Hs as (c & Hc%map_err_Ok & [= <-]).
  unfold open_grant_persona_secret.
  destruct (sealed_blob_opens _ _ _ _ _ (λ e, SE_InvalidInput ("grant persona secret open: " +:+ e)) Hn Hc)
    as [-> ->]. cbn.
  rewrite (persona_secret_roundtrip _ _ Hpt). cbn. rewrite !bool_decide_true by done. cbn.
  unfold RootKeyPair_from_hex in *. destruct (decode_secret _); [|done]. cbn in *.
  by destruct (decode_pubkey _).
Qed.

Lemma open_seal_chain key g i k nonce blob :
  length nonce = 24 → seal_grant_chain_secret key g i k nonce = Ok blob →
  is_ok (PubkeyNextKeyPair_from_hex (public_hex k) (secret_hex k)) = true →
  open_grant_chain_secret key g i blob = Ok k.
Proof.
  intros Hn Hs Hv. unfold seal_grant_chain_secret in Hs.
  apply result_bind_Ok in Hs as (pt & Hpt%map_err_Ok & Hs).
  apply result_bind_Ok in Hs as (c & Hc%map_err_Ok & [= <-]).
  unfold open_grant_chain_secret.
  destruct (sealed_blob_opens _ _ _ _ _ (λ e, SE_InvalidInput ("grant chain secret open: " +:+ e)) Hn Hc)
    as [-> ->]. cbn.
  rewrite (chain_secret_roundtrip _ _ Hpt). cbn. rewrite bool_decide_true, Z.eqb_refl by done. cbn.
  unfold PubkeyNextKeyPair_from_hex in *. destruct (decode_secret _); [|done]. cbn in *.
  destruct (decode_pubkey _); [|done]. by destruct k.
Qed.

Lemma generated_valid seed :
  length seed = 32 →
  is_ok (PubkeyNextKeyPair_from_hex (public_hex (PubkeyNextKeyPair_generate seed))
           (secret_hex (PubkeyNextKeyPair_generate seed))) = true.
Proof.
  intros Hs. unfold PubkeyNextKeyPair_from_hex, PubkeyNextKeyPair_generate. cbn.
  by rewrite decode_secret_encode, decode_pubkey_encode.
Qed.

(** ** Delegation through leases *)

(** Documents are written and texts encrypted without failure. *)
Definition sealing_total : Prop :=
  (∀ m, is_ok (persona_secret_to_json m) = true) ∧ (∀ m, is_ok (chain_secret_to_json m) = true) ∧
  (∀ k n m a, is_ok (aead_encrypt k n m a) = true).

Lemma seal_persona_total key g p m nonce : sealing_total → ∃ b, seal_grant_persona_secret key g p m nonce = Ok b.
Proof.
  intros (Hp & _ & Hc). unfold seal_grant_persona_secret.
  specialize (Hp (mkPersonaSecret 1 g p (pm_public_hex m) (pm_secret_hex m))).
  apply is_ok_true in Hp as [pt ->]. cbn [map_err result_bind].
  specialize (Hc key nonce pt (grant_persona_secret_aad g p)). apply is_ok_true in Hc as [c ->]. cbn. eauto.
Qed.

Lemma seal_chain_total key g i k nonce : sealing_total → ∃ b, seal_grant_chain_secret key g i k nonce = Ok b.
Proof.
  intros (_ & Hp & Hc). unfold seal_grant_chain_secret.
  specialize (Hp (mkChainSecret 1 g i (public_hex k) (secret_hex k))).
  apply is_ok_true in Hp as [pt ->]. cbn [map_err result_bind].
  specialize (Hc key nonce pt (grant_chain_secret_aad g i)). apply is_ok_true in Hc as [c ->]. cbn. eauto.
Qed.

(** A mint puts a lease into the cache and leaves the sealed secrets alone. *)
Lemma bound_mint_cache db st g p s e now key key' nonce :
  let st' := bound_mint db st g p s e now key key' nonce in
  ls_persona_secrets st' = ls_persona_secrets st ∧ ls_chain_secrets st' = ls_chain_secrets st ∧
  ∃ k, ls_cache st' = <[g := mkLease g p s e now k]> (ls_cache st).
Proof.
  cbn. unfold bound_mint. destruct (ls_kek st) as [kek|]; [|by eauto].
  destruct (mint_and_seal _ _ _ _ _ _ _ _ _) as [[rec reg]|] eqn:E; [|by eauto].
  apply mint_and_seal_Ok in E as (_ & _ & ->). unfold write_lease_blob, lease_of.
  destruct (db_write db); cbn; by eauto.
Qed.

(** A grant whose chain can be extended: a live lease, and under its key the secret the last block
    announces, for its index. *)
Definition extensible (st : LeaseStore) (g : string) (now i : Z) (seed : bytes) : Prop :=
  ∃ l blob, ls_cache st !! g = Some l ∧ is_expired_at l now = false ∧
    ls_chain_secrets st !! g = Some (i, blob) ∧
    open_grant_chain_secret (l_key l) g i blob = Ok (PubkeyNextKeyPair_generate seed).

(** The first block: minting, sealing and signing succeed, and leave an extensible grant. *)
Lemma mint_sign_spec st g p scope e b now purpose root_seed rnd :
  sealing_total → elapsed e now = false → length root_seed = 32 → length (mr_secret_nonce rnd) = 24 →
  length (mr_seed rnd) = 32 → length (mr_chain_nonce rnd) = 24 →
  let pk := vk_to_bytes (verifying_key (sk_from_bytes root_seed)) in
  ∃ sb st', mint_lease_and_lease_sign_block_zero db_ok st g p scope e b now purpose
              (Ok (mkMaterial (hex_encode pk) (hex_encode root_seed))) rnd = (Ok sb, st') ∧
    extensible st' g now 0 (mr_seed rnd) ∧
    pubkey_next sb = public_hex (PubkeyNextKeyPair_generate (mr_seed rnd)) ∧
    block sb = b ∧ is_unsigned_phase1 sb = false ∧ link_ok (λ c n, chain_block_zero_msg c n pk) pk sb.
Proof.
  intros Ht He Hr Hsn Hs Hcn pk. unfold mint_lease_and_lease_sign_block_zero.
  destruct (bound_mint_cache db_ok st g p scope e now (mr_key rnd) (mr_key' rnd) (mr_nonce rnd))
    as (_ & _ & k & Hc).
  set (st1 := bound_mint _ _ _ _ _ _ _ _ _ _) in *.
  assert (ls_cache st1 !! g = Some (mkLease g p scope e now k)) as Hl by (rewrite Hc; apply lookup_insert_eq).
  unfold seal_persona_root_for_grant_lease.
  rewrite (under_lease_warm _ _ _ _ _ _ _ Hl He). cbn [l_key result_bind].
  destruct (seal_persona_total k g p (mkMaterial (hex_encode pk) (hex_encode root_seed)) (mr_secret_nonce rnd) Ht)
    as [pb Hpb]. rewrite Hpb. unfold write_grant_persona_secret. cbn [db_write db_ok].
  set (st2 := set_persona_secrets st1 _).
  unfold sign_block_zero_with_live_lease_persisting_chain_secret.
  assert (ls_cache st2 !! g = Some (mkLease g p scope e now k)) as Hl2 by done.
  rewrite (under_lease_warm _ _ _ _ _ _ _ Hl2 He). cbn [l_key].
  unfold lease_wrapped_persona_root_keypair, read_grant_persona_secret. cbn.
  rewrite lookup_insert_eq. cbn.
  rewrite (open_seal_persona _ _ _ _ _ _ Hsn Hpb).
  2: { unfold RootKeyPair_from_hex. cbn. unfold pk. by rewrite decode_secret_encode, decode_pubkey_encode. }
  cbn [result_bind pm_public_hex pm_secret_hex]. unfold sign_block_zero_with_returning_output.
  destruct (sign_block_zero_spec root_seed (mr_seed rnd) b Hr) as (out & Ho & Hsec & Hb & Hn & Hu & Hlink).
  fold pk in Ho, Hlink. rewrite Ho. cbn [signing_failed build_error map_err result_bind]. rewrite Hsec.
  destruct (seal_chain_total k g 0 (PubkeyNextKeyPair_generate (mr_seed rnd)) (mr_chain_nonce rnd) Ht) as [cb Hcb].
  rewrite Hcb. eexists _, _. split; [reflexivity|]. split; [|done].
  exists (mkLease g p scope e now k), cb. cbn [ls_cache ls_chain_secrets set_chain_secrets].
    rewrite lookup_insert_eq. split_and!; try done.
    apply (open_seal_chain _ _ _ _ _ _ Hcn Hcb). by apply generated_valid.
Qed.

(** What a delegation does per hop: a lease for the child, and the appended block. *)
Record Hop := mkHop {
  h_grant : string; h_persona : string; h_scope : string; h_expires : option Z;
  h_key : bytes; h_key' : bytes; h_nonce : bytes;
  h_block : Block; h_seed : bytes; h_chain_nonce : bytes
}.

Fixpoint delegate_hops (st : LeaseStore) (parent : string) (i : Z) (hops : list Hop) (now : Z)
  : result (list SignedBlock) StoreError * LeaseStore :=
  match hops with
  | [] => (Ok [], st)
  | h :: rest =>
      let st := bound_mint db_ok st (h_grant h) (h_persona h) (h_scope h) (h_expires h) now
                  (h_key h) (h_key' h) (h_nonce h) in
      match sign_appended_block_with_lease_handoff db_ok st parent i (h_grant h) (h_block h) now
              "delegated grant creation" (h_seed h) (h_chain_nonce h) with
      | (Err e, st) => (Err e, st)
      | (Ok sb, st) =>
          match delegate_hops st (h_grant h) (i + 1) rest now with
          | (Ok sbs, st) => (Ok (sb :: sbs), st)
          | (Err e, st) => (Err e, st)
          end
      end
  end.

Definition hop_ok (now : Z) (h : Hop) : Prop :=
  elapsed (h_expires h) now = false ∧ length (h_seed h) = 32 ∧ length (h_chain_nonce h) = 24.

(** Each hop delegates to a grant other than the one before it. *)
Fixpoint hops_fresh (parent : string) (hops : list Hop) : Prop :=
  match hops with [] => True | h :: rest => h_grant h ≠ parent ∧ hops_fresh (h_grant h) rest end.

(** One hop: the appended block is signed by the key the parent's last block announces, and the child
    can be extended in turn. *)
Lemma handoff_spec st parent i h now purpose seed :
  sealing_total → length seed = 32 → hop_ok now h → h_grant h ≠ parent → (i < u32_max)%Z →
  extensible st parent now i seed →
  let st1 := bound_mint db_ok st (h_grant h) (h_persona h) (h_scope h) (h_expires h) now
               (h_key h) (h_key' h) (h_nonce h) in
  ∃ sb st', sign_appended_block_with_lease_handoff db_ok st1 parent i (h_grant h) (h_block h) now
              purpose (h_seed h) (h_chain_nonce h) = (Ok sb, st') ∧
    extensible st' (h_grant h) now (i + 1) (h_seed h) ∧
    pubkey_next sb = public_hex (PubkeyNextKeyPair_generate (h_seed h)) ∧
    block sb = h_block h ∧ is_unsigned_phase1 sb = false ∧
    link_ok chain_appended_msg (vk_to_bytes (verifying_key (sk_from_bytes seed))) sb.
Proof.
  intros Ht Hs (He & Hhs & Hcn) Hne Hi (l & blob & Hl & Hle & Hsec & Hopen) st1.
  destruct (bound_mint_cache db_ok st (h_grant h) (h_persona h) (h_scope h) (h_expires h) now
              (h_key h) (h_key' h) (h_nonce h)) as (_ & Hcs & k & Hc). fold st1 in Hcs, Hc.
  assert (ls_cache st1 !! parent = Some l) as Hl1 by (by rewrite Hc, lookup_insert_ne).
  set (child := mkLease (h_grant h) (h_persona h) (h_scope h) (h_expires h) now k) in *.
  assert (ls_cache st1 !! h_grant h = Some child) as Hl2 by (rewrite Hc; apply lookup_insert_eq).
  unfold sign_appended_block_with_lease_handoff.
  rewrite (under_lease_warm _ _ _ _ _ _ _ Hl1 Hle). unfold read_grant_chain_secret.
  cbn [db_read db_ok result_bind]. rewrite Hcs, Hsec. cbn [ok_or result_bind]. rewrite Z.eqb_refl.
  cbn [negb]. rewrite Hopen. unfold sign_appended_block_with.
  destruct (sign_appended_block_spec seed (h_seed h) (h_block h) Hs) as (out & -> & Hk & Hb & Hn & Hu & Hlink).
  cbn [signing_failed build_error map_err]. rewrite (proj2 (Z.leb_gt _ _) Hi).
  rewrite (under_lease_warm _ _ _ _ _ _ _ Hl2 He). rewrite Hk.
  destruct (seal_chain_total (l_key child) (h_grant h) (i + 1) (PubkeyNextKeyPair_generate (h_seed h))
              (h_chain_nonce h) Ht) as [cb Hcb]. rewrite Hcb.
  eexists _, _. split; [reflexivity|]. split; [|done].
  exists child, cb. cbn [ls_cache ls_chain_secrets set_chain_secrets]. rewrite lookup_insert_eq.
  split_and!; try done. apply (open_seal_chain _ _ _ _ _ _ Hcn Hcb). by apply generated_valid.
Qed.

Lemma delegate_hops_spec hops st parent i now seed prev :
  sealing_total → length seed = 32 → Forall (hop_ok now) hops → hops_fresh parent hops →
  (i + Z.of_nat (length hops) ≤ u32_max)%Z →
  extensible st parent now i seed → pubkey_next prev = public_hex (PubkeyNextKeyPair_generate seed) →
  ∃ sbs st', delegate_hops st parent i hops now = (Ok sbs, st') ∧ links_ok prev sbs ∧
    Forall (λ sb, is_unsigned_phase1 sb = false) sbs ∧ block <$> sbs = h_block <$> hops.
Proof.
  intros Ht. revert st parent i seed prev. induction hops as [|h hops IH];
    intros st parent i seed prev Hs Hh Hf Hi Hx Hp.
  { exists [], st. by split_and!. }
  apply Forall_cons in Hh as [Hh Hhs]. destruct Hf as [Hne Hf]. cbn [length] in Hi. cbn [delegate_hops].
  destruct (handoff_spec st parent i h now "delegated grant creation" seed Ht Hs Hh Hne ltac:(lia) Hx)
    as (sb & st' & -> & Hx' & Hn & Hb & Hu & Hlink).
  destruct (IH st' (h_grant h) (i + 1)%Z (h_seed h) sb) as (sbs & st'' & -> & Hls & Hus & Hbs);
    [by destruct Hh as (_ & ? & _)|done|done|lia|done|done|].
  exists (sb :: sbs), st''. split; [done|]. split_and!.
  - cbn. split; [|done]. eexists. split; [|exact Hlink]. rewrite Hp. cbn. apply decode_pubkey_encode.
  - by constructor.
  - cbn. rewrite Hb. f_equal. exact Hbs.
Qed.
End Signing.

(** ** A small instance *)

Module ToySecrets.

Fixpoint bits (p : positive) : bytes :=
  match p with xH => [] | xO q => "0"%char :: bits q | xI q => "1"%char :: bits q end.
Fixpoint unbits (l : bytes) : positive :=
  match l with [] => xH | c :: l => if bool_decide (c = "0"%char) then xO (unbits l) else xI (unbits l) end.

Lemma unbits_bits p : unbits (bits p) = p.
Proof. induction p as [p IH|p IH|]; cbn; by rewrite ?IH. Qed.

Definition persona_fields (m : GrantPersonaSecretPlaintext) : Z * string * string * string * string :=
  (gp_schema_version m, gp_grant_id m, gp_persona_id m, gp_public_hex m, gp_secret_hex m).
Definition chain_fields (m : GrantChainSecretPlaintext) : Z * string * Z * string * string :=
  (gc_schema_version m, gc_grant_id m, gc_tail_block_index m, gc_public_hex m, gc_secret_hex m).

Definition json : SecretJson := {|
  persona_secret_to_json m := Ok (bits (encode (persona_fields m)));
  persona_secret_from_json j :=
    match decode (unbits j) with
    | Some (v, g, p, pub, sec) => Ok (mkPersonaSecret v g p pub sec)
    | None => Err "malformed"
    end;
  chain_secret_to_json m := Ok (bits (encode (chain_fields m)));
  chain_secret_from_json j :=
    match decode (unbits j) with
    | Some (v, g, i, pub, sec) => Ok (mkChainSecret v g i pub sec)
    | None => Err "malformed"
    end
|}.

Lemma secret_json_laws : SecretJsonLaws json.
Proof.
  split; intros m j [= <-]; cbn; rewrite unbits_bits, decode_encode; by destruct m.
Qed.

Lemma total : sealing_total (A := ToyLease.aead) (S := json).
Proof. by split_and!. Qed.

Definition random (c : ascii) : MintRandom :=
  mkRandom (repeat c 32) (repeat c 32) ToyLease.nonce ToyLease.nonce (zeros 32) ToyLease.nonce.
Definition hop (g : string) (c : ascii) : Hop :=
  mkHop g "p" "a:b:c" None (repeat c 32) (repeat c 32) ToyLease.nonce demo_block (zeros 32) ToyLease.nonce.
End ToySecrets.

(** ** Properties *)

(** C32. Chains made through leases verify. Suppose that no database access fails, that the secret documents are
    written and encrypted without failure and read back and decrypted to what they were, that signing is correct,
    that the seeds and nonces drawn have the sizes the code draws, and that at the time of it all no lease is minted
    already expired. Then minting a grant's lease, sealing the persona's root key under it and signing block 0
    succeeds; and so does each further delegation, by handing the sealed key of the chain's end from the parent's
    lease to the child's, along any list of at most 2^32 - 1 hops in which each child is another grant than its
    parent. The blocks are the requested ones in order, and the whole chain verifies against the root key of the
    persona. *)
Theorem lease_delegation_verifies {O : CryptoOps} {A : AeadOps} {J : MetaJson} {S : SecretJson}
  {L : CryptoLaws O} {AL : AeadLaws A} {SL : SecretJsonLaws S}
  st g p scope e b now purpose root_seed rnd hops :
  sealing_total → elapsed e now = false → length root_seed = 32 → length (mr_secret_nonce rnd) = 24 →
  length (mr_seed rnd) = 32 → length (mr_chain_nonce rnd) = 24 →
  Forall (hop_ok now) hops → hops_fresh g hops → (Z.of_nat (length hops) ≤ u32_max)%Z →
  let pk := vk_to_bytes (verifying_key (sk_from_bytes root_seed)) in
  ∃ sb st1 sbs st2,
    mint_lease_and_lease_sign_block_zero db_ok st g p scope e b now purpose
      (Ok (mkMaterial (hex_encode pk) (hex_encode root_seed))) rnd = (Ok sb, st1) ∧
    delegate_hops st1 g 0 hops now = (Ok sbs, st2) ∧
    verify_chain (sb :: sbs) pk = Ok tt ∧ block <$> sb :: sbs = b :: (h_block <$> hops).
Proof.
  intros Ht He Hr Hsn Hs Hcn Hh Hf Hlen pk.
  destruct (mint_sign_spec st g p scope e b now purpose root_seed rnd Ht He Hr Hsn Hs Hcn)
    as (sb & st1 & Hm & Hx & Hn & Hb & Hu & Hl).
  destruct (delegate_hops_spec hops st1 g 0 now (mr_seed rnd) sb Ht Hs Hh Hf Hlen Hx Hn)
    as (sbs & st2 & Hd & Hls & Hus & Hbs).
  exists sb, st1, sbs, st2. split; [exact Hm|]. split; [exact Hd|]. split.
  - apply verify_chain_Ok. exists sb, sbs. split; [done|]. split; [by constructor|].
    split; [apply vk_bytes_length|done].
  - cbn. rewrite Hb. f_equal. exact Hbs.
Qed.

Lemma lease_delegation_verifies_witness :
  let O := toy_ops (λ _, true) in let A := ToyLease.aead in let J := ToyLease.json [] in
  let S := ToySecrets.json in
  ∃ sb st1 sbs st2,
    mint_lease_and_lease_sign_block_zero db_ok ToyLease.unlocked "g" "p" "a:b:c" None demo_block 1 "test"
      (Ok (mkMaterial (hex_encode (zeros 32)) (hex_encode (zeros 32)))) (ToySecrets.random "x") = (Ok sb, st1) ∧
    delegate_hops st1 "g" 0 [ToySecrets.hop "h" "y"; ToySecrets.hop "i" "z"] 1 = (Ok sbs, st2) ∧
    length sbs = 2.
Proof.
  intros O A J S. pose proof toy_laws as L. pose proof ToyLease.aead_laws as AL.
  pose proof ToySecrets.secret_json_laws as SL.
  destruct (lease_delegation_verifies (J := J) ToyLease.unlocked "g" "p" "a:b:c" None demo_block 1 "test" (zeros 32)
              (ToySecrets.random "x") [ToySecrets.hop "h" "y"; ToySecrets.hop "i" "z"])
    as (sb & st1 & sbs & st2 & Hm & Hd & _ & Hb).
  1: exact ToySecrets.total.
  1-5: reflexivity.
  1: by repeat constructor.
  1-2: done.
  - exists sb, st1, sbs, st2. split; [exact Hm|]. split; [exact Hd|].
    injection Hb as _ Hb. apply (f_equal length) in Hb. by rewrite length_fmap in Hb.
Defined.

(** A renewed lease cannot sign. The renewal replaces the key of the lease, but the persona's root key
    and the key that extends the chain stay sealed under the old one: when no text opens under both
    keys, a grant that could sign block 0 and delegate before the renewal can do neither after
    it, although its lease is live. *)
Theorem renewal_orphans_secrets {O : CryptoOps} {A : AeadOps} {J : MetaJson} {S : SecretJson}
  db st g p ttl now old key nonce att st' root i blob next :
  bound_renew db st g ttl now key nonce = (Some (Ok (Some att)), st') →
  (∀ n c a, is_ok (aead_decrypt old n c a) = true → is_ok (aead_decrypt key n c a) = false) →
  lease_wrapped_persona_root_keypair db_ok st g p old = Ok root →
  ls_chain_secrets st !! g = Some (i, blob) → open_grant_chain_secret old g i blob = Ok next →
  (∃ e, la_expires_at att = Some e ∧ ∀ db' now', (now' < e)%Z → (bound_has_live db' st' g now').1 = true) ∧
  ∀ db' now' b child purpose seed nonce',
    is_ok (sign_block_zero_with_live_lease_persisting_chain_secret db' st' g p b now' purpose seed nonce').1 = false ∧
    is_ok (sign_appended_block_with_lease_handoff db' st' g i child b now' purpose seed nonce').1 = false.
Proof.
  intros Hr Hsep Hroot Hcs Hopen.
  destruct (bound_renew_spec _ _ _ _ _ _ _ _ _ Hr) as (_ & _ & Hps & Hcs' & _ & l & e & _ & _ & -> & Hc & _).
  destruct (secrets_cold db st g now) as [Hcold Hsub]. rewrite Hcold in Hcs'.
  set (renewed := lease_of key _) in Hc.
  assert (ls_cache st' !! g = Some renewed) as Hl by (rewrite Hc; apply lookup_insert_eq). split.
  { exists e. split; [done|]. intros db' now' Hlt.
    unfold bound_has_live, on_cache, rehydrate_if_cold, is_cold. rewrite Hl, bool_decide_false by done. cbn.
    rewrite lookup_evict, decide_True, Hl by done. cbn. unfold is_expired_at. cbn.
    by rewrite (proj2 (Z.leb_gt _ _) Hlt). }
  intros db' now' b child purpose seed nonce'. split.
  - unfold sign_block_zero_with_live_lease_persisting_chain_secret.
    rewrite (under_lease_cached _ _ _ _ _ _ _ Hl). cbn zeta.
    destruct (is_expired_at renewed now'); [done|].
    unfold lease_wrapped_persona_root_keypair in *. unfold read_grant_persona_secret in *.
    destruct (db_read db'); [done|]. cbn [db_read db_ok ls_persona_secrets set_cache result_bind] in *.
    rewrite Hps. destruct (ls_persona_secrets (rehydrate_if_cold db st g now) !! g) as [pb|] eqn:Eb; [|done].
    rewrite (lookup_weaken _ _ _ _ Eb Hsub) in Hroot. cbn [ok_or result_bind] in *.
    unfold open_grant_persona_secret in *. case_bool_decide; [done|].
    apply result_bind_Ok in Hroot as (pt & Hpt%map_err_Ok & _).
    specialize (Hsep (take 24 pb) (drop 24 pb) (grant_persona_secret_aad g p)). rewrite Hpt in Hsep.
    specialize (Hsep eq_refl). cbn [l_key lease_of renewed].
    by destruct (aead_decrypt key _ _ _).
  - unfold sign_appended_block_with_lease_handoff.
    rewrite (under_lease_cached _ _ _ _ _ _ _ Hl). cbn zeta.
    destruct (is_expired_at renewed now'); [done|].
    unfold read_grant_chain_secret. destruct (db_read db'); [done|].
    cbn [ls_chain_secrets set_cache result_bind]. rewrite Hcs', Hcs. cbn [ok_or result_bind].
    rewrite Z.eqb_refl. cbn [negb]. unfold open_grant_chain_secret in *. case_bool_decide; [done|].
    apply result_bind_Ok in Hopen as (pt & Hpt%map_err_Ok & _).
    specialize (Hsep (take 24 blob) (drop 24 blob) (grant_chain_secret_aad g i)). rewrite Hpt in Hsep.
    specialize (Hsep eq_refl). cbn [l_key lease_of renewed].
    by destruct (aead_decrypt key _ _ _).
Qed.

Lemma renewal_orphans_secrets_witness :
  let O := toy_ops (λ _, true) in let A := ToyLease.aead in let J := ToyLease.json [] in
  let S := ToySecrets.json in
  let st := (mint_lease_and_lease_sign_block_zero db_ok ToyLease.empty "g" "p" "a:b:c" None demo_block 1 "test"
               (Ok (mkMaterial (hex_encode (zeros 32)) (hex_encode (zeros 32)))) (ToySecrets.random "x")).2 in
  let st' := (bound_renew db_ok st "g" 60 2 (ToyLease.key "z") ToyLease.nonce).2 in
  is_ok (sign_block_zero_with_live_lease_persisting_chain_secret db_ok st "g" "p" demo_block 2 "test"
           (zeros 32) ToyLease.nonce).1 = true ∧
  is_ok (sign_block_zero_with_live_lease_persisting_chain_secret db_ok st' "g" "p" demo_block 2 "test"
           (zeros 32) ToyLease.nonce).1 = false.
Proof.
  intros O A J S st st'. split; [vm_compute; reflexivity|].
  set (att := mkAttachment "g" "p" "a:b:c" (Some (2 + 60 * 10 ^ 9)%Z) 2).
  assert (bound_renew db_ok st "g" 60 2 (ToyLease.key "z") ToyLease.nonce = (Some (Ok (Some att)), st')) as Hr.
  { rewrite (surjective_pairing (bound_renew _ _ _ _ _ _ _)). by f_equal. }
  set (row := default (0%Z, []) (ls_chain_secrets st !! "g")).
  refine (proj1 (proj2 (renewal_orphans_secrets db_ok st "g" "p" 60 2 (ToyLease.key "x") (ToyLease.key "z")
    ToyLease.nonce att st' (mkRoot (hex_encode (zeros 32)) (hex_encode (zeros 32))) row.1 row.2
    (PubkeyNextKeyPair_generate (zeros 32)) Hr _ _ _ _) db_ok 2%Z demo_block "h" "test" (zeros 32) ToyLease.nonce)).
  - intros n c a. cbn. case_bool_decide as E; [|done]. intros _. rewrite bool_decide_false; [done|].
    rewrite E. by vm_compute.
  - vm_compute. reflexivity.
  - vm_compute. reflexivity.
  - vm_compute. reflexivity.
Defined.
