(* ===== verification/GrantTable.v ===== *)
(** * The grant table: revocation, pausing, expiry

    crates/ember-daemon/src/trust/grant.rs and grant_projection.rs: the operations that end or
    suspend a grant, with the cascade to its delegated children, the receipts they cause
    (infra/receipt.rs) and the workflow revocation built on them (grants/cascade.rs). The state is
    the grant and persona tables of [ProxyDaemon], the lease store of [Lease] and the receipts
    emitted so far. What one call depends on besides the state (the clock in whole seconds, failing
    database calls, the daemon's identity) is a record [Env]. Audit and trace output
    is left out, except the chained audit entry whose failure rolls a revocation back. *)

From stdpp Require Import base gmap list strings.
From Stdlib Require Import Ascii Lia ZArith.
From S2P Require Import Prelude CoreTypes GrantTypes GrantLifecycle ChainCrypto ProxyMatch Metering ProxyForward ProxyDaemon Lease LeaseSigning.

Local Infix "+:+" := String.append (at level 60, right associativity).
Local Open Scope Z_scope.

(** ** Data *)

Inductive RevokeActor := RA_Operator | RA_Agent | RA_ParentCascade.
Inductive BudgetAxis := BA_Tokens | BA_Cents | BA_Requests | BA_WallClockSecs.

Inductive TerminalReason :=
| TR_Expired
| TR_Revoked (by_ : RevokeActor) (reason : string)
| TR_Abandoned (reason : string)
| TR_ExhaustedByBudget (statement_sid : string) (axis : BudgetAxis)
| TR_ParentCascadeRevoked (parent_grant_id : string).

Record Daemon := mkDaemon {
  d_grants : list GrantRow;
  d_personas : list PersonaRow;
  d_leases : LeaseStore;
  d_receipts : list (string * TerminalReason)
}.

(** [env_audit] is the failure of the audit append inside a transaction; [env_emit] signs and stores
    a receipt and returns its id; [env_seed] is the key pair drawn for a projected block. *)
Record Env := mkEnv {
  env_now : Z;
  env_db : Db;
  env_audit : option StoreError;
  env_identity : bool;
  env_emit : GrantRow → TerminalReason → result string StoreError;
  env_seed : bytes
}.

Definition nanos (secs : Z) : Z := secs * 10 ^ 9.

Definition set_rows (d : Daemon) (rows : list GrantRow) : Daemon :=
  mkDaemon rows (d_personas d) (d_leases d) (d_receipts d).
Definition set_leases (d : Daemon) (st : LeaseStore) : Daemon :=
  mkDaemon (d_grants d) (d_personas d) st (d_receipts d).
Definition set_receipts (d : Daemon) (l : list (string * TerminalReason)) : Daemon :=
  mkDaemon (d_grants d) (d_personas d) (d_leases d) l.

(** [UPDATE grants SET status = s], on one row. *)
Definition set_status (s : string) (r : GrantRow) : GrantRow :=
  mkRow (r_id r) (r_persona_id r) (r_credential_name r) (r_scope r) (r_created_at r) (r_expires_at r) s
    (r_allowed_hours_start r) (r_allowed_hours_end r) (r_allowed_targets r) (r_parent_grant_id r)
    (r_blocks_json r) (r_revoked_sids_json r) (r_max_delegation_depth r) (r_budget_json r) (r_usage_json r)
    (r_paused r) (r_is_standing r) (r_max_children_per_day r) (r_receipt_id r).
Definition set_paused_flag (b : bool) (r : GrantRow) : GrantRow :=
  mkRow (r_id r) (r_persona_id r) (r_credential_name r) (r_scope r) (r_created_at r) (r_expires_at r) (r_status r)
    (r_allowed_hours_start r) (r_allowed_hours_end r) (r_allowed_targets r) (r_parent_grant_id r)
    (r_blocks_json r) (r_revoked_sids_json r) (r_max_delegation_depth r) (r_budget_json r) (r_usage_json r)
    b (r_is_standing r) (r_max_children_per_day r) (r_receipt_id r).
Definition set_receipt (rid : string) (r : GrantRow) : GrantRow :=
  mkRow (r_id r) (r_persona_id r) (r_credential_name r) (r_scope r) (r_created_at r) (r_expires_at r) (r_status r)
    (r_allowed_hours_start r) (r_allowed_hours_end r) (r_allowed_targets r) (r_parent_grant_id r)
    (r_blocks_json r) (r_revoked_sids_json r) (r_max_delegation_depth r) (r_budget_json r) (r_usage_json r)
    (r_paused r) (r_is_standing r) (r_max_children_per_day r) (Some rid).
Definition set_revoked_sids (l : list string) (r : GrantRow) : GrantRow :=
  mkRow (r_id r) (r_persona_id r) (r_credential_name r) (r_scope r) (r_created_at r) (r_expires_at r) (r_status r)
    (r_allowed_hours_start r) (r_allowed_hours_end r) (r_allowed_targets r) (r_parent_grant_id r)
    (r_blocks_json r) (Some l) (r_max_delegation_depth r) (r_budget_json r) (r_usage_json r)
    (r_paused r) (r_is_standing r) (r_max_children_per_day r) (r_receipt_id r).
Definition set_standing (limit : Z) (r : GrantRow) : GrantRow :=
  mkRow (r_id r) (r_persona_id r) (r_credential_name r) (r_scope r) (r_created_at r) (r_expires_at r) (r_status r)
    (r_allowed_hours_start r) (r_allowed_hours_end r) (r_allowed_targets r) (r_parent_grant_id r)
    (r_blocks_json r) (r_revoked_sids_json r) (r_max_delegation_depth r) (r_budget_json r) (r_usage_json r)
    (r_paused r) true (Some limit) (r_receipt_id r).
Definition set_chain (budget : option Budget) (expires : option Z) (blocks : list SignedBlock) (r : GrantRow)
  : GrantRow :=
  mkRow (r_id r) (r_persona_id r) (r_credential_name r) (r_scope r) (r_created_at r) expires (r_status r)
    (r_allowed_hours_start r) (r_allowed_hours_end r) (r_allowed_targets r) (r_parent_grant_id r)
    (Some blocks) (r_revoked_sids_json r) (r_max_delegation_depth r) budget (r_usage_json r)
    (r_paused r) (r_is_standing r) (r_max_children_per_day r) (r_receipt_id r).

(** [UPDATE grants SET ... WHERE P] *)
Definition update_where (P : GrantRow → bool) (f : GrantRow → GrantRow) (d : Daemon) : Daemon :=
  set_rows d ((λ r, if P r then f r else r) <$> d_grants d).
Definition has_id (id : string) (r : GrantRow) : bool := bool_decide (r_id r = id).
Definition update_row (id : string) (f : GrantRow → GrantRow) : Daemon → Daemon := update_where (has_id id) f.
(** The number of rows an update changes is not 0. *)
Definition some_row (P : GrantRow → bool) (d : Daemon) : bool := existsb P (d_grants d).

(** The lease store with the columns of the grant table it reads. *)
Definition lease_store (d : Daemon) : LeaseStore :=
  set_grants (d_leases d)
    (list_to_map ((λ r, (r_id r, (r_status r, nanos <$> r_expires_at r))) <$> d_grants d)).

(** ** The row as it is read *)

Definition row_budget (r : GrantRow) : option Budget :=
  match r_blocks_json r with
  | Some (sb :: _) => match statements (block sb) with s :: _ => budget s | [] => r_budget_json r end
  | _ => r_budget_json r
  end.

Definition derive_wall_clock_secs (now_secs created_at_secs : Z) (expires_at_secs budget_cap : option Z) : Z :=
  let effective_end := match expires_at_secs with Some exp => Z.min exp now_secs | None => now_secs end in
  let elapsed := Z.max 0 (effective_end - created_at_secs) in
  match budget_cap with Some cap => Z.min elapsed cap | None => elapsed end.

Definition row_usage (now : Z) (r : GrantRow) : Usage :=
  let u := match r_blocks_json r with
           | Some (sb :: _) => match statements (block sb) with
                               | s :: _ => usage s | [] => default Usage_default (r_usage_json r) end
           | _ => default Usage_default (r_usage_json r)
           end in
  mkUsage (u_tokens u) (u_cents u) (u_requests u) (u_workload_hours u)
    (derive_wall_clock_secs now (r_created_at r) (r_expires_at r) (row_budget r ≫= b_wall_clock_secs))
    (u_last_updated u) (u_cents_micro u).

(** *** Identifiers: the uuid crate *)

Class UuidOps := {
  uuid_parse : string → result string string;
  uuid_nil : string
}.

Section Table.
Context {Cr : CryptoOps} {A : AeadOps} {J : MetaJson} {SJ : SecretJson} {U : UuidOps}.

Definition sign_block_zero_with_live_lease (db : Db) (st : LeaseStore) (grant_id persona_id : string)
  (b : Block) (now : Z) (purpose : string) (seed : bytes) : result SignedBlock StoreError * LeaseStore :=
  under_lease db st grant_id now (block_zero_refusal grant_id purpose)
    (λ lease_key st,
       let? root := lease_wrapped_persona_root_keypair db st grant_id persona_id lease_key in
       build_error "" (sign_block_zero_with seed root b)).

Definition project_access_grant (env : Env) (d : Daemon) (info : GrantRow) (status : string)
  : result AccessGrant StoreError :=
  let b := ChainBuild.build_single_statement_block (r_persona_id info) (r_credential_name info) (r_scope info)
             (r_created_at info) (r_expires_at info) (row_budget info) (row_usage (env_now env) info) in
  let? signed := (sign_block_zero_with_live_lease (env_db env) (lease_store d) (r_id info) (r_persona_id info) b
                    (nanos (env_now env)) "grant projection" (env_seed env)).1 in
  Ok (ChainBuild.access_grant_envelope (r_id info) (r_persona_id info) (r_credential_name info) status signed
        (r_created_at info)).

(** The store of [ProxyDaemon] at the instant of a call. *)
Definition store_of (env : Env) (d : Daemon) : DaemonStore :=
  let now := env_now env in
  let bare := mkStore (d_grants d) (d_personas d) now (now `mod` 86400 / 3600) (λ _, false) (λ _, Err SE_NotFound) in
  mkStore (d_grants d) (d_personas d) now (now `mod` 86400 / 3600)
    (λ g, (bound_has_live (env_db env) (lease_store d) g (nanos now)).1)
    (λ r, project_access_grant env d r (effective_row_status bare r)).

Definition drop_lease (env : Env) (id : string) (d : Daemon) : Daemon :=
  set_leases d (bound_drop (env_db env) (lease_store d) id).2.

(** ** Receipts *)

Definition is_terminal_status (status : string) : bool :=
  bool_decide (status ∈ ["revoked"; "abandoned"; "expired"; "exhausted_by_budget"; "parent_cascade_revoked"]).

(** [trigger_receipt_if_terminal_current]. The reason is always given by the callers modelled here, and
    its result is only logged. *)
Definition trigger_receipt (env : Env) (id : string) (reason : TerminalReason) (d : Daemon) : Daemon :=
  if negb (env_identity env) then d
  else match get_grant (store_of env d) id with
       | Err _ => d
       | Ok info =>
           if negb (is_terminal_status (effective_row_status (store_of env d) info)) then d
           else match r_receipt_id info with
                | Some _ => d
                | None =>
                    match env_emit env info reason with
                    | Err _ => d
                    | Ok rid => set_receipts (update_row id (set_receipt rid) d) ((id, reason) :: d_receipts d)
                    end
                end
       end.

(** ** Revocation *)

Definition active_child_of (parent : string) (r : GrantRow) : bool :=
  bool_decide (r_parent_grant_id r = Some parent) && bool_decide (r_status r = "active").

Definition revoke_child (env : Env) (root_revoked_id child_id : string) (d : Daemon) : Daemon :=
  trigger_receipt env child_id (TR_ParentCascadeRevoked root_revoked_id)
    (drop_lease env child_id (update_row child_id (set_status "revoked") d)).

(** [None] only when the fuel runs out. *)
Fixpoint cascade_loop (env : Env) (root_revoked_id : string) (fuel : nat) (parent_id : string) (d : Daemon)
  : option Daemon :=
  match fuel with
  | O => None
  | S fuel' =>
      foldl (λ acc child_id, acc ≫= λ d, cascade_loop env root_revoked_id fuel' child_id
                                           (revoke_child env root_revoked_id child_id d))
        (Some d) (r_id <$> List.filter (active_child_of parent_id) (d_grants d))
  end.

(** Each level of the recursion revokes an active row. *)
Definition cascade_revoke_children (env : Env) (parent_id root_revoked_id : string) (d : Daemon) : Daemon :=
  default d (cascade_loop env root_revoked_id (S (length (d_grants d))) parent_id d).

Definition revoke_grant_sql (env : Env) (id : string) (d : Daemon) : result unit StoreError * Daemon :=
  if negb (some_row (has_id id) d) then (Err SE_NotFound, d)
  else match env_audit env with
       | Some e => (Err e, d)
       | None =>
           let d := trigger_receipt env id (TR_Revoked RA_Operator "") (update_row id (set_status "revoked") d) in
           (Ok tt, cascade_revoke_children env id id (drop_lease env id d))
       end.

Definition abandon_grant_sql (env : Env) (id reason : string) (d : Daemon) : result unit StoreError * Daemon :=
  let reason := str_trim reason in
  if str_is_empty reason then (Err (SE_InvalidInput "abandon_grant requires a non-empty reason"), d)
  else match row_by_id (store_of env d) id with
       | None => (Err SE_NotFound, d)
       | Some r =>
           if bool_decide (r_status r ∈ ["revoked"; "abandoned"; "expired"; "exhausted_by_budget";
                                         "expired_by_budget"; "parent_cascade_revoked"])
           then (Err (SE_InvalidInput ("grant " +:+ id +:+ " is already terminal (" +:+ r_status r +:+ ")")), d)
           else match env_audit env with
                | Some e => (Err e, d)
                | None =>
                    let d := trigger_receipt env id (TR_Abandoned reason) (update_row id (set_status "abandoned") d) in
                    (Ok tt, cascade_revoke_children env id id (drop_lease env id d))
                end
       end.

(** ** Pausing *)

Definition pause_grant_sql (env : Env) (id : string) (d : Daemon) : result unit StoreError * Daemon :=
  match get_grant (store_of env d) id with
  | Err e => (Err e, d)
  | Ok r =>
      let status := effective_row_status (store_of env d) r in
      if bool_decide (status = "paused") then (Ok tt, d)
      else if negb (bool_decide (status = "active"))
      then (Err (SE_InvalidInput ("cannot pause grant with status '" +:+ status +:+ "'")), d)
      else (Ok tt, update_row id (λ r, set_paused_flag true (set_status "paused" r)) d)
  end.

Definition resume_grant_sql (env : Env) (id : string) (d : Daemon) : result unit StoreError * Daemon :=
  match get_grant (store_of env d) id with
  | Err e => (Err e, d)
  | Ok r =>
      let status := effective_row_status (store_of env d) r in
      if bool_decide (status = "active") then (Ok tt, d)
      else if negb (bool_decide (status = "paused"))
      then (Err (SE_InvalidInput ("cannot resume grant with status '" +:+ status +:+ "'")), d)
      else (Ok tt, update_row id (λ r, set_paused_flag false (set_status "active" r)) d)
  end.

Definition set_grant_paused (id : string) (paused : bool) (d : Daemon) : result unit StoreError * Daemon :=
  let P r := has_id id r && bool_decide (r_status r = "active") in
  if some_row P d then (Ok tt, update_where P (set_paused_flag paused) d) else (Err SE_NotFound, d).

Definition mark_grant_standing (id : string) (max_children_per_day : Z) (d : Daemon)
  : result unit StoreError * Daemon :=
  if max_children_per_day =? 0 then (Err (SE_InvalidInput "max_children_per_day must be > 0"), d)
  else if some_row (has_id id) d then (Ok tt, update_row id (set_standing max_children_per_day) d)
  else (Err SE_NotFound, d).

Definition revoke_grant_statement_sql (env : Env) (id sid : string) (d : Daemon)
  : result unit StoreError * Daemon :=
  match get_grant (store_of env d) id with
  | Err e => (Err e, d)
  | Ok _ =>
      let sids := sort_by String.leb (remove_dups (get_revoked_sids (store_of env d) id)) in
      if bool_decide (sid ∈ sids) then (Ok tt, d)
      else (Ok tt, update_row id (set_revoked_sids (sids ++ [sid])) d)
  end.

(** ** Expiry *)

Definition stale (now : Z) (r : GrantRow) : bool :=
  bool_decide (r_status r = "active") && match r_expires_at r with Some e => e <=? now | None => false end.

Definition expire_stale_grants (env : Env) (d : Daemon) : result Z StoreError * Daemon :=
  let expiring := r_id <$> List.filter (stale (env_now env)) (d_grants d) in
  let d := update_where (stale (env_now env)) (set_status "expired") d in
  (Ok (Z.of_nat (length expiring)),
   foldl (λ d gid, trigger_receipt env gid TR_Expired (drop_lease env gid d)) d expiring).

Definition min_wall_clock (g : AccessGrant) : option Z :=
  foldl (λ m ist, match budget ist.2 ≫= b_wall_clock_secs with
                  | Some wc => Some (match m with Some m => Z.min m wc | None => wc end)
                  | None => m
                  end) None (grant_statements g).

Definition still_active (id : string) (r : GrantRow) : bool := has_id id r && bool_decide (r_status r = "active").

Definition expire_grant_if_terminal_now (env : Env) (id : string) (d : Daemon) : result bool StoreError * Daemon :=
  match row_by_id (store_of env d) id with
  | None => (Ok false, d)
  | Some r =>
      if negb (bool_decide (r_status r = "active")) then (Ok false, d)
      else if match r_expires_at r with Some e => e <=? env_now env | None => false end
      then (Ok true, trigger_receipt env id TR_Expired
                       (drop_lease env id (update_where (still_active id) (set_status "expired") d)))
      else match get_access_grant (store_of env d) id with
           | Err _ => (Ok false, d)
           | Ok ag =>
               if (g_created_at ag =? 0) || (env_now env <=? g_created_at ag) then (Ok false, d)
               else match min_wall_clock ag with
                    | Some limit =>
                        if limit <=? env_now env - g_created_at ag
                        then (Ok true, trigger_receipt env id (TR_ExhaustedByBudget "S0" BA_WallClockSecs)
                                (drop_lease env id
                                   (update_where (still_active id) (set_status "exhausted_by_budget") d)))
                        else (Ok false, d)
                    | None => (Ok false, d)
                    end
           end
  end.

(** The rows [list_active_grants] selects. *)
Definition listed (now : Z) (r : GrantRow) : bool :=
  (bool_decide (r_status r = "active") || bool_decide (r_status r = "paused")) &&
  match r_expires_at r with Some e => now <? e | None => true end.

(** One round of the sweep; the warnings, which are only logged, and their number are left out. *)
Definition exhaust_by_wall_clock (env : Env) (s : Z * Daemon) (id : string) : Z * Daemon :=
  let '(exhausted, d) := s in
  match get_access_grant (store_of env d) id with
  | Err _ => s
  | Ok ag =>
      if (g_created_at ag =? 0) || (env_now env <=? g_created_at ag) then s
      else match min_wall_clock ag with
           | Some limit =>
               if limit <=? env_now env - g_created_at ag
               then (exhausted + 1, trigger_receipt env id (TR_ExhaustedByBudget "S0" BA_WallClockSecs)
                       (drop_lease env id (update_row id (set_status "exhausted_by_budget") d)))
               else s
           | None => s
           end
  end.

Definition expire_grants_by_wall_clock (env : Env) (d : Daemon) : result Z StoreError * Daemon :=
  let '(exhausted, d') := foldl (exhaust_by_wall_clock env) (0, d) (r_id <$> List.filter (listed (env_now env)) (d_grants d)) in
  (Ok exhausted, d').

(** The statements of infra/persona.rs that end a persona and its active grants. *)
Definition revoke_persona (id : string) (d : Daemon) : result unit StoreError * Daemon :=
  if negb (existsb (λ p, bool_decide (p_id p = id)) (d_personas d)) then (Err SE_NotFound, d)
  else
    let personas := (λ p, if bool_decide (p_id p = id) then mkPersona (p_id p) (p_public_key p) (p_parent_grant_id p) "revoked" else p)
                      <$> d_personas d in
    let d := mkDaemon (d_grants d) personas (d_leases d) (d_receipts d) in
    (Ok tt, update_where (λ r, bool_decide (r_persona_id r = id) && bool_decide (r_status r = "active")) (set_status "revoked") d).

Definition mark_grant_exhausted_by_budget_if_terminal (env : Env) (id : string) (d : Daemon)
  : result bool StoreError * Daemon :=
  match get_access_grant (store_of env d) id with
  | Err e => (Err e, d)
  | Ok grant =>
      if negb (bool_decide (g_status grant = Active)) then (Ok false, d)
      else
        let bearing := List.filter (λ s, bool_decide (is_Some (budget s))) (grant_statements grant).*2 in
        if bool_decide (bearing = []) || existsb has_budget_remaining bearing then (Ok false, d)
        else if some_row (still_active id) d
        then (Ok true, update_where (still_active id) (set_status "exhausted_by_budget") d)
        else (Ok false, d)
  end.

(** ** The operations with the check of the state machine *)

Definition parse_grant_id (id : string) : result string StoreError :=
  let raw := default id (of_bytes <$> strip_prefix_on (to_bytes "grant-") (to_bytes id)) in
  map_err (λ e, SE_InvalidInput ("invalid grant id '" +:+ id +:+ "': " +:+ e)) (uuid_parse raw).

Definition grant_info_to_core (now : Z) (r : GrantRow) (status : string) : Lifecycle.Grant Z :=
  let state := if bool_decide (status = "paused") then Lifecycle.Paused
               else if bool_decide (status = "revoked") || bool_decide (status = "expired") then Lifecycle.Revoked
               else Lifecycle.Active in
  let parse s := match uuid_parse s with Ok u => Some u | Err _ => None end in
  let raw_id := default (r_id r) (of_bytes <$> strip_prefix_on (to_bytes "grant-") (to_bytes (r_id r))) in
  Lifecycle.mkGrant (default uuid_nil (parse raw_id)) (r_persona_id r)
    (Lifecycle.mkLScope (r_scope r) None []) state (r_expires_at r) (r_parent_grant_id r ≫= parse)
    (default 0 (r_max_delegation_depth r)) (Lifecycle.mkLUsage (u_tokens (row_usage now r)))
    Lifecycle.GRANT_SCHEMA_VERSION_PIN.

Definition load (env : Env) (d : Daemon) (uuid : string) : result (Lifecycle.Grant Z) StoreError :=
  let? info := get_grant (store_of env d) ("grant-" +:+ uuid) in
  Ok (grant_info_to_core (env_now env) info (effective_row_status (store_of env d) info)).

Definition from_grant_error (e : Lifecycle.GrantError) : StoreError :=
  match e with
  | Lifecycle.InvalidState => SE_InvalidInput "grant state machine: invalid state for operation"
  | Lifecycle.ScopeViolation => SE_DelegationViolation "narrowed scope is not a subset of the grant scope"
  | Lifecycle.BudgetExhausted => SE_InvalidInput "grant budget exhausted"
  | Lifecycle.NotAuthorized => SE_Unauthorized
  end.

(** [parse_grant_id], then [load], then the rest. *)
Definition with_grant {B} (env : Env) (id : string) (d : Daemon)
  (k : Lifecycle.Grant Z → result B StoreError * Daemon) : result B StoreError * Daemon :=
  match (let? uuid := parse_grant_id id in load env d uuid) with
  | Err e => (Err e, d)
  | Ok grant => k grant
  end.

Definition revoke_grant (env : Env) (id : string) (d : Daemon) : result unit StoreError * Daemon :=
  with_grant env id d (λ grant,
    match map_err from_grant_error (Lifecycle.revoke grant (Lifecycle.issuer grant)) with
    | Err e => (Err e, d)
    | Ok _ => revoke_grant_sql env id d
    end).

Definition pause_grant (env : Env) (id : string) (d : Daemon) : result unit StoreError * Daemon :=
  with_grant env id d (λ grant,
    if bool_decide (Lifecycle.state grant = Lifecycle.Paused) then (Ok tt, d)
    else match map_err from_grant_error (Lifecycle.pause grant (Lifecycle.issuer grant)) with
         | Err e => (Err e, d)
         | Ok _ => pause_grant_sql env id d
         end).

Definition resume_grant (env : Env) (id : string) (d : Daemon) : result unit StoreError * Daemon :=
  with_grant env id d (λ grant,
    if bool_decide (Lifecycle.state grant = Lifecycle.Active) then (Ok tt, d)
    else match map_err from_grant_error (Lifecycle.resume grant (Lifecycle.issuer grant)) with
         | Err e => (Err e, d)
         | Ok _ => resume_grant_sql env id d
         end).

(** ** Revocation of a workflow *)

Inductive Cohort := Dev0 | Team0 | Ent0.

Definition immediate_allowed (c : Cohort) : bool := match c with Dev0 | Team0 => true | Ent0 => false end.
Definition Cohort_debug (c : Cohort) : string :=
  match c with Dev0 => "Dev0" | Team0 => "Team0" | Ent0 => "Ent0" end.

Record WorkflowRevokeReport := mkReport {
  wr_root_grant_id : string; wr_descendant_grant_ids : list string; wr_descendant_count : nat }.
Record LifecycleHandoff := mkHandoff {
  lh_workflow_root_grant_id : string; lh_descendant_grant_ids : list string; lh_cohort : Cohort;
  lh_immediate : bool }.

(** One child of the grant taken from the frontier. *)
Definition collect_child (acc : list string * list string * list string) (child : string)
  : list string * list string * list string :=
  let '(frontier, out, seen) := acc in
  if bool_decide (child ∈ seen) then acc else (child :: frontier, out ++ [child], child :: seen).

(** The frontier is a stack, its top first. [None] only when the fuel runs out. *)
Fixpoint collect_loop (rows : list GrantRow) (fuel : nat) (acc : list string * list string * list string)
  : option (list string) :=
  match acc with
  | ([], out, _) => Some out
  | (parent :: frontier, out, seen) =>
      match fuel with
      | O => None
      | S fuel' =>
          collect_loop rows fuel'
            (foldl collect_child (frontier, out, seen) (r_id <$> List.filter (active_child_of parent) rows))
      end
  end.

Definition collect_active_descendants (d : Daemon) (root_id : string) : list string :=
  default [] (collect_loop (d_grants d) (S (length (d_grants d))) ([root_id], [], [root_id])).

(** [audit] is the result of the audit entry for the workflow. *)
Definition revoke_workflow_root (env : Env) (audit : result unit StoreError) (root_grant_id : string)
  (cohort : Cohort) (immediate : bool) (d : Daemon)
  : result (WorkflowRevokeReport * LifecycleHandoff) StoreError * Daemon :=
  if immediate && negb (immediate_allowed cohort) then
    (Err (SE_InvalidInput ("--immediate flag is not allowed for cohort " +:+ Cohort_debug cohort
            +:+ "; cohort config forbids skipping the grace window")), d)
  else
    let ids := collect_active_descendants d root_grant_id in
    match revoke_grant env root_grant_id d with
    | (Err e, d) => (Err e, d)
    | (Ok _, d) =>
        match audit with
        | Err e => (Err e, d)
        | Ok _ => (Ok (mkReport root_grant_id ids (length ids), mkHandoff root_grant_id ids cohort immediate), d)
        end
    end.

(** ** What a cut of authority does *)

(** Rows that agree up to their status and receipt. *)
Definition same_grant (r r' : GrantRow) : Prop :=
  set_receipt "" (set_status "" r) = set_receipt "" (set_status "" r').

(** The rows named by [M] are revoked, the others keep their status. *)
Definition marked (M : list string) (r r' : GrantRow) : Prop :=
  same_grant r r' ∧ r_status r' = if decide (r_id r ∈ M) then "revoked" else r_status r.

Definition cut (M : list string) (d d' : Daemon) : Prop :=
  Forall2 (marked M) (d_grants d) (d_grants d') ∧ d_personas d' = d_personas d ∧
  ∀ g, ls_cache (d_leases d') !! g = if decide (g ∈ M) then None else ls_cache (d_leases d) !! g.

(** The grants delegated from [root], directly or not, through active grants. *)
Inductive descends (rows : list GrantRow) (root : string) : string → Prop :=
| descends_child r : r ∈ rows → active_child_of root r = true → descends rows root (r_id r)
| descends_more p r :
    descends rows root p → r ∈ rows → active_child_of p r = true → descends rows root (r_id r).

Lemma descends_step rows root p r :
  p = root ∨ descends rows root p → r ∈ rows → active_child_of p r = true → descends rows root (r_id r).
Proof. intros [->|Hp] Hr Hc; [by apply descends_child|by eapply descends_more]. Qed.

Lemma active_child_of_true p r :
  active_child_of p r = true ↔ r_parent_grant_id r = Some p ∧ r_status r = "active".
Proof. unfold active_child_of. by rewrite andb_true_iff, !bool_decide_eq_true. Qed.

Lemma same_grant_spec r r' : same_grant r r' → r_id r' = r_id r ∧ r_parent_grant_id r' = r_parent_grant_id r.
Proof. intros H. unfold same_grant, set_receipt, set_status in H. by inversion H. Qed.

Lemma marked_ext M M' r r' : (∀ x, x ∈ M ↔ x ∈ M') → marked M r r' → marked M' r r'.
Proof.
  intros HM [Hs Hst]. split; [done|]. rewrite Hst. repeat case_decide; try done; exfalso; by (firstorder).
Qed.

Lemma marked_trans M1 M2 r1 r2 r3 : marked M1 r1 r2 → marked M2 r2 r3 → marked (M2 ++ M1) r1 r3.
Proof.
  intros [Hs1 H1] [Hs2 H2]. pose proof (same_grant_spec _ _ Hs1) as [Hid _].
  split; [by etrans|]. rewrite H2, Hid, H1.
  repeat case_decide; rewrite ?elem_of_app in *; naive_solver.
Qed.

Lemma cut_refl d : cut [] d d.
Proof.
  split_and!; [|done|].
  - induction (d_grants d); constructor; [|done]. split; [done|]. by rewrite decide_False by apply not_elem_of_nil.
  - intros g. by rewrite decide_False by apply not_elem_of_nil.
Qed.

Lemma cut_trans M1 M2 d1 d2 d3 : cut M1 d1 d2 → cut M2 d2 d3 → cut (M2 ++ M1) d1 d3.
Proof.
  intros (H1 & Hp1 & Hc1) (H2 & Hp2 & Hc2). split_and!; [|congruence|].
  - clear -H1 H2. revert H2. generalize (d_grants d3). induction H1 as [|r r' l l' Hr _ IH]; intros l3 H2.
    + by inversion H2.
    + inversion H2 as [|? r3 ? l3' Hr' H3]; subst. constructor; [by eapply marked_trans|auto].
  - intros g. rewrite Hc2, Hc1. repeat case_decide; rewrite ?elem_of_app in *; naive_solver.
Qed.

(** Active rows come from active rows outside the cut. *)
Lemma cut_active M d d' r' :
  cut M d d' → r' ∈ d_grants d' → r_status r' = "active" →
  ∃ r, r ∈ d_grants d ∧ r_id r = r_id r' ∧ r_parent_grant_id r = r_parent_grant_id r' ∧
    r_status r = "active" ∧ r_id r ∉ M.
Proof.
  intros (H & _ & _) Hin Hst. apply list_elem_of_lookup in Hin as [i Hi].
  destruct (Forall2_lookup_r _ _ _ _ _ H Hi) as (r & Hr & Hs & Hm).
  exists r. destruct (same_grant_spec _ _ Hs) as [-> ->].
  split_and!; [by eapply list_elem_of_lookup_2|done..| |]; case_decide; congruence.
Qed.

Lemma cut_back M d d' r :
  cut M d d' → r ∈ d_grants d → ∃ r', r' ∈ d_grants d' ∧ marked M r r'.
Proof.
  intros (H & _ & _) Hin. apply list_elem_of_lookup in Hin as [i Hi].
  destruct (Forall2_lookup_l _ _ _ _ _ H Hi) as (r' & Hr' & Hm).
  exists r'. split; [by eapply list_elem_of_lookup_2|done].
Qed.

Lemma cut_child M d d' p r' :
  cut M d d' → r' ∈ d_grants d' → active_child_of p r' = true →
  ∃ r, r ∈ d_grants d ∧ r_id r = r_id r' ∧ active_child_of p r = true ∧ r_id r ∉ M.
Proof.
  intros H Hin [Hp Hs]%active_child_of_true.
  destruct (cut_active _ _ _ _ H Hin Hs) as (r & ? & ? & Hp' & ? & ?).
  exists r. split_and!; try done. apply active_child_of_true. by rewrite Hp'.
Qed.

(** Descendants after a cut were descendants before. *)
Lemma descends_cut M d d' p c x :
  cut M d d' → (c = p ∨ descends (d_grants d) p c) → descends (d_grants d') c x → descends (d_grants d) p x.
Proof.
  intros Hcut Hc H. induction H as [r' Hin Hch|q r' Hq IH Hin Hch];
    destruct (cut_child _ _ _ _ _ Hcut Hin Hch) as (r & Hr & <- & Hch' & _).
  - by apply (descends_step _ _ c).
  - apply (descends_step _ _ q); [by right|done..].
Qed.

(** *** The steps of the cascade *)

Lemma cut_rows M f d :
  (∀ r, marked M r (f r)) → (∀ x, x ∉ M) → cut M d (set_rows d (f <$> d_grants d)).
Proof.
  intros Hf HM. split_and!; [|done|].
  - cbn. apply Forall2_fmap_r. clear -Hf. induction (d_grants d); constructor; auto.
  - intros g. by rewrite decide_False by apply HM.
Qed.

Lemma cut_receipt env id reason d : cut [] d (trigger_receipt env id reason d).
Proof.
  unfold trigger_receipt. repeat case_match; try apply cut_refl.
  unfold update_row, update_where. apply (cut_rows [] _ d); [|by intros x ?%not_elem_of_nil].
  intros r. unfold has_id. case_bool_decide; split; try done; by rewrite decide_False by apply not_elem_of_nil.
Qed.

Lemma cache_drop db st g g' :
  ls_cache (bound_drop db st g).2 !! g' = if decide (g' = g) then None else ls_cache st !! g'.
Proof.
  unfold bound_drop, registry_drop. cbn [fst snd].
  assert (∀ st', ls_cache st' = delete g (ls_cache st) →
    ls_cache (delete_grant_persona_secret db st' g) !! g' = if decide (g' = g) then None else ls_cache st !! g') as Hd.
  { intros st' E. unfold delete_grant_persona_secret. destruct (db_delete_secret db g); cbn; rewrite E;
      (case_decide; [subst; apply lookup_delete_eq|by apply lookup_delete_ne]). }
  destruct (bool_decide _); apply Hd; [|done]. unfold delete_lease_blob. by destruct (db_delete db g).
Qed.

Lemma marked_update id d :
  Forall2 (marked [id]) (d_grants d) (d_grants (update_row id (set_status "revoked") d)).
Proof.
  unfold update_row, update_where. cbn [d_grants set_rows]. apply Forall2_fmap_r.
  induction (d_grants d) as [|r l IH]; constructor; [|done]. unfold compose, has_id. case_bool_decide as E; split; try done.
  - rewrite decide_True; [done|]. rewrite E. apply list_elem_of_here.
  - rewrite decide_False; [done|]. by intros ?%list_elem_of_singleton.
Qed.

(** Dropping the lease of rows whose status has been set. *)
Lemma cut_drop env id d d1 :
  Forall2 (marked [id]) (d_grants d) (d_grants d1) → d_personas d1 = d_personas d →
  (∀ g, ls_cache (d_leases d1) !! g = ls_cache (d_leases d) !! g) → cut [id] d (drop_lease env id d1).
Proof.
  intros Hr Hp Hc. split_and!; [done..|]. intros g. unfold drop_lease. cbn [d_leases set_leases].
  rewrite cache_drop. repeat case_decide; rewrite ?list_elem_of_singleton in *; naive_solver.
Qed.

Lemma cut_child_end env root c d : cut [c] d (revoke_child env root c d).
Proof.
  unfold revoke_child. eapply (cut_trans [c] []); [|apply cut_receipt].
  apply cut_drop; [apply marked_update|done..].
Qed.

(** No active child of [q] is left. *)
Definition closed (d : Daemon) (q : string) : Prop :=
  ∀ r, r ∈ d_grants d → active_child_of q r = false.

Lemma closed_cut M d d' q : cut M d d' → closed d q → closed d' q.
Proof.
  intros Hcut Hc r' Hr'. apply not_true_iff_false. intros Hch.
  destruct (cut_child _ _ _ _ _ Hcut Hr' Hch) as (r & Hr & _ & Hch' & _). by rewrite (Hc r Hr) in Hch'.
Qed.

(** A partial cascade from [p]: what is cut descends from [p], and what is cut has no active child. *)
Definition swept (p : string) (d d' : Daemon) (M : list string) : Prop :=
  cut M d d' ∧ ∀ c, c ∈ M → descends (d_grants d) p c ∧ closed d' c.

Lemma swept_step p c M M2 d0 d1 d2 d3 :
  swept p d0 d1 M → descends (d_grants d0) p c → cut [c] d1 d2 → swept c d2 d3 M2 → closed d3 c →
  swept p d0 d3 (M2 ++ c :: M).
Proof.
  intros [H01 HM] Hc H12 [H23 HM2] Hcl.
  pose proof (cut_trans _ _ _ _ _ H01 H12) as H02. pose proof (cut_trans _ _ _ _ _ H12 H23) as H13.
  split; [exact (cut_trans _ _ _ _ _ H02 H23)|]. intros x [Hx|[->|Hx]%elem_of_cons]%elem_of_app.
  - destruct (HM2 x Hx) as [Hd Hx']. split; [|done]. eapply descends_cut; [exact H02|by right|done].
  - done.
  - destruct (HM x Hx) as [Hd Hx']. split; [done|by eapply closed_cut].
Qed.

Lemma cascade_fold env root fuel p d0 :
  (∀ c d d', cascade_loop env root fuel c d = Some d' → ∃ M, swept c d d' M ∧ closed d' c) →
  ∀ cs d d' M,
    (∀ c, c ∈ cs → descends (d_grants d0) p c) → swept p d0 d M →
    foldl (λ acc c, acc ≫= λ d, cascade_loop env root fuel c (revoke_child env root c d)) (Some d) cs = Some d' →
    ∃ M', swept p d0 d' M' ∧ ∀ c, c ∈ cs ∨ c ∈ M → c ∈ M'.
Proof.
  intros IH cs. induction cs as [|c cs IHcs]; intros d d' M Hcs Hs Hf; cbn in Hf.
  - injection Hf as <-. exists M. split; [done|]. by intros c [?%not_elem_of_nil|?].
  - destruct (cascade_loop env root fuel c (revoke_child env root c d)) as [d2|] eqn:E.
    2: { exfalso. clear -Hf. induction cs; cbn in Hf; [done|auto]. }
    destruct (IH _ _ _ E) as (M2 & Hs2 & Hc2).
    edestruct (IHcs d2 d' (M2 ++ c :: M)) as (M' & Hs' & HM'); [| |exact Hf|].
    + intros x Hx. apply Hcs. by right.
    + eapply swept_step; [exact Hs| |apply cut_child_end|exact Hs2|exact Hc2]. apply Hcs. by left.
    + exists M'. split; [done|]. intros x Hx. apply HM'.
      destruct Hx as [[->|Hx]%elem_of_cons|Hx]; [right|by left|right]; set_solver.
Qed.

(** A completed cascade cuts exactly the descendants. *)
Lemma cascade_loop_spec env root fuel :
  ∀ p d d', cascade_loop env root fuel p d = Some d' → ∃ M, swept p d d' M ∧ closed d' p.
Proof.
  induction fuel as [|fuel IH]; intros p d d' H; [done|]. cbn in H.
  edestruct (cascade_fold env root fuel p d IH) as (M & HM & Hin); [| |exact H|].
  { intros c (r & -> & [Hr Hch]%list_elem_of_In%filter_In)%list_elem_of_fmap.
    apply (descends_step _ _ p); [by left|by apply list_elem_of_In|done]. }
  { split; [apply cut_refl|]. by intros ? ?%not_elem_of_nil. }
  exists M. split; [done|]. intros r' Hr'. apply not_true_iff_false. intros Hch.
  destruct HM as [Hcut _]. destruct (cut_child _ _ _ _ _ Hcut Hr' Hch) as (r & Hr & _ & Hch' & Hout).
  apply Hout, Hin. left. apply list_elem_of_fmap. exists r. split; [done|].
  apply list_elem_of_In, filter_In. by rewrite <-list_elem_of_In.
Qed.

(** *** The fuel is enough *)

Definition is_active (r : GrantRow) : bool := bool_decide (r_status r = "active").
Definition active_count (d : Daemon) : nat := length (List.filter is_active (d_grants d)).

Lemma active_count_cut M d d' :
  cut M d d' → (active_count d' ≤ active_count d)%nat ∧
  ((∃ r, r ∈ d_grants d ∧ is_active r = true ∧ r_id r ∈ M) → (active_count d' < active_count d)%nat).
Proof.
  intros (H & _ & _). unfold active_count. induction H as [|r r' l l' [_ Hst] _ [IH1 IH2]].
  - split; [done|]. intros (r & ?%not_elem_of_nil & _). done.
  - assert (is_active r' = if decide (r_id r ∈ M) then false else is_active r) as E.
    { unfold is_active. rewrite Hst. by case_decide. }
    cbn [List.filter]. rewrite E. case_decide as Hin; destruct (is_active r) eqn:Ea; cbn [length];
      (split; [lia|]); intros (x & [->|Hx]%elem_of_cons & Hxa & HxM); try congruence; try lia;
      specialize (IH2 (ex_intro _ x (conj Hx (conj Hxa HxM)))); lia.
Qed.

Lemma cascade_loop_total env root fuel :
  ∀ p d, (active_count d < fuel)%nat → is_Some (cascade_loop env root fuel p d).
Proof.
  induction fuel as [|fuel IH]; intros p d Hf; [lia|]. cbn [cascade_loop].
  assert (∀ c, c ∈ r_id <$> List.filter (active_child_of p) (d_grants d) →
    ∃ r, r ∈ d_grants d ∧ is_active r = true ∧ r_id r = c) as Hcs.
  { intros c (r & -> & [Hr Hch]%list_elem_of_In%filter_In)%list_elem_of_fmap.
    exists r. apply active_child_of_true in Hch as [_ Hs]. unfold is_active.
    rewrite Hs. by rewrite <-list_elem_of_In in Hr. }
  revert Hcs. generalize (r_id <$> List.filter (active_child_of p) (d_grants d)) as cs.
  assert (∃ M, cut M d d) as Hcut by (exists []; apply cut_refl). revert Hcut.
  generalize d at 2 4 as d1. intros d1 Hcut cs. revert d1 Hcut.
  induction cs as [|c cs IHcs]; intros d1 [M Hcut] Hcs; [done|]. cbn.
  pose proof (cut_trans _ _ _ _ _ Hcut (cut_child_end env root c d1)) as Hcut'.
  destruct (Hcs c ltac:(by left)) as (r & Hr & Ha & Hc).
  assert (is_Some (cascade_loop env root fuel c (revoke_child env root c d1))) as [d2 E].
  { apply IH. destruct (active_count_cut _ _ _ Hcut') as [_ Hlt].
    specialize (Hlt ltac:(exists r; set_solver)). lia. }
  rewrite E. apply IHcs; [|intros x Hx; apply Hcs; by right].
  destruct (cascade_loop_spec _ _ _ _ _ _ E) as (M2 & [H2 _] & _).
  eexists. exact (cut_trans _ _ _ _ _ Hcut' H2).
Qed.

Lemma active_count_rows d : (active_count d ≤ length (d_grants d))%nat.
Proof. apply List.filter_length_le. Qed.

(** The descendants of a grant, and nothing else, are cut by the cascade. *)
Lemma cascade_spec env p root d :
  ∃ M, cut M d (cascade_revoke_children env p root d) ∧ (∀ c, c ∈ M ↔ descends (d_grants d) p c) ∧
    closed (cascade_revoke_children env p root d) p.
Proof.
  unfold cascade_revoke_children.
  destruct (cascade_loop_total env root (S (length (d_grants d))) p d) as [d' E].
  { pose proof (active_count_rows d). lia. }
  rewrite E. cbn [default]. destruct (cascade_loop_spec _ _ _ _ _ _ E) as (M & [Hcut HM] & Hcl).
  exists M. split_and!; [done| |done]. intros c. split; [intros Hc; by destruct (HM c Hc)|].
  induction 1 as [r Hr Hch|q r Hq IH Hr Hch].
  all: destruct (cut_back _ _ _ _ Hcut Hr) as (r' & Hr' & Hs & Hst).
  all: apply same_grant_spec in Hs as [_ Hp]; apply active_child_of_true in Hch as [Hpar Ha].
  all: destruct (decide (r_id r ∈ M)) as [|Hn]; [done|exfalso].
  - specialize (Hcl r' Hr'). rewrite <-not_true_iff_false, active_child_of_true in Hcl.
    apply Hcl. by rewrite Hp, Hst.
  - apply HM in IH as [_ Hcq]. specialize (Hcq r' Hr'). rewrite <-not_true_iff_false, active_child_of_true in Hcq.
    apply Hcq. by rewrite Hp, Hst.
Qed.

(** *** The descendants collected before a workflow is revoked *)

Section Collect.
Variables (rows : list GrantRow) (root : string).

Definition children (p : string) : list string := r_id <$> List.filter (active_child_of p) rows.

Lemma elem_of_children p c : c ∈ children p ↔ ∃ r, c = r_id r ∧ r ∈ rows ∧ active_child_of p r = true.
Proof.
  unfold children. rewrite list_elem_of_fmap. setoid_rewrite list_elem_of_In. by setoid_rewrite filter_In.
Qed.

(** The state of the search: [k] grants have been expanded, [busy] is being expanded. *)
Record searching (k : nat) (busy : list string) (acc : list string * list string * list string) : Prop := {
  se_seen : acc.2 = reverse acc.1.2 ++ [root];
  se_nodup : NoDup acc.2;
  se_frontier : NoDup acc.1.1 ∧ acc.1.1 ⊆ acc.2;
  se_sound : ∀ x, x ∈ acc.1.2 → descends rows root x;
  se_closed q : q ∈ acc.2 → q ∈ acc.1.1 ∨ q ∈ busy ∨ children q ⊆ acc.2;
  se_count : length acc.2 = (length acc.1.1 + k)%nat
}.

Lemma searching_child k busy acc c :
  searching k busy acc → descends rows root c →
  searching k busy (collect_child acc c) ∧ acc.2 ⊆ (collect_child acc c).2 ∧ c ∈ (collect_child acc c).2.
Proof.
  destruct acc as [[frontier out] seen]. intros [H1 H2 [H3 H3'] H4 H5 H6] Hc. cbn [fst snd collect_child] in *.
  case_bool_decide as E; [done|]. cbn [fst snd]. split; [|set_solver]. split; cbn [fst snd length].
  - by rewrite reverse_app, H1.
  - by constructor.
  - split; [constructor; set_solver|set_solver].
  - set_solver.
  - intros q [->|Hq]%elem_of_cons; [set_solver|]. destruct (H5 q Hq) as [?|[?|?]]; set_solver.
  - by rewrite H6.
Qed.

Lemma searching_fold k busy cs : ∀ acc,
  searching k busy acc → (∀ c, c ∈ cs → descends rows root c) →
  let acc' := foldl collect_child acc cs in searching k busy acc' ∧ acc.2 ⊆ acc'.2 ∧ cs ⊆ acc'.2.
Proof.
  induction cs as [|c cs IH]; intros acc H Hcs; cbn; [set_solver|].
  destruct (searching_child k busy acc c H ltac:(apply Hcs; by left)) as (H' & Hs & Hc).
  destruct (IH _ H' ltac:(intros x Hx; apply Hcs; by right)) as (H'' & Hs' & Hcs'). cbn in *.
  split_and!; [done|set_solver|]. intros x [->|Hx]%elem_of_cons; set_solver.
Qed.

Lemma seen_bound k busy acc : searching k busy acc → (length acc.2 ≤ S (length rows))%nat.
Proof.
  intros [H1 H2 _ H4 _ _].
  assert (acc.2 ⊆ root :: (r_id <$> rows)) as Hsub.
  { rewrite H1. intros x [Hx|Hx%list_elem_of_singleton]%elem_of_app; [|subst x; by left].
    right. rewrite elem_of_reverse in Hx. destruct (H4 x Hx); by apply list_elem_of_fmap_2. }
  apply (NoDup_submseteq _ _ H2), submseteq_length in Hsub. cbn in Hsub. by rewrite length_fmap in Hsub.
Qed.

(** A search with nothing left to expand has found all descendants. *)
Lemma searching_done k out seen :
  searching k [] ([], out, seen) → NoDup out ∧ ∀ x, x ∈ out ↔ x ≠ root ∧ descends rows root x.
Proof.
  intros [H1 H2 _ H4 H5 _]. cbn [fst snd] in *. rewrite H1 in H2. apply NoDup_app in H2 as (Hn & Hr & _).
  assert (∀ q, q ∈ seen → children q ⊆ seen) as Hcl.
  { intros q Hq. by destruct (H5 q Hq) as [?%not_elem_of_nil|[?%not_elem_of_nil|?]]. }
  assert (∀ x, descends rows root x → x ∈ seen) as Hall.
  { induction 1 as [r Hr' Hch|q r Hq IHq Hr' Hch];
      [apply (Hcl root); [rewrite H1; set_solver|]|apply (Hcl q); [done|]]; apply elem_of_children; by exists r. }
  split; [by rewrite <-(reverse_Permutation out)|]. intros x. split.
  - intros Hx. split; [|by apply H4]. intros ->. apply (Hr root); [by rewrite elem_of_reverse|set_solver].
  - intros [Hne Hx%Hall]. rewrite H1 in Hx. set_solver.
Qed.

(** The search ends within its fuel, with the descendants of [root], each once. *)
Lemma collect_loop_spec fuel : ∀ k acc,
  searching k [] acc → (S (length rows) ≤ fuel + k)%nat →
  ∃ out, collect_loop rows fuel acc = Some out ∧ NoDup out ∧
    ∀ x, x ∈ out ↔ x ≠ root ∧ descends rows root x.
Proof.
  induction fuel as [|fuel IH]; intros k [[[|p frontier] out] seen] Hse Hf.
  1, 3: exists out; split; [done|by eapply searching_done].
  - exfalso. pose proof (seen_bound _ _ _ Hse). destruct Hse as [_ _ _ _ _ H6]. cbn [fst snd length] in *. lia.
  - assert (searching (S k) [p] (frontier, out, seen)) as Hse'.
    { destruct Hse as [H1 H2 [H3 H3'] H4 H5 H6]. cbn [fst snd length] in *. inversion H3; subst.
      split; cbn [fst snd]; try done; [set_solver| |lia].
      intros q Hq. destruct (H5 q Hq) as [[->|?]%elem_of_cons|[?%not_elem_of_nil|?]]; set_solver. }
    assert (p = root ∨ descends rows root p) as Hp.
    { destruct Hse as [H1 _ [_ H3] H4 _ _]. cbn [fst snd] in *. assert (p ∈ seen) as Hps by set_solver.
      rewrite H1 in Hps. rewrite elem_of_app, elem_of_reverse, list_elem_of_singleton in Hps. naive_solver. }
    destruct (searching_fold (S k) [p] (children p) (frontier, out, seen) Hse') as (Hs & _ & Hcs).
    { intros c (r & -> & Hr & Hch)%elem_of_children. by eapply descends_step. }
    cbn [collect_loop]. apply (IH (S k)); [|lia]. destruct Hs as [H1 H2 H3 H4 H5 H6]. split; try done.
    intros q Hq. destruct (H5 q Hq) as [?|[E%list_elem_of_singleton|?]]; [by left|subst q; by right; right|by right; right].
Qed.
End Collect.

Lemma collect_active_descendants_spec d root :
  NoDup (collect_active_descendants d root) ∧
  ∀ x, x ∈ collect_active_descendants d root ↔ x ≠ root ∧ descends (d_grants d) root x.
Proof.
  unfold collect_active_descendants.
  destruct (collect_loop_spec (d_grants d) root (S (length (d_grants d))) 0 ([root], [], [root])) as (out & -> & Ho);
    [|lia|done].
  split; cbn; try done; try set_solver; [apply NoDup_singleton|split; [apply NoDup_singleton|done]].
Qed.

(** ** Revocation *)

Lemma revoke_root_cut env id reason d :
  cut [id] d (drop_lease env id (trigger_receipt env id reason (update_row id (set_status "revoked") d))).
Proof.
  destruct (cut_receipt env id reason (update_row id (set_status "revoked") d)) as (Hr & Hp & Hc).
  apply cut_drop; [|done|].
  - assert (∀ l1 l2 l3, Forall2 (marked [id]) l1 l2 → Forall2 (marked []) l2 l3 → Forall2 (marked [id]) l1 l3) as Ht.
    { intros l1 l2 l3 H12. revert l3. induction H12; intros l3 H23; inversion H23; subst; constructor; auto.
      by apply (marked_trans [id] [] _ _ _ H). }
    eapply Ht; [apply marked_update|done].
  - intros g. by rewrite Hc, decide_False by apply not_elem_of_nil.
Qed.

(** A revocation cuts the grant and its descendants. *)
Lemma revoke_grant_sql_Ok env id d d' :
  revoke_grant_sql env id d = (Ok tt, d') →
  ∃ M, cut (M ++ [id]) d d' ∧ ∀ x, x ∈ M ↔ x ≠ id ∧ descends (d_grants d) id x.
Proof.
  unfold revoke_grant_sql. destruct (some_row _ d); [|done]. cbn [negb]. destruct (env_audit env); [done|].
  pose proof (revoke_root_cut env id (TR_Revoked RA_Operator "") d) as Hcut.
  set (d1 := drop_lease _ _ _) in *. intros [= <-].
  destruct (cascade_spec env id id d1) as (M & HcutM & HM & _).
  exists M. split; [exact (cut_trans _ _ _ _ _ Hcut HcutM)|]. intros x. rewrite HM. split.
  - intros Hx. split; [|eapply descends_cut; [exact Hcut|by left|done]].
    assert (∃ p r, r ∈ d_grants d1 ∧ active_child_of p r = true ∧ r_id r = x) as (p & r & Hr & Hch & Hid)
      by (destruct Hx as [r ? ?|q r ? ? ?]; [by exists id, r|by exists q, r]).
    destruct (cut_child _ _ _ _ _ Hcut Hr Hch) as (r0 & _ & Hid0 & _ & Hn). rewrite Hid0, Hid in Hn. set_solver.
  - intros [Hne Hx]. enough (x = id ∨ descends (d_grants d1) id x) by naive_solver. clear Hne.
    assert (∀ r p, r ∈ d_grants d → active_child_of p r = true →
      r_id r = id ∨ ∃ r', r' ∈ d_grants d1 ∧ active_child_of p r' = true ∧ r_id r' = r_id r) as Hstep.
    { intros r p Hr [Hp Hs]%active_child_of_true. destruct (cut_back _ _ _ _ Hcut Hr) as (r' & Hr' & Hsg & Hst).
      apply same_grant_spec in Hsg as [Hid Hpar]. case_decide as E; [left; set_solver|]. right. exists r'.
      rewrite active_child_of_true, Hpar, Hst. done. }
    induction Hx as [r Hr Hch|q r Hq IH Hr Hch]; destruct (Hstep _ _ Hr Hch) as [->|(r' & Hr' & Hch' & <-)]; [by left| |by left|].
    + right. by apply (descends_step _ _ id); [left|..].
    + right. destruct IH as [->|IH]; [by apply (descends_step _ _ id); [left|..]|by apply (descends_step _ _ q); [right|..]].
Qed.

(** A grant that was cut has no live lease, whatever happens to the database. *)
Lemma cut_dead M d d' g : cut M d d' → g ∈ M → dead g (lease_store d').
Proof.
  intros (Hr & _ & Hc) Hg. split.
  - cbn. by rewrite Hc, decide_True.
  - intros row now Hrow. cbn [lease_store ls_grants set_grants] in Hrow.
    apply elem_of_list_to_map_2, list_elem_of_fmap in Hrow as (r' & [= -> ->] & Hin).
    apply list_elem_of_lookup in Hin as [i Hi].
    destruct (Forall2_lookup_r _ _ _ _ _ Hr Hi) as (r & _ & Hs & Hst).
    apply same_grant_spec in Hs as [Hid _]. rewrite decide_True in Hst by congruence.
    unfold row_active. cbn. by rewrite Hst.
Qed.

Lemma cut_inert M d d' g env :
  cut M d d' → g ∈ M → has_live_lease (store_of env d') g = false.
Proof.
  intros Hcut Hg. unfold store_of. cbn [has_live_lease].
  by destruct (dead_inert g (env_db env) _ (nanos (env_now env)) (cut_dead _ _ _ _ Hcut Hg)) as (_ & -> & _).
Qed.

Lemma with_grant_Ok {B} env id d (k : Lifecycle.Grant Z → result B StoreError * Daemon) b d' :
  with_grant env id d k = (Ok b, d') → ∃ g, k g = (Ok b, d').
Proof. unfold with_grant. destruct (result_bind _ _) as [g|]; [by exists g|done]. Qed.

Lemma revoke_grant_Ok env id d d' : revoke_grant env id d = (Ok tt, d') → revoke_grant_sql env id d = (Ok tt, d').
Proof. intros (g & H)%with_grant_Ok. by destruct (map_err _ _). Qed.

(** *** Reading and writing one row *)

Lemma row_by_id_unique env d r :
  NoDup (r_id <$> d_grants d) → r ∈ d_grants d → row_by_id (store_of env d) (r_id r) = Some r.
Proof.
  unfold row_by_id, store_of. cbn [grants]. induction (d_grants d) as [|x l IH]; cbn.
  - by intros _ ?%not_elem_of_nil.
  - intros [Hx Hn]%NoDup_cons [->|Hr]%elem_of_cons; [by rewrite bool_decide_true|].
    rewrite bool_decide_false; [by apply IH|]. intros E. apply Hx. rewrite E. by apply list_elem_of_fmap_2.
Qed.

Lemma cut_ids M d d' : cut M d d' → r_id <$> d_grants d' = r_id <$> d_grants d.
Proof.
  intros (H & _ & _). induction H as [|r r' l l' [Hs _] _ IH]; [done|]. cbn. rewrite IH.
  by destruct (same_grant_spec _ _ Hs) as [-> _].
Qed.

(** A paused grant is read as paused, whenever. *)
Lemma effective_paused s r : r_status r = "paused" → effective_row_status s r = "paused".
Proof. unfold effective_row_status. by intros ->. Qed.

Lemma resume_paused env d r u :
  NoDup (r_id <$> d_grants d) → r ∈ d_grants d → r_status r = "paused" →
  parse_grant_id (r_id r) = Ok u → r_id r = "grant-" +:+ u →
  resume_grant env (r_id r) d
  = (Ok tt, update_row (r_id r) (λ r, set_paused_flag false (set_status "active" r)) d).
Proof.
  intros Hn Hr Hs Hu Hid. pose proof (row_by_id_unique env d r Hn Hr) as Hrow.
  unfold resume_grant, with_grant, load, get_grant. rewrite Hu. cbn [result_bind]. rewrite <-Hid, Hrow. cbn [result_bind].
  rewrite (effective_paused _ _ Hs). unfold Lifecycle.resume. rewrite (bool_decide_true (Lifecycle.issuer _ = _)) by done.
  cbn [negb result_bind]. unfold resume_grant_sql, get_grant. rewrite Hrow.
  by rewrite (effective_paused _ _ Hs).
Qed.

End Table.

(** ** Properties *)

(** C5. The revocation of a workflow reports exactly what it did. The report lists the grants delegated from
    the root through active grants, each once and without the root; those and the root are the
    rows whose status became revoked, with nothing else changed but receipt ids; none
    of them has a live lease afterwards, so that the proxy no longer resolves a request to any of them;
    the leases of all other grants stay. *)
Theorem workflow_revocation_exact {Cr : CryptoOps} {A : AeadOps} {J : MetaJson}
  {SJ : SecretJson} {Id : UuidOps} {U : UriOps} {P : PercentOps} {T : JsonText} {Mt : MethodOps}
  env audit root cohort immediate d report handoff d' :
  revoke_workflow_root env audit root cohort immediate d = (Ok (report, handoff), d') →
  let ids := wr_descendant_grant_ids report in
  NoDup ids ∧ (∀ x, x ∈ ids ↔ x ≠ root ∧ descends (d_grants d) root x) ∧
  Forall2 (marked (root :: ids)) (d_grants d) (d_grants d') ∧
  (∀ env' persona cred gid uri method r,
     daemon_resolve_grant (store_of env' d') persona cred gid uri method = Ok r →
     rg_grant_id r ∉ root :: ids) ∧
  (∀ g, g ∉ root :: ids → ls_cache (d_leases d') !! g = ls_cache (d_leases d) !! g).
Proof.
  unfold revoke_workflow_root. destruct (immediate && _); [done|].
  destruct (revoke_grant env root d) as [[[]|] d1] eqn:Hr; [|done]. destruct audit as [[]|]; [|done].
  intros [= <- <- <-]. cbn [wr_descendant_grant_ids].
  destruct (collect_active_descendants_spec d root) as [Hnd Hids]. set (ids := collect_active_descendants d root) in *.
  apply revoke_grant_Ok, revoke_grant_sql_Ok in Hr as (M & Hcut & HM).
  assert (∀ x, x ∈ M ++ [root] ↔ x ∈ root :: ids) as Heq.
  { intros x. rewrite elem_of_app, !elem_of_cons, elem_of_nil, HM, Hids. tauto. }
  split_and!; [done|done| | |].
  - destruct Hcut as (Hrows & _ & _). eapply Forall2_impl; [exact Hrows|]. intros r r'. by apply marked_ext.
  - intros env' persona cred gid uri method r (row & ag & Hres & Hid & _)%daemon_resolve_grant_Ok Hin.
    destruct Hres as (_ & _ & _ & Hlive & _). rewrite <-Hid in Hlive.
    by rewrite (cut_inert _ _ _ _ env' Hcut (proj2 (Heq _) Hin)) in Hlive.
  - intros g Hg. destruct Hcut as (_ & _ & Hc). rewrite Hc, decide_False; [done|]. by rewrite Heq.
Qed.

(** A paused grant escapes the cascade. When a grant is revoked, a paused grant delegated from it keeps its
    status and can be resumed to active afterwards, although its parent is revoked. *)
Theorem cascade_skips_paused {Cr : CryptoOps} {A : AeadOps} {J : MetaJson} {SJ : SecretJson}
  {Id : UuidOps} env env' root d d' r u :
  NoDup (r_id <$> d_grants d) → r ∈ d_grants d → r_parent_grant_id r = Some root → r_status r = "paused" →
  r_id r ≠ root → parse_grant_id (r_id r) = Ok u → r_id r = "grant-" +:+ u →
  revoke_grant env root d = (Ok tt, d') →
  ∃ d'' r'', resume_grant env' (r_id r) d' = (Ok tt, d'') ∧ r'' ∈ d_grants d'' ∧ r_id r'' = r_id r ∧
    r_parent_grant_id r'' = Some root ∧ r_status r'' = "active".
Proof.
  intros Hn Hr Hp Hs Hne Hu Hid (M & Hcut & HM)%revoke_grant_Ok%revoke_grant_sql_Ok.
  destruct (cut_back _ _ _ _ Hcut Hr) as (r' & Hr' & Hsg & Hst).
  destruct (same_grant_spec _ _ Hsg) as [Hid' Hpar']. rewrite decide_False in Hst.
  2: { intros [Hx%HM|Hx%list_elem_of_singleton]%elem_of_app; [|done]. destruct Hx as [_ Hx].
       assert (∃ q r0, r0 ∈ d_grants d ∧ active_child_of q r0 = true ∧ r_id r0 = r_id r) as (q & r0 & Hr0 & Hch & E)
         by (inversion Hx as [r0|q r0]; subst; [by exists root, r0|by exists q, r0]).
       pose proof (row_by_id_unique env _ _ Hn Hr0) as H1. rewrite E, (row_by_id_unique env _ _ Hn Hr) in H1.
       injection H1 as <-. apply active_child_of_true in Hch as [_ Hch]. congruence. }
  rewrite <-Hid' in *. eexists _, (set_paused_flag false (set_status "active" r')). split_and!.
  - apply (resume_paused _ _ _ u); [|done|congruence|done..]. by rewrite (cut_ids _ _ _ Hcut).
  - cbn. apply list_elem_of_fmap. exists r'. unfold has_id. by rewrite bool_decide_true.
  - done.
  - cbn. congruence.
  - done.
Qed.

(** ** A small table *)

Module ToyTable.

#[export] Instance uuid : UuidOps := {| uuid_parse := Ok; uuid_nil := "nil" |}.

(** A grant with its delegation parent and status. *)
Definition row (id : string) (parent : option string) (status : string) : GrantRow :=
  mkRow ("grant-" +:+ id) "alice" "github/pat" "github:read" 1 None status None None None
    ((λ p, "grant-" +:+ p) <$> parent) None None (Some 3) None None false false None None.

Definition rows : list GrantRow :=
  [row "b" (Some "a") "active"; row "r" None "active"; row "a" (Some "r") "active"; row "x" None "active";
   row "p" (Some "r") "paused"; row "q" (Some "p") "active"].

Definition lease (id : string) : string * Lease :=
  ("grant-" +:+ id, mkLease ("grant-" +:+ id) "alice" "github:read" None 1 (ToyLease.key "k")).
Definition leases : LeaseStore :=
  mkLeaseStore (list_to_map (lease <$> ["r"; "a"; "b"; "x"])) ∅ ∅ ∅ None ∅.

Definition daemon : Daemon := mkDaemon rows [] leases [].
Definition env : Env := mkEnv 100 db_ok None true (λ r _, Ok ("receipt-" +:+ r_id r)) [].

End ToyTable.
Import ToyTable.

Lemma workflow_revocation_exact_witness :
  let O := toy_ops (λ _, true) in let A := ToyLease.aead in let J := ToyLease.json [] in
  let S := ToySecrets.json in
  ∃ report handoff d', revoke_workflow_root ToyTable.env (Ok tt) "grant-r" Team0 true ToyTable.daemon
                       = (Ok (report, handoff), d') ∧
    Forall2 (marked ["grant-r"; "grant-a"; "grant-b"]) ToyTable.rows (d_grants d') ∧
    ls_cache (d_leases d') !! "grant-x" ≠ None.
Proof.
  intros O A J S.
  destruct (revoke_workflow_root ToyTable.env (Ok tt) "grant-r" Team0 true ToyTable.daemon) as [[[rep ho]|e] d'] eqn:E.
  2: { exfalso. apply (f_equal fst) in E. vm_compute in E. discriminate. }
  exists rep, ho, d'. split; [done|].
  pose proof (workflow_revocation_exact (U := ToyUri.ops) (P := ProxyMatch.Build_PercentOps id)
    (T := Build_JsonText (λ _, None)) (Mt := Build_MethodOps Some) _ _ _ _ _ _ _ _ _ E) as (_ & _ & H & _ & Hl).
  replace (wr_descendant_grant_ids rep) with ["grant-a"; "grant-b"] in *.
  2: { apply (f_equal fst) in E. vm_compute in E. injection E as <- _. reflexivity. }
  split; [exact H|]. rewrite Hl; [vm_compute; discriminate|]. apply (bool_decide_unpack _). by vm_compute.
Defined.

Lemma cascade_skips_paused_witness :
  let O := toy_ops (λ _, true) in let A := ToyLease.aead in let J := ToyLease.json [] in
  let S := ToySecrets.json in
  let d' := (revoke_grant ToyTable.env "grant-r" ToyTable.daemon).2 in
  ∃ d'' r'', resume_grant ToyTable.env "grant-p" d' = (Ok tt, d'') ∧ r'' ∈ d_grants d'' ∧
    r_id r'' = "grant-p" ∧ r_parent_grant_id r'' = Some "grant-r" ∧ r_status r'' = "active".
Proof.
  intros O A J S d'.
  assert (revoke_grant ToyTable.env "grant-r" ToyTable.daemon = (Ok tt, d')) as Hr.
  { rewrite (surjective_pairing (revoke_grant _ _ _)). by f_equal. }
  clearbody d'.
  refine (cascade_skips_paused ToyTable.env ToyTable.env "grant-r" ToyTable.daemon d'
            (ToyTable.row "p" (Some "r") "paused") "p" _ _ _ _ _ _ _ Hr).
  - apply (bool_decide_unpack _). by vm_compute.
  - apply list_elem_of_lookup. by exists 4%nat.
  - reflexivity.
  - reflexivity.
  - discriminate.
  - reflexivity.
  - reflexivity.
Defined.
