(* ===== verification/GrantMint.v ===== *)
(** * Minting, delegating, extending and metering grants

    crates/ember-daemon/src/trust/grant.rs: [create_grant_with_budget], [delegate_grant_full],
    [extend_grant] and [increment_statement_usage], which write the chains of the grant table
    ([GrantTable]) under leases ([LeaseSigning]), and the metering of a proxied call that uses the
    last one ([post_flight], src/infra/proxy.rs). The identifiers, keys and nonces drawn at
    random and the vault are a record [MintEnv]. SQL statements succeed, except the INSERT of a new
    row; a transaction that is not committed leaves the tables as they were. The receipt for
    a spawned child, which is best effort, is left out. *)

From stdpp Require Import base gmap list strings.
From Stdlib Require Import Ascii Lia ZArith.
From S2P Require Import Prelude CoreTypes Numbers GrantTypes Attenuation GrantLifecycle ChainCrypto UseTime ProxyMatch Metering ProxyPolicy ProxyForward ProxyDaemon Lease LeaseSigning GrantTable.

Local Infix "+:+" := String.append (at level 60, right associativity).
Local Open Scope Z_scope.

(** ** Caps *)

Definition MAX_BLOCKS : nat := 32.
Definition MAX_STATEMENTS_PER_BLOCK : nat := 16.
Definition MAX_BLOCKS_JSON_BYTES : Z := 64 * 1024.
Definition MAX_GRANT_TTL_SECS : Z := 30 * 24 * 60 * 60.

(** serde_json on a chain of blocks. *)
Class BlocksJson := { blocks_to_json : list SignedBlock → result string string }.

(** The loop over the blocks, from index [idx]. *)
Fixpoint statement_caps (idx : nat) (blocks : list SignedBlock) : result unit StoreError :=
  match blocks with
  | [] => Ok tt
  | sb :: rest =>
      let n := length (statements (block sb)) in
      if (MAX_STATEMENTS_PER_BLOCK <? n)%nat
      then Err (SE_InvalidInput ("blocks_json write rejected: block " +:+ u64_to_string (Z.of_nat idx) +:+ " has "
                  +:+ u64_to_string (Z.of_nat n) +:+ " statements; cap is 16"))
      else statement_caps (S idx) rest
  end.

Definition validate_blocks_json_caps (blocks : list SignedBlock) (serialized : string) : result unit StoreError :=
  if (MAX_BLOCKS <? length blocks)%nat
  then Err (SE_InvalidInput ("blocks_json write rejected: chain has " +:+ u64_to_string (Z.of_nat (length blocks))
              +:+ " blocks; cap is 32"))
  else
    statement_caps 0 blocks ;?
    (if MAX_BLOCKS_JSON_BYTES <? str_len serialized
     then Err (SE_InvalidInput ("blocks_json write rejected: payload is " +:+ u64_to_string (str_len serialized)
                 +:+ " bytes; cap is 65536"))
     else Ok tt).

Definition ttl_cap (ttl_secs : option Z) : result unit StoreError :=
  match ttl_secs with
  | Some secs =>
      if MAX_GRANT_TTL_SECS <? secs
      then Err (SE_InvalidInput ("ttl_secs (" +:+ u64_to_string secs
                  +:+ ") exceeds MAX_GRANT_TTL_SECS (2592000); grants are bounded per ADR 072 — mint a shorter-lived grant or schedule re-issuance"))
      else Ok tt
  | None => Ok tt
  end.

(** ** What a mint draws *)

Record MintEnv := mkMint {
  mint_uuid : string;
  mint_random : MintRandom;
  mint_secret : string → result string StoreError;
  mint_insert : option string
}.

Definition grant_id_of (m : MintEnv) : string := "grant-" +:+ mint_uuid m.

Definition persona_row (d : Daemon) (persona_id : string) : option PersonaRow :=
  List.find (λ p, bool_decide (p_id p = persona_id)) (d_personas d).

(** [INSERT INTO grants]: the identifier is the primary key. *)
Definition insert_row (m : MintEnv) (r : GrantRow) (d : Daemon) : result unit StoreError * Daemon :=
  match mint_insert m with
  | Some e => (Err (SE_Sqlite e), d)
  | None =>
      if some_row (has_id (r_id r)) d then (Err (SE_Sqlite "UNIQUE constraint failed: grants.id"), d)
      else (Ok tt, set_rows d (d_grants d ++ [r]))
  end.

(** [if let Err(err) = ... { self.leases().drop_lease(&id); return Err(err); }] *)
Definition or_drop {B} (env : Env) (id : string) (o : result B StoreError * Daemon)
  (k : B → Daemon → result GrantRow StoreError * Daemon) : result GrantRow StoreError * Daemon :=
  match o with
  | (Err e, d) => (Err e, drop_lease env id d)
  | (Ok b, d) => k b d
  end.

Definition non_empty_budget (b : option Budget) : option Budget :=
  match b with Some b => if is_none_set b then None else Some b | None => None end.

Section Mint.
Context {Cr : CryptoOps} {A : AeadOps} {J : MetaJson} {SJ : SecretJson} {Id : UuidOps} {BJ : BlocksJson}.

Definition access_grant_blocks_to_json (blocks : list SignedBlock) : result string StoreError :=
  map_err (λ e, SE_InvalidInput ("failed to serialize AccessGrant blocks: " +:+ e)) (blocks_to_json blocks).

(** The chain as it is written, with its caps checked. *)
Definition checked_chain (blocks : list SignedBlock) : result (list SignedBlock) StoreError :=
  let? blocks_json := access_grant_blocks_to_json blocks in
  validate_blocks_json_caps blocks blocks_json ;?
  Ok blocks.

(** [leases().mint(..)] and [seal_persona_root_for_grant_lease]. *)
Definition mint_sealed (env : Env) (m : MintEnv) (persona_id scope : string) (expires : option Z) (d : Daemon)
  : result unit StoreError * Daemon :=
  let id := grant_id_of m in
  let now := nanos (env_now env) in
  let rnd := mint_random m in
  let st := bound_mint (env_db env) (lease_store d) id persona_id scope (nanos <$> expires) now
              (mr_key rnd) (mr_key' rnd) (mr_nonce rnd) in
  let material := persona_root_key_material persona_id (p_public_key <$> persona_row d persona_id)
                    (mint_secret m persona_id) in
  let '(r, st) := seal_persona_root_for_grant_lease (env_db env) st id persona_id now material (mr_secret_nonce rnd) in
  (r, set_leases d st).

Definition new_row (id persona_id credential_name scope : string) (created : Z) (expires : option Z)
  (parent : option string) (depth : option Z) (budget : option Budget) (blocks : list SignedBlock) : GrantRow :=
  mkRow id persona_id credential_name scope created expires "active" None None None parent (Some blocks) None
    depth budget None false false None None.

Definition create_grant_with_budget (env : Env) (m : MintEnv) (persona_id credential_name scope : string)
  (ttl_secs : option Z) (budget : option Budget) (d : Daemon) : result GrantRow StoreError * Daemon :=
  match ttl_cap ttl_secs with
  | Err e => (Err e, d)
  | Ok _ =>
      match persona_row d persona_id with
      | None => (Err SE_NotFound, d)
      | Some p =>
          if negb (bool_decide (p_status p = "active"))
          then (Err (SE_InvalidInput ("persona is not active: " +:+ p_status p)), d)
          else
            let id := grant_id_of m in
            let now := env_now env in
            let expires := (λ s, u64_sat_add now s) <$> ttl_secs in
            or_drop env id (mint_sealed env m persona_id scope expires d) (λ _ d,
              let b := ChainBuild.build_single_statement_block persona_id credential_name scope now expires
                         (non_empty_budget budget) Usage_default in
              let '(signed, st) :=
                sign_block_zero_with_live_lease_persisting_chain_secret (env_db env) (lease_store d) id persona_id b
                  (nanos now) "grant creation" (mr_seed (mint_random m)) (mr_chain_nonce (mint_random m)) in
              or_drop env id (let? sb := signed in checked_chain [sb], set_leases d st) (λ blocks d,
                let row := new_row id persona_id credential_name scope now expires None None None blocks in
                or_drop env id (insert_row m row d) (λ _ d, (Ok row, d))))
      end
  end.

(** *** Delegation *)

Definition children_since (d : Daemon) (parent : string) (since : Z) : Z :=
  Z.of_nat (length (List.filter (λ r, bool_decide (r_parent_grant_id r = Some parent) && (since <? r_created_at r))
                      (d_grants d))).

Definition standing_ceiling (env : Env) (parent : GrantRow) (d : Daemon) : result unit StoreError :=
  match r_is_standing parent, r_max_children_per_day parent with
  | true, Some limit =>
      let count := children_since d (r_id parent) (env_now env - 86400) in
      if limit <=? count
      then Err (SE_InvalidInput ("standing-parent delegation ceiling reached: " +:+ u64_to_string count +:+ "/"
                  +:+ u64_to_string limit +:+ " children minted in the trailing 24h window"))
      else Ok tt
  | _, _ => Ok tt
  end.

Definition from_violation {B} (r : result B DelegationViolation) : result B StoreError :=
  map_err (λ v, SE_DelegationViolation (reason v)) r.

(** The checks before anything is minted: the depth left, the tail block of the parent's chain and the
    child's expiry. *)
Definition delegation_checks (env : Env) (parent_chain : AccessGrant) (parent : GrantRow) (ttl_secs : option Z)
  (child_budget : option Budget) (d : Daemon) : result (Z * SignedBlock) StoreError :=
  let? max_depth := ok_or (r_max_delegation_depth parent) (SE_InvalidInput "parent does not allow delegation") in
  (if max_depth =? 0 then Err (SE_InvalidInput "delegation depth exceeded") else Ok tt) ;?
  standing_ceiling env parent d ;?
  let? tail := ok_or (last (g_blocks parent_chain)) (SE_InvalidInput "parent chain empty") in
  let? stmt := ok_or (head (statements (block tail))) (SE_InvalidInput "parent chain tail block empty") in
  let '(flat_actions, flat_selector) :=
    ChainBuild.scope_to_actions_and_selector (r_scope parent) (r_credential_name parent) in
  (if negb (bool_decide (flat_actions = actions stmt)) || negb (bool_decide (flat_selector = resource stmt))
   then Err (SE_InvalidInput "parent grant scope diverges from signed chain — rejecting delegation of tampered parent")
   else Ok tt) ;?
  from_violation (check_expiry_attenuation (expires_at (block tail)) ((λ s, Z.max 0 (env_now env + s)) <$> ttl_secs)) ;?
  from_violation (check_budget_attenuation (budget stmt) (usage stmt) child_budget) ;?
  Ok (max_depth, tail).

(** The synthetic grants of [check_statement_attenuation] at write time. *)
Definition synthetic_grant (sb : SignedBlock) (grant_id issuing_persona_id : string) : AccessGrant :=
  mkGrant grant_id 1 issuing_persona_id Service "" RP_Agent Active OneShot [sb]
    AttestationBinding_default (issued_at (block sb)) (issued_at (block sb)) None None None None.
Definition synthetic_grant_from_unsigned_block (b : Block) (grant_id issuing_persona_id : string) : AccessGrant :=
  synthetic_grant (mkSigned b "" "") grant_id issuing_persona_id.

Definition delegate_grant_full_sql (env : Env) (m : MintEnv) (parent_grant_id child_persona_id narrowed_scope : string)
  (ttl_secs : option Z) (child_budget : option Budget) (d : Daemon) : result GrantRow StoreError * Daemon :=
  match (ttl_cap ttl_secs ;?
         let? parent_chain := get_access_grant (store_of env d) parent_grant_id in
         let? parent := get_grant (store_of env d) parent_grant_id in
         Ok (parent_chain, parent)) with
  | Err e => (Err e, d)
  | Ok (parent_chain, parent) =>
      let now := env_now env in
      let '(k, st) := bound_with_key (env_db env) (lease_store d) parent_grant_id (nanos now) in
      let d := set_leases d st in
      match (ok_or k (SE_InvalidInput
               "parent grant has no live leased authority; delegation requires a live grant-scoped lease") ;?
             delegation_checks env parent_chain parent ttl_secs child_budget d) with
      | Err e => (Err e, d)
      | Ok (max_depth, tail) =>
          let id := grant_id_of m in
          let expires := (λ s, u64_sat_add now s) <$> ttl_secs in
          let child_budget := non_empty_budget child_budget in
          or_drop env id (mint_sealed env m child_persona_id narrowed_scope expires d) (λ _ d,
            let b := ChainBuild.build_single_statement_block child_persona_id (r_credential_name parent) narrowed_scope
                       now expires child_budget Usage_default in
            let '(signed, st) :=
              match check_statement_attenuation
                      (synthetic_grant tail parent_grant_id (g_issuing_persona_id parent_chain))
                      (synthetic_grant_from_unsigned_block b id child_persona_id) with
              | Err v => (Err (SE_DelegationViolation (reason v)), lease_store d)
              | Ok _ =>
                  sign_appended_block_with_lease_handoff (env_db env) (lease_store d) parent_grant_id
                    (Z.of_nat (length (g_blocks parent_chain) - 1)) id b (nanos now) "delegated grant creation"
                    (mr_seed (mint_random m)) (mr_chain_nonce (mint_random m))
              end in
            or_drop env id (let? sb := signed in checked_chain (g_blocks parent_chain ++ [sb]), set_leases d st)
              (λ blocks d,
                let row := new_row id child_persona_id (r_credential_name parent) narrowed_scope now expires
                             (Some parent_grant_id) (Some (max_depth - 1)) child_budget blocks in
                or_drop env id (insert_row m row d) (λ _ d, (Ok row, d))))
      end
  end.

Definition delegate_grant_full (env : Env) (m : MintEnv) (parent_grant_id child_persona_id narrowed_scope : string)
  (ttl_secs : option Z) (child_budget : option Budget) (d : Daemon) : result GrantRow StoreError * Daemon :=
  with_grant env parent_grant_id d (λ grant,
    if negb (bool_decide (Lifecycle.state grant = Lifecycle.Active))
    then (Err (SE_InvalidInput "parent grant not active"), d)
    else delegate_grant_full_sql env m parent_grant_id child_persona_id narrowed_scope ttl_secs child_budget d).

(** *** Transactions *)

(** A transaction that is rolled back keeps the cache of leases only. *)
Definition rollback (d0 d1 : Daemon) : Daemon :=
  set_leases d0 (set_cache (d_leases d0) (ls_cache (d_leases d1))).

(** *** Extension *)

(** [as i64] *)
Definition as_i64 (z : Z) : Z := if z <? 2 ^ 63 then z else z - 2 ^ 64.
(** [Duration::seconds]: [None] is chrono's panic. *)
Definition duration_seconds (z : Z) : option Z :=
  let s := as_i64 z in if i64_max / 1000 <? Z.abs s then None else Some s.
(** [DateTime + Duration], for whole seconds: [None] is chrono's panic. *)
Definition datetime_add (t s : Z) : option Z :=
  if (MAX_UTC_NANOS / 10 ^ 9 <? t + s) || (t + s <? -8334601228800) then None else Some (t + s).

(** The axes of the budget: the sum wraps around, as in a release build. *)
Definition add_axis (old delta : option Z) : option Z :=
  match old, delta with
  | Some e, Some d => Some ((e + d) mod 2 ^ 64)
  | None, Some d => Some d
  | e, None => e
  end.

Definition extended_budget (r : GrantRow) (tokens_delta cents_delta : option Z) : option Budget :=
  let b := default (mkBudget None None None None None) (row_budget r) in
  non_empty_budget (Some (mkBudget (add_axis (b_tokens b) tokens_delta) (add_axis (b_cents b) cents_delta)
                            (b_requests b) (b_workload_hours b) (b_wall_clock_secs b))).

Definition with_budget (budget : option Budget) (s : Statement) : Statement :=
  mkStatement (sid s) (resource_type s) (actions s) (resource s) budget (usage s) (conditions s) (can_delegate s).

(** Block 0 with the new budget on its first statement and the new expiry. *)
Definition extended_block (budget : option Budget) (expires : option Z) (b : Block) : Block :=
  mkBlock (match statements b with s :: rest => with_budget budget s :: rest | [] => [] end)
    (nbf b) (Z.max 0 <$> expires) (issued_by b) (issued_at b) (approval b) (GrantTypes.note b).

(** The outer option is [None] where the call panics. *)
Definition extend_grant_sql (env : Env) (m : MintEnv) (id : string)
  (tokens_delta cents_delta ttl_extension_secs : option Z) (d : Daemon)
  : option (result GrantRow StoreError * Daemon) :=
  match get_grant (store_of env d) id with
  | Err e => Some (Err e, d)
  | Ok grant =>
      let status := effective_row_status (store_of env d) grant in
      if negb (bool_decide (status = "active"))
      then Some (Err (SE_InvalidInput ("cannot extend grant with status '" +:+ status +:+ "'")), d)
      else
        let now := env_now env in
        let new_expires : option (option Z) :=
          match ttl_extension_secs with
          | Some ext =>
              match duration_seconds ext ≫= datetime_add (default now (r_expires_at grant)) with
              | Some t => Some (Some t)
              | None => None
              end
          | None => Some (r_expires_at grant)
          end in
        match new_expires with
        | None => None
        | Some new_expires =>
            let new_budget := extended_budget grant tokens_delta cents_delta in
            Some (match get_access_grant (store_of env d) id with
                  | Err e => (Err e, d)
                  | Ok new_chain =>
                      if (1 <? length (g_blocks new_chain))%nat
                      then (Err (SE_InvalidInput "extend_grant not supported on multi-block chains yet — mutating block 0 would orphan subsequent blocks' signatures. Append-block path (P69K-C3) required."), d)
                      else
                        let '(blocks, st) :=
                          match g_blocks new_chain with
                          | [] => (Ok [], lease_store d)
                          | sb :: rest =>
                              let '(signed, st) :=
                                sign_block_zero_with_live_lease_persisting_chain_secret (env_db env) (lease_store d) id
                                  (r_persona_id grant) (extended_block new_budget new_expires (block sb)) (nanos now)
                                  "grant extension" (mr_seed (mint_random m)) (mr_chain_nonce (mint_random m)) in
                              (let? sb' := signed in Ok (sb' :: rest), st)
                          end in
                        let d' := set_leases d st in
                        match (let? blocks := blocks in checked_chain blocks) with
                        | Err e => (Err e, rollback d d')
                        | Ok blocks =>
                            if negb (bool_decide (r_status grant = "active"))
                            then (Err (SE_InvalidInput ("cannot extend grant with status '" +:+ r_status grant +:+ "'")),
                                  rollback d d')
                            else
                              let d'' := update_row id (set_chain new_budget new_expires blocks) d' in
                              (get_grant (store_of env d'') id, d'')
                        end
                  end)
        end
  end.

Definition extend_grant (env : Env) (m : MintEnv) (id : string)
  (tokens_delta cents_delta ttl_extension_secs : option Z) (d : Daemon)
  : option (result GrantRow StoreError * Daemon) :=
  match (let? uuid := parse_grant_id id in load env d uuid) with
  | Err e => Some (Err e, d)
  | Ok grant =>
      match duration_seconds (default 0 ttl_extension_secs) with
      | None => None
      | Some ttl =>
          match Lifecycle.extend datetime_add grant ttl with
          | None => None
          | Some (Err e) => Some (Err (from_grant_error e), d)
          | Some (Ok _) => extend_grant_sql env m id tokens_delta cents_delta ttl_extension_secs d
          end
      end
  end.

(** *** The conditions an approval puts on a new grant *)

Record GrantShapeFields := mkShape {
  gs_max_uses_per_hour : option Z;
  gs_allowed_hours_start : option Z;
  gs_allowed_hours_end : option Z;
  gs_allowed_targets : option string;
  gs_max_delegation_depth : option Z;
  gs_budget : option Budget;
  gs_max_children_per_day : option Z;
  gs_auto_delegate_scope_template : option string
}.

Definition GrantShapeFields_default : GrantShapeFields := mkShape None None None None None None None None.

Definition set_shape (f : GrantShapeFields) (r : GrantRow) : GrantRow :=
  mkRow (r_id r) (r_persona_id r) (r_credential_name r) (r_scope r) (r_created_at r) (r_expires_at r) (r_status r)
    (gs_allowed_hours_start f) (gs_allowed_hours_end f) (gs_allowed_targets f) (r_parent_grant_id r)
    (r_blocks_json r) (r_revoked_sids_json r) (gs_max_delegation_depth f) (r_budget_json r) (r_usage_json r)
    (r_paused r) (r_is_standing r) (r_max_children_per_day r) (r_receipt_id r).

Definition apply_grant_shape_to_grant (id : string) (f : GrantShapeFields) (d : Daemon)
  : result unit StoreError * Daemon :=
  let d := if bool_decide (is_Some (gs_max_uses_per_hour f)) || bool_decide (is_Some (gs_allowed_hours_start f))
              || bool_decide (is_Some (gs_allowed_targets f)) || bool_decide (is_Some (gs_max_delegation_depth f))
           then update_row id (set_shape f) d else d in
  match gs_max_children_per_day f with
  | Some limit => mark_grant_standing id limit d
  | None => (Ok tt, d)
  end.

(** *** Composite grants *)

(** The persona's root key, from the lease of the grant when its row exists. *)
Definition access_grant_from_statements_for_persona (env : Env) (m : MintEnv) (id persona_id recipient_id : string)
  (stmts : list Statement) (created : Z) (expires : option Z) (seed : bytes) (d : Daemon)
  : result AccessGrant StoreError * Daemon :=
  let '(root, st) :=
    match get_grant (store_of env d) id with
    | Ok _ =>
        under_lease (env_db env) (lease_store d) id (nanos (env_now env))
          ("grant " +:+ id +:+ " has no live leased authority; synthetic grant signing refused for existing row")
          (λ lease_key st, lease_wrapped_persona_root_keypair (env_db env) st id persona_id lease_key)
    | Err SE_NotFound =>
        (let? material := persona_root_key_material persona_id (p_public_key <$> persona_row d persona_id)
                            (mint_secret m persona_id) in
         map_err (λ e, SE_InvalidInput ("persona '" +:+ persona_id +:+ "' root key invalid: " +:+ ChainError_display e))
           (RootKeyPair_from_hex (pm_public_hex material) (pm_secret_hex material)), lease_store d)
    | Err e => (Err e, lease_store d)
    end in
  (let? root := root in
   build_error "" (access_grant_from_statements seed id persona_id recipient_id stmts created expires root),
   set_leases d st).

Definition load_parent_access_grant_for_overwrite (env : Env) (id row_persona_id : string) (d : Daemon)
  : result AccessGrant StoreError :=
  let? info := get_grant (store_of env d) id in
  match r_blocks_json info with
  | Some (first :: rest) =>
      if bool_decide (issued_by (block first) = row_persona_id) then
        Ok (mkGrant (r_id info) 1 (r_persona_id info) Service (r_credential_name info) RP_Agent
              (default Active (GrantStatus_parse (effective_row_status (store_of env d) info))) OneShot (first :: rest)
              AttestationBinding_default (r_created_at info) (r_created_at info) None None None None)
      else project_access_grant env d info (effective_row_status (store_of env d) info)
  | _ => project_access_grant env d info (effective_row_status (store_of env d) info)
  end.

(** The first block is issued by the row's persona. *)
Definition first_issued_by (what persona_id : string) (g : AccessGrant) : result unit StoreError :=
  match g_blocks g with
  | first :: _ =>
      if negb (bool_decide (issued_by (block first) = persona_id))
      then Err (SE_InvalidInput ("overwrite_grant_blocks: " +:+ what +:+ "block-0 issued_by=" +:+ issued_by (block first)
                  +:+ " does not match row persona_id=" +:+ persona_id))
      else Ok tt
  | [] => Ok tt
  end.

Definition overwrite_grant_blocks_inner (env : Env) (id : string) (grant : AccessGrant)
  (parent_override : option AccessGrant) (d : Daemon) : result unit StoreError * Daemon :=
  match (if negb (bool_decide (g_id grant = id))
         then Err (SE_InvalidInput ("overwrite_grant_blocks: id=" +:+ id +:+ " but grant.id=" +:+ g_id grant
                     +:+ " — mismatch"))
         else
           let? blocks := checked_chain (g_blocks grant) in
           let? row := ok_or (row_by_id (store_of env d) id) SE_NotFound in
           let row_persona_id := r_persona_id row in
           first_issued_by "" row_persona_id grant ;?
           let? parent := match parent_override with
                          | Some p => first_issued_by "parent_bound " row_persona_id p ;? Ok p
                          | None => load_parent_access_grant_for_overwrite env id row_persona_id d
                          end in
           map_err (λ v, SE_InvalidInput ("attenuation violation: " +:+ reason v))
             (check_statement_attenuation parent grant) ;?
           let? root_pubkey := ok_or (get_persona_root_pubkey_bytes (store_of env d) row_persona_id)
                                 (SE_InvalidInput ("cannot verify chain: persona root pubkey missing for "
                                    +:+ row_persona_id)) in
           map_err (λ e, SE_InvalidInput ("grant chain verification failed: " +:+ ChainError_display e))
             (verify_chain (g_blocks grant) root_pubkey) ;?
           Ok blocks) with
  | Err e => (Err e, d)
  | Ok blocks => (Ok tt, update_row id (λ r, set_chain (r_budget_json r) (r_expires_at r) blocks r) d)
  end.

(** [bound_seed] and [block_seed] are the key pairs drawn for the bound and for the block. *)
Definition mint_composite_chain_for_grant (env : Env) (m : MintEnv) (bound_seed block_seed : bytes)
  (grant_id persona_id recipient_id : string) (stmts : list Statement) (ttl_secs : option Z) (d : Daemon)
  : result unit StoreError * Daemon :=
  let created := env_now env in
  let expires := (λ s, u64_sat_add created s) <$> ttl_secs in
  match access_grant_from_statements_for_persona env m grant_id persona_id recipient_id
          (compute_statements_union_bound stmts) created expires bound_seed d with
  | (Err e, d) => (Err e, d)
  | (Ok parent_bound, d) =>
      match access_grant_from_statements_for_persona env m grant_id persona_id recipient_id stmts created expires
              block_seed d with
      | (Err e, d) => (Err e, d)
      | (Ok composite, d) => overwrite_grant_blocks_inner env grant_id composite (Some parent_bound) d
      end
  end.

(** *** Metering *)

Record StatementUsageDelta := mkUsageDelta { ud_prior : Usage; ud_current : Usage }.

Definition bump_usage (now_secs : Z) (u delta : Usage) : Usage :=
  let micro := if (u_cents_micro u =? 0) && (0 <? u_cents u) then u64_sat_mul (u_cents u) 1000000
               else u_cents_micro u in
  let delta_micro := if 0 <? u_cents_micro delta then u_cents_micro delta
                     else u64_sat_mul (u_cents delta) 1000000 in
  let micro := u64_sat_add micro delta_micro in
  mkUsage (u64_sat_add (u_tokens u) (u_tokens delta)) (micro / 1000000)
    (u64_sat_add (u_requests u) (u_requests delta)) (u64_sat_add (u_workload_hours u) (u_workload_hours delta))
    (u64_sat_add (u_wall_clock_secs u) (u_wall_clock_secs delta)) now_secs micro.

Definition with_usage (u : Usage) (s : Statement) : Statement :=
  mkStatement (sid s) (resource_type s) (actions s) (resource s) (budget s) u (conditions s) (can_delegate s).
Definition with_statements (l : list Statement) (b : Block) : Block :=
  mkBlock l (nbf b) (expires_at b) (issued_by b) (issued_at b) (approval b) (GrantTypes.note b).

(** The first statement of the list with the sid, metered. *)
Fixpoint meter_statements (f : Usage → Usage) (wanted : string) (l : list Statement)
  : option (list Statement * StatementUsageDelta) :=
  match l with
  | [] => None
  | s :: rest =>
      if bool_decide (sid s = wanted)
      then Some (with_usage (f (usage s)) s :: rest, mkUsageDelta (usage s) (f (usage s)))
      else match meter_statements f wanted rest with
           | Some (rest', u) => Some (s :: rest', u)
           | None => None
           end
  end.

(** The first such statement of the chain, and the index of its block. *)
Fixpoint meter_blocks (f : Usage → Usage) (wanted : string) (l : list SignedBlock)
  : option (nat * list SignedBlock * StatementUsageDelta) :=
  match l with
  | [] => None
  | sb :: rest =>
      match meter_statements f wanted (statements (block sb)) with
      | Some (stmts, u) =>
          Some (O, mkSigned (with_statements stmts (block sb)) (pubkey_next sb) (signature sb) :: rest, u)
      | None => match meter_blocks f wanted rest with
                | Some (i, rest', u) => Some (S i, sb :: rest', u)
                | None => None
                end
      end
  end.

Definition increment_statement_usage (env : Env) (m : MintEnv) (grant_id statement_sid : string) (delta : Usage)
  (d : Daemon) : result StatementUsageDelta StoreError * Daemon :=
  match (let? info := get_grant (store_of env d) grant_id in
         let? blocks := match r_blocks_json info with
                        | Some (sb :: rest) => Ok (sb :: rest)
                        | _ => let? g := project_access_grant env d info (effective_row_status (store_of env d) info) in
                               Ok (g_blocks g)
                        end in
         Ok (info, blocks)) with
  | Err e => (Err e, d)
  | Ok (info, blocks) =>
      match meter_blocks (λ u, bump_usage (env_now env) u delta) statement_sid blocks with
      | None => (Err SE_NotFound, d)
      | Some (mutated, blocks, usage) =>
          if (1 <? length blocks)%nat
          then (Err (SE_InvalidInput "increment_statement_usage not supported on multi-block chains yet — re-signing block 0 would orphan subsequent blocks. Live-usage-outside-chain (P69K-G) required."), d)
          else
            let '(blocks, st) :=
              match mutated, blocks with
              | O, sb :: rest =>
                  let '(signed, st) :=
                    sign_block_zero_with_live_lease_persisting_chain_secret (env_db env) (lease_store d) grant_id
                      (r_persona_id info) (block sb) (nanos (env_now env)) "statement usage metering"
                      (mr_seed (mint_random m)) (mr_chain_nonce (mint_random m)) in
                  (let? sb' := signed in Ok (sb' :: rest), st)
              | _, _ => (Ok blocks, lease_store d)
              end in
            let d' := set_leases d st in
            match (let? blocks := blocks in checked_chain blocks) with
            | Err e => (Err e, rollback d d')
            | Ok blocks =>
                (Ok usage, update_row grant_id (λ r, set_chain (r_budget_json r) (r_expires_at r) blocks r) d')
            end
      end
  end.

Definition policy_error_for_post_flight_metering_failure (err : StoreError) (grant_id : string) : option PolicyError :=
  match err with
  | SE_InvalidInput reason =>
      if str_contains reason "live leased authority" || str_contains reason "grant-scoped lease"
      then Some (PE_Forbidden ("grant_inactive:no_live_lease:" +:+ grant_id)) else None
  | _ => None
  end.

(** After the upstream call: meter the statement that was used, then end the grant if nothing is left. *)
Definition post_flight (env : Env) (m : MintEnv) (resolved : ResolvedGrant) (usage : option Usage) (d : Daemon)
  : result unit PolicyError * Daemon :=
  match usage with
  | None => (Ok tt, d)
  | Some delta =>
      match increment_statement_usage env m (rg_grant_id resolved) (rg_statement_sid resolved) delta d with
      | (Ok _, d) => (Ok tt, (mark_grant_exhausted_by_budget_if_terminal env (rg_grant_id resolved) d).2)
      | (Err e, d) =>
          match policy_error_for_post_flight_metering_failure e (rg_grant_id resolved) with
          | Some pe => (Err pe, d)
          | None => (Ok tt, d)
          end
      end
  end.

(** ** Lemmas *)

(** *** Signing keeps the block *)

Lemma sign_zero_block db st g p b now purpose seed nonce sb st' :
  sign_block_zero_with_live_lease_persisting_chain_secret db st g p b now purpose seed nonce = (Ok sb, st') →
  block sb = b.
Proof.
  unfold sign_block_zero_with_live_lease_persisting_chain_secret.
  destruct (under_lease _ _ _ _ _ _) as [[[sb' blob]|e] st1] eqn:E; [|done].
  destruct (write_grant_chain_secret _ _ _ _ _) as [[[]|] st2]; [|done]. intros [= <- _].
  apply under_lease_Ok in E as (k & _ & H). apply result_bind_Ok in H as (root & _ & H).
  apply result_bind_Ok in H as (out & Ho & H). apply result_bind_Ok in H as (cb & _ & [= <- _]).
  apply map_err_Ok, map_err_Ok in Ho. unfold sign_block_zero in Ho.
  repeat (apply result_bind_Ok in Ho as (? & _ & Ho)). by injection Ho as <-.
Qed.

Lemma handoff_block db st pg i cg b now purpose seed nonce sb st' :
  sign_appended_block_with_lease_handoff db st pg i cg b now purpose seed nonce = (Ok sb, st') → block sb = b.
Proof.
  unfold sign_appended_block_with_lease_handoff.
  destruct (under_lease _ _ pg _ _ _) as [[sec|] st1]; [|done].
  destruct (build_error _ _) as [out|] eqn:Ho; [|done]. destruct (u32_max <=? i); [done|].
  destruct (under_lease _ _ cg _ _ _) as [[cb|] st2]; [|done].
  destruct (write_grant_chain_secret _ _ _ _ _) as [[[]|] st3]; [|done]. intros [= <- _].
  apply map_err_Ok, map_err_Ok in Ho. unfold sign_appended_block in Ho.
  repeat (apply result_bind_Ok in Ho as (? & _ & Ho)). by injection Ho as <-.
Qed.

(** *** The steps of a mint *)

Lemma or_drop_Ok {B} env id (o : result B StoreError * Daemon) k row d' :
  or_drop env id o k = (Ok row, d') ↔ ∃ b d1, o = (Ok b, d1) ∧ k b d1 = (Ok row, d').
Proof. destruct o as [[b|e] d1]; cbn; naive_solver. Qed.

Lemma or_drop_Err {B} env id (o : result B StoreError * Daemon) k e d' :
  or_drop env id o k = (Err e, d') ↔
  (∃ d1, o = (Err e, d1) ∧ d' = drop_lease env id d1) ∨ ∃ b d1, o = (Ok b, d1) ∧ k b d1 = (Err e, d').
Proof. destruct o as [[b|e'] d1]; cbn; naive_solver. Qed.

(** The same tables, up to the leases. *)
Definition same_tables (d d' : Daemon) : Prop :=
  d_grants d' = d_grants d ∧ d_personas d' = d_personas d ∧ d_receipts d' = d_receipts d.

Lemma mint_sealed_tables env m p scope e d r d' : mint_sealed env m p scope e d = (r, d') → same_tables d d'.
Proof. unfold mint_sealed. destruct (seal_persona_root_for_grant_lease _ _ _ _ _ _ _). by intros [= _ <-]. Qed.

Lemma insert_row_Ok m r d d' :
  insert_row m r d = (Ok tt, d') → d' = set_rows d (d_grants d ++ [r]) ∧ r_id r ∉ r_id <$> d_grants d.
Proof.
  unfold insert_row. destruct (mint_insert m); [done|]. destruct (some_row _ d) eqn:E; [done|]. intros [= <-].
  split; [done|]. intros (x & Hx & Hin)%list_elem_of_fmap. apply not_true_iff_false in E. apply E.
  unfold some_row. apply existsb_exists. exists x. rewrite <-list_elem_of_In. unfold has_id.
  by rewrite bool_decide_true.
Qed.

Lemma insert_row_Err m r d e d' : insert_row m r d = (Err e, d') → d' = d.
Proof. unfold insert_row. destruct (mint_insert m); [by intros [=]|]. destruct (some_row _ d); by intros [=]. Qed.

Lemma statement_caps_Ok i blocks :
  statement_caps i blocks = Ok tt → Forall (λ sb, length (statements (block sb)) ≤ 16)%nat blocks.
Proof.
  revert i. induction blocks as [|sb rest IH]; intros i; cbn [statement_caps]; [by constructor|].
  destruct (MAX_STATEMENTS_PER_BLOCK <? _)%nat eqn:E; [done|]. apply Nat.ltb_ge in E. constructor; eauto.
Qed.

Lemma checked_chain_Ok blocks blocks' :
  checked_chain blocks = Ok blocks' →
  blocks' = blocks ∧ (length blocks ≤ 32)%nat ∧ Forall (λ sb, length (statements (block sb)) ≤ 16)%nat blocks.
Proof.
  unfold checked_chain. intros (j & _ & (Hv & [= <-])%seq_Ok)%result_bind_Ok.
  unfold validate_blocks_json_caps in Hv. destruct (MAX_BLOCKS <? _)%nat eqn:E; [done|]. apply Nat.ltb_ge in E.
  apply seq_Ok in Hv as [Hs _]. split_and!; [done|done|by eapply statement_caps_Ok].
Qed.

(** A successful creation adds one row with a chain of one block. *)
Lemma create_Ok env m persona cred scope ttl budget d row d' :
  create_grant_with_budget env m persona cred scope ttl budget d = (Ok row, d') →
  ∃ sb, ttl_cap ttl = Ok tt ∧
    (∃ p, persona_row d persona = Some p ∧ p_status p = "active") ∧
    checked_chain [sb] = Ok [sb] ∧
    block sb = ChainBuild.build_single_statement_block persona cred scope (env_now env)
                 (u64_sat_add (env_now env) <$> ttl) (non_empty_budget budget) Usage_default ∧
    row = new_row (grant_id_of m) persona cred scope (env_now env) (u64_sat_add (env_now env) <$> ttl) None None None [sb] ∧
    d_grants d' = d_grants d ++ [row] ∧ r_id row ∉ r_id <$> d_grants d ∧
    d_personas d' = d_personas d ∧ d_receipts d' = d_receipts d.
Proof.
  unfold create_grant_with_budget. destruct (ttl_cap ttl) as [[]|] eqn:Ht; [|done].
  destruct (persona_row d persona) as [p|] eqn:Hp; [|done]. case_bool_decide as Hst; [|done]. cbn [negb].
  intros (? & d1 & Hm & H)%or_drop_Ok. apply mint_sealed_tables in Hm as (Hg & Hpe & Hr).
  destruct (sign_block_zero_with_live_lease_persisting_chain_secret _ _ _ _ _ _ _ _ _) as [[sb|] st] eqn:Hs.
  2: { by apply or_drop_Ok in H as (? & ? & [=] & _). }
  apply or_drop_Ok in H as (blocks & d2 & [= Hc <-] & H).
  apply or_drop_Ok in H as ([] & d3 & (-> & Hn)%insert_row_Ok & [= <- <-]).
  pose proof Hc as Hc'. apply checked_chain_Ok in Hc' as [-> _]. apply sign_zero_block in Hs.
  cbn [set_leases set_rows d_grants d_personas d_receipts] in *. rewrite Hg in Hn |- *.
  exists sb. split_and!; try done. by exists p.
Qed.

(** A successful delegation passed every check and adds one row, whose chain is the parent's with one
    block appended. *)
Record delegated (env : Env) (m : MintEnv) (pid cp scope : string) (ttl : option Z) (cb : option Budget)
  (d : Daemon) (row : GrantRow) (d' : Daemon) (parent : GrantRow) (chain : AccessGrant) (tail sb : SignedBlock)
  (depth : Z) : Prop := {
  de_ttl : ttl_cap ttl = Ok tt;
  de_chain : get_access_grant (store_of env d) pid = Ok chain;
  de_parent : get_grant (store_of env d) pid = Ok parent;
  de_lease : is_Some (bound_with_key (env_db env) (lease_store d) pid (nanos (env_now env))).1;
  de_checks : delegation_checks env chain parent ttl cb d = Ok (depth, tail);
  de_attenuates : check_statement_attenuation (synthetic_grant tail pid (g_issuing_persona_id chain))
                    (synthetic_grant_from_unsigned_block (block sb) (grant_id_of m) cp) = Ok tt;
  de_block : block sb = ChainBuild.build_single_statement_block cp (r_credential_name parent) scope (env_now env)
                          (u64_sat_add (env_now env) <$> ttl) (non_empty_budget cb) Usage_default;
  de_checked : checked_chain (g_blocks chain ++ [sb]) = Ok (g_blocks chain ++ [sb]);
  de_row : row = new_row (grant_id_of m) cp (r_credential_name parent) scope (env_now env)
                   (u64_sat_add (env_now env) <$> ttl) (Some pid) (Some (depth - 1)) (non_empty_budget cb)
                   (g_blocks chain ++ [sb]);
  de_grants : d_grants d' = d_grants d ++ [row];
  de_fresh : r_id row ∉ r_id <$> d_grants d;
  de_rest : d_personas d' = d_personas d ∧ d_receipts d' = d_receipts d
}.

Lemma delegation_checks_tables env chain parent ttl cb d st :
  delegation_checks env chain parent ttl cb (set_leases d st) = delegation_checks env chain parent ttl cb d.
Proof. done. Qed.

Lemma delegate_sql_Ok env m pid cp scope ttl cb d row d' :
  delegate_grant_full_sql env m pid cp scope ttl cb d = (Ok row, d') →
  ∃ parent chain tail sb depth, delegated env m pid cp scope ttl cb d row d' parent chain tail sb depth.
Proof.
  unfold delegate_grant_full_sql. destruct (result_bind (ttl_cap ttl) _) as [[chain parent]|] eqn:H0; [|done].
  apply seq_Ok in H0 as [Ht H0]. apply result_bind_Ok in H0 as (? & Hch & H0).
  apply result_bind_Ok in H0 as (? & Hpa & [= -> ->]).
  destruct (bound_with_key _ _ pid _) as [k st] eqn:Hk. rewrite delegation_checks_tables.
  destruct (result_bind (ok_or k _) _) as [[depth tail]|] eqn:H1; [|done].
  apply result_bind_Ok in H1 as (key & Hkey%ok_or_Ok & Hck).
  intros (? & d1 & Hm & H)%or_drop_Ok. apply mint_sealed_tables in Hm as (Hg & Hpe & Hr).
  cbn [set_leases d_grants d_personas d_receipts] in Hg, Hpe, Hr.
  destruct (check_statement_attenuation _ _) as [[]|v] eqn:Ha.
  2: { by apply or_drop_Ok in H as (? & ? & [=] & _). }
  destruct (sign_appended_block_with_lease_handoff _ _ _ _ _ _ _ _ _ _) as [[sb|] st2] eqn:Hs.
  2: { by apply or_drop_Ok in H as (? & ? & [=] & _). }
  apply or_drop_Ok in H as (blocks & d2 & [= Hc <-] & H).
  apply or_drop_Ok in H as ([] & d3 & (-> & Hn)%insert_row_Ok & [= <- <-]).
  pose proof Hc as Hc'. apply checked_chain_Ok in Hc' as [-> _]. apply handoff_block in Hs.
  cbn [set_leases set_rows d_grants d_personas d_receipts] in *. rewrite Hg in Hn.
  exists parent, chain, tail, sb, depth. split; try done.
  - by rewrite Hk, Hkey.
  - by rewrite Hs.
  - cbn. by rewrite Hg.
Qed.

Lemma delegate_full_Ok env m pid cp scope ttl cb d row d' :
  delegate_grant_full env m pid cp scope ttl cb d = (Ok row, d') →
  ∃ parent chain tail sb depth, delegated env m pid cp scope ttl cb d row d' parent chain tail sb depth.
Proof.
  unfold delegate_grant_full. intros (g & H)%with_grant_Ok. case_bool_decide; [|done]. by apply delegate_sql_Ok.
Qed.

Lemma delegation_checks_Ok env chain parent ttl cb d depth tail :
  delegation_checks env chain parent ttl cb d = Ok (depth, tail) →
  r_max_delegation_depth parent = Some depth ∧ depth ≠ 0 ∧ standing_ceiling env parent d = Ok tt ∧
  last (g_blocks chain) = Some tail ∧
  check_expiry_attenuation (expires_at (block tail)) ((λ s, Z.max 0 (env_now env + s)) <$> ttl) = Ok tt.
Proof.
  unfold delegation_checks. intros H. apply result_bind_Ok in H as (dp & Hd%ok_or_Ok & H).
  apply guard_bind_Ok in H as [Hz H]. apply seq_Ok in H as [Hst H].
  apply result_bind_Ok in H as (tl & Htl%ok_or_Ok & H). apply result_bind_Ok in H as (stmt & _ & H).
  destruct (ChainBuild.scope_to_actions_and_selector _ _) as [acts sel].
  apply guard_bind_Ok in H as [_ H]. apply seq_Ok in H as [He%map_err_Ok H]. apply seq_Ok in H as [_ [= <- <-]].
  apply Z.eqb_neq in Hz. done.
Qed.

(** The chain a grant is read with: the stored one, or a projected block. *)
Lemma get_access_grant_blocks env d id g :
  get_access_grant (store_of env d) id = Ok g →
  ∃ r, r ∈ d_grants d ∧ r_id r = id ∧ g_blocks g ≠ [] ∧
    (r_blocks_json r = Some (g_blocks g) ∨ ∃ sb, g_blocks g = [sb]).
Proof.
  assert (∀ g0, verify_and_return (store_of env d) g0 = Ok g → g = g0) as Hv.
  { intros g0. unfold verify_and_return. repeat case_match; congruence. }
  unfold get_access_grant. intros (r & Hr & H)%result_bind_Ok. unfold get_grant, row_by_id in Hr.
  destruct (List.find _ _) as [r'|] eqn:Hf; [|done]. injection Hr as ->.
  apply find_some in Hf as [Hin%list_elem_of_In Hid%bool_decide_eq_true].
  exists r. split; [done|]. split; [done|].
  assert (∀ x, result_bind (ProxyDaemon.project_access_grant (store_of env d) r) (verify_and_return (store_of env d)) = Ok x →
    x = g → g_blocks g ≠ [] ∧ (r_blocks_json r = Some (g_blocks g) ∨ ∃ sb, g_blocks g = [sb])) as Hp.
  { intros x (g0 & Hg0 & Hx)%result_bind_Ok ->. apply Hv in Hx as ->. cbn in Hg0. unfold project_access_grant in Hg0.
    apply result_bind_Ok in Hg0 as (sb & _ & [= <-]). split; [done|]. right. by exists sb. }
  destruct (r_blocks_json r) as [[|sb rest]|]; [by eapply Hp| |by eapply Hp].
  destruct (negb _) in H; [by eapply Hp|]. apply Hv in H as ->. split; [done|by left].
Qed.

(** ** Runs of the daemon *)

(** The operations that write the grant table, and any change of the leases (restarts, renewals, locking)
    and of the personas. Two writers of infra/persona.rs are not among them: the birth of a sub-persona, which inserts a child grant
    of its own, and the retirement of a persona for a new enrolment, which revokes its grants as [OpRevokePersona] does and
    renames it. *)
Inductive Op :=
| OpCreate (persona cred scope : string) (ttl : option Z) (budget : option Budget)
| OpDelegate (parent persona scope : string) (ttl : option Z) (budget : option Budget)
| OpExtend (id : string) (tokens cents ttl : option Z)
| OpMeter (resolved : ResolvedGrant) (usage : option Usage)
| OpShape (id : string) (f : GrantShapeFields)
| OpComposite (bound_seed block_seed : bytes) (id persona recipient : string) (stmts : list Statement) (ttl : option Z)
| OpStanding (id : string) (limit : Z)
| OpRevoke (id : string)
| OpWorkflow (audit : result unit StoreError) (id : string) (c : Cohort) (immediate : bool)
| OpAbandon (id reason : string)
| OpPause (id : string)
| OpResume (id : string)
| OpSetPaused (id : string) (paused : bool)
| OpRevokeStatement (id sid : string)
| OpExpireStale
| OpExpireNow (id : string)
| OpWallClock
| OpRevokePersona (id : string)
| OpLeases (st : LeaseStore)
| OpPersonas (l : list PersonaRow).

Definition apply_op (env : Env) (m : MintEnv) (o : Op) (d : Daemon) : Daemon :=
  match o with
  | OpCreate p c s t b => (create_grant_with_budget env m p c s t b d).2
  | OpDelegate g p s t b => (delegate_grant_full env m g p s t b d).2
  | OpExtend id tk c t => match extend_grant env m id tk c t d with Some o => o.2 | None => d end
  | OpMeter r u => (post_flight env m r u d).2
  | OpShape id f => (apply_grant_shape_to_grant id f d).2
  | OpComposite bs s id p r l t => (mint_composite_chain_for_grant env m bs s id p r l t d).2
  | OpStanding id limit => (mark_grant_standing id limit d).2
  | OpRevoke id => (revoke_grant env id d).2
  | OpWorkflow a id c i => (revoke_workflow_root env a id c i d).2
  | OpAbandon id reason => (abandon_grant_sql env id reason d).2
  | OpPause id => (pause_grant env id d).2
  | OpResume id => (resume_grant env id d).2
  | OpSetPaused id b => (set_grant_paused id b d).2
  | OpRevokeStatement id sid => (revoke_grant_statement_sql env id sid d).2
  | OpExpireStale => (expire_stale_grants env d).2
  | OpExpireNow id => (expire_grant_if_terminal_now env id d).2
  | OpWallClock => (expire_grants_by_wall_clock env d).2
  | OpRevokePersona id => (revoke_persona id d).2
  | OpLeases st => set_leases d st
  | OpPersonas l => mkDaemon (d_grants d) l (d_leases d) (d_receipts d)
  end.

Definition run_ops (d : Daemon) (ops : list (Env * MintEnv * Op)) : Daemon :=
  foldl (λ d o, apply_op o.1.1 o.1.2 o.2 d) d ops.

(** *** How each operation changes the rows *)

(** The status of a row afterwards: terminal stays terminal; nothing becomes active except a paused row that
    is resumed; receipts are never taken back. *)
Definition terminal (s : string) : Prop :=
  s ∈ ["revoked"; "abandoned"; "expired"; "exhausted_by_budget"; "expired_by_budget"; "parent_cascade_revoked"].

Definition orderly (r r' : GrantRow) : Prop :=
  r_id r' = r_id r ∧ (terminal (r_status r) → terminal (r_status r')) ∧
  (r_receipt_id r ≠ None → r_receipt_id r' ≠ None).

(** The stored chain: kept, or replaced by a chain of one block within the caps. *)
Definition single_ok (blocks : list SignedBlock) : Prop := ∃ sb, blocks = [sb] ∧ checked_chain [sb] = Ok [sb].
Definition rechained (r r' : GrantRow) : Prop :=
  r_blocks_json r' = r_blocks_json r ∨ ∃ blocks, r_blocks_json r' = Some blocks ∧ single_ok blocks.

Definition step_rel (r r' : GrantRow) : Prop := orderly r r' ∧ rechained r r'.

Lemma step_rel_refl r : step_rel r r.
Proof. split; [by split_and!|by left]. Qed.

Lemma step_rel_trans r1 r2 r3 : step_rel r1 r2 → step_rel r2 r3 → step_rel r1 r3.
Proof.
  intros [(Hi & Ht & Hr) Hc] [(Hi' & Ht' & Hr') Hc']. split; [split_and!; [congruence|auto..]|].
  destruct Hc' as [Hc'|Hc']; [|by right]. unfold rechained. by rewrite Hc'.
Qed.

(** *** Operations that change rows in place *)

(** Receipts are issued for grants that have none, one each. *)
Definition issues (d d' : Daemon) (new : list (string * TerminalReason)) : Prop :=
  d_receipts d' = new ++ d_receipts d ∧ NoDup new.*1 ∧
  ∀ id, id ∈ new.*1 →
    (∃ r, r ∈ d_grants d ∧ r_id r = id ∧ r_receipt_id r = None) ∧
    ∀ r, r ∈ d_grants d' → r_id r = id → r_receipt_id r ≠ None.

Definition in_place (d d' : Daemon) : Prop :=
  Forall2 step_rel (d_grants d) (d_grants d') ∧ ∃ new, issues d d' new.

Lemma step_rows_refl l : Forall2 step_rel l l.
Proof. induction l; constructor; auto using step_rel_refl. Qed.

Lemma step_rows_trans l1 l2 l3 : Forall2 step_rel l1 l2 → Forall2 step_rel l2 l3 → Forall2 step_rel l1 l3.
Proof.
  intros H. revert l3. induction H; intros l3 H3; inversion H3; subst; constructor; auto.
  by eapply step_rel_trans.
Qed.

Lemma in_place_tables d d' : d_grants d' = d_grants d → d_receipts d' = d_receipts d → in_place d d'.
Proof.
  intros E Er. split; [rewrite E; apply step_rows_refl|]. exists []. split_and!; [done|constructor|].
  by intros id ?%not_elem_of_nil.
Qed.

Lemma in_place_refl d : in_place d d.
Proof. by apply in_place_tables. Qed.

Lemma in_place_trans d1 d2 d3 : in_place d1 d2 → in_place d2 d3 → in_place d1 d3.
Proof.
  intros [H12 (n1 & E1 & N1 & I1)] [H23 (n2 & E2 & N2 & I2)]. split; [by eapply step_rows_trans|].
  exists (n2 ++ n1). split_and!.
  - by rewrite E2, E1, app_assoc.
  - rewrite fmap_app. apply NoDup_app. split_and!; [done| |done]. intros id H2 H1.
    destruct (I2 id H2) as [(r & Hr & Hid & Hn) _]. by apply (proj2 (I1 id H1) r Hr Hid).
  - intros id. rewrite fmap_app. intros [H2|H1]%elem_of_app.
    + destruct (I2 id H2) as [(r & Hr & Hid & Hn) Hall]. split; [|done].
      apply list_elem_of_lookup in Hr as [i Hi].
      destruct (Forall2_lookup_r _ _ _ _ _ H12 Hi) as (r1 & Hr1 & (Hid1 & _ & Hrec) & _).
      exists r1. split_and!; [by eapply list_elem_of_lookup_2|congruence|].
      destruct (r_receipt_id r1); [|done]. exfalso. by apply Hrec.
    + destruct (I1 id H1) as [Hex Hall]. split; [done|]. intros r3 Hr3 Hid3.
      apply list_elem_of_lookup in Hr3 as [i Hi].
      destruct (Forall2_lookup_r _ _ _ _ _ H23 Hi) as (r2 & Hr2 & (Hid2 & _ & Hrec) & _).
      apply Hrec, Hall; [by eapply list_elem_of_lookup_2|congruence].
Qed.

Lemma step_rows_update P f l :
  (∀ r, P r = true → step_rel r (f r)) → Forall2 step_rel l ((λ r, if P r then f r else r) <$> l).
Proof.
  intros Hf. apply Forall2_fmap_r. induction l as [|r l IH]; constructor; [|done]. unfold compose.
  destruct (P r) eqn:E; [by apply Hf|apply step_rel_refl].
Qed.

Lemma in_place_update P f d : (∀ r, P r = true → step_rel r (f r)) → in_place d (update_where P f d).
Proof.
  intros Hf. split; [by apply step_rows_update|]. exists []. split_and!; [done|constructor|].
  by intros id ?%not_elem_of_nil.
Qed.

Lemma same_step r r' :
  r_id r' = r_id r → r_blocks_json r' = r_blocks_json r → r_receipt_id r' = r_receipt_id r →
  (terminal (r_status r) → terminal (r_status r')) → step_rel r r'.
Proof. intros Hi Hb Hr Ht. split; [split_and!; [done|done|by rewrite Hr]|by left]. Qed.

Lemma in_place_drop env id d : in_place d (drop_lease env id d).
Proof. by apply in_place_tables. Qed.

Lemma in_place_receipt env id reason d : in_place d (trigger_receipt env id reason d).
Proof.
  unfold trigger_receipt. destruct (env_identity env); cbn [negb]; [|apply in_place_refl].
  destruct (get_grant (store_of env d) id) as [info|] eqn:Hg; [|apply in_place_refl].
  destruct (is_terminal_status _); cbn [negb]; [|apply in_place_refl].
  destruct (r_receipt_id info) eqn:Hri; [apply in_place_refl|].
  destruct (env_emit env info reason) as [rid|]; [|apply in_place_refl]. split.
  - apply step_rows_update. intros r _. split; [by split_and!|by left].
  - exists [(id, reason)]. split_and!; [done|apply NoDup_singleton|]. intros x ->%list_elem_of_singleton. split.
    + unfold get_grant, row_by_id in Hg. destruct (List.find _ _) as [r|] eqn:Hf; [|done]. injection Hg as ->.
      apply find_some in Hf as [Hin%list_elem_of_In Hid%bool_decide_eq_true]. by exists info.
    + cbn. intros r (r0 & -> & Hr0)%list_elem_of_fmap. unfold has_id. case_bool_decide; [done|]. by intros ?.
Qed.

Lemma in_place_end env id s d :
  terminal s → in_place d (drop_lease env id (update_row id (set_status s) d)).
Proof.
  intros Hs. eapply in_place_trans; [|apply in_place_drop]. apply in_place_update. intros r _. by apply same_step.
Qed.

Lemma in_place_cascade_loop env root fuel : ∀ p d d', cascade_loop env root fuel p d = Some d' → in_place d d'.
Proof.
  induction fuel as [|fuel IH]; intros p d d'; [done|]. cbn [cascade_loop].
  generalize (r_id <$> List.filter (active_child_of p) (d_grants d)) as cs. intros cs. revert d.
  induction cs as [|c cs IHcs]; intros d; cbn [foldl]; [intros [= <-]; apply in_place_refl|]. cbn.
  destruct (cascade_loop env root fuel c (revoke_child env root c d)) as [d1|] eqn:E.
  2: { intros H. exfalso. clear -H. induction cs; cbn in H; [done|auto]. }
  intros H%IHcs. eapply in_place_trans; [|exact H]. eapply in_place_trans; [|by eapply IH].
  unfold revoke_child. eapply in_place_trans; [|apply in_place_receipt]. apply in_place_end.
  unfold terminal. set_solver.
Qed.

Lemma in_place_cascade env p root d : in_place d (cascade_revoke_children env p root d).
Proof.
  unfold cascade_revoke_children. destruct (cascade_loop _ _ _ _ _) as [d'|] eqn:E; [|apply in_place_refl].
  by apply in_place_cascade_loop in E.
Qed.

(** *** A failed mint *)

Lemma drop_lease_tables env id d : same_tables d (drop_lease env id d).
Proof. done. Qed.

Lemma cache_drop_lease env id d : ls_cache (d_leases (drop_lease env id d)) !! id = None.
Proof. unfold drop_lease. cbn [d_leases set_leases]. by rewrite cache_drop, decide_True. Qed.

(** No table has changed, and nothing is held for the new grant. *)
Definition nothing_left (m : MintEnv) (d d' : Daemon) : Prop :=
  same_tables d d' ∧
  (ls_cache (d_leases d) !! grant_id_of m = None → grant_id_of m ∉ r_id <$> d_grants d →
   ls_cache (d_leases d') !! grant_id_of m = None).

Lemma nothing_left_drop env m d d1 : same_tables d d1 → nothing_left m d (drop_lease env (grant_id_of m) d1).
Proof. intros H. split; [exact H|]. intros _ _. apply cache_drop_lease. Qed.

(** The part of a mint after the signature. *)
Lemma mint_tail_Err env m d0 d (r : result (list SignedBlock) StoreError) (row : list SignedBlock → GrantRow) err d' :
  same_tables d0 d →
  or_drop env (grant_id_of m) (r, d) (λ blocks d,
    or_drop env (grant_id_of m) (insert_row m (row blocks) d) (λ _ d, (Ok (row blocks), d))) = (Err err, d') →
  nothing_left m d0 d'.
Proof.
  intros Ht [(d2 & [= _ <-] & ->)|(blocks & d2 & [= _ <-] & H)]%or_drop_Err; [by apply nothing_left_drop|].
  apply or_drop_Err in H as [(d3 & ->%insert_row_Err & ->)|(? & d3 & _ & [=])]. by apply nothing_left_drop.
Qed.

Lemma with_key_other db st g now g' :
  g' ≠ g → ls_cache (bound_with_key db st g now).2 !! g' = ls_cache st !! g'.
Proof.
  intros Hne. unfold bound_with_key, on_cache, registry_with_key. cbn [snd set_cache ls_cache].
  rewrite lookup_evict, decide_False by done. unfold rehydrate_if_cold.
  destruct (is_cold _ g); cbn [negb]; [|done]. destruct (ls_kek st); [|done].
  unfold read_lease_blob. destruct (db_read db); [done|]. destruct (ls_blobs st !! g) as [b|]; [|done]. cbn.
  destruct (rehydrate_row_spec db now l st (mkPersisted g b)) as (_ & _ & _ & [->|(key & meta & _ & _ & _ & _ & ->)]); [done|].
  by rewrite lookup_insert_ne.
Qed.

Lemma create_Err env m persona cred scope ttl budget d e d' :
  create_grant_with_budget env m persona cred scope ttl budget d = (Err e, d') → nothing_left m d d'.
Proof.
  unfold create_grant_with_budget. destruct (ttl_cap ttl) as [[]|]; [|by intros [= _ <-]].
  destruct (persona_row d persona) as [p|]; [|by intros [= _ <-]].
  case_bool_decide as Hst; cbn [negb]; [|by intros [= _ <-]]. intros H.
  apply or_drop_Err in H as [(d1 & H1%mint_sealed_tables & ->)|([] & d1 & H1%mint_sealed_tables & H)];
    [by apply nothing_left_drop|].
  destruct (sign_block_zero_with_live_lease_persisting_chain_secret _ _ _ _ _ _ _ _ _) as [signed st].
  by eapply (mint_tail_Err env m d (set_leases d1 st)); [|exact H].
Qed.

Lemma delegate_sql_Err env m pid cp scope ttl cb d e d' :
  delegate_grant_full_sql env m pid cp scope ttl cb d = (Err e, d') → nothing_left m d d'.
Proof.
  unfold delegate_grant_full_sql.
  destruct (result_bind (ttl_cap ttl) _) as [[chain parent]|] eqn:H0; [|by intros [= _ <-]].
  apply seq_Ok in H0 as [_ H0]. apply result_bind_Ok in H0 as (? & (r & Hr & Hid & _ & _)%get_access_grant_blocks & H0).
  pose proof (with_key_other (env_db env) (lease_store d) pid (nanos (env_now env)) (grant_id_of m)) as Hk.
  destruct (bound_with_key _ _ pid _) as [k st]. cbn [snd] in Hk.
  destruct (result_bind (ok_or k _) _) as [[depth tail]|].
  2: { intros [= _ <-]. split; [done|]. intros Hc Hf. cbn. rewrite Hk; [done|]. intros E. apply Hf.
       rewrite E, <-Hid. by apply list_elem_of_fmap_2. }
  intros H.
  apply or_drop_Err in H as [(d1 & H1%mint_sealed_tables & ->)|([] & d1 & H1%mint_sealed_tables & H)];
    [by apply nothing_left_drop|].
  destruct (match check_statement_attenuation _ _ with Ok _ => _ | Err _ => _ end) as [signed st1].
  by eapply (mint_tail_Err env m d (set_leases d1 st1)); [|exact H].
Qed.

Lemma delegate_Err env m pid cp scope ttl cb d e d' :
  delegate_grant_full env m pid cp scope ttl cb d = (Err e, d') → nothing_left m d d'.
Proof.
  unfold delegate_grant_full, with_grant. destruct (result_bind _ _) as [g|]; [|by intros [= _ <-]].
  case_bool_decide; cbn [negb]; [by apply delegate_sql_Err|by intros [= _ <-]].
Qed.

(** *** Each operation *)

Ltac same_row := intros r _; apply same_step; done.

Lemma terminal_eq s : bool_decide (s ∈ ["revoked"; "abandoned"; "expired"; "exhausted_by_budget";
                                        "expired_by_budget"; "parent_cascade_revoked"]) = true ↔ terminal s.
Proof. apply bool_decide_eq_true. Qed.

Lemma not_terminal_active : ¬ terminal "active".
Proof. unfold terminal. set_solver. Qed.
Lemma not_terminal_paused : ¬ terminal "paused".
Proof. unfold terminal. set_solver. Qed.

(** A row that reads as active or paused is not terminal. *)
Lemma effective_terminal st r : terminal (r_status r) → effective_row_status st r = r_status r.
Proof. intros H%terminal_eq. unfold effective_row_status. by rewrite H. Qed.

Lemma in_place_revoke env id d : in_place d (revoke_grant_sql env id d).2.
Proof.
  unfold revoke_grant_sql. destruct (some_row _ d); cbn [negb]; [|apply in_place_refl].
  destruct (env_audit env); [apply in_place_refl|]. cbn [snd].
  eapply in_place_trans; [|apply in_place_cascade]. eapply in_place_trans; [|apply in_place_drop].
  eapply in_place_trans; [|apply in_place_receipt]. apply in_place_update.
  intros r _. apply same_step; try done. intros _. cbn. unfold terminal. set_solver.
Qed.

Lemma in_place_revoke_grant env id d : in_place d (revoke_grant env id d).2.
Proof.
  unfold revoke_grant, with_grant. destruct (result_bind _ _); [|apply in_place_refl].
  destruct (map_err _ _); [apply in_place_revoke|apply in_place_refl].
Qed.

Lemma in_place_workflow env a id c i d : in_place d (revoke_workflow_root env a id c i d).2.
Proof.
  unfold revoke_workflow_root. destruct (_ && _); [apply in_place_refl|].
  pose proof (in_place_revoke_grant env id d). destruct (revoke_grant env id d) as [[]?]; [|done]. by destruct a.
Qed.

Lemma in_place_abandon env id reason d : in_place d (abandon_grant_sql env id reason d).2.
Proof.
  unfold abandon_grant_sql. destruct (str_is_empty _); [apply in_place_refl|].
  destruct (row_by_id _ _); [|apply in_place_refl]. destruct (bool_decide _); [apply in_place_refl|].
  destruct (env_audit env); [apply in_place_refl|]. cbn [snd].
  eapply in_place_trans; [|apply in_place_cascade]. eapply in_place_trans; [|apply in_place_drop].
  eapply in_place_trans; [|apply in_place_receipt]. apply in_place_update.
  intros r _. apply same_step; try done. intros _. cbn. unfold terminal. set_solver.
Qed.

(** Rows share their identifier with the row that was read, which is the first one. *)
Definition unique_ids (d : Daemon) : Prop := NoDup (r_id <$> d_grants d).

Lemma get_grant_unique env d id r r' :
  unique_ids d → get_grant (store_of env d) id = Ok r → r' ∈ d_grants d → r_id r' = id → r' = r.
Proof.
  intros Hu Hg Hr' <-. unfold get_grant in Hg. rewrite (row_by_id_unique env d r' Hu Hr') in Hg. by injection Hg.
Qed.

(** An update of the row that was read, when its effective status is not terminal. *)
Lemma in_place_live env d id r f :
  unique_ids d → get_grant (store_of env d) id = Ok r → ¬ terminal (effective_row_status (store_of env d) r) →
  (∀ x, r_id (f x) = r_id x ∧ r_blocks_json (f x) = r_blocks_json x ∧ r_receipt_id (f x) = r_receipt_id x) →
  in_place d (update_row id f d).
Proof.
  intros Hu Hg Hs Hf. split; [|exists []; split_and!; [done|constructor|by intros ? ?%not_elem_of_nil]].
  unfold update_row, update_where. cbn [d_grants set_rows]. apply Forall2_fmap_r, Forall_Forall2_diag, Forall_forall.
  intros x Hx. unfold compose, has_id. case_bool_decide as E; [|apply step_rel_refl].
  assert (x = r) as -> by by eapply get_grant_unique. destruct (Hf r) as (? & ? & ?). apply same_step; try done.
  intros Ht. rewrite effective_terminal in Hs; done.
Qed.

Lemma in_place_pause env id d : unique_ids d → in_place d (pause_grant env id d).2.
Proof.
  intros Hu. unfold pause_grant, with_grant. destruct (result_bind _ _); [|apply in_place_refl].
  destruct (bool_decide _); [apply in_place_refl|]. destruct (map_err _ _); [|apply in_place_refl].
  unfold pause_grant_sql. destruct (get_grant _ id) as [r|] eqn:Hg; [|apply in_place_refl].
  destruct (bool_decide _); [apply in_place_refl|]. case_bool_decide as E; cbn [negb snd]; [|apply in_place_refl].
  eapply in_place_live; try done. rewrite E. apply not_terminal_active.
Qed.

Lemma in_place_resume env id d : unique_ids d → in_place d (resume_grant env id d).2.
Proof.
  intros Hu. unfold resume_grant, with_grant. destruct (result_bind _ _); [|apply in_place_refl].
  destruct (bool_decide _); [apply in_place_refl|]. destruct (map_err _ _); [|apply in_place_refl].
  unfold resume_grant_sql. destruct (get_grant _ id) as [r|] eqn:Hg; [|apply in_place_refl].
  destruct (bool_decide _); [apply in_place_refl|]. case_bool_decide as E; cbn [negb snd]; [|apply in_place_refl].
  eapply in_place_live; try done. rewrite E. apply not_terminal_paused.
Qed.

Lemma in_place_set_paused id b d : in_place d (set_grant_paused id b d).2.
Proof. unfold set_grant_paused. destruct (some_row _ d); [|apply in_place_refl]. apply in_place_update. same_row. Qed.

Lemma in_place_standing id limit d : in_place d (mark_grant_standing id limit d).2.
Proof.
  unfold mark_grant_standing. destruct (_ =? 0); [apply in_place_refl|].
  destruct (some_row _ d); [|apply in_place_refl]. apply in_place_update. same_row.
Qed.

Lemma in_place_shape id f d : in_place d (apply_grant_shape_to_grant id f d).2.
Proof.
  assert (in_place d (update_row id (set_shape f) d)) as H1 by (apply in_place_update; same_row).
  unfold apply_grant_shape_to_grant. destruct (_ || _), (gs_max_children_per_day f).
  - eapply in_place_trans; [exact H1|apply in_place_standing].
  - done.
  - apply in_place_standing.
  - apply in_place_refl.
Qed.

Lemma in_place_revoke_statement env id sid d : in_place d (revoke_grant_statement_sql env id sid d).2.
Proof.
  unfold revoke_grant_statement_sql. destruct (get_grant _ id); [|apply in_place_refl].
  destruct (bool_decide _); [apply in_place_refl|]. apply in_place_update. same_row.
Qed.

Lemma in_place_expire_stale env d : in_place d (expire_stale_grants env d).2.
Proof.
  unfold expire_stale_grants. cbn [snd]. generalize (r_id <$> List.filter (stale (env_now env)) (d_grants d)) as l.
  set (d1 := update_where _ _ d). assert (in_place d d1) as H1.
  { apply in_place_update. intros r _. apply same_step; try done. intros _. cbn. unfold terminal. set_solver. }
  generalize d1 H1. clear d1 H1. intros d1 H1 l. revert d1 H1.
  induction l as [|x l IH]; intros d1 H1; cbn; [done|]. apply IH.
  eapply in_place_trans; [exact H1|]. eapply in_place_trans; [apply in_place_drop|apply in_place_receipt].
Qed.

Lemma in_place_end_active env id s reason d :
  terminal s →
  in_place d (trigger_receipt env id reason (drop_lease env id (update_where (still_active id) (set_status s) d))).
Proof.
  intros Hs. eapply in_place_trans; [|apply in_place_receipt]. eapply in_place_trans; [|apply in_place_drop].
  apply in_place_update. intros r _. by apply same_step.
Qed.

Lemma in_place_expire_now env id d : in_place d (expire_grant_if_terminal_now env id d).2.
Proof.
  unfold expire_grant_if_terminal_now. destruct (row_by_id _ id); [|apply in_place_refl].
  destruct (negb _); [apply in_place_refl|].
  destruct (match r_expires_at g with Some e => e <=? env_now env | None => false end);
    [apply in_place_end_active; unfold terminal; set_solver|].
  destruct (get_access_grant _ id); [|apply in_place_refl]. destruct (_ || _); [apply in_place_refl|].
  destruct (min_wall_clock _); [|apply in_place_refl]. destruct (_ <=? _); [|apply in_place_refl].
  apply in_place_end_active. unfold terminal. set_solver.
Qed.

Lemma in_place_wall_clock env d : in_place d (expire_grants_by_wall_clock env d).2.
Proof.
  unfold expire_grants_by_wall_clock. generalize (r_id <$> List.filter (listed (env_now env)) (d_grants d)) as l. intros l.
  enough (∀ n d1, in_place d d1 → in_place d (foldl (exhaust_by_wall_clock env) (n, d1) l).2) as H.
  { specialize (H 0 d (in_place_refl d)). by destruct (foldl _ _ l). }
  induction l as [|id l IH]; intros n d1 H; cbn [foldl]; [done|]. unfold exhaust_by_wall_clock at 2.
  destruct (get_access_grant _ id); [|by apply IH]. destruct (_ || _); [by apply IH|]. destruct (min_wall_clock _); [|by apply IH].
  destruct (_ <=? _); [|by apply IH]. apply IH. eapply in_place_trans; [exact H|]. eapply in_place_trans; [|apply in_place_receipt].
  eapply in_place_trans; [|apply in_place_drop]. apply in_place_update. intros r _. apply same_step; try done. intros _. cbn. unfold terminal. set_solver.
Qed.

Lemma in_place_revoke_persona id d : in_place d (revoke_persona id d).2.
Proof.
  unfold revoke_persona. destruct (negb _); [apply in_place_refl|]. cbn [snd]. set (personas := _ <$> _).
  eapply (in_place_trans _ (mkDaemon (d_grants d) personas (d_leases d) (d_receipts d))); [by apply in_place_tables|].
  apply in_place_update. intros r _. apply same_step; try done. intros _. cbn. unfold terminal. set_solver.
Qed.

Lemma in_place_exhausted env id d : in_place d (mark_grant_exhausted_by_budget_if_terminal env id d).2.
Proof.
  unfold mark_grant_exhausted_by_budget_if_terminal. destruct (get_access_grant _ id); [|apply in_place_refl].
  destruct (negb _); [apply in_place_refl|]. destruct (_ || _); [apply in_place_refl|].
  destruct (some_row _ d); [|apply in_place_refl]. apply in_place_update.
  intros r _. apply same_step; try done. intros _. cbn. unfold terminal. set_solver.
Qed.

(** *** Replacing a chain *)

Lemma in_place_rechain id blocks budget expires d :
  single_ok blocks → in_place d (update_row id (λ r, set_chain (budget r) (expires r) blocks r) d).
Proof.
  intros Hb. apply in_place_update. intros r _. split; [by split_and!|]. right. by exists blocks.
Qed.

Lemma single_checked blocks blocks' : checked_chain blocks = Ok blocks' → length blocks = 1%nat → single_ok blocks'.
Proof.
  intros H Hl. pose proof H as H'. apply checked_chain_Ok in H' as [-> _].
  destruct blocks as [|sb [|]]; try done. by exists sb.
Qed.

Lemma in_place_rollback d d' : in_place d (rollback d d').
Proof. by apply in_place_tables. Qed.

Lemma in_place_leases d st : in_place d (set_leases d st).
Proof. by apply in_place_tables. Qed.

Lemma in_place_extend_sql env m id tk c t d r d' :
  extend_grant_sql env m id tk c t d = Some (r, d') → in_place d d'.
Proof.
  unfold extend_grant_sql. destruct (get_grant _ id) as [grant|] eqn:Hg; [|intros [= _ <-]; apply in_place_refl].
  destruct (negb _); [intros [= _ <-]; apply in_place_refl|].
  destruct (match t with Some _ => _ | None => _ end) as [ne|]; [|done].
  destruct (get_access_grant _ id) as [ch|] eqn:Hch; [|intros [= _ <-]; apply in_place_refl].
  destruct (1 <? _)%nat eqn:Hl; [intros [= _ <-]; apply in_place_refl|]. apply Nat.ltb_ge in Hl.
  apply get_access_grant_blocks in Hch as (_ & _ & _ & Hne & _).
  destruct (g_blocks ch) as [|sb [|]]; cbn in Hl; try done; [|lia].
  destruct (sign_block_zero_with_live_lease_persisting_chain_secret _ _ _ _ _ _ _ _ _) as [[sb'|] st]; cbn [result_bind].
  2: { intros [= _ <-]. apply in_place_rollback. }
  destruct (checked_chain [sb']) as [blocks|] eqn:Hc; [|intros [= _ <-]; apply in_place_rollback].
  destruct (negb _); [intros [= _ <-]; apply in_place_rollback|]. intros [= _ <-].
  eapply in_place_trans; [apply (in_place_leases d st)|].
  apply (in_place_rechain _ _ (λ _, _) (λ _, _)). by eapply single_checked.
Qed.

Lemma in_place_extend env m id tk c t d r d' : extend_grant env m id tk c t d = Some (r, d') → in_place d d'.
Proof.
  unfold extend_grant. destruct (result_bind _ _); [|intros [= _ <-]; apply in_place_refl].
  destruct (duration_seconds _); [|done].
  destruct (Lifecycle.extend _ _ _) as [[]|]; [apply in_place_extend_sql|intros [= _ <-]; apply in_place_refl|done].
Qed.

Lemma meter_blocks_length f w l i l' u : meter_blocks f w l = Some (i, l', u) → length l' = length l.
Proof.
  revert i l' u. induction l as [|sb l IH]; intros i l' u; cbn [meter_blocks]; [done|].
  destruct (meter_statements _ _ _) as [[]|]; [by intros [= _ <- _]|].
  destruct (meter_blocks f w l) as [[[]]|] eqn:E; [|done]. intros [= _ <- _]. cbn. f_equal. by eapply IH.
Qed.

Lemma in_place_increment env m id sid delta d : in_place d (increment_statement_usage env m id sid delta d).2.
Proof.
  unfold increment_statement_usage. destruct (result_bind (get_grant _ _) _) as [[info blocks]|] eqn:H0; [|apply in_place_refl].
  assert (blocks ≠ []) as Hne.
  { apply result_bind_Ok in H0 as (i0 & _ & H0). apply result_bind_Ok in H0 as (bs & Hb & [= -> ->]).
    destruct (r_blocks_json info) as [[|]|]; [|by injection Hb as <-|];
      apply result_bind_Ok in Hb as (g & Hg & [= <-]);
      unfold project_access_grant in Hg; by apply result_bind_Ok in Hg as (? & _ & [= <-]). }
  destruct (meter_blocks _ _ blocks) as [[[mi blocks'] u]|] eqn:Hm; [|apply in_place_refl].
  destruct (1 <? _)%nat eqn:Hl; [apply in_place_refl|]. apply Nat.ltb_ge in Hl.
  apply meter_blocks_length in Hm. assert (length blocks' = 1%nat) as H1 by (destruct blocks; cbn in *; [done|lia]).
  destruct blocks' as [|sb [|]]; try done. destruct mi as [|mi].
  - destruct (sign_block_zero_with_live_lease_persisting_chain_secret _ _ _ _ _ _ _ _ _) as [[sb'|] st]; cbn [result_bind];
      [|apply in_place_rollback].
    destruct (checked_chain [sb']) as [bs|] eqn:Hc; [|apply in_place_rollback].
    eapply in_place_trans; [apply (in_place_leases d st)|]. apply in_place_rechain. by eapply single_checked.
  - cbn [result_bind]. destruct (checked_chain [sb]) as [bs|] eqn:Hc; [|apply in_place_rollback].
    eapply in_place_trans; [apply in_place_leases|]. apply in_place_rechain. by eapply single_checked.
Qed.

Lemma in_place_post_flight env m r u d : in_place d (post_flight env m r u d).2.
Proof.
  unfold post_flight. destruct u as [delta|]; [|apply in_place_refl].
  pose proof (in_place_increment env m (rg_grant_id r) (rg_statement_sid r) delta d) as Hi.
  destruct (increment_statement_usage _ _ _ _ _ _) as [[]d1]; cbn [snd] in *.
  - eapply in_place_trans; [exact Hi|apply in_place_exhausted].
  - by destruct (policy_error_for_post_flight_metering_failure _ _).
Qed.

(** A composite chain is one block, for the statements given. *)
Lemma statements_grant_blocks env m id p recipient stmts created expires seed d g d' :
  access_grant_from_statements_for_persona env m id p recipient stmts created expires seed d = (Ok g, d') →
  d_grants d' = d_grants d ∧ d_personas d' = d_personas d ∧ d_receipts d' = d_receipts d ∧ g_id g = id ∧
  ∃ sb, g_blocks g = [sb] ∧ statements (block sb) = stmts ∧ expires_at (block sb) = expires.
Proof.
  unfold access_grant_from_statements_for_persona. destruct (match get_grant _ _ with Ok _ => _ | Err _ => _ end) as [root st].
  intros [= Hr <-]. apply result_bind_Ok in Hr as (kp & _ & Hr). apply map_err_Ok in Hr.
  unfold access_grant_from_statements in Hr. apply result_bind_Ok in Hr as (sb & Hs & [= <-]).
  split_and!; try done. exists sb. split; [done|]. apply map_err_Ok, result_bind_Ok in Hs as (out & Ho & [= <-]).
  unfold sign_block_zero in Ho. repeat apply result_bind_Ok in Ho as (? & _ & Ho). by injection Ho as <-.
Qed.

Lemma statements_grant_tables env m id p recipient stmts created expires seed d :
  let d' := (access_grant_from_statements_for_persona env m id p recipient stmts created expires seed d).2 in
  d_grants d' = d_grants d ∧ d_personas d' = d_personas d ∧ d_receipts d' = d_receipts d.
Proof.
  unfold access_grant_from_statements_for_persona. by destruct (match get_grant _ _ with Ok _ => _ | Err _ => _ end).
Qed.

Lemma overwrite_Ok env id g parent d d' :
  overwrite_grant_blocks_inner env id g parent d = (Ok tt, d') →
  checked_chain (g_blocks g) = Ok (g_blocks g) ∧
  d' = update_row id (λ r, set_chain (r_budget_json r) (r_expires_at r) (g_blocks g) r) d.
Proof.
  unfold overwrite_grant_blocks_inner. destruct (negb _); [done|].
  destruct (result_bind _ _) as [blocks|] eqn:E; [|done]. intros [= <-].
  apply result_bind_Ok in E as (bs & Hc & E). pose proof Hc as Hc'. apply checked_chain_Ok in Hc' as [-> _].
  repeat apply result_bind_Ok in E as (? & _ & E). by injection E as <-.
Qed.

Lemma overwrite_Err env id g parent d e d' :
  overwrite_grant_blocks_inner env id g parent d = (Err e, d') → d' = d.
Proof. unfold overwrite_grant_blocks_inner. by destruct (if negb _ then _ else _) as [|]; intros [= _ <-]. Qed.

(** What a composite mint does to the tables. *)
Lemma composite_cases env m bs s id p recipient stmts ttl d :
  let o := mint_composite_chain_for_grant env m bs s id p recipient stmts ttl d in
  d_personas o.2 = d_personas d ∧ d_receipts o.2 = d_receipts d ∧
  match o.1 with
  | Err _ => d_grants o.2 = d_grants d
  | Ok _ => ∃ sb, statements (block sb) = stmts ∧
              expires_at (block sb) = (λ t, u64_sat_add (env_now env) t) <$> ttl ∧ single_ok [sb] ∧
              d_grants o.2 = (λ r, if has_id id r then set_chain (r_budget_json r) (r_expires_at r) [sb] r else r) <$> d_grants d
  end.
Proof.
  unfold mint_composite_chain_for_grant. set (expires := fmap _ ttl).
  pose proof (statements_grant_tables env m id p recipient (compute_statements_union_bound stmts) (env_now env) expires bs d)
    as (Hg1 & Hp1 & Hr1).
  destruct (access_grant_from_statements_for_persona _ _ _ _ _ (compute_statements_union_bound stmts) _ _ _ d)
    as [[pb|] d1]; cbn [fst snd] in *; [|done].
  pose proof (statements_grant_tables env m id p recipient stmts (env_now env) expires s d1) as (Hg2 & Hp2 & Hr2).
  destruct (access_grant_from_statements_for_persona _ _ _ _ _ stmts _ _ _ d1) as [[g|] d2] eqn:E2; cbn [fst snd] in *;
    [|split_and!; congruence].
  apply statements_grant_blocks in E2 as (_ & _ & _ & _ & sb & Hb & Hst & Hex).
  destruct (overwrite_grant_blocks_inner _ _ _ _ _) as [[[]|] d3] eqn:E3; cbn [fst snd].
  - apply overwrite_Ok in E3 as [Hc ->]. rewrite Hb in Hc.
    cbn [update_row update_where set_rows d_grants d_personas d_receipts]. split_and!; [congruence..|].
    exists sb. split_and!; try done; [by exists sb|]. unfold update_row, update_where. cbn [set_rows d_grants]. by rewrite Hg2, Hg1, Hb.
  - apply overwrite_Err in E3 as ->. split_and!; congruence.
Qed.

Lemma in_place_composite env m bs s id p recipient stmts ttl d :
  in_place d (mint_composite_chain_for_grant env m bs s id p recipient stmts ttl d).2.
Proof.
  pose proof (composite_cases env m bs s id p recipient stmts ttl d) as (_ & Hr & H).
  destruct (mint_composite_chain_for_grant _ _ _ _ _ _ _ _ _ _) as [[[]|] d']; cbn [fst snd] in *.
  - destruct H as (sb & _ & _ & Hs & Hg). eapply in_place_trans; [|by apply in_place_tables].
    eapply in_place_trans; [exact (in_place_rechain id [sb] r_budget_json r_expires_at d Hs)|].
    by apply in_place_tables.
  - by apply in_place_tables.
Qed.

(** *** What a run keeps *)

Definition appended_chain (d : Daemon) (blocks : list SignedBlock) : Prop :=
  ∃ bs tail sb, blocks = bs ++ [sb] ∧ last bs = Some tail ∧
    ((∃ r, r ∈ d_grants d ∧ r_blocks_json r = Some bs) ∨ ∃ sb0, bs = [sb0]) ∧
    check_statement_attenuation (synthetic_grant_from_block tail "") (synthetic_grant_from_block sb "") = Ok tt ∧
    check_expiry_attenuation (expires_at (block tail)) (expires_at (block sb)) = Ok tt ∧
    checked_chain blocks = Ok blocks.

Definition minted (d : Daemon) (row : GrantRow) : Prop :=
  r_id row ∉ r_id <$> d_grants d ∧ r_receipt_id row = None ∧
  ∃ blocks, r_blocks_json row = Some blocks ∧ (single_ok blocks ∨ appended_chain d blocks).

Lemma delegated_minted env m pid cp scope ttl cb d row d' parent chain tail sb depth :
  delegated env m pid cp scope ttl cb d row d' parent chain tail sb depth → minted d row.
Proof.
  intros [_ Hch _ _ Hck Ha Hb Hcc -> _ Hf _]. split; [done|]. split; [done|]. eexists. split; [done|]. right.
  apply delegation_checks_Ok in Hck as (_ & _ & _ & Hl & He).
  apply get_access_grant_blocks in Hch as (r & Hr & _ & _ & Hbs).
  exists (g_blocks chain), tail, sb. split_and!; try done.
  - destruct Hbs as [?|?]; [left; by exists r|by right].
  - rewrite Hb. unfold ChainBuild.build_single_statement_block.
    destruct (ChainBuild.scope_to_actions_and_selector _ _). cbn [expires_at].
    unfold check_expiry_attenuation in *. destruct (expires_at (block tail)) as [e|]; [|done].
    destruct ttl as [s|]; [|done]. cbn in *. destruct (e <? _) eqn:E in He; [done|].
    destruct (e <? u64_sat_add _ _) eqn:E'; [|done]. unfold u64_sat_add in *. lia.
Qed.

Lemma op_cases env m o d :
  unique_ids d →
  in_place d (apply_op env m o d) ∨
  ∃ row, minted d row ∧ d_grants (apply_op env m o d) = d_grants d ++ [row] ∧
    d_receipts (apply_op env m o d) = d_receipts d.
Proof.
  intros Hu. destruct o; cbn [apply_op].
  - destruct (create_grant_with_budget _ _ _ _ _ _ _ _) as [[row|e] d'] eqn:E; cbn [snd].
    + right. apply create_Ok in E as (sb & _ & _ & Hc & _ & -> & Hg & Hf & _ & Hr). eexists. split; [|by rewrite Hg].
      split; [done|]. split; [done|]. eexists. split; [done|]. left. by exists sb.
    + left. apply create_Err in E as [(Hg & _ & Hr) _]. by apply in_place_tables.
  - destruct (delegate_grant_full _ _ _ _ _ _ _ _) as [[row|e] d'] eqn:E; cbn [snd].
    + right. apply delegate_full_Ok in E as (? & ? & ? & ? & ? & E). exists row. split; [by eapply delegated_minted|].
      by destruct E as [_ _ _ _ _ _ _ _ _ Hg _ [_ Hr]].
    + left. apply delegate_Err in E as [(Hg & _ & Hr) _]. by apply in_place_tables.
  - left. destruct (extend_grant _ _ _ _ _ _ _) as [[r d']|] eqn:E; [by eapply in_place_extend|apply in_place_refl].
  - left. apply in_place_post_flight.
  - left. apply in_place_shape.
  - left. apply in_place_composite.
  - left. apply in_place_standing.
  - left. apply in_place_revoke_grant.
  - left. apply in_place_workflow.
  - left. apply in_place_abandon.
  - left. by apply in_place_pause.
  - left. by apply in_place_resume.
  - left. apply in_place_set_paused.
  - left. apply in_place_revoke_statement.
  - left. apply in_place_expire_stale.
  - left. apply in_place_expire_now.
  - left. apply in_place_wall_clock.
  - left. apply in_place_revoke_persona.
  - left. apply in_place_leases.
  - left. by apply in_place_tables.
Qed.

(** Each block expires no later than the one before it. *)
Fixpoint expiries_nested (prev : SignedBlock) (rest : list SignedBlock) : Prop :=
  match rest with
  | [] => True
  | sb :: rest' => check_expiry_attenuation (expires_at (block prev)) (expires_at (block sb)) = Ok tt ∧
                   expiries_nested sb rest'
  end.

Definition chain_ok (blocks : list SignedBlock) : Prop :=
  ∃ first rest, blocks = first :: rest ∧ hops_attenuate "" first rest ∧ expiries_nested first rest ∧
    checked_chain blocks = Ok blocks.

Lemma hops_snoc gid first rest tail sb :
  last (first :: rest) = Some tail → hops_attenuate gid first rest → expiries_nested first rest →
  check_statement_attenuation (synthetic_grant_from_block tail gid) (synthetic_grant_from_block sb gid) = Ok tt →
  check_expiry_attenuation (expires_at (block tail)) (expires_at (block sb)) = Ok tt →
  hops_attenuate gid first (rest ++ [sb]) ∧ expiries_nested first (rest ++ [sb]).
Proof.
  revert first. induction rest as [|x rest IH]; intros first Hl Hh He Ha Hx.
  - injection Hl as ->. by split_and!.
  - rewrite last_cons_cons in Hl. destruct Hh as [? Hh], He as [? He].
    destruct (IH x Hl Hh He Ha Hx) as [??]. by split.
Qed.

Lemma single_chain_ok blocks : single_ok blocks → chain_ok blocks.
Proof. intros (sb & -> & Hc). by exists sb, []. Qed.

Record table_ok (d : Daemon) : Prop := {
  to_ids : unique_ids d;
  to_chains r : r ∈ d_grants d → ∃ blocks, r_blocks_json r = Some blocks ∧ chain_ok blocks;
  to_receipts : NoDup (d_receipts d).*1;
  to_receipted id : id ∈ (d_receipts d).*1 →
    id ∈ r_id <$> d_grants d ∧ ∀ r, r ∈ d_grants d → r_id r = id → r_receipt_id r ≠ None
}.

Lemma step_rows_ids l l' : Forall2 step_rel l l' → r_id <$> l' = r_id <$> l.
Proof. induction 1 as [|r r' l l' [[Hi _] _] _ IH]; cbn; congruence. Qed.

Lemma in_place_ids d d' : in_place d d' → r_id <$> d_grants d' = r_id <$> d_grants d.
Proof. intros [H _]. by apply step_rows_ids. Qed.

Lemma minted_chain_ok d row : table_ok d → minted d row → ∃ blocks, r_blocks_json row = Some blocks ∧ chain_ok blocks.
Proof.
  intros Hd (_ & _ & blocks & Hb & Hc). exists blocks. split; [done|].
  destruct Hc as [Hc|(bs & tail & sb & -> & Hl & Hbs & Ha & He & Hc)]; [by apply single_chain_ok|].
  assert (∃ first rest, bs = first :: rest ∧ hops_attenuate "" first rest ∧ expiries_nested first rest)
    as (first & rest & -> & Hh & Hx).
  { destruct Hbs as [(r & Hr & Hbs)|(sb0 & ->)]; [|by exists sb0, []].
    destruct (to_chains _ Hd r Hr) as (bs' & E & first & rest & -> & ? & ? & _).
    rewrite Hbs in E. injection E as ->. by exists first, rest. }
  destruct (hops_snoc _ _ _ _ _ Hl Hh Hx Ha He) as [??]. by exists first, (rest ++ [sb]).
Qed.

Lemma op_table_ok env m o d : table_ok d → table_ok (apply_op env m o d).
Proof.
  intros Hd. destruct (op_cases env m o d (to_ids _ Hd)) as [Hi|(row & Hm & Hg & Hr)].
  - pose proof (in_place_ids _ _ Hi) as Hids. destruct Hi as [Hrows (new & Enew & Nnew & Inew)]. split.
    + unfold unique_ids. rewrite Hids. apply (to_ids _ Hd).
    + intros r' Hr'. apply list_elem_of_lookup in Hr' as [i Hi].
      destruct (Forall2_lookup_r _ _ _ _ _ Hrows Hi) as (r & Hr%list_elem_of_lookup_2 & _ & [->|(bs & -> & Hbs)]).
      * by apply (to_chains _ Hd).
      * exists bs. split; [done|by apply single_chain_ok].
    + rewrite Enew, fmap_app. apply NoDup_app. split_and!; [done| |apply (to_receipts _ Hd)].
      intros id Hn Ho. destruct (Inew id Hn) as [(r & Hr & Hid & Hnone) _].
      by apply (proj2 (to_receipted _ Hd id Ho) r Hr Hid).
    + intros id. rewrite Enew, fmap_app, Hids. intros [Hn|Ho]%elem_of_app.
      * destruct (Inew id Hn) as [(r & Hr & <- & _) Hall]. split; [by apply list_elem_of_fmap_2|done].
      * destruct (to_receipted _ Hd id Ho) as [Hin Hall]. split; [done|].
        intros r' Hr' Hid. apply list_elem_of_lookup in Hr' as [i Hi].
        destruct (Forall2_lookup_r _ _ _ _ _ Hrows Hi) as (r & Hr%list_elem_of_lookup_2 & (Hid' & _ & Hrec) & _).
        apply Hrec, Hall; [done|congruence].
  - split.
    + unfold unique_ids. rewrite Hg, fmap_app. apply NoDup_app. split_and!; [apply (to_ids _ Hd)| |apply NoDup_singleton].
      intros x Hx Hx'%list_elem_of_singleton. subst x. by destruct Hm as [? _].
    + rewrite Hg. intros r [Hin|Hin%list_elem_of_singleton]%elem_of_app; [by apply (to_chains _ Hd)|]. subst r.
      by eapply minted_chain_ok.
    + rewrite Hr. apply (to_receipts _ Hd).
    + intros id. rewrite Hr, Hg. intros Ho. destruct (to_receipted _ Hd id Ho) as [Hin Hall]. split; [set_solver|].
      intros r [?|Hin'%list_elem_of_singleton]%elem_of_app Hid; [by apply Hall|]. subst r. destruct Hm as [Hm _].
      by rewrite Hid in Hm.
Qed.

Lemma run_table_ok ops d : table_ok d → table_ok (run_ops d ops).
Proof. unfold run_ops. revert d. induction ops as [|o ops IH]; intros d Hd; cbn; [done|]. by apply IH, op_table_ok. Qed.

Definition fresh_daemon (d : Daemon) : Prop := d_grants d = [] ∧ d_receipts d = [].

Lemma fresh_table_ok d : fresh_daemon d → table_ok d.
Proof.
  intros [Hg Hr]. split; unfold unique_ids; rewrite ?Hg, ?Hr; cbn; try apply NoDup_nil_2; by intros ? ?%not_elem_of_nil.
Qed.

(** A row that has ended stays ended. *)
Lemma op_terminal env m o d r :
  unique_ids d → r ∈ d_grants d → terminal (r_status r) →
  ∃ r', r' ∈ d_grants (apply_op env m o d) ∧ r_id r' = r_id r ∧ terminal (r_status r').
Proof.
  intros Hu Hr Ht. destruct (op_cases env m o d Hu) as [[Hrows _]|(row & _ & Hg & _)].
  - apply list_elem_of_lookup in Hr as [i Hi].
    destruct (Forall2_lookup_l _ _ _ _ _ Hrows Hi) as (r' & Hr'%list_elem_of_lookup_2 & (Hid & Hts & _) & _).
    exists r'. auto.
  - exists r. rewrite Hg. split_and!; [set_solver|done|done].
Qed.

Lemma run_terminal ops : ∀ d r,
  table_ok d → r ∈ d_grants d → terminal (r_status r) →
  ∃ r', r' ∈ d_grants (run_ops d ops) ∧ r_id r' = r_id r ∧ terminal (r_status r').
Proof.
  induction ops as [|o ops IH]; intros d r Hd Hr Ht; [by exists r|]. cbn [run_ops foldl].
  destruct (op_terminal o.1.1 o.1.2 o.2 d r (to_ids _ Hd) Hr Ht) as (r1 & Hr1 & <- & Ht1).
  apply (IH _ r1); [by apply op_table_ok|done|done].
Qed.

(** The proxy only uses rows that have not ended. *)
Lemma resolve_not_terminal {U : UriOps} {P : PercentOps} {T : JsonText} {Mt : MethodOps} s persona cred gid uri method res :
  daemon_resolve_grant s persona cred gid uri method = Ok res →
  ∃ row, row ∈ grants s ∧ r_id row = rg_grant_id res ∧ ¬ terminal (r_status row).
Proof.
  unfold daemon_resolve_grant. intros (row & Hsel & H)%result_bind_Ok. exists row.
  apply select_grant_Ok in Hsel as (Hin & _ & _ & _ & Hst). split; [done|]. split.
  - apply result_bind_Ok in H as (ag & _ & H). destruct (authorized_root_pubkey _ _); [|done].
    destruct (negb _); [done|]. apply result_bind_Ok in H as (stmt & _ & H). destruct (bool_decide _); [done|].
    destruct (first_revoked_grant_ancestor _ _); [done|]. by injection H as <-.
  - intros Ht. destruct gid as [g|].
    + destruct Hst as [_ Hst]. rewrite (effective_terminal _ _ Ht) in Hst. rewrite Hst in Ht. by apply not_terminal_active.
    + destruct Hst as [Hst _]. rewrite Hst in Ht. by apply not_terminal_active.
Qed.

(** *** Reading a delegated grant *)

Lemma resolve_loop_app {U : UriOps} {P : PercentOps} l l' action res uri sm cm i stmt :
  ProxyPolicy.resolve_loop l action res uri sm cm = Match i stmt →
  ProxyPolicy.resolve_loop (l ++ l') action res uri sm cm = Match i stmt.
Proof.
  revert sm cm. induction l as [|[j s] l IH]; intros sm cm; cbn [app ProxyPolicy.resolve_loop].
  - by destruct cm, sm.
  - destruct (negb (action_ok s action)), (negb (primary_ok s res)); auto.
    destruct (negb (bool_decide _)); auto. destruct (subtarget_glob _); auto. destruct (subtarget_ok _ _); auto.
Qed.

Lemma grant_statements_app g g' sb :
  g_blocks g' = g_blocks g ++ [sb] → ∃ l, grant_statements g' = grant_statements g ++ l.
Proof. intros E. unfold grant_statements. rewrite E, imap_app, join_app. eauto. Qed.

Lemma select_statement_app {U : UriOps} {P : PercentOps} {T : JsonText} {Mt : MethodOps} g g' sb uri method stmt :
  g_blocks g' = g_blocks g ++ [sb] → select_statement g uri method = Ok stmt → select_statement g' uri method = Ok stmt.
Proof.
  intros E. unfold select_statement. destruct (uri_parse _) as [u|]; [|done]. cbn.
  destruct (request_to_action_resource _ u) as [[action res]|]; [|done].
  unfold resolve_statement_for_request_with_uri. destruct (grant_statements_app _ _ _ E) as [l ->].
  destruct (ProxyPolicy.resolve_loop (grant_statements g) _ _ _ _ _) as [i st|sg|c|] eqn:Hr; try done.
  rewrite (resolve_loop_app _ l _ _ _ _ _ _ _ Hr). done.
Qed.

(** A freshly delegated grant is read with its own chain. *)
Lemma delegated_chain env m pid cp scope ttl cb d row d' parent chain tail sb depth env' ag :
  unique_ids d → delegated env m pid cp scope ttl cb d row d' parent chain tail sb depth →
  get_access_grant (store_of env' d') (r_id row) = Ok ag → g_blocks ag = g_blocks chain ++ [sb].
Proof.
  intros Hu [_ Hch _ _ _ _ Hb _ -> Hg Hf _] Hag.
  apply get_access_grant_blocks in Hch as (_ & _ & _ & Hne & _).
  unfold get_access_grant, get_grant in Hag. rewrite row_by_id_unique in Hag.
  2: { unfold unique_ids in *. rewrite Hg, fmap_app. apply NoDup_app. split_and!; [done| |apply NoDup_singleton].
       intros x Hx ->%list_elem_of_singleton. done. }
  2: { rewrite Hg. set_solver. }
  cbn [result_bind r_blocks_json new_row r_parent_grant_id r_persona_id] in Hag.
  destruct (g_blocks chain) as [|b0 bs] eqn:Ebs; [done|]. cbn [app] in Hag |- *.
  rewrite (bool_decide_true (is_Some (Some pid))) in Hag by done.
  assert (List.last (b0 :: bs ++ [sb]) b0 = sb) as El.
  { rewrite app_comm_cons. apply List.last_last. }
  rewrite El in Hag. assert (issued_by (block sb) = cp) as Ei.
  { rewrite Hb. unfold ChainBuild.build_single_statement_block. by destruct (ChainBuild.scope_to_actions_and_selector _ _). }
  rewrite bool_decide_true in Hag by done. cbn [negb] in Hag.
  unfold verify_and_return in Hag. repeat case_match; try done; by injection Hag as <-.
Qed.

(** *** Metering a chain of several blocks *)

Lemma increment_multi env m id sid delta d r sb sb' rest :
  row_by_id (store_of env d) id = Some r → r_blocks_json r = Some (sb :: sb' :: rest) →
  ∃ e, increment_statement_usage env m id sid delta d = (Err e, d) ∧
    policy_error_for_post_flight_metering_failure e id = None.
Proof.
  intros Hr Hb. unfold increment_statement_usage, get_grant. rewrite Hr. cbn [result_bind]. rewrite Hb. cbn [result_bind].
  destruct (meter_blocks _ _ _) as [[[mi bs] u]|] eqn:Hm; [|by eexists].
  apply meter_blocks_length in Hm. rewrite Hm. cbn [length Nat.ltb Nat.leb]. eexists. split; [done|].
  vm_compute. reflexivity.
Qed.

Lemma post_flight_multi env m res u d r sb sb' rest :
  row_by_id (store_of env d) (rg_grant_id res) = Some r → r_blocks_json r = Some (sb :: sb' :: rest) →
  post_flight env m res u d = (Ok tt, d).
Proof.
  intros Hr Hb. unfold post_flight. destruct u as [delta|]; [|done].
  destruct (increment_multi env m _ (rg_statement_sid res) delta d r sb sb' rest Hr Hb) as (e & -> & Hp). by rewrite Hp.
Qed.

(** *** Accumulated usage *)

Definition sum_axis (f : Usage → Z) (l : list Usage) : Z := foldr (λ u n, f u + n) 0 l.
Definition micro_of (u : Usage) : Z := if 0 <? u_cents_micro u then u_cents_micro u else u64_sat_mul (u_cents u) 1000000.

(** The usage of the statement, for a chain of one block. *)
Definition stmt_usage (r : GrantRow) (wanted : string) : option Usage :=
  match r_blocks_json r with
  | Some [sb] => usage <$> List.find (λ s, bool_decide (sid s = wanted)) (statements (block sb))
  | _ => None
  end.

Lemma meter_statements_Some f w l s :
  List.find (λ s, bool_decide (sid s = w)) l = Some s →
  ∃ l', meter_statements f w l = Some (l', mkUsageDelta (usage s) (f (usage s))) ∧
    usage <$> List.find (λ s, bool_decide (sid s = w)) l' = Some (f (usage s)).
Proof.
  induction l as [|x l IH]; cbn [List.find meter_statements]; [done|]. case_bool_decide as E.
  - intros [= <-]. eexists. split; [done|]. cbn [List.find sid with_usage]. by rewrite bool_decide_true.
  - intros (l' & -> & Hf)%IH. eexists. split; [done|]. cbn [List.find]. by rewrite bool_decide_false.
Qed.

Lemma increment_Ok env m id w delta d r u ud d' :
  unique_ids d → r ∈ d_grants d → r_id r = id → stmt_usage r w = Some u →
  increment_statement_usage env m id w delta d = (Ok ud, d') →
  ud = mkUsageDelta u (bump_usage (env_now env) u delta) ∧
  ∃ r', r' ∈ d_grants d' ∧ r_id r' = id ∧ stmt_usage r' w = Some (bump_usage (env_now env) u delta).
Proof.
  intros Hu Hr Hid Hs. unfold increment_statement_usage, get_grant.
  rewrite <-Hid, (row_by_id_unique env d r Hu Hr). cbn [result_bind]. unfold stmt_usage in Hs.
  destruct (r_blocks_json r) as [[|sb [|]]|] eqn:Hb; try done. cbn [result_bind meter_blocks].
  destruct (List.find _ _) as [s|] eqn:Hf; [|done]. injection Hs as Hs.
  destruct (meter_statements_Some (λ u, bump_usage (env_now env) u delta) w _ _ Hf) as (l' & -> & Hl'). rewrite Hs in *.
  cbn [length Nat.ltb Nat.leb].
  destruct (sign_block_zero_with_live_lease_persisting_chain_secret _ _ _ _ _ _ _ _ _) as [[sb'|] st] eqn:Hsg;
    [|done]. cbn [result_bind]. destruct (checked_chain [sb']) as [bs|] eqn:Hc; [|done]. intros [= <- <-].
  split; [done|]. apply checked_chain_Ok in Hc as [-> _]. apply sign_zero_block in Hsg.
  exists (set_chain (r_budget_json r) (r_expires_at r) [sb'] r). split_and!.
  - cbn [update_row update_where set_leases set_rows d_grants]. apply list_elem_of_fmap. exists r.
    unfold has_id. by rewrite bool_decide_true.
  - done.
  - unfold stmt_usage. cbn [r_blocks_json set_chain]. rewrite Hsg. exact Hl'.
Qed.

Lemma increment_ids env m id w delta d : unique_ids d → unique_ids (increment_statement_usage env m id w delta d).2.
Proof. unfold unique_ids. by rewrite (in_place_ids _ _ (in_place_increment env m id w delta d)). Qed.

(** Successive calls, each metered with success. *)
Fixpoint meter_all (id w : string) (calls : list (Env * MintEnv * Usage)) (d : Daemon) : option Daemon :=
  match calls with
  | [] => Some d
  | (env, m, delta) :: rest =>
      match increment_statement_usage env m id w delta d with
      | (Ok _, d') => meter_all id w rest d'
      | (Err _, _) => None
      end
  end.

Lemma meter_all_usage id w calls : ∀ d r u d',
  unique_ids d → r ∈ d_grants d → r_id r = id → stmt_usage r w = Some u → meter_all id w calls d = Some d' →
  ∃ r', r' ∈ d_grants d' ∧ r_id r' = id ∧
    stmt_usage r' w = Some (foldl (λ u c, bump_usage (env_now c.1.1) u c.2) u calls).
Proof.
  induction calls as [|[[env m] delta] calls IH]; intros d r u d' Hu Hr Hid Hs Hm; cbn [meter_all foldl] in *.
  - injection Hm as <-. by exists r.
  - pose proof (increment_ids env m id w delta d Hu) as Hu'.
    destruct (increment_statement_usage env m id w delta d) as [[ud|] d1] eqn:E; [|done].
    destruct (increment_Ok _ _ _ _ _ _ _ _ _ _ Hu Hr Hid Hs E) as (_ & r1 & Hr1 & Hid1 & Hs1).
    exact (IH d1 r1 _ d' Hu' Hr1 Hid1 Hs1 Hm).
Qed.

(** Usage whose whole cents are those of its micro-cents. *)
Definition coherent (u : Usage) : Prop := u_cents u = u_cents_micro u / 1000000 ∧ in_u64 (u_cents_micro u).

Lemma bump_micro now u delta :
  coherent u → in_u64 (micro_of delta) →
  u_cents_micro (bump_usage now u delta) = u64_sat_add (u_cents_micro u) (micro_of delta) ∧
  coherent (bump_usage now u delta).
Proof.
  intros [Hc Hm] Hd. unfold bump_usage. fold (micro_of delta).
  assert ((if (u_cents_micro u =? 0) && (0 <? u_cents u) then u64_sat_mul (u_cents u) 1000000 else u_cents_micro u)
          = u_cents_micro u) as ->.
  { destruct (u_cents_micro u =? 0) eqn:E; cbn [andb]; [|done]. apply Z.eqb_eq in E. rewrite E in Hc. by rewrite Hc. }
  cbn. split; [done|]. split; [done|by apply u64_sat_add_in].
Qed.

Lemma sum_axis_nonneg f l : Forall (λ u, 0 ≤ f u) l → 0 ≤ sum_axis f l.
Proof. unfold sum_axis. induction 1; cbn [foldr]; lia. Qed.

Lemma foldl_bump (calls : list (Env * MintEnv * Usage)) : ∀ u,
  coherent u → in_u64 (u_tokens u) → in_u64 (u_requests u) →
  Forall (λ c, in_u64 (u_tokens c.2) ∧ in_u64 (u_requests c.2) ∧ in_u64 (micro_of c.2)) calls →
  let u' := foldl (λ u c, bump_usage (env_now c.1.1) u c.2) u calls in
  u_cents_micro u' = Z.min (u_cents_micro u + sum_axis micro_of calls.*2) u64_max ∧
  u_tokens u' = Z.min (u_tokens u + sum_axis u_tokens calls.*2) u64_max ∧
  u_requests u' = Z.min (u_requests u + sum_axis u_requests calls.*2) u64_max ∧ coherent u'.
Proof.
  induction calls as [|[[env m] delta] calls IH]; intros u Hc Ht Hr Hall; cbn [foldl].
  - unfold in_u64 in *. cbn. split_and!; [| | |done]; destruct Hc as [_ Hc]; unfold in_u64 in *; lia.
  - apply Forall_cons in Hall as [(Htd & Hrd & Hmd) Hall]. cbn [fst snd] in *.
    destruct (bump_micro (env_now env) u delta Hc Hmd) as [Hm' Hc'].
    destruct (IH (bump_usage (env_now env) u delta) Hc') as (H1 & H2 & H3 & H4); try done.
    { by apply u64_sat_add_in. } { by apply u64_sat_add_in. }
    assert (Forall (λ u, 0 ≤ micro_of u) calls.*2 ∧ Forall (λ u, 0 ≤ u_tokens u) calls.*2 ∧
            Forall (λ u, 0 ≤ u_requests u) calls.*2) as (Hp1 & Hp2 & Hp3).
    { rewrite !Forall_fmap. split_and!; (eapply Forall_impl; [exact Hall|]); unfold in_u64; cbn; intros ?; lia. }
    apply sum_axis_nonneg in Hp1, Hp2, Hp3. cbn zeta in *.
    rewrite H1, H2, H3, Hm', fmap_cons. cbn [u_tokens u_requests bump_usage snd].
    assert (∀ f, sum_axis f (delta :: calls.*2) = f delta + sum_axis f calls.*2) as E by done. rewrite !E.
    unfold u64_sat_add. split_and!; [lia|lia|lia|done].
Qed.

(** A signature under a cached lease leaves that lease in the cache. *)
Lemma sign_zero_warm db st g p b now purpose seed nonce sb st' l :
  ls_cache st !! g = Some l →
  sign_block_zero_with_live_lease_persisting_chain_secret db st g p b now purpose seed nonce = (Ok sb, st') →
  ls_cache st' !! g = Some l.
Proof.
  intros Hl. unfold sign_block_zero_with_live_lease_persisting_chain_secret.
  rewrite (under_lease_cached _ _ _ _ _ _ l) by exact Hl. cbv zeta.
  destruct (is_expired_at l now) eqn:Hx; [intros [=]|].
  destruct (result_bind _ _) as [[sb0 blob]|]; [|intros [=]].
  unfold write_grant_chain_secret. destruct (db_write _); [intros [=]|]. intros [= _ <-].
  cbn [ls_cache set_chain_secrets set_cache]. rewrite lookup_evict, decide_True, Hl by reflexivity.
  cbn. by rewrite Hx.
Qed.

(** A cached lease past its expiry is not live, whatever the grant row says. *)
Lemma cached_expired_inert db st g l e now :
  ls_cache st !! g = Some l → l_expires_at l = Some e → e ≤ now → (bound_has_live db st g now).1 = false.
Proof.
  intros Hl He Hle. unfold bound_has_live, on_cache, rehydrate_if_cold.
  assert (is_cold (ls_cache st) g = false) as -> by (unfold is_cold; by rewrite Hl).
  unfold registry_has_live. cbn [negb fst snd]. rewrite lookup_evict, decide_True, Hl by reflexivity.
  cbn. unfold is_expired_at, elapsed. rewrite He. by rewrite (proj2 (Z.leb_le _ _) Hle).
Qed.

(** The row an update by id was about, read back. *)
Lemma get_updated_row env d id f r :
  unique_ids d → r ∈ d_grants d → r_id r = id → (∀ x, r_id (f x) = r_id x) →
  get_grant (store_of env (update_row id f d)) id = Ok (f r).
Proof.
  intros Hu Hr Hid Hf. unfold get_grant.
  assert (unique_ids (update_row id f d)) as Hu2.
  { unfold unique_ids. assert (r_id <$> d_grants (update_row id f d) = r_id <$> d_grants d) as ->; [|exact Hu].
    unfold update_row, update_where. cbn [d_grants set_rows]. rewrite <-list_fmap_compose.
    apply list_fmap_ext. intros i x _. unfold compose. destruct (has_id id x); [apply Hf|reflexivity]. }
  assert (f r ∈ d_grants (update_row id f d)) as Hin.
  { apply list_elem_of_fmap. exists r. split; [|exact Hr]. unfold has_id. by rewrite bool_decide_true. }
  pose proof (row_by_id_unique env _ _ Hu2 Hin) as E. rewrite Hf, Hid in E. by rewrite E.
Qed.

End Mint.

(** ** A small daemon *)

Module ToyMint.

#[export] Instance crypto : CryptoOps := toy_ops (λ _, true).
#[export] Instance aead : AeadOps := ToyLease.aead.
#[export] Instance meta : MetaJson := ToyLease.json [].
#[export] Instance secrets : SecretJson := ToySecrets.json.
#[export] Instance uuid : UuidOps := ToyTable.uuid.
#[export] Instance blocks : BlocksJson := {| blocks_to_json _ := Ok "[]" |}.

Definition key : string := of_bytes (toy_hex (zeros 32)).

Definition persona (id : string) : PersonaRow := mkPersona id ("ed25519:" +:+ key) None "active".

Definition mint (uuid : string) (c : ascii) : MintEnv :=
  mkMint uuid (ToySecrets.random c) (λ _, Ok ("ed25519-secret:" +:+ key)) None.

Definition env : Env := mkEnv 1000 db_ok None true (λ r _, Ok ("receipt-" +:+ r_id r)) [].

Definition start : Daemon :=
  mkDaemon [] [persona "alice"; persona "bob"] (mkLeaseStore ∅ ∅ ∅ ∅ None ∅) [].

Definition depth (n : Z) : GrantShapeFields := mkShape None None None None (Some n) None None None.

(** Alice's grant, and one delegated from it to Bob. *)
Definition ops : list (Env * MintEnv * Op) :=
  [(env, mint "1" "x", OpCreate "alice" "github/pat" "github:push:acme/*" (Some 3600) None);
   (env, mint "" "x", OpShape "grant-1" (depth 2));
   (env, mint "2" "y", OpDelegate "grant-1" "bob" "github:push:acme/app" (Some 600) None)].

Definition after : Daemon := run_ops start ops.

End ToyMint.
Import ToyMint.

(** ** Properties *)

(** C4. Stored authority only narrows. Whatever operations run on a daemon that starts without grants, the
    chain of every row passes the attenuation check made at the time of use, its blocks expire no
    later than their predecessors, it stays within the caps, and what any of its statements allows
    unconditionally is allowed by a statement of its first block. *)
Theorem stored_chains_attenuate {Cr : CryptoOps} {A : AeadOps} {J : MetaJson} {SJ : SecretJson} {Id : UuidOps}
  {BJ : BlocksJson} d ops r :
  fresh_daemon d → r ∈ d_grants (run_ops d ops) →
  ∃ first rest, let blocks := first :: rest in
    r_blocks_json r = Some blocks ∧ first_attenuation_violation blocks "" = None ∧ expiries_nested first rest ∧
    (length blocks ≤ 32)%nat ∧ Forall (λ sb, length (statements (block sb)) ≤ 16)%nat blocks ∧
    ∀ sb s c, sb ∈ blocks → s ∈ statements (block sb) → within s c →
      ∃ s0, s0 ∈ statements (block first) ∧ within s0 c.
Proof.
  intros Hd Hr. pose proof (run_table_ok ops d (fresh_table_ok d Hd)) as Hok.
  destruct (to_chains _ Hok r Hr) as (blocks & Hb & first & rest & -> & Hh & Hx & Hc).
  apply checked_chain_Ok in Hc as (_ & Hl & Hs). exists first, rest. cbv zeta. split_and!; try done.
  - by apply attenuation_loop_None.
  - intros sb s c Hsb Hss Hw. by eapply hops_within.
Qed.

Lemma stored_chains_attenuate_witness :
  ∃ r first rest, r ∈ d_grants ToyMint.after ∧ r_id r = "grant-2" ∧ r_blocks_json r = Some (first :: rest) ∧
    length rest = 1%nat ∧ expiries_nested first rest.
Proof.
  assert (("grant-2", Some 2%nat) ∈ (λ r, (r_id r, length <$> r_blocks_json r)) <$> d_grants ToyMint.after) as Hin.
  { apply (bool_decide_unpack _). vm_compute. exact I. }
  apply list_elem_of_fmap in Hin as (r & [= Hid Hlen] & Hr).
  destruct (stored_chains_attenuate ToyMint.start ToyMint.ops r) as (first & rest & Hb & _ & Hx & _); [by split|exact Hr|].
  exists r, first, rest. rewrite Hb in Hlen. injection Hlen as Hlen. by split_and!.
Defined.

(** C25. What has ended stays ended. Once the status of a grant is one of the terminal ones, no sequence of
    operations makes it active or paused again, and the proxy resolves no request to it. *)
Theorem ended_grants_stay_ended {Cr : CryptoOps} {A : AeadOps} {J : MetaJson} {SJ : SecretJson} {Id : UuidOps}
  {BJ : BlocksJson} {U : UriOps} {P : PercentOps} {T : JsonText} {Mt : MethodOps} d ops1 ops2 r :
  fresh_daemon d → r ∈ d_grants (run_ops d ops1) → terminal (r_status r) →
  let d' := run_ops (run_ops d ops1) ops2 in
  (∃ r', r' ∈ d_grants d' ∧ r_id r' = r_id r ∧ terminal (r_status r')) ∧
  ∀ env persona cred gid uri method res,
    daemon_resolve_grant (store_of env d') persona cred gid uri method = Ok res → rg_grant_id res ≠ r_id r.
Proof.
  intros Hd Hr Ht d'. pose proof (run_table_ok ops1 d (fresh_table_ok d Hd)) as Hok1.
  pose proof (run_table_ok ops2 _ Hok1) as Hok2. destruct (run_terminal ops2 _ r Hok1 Hr Ht) as (r' & Hr' & Hid & Ht').
  split; [by exists r'|]. intros env persona cred gid uri method res (row & Hrow & Hrid & Hn)%resolve_not_terminal Heq.
  apply Hn. enough (row = r') as -> by done.
  pose proof (row_by_id_unique env d' row (to_ids _ Hok2) Hrow) as H1.
  rewrite Hrid, Heq, <-Hid, (row_by_id_unique env d' r' (to_ids _ Hok2) Hr') in H1. by injection H1.
Qed.

Lemma ended_grants_stay_ended_witness :
  let revoked := ToyMint.ops ++ [(ToyMint.env, ToyMint.mint "" "x", OpRevoke "grant-1")] in
  let later := [(ToyMint.env, ToyMint.mint "" "x", OpResume "grant-2");
                (ToyMint.env, ToyMint.mint "3" "z", OpDelegate "grant-2" "alice" "github:push:acme/app" (Some 60) None)] in
  ∃ r r', r ∈ d_grants (run_ops ToyMint.start revoked) ∧ r_id r = "grant-2" ∧
    r' ∈ d_grants (run_ops (run_ops ToyMint.start revoked) later) ∧ r_id r' = r_id r ∧ terminal (r_status r').
Proof.
  intros revoked later.
  assert (("grant-2", "revoked") ∈ (λ r, (r_id r, r_status r)) <$> d_grants (run_ops ToyMint.start revoked)) as Hin.
  { apply (bool_decide_unpack _). vm_compute. exact I. }
  apply list_elem_of_fmap in Hin as (r & [= Hid Hst] & Hr).
  destruct (ended_grants_stay_ended (U := ToyUri.ops) (P := ToyDaemon.percent) (T := Build_JsonText (λ _, None))
    (Mt := ToyDaemon.methods) ToyMint.start revoked later r) as [(r' & Hr' & Hid' & Ht') _].
  - by split.
  - exact Hr.
  - rewrite <-Hst. apply list_elem_of_here.
  - exists r, r'. split; [exact Hr|]. split; [exact (eq_sym Hid)|]. split; [exact Hr'|]. by split.
Defined.

(** At most one receipt per grant. However a grant ends (revoked, by a cascade, abandoned, expired by either
    sweep) and however often, it is given one receipt, and only grants of the table are. *)
Theorem one_receipt_per_grant {Cr : CryptoOps} {A : AeadOps} {J : MetaJson} {SJ : SecretJson} {Id : UuidOps}
  {BJ : BlocksJson} d ops :
  fresh_daemon d →
  NoDup (d_receipts (run_ops d ops)).*1 ∧
  ∀ id, id ∈ (d_receipts (run_ops d ops)).*1 → ∃ r, r ∈ d_grants (run_ops d ops) ∧ r_id r = id ∧ r_receipt_id r ≠ None.
Proof.
  intros Hd. pose proof (run_table_ok ops d (fresh_table_ok d Hd)) as Hok. split; [apply (to_receipts _ Hok)|].
  intros id Hin. destruct (to_receipted _ Hok id Hin) as [Hid Hall].
  apply list_elem_of_fmap in Hid as (r & -> & Hr). exists r. auto.
Qed.

Lemma one_receipt_per_grant_witness :
  let ops := ToyMint.ops ++ [(ToyMint.env, ToyMint.mint "" "x", OpRevoke "grant-1");
                             (ToyMint.env, ToyMint.mint "" "x", OpRevoke "grant-2")] in
  length (d_receipts (run_ops ToyMint.start ops)) = 2%nat ∧ NoDup (d_receipts (run_ops ToyMint.start ops)).*1.
Proof. intros ops. split; [vm_compute; reflexivity|]. apply one_receipt_per_grant. by split. Defined.

(** A delegation is bounded by its parent. When it succeeds the parent's lease is live and its chain was read
    and verified; one row is added, under a new identifier, whose chain is the parent's with one block that
    passed the statement and expiry checks against the parent's last block; the depth left is one
    less than the parent's; a standing parent has made at most its daily number of
    children, this one included; the child lives no longer than thirty days. *)
Theorem delegation_bounded {Cr : CryptoOps} {A : AeadOps} {J : MetaJson} {SJ : SecretJson} {Id : UuidOps}
  {BJ : BlocksJson} env m pid persona scope ttl budget d row d' :
  delegate_grant_full env m pid persona scope ttl budget d = (Ok row, d') →
  ∃ parent chain tail sb depth,
    get_grant (store_of env d) pid = Ok parent ∧ get_access_grant (store_of env d) pid = Ok chain ∧
    (bound_with_key (env_db env) (lease_store d) pid (nanos (env_now env))).1 ≠ None ∧
    d_grants d' = d_grants d ++ [row] ∧ r_id row ∉ r_id <$> d_grants d ∧ r_parent_grant_id row = Some pid ∧
    r_blocks_json row = Some (g_blocks chain ++ [sb]) ∧ last (g_blocks chain) = Some tail ∧
    check_statement_attenuation (synthetic_grant tail pid (g_issuing_persona_id chain))
      (synthetic_grant_from_unsigned_block (block sb) (r_id row) persona) = Ok tt ∧
    (∀ e, expires_at (block tail) = Some e → ∃ e', r_expires_at row = Some e' ∧ e' ≤ e) ∧
    r_max_delegation_depth parent = Some depth ∧ depth ≠ 0 ∧ r_max_delegation_depth row = Some (depth - 1) ∧
    (∀ limit, r_is_standing parent = true → r_max_children_per_day parent = Some limit →
       children_since d' pid (env_now env - 86400) ≤ limit) ∧
    (∀ e', r_expires_at row = Some e' → e' ≤ env_now env + MAX_GRANT_TTL_SECS).
Proof.
  intros (parent & chain & tail & sb & depth & H)%delegate_full_Ok.
  destruct H as [Httl Hch Hpa [k Hk] Hck Hatt Hblk Hcc Hrow Hg Hf _].
  apply delegation_checks_Ok in Hck as (Hd & Hd0 & Hst & Hl & He).
  exists parent, chain, tail, sb, depth. split_and!; try done; try (by rewrite Hk); try (by rewrite Hrow).
  - intros e Ee. rewrite Ee in He. unfold check_expiry_attenuation in He. destruct ttl as [s|]; [|done].
    cbn in He. destruct (e <? _) eqn:E; [done|]. rewrite Hrow. cbn. eexists. split; [done|]. unfold u64_sat_add. lia.
  - intros limit Hs Hlim. unfold standing_ceiling in Hst. rewrite Hs, Hlim in Hst.
    assert (r_id parent = pid) as Hpid.
    { unfold get_grant, row_by_id in Hpa. destruct (List.find _ _) as [r|] eqn:Hfd; [|done]. injection Hpa as ->.
      by apply find_some in Hfd as [_ ?%bool_decide_eq_true]. }
    rewrite Hpid in Hst. destruct (limit <=? _) eqn:E; [done|]. apply Z.leb_gt in E.
    unfold children_since in *. rewrite Hg, List.filter_app, length_app. cbn [List.filter].
    destruct (_ && _); cbn [length]; lia.
  - intros e' Ee. rewrite Hrow in Ee. cbn in Ee. destruct ttl as [s|]; [|done]. injection Ee as <-.
    unfold ttl_cap in Httl. destruct (MAX_GRANT_TTL_SECS <? s) eqn:E; [done|]. unfold u64_sat_add. lia.
Qed.

Lemma delegation_bounded_witness :
  let d := run_ops ToyMint.start (take 2 ToyMint.ops) in
  ∃ row d', delegate_grant_full ToyMint.env (ToyMint.mint "2" "y") "grant-1" "bob" "github:push:acme/app" (Some 600) None d
            = (Ok row, d') ∧ d_grants d' = d_grants d ++ [row] ∧ r_max_delegation_depth row = Some 1.
Proof.
  intros d.
  destruct (delegate_grant_full ToyMint.env (ToyMint.mint "2" "y") "grant-1" "bob" "github:push:acme/app" (Some 600) None d)
    as [[row|e] d'] eqn:E.
  - exists row, d'. split; [done|].
    destruct (delegation_bounded _ _ _ _ _ _ _ _ _ _ E) as (parent & _ & _ & _ & depth & Hp & _ & _ & Hg & _ & _ & _ & _ & _ & _ & Hd & _ & Hd' & _).
    split; [exact Hg|]. rewrite Hd'. apply (f_equal (λ r, match r with Ok r => r_max_delegation_depth r | Err _ => None end)) in Hp.
    rewrite Hd in Hp. vm_compute in Hp. by injection Hp as <-.
  - exfalso. apply (f_equal (λ o, is_ok o.1)) in E. vm_compute in E. discriminate.
Defined.

(** A mint that fails leaves nothing behind. When a creation or a delegation is refused, for whatever reason and at
    whatever step, the tables are unchanged and no lease is held for the grant that was not made. *)
Theorem failed_mint_leaves_nothing {Cr : CryptoOps} {A : AeadOps} {J : MetaJson} {SJ : SecretJson} {Id : UuidOps}
  {BJ : BlocksJson} env m d e d' :
  (∃ persona cred scope ttl budget, create_grant_with_budget env m persona cred scope ttl budget d = (Err e, d')) ∨
  (∃ pid persona scope ttl budget, delegate_grant_full env m pid persona scope ttl budget d = (Err e, d')) →
  ls_cache (d_leases d) !! grant_id_of m = None → grant_id_of m ∉ r_id <$> d_grants d →
  d_grants d' = d_grants d ∧ d_personas d' = d_personas d ∧ d_receipts d' = d_receipts d ∧
  ls_cache (d_leases d') !! grant_id_of m = None.
Proof.
  intros H Hc Hf. assert (nothing_left m d d') as [(? & ? & ?) Hl].
  { destruct H as [(? & ? & ? & ? & ? & H)|(? & ? & ? & ? & ? & H)]; [by eapply create_Err|by eapply delegate_Err]. }
  split_and!; auto.
Qed.

(** A wider scope is refused after the lease was minted. *)
Lemma failed_mint_leaves_nothing_witness :
  let d := run_ops ToyMint.start (take 2 ToyMint.ops) in
  let o := delegate_grant_full ToyMint.env (ToyMint.mint "2" "y") "grant-1" "bob" "github:push:other/*" (Some 600) None d in
  is_ok o.1 = false ∧ ls_cache (d_leases o.2) !! "grant-2" = None.
Proof.
  intros d o. assert (is_ok o.1 = false) as Hok by (vm_compute; reflexivity). split; [done|].
  destruct o as [[row|e] d'] eqn:E; [done|].
  refine (proj2 (proj2 (proj2 (failed_mint_leaves_nothing ToyMint.env (ToyMint.mint "2" "y") d e d' _ _ _)))).
  - right. exists "grant-1", "bob", "github:push:other/*", (Some 600), None. exact E.
  - vm_compute. reflexivity.
  - apply (bool_decide_unpack _). vm_compute. exact I.
Defined.

(** Metered usage adds up. After any number of calls that were metered with success, the usage stored for the statement
    is, on each axis, what it was plus the sum of the calls, capped at [u64::MAX]; micro-cents are not lost
    to rounding, and the whole cents are those of the micro-cents. *)
Theorem metered_usage_accumulates {Cr : CryptoOps} {A : AeadOps} {J : MetaJson} {SJ : SecretJson} {Id : UuidOps}
  {BJ : BlocksJson} id w calls d r u d' :
  unique_ids d → r ∈ d_grants d → r_id r = id → stmt_usage r w = Some u →
  coherent u → in_u64 (u_tokens u) → in_u64 (u_requests u) →
  Forall (λ c, in_u64 (u_tokens c.2) ∧ in_u64 (u_requests c.2) ∧ in_u64 (micro_of c.2)) calls →
  meter_all id w calls d = Some d' →
  ∃ r' u', r' ∈ d_grants d' ∧ r_id r' = id ∧ stmt_usage r' w = Some u' ∧
    u_tokens u' = Z.min (u_tokens u + sum_axis u_tokens calls.*2) u64_max ∧
    u_requests u' = Z.min (u_requests u + sum_axis u_requests calls.*2) u64_max ∧
    u_cents_micro u' = Z.min (u_cents_micro u + sum_axis micro_of calls.*2) u64_max ∧
    u_cents u' = u_cents_micro u' / 1000000.
Proof.
  intros Hu Hr Hid Hs Hc Ht Hq Hall Hm. destruct (meter_all_usage _ _ _ _ _ _ _ Hu Hr Hid Hs Hm) as (r' & Hr' & Hid' & Hs').
  destruct (foldl_bump calls u Hc Ht Hq Hall) as (H1 & H2 & H3 & H4 & _). eauto 10.
Qed.

Lemma metered_usage_accumulates_witness :
  let d := run_ops ToyMint.start (take 1 ToyMint.ops) in
  let call := (ToyMint.env, ToyMint.mint "" "z", mkUsage 40 0 1 0 0 0 300000) in
  ∃ d' r' u', meter_all "grant-1" "S0" [call; call; call; call] d = Some d' ∧
    r' ∈ d_grants d' ∧ stmt_usage r' "S0" = Some u' ∧ u_tokens u' = 160 ∧ u_cents u' = 1.
Proof.
  intros d call.
  assert (coherent Usage_default) as Hco by (split; [reflexivity|split; vm_compute; discriminate]).
  assert (in_u64 0) as Hz by (split; vm_compute; discriminate).
  assert (in_u64 (u_tokens call.2) ∧ in_u64 (u_requests call.2) ∧ in_u64 (micro_of call.2)) as Hcall
    by (split_and!; split; vm_compute; discriminate).
  assert (Forall (λ c, in_u64 (u_tokens c.2) ∧ in_u64 (u_requests c.2) ∧ in_u64 (micro_of c.2)) [call; call; call; call])
    as Hall by (repeat (constructor; [exact Hcall|]); constructor).
  assert (unique_ids d) as Hu by (apply (bool_decide_unpack _); vm_compute; exact I).
  assert (("grant-1", Some Usage_default) ∈ (λ r, (r_id r, stmt_usage r "S0")) <$> d_grants d) as Hin.
  { assert ((λ r, (r_id r, stmt_usage r "S0")) <$> d_grants d = [("grant-1", Some Usage_default)]) as ->
      by (vm_compute; reflexivity). apply list_elem_of_here. }
  apply list_elem_of_fmap in Hin as (r & [= Hid Hst] & Hr).
  destruct (meter_all "grant-1" "S0" [call; call; call; call] d) as [d'|] eqn:E.
  2: { exfalso. apply (f_equal (λ o, bool_decide (is_Some o))) in E. vm_compute in E. discriminate. }
  destruct (metered_usage_accumulates "grant-1" "S0" [call; call; call; call] d r Usage_default d')
    as (r' & u' & Hr' & _ & Hs' & Htk & _ & Hmc & Hct).
  - exact Hu.
  - exact Hr.
  - exact (eq_sym Hid).
  - exact (eq_sym Hst).
  - exact Hco.
  - exact Hz.
  - exact Hz.
  - exact Hall.
  - exact E.
  - exists d', r', u'. split; [exact eq_refl|]. split; [exact Hr'|]. split; [exact Hs'|].
    split; [rewrite Htk; vm_compute; reflexivity|]. rewrite Hct, Hmc. vm_compute. reflexivity.
Defined.

(** A delegated grant is never metered. Once a delegation has succeeded, the metering of any call made under the child
    changes nothing and reports success, so the usage that budgets are compared with stays what it was when the grant was
    delegated, however much is spent. *)
Theorem delegated_usage_unmetered {Cr : CryptoOps} {A : AeadOps} {J : MetaJson} {SJ : SecretJson} {Id : UuidOps}
  {BJ : BlocksJson} env m pid persona scope ttl budget d row d' :
  unique_ids d → delegate_grant_full env m pid persona scope ttl budget d = (Ok row, d') →
  ∀ calls : list (Env * MintEnv * ResolvedGrant * option Usage),
    Forall (λ c, rg_grant_id c.1.2 = r_id row) calls →
    foldl (λ o c, let '(r, d) := post_flight c.1.1.1 c.1.1.2 c.1.2 c.2 o.2 in (r :: o.1, d)) ([], d') calls
    = (repeat (Ok tt) (length calls), d').
Proof.
  intros Hu (parent & chain & tail & sb & depth & H)%delegate_full_Ok calls.
  assert (∃ b0 b1 bs, r_blocks_json row = Some (b0 :: b1 :: bs)) as (b0 & b1 & bs & Hb).
  { destruct H as [_ Hch _ _ _ _ _ _ -> _ _ _]. apply get_access_grant_blocks in Hch as (_ & _ & _ & Hne & _).
    cbn. destruct (g_blocks chain) as [|x [|y l]]; [done|by eexists _, _, _..]. }
  assert (∀ e, row_by_id (store_of e d') (r_id row) = Some row) as Hrow.
  { intros e. destruct H as [_ _ _ _ _ _ _ _ _ Hg Hf _]. apply row_by_id_unique; [|rewrite Hg; set_solver].
    rewrite Hg, fmap_app. apply NoDup_app. split_and!; [done| |apply NoDup_singleton].
    intros x Hx Hx'%list_elem_of_singleton. by subst x. }
  assert (∀ n l, Forall (λ c : Env * MintEnv * ResolvedGrant * option Usage, rg_grant_id c.1.2 = r_id row) l →
    foldl (λ o c, let '(r, d) := post_flight c.1.1.1 c.1.1.2 c.1.2 c.2 o.2 in (r :: o.1, d)) (repeat (Ok tt) n, d') l
    = (repeat (Ok tt) (length l + n), d')) as Hn.
  { intros n l. revert n. induction l as [|c l IH]; intros n Hl; [done|].
    apply Forall_cons in Hl as [Hc Hl]. cbn [foldl snd fst]. rewrite (post_flight_multi _ _ _ _ _ row b0 b1 bs); [|by rewrite Hc|done].
    specialize (IH (S n) Hl). rewrite Nat.add_succ_r in IH. exact IH. }
  intros Hl. specialize (Hn O calls Hl). rewrite Nat.add_0_r in Hn. exact Hn.
Qed.

Lemma delegated_usage_unmetered_witness :
  let d := run_ops ToyMint.start (take 2 ToyMint.ops) in
  ∃ row d', delegate_grant_full ToyMint.env (ToyMint.mint "2" "y") "grant-1" "bob" "github:push:acme/app" (Some 600) None d
            = (Ok row, d') ∧
    post_flight ToyMint.env (ToyMint.mint "" "z")
      (mkResolved "grant-2" "bob" "github/pat" "S0" (ToyDaemon.statement "S0" [] Any) "" None)
      (Some (mkUsage 1000000 0 1 0 0 0 0)) d' = (Ok tt, d').
Proof.
  intros d. assert (unique_ids d) as Hu by (apply (bool_decide_unpack _); vm_compute; exact I).
  destruct (delegate_grant_full ToyMint.env (ToyMint.mint "2" "y") "grant-1" "bob" "github:push:acme/app" (Some 600) None d)
    as [[row|e] d'] eqn:E.
  2: { exfalso. apply (f_equal (λ o, is_ok o.1)) in E. vm_compute in E. discriminate. }
  assert (r_id row = "grant-2") as Hid.
  { apply (f_equal (λ o, match o.1 with Ok r => r_id r | Err _ => "" end)) in E. vm_compute in E. exact (eq_sym E). }
  exists row, d'. split; [exact eq_refl|].
  set (res := mkResolved _ _ _ _ _ _ _). set (u := mkUsage _ _ _ _ _ _ _).
  assert (Forall (λ c : Env * MintEnv * ResolvedGrant * option Usage, rg_grant_id c.1.2 = r_id row)
            [(ToyMint.env, ToyMint.mint "" "z", res, Some u)]) as Hl
    by (constructor; [exact (eq_sym Hid)|constructor]).
  pose proof (delegated_usage_unmetered _ _ _ _ _ _ _ _ _ _ Hu E _ Hl) as H.
  cbn [foldl fst snd length repeat] in H. destruct (post_flight _ _ _ _ _) as [r d''].
  injection H as -> ->. exact eq_refl.
Defined.

(** A delegated grant is not narrower than its parent at the proxy. The child's chain begins with the parent's blocks, so every
    request that resolves to a statement of the parent resolves to the same statement under the child, whatever scope was
    delegated; and the child has neither the parent's hours nor its list of targets. *)
Theorem delegation_does_not_narrow {Cr : CryptoOps} {A : AeadOps} {J : MetaJson} {SJ : SecretJson} {Id : UuidOps}
  {BJ : BlocksJson} {U : UriOps} {P : PercentOps} {T : JsonText} {Mt : MethodOps}
  env env' m pid persona scope ttl budget d row d' chain ag uri method stmt :
  unique_ids d → delegate_grant_full env m pid persona scope ttl budget d = (Ok row, d') →
  get_access_grant (store_of env d) pid = Ok chain → select_statement chain uri method = Ok stmt →
  get_access_grant (store_of env' d') (r_id row) = Ok ag →
  select_statement ag uri method = Ok stmt ∧ in_hours (store_of env' d') row = true ∧ r_allowed_targets row = None.
Proof.
  intros Hu (parent & chain' & tail & sb & depth & H)%delegate_full_Ok Hch Hs Hag.
  pose proof (delegated_chain _ _ _ _ _ _ _ _ _ _ _ _ _ _ _ _ _ Hu H Hag) as Hb.
  destruct H as [_ Hch' _ _ _ _ _ _ -> _ _ _]. rewrite Hch in Hch'. injection Hch' as <-.
  split; [by eapply select_statement_app|done].
Qed.

(** Bob was given acme/app and pushes to acme/other. *)
Lemma delegation_does_not_narrow_witness :
  let Pc := ToyDaemon.percent in let T := Build_JsonText (λ _, None) in let Mt := ToyDaemon.methods in
  let uri := ToyUri.of_url "https://api.github.com/repos/acme/other" in
  let d := run_ops ToyMint.start
    [(ToyMint.env, ToyMint.mint "1" "x", OpCreate "alice" "github/pat" "github:push:acme/*" (Some 3600) None);
     (ToyMint.env, ToyMint.mint "" "x", OpShape "grant-1" (ToyMint.depth 2))] in
  ∃ row d' ag stmt,
    delegate_grant_full ToyMint.env (ToyMint.mint "2" "y") "grant-1" "bob" "github:push:acme/app" (Some 600) None d
      = (Ok row, d') ∧
    get_access_grant (store_of ToyMint.env d') "grant-2" = Ok ag ∧
    select_statement (U := ToyUri.ops) ag uri "POST" = Ok stmt.
Proof.
  intros Pc T Mt uri d. assert (unique_ids d) as Hu by (apply (bool_decide_unpack _); vm_compute; exact I).
  destruct (delegate_grant_full ToyMint.env (ToyMint.mint "2" "y") "grant-1" "bob" "github:push:acme/app" (Some 600) None d)
    as [[row|e] d'] eqn:E.
  2: { exfalso. apply (f_equal (λ o, is_ok o.1)) in E. vm_compute in E. discriminate. }
  assert (r_id row = "grant-2" ∧ is_ok (get_access_grant (store_of ToyMint.env d') "grant-2") = true) as [Hid Hag].
  { split.
    - apply (f_equal (λ o, match o.1 with Ok r => r_id r | Err _ => "" end)) in E. vm_compute in E. exact (eq_sym E).
    - apply (f_equal (λ o, is_ok (get_access_grant (store_of ToyMint.env o.2) "grant-2"))) in E.
      cbn [snd] in E. rewrite <-E. vm_compute. reflexivity. }
  apply is_ok_true in Hag as [ag Hag].
  destruct (get_access_grant (store_of ToyMint.env d) "grant-1") as [chain|e] eqn:Hch.
  2: { exfalso. apply (f_equal is_ok) in Hch. vm_compute in Hch. discriminate. }
  destruct (select_statement (U := ToyUri.ops) chain uri "POST") as [stmt|e] eqn:Hs.
  2: { exfalso. apply (f_equal (λ c, match c with Ok c => is_ok (select_statement (U := ToyUri.ops) c uri "POST") | Err _ => false end)) in Hch.
       rewrite Hs in Hch. vm_compute in Hch. discriminate. }
  exists row, d', ag, stmt. split; [exact eq_refl|]. split; [exact Hag|].
  rewrite <-Hid in Hag.
  exact (proj1 (delegation_does_not_narrow (U := ToyUri.ops) ToyMint.env ToyMint.env _ _ _ _ _ _ d row d' chain ag uri "POST" stmt Hu E Hch Hs Hag)).
Defined.

(** An extension is not bounded and does not reach the lease. The new expiry is the old one plus the seconds
    asked for, without the limit that a new grant has; the grant's lease keeps its own end, so that from then on the grant, still active,
    has no live lease. *)
Theorem extension_outlives_lease {Cr : CryptoOps} {A : AeadOps} {J : MetaJson} {SJ : SecretJson} {Id : UuidOps}
  {BJ : BlocksJson} env m id ext d row d' l e :
  unique_ids d → ls_cache (d_leases d) !! id = Some l → l_expires_at l = Some e →
  extend_grant env m id None None (Some ext) d = Some (Ok row, d') →
  (∃ r0, r0 ∈ d_grants d ∧ r_id r0 = id ∧
     r_expires_at row = Some (default (env_now env) (r_expires_at r0) + as_i64 ext)) ∧
  ∀ env', e ≤ nanos (env_now env') → has_live_lease (store_of env' d') id = false.
Proof.
  intros Hu Hl He. unfold extend_grant. destruct (result_bind _ _) as [core|]; [|done].
  destruct (duration_seconds _) as [ttl|]; [|done]. destruct (Lifecycle.extend _ _ _) as [[]|]; try done.
  unfold extend_grant_sql. destruct (get_grant (store_of env d) id) as [r0|] eqn:Hg; [|done].
  assert (r0 ∈ d_grants d ∧ r_id r0 = id) as [Hr0 Hid].
  { unfold get_grant, row_by_id in Hg. destruct (List.find _ _) as [r|] eqn:Hf; [|done]. injection Hg as ->.
    by apply find_some in Hf as [?%list_elem_of_In ?%bool_decide_eq_true]. }
  destruct (negb _); [done|]. destruct (duration_seconds ext) as [s|] eqn:Hs; [|done]. cbn [mbind option_bind].
  destruct (datetime_add _ s) as [t|] eqn:Ht; [|done].
  destruct (get_access_grant _ id) as [ch|] eqn:Hch; [|done]. destruct (1 <? _)%nat eqn:Hlen; [done|].
  apply get_access_grant_blocks in Hch as (_ & _ & _ & Hne & _).
  destruct (g_blocks ch) as [|sb [|]]; [exact (False_ind _ (Hne eq_refl))| |discriminate Hlen].
  destruct (sign_block_zero_with_live_lease_persisting_chain_secret _ _ _ _ _ _ _ _ _) as [[sb'|] st] eqn:Hsg; [|done].
  cbn [result_bind]. destruct (checked_chain [sb']) as [bs|]; [|done]. destruct (negb _); [done|].
  intros [= Hrow <-]. split.
  - exists r0. split_and!; [done|done|].
    assert (row = set_chain (extended_budget r0 None None) (Some t) bs r0) as ->.
    { rewrite (get_updated_row env (set_leases d st) id _ r0 Hu Hr0 Hid) in Hrow by reflexivity.
      injection Hrow as <-. reflexivity. }
    cbn [r_expires_at set_chain]. unfold datetime_add in Ht. destruct (_ || _) in Ht; [done|]. injection Ht as <-.
    unfold duration_seconds in Hs. destruct (_ <? _) in Hs; [done|]. by injection Hs as <-.
  - intros env' Hle. unfold store_of. cbn [has_live_lease].
    apply (cached_expired_inert _ _ _ l e); [|exact He|exact Hle].
    exact (sign_zero_warm _ (lease_store d) _ _ _ _ _ _ _ _ _ _ Hl Hsg).
Qed.

Lemma extension_outlives_lease_witness :
  let d := run_ops ToyMint.start (take 1 ToyMint.ops) in
  ∃ row d', extend_grant ToyMint.env (ToyMint.mint "" "z") "grant-1" None None (Some (2 * MAX_GRANT_TTL_SECS)) d
            = Some (Ok row, d') ∧
    (∃ r0, r0 ∈ d_grants d ∧ r_id r0 = "grant-1" ∧
       r_expires_at row = Some (default 1000 (r_expires_at r0) + as_i64 (2 * MAX_GRANT_TTL_SECS))) ∧
    has_live_lease (store_of (mkEnv 4600 db_ok None true (λ r _, Ok ("receipt-" +:+ r_id r)) []) d') "grant-1" = false.
Proof.
  intros d. assert (unique_ids d) as Hu by (apply (bool_decide_unpack _); vm_compute; exact I).
  destruct (ls_cache (d_leases d) !! "grant-1") as [l|] eqn:Hl.
  2: { exfalso. apply (f_equal (λ o, bool_decide (is_Some o))) in Hl. vm_compute in Hl. discriminate Hl. }
  assert (l_expires_at l = Some (nanos 4600)) as He.
  { apply (f_equal (λ o, o ≫= l_expires_at)) in Hl. cbn [mbind option_bind] in Hl. rewrite <-Hl.
    vm_compute. reflexivity. }
  destruct (extend_grant ToyMint.env (ToyMint.mint "" "z") "grant-1" None None (Some (2 * MAX_GRANT_TTL_SECS)) d)
    as [[[row|] d']|] eqn:E.
  2, 3: exfalso; apply (f_equal (λ o, match o with Some (Ok _, _) => true | _ => false end)) in E;
        vm_compute in E; discriminate E.
  destruct (extension_outlives_lease ToyMint.env (ToyMint.mint "" "z") "grant-1" (2 * MAX_GRANT_TTL_SECS) d row d' l
              (nanos 4600) Hu Hl He E) as [Hr Hlive].
  exists row, d'. split; [reflexivity|]. split; [exact Hr|]. apply Hlive. vm_compute. discriminate.
Defined.
