(* ===== verification/ActionPolicy.v ===== *)
(** * Actions and the approval policy

    crates/core-event-types/src/action_ref.rs: references to versioned actions, patterns over them and
    selectors. crates/core-approval/src/policy.rs: the rules that decide whether an action is
    approved silently, needs a human or is denied. crates/core-approval/src/states.rs, outcome.rs
    and crates/core-grant-types/src/approval.rs: the state machine of a request. Reading rules from a
    file is left out; a configuration is a value of [PolicyConfig]. *)

From stdpp Require Import base gmap list strings.
From Stdlib Require Import Ascii Lia ZArith.
From S2P Require Import Prelude CoreTypes Numbers Glob BranchGlob ProxyMatch.

Local Infix "+:+" := String.append (at level 60, right associativity).

(** ** Action references *)

Record ActionRef := mkActionRef { plugin_address : string; action_key : string; action_version : string }.
Record ActionRefPattern := mkPattern { pt_plugin : string; pt_key : string; pt_version : string }.

#[export] Instance ActionRef_eq_dec : EqDecision ActionRef.
Proof. solve_decision. Defined.

Definition at_byte : ascii := "@"%char.

Definition ActionRef_validate (r : ActionRef) : result unit string :=
  if str_is_empty (str_trim (plugin_address r)) then Err "plugin_address must not be empty"
  else if str_is_empty (str_trim (action_key r)) then Err "action_key must not be empty"
  else if str_is_empty (str_trim (action_version r)) then Err "action_version must not be empty"
  else Ok tt.

Definition ActionRef_parse (input : string) : result ActionRef string :=
  let expected := "expected plugin_address/action_key@action_version" in
  let? p := ok_or (rsplit_once at_byte (to_bytes input)) expected in
  let? q := ok_or (rsplit_once slash_byte p.1) expected in
  let action_ref := mkActionRef (of_bytes q.1) (of_bytes q.2) (of_bytes p.2) in
  ActionRef_validate action_ref ;?
  Ok action_ref.

Definition ActionRef_display (r : ActionRef) : string :=
  plugin_address r +:+ "/" +:+ action_key r +:+ "@" +:+ action_version r.

Definition as_pattern (r : ActionRef) : ActionRefPattern :=
  mkPattern (plugin_address r) (action_key r) (action_version r).
Definition pattern_fields (p : ActionRefPattern) : ActionRef :=
  mkActionRef (pt_plugin p) (pt_key p) (pt_version p).

Definition ActionRefPattern_validate (p : ActionRefPattern) : result unit string :=
  ActionRef_validate (pattern_fields p).
Definition ActionRefPattern_parse (input : string) : result ActionRefPattern string :=
  let? r := ActionRef_parse input in Ok (as_pattern r).
Definition ActionRefPattern_display (p : ActionRefPattern) : string := ActionRef_display (pattern_fields p).

Definition matches_component (pattern actual : string) : bool :=
  bool_decide (pattern = "*") || bool_decide (pattern = actual).

Definition pattern_matches (p : ActionRefPattern) (r : ActionRef) : bool :=
  matches_component (pt_plugin p) (plugin_address r) && matches_component (pt_key p) (action_key r)
  && matches_component (pt_version p) (action_version r).

(** *** Selectors *)

Inductive ActionSelector := Named (pattern : string) | RefPattern (p : ActionRefPattern).

Definition ActionSelector_parse (input : string) : result ActionSelector string :=
  let trimmed := str_trim input in
  if str_is_empty trimmed then Err "action selector must not be empty"
  else match ActionRefPattern_parse trimmed with
       | Ok p => Ok (RefPattern p)
       | Err _ => Ok (Named trimmed)
       end.

Definition ActionSelector_validate (s : ActionSelector) : result unit string :=
  match s with
  | Named pattern => if str_is_empty (str_trim pattern) then Err "named action pattern must not be empty" else Ok tt
  | RefPattern p => ActionRefPattern_validate p
  end.

Definition ActionSelector_display (s : ActionSelector) : string :=
  match s with Named pattern => pattern | RefPattern p => ActionRefPattern_display p end.

Definition matches_action (s : ActionSelector) (action : string) : bool :=
  match s with
  | Named pattern => glob_matches pattern action
  | RefPattern p => match ActionRef_parse action with Ok r => pattern_matches p r | Err _ => false end
  end.

Definition matches_action_ref (s : ActionSelector) (r : ActionRef) : bool :=
  match s with
  | Named pattern => glob_matches pattern (ActionRef_display r)
  | RefPattern p => pattern_matches p r
  end.

(** ** The policy *)

Inductive RiskLevel := Risk_Low | Risk_Medium | Risk_High | Risk_Critical.
Inductive ApprovalRequirement := AR_Auto | AR_Required | AR_Denied.
Inductive Tier := Tier0 | Tier1 | Tier2.

Record PolicyRule := mkRule {
  rule_action : ActionSelector;
  rule_risk : RiskLevel;
  rule_requirement : ApprovalRequirement;
  rule_tier : option Tier
}.

Definition classify_tier (r : ApprovalRequirement) : Tier :=
  match r with AR_Auto => Tier0 | AR_Required => Tier1 | AR_Denied => Tier2 end.

Record PolicyConfig := mkPolicy {
  rules : list PolicyRule;
  default_requirement : ApprovalRequirement;
  default_risk : RiskLevel
}.

Definition PolicyConfig_default : PolicyConfig := mkPolicy [] AR_Required Risk_Medium.

(** The rules of the other configuration come first, the defaults stay. *)
Definition merge (self other : PolicyConfig) : PolicyConfig :=
  mkPolicy (rules other ++ rules self) (default_requirement self) (default_risk self).

Record PolicyEvaluation := mkEvaluation {
  ev_requirement : ApprovalRequirement;
  ev_risk : RiskLevel;
  ev_matched_rule : option string;
  ev_tier : Tier
}.

Inductive ApprovalPolicyError := InvalidAction (detail : string).

(** *** Text: the parts of [str] that depend on Unicode *)

Definition is_ascii (a : ascii) : bool := (N_of_ascii a <? 128)%N.
Definition ascii_only (s : string) : bool := forallb is_ascii (to_bytes s).

(** [to_lowercase] of a text that is not all ASCII, and [char::is_alphanumeric] of a character outside
    ASCII, given by its UTF-8 bytes. *)
Class UnicodeOps := {
  unicode_lowercase : string → string;
  unicode_alphanumeric : bytes → bool
}.

Definition ascii_alphanumeric (a : ascii) : bool :=
  let n := N_of_ascii a in
  ((48 <=? n) && (n <=? 57) || (65 <=? n) && (n <=? 90) || (97 <=? n) && (n <=? 122))%N.

(** The characters of UTF-8 text: a byte that is not a continuation byte with those that follow it. *)
Definition continuation_byte (a : ascii) : bool := let n := N_of_ascii a in ((128 <=? n) && (n <? 192))%N.
Definition chars_on (l : bytes) : list bytes :=
  (foldr (λ a acc, if continuation_byte a then (a :: acc.1, acc.2) else ([], (a :: acc.1) :: acc.2))
     ([], []) l).2.

Fixpoint trim_start_dots (l : bytes) : bytes :=
  match l with a :: r => if bool_decide (a = "."%char) then trim_start_dots r else l | [] => [] end.
Definition trim_dots (l : bytes) : bytes := rev (trim_start_dots (rev (trim_start_dots l))).

Definition nonempty (l : bytes) : bool := negb (bool_decide (l = [])).

Section Policy.
Context {Un : UnicodeOps}.

Definition str_to_lowercase (s : string) : string :=
  if ascii_only s then str_to_ascii_lowercase s else unicode_lowercase s.

Definition segment_char_ok (ch : bytes) : bool :=
  match ch with
  | [a] => if is_ascii a
           then ascii_alphanumeric a || bool_decide (a = "-"%char) || bool_decide (a = "_"%char)
                || bool_decide (a = "*"%char)
           else unicode_alphanumeric ch
  | _ => unicode_alphanumeric ch
  end.

Definition segment_ok (seg : bytes) : bool := forallb segment_char_ok (chars_on seg).

Definition normalize_action (action : string) : result string ApprovalPolicyError :=
  let trimmed := str_to_lowercase (str_trim action) in
  if str_is_empty trimmed then Err (InvalidAction "empty action string")
  else
    let stripped := trim_dots (to_bytes trimmed) in
    if negb (nonempty stripped) then Err (InvalidAction "action contains only dots")
    else
      let segments := List.filter nonempty (split_on "."%char stripped) in
      if bool_decide (segments = []) then Err (InvalidAction "no valid segments")
      else
        try_for_each (λ seg, if negb (segment_ok seg)
                             then Err (InvalidAction ("invalid character in segment '" +:+ of_bytes seg +:+ "'"))
                             else Ok tt) segments ;?
        Ok (of_bytes (join_on ["."%char] segments)).

Inductive RequestedAction := RequestedNamed (action : string) | RequestedRef (r : ActionRef).

Definition matches_glob (pattern input : string) : bool :=
  if bool_decide (pattern = "*") then true
  else
    let pat_parts := str_split "."%char pattern in
    let inp_parts := str_split "."%char input in
    if negb (bool_decide (length pat_parts = length inp_parts)) then false
    else forallb (λ pi, bool_decide (pi.1 = "*") || bool_decide (pi.1 = pi.2)) (zip pat_parts inp_parts).

Definition parse_requested_action (action : string) : result RequestedAction ApprovalPolicyError :=
  let trimmed := str_trim action in
  match ActionRef_parse trimmed with
  | Ok r => Ok (RequestedRef r)
  | Err _ => let? a := normalize_action trimmed in Ok (RequestedNamed a)
  end.

Definition rule_matches_requested_action (rule : ActionSelector) (requested : RequestedAction) : bool :=
  match requested with
  | RequestedNamed action =>
      match rule with Named pattern => matches_glob pattern action | RefPattern _ => false end
  | RequestedRef r =>
      match rule with
      | Named pattern => matches_glob pattern (ActionRef_display r)
      | RefPattern p => pattern_matches p r
      end
  end.

Definition invalid_action_evaluation : PolicyEvaluation :=
  mkEvaluation AR_Denied Risk_Critical (Some "invalid action") Tier2.

Definition rule_evaluation (rule : PolicyRule) : PolicyEvaluation :=
  mkEvaluation (rule_requirement rule) (rule_risk rule) (Some (ActionSelector_display (rule_action rule)))
    (default (classify_tier (rule_requirement rule)) (rule_tier rule)).

Definition evaluate_requested_action (config : PolicyConfig) (requested : RequestedAction) : PolicyEvaluation :=
  match List.find (λ rule, rule_matches_requested_action (rule_action rule) requested) (rules config) with
  | Some rule => rule_evaluation rule
  | None => mkEvaluation (default_requirement config) (default_risk config) None
              (classify_tier (default_requirement config))
  end.

Definition evaluate (config : PolicyConfig) (action : string) : PolicyEvaluation :=
  match parse_requested_action action with
  | Ok requested => evaluate_requested_action config requested
  | Err _ => invalid_action_evaluation
  end.

Definition evaluate_action_ref (config : PolicyConfig) (r : ActionRef) : PolicyEvaluation :=
  evaluate_requested_action config (RequestedRef r).

End Policy.

Definition PolicyEngine_default : PolicyConfig :=
  mkPolicy
    [mkRule (Named "git.push.main") Risk_Critical AR_Denied None;
     mkRule (Named "git.push.*") Risk_Medium AR_Auto None;
     mkRule (Named "deploy.production") Risk_Critical AR_Required (Some Tier2);
     mkRule (Named "deploy.staging") Risk_Medium AR_Auto None;
     mkRule (Named "credential.access") Risk_High AR_Required None;
     mkRule (Named "*") Risk_Medium AR_Required None]
    AR_Required Risk_Medium.

(** ** The state machine of a request *)

Inductive ApprovalStatus := AS_Pending | AS_Approved | AS_Denied | AS_Expired | AS_NarrowedAndApproved.

#[export] Instance ApprovalStatus_eq_dec : EqDecision ApprovalStatus.
Proof. solve_decision. Defined.

Definition ApprovalStatus_display (s : ApprovalStatus) : string :=
  match s with
  | AS_Pending => "pending" | AS_Approved => "approved" | AS_Denied => "denied" | AS_Expired => "expired"
  | AS_NarrowedAndApproved => "narrowed_and_approved"
  end.

Definition can_transition_to (s target : ApprovalStatus) : bool :=
  match s, target with
  | AS_Pending, AS_Approved | AS_Pending, AS_Denied | AS_Pending, AS_Expired | AS_Pending, AS_NarrowedAndApproved => true
  | _, _ => false
  end.

Record RequestedScope := mkRequestedScope {
  rs_capability : string; rs_resource_id : option string; rs_constraints : list string }.

Inductive CoreApprovalOutcome := CO_Approved | CO_Denied | CO_Narrowed (s : RequestedScope) | CO_Always (ttl_seconds : Z).
Inductive TransitionError := AlreadyDecided | ScopeNotNarrowing.

Definition transition (state : ApprovalStatus) (outcome : CoreApprovalOutcome) : result ApprovalStatus TransitionError :=
  match state, outcome with
  | AS_Pending, CO_Approved => Ok AS_Approved
  | AS_Pending, CO_Denied => Ok AS_Denied
  | AS_Pending, CO_Narrowed _ => Ok AS_NarrowedAndApproved
  | AS_Pending, CO_Always _ => Ok AS_Approved
  | _, _ => Err AlreadyDecided
  end.

Definition ttl_elapsed (state : ApprovalStatus) : result ApprovalStatus TransitionError :=
  match state with AS_Pending => Ok AS_Expired | _ => Err AlreadyDecided end.

Record ApprovalRequest := mkApprovalRequest {
  aq_request_id : string; aq_requester_id : string; aq_requester_label : option string;
  aq_requested_scope : RequestedScope; aq_requested_duration_secs : option Z; aq_reason : option string;
  aq_created_at : Z; aq_status : ApprovalStatus; aq_resolved_at : option Z; aq_resolver_id : option string;
  aq_narrowed_scope : option RequestedScope; aq_denial_reason : option string
}.

Record ApprovalResponse := mkApprovalResponse {
  ap_request_id : string; ap_status : ApprovalStatus; ap_resolver_id : string; ap_resolved_at : Z;
  ap_narrowed_scope : option RequestedScope; ap_denial_reason : option string; ap_granted_duration_secs : option Z
}.

Definition ApprovalRequest_new (request_id requester_id : string) (requester_label : option string)
  (requested_scope : RequestedScope) (requested_duration_secs : option Z) (reason : option string) (created_at : Z)
  : ApprovalRequest :=
  mkApprovalRequest request_id requester_id requester_label requested_scope requested_duration_secs reason created_at
    AS_Pending None None None None.

Definition ApprovalRequest_resolve (r : ApprovalRequest) (response : ApprovalResponse)
  : result ApprovalRequest ValidationError :=
  if negb (can_transition_to (aq_status r) (ap_status response)) then
    Err (VE.state_violation ("cannot transition from " +:+ ApprovalStatus_display (aq_status r) +:+ " to "
                             +:+ ApprovalStatus_display (ap_status response)))
  else if negb (bool_decide (aq_request_id r = ap_request_id response)) then
    Err (VE.invalid_format "response request_id does not match request")
  else
    Ok (mkApprovalRequest (aq_request_id r) (aq_requester_id r) (aq_requester_label r) (aq_requested_scope r)
          (aq_requested_duration_secs r) (aq_reason r) (aq_created_at r) (ap_status response)
          (Some (ap_resolved_at response)) (Some (ap_resolver_id response)) (ap_narrowed_scope response)
          (ap_denial_reason response)).

(** ** Lemmas *)

Lemma rsplit_once_Some c l x y : rsplit_once c l = Some (x, y) ↔ l = x ++ c :: y ∧ c ∉ y.
Proof.
  transitivity (split_once_on c (rev l) = Some (rev y, rev x)).
  - unfold rsplit_once. destruct (split_once_on c (rev l)) as [[a b]|]; [|done]. split.
    + intros [= <- <-]. by rewrite !rev_involutive.
    + intros [= -> ->]. by rewrite !rev_involutive.
  - rewrite split_once_on_Some. split; intros [H Hn]; (split; [|by rewrite !list_elem_of_In, <-in_rev in *]).
    + apply (f_equal (@rev _)) in H. rewrite rev_involutive, rev_app_distr in H. cbn in H.
      by rewrite !rev_involutive, <-app_assoc in H.
    + subst l. rewrite rev_app_distr. cbn. by rewrite <-app_assoc.
Qed.

(** A reference is parsed back exactly when its fields keep the separators apart. *)
Lemma ActionRef_parse_Ok s r :
  ActionRef_parse s = Ok r ↔
  s = ActionRef_display r ∧ ActionRef_validate r = Ok tt ∧
  slash_byte ∉ to_bytes (action_key r) ∧ at_byte ∉ to_bytes (action_version r).
Proof.
  unfold ActionRef_parse. rewrite result_bind_Ok. setoid_rewrite result_bind_Ok.
  setoid_rewrite ok_or_Ok. setoid_rewrite seq_Ok. split.
  - intros ([l v] & Hp & [p k] & Hq & Hv & [= <-]). cbn [fst snd] in *.
    apply rsplit_once_Some in Hp as [Hs Hat], Hq as [-> Hsl]. split_and!; [|done|by cbn; rewrite to_of_bytes..].
    apply to_bytes_inj. rewrite Hs. unfold ActionRef_display. cbn.
    rewrite !to_bytes_app, !to_of_bytes. cbn. by rewrite <-app_assoc.
  - intros (-> & Hv & Hsl & Hat).
    exists (to_bytes (plugin_address r) ++ slash_byte :: to_bytes (action_key r), to_bytes (action_version r)).
    split; [apply rsplit_once_Some; split; [|done]|].
    { unfold ActionRef_display. rewrite !to_bytes_app. cbn. by rewrite <-app_assoc. }
    exists (to_bytes (plugin_address r), to_bytes (action_key r)). split; [by apply rsplit_once_Some|].
    cbn [fst snd]. rewrite !of_to_bytes. by destruct r.
Qed.

Lemma matches_glob_spec pattern input :
  matches_glob pattern input = true ↔
  pattern = "*" ∨ Forall2 (λ p i, p = "*" ∨ p = i) (str_split "."%char pattern) (str_split "."%char input).
Proof.
  unfold matches_glob. case_bool_decide as Hs; [naive_solver|].
  case_bool_decide as Hl; cbn [negb].
  - revert Hl. generalize (str_split "."%char pattern), (str_split "."%char input). clear -Hs.
    induction l as [|p ps IH]; intros [|i js] Hl; try done.
    + cbn. naive_solver.
    + cbn [zip zip_with forallb]. rewrite andb_true_iff, orb_true_iff, !bool_decide_eq_true, Forall2_cons. cbn.
      injection Hl as Hl. rewrite (IH _ Hl). naive_solver.
  - split; [done|]. intros [?|H%Forall2_length]; done.
Qed.

(** *** Normal forms of actions *)

(** The bytes of a normal form, apart from the dots. *)
Definition name_byte (a : ascii) : bool :=
  let n := N_of_ascii a in
  ((48 <=? n) && (n <=? 57) || (97 <=? n) && (n <=? 122))%N
  || bool_decide (a = "-"%char) || bool_decide (a = "_"%char) || bool_decide (a = "*"%char).

Lemma name_byte_spec a : name_byte a = true →
  is_ascii a = true ∧ ascii_lower a = a ∧ plain_byte a = true ∧ a ≠ "."%char ∧ a ≠ slash_byte ∧ a ≠ at_byte.
Proof.
  intros H. apply (bool_decide_unpack _).
  destruct a as [[] [] [] [] [] [] [] []]; vm_compute in H; try discriminate H; vm_compute; exact I.
Qed.

Lemma lower_ascii a : is_ascii a = true → is_ascii (ascii_lower a) = true.
Proof. by destruct a as [[] [] [] [] [] [] [] []]. Qed.

Lemma chars_on_ascii l : Forall (λ a, is_ascii a = true) l → chars_on l = (λ a, [a]) <$> l.
Proof.
  intros H. unfold chars_on. set (f := λ a acc, _).
  assert (∀ l, Forall (λ a, is_ascii a = true) l → foldr f ([], []) l = ([], (λ a, [a]) <$> l)) as Hf.
  { clear. induction l as [|a l IH]; [done|]. intros [Ha Hl]%Forall_cons. cbn [foldr]. rewrite (IH Hl).
    unfold f. assert (continuation_byte a = false) as ->; [|done].
    revert Ha. by destruct a as [[] [] [] [] [] [] [] []]. }
  by rewrite Hf.
Qed.

Lemma elem_of_trim_start x l : x ∈ trim_start_on l → x ∈ l.
Proof.
  assert (∀ n l, length l ≤ n → x ∈ trim_start_on l → x ∈ l) as H; [|by apply (H (length l))].
  clear l. induction n as [|n IH]; intros [|a l] Hn; cbn in Hn; try lia; try done.
  cbn. destruct (ws1 a); [intros ?; right; apply IH; [lia|done]|]. destruct l as [|b l]; [done|].
  destruct (ws2 a b); [intros ?; do 2 right; apply IH; [cbn in Hn; lia|done]|]. destruct l as [|c l]; [done|].
  destruct (ws3 a b c); [|done]. intros ?; do 3 right; apply IH; [cbn in Hn; lia|done].
Qed.

Lemma elem_of_trim_end x l : x ∈ trim_end_rev_on l → x ∈ l.
Proof.
  assert (∀ n l, length l ≤ n → x ∈ trim_end_rev_on l → x ∈ l) as H; [|by apply (H (length l))].
  clear l. induction n as [|n IH]; intros [|a l] Hn; cbn in Hn; try lia; try done.
  cbn. destruct (ws1 a); [intros ?; right; apply IH; [lia|done]|]. destruct l as [|b l]; [done|].
  destruct (ws2 b a); [intros ?; do 2 right; apply IH; [cbn in Hn; lia|done]|]. destruct l as [|c l]; [done|].
  destruct (ws3 c b a); [|done]. intros ?; do 3 right; apply IH; [cbn in Hn; lia|done].
Qed.

Lemma elem_of_rev {X} (x : X) l : x ∈ rev l ↔ x ∈ l.
Proof. by rewrite !list_elem_of_In, <-in_rev. Qed.

Lemma ascii_only_spec s : ascii_only s = true ↔ ∀ a, a ∈ to_bytes s → is_ascii a = true.
Proof. unfold ascii_only. rewrite forallb_forall. by setoid_rewrite list_elem_of_In. Qed.

Lemma ascii_only_trim s : ascii_only s = true → ascii_only (str_trim s) = true.
Proof.
  rewrite !ascii_only_spec. unfold str_trim, trim_on. intros H a. rewrite to_of_bytes, elem_of_rev.
  intros Ha%elem_of_trim_end. apply H, elem_of_trim_start. by rewrite elem_of_rev in Ha.
Qed.

Lemma elem_of_trim_start_dots x l : x ∈ trim_start_dots l → x ∈ l.
Proof. induction l as [|a l IH]; [done|]. cbn. case_bool_decide; [|done]. intros ?. right. by apply IH. Qed.

Lemma elem_of_trim_dots x l : x ∈ trim_dots l → x ∈ l.
Proof. unfold trim_dots. rewrite elem_of_rev. intros H%elem_of_trim_start_dots. rewrite elem_of_rev in H. by apply elem_of_trim_start_dots. Qed.

Definition name_segments (segs : list bytes) : Prop :=
  segs ≠ [] ∧ Forall (λ seg, seg ≠ [] ∧ Forall (λ a, name_byte a = true) seg) segs.

Lemma elem_of_join sep segs a : a ∈ join_on sep segs → a ∈ sep ∨ ∃ seg, seg ∈ segs ∧ a ∈ seg.
Proof.
  induction segs as [|s segs IH]; cbn; [set_solver|]. destruct segs as [|s' segs]; [set_solver|].
  rewrite !elem_of_app. intros [?|[?|?%IH]]; set_solver.
Qed.

Lemma nonempty_true l : nonempty l = true ↔ l ≠ [].
Proof. unfold nonempty. by rewrite negb_true_iff, bool_decide_eq_false. Qed.

Lemma filter_nonempty_id segs : Forall (λ seg, seg ≠ []) segs → List.filter nonempty segs = segs.
Proof.
  induction 1 as [|s segs Hs _ IH]; [done|]. cbn. by rewrite (proj2 (nonempty_true s) Hs), IH.
Qed.

Lemma segment_char_ok_ascii {Un : UnicodeOps} a : is_ascii a = true → segment_char_ok [a] = true →
  ascii_lower a = a → name_byte a = true.
Proof.
  intros Ha H Hl. unfold segment_char_ok in H. rewrite Ha in H. revert Hl H. clear Ha.
  destruct a as [[] [] [] [] [] [] [] []]; intros Hl H; vm_compute in Hl, H; try discriminate; reflexivity.
Qed.

Lemma lower_idem a : ascii_lower (ascii_lower a) = ascii_lower a.
Proof. by destruct a as [[] [] [] [] [] [] [] []]. Qed.

(** *** Trimming twice *)

Lemma trim_start_suffix l : ∃ k, l = k ++ trim_start_on l.
Proof.
  assert (∀ n l, (length l ≤ n)%nat → ∃ k, l = k ++ trim_start_on l) as H; [|by apply (H (length l))].
  clear l. induction n as [|n IH]; intros [|a l] Hn; cbn in Hn; try lia; try by exists [].
  cbn. destruct (ws1 a); [destruct (IH l) as [k Hk]; [lia|]; exists (a :: k); cbn; by f_equal|].
  destruct l as [|b l]; [by exists []|]. cbn in Hn.
  destruct (ws2 a b); [destruct (IH l) as [k Hk]; [lia|]; exists (a :: b :: k); cbn; by do 2 f_equal|].
  destruct l as [|c l]; [by exists []|]. cbn in Hn.
  destruct (ws3 a b c); [destruct (IH l) as [k Hk]; [lia|]; exists (a :: b :: c :: k); cbn; by do 3 f_equal|by exists []].
Qed.

Lemma trim_end_suffix l : ∃ k, l = k ++ trim_end_rev_on l.
Proof.
  assert (∀ n l, (length l ≤ n)%nat → ∃ k, l = k ++ trim_end_rev_on l) as H; [|by apply (H (length l))].
  clear l. induction n as [|n IH]; intros [|a l] Hn; cbn in Hn; try lia; try by exists [].
  cbn. destruct (ws1 a); [destruct (IH l) as [k Hk]; [lia|]; exists (a :: k); cbn; by f_equal|].
  destruct l as [|b l]; [by exists []|]. cbn in Hn.
  destruct (ws2 b a); [destruct (IH l) as [k Hk]; [lia|]; exists (a :: b :: k); cbn; by do 2 f_equal|].
  destruct l as [|c l]; [by exists []|]. cbn in Hn.
  destruct (ws3 c b a); [destruct (IH l) as [k Hk]; [lia|]; exists (a :: b :: c :: k); cbn; by do 3 f_equal|by exists []].
Qed.

Lemma suffix_shorter {B} (k l : list B) : (length l ≤ length (k ++ l))%nat.
Proof. rewrite length_app. lia. Qed.

(** A byte list that does not start with white space, and so none of its prefixes. *)
Lemma trim_start_prefix x y : trim_start_on (x ++ y) = x ++ y → trim_start_on x = x.
Proof.
  assert (∀ l m : bytes, trim_start_on l = m → (length l < length m)%nat → False) as Hs.
  { intros l m <- Hl. destruct (trim_start_suffix l) as [k Hk]. rewrite Hk in Hl at 1.
    pose proof (suffix_shorter k (trim_start_on l)). lia. }
  destruct x as [|a x]; [done|]. cbn [app trim_start_on].
  destruct (ws1 a); [intros []%Hs; cbn; lia|].
  destruct x as [|b x]; [done|]. cbn [app]. destruct (ws2 a b); [intros []%Hs; cbn; lia|].
  destruct x as [|c x]; [done|]. cbn [app]. destruct (ws3 a b c); [intros []%Hs; cbn; lia|done].
Qed.

Lemma trim_start_idem l : trim_start_on (trim_start_on l) = trim_start_on l.
Proof.
  assert (∀ n l, (length l ≤ n)%nat → trim_start_on (trim_start_on l) = trim_start_on l) as H; [|by apply (H (length l))].
  clear l. induction n as [|n IH]; intros [|a l] Hn; cbn in Hn; try lia; try done.
  cbn. destruct (ws1 a) eqn:E1; [apply IH; lia|].
  destruct l as [|b l]; [cbn; by rewrite E1|]. cbn in Hn. destruct (ws2 a b) eqn:E2; [apply IH; lia|].
  destruct l as [|c l]; [cbn; by rewrite E1, E2|]. cbn in Hn. destruct (ws3 a b c) eqn:E3; [apply IH; lia|].
  cbn. by rewrite E1, E2, E3.
Qed.

Lemma trim_end_idem l : trim_end_rev_on (trim_end_rev_on l) = trim_end_rev_on l.
Proof.
  assert (∀ n l, (length l ≤ n)%nat → trim_end_rev_on (trim_end_rev_on l) = trim_end_rev_on l) as H; [|by apply (H (length l))].
  clear l. induction n as [|n IH]; intros [|a l] Hn; cbn in Hn; try lia; try done.
  cbn. destruct (ws1 a) eqn:E1; [apply IH; lia|].
  destruct l as [|b l]; [cbn; by rewrite E1|]. cbn in Hn. destruct (ws2 b a) eqn:E2; [apply IH; lia|].
  destruct l as [|c l]; [cbn; by rewrite E1, E2|]. cbn in Hn. destruct (ws3 c b a) eqn:E3; [apply IH; lia|].
  cbn. by rewrite E1, E2, E3.
Qed.

Lemma str_trim_idem s : str_trim (str_trim s) = str_trim s.
Proof.
  unfold str_trim. rewrite to_of_bytes. f_equal. unfold trim_on. set (x := trim_start_on (to_bytes s)).
  assert (trim_start_on (rev (trim_end_rev_on (rev x))) = rev (trim_end_rev_on (rev x))) as ->.
  { destruct (trim_end_suffix (rev x)) as [k Hk]. apply (f_equal (@rev _)) in Hk. rewrite rev_involutive, rev_app_distr in Hk.
    apply (trim_start_prefix _ (rev k)). rewrite <-Hk. apply trim_start_idem. }
  by rewrite rev_involutive, trim_end_idem.
Qed.

Lemma normalize_segments {Un : UnicodeOps} s t :
  ascii_only s = true → normalize_action s = Ok t →
  let segs := List.filter nonempty (split_on "."%char (trim_dots (ascii_lower <$> to_bytes (str_trim s)))) in
  name_segments segs ∧ t = of_bytes (join_on ["."%char] segs).
Proof.
  intros Ha%ascii_only_trim. unfold normalize_action, str_to_lowercase. rewrite Ha. unfold str_to_ascii_lowercase. rewrite to_of_bytes.
  destruct (str_is_empty _); [done|]. set (u := trim_dots _). destruct (negb (nonempty u)); [done|].
  case_bool_decide as Hne; [done|]. intros [Hall [= <-]]%seq_Ok. split; [|reflexivity].
  split; [done|]. apply Forall_forall. intros seg Hseg.
  assert (seg ≠ [] ∧ seg ∈ split_on "."%char u) as [Hnn Hin].
  { apply list_elem_of_In, filter_In in Hseg as [Hin Hn]. by rewrite nonempty_true, <-list_elem_of_In in *. }
  split; [done|]. rewrite try_for_each_Ok in Hall. pose proof (proj1 (Forall_forall _ _) Hall _ Hseg) as Hok.
  cbn in Hok. destruct (segment_ok seg) eqn:Hs; [|done].
  assert (∀ a, a ∈ seg → is_ascii a = true ∧ ascii_lower a = a) as Hb.
  { intros a Has. assert (a ∈ u) as Hau.
    { rewrite <-(join_split_on "."%char u). revert Hin Has. generalize (split_on "."%char u). clear.
      induction l as [|x l IH]; [by intros ?%elem_of_nil|]. intros [<-|Hin]%elem_of_cons Has.
      - destruct l; cbn; set_solver.
      - destruct l as [|y l]; [by apply elem_of_nil in Hin|]. cbn [join_on]. rewrite !elem_of_app. right; right.
        by apply IH. }
    apply elem_of_trim_dots in Hau.
    apply list_elem_of_fmap in Hau as (b & -> & Hb'). rewrite ascii_only_spec in Ha.
    split; [by apply lower_ascii, Ha|apply lower_idem]. }
  unfold segment_ok in Hs. rewrite chars_on_ascii in Hs by (apply Forall_forall; naive_solver).
  apply Forall_forall. intros a Has. destruct (Hb a Has) as [Hi Hl]. apply segment_char_ok_ascii; try done.
  rewrite forallb_forall in Hs. apply Hs, list_elem_of_In, list_elem_of_fmap. by exists a.
Qed.

(** *** Spellings *)

(** A spelling of the names [segs]: each in letters of either case, dots between them, and any number of further dots between
    them and at both ends. *)
Inductive spells : list bytes → bytes → Prop :=
| spells_last seg x n m :
    ascii_lower <$> x = seg → spells [seg] (replicate n "."%char ++ x ++ replicate m "."%char)
| spells_cons seg segs x n l :
    ascii_lower <$> x = seg → spells segs l → spells (seg :: segs) (replicate n "."%char ++ x ++ "."%char :: l).

(** White space of ASCII may stand around it. *)
Definition spelling (segs : list bytes) (s : string) : Prop :=
  ∃ w l w', to_bytes s = w ++ l ++ w' ∧ Forall (λ a, ws1 a = true) w ∧ Forall (λ a, ws1 a = true) w' ∧ spells segs l.

(** The names in a text, in order. *)
Definition chunks (l : bytes) : list bytes := List.filter nonempty (split_on "."%char l).

Lemma chunks_dots n l : chunks (replicate n "."%char ++ l) = chunks l.
Proof. induction n as [|n IH]; [done|]. unfold chunks in *. cbn. exact IH. Qed.

Lemma chunks_name x l : x ≠ [] → "."%char ∉ x → chunks (x ++ "."%char :: l) = x :: chunks l.
Proof. intros Hx Hd. unfold chunks. rewrite split_on_app by done. cbn. by rewrite (proj2 (nonempty_true x) Hx). Qed.

Lemma chunks_end x m : x ≠ [] → "."%char ∉ x → chunks (x ++ replicate m "."%char) = [x].
Proof.
  intros Hx Hd. destruct m as [|m]; cbn.
  - rewrite app_nil_r. unfold chunks. rewrite split_on_no_sep_id by done. cbn. by rewrite (proj2 (nonempty_true x) Hx).
  - rewrite chunks_name by done. f_equal. rewrite <-(app_nil_r (replicate m _)). apply chunks_dots.
Qed.

Lemma chunks_snoc l : chunks (l ++ ["."%char]) = chunks l.
Proof.
  unfold chunks. assert (split_on "."%char (l ++ ["."%char]) = split_on "."%char l ++ [[]]) as ->.
  { induction l as [|a l IH]; cbn; [done|]. rewrite IH. case_bool_decide; [done|]. pose proof (split_on_nonempty "."%char l). by destruct (split_on _ l). }
  rewrite List.filter_app. cbn. apply app_nil_r.
Qed.

Lemma chunks_trim_start l : chunks (trim_start_dots l) = chunks l.
Proof.
  induction l as [|a l IH]; [done|]. cbn [trim_start_dots]. case_bool_decide as Ha; [|done]. rewrite IH. subst. symmetry. apply (chunks_dots 1).
Qed.

Lemma chunks_trim l : chunks (trim_dots l) = chunks l.
Proof.
  unfold trim_dots. rewrite <-(chunks_trim_start l). generalize (trim_start_dots l). clear l.
  induction l as [|a l IH] using rev_ind; [done|]. rewrite rev_app_distr. cbn [rev app trim_start_dots]. case_bool_decide as Ha.
  - subst. by rewrite IH, chunks_snoc.
  - cbn [rev]. by rewrite rev_involutive.
Qed.

Lemma name_no_dot seg : Forall (λ a, name_byte a = true) seg → "."%char ∉ seg.
Proof. intros H Hd. rewrite Forall_forall in H. by apply H, name_byte_spec in Hd as (_ & _ & _ & ? & _). Qed.

Lemma spells_chunks segs l : name_segments segs → spells segs l → chunks (ascii_lower <$> l) = segs.
Proof.
  intros [_ Hs] Hl. revert Hs. induction Hl as [seg x n m <-|seg segs x n l <- _ IH]; intros [[Hne Hb] Hs]%Forall_cons.
  - rewrite !fmap_app, !fmap_replicate. cbn. rewrite chunks_dots. apply chunks_end; [done|by apply name_no_dot].
  - rewrite !fmap_app, fmap_cons, fmap_replicate. cbn. rewrite chunks_dots, chunks_name by (done || by apply name_no_dot). f_equal. by apply IH.
Qed.

Lemma upper_name_byte a : name_byte (ascii_lower a) = true → is_ascii a = true ∧ plain_byte a = true ∧ a ≠ at_byte.
Proof.
  intros H. apply (bool_decide_unpack _).
  destruct a as [[] [] [] [] [] [] [] []]; vm_compute in H; try discriminate H; vm_compute; exact I.
Qed.

Lemma spells_bytes segs l : name_segments segs → spells segs l →
  l ≠ [] ∧ Forall (λ a, is_ascii a = true ∧ plain_byte a = true ∧ a ≠ at_byte) l.
Proof.
  intros [_ Hs] Hl. revert Hs. assert (∀ n, Forall (λ a, is_ascii a = true ∧ plain_byte a = true ∧ a ≠ at_byte) (replicate n "."%char)) as Hd.
  { intros n. by apply Forall_replicate. }
  assert (∀ x, Forall (λ a, name_byte a = true) (ascii_lower <$> x) → Forall (λ a, is_ascii a = true ∧ plain_byte a = true ∧ a ≠ at_byte) x) as Hx.
  { intros x H. apply Forall_fmap in H. eapply Forall_impl; [exact H|]. intros a. apply upper_name_byte. }
  induction Hl as [seg x n m <-|seg segs x n l <- _ IH]; intros [[Hne Hb] Hs]%Forall_cons; (split; [destruct n, x; done|]).
  - repeat (apply Forall_app; split); auto.
  - repeat (apply Forall_app; split); auto. constructor; [done|]. by apply IH.
Qed.

Lemma trim_around w l w' :
  Forall (λ a, ws1 a = true) w → Forall (λ a, ws1 a = true) w' → l ≠ [] → Forall (λ a, plain_byte a = true) l → trim_on (w ++ l ++ w') = l.
Proof.
  intros Hw Hw' Hne Hl. unfold trim_on. assert (trim_start_on (w ++ l ++ w') = l ++ w') as ->.
  { induction Hw as [|a w Ha _ IH]; cbn [app]; [|cbn; by rewrite Ha]. destruct l as [|a l]; [done|]. apply Forall_cons in Hl as [Ha _]. cbn [app]. by apply trim_start_plain. }
  assert (∀ r z, plain_byte z = true → trim_end_rev_on (rev w' ++ z :: r) = z :: r) as He.
  { intros r z Hz. assert (Forall (λ a, ws1 a = true) (rev w')) as H by by apply List.Forall_rev.
    induction H as [|a v Ha _ IH]; cbn [app]; [by apply trim_end_plain|]. cbn. by rewrite Ha. }
  destruct l as [|z r] using rev_ind; [done|]. apply Forall_app in Hl as [_ [Hz _]%Forall_cons].
  rewrite !rev_app_distr. cbn [rev app]. rewrite He by done. cbn. by rewrite rev_involutive.
Qed.

Lemma names_segment_ok {Un : UnicodeOps} seg : Forall (λ a, name_byte a = true) seg → segment_ok seg = true.
Proof.
  intros Hseg. unfold segment_ok.
  rewrite chars_on_ascii by (eapply Forall_impl; [exact Hseg|]; intros ? Hx%name_byte_spec; naive_solver).
  apply forallb_forall. intros ch (a & -> & Ha)%list_elem_of_In%list_elem_of_fmap.
  rewrite Forall_forall in Hseg. specialize (Hseg _ Ha). clear -Hseg.
  destruct a as [[] [] [] [] [] [] [] []]; vm_compute in Hseg; try discriminate Hseg; reflexivity.
Qed.

(** A spelling is read as the names it spells. *)
Lemma parse_spelling {Un : UnicodeOps} segs s :
  name_segments segs → spelling segs s → parse_requested_action s = Ok (RequestedNamed (of_bytes (join_on ["."%char] segs))).
Proof.
  intros Hs (w & l & w' & E & Hw & Hw' & Hl). destruct (spells_bytes _ _ Hs Hl) as [Hne Hb]. pose proof (spells_chunks _ _ Hs Hl) as Hc.
  assert (Forall (λ a, plain_byte a = true) l) as Hp by (eapply Forall_impl; [exact Hb|naive_solver]).
  assert (∀ x, x = l → trim_on x = l) as Ht by (intros x ->; rewrite <-(app_nil_r l) at 1; by apply (trim_around [])).
  unfold parse_requested_action. assert (str_trim s = of_bytes l) as -> by (unfold str_trim; by rewrite E, trim_around).
  destruct (ActionRef_parse (of_bytes l)) as [r|] eqn:Er.
  { exfalso. apply ActionRef_parse_Ok in Er as (Er & _). apply (f_equal to_bytes) in Er. rewrite to_of_bytes in Er.
    assert (at_byte ∈ l) as Hat by (rewrite Er; unfold ActionRef_display; rewrite !to_bytes_app; set_solver).
    rewrite Forall_forall in Hb. by apply Hb in Hat as (_ & _ & ?). }
  unfold normalize_action. assert (str_trim (of_bytes l) = of_bytes l) as -> by (unfold str_trim; by rewrite Ht by apply to_of_bytes).
  assert (str_to_lowercase (of_bytes l) = of_bytes (ascii_lower <$> l)) as ->.
  { unfold str_to_lowercase. assert (ascii_only (of_bytes l) = true) as ->.
    - apply ascii_only_spec. rewrite to_of_bytes. rewrite Forall_forall in Hb. naive_solver.
    - unfold str_to_ascii_lowercase. by rewrite to_of_bytes. }
  unfold str_is_empty. rewrite bool_decide_false.
  2: { intros H%(f_equal to_bytes). rewrite to_of_bytes in H. by destruct l. }
  rewrite to_of_bytes. fold (chunks (trim_dots (ascii_lower <$> l))). rewrite chunks_trim, Hc. destruct Hs as [Hse Hall].
  assert (nonempty (trim_dots (ascii_lower <$> l)) = true) as ->.
  { apply nonempty_true. intros H. rewrite <-(chunks_trim (ascii_lower <$> l)), H in Hc. by destruct Hse. }
  cbn [negb]. rewrite bool_decide_false by done.
  assert (try_for_each (λ seg, if negb (segment_ok seg) then Err (InvalidAction ("invalid character in segment '" +:+ of_bytes seg +:+ "'")) else Ok tt)
    segs = Ok tt) as ->; [|done].
  apply try_for_each_Ok. eapply Forall_impl; [exact Hall|]. intros seg [_ Hseg]. cbn. by rewrite names_segment_ok.
Qed.

Lemma parse_names {Un : UnicodeOps} s t :
  ascii_only s = true → parse_requested_action s = Ok (RequestedNamed t) →
  ∃ segs, name_segments segs ∧ t = of_bytes (join_on ["."%char] segs).
Proof.
  unfold parse_requested_action. intros Ha%ascii_only_trim. destruct (ActionRef_parse _); [done|].
  rewrite result_bind_Ok. intros (x & Hn & [= ->]). destruct (normalize_segments _ _ Ha Hn). eauto.
Qed.

(** Conversely an ASCII text with names in it spells them. *)
Lemma leading_dots l : ∃ n r, l = replicate n "."%char ++ r ∧ head r ≠ Some "."%char.
Proof.
  induction l as [|a l (n & r & -> & Hr)]; [by exists 0, []|]. destruct (decide (a = "."%char)) as [->|Ha].
  - by exists (S n), r.
  - exists 0, (a :: replicate n "."%char ++ r). cbn. split; [done|congruence].
Qed.

Lemma leading_name l : ∃ x r, l = x ++ r ∧ "."%char ∉ x ∧ (r = [] ∨ ∃ r', r = "."%char :: r').
Proof.
  induction l as [|a l (x & r & -> & Hx & Hr)]; [exists [], []; set_solver|]. destruct (decide (a = "."%char)) as [->|Ha].
  - exists [], ("."%char :: x ++ r). split; [done|]. split; [set_solver|]. right. eauto.
  - exists (a :: x), r. split; [done|]. split; [set_solver|done].
Qed.

Lemma lower_dot a : ascii_lower a = "."%char → a = "."%char.
Proof. destruct a as [[] [] [] [] [] [] [] []]; vm_compute; congruence. Qed.

Lemma lower_no_dot (x : bytes) : "."%char ∉ x → "."%char ∉ ascii_lower <$> x.
Proof. intros H (a & Ha & Hin)%list_elem_of_fmap. symmetry in Ha. apply lower_dot in Ha as ->. done. Qed.

Lemma lower_chunks_split n x r :
  "."%char ∉ x → x ≠ [] → chunks (ascii_lower <$> replicate n "."%char ++ x ++ "."%char :: r) = (ascii_lower <$> x) :: chunks (ascii_lower <$> r).
Proof.
  intros Hx Hne. rewrite !fmap_app, fmap_cons, fmap_replicate. cbn [ascii_lower]. change (ascii_lower ".") with "."%char.
  rewrite chunks_dots, chunks_name; [done|by destruct x|by apply lower_no_dot].
Qed.

Lemma chunks_spells l : chunks (ascii_lower <$> l) = [] ∧ (∃ m, l = replicate m "."%char) ∨ spells (chunks (ascii_lower <$> l)) l.
Proof.
  induction l as [l IH] using (induction_ltof1 _ length). unfold ltof in IH.
  destruct (leading_dots l) as (n & r & -> & Hr). destruct (leading_name r) as (x & r' & -> & Hx & Hr').
  destruct x as [|a x].
  - left. destruct Hr' as [->|(r & ->)]; [|done]. rewrite app_nil_r, fmap_replicate. change (ascii_lower ".") with "."%char.
    split; [|by exists n]. rewrite <-(app_nil_r (replicate n _)). apply chunks_dots.
  - right. destruct Hr' as [->|(r & ->)].
    + rewrite app_nil_r, fmap_app, fmap_replicate. change (ascii_lower ".") with "."%char. rewrite chunks_dots.
      assert (chunks (ascii_lower <$> a :: x) = [ascii_lower <$> a :: x]) as ->.
      { pose proof (chunks_end (ascii_lower <$> a :: x) 0) as Hc. rewrite app_nil_r in Hc. apply Hc; [done|by apply lower_no_dot]. }
      pose proof (spells_last (ascii_lower <$> a :: x) (a :: x) n 0 eq_refl) as H. by rewrite app_nil_r in H.
    + rewrite lower_chunks_split by done. destruct (IH r) as [[-> (m & ->)]|H]; [rewrite !length_app; cbn; lia| |].
      * by apply (spells_last _ (a :: x) n (S m)).
      * by apply spells_cons.
Qed.

Lemma ascii_ws a b c : is_ascii a = true → ws2 a b = false ∧ ws3 a b c = false.
Proof. destruct a as [[] [] [] [] [] [] [] []]; intros H; vm_compute in H; try discriminate H; done. Qed.

Lemma trim_start_ascii l : Forall (λ a, is_ascii a = true) l → ∃ w, l = w ++ trim_start_on l ∧ Forall (λ a, ws1 a = true) w.
Proof.
  induction 1 as [|a l Ha Hl (w & E & Hw)]; [by exists []|]. cbn. destruct (ws1 a) eqn:Ew.
  - exists (a :: w). cbn. rewrite <-E. split; [done|by constructor].
  - exists []. split; [|constructor]. destruct l as [|b [|c l]]; [done| |]; rewrite ?(proj1 (ascii_ws a b b Ha)); [done|].
    by rewrite (proj2 (ascii_ws a b c Ha)).
Qed.

Lemma trim_end_ascii l : Forall (λ a, is_ascii a = true) l → ∃ w, l = w ++ trim_end_rev_on l ∧ Forall (λ a, ws1 a = true) w.
Proof.
  induction 1 as [|a l Ha Hl (w & E & Hw)]; [by exists []|]. cbn. destruct (ws1 a) eqn:Ew.
  - exists (a :: w). cbn. rewrite <-E. split; [done|by constructor].
  - exists []. split; [|constructor]. destruct l as [|b [|c l]]; [done| |]; rewrite !Forall_cons in Hl; destruct_and!.
    + by rewrite (proj1 (ascii_ws b a a ltac:(done))).
    + by rewrite (proj1 (ascii_ws b a a ltac:(done))), (proj2 (ascii_ws c b a ltac:(done))).
Qed.

Lemma trim_on_ascii l : Forall (λ a, is_ascii a = true) l →
  ∃ w w', l = w ++ trim_on l ++ w' ∧ Forall (λ a, ws1 a = true) w ∧ Forall (λ a, ws1 a = true) w'.
Proof.
  intros Hl. destruct (trim_start_ascii l Hl) as (w & E & Hw). unfold trim_on.
  destruct (trim_end_ascii (rev (trim_start_on l))) as (v & Ev & Hv).
  { apply List.Forall_rev. rewrite E in Hl. by apply Forall_app in Hl as [_ ?]. }
  exists w, (rev v). split; [|split; [done|by apply List.Forall_rev]].
  rewrite <-rev_app_distr, <-Ev, rev_involutive. done.
Qed.

Lemma parse_only_spellings {Un : UnicodeOps} s t :
  ascii_only s = true → parse_requested_action s = Ok (RequestedNamed t) → ∃ segs, name_segments segs ∧ spelling segs s.
Proof.
  intros Ha. unfold parse_requested_action. destruct (ActionRef_parse _); [done|]. rewrite result_bind_Ok. intros (x & Hn & _).
  assert (Forall (λ a, is_ascii a = true) (to_bytes s)) as Hb by (apply Forall_forall; by apply ascii_only_spec).
  destruct (trim_on_ascii _ Hb) as (w & w' & E & Hw & Hw').
  destruct (normalize_segments _ _ (ascii_only_trim _ Ha) Hn) as [Hs _]. fold (chunks (trim_dots (ascii_lower <$> to_bytes (str_trim (str_trim s))))) in Hs.
  rewrite chunks_trim, str_trim_idem in Hs. unfold str_trim in Hs. rewrite to_of_bytes in Hs. eexists. split; [exact Hs|].
  exists w, (trim_on (to_bytes s)), w'. split_and!; [done..|].
  destruct (chunks_spells (trim_on (to_bytes s))) as [[Hc _]|Hsp]; [|done]. by destruct Hs.
Qed.

(** What a rule says of an action with these names: its pattern is the star, or has as many parts, each a star or the name in its
    place. *)
Definition rule_covers (segs : list bytes) (rule : PolicyRule) : Prop :=
  ∃ pattern, rule_action rule = Named pattern ∧
    (pattern = "*" ∨ Forall2 (λ p seg, p = "*" ∨ p = of_bytes seg) (str_split "."%char pattern) segs).

Lemma rule_covers_spec segs rule :
  name_segments segs →
  rule_matches_requested_action (rule_action rule) (RequestedNamed (of_bytes (join_on ["."%char] segs))) = true ↔ rule_covers segs rule.
Proof.
  intros [Hne Hs]. unfold rule_covers, rule_matches_requested_action. destruct (rule_action rule) as [pattern|]; [|naive_solver].
  rewrite matches_glob_spec. unfold str_split at 2. rewrite to_of_bytes, split_join_on, Forall2_fmap_r; [naive_solver|done|].
  eapply Forall_impl; [exact Hs|]. intros seg [_ ?]. by apply name_no_dot.
Qed.

(** ** Properties *)

(** A reference and its text determine each other. What the parser accepts is exactly the text of a reference whose
    fields are not blank, with no slash in the key and no at sign in the version; so parsing after printing
    gives the reference back, and two texts of the same reference are equal. *)
Theorem action_ref_roundtrip s r :
  ActionRef_parse s = Ok r ↔
  s = ActionRef_display r ∧ ActionRef_validate r = Ok tt ∧
  slash_byte ∉ to_bytes (action_key r) ∧ at_byte ∉ to_bytes (action_version r).
Proof. apply ActionRef_parse_Ok. Qed.

(** C37. The spelling of an action does not change the decision, and the first rule that covers it makes it. Take one or more names of
    lower-case ASCII letters, digits, dashes, underscores and stars. However an action is written with them, in letters of either case,
    with one or more dots between the names and any number at both ends, and ASCII white space around it, every policy evaluates it to
    its first rule for named actions whose pattern is a lone star or has as many parts between dots, each the star or, letter by letter,
    the name in its place; if there is none, to the policy's default. Any other ASCII text is evaluated as the reference to an action
    that it is without the white space around it, and if it is none, it is denied as invalid. *)
Theorem policy_spelling_invariant {Un : UnicodeOps} s config :
  (∀ segs, name_segments segs → spelling segs s →
     (∀ before rule after, rules config = before ++ rule :: after → Forall (λ r, ¬ rule_covers segs r) before → rule_covers segs rule →
        evaluate config s =
          mkEvaluation (rule_requirement rule) (rule_risk rule) (Some (ActionSelector_display (rule_action rule)))
            (default (classify_tier (rule_requirement rule)) (rule_tier rule))) ∧
     (Forall (λ r, ¬ rule_covers segs r) (rules config) →
        evaluate config s =
          mkEvaluation (default_requirement config) (default_risk config) None (classify_tier (default_requirement config)))) ∧
  (ascii_only s = true → (∀ segs, name_segments segs → ¬ spelling segs s) →
     evaluate config s = match ActionRef_parse (str_trim s) with
                         | Ok r => evaluate_action_ref config r
                         | Err _ => mkEvaluation AR_Denied Risk_Critical (Some "invalid action") Tier2
                         end).
Proof.
  split.
  - intros segs Hs Hsp. unfold evaluate. rewrite (parse_spelling segs s Hs Hsp). unfold evaluate_requested_action.
    set (f := λ rule, rule_matches_requested_action _ _). assert (∀ r, f r = true ↔ rule_covers segs r) as Hf by (intros r; by apply rule_covers_spec).
    assert (∀ r, ¬ rule_covers segs r → f r = false) as Hn by (intros r Hr; apply not_true_iff_false; by rewrite Hf). clearbody f. split.
    + intros before rule after -> Hb Hr. assert (List.find f (before ++ rule :: after) = Some rule) as ->; [|done].
      induction Hb as [|r before Hr' _ IH]; cbn; [by rewrite (proj2 (Hf rule) Hr)|by rewrite Hn].
    + intros Hb. assert (List.find f (rules config) = None) as ->; [|done]. induction Hb as [|r l Hr' _ IH]; cbn; [done|by rewrite Hn].
  - intros Ha Hno. unfold evaluate. pose proof (parse_only_spellings s) as Hp. unfold parse_requested_action in *.
    destruct (ActionRef_parse (str_trim s)); [done|]. destruct (normalize_action (str_trim s)) as [t|]; [|done].
    destruct (Hp t Ha eq_refl) as (segs & Hs & Hsp). by destruct (Hno segs Hs).
Qed.

(** A merged policy decides by the project's rules first. Where a rule of the project applies its evaluation is the result;
    where none does, the result is that of the user's policy, its default included; so a project can
    neither change the default nor the decision on what its rules do not mention. *)
Theorem policy_merge_exact {Un : UnicodeOps} user project action :
  let applies rule := match parse_requested_action action with
                      | Ok a => rule_matches_requested_action (rule_action rule) a
                      | Err _ => false
                      end in
  ((∃ rule, rule ∈ rules project ∧ applies rule = true) → evaluate (merge user project) action = evaluate project action) ∧
  ((∀ rule, rule ∈ rules project → applies rule = false) → evaluate (merge user project) action = evaluate user action).
Proof.
  unfold evaluate. destruct (parse_requested_action action) as [a|]; [|done].
  unfold evaluate_requested_action, merge. cbn [rules default_requirement default_risk].
  induction (rules project) as [|r rs IH]; cbn [app List.find].
  - split; [intros (? & ?%elem_of_nil & _); done|done].
  - destruct (rule_matches_requested_action (rule_action r) a) eqn:E.
    + split; [done|]. intros H. specialize (H r (list_elem_of_here _ _)). congruence.
    + destruct IH as [IH1 IH2]. split.
      * intros (rule & [->|Hr]%elem_of_cons & Hm); [congruence|]. apply IH1. by exists rule.
      * intros H. apply IH2. intros rule Hr. apply H. by right.
Qed.

(** A rule with a capital letter is dead. The pattern of a rule is compared as it was written with the lower-case form of the
    action, so a rule for a named action whose pattern has an upper-case ASCII letter applies to no
    action of plain ASCII that is not a reference, whatever its spelling: a denial written that way denies nothing. *)
Theorem uppercase_rule_inert {Un : UnicodeOps} pattern c s t :
  c ∈ to_bytes pattern → ascii_lower c ≠ c →
  ascii_only s = true → parse_requested_action s = Ok (RequestedNamed t) →
  rule_matches_requested_action (Named pattern) (RequestedNamed t) = false.
Proof.
  intros Hc Hup Ha Hp. destruct (parse_names s t Ha Hp) as (segs & Hs & Ht). cbn.
  apply not_true_iff_false. intros [->|HF]%matches_glob_spec.
  { apply list_elem_of_singleton in Hc as ->. done. }
  assert (∃ seg, seg ∈ split_on "."%char (to_bytes pattern) ∧ c ∈ seg) as (seg & Hseg & Hcs).
  { rewrite <-(join_split_on "."%char) in Hc. apply elem_of_join in Hc as [Hd%list_elem_of_singleton|?]; [|done].
    by subst c. }
  unfold str_split in HF. apply list_elem_of_lookup in Hseg as [i Hi].
  destruct (Forall2_lookup_l _ _ _ i (of_bytes seg) HF) as (y & Hy & Hpi).
  { by rewrite list_lookup_fmap, Hi. }
  destruct Hpi as [E|<-].
  { apply (f_equal to_bytes) in E. rewrite to_of_bytes in E. subst seg. apply list_elem_of_singleton in Hcs as ->. done. }
  rewrite Ht, to_of_bytes, split_join_on in Hy; [|by destruct Hs| ].
  2: { destruct Hs as [_ Hall]. eapply Forall_impl; [exact Hall|]. intros g [_ Hg] Hd. rewrite Forall_forall in Hg.
       by apply Hg, name_byte_spec in Hd as (_ & _ & _ & ? & _). }
  rewrite list_lookup_fmap in Hy. destruct (segs !! i) as [g|] eqn:Hg; [|done]. cbn in Hy.
  injection Hy as Hy%of_bytes_inj. subst g.
  destruct Hs as [_ Hall]. rewrite Forall_forall in Hall. destruct (Hall seg) as [_ Hb]; [by eapply list_elem_of_lookup_2|].
  rewrite Forall_forall in Hb. by apply Hb, name_byte_spec in Hcs as (_ & ? & _).
Qed.

(** The two descriptions of the state machine agree, and a request is decided once. The transitions allowed between stored
    statuses are exactly those some decision or the expiry makes; a resolved request accepts no further response. *)
Theorem approval_decided_once :
  (∀ s s', can_transition_to s s' = true ↔ (∃ o, transition s o = Ok s') ∨ ttl_elapsed s = Ok s') ∧
  (∀ r resp r', ApprovalRequest_resolve r resp = Ok r' →
     aq_status r = AS_Pending ∧ aq_status r' = ap_status resp ∧ aq_requested_scope r' = aq_requested_scope r ∧
     ∀ resp', is_ok (ApprovalRequest_resolve r' resp') = false).
Proof.
  split.
  - intros s s'. split.
    + destruct s, s'; try done; intros _; [left; by exists CO_Approved|left; by exists CO_Denied|by right|].
      left. by exists (CO_Narrowed (mkRequestedScope "" None [])).
    + intros [[o Ho]|Ht]; [by destruct s, o; try done; injection Ho as <-|by destruct s; try done; injection Ht as <-].
  - intros r resp r'. unfold ApprovalRequest_resolve. destruct (can_transition_to _ _) eqn:E; [|done].
    cbn [negb]. destruct (negb _); [done|]. intros [= <-]. cbn [aq_status aq_requested_scope].
    destruct (aq_status r); try done. split_and!; try done. intros resp'. by destruct (ap_status resp), (ap_status resp').
Qed.

(** ** Witnesses *)

(** Text of ASCII only. *)
#[local] Instance plain_text : UnicodeOps := {| unicode_lowercase s := s; unicode_alphanumeric _ := false |}.

(** The first rule of the default policy denies a push to main in any spelling. *)
Lemma policy_spelling_invariant_witness :
  evaluate PolicyEngine_default " .Git..PUSH.Main. " = mkEvaluation AR_Denied Risk_Critical (Some "git.push.main") (classify_tier AR_Denied).
Proof.
  refine (proj1 (proj1 (policy_spelling_invariant " .Git..PUSH.Main. " PolicyEngine_default) (to_bytes <$> ["git"; "push"; "main"]) _ _)
    [] (mkRule (Named "git.push.main") Risk_Critical AR_Denied None) _ eq_refl (Forall_nil_2 _) _).
  - split; [discriminate|]. repeat (apply Forall_cons; split; [split; [discriminate|]; cbn; repeat (apply Forall_cons; split; [reflexivity|]); apply Forall_nil_2|]).
    apply Forall_nil_2.
  - exists [" "%char], (to_bytes ".Git..PUSH.Main."), [" "%char]. split; [reflexivity|]. split; [by constructor|]. split; [by constructor|].
    apply (spells_cons _ _ (to_bytes "Git") 1); [reflexivity|]. apply (spells_cons _ _ (to_bytes "PUSH") 1); [reflexivity|].
    apply (spells_last _ (to_bytes "Main") 0 1). reflexivity.
  - exists "git.push.main". split; [reflexivity|]. right. vm_compute. repeat (constructor; [by right|]). constructor.
Defined.

Lemma policy_merge_exact_witness :
  let project := mkPolicy [mkRule (Named "deploy.*") Risk_Low AR_Auto None] AR_Auto Risk_Low in
  evaluate (merge PolicyEngine_default project) "deploy.production" = evaluate project "deploy.production" ∧
  evaluate (merge PolicyEngine_default project) "git.push.main" = evaluate PolicyEngine_default "git.push.main".
Proof.
  intros project. split.
  - apply (proj1 (policy_merge_exact PolicyEngine_default project "deploy.production")).
    eexists. split; [apply list_elem_of_here|]. vm_compute. reflexivity.
  - apply (proj2 (policy_merge_exact PolicyEngine_default project "git.push.main")).
    intros rule [->|H]%elem_of_cons; [vm_compute; reflexivity|by apply elem_of_nil in H].
Defined.

Lemma uppercase_rule_inert_witness :
  rule_matches_requested_action (Named "Git.push.main") (RequestedNamed "git.push.main") = false.
Proof.
  apply (uppercase_rule_inert "Git.push.main" "G"%char "Git.push.main" "git.push.main").
  - apply list_elem_of_here.
  - vm_compute. discriminate.
  - vm_compute. reflexivity.
  - vm_compute. reflexivity.
Defined.
