(* ===== verification/Approvals.v ===== *)
(** * The approval queue

    crates/ember-daemon/src/trust/approval.rs and standing_grant.rs: requests wait in a table until a human or the policy
    decides them; an approval mints a grant through [GrantMint], or is a decision only that a later
    execution consumes through a binding; a decision for always also leaves a standing grant.
    The state is the daemon of [GrantTable] with the two tables. What a call draws
    and what may fail is a record [QueueEnv]; timestamps are whole seconds; the columns that only
    feed notifications are one record. A decision runs in a transaction: when it fails, the tables are
    those before and only the cache of leases keeps what happened. *)

From stdpp Require Import base gmap list strings.
From Stdlib Require Import Ascii Lia ZArith.
From S2P Require Import Prelude CoreTypes Numbers Glob GrantTypes Attenuation GrantLifecycle ChainCrypto ProxyMatch Metering ProxyPolicy ProxyForward ProxyDaemon Lease LeaseSigning GrantTable GrantMint ActionPolicy.

Local Infix "+:+" := String.append (at level 60, right associativity).
Local Open Scope Z_scope.

(** ** Data *)

Record Notify := mkNotify {
  n_tool_name : option string; n_target_host : option string; n_target_url : option string;
  n_agent_framework : option string; n_skill_ref : option string }.

Definition no_notify : Notify := mkNotify None None None None None.

Record ApprovalRow := mkApproval {
  a_id : string;
  a_persona_id : string;
  a_credential_name : string;
  a_scope : string;
  a_ttl_secs : option Z;
  a_action : string;
  a_risk_level : string;
  a_status : string;
  a_reason : option string;
  a_created_at : Z;
  a_resolved_at : option Z;
  a_composite_json : option string;
  a_composite_hash : option string;
  a_result_grant_id : option string;
  a_notify : Notify;
  a_resolution_kind : string;
  a_shape : GrantShapeFields;
  a_binding_json : option string;
  a_binding_used_at : option Z
}.

Inductive ApprovalOutcome :=
| Approved
| Denied (reason : string)
| Narrowed (new_scope : string)
| Always (scope : option string) (expires_at : option string).

Inductive ApprovalResolutionKind := RK_Grant | RK_DecisionOnly.
Definition ApprovalResolutionKind_as_str (k : ApprovalResolutionKind) : string :=
  match k with RK_Grant => "grant" | RK_DecisionOnly => "decision_only" end.

Definition APPROVAL_BINDING_UNUSED_TTL_SECS : Z := 300.

Record ApprovalBindingRecord := mkBinding {
  ab_attachment_id : string; ab_caller_binding_id : string; ab_endpoint_token_sha256 : string;
  ab_execution_contract_digest : string; ab_invocation_digest : string }.

#[export] Instance ApprovalBindingRecord_eq_dec : EqDecision ApprovalBindingRecord.
Proof. solve_decision. Defined.

(** What is proposed, before it is a statement: no identifier and no usage. *)
Record StatementProposal := mkStatementProposal {
  sp_resource_type : ResourceType; sp_credential_name : string; sp_actions : list string; sp_resource : ResourceSelector;
  sp_budget : option Budget; sp_conditions : list Condition }.
Record GrantProposal := mkProposal {
  gp_persona_id : string; gp_statements : list StatementProposal; gp_expires_at : option Z; gp_label : option string;
  gp_skill_ref : option string; gp_note : option string }.

(** The fields that shape the grant are the record of [GrantMint]. *)
Record SubmitMetadata := mkMetadata {
  md_action : string; md_ttl_secs : option Z; md_risk_level : string; md_notify : Notify; md_shape : GrantShapeFields }.

Record StandingRow := mkStanding {
  sg_id : string; sg_persona_id : string; sg_action_pattern : string; sg_scope : string; sg_expires_at : option string }.

Record Queue := mkQueue { q_daemon : Daemon; q_approvals : list ApprovalRow; q_standing : list StandingRow }.

(** The environment of a call: [qe_uuid] names a new row; [qe_bound_seed] and [qe_block_seed] are the key pairs of a
    composite mint; [qe_write] is the failure of the writes to the two tables. *)
Record QueueEnv := mkQueueEnv {
  qe_env : Env; qe_mint : MintEnv; qe_uuid : string; qe_bound_seed : bytes; qe_block_seed : bytes; qe_write : option string }.

(** serde_json, sha2 and chrono. *)
Class QueueOps := {
  statements_to_json : list Statement → result string string;
  statements_from_json : string → option (list Statement);
  binding_to_json : ApprovalBindingRecord → result string string;
  binding_from_json : string → result ApprovalBindingRecord string;
  sha256_hex : string → string;
  parse_rfc3339 : string → result Z string
}.

Definition with_daemon (q : Queue) (d : Daemon) : Queue := mkQueue d (q_approvals q) (q_standing q).
Definition with_approvals (q : Queue) (l : list ApprovalRow) : Queue := mkQueue (q_daemon q) l (q_standing q).
Definition with_standing (q : Queue) (l : list StandingRow) : Queue := mkQueue (q_daemon q) (q_approvals q) l.

(** The columns that operations update. *)
Definition set_decision (status : string) (reason : option string) (resolved_at : option Z) (scope : string)
  (grant : option string) (used_at : option Z) (a : ApprovalRow) : ApprovalRow :=
  mkApproval (a_id a) (a_persona_id a) (a_credential_name a) scope (a_ttl_secs a) (a_action a) (a_risk_level a)
    status reason (a_created_at a) resolved_at (a_composite_json a) (a_composite_hash a) grant (a_notify a)
    (a_resolution_kind a) (a_shape a) (a_binding_json a) used_at.

Definition set_binding (json : string) (a : ApprovalRow) : ApprovalRow :=
  mkApproval (a_id a) (a_persona_id a) (a_credential_name a) (a_scope a) (a_ttl_secs a) (a_action a) (a_risk_level a)
    (a_status a) (a_reason a) (a_created_at a) (a_resolved_at a) (a_composite_json a) (a_composite_hash a)
    (a_result_grant_id a) (a_notify a) (a_resolution_kind a) (a_shape a) (Some json) (a_binding_used_at a).

(** [UPDATE approval_requests SET ... WHERE P], with the number of rows changed. *)
Definition update_approvals (e : QueueEnv) (P : ApprovalRow → bool) (f : ApprovalRow → ApprovalRow) (q : Queue)
  : result Z StoreError * Queue :=
  match qe_write e with
  | Some err => (Err (SE_Sqlite err), q)
  | None => (Ok (Z.of_nat (length (List.filter P (q_approvals q)))),
             with_approvals q ((λ a, if P a then f a else a) <$> q_approvals q))
  end.

Definition is_id (id : string) (a : ApprovalRow) : bool := bool_decide (a_id a = id).

Definition approval_by_id (q : Queue) (id : string) : option ApprovalRow := List.find (is_id id) (q_approvals q).

Definition get_approval (q : Queue) (id : string) : result ApprovalRow StoreError := ok_or (approval_by_id q id) SE_NotFound.

Definition list_pending_approvals (q : Queue) : list ApprovalRow :=
  sort_by (λ a b, a_created_at a <=? a_created_at b)
    (List.filter (λ a, bool_decide (a_status a = "pending")) (q_approvals q)).

(** The [Debug] form of a text without characters that need an escape. *)
Definition quote_byte : ascii := "034"%char.
Definition quoted (s : string) : string := of_bytes (quote_byte :: to_bytes s ++ [quote_byte]).

Section Queue.
Context {Cr : CryptoOps} {A : AeadOps} {J : MetaJson} {SJ : SecretJson} {Id : UuidOps} {BJ : BlocksJson} {QO : QueueOps}.

(** ** Submission *)

Definition submit_approval_inner_with_fields_and_resolution_kind (e : QueueEnv) (persona_id credential_name scope : string)
  (ttl_secs : option Z) (action risk_level : string) (composite_statements : option (list Statement)) (notify : Notify)
  (grant_shape : GrantShapeFields) (resolution_kind : ApprovalResolutionKind) (q : Queue)
  : result ApprovalRow StoreError * Queue :=
  let id := "approval-" +:+ qe_uuid e in
  match (match composite_statements with
         | Some stmts => let? j := map_err (λ m, SE_InvalidInput ("composite statements serialize: " +:+ m))
                                     (statements_to_json stmts) in Ok (Some j)
         | None => Ok None
         end) with
  | Err err => (Err err, q)
  | Ok composite_json =>
      match qe_write e with
      | Some err => (Err (SE_Sqlite err), q)
      | None =>
          if existsb (is_id id) (q_approvals q)
          then (Err (SE_Sqlite "UNIQUE constraint failed: approval_requests.id"), q)
          else
            let row := mkApproval id persona_id credential_name scope ttl_secs action risk_level "pending" None
                         (env_now (qe_env e)) None composite_json (sha256_hex <$> composite_json) None notify
                         (ApprovalResolutionKind_as_str resolution_kind) grant_shape None None in
            (Ok row, with_approvals q (q_approvals q ++ [row]))
      end
  end.

Definition submit_approval_inner_with_fields (e : QueueEnv) (persona_id credential_name scope : string)
  (ttl_secs : option Z) (action risk_level : string) (composite_statements : option (list Statement)) (notify : Notify)
  (grant_shape : GrantShapeFields) (q : Queue) : result ApprovalRow StoreError * Queue :=
  submit_approval_inner_with_fields_and_resolution_kind e persona_id credential_name scope ttl_secs action risk_level
    composite_statements notify grant_shape RK_Grant q.

Definition submit_approval (e : QueueEnv) (persona_id credential_name scope : string) (ttl_secs : option Z)
  (action risk_level : string) (q : Queue) : result ApprovalRow StoreError * Queue :=
  submit_approval_inner_with_fields e persona_id credential_name scope ttl_secs action risk_level None no_notify
    GrantShapeFields_default q.

Definition propose_grant_with_notify (e : QueueEnv) (persona_id credential_name scope : string) (ttl_secs : option Z)
  (action risk_level : string) (stmts : list Statement) (notify : Notify) (q : Queue)
  : result ApprovalRow StoreError * Queue :=
  submit_approval_inner_with_fields e persona_id credential_name scope ttl_secs action risk_level (Some stmts) notify
    GrantShapeFields_default q.

Definition propose_grant (e : QueueEnv) (persona_id credential_name scope : string) (ttl_secs : option Z)
  (action risk_level : string) (stmts : list Statement) (q : Queue) : result ApprovalRow StoreError * Queue :=
  submit_approval_inner_with_fields e persona_id credential_name scope ttl_secs action risk_level (Some stmts) no_notify
    GrantShapeFields_default q.

Definition propose_grant_typed (e : QueueEnv) (proposal : GrantProposal) (action risk_level : string) (q : Queue)
  : result ApprovalRow StoreError * Queue :=
  match (match gp_skill_ref proposal with
         | Some sr =>
             if 256 <? Z.of_nat (String.length sr) then Err (SE_InvalidInput "skill_ref must not exceed 256 characters")
             else if existsb (λ c, bool_decide (c = zero)) (to_bytes sr)
             then Err (SE_InvalidInput "skill_ref must not contain null bytes")
             else Ok tt
         | None => Ok tt
         end) with
  | Err err => (Err err, q)
  | Ok _ =>
      let stmts := imap (λ i sp, mkStatement ("s" +:+ u64_to_string (Z.of_nat i)) (sp_resource_type sp) (sp_actions sp)
                                   (sp_resource sp) (sp_budget sp) Usage_default (sp_conditions sp) None)
                     (gp_statements proposal) in
      let legacy_credential_name := match gp_statements proposal with sp :: _ => sp_credential_name sp | [] => "" end in
      submit_approval_inner_with_fields e (gp_persona_id proposal) legacy_credential_name "composite" (gp_expires_at proposal)
        action risk_level (Some stmts) (mkNotify None None None None (gp_skill_ref proposal)) GrantShapeFields_default q
  end.

Definition submit_decision_only_approval (e : QueueEnv) (persona_id credential_name scope action risk_level : string)
  (notify : Notify) (q : Queue) : result ApprovalRow StoreError * Queue :=
  submit_approval_inner_with_fields_and_resolution_kind e persona_id credential_name scope None action risk_level None
    notify GrantShapeFields_default RK_DecisionOnly q.

Definition submit_decision_only_approval_binding (e : QueueEnv)
  (persona_id credential_name scope action risk_level : string) (notify : Notify) (binding : ApprovalBindingRecord)
  (q : Queue) : result ApprovalRow StoreError * Queue :=
  match submit_decision_only_approval e persona_id credential_name scope action risk_level notify q with
  | (Err err, q) => (Err err, q)
  | (Ok approval, q) =>
      match binding_to_json binding with
      | Err m => (Err (SE_InvalidInput ("approval binding serialize: " +:+ m)), q)
      | Ok json =>
          match update_approvals e (is_id (a_id approval)) (set_binding json) q with
          | (Err err, q) => (Err err, q)
          | (Ok _, q) => (Ok approval, q)
          end
      end
  end.

(** ** Bindings *)

Definition unused (status : string → bool) (a : ApprovalRow) : bool :=
  status (a_status a) && bool_decide (a_binding_used_at a = None).
Definition approved_status (s : string) : bool := bool_decide (s = "approved").
Definition open_status (s : string) : bool := bool_decide (s = "pending") || bool_decide (s = "approved").

Definition expire_unused_approval_binding_if_stale (e : QueueEnv) (approval_id : string) (approved_at : Z) (q : Queue)
  : result bool StoreError * Queue :=
  if env_now (qe_env e) <? approved_at + APPROVAL_BINDING_UNUSED_TTL_SECS then (Ok false, q)
  else
    match update_approvals e (λ a, is_id approval_id a && unused approved_status a)
            (λ a, set_decision "expired_unused" (Some "approval_binding_expired_unused") (a_resolved_at a) (a_scope a)
                    (a_result_grant_id a) (a_binding_used_at a) a) q with
    | (Err err, q) => (Err err, q)
    | (Ok n, q) => (Ok (n =? 1), q)
    end.

Definition decided_at (a : ApprovalRow) : Z := default (a_created_at a) (a_resolved_at a).

(** The first row with the binding. *)
Fixpoint match_binding (binding : ApprovalBindingRecord) (rows : list ApprovalRow) : result (option ApprovalRow) StoreError :=
  match rows with
  | [] => Ok None
  | a :: rows' =>
      match a_binding_json a with
      | None => match_binding binding rows'
      | Some json =>
          let? stored := map_err (λ m, SE_InvalidInput ("approval binding deserialize for " +:+ a_id a +:+ ": " +:+ m))
                           (binding_from_json json) in
          if negb (bool_decide (stored = binding)) then match_binding binding rows' else Ok (Some a)
      end
  end.

Definition find_matching_approval_binding (e : QueueEnv) (persona_id action : string) (binding : ApprovalBindingRecord)
  (q : Queue) : result (option ApprovalRow) StoreError * Queue :=
  let rows := sort_by (λ a b, a_created_at b <=? a_created_at a)
                (List.filter (λ a, bool_decide (a_persona_id a = persona_id) && bool_decide (a_action a = action)
                                   && bool_decide (a_resolution_kind a = "decision_only")
                                   && bool_decide (is_Some (a_binding_json a))) (q_approvals q)) in
  match match_binding binding rows with
  | Err err => (Err err, q)
  | Ok None => (Ok None, q)
  | Ok (Some a) =>
      let '(stale, q) := if approved_status (a_status a)
                         then expire_unused_approval_binding_if_stale e (a_id a) (decided_at a) q else (Ok false, q) in
      match stale with
      | Err err => (Err err, q)
      | Ok true => (Ok None, q)
      | Ok false => (if open_status (a_status a) then let? a := get_approval q (a_id a) in Ok (Some a) else Ok None, q)
      end
  end.

Definition consume_approval_binding (e : QueueEnv) (approval_id : string) (binding : ApprovalBindingRecord) (q : Queue)
  : result bool StoreError * Queue :=
  match approval_by_id q approval_id with
  | None => (Err (SE_Sqlite "Query returned no rows"), q)
  | Some a =>
      match a_binding_json a with
      | None => (Ok false, q)
      | Some json =>
          match binding_from_json json with
          | Err m => (Err (SE_InvalidInput ("approval binding deserialize for " +:+ approval_id +:+ ": " +:+ m)), q)
          | Ok stored =>
              if negb (bool_decide (stored = binding)) then (Ok false, q)
              else if negb (approved_status (a_status a)) then (Ok false, q)
              else
                match expire_unused_approval_binding_if_stale e approval_id (decided_at a) q with
                | (Err err, q) => (Err err, q)
                | (Ok true, q) => (Ok false, q)
                | (Ok false, q) =>
                    match update_approvals e (λ a, is_id approval_id a && unused approved_status a)
                            (λ a, set_decision "consumed" (Some "approval_binding_consumed") (a_resolved_at a) (a_scope a)
                                    (a_result_grant_id a) (Some (env_now (qe_env e))) a) q with
                    | (Err err, q) => (Err err, q)
                    | (Ok n, q) => (Ok (n =? 1), q)
                    end
                end
          end
      end
  end.

(** The rows are read first and updated one by one; an unreadable binding stops the loop. *)
Fixpoint invalidate_loop (e : QueueEnv) (attachment_id reason : string) (rows : list ApprovalRow) (n : Z) (q : Queue)
  : result Z StoreError * Queue :=
  match rows with
  | [] => (Ok n, q)
  | a :: rows' =>
      match a_binding_json a with
      | None => invalidate_loop e attachment_id reason rows' n q
      | Some json =>
          match binding_from_json json with
          | Err m => (Err (SE_InvalidInput ("approval binding deserialize for " +:+ a_id a +:+ ": " +:+ m)), q)
          | Ok b =>
              if negb (bool_decide (ab_attachment_id b = attachment_id))
              then invalidate_loop e attachment_id reason rows' n q
              else
                match update_approvals e (λ x, is_id (a_id a) x && unused open_status x)
                        (λ x, set_decision "invalidated" (Some reason) (Some (env_now (qe_env e))) (a_scope x)
                                (a_result_grant_id x) (a_binding_used_at x) x) q with
                | (Err err, q) => (Err err, q)
                | (Ok k, q) => invalidate_loop e attachment_id reason rows' (n + k) q
                end
          end
      end
  end.

Definition invalidate_approval_bindings_for_attachment (e : QueueEnv) (attachment_id reason : string) (q : Queue)
  : result Z StoreError * Queue :=
  invalidate_loop e attachment_id reason
    (List.filter (λ a, bool_decide (is_Some (a_binding_json a)) && unused open_status a) (q_approvals q)) 0 q.

(** ** Standing grants *)

Definition create_standing_grant (e : QueueEnv) (persona_id : string) (selector : ActionSelector) (scope : string)
  (expires_at : option string) (q : Queue) : result unit StoreError * Queue :=
  match (match expires_at with
         | None => Ok tt
         | Some s =>
             let? parsed := map_err (λ m, SE_InvalidInput ("standing-grant expires_at " +:+ quoted s +:+ " is not RFC-3339: " +:+ m))
                              (parse_rfc3339 s) in
             let secs_from_now := parsed - env_now (qe_env e) in
             if MAX_GRANT_TTL_SECS <? secs_from_now
             then Err (SE_InvalidInput ("standing-grant expires_at " +:+ quoted s +:+ " is " +:+ i64_to_string secs_from_now
                    +:+ "s from now, exceeding MAX_GRANT_TTL_SECS (2592000s); grants are bounded per ADR 072"))
             else Ok tt
         end ;?
         map_err SE_InvalidInput (ActionSelector_validate selector) ;?
         match qe_write e with Some err => Err (SE_Sqlite err) | None => Ok tt end) with
  | Err err => (Err err, q)
  | Ok _ =>
      let row := mkStanding ("sg-" +:+ qe_uuid e) persona_id (ActionSelector_display selector) scope expires_at in
      let kept := List.filter (λ s, negb (bool_decide (sg_id s = sg_id row)
                                          || bool_decide (sg_persona_id s = persona_id)
                                             && bool_decide (sg_action_pattern s = sg_action_pattern row)))
                    (q_standing q) in
      (Ok tt, with_standing q (kept ++ [row]))
  end.

Definition remove_standing_grant (e : QueueEnv) (id : string) (q : Queue) : result unit StoreError * Queue :=
  match qe_write e with
  | Some err => (Err (SE_Sqlite err), q)
  | None => (Ok tt, with_standing q (List.filter (λ s, negb (bool_decide (sg_id s = id))) (q_standing q)))
  end.

Definition standing_grant_is_active (now : Z) (expires_at : option string) : bool :=
  match expires_at with
  | None => true
  | Some v => match parse_rfc3339 v with Ok parsed => now <? parsed | Err _ => false end
  end.

(** The stored patterns, parsed; one that cannot be parsed fails the whole listing. The rows are in the order of
    their insertion, the code's query has the newest first; the callers only ask whether some row matches. *)
Fixpoint list_standing_loop (rows : list StandingRow) : result (list (StandingRow * ActionSelector)) StoreError :=
  match rows with
  | [] => Ok []
  | r :: rows' =>
      let? sel := map_err SE_Sqlite (ActionSelector_parse (sg_action_pattern r)) in
      let? rest := list_standing_loop rows' in
      Ok ((r, sel) :: rest)
  end.

Definition list_standing_grants (q : Queue) : result (list (StandingRow * ActionSelector)) StoreError :=
  list_standing_loop (q_standing q).

Definition active_standing (e : QueueEnv) (persona_id : string) (f : ActionSelector → bool) (q : Queue)
  : result bool StoreError :=
  let? l := list_standing_grants q in
  Ok (existsb (λ p, bool_decide (sg_persona_id p.1 = persona_id)
                    && standing_grant_is_active (env_now (qe_env e)) (sg_expires_at p.1) && f p.2) l).

Definition check_standing_grant (e : QueueEnv) (persona_id action : string) (q : Queue) : result bool StoreError :=
  active_standing e persona_id (λ s, matches_action s action) q.

Definition check_standing_grant_action_ref (e : QueueEnv) (persona_id : string) (r : ActionRef) (q : Queue)
  : result bool StoreError :=
  active_standing e persona_id (λ s, matches_action_ref s r) q.

(** ** Decisions *)

(** [k] continues with the grant that was minted and shaped. *)
Definition mint_shaped (e : QueueEnv) (a : ApprovalRow) (scope : string) (k : GrantRow → Queue → result unit StoreError * Queue)
  (q : Queue) : result unit StoreError * Queue :=
  match create_grant_with_budget (qe_env e) (qe_mint e) (a_persona_id a) (a_credential_name a) scope (a_ttl_secs a)
          (gs_budget (a_shape a)) (q_daemon q) with
  | (Err err, d) => (Err err, with_daemon q d)
  | (Ok grant, d) =>
      match apply_grant_shape_to_grant (r_id grant) (a_shape a) d with
      | (Err err, d) => (Err err, with_daemon q d)
      | (Ok _, d) => k grant (with_daemon q d)
      end
  end.

Definition finish (e : QueueEnv) (id status : string) (reason : option string) (new_scope grant : option string) (q : Queue)
  : result unit StoreError * Queue :=
  match update_approvals e (is_id id)
          (λ a, set_decision status (match reason with Some r => Some r | None => a_reason a end)
                  (Some (env_now (qe_env e))) (default (a_scope a) new_scope)
                  (match grant with Some g => Some g | None => a_result_grant_id a end) (a_binding_used_at a) a) q with
  | (Err err, q) => (Err err, q)
  | (Ok _, q) => (Ok tt, q)
  end.

Definition scope_within (outcome new_scope scope : string) : result unit StoreError :=
  match enforce_subset new_scope scope with
  | Err v => Err (SE_InvalidInput (outcome +:+ " outcome scope " +:+ quoted new_scope
                    +:+ " is not a subset of original request scope " +:+ quoted scope +:+ ": delegation violation: " +:+ reason v))
  | Ok _ => Ok tt
  end.

Definition decide_row (e : QueueEnv) (a : ApprovalRow) (composite : option (list Statement)) (outcome : ApprovalOutcome)
  (q : Queue) : result unit StoreError * Queue :=
  let decision_only := bool_decide (a_resolution_kind a = ApprovalResolutionKind_as_str RK_DecisionOnly) in
  match outcome with
  | Approved =>
      if decision_only then finish e (a_id a) "approved" None None None q
      else
        mint_shaped e a (match composite with Some _ => "*" | None => a_scope a end)
          (λ grant q,
             let '(r, d) :=
               match composite with
               | Some stmts => mint_composite_chain_for_grant (qe_env e) (qe_mint e) (qe_bound_seed e) (qe_block_seed e)
                                 (r_id grant) (a_persona_id a) (a_credential_name a) stmts (a_ttl_secs a) (q_daemon q)
               | None => (Ok tt, q_daemon q)
               end in
             match r with
             | Err err => (Err err, with_daemon q d)
             | Ok _ => finish e (a_id a) "approved" None None (Some (r_id grant)) (with_daemon q d)
             end) q
  | Denied reason => finish e (a_id a) "denied" (Some reason) None None q
  | Narrowed new_scope =>
      if decision_only
      then (Err (SE_InvalidInput "decision-only approvals do not support narrowed resolution"), q)
      else match scope_within "Narrowed" new_scope (a_scope a) with
           | Err err => (Err err, q)
           | Ok _ => mint_shaped e a new_scope (λ _ q, finish e (a_id a) "narrowed" None (Some new_scope) None q) q
           end
  | Always narrow_scope expires_at =>
      if decision_only
      then (Err (SE_InvalidInput "decision-only approvals do not support always resolution"), q)
      else
        let effective_scope := default (a_scope a) narrow_scope in
        match (match narrow_scope with Some ns => scope_within "Always" ns (a_scope a) | None => Ok tt end) with
        | Err err => (Err err, q)
        | Ok _ =>
            mint_shaped e a effective_scope
              (λ _ q,
                 match create_standing_grant e (a_persona_id a) (Named (a_action a)) effective_scope expires_at q with
                 | (Err err, q) => (Err err, q)
                 | (Ok _, q) => finish e (a_id a) "approved" None None None q
                 end) q
        end
  end.

Definition tampered (a : ApprovalRow) : bool :=
  match a_composite_json a, a_composite_hash a with
  | Some json, Some stored_hash => negb (bool_decide (sha256_hex json = stored_hash))
  | _, _ => false
  end.

Definition rollback_queue (q0 q1 : Queue) : Queue := with_daemon q0 (rollback (q_daemon q0) (q_daemon q1)).

Definition resolve_approval (e : QueueEnv) (id : string) (outcome : ApprovalOutcome) (q : Queue)
  : result unit StoreError * Queue :=
  match approval_by_id q id with
  | None => (Err SE_NotFound, q)
  | Some a =>
      if negb (bool_decide (a_status a = "pending")) then (Err SE_AlreadyResolved, q)
      else if tampered a then (Err SE_CompositeStatementsTampered, q)
      else
        match decide_row e a (a_composite_json a ≫= statements_from_json) outcome q with
        | (Ok _, q') => (Ok tt, q')
        | (Err err, q') => (Err err, rollback_queue q q')
        end
  end.

Definition auto_resolve (e : QueueEnv) (approval_id : string) (q : Queue) : result unit StoreError * Queue :=
  match get_approval q approval_id with
  | Err err => (Err err, q)
  | Ok _ =>
      match resolve_approval e approval_id Approved q with
      | (Err err, q) => (Err err, q)
      | (Ok _, q) => (let? _ := get_approval q approval_id in Ok tt, q)
      end
  end.

(** The cutoff is computed with chrono's subtraction of [threshold_secs as i64] seconds, which is in range for the
    thresholds of the configuration. *)
Definition expire_stale_pending_approvals (e : QueueEnv) (threshold_secs : Z) (q : Queue) : result Z StoreError * Queue :=
  if threshold_secs =? 0 then (Ok 0, q)
  else
    let cutoff := env_now (qe_env e) - as_i64 threshold_secs in
    update_approvals e (λ a, bool_decide (a_status a = "pending") && (a_created_at a <=? cutoff))
      (λ a, set_decision "timed_out" (a_reason a) (a_resolved_at a) (a_scope a) (a_result_grant_id a) (a_binding_used_at a) a) q.

Definition dismiss_approval (e : QueueEnv) (id : string) (q : Queue) : result unit StoreError * Queue :=
  match update_approvals e (λ a, is_id id a && bool_decide (a_status a = "pending"))
          (λ a, set_decision "dismissed" (a_reason a) (Some (env_now (qe_env e))) (a_scope a) (a_result_grant_id a)
                  (a_binding_used_at a) a) q with
  | (Err err, q) => (Err err, q)
  | (Ok n, q) =>
      if n =? 0
      then (Err (if existsb (is_id id) (q_approvals q) then SE_AlreadyResolved else SE_NotFound), q)
      else (Ok tt, q)
  end.

(** ** The lifecycle interface *)

Inductive LifecycleError :=
| LE_UnknownRequest
| LE_AlreadyDecided
| LE_ScopeNotNarrowing
| LE_GrantMintFailed (msg : string)
| LE_Storage (msg : string).

Definition lifecycle_error (err : StoreError) : LifecycleError :=
  match err with
  | SE_NotFound => LE_UnknownRequest
  | SE_AlreadyResolved => LE_AlreadyDecided
  | _ => LE_Storage (StoreError_display err)
  end.

Definition core_status (status : string) : option ApprovalStatus :=
  if bool_decide (status = "pending") then Some AS_Pending
  else if bool_decide (status = "approved") then Some AS_Approved
  else if bool_decide (status = "denied") then Some AS_Denied
  else if bool_decide (status = "expired") || bool_decide (status = "timed_out") then Some AS_Expired
  else if bool_decide (status = "narrowed") || bool_decide (status = "narrowed_and_approved") then Some AS_NarrowedAndApproved
  else None.

Definition submit_request (e : QueueEnv) (persona credential : string) (scope : RequestedScope) (metadata : SubmitMetadata)
  (q : Queue) : result string LifecycleError * Queue :=
  let action := if str_is_empty (md_action metadata) then "credential.access" else md_action metadata in
  let risk := if str_is_empty (md_risk_level metadata) then "high" else md_risk_level metadata in
  let '(info, q) := submit_approval_inner_with_fields e persona credential (rs_capability scope) (md_ttl_secs metadata) action
                      risk None (md_notify metadata) (md_shape metadata) q in
  (let? info := map_err lifecycle_error info in Ok (a_id info), q).

(** [DateTime::from_timestamp(epoch as i64, 0)] *)
Definition from_timestamp (epoch : Z) : option Z :=
  let s := as_i64 epoch in if (s <? -8334601228800) || (MAX_UTC_NANOS / 10 ^ 9 <? s) then None else Some s.

Definition access_grant_to_core_grants (ag : AccessGrant) : Lifecycle.Grant Z :=
  let state := match g_status ag with
               | Active | Pending => Lifecycle.Active
               | Paused => Lifecycle.Paused
               | Revoked | Abandoned | Expired | ExhaustedByBudget => Lifecycle.Revoked
               end in
  let statement := head (g_blocks ag) ≫= λ sb, head (statements (block sb)) in
  let raw_id := default (g_id ag) (of_bytes <$> strip_prefix_on (to_bytes "grant-") (to_bytes (g_id ag))) in
  Lifecycle.mkGrant (match uuid_parse raw_id with Ok u => u | Err _ => uuid_nil end) (g_issuing_persona_id ag)
    (Lifecycle.mkLScope (default "" (statement ≫= λ s, head (actions s))) None []) state
    (effective_expires_at ag ≫= from_timestamp) None 0
    (Lifecycle.mkLUsage (default 0 ((λ s, u_tokens (usage s)) <$> statement))) Lifecycle.GRANT_SCHEMA_VERSION_PIN.

(** [rfc3339_after] is the text of the instant so many seconds from now. *)
Definition daemon_outcome (rfc3339_after : Z → string) (o : CoreApprovalOutcome) : ApprovalOutcome :=
  match o with
  | CO_Approved => Approved
  | CO_Denied => Denied "denied"
  | CO_Narrowed s => Narrowed (rs_capability s)
  | CO_Always ttl => Always None (Some (rfc3339_after ttl))
  end.

Definition decide (e : QueueEnv) (rfc3339_after : Z → string) (request_id : string) (outcome : CoreApprovalOutcome) (q : Queue)
  : result (option (Lifecycle.Grant Z)) LifecycleError * Queue :=
  match get_approval q request_id with
  | Err err => (Err (lifecycle_error err), q)
  | Ok info =>
      match core_status (a_status info) with
      | None => (Err LE_AlreadyDecided, q)
      | Some current =>
          match transition current outcome with
          | Err AlreadyDecided => (Err LE_AlreadyDecided, q)
          | Err ScopeNotNarrowing => (Err LE_ScopeNotNarrowing, q)
          | Ok _ =>
              match resolve_approval e request_id (daemon_outcome rfc3339_after outcome) q with
              | (Err err, q) => (Err (lifecycle_error err), q)
              | (Ok _, q) =>
                  match outcome with
                  | CO_Denied => (Ok None, q)
                  | _ =>
                      (let? resolved := map_err lifecycle_error (get_approval q request_id) in
                       match a_result_grant_id resolved with
                       | Some grant_id =>
                           let? g := map_err (λ err, LE_GrantMintFailed (StoreError_display err))
                                       (get_access_grant (store_of (qe_env e) (q_daemon q)) grant_id) in
                           Ok (Some (access_grant_to_core_grants g))
                       | None => Ok None
                       end, q)
                  end
              end
          end
      end
  end.

(** The dispatch of a decision: a caller other than the daemon itself may not decide its own request, and needs
    the presence of the user. *)
Definition handle_resolve (e : QueueEnv) (internal : bool) (caller : result string string) (presence : result unit string)
  (id : string) (outcome : ApprovalOutcome) (q : Queue) : result ApprovalRow string * Queue :=
  match (if internal then Ok tt
         else
           let? pending := map_err (λ err, match err with
                                           | SE_NotFound => "approval " +:+ id +:+ " not found"
                                           | other => StoreError_display other
                                           end) (get_approval q id) in
           let? caller_principal := caller in
           if bool_decide (caller_principal = a_persona_id pending)
           then Err "resolve_approval: caller cannot approve own request (two-party invariant; the dashboard path is the operator-attested route for self-submitted approvals)"
           else presence) with
  | Err m => (Err m, q)
  | Ok _ =>
      match resolve_approval e id outcome q with
      | (Err err, q) => (Err (match err with
                              | SE_NotFound => "approval " +:+ id +:+ " not found"
                              | other => StoreError_display other
                              end), q)
      | (Ok _, q) => (map_err (λ err, match err with
                                      | SE_NotFound => "approval " +:+ id +:+ " not found after resolve"
                                      | other => StoreError_display other
                                      end) (get_approval q id), q)
      end
  end.

End Queue.

(** ** What an operation does to the queue *)

Section Growth.
(** The requests whose stored statements an outsider may have rewritten. *)
Variable W : list string.

(** How a request may change: a decided request is never pending again, a used binding stays used, and what was
    asked for stays, the statements and their hash unless somebody rewrote them. *)
Definition later (a a' : ApprovalRow) : Prop :=
  a_id a' = a_id a ∧ a_persona_id a' = a_persona_id a ∧ a_credential_name a' = a_credential_name a ∧
  a_ttl_secs a' = a_ttl_secs a ∧ a_resolution_kind a' = a_resolution_kind a ∧
  (a_id a ∉ W → a_composite_json a' = a_composite_json a ∧ a_composite_hash a' = a_composite_hash a) ∧
  (a_status a ≠ "pending" → a_status a' ≠ "pending") ∧ (a_binding_used_at a ≠ None → a_binding_used_at a' ≠ None).

Definition unique_requests (q : Queue) : Prop := NoDup (a_id <$> q_approvals q).

(** New requests are appended, under new identifiers. *)
Definition grows (q q' : Queue) : Prop :=
  ∃ l new, Forall2 later (q_approvals q) l ∧ q_approvals q' = l ++ new ∧ (unique_requests q → unique_requests q').

Lemma later_refl a : later a a.
Proof. by split_and!. Qed.

Lemma later_trans a b c : later a b → later b c → later a c.
Proof.
  intros (Hi&?&?&?&?&Hw&?&?) (?&?&?&?&?&Hw'&?&?). split_and!; try (etransitivity; eassumption); auto.
  intros Hn. destruct (Hw Hn) as [<- <-]. apply Hw'. by rewrite Hi.
Qed.

Lemma later_rows_refl l : Forall2 later l l.
Proof. induction l; constructor; auto using later_refl. Qed.

Lemma later_rows_ids l l' : Forall2 later l l' → a_id <$> l' = a_id <$> l.
Proof. induction 1 as [|a a' l l' [Hi _] _ IH]; cbn; congruence. Qed.

Lemma grows_eq q q' : q_approvals q' = q_approvals q → grows q q'.
Proof.
  intros E. exists (q_approvals q), []. rewrite E, app_nil_r. split_and!; [apply later_rows_refl|done|].
  unfold unique_requests. by rewrite E.
Qed.

Lemma grows_refl q : grows q q.
Proof. by apply grows_eq. Qed.

Lemma grows_trans q1 q2 q3 : grows q1 q2 → grows q2 q3 → grows q1 q3.
Proof.
  intros (l & n & H & E & Hu) (l' & n' & H' & E' & Hu'). rewrite E in H'.
  apply Forall2_app_inv_l in H' as (l1 & l2 & H1 & H2 & ->).
  exists l1, (l2 ++ n'). split_and!; [|by rewrite E', app_assoc|auto].
  clear -H H1. revert l1 H1. induction H; intros l1 H1; inversion H1; subst; constructor; eauto using later_trans.
Qed.

Lemma grows_update e P f q : (∀ a, later a (f a)) → grows q (update_approvals e P f q).2.
Proof.
  intros Hf. unfold update_approvals. destruct (qe_write e); [apply grows_refl|]. cbn [snd].
  assert (Forall2 later (q_approvals q) ((λ a, if P a then f a else a) <$> q_approvals q)) as H.
  { induction (q_approvals q) as [|a l IH]; constructor; [destruct (P a); auto using later_refl|done]. }
  exists ((λ a, if P a then f a else a) <$> q_approvals q), []. cbn. split_and!; [done|by rewrite app_nil_r|].
  unfold unique_requests. cbn. by rewrite (later_rows_ids _ _ H).
Qed.

Lemma later_decision status reason resolved scope grant used a :
  status ≠ "pending" → (a_binding_used_at a ≠ None → used ≠ None) →
  later a (set_decision status reason resolved scope grant used a).
Proof. intros Hs Hu. by split_and!. Qed.

Section QueueProofs.
Context {Cr : CryptoOps} {A : AeadOps} {J : MetaJson} {SJ : SecretJson} {Id : UuidOps} {BJ : BlocksJson} {QO : QueueOps}.

Lemma grows_finish e id status reason scope grant q :
  status ≠ "pending" → grows q (finish e id status reason scope grant q).2.
Proof.
  intros Hs. unfold finish. set (f := λ a, set_decision _ _ _ _ _ _ a).
  pose proof (grows_update e (is_id id) f q (λ a, later_decision _ _ _ _ _ _ _ Hs (λ H, H))) as H.
  destruct (update_approvals e (is_id id) f q) as [[] q']; exact H.
Qed.

Lemma finish_Ok e id status reason scope grant q q' :
  finish e id status reason scope grant q = (Ok tt, q') →
  q_daemon q' = q_daemon q ∧ q_standing q' = q_standing q ∧
  ∀ a', a' ∈ q_approvals q' → a_id a' = id → a_status a' = status.
Proof.
  unfold finish, update_approvals. destruct (qe_write e); [done|]. intros [= <-]. cbn. split_and!; try done.
  intros a' Ha' Hid. apply list_elem_of_fmap in Ha' as (a & -> & _). unfold is_id in *.
  case_bool_decide as D; [done|]. by rewrite Hid in D.
Qed.

(** A decision that names no grant leaves the column as it was. *)
Lemma finish_no_grant e id status reason scope q q' a a' :
  unique_requests q → finish e id status reason scope None q = (Ok tt, q') →
  a ∈ q_approvals q → a_id a = id → a' ∈ q_approvals q' → a_id a' = id → a_result_grant_id a' = a_result_grant_id a.
Proof.
  unfold unique_requests, finish, update_approvals. destruct (qe_write e); [done|]. intros Hu [= <-] Ha Hid Ha' Hid'.
  cbn in Ha'. apply list_elem_of_fmap in Ha' as (x & -> & Hx).
  assert (x = a) as ->; [|by destruct (is_id id a)].
  assert (a_id x = id) as Hxi by (by destruct (is_id id x)).
  revert Hu Ha Hx. generalize (q_approvals q). clear -Hid Hxi. induction l as [|y l IH]; [by intros _ ?%elem_of_nil|].
  intros [Hy Hn]%NoDup_cons [->|Ha]%elem_of_cons [->|Hx]%elem_of_cons; try done; [| |by apply IH];
    exfalso; apply Hy, list_elem_of_fmap; [exists x|exists a]; split; congruence || done.
Qed.

Lemma mint_shaped_Ok e a scope k q q' :
  mint_shaped e a scope k q = (Ok tt, q') →
  ∃ grant d1 d2,
    create_grant_with_budget (qe_env e) (qe_mint e) (a_persona_id a) (a_credential_name a) scope (a_ttl_secs a)
      (gs_budget (a_shape a)) (q_daemon q) = (Ok grant, d1) ∧
    apply_grant_shape_to_grant (r_id grant) (a_shape a) d1 = (Ok tt, d2) ∧ k grant (with_daemon q d2) = (Ok tt, q').
Proof.
  unfold mint_shaped. destruct (create_grant_with_budget _ _ _ _ _ _ _ _) as [[grant|] d1]; [|done].
  destruct (apply_grant_shape_to_grant _ _ d1) as [[[]|] d2] eqn:E; [|done]. intros H. by exists grant, d1, d2.
Qed.

Lemma standing_requests e persona sel scope exp q :
  q_approvals (create_standing_grant e persona sel scope exp q).2 = q_approvals q ∧
  q_daemon (create_standing_grant e persona sel scope exp q).2 = q_daemon q.
Proof. unfold create_standing_grant. by match goal with |- context [match ?x with Ok _ => _ | Err _ => _ end] => destruct x end. Qed.

(** The requests change only at the end of a decision. *)
Lemma decide_row_finish e a composite o q q' :
  decide_row e a composite o q = (Ok tt, q') →
  ∃ q1 status reason scope grant, q_approvals q1 = q_approvals q ∧ status ≠ "pending" ∧
    finish e (a_id a) status reason scope grant q1 = (Ok tt, q').
Proof.
  unfold decide_row. destruct o as [|reason|ns|ns exp].
  - destruct (bool_decide _); [intros H; (eexists q, "approved", _, _, _; split_and!; [|done|exact H]; done)|].
    intros (g & d1 & d2 & _ & _ & H)%mint_shaped_Ok. destruct composite as [stmts|].
    + destruct (mint_composite_chain_for_grant _ _ _ _ _ _ _ _ _ _) as [[]d3]; [|done].
      (eexists _, "approved", _, _, _; split_and!; [|done|exact H]; done).
    + (eexists _, "approved", _, _, _; split_and!; [|done|exact H]; done).
  - intros H. (eexists q, "denied", _, _, _; split_and!; [|done|exact H]; done).
  - destruct (bool_decide _); [done|]. destruct (scope_within _ _ _); [|done].
    intros (g & d1 & d2 & _ & _ & H)%mint_shaped_Ok. (eexists _, "narrowed", _, _, _; split_and!; [|done|exact H]; done).
  - destruct (bool_decide _); [done|]. destruct (match ns with Some _ => _ | None => _ end); [|done].
    intros (g & d1 & d2 & _ & _ & H)%mint_shaped_Ok.
    destruct (create_standing_grant _ _ _ _ _ _) as [[] q2] eqn:E; [|done].
    eexists q2, "approved", _, _, _. split_and!; [|done|exact H].
    pose proof (standing_requests e (a_persona_id a) (Named (a_action a)) (default (a_scope a) ns) exp (with_daemon q d2)) as Hs.
    rewrite E in Hs. by destruct Hs.
Qed.

Lemma resolve_Ok e id o q q' :
  resolve_approval e id o q = (Ok tt, q') →
  ∃ a, approval_by_id q id = Some a ∧ a_id a = id ∧ a_status a = "pending" ∧ tampered a = false ∧
    decide_row e a (a_composite_json a ≫= statements_from_json) o q = (Ok tt, q').
Proof.
  unfold resolve_approval. destruct (approval_by_id q id) as [a|] eqn:Ha; [|done].
  case_bool_decide as Hs; [|done]. cbn [negb]. destruct (tampered a) eqn:Ht; [done|].
  destruct (decide_row _ _ _ _ _) as [[[]|] q1] eqn:E; [|done]. intros [= <-]. exists a. split_and!; try done.
  unfold approval_by_id, is_id in Ha. by apply find_some in Ha as [_ ?%bool_decide_eq_true].
Qed.

Lemma resolve_Err e id o q err q' :
  resolve_approval e id o q = (Err err, q') →
  q_approvals q' = q_approvals q ∧ q_standing q' = q_standing q ∧
  (q_daemon q' = q_daemon q ∨ ∃ d, q_daemon q' = rollback (q_daemon q) d).
Proof.
  unfold resolve_approval. destruct (approval_by_id q id) as [a|]; [|intros [= _ <-]; auto].
  destruct (negb _); [intros [= _ <-]; auto|]. destruct (tampered a); [intros [= _ <-]; auto|].
  destruct (decide_row _ _ _ _ _) as [[[]|] q1]; [done|]. intros [= _ <-]. cbn. eauto.
Qed.

Lemma grows_resolve e id o q : grows q (resolve_approval e id o q).2.
Proof.
  destruct (resolve_approval e id o q) as [[[]|err] q'] eqn:E; cbn [snd].
  - apply resolve_Ok in E as (a & _ & _ & _ & _ & E).
    apply decide_row_finish in E as (q1 & st & re & sc & gr & H1 & Hs & Hf).
    eapply grows_trans; [by apply (grows_eq q q1)|]. pose proof (grows_finish e (a_id a) st re sc gr q1 Hs) as H.
    by rewrite Hf in H.
  - apply resolve_Err in E as [E _]. by apply grows_eq.
Qed.

(** ** Runs *)

(** The operations on the queue, those of [GrantMint] on the grants, and an outsider who writes what he likes, or NULL, into the
    column of the stored statements of a request and into that of their hash. *)
Inductive QOp :=
| QSubmit (persona cred scope : string) (ttl : option Z) (action risk : string) (stmts : option (list Statement))
    (notify : Notify) (shape : GrantShapeFields) (kind : ApprovalResolutionKind)
| QSubmitBinding (persona cred scope action risk : string) (notify : Notify) (b : ApprovalBindingRecord)
| QFind (persona action : string) (b : ApprovalBindingRecord)
| QConsume (id : string) (b : ApprovalBindingRecord)
| QInvalidate (attachment reason : string)
| QResolve (id : string) (o : ApprovalOutcome)
| QAuto (id : string)
| QSweep (threshold : Z)
| QDismiss (id : string)
| QStanding (persona : string) (sel : ActionSelector) (scope : string) (exp : option string)
| QUnstanding (id : string)
| QGrants (o : Op)
| QRewrite (id : string) (json hash : option string).

Definition set_columns (json hash : option string) (a : ApprovalRow) : ApprovalRow :=
  mkApproval (a_id a) (a_persona_id a) (a_credential_name a) (a_scope a) (a_ttl_secs a) (a_action a) (a_risk_level a)
    (a_status a) (a_reason a) (a_created_at a) (a_resolved_at a) json hash (a_result_grant_id a)
    (a_notify a) (a_resolution_kind a) (a_shape a) (a_binding_json a) (a_binding_used_at a).

Definition apply_qop (e : QueueEnv) (o : QOp) (q : Queue) : Queue :=
  match o with
  | QSubmit p c s t a r st n f k =>
      (submit_approval_inner_with_fields_and_resolution_kind e p c s t a r st n f k q).2
  | QSubmitBinding p c s a r n b => (submit_decision_only_approval_binding e p c s a r n b q).2
  | QFind p a b => (find_matching_approval_binding e p a b q).2
  | QConsume id b => (consume_approval_binding e id b q).2
  | QInvalidate a r => (invalidate_approval_bindings_for_attachment e a r q).2
  | QResolve id o => (resolve_approval e id o q).2
  | QAuto id => (auto_resolve e id q).2
  | QSweep t => (expire_stale_pending_approvals e t q).2
  | QDismiss id => (dismiss_approval e id q).2
  | QStanding p sel s exp => (create_standing_grant e p sel s exp q).2
  | QUnstanding id => (remove_standing_grant e id q).2
  | QGrants o => with_daemon q (apply_op (qe_env e) (qe_mint e) o (q_daemon q))
  | QRewrite id json hash => with_approvals q ((λ a, if is_id id a then set_columns json hash a else a) <$> q_approvals q)
  end.

Definition run_queue (q : Queue) (ops : list (QueueEnv * QOp)) : Queue := foldl (λ q o, apply_qop o.1 o.2 q) q ops.

Definition rewrites (o : QOp) : option string := match o with QRewrite id _ _ => Some id | _ => None end.
Definition rewritten (ops : list (QueueEnv * QOp)) : list string := omap (rewrites ∘ snd) ops.

Lemma submit_cases e p c s t a r st n f k q :
  match submit_approval_inner_with_fields_and_resolution_kind e p c s t a r st n f k q with
  | (Ok row, q') => q' = with_approvals q (q_approvals q ++ [row]) ∧ a_id row ∉ a_id <$> q_approvals q
  | (Err _, q') => q' = q
  end.
Proof.
  unfold submit_approval_inner_with_fields_and_resolution_kind.
  destruct (match st with Some _ => _ | None => _ end); [|done]. destruct (qe_write e); [done|].
  destruct (existsb _ _) eqn:E; [done|]. split; [done|]. cbn [a_id]. intros (x & Hx & Hin)%list_elem_of_fmap.
  apply not_true_iff_false in E. apply E, existsb_exists. exists x. rewrite <-list_elem_of_In. split; [done|].
  unfold is_id. by rewrite bool_decide_true.
Qed.

Lemma grows_submit e p c s t a r st n f k q :
  grows q (submit_approval_inner_with_fields_and_resolution_kind e p c s t a r st n f k q).2.
Proof.
  pose proof (submit_cases e p c s t a r st n f k q) as H.
  destruct (submit_approval_inner_with_fields_and_resolution_kind _ _ _ _ _ _ _ _ _ _ _ _) as [[row|] q']; cbn [snd].
  - destruct H as [-> Hf]. exists (q_approvals q), [row]. split_and!; [apply later_rows_refl|done|].
    unfold unique_requests. cbn. rewrite fmap_app. intros Hu. apply NoDup_app. split_and!; [done| |apply NoDup_singleton].
    intros x Hx Hx'%list_elem_of_singleton. by subst x.
  - subst. apply grows_refl.
Qed.

Lemma grows_expire e id at_ q : grows q (expire_unused_approval_binding_if_stale e id at_ q).2.
Proof.
  unfold expire_unused_approval_binding_if_stale. destruct (_ <? _); [apply grows_refl|].
  set (f := λ a, set_decision _ _ _ _ _ _ a). set (P := λ a, _ && _).
  pose proof (grows_update e P f q (λ a, later_decision "expired_unused" _ _ _ _ _ _ ltac:(done) (λ H, H))) as H.
  destruct (update_approvals e P f q) as [[] q']; exact H.
Qed.

Lemma grows_consume e id b q : grows q (consume_approval_binding e id b q).2.
Proof.
  unfold consume_approval_binding. destruct (approval_by_id q id) as [a|]; [|apply grows_refl].
  destruct (a_binding_json a) as [j|]; [|apply grows_refl]. destruct (binding_from_json j); [|apply grows_refl].
  destruct (negb _); [apply grows_refl|]. destruct (negb _); [apply grows_refl|].
  pose proof (grows_expire e id (decided_at a) q) as He.
  destruct (expire_unused_approval_binding_if_stale _ _ _ _) as [[[]|] q1]; [exact He| |exact He].
  eapply grows_trans; [exact He|]. cbn [snd]. set (f := λ a, set_decision _ _ _ _ _ _ a). set (P := λ a, _ && _).
  pose proof (grows_update e P f q1 (λ a, later_decision "consumed" _ _ _ _ (Some _) _ ltac:(done) (λ _, ltac:(done)))) as H.
  destruct (update_approvals e P f q1) as [[] q']; exact H.
Qed.

Lemma grows_find e p a b q : grows q (find_matching_approval_binding e p a b q).2.
Proof.
  unfold find_matching_approval_binding. destruct (match_binding _ _) as [[x|]|]; [|apply grows_refl..].
  destruct (approved_status _); [|cbn; apply grows_refl].
  pose proof (grows_expire e (a_id x) (decided_at x) q) as He.
  by destruct (expire_unused_approval_binding_if_stale _ _ _ _) as [[[]|] q1].
Qed.

Lemma grows_invalidate e att reason rows n q : grows q (invalidate_loop e att reason rows n q).2.
Proof.
  revert n q. induction rows as [|a rows IH]; intros n q; cbn [invalidate_loop]; [apply grows_refl|].
  destruct (a_binding_json a) as [j|]; [|apply IH]. destruct (binding_from_json j) as [b|]; [|apply grows_refl].
  destruct (negb _); [apply IH|]. set (f := λ a, set_decision _ _ _ _ _ _ a). set (P := λ a, _ && _).
  pose proof (grows_update e P f q (λ a, later_decision "invalidated" _ _ _ _ _ _ ltac:(done) (λ H, H))) as H.
  destruct (update_approvals e P f q) as [[] q']; [|exact H]. eapply grows_trans; [exact H|apply IH].
Qed.

Lemma grows_op e o q : (∀ id, rewrites o = Some id → id ∈ W) → grows q (apply_qop e o q).
Proof.
  intros HW. destruct o; cbn [apply_qop].
  - apply grows_submit.
  - unfold submit_decision_only_approval_binding, submit_decision_only_approval.
    pose proof (grows_submit e persona cred scope None action risk None notify GrantShapeFields_default RK_DecisionOnly q) as Hs.
    destruct (submit_approval_inner_with_fields_and_resolution_kind _ _ _ _ _ _ _ _ _ _ _ _) as [[row|] q1]; [|exact Hs].
    destruct (binding_to_json b) as [j|]; [|exact Hs]. eapply grows_trans; [exact Hs|].
    pose proof (grows_update e (is_id (a_id row)) (set_binding j) q1 (λ a, ltac:(by split_and!))) as H. cbn [snd].
    by destruct (update_approvals e _ _ q1) as [[] q2].
  - apply grows_find.
  - apply grows_consume.
  - apply grows_invalidate.
  - apply grows_resolve.
  - unfold auto_resolve. destruct (get_approval q id); [|apply grows_refl].
    pose proof (grows_resolve e id Approved q) as H. by destruct (resolve_approval _ _ _ _) as [[] q1].
  - unfold expire_stale_pending_approvals. destruct (_ =? _); [apply grows_refl|].
    apply grows_update. intros a. by apply later_decision.
  - unfold dismiss_approval. set (f := λ a, set_decision _ _ _ _ _ _ a). set (P := λ a, _ && _).
    pose proof (grows_update e P f q (λ a, later_decision "dismissed" _ _ _ _ _ _ ltac:(done) (λ H, H))) as H.
    destruct (update_approvals e P f q) as [[n|] q']; [|exact H]. by destruct (n =? 0).
  - apply grows_eq, standing_requests.
  - apply grows_eq. unfold remove_standing_grant. by destruct (qe_write e).
  - by apply grows_eq.
  - assert (id ∈ W) as Hid by by apply HW.
    assert (Forall2 later (q_approvals q) ((λ a, if is_id id a then set_columns json hash a else a) <$> q_approvals q)) as H.
    { induction (q_approvals q) as [|a l IH]; constructor; [|done]. unfold is_id. case_bool_decide as Ha; [|apply later_refl].
      split_and!; try done. by rewrite Ha. }
    eexists _, []. cbn. split_and!; [exact H|by rewrite app_nil_r|]. unfold unique_requests. cbn. by rewrite (later_rows_ids _ _ H).
Qed.

Lemma grows_run ops q : rewritten ops ⊆ W → grows q (run_queue q ops).
Proof.
  unfold run_queue. revert q. induction ops as [|[e o] ops IH]; intros q HW; cbn; [apply grows_refl|].
  unfold rewritten in HW. cbn in HW. eapply grows_trans.
  - apply grows_op. intros id Hid. rewrite Hid in HW. apply HW. left.
  - apply IH. destruct (rewrites o); [|done]. intros x Hx. apply HW. by right.
Qed.

Lemma rewritten_elem id ops : id ∈ rewritten ops → ∃ env json hash, (env, QRewrite id json hash) ∈ ops.
Proof.
  unfold rewritten. intros ([e o] & Hin & Ho)%list_elem_of_omap. destruct o; cbn in Ho; try done. injection Ho as ->. eauto.
Qed.

(** The row of a request, later. *)
Lemma approval_by_id_unique q a : unique_requests q → a ∈ q_approvals q → approval_by_id q (a_id a) = Some a.
Proof.
  unfold unique_requests, approval_by_id. induction (q_approvals q) as [|x l IH]; [by intros _ ?%elem_of_nil|].
  cbn [List.find]. intros [Hx Hn]%NoDup_cons [->|Hin]%elem_of_cons.
  - unfold is_id. by rewrite bool_decide_true.
  - unfold is_id at 1. rewrite bool_decide_false; [by apply IH|]. intros E. apply Hx, list_elem_of_fmap. by exists a.
Qed.

Lemma approval_by_id_Some q id a : approval_by_id q id = Some a → a ∈ q_approvals q ∧ a_id a = id.
Proof.
  unfold approval_by_id, is_id. intros [Hin Hid%bool_decide_eq_true]%find_some. by rewrite list_elem_of_In.
Qed.

Lemma grows_row q q' a :
  unique_requests q → grows q q' → a ∈ q_approvals q → ∃ a', approval_by_id q' (a_id a) = Some a' ∧ later a a'.
Proof.
  intros Hu (l & new & HF & E & Hu') Hin. apply list_elem_of_lookup in Hin as [i Hi].
  destruct (Forall2_lookup_l _ _ _ _ _ HF Hi) as (a' & Hi' & Hl). exists a'. split; [|done].
  destruct Hl as [<- _]. apply approval_by_id_unique; [by apply Hu'|]. rewrite E. apply elem_of_app. left.
  by eapply list_elem_of_lookup_2.
Qed.

End QueueProofs.
End Growth.

(** ** What a decision grants *)

Definition shape_row (f : GrantShapeFields) (r : GrantRow) : GrantRow :=
  let r := if bool_decide (is_Some (gs_max_uses_per_hour f)) || bool_decide (is_Some (gs_allowed_hours_start f))
              || bool_decide (is_Some (gs_allowed_targets f)) || bool_decide (is_Some (gs_max_delegation_depth f))
           then set_shape f r else r in
  match gs_max_children_per_day f with Some limit => set_standing limit r | None => r end.

Lemma apply_shape_Ok id f d d' :
  apply_grant_shape_to_grant id f d = (Ok tt, d') →
  d_grants d' = (λ r, if has_id id r then shape_row f r else r) <$> d_grants d ∧
  d_personas d' = d_personas d ∧ d_receipts d' = d_receipts d.
Proof.
  unfold apply_grant_shape_to_grant, shape_row, mark_grant_standing. set (c := _ || _ || _ || _).
  destruct (gs_max_children_per_day f) as [limit|].
  - destruct (limit =? 0); [done|]. destruct (some_row _ _); [|done]. intros [= <-].
    split; [|by destruct c]. destruct c; [|done]. unfold update_row, update_where. cbn [set_rows d_grants].
    rewrite <-list_fmap_compose. apply list_fmap_ext. intros i r _. unfold compose.
    destruct (has_id id r) eqn:E; [|by rewrite E]. by change (has_id id (set_shape f r)) with (has_id id r); rewrite E.
  - intros [= <-]. split; [|by destruct c]. destruct c; [done|]. symmetry. rewrite <-(list_fmap_id (d_grants d)) at 2.
    apply list_fmap_ext. intros i r _. by destruct (has_id id r).
Qed.

Lemma update_fresh_row f l (row : GrantRow) :
  r_id row ∉ r_id <$> l → (λ r, if has_id (r_id row) r then f r else r) <$> l ++ [row] = l ++ [f row].
Proof.
  intros Hf. rewrite fmap_app. cbn. unfold has_id at 2. rewrite bool_decide_true by done. f_equal.
  rewrite <-(list_fmap_id l) at 2. apply list_fmap_ext. intros i r Hr. unfold has_id.
  rewrite bool_decide_false; [done|]. intros E. apply Hf. rewrite <-E. apply list_elem_of_fmap_2.
  by eapply list_elem_of_lookup_2.
Qed.

(** The statement a scope string stands for, in the grant of a request. *)
Definition scope_statements (e : QueueEnv) (a : ApprovalRow) (scope : string) : list Statement :=
  statements (ChainBuild.build_single_statement_block (a_persona_id a) (a_credential_name a) scope (env_now (qe_env e))
    (u64_sat_add (env_now (qe_env e)) <$> a_ttl_secs a) (non_empty_budget (gs_budget (a_shape a))) Usage_default).

(** A grant issued for a request: its persona and credential, its lifetime, the conditions it asked for, and one block with
    the statements. *)
Definition issued_for (e : QueueEnv) (a : ApprovalRow) (stmts : list Statement) (row : GrantRow) : Prop :=
  r_id row = grant_id_of (qe_mint e) ∧ r_persona_id row = a_persona_id a ∧ r_credential_name row = a_credential_name a ∧
  r_status row = "active" ∧ r_expires_at row = u64_sat_add (env_now (qe_env e)) <$> a_ttl_secs a ∧
  r_allowed_targets row = gs_allowed_targets (a_shape a) ∧ r_allowed_hours_start row = gs_allowed_hours_start (a_shape a) ∧
  r_max_delegation_depth row = gs_max_delegation_depth (a_shape a) ∧
  ∃ sb, r_blocks_json row = Some [sb] ∧ statements (block sb) = stmts ∧ expires_at (block sb) = r_expires_at row.

Section Granted.
Context {Cr : CryptoOps} {A : AeadOps} {J : MetaJson} {SJ : SecretJson} {Id : UuidOps} {BJ : BlocksJson} {QO : QueueOps}.

Lemma shape_row_fields f r :
  let r' := shape_row f r in
  r_id r' = r_id r ∧ r_persona_id r' = r_persona_id r ∧ r_credential_name r' = r_credential_name r ∧
  r_status r' = r_status r ∧ r_expires_at r' = r_expires_at r ∧ r_blocks_json r' = r_blocks_json r ∧ r_scope r' = r_scope r ∧
  (r_allowed_targets r = None → r_allowed_targets r' = gs_allowed_targets f) ∧
  (r_allowed_hours_start r = None → r_allowed_hours_start r' = gs_allowed_hours_start f) ∧
  (r_max_delegation_depth r = None → r_max_delegation_depth r' = gs_max_delegation_depth f).
Proof.
  unfold shape_row. destruct f as [[] [] end_ [] [] b [] t]; cbn; split_and!; done.
Qed.

Lemma mint_shaped_row e a scope d grant d1 d2 :
  create_grant_with_budget (qe_env e) (qe_mint e) (a_persona_id a) (a_credential_name a) scope (a_ttl_secs a)
    (gs_budget (a_shape a)) d = (Ok grant, d1) →
  apply_grant_shape_to_grant (r_id grant) (a_shape a) d1 = (Ok tt, d2) →
  ∃ row, d_grants d2 = d_grants d ++ [row] ∧ d_personas d2 = d_personas d ∧ d_receipts d2 = d_receipts d ∧
    r_id row = r_id grant ∧ r_id row ∉ r_id <$> d_grants d ∧ r_scope row = scope ∧
    issued_for e a (scope_statements e a scope) row.
Proof.
  intros (sb & _ & _ & _ & Hb & Hrow & Hg & Hf & Hp & Hr)%create_Ok (Hg2 & Hp2 & Hr2)%apply_shape_Ok.
  rewrite Hg, update_fresh_row in Hg2 by done. exists (shape_row (a_shape a) grant).
  destruct (shape_row_fields (a_shape a) grant) as (F1 & F2 & F3 & F4 & F5 & F6 & F7 & F8 & F9 & F10).
  split_and!; [done|congruence|congruence|done|by rewrite F1|by rewrite F7, Hrow|].
  unfold issued_for. rewrite F1, F2, F3, F4, F5, F6, F8, F9, F10 by by subst grant. subst grant. split_and!; try done.
  exists sb. split_and!; [done| |]; rewrite Hb; [done|].
  unfold ChainBuild.build_single_statement_block. by destruct (ChainBuild.scope_to_actions_and_selector _ _).
Qed.

(** What a decision adds to the grants: nothing, or one row for the request. *)
Lemma decide_row_grants e a composite o q q' :
  decide_row e a composite o q = (Ok tt, q') →
  d_personas (q_daemon q') = d_personas (q_daemon q) ∧ d_receipts (q_daemon q') = d_receipts (q_daemon q) ∧
  match o with
  | Denied _ => d_grants (q_daemon q') = d_grants (q_daemon q)
  | _ =>
      (o = Approved ∧ a_resolution_kind a = "decision_only" ∧ d_grants (q_daemon q') = d_grants (q_daemon q)) ∨
      ∃ row, d_grants (q_daemon q') = d_grants (q_daemon q) ++ [row] ∧ r_id row ∉ r_id <$> d_grants (q_daemon q) ∧
        match o with
        | Approved => issued_for e a (match composite with Some stmts => stmts | None => scope_statements e a (a_scope a) end) row
        | Narrowed ns | Always (Some ns) _ => enforce_subset ns (a_scope a) = Ok tt ∧ issued_for e a (scope_statements e a ns) row
        | Always None _ => issued_for e a (scope_statements e a (a_scope a)) row
        | Denied _ => False
        end
  end.
Proof.
  unfold decide_row. destruct o as [|reason|ns|ns exp].
  - case_bool_decide as Hk; [intros (Hd & _ & _)%finish_Ok; rewrite Hd; split_and!; [done|done|left; by split_and!]|].
    intros (grant & d1 & d2 & Hc & Hs & H)%mint_shaped_Ok.
    destruct (mint_shaped_row _ _ _ _ _ _ _ Hc Hs) as (row & Hg & Hp & Hr & Hid & Hf & _ & Hi).
    destruct composite as [stmts|].
    + pose proof (composite_cases (qe_env e) (qe_mint e) (qe_bound_seed e) (qe_block_seed e) (r_id grant) (a_persona_id a)
                    (a_credential_name a) stmts (a_ttl_secs a) (q_daemon (with_daemon q d2))) as (Hp3 & Hr3 & H3).
      destruct (mint_composite_chain_for_grant _ _ _ _ _ _ _ _ _ _) as [[[]|] d3]; [|done]. cbn [fst snd] in *.
      apply finish_Ok in H as (Hd & _ & _). rewrite Hd. cbn [q_daemon with_daemon] in *.
      split; [congruence|]. split; [congruence|]. right.
      destruct H3 as (sb & Hst & Hex & _ & Hg3). rewrite Hg, <-Hid, update_fresh_row in Hg3 by done.
      eexists. split; [exact Hg3|]. split; [done|]. destruct Hi as (?&?&?&?&He&?&?&?&_). split_and!; try done.
      exists sb. split_and!; [done|done|]. cbn [r_expires_at set_chain]. by rewrite Hex, He.
    + apply finish_Ok in H as (Hd & _ & _). rewrite Hd. cbn. split; [done|]. split; [done|]. right. by exists row.
  - intros (Hd & _ & _)%finish_Ok. by rewrite Hd.
  - destruct (bool_decide _); [done|]. destruct (scope_within _ _ _) as [[]|] eqn:Hsw; [|done].
    intros (grant & d1 & d2 & Hc & Hs & H)%mint_shaped_Ok.
    destruct (mint_shaped_row _ _ _ _ _ _ _ Hc Hs) as (row & Hg & Hp & Hr & Hid & Hf & _ & Hi).
    apply finish_Ok in H as (Hd & _ & _). rewrite Hd. cbn. split; [done|]. split; [done|]. right. exists row.
    unfold scope_within in Hsw. destruct (enforce_subset _ _) as [[]|]; [|done]. by split_and!.
  - destruct (bool_decide _); [done|]. destruct (match ns with Some _ => _ | None => _ end) as [[]|] eqn:Hsw; [|done].
    intros (grant & d1 & d2 & Hc & Hs & H)%mint_shaped_Ok.
    destruct (mint_shaped_row _ _ _ _ _ _ _ Hc Hs) as (row & Hg & Hp & Hr & Hid & Hf & _ & Hi).
    pose proof (standing_requests e (a_persona_id a) (Named (a_action a)) (default (a_scope a) ns) exp (with_daemon q d2)) as [_ Hsd].
    destruct (create_standing_grant _ _ _ _ _ _) as [[[]|] q2]; [|done]. cbn [snd] in Hsd.
    apply finish_Ok in H as (Hd & _ & _). rewrite Hd, Hsd. cbn. split; [done|]. split; [done|]. right. exists row.
    destruct ns as [ns|]; [|by split_and!]. unfold scope_within in Hsw. destruct (enforce_subset _ _) as [[]|]; [|done].
    by split_and!.
Qed.

End Granted.

Section Once.
Context {Cr : CryptoOps} {A : AeadOps} {J : MetaJson} {SJ : SecretJson} {Id : UuidOps} {BJ : BlocksJson} {QO : QueueOps}.

(** An update by identifier changes the one row when its condition holds. *)
Lemma filter_by_id P q id a :
  unique_requests q → approval_by_id q id = Some a →
  List.filter (λ x, is_id id x && P x) (q_approvals q) = if P a then [a] else [].
Proof.
  unfold unique_requests, approval_by_id. induction (q_approvals q) as [|x l IH]; [done|]. cbn [fmap list_fmap List.find List.filter].
  intros [Hx Hn]%NoDup_cons. destruct (is_id id x) eqn:E.
  - intros [= ->]. assert (List.filter (λ x, is_id id x && P x) l = []) as Hnil.
    { clear IH. induction l as [|y l IH]; [done|]. cbn [List.filter]. apply bool_decide_eq_true in E.
      unfold is_id at 1. rewrite bool_decide_false by (intros Hy; apply Hx; cbn; rewrite E, <-Hy; left). cbn [andb].
      apply IH; [by intros ?; apply Hx; right|by apply NoDup_cons in Hn as [_ ?]]. }
    rewrite Hnil. cbn [andb]. by destruct (P a).
  - cbn [andb]. by apply IH.
Qed.

Lemma expire_false e id a q q1 :
  unique_requests q → approval_by_id q id = Some a → unused approved_status a = true →
  expire_unused_approval_binding_if_stale e id (decided_at a) q = (Ok false, q1) →
  q1 = q ∧ env_now (qe_env e) < decided_at a + APPROVAL_BINDING_UNUSED_TTL_SECS.
Proof.
  intros Hu Ha Hun. unfold expire_unused_approval_binding_if_stale. destruct (_ <? _) eqn:E.
  { intros [= <-]. split; [done|]. by apply Z.ltb_lt. }
  unfold update_approvals. destruct (qe_write e); [done|].
  rewrite (filter_by_id (unused approved_status) q id a Hu Ha), Hun. done.
Qed.

Lemma expire_used e id a q r q1 :
  unique_requests q → approval_by_id q id = Some a → unused approved_status a = false →
  expire_unused_approval_binding_if_stale e id (decided_at a) q = (r, q1) →
  r ≠ Ok true ∧ approval_by_id q1 id = Some a ∧ unique_requests q1.
Proof.
  intros Hu Ha Hun. unfold expire_unused_approval_binding_if_stale. destruct (_ <? _); [by intros [= <- <-]|].
  pose proof (filter_by_id (unused approved_status) q id a Hu Ha) as Hf. rewrite Hun in Hf.
  unfold update_approvals. destruct (qe_write e); [by intros [= <- <-]|]. rewrite Hf. intros [= <- <-]. split; [done|].
  assert (∀ f : ApprovalRow → ApprovalRow,
    (λ a, if is_id id a && unused approved_status a then f a else a) <$> q_approvals q = q_approvals q) as E.
  { intros f. rewrite <-(list_fmap_id (q_approvals q)) at 2. apply list_fmap_ext. intros i x Hx.
    destruct (is_id id x && unused approved_status x) eqn:Ex; [|done].
    assert (x ∈ List.filter (λ x, is_id id x && unused approved_status x) (q_approvals q)) as Hin.
    { apply list_elem_of_In, filter_In. split; [|done]. apply list_elem_of_In. by eapply list_elem_of_lookup_2. }
    rewrite Hf in Hin. by apply elem_of_nil in Hin. }
  unfold approval_by_id, unique_requests, with_approvals. cbn [q_approvals]. by rewrite E.
Qed.

(** When a binding is consumed the request was approved for it and not yet used, and it is used afterwards. *)
Lemma consume_true e id b q q1 :
  unique_requests q → consume_approval_binding e id b q = (Ok true, q1) →
  (∃ a j, approval_by_id q id = Some a ∧ a_status a = "approved" ∧ a_binding_used_at a = None ∧
     a_binding_json a = Some j ∧ binding_from_json j = Ok b ∧
     env_now (qe_env e) < decided_at a + APPROVAL_BINDING_UNUSED_TTL_SECS) ∧
  ∀ a', a' ∈ q_approvals q1 → a_id a' = id → a_binding_used_at a' ≠ None.
Proof.
  intros Hu. unfold consume_approval_binding. destruct (approval_by_id q id) as [a|] eqn:Ha; [|done].
  destruct (a_binding_json a) as [j|] eqn:Hj; [|done]. destruct (binding_from_json j) as [b'|] eqn:Hb; [|done].
  case_bool_decide as Hbb; [|done]. cbn [negb]. destruct (approved_status (a_status a)) eqn:Hs; [|done]. cbn [negb].
  destruct (unused approved_status a) eqn:Hun.
  - destruct (expire_unused_approval_binding_if_stale _ _ _ _) as [[[]|] q2] eqn:He; [done| |done].
    destruct (expire_false _ _ _ _ _ Hu Ha Hun He) as [-> Hlt].
    unfold update_approvals. destruct (qe_write e); [done|]. intros [= _ <-].
    unfold unused in Hun. rewrite Hs in Hun. cbn in Hun. apply bool_decide_eq_true in Hun.
    unfold approved_status in Hs. apply bool_decide_eq_true in Hs.
    split; [exists a, j; split_and!; try done; congruence|]. cbn [q_approvals with_approvals].
    intros a' (x & -> & Hx)%list_elem_of_fmap Hid. destruct (is_id id x && unused approved_status x) eqn:E; [done|].
    exfalso. apply approval_by_id_Some in Ha as Ha'. destruct Ha' as [Hain Haid].
    assert (x = a) as ->. { pose proof (approval_by_id_unique q x Hu Hx) as H. rewrite Hid, Ha in H. by injection H. }
    unfold is_id, unused, approved_status in E. by rewrite !bool_decide_true in E.
  - destruct (expire_unused_approval_binding_if_stale _ _ _ _) as [r q2] eqn:He.
    destruct (expire_used _ _ _ _ _ _ Hu Ha Hun He) as (Hr & Ha2 & Hu2). destruct r as [[]|]; [done| |done].
    unfold update_approvals. destruct (qe_write e); [done|].
    rewrite (filter_by_id (unused approved_status) q2 id a Hu2 Ha2), Hun. done.
Qed.

Lemma consume_used e id b q a :
  unique_requests q → approval_by_id q id = Some a → a_binding_used_at a ≠ None →
  (consume_approval_binding e id b q).1 ≠ Ok true.
Proof.
  intros Hu Ha Hn H. destruct (consume_approval_binding e id b q) as [r q1] eqn:E. cbn in H. subst r.
  apply consume_true in E as [(a' & j & Ha' & _ & Hn' & _) _]; [|done]. rewrite Ha in Ha'. by injection Ha' as <-.
Qed.

End Once.

(** ** Properties *)

(** C23. A request is decided once. After a decision was made, no sequence of operations on the queue and the grants, an
    outsider who rewrites the stored statements included, makes the request open to a decision again: every further decision is
    refused as already resolved and changes nothing, so a request mints at most one grant. *)
Theorem requests_decided_once {Cr : CryptoOps} {A : AeadOps} {J : MetaJson} {SJ : SecretJson} {Id : UuidOps}
  {BJ : BlocksJson} {QO : QueueOps} q e id o q1 ops e' o' :
  unique_requests q → resolve_approval e id o q = (Ok tt, q1) →
  let q2 := run_queue q1 ops in
  resolve_approval e' id o' q2 = (Err SE_AlreadyResolved, q2).
Proof.
  intros Hu Hr q2. pose proof (grows_resolve [] e id o q) as Hg. rewrite Hr in Hg. cbn in Hg.
  assert (unique_requests q1) as Hu1 by (destruct Hg as (? & ? & _ & _ & ?); auto).
  apply resolve_Ok in Hr as (a & Ha & Hid & _ & _ & Hd). apply decide_row_finish in Hd as (q0 & st & re & sc & gr & _ & Hst & Hf).
  apply finish_Ok in Hf as (_ & _ & Hall). apply approval_by_id_Some in Ha as [Hin _].
  destruct (grows_row [] _ _ _ Hu Hg Hin) as (a1 & Ha1 & _). apply approval_by_id_Some in Ha1 as [Hin1 Hid1].
  destruct (grows_row (rewritten ops) _ _ _ Hu1 (grows_run _ ops q1 (reflexivity _)) Hin1) as (a2 & Ha2 & Hl).
  rewrite Hid1, Hid in Ha2. unfold resolve_approval. fold q2 in Ha2. rewrite Ha2.
  destruct Hl as (_ & _ & _ & _ & _ & _ & Hp & _).
  rewrite bool_decide_false; [done|]. apply Hp. rewrite (Hall a1 Hin1 Hid1). done.
Qed.

(** An approval for an execution is used once, in time, for what was approved. A binding is consumed only when the request
    with exactly that binding was approved at most five minutes ago and not used; after it was consumed no
    sequence of operations lets it be consumed again. *)
Theorem bindings_used_once {Cr : CryptoOps} {A : AeadOps} {J : MetaJson} {SJ : SecretJson} {Id : UuidOps}
  {BJ : BlocksJson} {QO : QueueOps} q e id b q1 :
  unique_requests q → consume_approval_binding e id b q = (Ok true, q1) →
  (∃ a j, approval_by_id q id = Some a ∧ a_status a = "approved" ∧ a_binding_json a = Some j ∧
     binding_from_json j = Ok b ∧ env_now (qe_env e) < decided_at a + APPROVAL_BINDING_UNUSED_TTL_SECS) ∧
  ∀ ops e' b', (consume_approval_binding e' id b' (run_queue q1 ops)).1 ≠ Ok true.
Proof.
  intros Hu Hc. pose proof (grows_consume [] e id b q) as Hg. rewrite Hc in Hg. cbn in Hg.
  assert (unique_requests q1) as Hu1 by (destruct Hg as (? & ? & _ & _ & ?); auto).
  destruct (consume_true _ _ _ _ _ Hu Hc) as [(a & j & Ha & Hs & _ & Hj & Hb & Hlt) Hused].
  split; [by exists a, j|]. intros ops e' b'. apply approval_by_id_Some in Ha as [Hin Hid].
  destruct (grows_row [] _ _ _ Hu Hg Hin) as (a1 & Ha1 & _). apply approval_by_id_Some in Ha1 as [Hin1 Hid1].
  destruct (grows_row (rewritten ops) _ _ _ Hu1 (grows_run _ ops q1 (reflexivity _)) Hin1) as (a2 & Ha2 & Hl).
  apply (consume_used _ _ _ _ a2).
  - destruct (grows_run _ ops q1 (reflexivity _)) as (? & ? & _ & _ & ?); auto.
  - by rewrite <-Hid, <-Hid1.
  - apply Hl, Hused; [done|congruence].
Qed.

(** A decision grants what was asked for, or less. A denial and a decision on an execution add no grant; every other decision
    adds one row, for the persona, the credential, the lifetime and the conditions of the request. Its statements are the
    proposed ones, or the one the request's scope stands for; when the decision narrows, the one the new scope stands for, and
    everything the new scope admits the requested scope admits too. *)
Theorem decision_grants_request {Cr : CryptoOps} {A : AeadOps} {J : MetaJson} {SJ : SecretJson} {Id : UuidOps}
  {BJ : BlocksJson} {QO : QueueOps} e id o q q' :
  resolve_approval e id o q = (Ok tt, q') →
  ∃ a, approval_by_id q id = Some a ∧ a_status a = "pending" ∧
    d_personas (q_daemon q') = d_personas (q_daemon q) ∧
    ((d_grants (q_daemon q') = d_grants (q_daemon q) ∧ (a_resolution_kind a = "decision_only" ∨ ∃ r, o = Denied r)) ∨
     ∃ row scope, d_grants (q_daemon q') = d_grants (q_daemon q) ++ [row] ∧ r_id row ∉ r_id <$> d_grants (q_daemon q) ∧
       (scope = a_scope a ∨ ∃ c p, parse_scope scope = Ok c ∧ parse_scope (a_scope a) = Ok p ∧
                                   ∀ r, scope_admits c r → scope_admits p r) ∧
       issued_for e a (match o, a_composite_json a ≫= statements_from_json with
                       | Approved, Some stmts => stmts
                       | _, _ => scope_statements e a scope
                       end) row).
Proof.
  intros (a & Ha & _ & Hp & _ & H)%resolve_Ok. exists a. apply decide_row_grants in H as (Hpe & _ & H).
  split_and!; try done.
  assert (∀ ns, enforce_subset ns (a_scope a) = Ok tt → ∃ c p, parse_scope ns = Ok c ∧ parse_scope (a_scope a) = Ok p ∧
    ∀ r, scope_admits c r → scope_admits p r) as Hsub.
  { intros ns (c & p & Hc & Hpp & Hs)%enforce_subset_Ok. exists c, p. eauto using subset_parts_admits. }
  destruct o as [|reason|ns|[ns|] exp].
  - destruct H as [(_ & Hk & Hg)|(row & Hg & Hf & Hi)]; [left; auto|right]. exists row, (a_scope a). split_and!; auto.
  - left. eauto.
  - destruct H as [(? & _)|(row & Hg & Hf & Hs & Hi)]; [done|right]. exists row, ns. split_and!; auto.
  - destruct H as [(? & _)|(row & Hg & Hf & Hs & Hi)]; [done|right]. exists row, ns. split_and!; auto.
  - destruct H as [(? & _)|(row & Hg & Hf & Hi)]; [done|right]. exists row, (a_scope a). split_and!; auto.
Qed.

(** C24. An approved proposal grants the statements that were proposed. A proposal is stored in a queue without two requests of one
    identifier, and any run follows, in which an outsider too may write what he likes, or NULL, into the stored statements and their
    hash; then the request is approved as it stands (the outcome is Approved, neither narrowed nor for always). If the statements
    can be read back from their text and no other text has its hash, the grant minted is the only new one, for the proposed persona
    and credential, with exactly the proposed statements. The one exception is a request whose columns the outsider did rewrite and
    that has no statements any more, or not the hash it was stored with: no check stands in the way of these
    (proposal_bypassed). *)
Theorem proposal_integrity {Cr : CryptoOps} {A : AeadOps} {J : MetaJson} {SJ : SecretJson} {Id : UuidOps}
  {BJ : BlocksJson} {QO : QueueOps} q e persona cred scope ttl action risk stmts notify request q1 ops e' q3 :
  unique_requests q →
  propose_grant_with_notify e persona cred scope ttl action risk stmts notify q = (Ok request, q1) →
  (∀ j, statements_to_json stmts = Ok j →
     statements_from_json j = Some stmts ∧ ∀ j', sha256_hex j' = sha256_hex j → j' = j) →
  let q2 := run_queue q1 ops in
  resolve_approval e' (a_id request) Approved q2 = (Ok tt, q3) →
  (∃ row sb, d_grants (q_daemon q3) = d_grants (q_daemon q2) ++ [row] ∧ r_persona_id row = persona ∧
    r_credential_name row = cred ∧ r_blocks_json row = Some [sb] ∧ statements (block sb) = stmts) ∨
  (∃ env json hash, (env, QRewrite (a_id request) json hash) ∈ ops) ∧
  ∃ a j, approval_by_id q2 (a_id request) = Some a ∧ statements_to_json stmts = Ok j ∧
    (a_composite_json a = None ∨ a_composite_hash a ≠ Some (sha256_hex j)).
Proof.
  intros Hu Hp Hj q2 Hr. unfold propose_grant_with_notify, submit_approval_inner_with_fields in Hp.
  pose proof (submit_cases e persona cred scope ttl action risk (Some stmts) notify GrantShapeFields_default RK_Grant q) as Hs.
  pose proof (grows_submit [] e persona cred scope ttl action risk (Some stmts) notify GrantShapeFields_default RK_Grant q) as Hg.
  rewrite Hp in Hs, Hg. cbn [snd] in Hg. destruct Hs as [Hq1 _].
  assert (unique_requests q1) as Hu1 by (destruct Hg as (? & ? & _ & _ & ?); auto).
  unfold submit_approval_inner_with_fields_and_resolution_kind in Hp. destruct (statements_to_json stmts) as [j|]; [|done].
  cbn [map_err result_bind] in Hp. destruct (qe_write e); [done|]. destruct (existsb _ _); [done|]. injection Hp as Hreq _.
  assert (request ∈ q_approvals q1) as Hin by (rewrite Hq1; cbn; set_solver).
  destruct (grows_row (rewritten ops) _ _ _ Hu1 (grows_run _ ops q1 (reflexivity _)) Hin) as (a & Ha & Hl).
  apply resolve_Ok in Hr as (a' & Ha' & _ & _ & Ht & Hd). fold q2 in Ha. rewrite Ha in Ha'. injection Ha' as <-.
  destruct Hl as (_ & Hpe & Hcr & _ & Hk & Hcols & _). destruct (Hj j eq_refl) as [Hback Hinj].
  destruct (base.decide (a_composite_json a = None ∨ a_composite_hash a ≠ Some (sha256_hex j))) as [Hbad|Hgood].
  - right. split; [|by exists a, j]. destruct (base.decide (a_id request ∈ rewritten ops)) as [Hw|Hn].
    + by apply rewritten_elem.
    + destruct (Hcols Hn) as [Hja Hha]. subst request. cbn in Hja, Hha. rewrite Hja, Hha in Hbad. naive_solver.
  - left. destruct (a_composite_json a) as [j'|] eqn:Hja; [|naive_solver].
    assert (a_composite_hash a = Some (sha256_hex j)) as Hh by (apply dec_stable; naive_solver).
    subst request. cbn in Hpe, Hcr, Hk. unfold tampered in Ht. rewrite Hja, Hh in Ht. apply negb_false_iff, bool_decide_eq_true, Hinj in Ht as ->.
    cbn [mbind option_bind] in Hd. rewrite Hback in Hd. apply decide_row_grants in Hd as (_ & _ & [(_ & Hk' & _)|(row & Hgr & _ & Hi)]); [congruence|].
    destruct Hi as (_ & Hp1 & Hc1 & _ & _ & _ & _ & _ & sb & Hb & Hst & _). exists row, sb. split_and!; congruence.
Qed.

(** The scope column can outweigh the proposal. When a proposal of statements was stored with the scope of everything, a decision
    for always mints a grant on any resource, whatever the statements were; so does an approval once the
    stored statements were erased, although their hash is still there. *)
Theorem proposal_bypassed {Cr : CryptoOps} {A : AeadOps} {J : MetaJson} {SJ : SecretJson} {Id : UuidOps}
  {BJ : BlocksJson} {QO : QueueOps} e id o q q' a :
  approval_by_id q id = Some a → a_resolution_kind a = "grant" → a_scope a = "*" →
  (o = Approved ∧ a_composite_json a = None ∨ ∃ exp, o = Always None exp) →
  resolve_approval e id o q = (Ok tt, q') →
  ∃ row sb s, d_grants (q_daemon q') = d_grants (q_daemon q) ++ [row] ∧ r_blocks_json row = Some [sb] ∧
    statements (block sb) = [s] ∧ actions s = ["*"] ∧ resource s = Any ∧ conditions s = [].
Proof.
  intros Ha Hk Hsc Ho Hr. apply resolve_Ok in Hr as (a' & Ha' & _ & _ & _ & H). rewrite Ha in Ha'. injection Ha' as <-.
  apply decide_row_grants in H as (_ & _ & H).
  assert (∃ row, d_grants (q_daemon q') = d_grants (q_daemon q) ++ [row] ∧ issued_for e a (scope_statements e a "*") row)
    as (row & Hg & Hi).
  { destruct Ho as [[-> Hj]|[exp ->]].
    - rewrite Hj in H. destruct H as [(_ & H & _)|(row & Hg & _ & Hi)]; [congruence|]. exists row. by rewrite <-Hsc.
    - destruct H as [(H & _)|(row & Hg & _ & Hi)]; [done|]. exists row. by rewrite <-Hsc. }
  destruct Hi as (_ & _ & _ & _ & _ & _ & _ & _ & sb & Hb & Hst & _).
  exists row, sb. eexists. split_and!; [done|done|by rewrite Hst|done..].
Qed.

(** A narrowed decision is reported without its grant. Through the lifecycle interface a decision that narrows, or approves
    for always, mints a grant and yet returns none, because the request does not record it. *)
Theorem narrowed_decision_unreported {Cr : CryptoOps} {A : AeadOps} {J : MetaJson} {SJ : SecretJson} {Id : UuidOps}
  {BJ : BlocksJson} {QO : QueueOps} e after id o q r q' a :
  unique_requests q → approval_by_id q id = Some a → a_result_grant_id a = None →
  ((∃ s, o = CO_Narrowed s) ∨ ∃ ttl, o = CO_Always ttl) →
  decide e after id o q = (Ok r, q') →
  r = None ∧ ∃ row, d_grants (q_daemon q') = d_grants (q_daemon q) ++ [row].
Proof.
  intros Hu Ha Hg Ho. unfold decide, get_approval. rewrite Ha. cbn [ok_or].
  destruct (core_status (a_status a)) as [st|]; [|done]. destruct (transition st o) as [|[]]; [|done..].
  destruct (resolve_approval e id (daemon_outcome after o) q) as [[[]|] q1] eqn:Hr; [|done].
  pose proof (grows_resolve [] e id (daemon_outcome after o) q) as Hgr. rewrite Hr in Hgr. cbn in Hgr.
  apply resolve_Ok in Hr as (a' & Ha' & Hid & Hpe & _ & Hd). rewrite Ha in Ha'. injection Ha' as <-.
  assert (∃ a1, approval_by_id q1 id = Some a1 ∧ a_result_grant_id a1 = None) as (a1 & Ha1 & Hn).
  { apply approval_by_id_Some in Ha as [Hin _]. destruct (grows_row [] _ _ _ Hu Hgr Hin) as (a1 & Ha1 & _). rewrite Hid in Ha1.
    exists a1. split; [done|]. apply approval_by_id_Some in Ha1 as [Hin1 Hid1].
    destruct Ho as [[s ->]|[ttl ->]]; cbn [daemon_outcome] in Hd; unfold decide_row in Hd; destruct (bool_decide _); try done.
    - destruct (scope_within _ _ _); [|done]. apply mint_shaped_Ok in Hd as (g & d1 & d2 & _ & _ & Hf).
      rewrite Hid in Hf. rewrite <-Hg. exact (finish_no_grant _ _ _ _ _ (with_daemon q d2) _ a a1 Hu Hf Hin Hid Hin1 Hid1).
    - cbn [default] in Hd. apply mint_shaped_Ok in Hd as (g & d1 & d2 & _ & _ & Hf).
      pose proof (standing_requests e (a_persona_id a) (Named (a_action a)) (a_scope a) (Some (after ttl)) (with_daemon q d2)) as [Hsr _].
      destruct (create_standing_grant _ _ _ _ _ _) as [[[]|] q2]; [|done]. cbn in Hsr.
      rewrite <-Hg. assert (unique_requests q2) as Hu2 by (unfold unique_requests; by rewrite Hsr).
      rewrite Hid in Hf. rewrite <-Hsr in Hin. exact (finish_no_grant _ _ _ _ _ q2 _ a a1 Hu2 Hf Hin Hid Hin1 Hid1). }
  destruct Ho as [[s ->]|[ttl ->]]; cbn [daemon_outcome] in Hd; rewrite Ha1; cbn [map_err ok_or result_bind]; rewrite Hn;
    intros [= <- <-]; (split; [done|]); apply decide_row_grants in Hd as (_ & _ & [(? & _)|(row & Hrow & _)]); try done; by exists row.
Qed.

(** ** A small queue *)

Import ToyMint.

Module ToyQueue.

Definition stmts : list Statement :=
  [mkStatement "s0" Credential ["github:push"] (Exact "acme/app") None Usage_default [] None].
Definition binding : ApprovalBindingRecord := mkBinding "att-1" "caller" "token" "contract" "invocation".

#[export] Instance ops : QueueOps := {|
  statements_to_json _ := Ok "stmts";
  statements_from_json j := if bool_decide (j = "stmts") then Some stmts else None;
  binding_to_json _ := Ok "binding";
  binding_from_json _ := Ok binding;
  sha256_hex j := j;
  parse_rfc3339 _ := Ok 2000 |}.

Definition seed (c : ascii) : bytes := mr_seed (ToySecrets.random c).
Definition env (id : string) : QueueEnv :=
  mkQueueEnv ToyMint.env (ToyMint.mint id "x") id (seed "y") (seed "z") None.
Definition start : Queue := mkQueue ToyMint.start [] [].

(** A proposal with the scope of everything, and an execution to be approved. *)
Definition proposed : Queue :=
  run_queue start [(env "1", QSubmit "alice" "github/pat" "*" (Some 600) "git.push" "high" (Some stmts) no_notify
                               GrantShapeFields_default RK_Grant);
                   (env "2", QSubmitBinding "alice" "exec" "run" "exec" "high" no_notify binding);
                   (env "3", QSubmit "alice" "github/pat" "github:push:acme/*" (Some 600) "git.push" "high" None no_notify
                               (ToyMint.depth 1) RK_Grant)].
Definition approved : Queue := (resolve_approval (env "4") "approval-2" Approved proposed).2.

End ToyQueue.
Import ToyQueue.

(** ** Witnesses *)

Lemma requests_decided_once_witness :
  let q1 := (resolve_approval (ToyQueue.env "7") "approval-1" Approved ToyQueue.proposed).2 in
  let q2 := run_queue q1 [(ToyQueue.env "8", QGrants (OpRevoke "grant-7")); (ToyQueue.env "8", QDismiss "approval-1")] in
  length (d_grants (q_daemon q2)) = 1%nat ∧
  resolve_approval (ToyQueue.env "9") "approval-1" (Denied "late") q2 = (Err SE_AlreadyResolved, q2).
Proof.
  intros q1 q2. assert ((resolve_approval (ToyQueue.env "7") "approval-1" Approved ToyQueue.proposed).1 = Ok tt) as Hok
    by (vm_compute; reflexivity).
  assert (unique_requests ToyQueue.proposed) as Hu by (apply (bool_decide_unpack _); vm_compute; exact I).
  split; [vm_compute; reflexivity|].
  apply (requests_decided_once ToyQueue.proposed (ToyQueue.env "7") "approval-1" Approved q1); [exact Hu|].
  rewrite <-Hok. apply surjective_pairing.
Defined.

Lemma bindings_used_once_witness :
  let q1 := (consume_approval_binding (ToyQueue.env "5") "approval-2" ToyQueue.binding ToyQueue.approved).2 in
  (consume_approval_binding (ToyQueue.env "6") "approval-2" ToyQueue.binding q1).1 ≠ Ok true.
Proof.
  intros q1.
  assert ((consume_approval_binding (ToyQueue.env "5") "approval-2" ToyQueue.binding ToyQueue.approved).1 = Ok true) as Hok
    by (vm_compute; reflexivity).
  assert (unique_requests ToyQueue.approved) as Hu by (apply (bool_decide_unpack _); vm_compute; exact I).
  refine (proj2 (bindings_used_once ToyQueue.approved (ToyQueue.env "5") "approval-2" ToyQueue.binding q1 Hu _)
            [] (ToyQueue.env "6") ToyQueue.binding).
  rewrite <-Hok. apply surjective_pairing.
Defined.

Lemma decision_grants_request_witness :
  let q' := (resolve_approval (ToyQueue.env "7") "approval-3" (Narrowed "github:push:acme/app") ToyQueue.proposed).2 in
  ∃ row, d_grants (q_daemon q') = d_grants (q_daemon ToyQueue.proposed) ++ [row] ∧
    r_max_delegation_depth row = Some 1 ∧ r_persona_id row = "alice".
Proof.
  intros q'.
  assert ((resolve_approval (ToyQueue.env "7") "approval-3" (Narrowed "github:push:acme/app") ToyQueue.proposed).1 = Ok tt)
    as Hok by (vm_compute; reflexivity).
  destruct (decision_grants_request (ToyQueue.env "7") "approval-3" (Narrowed "github:push:acme/app") ToyQueue.proposed q')
    as (a & Ha & _ & _ & H); [rewrite <-Hok; apply surjective_pairing|].
  assert (gs_max_delegation_depth (a_shape a) = Some 1 ∧ a_persona_id a = "alice" ∧ a_resolution_kind a = "grant")
    as (Hd & Hp & Hk).
  { apply (f_equal (λ o, (λ a, (gs_max_delegation_depth (a_shape a), a_persona_id a, a_resolution_kind a)) <$> o)) in Ha.
    cbn [fmap option_fmap option_map] in Ha. assert (Hv := Ha). vm_compute in Hv. injection Hv as H1 H2 H3. by split_and!. }
  destruct H as [[_ [Hk'|[? ?]]]|(row & sc & Hg & _ & _ & _ & Hpe & _ & _ & _ & _ & _ & Hmd & _)].
  - rewrite Hk in Hk'. discriminate Hk'.
  - discriminate.
  - exists row. split; [exact Hg|]. split; [rewrite Hmd; exact Hd|rewrite Hpe; exact Hp].
Defined.

Lemma proposal_integrity_witness :
  let o := propose_grant_with_notify (ToyQueue.env "1") "alice" "github/pat" "*" (Some 600) "git.push" "high" ToyQueue.stmts
             no_notify ToyQueue.start in
  let q3 := (resolve_approval (ToyQueue.env "7") "approval-1" Approved o.2).2 in
  ∃ row sb, d_grants (q_daemon q3) = [row] ∧ r_blocks_json row = Some [sb] ∧ statements (block sb) = ToyQueue.stmts.
Proof.
  intros o q3. assert (∃ request, o = (Ok request, o.2) ∧ a_id request = "approval-1") as (request & Ho & Hid)
    by (vm_compute; eexists; split; reflexivity).
  assert ((resolve_approval (ToyQueue.env "7") "approval-1" Approved o.2).1 = Ok tt) as Hok by (vm_compute; reflexivity).
  assert (unique_requests ToyQueue.start) as Hu by (apply (bool_decide_unpack _); vm_compute; exact I).
  assert (d_grants (q_daemon o.2) = []) as He by (vm_compute; reflexivity).
  destruct (proposal_integrity ToyQueue.start (ToyQueue.env "1") "alice" "github/pat" "*" (Some 600) "git.push" "high"
              ToyQueue.stmts no_notify request o.2 [] (ToyQueue.env "7") q3)
    as [(row & sb & Hg & _ & _ & Hb & Hst)|[(env & j & h & Hn) _]].
  - exact Hu.
  - exact Ho.
  - intros j [= <-]. split; [reflexivity|]. intros j' Hj. exact Hj.
  - rewrite Hid. cbn [run_queue foldl]. rewrite <-Hok. apply surjective_pairing.
  - exists row, sb. cbn [run_queue foldl] in Hg. rewrite He in Hg. split; [exact Hg|]. split; [exact Hb|exact Hst].
  - exfalso. clear -Hn. inversion Hn.
Defined.

Lemma proposal_bypassed_witness :
  let q' := (resolve_approval (ToyQueue.env "7") "approval-1" (Always None None) ToyQueue.proposed).2 in
  ∃ row sb s, d_grants (q_daemon q') = d_grants (q_daemon ToyQueue.proposed) ++ [row] ∧
    r_blocks_json row = Some [sb] ∧ statements (block sb) = [s] ∧ actions s = ["*"] ∧ resource s = Any ∧ conditions s = [].
Proof.
  intros q'.
  assert ((resolve_approval (ToyQueue.env "7") "approval-1" (Always None None) ToyQueue.proposed).1 = Ok tt)
    as Hok by (vm_compute; reflexivity).
  destruct (approval_by_id ToyQueue.proposed "approval-1") as [a|] eqn:Ha.
  2: { apply (f_equal (λ o, bool_decide (is_Some o))) in Ha. vm_compute in Ha. discriminate Ha. }
  assert (Hv := f_equal (λ o, (λ a, (a_resolution_kind a, a_scope a)) <$> o) Ha). cbn [fmap option_fmap option_map] in Hv.
  vm_compute in Hv. injection Hv as Hk Hs.
  apply (proposal_bypassed (ToyQueue.env "7") "approval-1" (Always None None) ToyQueue.proposed q' a Ha (eq_sym Hk) (eq_sym Hs)).
  - right. by exists None.
  - rewrite <-Hok. apply surjective_pairing.
Defined.

Lemma narrowed_decision_unreported_witness :
  let o := decide (ToyQueue.env "7") (λ _, "soon") "approval-3" (CO_Narrowed (mkRequestedScope "github:push:acme/app" None []))
             ToyQueue.proposed in
  o.1 = Ok None ∧ ∃ row, d_grants (q_daemon o.2) = d_grants (q_daemon ToyQueue.proposed) ++ [row].
Proof.
  intros o. assert (is_ok o.1 = true) as Hok by (vm_compute; reflexivity).
  assert (unique_requests ToyQueue.proposed) as Hu by (apply (bool_decide_unpack _); vm_compute; exact I).
  destruct (approval_by_id ToyQueue.proposed "approval-3") as [a|] eqn:Ha.
  2: { apply (f_equal (λ o, bool_decide (is_Some o))) in Ha. vm_compute in Ha. discriminate Ha. }
  assert (Hv := f_equal (λ o, a_result_grant_id <$> o) Ha). cbn [fmap option_fmap option_map] in Hv.
  vm_compute in Hv. injection Hv as Hg.
  apply is_ok_true in Hok as [r Hr].
  destruct (narrowed_decision_unreported (ToyQueue.env "7") (λ _, "soon") "approval-3"
              (CO_Narrowed (mkRequestedScope "github:push:acme/app" None [])) ToyQueue.proposed r o.2 a Hu Ha (eq_sym Hg)) as [-> H].
  - left. by eexists.
  - rewrite <-Hr. apply surjective_pairing.
  - split; [exact Hr|exact H].
Defined.
