(* ===== verification/AccessRequests.v ===== *)
(** * Access requests

    crates/ember-daemon/src/infra/handler/access_requests.rs: an agent asks for access by the reference of an action; a
    standing grant or a statement of a grant it already has answers at once, the policy of
    [ActionPolicy] decides otherwise, and what needs a human goes to the queue of [Approvals].
    crates/ember-daemon/src/infra/rate_limit.rs: the limit that is checked before. The matching of
    statements is [match_standing_statement] of trust/standing_grant.rs. The JSON parameters of a
    request are a record of the fields that are read; the registry of action manifests is an argument. *)

From stdpp Require Import base gmap list strings sorting.
From Stdlib Require Import Ascii Lia ZArith.
From S2P Require Import Prelude CoreTypes Numbers Glob GrantTypes Attenuation GrantLifecycle ChainCrypto BranchGlob ProxyMatch Metering ProxyPolicy ProxyForward ProxyDaemon Lease LeaseSigning GrantTable GrantMint ActionPolicy Approvals.

Local Infix "+:+" := String.append (at level 60, right associativity).
Local Open Scope Z_scope.

(** ** The rate limit *)

Record RateLimiter := mkLimiter { rl_window : Z; rl_max_requests : nat; rl_state : gmap string (list Z) }.

Definition RateLimiter_new (max_requests : nat) (window_secs : Z) : RateLimiter := mkLimiter window_secs max_requests ∅.
Definition RateLimiter_default : RateLimiter := RateLimiter_new 100 60.

(** [now.saturating_duration_since(t) < window] *)
Definition in_window (window now t : Z) : bool := Z.max 0 (now - t) <? window.

Definition check_key_at (l : RateLimiter) (key : string) (max_requests : nat) (window now : Z) : bool * RateLimiter :=
  let entries := List.filter (in_window window now) (default [] (rl_state l !! key)) in
  if (max_requests <=? length entries)%nat
  then (false, mkLimiter (rl_window l) (rl_max_requests l) (<[key := entries]> (rl_state l)))
  else (true, mkLimiter (rl_window l) (rl_max_requests l) (<[key := entries ++ [now]]> (rl_state l))).

Definition check (l : RateLimiter) (persona_id : string) (now : Z) : bool * RateLimiter :=
  check_key_at l persona_id (rl_max_requests l) (rl_window l) now.

Definition action_key_of (persona_id action : string) : string :=
  persona_id +:+ of_bytes ["031"%char] +:+ action.

Definition check_action (l : RateLimiter) (persona_id action : string) (now : Z) : bool * RateLimiter :=
  check l (action_key_of persona_id action) now.

Definition check_action_min_interval (l : RateLimiter) (persona_id action : string) (window_secs now : Z)
  : bool * RateLimiter :=
  check_key_at l (action_key_of persona_id action) 1 window_secs now.

Definition cleanup (l : RateLimiter) (now : Z) : RateLimiter :=
  mkLimiter (rl_window l) (rl_max_requests l)
    (omap (λ entries, let kept := List.filter (in_window (rl_window l) now) entries in
                      if bool_decide (kept = []) then None else Some kept) (rl_state l)).

(** ** Statements that answer a request *)

Record StandingStatementMatch := mkStandingMatch { sm_grant_id : string; sm_block_index : nat; sm_statement_sid : string }.

Definition list_active_grants (s : DaemonStore) : list GrantRow :=
  List.filter (λ r, (bool_decide (r_status r = "active") || bool_decide (r_status r = "paused"))
                    && match r_expires_at r with Some e => now_secs s <? e | None => true end) (grants s).

Section Matching.
Context {Cr : CryptoOps} {U : UriOps} {JA : JsonArrayOps}.

Definition resource_matches_allowed_targets (allowed_targets : option string) (res : string) : bool :=
  match allowed_targets with
  | None => true
  | Some targets =>
      let entries := parse_allowed_targets targets in
      if bool_decide (entries = []) then false
      else
        let candidate :=
          if str_contains res "://" then
            match uri_parse res with Ok u => default res (uri_host u) | Err _ => res end
          else res in
        existsb (λ pattern, match strip_prefix_on (to_bytes "*.") (to_bytes pattern) with
                            | Some domain => host_matches_domain candidate (of_bytes domain)
                            | None => bool_decide (candidate = pattern)
                            end) entries
  end.

Fixpoint match_grants (s : DaemonStore) (persona_id action res : string) (rows : list GrantRow)
  : option StandingStatementMatch :=
  match rows with
  | [] => None
  | g :: rows' =>
      if negb (bool_decide (r_persona_id g = persona_id)) then match_grants s persona_id action res rows'
      else if negb (resource_matches_allowed_targets (r_allowed_targets g) res)
      then match_grants s persona_id action res rows'
      else
        match get_access_grant s (r_id g) with
        | Err _ => match_grants s persona_id action res rows'
        | Ok ag =>
            match List.find (λ p, applicable_to p.2 action res) (grant_statements ag) with
            | Some (block_idx, stmt) => Some (mkStandingMatch (r_id g) block_idx (sid stmt))
            | None => match_grants s persona_id action res rows'
            end
        end
  end.

Definition match_standing_statement (s : DaemonStore) (persona_id action res : string) : option StandingStatementMatch :=
  match_grants s persona_id action res (list_active_grants s).

End Matching.

(** ** Requests *)

Record AccessRequestIntent := mkIntent {
  i_persona_id : string;
  i_credential_name : string;
  i_policy_action : string;
  i_grant_scope : string;
  i_ttl_secs : option Z;
  i_action_ref : option ActionRef;
  i_need : list string;
  i_resource_selector : option ResourceSelector;
  i_target_source : string
}.

Definition manifest_statements (i : AccessRequestIntent) : option (list Statement) :=
  match i_resource_selector i with
  | None => None
  | Some selector =>
      Some (imap (λ idx action, mkStatement ("need" +:+ u64_to_string (Z.of_nat idx)) Credential [action] selector None
                                  Usage_default [] None) (i_need i))
  end.

Definition manifest_scope_display (i : AccessRequestIntent) : string := str_join " " (i_need i).

Definition resource_for_matching (i : AccessRequestIntent) : string :=
  match i_resource_selector i with
  | Some (Exact value) => value
  | Some (Glob pattern) => pattern
  | Some (GlobWithSubtarget primary_glob _) => primary_glob
  | Some (Regex pattern) => pattern
  | Some Any | None => "*"
  end.

(** The fields of the parameters that are read; [pa_notify] are the texts for the notification. *)
Record AccessTarget := mkTarget { t_kind : option string; t_provider : option string; t_repo : option string }.
Record AccessParams := mkParams {
  pa_persona_id : option string; pa_credential_name : option string; pa_ttl_secs : option Z;
  pa_has_action : bool; pa_has_scope : bool; pa_action_ref : option string; pa_resource_id : option string;
  pa_target : option (option AccessTarget); pa_notify : Notify }.

(** An action of a manifest, with what it needs. *)
Record ManifestAction := mkAction { ma_key : string; ma_action_version : option string; ma_need : list string }.
Record Manifest := mkManifest { mf_plugin_address : option string; mf_actions : list ManifestAction }.

Definition RpcError : Type := Z * string.

(** [.map(str::trim).filter(|value| !value.is_empty())] *)
Definition nonblank (o : option string) : option string :=
  match o with Some s => let t := str_trim s in if str_is_empty t then None else Some t | None => None end.

Definition reject_removed_access_request_fields (p : AccessParams) : result unit RpcError :=
  if pa_has_action p then Err (-32602, "access.request no longer accepts 'action'; use 'action_ref'")
  else if pa_has_scope p
  then Err (-32602, "access.request no longer accepts 'scope'; use 'resource_id' or typed 'target'")
  else Ok tt.

Definition action_declared (r : ActionRef) (a : ManifestAction) : bool :=
  bool_decide (ma_key a = action_key r) && bool_decide (ma_action_version a = Some (action_version r)).

Fixpoint manifest_action (r : ActionRef) (registry : list Manifest) : option ManifestAction :=
  match registry with
  | [] => None
  | m :: registry' =>
      if negb (bool_decide (mf_plugin_address m = Some (plugin_address r))) then manifest_action r registry'
      else match List.find (action_declared r) (mf_actions m) with
           | Some a => Some a
           | None => manifest_action r registry'
           end
  end.

Definition resolve_manifest_action_projection (registry : result (list Manifest) string) (r : ActionRef)
  : result (list string) RpcError :=
  let? registry := map_err (λ m, (-32000, "load bundled construct manifest registry: " +:+ m)) registry in
  let? a := ok_or (manifest_action r registry)
              (-32602, "action_ref " +:+ ActionRef_display r +:+ " is not declared in bundled construct manifests") in
  Ok (ma_need a).

Definition resource_selector_from_resource_id (resource_id : string) : ResourceSelector :=
  if bool_decide (resource_id = "*") then Any
  else if str_contains resource_id "*" then Glob resource_id
  else Exact resource_id.

(** [chars().any(char::is_whitespace)], on the UTF-8 bytes. *)
Fixpoint has_whitespace (l : bytes) : bool :=
  match l with
  | [] => false
  | a :: r => ws1 a
              || match r with b :: r' => ws2 a b || match r' with c :: _ => ws3 a b c | [] => false end | [] => false end
              || has_whitespace r
  end.

Definition validate_github_repo_target (repo : string) : result unit RpcError :=
  let parts := str_split "/"%char repo in
  if str_is_empty (nth 0 parts "") || str_is_empty (nth 1 parts "") || (2 <? length parts)%nat
     || str_contains repo "*" || has_whitespace (to_bytes repo)
  then Err (-32602, "target.repo must be an exact GitHub repository in 'owner/name' form")
  else Ok tt.

Definition target_resource_selector (target : option AccessTarget) : result (ResourceSelector * string) RpcError :=
  let? t := ok_or target (-32602, "'target' must be an object") in
  let? kind := ok_or (nonblank (t_kind t)) (-32602, "'target.kind' is required") in
  if bool_decide (kind = "github_repo") then
    match nonblank (t_provider t) with
    | Some provider =>
        if negb (bool_decide (provider = "github"))
        then Err (-32602, "target.kind 'github_repo' requires provider 'github' when provider is set")
        else Ok tt
    | None => Ok tt
    end ;?
    let? repo := ok_or (nonblank (t_repo t)) (-32602, "'target.repo' is required for github_repo") in
    validate_github_repo_target repo ;?
    Ok (Exact repo, "target.github_repo")
  else Err (-32602, "unsupported target.kind '" +:+ kind +:+ "' for access.request").

Definition manifest_resource_selector (p : AccessParams) : result (ResourceSelector * string) RpcError :=
  match nonblank (pa_resource_id p) with
  | Some resource_id => Ok (resource_selector_from_resource_id resource_id, "resource_id")
  | None =>
      match pa_target p with
      | Some target => target_resource_selector target
      | None => Err (-32602, "access.request requires 'resource_id' or typed 'target'")
      end
  end.

Definition parse_access_request_intent (registry : result (list Manifest) string) (p : AccessParams)
  : result AccessRequestIntent RpcError :=
  let? persona_id := ok_or (pa_persona_id p) (-32602, "missing 'persona_id'") in
  let? credential_name := ok_or (pa_credential_name p) (-32602, "missing 'credential_name'") in
  reject_removed_access_request_fields p ;?
  let? raw := ok_or (nonblank (pa_action_ref p)) (-32602, "access.request requires 'action_ref'") in
  let? action_ref := map_err (λ m, (-32602, "invalid action_ref: " +:+ m)) (ActionRef_parse raw) in
  let? need := resolve_manifest_action_projection registry action_ref in
  if bool_decide (need = []) then
    Err (-32602, "action_ref " +:+ ActionRef_display action_ref +:+ " declares no need in bundled manifest")
  else
    let? sel := manifest_resource_selector p in
    Ok (mkIntent persona_id credential_name (ActionRef_display action_ref) (str_join " " need) (pa_ttl_secs p)
          (Some action_ref) need (Some sel.1) sel.2).

(** ** Answers *)

Inductive AccessResponse :=
| RateSpike
| ApprovedStanding (grant_id : string)
| ApprovedAuto (grant_id risk : string)
| PendingApproval (approval_id risk : string)
| DeniedByPolicy (risk rule : string).

Definition risk_str (r : RiskLevel) : string :=
  match r with Risk_Low => "low" | Risk_Medium => "medium" | Risk_High => "high" | Risk_Critical => "critical" end.

(** The daemon as a request sees it: the limiter and the queue with its tables. *)
Record Access := mkAccess { ac_limiter : RateLimiter; ac_queue : Queue }.

(** What [handle_await_approval] tells. *)
Inductive AwaitDecision := AD_Approved | AD_Denied (reason : string) | AD_TimedOut.

Definition await_decision (a : ApprovalRow) : option AwaitDecision :=
  let has s := bool_decide (a_status a = s) in
  if has "pending" then None
  else if has "approved" || has "narrowed" || has "narrowed_and_approved" then Some AD_Approved
  else if has "denied" || has "dismissed" then Some (AD_Denied (default ("approval " +:+ a_status a) (a_reason a)))
  else if has "timed_out" || has "expired" then Some AD_TimedOut
  else Some (AD_Denied ("unknown approval status: " +:+ a_status a)).

(** One answer per poll: [polls] are the times of the polls with the queue each sees, [owner] is the check of the
    caller against the request's persona; [None] is a call that still waits. *)
Fixpoint handle_await_approval (owner : string → result unit RpcError) (request_id : string) (deadline : Z)
  (polls : list (Z * Queue)) : option (result AwaitDecision RpcError) :=
  match polls with
  | [] => None
  | (now, q) :: polls' =>
      match (let? info := map_err (λ err, match err with
                                          | SE_NotFound => (-32004, "approval " +:+ request_id +:+ " not found")
                                          | other => (-32000, StoreError_display other)
                                          end) (get_approval q request_id) in
             owner (a_persona_id info) ;? Ok (await_decision info)) with
      | Err err => Some (Err err)
      | Ok (Some v) => Some (Ok v)
      | Ok None => if deadline <=? now then Some (Ok AD_TimedOut) else handle_await_approval owner request_id deadline polls'
      end
  end.

Section Requests.
Context {Cr : CryptoOps} {A : AeadOps} {J : MetaJson} {SJ : SecretJson} {Id : UuidOps} {BJ : BlocksJson} {QO : QueueOps}.
Context {U : UriOps} {JA : JsonArrayOps} {Un : UnicodeOps}.

Definition manifest_standing_covered (e : QueueEnv) (i : AccessRequestIntent) (q : Queue) : result bool StoreError :=
  let? by_action := match i_action_ref i with
                    | Some r => check_standing_grant_action_ref e (i_persona_id i) r q
                    | None => Ok false
                    end in
  if by_action then Ok true
  else
    let s := store_of (qe_env e) (q_daemon q) in
    if forallb (λ need, bool_decide (is_Some (match_standing_statement s (i_persona_id i) need (resource_for_matching i))))
         (i_need i)
    then Ok (negb (bool_decide (i_need i = [])))
    else Ok false.

(** Two writes, each on its own: there is no transaction around them. *)
Definition issue_manifest_grant (e : QueueEnv) (i : AccessRequestIntent) (q : Queue) : result GrantRow StoreError * Queue :=
  match manifest_statements i with
  | None => (Err (SE_InvalidInput "manifest request missing statements"), q)
  | Some stmts =>
      match create_grant_with_budget (qe_env e) (qe_mint e) (i_persona_id i) (i_credential_name i) (i_grant_scope i)
              (i_ttl_secs i) None (q_daemon q) with
      | (Err err, d) => (Err err, with_daemon q d)
      | (Ok grant, d) =>
          match mint_composite_chain_for_grant (qe_env e) (qe_mint e) (qe_bound_seed e) (qe_block_seed e) (r_id grant)
                  (i_persona_id i) (i_credential_name i) stmts (i_ttl_secs i) d with
          | (Err err, d) => (Err err, with_daemon q d)
          | (Ok _, d) => (Ok grant, with_daemon q d)
          end
      end
  end.

Definition rpc_store {B} (r : result B StoreError) : result B RpcError := map_err (λ err, (-32000, StoreError_display err)) r.

(** [instant] is the monotonic clock of the limiter. *)
Definition handle_request (registry : result (list Manifest) string) (policy : PolicyConfig) (e : QueueEnv) (instant : Z)
  (p : AccessParams) (st : Access) : result (AccessResponse * AccessRequestIntent) RpcError * Access :=
  match parse_access_request_intent registry p with
  | Err err => (Err err, st)
  | Ok intent =>
      let '(allowed, limiter) := check_action (ac_limiter st) (i_persona_id intent) (i_policy_action intent) instant in
      let q := ac_queue st in
      if negb allowed then (Ok (RateSpike, intent), mkAccess limiter q)
      else
        match manifest_standing_covered e intent q with
        | Err err => (rpc_store (Err err), mkAccess limiter q)
        | Ok true =>
            let '(grant, q) := issue_manifest_grant e intent q in
            (let? g := rpc_store grant in Ok (ApprovedStanding (r_id g), intent), mkAccess limiter q)
        | Ok false =>
            let eval := evaluate policy (i_policy_action intent) in
            let risk := risk_str (ev_risk eval) in
            match ev_requirement eval with
            | AR_Auto =>
                let '(grant, q) := issue_manifest_grant e intent q in
                (let? g := rpc_store grant in Ok (ApprovedAuto (r_id g) risk, intent), mkAccess limiter q)
            | AR_Required =>
                match manifest_statements intent with
                | None => (Err (-32000, "manifest request missing statements"), mkAccess limiter q)
                | Some stmts =>
                    let '(req, q) := propose_grant_with_notify e (i_persona_id intent) (i_credential_name intent)
                                       (manifest_scope_display intent) (i_ttl_secs intent) (i_policy_action intent) risk stmts
                                       (pa_notify p) q in
                    (let? r := rpc_store req in Ok (PendingApproval (a_id r) risk, intent), mkAccess limiter q)
                end
            | AR_Denied => (Ok (DeniedByPolicy risk (default "" (ev_matched_rule eval)), intent), mkAccess limiter q)
            end
        end
  end.

End Requests.

(** ** What the limit keeps *)

(** The calls that use the keys of the access requests, and the clean-up. [check] is called with other keys by nobody, and
    [check_action_min_interval] only by refresh_cert, under the action refresh_cert:<container>, a key no access request has: its times
    neither use up nor free a slot of these. *)
Inductive LimiterOp := LCheck (persona_id action : string) | LCleanup.

(** The checks that were accepted, with the limiter. *)
Definition limiter_step (s : list (string * Z) * RateLimiter) (o : Z * LimiterOp) : list (string * Z) * RateLimiter :=
  match o.2 with
  | LCheck p a =>
      let '(ok, l) := check_action s.2 p a o.1 in
      (if ok then s.1 ++ [(action_key_of p a, o.1)] else s.1, l)
  | LCleanup => (s.1, cleanup s.2 o.1)
  end.

Definition run_limiter (l : RateLimiter) (ops : list (Z * LimiterOp)) : list (string * Z) * RateLimiter :=
  foldl limiter_step ([], l) ops.

Definition times_of (key : string) (h : list (string * Z)) : list Z :=
  (List.filter (λ x, bool_decide (x.1 = key)) h).*2.

(** How often [key] was accepted from [lo] on and before [hi]. *)
Definition accepted_in (key : string) (lo hi : Z) (h : list (string * Z)) : nat :=
  length (List.filter (λ t, (lo <=? t) && (t <? hi)) (times_of key h)).

Lemma times_app key h x : times_of key (h ++ [x]) = times_of key h ++ if bool_decide (x.1 = key) then [x.2] else [].
Proof. unfold times_of. rewrite List.filter_app, fmap_app. cbn. by destruct (bool_decide _). Qed.

Lemma accepted_app key lo hi h x :
  accepted_in key lo hi (h ++ [x])
  = (accepted_in key lo hi h + if bool_decide (x.1 = key) && ((lo <=? x.2)%Z && (x.2 <? hi)%Z) then 1 else 0)%nat.
Proof.
  unfold accepted_in. rewrite times_app, List.filter_app, length_app. f_equal. destruct (bool_decide _); [|done]. cbn.
  by destruct (_ && _).
Qed.

Lemma filter_narrower {B} (P Q : B → bool) l :
  (∀ x, x ∈ l → P x = true → Q x = true) → List.filter P (List.filter Q l) = List.filter P l.
Proof.
  induction l as [|x l IH]; intros H; [done|]. cbn [List.filter].
  rewrite <-(IH (λ y Hy, H y (list_elem_of_further _ _ _ Hy))). pose proof (H x (list_elem_of_here _ _)) as Hx.
  destruct (Q x) eqn:Eq; cbn; destruct (P x) eqn:Ep; try done. by specialize (Hx eq_refl).
Qed.

Lemma filter_same {B} (P Q : B → bool) l : (∀ x, x ∈ l → P x = Q x) → List.filter P l = List.filter Q l.
Proof.
  induction l as [|x l IH]; intros H; [done|]. cbn. rewrite (H x (list_elem_of_here _ _)), IH; [done|].
  intros y Hy. apply H. by constructor.
Qed.

Lemma filter_shorter {B} (P Q : B → bool) l :
  (∀ x, x ∈ l → P x = true → Q x = true) → (length (List.filter P l) ≤ length (List.filter Q l))%nat.
Proof.
  intros H. rewrite <-(filter_narrower P Q l H). generalize (List.filter Q l). clear. intros l.
  induction l as [|x l IH]; cbn; [done|]. destruct (P x); cbn; lia.
Qed.

Lemma in_window_later w now now' t : now <= now' → in_window w now' t = true → in_window w now t = true.
Proof. unfold in_window. rewrite !Z.ltb_lt. lia. Qed.

Lemma in_window_narrower w now now' l :
  now <= now' → List.filter (in_window w now') (List.filter (in_window w now) l) = List.filter (in_window w now') l.
Proof. intros H. apply filter_narrower. intros x _. by apply in_window_later. Qed.

(** The limiter after the operations [ops], whose accepted checks are [h]: what it stores is what was accepted, as far as any
    later check can see. *)
Record limiter_ok (max : nat) (w : Z) (ops : list (Z * LimiterOp)) (h : list (string * Z)) (l : RateLimiter) : Prop := {
  lo_window : rl_window l = w;
  lo_max : rl_max_requests l = max;
  lo_state : ∀ key now, Forall (λ o, o.1 <= now) ops →
    List.filter (in_window w now) (default [] (rl_state l !! key)) = List.filter (in_window w now) (times_of key h);
  lo_past : ∀ now, Forall (λ o, o.1 <= now) ops → Forall (λ x, x.2 <= now) h;
  lo_bound : ∀ key lo, (accepted_in key lo (lo + w) h ≤ max)%nat
}.

(** What a check looks at is what was accepted in the window that ends with it. *)
Lemma in_window_accepted w now key h :
  Forall (λ x, x.2 <= now) h →
  length (List.filter (in_window w now) (times_of key h)) = accepted_in key (now - w + 1) (now + 1) h.
Proof.
  intros Hp. unfold accepted_in. f_equal. apply filter_same. intros t (x & -> & Hx)%list_elem_of_fmap.
  apply list_elem_of_In, filter_In in Hx as [Hx _]. apply list_elem_of_In in Hx. rewrite Forall_forall in Hp.
  apply Hp in Hx. unfold in_window. apply eq_bool_prop_intro. rewrite andb_True, !Is_true_true, !Z.ltb_lt, Z.leb_le. lia.
Qed.

Lemma window_bound w lo now key h :
  lo <= now < lo + w →
  (accepted_in key lo (lo + w) h ≤ length (List.filter (in_window w now) (times_of key h)))%nat.
Proof.
  intros Hn. apply filter_shorter. intros t _. unfold in_window. rewrite andb_true_iff, !Z.ltb_lt, Z.leb_le. lia.
Qed.

Lemma limiter_ok_start max w : limiter_ok max w [] [] (RateLimiter_new max w).
Proof. split; try done. intros key lo. cbn. lia. Qed.

Lemma limiter_ok_check max w ops h l p a now :
  limiter_ok max w ops h l → Forall (λ o, o.1 <= now) ops →
  let s := limiter_step (h, l) (now, LCheck p a) in limiter_ok max w (ops ++ [(now, LCheck p a)]) s.1 s.2.
Proof.
  intros [Hw Hm Hs Hp Hb] Hn. unfold limiter_step. cbn [fst snd]. unfold check_action, check, check_key_at. rewrite Hw, Hm.
  set (key := action_key_of p a). rewrite (Hs key now Hn). set (entries := List.filter _ (times_of key h)).
  assert (∀ now' k, now <= now' → Forall (λ o, o.1 <= now') ops →
            List.filter (in_window w now') (default [] (<[key := entries]> (rl_state l) !! k))
            = List.filter (in_window w now') (times_of k h)) as Hst.
  { intros now' k Hl Hf. destruct (base.decide (key = k)) as [<-|Hk].
    - rewrite lookup_insert_eq. cbn. unfold entries. by apply in_window_narrower.
    - rewrite lookup_insert_ne by done. by apply Hs. }
  destruct (Nat.leb_spec max (length entries)) as [Hl|Hl]; cbn [fst snd]; split; cbn [rl_window rl_max_requests rl_state]; try done.
  - intros k now' [Hf Hl']%Forall_app. apply Hst; [|done]. rewrite Forall_singleton in Hl'. exact Hl'.
  - intros now' [Hf _]%Forall_app. by apply Hp.
  - intros k now' [Hf Hl']%Forall_app. rewrite Forall_singleton in Hl'. cbn in Hl'. rewrite times_app, List.filter_app. cbn [fst snd].
    specialize (Hst now' k Hl' Hf). destruct (base.decide (key = k)) as [<-|Hk].
    + rewrite lookup_insert_eq in Hst |- *. rewrite (bool_decide_true (key = key)) by done. cbn [default] in *.
      unfold id in *. by rewrite List.filter_app, Hst.
    + rewrite lookup_insert_ne in Hst |- * by done. rewrite (bool_decide_false (key = k)) by done. by rewrite app_nil_r, Hst.
  - intros now' [Hf Hl']%Forall_app. apply Forall_app. split; [by apply Hp|]. constructor; [|done]. rewrite Forall_singleton in Hl'. exact Hl'.
  - intros k lo. rewrite accepted_app. cbn [fst snd]. pose proof (Hb k lo). case_bool_decide as Hk; [|cbn; lia]. subst k. cbn.
    destruct (Z.leb_spec lo now), (Z.ltb_spec now (lo + w)); cbn; try lia.
    pose proof (window_bound w lo now key h). unfold entries in Hl. lia.
Qed.

Lemma limiter_ok_cleanup max w ops h l now :
  limiter_ok max w ops h l → Forall (λ o, o.1 <= now) ops → limiter_ok max w (ops ++ [(now, LCleanup)]) h (cleanup l now).
Proof.
  intros [Hw Hm Hs Hp Hb] Hn. split; try done.
  - intros key now' [Hf Hl]%Forall_app. rewrite Forall_singleton in Hl. cbn in Hl. rewrite <-(Hs key now' Hf).
    cbn [cleanup rl_state]. rewrite lookup_omap, Hw. destruct (rl_state l !! key) as [es|]; [|done].
    cbn. rewrite <-(in_window_narrower w now now' es) by done. case_bool_decide as E; [by rewrite E|done].
  - intros now' [Hf _]%Forall_app. by apply Hp.
Qed.

Lemma run_limiter_ok max w ops :
  StronglySorted Z.le (fst <$> ops) →
  limiter_ok max w ops (run_limiter (RateLimiter_new max w) ops).1 (run_limiter (RateLimiter_new max w) ops).2.
Proof.
  induction ops as [|[now o] ops IH] using rev_ind; intros Hs; [apply limiter_ok_start|].
  rewrite fmap_app in Hs. assert (Forall (λ o, o.1 <= now) ops) as Hn.
  { apply Forall_forall. intros x Hx. eapply (StronglySorted_app_1_elem_of Z.le); [exact Hs|by apply list_elem_of_fmap_2|].
    by constructor. }
  specialize (IH (StronglySorted_app_1_l _ _ _ Hs)). unfold run_limiter in *. rewrite foldl_app. cbn [foldl].
  destruct (foldl _ _ ops) as [h l]. cbn [fst snd] in IH. destruct o as [p a|].
  - by apply limiter_ok_check.
  - by apply limiter_ok_cleanup.
Qed.

(** ** What a request is *)

Lemma parse_intent_Ok registry p i :
  parse_access_request_intent registry p = Ok i →
  ∃ r, i_action_ref i = Some r ∧ i_policy_action i = ActionRef_display r ∧ str_trim (i_policy_action i) = i_policy_action i ∧
    ActionRef_parse (i_policy_action i) = Ok r ∧ i_need i ≠ [] ∧ is_Some (i_resource_selector i) ∧
    pa_credential_name p = Some (i_credential_name i) ∧ pa_persona_id p = Some (i_persona_id i) ∧ i_ttl_secs i = pa_ttl_secs p.
Proof.
  unfold parse_access_request_intent.
  intros (persona & Hp%ok_or_Ok & H)%result_bind_Ok. apply result_bind_Ok in H as (cred & Hc%ok_or_Ok & H).
  apply result_bind_Ok in H as (? & _ & H). apply result_bind_Ok in H as (raw & Hraw%ok_or_Ok & H).
  apply result_bind_Ok in H as (r & Hr%map_err_Ok & H). apply result_bind_Ok in H as (need & _ & H).
  case_bool_decide as Hn; [done|]. apply result_bind_Ok in H as (sel & _ & [= <-]). exists r. cbn.
  assert (raw = ActionRef_display r) as <- by by apply ActionRef_parse_Ok in Hr as [-> _].
  split_and!; try done.
  unfold nonblank in Hraw. destruct (pa_action_ref p) as [s|]; [|done]. destruct (str_is_empty _); [done|].
  injection Hraw as <-. apply str_trim_idem.
Qed.

(** What a request asks for, field by field: its persona, credential and lifetime, the needs that a manifest of the registry declares for
    the action it refers to, and the resource it names, by its id or as a repository. *)
Record asked_for (registry : result (list Manifest) string) (p : AccessParams) (i : AccessRequestIntent) : Prop := {
  as_persona : pa_persona_id p = Some (i_persona_id i);
  as_credential : pa_credential_name p = Some (i_credential_name i);
  as_ttl : pa_ttl_secs p = i_ttl_secs i;
  as_fields : pa_has_action p = false ∧ pa_has_scope p = false;
  as_action : ∃ raw r manifests m a, pa_action_ref p = Some raw ∧ str_trim raw = ActionRef_display r ∧ i_action_ref i = Some r ∧
    i_policy_action i = ActionRef_display r ∧ registry = Ok manifests ∧ m ∈ manifests ∧ mf_plugin_address m = Some (plugin_address r) ∧
    a ∈ mf_actions m ∧ ma_key a = action_key r ∧ ma_action_version a = Some (action_version r) ∧ i_need i = ma_need a ∧ i_need i ≠ [];
  as_resource :
    (∃ raw, pa_resource_id p = Some raw ∧ str_trim raw ≠ "" ∧
       i_resource_selector i = Some (if bool_decide (str_trim raw = "*") then Any
                                     else if str_contains (str_trim raw) "*" then Glob (str_trim raw) else Exact (str_trim raw))) ∨
    (nonblank (pa_resource_id p) = None ∧
     ∃ t raw, pa_target p = Some (Some t) ∧ nonblank (t_kind t) = Some "github_repo" ∧ t_repo t = Some raw ∧
       str_contains (str_trim raw) "*" = false ∧ i_resource_selector i = Some (Exact (str_trim raw)))
}.

Lemma nonblank_Some o s : nonblank o = Some s → ∃ raw, o = Some raw ∧ s = str_trim raw ∧ s ≠ "".
Proof.
  unfold nonblank, str_is_empty. destruct o as [raw|]; [|done]. case_bool_decide; [done|]. intros [= <-]. by exists raw.
Qed.

Lemma manifest_action_Some r registry a :
  manifest_action r registry = Some a →
  ∃ m, m ∈ registry ∧ mf_plugin_address m = Some (plugin_address r) ∧ a ∈ mf_actions m ∧ ma_key a = action_key r ∧
    ma_action_version a = Some (action_version r).
Proof.
  induction registry as [|m registry IH]; cbn; [done|].
  assert (manifest_action r registry = Some a → ∃ m', m' ∈ m :: registry ∧ mf_plugin_address m' = Some (plugin_address r) ∧
    a ∈ mf_actions m' ∧ ma_key a = action_key r ∧ ma_action_version a = Some (action_version r)) as Hnext.
  { intros (m' & Hm & H)%IH. exists m'. split; [by right|done]. }
  case_bool_decide as Hp; cbn [negb]; [|done]. destruct (List.find _ _) as [x|] eqn:Hf; [|done]. intros [= ->].
  apply find_some in Hf as [Hin%list_elem_of_In [Hk%bool_decide_eq_true Hv%bool_decide_eq_true]%andb_true_iff].
  exists m. split_and!; [by left|done..].
Qed.

Lemma target_selector_Ok t sel :
  target_resource_selector t = Ok sel →
  ∃ x raw, t = Some x ∧ nonblank (t_kind x) = Some "github_repo" ∧ t_repo x = Some raw ∧ str_contains (str_trim raw) "*" = false ∧
    sel.1 = Exact (str_trim raw).
Proof.
  unfold target_resource_selector. intros (x & Hx%ok_or_Ok & H)%result_bind_Ok. apply result_bind_Ok in H as (kind & Hk%ok_or_Ok & H).
  case_bool_decide as E; [subst kind|done]. apply result_bind_Ok in H as (_ & _ & H).
  apply result_bind_Ok in H as (repo & (raw & Hraw & -> & _)%ok_or_Ok%nonblank_Some & H). apply result_bind_Ok in H as (u & Hv & [= <-]).
  exists x, raw. split_and!; try done. unfold validate_github_repo_target in Hv.
  destruct (str_contains (str_trim raw) "*"); [|done]. by rewrite !orb_true_r in Hv.
Qed.

Lemma parse_intent_asked registry p i : parse_access_request_intent registry p = Ok i → asked_for registry p i.
Proof.
  unfold parse_access_request_intent.
  intros (persona & Hp%ok_or_Ok & H)%result_bind_Ok. apply result_bind_Ok in H as (cred & Hc%ok_or_Ok & H).
  apply result_bind_Ok in H as (? & Hrej & H). apply result_bind_Ok in H as (raw & (raw0 & Hraw & -> & _)%ok_or_Ok%nonblank_Some & H).
  apply result_bind_Ok in H as (r & Hr%map_err_Ok & H). apply result_bind_Ok in H as (need & Hneed & H).
  case_bool_decide as Hn; [done|]. apply result_bind_Ok in H as (sel & Hsel & [= <-]).
  constructor; cbn [i_persona_id i_credential_name i_ttl_secs i_action_ref i_policy_action i_need i_resource_selector]; try done.
  - unfold reject_removed_access_request_fields in Hrej. destruct (pa_has_action p); [done|]. by destruct (pa_has_scope p).
  - unfold resolve_manifest_action_projection in Hneed. apply result_bind_Ok in Hneed as (ms & Hms%map_err_Ok & Hneed).
    apply result_bind_Ok in Hneed as (a & (m & Hm & Hadr & Ha & Hk & Hv)%ok_or_Ok%manifest_action_Some & [= <-]).
    apply ActionRef_parse_Ok in Hr as [Hd _]. by exists raw0, r, ms, m, a.
  - unfold manifest_resource_selector in Hsel. destruct (nonblank (pa_resource_id p)) as [rid|] eqn:Hrid.
    + left. apply nonblank_Some in Hrid as (raw & Hrid & -> & Hne). exists raw. injection Hsel as <-. by split_and!.
    + right. split; [done|]. destruct (pa_target p) as [t|]; [|done]. apply target_selector_Ok in Hsel as (tg & rawr & -> & Hk & Hrepo & Hs & ->).
      by exists tg, rawr.
Qed.

(** A grant issued for a request: one new row for the persona and the credential of the request, with its lifetime and one
    block that holds a statement for every need on the requested resource. *)
Definition issued_request (e : QueueEnv) (i : AccessRequestIntent) (grant_id : string) (q q' : Queue) : Prop :=
  q_approvals q' = q_approvals q ∧ q_standing q' = q_standing q ∧ grant_id ∉ r_id <$> d_grants (q_daemon q) ∧
  ∃ row sb, d_grants (q_daemon q') = d_grants (q_daemon q) ++ [row] ∧ r_id row = grant_id ∧
    r_persona_id row = i_persona_id i ∧ r_credential_name row = i_credential_name i ∧ r_status row = "active" ∧
    r_expires_at row = u64_sat_add (env_now (qe_env e)) <$> i_ttl_secs i ∧ r_blocks_json row = Some [sb] ∧
    Forall2 (λ need s, actions s = [need] ∧ Some (resource s) = i_resource_selector i ∧ budget s = None ∧ conditions s = [])
      (i_need i) (statements (block sb)).

Lemma manifest_statements_Some i stmts :
  manifest_statements i = Some stmts →
  Forall2 (λ need s, actions s = [need] ∧ Some (resource s) = i_resource_selector i ∧ budget s = None ∧ conditions s = [])
    (i_need i) stmts.
Proof.
  unfold manifest_statements. destruct (i_resource_selector i) as [sel|]; [|done]. intros [= <-].
  apply Forall2_same_length_lookup_2; [by rewrite length_imap|].
  intros n need s Hn Hs. rewrite list_lookup_imap, Hn in Hs. by injection Hs as <-.
Qed.

Section RequestProofs.
Context {Cr : CryptoOps} {A : AeadOps} {J : MetaJson} {SJ : SecretJson} {Id : UuidOps} {BJ : BlocksJson} {QO : QueueOps}.
Context {U : UriOps} {JA : JsonArrayOps} {Un : UnicodeOps}.

Lemma issue_Ok e i q g q' :
  issue_manifest_grant e i q = (Ok g, q') → issued_request e i (r_id g) q q'.
Proof.
  unfold issue_manifest_grant. destruct (manifest_statements i) as [stmts|] eqn:Hm; [|done].
  destruct (create_grant_with_budget _ _ _ _ _ _ _ _) as [[row|] d1] eqn:Hc; [|done].
  apply create_Ok in Hc as (sb & _ & _ & _ & _ & Hrow & Hg & Hf & _).
  pose proof (composite_cases (qe_env e) (qe_mint e) (qe_bound_seed e) (qe_block_seed e) (r_id row) (i_persona_id i)
                (i_credential_name i) stmts (i_ttl_secs i) d1) as (_ & _ & H).
  destruct (mint_composite_chain_for_grant _ _ _ _ _ _ _ _ _ _) as [[[]|] d2]; [|done]. cbn [fst snd] in H.
  intros [= <- <-]. destruct H as (sb' & Hst & _ & _ & Hg2). rewrite Hg, update_fresh_row in Hg2 by done.
  split; [done|]. split; [done|]. split; [done|]. eexists _, sb'. split; [exact Hg2|].
  rewrite Hrow. cbn. split_and!; try done. rewrite Hst. by apply manifest_statements_Some.
Qed.

(** The answer of a covered request. *)
Definition standing_answer (e : QueueEnv) (i : AccessRequestIntent) (q : Queue)
  (o : result (AccessResponse * AccessRequestIntent) RpcError * Access) : Prop :=
  (∃ grant_id, o.1 = Ok (ApprovedStanding grant_id, i) ∧ issued_request e i grant_id q (ac_queue o.2)) ∨
  ∃ err, (issue_manifest_grant e i q).1 = Err err ∧ o.1 = Err (-32000, StoreError_display err).

Lemma handle_covered registry policy e t p i limiter q :
  parse_access_request_intent registry p = Ok i →
  (check_action limiter (i_persona_id i) (i_policy_action i) t).1 = true →
  manifest_standing_covered e i q = Ok true →
  standing_answer e i q (handle_request registry policy e t p (mkAccess limiter q)).
Proof.
  intros Hp Hl Hc. unfold handle_request, standing_answer. rewrite Hp. cbn [ac_limiter ac_queue].
  destruct (check_action _ _ _ _) as [[] l']; [|done]. cbn [negb]. rewrite Hc.
  destruct (issue_manifest_grant e i q) as [[g|err] q'] eqn:E; cbn; [left|right].
  - exists (r_id g). split; [done|]. by apply issue_Ok in E.
  - by exists err.
Qed.

Lemma list_standing_app rows row l sel :
  list_standing_loop rows = Ok l → ActionSelector_parse (sg_action_pattern row) = Ok sel →
  list_standing_loop (rows ++ [row]) = Ok (l ++ [(row, sel)]).
Proof.
  revert l. induction rows as [|r rows IH]; intros l; cbn.
  - intros [= <-] H. by rewrite H.
  - intros (s & Hs & (rest & Hr & [= <-])%result_bind_Ok)%result_bind_Ok H. rewrite Hs. cbn. by rewrite (IH _ Hr H).
Qed.

Lemma list_standing_filter f rows l :
  list_standing_loop rows = Ok l → ∃ l', list_standing_loop (List.filter f rows) = Ok l'.
Proof.
  revert l. induction rows as [|r rows IH]; intros l; cbn; [by eauto|].
  intros (s & Hs & (rest & Hr & _)%result_bind_Ok)%result_bind_Ok. destruct (IH _ Hr) as [l' Hl'].
  destruct (f r); [|by eauto]. cbn. rewrite Hs, Hl'. cbn. by eauto.
Qed.

Lemma create_standing_Ok e persona sel scope exp q q' :
  create_standing_grant e persona sel scope exp q = (Ok tt, q') →
  ∃ f, q_standing q' = List.filter f (q_standing q)
                       ++ [mkStanding ("sg-" +:+ qe_uuid e) persona (ActionSelector_display sel) scope exp].
Proof.
  unfold create_standing_grant. destruct (result_bind _ _) as [[]|]; [|done]. intros [= <-]. by eexists.
Qed.

Lemma finish_standing e id st re sc g q q' : finish e id st re sc g q = (Ok tt, q') → q_standing q' = q_standing q.
Proof. unfold finish, update_approvals. destruct (qe_write e); [done|]. by intros [= <-]. Qed.

(** A decision for always leaves a standing grant for the action of the request. *)
Lemma always_standing e id ns exp q q' a :
  resolve_approval e id (Always ns exp) q = (Ok tt, q') → approval_by_id q id = Some a →
  ∃ f sid scope, q_standing q' = List.filter f (q_standing q) ++ [mkStanding sid (a_persona_id a) (a_action a) scope exp].
Proof.
  intros (a' & Ha & _ & _ & _ & H)%resolve_Ok Ha'. rewrite Ha in Ha'. injection Ha' as ->. revert H. unfold decide_row.
  destruct (bool_decide _); [done|]. destruct (match ns with Some _ => _ | None => _ end); [|done].
  intros (g & d1 & d2 & _ & _ & H)%mint_shaped_Ok.
  destruct (create_standing_grant _ _ _ _ _ _) as [[[]|] q2] eqn:E; [|done].
  apply create_standing_Ok in E as [f E]. apply finish_standing in H. eexists f, _, _. rewrite H, E. done.
Qed.

Lemma ref_selector r :
  ActionRef_parse (ActionRef_display r) = Ok r → str_trim (ActionRef_display r) = ActionRef_display r →
  ActionSelector_parse (ActionRef_display r) = Ok (RefPattern (as_pattern r)).
Proof.
  intros Hp Ht. unfold ActionSelector_parse, ActionRefPattern_parse. rewrite Ht, Hp. cbn [result_bind].
  destruct (str_is_empty _) eqn:E; [|done]. exfalso. clear -E. unfold ActionRef_display in E.
  by destruct (plugin_address r).
Qed.

Lemma as_pattern_matches r : pattern_matches (as_pattern r) r = true.
Proof. unfold pattern_matches, matches_component. cbn. rewrite !andb_true_iff, !orb_true_iff, !bool_decide_eq_true. auto. Qed.

Lemma active_standing_true e persona f q l row sel :
  list_standing_grants q = Ok l → (row, sel) ∈ l → sg_persona_id row = persona →
  standing_grant_is_active (env_now (qe_env e)) (sg_expires_at row) = true → f sel = true →
  active_standing e persona f q = Ok true.
Proof.
  intros Hl Hin Hp Ha Hf. unfold active_standing. rewrite Hl. cbn. f_equal. apply existsb_exists. exists (row, sel).
  rewrite <-list_elem_of_In. split; [done|]. cbn. by rewrite bool_decide_true, Ha, Hf.
Qed.

(** A live row of the persona whose chain has a statement for the need, in whatever block. *)
Lemma match_grants_Some s persona need res rows row g idx stmt :
  row ∈ rows → r_persona_id row = persona → resource_matches_allowed_targets (r_allowed_targets row) res = true →
  get_access_grant s (r_id row) = Ok g → (idx, stmt) ∈ grant_statements g → applicable_to stmt need res = true →
  is_Some (match_grants s persona need res rows).
Proof.
  intros Hin Hp Ht Hg Hst Ha. induction rows as [|r rows IH]; [by apply not_elem_of_nil in Hin|]. cbn.
  apply elem_of_cons in Hin as [<-|Hin].
  - rewrite bool_decide_true by done. cbn. rewrite Ht. cbn. rewrite Hg.
    destruct (List.find _ _) as [[k x]|] eqn:E; [done|]. exfalso.
    apply list_elem_of_In in Hst. pose proof (find_none _ _ E (idx, stmt) Hst) as Hn. cbn in Hn. by rewrite Hn in Ha.
  - specialize (IH Hin). clear -IH. destruct (negb _); [done|]. destruct (negb _); [done|].
    destruct (get_access_grant s (r_id r)) as [ag|]; [|done]. by destruct (List.find _ (grant_statements ag)) as [[]|].
Qed.

Lemma list_standing_elem rows l row sel :
  list_standing_loop rows = Ok l → ((row, sel) ∈ l ↔ row ∈ rows ∧ ActionSelector_parse (sg_action_pattern row) = Ok sel).
Proof.
  revert l. induction rows as [|r rows IH]; intros l; cbn.
  - intros [= <-]. split; [by intros []%elem_of_nil|by intros [[]%elem_of_nil _]].
  - intros (s & Hs%map_err_Ok & (rest & Hr & [= <-])%result_bind_Ok)%result_bind_Ok. rewrite !elem_of_cons, (IH _ Hr). split.
    + intros [[= -> ->]|[? ?]]; [split; [by left|done]|split; [by right|done]].
    + intros [[->|?] Hp]; [left|right; done]. congruence.
Qed.

(** A request is covered by an active standing grant of its persona for the action it refers to, or because for each of its needs
    some statement of a grant of its persona, active or paused and not expired, applies to the need on its resource, which the targets of
    the grant allow. *)
Definition covered_by (e : QueueEnv) (i : AccessRequestIntent) (q : Queue) : Prop :=
  (∃ r row sel, i_action_ref i = Some r ∧ row ∈ q_standing q ∧ ActionSelector_parse (sg_action_pattern row) = Ok sel ∧
     sg_persona_id row = i_persona_id i ∧ standing_grant_is_active (env_now (qe_env e)) (sg_expires_at row) = true ∧
     matches_action_ref sel r = true) ∨
  (i_need i ≠ [] ∧ ∀ need, need ∈ i_need i → ∃ row ag idx stmt,
     row ∈ d_grants (q_daemon q) ∧ r_persona_id row = i_persona_id i ∧ (r_status row = "active" ∨ r_status row = "paused") ∧
     (∀ x, r_expires_at row = Some x → env_now (qe_env e) < x) ∧
     resource_matches_allowed_targets (r_allowed_targets row) (resource_for_matching i) = true ∧
     get_access_grant (store_of (qe_env e) (q_daemon q)) (r_id row) = Ok ag ∧ (idx, stmt) ∈ grant_statements ag ∧
     applicable_to stmt need (resource_for_matching i) = true).

Lemma list_active_elem s row :
  row ∈ list_active_grants s ↔ row ∈ grants s ∧ (r_status row = "active" ∨ r_status row = "paused") ∧
    ∀ x, r_expires_at row = Some x → now_secs s < x.
Proof.
  unfold list_active_grants. rewrite !list_elem_of_In, filter_In, andb_true_iff, orb_true_iff, !bool_decide_eq_true.
  split; (intros (H1 & H2 & H3); split_and!; [done|done|]).
  - intros x E. rewrite E in H3. lia.
  - destruct (r_expires_at row) as [x|]; [|done]. apply Z.ltb_lt. by apply H3.
Qed.

Lemma match_grants_inv s persona need res rows :
  is_Some (match_grants s persona need res rows) →
  ∃ row ag idx stmt, row ∈ rows ∧ r_persona_id row = persona ∧ resource_matches_allowed_targets (r_allowed_targets row) res = true ∧
    get_access_grant s (r_id row) = Ok ag ∧ (idx, stmt) ∈ grant_statements ag ∧ applicable_to stmt need res = true.
Proof.
  induction rows as [|r rows IH]; cbn; [by intros [? ?]|].
  assert (is_Some (match_grants s persona need res rows) → ∃ row ag idx stmt, row ∈ r :: rows ∧ r_persona_id row = persona ∧
    resource_matches_allowed_targets (r_allowed_targets row) res = true ∧ get_access_grant s (r_id row) = Ok ag ∧
    (idx, stmt) ∈ grant_statements ag ∧ applicable_to stmt need res = true) as Hnext.
  { intros (row & ag & idx & stmt & Hin & H)%IH. exists row, ag, idx, stmt. split; [by right|done]. }
  case_bool_decide as Hp; cbn [negb]; [|done]. destruct (resource_matches_allowed_targets _ _) eqn:Ht; cbn [negb]; [|done].
  destruct (get_access_grant s (r_id r)) as [ag|] eqn:Hg; [|done]. destruct (List.find _ _) as [[idx stmt]|] eqn:Hf; [|done].
  intros _. apply find_some in Hf as [Hin%list_elem_of_In Ha]. exists r, ag, idx, stmt. split_and!; [by left|done..].
Qed.

Lemma covered_exact e i q b : manifest_standing_covered e i q = Ok b → (b = true ↔ covered_by e i q).
Proof.
  unfold manifest_standing_covered, covered_by. intros (by_action & Hby & H)%result_bind_Ok.
  assert (by_action = true ↔ ∃ r row sel, i_action_ref i = Some r ∧ row ∈ q_standing q ∧ ActionSelector_parse (sg_action_pattern row) = Ok sel ∧
     sg_persona_id row = i_persona_id i ∧ standing_grant_is_active (env_now (qe_env e)) (sg_expires_at row) = true ∧
     matches_action_ref sel r = true) as Hst.
  { destruct (i_action_ref i) as [r|]; [|injection Hby as <-; split; [done|by intros (? & ? & ? & ? & _)]].
    unfold check_standing_grant_action_ref, active_standing in Hby. apply result_bind_Ok in Hby as (l & Hl & [= <-]).
    rewrite existsb_exists. setoid_rewrite <-list_elem_of_In. split.
    - intros ([row sel] & Hin & H'). cbn in H'. apply (list_standing_elem _ _ _ _ Hl) in Hin as [Hin Hp].
      rewrite !andb_true_iff, bool_decide_eq_true in H'. destruct H' as [[H1 H2] H3]. by exists r, row, sel.
    - intros (r' & row & sel & [= <-] & Hin & Hp & H1 & H2 & H3). exists (row, sel).
      split; [by apply (list_standing_elem _ _ _ _ Hl)|]. cbn. by rewrite bool_decide_true, H2, H3. }
  destruct by_action; [injection H as <-; split; [intros _; left; by apply Hst|done]|].
  assert (Hno : ¬ ∃ r row sel, i_action_ref i = Some r ∧ row ∈ q_standing q ∧ ActionSelector_parse (sg_action_pattern row) = Ok sel ∧
     sg_persona_id row = i_persona_id i ∧ standing_grant_is_active (env_now (qe_env e)) (sg_expires_at row) = true ∧
     matches_action_ref sel r = true) by (intros Hx; by apply Hst in Hx).
  destruct (forallb _ (i_need i)) eqn:Hall; injection H as <-.
  - rewrite negb_true_iff, bool_decide_eq_false. split; [|by intros [?|[? _]]]. intros Hne. right. split; [done|]. intros need Hn.
    rewrite forallb_forall in Hall. specialize (Hall need (proj1 (list_elem_of_In _ _) Hn)). apply bool_decide_eq_true in Hall.
    apply match_grants_inv in Hall as (row & ag & idx & stmt & (Hin & Hs & Hx)%list_active_elem & H). exists row, ag, idx, stmt. by destruct_and! H; split_and!.
  - split; [done|]. intros [?|[_ Hneed]]; [done|]. exfalso. apply not_true_iff_false in Hall. apply Hall, forallb_forall.
    intros need Hn%list_elem_of_In. apply bool_decide_eq_true. destruct (Hneed need Hn) as (row & ag & idx & stmt & Hin & Hp & Hs & Hx & Ht & Hg & Hst' & Ha).
    eapply match_grants_Some; try done. by apply list_active_elem.
Qed.

End RequestProofs.

(** ** Properties *)

(** C34. The rate limit holds. Whatever checks and clean-ups run, at times that do not go back, at most [max] requests of
    a persona for an action are accepted in any span of [window] seconds; and a request is accepted exactly when fewer than
    [max] were accepted in the window that ends with it, so rejected ones never prolong the wait. *)
Theorem rate_limit_enforced max window ops :
  StronglySorted Z.le (fst <$> ops) →
  let '(accepted, limiter) := run_limiter (RateLimiter_new max window) ops in
  (∀ key lo, (accepted_in key lo (lo + window) accepted ≤ max)%nat) ∧
  ∀ persona_id action now, Forall (λ o, o.1 <= now) ops →
    ((check_action limiter persona_id action now).1 = true ↔
     (accepted_in (action_key_of persona_id action) (now - window + 1) (now + 1) accepted < max)%nat).
Proof.
  intros Hs. pose proof (run_limiter_ok max window ops Hs) as H. destruct (run_limiter _ ops) as [h l]. cbn in H.
  destruct H as [Hw Hm Hst Hp Hb]. split; [exact Hb|]. intros p a now Hn.
  unfold check_action, check, check_key_at. rewrite Hw, Hm, (Hst _ _ Hn), (in_window_accepted _ _ _ _ (Hp now Hn)).
  destruct (Nat.leb_spec max (accepted_in (action_key_of p a) (now - window + 1) (now + 1) h)); cbn; split; intros; try done; lia.
Qed.

(** C15. Every answer to an access request has its cause. What is decided is the request as it was sent: its persona, its credential, its
    lifetime, the needs that the manifest declares for its action, and the resource it names. A grant is issued only when the persona is
    covered already, by an active standing grant for the action or for every need by a statement of an unfinished grant of its own, or when it is
    not and the policy says that the action needs nobody; it is then one new row with exactly that persona, credential and lifetime, and a
    statement per need on that resource. A request that is not covered and that the policy wants decided is queued as it was asked and
    grants nothing; one it denies, and one over the rate limit, changes no table. *)
Theorem answers_have_causes {Cr : CryptoOps} {A : AeadOps} {J : MetaJson} {SJ : SecretJson} {Id : UuidOps} {BJ : BlocksJson}
  {QO : QueueOps} {U : UriOps} {JA : JsonArrayOps} {Un : UnicodeOps} registry policy e t p st response i st' :
  handle_request registry policy e t p st = (Ok (response, i), st') →
  let q := ac_queue st in let q' := ac_queue st' in
  let requirement := ev_requirement (evaluate policy (i_policy_action i)) in
  asked_for registry p i ∧
  match response with
  | RateSpike => (check_action (ac_limiter st) (i_persona_id i) (i_policy_action i) t).1 = false ∧ q' = q
  | ApprovedStanding grant_id => covered_by e i q ∧ issued_request e i grant_id q q'
  | ApprovedAuto grant_id _ => ¬ covered_by e i q ∧ requirement = AR_Auto ∧ issued_request e i grant_id q q'
  | PendingApproval approval_id _ =>
      ¬ covered_by e i q ∧ requirement = AR_Required ∧ q_daemon q' = q_daemon q ∧
      ∃ a stmts j, q_approvals q' = q_approvals q ++ [a] ∧ a_id a = approval_id ∧ a_status a = "pending" ∧
        a_persona_id a = i_persona_id i ∧ a_credential_name a = i_credential_name i ∧ a_ttl_secs a = i_ttl_secs i ∧
        a_action a = i_policy_action i ∧
        Forall2 (λ need s, actions s = [need] ∧ Some (resource s) = i_resource_selector i ∧ budget s = None ∧ conditions s = [])
          (i_need i) stmts ∧
        statements_to_json stmts = Ok j ∧ a_composite_json a = Some j ∧ a_composite_hash a = Some (sha256_hex j)
  | DeniedByPolicy _ _ => ¬ covered_by e i q ∧ requirement = AR_Denied ∧ q' = q
  end.
Proof.
  unfold handle_request. destruct (parse_access_request_intent registry p) as [i0|] eqn:Hp; [|done]. apply parse_intent_asked in Hp.
  destruct (check_action _ _ _ _) as [[] l'] eqn:Hl; cbn [negb]; [|intros [= <- <- <-]; cbn; by rewrite Hl].
  destruct (manifest_standing_covered e i0 (ac_queue st)) as [[]|] eqn:Hc; [| |done]; apply covered_exact in Hc.
  - destruct (issue_manifest_grant _ _ _) as [[g|] q'] eqn:E; [|done]. cbn. intros [= <- <- <-]. apply issue_Ok in E.
    split_and!; [done|by apply Hc|done].
  - assert (¬ covered_by e i0 (ac_queue st)) as Hn by (intros Hx; by apply Hc in Hx).
    destruct (ev_requirement (evaluate policy (i_policy_action i0))) eqn:Hr.
    + destruct (issue_manifest_grant _ _ _) as [[g|] q'] eqn:E; [|done]. cbn. intros [= <- <- <-]. apply issue_Ok in E. by rewrite Hr.
    + destruct (manifest_statements i0) as [stmts|] eqn:Hm; [|done]. apply manifest_statements_Some in Hm.
      unfold propose_grant_with_notify, submit_approval_inner_with_fields, submit_approval_inner_with_fields_and_resolution_kind.
      destruct (statements_to_json stmts) as [j|] eqn:Hj; [|done]. cbn [result_bind map_err].
      destruct (qe_write e); [done|]. destruct (existsb _ _); [done|]. cbn. intros [= <- <- <-]. rewrite Hr. cbn.
      split_and!; try done. by eexists _, stmts, j.
    + intros [= <- <- <-]. by rewrite Hr.
Qed.

(** A decision for always is not bounded by what it approved. After a request for an action was approved for always, with
    whatever narrower scope, every later request of the persona for the action, on any resource, with any credential
    and any lifetime, is answered by the standing grant: the policy, even one that denies the action, is not asked, and the
    scope of the decision is not looked at. *)
Theorem always_covers_any_resource {Cr : CryptoOps} {A : AeadOps} {J : MetaJson} {SJ : SecretJson} {Id : UuidOps}
  {BJ : BlocksJson} {QO : QueueOps} {U : UriOps} {JA : JsonArrayOps} {Un : UnicodeOps}
  registry policy e e' id scope expires q q' a p i limiter t :
  approval_by_id q id = Some a → resolve_approval e id (Always scope expires) q = (Ok tt, q') →
  is_ok (list_standing_grants q) = true → standing_grant_is_active (env_now (qe_env e')) expires = true →
  parse_access_request_intent registry p = Ok i → i_persona_id i = a_persona_id a → i_policy_action i = a_action a →
  (check_action limiter (i_persona_id i) (i_policy_action i) t).1 = true →
  standing_answer e' i q' (handle_request registry policy e' t p (mkAccess limiter q')).
Proof.
  intros Ha Hr Hl Hx Hp Hpe Hact Hlim. apply handle_covered; [done..|].
  apply parse_intent_Ok in Hp as (r & Href & Hd & Ht & Hparse & _). rewrite Hd in *.
  destruct (always_standing _ _ _ _ _ _ _ Hr Ha) as (f & sgid & sc & Hs). apply is_ok_true in Hl as [l Hl].
  apply (list_standing_filter f) in Hl as [l' Hl'].
  unfold manifest_standing_covered. rewrite Href. unfold check_standing_grant_action_ref.
  rewrite (active_standing_true e' _ _ q' (l' ++ [(mkStanding sgid (a_persona_id a) (a_action a) sc expires, RefPattern (as_pattern r))])
             (mkStanding sgid (a_persona_id a) (a_action a) sc expires) (RefPattern (as_pattern r))); [done| | |done|done|].
  - unfold list_standing_grants. rewrite Hs. apply list_standing_app; [done|]. cbn. rewrite <-Hact. by apply ref_selector.
  - apply elem_of_app. right. by constructor.
  - apply as_pattern_matches.
Qed.

(** Any block of any unfinished grant answers a request. When a row of the persona is active or paused and not
    expired, and for every need some statement in some block of its chain allows the need on the resource, the request
    is answered by a new active grant with the requested credential and lifetime, whatever the policy says. So
    a paused grant is as good as an active one, a delegate gets what only the first block of its chain allows, and neither
    the credential, the expiry, the budget nor the conditions of the grant carry over. *)
Theorem unfinished_grants_answer {Cr : CryptoOps} {A : AeadOps} {J : MetaJson} {SJ : SecretJson} {Id : UuidOps}
  {BJ : BlocksJson} {QO : QueueOps} {U : UriOps} {JA : JsonArrayOps} {Un : UnicodeOps}
  registry policy e q p i limiter t row g :
  parse_access_request_intent registry p = Ok i →
  (check_action limiter (i_persona_id i) (i_policy_action i) t).1 = true → is_ok (list_standing_grants q) = true →
  row ∈ d_grants (q_daemon q) → r_persona_id row = i_persona_id i → r_allowed_targets row = None →
  r_status row = "active" ∨ r_status row = "paused" → (∀ x, r_expires_at row = Some x → env_now (qe_env e) < x) →
  get_access_grant (store_of (qe_env e) (q_daemon q)) (r_id row) = Ok g →
  (∀ need, need ∈ i_need i → ∃ idx s, (idx, s) ∈ grant_statements g ∧ applicable_to s need (resource_for_matching i) = true) →
  standing_answer e i q (handle_request registry policy e t p (mkAccess limiter q)).
Proof.
  intros Hp Hlim Hl Hin Hpe Hat Hst Hx Hg Hneed. apply handle_covered; [done..|].
  apply parse_intent_Ok in Hp as (r & Href & _ & _ & _ & Hne & _). unfold manifest_standing_covered. rewrite Href.
  unfold check_standing_grant_action_ref, active_standing. apply is_ok_true in Hl as [l Hl]. rewrite Hl. cbn [result_bind].
  destruct (existsb _ _); [done|]. rewrite (proj2 (forallb_forall _ _)); [by rewrite bool_decide_false|].
  intros need Hn%list_elem_of_In. apply bool_decide_eq_true. destruct (Hneed need Hn) as (idx & s & Hs & Ha).
  eapply match_grants_Some; try done; [|by rewrite Hat]. apply list_elem_of_In, filter_In. split; [by apply list_elem_of_In|].
  apply andb_true_iff. split; [rewrite orb_true_iff, !bool_decide_eq_true; done|].
  destruct (r_expires_at row); [|done]. apply Z.ltb_lt. by apply Hx.
Qed.

(** What a caller is told of a request that has this status. *)
Definition told (a : ApprovalRow) (d : AwaitDecision) : Prop :=
  match d with
  | AD_Approved => a_status a ∈ ["approved"; "narrowed"; "narrowed_and_approved"]
  | AD_TimedOut => a_status a ∈ ["timed_out"; "expired"]
  | AD_Denied reason =>
      a_status a ∈ ["denied"; "dismissed"] ∧ reason = default ("approval " +:+ a_status a) (a_reason a) ∨
      a_status a ∉ ["pending"; "approved"; "narrowed"; "narrowed_and_approved"; "denied"; "dismissed"; "timed_out"; "expired"] ∧
      reason = "unknown approval status: " +:+ a_status a
  end.

Lemma await_decision_told a :
  match await_decision a with Some d => told a d | None => a_status a = "pending" end.
Proof.
  unfold await_decision, told. repeat (case_bool_decide; cbn [orb]; [set_solver|]). right. set_solver.
Qed.

(** C28. Waiting for a decision ends. When every poll sees the request as one of the caller's, and one is at or after the deadline, the call
    returns, and it does so at a poll before which every other was before the deadline and saw the request pending. What it returns is what
    that poll saw: approved exactly for a request that was approved or narrowed, denied with its reason for one that was denied or
    dismissed or has an unknown status, timed out for one that timed out or expired, and timed out as well for one that is still pending
    when the deadline has passed. *)
Theorem await_ends owner request_id deadline polls :
  (∀ now q, (now, q) ∈ polls → ∃ a, approval_by_id q request_id = Some a ∧ owner (a_persona_id a) = Ok tt) →
  (∃ now q, (now, q) ∈ polls ∧ deadline <= now) →
  ∃ d pre now q post a, handle_await_approval owner request_id deadline polls = Some (Ok d) ∧
    polls = pre ++ (now, q) :: post ∧
    (∀ now' q', (now', q') ∈ pre → now' < deadline ∧ ∃ a', approval_by_id q' request_id = Some a' ∧ a_status a' = "pending") ∧
    approval_by_id q request_id = Some a ∧
    (a_status a ≠ "pending" ∧ told a d ∨ a_status a = "pending" ∧ deadline <= now ∧ d = AD_TimedOut).
Proof.
  induction polls as [|[now q] polls IH]; intros Hown (n & q0 & Hin & Hd); [by apply not_elem_of_nil in Hin|].
  destruct (Hown now q (list_elem_of_here _ _)) as (a & Ha & Ho). cbn. unfold get_approval. rewrite Ha. cbn. rewrite Ho. cbn.
  pose proof (await_decision_told a) as Ht. destruct (await_decision a) as [d|] eqn:Ed.
  - exists d, [], now, q, polls, a. split_and!; [done|done|by intros ? ? []%elem_of_nil|done|]. left. split; [|done].
    intros Hp. unfold await_decision in Ed. by rewrite Hp in Ed.
  - destruct (Z.leb_spec deadline now) as [Hle|Hlt].
    + exists AD_TimedOut, [], now, q, polls, a. split_and!; [done|done|by intros ? ? []%elem_of_nil|done|by right].
    + destruct IH as (d & pre & n' & q' & post & a' & Hr & -> & Hpre & Hq & Ht2).
      * intros n' q' Hin'. apply (Hown n' q'). by constructor.
      * exists n, q0. split; [|done]. apply elem_of_cons in Hin as [[= -> ->]|Hin]; [lia|done].
      * exists d, ((now, q) :: pre), n', q', post, a'. split_and!; [done|done| |done..].
        intros n2 q2 [[= -> ->]|Hin2]%elem_of_cons; [split; [done|by exists a]|by apply Hpre].
Qed.

(** ** Witnesses *)

Import ToyMint ToyQueue.

Module ToyAccess.

#[export] Instance uris : UriOps := ToyUri.ops.
#[export] Instance arrays : JsonArrayOps := {| json_string_array _ := None |}.
#[export] Instance plain_text : UnicodeOps := {| unicode_lowercase s := s; unicode_alphanumeric _ := false |}.

Definition registry : result (list Manifest) string :=
  Ok [mkManifest (Some "ember/github") [mkAction "push" (Some "1") ["github:push"]]].

Definition params (persona_id credential_name : string) (ttl_secs : option Z) (resource_id : string) : AccessParams :=
  mkParams (Some persona_id) (Some credential_name) ttl_secs false false (Some " ember/github/push@1") (Some resource_id) None no_notify.

Definition asking : PolicyConfig := mkPolicy [] AR_Required Risk_High.
Definition refusing : PolicyConfig := mkPolicy [] AR_Denied Risk_Critical.

(** Alice asks to push to one repository. *)
Definition asked : result (AccessResponse * AccessRequestIntent) RpcError * Access :=
  handle_request registry asking (ToyQueue.env "1") 0 (params "alice" "github/pat" (Some 600) "acme/app")
    (mkAccess (RateLimiter_new 2 60) ToyQueue.start).
Definition always : Queue :=
  (resolve_approval (ToyQueue.env "2") "approval-1" (Always (Some "github:push:acme/app") None) (ac_queue asked.2)).2.

(** Alice delegates one repository to Bob, and the delegation is paused. *)
Definition delegated : Queue :=
  mkQueue (run_ops ToyMint.after [(ToyMint.env, ToyMint.mint "" "x", OpPause "grant-2")]) [] [].

End ToyAccess.
Import ToyAccess.

Lemma rate_limit_enforced_witness :
  let '(accepted, limiter) := run_limiter (RateLimiter_new 2 60)
                                [(0, LCheck "alice" "push"); (10, LCheck "alice" "push"); (20, LCheck "alice" "push");
                                 (30, LCheck "bob" "push"); (61, LCleanup); (65, LCheck "alice" "push")] in
  length accepted = 4%nat ∧ (accepted_in (action_key_of "alice" "push") 10 70 accepted ≤ 2)%nat.
Proof.
  set (ops := [(0, LCheck "alice" "push"); _; _; _; _; _]).
  assert (StronglySorted Z.le (fst <$> ops)) as Hs by (cbn; repeat constructor; lia).
  assert (length (run_limiter (RateLimiter_new 2 60) ops).1 = 4%nat) as Hl by (vm_compute; reflexivity).
  pose proof (rate_limit_enforced 2 60 ops Hs) as H.
  destruct (run_limiter (RateLimiter_new 2 60) ops) as [accepted limiter]. split; [exact Hl|]. apply (proj1 H _ 10).
Defined.

Lemma answers_have_causes_witness :
  ∃ a j, q_approvals (ac_queue ToyAccess.asked.2) = [a] ∧ a_status a = "pending" ∧ a_composite_json a = Some j ∧
    d_grants (q_daemon (ac_queue ToyAccess.asked.2)) = [].
Proof.
  assert (∃ i, ToyAccess.asked = (Ok (PendingApproval "approval-1" "high", i), ToyAccess.asked.2)) as [i Hi]
    by (vm_compute; eexists; reflexivity).
  destruct (answers_have_causes ToyAccess.registry ToyAccess.asking (ToyQueue.env "1") 0
              (ToyAccess.params "alice" "github/pat" (Some 600) "acme/app") (mkAccess (RateLimiter_new 2 60) ToyQueue.start)
              (PendingApproval "approval-1" "high") i ToyAccess.asked.2 Hi)
    as (_ & _ & _ & Hd & a & stmts & j & Hq & _ & Hst & _ & _ & _ & _ & _ & _ & Hj & _).
  exists a, j. split; [exact Hq|]. split; [exact Hst|]. split; [exact Hj|]. rewrite Hd. reflexivity.
Defined.

Lemma always_covers_any_resource_witness :
  let o := handle_request ToyAccess.registry ToyAccess.refusing (ToyQueue.env "5") 0
             (ToyAccess.params "alice" "aws/root" None "other/repo") (mkAccess (ac_limiter ToyAccess.asked.2) ToyAccess.always) in
  is_ok o.1 = true ∧ ∃ i, standing_answer (ToyQueue.env "5") i ToyAccess.always o ∧
    i_credential_name i = "aws/root" ∧ i_resource_selector i = Some (Exact "other/repo") ∧ i_ttl_secs i = None.
Proof.
  intros o. split; [vm_compute; reflexivity|]. set (q := ac_queue ToyAccess.asked.2).
  destruct (approval_by_id q "approval-1") as [a|] eqn:Ha.
  2: { apply (f_equal (λ o, bool_decide (is_Some o))) in Ha. vm_compute in Ha. discriminate Ha. }
  assert (Hv := f_equal (λ o, (λ a, (a_persona_id a, a_action a)) <$> o) Ha). cbn [fmap option_fmap option_map] in Hv.
  vm_compute in Hv. injection Hv as Hpe Hac.
  assert ((resolve_approval (ToyQueue.env "2") "approval-1" (Always (Some "github:push:acme/app") None) q).1 = Ok tt) as Hok
    by (vm_compute; reflexivity).
  assert (∃ i, parse_access_request_intent ToyAccess.registry (ToyAccess.params "alice" "aws/root" None "other/repo") = Ok i ∧
            i_persona_id i = "alice" ∧ i_policy_action i = "ember/github/push@1" ∧ i_credential_name i = "aws/root" ∧
            i_resource_selector i = Some (Exact "other/repo") ∧ i_ttl_secs i = None) as (i & Hi & H1 & H2 & H3 & H4 & H5)
    by (vm_compute; eexists; split_and!; reflexivity).
  exists i. split; [|split_and!; assumption].
  apply (always_covers_any_resource ToyAccess.registry ToyAccess.refusing (ToyQueue.env "2") (ToyQueue.env "5") "approval-1"
           (Some "github:push:acme/app") None q ToyAccess.always a _ i _ 0 Ha).
  - rewrite <-Hok. apply surjective_pairing.
  - vm_compute; reflexivity.
  - reflexivity.
  - exact Hi.
  - rewrite H1. exact Hpe.
  - rewrite H2. exact Hac.
  - rewrite H1, H2. vm_compute; reflexivity.
Defined.

Lemma unfinished_grants_answer_witness :
  let o := handle_request ToyAccess.registry ToyAccess.refusing (ToyQueue.env "5") 0
             (ToyAccess.params "bob" "aws/root" None "acme/other") (mkAccess (RateLimiter_new 2 60) ToyAccess.delegated) in
  is_ok o.1 = true ∧ ∃ i, standing_answer (ToyQueue.env "5") i ToyAccess.delegated o ∧
    i_credential_name i = "aws/root" ∧ i_resource_selector i = Some (Exact "acme/other").
Proof.
  intros o. split; [vm_compute; reflexivity|]. set (q := ToyAccess.delegated).
  assert (∃ i, parse_access_request_intent ToyAccess.registry (ToyAccess.params "bob" "aws/root" None "acme/other") = Ok i ∧
            i_persona_id i = "bob" ∧ i_policy_action i = "ember/github/push@1" ∧ i_credential_name i = "aws/root" ∧
            i_resource_selector i = Some (Exact "acme/other") ∧ i_need i = ["github:push"])
    as (i & Hi & H1 & H2 & H3 & H4 & H5) by (vm_compute; eexists; split_and!; reflexivity).
  exists i. split; [|split; assumption].
  destruct (d_grants (q_daemon q) !! 1%nat) as [row|] eqn:Hrow.
  2: { apply (f_equal (λ o, bool_decide (is_Some o))) in Hrow. vm_compute in Hrow. discriminate Hrow. }
  assert (Hv := f_equal (λ o, (λ r, (r_id r, r_persona_id r, r_allowed_targets r, r_status r, r_expires_at r)) <$> o) Hrow).
  cbn [fmap option_fmap option_map] in Hv. vm_compute in Hv. injection Hv as Hid Hp Ht Hst Hx.
  assert (r_id row = "grant-2") as Hid' by exact (eq_sym Hid). assert (r_expires_at row = Some 1600) as Hx' by exact (eq_sym Hx).
  destruct (get_access_grant (store_of (qe_env (ToyQueue.env "5")) (q_daemon q)) (r_id row)) as [g|] eqn:Hg.
  2: { rewrite Hid' in Hg. apply (f_equal is_ok) in Hg. vm_compute in Hg. discriminate Hg. }
  destruct (grant_statements g !! 0%nat) as [[k s]|] eqn:Hs.
  2: { rewrite Hid' in Hg. apply (f_equal (λ r, match r with Ok g => bool_decide (is_Some (grant_statements g !! 0%nat)) | Err _ => false end)) in Hg.
       rewrite Hs in Hg. vm_compute in Hg. discriminate Hg. }
  assert (applicable_to s "github:push" "acme/other" = true) as Ha.
  { rewrite Hid' in Hg. apply (f_equal (λ r, match r with Ok g => match grant_statements g !! 0%nat with
      Some (_, s) => applicable_to s "github:push" "acme/other" | None => false end | Err _ => false end)) in Hg.
    rewrite Hs in Hg. rewrite <-Hg. vm_compute. reflexivity. }
  apply (unfinished_grants_answer ToyAccess.registry ToyAccess.refusing (ToyQueue.env "5") q _ i _ 0 row g Hi).
  - rewrite H1, H2. vm_compute; reflexivity.
  - reflexivity.
  - exact (list_elem_of_lookup_2 _ _ _ Hrow).
  - rewrite H1. exact (eq_sym Hp).
  - exact (eq_sym Ht).
  - right. exact (eq_sym Hst).
  - rewrite Hx'. intros x [= <-]. reflexivity.
  - exact Hg.
  - rewrite H5. intros need ->%list_elem_of_singleton. exists k, s. split; [exact (list_elem_of_lookup_2 _ _ _ Hs)|].
    unfold resource_for_matching. rewrite H4. exact Ha.
Defined.

Lemma await_ends_witness :
  ∃ d, handle_await_approval (λ _, Ok tt) "approval-1" 1 [(0, ac_queue ToyAccess.asked.2); (5, ToyAccess.always)] = Some (Ok d).
Proof.
  destruct (await_ends (λ _, Ok tt) "approval-1" 1 [(0, ac_queue ToyAccess.asked.2); (5, ToyAccess.always)]) as (d & ? & ? & ? & ? & ? & Hd & _).
  - intros now q H. assert (is_Some (approval_by_id q "approval-1")) as [a Ha].
    { apply elem_of_cons in H as [[= -> ->]|[= -> ->]%list_elem_of_singleton]; apply (bool_decide_unpack _); vm_compute; exact I. }
    exists a. split; [exact Ha|reflexivity].
  - exists 5, ToyAccess.always. split; [right; left|lia].
  - exists d. exact Hd.
Defined.
