(* ===== verification/AuditLog.v ===== *)
(** * The audit log

    crates/ember-daemon/src/infra/audit.rs: the table of audit rows, linked by hashes within and across segments, its
    writers, its verifier, and the repair that an operator signs; the start-up check of infra/runtime.rs and the dispatch
    of a repair in infra/handler/audit_receipts.rs. The table is the list of its rows in the order of their ids, which SQLite draws with AUTOINCREMENT:
    never twice. The journal of receipts is the list of the repair receipts it holds. BLAKE3 and serde_json are interfaces. *)

From stdpp Require Import base gmap list strings sorting.
From Stdlib Require Import Ascii Lia ZArith.
From S2P Require Import Prelude CoreTypes Envelope VerifyChain.

Local Infix "+:+" := String.append (at level 60, right associativity).
Local Open Scope Z_scope.

(** ** Interfaces *)

(** The values the objects hold that are hashed and signed. *)
Inductive FieldValue := FNull | FString (s : string) | FNumber (z : Z).

(** [json_to_vec] is [serde_json::to_vec] of a [BTreeMap], and the text of a [json!] object; [json_repair_id] reads the text
    member repair_id of an object. *)
Class AuditOps := {
  blake3_hex : bytes → string;
  json_to_vec : gmap string FieldValue → bytes;
  json_repair_id : string → option string
}.

(** The hash is free of collisions and printed in hexadecimal; an object's text starts with a brace and determines it. *)
Class AuditLaws {H : AuditOps} := {
  blake3_inj x y : blake3_hex x = blake3_hex y → x = y;
  blake3_digits x : Forall hex_char (to_bytes (blake3_hex x));
  blake3_nonempty x : blake3_hex x ≠ "";
  json_inj m m' : json_to_vec m = json_to_vec m' → m = m';
  json_brace m : ∃ r, json_to_vec m = "{"%char :: r;
  json_repair_id_read m s : m !! "repair_id" = Some (FString s) → json_repair_id (of_bytes (json_to_vec m)) = Some s
}.

(** ** Data *)

Record AuditRow := mkAudit {
  ar_id : Z;
  ar_timestamp : string;
  ar_agent_id : option string;
  ar_action : string;
  ar_credential : option string;
  ar_outcome : string;
  ar_details : option string;
  ar_prev_hash : option string;
  ar_row_hash : option string;
  ar_segment_id : Z;
  ar_is_segment_genesis : bool
}.

Definition GENESIS_ACTION : string := "audit.chain_v1_genesis".
Definition TOMBSTONE_ACTION : string := "audit.chain_repair_tombstone".

(** The repair receipts of receipts.log. *)
Record FinalizeReceiptRef := mkFinalize { fr_receipt_id : string; fr_repair_id : string; fr_tombstone_row_id : Z }.

(** [al_seq] is the row of sqlite_sequence. *)
Record AuditStore := mkAuditStore {
  al_rows : list AuditRow; al_seq : Z; al_journal : list FinalizeReceiptRef; al_quarantined : bool }.

(** What a call draws and what fails around it: [ae_write] are the statements of a call on the table, the COMMIT of an append
    among them in so far as SQLite rolls back when it fails (a COMMIT that is busy and leaves the transaction open is not modelled);
    [ae_commit] is a process that stops before the COMMIT of a repair takes effect,
    [ae_identity] the fingerprint of the daemon's identity, [ae_data_dir] whether there is a directory for the journal. *)
Record AuditEnv := mkAuditEnv {
  ae_now : string; ae_write : option string; ae_commit : option string; ae_data_dir : bool; ae_identity : option string;
  ae_repair_id : string; ae_receipt_id : string; ae_journal_read : option string; ae_journal_write : option string }.

Inductive AuditError := AE_Quarantined (action : string) | AE_Sqlite (msg : string) | AE_InvalidInput (msg : string).

(** *** Outcomes of the verifier *)

Inductive BreakKind :=
| RowHashMismatch (at_row_id : Z) (expected_hash stored_hash : string) (rows_walked_before : Z)
| ForwardLinkMismatch (at_row_id predecessor_row_id : Z) (expected_prev_hash : string) (stored_prev_hash : option string)
    (rows_walked_before : Z).

Inductive TopologyViolation := MultipleGenesis | PostMigrationNullRowHash | SegmentIdNonMonotonic.
Inductive SampleMode := FullWalk | Tail (n : nat) | PerSegmentGenesis.

Inductive VerifyOutcome :=
| VO_Ok (rows_walked segments_walked : Z) (sample_mode : SampleMode)
| VO_Break (kind : BreakKind)
| VO_LegacyRowsPresent (count max_legacy_id chain_resumes_at_id : Z)
| VO_ChainTopologyInvariantViolation (kind : TopologyViolation) (at_row_id rows_walked_before : Z)
| VO_IncompleteRepair (receipt_id_orphan : string)
| VO_IncompleteRepairReceipt (tombstone_row_id : Z).

(** *** Queries *)

Definition opt_field (o : option string) : FieldValue := match o with Some s => FString s | None => FNull end.

(** [SELECT row_hash ... WHERE P AND row_hash IS NOT NULL ORDER BY id DESC LIMIT 1] *)
Definition last_hash (P : AuditRow → bool) (rows : list AuditRow) : option string :=
  last (omap (λ r, if P r then ar_row_hash r else None) rows).

(** [COALESCE(MAX(segment_id), 0)] *)
Definition max_segment (rows : list AuditRow) : Z :=
  match ar_segment_id <$> rows with [] => 0 | s :: l => foldl Z.max s l end.

Definition next_id (st : AuditStore) : Z := foldl Z.max (al_seq st) (ar_id <$> al_rows st) + 1.

Definition in_segment (segment : Z) (r : AuditRow) : bool := ar_segment_id r =? segment.
Definition before_segment (segment : Z) (r : AuditRow) : bool := ar_segment_id r <? segment.

Section Audit.
Context {H : AuditOps}.

Definition canonical_audit_row_bytes (timestamp : string) (agent_id : option string) (action : string)
  (credential : option string) (outcome : string) (details : option string) : bytes :=
  json_to_vec (<["timestamp" := FString timestamp]> (<["outcome" := FString outcome]> (<["details" := opt_field details]>
    (<["credential" := opt_field credential]> (<["agent_id" := opt_field agent_id]> (<["action" := FString action]> ∅)))))).

Definition row_canonical (r : AuditRow) : bytes :=
  canonical_audit_row_bytes (ar_timestamp r) (ar_agent_id r) (ar_action r) (ar_credential r) (ar_outcome r) (ar_details r).

(** The hash over the hash before and the row. *)
Definition chain_hash (prev : option string) (canonical : bytes) : string :=
  blake3_hex (match prev with Some p => to_bytes p | None => [] end ++ canonical).

Definition genesis_hash : string := blake3_hex (to_bytes GENESIS_ACTION).

(** ** Writers *)

(** The CHECK of the table and the unique index on the first rows of segments. *)
Definition row_admitted (rows : list AuditRow) (r : AuditRow) : bool :=
  ((ar_segment_id r =? 0) || bool_decide (ar_action r = GENESIS_ACTION)
   || bool_decide (is_Some (ar_row_hash r)) && bool_decide (is_Some (ar_prev_hash r)))
  && negb (ar_is_segment_genesis r
           && existsb (λ x, ar_is_segment_genesis x && in_segment (ar_segment_id r) x) rows).

Definition insert_audit (e : AuditEnv) (st : AuditStore) (r : AuditRow) : result Z AuditError * AuditStore :=
  match ae_write e with
  | Some err => (Err (AE_Sqlite err), st)
  | None =>
      if row_admitted (al_rows st) r
      then (Ok (ar_id r), mkAuditStore (al_rows st ++ [r]) (ar_id r) (al_journal st) (al_quarantined st))
      else (Err (AE_Sqlite "constraint failed"), st)
  end.

Definition append_audit_event_with_chain_in_tx (e : AuditEnv) (agent_id : option string) (action : string)
  (credential : option string) (outcome : string) (details : option string) (st : AuditStore)
  : result Z AuditError * AuditStore :=
  if al_quarantined st then (Err (AE_Quarantined action), st)
  else
    let segment := max_segment (al_rows st) in
    let prev_hash := last_hash (in_segment segment) (al_rows st) in
    let row_hash := chain_hash prev_hash (canonical_audit_row_bytes (ae_now e) agent_id action credential outcome details) in
    insert_audit e st (mkAudit (next_id st) (ae_now e) agent_id action credential outcome details prev_hash (Some row_hash)
                         segment false).

Definition append_audit_event_with_chain (e : AuditEnv) (agent_id : option string) (action : string)
  (credential : option string) (outcome : string) (details : option string) (st : AuditStore)
  : result Z AuditError * AuditStore :=
  if al_quarantined st then (Err (AE_Quarantined action), st)
  else append_audit_event_with_chain_in_tx e agent_id action credential outcome details st.

(** [autocommit]: no transaction is open on the connection. *)
Definition log_event (autocommit : bool) (e : AuditEnv) (agent_id : option string) (action : string)
  (credential : option string) (outcome : string) (details : option string) (st : AuditStore)
  : result Z AuditError * AuditStore :=
  if autocommit then append_audit_event_with_chain e agent_id action credential outcome details st
  else append_audit_event_with_chain_in_tx e agent_id action credential outcome details st.

Record ForcedRotationOutcome := mkRotation {
  fo_new_segment_id : Z; fo_bridge_row_id : Z; fo_bridge_row_hash : string; fo_prev_segment_id : Z }.

Definition force_rotate_audit_segment (e : AuditEnv) (st : AuditStore)
  : result ForcedRotationOutcome AuditError * AuditStore :=
  let bridge_action := "audit.forced_rotation" in
  if al_quarantined st then (Err (AE_Quarantined bridge_action), st)
  else
    let current := max_segment (al_rows st) in
    let prev_hash := last_hash (in_segment current) (al_rows st) in
    let bridge_row_hash := chain_hash prev_hash (canonical_audit_row_bytes (ae_now e) None bridge_action None "ok" None) in
    match insert_audit e st (mkAudit (next_id st) (ae_now e) None bridge_action None "ok" None prev_hash
                               (Some bridge_row_hash) (current + 1) true) with
    | (Ok id, st') => (Ok (mkRotation (current + 1) id bridge_row_hash current), st')
    | (Err err, st') => (Err err, st')
    end.

(** The first row of a new table, written by [migrate]. *)
Definition insert_genesis (e : AuditEnv) (st : AuditStore) : AuditStore :=
  if existsb (λ r, bool_decide (ar_action r = GENESIS_ACTION)) (al_rows st) then st
  else (insert_audit e st (mkAudit (next_id st) (ae_now e) None GENESIS_ACTION None "ok" None None (Some genesis_hash) 0 true)).2.

(** ** The verifier *)

Definition inter_segment_seed_row_hash (table : list AuditRow) (segment : Z) : option string :=
  last_hash (before_segment segment) table.

Record AuditWalk := mkWalk {
  w_prior : option string; w_pred : Z; w_segment : option Z; w_walked : Z; w_segments : Z; w_legacy : Z;
  w_max_legacy : Z; w_resumes : Z }.

(** The crossing of a segment boundary. *)
Definition cross (table : list AuditRow) (segment : Z) (w : AuditWalk) : AuditWalk :=
  match w_segment w with
  | None => mkWalk (w_prior w) (w_pred w) (Some segment) (w_walked w) 1 (w_legacy w) (w_max_legacy w) (w_resumes w)
  | Some prev =>
      if prev =? segment then w
      else mkWalk (inter_segment_seed_row_hash table segment) (w_pred w) (Some segment) (w_walked w) (w_segments w + 1)
             (w_legacy w) (w_max_legacy w) (w_resumes w)
  end.

Definition recomputed_hash (r : AuditRow) : string :=
  if bool_decide (ar_action r = GENESIS_ACTION) then genesis_hash else chain_hash (ar_prev_hash r) (row_canonical r).

(** The rest of the iteration for a row with a hash. *)
Definition check_row (r : AuditRow) (stored_hash : string) (w : AuditWalk) : result AuditWalk VerifyOutcome :=
  let genesis := bool_decide (ar_action r = GENESIS_ACTION) in
  if negb genesis && negb (bool_decide (w_prior w = ar_prev_hash r))
  then Err (VO_Break (ForwardLinkMismatch (ar_id r) (w_pred w) (default "NULL" (w_prior w)) (ar_prev_hash r) (w_walked w)))
  else
    let resumes := if (0 <? w_legacy w) && (w_resumes w =? 0) && negb genesis then ar_id r else w_resumes w in
    if negb (bool_decide (recomputed_hash r = stored_hash))
    then Err (VO_Break (RowHashMismatch (ar_id r) (recomputed_hash r) stored_hash (w_walked w)))
    else Ok (mkWalk (Some stored_hash) (ar_id r) (w_segment w) (w_walked w + 1) (w_segments w) (w_legacy w) (w_max_legacy w)
               resumes).

Definition walk_row (table : list AuditRow) (r : AuditRow) (w : AuditWalk) : result AuditWalk VerifyOutcome :=
  let w := cross table (ar_segment_id r) w in
  match ar_row_hash r with
  | Some stored_hash => check_row r stored_hash w
  | None =>
      if (ar_segment_id r =? 0) && negb (bool_decide (ar_action r = GENESIS_ACTION))
      then Ok (mkWalk (w_prior w) (w_pred w) (w_segment w) (w_walked w) (w_segments w) (w_legacy w + 1)
                 (Z.max (w_max_legacy w) (ar_id r)) (w_resumes w))
      else if negb (ar_segment_id r =? 0)
      then Err (VO_ChainTopologyInvariantViolation PostMigrationNullRowHash (ar_id r) (w_walked w))
      else Ok w
  end.

Fixpoint walk_rows (table rows : list AuditRow) (w : AuditWalk) : result AuditWalk VerifyOutcome :=
  match rows with
  | [] => Ok w
  | r :: rows' => let? w := walk_row table r w in walk_rows table rows' w
  end.

(** The hash before the window. *)
Definition walk_seed (table rows : list AuditRow) : option string :=
  match rows with
  | [] => None
  | first :: _ =>
      match last_hash (λ r, (ar_id r <? ar_id first) && in_segment (ar_segment_id first) r) table with
      | Some h => Some h
      | None => inter_segment_seed_row_hash table (ar_segment_id first)
      end
  end.

Definition walk_begin (table rows : list AuditRow) : AuditWalk := mkWalk (walk_seed table rows) 0 None 0 0 0 0 0.

Definition detect_incomplete_repair (e : AuditEnv) (st : AuditStore) : option VerifyOutcome :=
  match ae_journal_read e with
  | Some _ => None
  | None =>
      let has_receipt r :=
        match ar_details r ≫= json_repair_id with
        | Some rid => existsb (λ f, bool_decide (fr_repair_id f = rid)) (al_journal st)
        | None => existsb (λ f, fr_tombstone_row_id f =? ar_id r) (al_journal st)
        end in
      let tombstone r := bool_decide (ar_action r = TOMBSTONE_ACTION) in
      match List.find (λ r, tombstone r && negb (has_receipt r)) (al_rows st) with
      | Some r => Some (VO_IncompleteRepairReceipt (ar_id r))
      | None =>
          match List.find (λ f, negb (existsb (λ r, (ar_id r =? fr_tombstone_row_id f) && tombstone r) (al_rows st)))
                  (al_journal st) with
          | Some f => Some (VO_IncompleteRepair (fr_receipt_id f))
          | None => None
          end
      end
  end.

(** The last [n] rows, for a tail. *)
Definition window (tail : option nat) (rows : list AuditRow) : list AuditRow :=
  match tail with None => rows | Some n => drop (length rows - n) rows end.

Definition run_audit_verify (e : AuditEnv) (tail : option nat) (st : AuditStore) : VerifyOutcome :=
  let sample_mode := match tail with None => FullWalk | Some n => Tail n end in
  let rows := window tail (al_rows st) in
  match walk_rows (al_rows st) rows (walk_begin (al_rows st) rows) with
  | Err outcome => outcome
  | Ok w =>
      match (if ae_data_dir e then detect_incomplete_repair e st else None) with
      | Some outcome => outcome
      | None =>
          if 0 <? w_legacy w then VO_LegacyRowsPresent (w_legacy w) (w_max_legacy w) (w_resumes w)
          else VO_Ok (w_walked w) (w_segments w) sample_mode
      end
  end.

(** The outcomes that are no reason for quarantine. *)
Definition passes (o : VerifyOutcome) : bool := match o with VO_Ok _ _ _ | VO_LegacyRowsPresent _ _ _ => true | _ => false end.

Definition enter_quarantine (st : AuditStore) : AuditStore := mkAuditStore (al_rows st) (al_seq st) (al_journal st) true.

(** The latch is held in memory: a new process starts without it. *)
Definition new_process (st : AuditStore) : AuditStore := mkAuditStore (al_rows st) (al_seq st) (al_journal st) false.

(** The check at start-up, of the last 1000 rows, of a table that can be read. *)
Definition startup_verify (e : AuditEnv) (st : AuditStore) : AuditStore :=
  let st := new_process st in
  if passes (run_audit_verify e (Some 1000%nat) st) then st else enter_quarantine st.

End Audit.

(** ** Repair *)

Inductive RepairKind := Truncate | TombstoneSegment.

Record RepairIntent := mkIntent {
  ri_from_row_id : Z; ri_repair_kind : RepairKind; ri_operator_signature : bytes; ri_operator_pubkey : string;
  ri_current_chain_tip_hash : string; ri_daemon_identity_root_fingerprint : string }.

Record RepairCosigner := mkCosigner { rc_signing_device_id : string; rc_signing_device_pubkey : string }.

Record RepairDone := mkRepairDone {
  rd_repair_id : string; rd_new_chain_tip_hash : string; rd_tombstone_row_id : Z; rd_truncated_row_count : Z }.

Inductive RepairError :=
| OperatorSignatureInvalid
| DaemonFingerprintMismatch (signed current : string)
| ChainTipMismatch (signed actual : string)
| FromRowIdMissing (id : Z)
| UnsupportedRepairKind (k : RepairKind)
| RE_Sqlite (msg : string)
| RE_Journal (msg : string)
| IdentityMissing
| NotQuarantined.

Section Repair.
Context {H : AuditOps} {X : HexOps} {D : DeviceSignatures}.

Definition canonical_repair_intent_bytes (from_row_id : Z) (current_chain_tip_hash daemon_identity_root_fingerprint : string)
  : bytes :=
  json_to_vec (<["from_row_id" := FNumber from_row_id]>
    (<["daemon_identity_root_fingerprint" := FString daemon_identity_root_fingerprint]>
    (<["current_chain_tip_hash" := FString current_chain_tip_hash]>
    (<["ctx" := FString "emberlink.v1.audit_repair_intent"]> ∅)))).

Definition intent_bytes (i : RepairIntent) : bytes :=
  canonical_repair_intent_bytes (ri_from_row_id i) (ri_current_chain_tip_hash i) (ri_daemon_identity_root_fingerprint i).

(** The text of the signature, by the algorithm of the enrolled key. *)
Definition cosignature (i : RepairIntent) (device_pubkey : string) : string :=
  (if str_starts_with device_pubkey "p256:" then "p256sig:" else "ed25519sig:") +:+ hex_encode (ri_operator_signature i).

Definition verify_repair_intent_signature (i : RepairIntent) (presence_devices : list (string * string))
  : result RepairCosigner RepairError :=
  if bool_decide (presence_devices = []) then Err OperatorSignatureInvalid
  else
    match List.find (λ d, verify_device_signature d.2 (intent_bytes i) (cosignature i d.2)) presence_devices with
    | Some (device_id, device_pubkey) => Ok (mkCosigner device_id device_pubkey)
    | None => Err OperatorSignatureInvalid
    end.

Definition tombstone_details (repair_id : string) (truncated : Z) (c : RepairCosigner) (i : RepairIntent)
  : gmap string FieldValue :=
  <["repair_id" := FString repair_id]> (<["truncated_row_count" := FNumber truncated]>
    (<["operator_pubkey" := FString (rc_signing_device_pubkey c)]>
    (<["signing_device_id" := FString (rc_signing_device_id c)]>
    (<["operator_signature_hex" := FString (hex_encode (ri_operator_signature i))]>
    (<["from_row_id" := FNumber (ri_from_row_id i)]> ∅))))).

(** The checks before the transaction: the hash of the row that will be the tip. *)
Definition repair_checks (e : AuditEnv) (i : RepairIntent) (rows : list AuditRow) : result string RepairError :=
  match ri_repair_kind i with
  | TombstoneSegment => Err (UnsupportedRepairKind TombstoneSegment)
  | Truncate =>
      let? current_fingerprint := ok_or (ae_identity e) IdentityMissing in
      if negb (bool_decide (current_fingerprint = ri_daemon_identity_root_fingerprint i))
      then Err (DaemonFingerprintMismatch (ri_daemon_identity_root_fingerprint i) current_fingerprint)
      else
        let? from_row_hash := ok_or (List.find (λ r, ar_id r =? ri_from_row_id i) rows ≫= ar_row_hash)
                                (FromRowIdMissing (ri_from_row_id i)) in
        if negb (bool_decide (from_row_hash = ri_current_chain_tip_hash i))
        then Err (ChainTipMismatch (ri_current_chain_tip_hash i) from_row_hash)
        else Ok from_row_hash
  end.

(** The rows a truncation keeps. *)
Definition kept_rows (from_row_id : Z) (rows : list AuditRow) : list AuditRow :=
  List.filter (λ r, ar_id r <=? from_row_id) rows.

(** The receipt is appended to the journal inside the transaction: a commit that fails leaves it behind. *)
Definition truncate_after_row (e : AuditEnv) (i : RepairIntent) (c : RepairCosigner) (st : AuditStore)
  : result RepairDone RepairError * AuditStore :=
  match repair_checks e i (al_rows st) with
  | Err err => (Err err, st)
  | Ok from_row_hash =>
      let new_segment_id := max_segment (al_rows st) + 1 in
      let kept := kept_rows (ri_from_row_id i) (al_rows st) in
      let st_kept := mkAuditStore kept (al_seq st) (al_journal st) (al_quarantined st) in
      let truncated := Z.of_nat (length (al_rows st) - length kept) in
      let details := of_bytes (json_to_vec (tombstone_details (ae_repair_id e) truncated c i)) in
      let hash := chain_hash (Some from_row_hash)
                    (canonical_audit_row_bytes (ae_now e) None TOMBSTONE_ACTION None "ok" (Some details)) in
      let row := mkAudit (next_id st_kept) (ae_now e) None TOMBSTONE_ACTION None "ok" (Some details) (Some from_row_hash)
                   (Some hash) new_segment_id true in
      match insert_audit e st_kept row with
      | (Err (AE_Sqlite m), _) => (Err (RE_Sqlite m), st)
      | (Err _, _) => (Err (RE_Sqlite ""), st)
      | (Ok tombstone_row_id, st') =>
          if negb (ae_data_dir e)
          then (Err (RE_Journal "audit.repair_chain requires a configured data_dir (file-backed store)"), st)
          else
            match ae_journal_write e with
            | Some m => (Err (RE_Journal ("append finalize receipt: " +:+ m)), st)
            | None =>
                let journal := al_journal st ++ [mkFinalize (ae_receipt_id e) (ae_repair_id e) tombstone_row_id] in
                match ae_commit e with
                | Some m => (Err (RE_Sqlite m), mkAuditStore (al_rows st) (al_seq st) journal (al_quarantined st))
                | None => (Ok (mkRepairDone (ae_repair_id e) hash tombstone_row_id truncated),
                           mkAuditStore (al_rows st') (al_seq st') journal false)
                end
            end
      end
  end.

(** The dispatch of audit_repair_chain, with the presence devices that the identity store lists under the operator's root:
    none without a directory. *)
Definition handle_repair_chain (e : AuditEnv) (presence_devices : list (string * string)) (i : RepairIntent) (st : AuditStore)
  : result RepairDone RepairError * AuditStore :=
  if negb (al_quarantined st) then (Err NotQuarantined, st)
  else
    match verify_repair_intent_signature i (if ae_data_dir e then presence_devices else []) with
    | Err err => (Err err, st)
    | Ok cosigner => truncate_after_row e i cosigner st
    end.

(** ** Runs *)

Inductive AuditOp :=
| AAppend (autocommit : bool) (agent_id : option string) (action : string) (credential : option string) (outcome : string)
    (details : option string)
| ARotate
| ARepair (presence_devices : list (string * string)) (i : RepairIntent)
| AStartup
| AQuarantine.

Definition apply_audit_op (e : AuditEnv) (o : AuditOp) (st : AuditStore) : AuditStore :=
  match o with
  | AAppend ac a act c out d => (log_event ac e a act c out d st).2
  | ARotate => (force_rotate_audit_segment e st).2
  | ARepair devices i => (handle_repair_chain e devices i st).2
  | AStartup => startup_verify e st
  | AQuarantine => enter_quarantine st
  end.

Definition run_audit (st : AuditStore) (ops : list (AuditEnv * AuditOp)) : AuditStore :=
  foldl (λ st o, apply_audit_op o.1 o.2 st) st ops.

End Repair.

(** The store of a new installation. *)
Definition fresh_audit {H : AuditOps} (e : AuditEnv) : AuditStore := insert_genesis e (mkAuditStore [] 0 [] false).

(** An operation that does not write the action reserved for the first row. *)
Definition proper_op (o : AuditOp) : bool :=
  match o with AAppend _ _ act _ _ _ => negb (bool_decide (act = GENESIS_ACTION)) | _ => true end.

(** ** Logs as the writers leave them *)

Section Logs.
Context {H : AuditOps}.

(** [r] continues the log after [p]. *)
Definition follows (p r : AuditRow) : Prop :=
  ar_id p < ar_id r ∧ ar_segment_id p <= ar_segment_id r ∧ ar_action r ≠ GENESIS_ACTION ∧ ar_prev_hash r = ar_row_hash p ∧
  ar_row_hash r = Some (chain_hash (ar_prev_hash r) (row_canonical r)).

Fixpoint linked (p : AuditRow) (rows : list AuditRow) : Prop :=
  match rows with [] => True | r :: rows' => follows p r ∧ linked r rows' end.

Definition first_row (g : AuditRow) : Prop :=
  ar_action g = GENESIS_ACTION ∧ ar_row_hash g = Some genesis_hash ∧ ar_segment_id g = 0.

Definition log_ok (rows : list AuditRow) : Prop := ∃ g l, rows = g :: l ∧ first_row g ∧ linked g l.

Lemma last_cons_default (r p : AuditRow) l : List.last (r :: l) p = List.last l r.
Proof.
  revert r p. induction l as [|x l IH]; intros r p; [done|]. change (List.last (r :: x :: l) p) with (List.last (x :: l) p).
  by rewrite !IH.
Qed.

Lemma linked_app p l1 l2 : linked p (l1 ++ l2) ↔ linked p l1 ∧ linked (List.last l1 p) l2.
Proof.
  revert p. induction l1 as [|r l1 IH]; intros p; [cbn; tauto|]. cbn [app linked].
  rewrite IH, last_cons_default. tauto.
Qed.

Lemma linked_above p l r : linked p l → r ∈ l → ar_id p < ar_id r ∧ ar_segment_id p <= ar_segment_id r.
Proof.
  revert p. induction l as [|x l IH]; intros p; [by intros _ ?%not_elem_of_nil|].
  intros [(Hi & Hs & _) Hl] [->|Hr]%elem_of_cons; [done|]. destruct (IH x Hl Hr). lia.
Qed.

(** Any row of a log, with what lies before and after it. *)
Lemma log_split pre p post : log_ok (pre ++ p :: post) →
  linked p post ∧ (∀ r, r ∈ pre → ar_id r < ar_id p ∧ ar_segment_id r <= ar_segment_id p) ∧ is_Some (ar_row_hash p).
Proof.
  intros (g & l & E & (_ & Hg & _) & Hl). destruct pre as [|g' pre]; cbn in E; injection E as -> <-.
  - split; [done|]. split; [by intros r ?%not_elem_of_nil|by rewrite Hg].
  - apply linked_app in Hl as Hl'. destruct Hl' as [_ [Hf Hp]]. split; [done|].
    split; [|destruct Hf as (_ & _ & _ & _ & ->); by eexists].
    intros r [->|Hr]%elem_of_cons; [apply (linked_above _ _ _ Hl), elem_of_app; right; by constructor|].
    apply list_elem_of_split in Hr as (a & b & ->). rewrite <-app_assoc in Hl. apply linked_app in Hl as [_ [_ Hl]].
    apply (linked_above _ _ _ Hl), elem_of_app. right. by constructor.
Qed.

Lemma last_hash_app P l1 l2 :
  last_hash P (l1 ++ l2) = match last_hash P l2 with Some h => Some h | None => last_hash P l1 end.
Proof. unfold last_hash. by rewrite omap_app, last_app. Qed.

Lemma last_hash_none P l : (∀ r, r ∈ l → P r = false) → last_hash P l = None.
Proof.
  unfold last_hash. induction l as [|r l IH]; intros Hl; [done|]. cbn. rewrite (Hl r) by by constructor. apply IH.
  intros x Hx. apply Hl. by constructor.
Qed.

Lemma last_hash_here P pre p post :
  P p = true → is_Some (ar_row_hash p) → (∀ r, r ∈ post → P r = false) → last_hash P (pre ++ p :: post) = ar_row_hash p.
Proof.
  intros Hp [h Hh] Hpost. change (p :: post) with ([p] ++ post). rewrite !last_hash_app, (last_hash_none P post) by done.
  unfold last_hash at 1. cbn. by rewrite Hp, Hh.
Qed.

Lemma last_hash_in P l h : last_hash P l = Some h → ∃ r, r ∈ l ∧ P r = true ∧ ar_row_hash r = Some h.
Proof.
  intros Hl%last_Some_elem_of. apply list_elem_of_omap in Hl as (r & Hr & E). exists r. by destruct (P r).
Qed.

(** At a boundary the hash is that of the row before. *)
Lemma boundary_seed pre p r post :
  log_ok (pre ++ p :: r :: post) → ar_segment_id p ≠ ar_segment_id r →
  inter_segment_seed_row_hash (pre ++ p :: r :: post) (ar_segment_id r) = ar_row_hash p.
Proof.
  intros Hok Hne. destruct (log_split pre p (r :: post) Hok) as ([(_ & Hle & _) Hl] & _ & Hh).
  apply last_hash_here; [unfold before_segment; apply Z.ltb_lt; lia|done|].
  intros x [->|Hx]%elem_of_cons; apply Z.ltb_ge; [lia|]. by apply (linked_above _ _ _ Hl).
Qed.

Lemma check_follows p r w :
  follows p r → w_prior w = ar_row_hash p →
  ∃ h w', ar_row_hash r = Some h ∧ check_row r h w = Ok w' ∧ w_prior w' = Some h ∧ w_segment w' = w_segment w ∧
    w_walked w' = w_walked w + 1 ∧ w_legacy w' = w_legacy w.
Proof.
  intros (_ & _ & Ha & Hp & Hh) Hw. eexists _, _. split; [exact Hh|]. unfold check_row, recomputed_hash.
  rewrite (bool_decide_false (ar_action r = _)) by done. rewrite (bool_decide_true (w_prior w = _)) by congruence. cbn [negb andb].
  rewrite (bool_decide_true (chain_hash _ _ = _)) by done. cbn [negb]. done.
Qed.

Lemma walk_linked pre p rows w :
  log_ok (pre ++ p :: rows) → w_prior w = ar_row_hash p → w_segment w = Some (ar_segment_id p) →
  ∃ w', walk_rows (pre ++ p :: rows) rows w = Ok w' ∧ w_walked w' = w_walked w + Z.of_nat (length rows) ∧ w_legacy w' = w_legacy w.
Proof.
  revert pre p w. induction rows as [|r rows IH]; intros pre p w Hok Hp Hs.
  - exists w. cbn. split_and!; [done|lia|done].
  - destruct (log_split pre p (r :: rows) Hok) as ([Hf _] & _). cbn [walk_rows]. unfold walk_row at 1.
    set (w1 := cross _ _ w).
    assert (w_prior w1 = ar_row_hash p ∧ w_segment w1 = Some (ar_segment_id r) ∧ w_walked w1 = w_walked w ∧ w_legacy w1 = w_legacy w)
      as (H1 & H2 & H3 & H4).
    { unfold w1, cross. rewrite Hs. destruct (Z.eqb_spec (ar_segment_id p) (ar_segment_id r)) as [E|E]; [by rewrite <-E|].
      cbn. by rewrite (boundary_seed pre p r rows Hok E). }
    destruct (check_follows p r w1 Hf H1) as (h & w2 & Hh & Hck & Hp2 & Hs2 & Hw2 & Hl2).
    rewrite Hh, Hck. cbn [result_bind].
    assert (pre ++ p :: r :: rows = (pre ++ [p]) ++ r :: rows) as E by by rewrite <-app_assoc. rewrite E in Hok |- *.
    destruct (IH (pre ++ [p]) r w2 Hok) as (w' & Hw' & Hn & Hl); [congruence|congruence|].
    exists w'. split; [exact Hw'|]. cbn [length]. split; [lia|congruence].
Qed.

(** The hash before a window that starts in the middle. *)
Lemma window_seed pre p r post :
  log_ok (pre ++ p :: r :: post) → walk_seed (pre ++ p :: r :: post) (r :: post) = ar_row_hash p.
Proof.
  intros Hok. pose proof Hok as Hok'. assert (pre ++ p :: r :: post = (pre ++ [p]) ++ r :: post) as E by by rewrite <-app_assoc.
  rewrite E in Hok'. destruct (log_split (pre ++ [p]) r post Hok') as (Hl & _ & _).
  destruct (log_split pre p (r :: post) Hok) as ([(Hid & Hle & _) _] & Hpre & Hh). unfold walk_seed.
  destruct (Z.eqb_spec (ar_segment_id p) (ar_segment_id r)) as [Es|Es].
  - rewrite last_hash_here; [by destruct Hh as [h ->]| |done|].
    + unfold in_segment. rewrite andb_true_iff, Z.ltb_lt, Z.eqb_eq. done.
    + intros x Hx. apply andb_false_iff. left. apply Z.ltb_ge. apply elem_of_cons in Hx as [->|Hx]; [lia|].
      apply (linked_above _ _ _ Hl) in Hx. lia.
  - rewrite last_hash_none; [by apply boundary_seed|]. intros x Hx. apply andb_false_iff.
    apply elem_of_app in Hx as [Hx|[->|[->|Hx]%elem_of_cons]%elem_of_cons].
    + right. apply Z.eqb_neq. apply Hpre in Hx. lia.
    + right. by apply Z.eqb_neq.
    + left. apply Z.ltb_ge. lia.
    + left. apply Z.ltb_ge. apply (linked_above _ _ _ Hl) in Hx. lia.
Qed.

Lemma log_walks table k :
  log_ok table →
  ∃ w, walk_rows table (drop k table) (walk_begin table (drop k table)) = Ok w ∧
    w_walked w = Z.of_nat (length (drop k table)) ∧ w_legacy w = 0.
Proof.
  intros Hok. destruct (drop k table) as [|r post] eqn:Ed.
  { exists (walk_begin table []). done. }
  pose proof (take_drop k table) as E. rewrite Ed in E. destruct (take k table) as [|x pre0] eqn:Et using rev_ind.
  - cbn in E. subst table. destruct Hok as (g & l & [= <- <-] & (Ha & Hh & Hs) & Hl). cbn [walk_rows]. unfold walk_row at 1.
    rewrite Hh. unfold check_row, recomputed_hash. rewrite (bool_decide_true (ar_action r = _)) by done. cbn [negb andb].
    rewrite (bool_decide_true (genesis_hash = _)) by done. cbn [negb result_bind].
    set (w1 := mkWalk _ _ _ _ _ _ _ _). destruct (walk_linked [] r post w1) as (w & Hw & Hn & Hlg).
    + by exists r, post.
    + unfold w1. cbn. by rewrite Hh.
    + done.
    + exists w. split; [exact Hw|]. split; [rewrite Hn; unfold w1; cbn [w_walked length cross walk_begin w_segment]; lia|by rewrite Hlg].
  - clear IHpre0. rewrite <-app_assoc in E. cbn in E. subst table. clear Et Ed.
    assert (pre0 ++ x :: r :: post = (pre0 ++ [x]) ++ r :: post) as E by by rewrite <-app_assoc.
    destruct (log_split pre0 x (r :: post) Hok) as ([Hf _] & _). cbn [walk_rows]. unfold walk_row at 1. set (w1 := cross _ _ _).
    assert (w_prior w1 = ar_row_hash x) as H1 by exact (window_seed pre0 x r post Hok).
    destruct (check_follows x r w1 Hf H1) as (h & w2 & Hh & Hck & Hp2 & Hs2 & Hw2 & Hl2).
    rewrite Hh, Hck. cbn [result_bind].
    rewrite E in Hok |- *. destruct (walk_linked (pre0 ++ [x]) r post w2) as (w & Hw & Hn & Hlg); [done|congruence|by rewrite Hs2|].
    exists w. split; [exact Hw|]. split; [rewrite Hn, Hw2; unfold w1; cbn [w_walked length cross walk_begin w_segment]; lia|].
    by rewrite Hlg, Hl2.
Qed.

End Logs.

(** ** What operations keep *)

Section Keep.
Context {H : AuditOps} {X : HexOps} {D : DeviceSignatures}.

Definition audit_wf (st : AuditStore) : Prop :=
  log_ok (al_rows st) ∧ Forall (λ r, ar_id r <= al_seq st) (al_rows st).

Lemma foldl_max_le s l m : foldl Z.max s l <= m ↔ s <= m ∧ Forall (λ z, z <= m) l.
Proof.
  revert s. induction l as [|z l IH]; intros s; cbn; [split; [done|tauto]|]. rewrite IH, Forall_cons, Z.max_lub_iff. tauto.
Qed.

Lemma max_segment_last rows p :
  last rows = Some p → Forall (λ r, ar_segment_id r <= ar_segment_id p) rows → max_segment rows = ar_segment_id p.
Proof.
  intros Hl Hall. unfold max_segment. apply last_Some_elem_of in Hl as Hp. destruct rows as [|r rows]; [done|]. cbn.
  set (m := foldl _ _ _). assert (m <= m) as [Hr Hm]%foldl_max_le by lia.
  apply Forall_cons in Hall as [H1 H2]. assert (m <= ar_segment_id p).
  { apply foldl_max_le. split; [done|]. by apply Forall_fmap. }
  apply elem_of_cons in Hp as [->|Hp]; [lia|]. rewrite Forall_fmap, Forall_forall in Hm. specialize (Hm p Hp). cbn in Hm. lia.
Qed.

(** The last row of a log. *)
Lemma log_last rows : log_ok rows →
  ∃ pre p, rows = pre ++ [p] ∧ is_Some (ar_row_hash p) ∧ max_segment rows = ar_segment_id p ∧
    last_hash (in_segment (ar_segment_id p)) rows = ar_row_hash p ∧ Forall (λ r, ar_id r <= ar_id p) rows.
Proof.
  intros Hok. destruct rows as [|p pre _] using rev_ind; [by destruct Hok as (? & ? & ? & _)|].
  exists pre, p. destruct (log_split pre p [] Hok) as (_ & Hpre & Hh). split_and!; try done.
  - apply max_segment_last; [by rewrite last_snoc|]. apply Forall_app. split; [|by constructor].
    apply Forall_forall. intros r Hr. by apply Hpre.
  - apply last_hash_here; [by apply Z.eqb_eq|done|by intros r ?%not_elem_of_nil].
  - apply Forall_app. split; [|by constructor]. apply Forall_forall. intros r Hr. destruct (Hpre r Hr). lia.
Qed.

Lemma log_extend pre p r : log_ok (pre ++ [p]) → follows p r → log_ok ((pre ++ [p]) ++ [r]).
Proof.
  intros (g & l & E & Hg & Hl) Hf. exists g, (l ++ [r]). rewrite E. split; [done|]. split; [done|].
  apply linked_app. split; [done|]. cbn. split; [|done]. assert (p = List.last l g) as <-; [|done].
  destruct pre as [|x pre]; cbn in E; injection E as -> <-; [done|]. by rewrite List.last_last.
Qed.

Lemma log_prefix pre p post : log_ok (pre ++ p :: post) → log_ok (pre ++ [p]).
Proof.
  intros (g & l & E & Hg & Hl). destruct pre as [|x pre]; cbn in E; injection E as -> <-; [by exists g, []|].
  exists g, (pre ++ [p]). split_and!; [done|done|]. change (p :: post) with ([p] ++ post) in Hl. rewrite app_assoc in Hl.
  by apply linked_app in Hl as [Hl _].
Qed.

Lemma next_id_above st : al_seq st < next_id st ∧ Forall (λ r, ar_id r < next_id st) (al_rows st).
Proof.
  unfold next_id. set (m := foldl _ _ _). assert (m <= m) as [Hs Hm]%foldl_max_le by lia. split; [lia|].
  rewrite Forall_fmap in Hm. eapply Forall_impl; [exact Hm|]. cbn. lia.
Qed.

Lemma insert_Ok e st r id st' :
  insert_audit e st r = (Ok id, st') →
  id = ar_id r ∧ st' = mkAuditStore (al_rows st ++ [r]) (ar_id r) (al_journal st) (al_quarantined st).
Proof. unfold insert_audit. destruct (ae_write e); [done|]. destruct (row_admitted _ _); [|done]. by intros [= <- <-]. Qed.

Lemma insert_Err e st r err st' : insert_audit e st r = (Err err, st') → st' = st.
Proof. unfold insert_audit. destruct (ae_write e); [by intros [= _ <-]|]. destruct (row_admitted _ _); [done|]. by intros [= _ <-]. Qed.

(** Inserting the row that continues the log. *)
Lemma insert_keeps e st r pre p :
  audit_wf st → al_rows st = pre ++ [p] → follows p r → ar_id r = next_id st → audit_wf (insert_audit e st r).2.
Proof.
  intros [Hok Hseq] Hrows Hf Hid. destruct (insert_audit e st r) as [[id|] st'] eqn:E; cbn [snd].
  - apply insert_Ok in E as [_ ->]. split; cbn [al_rows al_seq].
    + rewrite Hrows in Hok |- *. by apply log_extend.
    + rewrite Hid. destruct (next_id_above st) as [_ Hn]. apply Forall_app. split; [|constructor; [lia|done]].
      eapply Forall_impl; [exact Hn|]. cbn. lia.
  - apply insert_Err in E as ->. by split.
Qed.

(** The row an append or a rotation writes. *)
Lemma new_row_follows st pre p e agent action cred outcome details segment genesis :
  log_ok (al_rows st) → al_rows st = pre ++ [p] → action ≠ GENESIS_ACTION → ar_segment_id p <= segment →
  let prev := last_hash (in_segment (max_segment (al_rows st))) (al_rows st) in
  follows p (mkAudit (next_id st) (ae_now e) agent action cred outcome details prev
               (Some (chain_hash prev (canonical_audit_row_bytes (ae_now e) agent action cred outcome details))) segment genesis).
Proof.
  intros Hok Hrows Ha Hs prev. destruct (log_last _ Hok) as (pre' & p' & E & _ & Hm & Hp & _).
  rewrite Hrows in E. apply app_inj_tail in E as [_ <-]. split_and!; try done.
  - destruct (next_id_above st) as [_ Hn]. rewrite Hrows, Forall_app, Forall_cons in Hn. by destruct Hn as (_ & ? & _).
  - unfold prev. cbn. by rewrite Hm, Hp.
Qed.

Lemma append_keeps e agent action cred outcome details st :
  audit_wf st → action ≠ GENESIS_ACTION →
  audit_wf (append_audit_event_with_chain_in_tx e agent action cred outcome details st).2.
Proof.
  intros Hwf Ha. unfold append_audit_event_with_chain_in_tx. destruct (al_quarantined st); [done|].
  destruct Hwf as [Hok Hseq]. destruct (log_last _ Hok) as (pre & p & Hrows & _ & Hm & _ & _).
  eapply insert_keeps; [by split|exact Hrows| |done]. apply (new_row_follows st pre p); try done. rewrite Hm. lia.
Qed.

Lemma rotate_keeps e st : audit_wf st → audit_wf (force_rotate_audit_segment e st).2.
Proof.
  intros Hwf. unfold force_rotate_audit_segment. destruct (al_quarantined st); [done|].
  destruct Hwf as [Hok Hseq]. destruct (log_last _ Hok) as (pre & p & Hrows & _ & Hm & _ & _).
  match goal with |- context [insert_audit e st ?r] => pose proof (insert_keeps e st r pre p) as Hk end.
  assert (audit_wf st) as Hwf by by split. specialize (Hk Hwf Hrows).
  destruct (insert_audit _ _ _) as [[]]; cbn [snd] in *; apply Hk; try done;
    (apply (new_row_follows st pre p); [done|done|done|rewrite Hm; lia]).
Qed.

(** What a truncation keeps, when the row it names is in the log. *)
Lemma kept_split pre f post : log_ok (pre ++ f :: post) → kept_rows (ar_id f) (pre ++ f :: post) = pre ++ [f].
Proof.
  intros Hok. destruct (log_split pre f post Hok) as (Hl & Hpre & _).
  unfold kept_rows. rewrite List.filter_app. cbn. rewrite Z.leb_refl. f_equal; [|f_equal].
  - apply forallb_filter_id, forallb_forall. intros r Hr%list_elem_of_In. apply Z.leb_le. destruct (Hpre r Hr). lia.
  - assert (∀ l, (∀ r, r ∈ l → ar_id f < ar_id r) → List.filter (λ r, ar_id r <=? ar_id f) l = []) as Hnil.
    { clear. induction l as [|r l IH]; intros Hl; [done|]. cbn. assert (ar_id f < ar_id r) by (apply Hl; by constructor).
      destruct (Z.leb_spec (ar_id r) (ar_id f)); [lia|]. apply IH. intros x Hx. apply Hl. by constructor. }
    apply Hnil. intros r Hr. by apply (linked_above _ _ _ Hl).
Qed.

Lemma kept_prefix rows from f :
  log_ok rows → List.find (λ r, ar_id r =? from) rows = Some f →
  ∃ pre post, rows = pre ++ f :: post ∧ ar_id f = from ∧ kept_rows from rows = pre ++ [f].
Proof.
  intros Hok [Hin Hid]%find_some. apply Z.eqb_eq in Hid. apply list_elem_of_In, list_elem_of_split in Hin as (pre & post & ->).
  exists pre, post. rewrite <-Hid. split_and!; [done|done|by apply kept_split].
Qed.

Lemma repair_checks_Ok e i rows h :
  repair_checks e i rows = Ok h →
  ri_repair_kind i = Truncate ∧ ae_identity e = Some (ri_daemon_identity_root_fingerprint i) ∧ h = ri_current_chain_tip_hash i ∧
  ∃ f, List.find (λ r, ar_id r =? ri_from_row_id i) rows = Some f ∧ ar_row_hash f = Some h.
Proof.
  unfold repair_checks. destruct (ri_repair_kind i); [|done]. intros (fp & Hfp%ok_or_Ok & Hc)%result_bind_Ok.
  case_bool_decide as Hf; cbn [negb] in Hc; [|done]. apply result_bind_Ok in Hc as (h' & Hh%ok_or_Ok & Hc).
  case_bool_decide as Ht; cbn [negb] in Hc; [|done]. injection Hc as <-. subst fp. split_and!; try done.
  destruct (List.find _ rows) as [f|]; [|done]. by exists f.
Qed.

(** A repair that succeeds: the kept rows with a tombstone. *)
Lemma truncate_Ok e i c st d st' :
  truncate_after_row e i c st = (Ok d, st') →
  ∃ h row, repair_checks e i (al_rows st) = Ok h ∧ al_rows st' = kept_rows (ri_from_row_id i) (al_rows st) ++ [row] ∧
    ar_id row = next_id (mkAuditStore (kept_rows (ri_from_row_id i) (al_rows st)) (al_seq st) (al_journal st) (al_quarantined st)) ∧
    ar_action row = TOMBSTONE_ACTION ∧ ar_prev_hash row = Some h ∧ ar_segment_id row = max_segment (al_rows st) + 1 ∧
    ar_row_hash row = Some (chain_hash (ar_prev_hash row) (row_canonical row)) ∧
    ar_details row = Some (of_bytes (json_to_vec (tombstone_details (ae_repair_id e) (rd_truncated_row_count d) c i))) ∧
    al_seq st' = ar_id row ∧ rd_tombstone_row_id d = ar_id row ∧ rd_repair_id d = ae_repair_id e ∧
    al_journal st' = al_journal st ++ [mkFinalize (ae_receipt_id e) (ae_repair_id e) (ar_id row)] ∧ al_quarantined st' = false.
Proof.
  unfold truncate_after_row. destruct (repair_checks e i (al_rows st)) as [h|]; [|done].
  destruct (insert_audit _ _ _) as [[id|[]] st1] eqn:E; [|done..]. apply insert_Ok in E as [-> ->].
  destruct (ae_data_dir e); [|done]. cbn [negb]. destruct (ae_journal_write e); [done|]. destruct (ae_commit e); [done|].
  intros [= <- <-]. eexists h, _. by split_and!.
Qed.

Lemma truncate_Err e i c st err st' :
  truncate_after_row e i c st = (Err err, st') →
  al_rows st' = al_rows st ∧ al_seq st' = al_seq st ∧ al_quarantined st' = al_quarantined st ∧ ∃ l, al_journal st' = al_journal st ++ l.
Proof.
  unfold truncate_after_row. destruct (repair_checks e i (al_rows st)) as [h|].
  2: { intros [= _ <-]. split_and!; try done. exists []. by rewrite app_nil_r. }
  destruct (insert_audit _ _ _) as [[id|[]] st1];
    try (intros [= _ <-]; split_and!; try done; exists []; by rewrite app_nil_r).
  destruct (negb _); [intros [= _ <-]; split_and!; try done; exists []; by rewrite app_nil_r|].
  destruct (ae_journal_write e); [intros [= _ <-]; split_and!; try done; exists []; by rewrite app_nil_r|].
  destruct (ae_commit e); [|done]. intros [= _ <-]. split_and!; try done. by eexists.
Qed.

Lemma truncate_keeps e i c st : audit_wf st → audit_wf (truncate_after_row e i c st).2.
Proof.
  intros [Hok Hseq]. destruct (truncate_after_row e i c st) as [[d|err] st'] eqn:E; cbn [snd].
  2: { apply truncate_Err in E as (Hr & Hs & _). unfold audit_wf. by rewrite Hr, Hs. }
  apply truncate_Ok in E as (h & row & Hc & Hrows & Hid & Ha & Hp & Hsg & Hh & _ & Hs & _).
  apply repair_checks_Ok in Hc as (_ & _ & _ & f & Hf & Hfh). destruct (kept_prefix _ _ _ Hok Hf) as (pre & post & Er & Hfid & Hk).
  set (st1 := mkAuditStore _ _ _ _) in Hid. destruct (next_id_above st1) as [Hn1 Hn2]. cbn [st1 al_rows al_seq] in Hn1, Hn2.
  split; rewrite Hrows; [|rewrite Hs, Hid; apply Forall_app; split; [eapply Forall_impl; [exact Hn2|]; cbn; lia|constructor; [lia|done]]].
  rewrite Hk in Hn2 |- *. apply log_extend; [rewrite Er in Hok; by eapply log_prefix|]. split_and!; try done.
  - rewrite Hid. rewrite Forall_app, Forall_cons in Hn2. by destruct Hn2 as (_ & ? & _).
  - rewrite Hsg. destruct (log_last _ Hok) as (pre' & p & Ep & _ & Hm & _). rewrite Hm.
    rewrite Ep in Hok. destruct (log_split pre' p [] Hok) as (_ & Hb & _). rewrite Ep in Er.
    assert (f ∈ pre' ++ [p]) as Hin by (rewrite Er; apply elem_of_app; right; by constructor).
    apply elem_of_app in Hin as [Hin|Hin]; [destruct (Hb f Hin); lia|]. apply list_elem_of_singleton in Hin as ->. lia.
  - rewrite Ha. done.
  - by rewrite Hp, Hfh.
Qed.

Lemma op_keeps e o st : proper_op o = true → audit_wf st → audit_wf (apply_audit_op e o st).
Proof.
  intros Hp Hwf. destruct o as [ac a act c out d| |devices i| |]; cbn [apply_audit_op].
  - cbn in Hp. apply negb_true_iff, bool_decide_eq_false in Hp. unfold log_event, append_audit_event_with_chain.
    destruct ac; [destruct (al_quarantined st) eqn:Eq; [done|]|]; by apply append_keeps.
  - by apply rotate_keeps.
  - unfold handle_repair_chain. destruct (negb _); [done|]. destruct (verify_repair_intent_signature _ _); [|done].
    by apply truncate_keeps.
  - unfold startup_verify. by destruct (passes _).
  - done.
Qed.

Lemma run_keeps ops st : forallb (λ o, proper_op o.2) ops = true → audit_wf st → audit_wf (run_audit st ops).
Proof.
  revert st. induction ops as [|[e o] ops IH]; intros st; [done|]. cbn. intros [Ho Hops]%andb_true_iff Hwf.
  apply IH; [done|]. by apply op_keeps.
Qed.

Lemma fresh_keeps e : ae_write e = None → audit_wf (fresh_audit e).
Proof.
  intros He. unfold fresh_audit, insert_genesis, insert_audit. cbn. rewrite He. split; cbn.
  - by eexists _, [].
  - by repeat constructor.
Qed.

End Keep.

(** ** What a passing walk says *)

Section Verified.
Context {H : AuditOps}.

Lemma check_row_Ok r h w w' :
  check_row r h w = Ok w' →
  recomputed_hash r = h ∧ (ar_action r ≠ GENESIS_ACTION → w_prior w = ar_prev_hash r) ∧ w_prior w' = Some h ∧
  w_segment w' = w_segment w.
Proof.
  unfold check_row. case_bool_decide as Hg; cbn [negb andb].
  - case_bool_decide as Hr; [|done]. intros [= <-]. by split_and!.
  - case_bool_decide as Hp; [|done]. cbn [negb]. case_bool_decide as Hr; [|done]. intros [= <-]. by split_and!.
Qed.

Lemma walk_row_Ok table r w w' :
  walk_row table r w = Ok w' →
  match ar_row_hash r with
  | Some h => recomputed_hash r = h ∧ w_prior w' = Some h ∧
              (ar_action r ≠ GENESIS_ACTION → w_prior (cross table (ar_segment_id r) w) = ar_prev_hash r)
  | None => w_prior w' = w_prior (cross table (ar_segment_id r) w)
  end ∧ w_segment w' = Some (ar_segment_id r).
Proof.
  assert (w_segment (cross table (ar_segment_id r) w) = Some (ar_segment_id r)) as Hs.
  { unfold cross. destruct (w_segment w) as [s|] eqn:E; [|done]. destruct (Z.eqb_spec s (ar_segment_id r)) as [->|]; [by rewrite E|done]. }
  unfold walk_row. destruct (ar_row_hash r) as [h|].
  - intros (H1 & H2 & H3 & H4)%check_row_Ok. split; [by split_and!|congruence].
  - destruct (_ && _); [by intros [= <-]|]. destruct (negb _); [done|]. by intros [= <-].
Qed.

(** Every row with a hash has the right one and links to a row of the table. *)
Definition verified (table : list AuditRow) : Prop :=
  ∀ r h, r ∈ table → ar_row_hash r = Some h →
    recomputed_hash r = h ∧
    (ar_action r ≠ GENESIS_ACTION → ∀ h', ar_prev_hash r = Some h' → ∃ x, x ∈ table ∧ ar_row_hash x = Some h').

Definition sourced (table : list AuditRow) (o : option string) : Prop :=
  ∀ h, o = Some h → ∃ x, x ∈ table ∧ ar_row_hash x = Some h.

Lemma last_hash_sourced P table : sourced table (last_hash P table).
Proof. intros h (x & Hx & _ & Hh)%last_hash_in. by exists x. Qed.

Lemma cross_sourced table s w : sourced table (w_prior w) → sourced table (w_prior (cross table s w)).
Proof.
  intros Hw. unfold cross. destruct (w_segment w); [|done]. destruct (_ =? _); [done|]. apply last_hash_sourced.
Qed.

Lemma walk_sources table rows w w' :
  walk_rows table rows w = Ok w' → sourced table (w_prior w) → rows ⊆ table →
  ∀ r h, r ∈ rows → ar_row_hash r = Some h →
    recomputed_hash r = h ∧
    (ar_action r ≠ GENESIS_ACTION → ∀ h', ar_prev_hash r = Some h' → ∃ x, x ∈ table ∧ ar_row_hash x = Some h').
Proof.
  revert w. induction rows as [|x rows IH]; intros w; [by intros _ _ _ r h ?%not_elem_of_nil|].
  cbn. intros (w1 & H1 & H2)%result_bind_Ok Hw Hsub. apply walk_row_Ok in H1 as [H1 _].
  pose proof (cross_sourced table (ar_segment_id x) w Hw) as Hc. intros r h Hr Hh.
  apply elem_of_cons in Hr as [->|Hr].
  - rewrite Hh in H1. destruct H1 as (Hre & _ & Hp). split; [done|]. intros Ha h' Hh'. apply Hc. by rewrite Hp.
  - apply (IH w1 H2); [|set_solver|done|done]. destruct (ar_row_hash x) as [hx|] eqn:Ex.
    + destruct H1 as (_ & -> & _). intros h1 [= <-]. exists x. split; [apply Hsub; by constructor|done].
    + by rewrite H1.
Qed.

Lemma walk_rows_Err table rows w o : walk_rows table rows w = Err o → passes o = false.
Proof.
  revert w. induction rows as [|r rows IH]; intros w; [done|]. cbn.
  destruct (walk_row table r w) as [w1|o1] eqn:E1; [apply IH|]. intros [= <-]. revert E1. unfold walk_row, check_row.
  destruct (ar_row_hash r).
  - destruct (_ && _); [by intros [= <-]|]. destruct (negb _); [by intros [= <-]|done].
  - destruct (_ && _); [done|]. destruct (negb _); [by intros [= <-]|done].
Qed.

Lemma passes_verified e st : passes (run_audit_verify e None st) = true → verified (al_rows st).
Proof.
  unfold run_audit_verify. cbn [window]. destruct (walk_rows _ _ _) as [w|o] eqn:E.
  - intros _ r h Hr Hh. eapply walk_sources; [exact E| |done|done|done]. cbn. unfold walk_seed.
    destruct (al_rows st) as [|x l]; [done|]. destruct (last_hash _ (x :: l)) as [h1|] eqn:El.
    + intros h2 [= <-]. by eapply last_hash_sourced.
    + apply last_hash_sourced.
  - by rewrite (walk_rows_Err _ _ _ _ E).
Qed.

Context {L : AuditLaws}.

Lemma brace_not_hex : ¬ hex_char "{"%char.
Proof. apply (bool_decide_unpack _). vm_compute. exact I. Qed.

Lemma hex_brace_split l1 l2 r1 r2 :
  Forall hex_char l1 → Forall hex_char l2 → l1 ++ "{"%char :: r1 = l2 ++ "{"%char :: r2 → l1 = l2 ∧ r1 = r2.
Proof.
  intros H1 H2. revert l2 H2. induction H1 as [|a l1 Ha _ IH]; intros l2 H2 E.
  - destruct H2 as [|b l2 Hb _]; cbn in E; [by injection E|]. injection E as <- _. by destruct brace_not_hex.
  - destruct H2 as [|b l2 Hb H2]; cbn in E; [injection E as -> _; by destruct brace_not_hex|].
    injection E as -> E. by destruct (IH l2 H2 E) as [-> ->].
Qed.

(** A hash, or none. *)
Definition digest (o : option string) : Prop := ∀ h, o = Some h → ∃ b, h = blake3_hex b.

Lemma chain_hash_inj p1 m1 p2 m2 :
  digest p1 → digest p2 → chain_hash p1 (json_to_vec m1) = chain_hash p2 (json_to_vec m2) → p1 = p2 ∧ m1 = m2.
Proof.
  intros D1 D2 E%blake3_inj. destruct (json_brace m1) as [r1 J1], (json_brace m2) as [r2 J2]. rewrite J1, J2 in E.
  assert (∀ p, digest p → Forall hex_char (match p with Some s => to_bytes s | None => [] end)) as Hd.
  { intros [s|] Hp; [|done]. destruct (Hp s eq_refl) as [b ->]. apply blake3_digits. }
  apply hex_brace_split in E as [Ep Er]; [|by apply Hd..]. split; [|apply json_inj; congruence].
  assert (∀ s, digest (Some s) → to_bytes s ≠ []) as Hne.
  { intros s Hp E0. destruct (Hp s eq_refl) as [b ->]. apply (blake3_nonempty b). apply to_bytes_inj. by rewrite E0. }
  destruct p1 as [s1|], p2 as [s2|]; [f_equal; by apply to_bytes_inj|by destruct (Hne s1)|by destruct (Hne s2)|done].
Qed.

Lemma genesis_not_chain p m : genesis_hash ≠ chain_hash p (json_to_vec m).
Proof.
  intros E%blake3_inj. destruct (json_brace m) as [r J]. rewrite J in E.
  assert ("{"%char ∈ to_bytes GENESIS_ACTION) as Hin by (rewrite E; apply elem_of_app; right; by constructor).
  apply (bool_decide_pack _) in Hin. vm_compute in Hin. done.
Qed.

(** The fields that are hashed, and the hashes. *)
Definition same_content (x y : AuditRow) : Prop :=
  ar_timestamp x = ar_timestamp y ∧ ar_agent_id x = ar_agent_id y ∧ ar_action x = ar_action y ∧
  ar_credential x = ar_credential y ∧ ar_outcome x = ar_outcome y ∧ ar_details x = ar_details y ∧
  ar_prev_hash x = ar_prev_hash y ∧ ar_row_hash x = ar_row_hash y.

Lemma opt_field_inj a b : opt_field a = opt_field b → a = b.
Proof. destruct a, b; by intros [=]; subst. Qed.

Lemma chain_hash_content x y :
  digest (ar_prev_hash x) → digest (ar_prev_hash y) →
  chain_hash (ar_prev_hash x) (row_canonical x) = chain_hash (ar_prev_hash y) (row_canonical y) →
  ar_row_hash x = ar_row_hash y → same_content x y.
Proof.
  intros Dx Dy E Hh. apply chain_hash_inj in E as [Hp Hm]; [|done..].
  pose (K k := f_equal (λ m : gmap string FieldValue, m !! k) Hm).
  pose proof (K "timestamp") as K1. pose proof (K "outcome") as K2. pose proof (K "details") as K3.
  pose proof (K "credential") as K4. pose proof (K "agent_id") as K5. pose proof (K "action") as K6. clear K Hm.
  simpl_map. simplify_eq. split_and!; try done; by apply opt_field_inj.
Qed.

End Verified.

Section Binding.
Context {H : AuditOps} {L : AuditLaws}.

Lemma recomputed_digest r : digest (Some (recomputed_hash r)).
Proof. intros h [= <-]. unfold recomputed_hash, genesis_hash, chain_hash. destruct (bool_decide _); by eexists. Qed.

(** The row of a verified table with the hash of a row of a log is that row. *)
Lemma matching_row table x y :
  verified table → x ∈ table → ar_row_hash x = ar_row_hash y → ar_action y ≠ GENESIS_ACTION → digest (ar_prev_hash y) →
  ar_row_hash y = Some (chain_hash (ar_prev_hash y) (row_canonical y)) →
  same_content x y ∧ ar_action x ≠ GENESIS_ACTION.
Proof.
  intros Hv Hx Hh Hy Dy Hc. rewrite Hc in Hh. destruct (Hv x _ Hx Hh) as [Hre Hsrc]. unfold recomputed_hash in Hre.
  case_bool_decide as Hg; [by apply genesis_not_chain in Hre|].
  assert (digest (ar_prev_hash x)) as Dx.
  { intros h' Hh'. destruct (Hsrc Hg h' Hh') as (z & Hz & Hzh). destruct (Hv z h' Hz Hzh) as [<- _].
    by apply (recomputed_digest z). }
  split; [|done]. apply chain_hash_content; [done..|congruence].
Qed.

Lemma log_digests g l p : first_row g → linked g l → p ∈ g :: l → digest (ar_row_hash p).
Proof.
  intros (_ & Hg & _) Hl [->|Hp]%elem_of_cons.
  - rewrite Hg. intros h [= <-]. by eexists.
  - apply list_elem_of_split in Hp as (a & b & ->). apply linked_app in Hl as [_ [(_ & _ & _ & _ & ->) _]].
    intros h [= <-]. by eexists.
Qed.

Lemma last_elem (g : AuditRow) l : List.last l g ∈ g :: l.
Proof.
  destruct l as [|z l _] using rev_ind; [by constructor|]. rewrite List.last_last. right. apply elem_of_app. right. by constructor.
Qed.

Lemma last_hashed g l : first_row g → linked g l → is_Some (ar_row_hash (List.last l g)).
Proof.
  intros (_ & Hg & _) Hl. destruct l as [|z l _] using rev_ind; [cbn; by rewrite Hg|]. rewrite List.last_last.
  by apply linked_app in Hl as [_ [(_ & _ & _ & _ & ->) _]].
Qed.

Lemma log_retained table g l x :
  verified table → first_row g → linked g l → x ∈ table → ar_row_hash x = ar_row_hash (List.last l g) →
  ∀ r, r ∈ l → ∃ r', r' ∈ table ∧ same_content r' r.
Proof.
  intros Hv Hg. revert x. induction l as [|y l IH] using rev_ind; intros x Hl Hx Hh r Hr; [by apply not_elem_of_nil in Hr|].
  rewrite List.last_last in Hh. apply linked_app in Hl as [Hl [(_ & _ & Ha & Hp & Hc) _]].
  assert (digest (ar_prev_hash y)) as Dy by (rewrite Hp; by eapply log_digests, last_elem).
  destruct (matching_row table x y Hv Hx Hh Ha Dy Hc) as [Hsame Hg'].
  apply elem_of_app in Hr as [Hr|Hr]; [|apply list_elem_of_singleton in Hr as ->; by exists x].
  destruct (last_hashed g l Hg Hl) as [h0 E0].
  assert (ar_prev_hash x = Some h0) as Hpx by (destruct Hsame as (_ & _ & _ & _ & _ & _ & -> & _); by rewrite Hp, E0).
  rewrite Hc in Hh. destruct (Hv x _ Hx Hh) as [_ Hsrc]. destruct (Hsrc Hg' h0 Hpx) as (z & Hz & Hzh).
  apply (IH z Hl Hz); [by rewrite Hzh, E0|done].
Qed.

(** *** Tables in the order of their segments *)

Definition all_rows (r : AuditRow) : bool := true.

(** The ids increase and the segments do not decrease. *)
Definition ordered (table : list AuditRow) : Prop :=
  ∀ a x b y c, table = a ++ x :: b ++ y :: c → ar_id x < ar_id y ∧ ar_segment_id x <= ar_segment_id y.

Lemma ordered_before table pre r post x : ordered table → table = pre ++ r :: post → x ∈ pre → ar_id x < ar_id r ∧ ar_segment_id x <= ar_segment_id r.
Proof.
  intros Ho -> Hx. apply list_elem_of_split in Hx as (a & b & ->). apply (Ho a x b r post). by rewrite <-app_assoc.
Qed.

Lemma ordered_after table pre r post x : ordered table → table = pre ++ r :: post → x ∈ post → ar_id r < ar_id x ∧ ar_segment_id r <= ar_segment_id x.
Proof. intros Ho -> Hx. apply list_elem_of_split in Hx as (a & b & ->). by apply (Ho pre r a x b). Qed.

Lemma last_hash_weaken P l : (∀ r, r ∈ l → P r = true) → last_hash P l = last_hash all_rows l.
Proof.
  unfold last_hash. intros Hl. f_equal. induction l as [|r l IH]; [done|]. cbn. rewrite (Hl r) by by constructor. cbn.
  rewrite IH; [done|]. intros x Hx. apply Hl. by constructor.
Qed.

(** At a boundary the walk goes on with the last hash so far. *)
Lemma ordered_seed pre r post p :
  ordered (pre ++ r :: post) → last pre = Some p → ar_segment_id p ≠ ar_segment_id r →
  inter_segment_seed_row_hash (pre ++ r :: post) (ar_segment_id r) = last_hash all_rows pre.
Proof.
  intros Ho Hp Hne. unfold inter_segment_seed_row_hash. rewrite last_hash_app, (last_hash_none _ (r :: post)).
  - apply last_hash_weaken. intros x Hx. apply Z.ltb_lt. apply last_Some in Hp as [pre' ->].
    assert (ar_segment_id p <= ar_segment_id r) as Hpr.
    { eapply (ordered_before _ (pre' ++ [p]) r post p); [exact Ho|done|]. apply elem_of_app. right. by constructor. }
    apply elem_of_app in Hx as [Hx|Hx]; [|apply list_elem_of_singleton in Hx as ->; lia].
    destruct (ordered_before _ pre' p (r :: post) x Ho) as [_ ?]; [by rewrite <-app_assoc|done|lia].
  - intros x [->|Hx]%elem_of_cons; apply Z.ltb_ge; [lia|]. by apply (ordered_after _ pre r post x Ho).
Qed.

Lemma walk_ordered pre rows w w' :
  ordered (pre ++ rows) → w_prior w = last_hash all_rows pre → w_segment w = ar_segment_id <$> last pre →
  walk_rows (pre ++ rows) rows w = Ok w' →
  ∀ a r b, rows = a ++ r :: b → is_Some (ar_row_hash r) → ar_action r ≠ GENESIS_ACTION →
    ar_prev_hash r = last_hash all_rows (pre ++ a).
Proof.
  revert pre w. induction rows as [|x rows IH]; intros pre w Ho Hp Hs; [by intros _ [|] ??|].
  cbn. intros (w1 & H1 & H2)%result_bind_Ok. apply walk_row_Ok in H1 as [H1 Hs1].
  assert (w_prior (cross (pre ++ x :: rows) (ar_segment_id x) w) = last_hash all_rows pre) as Hc.
  { unfold cross. rewrite Hs. destruct (last pre) as [p|] eqn:El; [|done]. cbn.
    destruct (Z.eqb_spec (ar_segment_id p) (ar_segment_id x)); [done|]. by apply (ordered_seed pre x rows p). }
  assert (w_prior w1 = last_hash all_rows (pre ++ [x])) as Hp1.
  { rewrite last_hash_app. unfold last_hash at 1. cbn. destruct (ar_row_hash x); [by destruct H1 as (_ & -> & _)|by rewrite H1]. }
  assert (pre ++ x :: rows = (pre ++ [x]) ++ rows) as E by by rewrite <-app_assoc. rewrite E in Ho, H2.
  intros a r b Er Hh Ha. destruct a as [|y a]; cbn in Er; injection Er as -> ->.
  - rewrite app_nil_r, <-Hc. destruct Hh as [h Hh]. rewrite Hh in H1. destruct H1 as (_ & _ & H1). by rewrite (H1 Ha).
  - assert (pre ++ y :: a = (pre ++ [y]) ++ a) as -> by by rewrite <-app_assoc.
    apply (IH (pre ++ [y]) w1 Ho Hp1) with (b := b); [by rewrite last_snoc|done|done|done|done].
Qed.

Lemma full_walk_links e st :
  ordered (al_rows st) → passes (run_audit_verify e None st) = true →
  ∀ a r b, al_rows st = a ++ r :: b → is_Some (ar_row_hash r) → ar_action r ≠ GENESIS_ACTION →
    ar_prev_hash r = last_hash all_rows a.
Proof.
  intros Ho. unfold run_audit_verify. cbn [window]. destruct (walk_rows _ _ _) as [w|o] eqn:E; [|by rewrite (walk_rows_Err _ _ _ _ E)].
  intros _. apply (walk_ordered [] (al_rows st) (walk_begin (al_rows st) (al_rows st)) w Ho); [|done|exact E].
  unfold walk_begin, walk_seed. cbn [w_prior]. destruct (al_rows st) as [|x l]; [done|].
  rewrite (last_hash_none (λ r, (ar_id r <? ar_id x) && in_segment (ar_segment_id x) r)).
  - apply last_hash_none. intros y [->|Hy]%elem_of_cons; apply Z.ltb_ge; [lia|]. by apply (ordered_after _ [] x l y Ho).
  - intros y Hy. apply andb_false_iff. left. apply Z.ltb_ge. apply elem_of_cons in Hy as [->|Hy]; [lia|].
    destruct (ordered_after _ [] x l y Ho); [done|done|lia].
Qed.

(** The rows with a hash. *)
Definition chained (rows : list AuditRow) : list AuditRow := List.filter (λ r, bool_decide (is_Some (ar_row_hash r))) rows.

Lemma last_hash_chained rows h :
  last_hash all_rows rows = Some h →
  ∃ a r b, rows = a ++ r :: b ∧ ar_row_hash r = Some h ∧ chained rows = chained a ++ [r].
Proof.
  induction rows as [|x rows IH] using rev_ind; [done|]. rewrite last_hash_app. unfold last_hash at 1. cbn.
  destruct (ar_row_hash x) as [hx|] eqn:Ex; cbn.
  - intros [= <-]. exists rows, x, []. split_and!; [done|done|]. unfold chained. rewrite List.filter_app. cbn. by rewrite Ex.
  - intros (a & r & b & -> & Hr & Hc)%IH. exists a, r, (b ++ [x]). split_and!; [by rewrite <-app_assoc|done|].
    unfold chained in *. rewrite List.filter_app. cbn. rewrite Ex, bool_decide_false by by intros [? ?]. by rewrite app_nil_r, Hc.
Qed.

(** The row with the hash of a first row is one. *)
Lemma genesis_row table x :
  verified table → x ∈ table → ar_row_hash x = Some genesis_hash → ar_action x = GENESIS_ACTION.
Proof.
  intros Hv Hx Hh. destruct (Hv x _ Hx Hh) as [Hre _]. unfold recomputed_hash in Hre. case_bool_decide; [done|].
  symmetry in Hre. by apply genesis_not_chain in Hre.
Qed.

Lemma tip_binds table g l :
  verified table →
  (∀ a r b, table = a ++ r :: b → is_Some (ar_row_hash r) → ar_action r ≠ GENESIS_ACTION → ar_prev_hash r = last_hash all_rows a) →
  first_row g → linked g l →
  ∀ t post, table = t ++ post → last_hash all_rows t = ar_row_hash (List.last l g) →
    ∃ pre g' l', chained t = pre ++ g' :: l' ∧ ar_action g' = GENESIS_ACTION ∧ ar_row_hash g' = Some genesis_hash ∧
      Forall2 same_content l' l.
Proof.
  intros Hv Hlinks Hg. induction l as [|y l IH] using rev_ind; intros Hl t post Et Hh.
  { destruct Hg as (_ & Hgh & _). cbn in Hh. rewrite Hgh in Hh. apply last_hash_chained in Hh as (a & x & b & -> & Hx & Hch).
    exists (chained a), x, []. split_and!; [done| |done|constructor]. apply (genesis_row table); [done| |done].
    rewrite Et. apply elem_of_app. left. apply elem_of_app. right. by constructor. }
  rewrite List.last_last in Hh. apply linked_app in Hl as [Hl [(_ & _ & Ha & Hp & Hc) _]].
  assert (digest (ar_prev_hash y)) as Dy by (rewrite Hp; by eapply log_digests, last_elem).
  rewrite Hc in Hh. apply last_hash_chained in Hh as (a & x & b & -> & Hx & Hch).
  destruct (matching_row table x y Hv) as [Hsame Hg']; [|by rewrite Hx, Hc|done|done|done|].
  { rewrite Et. apply elem_of_app. left. apply elem_of_app. right. by constructor. }
  assert (ar_prev_hash x = last_hash all_rows a) as Hpx.
  { apply (Hlinks a x (b ++ post)); [|by rewrite Hx|done]. rewrite Et. by rewrite <-app_assoc. }
  destruct (IH Hl a (x :: b ++ post)) as (pre & g' & l' & Hpre & Hg1 & Hg2 & Hl').
  - rewrite Et. by rewrite <-app_assoc.
  - rewrite <-Hpx, <-Hp. by destruct Hsame as (_ & _ & _ & _ & _ & _ & -> & _).
  - exists pre, g', (l' ++ [x]). rewrite Hch, Hpre, <-app_assoc. split_and!; [done|done|done|]. apply Forall2_app; [done|]. by constructor.
Qed.

(** *** Rows without a hash *)

(** Those that the verifier counts. *)
Definition legacy_rows (rows : list AuditRow) : list AuditRow :=
  List.filter (λ r, bool_decide (ar_row_hash r = None) && negb (bool_decide (ar_action r = GENESIS_ACTION))) rows.

Lemma walk_legacy table rows w w' :
  walk_rows table rows w = Ok w' →
  w_legacy w' = w_legacy w + Z.of_nat (length (legacy_rows rows)) ∧ Forall (λ r, ar_row_hash r = None → ar_segment_id r = 0) rows.
Proof.
  revert w. induction rows as [|r rows IH]; intros w; cbn [walk_rows]; [intros [= <-]; cbn; split; [lia|done]|].
  intros (w1 & H1 & (IH1 & IH2)%IH)%result_bind_Ok.
  assert (w_legacy (cross table (ar_segment_id r) w) = w_legacy w) as Hc.
  { unfold cross. destruct (w_segment w); [|done]. by destruct (_ =? _). }
  unfold walk_row in H1. unfold legacy_rows. cbn [List.filter]. fold (legacy_rows rows). destruct (ar_row_hash r) as [h|] eqn:Eh.
  - rewrite bool_decide_eq_false_2 by done. cbn [andb]. unfold check_row in H1. destruct (_ && _) in H1; [done|].
    destruct (negb _) in H1; [done|]. injection H1 as <-. cbn in IH1. rewrite Hc in IH1. split; [done|]. constructor; [by rewrite Eh|done].
  - rewrite bool_decide_eq_true_2 by done. cbn [andb]. destruct (Z.eqb_spec (ar_segment_id r) 0) as [Es|]; [|done]. cbn [andb negb] in H1.
    case_bool_decide as Eg; cbn [negb] in *; injection H1 as <-; (split; [|by constructor]); rewrite ?Hc in IH1; cbn in IH1 |- *; lia.
Qed.

Lemma verify_legacy e st :
  match run_audit_verify e None st with
  | VO_Ok _ _ _ => legacy_rows (al_rows st) = []
  | VO_LegacyRowsPresent n _ _ => n = Z.of_nat (length (legacy_rows (al_rows st))) ∧ 0 < n
  | _ => True
  end ∧ (passes (run_audit_verify e None st) = true → Forall (λ r, ar_row_hash r = None → ar_segment_id r = 0) (al_rows st)).
Proof.
  unfold run_audit_verify. cbn [window]. destruct (walk_rows _ _ _) as [w|o] eqn:E.
  - apply walk_legacy in E as [E1 E2]. cbn in E1. split; [|done].
    destruct (if ae_data_dir e then detect_incomplete_repair e st else None) as [o|] eqn:Ed.
    { destruct (ae_data_dir e); [|done]. unfold detect_incomplete_repair in Ed. repeat case_match; simplify_eq; done. }
    destruct (Z.ltb_spec 0 (w_legacy w)); [lia|]. apply nil_length_inv. lia.
  - pose proof (walk_rows_Err _ _ _ _ E) as Hp. rewrite Hp. by destruct o.
Qed.

End Binding.

(** ** Repairs *)

Section Repairs.
Context {H : AuditOps} {X : HexOps} {D : DeviceSignatures}.

Lemma verify_cosigner i devices c :
  verify_repair_intent_signature i devices = Ok c →
  ∃ d, d ∈ devices ∧ verify_device_signature d.2 (intent_bytes i) (cosignature i d.2) = true ∧ c = mkCosigner d.1 d.2.
Proof.
  unfold verify_repair_intent_signature. case_bool_decide; [done|]. destruct (List.find _ devices) as [[id key]|] eqn:E; [|done].
  intros [= <-]. apply find_some in E as [Hin Hv]. exists (id, key). split_and!; [by apply list_elem_of_In|done|done].
Qed.

Lemma repair_Ok e devices i st d st' :
  handle_repair_chain e devices i st = (Ok d, st') →
  al_quarantined st = true ∧ ∃ c, verify_repair_intent_signature i devices = Ok c ∧ truncate_after_row e i c st = (Ok d, st').
Proof.
  unfold handle_repair_chain. destruct (al_quarantined st); [|done]. cbn [negb]. destruct (ae_data_dir e); [|done].
  destruct (verify_repair_intent_signature i devices) as [c|]; [|done]. intros Ht. split; [done|]. by exists c.
Qed.

(** Operations that are no repairs only add rows and leave the journal. *)
Definition plain_op (o : AuditOp) : bool := match o with ARepair _ _ => false | _ => proper_op o end.

Lemma insert_grows e st r : ∃ more, al_rows (insert_audit e st r).2 = al_rows st ++ more.
Proof.
  destruct (insert_audit e st r) as [[]] eqn:E; [apply insert_Ok in E as [_ ->]; by eexists|].
  apply insert_Err in E as ->. exists []. by rewrite app_nil_r.
Qed.

Lemma op_grows e o st : plain_op o = true → ∃ more, al_rows (apply_audit_op e o st) = al_rows st ++ more.
Proof.
  assert (∃ more, al_rows st = al_rows st ++ more) as Hnil by (exists []; by rewrite app_nil_r).
  destruct o as [ac a act c out d| |devices i| |]; cbn; intros Hp; try done.
  - unfold log_event, append_audit_event_with_chain, append_audit_event_with_chain_in_tx.
    destruct ac, (al_quarantined st); try done; apply insert_grows.
  - unfold force_rotate_audit_segment. destruct (al_quarantined st); [done|].
    match goal with |- context [insert_audit e st ?r] => pose proof (insert_grows e st r) as Hg end.
    by destruct (insert_audit _ _ _) as [[]].
  - unfold startup_verify. by destruct (passes _).
Qed.

Lemma run_grows ops st : forallb (λ o, plain_op o.2) ops = true → ∃ more, al_rows (run_audit st ops) = al_rows st ++ more.
Proof.
  revert st. induction ops as [|[e o] ops IH]; intros st; [exists []; by rewrite app_nil_r|]. cbn. intros [Ho Hops]%andb_true_iff.
  destruct (IH (apply_audit_op e o st) Hops) as [m2 H2]. destruct (op_grows e o st Ho) as [m1 H1].
  exists (m1 ++ m2). unfold run_audit in *. cbn in *. by rewrite H2, H1, app_assoc.
Qed.

Lemma plain_proper ops : forallb (λ o : AuditEnv * AuditOp, plain_op o.2) ops = true → forallb (λ o, proper_op o.2) ops = true.
Proof.
  rewrite !forallb_forall. intros Hp [e o] Hin. specialize (Hp _ Hin). cbn in *. by destruct o.
Qed.

(** The row of a repair passes the constraints of the table. *)
Lemma new_segment_admitted rows kept r :
  Forall (λ x, ar_segment_id x <= max_segment rows) kept → ar_segment_id r = max_segment rows + 1 →
  is_Some (ar_row_hash r) → is_Some (ar_prev_hash r) → row_admitted kept r = true.
Proof.
  intros Hk Hs Hh Hp. unfold row_admitted. rewrite (bool_decide_true (is_Some (ar_row_hash r))), (bool_decide_true (is_Some (ar_prev_hash r))) by done.
  cbn [andb]. rewrite orb_true_r. cbn [andb].
  apply negb_true_iff, andb_false_iff. right. apply not_true_iff_false. intros (x & Hx & Hc)%existsb_exists.
  apply andb_true_iff in Hc as [_ Hc]. apply Z.eqb_eq in Hc. rewrite Forall_forall in Hk.
  apply list_elem_of_In, Hk in Hx. lia.
Qed.

(** The environment of a repair in which nothing fails. *)
Definition repair_env_ok (e : AuditEnv) : Prop :=
  ae_write e = None ∧ ae_commit e = None ∧ ae_data_dir e = true ∧ ae_journal_write e = None.

Lemma truncate_total e i c st h :
  audit_wf st → repair_env_ok e → repair_checks e i (al_rows st) = Ok h → ∃ d st', truncate_after_row e i c st = (Ok d, st').
Proof.
  intros [Hok _] (Hw & Hcm & Hd & Hj) Hc. unfold truncate_after_row. rewrite Hc. unfold insert_audit. rewrite Hw.
  rewrite (new_segment_admitted (al_rows st)); [|cbn|done|by eexists|by eexists].
  - rewrite Hd. cbn. rewrite Hj, Hcm. by eexists _, _.
  - destruct (log_last _ Hok) as (pre & p & E & _ & Hm & _ & _). rewrite Hm. rewrite E in Hok.
    destruct (log_split pre p [] Hok) as (_ & Hpre & _). apply Forall_forall. intros x Hx.
    apply list_elem_of_In, filter_In in Hx as [Hx _]. apply list_elem_of_In in Hx. rewrite E in Hx.
    apply elem_of_app in Hx as [Hx|Hx]; [by apply Hpre|]. apply list_elem_of_singleton in Hx as ->. lia.
Qed.

(** *** Receipts without a tombstone *)

Definition orphaned (id : Z) (st : AuditStore) : Prop :=
  Exists (λ f, fr_tombstone_row_id f = id) (al_journal st) ∧
  Forall (λ r, ar_id r = id → ar_action r ≠ TOMBSTONE_ACTION) (al_rows st) ∧ id <= al_seq st.

Lemma insert_orphaned e st r id : orphaned id st → al_seq st < ar_id r → orphaned id (insert_audit e st r).2.
Proof.
  intros (Hj & Hr & Hs) Hn. destruct (insert_audit e st r) as [[]] eqn:E; [apply insert_Ok in E as [_ ->]|by apply insert_Err in E as ->].
  split_and!; [done| |cbn; lia]. cbn. apply Forall_app. split; [done|]. constructor; [lia|done].
Qed.

Lemma op_orphaned e o st id : orphaned id st → orphaned id (apply_audit_op e o st).
Proof.
  intros Ho. pose proof (next_id_above st) as [Hn _]. destruct o as [ac a act c out d| |devices i| |]; cbn; try done.
  - unfold log_event, append_audit_event_with_chain, append_audit_event_with_chain_in_tx.
    destruct ac, (al_quarantined st); try done; by apply insert_orphaned.
  - unfold force_rotate_audit_segment. destruct (al_quarantined st); [done|].
    match goal with |- context [insert_audit e st ?r] => pose proof (insert_orphaned e st r id Ho Hn) as Hg end.
    by destruct (insert_audit _ _ _) as [[]].
  - unfold handle_repair_chain. destruct (negb _); [done|]. destruct (verify_repair_intent_signature _ _) as [c|]; [|done].
    destruct (truncate_after_row e i c st) as [[d|err] st'] eqn:E; cbn [snd]; destruct Ho as (Hj & Hr & Hs).
    + apply truncate_Ok in E as (h & row & _ & Hrows & Hid & _ & _ & _ & _ & _ & Hseq & _ & _ & Hjr & _).
      match type of Hid with _ = next_id ?s => destruct (next_id_above s) as [Hn' _]; cbn [al_seq] in Hn' end.
      split_and!; [rewrite Hjr; apply Exists_app; by left| |rewrite Hseq, Hid; lia].
      rewrite Hrows. apply Forall_app. split; [|constructor; [rewrite Hid; lia|done]].
      apply Forall_forall. intros x Hx. apply list_elem_of_In, filter_In in Hx as [Hx _]. rewrite Forall_forall in Hr.
      by apply Hr, list_elem_of_In.
    + apply truncate_Err in E as (Hrows & Hseq & _ & l & Hjr). split_and!; [rewrite Hjr; apply Exists_app; by left| |by rewrite Hseq].
      by rewrite Hrows.
  - unfold startup_verify. by destruct (passes _).
Qed.

Lemma run_orphaned ops st id : orphaned id st → orphaned id (run_audit st ops).
Proof.
  revert st. induction ops as [|[e o] ops IH]; intros st Ho; [done|]. cbn. by apply IH, op_orphaned.
Qed.

Lemma orphaned_fails e tail st id :
  orphaned id st → ae_data_dir e = true → ae_journal_read e = None → passes (run_audit_verify e tail st) = false.
Proof.
  intros (Hj & Hr & _) Hd Hjr. unfold run_audit_verify.
  destruct (walk_rows _ _ _) as [w|o] eqn:E; [|by rewrite (walk_rows_Err _ _ _ _ E)]. rewrite Hd.
  assert (∃ o, detect_incomplete_repair e st = Some o ∧ passes o = false) as (o & -> & Ho); [|done].
  unfold detect_incomplete_repair. rewrite Hjr. destruct (List.find _ (al_rows st)) as [r|]; [by eexists|].
  destruct (List.find _ (al_journal st)) as [f|] eqn:Ef; [by eexists|]. exfalso.
  apply Exists_exists in Hj as (f & Hf & Hid). apply list_elem_of_In in Hf. pose proof (find_none _ _ Ef f Hf) as Hn. cbn in Hn.
  apply negb_false_iff, existsb_exists in Hn as (r & Hin & Hc). apply andb_true_iff in Hc as [Hc1 Hc2].
  apply Z.eqb_eq in Hc1. apply bool_decide_eq_true in Hc2. rewrite Forall_forall in Hr.
  apply (Hr r); [by apply list_elem_of_In|congruence|done].
Qed.

(** The sequence and the journal only grow. *)
Lemma op_monotone e o st : al_seq st <= al_seq (apply_audit_op e o st) ∧ al_journal st ⊆ al_journal (apply_audit_op e o st).
Proof.
  assert (∀ r, al_seq st < ar_id r → al_seq st <= al_seq (insert_audit e st r).2 ∧ al_journal st ⊆ al_journal (insert_audit e st r).2) as Hins.
  { intros r Hr. destruct (insert_audit e st r) as [[]] eqn:E; [apply insert_Ok in E as [_ ->]; cbn; split; [lia|done]|].
    apply insert_Err in E as ->. cbn. split; [lia|done]. }
  pose proof (next_id_above st) as [Hn _]. assert (al_seq st <= al_seq st ∧ al_journal st ⊆ al_journal st) as Hrefl by (split; [lia|done]).
  destruct o as [ac a act c out d| |devices i| |]; cbn; try done.
  - unfold log_event, append_audit_event_with_chain, append_audit_event_with_chain_in_tx.
    destruct ac, (al_quarantined st); try done; by apply Hins.
  - unfold force_rotate_audit_segment. destruct (al_quarantined st); [done|].
    match goal with |- context [insert_audit e st ?r] => pose proof (Hins r Hn) as Hg end. by destruct (insert_audit _ _ _) as [[]].
  - unfold handle_repair_chain. destruct (negb _); [done|]. destruct (verify_repair_intent_signature _ _) as [c|]; [|done].
    destruct (truncate_after_row e i c st) as [[d|err] st'] eqn:E; cbn [snd].
    + apply truncate_Ok in E as (h & row & _ & _ & Hid & _ & _ & _ & _ & _ & -> & _ & _ & -> & _).
      match type of Hid with _ = next_id ?s => destruct (next_id_above s) as [Hn' _]; cbn [al_seq] in Hn' end.
      split; [rewrite Hid; lia|set_solver].
    + apply truncate_Err in E as (_ & -> & _ & l & ->). split; [lia|set_solver].
  - unfold startup_verify. by destruct (passes _).
Qed.

Lemma run_monotone ops st : al_seq st <= al_seq (run_audit st ops) ∧ al_journal st ⊆ al_journal (run_audit st ops).
Proof.
  revert st. induction ops as [|[e o] ops IH]; intros st; [split; [apply Z.le_refl|done]|].
  change (run_audit st ((e, o) :: ops)) with (run_audit (apply_audit_op e o st) ops).
  destruct (op_monotone e o st) as [H1 H2]. destruct (IH (apply_audit_op e o st)) as [H3 H4]. split; [lia|]. by etrans.
Qed.

End Repairs.

(** The verifier knows three violations of the topology and reports one. *)
Lemma topology_never_reported {H : AuditOps} e tail st kind id n :
  run_audit_verify e tail st = VO_ChainTopologyInvariantViolation kind id n → kind = PostMigrationNullRowHash.
Proof.
  unfold run_audit_verify. destruct (walk_rows _ _ _) as [w|o] eqn:E.
  - destruct (ae_data_dir e); [|by destruct (0 <? _)]. destruct (detect_incomplete_repair e st) as [o|] eqn:Ed; [|by destruct (0 <? _)].
    intros ->. revert Ed. unfold detect_incomplete_repair. destruct (ae_journal_read e); [done|].
    destruct (List.find _ (al_rows st)); [done|]. by destruct (List.find _ (al_journal st)).
  - intros ->. revert E. generalize (window tail (al_rows st)) at 1. generalize (walk_begin (al_rows st) (window tail (al_rows st))).
    intros w rows. revert w. induction rows as [|r rows IH]; intros w; [done|]. cbn.
    destruct (walk_row _ r w) as [w1|o] eqn:E1; [apply IH|]. intros [= ->]. revert E1. unfold walk_row, check_row.
    destruct (ar_row_hash r); [destruct (_ && _); [done|]; by destruct (negb _)|].
    destruct (_ && _); [done|]. destruct (negb _); [|done]. by intros [= <-].
Qed.

Lemma log_ordered {H : AuditOps} rows : log_ok rows → ordered rows.
Proof.
  intros Hok a x b y c E. rewrite E, app_comm_cons, app_assoc in Hok. destruct (log_split _ _ _ Hok) as (_ & Hb & _).
  apply Hb, elem_of_app. right. by constructor.
Qed.

Lemma find_app_here (P : AuditRow → bool) pre r post :
  P r = true → (∀ x, x ∈ pre → P x = false) → List.find P (pre ++ r :: post) = Some r.
Proof.
  intros Hr. induction pre as [|x pre IH]; intros Hpre; cbn; [by rewrite Hr|]. rewrite (Hpre x) by by constructor.
  apply IH. intros y Hy. apply Hpre. by constructor.
Qed.

Lemma last_default (g : AuditRow) l : last (g :: l) = Some (List.last l g).
Proof.
  destruct l as [|z l _] using rev_ind; [done|]. by rewrite List.last_last, app_comm_cons, last_snoc.
Qed.

(** ** A concrete installation *)

Module ToyAudit.

Fixpoint bits (p : positive) : bytes :=
  match p with xH => [] | xO q => "0"%char :: bits q | xI q => "1"%char :: bits q end.
Fixpoint unbits (l : bytes) : positive :=
  match l with [] => xH | c :: l => if bool_decide (c = "0"%char) then xO (unbits l) else xI (unbits l) end.

Lemma bits_back p : unbits (bits p) = p.
Proof. induction p as [p IH|p IH|]; cbn; by rewrite ?IH. Qed.

(** Text with each character marked, and a full stop. *)
Fixpoint enc_text (b : bytes) : bytes := match b with [] => ["."%char] | a :: b => "c"%char :: a :: enc_text b end.
Fixpoint dec_text (l : bytes) : bytes * bytes :=
  match l with
  | c :: r => if bool_decide (c = "c"%char) then match r with a :: r => let (x, y) := dec_text r in (a :: x, y) | [] => ([], []) end
              else ([], r)
  | [] => ([], [])
  end.

Lemma text_back b r : dec_text (enc_text b ++ r) = (b, r).
Proof. induction b as [|a b IH]; [done|]. cbn. by rewrite IH. Qed.

Definition enc_value (v : FieldValue) : bytes :=
  match v with
  | FNull => ["n"%char]
  | FString s => "s"%char :: enc_text (to_bytes s)
  | FNumber z => "z"%char :: enc_text (bits (encode z))
  end.
Definition dec_value (l : bytes) : FieldValue * bytes :=
  match l with
  | c :: r =>
      if bool_decide (c = "s"%char) then let (x, y) := dec_text r in (FString (of_bytes x), y)
      else if bool_decide (c = "z"%char)
      then let (x, y) := dec_text r in (match decode (unbits x) with Some z => FNumber z | None => FNull end, y)
      else (FNull, r)
  | [] => (FNull, [])
  end.

Lemma value_back v r : dec_value (enc_value v ++ r) = (v, r).
Proof. destruct v as [|s|z]; cbn; [done| |]; rewrite text_back; [by rewrite of_to_bytes|by rewrite bits_back, decode_encode]. Qed.

Fixpoint enc_fields (l : list (string * FieldValue)) : bytes :=
  match l with [] => [] | (k, v) :: l => enc_text (to_bytes k) ++ enc_value v ++ enc_fields l end.
Fixpoint dec_fields (fuel : nat) (l : bytes) : list (string * FieldValue) :=
  match fuel, l with
  | S fuel, _ :: _ =>
      let (k, r) := dec_text l in let (v, r) := dec_value r in (of_bytes k, v) :: dec_fields fuel r
  | _, _ => []
  end.

Lemma fields_back l fuel : (length (enc_fields l) <= fuel)%nat → dec_fields fuel (enc_fields l) = l.
Proof.
  revert fuel. induction l as [|[k v] l IH]; intros fuel Hf; [by destruct fuel|].
  assert (∃ a r, enc_text (to_bytes k) = a :: r) as (a & r & Ea) by (destruct (to_bytes k); by eexists _, _).
  cbn [enc_fields] in *. destruct fuel as [|fuel]; [rewrite Ea in Hf; cbn in Hf; lia|]. cbn [dec_fields].
  rewrite text_back, value_back, of_to_bytes, IH; [rewrite Ea; done|]. rewrite !length_app in Hf. rewrite Ea in Hf. cbn in Hf. lia.
Qed.

Definition read (l : bytes) : gmap string FieldValue := list_to_map (dec_fields (length l) (List.tl l)).

#[export] Instance ops : AuditOps := {|
  blake3_hex b := of_bytes ("0"%char :: toy_hex b);
  json_to_vec m := "{"%char :: enc_fields (map_to_list m);
  json_repair_id s := match read (to_bytes s) !! "repair_id" with Some (FString r) => Some r | _ => None end
|}.

Lemma read_back m : read (json_to_vec m) = m.
Proof.
  unfold read. cbn [json_to_vec ops List.tl]. rewrite fields_back by (cbn; lia). apply list_to_map_to_list.
Qed.

#[export] Instance laws : AuditLaws.
Proof.
  split.
  - intros x y E%of_bytes_inj. injection E as E. by rewrite <-(toy_unhex_hex x), E, toy_unhex_hex.
  - intros x. cbn [blake3_hex ops]. rewrite to_of_bytes. constructor; [|apply toy_hex_digits].
    apply (bool_decide_unpack _). vm_compute. exact I.
  - done.
  - intros m m' E. by rewrite <-(read_back m), E, read_back.
  - intros m. by eexists.
  - intros m s Hm. unfold json_repair_id at 1. cbn [ops]. by rewrite to_of_bytes, read_back, Hm.
Qed.

#[export] Instance hex : HexOps := toy_hex_ops.

(** A signature is the signed text. *)
#[export] Instance signatures : DeviceSignatures := {|
  ed25519_verify := λ _ payload sig, bool_decide (sig = "ed25519sig:" +:+ hex_encode payload);
  p256_verify := λ _ _ _, false;
  str_debug := λ s, s
|}.

Definition env (repair receipt : string) : AuditEnv := mkAuditEnv "t" None None true (Some "fp") repair receipt None None.
Definition e1 : AuditEnv := env "p1" "r1".
Definition e2 : AuditEnv := env "p2" "r2".
Definition appending (action : string) : AuditEnv * AuditOp := (e1, AAppend true None action None "ok" None).
Definition devices : list (string * string) := [("d", "pub")].

Definition intent (from : Z) (tip : string) : RepairIntent :=
  mkIntent from Truncate (canonical_repair_intent_bytes from tip "fp") "" tip "fp".
Definition from_genesis : RepairIntent := intent 1 genesis_hash.

Definition fresh : AuditStore := fresh_audit e1.
Definition written : AuditStore := run_audit fresh [appending "a"; (e1, ARotate); appending "b"].
Definition stopped : AuditStore := enter_quarantine written.
Definition repaired : AuditStore := (handle_repair_chain e1 devices from_genesis stopped).2.
Definition later : list (AuditEnv * AuditOp) := [appending "c"].

(** A row with a hash that is not its own. *)
Definition altered : AuditStore :=
  enter_quarantine (mkAuditStore (al_rows fresh ++ [mkAudit 2 "t" None "a" None "ok" None (Some genesis_hash) (Some "f") 0 false]) 2 []
                      false).

Lemma written_wf : audit_wf written.
Proof. apply run_keeps; [done|]. by apply fresh_keeps. Qed.

Lemma pair_snd {A B} (p : A * B) a : p.1 = a → p = (a, p.2).
Proof. by destruct p; intros <-. Qed.

Lemma repaired_Ok : ∃ d, handle_repair_chain e1 devices from_genesis stopped = (Ok d, repaired) ∧ rd_tombstone_row_id d = 5.
Proof.
  eexists. split; [apply pair_snd; vm_compute; reflexivity|]. reflexivity.
Qed.

Lemma again_Ok : ∃ d, handle_repair_chain e2 devices from_genesis (run_audit repaired [(e1, AQuarantine)])
  = (Ok d, (handle_repair_chain e2 devices from_genesis (run_audit repaired [(e1, AQuarantine)])).2).
Proof. eexists. apply pair_snd. vm_compute. reflexivity. Qed.

Lemma altered_Ok : ∃ d st', handle_repair_chain e1 devices (intent 2 "f") altered = (Ok d, st').
Proof. eexists _, _. vm_compute. reflexivity. Qed.

End ToyAudit.

(** ** Properties *)

(** C16. A log that only the daemon has written verifies. From a new installation, after any sequence of appends, forced
    rotations, repairs, checks at start-up and quarantines, with any writes, commits and journal entries failing, the walk
    over the whole table or over its last rows finds every link and every hash right and counts every row of its window: the
    outcome is that count, unless tombstones and repair receipts disagree, and then it is that disagreement. *)
Theorem audit_writers_verify {H : AuditOps} {X : HexOps} {D : DeviceSignatures} e0 ops e tail :
  ae_write e0 = None → forallb (λ o, proper_op o.2) ops = true →
  let st := run_audit (fresh_audit e0) ops in
  match (if ae_data_dir e then detect_incomplete_repair e st else None) with
  | Some o => run_audit_verify e tail st = o
  | None => ∃ segments, run_audit_verify e tail st =
      VO_Ok (Z.of_nat (length (window tail (al_rows st)))) segments (match tail with None => FullWalk | Some n => Tail n end)
  end.
Proof.
  intros He Hops st. destruct (run_keeps ops _ Hops (fresh_keeps e0 He)) as [Hok _]. fold st in Hok.
  assert (∃ k, window tail (al_rows st) = drop k (al_rows st)) as [k Ek].
  { destruct tail; [by eexists|by exists 0%nat]. }
  destruct (log_walks (al_rows st) k Hok) as (w & Hw & Hn & Hl). unfold run_audit_verify. rewrite Ek, Hw, Hl. cbn [Z.ltb Z.compare].
  destruct (if ae_data_dir e then _ else _); [done|]. exists (w_segments w). by rewrite Hn.
Qed.

(** Rows cannot be dropped or altered below a known hash. Take the log a daemon has written and any other table that
    passes the walk over all its rows, however it was made: when one of its rows has the hash of the log's last row, every
    row of the log after the first is in the table, with the same time, agent, action, credential, outcome, details and
    hashes. *)
Theorem audit_rows_retained {H : AuditOps} {L : AuditLaws} {X : HexOps} {D : DeviceSignatures} e0 ops e st tip x r :
  ae_write e0 = None → forallb (λ o, proper_op o.2) ops = true →
  let log := al_rows (run_audit (fresh_audit e0) ops) in
  passes (run_audit_verify e None st) = true → last log = Some tip → x ∈ al_rows st → ar_row_hash x = ar_row_hash tip →
  r ∈ log → ar_action r ≠ GENESIS_ACTION → ∃ r', r' ∈ al_rows st ∧ same_content r' r.
Proof.
  intros He Hops log Hv%passes_verified Ht Hx Hh Hr Ha.
  destruct (run_keeps ops _ Hops (fresh_keeps e0 He)) as [(g & l & E & Hg & Hl) _]. subst log. rewrite E in Ht, Hr.
  rewrite last_default in Ht. injection Ht as <-. apply elem_of_cons in Hr as [->|Hr]; [by destruct Ha, Hg|].
  by apply (log_retained (al_rows st) g l x).
Qed.

(** C17. The last hash fixes what was logged. Take the log a daemon has written and any table, however it was made, in the order of its ids and
    segments, that passes the walk over all its rows, and assume that the hash does not collide. When the last hash of the table is that of the
    log's last row, its rows with hashes end with a first row followed by the rows of the log after the first, in their order, with no hashed
    row between them, and each with the same time, agent, action, credential, outcome, details and hashes. The hash does not cover the
    ids, segments and flags of rows, nor rows without a hash: these are all in segment 0, the verifier reports exactly how many there are apart
    from ones that bear the action of the first row, and finds the table plainly in order only when there are none. *)
Theorem audit_tip_binds {H : AuditOps} {L : AuditLaws} {X : HexOps} {D : DeviceSignatures} e0 ops e st tip :
  ae_write e0 = None → forallb (λ o, proper_op o.2) ops = true →
  let log := al_rows (run_audit (fresh_audit e0) ops) in
  ordered (al_rows st) → passes (run_audit_verify e None st) = true → last log = Some tip →
  last_hash all_rows (al_rows st) = ar_row_hash tip →
  (∃ pre g rows, chained (al_rows st) = pre ++ g :: rows ∧ ar_action g = GENESIS_ACTION ∧ ar_row_hash g = Some genesis_hash ∧
     Forall2 same_content rows (List.tl log)) ∧
  Forall (λ r, ar_row_hash r = None → ar_segment_id r = 0) (al_rows st) ∧
  match run_audit_verify e None st with
  | VO_Ok _ _ _ => legacy_rows (al_rows st) = []
  | VO_LegacyRowsPresent n _ _ => n = Z.of_nat (length (legacy_rows (al_rows st))) ∧ 0 < n
  | _ => False
  end.
Proof.
  intros He Hops log Ho Hp Ht Hh. destruct (run_keeps ops _ Hops (fresh_keeps e0 He)) as [(g & l & E & Hg & Hl) _].
  subst log. rewrite E in Ht |- *. rewrite last_default in Ht. injection Ht as <-. cbn [List.tl].
  destruct (verify_legacy e st) as [Hleg Hseg]. split_and!.
  - apply (tip_binds (al_rows st) g l) with (post := []); [by eapply passes_verified|by eapply full_walk_links|done|done|by rewrite app_nil_r|done].
  - by apply Hseg.
  - by destruct (run_audit_verify e None st).
Qed.

(** Rows are erased only with the consent of an operator's device. A repair succeeds only in quarantine, when the key
    of a presence device enrolled under the operator's root verifies the signature over the row to keep, its hash and the
    daemon's identity; the row is in the table with that hash, the rows after it are replaced by a tombstone that names
    the device, and the quarantine ends. *)
Theorem repair_authorized {H : AuditOps} {X : HexOps} {D : DeviceSignatures} e devices i st d st' :
  handle_repair_chain e devices i st = (Ok d, st') →
  al_quarantined st = true ∧ al_quarantined st' = false ∧ ae_identity e = Some (ri_daemon_identity_root_fingerprint i) ∧
  (∃ f, f ∈ al_rows st ∧ ar_id f = ri_from_row_id i ∧ ar_row_hash f = Some (ri_current_chain_tip_hash i)) ∧
  ∃ id key row, (id, key) ∈ devices ∧ verify_device_signature key (intent_bytes i) (cosignature i key) = true ∧
    al_rows st' = kept_rows (ri_from_row_id i) (al_rows st) ++ [row] ∧ ar_action row = TOMBSTONE_ACTION ∧
    ar_details row = Some (of_bytes (json_to_vec (tombstone_details (ae_repair_id e) (rd_truncated_row_count d) (mkCosigner id key) i))).
Proof.
  intros (Hq & c & Hc & Ht)%repair_Ok. apply verify_cosigner in Hc as ([id key] & Hin & Hv & ->).
  apply truncate_Ok in Ht as (h & row & Hck & Hrows & _ & Ha & _ & _ & _ & Hd & _ & _ & _ & _ & Hq').
  apply repair_checks_Ok in Hck as (_ & Hid & -> & f & Hf & Hfh). apply find_some in Hf as [Hf Hfid].
  split_and!; [done|done|done| |by exists id, key, row]. exists f. apply Z.eqb_eq in Hfid. by apply list_elem_of_In in Hf.
Qed.

(** A signed repair can be used again. The signature covers the row to keep, its hash and the daemon, and nothing that
    is used up. After the repair it was made for, and any further work of the daemon without repairs, a new quarantine is
    all it takes: the same request, with the signature from the first time, succeeds and erases everything written since,
    the tombstone of the first repair included. *)
Theorem repair_replayable {H : AuditOps} {X : HexOps} {D : DeviceSignatures} e1 e2 devices i st d1 st1 ops :
  audit_wf st → handle_repair_chain e1 devices i st = (Ok d1, st1) → forallb (λ o, plain_op o.2) ops = true →
  repair_env_ok e2 → ae_identity e2 = ae_identity e1 →
  ∃ d2 st2 row, handle_repair_chain e2 devices i (enter_quarantine (run_audit st1 ops)) = (Ok d2, st2) ∧
    al_rows st2 = kept_rows (ri_from_row_id i) (al_rows st) ++ [row] ∧ al_quarantined st2 = false.
Proof.
  intros Hwf (Hq & c & Hc & Ht)%repair_Ok Hops He2 Hid. pose proof Hwf as [Hok _].
  assert (audit_wf (run_audit st1 ops)) as Hwf2.
  { apply run_keeps; [by apply plain_proper|]. pose proof (truncate_keeps e1 i c st Hwf) as Hk. by rewrite Ht in Hk. }
  apply truncate_Ok in Ht as (h & row & Hck & Hrows & _ & _). pose proof Hck as (Hkind & Hfp & -> & f & Hf & Hfh)%repair_checks_Ok.
  destruct (kept_prefix _ _ _ Hok Hf) as (pre & post & Er & Hfid & Hk).
  destruct (run_grows ops st1 Hops) as [more Hm]. rewrite Hrows, Hk, <-!app_assoc in Hm. cbn [app] in Hm.
  destruct Hwf2 as [Hok2 Hs2]. rewrite Hm in Hok2. pose proof (kept_split _ _ _ Hok2) as Hk2. rewrite Hfid in Hk2.
  assert (repair_checks e2 i (al_rows (run_audit st1 ops)) = Ok (ri_current_chain_tip_hash i)) as Hck2.
  { destruct (log_split _ _ _ Hok2) as (_ & Hpre & _). unfold repair_checks. rewrite Hkind, Hid, Hfp. cbn [ok_or result_bind].
    rewrite bool_decide_true by done. cbn [negb]. rewrite Hm, find_app_here.
    - cbn. rewrite Hfh. cbn. by rewrite bool_decide_true.
    - apply Z.eqb_eq, Hfid.
    - intros x Hx. apply Z.eqb_neq. destruct (Hpre x Hx). lia. }
  set (st2 := enter_quarantine (run_audit st1 ops)). assert (audit_wf st2) as Hwf2 by (split; [cbn; by rewrite Hm|done]).
  destruct (truncate_total e2 i c st2 _ Hwf2 He2 Hck2) as (d2 & st3 & Ht2). exists d2, st3.
  pose proof Ht2 as (h & row2 & _ & Hr2 & _ & _ & _ & _ & _ & _ & _ & _ & _ & _ & Hq2)%truncate_Ok. exists row2.
  unfold handle_repair_chain. destruct He2 as (_ & _ & -> & _). cbn [negb al_quarantined enter_quarantine]. rewrite Hc.
  split_and!; [done| |done]. rewrite Hr2, Hk. f_equal. cbn [st2 enter_quarantine al_rows]. by rewrite Hm.
Qed.

(** A second repair further back leaves the log failing for ever. The receipt of the first repair names a tombstone
    that the second erases; ids are not given twice, so no later row can be that tombstone, and with the journal readable
    no walk passes again, whatever the daemon does: each start ends in quarantine. *)
Theorem second_repair_never_verifies {H : AuditOps} {X : HexOps} {D : DeviceSignatures}
  ea eb da db i1 i2 st d1 st1 ops d2 st2 ops' e tail :
  handle_repair_chain ea da i1 st = (Ok d1, st1) → handle_repair_chain eb db i2 (run_audit st1 ops) = (Ok d2, st2) →
  ri_from_row_id i2 < rd_tombstone_row_id d1 → ae_data_dir e = true → ae_journal_read e = None →
  let final := run_audit st2 ops' in
  passes (run_audit_verify e tail final) = false ∧ al_quarantined (startup_verify e final) = true.
Proof.
  intros (_ & c1 & _ & H1)%repair_Ok (_ & c2 & _ & H2)%repair_Ok Hlt Hd Hj final.
  apply truncate_Ok in H1 as (h1 & row1 & _ & _ & _ & _ & _ & _ & _ & _ & Hs1 & Ht1 & _ & Hj1 & _).
  apply truncate_Ok in H2 as (h2 & row2 & _ & Hr2 & Hi2 & _ & _ & _ & _ & _ & Hs2 & _ & _ & Hj2 & _).
  destruct (run_monotone ops st1) as [Hseq Hjs]. match type of Hi2 with _ = next_id ?s => destruct (next_id_above s) as [Hn _] end.
  cbn [al_seq] in Hn. assert (orphaned (ar_id row1) st2) as Ho.
  { split_and!; [|rewrite Hr2; apply Forall_app; split|lia].
    - apply Exists_exists. exists (mkFinalize (ae_receipt_id ea) (ae_repair_id ea) (ar_id row1)). split; [|done].
      rewrite Hj2. apply elem_of_app. left. apply Hjs. rewrite Hj1. apply elem_of_app. right. by constructor.
    - apply Forall_forall. intros x [_ Hx]%list_elem_of_In%filter_In. apply Z.leb_le in Hx. lia.
    - constructor; [lia|done]. }
  assert (∀ t, passes (run_audit_verify e t final) = false) as Hf by (intros t; by eapply orphaned_fails, Hj; [apply run_orphaned|]).
  split; [done|]. unfold startup_verify. change (run_audit_verify e ?t (new_process final)) with (run_audit_verify e t final). by rewrite Hf.
Qed.

(** A repair does not check what it keeps. When a row at or below the one the operator names has a wrong hash, the
    repair is accepted and ends the quarantine, and the walk over the repaired table still fails. *)
Theorem repair_accepts_broken_prefix {H : AuditOps} {X : HexOps} {D : DeviceSignatures} e devices i st d st' r h :
  handle_repair_chain e devices i st = (Ok d, st') → r ∈ al_rows st → ar_id r <= ri_from_row_id i →
  ar_row_hash r = Some h → recomputed_hash r ≠ h →
  al_quarantined st' = false ∧ ∀ e', passes (run_audit_verify e' None st') = false.
Proof.
  intros (_ & c & _ & Ht)%repair_Ok Hr Hle Hh Hne.
  apply truncate_Ok in Ht as (_ & row & _ & Hrows & _ & _ & _ & _ & _ & _ & _ & _ & _ & _ & Hq). split; [done|]. intros e'.
  apply not_true_iff_false. intros Hv%passes_verified. destruct (Hv r h); [|done|done]. rewrite Hrows. apply elem_of_app. left.
  apply list_elem_of_In, filter_In. split; [by apply list_elem_of_In|by apply Z.leb_le].
Qed.

(** ** The properties at the concrete installation *)

#[local] Existing Instances ToyAudit.ops ToyAudit.laws ToyAudit.hex ToyAudit.signatures.

Lemma audit_writers_verify_witness :
  ∃ segments, run_audit_verify ToyAudit.e1 (Some 2%nat) ToyAudit.written = VO_Ok 2 segments (Tail 2).
Proof.
  pose proof (audit_writers_verify ToyAudit.e1 [ToyAudit.appending "a"; (ToyAudit.e1, ARotate); ToyAudit.appending "b"] ToyAudit.e1
                (Some 2%nat) eq_refl eq_refl) as Hv. cbn zeta in Hv. fold ToyAudit.fresh in Hv. fold ToyAudit.written in Hv.
  assert (detect_incomplete_repair ToyAudit.e1 ToyAudit.written = None) as Hn by (vm_compute; reflexivity).
  assert (length (window (Some 2%nat) (al_rows ToyAudit.written)) = 2%nat) as Hlen by (vm_compute; reflexivity).
  rewrite Hlen in Hv. cbn [ae_data_dir ToyAudit.e1 ToyAudit.env] in Hv. by rewrite Hn in Hv.
Defined.

Lemma audit_rows_retained_witness :
  ∃ r', r' ∈ al_rows ToyAudit.written ∧ ar_action r' = "a".
Proof.
  assert (∃ x r, last (al_rows ToyAudit.written) = Some x ∧ al_rows ToyAudit.written !! 1%nat = Some r ∧ ar_action r = "a")
    as (x & r & Hx & Hr & Ha) by (eexists _, _; split_and!; vm_compute; reflexivity).
  apply list_elem_of_lookup_2 in Hr. pose proof (last_Some_elem_of _ _ Hx) as Hin.
  destruct (audit_rows_retained ToyAudit.e1 [ToyAudit.appending "a"; (ToyAudit.e1, ARotate); ToyAudit.appending "b"] ToyAudit.e1
              ToyAudit.written x x r) as (r' & Hr' & Hsame); [done|done|vm_compute; reflexivity|exact Hx|exact Hin|done|exact Hr|by rewrite Ha|].
  exists r'. split; [exact Hr'|]. destruct Hsame as (_ & _ & -> & _). exact Ha.
Defined.

Lemma audit_tip_binds_witness :
  ∃ pre g rows, chained (al_rows ToyAudit.written) = pre ++ g :: rows ∧ ar_action g = GENESIS_ACTION ∧ length rows = 3%nat.
Proof.
  assert (∃ x, last (al_rows ToyAudit.written) = Some x ∧ last_hash all_rows (al_rows ToyAudit.written) = ar_row_hash x ∧
    length (List.tl (al_rows ToyAudit.written)) = 3%nat) as (x & Hx & Hh & Hlen) by (eexists; split_and!; vm_compute; reflexivity).
  destruct (audit_tip_binds ToyAudit.e1 [ToyAudit.appending "a"; (ToyAudit.e1, ARotate); ToyAudit.appending "b"] ToyAudit.e1
              ToyAudit.written x) as [(pre & g & rows & Hc & Hg & _ & Hf) _];
    [done|done|apply log_ordered, ToyAudit.written_wf|vm_compute; reflexivity|exact Hx|exact Hh|].
  exists pre, g, rows. split; [exact Hc|]. split; [exact Hg|]. rewrite <-Hlen. exact (Forall2_length _ _ _ Hf).
Defined.

Lemma repair_authorized_witness :
  ∃ d st', handle_repair_chain ToyAudit.e1 ToyAudit.devices ToyAudit.from_genesis ToyAudit.stopped = (Ok d, st') ∧
    al_quarantined st' = false.
Proof.
  destruct ToyAudit.repaired_Ok as (d & Hr & _). exists d, ToyAudit.repaired. split; [exact Hr|].
  by destruct (repair_authorized _ _ _ _ _ _ Hr) as (_ & Hq & _).
Defined.

Lemma repair_replayable_witness :
  ∃ d st row, handle_repair_chain ToyAudit.e2 ToyAudit.devices ToyAudit.from_genesis
      (enter_quarantine (run_audit ToyAudit.repaired ToyAudit.later)) = (Ok d, st) ∧ al_rows st = al_rows ToyAudit.fresh ++ [row].
Proof.
  destruct ToyAudit.repaired_Ok as (d & Hr & _).
  assert (audit_wf ToyAudit.stopped) as Hwf by exact ToyAudit.written_wf.
  destruct (repair_replayable ToyAudit.e1 ToyAudit.e2 ToyAudit.devices ToyAudit.from_genesis ToyAudit.stopped d ToyAudit.repaired
              ToyAudit.later Hwf Hr eq_refl) as (d2 & st2 & row & H2 & Hrows & _); [by split_and!|done|].
  exists d2, st2, row. split; [exact H2|]. by rewrite Hrows.
Defined.

Lemma second_repair_never_verifies_witness :
  passes (run_audit_verify ToyAudit.e1 None
    (handle_repair_chain ToyAudit.e2 ToyAudit.devices ToyAudit.from_genesis
       (run_audit ToyAudit.repaired [(ToyAudit.e1, AQuarantine)])).2) = false.
Proof.
  destruct ToyAudit.repaired_Ok as (d1 & Hr1 & Hid). destruct ToyAudit.again_Ok as (d2 & Hr2). rewrite Hr2. cbn [snd].
  apply (second_repair_never_verifies ToyAudit.e1 ToyAudit.e2 ToyAudit.devices ToyAudit.devices ToyAudit.from_genesis
           ToyAudit.from_genesis _ d1 ToyAudit.repaired [(ToyAudit.e1, AQuarantine)] d2 _ [] ToyAudit.e1 None Hr1 Hr2);
    [rewrite Hid; cbn; lia|done|done].
Defined.

Lemma repair_accepts_broken_prefix_witness :
  ∃ d st', handle_repair_chain ToyAudit.e1 ToyAudit.devices (ToyAudit.intent 2 "f") ToyAudit.altered = (Ok d, st') ∧
    al_quarantined st' = false ∧ passes (run_audit_verify ToyAudit.e1 None st') = false.
Proof.
  destruct ToyAudit.altered_Ok as (d & st' & Hr). exists d, st'. split; [exact Hr|].
  assert (∃ r, al_rows ToyAudit.altered !! 1%nat = Some r ∧ ar_id r = 2 ∧ ar_row_hash r = Some "f" ∧ recomputed_hash r ≠ "f")
    as (r & Hin & Hid & Hh & Hne) by (eexists; split_and!; [reflexivity..|by vm_compute]).
  destruct (repair_accepts_broken_prefix _ _ _ _ _ _ r "f" Hr) as [Hq Hf];
    [by eapply list_elem_of_lookup_2|by rewrite Hid|done|done|]. split; [exact Hq|apply Hf].
Defined.
