(* ===== verification/Presence.v ===== *)
(** * Operator presence

    The proofs that a human is there. crates/ember-daemon/src/auth/presence_gate.rs and infra/store.rs: operations that widen
    authority need a signature of an enrolled device over the operation and a nonce the daemon drew, used once;
    auth/presence_token.rs: tokens the daemon signs; trust/presence.rs, infra/unlock_pin.rs and infra/interactive_unlock.rs: the
    session that one tap opens, and what closes it. Instants and durations are nanoseconds. RFC 8785 is an interface. *)

From stdpp Require Import base gmap list strings.
From Stdlib Require Import Ascii Lia ZArith.
From S2P Require Import Prelude CoreTypes Materialize Metering VerifyChain ProxyDaemon AuditLog.

Local Infix "+:+" := String.append (at level 60, right associativity).
Local Open Scope Z_scope.

(** ** Interfaces *)

(** [canonicalize_jcs] is RFC 8785 of core-crypto over serde_json. *)
Class JcsOps := { canonicalize_jcs : Json → result bytes string }.

(** Objects of text have a canonical form, and the form determines the texts of an object. *)
Class JcsLaws {J : JcsOps} := {
  jcs_texts m : Forall (λ kv : string * Json, ∃ s, kv.2 = JString s) m → ∃ b, canonicalize_jcs (JObject m) = Ok b;
  jcs_determines v v' b k : canonicalize_jcs v = Ok b → canonicalize_jcs v' = Ok b → get_str k v = get_str k v'
}.

(** ** Signed operations *)

Definition DOMAIN_PRESENCE_INTENT : string := "emberlink.v1.presence_authority_intent".

Inductive AuthorityLane := Lane_Presence | Lane_CoAuthority | Lane_Routine.

Inductive PresencePolicy := LaneDefault | PerAccessFresh.

Definition requires_fresh_presence (p : PresencePolicy) : bool := match p with PerAccessFresh => true | LaneDefault => false end.
Definition from_requires_biometric (requires_biometric : bool) : PresencePolicy :=
  if requires_biometric then PerAccessFresh else LaneDefault.
Definition as_db_str (p : PresencePolicy) : string :=
  match p with LaneDefault => "lane_default" | PerAccessFresh => "per_access_fresh" end.
Definition from_db_str (raw : string) : PresencePolicy :=
  if bool_decide (raw = "per_access_fresh") then PerAccessFresh else LaneDefault.

Definition widening_methods : list string :=
  ["create_persona"; "build_init_first_grant_receipt"; "create_grant"; "create_composite_grant"; "delegate_grant"; "extend_grant";
   "grant.extend"; "propose_grant"; "create_standing_grant"; "save_delegation_template"; "resolve_approval"; "approval.resolve";
   "approval_resolve"; "approval.narrow"; "approval_narrow"; "register_session"; "vault_add"; "vault_put"; "vault_migrate_acl";
   "vault_rotate_execute"; "vault_export_sealed"; "vault_import_sealed"; "local_state_key_rotate_and_reencrypt";
   "binary_pin_generate"; "sops_unwrap_dek"; "sops.unwrap"; "headless_enroll"; "audit_repair_chain"; "presence/request_proof";
   "presence_request_proof"].

Definition is_presence_widening (method : string) : bool := bool_decide (method ∈ widening_methods).
Definition required_lane (method : string) : AuthorityLane :=
  if is_presence_widening method then Lane_Presence else Lane_Routine.

(** What a widening call carries, and what the daemon adds to it. *)
Record WirePresenceProof := mkWireProof { wp_op_id : string; wp_nonce : string; wp_signature : string }.

Record PresenceProof := mkPresenceProof {
  pp_op_id : string; pp_nonce : string; pp_daemon_fingerprint : string; pp_params_digest : string;
  pp_device_public_key : string; pp_signature : string }.

Inductive AuthorityOutcome := AO_Routine | AO_PresenceVerified | AO_PresenceRequired (msg : string).

Definition normalized_signature (p : WirePresenceProof) : string :=
  if str_starts_with (wp_signature p) "p256sig:" then wp_signature p else "p256sig:" +:+ wp_signature p.

Section Intents.
Context {J : JcsOps} {H : AuditOps} {D : DeviceSignatures}.

Definition intent_object (method op_id nonce daemon_fingerprint params_digest : string) : Json :=
  JObject [("ctx", JString DOMAIN_PRESENCE_INTENT); ("method", JString method); ("op_id", JString op_id); ("nonce", JString nonce);
           ("daemon_fingerprint", JString daemon_fingerprint); ("params_digest", JString params_digest)].

Definition canonical_presence_intent_bytes (method op_id nonce daemon_fingerprint params_digest : string) : bytes :=
  match canonicalize_jcs (intent_object method op_id nonce daemon_fingerprint params_digest) with Ok b => b | Err _ => [] end.

(** The fields that are attached after signing. *)
Definition envelope_fields : list string := ["_presence_proof"; "scope_kek"; "_presence_token"].
Definition strip_envelope (params : Json) : Json :=
  match params with
  | JObject m => JObject (List.filter (λ kv, negb (bool_decide (kv.1 ∈ envelope_fields))) m)
  | v => v
  end.

Definition presence_params_digest (params : Json) : result string string :=
  let? canon := canonicalize_jcs (strip_envelope params) in Ok ("b3:" +:+ blake3_hex canon).

Definition verify_presence_signature (method op_id nonce daemon_fingerprint params_digest device_public_key signature : string)
  : bool :=
  verify_device_signature device_public_key
    (canonical_presence_intent_bytes method op_id nonce daemon_fingerprint params_digest) signature.

Definition require_authority (method : string) (source_is_internal : bool) (proof : option PresenceProof) : AuthorityOutcome :=
  match required_lane method with
  | Lane_Routine => AO_Routine
  | Lane_Presence | Lane_CoAuthority =>
      match proof with
      | None => AO_PresenceRequired ("widening op '" +:+ method +:+ "' requires a presence-Device signature")
      | Some p =>
          if verify_presence_signature method (pp_op_id p) (pp_nonce p) (pp_daemon_fingerprint p) (pp_params_digest p)
               (pp_device_public_key p) (pp_signature p)
          then AO_PresenceVerified
          else AO_PresenceRequired ("presence signature for '" +:+ method +:+ "' did not verify against the enrolled device")
      end
  end.

Definition wire_proof_verifies_against_any (method daemon_fingerprint params_digest : string) (enrolled_keys : list string)
  (proof : WirePresenceProof) : bool :=
  existsb (λ key, verify_presence_signature method (wp_op_id proof) (wp_nonce proof) daemon_fingerprint params_digest key
                    (normalized_signature proof)) enrolled_keys.

Definition wire_proof_matching_device (method daemon_fingerprint params_digest : string)
  (enrolled_devices : list (string * string)) (proof : WirePresenceProof) : option (string * string) :=
  List.find (λ d, verify_presence_signature method (wp_op_id proof) (wp_nonce proof) daemon_fingerprint params_digest d.2
                    (normalized_signature proof)) enrolled_devices.

End Intents.

(** ** Nonces *)

(** A row of presence_challenges, which is keyed by the nonce. *)
Record Challenge := mkChallenge {
  pc_op_id : string; pc_daemon_fingerprint : string; pc_method : string; pc_params_digest : string; pc_peer_uid : option Z;
  pc_created_at : Z; pc_expires_at : Z }.

Definition Challenges := gmap string Challenge.

(** Failing statements: the DELETE and the INSERT. *)
Record NonceFaults := mkNonceFaults { nf_delete : option string; nf_insert : option string }.

Definition mint_presence_nonce (f : NonceFaults) (now : Z) (nonce op_id daemon_fingerprint method params_digest : string)
  (peer_uid : option Z) (ttl_seconds : Z) (tbl : Challenges) : result (string * Z) StoreError * Challenges :=
  let expires_at := now + ttl_seconds in
  match nf_delete f with
  | Some m => (Err (SE_Sqlite m), tbl)
  | None =>
      let tbl := filter (λ kv, negb (pc_expires_at kv.2 <? now) = true) tbl in
      match nf_insert f, tbl !! nonce with
      | Some m, _ => (Err (SE_Sqlite m), tbl)
      | None, Some _ => (Err (SE_Sqlite "constraint failed"), tbl)
      | None, None => (Ok (nonce, expires_at),
                       <[nonce := mkChallenge op_id daemon_fingerprint method params_digest peer_uid now expires_at]> tbl)
      end
  end.

Definition consume_presence_nonce (f : NonceFaults) (now : Z) (nonce op_id daemon_fingerprint method params_digest : string)
  (tbl : Challenges) : result unit StoreError * Challenges :=
  match nf_delete f with
  | Some m => (Err (SE_Sqlite m), tbl)
  | None =>
      (match tbl !! nonce with
       | None => Err SE_Unauthorized
       | Some c =>
           if pc_expires_at c <? now then Err SE_Unauthorized
           else if negb (bool_decide (pc_op_id c = op_id)) || negb (bool_decide (pc_daemon_fingerprint c = daemon_fingerprint))
                   || negb (bool_decide (pc_method c = method)) || negb (bool_decide (pc_params_digest c = params_digest))
           then Err SE_Unauthorized
           else Ok tt
       end, delete nonce tbl)
  end.

(** ** Pins *)

(** The tracker of open sessions: pins with the time they were taken, and when the last one was released. *)
Record UnlockPinTracker := mkTracker { ut_pins : gmap string Z; ut_last_released_at : option Z; ut_grace_window : Z }.

Record UnlockPinSnapshot := mkPinSnapshot {
  ps_session_pin_count : Z; ps_grace_window_secs : Z; ps_grace_remaining_secs : Z; ps_grace_lock_pending : bool;
  ps_grace_zero_due : bool }.

Definition nanos : Z := 1000000000.
Definition as_secs (d : Z) : Z := d / nanos.
Definition DEFAULT_GRACE_WINDOW : Z := 300 * nanos.

(** [Instant::saturating_duration_since] *)
Definition since (now earlier : Z) : Z := Z.max 0 (now - earlier).

Definition with_grace_window (grace_window : Z) : UnlockPinTracker := mkTracker ∅ None grace_window.

Definition acquire_pin_at (session_id : string) (acquired_at : Z) (t : UnlockPinTracker) : bool * UnlockPinTracker :=
  (bool_decide (ut_pins t !! session_id = None),
   mkTracker (<[session_id := acquired_at]> (ut_pins t)) None (ut_grace_window t)).

Definition release_pin_at (session_id : string) (released_at : Z) (t : UnlockPinTracker) : bool * UnlockPinTracker :=
  let removed := bool_decide (is_Some (ut_pins t !! session_id)) in
  let pins := delete session_id (ut_pins t) in
  (removed, mkTracker pins (if removed && bool_decide (pins = ∅) then Some released_at else ut_last_released_at t)
              (ut_grace_window t)).

Definition should_zero_at (now : Z) (t : UnlockPinTracker) : bool :=
  if negb (bool_decide (ut_pins t = ∅)) then false
  else match ut_last_released_at t with Some released_at => ut_grace_window t <=? since now released_at | None => false end.

Definition pin_snapshot_at (now : Z) (t : UnlockPinTracker) : UnlockPinSnapshot :=
  let session_pin_count := Z.of_nat (size (ut_pins t)) in
  let released := bool_decide (is_Some (ut_last_released_at t)) in
  let grace_remaining_secs :=
    if session_pin_count =? 0
    then match ut_last_released_at t with
         | Some released_at => as_secs (Z.max 0 (ut_grace_window t - since now released_at))
         | None => 0
         end
    else 0 in
  let grace_zero_due := (session_pin_count =? 0) && released && (grace_remaining_secs =? 0) in
  mkPinSnapshot session_pin_count (as_secs (ut_grace_window t)) grace_remaining_secs
    ((session_pin_count =? 0) && released && negb grace_zero_due) grace_zero_due.

(** ** The session *)

Inductive HighRiskOp :=
| VaultAdd | VaultRemove | GrantCreate | PersonaKeyExport | BinaryPinGenerate | ApprovalSubmit | ApprovalResolve.

Definition HighRiskOp_as_str (op : HighRiskOp) : string :=
  match op with
  | VaultAdd => "vault_add" | VaultRemove => "vault_remove" | GrantCreate => "grant_create"
  | PersonaKeyExport => "persona_key_export" | BinaryPinGenerate => "binary_pin_generate"
  | ApprovalSubmit => "approval_submit" | ApprovalResolve => "approval_resolve"
  end.
Definition is_emergency_eligible (op : HighRiskOp) : bool := match op with VaultRemove => true | _ => false end.

Inductive SessionState := Locked | Unlocked (unlocked_at last_activity : Z).

Record PresenceConfig := mkPresenceConfig {
  idle_timeout : Z; quiet_hours_start : option Z; quiet_hours_end : option Z }.

Definition DEFAULT_IDLE_TIMEOUT : Z := 15 * 60 * nanos.
Definition PresenceConfig_default : PresenceConfig := mkPresenceConfig DEFAULT_IDLE_TIMEOUT None None.

(** The session with its pins; [pm_live] is the key in the live vault slot. *)
Record Presence := mkPresence {
  pm_state : SessionState; pm_config : PresenceConfig; pm_pins : UnlockPinTracker; pm_live : option bytes }.

Definition set_state (s : SessionState) (m : Presence) : Presence := mkPresence s (pm_config m) (pm_pins m) (pm_live m).
Definition set_pins (t : UnlockPinTracker) (m : Presence) : Presence := mkPresence (pm_state m) (pm_config m) t (pm_live m).
Definition set_live (k : option bytes) (m : Presence) : Presence := mkPresence (pm_state m) (pm_config m) (pm_pins m) k.

Definition mark_unlocked (now : Z) (m : Presence) : Presence := set_state (Unlocked now now) m.

(** Clearing the slot and the pins, of interactive_unlock. *)
Definition explicit_lock (m : Presence) : Presence :=
  set_pins (with_grace_window (ut_grace_window (pm_pins m))) (set_live None m).

Definition presence_lock (m : Presence) : Presence := explicit_lock (set_state Locked m).
Definition invalidate_for_os_presence_event (m : Presence) : Presence := explicit_lock (set_state Locked m).
Definition startup_lock (m : Presence) : Presence := explicit_lock (set_state Locked m).

Definition grace_lock_if_due_at (now : Z) (m : Presence) : bool * Presence :=
  if negb (should_zero_at now (pm_pins m)) then (false, m) else (true, explicit_lock (set_state Locked m)).

Definition record_activity (now : Z) (m : Presence) : Presence :=
  match pm_state m with Unlocked at_ _ => set_state (Unlocked at_ now) m | Locked => m end.

Definition presence_snapshot (now : Z) (m : Presence) : bool * option Z :=
  match pm_state m with
  | Locked => (false, None)
  | Unlocked _ last_activity => (true, Some (as_secs (since now last_activity)))
  end.

Definition NON_SESSION_UNLOCK_PIN_ID : string := "__non_session_unlock__".

Definition arm_non_session_grace_window_at (now : Z) (m : Presence) : Presence :=
  set_pins (release_pin_at NON_SESSION_UNLOCK_PIN_ID now (acquire_pin_at NON_SESSION_UNLOCK_PIN_ID now (pm_pins m)).2).2 m.

Definition in_quiet_hours (hour start end_ : Z) : bool :=
  if start =? end_ then false
  else if start <? end_ then (start <=? hour) && (hour <? end_)
  else (start <=? hour) || (hour <? end_).

Definition current_utc_hour (secs : Z) : Z := (secs / 3600) mod 24.

Inductive GateOutcome := Allowed | GateLocked (reason : string).

(** A printed count. *)
Definition show (z : Z) : string := u64_to_string z.

Definition require_user_presence_at (dev_mode : bool) (op : HighRiskOp) (override_quiet_hours : bool) (now utc_hour : Z)
  (m : Presence) : GateOutcome * Presence :=
  let name := HighRiskOp_as_str op in
  if dev_mode then (Allowed, m)
  else
    let quiet :=
      match quiet_hours_start (pm_config m), quiet_hours_end (pm_config m) with
      | Some start, Some end_ =>
          if in_quiet_hours utc_hour start end_ && negb (override_quiet_hours && is_emergency_eligible op)
          then Some (name +:+ " denied: quiet hours (" +:+ show start +:+ ":00-" +:+ show end_
                     +:+ ":00 UTC); pass override_quiet_hours for emergency ops only")
          else None
      | _, _ => None
      end in
    match quiet with
    | Some reason => (GateLocked reason, m)
    | None =>
        match pm_state m with
        | Locked => (GateLocked (name +:+ " denied: session is locked"), m)
        | Unlocked unlocked_at last_activity =>
            let idle := since now last_activity in
            if idle_timeout (pm_config m) <=? idle
            then (GateLocked (name +:+ " denied: session auto-locked after " +:+ show (as_secs idle) +:+ "s idle (limit "
                              +:+ show (as_secs (idle_timeout (pm_config m))) +:+ "s); run `ember vault unlock` to re-prompt for Touch ID"),
                  set_state Locked m)
            else (Allowed, set_state (Unlocked unlocked_at now) m)
        end
    end.

(** ** Tokens *)

(** The daemon's identity key. *)
Class DaemonSigner := { signer_sign : bytes → bytes; signer_verify : bytes → bytes → bool }.

(** [expiry] is a [SystemTime] in nanoseconds from the Unix epoch. *)
Record PresenceToken := mkToken { pt_uid : Z; pt_scope : string; pt_expiry : Z; pt_signature : bytes }.

Inductive AuthError := Expired | UidMismatch | SignatureInvalid | ScopeMismatch.

Fixpoint le_bytes (n : nat) (z : Z) : bytes :=
  match n with O => [] | S n => ascii_of_N (Z.to_N (z mod 256)) :: le_bytes n (z / 256) end.

(** A time before the epoch counts as the epoch. *)
Definition mint_message (uid : Z) (scope : string) (expiry : Z) : bytes :=
  let duration := Z.max 0 expiry in
  le_bytes 4 uid ++ le_bytes 4 (str_len scope) ++ to_bytes scope ++ le_bytes 8 (as_secs duration) ++ le_bytes 4 (duration mod nanos).

Section Tokens.
Context {S : DaemonSigner}.

Definition token_mint (uid : Z) (scope : string) (ttl now : Z) : PresenceToken :=
  let expiry := now + ttl in mkToken uid scope expiry (signer_sign (mint_message uid scope expiry)).

Definition token_validate (now : Z) (token : PresenceToken) (request_uid : Z) : result unit AuthError :=
  if pt_expiry token <=? now then Err Expired
  else if negb (pt_uid token =? request_uid) then Err UidMismatch
  else if negb (signer_verify (mint_message (pt_uid token) (pt_scope token) (pt_expiry token)) (pt_signature token))
  then Err SignatureInvalid
  else Ok tt.

End Tokens.

Definition PresenceTokenCache := gmap (Z * string) PresenceToken.

Definition prune_expired (now : Z) (c : PresenceTokenCache) : PresenceTokenCache :=
  filter (λ kv, (now <? pt_expiry kv.2) = true) c.
Definition token_insert (token : PresenceToken) (c : PresenceTokenCache) : PresenceTokenCache :=
  <[(pt_uid token, pt_scope token) := token]> c.
Definition token_get (now uid : Z) (scope : string) (c : PresenceTokenCache) : option PresenceToken * PresenceTokenCache :=
  let c := prune_expired now c in (c !! (uid, scope), c).

(** ** Lemmas *)

Lemma le_bytes_length n z : length (le_bytes n z) = n.
Proof. revert z. induction n as [|n IH]; intros z; cbn; [done|]. by rewrite IH. Qed.

Lemma ascii_byte_inj a b : 0 <= a < 256 → 0 <= b < 256 → ascii_of_N (Z.to_N a) = ascii_of_N (Z.to_N b) → a = b.
Proof.
  intros Ha Hb E%(f_equal N_of_ascii). rewrite !N_ascii_embedding in E by lia. lia.
Qed.

Lemma le_bytes_inj n a b : 0 <= a < 256 ^ Z.of_nat n → 0 <= b < 256 ^ Z.of_nat n → le_bytes n a = le_bytes n b → a = b.
Proof.
  revert a b. induction n as [|n IH]; intros a b Ha Hb; [cbn in *; lia|]. cbn [le_bytes]. intros [= E1 E2].
  apply ascii_byte_inj in E1; [|apply Z.mod_pos_bound; lia..].
  rewrite Nat2Z.inj_succ, Z.pow_succ_r in Ha, Hb by lia.
  apply IH in E2; [|split; [apply Z.div_pos; lia|apply Z.div_lt_upper_bound; lia]..].
  rewrite (Z.div_mod a 256), (Z.div_mod b 256) by lia. congruence.
Qed.

(** What a token says can be read back from the signed bytes. *)
Lemma mint_message_inj uid scope expiry uid' scope' expiry' :
  in_u32 uid → in_u32 uid' → str_len scope <= u32_max → str_len scope' <= u32_max →
  0 <= expiry < 2 ^ 64 * nanos → 0 <= expiry' < 2 ^ 64 * nanos →
  mint_message uid scope expiry = mint_message uid' scope' expiry' → uid = uid' ∧ scope = scope' ∧ expiry = expiry'.
Proof.
  unfold in_u32, u32_max, mint_message. intros Hu Hu' Hs Hs' He He' E.
  apply app_inj_1 in E as [E1 E]; [|by rewrite !le_bytes_length]. apply app_inj_1 in E as [E2 E]; [|by rewrite !le_bytes_length].
  apply le_bytes_inj in E1; [|cbn; lia..].
  assert (0 <= str_len scope ∧ 0 <= str_len scope') as [Hp Hp'] by (unfold str_len; lia).
  apply le_bytes_inj in E2; [|cbn; lia..].
  assert (∀ s, length (to_bytes s) = String.length s) as Hlen.
  { clear. intros s. by rewrite <-(of_to_bytes s), to_of_bytes, length_of_bytes. }
  apply app_inj_1 in E as [E3 E]; [|rewrite !Hlen; unfold str_len in E2; lia]. apply to_bytes_inj in E3.
  rewrite !Z.max_r in E by lia. apply app_inj_1 in E as [E4 E5]; [|by rewrite !le_bytes_length]. unfold as_secs, nanos in *.
  assert (∀ x, 0 <= x < 2 ^ 64 * 1000000000 → 0 <= x / 1000000000 < 2 ^ 64) as Hd.
  { intros x Hx. split; [apply Z.div_pos; lia|]. apply Z.div_lt_upper_bound; lia. }
  apply le_bytes_inj in E4; [|by apply Hd..].
  pose proof (Z.mod_pos_bound expiry 1000000000). pose proof (Z.mod_pos_bound expiry' 1000000000).
  apply le_bytes_inj in E5; [|cbn; lia..]. split_and!; [done|done|].
  rewrite (Z.div_mod expiry 1000000000), (Z.div_mod expiry' 1000000000) by lia. congruence.
Qed.

Section IntentLemmas.
Context {J : JcsOps} {L : JcsLaws}.

(** The signed bytes determine the operation. *)
Lemma intent_bytes_inj m o n f d m' o' n' f' d' :
  canonical_presence_intent_bytes m o n f d = canonical_presence_intent_bytes m' o' n' f' d' →
  m = m' ∧ o = o' ∧ n = n' ∧ f = f' ∧ d = d'.
Proof.
  unfold canonical_presence_intent_bytes, intent_object.
  destruct (jcs_texts [("ctx", JString DOMAIN_PRESENCE_INTENT); ("method", JString m); ("op_id", JString o); ("nonce", JString n);
    ("daemon_fingerprint", JString f); ("params_digest", JString d)]) as [b Hb]; [repeat constructor; by eexists|].
  destruct (jcs_texts [("ctx", JString DOMAIN_PRESENCE_INTENT); ("method", JString m'); ("op_id", JString o'); ("nonce", JString n');
    ("daemon_fingerprint", JString f'); ("params_digest", JString d')]) as [b' Hb']; [repeat constructor; by eexists|].
  rewrite Hb, Hb'. intros <-. pose proof (λ k, jcs_determines _ _ b k Hb Hb') as K.
  pose proof (K "method") as [= ->]. pose proof (K "op_id") as [= ->]. pose proof (K "nonce") as [= ->].
  pose proof (K "daemon_fingerprint") as [= ->]. by pose proof (K "params_digest") as [= ->].
Qed.

End IntentLemmas.

(** *** The table of nonces *)

Lemma mint_table f now nonce op fp method digest uid ttl tbl r tbl' :
  mint_presence_nonce f now nonce op fp method digest uid ttl tbl = (r, tbl') →
  (∀ n c, tbl' !! n = Some c → tbl !! n = Some c ∨ n = nonce ∧ (∃ x, r = Ok x) ∧
     c = mkChallenge op fp method digest uid now (now + ttl)) ∧
  ((∃ x, r = Ok x) → r = Ok (nonce, now + ttl)).
Proof.
  unfold mint_presence_nonce. destruct (nf_delete f); [intros [= <- <-]; split; [by left|by intros [? ?]]|].
  set (tb := filter _ tbl). assert (∀ n c, tb !! n = Some c → tbl !! n = Some c) as Hsub.
  { intros n c Hn. by apply map_lookup_filter_Some in Hn as [? _]. }
  destruct (nf_insert f); [intros [= <- <-]; split; [intros n c Hn; left; by apply Hsub|by intros [? ?]]|].
  destruct (tb !! nonce) as [old|]; intros [= <- <-]; (split; [intros n c Hn|]).
  - left. by apply Hsub.
  - by intros [? ?].
  - apply lookup_insert_Some in Hn as [[<- <-]|[_ Hn]]; [right; split_and!; [done|by eexists|done]|left; by apply Hsub].
  - done.
Qed.

Lemma consume_table f now nonce op fp method digest tbl r tbl' :
  consume_presence_nonce f now nonce op fp method digest tbl = (r, tbl') →
  (∀ n c, tbl' !! n = Some c → tbl !! n = Some c) ∧
  (r = Ok tt → tbl' !! nonce = None ∧ ∃ c, tbl !! nonce = Some c ∧ now <= pc_expires_at c ∧ pc_op_id c = op ∧
     pc_daemon_fingerprint c = fp ∧ pc_method c = method ∧ pc_params_digest c = digest).
Proof.
  unfold consume_presence_nonce. destruct (nf_delete f); [by intros [= <- <-]|]. intros [= <- <-]. split.
  - intros n c [_ Hn]%lookup_delete_Some. done.
  - intros Hr. split; [apply lookup_delete_eq|]. destruct (tbl !! nonce) as [c|]; [|done]. exists c.
    destruct (Z.ltb_spec (pc_expires_at c) now); [done|].
    repeat (case_bool_decide; [|done]). by split_and!.
Qed.
