(* ===== verification/Sessions.v ===== *)
(** * Sessions on disk

    crates/core-state/src/sessions.rs: the directory of sessions, one subdirectory each with the session's metadata, which closing
    moves away, and the endpoint of its attachment. A directory is found by the text of its path; a file is absent, read, not the
    expected JSON, or not readable. A write takes effect or fails. *)

From stdpp Require Import base gmap list strings.
From Stdlib Require Import Ascii Lia ZArith.
From S2P Require Import Prelude.

Local Infix "+:+" := String.append (at level 60, right associativity).
Local Open Scope Z_scope.

Record SessionMeta := mkSession {
  sm_session_id : string; sm_persona : string; sm_grant_id : string; sm_started_at : string; sm_launcher_pid : Z;
  sm_authority_strict : bool; sm_delegation_id : option string; sm_delegation_template : option string;
  sm_durable_persona : option string; sm_caller_binding_id : option string }.

Definition is_runtime_attachment (m : SessionMeta) : bool :=
  bool_decide (is_Some (sm_durable_persona m)) && bool_decide (is_Some (sm_caller_binding_id m)).

Record AttachmentEndpoint := mkEndpoint {
  ae_attachment_id : string; ae_endpoint_token : string; ae_state : string; ae_created_at : string }.

Definition endpoint_active (attachment_id endpoint_token now : string) : AttachmentEndpoint :=
  mkEndpoint attachment_id endpoint_token "active" now.
Definition is_rebinding (e : AttachmentEndpoint) : bool := bool_decide (ae_state e = "rebinding").
Definition is_active (e : AttachmentEndpoint) : bool := bool_decide (ae_state e = "active").

Record SessionWorkspaceBinding := mkWorkspace { wb_workspace_ref : string; wb_worktree_path : string }.

(** ** Files *)

Inductive FileState (A : Type) := FAbsent | FOk (a : A) | FCorrupt (msg : string) | FUnreadable (msg : string).
Arguments FAbsent {A}.
Arguments FOk {A} a.
Arguments FCorrupt {A} msg.
Arguments FUnreadable {A} msg.

Record SessionDir := mkSessionDir {
  sd_meta : FileState SessionMeta; sd_closed : FileState SessionMeta; sd_endpoint : FileState AttachmentEndpoint;
  sd_workspace : FileState SessionWorkspaceBinding }.

Definition empty_dir : SessionDir := mkSessionDir FAbsent FAbsent FAbsent FAbsent.

(** Directories by the text of their path. *)
Abbreviation Disk := (gmap string SessionDir).

Definition read_file {A} (f : FileState A) : result (option A) string :=
  match f with FAbsent => Ok None | FOk a => Ok (Some a) | FCorrupt m | FUnreadable m => Err m end.

(** [Path::join]: an absolute path replaces the base. *)
Definition path_join (base id : string) : string := if str_starts_with id "/" then id else base +:+ "/" +:+ id.

Definition dir_at (d : Disk) (path : string) : SessionDir := default empty_dir (d !! path).

Section Store.
Context (base_dir : string).

Definition session_dir (id : string) : string := path_join base_dir id.

(** [fault]: the write fails. *)
Definition session_create (fault : option string) (meta : SessionMeta) (d : Disk) : result unit string * Disk :=
  match fault with
  | Some m => (Err m, d)
  | None =>
      let p := session_dir (sm_session_id meta) in let s := dir_at d p in
      (Ok tt, <[p := mkSessionDir (FOk meta) (sd_closed s) (sd_endpoint s) (sd_workspace s)]> d)
  end.

Definition session_read (id : string) (d : Disk) : result (option SessionMeta) string :=
  read_file (sd_meta (dir_at d (session_dir id))).

Definition session_close (fault : option string) (id : string) (d : Disk) : result unit string * Disk :=
  let p := session_dir id in let s := dir_at d p in
  match sd_meta s, fault with
  | FAbsent, _ => (Ok tt, d)
  | _, Some m => (Err m, d)
  | f, None => (Ok tt, <[p := mkSessionDir FAbsent f (sd_endpoint s) (sd_workspace s)]> d)
  end.

Definition write_attachment_endpoint (fault : option string) (session_id : string) (e : AttachmentEndpoint) (d : Disk)
  : result unit string * Disk :=
  match fault with
  | Some m => (Err m, d)
  | None => let p := session_dir session_id in let s := dir_at d p in
            (Ok tt, <[p := mkSessionDir (sd_meta s) (sd_closed s) (FOk e) (sd_workspace s)]> d)
  end.

Definition read_attachment_endpoint (session_id : string) (d : Disk) : result (option AttachmentEndpoint) string :=
  read_file (sd_endpoint (dir_at d (session_dir session_id))).

Definition write_workspace_binding (fault : option string) (session_id : string) (b : SessionWorkspaceBinding) (d : Disk)
  : result unit string * Disk :=
  match fault with
  | Some m => (Err m, d)
  | None => let p := session_dir session_id in let s := dir_at d p in
            (Ok tt, <[p := mkSessionDir (sd_meta s) (sd_closed s) (sd_endpoint s) (FOk b)]> d)
  end.

Definition read_workspace_binding (session_id : string) (d : Disk) : result (option SessionWorkspaceBinding) string :=
  read_file (sd_workspace (dir_at d (session_dir session_id))).

Definition set_attachment_state (fault : option string) (session_id state : string) (d : Disk) : result bool string * Disk :=
  match read_attachment_endpoint session_id d with
  | Err m => (Err m, d)
  | Ok None => (Ok false, d)
  | Ok (Some e) =>
      match write_attachment_endpoint fault session_id
              (mkEndpoint (ae_attachment_id e) (ae_endpoint_token e) state (ae_created_at e)) d with
      | (Ok _, d) => (Ok true, d)
      | (Err m, d) => (Err m, d)
      end
  end.

(** The subdirectories of [base_dir], in the order of [read_dir]. *)
Definition is_child (p : string) : bool :=
  match strip_prefix_on (to_bytes (base_dir +:+ "/")) (to_bytes p) with
  | Some name => negb (bool_decide (name = [])) && negb (bool_decide ("/"%char ∈ name))
  | None => false
  end.

Definition list_open (d : Disk) : list SessionMeta :=
  omap (λ kv, if is_child kv.1 then match sd_meta kv.2 with FOk m => Some m | _ => None end else None) (map_to_list d).

Definition count_other_open_attachments (meta : SessionMeta) (d : Disk) : nat :=
  match sm_caller_binding_id meta with
  | None => 0%nat
  | Some binding_id =>
      length (List.filter (λ c, negb (bool_decide (sm_session_id c = sm_session_id meta))
                                && bool_decide (sm_caller_binding_id c = Some binding_id)) (list_open d))
  end.

Definition find_open_by_runtime_persona (runtime_persona_id : string) (d : Disk) : option SessionMeta :=
  List.find (λ m, bool_decide (sm_persona m = runtime_persona_id) && is_runtime_attachment m) (list_open d).

(** The loop of [resolve_attachment_endpoint]. *)
Fixpoint resolve_loop (attachment_id endpoint_token : string) (d : Disk) (metas : list SessionMeta)
  (resolved : option (SessionMeta * AttachmentEndpoint)) : result (option (SessionMeta * AttachmentEndpoint)) string :=
  match metas with
  | [] => Ok resolved
  | meta :: metas =>
      let? e := read_attachment_endpoint (sm_session_id meta) d in
      match e with
      | None => resolve_loop attachment_id endpoint_token d metas resolved
      | Some e =>
          if bool_decide (ae_attachment_id e = attachment_id) && bool_decide (ae_endpoint_token e = endpoint_token)
             && is_runtime_attachment meta
          then match resolved with
               | Some _ => Err ("duplicate live attachment endpoint id: " +:+ attachment_id)
               | None => resolve_loop attachment_id endpoint_token d metas (Some (meta, e))
               end
          else resolve_loop attachment_id endpoint_token d metas resolved
      end
  end.

Definition resolve_attachment_endpoint (attachment_id endpoint_token : string) (d : Disk)
  : result (option (SessionMeta * AttachmentEndpoint)) string :=
  resolve_loop attachment_id endpoint_token d (list_open d) None.

(** ** Properties *)

Lemma dir_insert d p s : dir_at (<[p := s]> d) p = s.
Proof. unfold dir_at. by rewrite lookup_insert_eq. Qed.

Lemma list_open_elem m d : m ∈ list_open d ↔ ∃ p s, d !! p = Some s ∧ is_child p = true ∧ sd_meta s = FOk m.
Proof.
  unfold list_open. rewrite list_elem_of_omap. split.
  - intros ([p s] & Hin & Hm). apply elem_of_map_to_list in Hin. cbn in Hm. exists p, s. destruct (is_child p); [|done].
    destruct (sd_meta s); naive_solver.
  - intros (p & s & Hp & Hc & Hm). exists (p, s). split; [by apply elem_of_map_to_list|]. cbn. by rewrite Hc, Hm.
Qed.

Definition matches (attachment_id endpoint_token : string) (d : Disk) (x : SessionMeta * AttachmentEndpoint) : Prop :=
  read_attachment_endpoint (sm_session_id x.1) d = Ok (Some x.2) ∧ ae_attachment_id x.2 = attachment_id ∧
  ae_endpoint_token x.2 = endpoint_token ∧ is_runtime_attachment x.1 = true.

Lemma attachment_loop_spec a t d metas resolved r :
  resolve_loop a t d metas resolved = Ok r →
  match resolved with
  | Some x => r = Some x ∧ ∀ m e, m ∈ metas → ¬ matches a t d (m, e)
  | None =>
      match r with
      | None => ∀ m e, m ∈ metas → ¬ matches a t d (m, e)
      | Some x => ∃ l1 l2, metas = l1 ++ x.1 :: l2 ∧ matches a t d x ∧ (∀ m e, m ∈ l1 ++ l2 → ¬ matches a t d (m, e))
      end
  end.
Proof.
  revert resolved r. induction metas as [|meta metas IH]; intros resolved r.
  { intros [= <-]. destruct resolved; [split; [done|]|]; by intros ? ? ?%not_elem_of_nil. }
  cbn. intros (e & He & Hl)%result_bind_Ok.
  assert (∀ e', matches a t d (meta, e') → e = Some e' ∧ bool_decide (ae_attachment_id e' = a) && bool_decide (ae_endpoint_token e' = t)
            && is_runtime_attachment meta = true) as Hm.
  { intros e' (Hr & Ha & Ht & Hi). cbn in *. rewrite He in Hr. injection Hr as ->. split; [done|].
    rewrite !bool_decide_true by done. by rewrite Hi. }
  assert (∀ r', (∀ e', ¬ matches a t d (meta, e')) → resolve_loop a t d metas resolved = Ok r' →
    match resolved with
    | Some x => r' = Some x ∧ ∀ m e, m ∈ meta :: metas → ¬ matches a t d (m, e)
    | None => match r' with
              | None => ∀ m e, m ∈ meta :: metas → ¬ matches a t d (m, e)
              | Some x => ∃ l1 l2, meta :: metas = l1 ++ x.1 :: l2 ∧ matches a t d x ∧ (∀ m e, m ∈ l1 ++ l2 → ¬ matches a t d (m, e))
              end
    end) as Hskip.
  { intros r' Hno Hr'. apply IH in Hr'. destruct resolved as [x|].
    - destruct Hr' as [-> Hr']. split; [done|]. intros m e0 [->|Hin]%elem_of_cons; [apply Hno|by apply Hr'].
    - destruct r' as [x|]; [|intros m e0 [->|Hin]%elem_of_cons; [apply Hno|by apply Hr']].
      destruct Hr' as (l1 & l2 & -> & Hx & Hl12). exists (meta :: l1), l2. split_and!; [done|done|].
      intros m e0 [->|Hin]%elem_of_cons; [apply Hno|by apply Hl12]. }
  destruct e as [e|]; [|apply Hskip; [intros e' [? _]%Hm; congruence|done]].
  destruct (bool_decide (ae_attachment_id e = a) && bool_decide (ae_endpoint_token e = t) && is_runtime_attachment meta) eqn:Eb.
  - destruct resolved as [x|]; [done|]. apply IH in Hl as [-> Hl]. exists [], metas. split_and!; [done| |done].
    apply andb_true_iff in Eb as [[E1%bool_decide_eq_true E2%bool_decide_eq_true]%andb_true_iff E3]. by split_and!.
  - apply Hskip; [|done]. intros e' [[= <-] Hb]%Hm. congruence.
Qed.

End Store.

(** An attachment is resolved exactly when one open session of the directory has that endpoint, with its token: the result is
    that session and that endpoint, nothing matches when there is no result, and two matches are an error. *)
Theorem attachment_resolution base a t d r :
  resolve_attachment_endpoint base a t d = Ok r →
  match r with
  | None => ∀ m e, m ∈ list_open base d → ¬ matches base a t d (m, e)
  | Some x => ∃ l1 l2, list_open base d = l1 ++ x.1 :: l2 ∧ matches base a t d x ∧ (∀ m e, m ∈ l1 ++ l2 → ¬ matches base a t d (m, e))
  end.
Proof. apply (attachment_loop_spec base a t d (list_open base d) None). Qed.

(** A session is read from when it is created until it is closed, and its endpoint stays. *)
Lemma session_lifecycle base m d d1 d2 :
  session_create base None m d = (Ok tt, d1) → session_close base None (sm_session_id m) d1 = (Ok tt, d2) →
  session_read base (sm_session_id m) d1 = Ok (Some m) ∧ session_read base (sm_session_id m) d2 = Ok None ∧
  read_attachment_endpoint base (sm_session_id m) d2 = read_attachment_endpoint base (sm_session_id m) d.
Proof.
  intros [= <-]. unfold session_close, session_read, read_attachment_endpoint. rewrite dir_insert. cbn. intros [= <-].
  by rewrite dir_insert.
Qed.

(** The identifier of a session is a path: one that starts with a slash is read outside of the directory. *)
Lemma session_read_escapes base path d : str_starts_with path "/" = true → session_read base path d = read_file (sd_meta (dir_at d path)).
Proof. unfold session_read, session_dir, path_join. by intros ->. Qed.
