(* ===== verification/Dispatch.v ===== *)
(** * The dispatcher of the daemon

    crates/ember-daemon/src/infra/handler.rs, handler/authority.rs, handler/context.rs and handler/presence_runtime.rs: what a request
    passes before its handler runs. The identity of a per-agent socket or of a certificate replaces what the request claims;
    quarantine, the class of the method, the signed proof of widening operations and the operator's session decide. The handlers that
    change the state of this file are those that draw nonces, open and lock the session. *)

From stdpp Require Import base gmap list strings.
From Stdlib Require Import Ascii Lia ZArith.
From S2P Require Import Prelude CoreTypes Materialize Metering VerifyChain ProxyDaemon AuditLog Presence Sessions.

Local Infix "+:+" := String.append (at level 60, right associativity).
Local Open Scope Z_scope.

(** ** Tables of methods *)

Definition read_class_methods : list string :=
  ["ping"; "audit_verify"; "audit_repair_chain_prepare"; "audit_query"; "audit.query"; "audit_log_query";
   "audit_explain"; "receipt_tree"; "receipt_query"; "receipt.list"; "receipt.get"; "list_personas"; "list_grants";
   "list_operator_grants"; "list_all_grants"; "list_credentials"; "list_devices"; "list_roots";
   "list_personas_with_grants"; "list_pending_approvals"; "show_persona"; "show_grant"; "show_device"; "show_root";
   "binary_manifest_show"; "health"; "status"; "vault_status"; "catalog.search_actions"; "catalog_search_actions";
   "vault_rotate_plan"; "version"; "delegation_list"; "delegation_show"; "describe_runtime_attach_target"].

Definition connect_only_methods : list string :=
  ["ping"; "audit_verify"; "audit_repair_chain_prepare"; "audit_query"; "audit.query"; "receipt_query";
   "receipt.list"; "receipt.get"; "list_personas"; "list_grants"; "list_pending_approvals"; "list_receipts";
   "get_receipt"; "list_standing_grants"; "grant_status"; "recover_grant_rebuild_chain_status";
   "recover_persona_restore_status"; "grant_budget_status"; "evaluate_grant"; "daemon_persona"; "presence_token_mint";
   "poll_notifications"; "await_approval"; "headless_preflight_gaps"; "catalog.search_actions";
   "catalog_search_actions"; "preflight_authority_coverage"; "vault_status"; "vault_rotate_plan";
   "vault_export_sealed"; "vault_import_sealed"; "broker.github_status"; "broker_github_status";
   "broker.registry_status"; "broker_registry_status"; "trust.list"; "trust_list"; "trust.show"; "trust_show";
   "trust.explain"; "trust_explain"; "trust.rotation_status"; "trust_rotation_status"; "refresh_cert"; "status";
   "telemetry.status"; "telemetry_status"; "telemetry.opt_in"; "telemetry_opt_in"; "telemetry.opt_out";
   "telemetry_opt_out"; "subprocess_audit_log"; "vault.se_provision"; "vault/se_provision"; "vault_se_provision";
   "vault.se_unlock_begin"; "vault/se_unlock_begin"; "vault_se_unlock_begin"; "vault.se_unlock_complete";
   "vault/se_unlock_complete"; "vault_se_unlock_complete"; "vault.se_add_recipient_wrap";
   "vault/se_add_recipient_wrap"; "vault_se_add_recipient_wrap"; "presence/request_nonce"; "presence_request_nonce";
   "delegation_revoke"; "delegation_list"; "delegation_show"; "recovery_action_receipt";
   "describe_runtime_attach_target"; "identity.device.enroll_plan"; "identity_device_enroll_plan";
   "identity.device.enroll_backup_plan"; "identity_device_enroll_backup_plan"; "identity.device.enroll_backup";
   "identity_device_enroll_backup"; "identity.device.enroll"; "identity_device_enroll"; "identity.device.revoke";
   "identity_device_revoke"; "identity.recovery.enroll"; "identity_recovery_enroll"; "identity.device.list";
   "identity_device_list"; "report_session_leaf"; "vault.de_provision_begin"; "vault/de_provision_begin";
   "vault_de_provision_begin"; "vault.de_provision_outer"; "vault/de_provision_outer"; "vault_de_provision_outer";
   "vault.de_unlock_begin"; "vault/de_unlock_begin"; "vault_de_unlock_begin"; "vault.de_unlock_complete";
   "vault/de_unlock_complete"; "vault_de_unlock_complete"].

Definition operator_presence_methods : list string :=
  ["create_persona"; "build_init_first_grant_receipt"; "persona_signer"; "revoke_persona"; "audit_log_query";
   "audit_explain"; "grant_summary"; "detect_anomalies"; "receipt_tree"; "list_operator_grants"; "list_all_grants";
   "headless_status"; "create_grant"; "create_composite_grant"; "delegate_grant"; "revoke_grant";
   "recover_grant_abandon"; "recover_persona_abandon"; "extend_grant"; "grant.extend"; "revoke_statement";
   "evaluate_tool_call"; "use_credential"; "vault_add"; "vault_put"; "vault_list"; "vault_remove"; "vault_lock";
   "vault_unlock"; "vault_get"; "vault_migrate_acl"; "vault_rotate_execute"; "sandbox_create"; "sandbox_list";
   "sandbox_stop"; "sandbox_delete"; "sandbox_exec"; "sandbox_run"; "local_state_key_get"; "local_state_key_set";
   "local_state_key_rotate_and_reencrypt"; "binary_pin_generate"; "submit_approval"; "propose_grant";
   "resolve_approval"; "approval.resolve"; "approval_resolve"; "approval.narrow"; "approval_narrow";
   "grant.expire_stale"; "expire_grants"; "create_standing_grant"; "remove_standing_grant"; "request_access";
   "broker_issue"; "broker_revoke"; "broker_list"; "broker_resolve"; "broker_exec"; "broker.mint_gh_token";
   "broker_register_pid_watcher"; "presence/request_proof"; "presence_request_proof"; "sops_unwrap_dek";
   "sops.pubkey"; "sops.wrap"; "sops.unwrap"; "register_session"; "close_session"; "save_delegation_template";
   "headless_enroll"; "headless_revoke"; "audit_repair_chain"].

Definition dispatcher_arms : list string :=
  ["ping"; "presence_token_mint"; "evaluate_tool_call"; "create_persona"; "build_init_first_grant_receipt";
   "persona_signer"; "list_personas"; "revoke_persona"; "retire_persona_for_reenroll"; "create_grant";
   "create_composite_grant"; "delegate_grant"; "list_grants"; "list_operator_grants"; "list_all_grants";
   "sandbox_create"; "sandbox_list"; "sandbox_stop"; "sandbox_delete"; "sandbox_exec"; "sandbox_run"; "revoke_grant";
   "revoke_statement"; "evaluate_grant"; "use_credential"; "vault_add"; "vault_put"; "vault_export_sealed";
   "vault_import_sealed"; "vault_remove"; "vault_lock"; "vault_unlock"; "vault.se_provision"; "vault/se_provision";
   "vault_se_provision"; "vault.se_add_recipient_wrap"; "vault/se_add_recipient_wrap"; "vault_se_add_recipient_wrap";
   "vault.se_unlock_begin"; "vault/se_unlock_begin"; "vault_se_unlock_begin"; "vault.se_unlock_complete";
   "vault/se_unlock_complete"; "vault_se_unlock_complete"; "vault.de_provision_begin"; "vault/de_provision_begin";
   "vault_de_provision_begin"; "vault.de_provision_outer"; "vault/de_provision_outer"; "vault_de_provision_outer";
   "vault.de_unlock_begin"; "vault/de_unlock_begin"; "vault_de_unlock_begin"; "vault.de_unlock_complete";
   "vault/de_unlock_complete"; "vault_de_unlock_complete"; "recovery_action_receipt";
   "recover_grant_rebuild_chain_status"; "recover_persona_restore_status"; "recover_grant_abandon";
   "recover_persona_abandon"; "vault_status"; "vault_rotate_plan"; "vault_rotate_execute"; "vault_migrate_acl";
   "vault_list"; "vault_get"; "local_state_key_get"; "local_state_key_set"; "local_state_key_rotate_and_reencrypt";
   "binary_pin_generate"; "audit_verify"; "audit_repair_chain"; "audit_repair_chain_prepare"; "audit_query";
   "audit.query"; "audit_log_query"; "audit_explain"; "receipt_tree"; "receipt_query"; "receipt.list"; "receipt.get";
   "submit_approval"; "propose_grant"; "list_pending_approvals"; "resolve_approval"; "approval.resolve";
   "approval_resolve"; "approval.narrow"; "approval_narrow"; "status"; "grant_status"; "grant.extend"; "extend_grant";
   "request_access"; "await_approval"; "grant.expire_stale"; "expire_grants"; "grant_summary"; "detect_anomalies";
   "create_standing_grant"; "list_standing_grants"; "remove_standing_grant"; "poll_notifications"; "list_receipts";
   "get_receipt"; "daemon_persona"; "grant_budget_status"; "broker_issue"; "broker_revoke"; "broker_list";
   "broker_resolve"; "refresh_cert"; "broker_exec"; "subprocess_audit_log"; "session.lookup_or_open";
   "session_lookup_or_open"; "broker.mint_gh_token"; "broker.mint_sub_persona"; "broker_register_pid_watcher";
   "presence/request_proof"; "presence_request_proof"; "presence/request_nonce"; "presence_request_nonce";
   "identity.device.list"; "identity_device_list"; "identity.device.enroll"; "identity_device_enroll";
   "identity.device.enroll_plan"; "identity_device_enroll_plan"; "identity.device.enroll_backup";
   "identity_device_enroll_backup"; "identity.device.enroll_backup_plan"; "identity_device_enroll_backup_plan";
   "identity.device.revoke"; "identity_device_revoke"; "identity.recovery.enroll"; "identity_recovery_enroll";
   "broker.bindings.register"; "broker_bindings_register"; "broker.bindings.list"; "broker_bindings_list";
   "broker.registry_status"; "broker_registry_status"; "broker.github_status"; "broker_github_status"; "trust.list";
   "trust_list"; "trust.show"; "trust_show"; "trust.explain"; "trust_explain"; "trust.rotate_dev_ir";
   "trust_rotate_dev_ir"; "trust.rotation_status"; "trust_rotation_status"; "broker.bindings.remove";
   "broker_bindings_remove"; "broker.bindings.move"; "broker_bindings_move"; "binding.delete"; "binding_delete";
   "binding.revoke_urgent"; "binding_revoke_urgent"; "binding.update"; "binding_update"; "binding.upsert";
   "binding_upsert"; "create_agent_persona"; "create_agent_persona_atomic"; "sops_unwrap_dek"; "sops.pubkey";
   "sops.wrap"; "sops.unwrap"; "register_session"; "describe_runtime_attach_target"; "close_session";
   "report_session_leaf"; "save_delegation_template"; "headless_enroll"; "headless_revoke"; "headless_status";
   "headless_preflight_gaps"; "headless_preflight_layer1"; "preflight_authority_coverage"; "catalog.search_actions";
   "catalog_search_actions"].

Definition PLAINTEXT_BEARING_METHODS : list string :=
  ["vault_unseal"; "vault_seal"; "vault_rekey"; "mint_grant"; "export_private_key"; "import_private_key"; "vault_export_sealed";
   "vault_import_sealed"; "decrypt_blob"; "sign_with_unsealed_key"; "recover_secret"].

Inductive AuthorityClass := ConnectOnly | OperatorPresence | OperatorPresenceWithReattest.
#[export] Instance authority_class_eq_dec : EqDecision AuthorityClass.
Proof. solve_decision. Defined.

Definition is_read_class_method (method : string) : bool := bool_decide (method ∈ read_class_methods).

Definition quarantine_allowed_method (method : string) : bool :=
  is_read_class_method method || bool_decide (method = "audit_repair_chain") || bool_decide (method = "recovery_action_receipt").

Definition authority_class_for_method (method : string) : option AuthorityClass :=
  if bool_decide (method ∈ connect_only_methods) then Some ConnectOnly
  else if bool_decide (method ∈ operator_presence_methods) then Some OperatorPresence
  else None.

Definition operator_presence_token_optional_method (method : string) : bool :=
  bool_decide (method ∈ ["vault_lock"; "close_session"]).

Definition PRESENCE_SCOPE_CLASS_VAULT : string := "class:vault".
Definition PRESENCE_SCOPE_CLASS_SESSION_RUNTIME : string := "class:session-runtime".

Definition presence_scope_for_unlock_target (method : string) : option string :=
  if bool_decide (method = "vault_unlock") then Some PRESENCE_SCOPE_CLASS_VAULT
  else if bool_decide (method = "register_session") then Some PRESENCE_SCOPE_CLASS_SESSION_RUNTIME
  else if bool_decide (authority_class_for_method method = Some OperatorPresence) then Some method
  else None.

Definition vault_scope_methods : list string :=
  ["vault_unlock"; "vault_add"; "vault_put"; "vault_list"; "vault_remove"; "vault_get"; "vault_migrate_acl"; "vault_rotate_execute"].
Definition session_runtime_methods : list string :=
  ["register_session"; "use_credential"; "evaluate_tool_call"; "broker_issue"; "broker_revoke"; "broker_list"; "broker_resolve";
   "broker_exec"; "broker.mint_gh_token"; "broker_register_pid_watcher"].

Definition presence_scope_allows_method (scope method : string) : bool :=
  if bool_decide (scope = "*") then true
  else if bool_decide (scope = PRESENCE_SCOPE_CLASS_VAULT) then bool_decide (method ∈ vault_scope_methods)
  else if bool_decide (scope = PRESENCE_SCOPE_CLASS_SESSION_RUNTIME) then bool_decide (method ∈ session_runtime_methods)
  else bool_decide (scope = method).

Definition presence_chokepoint_applies (method : string) : bool :=
  is_presence_widening method
  && negb (bool_decide (method ∈ ["register_session"; "presence/request_proof"; "presence_request_proof"; "audit_repair_chain";
                                  "headless_enroll"])).

Definition widening_transient_kek_applies (method : string) : bool :=
  bool_decide (method ∈ ["create_persona"; "create_grant"; "create_composite_grant"; "create_standing_grant"; "propose_grant";
                         "save_delegation_template"; "resolve_approval"; "approval.resolve"; "approval_resolve"; "approval.narrow";
                         "approval_narrow"; "build_init_first_grant_receipt"]).

Definition method_accepts_fresh_presence_proof (method : string) : bool :=
  is_presence_widening method || bool_decide (method ∈ ["vault_get"; "use_credential"; "sops_unwrap_dek"; "sops.unwrap"]).

(** ** Requests *)

Record MtlsPrincipal := mkMtls { mp_persona_id : string; mp_container_id : string; mp_cert_fingerprint : bytes }.

Inductive DispatchSource := Socket | Internal (reason : string) | Bridge (p : MtlsPrincipal).

Record PeerCred := mkPeer { pe_uid : Z; pe_pid : option Z }.
Record PeerCredPrincipal := mkPeerPrincipal { pr_uid : Z; pr_pid : Z; pr_socket_path : string }.
Record EnrolledPrincipal := mkEnrolled { ep_persona_id : string; ep_grant_id : string; ep_brief_content_hash : string }.

(** The proxy addresses, which the gate does not read, and the flag of the test harness are left out. *)
Record RequestContext := mkContext {
  rc_source : DispatchSource; rc_peer : option PeerCred; rc_principal : option string; rc_sessions_dir : option string;
  rc_peer_cred_principal : option PeerCredPrincipal; rc_presence_token : option PresenceToken }.

Definition is_internal (s : DispatchSource) : bool := match s with Internal _ => true | _ => false end.
Definition mtls_principal (ctx : RequestContext) : option MtlsPrincipal :=
  match rc_source ctx with Bridge p => Some p | _ => None end.

Definition satisfies (ctx : RequestContext) (required : AuthorityClass) : bool :=
  match required with
  | ConnectOnly | OperatorPresence => bool_decide (is_Some (rc_peer ctx))
  | OperatorPresenceWithReattest => false
  end.

(** [Path::file_name], where empty and single-dot components do not count. *)
Definition file_name (path : string) : string :=
  default "" (last (List.filter (λ c, negb (bool_decide (c = "")) && negb (bool_decide (c = "."))) (str_split "/"%char path))).
Definition is_per_agent_socket_path (path : string) : bool :=
  str_starts_with (file_name path) "agent-" && str_ends_with (file_name path) ".sock".

(** Errors with their codes; [DE_Authority] is the object of [authority_error]. *)
Inductive DispatchError := DE_Rpc (code : Z) (msg : string) | DE_Authority (reason : string).

(** ** The state *)

Record GateState := mkGate { gs_challenges : Challenges; gs_presence : Presence; gs_audit : AuditStore }.

Definition set_challenges (c : Challenges) (st : GateState) : GateState := mkGate c (gs_presence st) (gs_audit st).
Definition set_presence (p : Presence) (st : GateState) : GateState := mkGate (gs_challenges st) p (gs_audit st).
Definition set_audit (a : AuditStore) (st : GateState) : GateState := mkGate (gs_challenges st) (gs_presence st) a.

(** What a request reads and draws: the clocks (the epoch in seconds, an instant and the system time in nanoseconds), the random
    nonce, the fingerprint of the daemon's identity, the devices the identity store lists, the enrolled sockets, the bound
    containers of personas, the disk, the ancestry of processes, the parameters of the vault, and what opening it with a key gives. *)
Record DispatchEnv := mkEnv {
  dv_epoch : Z; dv_instant : Z; dv_system : Z; dv_nonce : string; dv_faults : NonceFaults; dv_identity : option string;
  dv_data_dir : bool; dv_devices : result (list (string * string)) string;
  dv_enrollment : string → option EnrolledPrincipal; dv_container : string → result (option string) StoreError;
  dv_disk : Disk; dv_descends : Z → Z → bool; dv_vault_config : bool; dv_vault_params : result unit string;
  dv_headless : bytes → result unit string; dv_audit : AuditEnv }.

(** ** Identity *)

Definition resolve_enrolled (e : DispatchEnv) (ctx : RequestContext) : result (option EnrolledPrincipal) DispatchError :=
  match is_internal (rc_source ctx), rc_peer_cred_principal ctx with
  | false, Some p =>
      if is_per_agent_socket_path (pr_socket_path p)
      then match dv_enrollment e (pr_socket_path p) with
           | Some en => Ok (Some en)
           | None => Err (DE_Rpc (-32401) "delegate_grant: caller PID is not enrolled with any persona — call create_persona on this connection first")
           end
      else Ok None
  | _, _ => Ok None
  end.

(** The persona of a certificate exists, and is not bound to another container. *)
Definition check_mtls (e : DispatchEnv) (ctx : RequestContext) (enrolled : option EnrolledPrincipal) : result unit DispatchError :=
  match mtls_principal ctx with
  | None => Ok tt
  | Some mtls =>
      if bool_decide (is_Some enrolled)
      then Err (DE_Rpc (-32004) "principal binding violation: enrolled + mtls both set")
      else
        match dv_container e (mp_persona_id mtls) with
        | Err SE_NotFound =>
            Err (DE_Rpc (-32004) "principal binding violation: mTLS persona SAN does not resolve to a known persona")
        | Err err => Err (DE_Rpc (-32000) ("persona lookup failed: " +:+ StoreError_display err))
        | Ok (Some bound) =>
            if bool_decide (bound = mp_container_id mtls) then Ok tt
            else Err (DE_Rpc (-32004) "principal binding violation: mTLS container SAN does not match the persona's container binding")
        | Ok None => Ok tt
        end
  end.

(** [Map::insert] *)
Definition json_insert (k : string) (v : Json) (m : list (string * Json)) : list (string * Json) :=
  List.filter (λ kv, negb (bool_decide (kv.1 = k))) m ++ [(k, v)].

Definition overlay_source (ctx : RequestContext) (enrolled : option EnrolledPrincipal) : option (string * option string) :=
  match enrolled with
  | Some en => Some (ep_persona_id en, Some (ep_grant_id en))
  | None => (λ m, (mp_persona_id m, None)) <$> mtls_principal ctx
  end.

Definition overlay_keys : list string := ["caller_persona"; "caller_persona_id"; "persona"; "persona_id"; "id"].

Definition overlay_params (src : option (string * option string)) (params : Json) : Json :=
  match src, params with
  | Some (persona_id, grant_id), JObject m =>
      let m := foldl (λ m k, json_insert k (JString persona_id) m) m overlay_keys in
      JObject (match grant_id with Some g => json_insert "caller_grant_id" (JString g) m | None => m end)
  | _, _ => params
  end.

(** ** Gates *)

Record VerifiedPresenceProof := mkVerified {
  vp_presence_authenticator_id : string; vp_presence_public_key : string; vp_op_id : string; vp_nonce : string;
  vp_signature : string; vp_daemon_fingerprint : string; vp_params_digest : string }.

(** A request that passed: its parameters and principal after the overlay, the proof that was verified, the scope it is
    authorized with, and whether its key was installed for it. *)
Record Admission := mkAdmission {
  ad_method : string; ad_params : Json; ad_principal : option string; ad_proof : option VerifiedPresenceProof;
  ad_scope : option string; ad_transient : bool }.

(** The derived deserializer, from an object or a sequence. *)
Definition wire_proof_from_value (v : Json) : option WirePresenceProof :=
  match v with
  | JObject _ =>
      match get_str "op_id" v, get_str "nonce" v, get_str "signature" v with
      | Some o, Some n, Some s => Some (mkWireProof o n s)
      | _, _, _ => None
      end
  | JArray [JString o; JString n; JString s] => Some (mkWireProof o n s)
  | _ => None
  end.

Definition nonempty_str (k : string) (params : Json) : option string :=
  match get_str k params with Some s => if str_is_empty s then None else Some s | None => None end.

Definition attachment_endpoint_from_params (params : Json) : option (string * string) :=
  match nonempty_str "attachment_id" params, nonempty_str "attachment_endpoint_token" params with
  | Some a, Some t => Some (a, t)
  | _, _ => None
  end.

Section Gates.
Context {J : JcsOps} {A : AuditOps} {X : HexOps} {D : DeviceSignatures} {S : DaemonSigner}.

Definition locked_error (msg : string) : DispatchError := DE_Rpc (-32030) msg.

Definition enforce_presence_proof_with_audit (e : DispatchEnv) (method : string) (params : Json) (st : GateState)
  : result VerifiedPresenceProof DispatchError * GateState :=
  match jget "_presence_proof" params with
  | None => (Err (locked_error ("operation '" +:+ method +:+ "' requires a presence-Device signature")), st)
  | Some v =>
      match wire_proof_from_value v, dv_identity e, presence_params_digest params with
      | None, _, _ => (Err (DE_Rpc (-32602) ("malformed _presence_proof for '" +:+ method +:+ "'")), st)
      | _, None, _ => (Err (DE_Rpc (-32000) "presence chokepoint: daemon identity not initialized"), st)
      | _, _, Err m => (Err (locked_error ("presence chokepoint: cannot canonicalize params for '" +:+ method +:+ "': " +:+ m)), st)
      | Some proof, Some daemon_fingerprint, Ok params_digest =>
          match consume_presence_nonce (dv_faults e) (dv_epoch e) (wp_nonce proof) (wp_op_id proof) daemon_fingerprint method
                  params_digest (gs_challenges st) with
          | (Err _, c) => (Err (locked_error ("presence proof for '" +:+ method +:+ "' rejected: nonce unknown, expired, already used, or not bound to this op (method/params)")),
                           set_challenges c st)
          | (Ok _, c) =>
              let st := set_challenges c st in
              if negb (dv_data_dir e)
              then (Err (locked_error "presence chokepoint: no data_dir; cannot load enrolled presence-Device keys"), st)
              else
                match dv_devices e with
                | Err m => (Err (DE_Rpc (-32000) ("presence chokepoint: open identity store: " +:+ m)), st)
                | Ok devices =>
                    if bool_decide (devices = [])
                    then (Err (locked_error "presence chokepoint: no enrolled presence Device under the operator root"), st)
                    else
                      match wire_proof_matching_device method daemon_fingerprint params_digest devices proof with
                      | None => (Err (locked_error ("presence signature for '" +:+ method +:+ "' did not verify against any enrolled Device")), st)
                      | Some (device_id, key) =>
                          (Ok (mkVerified device_id key (wp_op_id proof) (wp_nonce proof) (wp_signature proof) daemon_fingerprint
                                 params_digest), st)
                      end
                end
          end
      end
  end.

Definition enforce_presence_chokepoint_with_audit (e : DispatchEnv) (method : string) (params : Json) (st : GateState)
  : result (option VerifiedPresenceProof) DispatchError * GateState :=
  if negb (presence_chokepoint_applies method) then (Ok None, st)
  else match enforce_presence_proof_with_audit e method params st with
       | (Ok p, st) => (Ok (Some p), st)
       | (Err err, st) => (Err err, st)
       end.

Definition parse_scope_kek_hex (params : Json) (field : string) : result bytes DispatchError :=
  match get_str field params with
  | None => Err (DE_Rpc (-32602) ("'" +:+ field +:+ "' (64-hex 32-byte scope KEK) is required"))
  | Some h =>
      match hex_decode h with
      | Err m => Err (DE_Rpc (-32602) ("'" +:+ field +:+ "': invalid hex: " +:+ m))
      | Ok b =>
          if (length b =? 32)%nat then Ok b
          else Err (DE_Rpc (-32602) ("'" +:+ field +:+ "': scope KEK must be 32 bytes (64 hex chars)"))
      end
  end.

(** Opening the vault with a key of the presence scope: the session is marked before the key is tried on the wrapped headless key. *)
Definition open_with_key_store_and_presence (e : DispatchEnv) (mark : bool) (kek : bytes) (p : Presence)
  : result bytes string * Presence :=
  match dv_vault_params e with
  | Err m => (Err m, p)
  | Ok _ =>
      let p := if mark then mark_unlocked (dv_instant e) p else p in
      match dv_headless e kek with
      | Err m => (Err m, p)
      | Ok _ => (Ok kek, p)
      end
  end.

Definition install_presence_scope_kek_vault_inner (e : DispatchEnv) (kek : bytes) (leave_locked : bool) (p : Presence)
  : result unit string * Presence :=
  if negb (dv_vault_config e)
  then (Err "vault_se_unlock: interactive unlock config not registered; cannot install §4 vault", p)
  else match open_with_key_store_and_presence e (negb leave_locked) kek p with
       | (Err m, p) => (Err ("vault_se_unlock: failed to open §4 scope-KEK vault: " +:+ m), p)
       | (Ok k, p) => (Ok tt, set_live (Some k) p)
       end.

(** Scopes of sessions that are open: only [broker_resolve] and [broker_exec]. *)
Definition session_runtime_scope_from_open_session (e : DispatchEnv) (method : string) (params : Json) (ctx : RequestContext)
  : option string :=
  if negb (bool_decide (method ∈ ["broker_resolve"; "broker_exec"])) then None
  else
    match rc_sessions_dir ctx, nonempty_str "session_id" params,
          nonempty_str (if bool_decide (method = "broker_resolve") then "persona_id" else "caller_persona") params with
    | Some sessions_dir, Some session_id, Some requested_persona =>
        match attachment_endpoint_from_params params with
        | Some (attachment_id, endpoint_token) =>
            match resolve_attachment_endpoint sessions_dir attachment_id endpoint_token (dv_disk e) with
            | Ok (Some (meta, endpoint)) =>
                if negb (bool_decide (sm_session_id meta = session_id)) then None
                else if negb (bool_decide (sm_persona meta = requested_persona)) then None
                else if is_active endpoint || is_rebinding endpoint then Some PRESENCE_SCOPE_CLASS_SESSION_RUNTIME
                else None
            | _ => None
            end
        | None =>
            match session_read sessions_dir session_id (dv_disk e) with
            | Ok (Some meta) =>
                if negb (bool_decide (sm_persona meta = requested_persona)) then None
                else
                  match mtls_principal ctx with
                  | Some mtls =>
                      if negb (bool_decide (mp_persona_id mtls = requested_persona)) then None
                      else if negb (bool_decide (mp_container_id mtls = session_id)) then None
                      else Some PRESENCE_SCOPE_CLASS_SESSION_RUNTIME
                  | None =>
                      match rc_peer_cred_principal ctx with
                      | None => None
                      | Some principal =>
                          if pr_pid principal <=? 0 then None
                          else if dv_descends e (pr_pid principal) (sm_launcher_pid meta)
                          then Some PRESENCE_SCOPE_CLASS_SESSION_RUNTIME else None
                      end
                  end
            | _ => None
            end
        end
    | _, _, _ => None
    end.

Definition AuthError_reason (err : AuthError) : string :=
  match err with
  | Expired => "expired" | UidMismatch => "uid-mismatch" | SignatureInvalid => "sig-invalid" | ScopeMismatch => "scope-mismatch"
  end.

(** The scope a method of the operator's lane is authorized with. *)
Definition authorized_scope (e : DispatchEnv) (ctx : RequestContext) (method : string) (params : Json) (transient : bool)
  (st : GateState) : result string DispatchError :=
  match rc_presence_token ctx with
  | Some token =>
      match rc_peer ctx, dv_identity e with
      | None, _ => Err (DE_Authority "missing")
      | _, None => Err (DE_Authority "identity-missing")
      | Some peer, Some _ =>
          match token_validate (dv_system e) token (pe_uid peer) with
          | Err err => Err (DE_Authority (AuthError_reason err))
          | Ok _ => Ok (pt_scope token)
          end
      end
  | None =>
      if transient then Ok "*"
      else
        match session_runtime_scope_from_open_session e method params ctx with
        | Some scope => Ok scope
        | None =>
            match rc_source ctx with
            | Bridge _ => Err (DE_Authority "missing")
            | _ =>
                if negb (presence_snapshot (dv_instant e) (gs_presence st)).1 then Err (DE_Authority "locked")
                else if negb (bool_decide (method = "register_session"))
                        && presence_scope_allows_method PRESENCE_SCOPE_CLASS_SESSION_RUNTIME method
                then Err (DE_Authority "missing")
                else Ok "*"
            end
        end
  end.

(** The operator's lane; other methods have no scope. *)
Definition operator_gate (e : DispatchEnv) (ctx : RequestContext) (method : string) (params : Json) (transient : bool)
  (st : GateState) : result (option string) DispatchError * GateState :=
  if negb (is_internal (rc_source ctx)) && bool_decide (authority_class_for_method method = Some OperatorPresence)
     && negb (operator_presence_token_optional_method method)
  then
    match authorized_scope e ctx method params transient st with
    | Err err => (Err err, st)
    | Ok scope =>
        if negb (presence_scope_allows_method scope method) then (Err (DE_Authority "scope-mismatch"), st)
        else if transient then (Ok (Some scope), st)
        else if negb (presence_snapshot (dv_instant e) (gs_presence st)).1 then (Err (DE_Authority "locked"), st)
        else (Ok (Some scope), set_presence (record_activity (dv_instant e) (gs_presence st)) st)
    end
  else (Ok None, st).

(** The key installed for one operation, when the session is locked. *)
Definition transient_install (e : DispatchEnv) (ctx : RequestContext) (method : string) (params : Json) (st : GateState)
  : result bool DispatchError * GateState :=
  if negb (is_internal (rc_source ctx)) && widening_transient_kek_applies method
     && bool_decide (is_Some (jget "scope_kek" params))
  then
    if (presence_snapshot (dv_instant e) (gs_presence st)).1 then (Ok false, st)
    else
      match parse_scope_kek_hex params "scope_kek" with
      | Err err => (Err err, st)
      | Ok kek =>
          match install_presence_scope_kek_vault_inner e kek true (gs_presence st) with
          | (Err m, p) => (Err (locked_error ("widening transient-KEK install for '" +:+ method +:+ "': " +:+ m)), set_presence p st)
          | (Ok _, p) => (Ok true, set_presence p st)
          end
      end
  else (Ok false, st).

(** Every call over the bridge leaves a row of the audit log. *)
Definition bridge_audit (e : DispatchEnv) (ctx : RequestContext) (method : string) (st : GateState)
  : result unit DispatchError * GateState :=
  match rc_source ctx with
  | Bridge mtls =>
      let details := of_bytes (json_to_vec (<["method" := FString method]> (<["persona_id" := FString (mp_persona_id mtls)]>
                       (<["container_id" := FString (mp_container_id mtls)]>
                       (<["cert_fingerprint" := FString (hex_encode (mp_cert_fingerprint mtls))]> ∅))))) in
      match append_audit_event_with_chain (dv_audit e) (Some (mp_persona_id mtls)) "bridge.dispatch" None "bridge_call" (Some details)
              (gs_audit st) with
      | (Err _, a) => (Err (DE_Rpc (-32000) "bridge audit: chain append"), set_audit a st)
      | (Ok _, a) => (Ok tt, set_audit a st)
      end
  | _ => (Ok tt, st)
  end.

(** The steps up to the installed key. *)
Definition first_gates (e : DispatchEnv) (ctx : RequestContext) (method : string) (params : Json) (st : GateState)
  : result (Json * option string * option VerifiedPresenceProof * bool) DispatchError * GateState :=
  match resolve_enrolled e ctx with
  | Err err => (Err err, st)
  | Ok enrolled =>
      match check_mtls e ctx enrolled with
      | Err err => (Err err, st)
      | Ok _ =>
          match bridge_audit e ctx method st with
          | (Err err, st) => (Err err, st)
          | (Ok _, st) =>
              if bool_decide (is_Some (mtls_principal ctx)) && bool_decide (method ∈ PLAINTEXT_BEARING_METHODS)
              then (Err (DE_Rpc (-32601) ("policy-denied: method " +:+ str_debug method +:+ " not available on the mTLS bridge lane (use the peercred UDS)")), st)
              else
                let src := overlay_source ctx enrolled in
                let params := overlay_params src params in
                let principal := match rc_principal ctx with Some p => Some p | None => fst <$> src end in
                if al_quarantined (gs_audit st) && negb (quarantine_allowed_method method)
                then (Err (DE_Rpc (-32603) ("daemon quarantined; write-class method `" +:+ method +:+ "` refused")), st)
                else if negb (is_internal (rc_source ctx))
                        && match authority_class_for_method method with Some c => negb (satisfies ctx c) | None => false end
                then (Err (DE_Rpc (-32001) "authority_class_not_met"), st)
                else
                  match (if is_internal (rc_source ctx) then (Ok None, st)
                         else enforce_presence_chokepoint_with_audit e method params st) with
                  | (Err err, st) => (Err err, st)
                  | (Ok proof, st) =>
                      match transient_install e ctx method params st with
                      | (Err err, st) => (Err err, st)
                      | (Ok transient, st) => (Ok (params, principal, proof, transient), st)
                      end
                  end
          end
      end
  end.

(** ** Handlers *)

Definition PRESENCE_NONCE_TTL_SECONDS : Z := 300.

Definition handle_presence_request_nonce (e : DispatchEnv) (ctx : RequestContext) (params : Json) (st : GateState)
  : result (string * bytes) DispatchError * GateState :=
  match nonempty_str "op_id" params, nonempty_str "method" params with
  | None, _ => (Err (DE_Rpc (-32602) "presence/request_nonce: 'op_id' is required"), st)
  | _, None => (Err (DE_Rpc (-32602) "presence/request_nonce: 'method' is required"), st)
  | Some op_id, Some method =>
      if negb (method_accepts_fresh_presence_proof method)
      then (Err (DE_Rpc (-32602) ("presence/request_nonce: '" +:+ method +:+ "' is not a presence-proof method")), st)
      else
        match nonempty_str "params_digest" params, dv_identity e with
        | None, _ => (Err (DE_Rpc (-32602) "presence/request_nonce: 'params_digest' is required"), st)
        | _, None => (Err (DE_Rpc (-32000) "presence/request_nonce: daemon identity not initialized"), st)
        | Some params_digest, Some daemon_fingerprint =>
            match mint_presence_nonce (dv_faults e) (dv_epoch e) (dv_nonce e) op_id daemon_fingerprint method params_digest
                    (pe_uid <$> rc_peer ctx) PRESENCE_NONCE_TTL_SECONDS (gs_challenges st) with
            | (Err _, c) => (Err (DE_Rpc (-32000) "presence/request_nonce: mint nonce failed"), set_challenges c st)
            | (Ok (nonce, _), c) =>
                (Ok (nonce, canonical_presence_intent_bytes method op_id nonce daemon_fingerprint params_digest),
                 set_challenges c st)
            end
        end
  end.

Definition handle_se_unlock_complete (e : DispatchEnv) (params : Json) (st : GateState) : result unit DispatchError * GateState :=
  match parse_scope_kek_hex params "scope_kek" with
  | Err err => (Err err, st)
  | Ok kek =>
      match install_presence_scope_kek_vault_inner e kek false (gs_presence st) with
      | (Err m, p) => (Err (locked_error ("vault.se_unlock_complete: install: " +:+ m)), set_presence p st)
      | (Ok _, p) => (Ok tt, set_presence (mark_unlocked (dv_instant e) (arm_non_session_grace_window_at (dv_instant e) p)) st)
      end
  end.

Definition se_unlock_complete_names : list string :=
  ["vault.se_unlock_complete"; "vault/se_unlock_complete"; "vault_se_unlock_complete"].

(** The state after the handler of an admitted request; what other handlers do to this state are the steps of [GateOp]. *)
Definition run_handler (e : DispatchEnv) (ctx : RequestContext) (ad : Admission) (st : GateState) : GateState :=
  if bool_decide (ad_method ad ∈ ["presence/request_nonce"; "presence_request_nonce"])
  then (handle_presence_request_nonce e ctx (ad_params ad) st).2
  else if bool_decide (ad_method ad = "vault_lock") then set_presence (presence_lock (gs_presence st)) st
  else if bool_decide (ad_method ad ∈ se_unlock_complete_names) then (handle_se_unlock_complete e (ad_params ad) st).2
  else st.

(** The guard that takes the key of one operation away. *)
Definition evict (transient : bool) (st : GateState) : GateState :=
  if transient then set_presence (set_live None (gs_presence st)) st else st.

(** The first component is the admission, for a method with a handler. *)
Definition dispatch_method_with_context (e : DispatchEnv) (ctx : RequestContext) (method : string) (params : Json) (st : GateState)
  : result Admission DispatchError * GateState :=
  match first_gates e ctx method params st with
  | (Err err, st) => (Err err, st)
  | (Ok (params, principal, proof, transient), st) =>
      match operator_gate e ctx method params transient st with
      | (Err err, st) => (Err err, evict transient st)
      | (Ok scope, st) =>
          if negb (bool_decide (method ∈ dispatcher_arms)) then (Err (DE_Rpc (-32601) "Method not found"), evict transient st)
          else
            let ad := mkAdmission method params principal proof scope transient in
            (Ok ad, evict transient (run_handler e ctx ad st))
      end
  end.

End Gates.

(** ** Runs *)

(** Requests, what handlers and timers do to the session, and proofs that handlers verify themselves ([OFresh]). [OUnlocked] is a vault
    opened by another ceremony, [OToken] a token handed out by [register_session] or [vault_unlock]. *)
Inductive GateOp :=
| ODispatch (ctx : RequestContext) (method : string) (params : Json)
| OFresh (method : string) (params : Json)
| OToken (peer : option PeerCred) (requested_method : string)
| OActivity
| ORequire (dev_mode : bool) (op : HighRiskOp) (override_quiet_hours : bool)
| OAcquire (session_id : string)
| ORelease (session_id : string)
| OArm
| OTick
| OOsEvent
| OStartup
| OUnlocked (key : bytes).

Inductive GateEvent :=
| EvAdmitted (ctx : RequestContext) (ad : Admission)
| EvFresh (method : string) (params : Json) (proof : VerifiedPresenceProof)
| EvToken (token : PresenceToken).

Section Runs.
Context {J : JcsOps} {A : AuditOps} {X : HexOps} {D : DeviceSignatures} {S : DaemonSigner}.

Definition mint_operator_presence_token (e : DispatchEnv) (peer : option PeerCred) (requested_method : string) (st : GateState)
  : result (option PresenceToken) DispatchError :=
  match peer, dv_identity e with
  | None, _ => Ok None
  | _, None => Err (DE_Rpc (-32000) "daemon identity not initialised — cannot mint operator presence token")
  | Some peer, Some _ =>
      let ttl := Z.max (idle_timeout (pm_config (gs_presence st))) (60 * nanos) in
      match presence_scope_for_unlock_target requested_method with
      | None => Err (DE_Rpc (-32602) ("unknown or unsupported operator-presence unlock target '" +:+ requested_method +:+ "'"))
      | Some scope => Ok (Some (token_mint (pe_uid peer) scope ttl (dv_system e)))
      end
  end.

Definition gate_step (e : DispatchEnv) (o : GateOp) (st : GateState) : list GateEvent * GateState :=
  let now := dv_instant e in
  let p := gs_presence st in
  match o with
  | ODispatch ctx method params =>
      match dispatch_method_with_context e ctx method params st with
      | (Ok ad, st) => ([EvAdmitted ctx ad], st)
      | (Err _, st) => ([], st)
      end
  | OFresh method params =>
      match enforce_presence_proof_with_audit e method params st with
      | (Ok proof, st) => ([EvFresh method params proof], st)
      | (Err _, st) => ([], st)
      end
  | OToken peer requested_method =>
      match mint_operator_presence_token e peer requested_method st with Ok (Some t) => ([EvToken t], st) | _ => ([], st) end
  | OActivity => ([], set_presence (record_activity now p) st)
  | ORequire dev_mode op override =>
      ([], set_presence (require_user_presence_at dev_mode op override now (current_utc_hour (dv_epoch e)) p).2 st)
  | OAcquire s => ([], set_presence (set_pins (acquire_pin_at s now (pm_pins p)).2 p) st)
  | ORelease s => ([], set_presence (set_pins (release_pin_at s now (pm_pins p)).2 p) st)
  | OArm => ([], set_presence (arm_non_session_grace_window_at now p) st)
  | OTick => ([], set_presence (grace_lock_if_due_at now p).2 st)
  | OOsEvent => ([], set_presence (invalidate_for_os_presence_event p) st)
  | OStartup => ([], mkGate (gs_challenges st) (startup_lock p) (startup_verify (dv_audit e) (gs_audit st)))
  | OUnlocked key => ([], set_presence (mark_unlocked now (set_live (Some key) p)) st)
  end.

Fixpoint run_gate (st : GateState) (ops : list (DispatchEnv * GateOp)) : list GateEvent * GateState :=
  match ops with
  | [] => ([], st)
  | (e, o) :: ops => let r := gate_step e o st in let r' := run_gate r.2 ops in (r.1 ++ r'.1, r'.2)
  end.

(** The operation a proof was verified for. *)
Definition proof_of (ev : GateEvent) : option (string * Json * VerifiedPresenceProof) :=
  match ev with
  | EvAdmitted _ ad => (λ p, (ad_method ad, ad_params ad, p)) <$> ad_proof ad
  | EvFresh m params p => Some (m, params, p)
  | EvToken _ => None
  end.

Definition proof_bytes (x : string * Json * VerifiedPresenceProof) : bytes :=
  let '(m, _, p) := x in
  canonical_presence_intent_bytes m (vp_op_id p) (vp_nonce p) (vp_daemon_fingerprint p) (vp_params_digest p).

(** ** Lemmas *)

(** What a verified proof says. *)
Definition proof_backed (e : DispatchEnv) (x : string * Json * VerifiedPresenceProof) : Prop :=
  let '(m, params, p) := x in
  presence_params_digest params = Ok (vp_params_digest p) ∧ dv_identity e = Some (vp_daemon_fingerprint p) ∧
  ∃ devices sig, dv_devices e = Ok devices ∧ (vp_presence_authenticator_id p, vp_presence_public_key p) ∈ devices ∧
    verify_device_signature (vp_presence_public_key p) (proof_bytes x) sig = true.

(** The nonce was in the table and is gone. *)
Definition spends (n : string) (m : string) (d : string) (now : Z) (c c' : Challenges) : Prop :=
  c' !! n = None ∧ ∃ ch, c !! n = Some ch ∧ now <= pc_expires_at ch ∧ pc_method ch = m ∧ pc_params_digest ch = d.

Definition shrinks (c c' : Challenges) : Prop := ∀ n ch, c' !! n = Some ch → c !! n = Some ch.

Lemma shrinks_refl c : shrinks c c.
Proof. by intros n ch. Qed.

Lemma shrinks_trans c1 c2 c3 : shrinks c1 c2 → shrinks c2 c3 → shrinks c1 c3.
Proof. intros H1 H2 n ch Hn. by apply H1, H2. Qed.

Ltac refused :=
  intros [= <- <-]; split_and!; [first [assumption | apply shrinks_refl]|done|done|by intros ? [=]].

Lemma enforce_spec e m params st r st' :
  enforce_presence_proof_with_audit e m params st = (r, st') →
  shrinks (gs_challenges st) (gs_challenges st') ∧ gs_presence st' = gs_presence st ∧ gs_audit st' = gs_audit st ∧
  (∀ p, r = Ok p → proof_backed e (m, params, p) ∧
     spends (vp_nonce p) m (vp_params_digest p) (dv_epoch e) (gs_challenges st) (gs_challenges st')).
Proof.
  unfold enforce_presence_proof_with_audit. destruct (jget _ _) as [v|]; [|refused].
  destruct (wire_proof_from_value v) as [w|]; [|refused]. destruct (dv_identity e) as [fp|] eqn:Ei; [|refused].
  destruct (presence_params_digest params) as [dg|] eqn:Ed; [|refused].
  destruct (consume_presence_nonce _ _ _ _ _ _ _ _) as [[u|] c] eqn:Ec; pose proof (consume_table _ _ _ _ _ _ _ _ _ _ Ec) as [Hs Hc];
    [|refused]. destruct u. destruct (Hc eq_refl) as (Hn & ch & Hl & Hx & _ & _ & Hm & Hd).
  destruct (negb _); [refused|]. destruct (dv_devices e) as [devices|] eqn:Edv; [|refused].
  destruct (bool_decide _); [refused|].
  destruct (wire_proof_matching_device _ _ _ _ _) as [[id key]|] eqn:Ew; [|refused]. intros [= <- <-].
  split_and!; [done|done|done|]. intros p [= <-]. apply find_some in Ew as [Hin Hv]. split.
  - split_and!; [done|done|]. exists devices, (normalized_signature w). split_and!; [done|by apply list_elem_of_In|exact Hv].
  - split; [done|]. exists ch. by split_and!.
Qed.


Lemma chokepoint_spec e m params st r st' :
  enforce_presence_chokepoint_with_audit e m params st = (r, st') →
  shrinks (gs_challenges st) (gs_challenges st') ∧ gs_presence st' = gs_presence st ∧ gs_audit st' = gs_audit st ∧
  (∀ o, r = Ok o → match o with
     | None => presence_chokepoint_applies m = false ∧ st' = st
     | Some p => proof_backed e (m, params, p) ∧
                 spends (vp_nonce p) m (vp_params_digest p) (dv_epoch e) (gs_challenges st) (gs_challenges st')
     end).
Proof.
  unfold enforce_presence_chokepoint_with_audit. destruct (presence_chokepoint_applies m) eqn:Ea; cbn [negb].
  - destruct (enforce_presence_proof_with_audit e m params st) as [[p|err] st1] eqn:E;
      pose proof (enforce_spec _ _ _ _ _ _ E) as (Hs & Hp & Ha & Hok); intros [= <- <-]; (split_and!; [done|done|done|]).
    + intros o [= <-]. by apply Hok.
    + done.
  - intros [= <- <-]. split_and!; [apply shrinks_refl|done|done|]. by intros o [= <-].
Qed.

Lemma bridge_audit_state e ctx m st :
  gs_challenges (bridge_audit e ctx m st).2 = gs_challenges st ∧ gs_presence (bridge_audit e ctx m st).2 = gs_presence st.
Proof. unfold bridge_audit. destruct (rc_source ctx); [done..|]. by destruct (append_audit_event_with_chain _ _ _ _ _ _ _) as [[]]. Qed.

Lemma transient_state e ctx m params st :
  gs_challenges (transient_install e ctx m params st).2 = gs_challenges st ∧ gs_audit (transient_install e ctx m params st).2 = gs_audit st.
Proof.
  unfold transient_install. destruct (_ && _); [|done]. destruct (presence_snapshot _ _).1; [done|].
  destruct (parse_scope_kek_hex _ _); [|done]. by destruct (install_presence_scope_kek_vault_inner _ _ _ _) as [[]].
Qed.

Lemma operator_state e ctx m params t st :
  gs_challenges (operator_gate e ctx m params t st).2 = gs_challenges st ∧ gs_audit (operator_gate e ctx m params t st).2 = gs_audit st.
Proof.
  unfold operator_gate. destruct (_ && _); [|done]. destruct (authorized_scope _ _ _ _ _ _); [|done]. destruct (negb _); [done|].
  destruct t; [done|]. by destruct (negb _).
Qed.

(** What passed the first gates. *)
Record first_passed (e : DispatchEnv) (ctx : RequestContext) (m : string) (params : Json) (st : GateState) (enrolled : option EnrolledPrincipal)
  (params' : Json) (principal : option string) (proof : option VerifiedPresenceProof) (transient : bool) (st' : GateState) : Prop := {
  fp_enrolled : resolve_enrolled e ctx = Ok enrolled;
  fp_mtls : check_mtls e ctx enrolled = Ok tt;
  fp_params : params' = overlay_params (overlay_source ctx enrolled) params;
  fp_audited : ∀ p, rc_source ctx = Bridge p → al_quarantined (gs_audit st) = false ∧ m ∉ PLAINTEXT_BEARING_METHODS;
  fp_quarantine : al_quarantined (gs_audit st) = true → quarantine_allowed_method m = true;
  fp_class : is_internal (rc_source ctx) = false → ∀ c, authority_class_for_method m = Some c → satisfies ctx c = true;
  fp_proof : is_internal (rc_source ctx) = false →
    match proof with
    | None => presence_chokepoint_applies m = false
    | Some p => proof_backed e (m, params', p) ∧
                spends (vp_nonce p) m (vp_params_digest p) (dv_epoch e) (gs_challenges st) (gs_challenges st')
    end;
  fp_internal : is_internal (rc_source ctx) = true → proof = None;
  fp_transient : transient = true → is_Some (jget "scope_kek" params') ∧ widening_transient_kek_applies m = true ∧
    is_internal (rc_source ctx) = false ∧ pm_state (gs_presence st) = Locked;
  fp_state : pm_state (gs_presence st') = pm_state (gs_presence st) ∧ pm_config (gs_presence st') = pm_config (gs_presence st)
}.

Lemma append_quarantine e a act c out d st id st' :
  append_audit_event_with_chain e a act c out d st = (Ok id, st') → al_quarantined st = false ∧ al_quarantined st' = false.
Proof.
  unfold append_audit_event_with_chain, append_audit_event_with_chain_in_tx. destruct (al_quarantined st) eqn:Eq; [done|].
  intros [_ ->]%insert_Ok. cbn. by rewrite Eq.
Qed.

Lemma bridge_audit_Ok e ctx m st st' :
  bridge_audit e ctx m st = (Ok tt, st') →
  al_quarantined (gs_audit st') = al_quarantined (gs_audit st) ∧ (∀ p, rc_source ctx = Bridge p → al_quarantined (gs_audit st) = false).
Proof.
  unfold bridge_audit. destruct (rc_source ctx) as [| |p] eqn:Es; [by intros [= <-]..|].
  destruct (append_audit_event_with_chain _ _ _ _ _ _ _) as [[id|] a] eqn:E; [|done]. intros [= <-].
  apply append_quarantine in E as [H1 H2]. cbn. rewrite H1, H2. by split_and!.
Qed.

Lemma install_state e kek p :
  pm_state (install_presence_scope_kek_vault_inner e kek true p).2 = pm_state p ∧
  pm_config (install_presence_scope_kek_vault_inner e kek true p).2 = pm_config p.
Proof.
  unfold install_presence_scope_kek_vault_inner, open_with_key_store_and_presence. destruct (negb _); [done|].
  destruct (dv_vault_params e); [|done]. cbn. by destruct (dv_headless e kek).
Qed.

Lemma transient_Ok e ctx m params st t st' :
  transient_install e ctx m params st = (Ok t, st') →
  (t = true → is_Some (jget "scope_kek" params) ∧ widening_transient_kek_applies m = true ∧ is_internal (rc_source ctx) = false ∧
     pm_state (gs_presence st) = Locked) ∧
  pm_state (gs_presence st') = pm_state (gs_presence st) ∧ pm_config (gs_presence st') = pm_config (gs_presence st).
Proof.
  unfold transient_install.
  destruct (negb (is_internal (rc_source ctx)) && widening_transient_kek_applies m && bool_decide (is_Some (jget "scope_kek" params))) eqn:E;
    [|by intros [= <- <-]].
  destruct (presence_snapshot _ _).1 eqn:Ep; [by intros [= <- <-]|]. destruct (parse_scope_kek_hex _ _) as [kek|]; [|done].
  pose proof (install_state e kek (gs_presence st)) as [H1 H2].
  destruct (install_presence_scope_kek_vault_inner _ _ _ _) as [[u|] p]; [|done]. intros [= <- <-]. cbn in *. split; [|done].
  intros _. apply andb_true_iff in E as [[E1%negb_true_iff E2]%andb_true_iff E3%bool_decide_eq_true]. split_and!; try done.
  revert Ep. unfold presence_snapshot. by destruct (pm_state (gs_presence st)).
Qed.

Ltac refuses := intros [= <- <-]; split; [first [assumption | apply shrinks_refl]|by intros ? ? ? ? [=]].

Lemma first_gates_spec e ctx m params st r st' :
  first_gates e ctx m params st = (r, st') →
  shrinks (gs_challenges st) (gs_challenges st') ∧
  (∀ params' principal proof transient, r = Ok (params', principal, proof, transient) →
     ∃ enrolled, first_passed e ctx m params st enrolled params' principal proof transient st').
Proof.
  unfold first_gates. destruct (resolve_enrolled e ctx) as [en|] eqn:Een; [|refuses].
  destruct (check_mtls e ctx en) as [[]|] eqn:Emt; [|refuses].
  pose proof (bridge_audit_state e ctx m st) as [Hb1 Hb2].
  destruct (bridge_audit e ctx m st) as [[[]|] st1] eqn:Eb; cbn [snd] in *; [|rewrite <-Hb1; refuses].
  apply bridge_audit_Ok in Eb as [Hq1 Hq2].
  destruct (bool_decide _ && bool_decide _) eqn:Epl; [rewrite <-Hb1; refuses|].
  set (params1 := overlay_params _ params). set (principal1 := match rc_principal ctx with Some _ => _ | None => _ end).
  destruct (_ && negb (quarantine_allowed_method m)) eqn:Eq; [rewrite <-Hb1; refuses|].
  destruct (negb (is_internal (rc_source ctx)) && _) eqn:Ecl; [rewrite <-Hb1; refuses|].
  destruct (if is_internal (rc_source ctx) then _ else _) as [r2 st2] eqn:Ech.
  assert (shrinks (gs_challenges st) (gs_challenges st2) ∧ gs_presence st2 = gs_presence st ∧
    (∀ o, r2 = Ok o → (is_internal (rc_source ctx) = true → o = None) ∧ (is_internal (rc_source ctx) = false →
       match o with
       | None => presence_chokepoint_applies m = false
       | Some p => proof_backed e (m, params1, p) ∧
                   spends (vp_nonce p) m (vp_params_digest p) (dv_epoch e) (gs_challenges st) (gs_challenges st2)
       end))) as (Hs2 & Hp2 & Ho2).
  { destruct (is_internal (rc_source ctx)).
    - injection Ech as <- <-. rewrite Hb1. split_and!; [apply shrinks_refl|done|]. by intros o [= <-].
    - apply chokepoint_spec in Ech as (H1 & H2 & _ & H3). rewrite Hb1 in H1, H3. rewrite Hb2 in H2. split_and!; [done|done|].
      intros o Ho. split; [done|]. intros _. specialize (H3 o Ho). by destruct o as [p|]; [|destruct H3]. }
  destruct r2 as [proof|]; [|refuses]. destruct (Ho2 proof eq_refl) as [Hint Hpr].
  pose proof (transient_state e ctx m params1 st2) as [Ht1 _].
  destruct (transient_install e ctx m params1 st2) as [[t|] st3] eqn:Et; cbn [snd] in *; intros [= <- <-]; rewrite Ht1; (split; [done|]); [|done].
  intros params' principal proof' transient [= <- <- <- <-]. exists en. apply transient_Ok in Et as (Ht & Hst & Hcf). rewrite Hp2 in Ht, Hst, Hcf.
  constructor; try done.
  - intros p Hp. split; [by eapply Hq2|]. unfold mtls_principal in Epl. rewrite Hp in Epl. cbn in Epl. by apply bool_decide_eq_false in Epl.
  - intros Hq. rewrite Hq1, Hq in Eq. cbn in Eq. by apply negb_false_iff in Eq.
  - intros Hi c Hc. rewrite Hi, Hc in Ecl. cbn in Ecl. by apply negb_false_iff in Ecl.
  - intros Hi. specialize (Hpr Hi). destruct proof as [p|]; [|done]. by rewrite Ht1.
Qed.

(** The nonce of this step was drawn by the admitted request, for the method and the digest it names, for five minutes. *)
Definition drew (e : DispatchEnv) (ad : Admission) (n : string) (ch : Challenge) : Prop :=
  ad_method ad ∈ ["presence/request_nonce"; "presence_request_nonce"] ∧ n = dv_nonce e ∧
  get_str "method" (ad_params ad) = Some (pc_method ch) ∧ get_str "params_digest" (ad_params ad) = Some (pc_params_digest ch) ∧
  pc_expires_at ch = dv_epoch e + PRESENCE_NONCE_TTL_SECONDS.

Lemma nonempty_str_Some k params s : nonempty_str k params = Some s → get_str k params = Some s ∧ s ≠ "".
Proof.
  unfold nonempty_str, str_is_empty. destruct (get_str k params) as [x|]; [|done]. case_bool_decide; [done|]. by intros [= <-].
Qed.

Lemma handler_challenges e ctx ad st n ch :
  gs_challenges (run_handler e ctx ad st) !! n = Some ch → gs_challenges st !! n = Some ch ∨ drew e ad n ch.
Proof.
  unfold run_handler. case_bool_decide as Hm.
  - unfold handle_presence_request_nonce. destruct (nonempty_str "op_id" _); [|by left].
    destruct (nonempty_str "method" _) as [m|] eqn:Em; [|by left]. apply nonempty_str_Some in Em as [Em _].
    destruct (negb _); [by left|]. destruct (nonempty_str "params_digest" _) as [d|] eqn:Ed; [|by left].
    apply nonempty_str_Some in Ed as [Ed _]. destruct (dv_identity e); [|by left].
    destruct (mint_presence_nonce _ _ _ _ _ _ _ _ _ _) as [[[]|] c] eqn:E; apply mint_table in E as [E _]; cbn;
      intros [?|(-> & _ & ->)]%E; [by left|by right|by left|by right].
  - destruct (bool_decide _); [by left|]. destruct (bool_decide _); [|by left]. unfold handle_se_unlock_complete.
    destruct (parse_scope_kek_hex _ _); [|by left]. destruct (install_presence_scope_kek_vault_inner _ _ _ _) as [[]]; by left.
Qed.

Lemma evict_challenges t st : gs_challenges (evict t st) = gs_challenges st.
Proof. by destruct t. Qed.

(** What an admitted request passed. *)
Lemma dispatch_Ok e ctx m params st ad st' :
  dispatch_method_with_context e ctx m params st = (Ok ad, st') →
  ∃ enrolled st1 st2, first_passed e ctx m params st enrolled (ad_params ad) (ad_principal ad) (ad_proof ad) (ad_transient ad) st1 ∧
    operator_gate e ctx m (ad_params ad) (ad_transient ad) st1 = (Ok (ad_scope ad), st2) ∧ m ∈ dispatcher_arms ∧ ad_method ad = m ∧
    st' = evict (ad_transient ad) (run_handler e ctx ad st2).
Proof.
  unfold dispatch_method_with_context. destruct (first_gates e ctx m params st) as [[[[[params' principal] proof] t]|] st1] eqn:E; [|done].
  apply first_gates_spec in E as [_ Hf]. destruct (Hf _ _ _ _ eq_refl) as [en Hen].
  destruct (operator_gate e ctx m params' t st1) as [[scope|] st2] eqn:Eo; [|done]. case_bool_decide as Ha; cbn [negb]; [|done].
  intros [= <- <-]. by exists en, st1, st2.
Qed.

Lemma dispatch_challenges e ctx m params st r st' n ch :
  dispatch_method_with_context e ctx m params st = (r, st') → gs_challenges st' !! n = Some ch →
  gs_challenges st !! n = Some ch ∨ ∃ ad, r = Ok ad ∧ drew e ad n ch.
Proof.
  unfold dispatch_method_with_context. destruct (first_gates e ctx m params st) as [[[[[params' principal] proof] t]|] st1] eqn:E;
    apply first_gates_spec in E as [Hs _]; [|intros [= <- <-] Hn; left; by apply Hs].
  pose proof (operator_state e ctx m params' t st1) as [Ho _].
  destruct (operator_gate e ctx m params' t st1) as [[scope|] st2]; cbn [snd] in Ho.
  - case_bool_decide; cbn [negb]; intros [= <- <-]; rewrite evict_challenges.
    + intros [Hn|Hn]%handler_challenges; [left; apply Hs; by rewrite <-Ho|right; by eexists].
    + rewrite Ho. intros Hn. left. by apply Hs.
  - intros [= <- <-]. rewrite evict_challenges, Ho. intros Hn. left. by apply Hs.
Qed.

(** *** Nonces of a run *)

(** The nonces the steps may draw. *)
Definition drawn (ops : list (DispatchEnv * GateOp)) : list string := (λ eo, dv_nonce eo.1) <$> ops.

Definition nonce_of (x : string * Json * VerifiedPresenceProof) : string := vp_nonce x.2.

(** A proof of one step: verified against the environment of the step, its nonce in the table before it, for this method and this digest
    and not expired, and, unless drawn again by the step, not after it. *)
Definition step_proof (e : DispatchEnv) (st st' : GateState) (x : string * Json * VerifiedPresenceProof) : Prop :=
  proof_backed e x ∧
  (∃ ch, gs_challenges st !! nonce_of x = Some ch ∧ dv_epoch e <= pc_expires_at ch ∧ pc_method ch = x.1.1 ∧
     pc_params_digest ch = vp_params_digest x.2) ∧
  (nonce_of x = dv_nonce e ∨ gs_challenges st' !! nonce_of x = None).

Lemma dispatch_proof e ctx m params st ad st' p :
  dispatch_method_with_context e ctx m params st = (Ok ad, st') → ad_proof ad = Some p →
  step_proof e st st' (ad_method ad, ad_params ad, p).
Proof.
  intros Hd Hp. pose proof (dispatch_Ok _ _ _ _ _ _ _ Hd) as (en & st1 & st2 & Hf & Ho & Ha & -> & ->).
  assert (is_internal (rc_source ctx) = false) as Hi.
  { destruct (is_internal (rc_source ctx)) eqn:Hi; [|done]. by rewrite (fp_internal _ _ _ _ _ _ _ _ _ _ _ Hf Hi) in Hp. }
  pose proof (fp_proof _ _ _ _ _ _ _ _ _ _ _ Hf Hi) as Hpr. rewrite Hp in Hpr. destruct Hpr as [Hb (Hn & ch & Hc & Hx & Hm' & Hd')].
  split_and!; [done|by exists ch|]. unfold nonce_of. cbn. rewrite evict_challenges.
  pose proof (operator_state e ctx m (ad_params ad) (ad_transient ad) st1) as [Hos _]. rewrite Ho in Hos. cbn in Hos.
  destruct (gs_challenges (run_handler e ctx ad st2) !! vp_nonce p) as [ch'|] eqn:E; [|by right].
  apply handler_challenges in E as [E|(_ & E & _)]; [|by left]. rewrite Hos in E. congruence.
Qed.

Lemma step_proofs e o st x :
  x ∈ omap proof_of (gate_step e o st).1 → omap proof_of (gate_step e o st).1 = [x] ∧ step_proof e st (gate_step e o st).2 x.
Proof.
  destruct o; cbn [gate_step]; try (cbn; by intros []%elem_of_nil).
  - destruct (dispatch_method_with_context e ctx method params st) as [[ad|] st'] eqn:Hd; [|cbn; by intros []%elem_of_nil].
    cbn. destruct (ad_proof ad) as [p|] eqn:Hp; cbn; [|by intros []%elem_of_nil]. intros ->%list_elem_of_singleton.
    split; [done|]. by eapply dispatch_proof.
  - destruct (enforce_presence_proof_with_audit e method params st) as [[p|] st'] eqn:He; cbn; [|by intros []%elem_of_nil].
    intros ->%list_elem_of_singleton. split; [done|]. apply enforce_spec in He as (_ & _ & _ & Hok).
    destruct (Hok p eq_refl) as [Hb (Hn & ch & Hc & Hx & Hm' & Hd')]. split_and!; [done|by exists ch|by right].
  - destruct (mint_operator_presence_token e peer requested_method st) as [[t|]|]; cbn; by intros []%elem_of_nil.
Qed.

Lemma step_challenges e o st n ch :
  gs_challenges (gate_step e o st).2 !! n = Some ch →
  gs_challenges st !! n = Some ch ∨ ∃ ctx ad, EvAdmitted ctx ad ∈ (gate_step e o st).1 ∧ drew e ad n ch.
Proof.
  destruct o; cbn [gate_step]; try (cbn; by left).
  - destruct (dispatch_method_with_context e ctx method params st) as [[ad|] st'] eqn:Hd; cbn;
      intros Hn; destruct (dispatch_challenges _ _ _ _ _ _ _ _ _ Hd Hn) as [?|(ad' & [= <-] & ?)]; try (by left).
    right. exists ctx, ad. split; [by left|done].
  - destruct (enforce_presence_proof_with_audit e method params st) as [[p|] st'] eqn:He; apply enforce_spec in He as (Hs & _);
      cbn; intros Hn; left; by apply Hs.
  - destruct (mint_operator_presence_token e peer requested_method st) as [[t|]|]; by left.
Qed.

Lemma step_fresh e o st n ch :
  gs_challenges (gate_step e o st).2 !! n = Some ch → gs_challenges st !! n = Some ch ∨ n = dv_nonce e.
Proof. intros [?|(? & ? & _ & _ & ? & _)]%step_challenges; [by left|by right]. Qed.

(** What is in the table after a run was drawn in a step of it, or was there before. *)
Lemma run_challenges ops st n ch :
  gs_challenges (run_gate st ops).2 !! n = Some ch →
  gs_challenges st !! n = Some ch ∨
  ∃ pre e o post ctx ad, ops = pre ++ (e, o) :: post ∧ EvAdmitted ctx ad ∈ (gate_step e o (run_gate st pre).2).1 ∧ drew e ad n ch.
Proof.
  revert st. induction ops as [|[e o] ops IH]; intros st; cbn [run_gate snd]; [by left|].
  intros [Hn|(pre & e' & o' & post & ctx & ad & -> & Hev & Hdr)]%IH.
  - apply step_challenges in Hn as [?|(ctx & ad & Hev & Hdr)]; [by left|]. right. by exists [], e, o, ops, ctx, ad.
  - right. by exists ((e, o) :: pre), e', o', post, ctx, ad.
Qed.

(** Every proof of a run was verified in one of its steps, in the state and the environment of that step, and no nonce is used twice. *)
Lemma run_proofs ops st :
  NoDup (drawn ops) → (∀ n, n ∈ drawn ops → gs_challenges st !! n = None) →
  let proofs := omap proof_of (run_gate st ops).1 in
  NoDup (nonce_of <$> proofs) ∧
  (∀ x, x ∈ proofs → (is_Some (gs_challenges st !! nonce_of x) ∨ nonce_of x ∈ drawn ops) ∧
     ∃ pre e o post, ops = pre ++ (e, o) :: post ∧ x ∈ omap proof_of (gate_step e o (run_gate st pre).2).1 ∧
       step_proof e (run_gate st pre).2 (gate_step e o (run_gate st pre).2).2 x).
Proof.
  revert st. induction ops as [|[e o] ops IH]; intros st Hnd Hfresh; cbn [run_gate].
  { cbn. split; [constructor|]. by intros x []%elem_of_nil. }
  cbn [drawn fmap list_fmap fst] in Hnd. apply NoDup_cons in Hnd as [Hne Hnd].
  destruct (IH (gate_step e o st).2) as [IH1 IH2]; [done| |].
  { intros n Hn. destruct (gs_challenges (gate_step e o st).2 !! n) as [ch|] eqn:E; [|done].
    apply step_fresh in E as [E| ->]; [|done]. rewrite Hfresh in E; [done|by right]. }
  cbn [fst]. rewrite omap_app, fmap_app.
  assert (∀ x, x ∈ omap proof_of (gate_step e o st).1 → ∀ y, y ∈ omap proof_of (run_gate (gate_step e o st).2 ops).1 →
    nonce_of x ≠ nonce_of y) as Hsep.
  { intros x Hx y Hy E. apply step_proofs in Hx as (_ & _ & (ch & Hc & _) & Hor).
    assert (nonce_of x ∉ drawn ((e, o) :: ops)) as Hno by (intros Hin; rewrite Hfresh in Hc; done).
    apply not_elem_of_cons in Hno as [Hno1 Hno2]. destruct Hor as [?|Hor]; [done|].
    destruct (IH2 y Hy) as [[[ch' Hc']|Hd] _]; [rewrite <-E in Hc'; congruence|rewrite <-E in Hd; done]. }
  split.
  - apply NoDup_app. split_and!; [|intros n (x & -> & Hx)%list_elem_of_fmap (y & Ey & Hy)%list_elem_of_fmap; by apply (Hsep x Hx y Hy)|done].
    destruct (omap proof_of (gate_step e o st).1) as [|x l] eqn:E; [constructor|].
    assert (x ∈ omap proof_of (gate_step e o st).1) as Hx by (rewrite E; by left).
    apply step_proofs in Hx as [Hx _]. rewrite Hx in E. injection E as <-. cbn. apply NoDup_singleton.
  - intros x [Hx|Hx]%elem_of_app.
    + pose proof (step_proofs _ _ _ _ Hx) as [_ Hst]. split; [left; destruct Hst as (_ & (ch & Hc & _) & _); by eexists|].
      by exists [], e, o, ops.
    + destruct (IH2 x Hx) as [Hn (pre & e' & o' & post & -> & Hin & Hst)]. split; [|by exists ((e, o) :: pre), e', o', post].
      destruct Hn as [[ch Hc]|Hn]; [|right; by right]. apply step_fresh in Hc as [Hc| ->]; [left; by eexists|right; by left].
Qed.

Lemma run_admissions ops st ctx ad :
  EvAdmitted ctx ad ∈ (run_gate st ops).1 →
  ∃ e m params st1 st2, (e, ODispatch ctx m params) ∈ ops ∧ dispatch_method_with_context e ctx m params st1 = (Ok ad, st2).
Proof.
  revert st. induction ops as [|[e o] ops IH]; intros st; cbn [run_gate]; [by intros []%elem_of_nil|]. cbn [fst].
  intros [Hx|Hx]%elem_of_app.
  - assert (∃ m params st2, o = ODispatch ctx m params ∧ dispatch_method_with_context e ctx m params st = (Ok ad, st2)) as (m & params & st2 & -> & Hd).
    { destruct o; cbn [gate_step] in Hx; try (by apply elem_of_nil in Hx).
      - destruct (dispatch_method_with_context e ctx0 method params st) as [[ad'|] st'] eqn:Hd; [|by apply elem_of_nil in Hx].
        apply list_elem_of_singleton in Hx as [= -> ->]. by exists method, params, st'.
      - destruct (enforce_presence_proof_with_audit e method params st) as [[p|] st']; [|by apply elem_of_nil in Hx].
        by apply list_elem_of_singleton in Hx.
      - destruct (mint_operator_presence_token e peer requested_method st) as [[t|]|]; [|by apply elem_of_nil in Hx..].
        by apply list_elem_of_singleton in Hx. }
    exists e, m, params, st, st2. split; [by left|done].
  - apply IH in Hx as (e' & m & params & st1 & st2 & Hin & Hd). exists e', m, params, st1, st2. split; [by right|done].
Qed.

End Runs.

Section Admissions.
Context {J : JcsOps} {A : AuditOps} {X : HexOps} {D : DeviceSignatures} {S : DaemonSigner}.

(** *** The operator's lane *)

(** The methods a scope covers. *)
Definition scope_covers (scope m : string) : Prop :=
  scope = "*" ∨ scope = "class:vault" ∧ m ∈ vault_scope_methods ∨ scope = "class:session-runtime" ∧ m ∈ session_runtime_methods ∨ scope = m.

Lemma presence_scope_covers scope m : presence_scope_allows_method scope m = true → scope_covers scope m.
Proof.
  unfold presence_scope_allows_method, scope_covers. case_bool_decide; [by left|].
  case_bool_decide as E1; [intros ?%bool_decide_eq_true; right; by left|].
  case_bool_decide as E2; [intros ?%bool_decide_eq_true; right; right; by left|]. intros ?%bool_decide_eq_true. by right; right; right.
Qed.

(** A session of [persona] on disk that a request may act in. The request names the session and the persona; either it presents the
    endpoint and token of the attachment of an open session, which is active or rebinding, with that id and that persona, or the
    metadata of the session is there with that persona and the caller is the certificate of the persona and of the container of that
    name, or a process below the launcher of the session. *)
Definition session_admits (e : DispatchEnv) (ctx : RequestContext) (m : string) (params : Json) (persona : string) : Prop :=
  m ∈ ["broker_resolve"; "broker_exec"] ∧ persona ≠ "" ∧
  get_str (if bool_decide (m = "broker_resolve") then "persona_id" else "caller_persona") params = Some persona ∧
  ∃ dir sid, rc_sessions_dir ctx = Some dir ∧ get_str "session_id" params = Some sid ∧ sid ≠ "" ∧
    ((∃ a t meta endpoint, get_str "attachment_id" params = Some a ∧ get_str "attachment_endpoint_token" params = Some t ∧
        a ≠ "" ∧ t ≠ "" ∧ meta ∈ list_open dir (dv_disk e) ∧ matches dir a t (dv_disk e) (meta, endpoint) ∧
        sm_session_id meta = sid ∧ sm_persona meta = persona ∧ ae_state endpoint ∈ ["active"; "rebinding"]) ∨
     (∃ meta, sd_meta (dir_at (dv_disk e) (path_join dir sid)) = FOk meta ∧ sm_persona meta = persona ∧
        match mtls_principal ctx with
        | Some mtls => mp_persona_id mtls = persona ∧ mp_container_id mtls = sid
        | None => ∃ pr, rc_peer_cred_principal ctx = Some pr ∧ 0 < pr_pid pr ∧ dv_descends e (pr_pid pr) (sm_launcher_pid meta) = true
        end)).

Lemma session_scope_spec e m params ctx scope :
  session_runtime_scope_from_open_session e m params ctx = Some scope →
  scope = "class:session-runtime" ∧ ∃ persona, session_admits e ctx m params persona.
Proof.
  unfold session_runtime_scope_from_open_session. case_bool_decide as Hm; cbn [negb]; [|done].
  destruct (rc_sessions_dir ctx) as [dir|] eqn:Hdir; [|done].
  destruct (nonempty_str "session_id" params) as [sid|] eqn:Hsid; [|done]. apply nonempty_str_Some in Hsid as [Hsid Hsid'].
  destruct (nonempty_str _ params) as [persona|] eqn:Hper; [|done]. apply nonempty_str_Some in Hper as [Hper Hper'].
  intros H. unfold attachment_endpoint_from_params in H.
  assert (∀ sc, Some PRESENCE_SCOPE_CLASS_SESSION_RUNTIME = Some sc → sc = "class:session-runtime") as Hsc by (by intros ? [= <-]).
  destruct (nonempty_str "attachment_id" params) as [a|] eqn:Ha; [destruct (nonempty_str "attachment_endpoint_token" params) as [t|] eqn:Ht|].
  { apply nonempty_str_Some in Ha as [Ha Ha'], Ht as [Ht Ht'].
    destruct (resolve_attachment_endpoint dir a t (dv_disk e)) as [[[meta ep]|]|] eqn:Hr; [|done|done].
    apply attachment_resolution in Hr as (l1 & l2 & Hl & Hma & _).
    case_bool_decide as E1; [|done]. case_bool_decide as E2; [|done]. cbn [negb] in H.
    destruct (is_active ep || is_rebinding ep) eqn:Est; [|done]. split; [by apply Hsc|]. exists persona. split_and!; [done..|].
    exists dir, sid. split_and!; [done..|]. left. exists a, t, meta, ep. split_and!; try done.
    - rewrite Hl. apply elem_of_app. right. by left.
    - unfold is_active, is_rebinding in Est. apply orb_true_iff in Est as [E%bool_decide_eq_true|E%bool_decide_eq_true]; rewrite E;
        [by left|right; by left]. }
  all: destruct (session_read dir sid (dv_disk e)) as [[meta|]|] eqn:Hs; [|done|done];
    (assert (sd_meta (dir_at (dv_disk e) (path_join dir sid)) = FOk meta) as Hs'
       by (unfold session_read, read_file, session_dir in Hs; destruct (sd_meta _); congruence));
    (case_bool_decide as E1; [|done]); cbn [negb] in H;
    (assert (scope = "class:session-runtime" ∧
       match mtls_principal ctx with
       | Some mtls => mp_persona_id mtls = persona ∧ mp_container_id mtls = sid
       | None => ∃ pr, rc_peer_cred_principal ctx = Some pr ∧ 0 < pr_pid pr ∧ dv_descends e (pr_pid pr) (sm_launcher_pid meta) = true
       end) as [Hsc' Hwho];
     [destruct (mtls_principal ctx) as [mtls|];
        [case_bool_decide as E2; [|done]; case_bool_decide as E3; [|done]; split; [by apply Hsc|done]
        |destruct (rc_peer_cred_principal ctx) as [pr|]; [|done]; destruct (Z.leb_spec (pr_pid pr) 0); [done|];
         destruct (dv_descends e _ _) eqn:Ed; [|done]; split; [by apply Hsc|by exists pr]]
     |split; [done|]; exists persona; split_and!; [done..|]; exists dir, sid; split_and!; [done..|]; right; by exists meta]).
Qed.

(** Why a method of the operator's lane was given its scope. *)
Definition scope_cause (e : DispatchEnv) (ctx : RequestContext) (m : string) (params : Json) (transient : bool) (st : GateState)
  (scope : string) : Prop :=
  (∃ token peer, rc_presence_token ctx = Some token ∧ rc_peer ctx = Some peer ∧ scope = pt_scope token ∧
     pt_uid token = pe_uid peer ∧ dv_system e < pt_expiry token ∧
     signer_verify (mint_message (pt_uid token) (pt_scope token) (pt_expiry token)) (pt_signature token) = true)
  ∨ rc_presence_token ctx = None ∧
    (transient = true ∧ scope = "*"
     ∨ scope = "class:session-runtime" ∧ (∃ persona, session_admits e ctx m params persona)
     ∨ mtls_principal ctx = None ∧ pm_state (gs_presence st) ≠ Locked ∧ scope = "*" ∧
       (m = "register_session" ∨ m ∉ session_runtime_methods)).

Lemma snapshot_unlocked now p : (presence_snapshot now p).1 = true ↔ pm_state p ≠ Locked.
Proof. unfold presence_snapshot. by destruct (pm_state p). Qed.

Lemma session_runtime_methods_only e m params ctx scope :
  session_runtime_scope_from_open_session e m params ctx = Some scope → m ∈ ["broker_resolve"; "broker_exec"].
Proof. unfold session_runtime_scope_from_open_session. by case_bool_decide. Qed.

Lemma session_scope_allows m :
  presence_scope_allows_method PRESENCE_SCOPE_CLASS_SESSION_RUNTIME m = bool_decide (m ∈ session_runtime_methods).
Proof. done. Qed.

Lemma authorized_cause e ctx m params transient st scope :
  authorized_scope e ctx m params transient st = Ok scope → scope_cause e ctx m params transient st scope.
Proof.
  unfold authorized_scope, scope_cause. destruct (rc_presence_token ctx) as [token|].
  { destruct (rc_peer ctx) as [peer|]; [|done]. destruct (dv_identity e); [|done].
    unfold token_validate. destruct (Z.leb_spec (pt_expiry token) (dv_system e)); [done|].
    destruct (Z.eqb_spec (pt_uid token) (pe_uid peer)); [|done]. cbn [negb]. destruct (signer_verify _ _) eqn:E; [|done]. intros [= <-].
    left. by exists token, peer. }
  intros H. right. split; [done|]. destruct transient; [left; by injection H as <-|right]. revert H.
  destruct (session_runtime_scope_from_open_session e m params ctx) as [sc|] eqn:E.
  { intros [= <-]. left. by apply session_scope_spec in E. }
  unfold mtls_principal. destruct (rc_source ctx); [..|done]; (destruct (presence_snapshot _ _).1 eqn:Es; cbn [negb]; [|done]);
    rewrite session_scope_allows; (destruct (negb _ && _) eqn:Em; [done|]); intros [= <-]; right;
    (split_and!; [done|by apply snapshot_unlocked in Es|done|]);
    apply andb_false_iff in Em as [Em%negb_false_iff%bool_decide_eq_true|Em%bool_decide_eq_false]; first [by left|by right].
Qed.

Lemma operator_gate_Ok e ctx m params transient st o st' :
  operator_gate e ctx m params transient st = (Ok o, st') →
  is_internal (rc_source ctx) = false → authority_class_for_method m = Some OperatorPresence →
  operator_presence_token_optional_method m = false →
  ∃ scope, o = Some scope ∧ authorized_scope e ctx m params transient st = Ok scope ∧ presence_scope_allows_method scope m = true ∧
    (transient = true ∨ pm_state (gs_presence st) ≠ Locked).
Proof.
  unfold operator_gate. intros Ho Hi Hc Ht. rewrite Hi, Ht in Ho. rewrite bool_decide_eq_true_2 in Ho by done. cbn [negb andb] in Ho.
  destruct (authorized_scope e ctx m params transient st) as [scope|]; [|done]. exists scope.
  destruct (presence_scope_allows_method scope m) eqn:Ea; [|done]. cbn [negb] in Ho.
  destruct transient; [injection Ho as <- <-; split_and!; [done|done|done|by left]|].
  destruct (presence_snapshot _ _).1 eqn:Es; [|done]. injection Ho as <- <-. apply snapshot_unlocked in Es.
  split_and!; [done|done|done|by right].
Qed.

(** Keys for one operation come only with operations that need a proof. *)
Lemma transient_needs_proof m : widening_transient_kek_applies m = true → presence_chokepoint_applies m = true.
Proof.
  intros Hm%bool_decide_eq_true. assert (Forall (λ x, presence_chokepoint_applies x = true)
    ["create_persona"; "create_grant"; "create_composite_grant"; "create_standing_grant"; "propose_grant";
     "save_delegation_template"; "resolve_approval"; "approval.resolve"; "approval_resolve"; "approval.narrow";
     "approval_narrow"; "build_init_first_grant_receipt"]) as Hall by (repeat constructor).
  rewrite Forall_forall in Hall. by apply Hall.
Qed.

(** *** The open window *)

(** Methods the open session alone admits. *)
Definition operator_direct (m : string) : bool :=
  bool_decide (authority_class_for_method m = Some OperatorPresence) && negb (operator_presence_token_optional_method m)
  && negb (presence_chokepoint_applies m)
  && (bool_decide (m = "register_session") || negb (bool_decide (m ∈ session_runtime_methods))) && bool_decide (m ∈ dispatcher_arms).

Lemma operator_direct_spec m :
  operator_direct m = true →
  authority_class_for_method m = Some OperatorPresence ∧ operator_presence_token_optional_method m = false ∧
  presence_chokepoint_applies m = false ∧ (m = "register_session" ∨ m ∉ session_runtime_methods) ∧ m ∈ dispatcher_arms.
Proof.
  unfold operator_direct. rewrite !andb_true_iff, orb_true_iff, !negb_true_iff, !bool_decide_eq_true, !bool_decide_eq_false.
  intros ((((? & ?) & ?) & ?) & ?). by split_and!.
Qed.

(** A request without certificate or token that passes identity resolution. *)
Record plain_caller (e : DispatchEnv) (ctx : RequestContext) (st : GateState) (enrolled : option EnrolledPrincipal) : Prop := {
  pc_source : rc_source ctx = Socket;
  pc_enrolled : resolve_enrolled e ctx = Ok enrolled;
  pc_token : rc_presence_token ctx = None;
  pc_healthy : al_quarantined (gs_audit st) = false
}.

(** Without a proof to give, the first gates do nothing to such a request. *)
Lemma plain_first_gates e ctx m params st enrolled :
  plain_caller e ctx st enrolled → (∀ c, authority_class_for_method m = Some c → satisfies ctx c = true) →
  presence_chokepoint_applies m = false → 
  ∃ principal, first_gates e ctx m params st = (Ok (overlay_params (overlay_source ctx enrolled) params, principal, None, false), st).
Proof.
  intros [Hs He Ht Hq] Hc Hp. eexists. unfold first_gates. rewrite He. unfold check_mtls, mtls_principal, bridge_audit. rewrite Hs, Hq. cbn.
  replace (match authority_class_for_method m with Some c => negb (satisfies ctx c) | None => false end) with false
    by (destruct (authority_class_for_method m) as [c|]; [by rewrite Hc|done]).
  unfold enforce_presence_chokepoint_with_audit. rewrite Hp. cbn.
  unfold transient_install. rewrite Hs. cbn. destruct (widening_transient_kek_applies m) eqn:E; [|done].
  apply transient_needs_proof in E. congruence.
Qed.

Lemma run_handler_direct e ctx ad st : authority_class_for_method (ad_method ad) = Some OperatorPresence →
  operator_presence_token_optional_method (ad_method ad) = false → run_handler e ctx ad st = st.
Proof.
  intros Hc Ho. unfold run_handler.
  assert (∀ l : list string, Forall (λ m, authority_class_for_method m ≠ Some OperatorPresence) l → ad_method ad ∉ l) as Hl.
  { intros l Hl Hin. rewrite Forall_forall in Hl. by apply (Hl _ Hin). }
  rewrite bool_decide_eq_false_2 by (apply Hl; repeat constructor; done).
  rewrite bool_decide_eq_false_2 by (intros E; by rewrite E in Ho).
  rewrite bool_decide_eq_false_2; [done|]. apply Hl. repeat constructor; done.
Qed.

Lemma window_admits e ctx m params st enrolled at_ last_ :
  plain_caller e ctx st enrolled → is_Some (rc_peer ctx) → pm_state (gs_presence st) = Unlocked at_ last_ →
  operator_direct m = true →
  ∃ ad, dispatch_method_with_context e ctx m params st =
          (Ok ad, set_presence (record_activity (dv_instant e) (gs_presence st)) st) ∧
        ad_scope ad = Some "*" ∧ ad_params ad = overlay_params (overlay_source ctx enrolled) params.
Proof.
  intros Hpl Hpeer Hst (Hcl & Hopt & Hch & Hrt & Harm)%operator_direct_spec.
  destruct (plain_first_gates e ctx m params st enrolled Hpl) as [principal Hf]; [|done|].
  { intros c Hc. rewrite Hcl in Hc. injection Hc as <-. cbn. by apply bool_decide_eq_true_2. }
  destruct Hpl as [Hs He Ht Hq]. unfold dispatch_method_with_context. rewrite Hf. unfold operator_gate. rewrite Hs, Hopt.
  rewrite (bool_decide_eq_true_2 (authority_class_for_method m = Some OperatorPresence)) by done. cbn [is_internal negb andb].
  assert (authorized_scope e ctx m (overlay_params (overlay_source ctx enrolled) params) false st = Ok "*") as ->.
  { unfold authorized_scope. rewrite Ht.
    destruct (session_runtime_scope_from_open_session _ _ _ _) as [sc|] eqn:E.
    { apply session_runtime_methods_only in E. exfalso.
      assert (m ∈ session_runtime_methods ∧ m ≠ "register_session") as [H1 H2].
      { rewrite !elem_of_cons, elem_of_nil in E. destruct E as [->|[->|[]]]; (split; [|done]); by apply (bool_decide_unpack _). }
      by destruct Hrt. }
    rewrite Hs. replace (presence_snapshot (dv_instant e) (gs_presence st)).1 with true
      by (symmetry; apply snapshot_unlocked; by rewrite Hst). cbn [negb]. rewrite session_scope_allows.
    destruct (negb _ && _) eqn:Em; [|done]. apply andb_true_iff in Em as [E1%negb_true_iff%bool_decide_eq_false E2%bool_decide_eq_true].
    by destruct Hrt. }
  replace (presence_scope_allows_method "*" m) with true by done. cbn [negb].
  replace (presence_snapshot (dv_instant e) (gs_presence st)).1 with true by (symmetry; apply snapshot_unlocked; by rewrite Hst).
  cbn [negb]. rewrite (bool_decide_eq_true_2 (m ∈ dispatcher_arms)) by done. cbn [negb]. rewrite run_handler_direct by done. by eexists.
Qed.

End Admissions.

(** ** Theorems *)

Section Theorems.
Context {J : JcsOps} {A : AuditOps} {X : HexOps} {D : DeviceSignatures} {S : DaemonSigner}.

(** Keys of distinct values stay distinct for any finer key. *)
Lemma NoDup_finer {T K K'} (f : T → K) (g : T → K') (l : list T) :
  (∀ x y, g x = g y → f x = f y) → NoDup (f <$> l) → NoDup (g <$> l).
Proof.
  intros Hfg. induction l as [|x l IH]; [constructor|]. cbn. intros [Hx Hl]%NoDup_cons. apply NoDup_cons. split; [|by apply IH].
  intros (y & E & Hy)%list_elem_of_fmap. apply Hx, list_elem_of_fmap. exists y. split; [by apply Hfg|done].
Qed.

(** The digest fixes every text of the parameters but the fields that are attached after signing, unless two texts collide. *)
Lemma find_filter_keep (f g : string * Json → bool) m :
  (∀ x, f x = true → g x = true) → List.find f (List.filter g m) = List.find f m.
Proof.
  intros Hfg. induction m as [|x m IH]; cbn; [done|]. destruct (f x) eqn:Ef; [rewrite (Hfg x Ef); cbn; by rewrite Ef|].
  destruct (g x); cbn; [by rewrite Ef|done].
Qed.

Lemma strip_envelope_get k params : k ∉ envelope_fields → get_str k (strip_envelope params) = get_str k params.
Proof.
  intros Hk. destruct params as [| | | | |m]; try done. unfold get_str, jget, strip_envelope. rewrite find_filter_keep; [done|].
  intros x ->%bool_decide_eq_true. by rewrite bool_decide_eq_false_2.
Qed.

Lemma params_digest_binds {L : JcsLaws} params params' d :
  presence_params_digest params = Ok d → presence_params_digest params' = Ok d →
  (∀ k, k ∉ envelope_fields → get_str k params = get_str k params') ∨ ∃ a b, a ≠ b ∧ blake3_hex a = blake3_hex b.
Proof.
  unfold presence_params_digest. intros (c & Hc & [= <-])%result_bind_Ok (c' & Hc' & [= E])%result_bind_Ok.
  destruct (decide (c = c')) as [<-|Hne]; [left|right; by exists c, c'].
  intros k Hk. rewrite <-(strip_envelope_get k params), <-(strip_envelope_get k params') by done. by eapply jcs_determines.
Qed.

(** C6. One tap, one operation. Take any sequence of requests, timers and handler steps from an empty table of nonces, where the daemon
    never draws a nonce twice and a device signature exists only for the messages in [taps]. Then every proof the daemon accepts was, in the
    step that accepted it, signed by a device that the identity store listed in that step, over exactly the method, the digest of the
    parameters and the nonce of that operation; the nonce was drawn by an earlier request, for this method and this digest, at most
    five minutes before; parameters with the same digest have the same texts (outside the fields attached after signing) unless the hash
    collides; no two accepted proofs share a signed message, so there are at most as many accepted proofs as taps; and every request from
    outside that was admitted for a method of the chokepoint carries such a proof. *)
Theorem one_tap_one_operation {L : JcsLaws} (taps : list (string * bytes)) (st : GateState) (ops : list (DispatchEnv * GateOp)) :
  gs_challenges st = ∅ → NoDup (drawn ops) →
  (∀ key msg sig, verify_device_signature key msg sig = true → (key, msg) ∈ taps) →
  let trace := (run_gate st ops).1 in
  let proofs := omap proof_of trace in
  (∀ x, x ∈ proofs → (vp_presence_public_key x.2, proof_bytes x) ∈ taps ∧ presence_params_digest x.1.2 = Ok (vp_params_digest x.2) ∧
     (∀ params', presence_params_digest params' = Ok (vp_params_digest x.2) →
        (∀ k, k ∉ envelope_fields → get_str k params' = get_str k x.1.2) ∨ ∃ a b, a ≠ b ∧ blake3_hex a = blake3_hex b) ∧
     ∃ pre e o post devices,
       ops = pre ++ (e, o) :: post ∧ x ∈ omap proof_of (gate_step e o (run_gate st pre).2).1 ∧
       dv_devices e = Ok devices ∧ (vp_presence_authenticator_id x.2, vp_presence_public_key x.2) ∈ devices ∧
       ∃ pre0 e0 o0 post0 ctx0 ad0,
         pre = pre0 ++ (e0, o0) :: post0 ∧ EvAdmitted ctx0 ad0 ∈ (gate_step e0 o0 (run_gate st pre0).2).1 ∧
         ad_method ad0 ∈ ["presence/request_nonce"; "presence_request_nonce"] ∧ vp_nonce x.2 = dv_nonce e0 ∧
         get_str "method" (ad_params ad0) = Some x.1.1 ∧ get_str "params_digest" (ad_params ad0) = Some (vp_params_digest x.2) ∧
         dv_epoch e <= dv_epoch e0 + 300) ∧
  NoDup (proof_bytes <$> proofs) ∧ (length proofs <= length taps)%nat ∧
  (∀ ctx ad, EvAdmitted ctx ad ∈ trace → is_internal (rc_source ctx) = false → presence_chokepoint_applies (ad_method ad) = true →
     is_Some (ad_proof ad)).
Proof.
  intros Hst Hnd Htaps trace proofs. destruct (run_proofs ops st Hnd) as [Hn Hp]; [intros n _; by rewrite Hst|]. fold trace proofs in Hn, Hp.
  assert (∀ x, x ∈ proofs → (vp_presence_public_key x.2, proof_bytes x) ∈ taps) as Htap.
  { intros [[m params] p] Hx. destruct (Hp _ Hx) as [_ (pre & e & o & post & _ & _ & Hb & _)].
    destruct Hb as (_ & _ & devices & sig & _ & _ & Hv). by eapply Htaps. }
  assert (NoDup (proof_bytes <$> proofs)) as Hpb.
  { apply (NoDup_finer nonce_of); [|done]. intros [[m params] p] [[m' params'] p'] (_ & _ & E & _)%intent_bytes_inj. done. }
  split_and!; [|done| |].
  - intros [[m params] p] Hx. split; [by apply Htap|]. destruct (Hp _ Hx) as [_ (pre & e & o & post & -> & Hin & Hb & (ch & Hc & Hexp & Hm & Hdg) & _)].
    destruct Hb as (Hd & _ & devices & sig & Hdev & Hel & _). split; [done|]. split; [intros params' Hd'; by apply (params_digest_binds _ _ _ Hd' Hd)|].
    exists pre, e, o, post, devices. split_and!; [done|done|done|done|].
    apply run_challenges in Hc as [Hc|(pre0 & e0 & o0 & post0 & ctx0 & ad0 & -> & Hev & Hn0 & Hno & Hm0 & Hd0 & Hx0)]; [by rewrite Hst in Hc|].
    exists pre0, e0, o0, post0, ctx0, ad0. rewrite Hm in Hm0. rewrite Hdg in Hd0. rewrite Hx0 in Hexp. by split_and!.
  - transitivity (length (proof_bytes <$> proofs)); [by rewrite length_fmap|]. transitivity (length (snd <$> taps)); [|by rewrite length_fmap].
    apply submseteq_length, NoDup_submseteq; [done|]. intros b (x & -> & Hx)%list_elem_of_fmap.
    pose proof (Htap x Hx) as Ht. apply list_elem_of_fmap. by eexists (_, _).
  - intros ctx ad (e & m & params & st1 & st2 & _ & Hd)%run_admissions Hi Hc.
    pose proof (dispatch_Ok _ _ _ _ _ _ _ Hd) as (en & s1 & s2 & Hf & _ & _ & Hm & _).
    pose proof (fp_proof _ _ _ _ _ _ _ _ _ _ _ Hf Hi) as Hpr. destruct (ad_proof ad) as [p|]; [by eexists|]. rewrite Hm in Hc. congruence.
Qed.

(** C7. The operator's lane. A request from outside that was admitted for a method of the OperatorPresence class (the two that only take
    authority away apart) has a scope that covers the method, and one of four causes: a token that has not expired, of the caller's uid, signed
    under the daemon's key; a key for this one operation, which comes with a proof verified for this method and these parameters; for
    broker_resolve and broker_exec only, a session of the persona it names, which it proves by the token of the session's attachment, as the
    certificate of that persona and container, or as a process of the session's launcher; or the operator's open session, never over the bridge
    and not for the delegated methods. Except for the one-operation key, the operator's session was open; with it, no key is left when the
    request returns and the session stays locked. *)
Theorem operator_lane_admission e ctx m params st ad st' :
  dispatch_method_with_context e ctx m params st = (Ok ad, st') → is_internal (rc_source ctx) = false →
  authority_class_for_method m = Some OperatorPresence → operator_presence_token_optional_method m = false →
  (∃ scope, ad_scope ad = Some scope ∧ scope_covers scope m ∧
     scope_cause e ctx m (ad_params ad) (ad_transient ad) st scope) ∧
  (ad_transient ad = false → pm_state (gs_presence st) ≠ Locked) ∧
  (ad_transient ad = true → pm_live (gs_presence st') = None ∧ pm_state (gs_presence st') = Locked ∧
     ∃ p, ad_proof ad = Some p ∧ proof_backed e (m, ad_params ad, p)).
Proof.
  intros Hd Hi Hc Ht. pose proof (dispatch_Ok _ _ _ _ _ _ _ Hd) as (en & st1 & st2 & Hf & Ho & Ha & Hm & ->).
  destruct (fp_state _ _ _ _ _ _ _ _ _ _ _ Hf) as [Hs _].
  destruct (operator_gate_Ok _ _ _ _ _ _ _ _ Ho Hi Hc Ht) as (scope & Hsc & Hau & Hal & Hop). split_and!.
  - exists scope. split_and!; [done|by apply presence_scope_covers|]. apply authorized_cause in Hau. unfold scope_cause in *. by rewrite <-Hs.
  - intros Etr. rewrite Etr in Hop. destruct Hop as [?|Hop]; [done|]. by rewrite <-Hs.
  - intros Etr. destruct (fp_transient _ _ _ _ _ _ _ _ _ _ _ Hf Etr) as (_ & Hw & _ & Hl). rewrite Etr.
    rewrite run_handler_direct by (by rewrite Hm). cbn. split; [done|]. split.
    + unfold operator_gate in Ho. rewrite Hi, Ht, (bool_decide_eq_true_2 (authority_class_for_method m = Some OperatorPresence)) in Ho by done.
      cbn [negb andb] in Ho. rewrite Hau, Hal, Etr in Ho. cbn [negb] in Ho. injection Ho as _ <-. by rewrite Hs.
    + pose proof (fp_proof _ _ _ _ _ _ _ _ _ _ _ Hf Hi) as Hp. destruct (ad_proof ad) as [p|]; [exists p; by destruct Hp|].
      apply transient_needs_proof in Hw. congruence.
Qed.

(** The overlay decides the persona. *)
Lemma find_app {T} (f : T → bool) (l l' : list T) :
  List.find f (l ++ l') = match List.find f l with Some x => Some x | None => List.find f l' end.
Proof. induction l as [|x l IH]; cbn; [done|]. by destruct (f x). Qed.

Lemma find_filter_ne k k' (m : list (string * Json)) :
  List.find (λ kv, bool_decide (kv.1 = k)) (List.filter (λ kv, negb (bool_decide (kv.1 = k'))) m) =
  if bool_decide (k = k') then None else List.find (λ kv, bool_decide (kv.1 = k)) m.
Proof.
  induction m as [|[q v] m IH]; cbn; [by case_bool_decide|].
  destruct (bool_decide (q = k')) eqn:Eq; cbn [negb List.find fst]; [apply bool_decide_eq_true in Eq|apply bool_decide_eq_false in Eq]; rewrite IH.
  - subst q. destruct (bool_decide (k = k')) eqn:Ek; [done|]. apply bool_decide_eq_false in Ek. by rewrite bool_decide_eq_false_2 by congruence.
  - destruct (bool_decide (q = k)) eqn:Ek; [|done]. apply bool_decide_eq_true in Ek. by rewrite bool_decide_eq_false_2 by congruence.
Qed.

Lemma get_str_insert k k' v m :
  get_str k (JObject (json_insert k' (JString v) m)) = if bool_decide (k = k') then Some v else get_str k (JObject m).
Proof.
  unfold get_str, jget, json_insert. rewrite find_app, find_filter_ne. case_bool_decide as E.
  - subst. cbn. by rewrite bool_decide_eq_true_2.
  - destruct (List.find _ m) as [x|]; [done|]. cbn. by rewrite bool_decide_eq_false_2 by congruence.
Qed.

Lemma overlay_persona pid g m k :
  k ∈ overlay_keys → get_str k (overlay_params (Some (pid, g)) (JObject m)) = Some pid.
Proof.
  intros Hk. unfold overlay_params, overlay_keys. cbn [foldl].
  assert (k ≠ "caller_grant_id") as Hne by (intros ->; revert Hk; by apply (bool_decide_unpack _)).
  assert (get_str k (JObject (json_insert "id" (JString pid) (json_insert "persona_id" (JString pid) (json_insert "persona" (JString pid)
    (json_insert "caller_persona_id" (JString pid) (json_insert "caller_persona" (JString pid) m)))))) = Some pid) as E.
  { rewrite !get_str_insert. repeat (case_bool_decide; [done|]). exfalso. revert Hk. unfold overlay_keys. rewrite !elem_of_cons, elem_of_nil. intuition. }
  destruct g; [|done]. rewrite get_str_insert. by rewrite bool_decide_eq_false_2.
Qed.

(** C21. What a request over the bridge can do. If the daemon admits a request that came with a client certificate, then the log is not
    quarantined, the method is not one that carries plaintext keys, the certificate's persona exists and is bound to no other container than the
    certificate's, and no field of the parameters that names the caller holds anything but the certificate's persona: parameters that are an
    object hold it in every such field, whatever was sent, and others have no fields. Without a token it reaches a method of the operator's lane
    only by a session of that very persona, for broker_resolve and broker_exec, whose attachment token it presents or whose name is the
    certificate's container, or with a key and a proof verified for this one operation: never by the operator's open session. *)
Theorem bridge_confined e ctx m params st ad st' p :
  dispatch_method_with_context e ctx m params st = (Ok ad, st') → rc_source ctx = Bridge p →
  al_quarantined (gs_audit st) = false ∧ m ∉ PLAINTEXT_BEARING_METHODS ∧
  (∃ bound, dv_container e (mp_persona_id p) = Ok bound ∧ (bound = None ∨ bound = Some (mp_container_id p))) ∧
  (∀ k, k ∈ overlay_keys →
     match params with JObject _ => get_str k (ad_params ad) = Some (mp_persona_id p) | _ => jget k (ad_params ad) = None end) ∧
  (authority_class_for_method m = Some OperatorPresence → operator_presence_token_optional_method m = false →
   rc_presence_token ctx = None →
   session_admits e ctx m (ad_params ad) (mp_persona_id p) ∨
   (∃ pr, ad_proof ad = Some pr ∧ proof_backed e (m, ad_params ad, pr))).
Proof.
  intros Hd Hsrc. assert (is_internal (rc_source ctx) = false) as Hi by (by rewrite Hsrc).
  pose proof (dispatch_Ok _ _ _ _ _ _ _ Hd) as (en & st1 & st2 & Hf & Ho & Ha & Hm & ->).
  destruct (fp_audited _ _ _ _ _ _ _ _ _ _ _ Hf p Hsrc) as [Hq Hpl].
  pose proof (fp_mtls _ _ _ _ _ _ _ _ _ _ _ Hf) as Hmt. unfold check_mtls, mtls_principal in Hmt. rewrite Hsrc in Hmt.
  destruct en as [en|]; [done|]. cbn in Hmt.
  assert (∀ k, k ∈ overlay_keys →
     match params with JObject _ => get_str k (ad_params ad) = Some (mp_persona_id p) | _ => jget k (ad_params ad) = None end) as Hov.
  { intros k Hk. rewrite (fp_params _ _ _ _ _ _ _ _ _ _ _ Hf). unfold overlay_source, mtls_principal. rewrite Hsrc.
    cbn [fmap option_fmap option_map]. destruct params; [done..|]. by apply overlay_persona. }
  split_and!; [done|done| |done|].
  - destruct (dv_container e (mp_persona_id p)) as [[b|]|err]; [|by eexists; split; [done|left]|by destruct err].
    case_bool_decide as Eb; [|done]. exists (Some b). split; [done|]. right. by rewrite Eb.
  - intros Hc Ht Htok. destruct (operator_gate_Ok _ _ _ _ _ _ _ _ Ho Hi Hc Ht) as (scope & _ & Hau & _ & _).
    apply authorized_cause in Hau. destruct Hau as [(t & pe & Ht' & _)|[_ [[Etr _]|[[_ [persona Hs]]|(Hmp & _)]]]]; [congruence| | |].
    + right. destruct (fp_transient _ _ _ _ _ _ _ _ _ _ _ Hf Etr) as (_ & Hw%transient_needs_proof & _).
      pose proof (fp_proof _ _ _ _ _ _ _ _ _ _ _ Hf Hi) as Hp. destruct (ad_proof ad) as [pr|]; [exists pr; by destruct Hp|congruence].
    + left. pose proof Hs as (_ & _ & Hg & _). replace (mp_persona_id p) with persona; [done|].
      assert (∀ k, k ∈ overlay_keys → get_str k (ad_params ad) = Some persona → persona = mp_persona_id p) as Hone.
      { intros k Hk Hget. specialize (Hov k Hk). destruct params; [unfold get_str in Hget; rewrite Hov in Hget; done..|]. congruence. }
      case_bool_decide; (eapply Hone, Hg); by apply (bool_decide_unpack _).
    + unfold mtls_principal in Hmp. by rewrite Hsrc in Hmp.
Qed.

(** *** Tokens of a run *)

Definition token_in_range (t : PresenceToken) : Prop :=
  in_u32 (pt_uid t) ∧ str_len (pt_scope t) < 2 ^ 24 ∧ 0 <= pt_expiry t < 2 ^ 64 * nanos.

(** A message that no token has. *)
Definition unlike_token (msg : bytes) : Prop :=
  ∀ t, token_in_range t → msg ≠ mint_message (pt_uid t) (pt_scope t) (pt_expiry t).

(** Text, such as the canonical forms and hexadecimal digests of receipts that the key signs too: its eighth byte is not zero, and that of a
    token is the highest byte of the length of the scope. *)
Lemma text_unlike_token msg a : msg !! 7%nat = Some a → a ≠ Ascii.zero → unlike_token msg.
Proof.
  intros Ha Hz t (_ & Hs & _) ->. apply Hz. unfold mint_message in Ha. cbn [le_bytes app lookup list_lookup] in Ha. injection Ha as <-.
  replace (str_len (pt_scope t) / 256 / 256 / 256) with 0; [done|].
  rewrite !Z.div_div by lia. symmetry. apply Z.div_small. unfold str_len in *. lia.
Qed.

Definition token_of (ev : GateEvent) : option PresenceToken := match ev with EvToken t => Some t | _ => None end.

Lemma run_tokens ops st t :
  t ∈ omap token_of (run_gate st ops).1 →
  ∃ e peer target, (e, OToken (Some peer) target) ∈ ops ∧ pt_uid t = pe_uid peer ∧
    presence_scope_for_unlock_target target = Some (pt_scope t) ∧ dv_system e + 60 * nanos <= pt_expiry t.
Proof.
  revert st. induction ops as [|[e o] ops IH]; intros st; cbn [run_gate]; [by intros []%elem_of_nil|]. cbn [fst]. rewrite omap_app.
  intros [Hx|Hx]%elem_of_app.
  - destruct o; cbn [gate_step] in Hx; try (by apply elem_of_nil in Hx).
    + by destruct (dispatch_method_with_context _ _ _ _ _) as [[]] in Hx; apply elem_of_nil in Hx.
    + by destruct (enforce_presence_proof_with_audit _ _ _ _) as [[]] in Hx; apply elem_of_nil in Hx.
    + unfold mint_operator_presence_token in Hx. destruct peer as [peer|]; [|by apply elem_of_nil in Hx].
      destruct (dv_identity e); [|by apply elem_of_nil in Hx].
      destruct (presence_scope_for_unlock_target requested_method) as [scope|] eqn:Es; [|by apply elem_of_nil in Hx].
      apply list_elem_of_singleton in Hx as ->. exists e, peer, requested_method. split_and!; [by left|done|done|]. cbn. lia.
  - apply IH in Hx as (e' & peer & target & Hin & H). exists e', peer, target. split; [by right|done].
Qed.

(** C22. Tokens come from the daemon. If whatever the daemon's key verifies is the message of a token handed out in the run so far or a message
    unlike any token's (as the receipts it signs are, [text_unlike_token]), and tokens are within their types with scopes shorter than 16 MiB,
    then a request admitted with a token on the operator's lane uses one that the daemon minted in that run: with the same uid, scope and
    expiry, for the caller's uid and for an unlock target whose scope is the token's, so that changing any of the three makes a token useless. It
    has not expired, the scope covers the method, and the operator's session is open unless the request brought the key for this one operation. *)
Theorem token_admission_backed st0 ops e ctx m params ad st' token :
  let st := (run_gate st0 ops).2 in
  let issued := omap token_of (run_gate st0 ops).1 in
  (∀ msg sig, signer_verify msg sig = true →
     (∃ t, t ∈ issued ∧ msg = mint_message (pt_uid t) (pt_scope t) (pt_expiry t)) ∨ unlike_token msg) →
  Forall token_in_range issued → token_in_range token →
  dispatch_method_with_context e ctx m params st = (Ok ad, st') → is_internal (rc_source ctx) = false →
  authority_class_for_method m = Some OperatorPresence → operator_presence_token_optional_method m = false →
  rc_presence_token ctx = Some token →
  ∃ peer t e' pid target, rc_peer ctx = Some peer ∧ t ∈ issued ∧ pt_uid t = pt_uid token ∧ pt_scope t = pt_scope token ∧
    pt_expiry t = pt_expiry token ∧ pt_uid token = pe_uid peer ∧
    (e', OToken (Some (mkPeer (pe_uid peer) pid)) target) ∈ ops ∧ presence_scope_for_unlock_target target = Some (pt_scope token) ∧
    dv_system e' + 60 * nanos <= pt_expiry token ∧ dv_system e < pt_expiry token ∧ scope_covers (pt_scope token) m ∧
    (ad_transient ad = false → pm_state (gs_presence st) ≠ Locked).
Proof.
  intros st issued Huf Hrng Htok Hd Hi Hc Hopt Ht. rewrite Forall_forall in Hrng.
  pose proof (dispatch_Ok _ _ _ _ _ _ _ Hd) as (en & st1 & st2 & Hf & Ho & _).
  destruct (operator_gate_Ok _ _ _ _ _ _ _ _ Ho Hi Hc Hopt) as (scope & _ & Hau & Hal & Hop).
  apply authorized_cause in Hau as [(tok & peer & Ht' & Hpeer & -> & Eu & Hlt & Es)|[Hno _]]; [|congruence].
  rewrite Ht in Ht'. injection Ht' as <-. destruct (Huf _ _ Es) as [(t & Hin & E)|Hun]; [|by destruct (Hun token Htok)].
  destruct (Hrng t Hin) as (H1 & H2 & H3). destruct Htok as (H4 & H5 & H6).
  assert (str_len (pt_scope token) <= u32_max ∧ str_len (pt_scope t) <= u32_max) as [H5' H2'] by (unfold u32_max; lia).
  destruct (mint_message_inj _ _ _ _ _ _ H4 H1 H5' H2' H6 H3 E) as (E1 & E2 & E3).
  pose proof Hin as (e' & [uid pid] & target & Hop' & Hu & Htg & Hex)%run_tokens. cbn in Hu.
  exists peer, t, e', pid, target. split_and!; try done.
  - replace (pe_uid peer) with uid by congruence. done.
  - by rewrite E2.
  - by rewrite E3.
  - by apply presence_scope_covers.
  - intros Etr. destruct (fp_state _ _ _ _ _ _ _ _ _ _ _ Hf) as [Hs _]. rewrite Etr in Hop. destruct Hop as [?|Hop]; [done|]. by rewrite <-Hs.
Qed.

(** *** What the gates let through *)

(** C38. A wrong key opens the session. [vault.se_unlock_complete] needs a connection and nothing else, and opening the vault marks the
    session unlocked before the key has opened anything: with any 32 bytes as the key that do not open the vault the call fails, no key is
    installed, and the session is open nevertheless. After it, a plain caller of the socket is admitted with the unrestricted scope to every
    method of the operator's lane that needs no proof and is not one of those delegated to running sessions (which need a session or a token
    of their own) nor the two that only take authority away: to thirty-nine methods, among them those that revoke grants and personas, read and
    remove secrets, and run commands in sandboxes. *)
Theorem wrong_key_opens_window e ctx m params st kek msg :
  plain_caller e ctx st None → is_Some (rc_peer ctx) → m ∈ se_unlock_complete_names →
  parse_scope_kek_hex params "scope_kek" = Ok kek → dv_vault_config e = true → dv_vault_params e = Ok tt → dv_headless e kek = Err msg →
  let st1 := (dispatch_method_with_context e ctx m params st).2 in
  (∃ err, (handle_se_unlock_complete e params st).1 = Err err) ∧
  pm_state (gs_presence st1) = Unlocked (dv_instant e) (dv_instant e) ∧ pm_live (gs_presence st1) = pm_live (gs_presence st) ∧
  (∀ e' m' params', resolve_enrolled e' ctx = Ok None → operator_direct m' = true →
     ∃ ad, (dispatch_method_with_context e' ctx m' params' st1).1 = Ok ad ∧ ad_scope ad = Some "*") ∧
  length (List.filter operator_direct dispatcher_arms) = 39%nat ∧
  Forall (λ m', operator_direct m' = true) ["revoke_grant"; "revoke_persona"; "vault_get"; "vault_remove"; "sandbox_exec"].
Proof.
  intros Hpl Hpeer Hm Hk Hcf Hvp Hw st1.
  assert (authority_class_for_method m = Some ConnectOnly ∧ presence_chokepoint_applies m = false ∧ m ∈ dispatcher_arms ∧
    m ∉ ["presence/request_nonce"; "presence_request_nonce"] ∧ m ≠ "vault_lock") as (Hc & Hp & Ha & Hn & Hv).
  { unfold se_unlock_complete_names in Hm. rewrite !elem_of_cons, elem_of_nil in Hm. destruct Hm as [->|[->|[->|[]]]];
      (split_and!; [done|done| | |done]); by apply (bool_decide_unpack _). }
  assert (∃ err, handle_se_unlock_complete e params st = (Err err, set_presence (mark_unlocked (dv_instant e) (gs_presence st)) st)) as [err Hh].
  { eexists. unfold handle_se_unlock_complete. rewrite Hk. unfold install_presence_scope_kek_vault_inner, open_with_key_store_and_presence.
    rewrite Hcf, Hvp. cbn. rewrite Hw. done. }
  assert (st1 = set_presence (mark_unlocked (dv_instant e) (gs_presence st)) st) as ->.
  { unfold st1, dispatch_method_with_context. destruct (plain_first_gates e ctx m params st None Hpl) as [principal Hf]; [|done|].
    { intros c Hc'. rewrite Hc in Hc'. injection Hc' as <-. cbn. by apply bool_decide_eq_true_2. }
    rewrite Hf. unfold operator_gate. rewrite (bool_decide_eq_false_2 (_ = Some OperatorPresence)) by congruence. rewrite andb_false_r. cbn [andb].
    rewrite (bool_decide_eq_true_2 (m ∈ dispatcher_arms)) by done. cbn [negb snd evict]. unfold run_handler. cbn [ad_method ad_params].
    rewrite bool_decide_eq_false_2 by done. rewrite bool_decide_eq_false_2 by done. rewrite bool_decide_eq_true_2 by done.
    unfold overlay_source, mtls_principal. rewrite (pc_source _ _ _ _ Hpl). cbn [fmap option_fmap option_map overlay_params]. by rewrite Hh. }
  rewrite Hh. split_and!; [by eexists|done|done| |vm_compute; reflexivity|by repeat constructor]. intros e' m' params' He' Hd'. destruct Hpl as [Hs He Ht Hq].
  destruct (window_admits e' ctx m' params' (set_presence (mark_unlocked (dv_instant e) (gs_presence st)) st) None (dv_instant e) (dv_instant e))
    as (ad & Had & Hsc & _); [by constructor|done|done|done|]. exists ad. by rewrite Had.
Qed.

(** The idle limit never locks a caller of the socket. After any time without activity, at which the gate of a high-risk operation would
    lock the session, a request for a method of the operator's lane is still admitted, and admitting it counts as activity first, so the
    gate its handler then asks allows the operation. *)
Theorem idle_timeout_inert e ctx m params st enrolled at_ last_ op override hour :
  plain_caller e ctx st enrolled → is_Some (rc_peer ctx) → operator_direct m = true →
  pm_state (gs_presence st) = Unlocked at_ last_ → quiet_hours_start (pm_config (gs_presence st)) = None →
  0 < idle_timeout (pm_config (gs_presence st)) <= since (dv_instant e) last_ →
  (∃ reason, (require_user_presence_at false op override (dv_instant e) hour (gs_presence st)).1 = GateLocked reason) ∧
  ∃ ad st', dispatch_method_with_context e ctx m params st = (Ok ad, st') ∧
    (require_user_presence_at false op override (dv_instant e) hour (gs_presence st')).1 = Allowed.
Proof.
  intros Hpl Hpeer Hd Hs Hq [Hpos Hle]. split.
  - eexists. unfold require_user_presence_at. rewrite Hq, Hs. cbn [fst]. rewrite (proj2 (Z.leb_le _ _) Hle). done.
  - destruct (window_admits e ctx m params st enrolled at_ last_) as (ad & Had & _); [done..|]. exists ad. eexists. split; [done|].
    unfold require_user_presence_at, record_activity. rewrite Hs. cbn. rewrite Hq. cbn.
    replace (since (dv_instant e) (dv_instant e)) with 0 by (unfold since; lia). by rewrite (proj2 (Z.leb_gt _ _) Hpos).
Qed.

Definition unclassified_arms : list string := List.filter (λ m, bool_decide (authority_class_for_method m = None)) dispatcher_arms.

Lemma unclassified_count : length unclassified_arms = 25%nat.
Proof. vm_compute. reflexivity. Qed.

Definition named_arms : list string :=
  ["create_agent_persona"; "retire_persona_for_reenroll"; "broker.mint_sub_persona"; "binding.upsert"; "trust.rotate_dev_ir"].

Lemma named_unclassified : forallb (λ x, bool_decide (x ∈ unclassified_arms)) named_arms = true.
Proof. vm_compute. reflexivity. Qed.

Lemma unclassified_unproved : forallb (λ x, negb (presence_chokepoint_applies x)) unclassified_arms = true.
Proof. vm_compute. reflexivity. Qed.

Lemma unclassified_spec m : m ∈ unclassified_arms → m ∈ dispatcher_arms ∧ authority_class_for_method m = None.
Proof. unfold unclassified_arms. rewrite !list_elem_of_In, filter_In, bool_decide_eq_true. done. Qed.

Lemma unclassified_no_proof m : m ∈ unclassified_arms → presence_chokepoint_applies m = false.
Proof.
  rewrite list_elem_of_In. intros Hm. apply negb_true_iff. revert m Hm. apply forallb_forall. exact unclassified_unproved.
Qed.

Lemma named_subseteq : named_arms ⊆ unclassified_arms.
Proof.
  intros x. rewrite (list_elem_of_In named_arms). intros Hx. apply (bool_decide_eq_true (x ∈ unclassified_arms)). revert x Hx.
  apply forallb_forall. exact named_unclassified.
Qed.

(** Methods without a class. Twenty-five methods that the dispatcher implements have no authority class; a caller of the socket, with
    or without peer credentials, with the session locked, reaches their handlers with no proof and no scope. Among them are those that create
    and retire agent personas, rotate the development root and change bindings. *)
Theorem unclassified_arms_ungated e ctx m params st enrolled :
  m ∈ unclassified_arms → plain_caller e ctx st enrolled →
  length unclassified_arms = 25%nat ∧
  named_arms ⊆ unclassified_arms ∧
  ∃ ad, (dispatch_method_with_context e ctx m params st).1 = Ok ad ∧ ad_method ad = m ∧ ad_proof ad = None ∧ ad_scope ad = None.
Proof.
  intros Hm Hpl. split; [apply unclassified_count|]. split; [apply named_subseteq|].
  pose proof (unclassified_no_proof m Hm) as Hp. apply unclassified_spec in Hm as [Ha Hc].
  destruct (plain_first_gates e ctx m params st enrolled Hpl) as [principal Hf]; [by rewrite Hc|done|].
  unfold dispatch_method_with_context. rewrite Hf. unfold operator_gate.
  rewrite (bool_decide_eq_false_2 (_ = Some OperatorPresence)) by congruence. rewrite andb_false_r. cbn [andb].
  rewrite (bool_decide_eq_true_2 (m ∈ dispatcher_arms)) by done. by eexists.
Qed.

End Theorems.

(** ** A concrete daemon *)

Module ToyGate.

#[local] Existing Instances ToyAudit.ops ToyAudit.hex.

(** Text with its characters marked, then objects of text. *)
Fixpoint enc (s : string) (rest : bytes) : bytes :=
  match s with EmptyString => "0"%char :: rest | String a s => "1"%char :: a :: enc s rest end.

Fixpoint enc_object (m : list (string * Json)) : option bytes :=
  match m with
  | [] => Some []
  | (k, JString s) :: m => match enc_object m with Some r => Some (enc k (enc s r)) | None => None end
  | _ => None
  end.

Lemma enc_inj s s' r r' : enc s r = enc s' r' → s = s' ∧ r = r'.
Proof. revert s'. induction s as [|a s IH]; intros [|a' s']; cbn; [by intros [= ->]|done|done|]. intros [= -> [-> ->]%IH]. done. Qed.

Lemma enc_object_inj m m' b : enc_object m = Some b → enc_object m' = Some b → m = m'.
Proof.
  revert m' b. induction m as [|[k v] m IH]; intros [|[k' v'] m'] b; cbn.
  - done.
  - destruct v'; try done. destruct (enc_object m'); [|done]. intros [= <-]. by destruct k'.
  - destruct v; try done. destruct (enc_object m); [|done]. intros [= <-]. by destruct k.
  - destruct v; try done. destruct v'; try done. destruct (enc_object m) as [r|] eqn:E; [|done].
    destruct (enc_object m') as [r'|] eqn:E'; [|done]. intros [= <-] [= [-> [-> ->]%enc_inj]%enc_inj]. by rewrite (IH m' r eq_refl E').
Qed.

#[export] Instance jcs : JcsOps := {|
  canonicalize_jcs v :=
    match v with JObject m => match enc_object m with Some b => Ok b | None => Err "text" end | _ => Err "object" end
|}.

#[export] Instance jcs_laws : JcsLaws.
Proof.
  split.
  - intros m Hm. cbn. assert (∃ b, enc_object m = Some b) as [b ->]; [|by exists b].
    induction Hm as [|[k v] m [s Hs] _ [b IH]]; cbn in *; [by exists []|]. rewrite Hs, IH. by eexists.
  - intros v v' b k. cbn. destruct v as [| | | | |m]; try done. destruct v' as [| | | | |m']; try done.
    destruct (enc_object m) eqn:E; [|done]. destruct (enc_object m') eqn:E'; [|done]. intros [= ->] [= ->].
    by rewrite (enc_object_inj m m' b).
Qed.

(** One tap: adding a secret. *)
Definition secret : list (string * Json) := [("name", JString "k")].
Definition digest : string := match presence_params_digest (JObject secret) with Ok d => d | Err _ => "" end.
Definition tap : bytes := canonical_presence_intent_bytes "vault_add" "op" "n1" "fp" digest.
Definition device : string := "p256:dev".

(** The device signed [tap]. *)
#[export] Instance device_signatures : DeviceSignatures := {|
  ed25519_verify := λ _ _ _, false;
  p256_verify := λ key msg _, bool_decide (key = device) && bool_decide (msg = tap);
  str_debug := λ s, s
|}.

Definition expiry : Z := 900 * nanos.
Definition receipt_digest : bytes := repeat "a"%char 64.

(** The daemon's key signed one token and a receipt. *)
#[export] Instance signer : DaemonSigner := {|
  signer_sign := λ msg, msg;
  signer_verify := λ msg _, bool_decide (msg = mint_message 501 "class:vault" expiry) || bool_decide (msg = receipt_digest)
|}.

Definition meta : SessionMeta := mkSession "c" "p" "g" "t" 7 false None None None None.
Definition disk : Disk := {["/s/c" := mkSessionDir (FOk meta) FAbsent FAbsent FAbsent]}.

(** At instant [t]; [right] is whether the vault opens. *)
Definition at_time (t : Z) (nonce : string) (right : bool) : DispatchEnv :=
  mkEnv t (t * nanos) 0 nonce (mkNonceFaults None None) (Some "fp") true (Ok [("d", device)]) (λ _, None)
    (λ p, if bool_decide (p = "p") then Ok (Some "c") else Err SE_NotFound) disk (λ _ _, false) true (Ok tt)
    (λ _, if right then Ok tt else Err "aead") ToyAudit.e1.

Definition peer : PeerCred := mkPeer 501 None.
Definition socket : RequestContext := mkContext Socket (Some peer) None (Some "/s") None None.
Definition anonymous : RequestContext := mkContext Socket None None None None None.
Definition certificate : MtlsPrincipal := mkMtls "p" "c" [].
Definition bridge : RequestContext := mkContext (Bridge certificate) (Some peer) None (Some "/s") None None.
Definition token : PresenceToken := mkToken 501 "class:vault" expiry [].
Definition with_token : RequestContext := mkContext Socket (Some peer) None (Some "/s") None (Some token).

Definition closed_session : Presence := mkPresence Locked PresenceConfig_default (with_grace_window DEFAULT_GRACE_WINDOW) None.
Definition locked : GateState := mkGate ∅ closed_session ToyAudit.fresh.
Definition open : GateState := mkGate ∅ (mark_unlocked 0 closed_session) ToyAudit.fresh.

Definition asking : Json := JObject [("op_id", JString "op"); ("method", JString "vault_add"); ("params_digest", JString digest)].
Definition adding : Json :=
  JObject (("_presence_proof", JObject [("op_id", JString "op"); ("nonce", JString "n1"); ("signature", JString "s")]) :: secret).

(** The nonce is drawn and used, and the request is sent again. *)
Definition history : list (DispatchEnv * GateOp) :=
  [(at_time 1 "n1" true, ODispatch socket "presence/request_nonce" asking); (at_time 2 "n2" true, ODispatch socket "vault_add" adding);
   (at_time 3 "n3" true, ODispatch socket "vault_add" adding)].

Definition resolving : list (string * Json) := [("session_id", JString "c"); ("persona_id", JString "other")].
Definition wrong_key : Json := JObject [("scope_kek", JString (of_bytes (toy_hex (repeat Ascii.zero 32))))].

Lemma plain ctx e st : rc_source ctx = Socket → rc_peer_cred_principal ctx = None → rc_presence_token ctx = None →
  al_quarantined (gs_audit st) = false → plain_caller e ctx st None.
Proof. intros Hs Hp Ht Hq. constructor; [done| |done|done]. unfold resolve_enrolled. by rewrite Hs, Hp. Qed.

End ToyGate.

#[local] Existing Instances ToyAudit.ops ToyAudit.hex ToyGate.jcs ToyGate.jcs_laws ToyGate.device_signatures ToyGate.signer.

Lemma one_tap_one_operation_witness :
  length (omap proof_of (run_gate ToyGate.open ToyGate.history).1) = 1%nat ∧
  NoDup (proof_bytes <$> omap proof_of (run_gate ToyGate.open ToyGate.history).1).
Proof.
  split; [vm_compute; reflexivity|].
  destruct (one_tap_one_operation [(ToyGate.device, ToyGate.tap)] ToyGate.open ToyGate.history) as (_ & Hnd & _); [done| | |exact Hnd].
  - apply (bool_decide_unpack _). vm_compute. exact I.
  - intros key msg sig. unfold verify_device_signature. destruct (str_starts_with key P256_PUBLIC_KEY_PREFIX); [|done]. cbn.
    intros [->%bool_decide_eq_true ->%bool_decide_eq_true]%andb_true_iff. by left.
Defined.

Lemma operator_lane_admission_witness :
  ∃ ad st', dispatch_method_with_context (ToyGate.at_time 1 "n" true) ToyGate.socket "vault_list" (JObject []) ToyGate.open = (Ok ad, st') ∧
    ad_scope ad = Some "*" ∧ pm_state (gs_presence ToyGate.open) ≠ Locked.
Proof.
  destruct (dispatch_method_with_context (ToyGate.at_time 1 "n" true) ToyGate.socket "vault_list" (JObject []) ToyGate.open) as [[ad|] st'] eqn:E;
    [|vm_compute in E; discriminate].
  exists ad, st'. split; [done|]. assert (ad_scope ad = Some "*" ∧ ad_transient ad = false) as [Hs Ht].
  { vm_compute in E. injection E as <- _. done. }
  split; [done|]. by apply (operator_lane_admission _ _ _ _ _ _ _ E).
Defined.

Lemma bridge_confined_witness :
  ∃ ad st', dispatch_method_with_context (ToyGate.at_time 1 "n" true) ToyGate.bridge "broker_resolve" (JObject ToyGate.resolving) ToyGate.open
      = (Ok ad, st') ∧ get_str "persona_id" (ad_params ad) = Some "p".
Proof.
  destruct (dispatch_method_with_context (ToyGate.at_time 1 "n" true) ToyGate.bridge "broker_resolve" (JObject ToyGate.resolving) ToyGate.open)
    as [[ad|] st'] eqn:E; [|vm_compute in E; discriminate].
  exists ad, st'. split; [done|]. destruct (bridge_confined _ _ _ _ _ _ _ ToyGate.certificate E eq_refl) as (_ & _ & _ & Hk & _).
  apply (Hk "persona_id"). apply (bool_decide_unpack _). vm_compute. exact I.
Defined.

Lemma token_admission_backed_witness :
  ∃ ad st', dispatch_method_with_context (ToyGate.at_time 1 "n" true) ToyGate.with_token "vault_list" (JObject []) ToyGate.open = (Ok ad, st') ∧
    scope_covers (pt_scope ToyGate.token) "vault_list".
Proof.
  destruct (dispatch_method_with_context (ToyGate.at_time 1 "n" true) ToyGate.with_token "vault_list" (JObject []) ToyGate.open)
    as [[ad|] st'] eqn:E; [|vm_compute in E; discriminate].
  exists ad, st'. split; [done|].
  destruct (token_admission_backed ToyGate.open [(ToyGate.at_time 0 "n" true, OToken (Some ToyGate.peer) "vault_unlock")]
    (ToyGate.at_time 1 "n" true) ToyGate.with_token "vault_list" (JObject []) ad st' ToyGate.token) as (? & ? & ? & ? & ? & _ & _ & _ & _ & _ & _ & _ & _ & _ & _ & Ha & _);
    [|repeat constructor; vm_compute; done|repeat constructor; vm_compute; done|exact E|done|done|done|done|exact Ha].
  intros msg sig [Hv%bool_decide_eq_true|Hv%bool_decide_eq_true]%orb_true_iff.
  - left. exists (token_mint 501 "class:vault" ToyGate.expiry 0). split; [by left|exact Hv].
  - right. rewrite Hv. by apply (text_unlike_token _ "a"%char).
Defined.

Lemma wrong_key_opens_window_witness :
  pm_state (gs_presence (dispatch_method_with_context (ToyGate.at_time 1 "n" false) ToyGate.socket "vault.se_unlock_complete"
    ToyGate.wrong_key ToyGate.locked).2) = Unlocked nanos nanos.
Proof.
  destruct (wrong_key_opens_window (ToyGate.at_time 1 "n" false) ToyGate.socket "vault.se_unlock_complete" ToyGate.wrong_key ToyGate.locked
              (repeat Ascii.zero 32) "aead") as (_ & Hs & _); [by apply ToyGate.plain|by eexists|by left|vm_compute; reflexivity|done|done|done|exact Hs].
Defined.

Lemma idle_timeout_inert_witness :
  (∃ reason, (require_user_presence_at false VaultRemove false (1000 * nanos) 0 (gs_presence ToyGate.open)).1 = GateLocked reason) ∧
  ∃ ad st', dispatch_method_with_context (ToyGate.at_time 1000 "n" true) ToyGate.socket "vault_remove" (JObject []) ToyGate.open = (Ok ad, st').
Proof.
  destruct (idle_timeout_inert (ToyGate.at_time 1000 "n" true) ToyGate.socket "vault_remove" (JObject []) ToyGate.open None 0 0 VaultRemove
              false 0) as [Hl (ad & st' & Hd & _)];
    [by apply ToyGate.plain|by eexists|vm_compute; reflexivity|done|done|vm_compute; by split|]. split; [exact Hl|by exists ad, st'].
Defined.

Lemma unclassified_arms_ungated_witness :
  ∃ ad, (dispatch_method_with_context (ToyGate.at_time 1 "n" true) ToyGate.anonymous "create_agent_persona" (JObject []) ToyGate.locked).1 = Ok ad.
Proof.
  destruct (unclassified_arms_ungated (ToyGate.at_time 1 "n" true) ToyGate.anonymous "create_agent_persona" (JObject []) ToyGate.locked None)
    as (_ & _ & ad & Hd & _); [apply (bool_decide_unpack _); vm_compute; exact I|by apply ToyGate.plain|by exists ad].
Defined.
