(* ===== verification/Receipts.v ===== *)
(** * Receipts

    crates/core-events/src/receipt: the signed receipts of the daemon. The root over a list of claims (merkle.rs), the envelope
    (envelope.rs), its identifier and signature, the verification, also along a chain of witnessed key rotations (sign.rs); and the
    rollup of the receipts of one invocation (rollup.rs). BLAKE3 and RFC 8785 are interfaces. *)

From stdpp Require Import base gmap sets list strings sorting relations.
From Stdlib Require Import Ascii Lia ZArith.
From S2P Require Import Prelude CoreTypes Numbers EventDecode Envelope Materialize Metering ActionPolicy Presence.

Local Infix "+:+" := String.append (at level 60, right associativity).
Local Open Scope Z_scope.

(** ** Interfaces *)

Class Blake3Ops := { blake3 : bytes → bytes }.

(** A digest has 32 bytes. *)
Class Blake3Laws {B : Blake3Ops} := { digest_length x : length (blake3 x) = 32%nat }.

(** No two of these messages have the same digest. *)
Definition collision_free {B : Blake3Ops} (msgs : list bytes) : Prop := ∀ x y, x ∈ msgs → y ∈ msgs → blake3 x = blake3 y → x = y.

(** The canonical form of an object determines the canonical forms of its members. *)
Class JcsMemberLaws {J : JcsOps} := {
  jcs_members v v' b k : canonicalize_jcs v = Ok b → canonicalize_jcs v' = Ok b → canonicalize_jcs <$> jget k v = canonicalize_jcs <$> jget k v'
}.

(** [format!("{:02x}")] of each byte. *)
Definition hex_lower (b : bytes) : string :=
  of_bytes (mjoin ((λ a, [hex_digit (N_of_ascii a / 16); hex_digit (N_of_ascii a mod 16)]) <$> b)).

Lemma hex_lower_eq b : hex_lower b = of_bytes (toy_hex b).
Proof. unfold hex_lower. f_equal. induction b as [|a b IH]; [done|]. cbn [toy_hex]. by rewrite <-IH. Qed.

Lemma hex_lower_inj a b : hex_lower a = hex_lower b → a = b.
Proof. rewrite !hex_lower_eq. intros E%of_bytes_inj. by rewrite <-(toy_unhex_hex a), E, toy_unhex_hex. Qed.

(** ** The root over a list of leaves *)

Record ClaimSegmentDigest := mkSegmentDigest {
  sd_segment_no : Z; sd_first_scope_seq : Z; sd_last_scope_seq : Z; sd_claim_count : Z; sd_started_at : string; sd_ended_at : string;
  sd_merkle_root : string }.

Section Merkle.
Context {B : Blake3Ops}.

Definition merkle_leaf (canonical_leaf : bytes) : bytes := blake3 canonical_leaf.

(** One pass over [layer.chunks(2)]. *)
Fixpoint merkle_layer (layer : list bytes) : list bytes :=
  match layer with
  | [] => []
  | [a] => [blake3 (a ++ a)]
  | a :: b :: rest => blake3 (a ++ b) :: merkle_layer rest
  end.

(** [while layer.len() > 1] *)
Fixpoint merkle_loop (fuel : nat) (layer : list bytes) : option bytes :=
  match layer with
  | [] => None
  | [a] => Some a
  | _ => match fuel with O => None | S fuel => merkle_loop fuel (merkle_layer layer) end
  end.

Definition zero_root : bytes := replicate 32 Ascii.zero.

Definition merkle_root (leaves : list bytes) : bytes :=
  if bool_decide (leaves = []) then zero_root else default zero_root (merkle_loop (length leaves) leaves).

Definition nl_string : string := String newline EmptyString.

Definition segment_digest_text (d : ClaimSegmentDigest) : string :=
  "segment_no=" +:+ u64_to_string (sd_segment_no d) +:+ nl_string +:+ "first_scope_seq=" +:+ u64_to_string (sd_first_scope_seq d) +:+ nl_string
  +:+ "last_scope_seq=" +:+ u64_to_string (sd_last_scope_seq d) +:+ nl_string +:+ "claim_count=" +:+ u64_to_string (sd_claim_count d) +:+ nl_string
  +:+ "started_at=" +:+ sd_started_at d +:+ nl_string +:+ "ended_at=" +:+ sd_ended_at d +:+ nl_string +:+ "merkle_root=" +:+ sd_merkle_root d.

Definition claim_segment_digest_leaf (d : ClaimSegmentDigest) : bytes := merkle_leaf (to_bytes (segment_digest_text d)).

Definition claim_history_merkle_root (digests : list ClaimSegmentDigest) : string :=
  if bool_decide (digests = []) then ""
  else hex_lower (merkle_root (claim_segment_digest_leaf <$> sort_by (λ a b, sd_segment_no a <=? sd_segment_no b) digests)).

End Merkle.

#[export] Instance ClaimSegmentDigest_eq_dec : EqDecision ClaimSegmentDigest.
Proof. solve_decision. Defined.

(** ** Envelopes *)

Inductive TerminationAuthority := UserSession | DaemonPersonaAuthority.
Inductive PresenceKind := AttestedNow | AttestedAtMint | RevokedBefore.
Inductive PresenceReason := SessionOpen | Extend | AddScope | Jit | ReAuth.

Definition TerminationAuthority_str (t : TerminationAuthority) : string :=
  match t with UserSession => "user_session" | DaemonPersonaAuthority => "daemon_persona" end.
Definition PresenceKind_str (k : PresenceKind) : string :=
  match k with AttestedNow => "attested_now" | AttestedAtMint => "attested_at_mint" | RevokedBefore => "revoked_before" end.
Definition PresenceReason_str (r : PresenceReason) : string :=
  match r with SessionOpen => "session_open" | Extend => "extend" | AddScope => "add_scope" | Jit => "jit" | ReAuth => "re_auth" end.

Definition RECEIPT_VERSION_V2 : string := "2".
Definition RECEIPT_KIND_IDENTITY_ROTATION_WITNESS : string := "identity.rotation_witness".
Definition RECEIPT_KIND_SPAWN_WITNESS : string := "spawn.witness".

Record CallingPrincipal := mkCallingPrincipal { cp_uid : Z; cp_gid : Z; cp_pid : Z }.

Record ReceiptEnvelope := mkReceipt {
  re_version : string; re_kind : string; re_receipt_id : string; re_daemon_root_id : string; re_traceparent : option string;
  re_termination_authority : TerminationAuthority; re_presence_kind : option PresenceKind; re_body : Json; re_signature : option string;
  re_calling_principal : option CallingPrincipal; re_presence_reason : option PresenceReason; re_handle_id : option string;
  re_challenge_hash : option bytes; re_verifier_aaguid : option bytes }.

Definition byte_array (b : bytes) : Json := JArray ((λ a, JNumber (u64_to_string (Z.of_N (N_of_ascii a)))) <$> b).

Definition principal_value (p : CallingPrincipal) : Json :=
  JObject [("uid", JNumber (u64_to_string (cp_uid p))); ("gid", JNumber (u64_to_string (cp_gid p))); ("pid", JNumber (i64_to_string (cp_pid p)))].

Definition opt_member {A} (k : string) (f : A → Json) (o : option A) : list (string * Json) := match o with Some x => [(k, f x)] | None => [] end.

(** [serde_json::to_value] of an envelope. *)
Definition envelope_members (e : ReceiptEnvelope) : list (string * Json) :=
  [("version", JString (re_version e)); ("kind", JString (re_kind e)); ("receipt_id", JString (re_receipt_id e));
   ("daemon_root_id", JString (re_daemon_root_id e))]
  ++ opt_member "traceparent" JString (re_traceparent e)
  ++ [("termination_authority", JString (TerminationAuthority_str (re_termination_authority e)))]
  ++ opt_member "presence_kind" (λ k, JString (PresenceKind_str k)) (re_presence_kind e)
  ++ [("body", re_body e)]
  ++ opt_member "signature" JString (re_signature e)
  ++ opt_member "calling_principal" principal_value (re_calling_principal e)
  ++ opt_member "presence_reason" (λ r, JString (PresenceReason_str r)) (re_presence_reason e)
  ++ opt_member "handle_id" JString (re_handle_id e)
  ++ opt_member "challenge_hash" byte_array (re_challenge_hash e)
  ++ opt_member "verifier_aaguid" byte_array (re_verifier_aaguid e).

Definition remove_member (k : string) (m : list (string * Json)) : list (string * Json) := List.filter (λ kv, negb (bool_decide (kv.1 = k))) m.

Definition envelope_for_hashing (e : ReceiptEnvelope) (include_receipt_id : bool) : Json :=
  let m := remove_member "signature" (envelope_members e) in
  JObject (if include_receipt_id then m else remove_member "receipt_id" m).

Inductive SignError :=
| SE_Canonicalize (m : string)
| SE_SignatureMissing
| SE_InvalidSignature
| SE_ReceiptIdMismatch (stored computed : string)
| SE_SpawnWitnessMissingField (field : string)
| SE_SpawnWitnessParentSignatureInvalid
| SE_UntrustedSigner
| SE_BrokenChain (index : nat) (reason : string).

Definition with_receipt_id (i : string) (e : ReceiptEnvelope) : ReceiptEnvelope :=
  mkReceipt (re_version e) (re_kind e) i (re_daemon_root_id e) (re_traceparent e) (re_termination_authority e) (re_presence_kind e) (re_body e)
    (re_signature e) (re_calling_principal e) (re_presence_reason e) (re_handle_id e) (re_challenge_hash e) (re_verifier_aaguid e).

Definition with_receipt_signature (s : option string) (e : ReceiptEnvelope) : ReceiptEnvelope :=
  mkReceipt (re_version e) (re_kind e) (re_receipt_id e) (re_daemon_root_id e) (re_traceparent e) (re_termination_authority e) (re_presence_kind e) (re_body e)
    s (re_calling_principal e) (re_presence_reason e) (re_handle_id e) (re_challenge_hash e) (re_verifier_aaguid e).

(** A witness of a rotation: the signed envelope and the keys before and after. *)
Record RotationWitnessEntry := mkRotationWitness {
  rw_envelope : ReceiptEnvelope; rw_prior_identity_pub : string; rw_new_identity_pub : string; rw_rotation_at : Z }.

Section Signing.
Context {B : Blake3Ops} {J : JcsOps}.

Definition receipt_bytes (v : Json) : result bytes SignError := map_err SE_Canonicalize (canonicalize_jcs v).

Definition compute_receipt_id (e : ReceiptEnvelope) : result string SignError :=
  let? b := receipt_bytes (envelope_for_hashing e false) in Ok (hex_lower (blake3 b)).

Definition sign_receipt_v2 (e : ReceiptEnvelope) (signer : Signer) : result ReceiptEnvelope SignError :=
  let? i := compute_receipt_id e in
  let e := with_receipt_id i e in
  let? b := receipt_bytes (envelope_for_hashing e true) in
  Ok (with_receipt_signature (Some (Envelope.signer_sign signer b)) e).

Definition verify_receipt_v2 (e : ReceiptEnvelope) (public_key : string) (verifier : Verifier) : result unit SignError :=
  let? computed := compute_receipt_id e in
  if negb (bool_decide (computed = re_receipt_id e)) then Err (SE_ReceiptIdMismatch (re_receipt_id e) computed)
  else
    let? sig := ok_or (re_signature e) SE_SignatureMissing in
    let? b := receipt_bytes (envelope_for_hashing e true) in
    if verifier public_key b sig then Ok tt else Err SE_InvalidSignature.

Definition spawn_witness_canonical_bytes_for_parent (body : Json) : result bytes SignError :=
  receipt_bytes (match body with JObject m => JObject (remove_member "parent_signature" m) | v => v end).

Definition sign_spawn_witness_parent_signature (body : Json) (parent_signer : Signer) : result Json SignError :=
  match body with
  | JObject m =>
      let? b := spawn_witness_canonical_bytes_for_parent body in
      Ok (JObject (remove_member "parent_signature" m ++ [("parent_signature", JString (Envelope.signer_sign parent_signer b))]))
  | _ => Err (SE_SpawnWitnessMissingField "<root-object>")
  end.

Definition verify_spawn_witness_parent_signature (body : Json) (parent_public_key : string) (verifier : Verifier) : result unit SignError :=
  let? sig := ok_or (get_str "parent_signature" body) (SE_SpawnWitnessMissingField "parent_signature") in
  let? b := spawn_witness_canonical_bytes_for_parent body in
  if verifier parent_public_key b sig then Ok tt else Err SE_SpawnWitnessParentSignatureInvalid.

(** [show] displays an error and [quote] is the debug form of a text. *)
Fixpoint walk_witnesses (show : SignError → string) (quote : string → string) (verifier : Verifier) (index : nat) (last_rotation_at : option Z) (trust_set : list string)
  (chain : list RotationWitnessEntry) : result (list string) SignError :=
  match chain with
  | [] => Ok trust_set
  | w :: chain =>
      match last_rotation_at with
      | Some prev_ts =>
          if rw_rotation_at w <? prev_ts
          then Err (SE_BrokenChain index ("out-of-order witness chain: rotation_at=" +:+ u64_to_string (rw_rotation_at w) +:+ " < prior="
                                          +:+ u64_to_string prev_ts))
          else Ok tt
      | None => Ok tt
      end ;?
      (if negb (bool_decide (rw_prior_identity_pub w ∈ trust_set))
       then Err (SE_BrokenChain index "prior_identity_pub not in current trust set") else Ok tt) ;?
      (if negb (bool_decide (re_kind (rw_envelope w) = RECEIPT_KIND_IDENTITY_ROTATION_WITNESS))
       then Err (SE_BrokenChain index ("witness envelope.kind=" +:+ quote (re_kind (rw_envelope w)) +:+ " != "
                                        +:+ quote RECEIPT_KIND_IDENTITY_ROTATION_WITNESS)) else Ok tt) ;?
      map_err (λ x, SE_BrokenChain index ("witness envelope signature invalid: " +:+ show x))
        (verify_receipt_v2 (rw_envelope w) (rw_prior_identity_pub w) verifier) ;?
      let trust_set := if bool_decide (rw_new_identity_pub w ∈ trust_set) then trust_set else trust_set ++ [rw_new_identity_pub w] in
      walk_witnesses show quote verifier (S index) (Some (rw_rotation_at w)) trust_set chain
  end.

Definition verify_receipt_v2_with_rotation_chain (show : SignError → string) (quote : string → string) (e : ReceiptEnvelope) (trusted_identities : list string)
  (chain : list RotationWitnessEntry) (verifier : Verifier) : result unit SignError :=
  if bool_decide (trusted_identities = []) then Err (SE_BrokenChain 0 "trusted_identities must be non-empty")
  else
    let? trust_set := walk_witnesses show quote verifier 0 None trusted_identities chain in
    if existsb (λ k, match verify_receipt_v2 e k verifier with Ok _ => true | Err _ => false end) trust_set then Ok tt else Err SE_UntrustedSigner.

End Signing.

(** ** Rollups *)

Inductive RollupOutcome := RO_Success | RO_Denied (reason : string) | RO_Errored (exit_code : Z) | RO_InFlight | RO_Incomplete.

Record SubReceiptRef := mkSubReceipt { sr_kind : string; sr_ts : string; sr_receipt_hash : string }.

(** What [RollupReceiptView] shows of a receipt. *)
Record RollupReceipt := mkRollupReceipt {
  rr_materialization_id : option string; rr_kind : string; rr_ts : string; rr_receipt_hash : string; rr_persona : option string;
  rr_action : option string; rr_action_ref : option ActionRef; rr_runner_class : option string; rr_execution_domain : option string;
  rr_materialization_class : option string; rr_exit_code : option Z; rr_denied_reason : option string }.

Record ConstructInvocationRollup := mkRollup {
  ro_materialization_id : string; ro_action_ref : option ActionRef; ro_action : string; ro_runner_class : option string;
  ro_execution_domain : option string; ro_materialization_class : option string; ro_persona : string; ro_started_at : string;
  ro_ended_at : option string; ro_outcome : RollupOutcome; ro_receipt_count : Z; ro_sub_receipts : list SubReceiptRef }.

(** [find_map] *)
Definition first_some {A C} (f : A → option C) (l : list A) : option C := head (omap f l).

Definition sub_receipt (r : RollupReceipt) : SubReceiptRef := mkSubReceipt (rr_kind r) (rr_ts r) (rr_receipt_hash r).

Definition rollup_outcome (group : list RollupReceipt) : RollupOutcome :=
  let has_revocation := existsb (λ r, bool_decide (rr_kind r = "broker.revocation")) group in
  let has_invocation := existsb (λ r, bool_decide (rr_kind r = "session.construct_invocation")) group in
  let exit_code := List.find (λ r, bool_decide (rr_kind r = "session.construct_invocation")) group ≫= rr_exit_code in
  match first_some rr_denied_reason group with
  | Some reason => RO_Denied reason
  | None =>
      if negb has_invocation then RO_Incomplete
      else if negb has_revocation then RO_InFlight
      else if bool_decide (exit_code = Some 0) then RO_Success
      else RO_Errored (default (-1) exit_code)
  end.

Definition build_rollup (materialization_id : string) (group : list RollupReceipt) : ConstructInvocationRollup :=
  let sub_receipts := sort_by (λ a b, String.leb (sr_ts a) (sr_ts b)) (sub_receipt <$> group) in
  let action_ref := first_some rr_action_ref group in
  let outcome := rollup_outcome group in
  mkRollup materialization_id action_ref
    (default "<unknown>" (or_else (ActionRef_display <$> action_ref) (first_some rr_action group)))
    (first_some rr_runner_class group) (first_some rr_execution_domain group) (first_some rr_materialization_class group)
    (default "<unknown>" (first_some rr_persona group)) (default "" (sr_ts <$> head sub_receipts))
    (match outcome with RO_InFlight => None | _ => sr_ts <$> last sub_receipts end) outcome
    (Z.min (Z.of_nat (length group)) (2 ^ 32 - 1)) sub_receipts.

(** [groups.entry(mid).or_default().push(r)] *)
Definition push_group (groups : gmap string (list RollupReceipt)) (r : RollupReceipt) : gmap string (list RollupReceipt) :=
  match rr_materialization_id r with
  | Some mid => <[mid := default [] (groups !! mid) ++ [r]]> groups
  | None => groups
  end.
Definition rollup_groups (receipts : list RollupReceipt) : gmap string (list RollupReceipt) := foldl push_group ∅ receipts.

(** [order] is the order in which the entries of the [HashMap] come. *)
Definition compute_rollups (order : list (string * list RollupReceipt)) : list ConstructInvocationRollup :=
  sort_by (λ a b, String.leb (ro_started_at a) (ro_started_at b)) ((λ g, build_rollup g.1 g.2) <$> order).

Definition iteration_of (receipts : list RollupReceipt) (order : list (string * list RollupReceipt)) : Prop :=
  order ≡ₚ map_to_list (rollup_groups receipts).

(** ** Lemmas: the root *)

Section MerkleLemmas.
Context {B : Blake3Ops}.

(** Induction by pairs. *)
Lemma pair_ind {A} (P : list A → Prop) : P [] → (∀ a, P [a]) → (∀ a b l, P l → P (a :: b :: l)) → ∀ l, P l.
Proof.
  intros H0 H1 H2 l. assert (P l ∧ ∀ a, P (a :: l)) as [? _]; [|done]. induction l as [|b l [IH1 IH2]]; [by split|]. split; [apply IH2|]. intros a. by apply H2.
Qed.

Lemma merkle_layer_length l : length (merkle_layer l) = Nat.div2 (S (length l)).
Proof. induction l as [|a|a b l IH] using pair_ind; cbn in *; [done|done|]. by rewrite IH. Qed.

Lemma merkle_layer_shrinks a b l : (length (merkle_layer (a :: b :: l)) < length (a :: b :: l))%nat.
Proof. rewrite merkle_layer_length. pose proof (Nat.lt_div2 (S (length l))) as Hd. cbn [length Nat.div2] in *. lia. Qed.

Lemma merkle_layer_nonempty l : l ≠ [] → merkle_layer l ≠ [].
Proof. by destruct l as [|a [|b l]]. Qed.

(** The loop ends within as many rounds as there are leaves. *)
Lemma merkle_loop_total fuel l : l ≠ [] → (length l <= S fuel)%nat → ∃ r, merkle_loop fuel l = Some r.
Proof.
  revert l. induction fuel as [|fuel IH]; intros l Hne Hl; destruct l as [|a [|b l]]; try done; cbn [merkle_loop]; try by eexists.
  - cbn in Hl. lia.
  - apply IH; [by apply merkle_layer_nonempty|]. pose proof (merkle_layer_shrinks a b l). cbn in *. lia.
Qed.

Lemma merkle_root_total l : l ≠ [] → merkle_loop (length l) l = Some (merkle_root l).
Proof.
  intros Hne. unfold merkle_root. rewrite bool_decide_eq_false_2 by done. destruct (merkle_loop_total (length l) l Hne) as [r ->]; [lia|done].
Qed.

(** More rounds change nothing. *)
Lemma merkle_loop_mono fuel fuel' l r : merkle_loop fuel l = Some r → (fuel <= fuel')%nat → merkle_loop fuel' l = Some r.
Proof.
  revert fuel' l. induction fuel as [|fuel IH]; intros fuel' l; destruct l as [|a [|b l]]; cbn; try done; destruct fuel' as [|fuel']; cbn; try done; [lia|].
  intros Hr Hle. apply IH; [done|lia].
Qed.

Lemma merkle_root_unfold a b l : merkle_root (a :: b :: l) = merkle_root (merkle_layer (a :: b :: l)).
Proof.
  assert (merkle_layer (a :: b :: l) ≠ []) as Hne by done. pose proof (merkle_root_total (a :: b :: l)) as Ht. specialize (Ht ltac:(done)).
  pose proof (merkle_root_total _ Hne) as Hl.
  change (merkle_loop (length (a :: b :: l)) (a :: b :: l)) with (merkle_loop (S (length l)) (merkle_layer (a :: b :: l))) in Ht.
  pose proof (merkle_layer_shrinks a b l). apply (merkle_loop_mono _ (S (length l))) in Hl; [congruence|cbn in *; lia].
Qed.

(** The messages that one pass hashes, those of the whole loop, and those of the root over [xs], its leaves included. *)
Fixpoint layer_inputs (l : list bytes) : list bytes :=
  match l with [] => [] | [a] => [a ++ a] | a :: b :: l => (a ++ b) :: layer_inputs l end.

Fixpoint tree_inputs (fuel : nat) (l : list bytes) : list bytes :=
  match fuel, l with S fuel, _ :: _ :: _ => layer_inputs l ++ tree_inputs fuel (merkle_layer l) | _, _ => [] end.

Definition root_inputs (xs : list bytes) : list bytes := xs ++ tree_inputs (length xs) (merkle_leaf <$> xs).

Context {L : Blake3Laws}.

Definition digests (l : list bytes) : Prop := Forall (λ x, length x = 32%nat) l.

Lemma merkle_layer_digests l : digests (merkle_layer l).
Proof.
  unfold digests. induction l as [|a|a b l IH] using pair_ind; cbn; [constructor|constructor; [apply digest_length|constructor]|constructor; [apply digest_length|done]].
Qed.

Variable msgs : list bytes.
Hypothesis Hcf : collision_free msgs.

Lemma merkle_layer_inj l l' :
  layer_inputs l ⊆ msgs → layer_inputs l' ⊆ msgs → digests l → digests l' → length l = length l' → merkle_layer l = merkle_layer l' → l = l'.
Proof.
  unfold digests. revert l'. induction l as [|a|a b l IH] using pair_ind; intros [|a' [|b' l']] Hi Hi' Hl Hl' Hlen; try done; cbn in *.
  - intros [= E%Hcf]; [|set_solver..]. apply app_inj_1 in E as [-> _]; [done|]. rewrite !Forall_cons in *. destruct_and?. congruence.
  - intros E. injection E as E1%Hcf E2; [|set_solver..]. rewrite !Forall_cons in *. destruct_and?. apply app_inj_1 in E1 as [-> ->]; [|congruence].
    f_equal. f_equal. apply IH; [set_solver|set_solver|done|done|by injection Hlen|done].
Qed.

Lemma merkle_root_inj n l l' :
  tree_inputs n l ⊆ msgs → tree_inputs n l' ⊆ msgs → (length l <= n)%nat → digests l → digests l' → length l = length l' → l ≠ [] →
  merkle_root l = merkle_root l' → l = l'.
Proof.
  revert l l'. induction n as [|n IH]; intros l l' Hi Hi' Hn Hl Hl' Hlen Hne E; [by destruct l; cbn in Hn; [|lia]|].
  destruct l as [|a [|b l]], l' as [|a' [|b' l']]; try done.
  - pose proof (merkle_root_total [a] ltac:(done)) as H1. pose proof (merkle_root_total [a'] ltac:(done)) as H2.
    change (Some a = Some (merkle_root [a])) in H1. change (Some a' = Some (merkle_root [a'])) in H2. congruence.
  - rewrite !merkle_root_unfold in E. cbn [tree_inputs] in Hi, Hi'. apply list_subseteq_app_iff_l in Hi as [Hi Hr], Hi' as [Hi' Hr'].
    apply merkle_layer_inj; [done..|]. apply IH; [done|done| |apply merkle_layer_digests..| |done|done].
    + pose proof (merkle_layer_shrinks a b l). cbn in *. lia.
    + by rewrite !merkle_layer_length, Hlen.
Qed.

Lemma leaf_digests l : digests (merkle_leaf <$> l).
Proof. unfold digests. apply Forall_fmap, Forall_true. intros x. apply digest_length. Qed.

Lemma leaves_root_inj (xs ys : list bytes) :
  root_inputs xs ⊆ msgs → root_inputs ys ⊆ msgs → length xs = length ys → merkle_root (merkle_leaf <$> xs) = merkle_root (merkle_leaf <$> ys) → xs = ys.
Proof.
  unfold root_inputs. rewrite !list_subseteq_app_iff_l. intros [Hx Hi] [Hy Hi'] Hlen E. assert (merkle_leaf <$> xs = merkle_leaf <$> ys) as Em.
  { destruct xs as [|x xs]; [by destruct ys|]. rewrite <-Hlen in Hi'.
    apply (merkle_root_inj (length (x :: xs))); [done|done|by rewrite length_fmap|apply leaf_digests|apply leaf_digests|by rewrite !length_fmap|done|done]. }
  clear -Em Hcf Hx Hy. revert ys Hy Em. induction xs as [|x xs IH]; intros [|y ys] Hy; try done. cbn. intros [= E%Hcf Es]; [|set_solver..].
  subst. f_equal. apply IH; set_solver.
Qed.

End MerkleLemmas.

(** Without their number it does not: an odd number of claims, at least three, and the same claims with the last one twice have
    the same root. *)
Theorem merkle_root_pads {B : Blake3Ops} (xs : list bytes) (a b x : bytes) :
  Nat.Even (length xs) → merkle_root (a :: b :: xs ++ [x]) = merkle_root (a :: b :: xs ++ [x; x]).
Proof.
  intros He. rewrite !merkle_root_unfold. f_equal. cbn [merkle_layer]. f_equal. revert He.
  induction xs as [|y|y z xs IH] using pair_ind; intros He; [done| |].
  - destruct He as [k Hk]. cbn in Hk. lia.
  - cbn [app merkle_layer]. f_equal. apply IH. destruct He as [k Hk]. exists (k - 1)%nat. cbn in Hk. lia.
Qed.

(** An inner layer in place of the leaves has the same root. *)
Lemma merkle_root_levels {B : Blake3Ops} a b c d : merkle_root [a; b; c; d] = merkle_root [blake3 (a ++ b); blake3 (c ++ d)].
Proof. by rewrite (merkle_root_unfold a b [c; d]). Qed.

(** *** Segments *)

(** The counters are unsigned and the times are one line each. *)
Definition digest_wf (d : ClaimSegmentDigest) : Prop :=
  0 <= sd_segment_no d ∧ 0 <= sd_first_scope_seq d ∧ 0 <= sd_last_scope_seq d ∧ 0 <= sd_claim_count d ∧ line_ok (sd_started_at d) ∧ line_ok (sd_ended_at d).

(** One line [key=value] in front of others. *)
Lemma text_line_inj k x y r r' :
  line_ok x → line_ok y → k +:+ x +:+ nl_string +:+ r = k +:+ y +:+ nl_string +:+ r' → x = y ∧ r = r'.
Proof.
  intros Hx Hy E. apply (f_equal to_bytes) in E. rewrite !to_bytes_app in E. apply app_inv_head in E.
  change (to_bytes nl_string) with [newline] in E. cbn [app] in E. apply cut_inj in E as [E1%to_bytes_inj E2%to_bytes_inj]; done.
Qed.

Lemma u64_line_ok z : line_ok (u64_to_string z).
Proof. apply u64_to_string_no_newline. Qed.

Lemma segment_text_inj d d' : digest_wf d → digest_wf d' → segment_digest_text d = segment_digest_text d' → d = d'.
Proof.
  intros (N1 & N2 & N3 & N4 & L1 & L2) (N1' & N2' & N3' & N4' & L1' & L2') E. unfold segment_digest_text in E.
  apply text_line_inj in E as [E1 E]; [|apply u64_line_ok..]. apply text_line_inj in E as [E2 E]; [|apply u64_line_ok..].
  apply text_line_inj in E as [E3 E]; [|apply u64_line_ok..]. apply text_line_inj in E as [E4 E]; [|apply u64_line_ok..].
  apply text_line_inj in E as [E5 E]; [|done..]. apply text_line_inj in E as [E6 E]; [|done..].
  apply u64_to_string_inj in E1, E2, E3, E4; try done. apply (f_equal to_bytes) in E. rewrite !to_bytes_app in E. apply app_inv_head, to_bytes_inj in E.
  destruct d, d'; cbn in *. by subst.
Qed.

Lemma fmap_Forall_inj {A C} (P : A → Prop) (f : A → C) l l' :
  (∀ x y, P x → P y → f x = f y → x = y) → Forall P l → Forall P l' → f <$> l = f <$> l' → l = l'.
Proof.
  intros Hf Hl. revert l'. induction Hl as [|x l Hx _ IH]; intros [|y l'] Hl' E; try done. apply Forall_cons in Hl' as [Hy Hl'].
  cbn in E. injection E as Exy E. f_equal; [by apply Hf|by apply IH].
Qed.

(** The segments as the root takes them. *)
Definition segment_order (ds : list ClaimSegmentDigest) : list ClaimSegmentDigest := sort_by (λ a b, sd_segment_no a <=? sd_segment_no b) ds.
Definition segment_leaves (ds : list ClaimSegmentDigest) : list bytes := (λ d, to_bytes (segment_digest_text d)) <$> segment_order ds.

Section History.
Context {B : Blake3Ops} {L : Blake3Laws}.

Lemma history_root_leaves ds : ds ≠ [] → claim_history_merkle_root ds = hex_lower (merkle_root (merkle_leaf <$> segment_leaves ds)).
Proof.
  intros Hne. unfold claim_history_merkle_root, segment_leaves. rewrite bool_decide_eq_false_2 by done. f_equal. f_equal.
  by rewrite <-list_fmap_compose.
Qed.

Lemma history_root_inj ds ds' :
  collision_free (root_inputs (segment_leaves ds) ++ root_inputs (segment_leaves ds')) →
  Forall digest_wf ds → Forall digest_wf ds' → length ds = length ds' → claim_history_merkle_root ds = claim_history_merkle_root ds' →
  segment_order ds = segment_order ds'.
Proof.
  intros Hcf Hw Hw' Hlen E. destruct ds as [|d ds]; [by destruct ds'|]. destruct ds' as [|d' ds']; [done|].
  rewrite !history_root_leaves in E by done. apply hex_lower_inj in E.
  assert (∀ l, Forall digest_wf l → Forall digest_wf (segment_order l)) as Hs by (intros l; unfold segment_order; by rewrite sort_by_perm).
  eapply leaves_root_inj in E; [|exact Hcf|set_solver|set_solver|unfold segment_leaves, segment_order; by rewrite !length_fmap, !sort_by_perm].
  apply (fmap_Forall_inj digest_wf (λ d, to_bytes (segment_digest_text d))); [|by apply Hs..|done].
  intros x y Hx Hy Exy%to_bytes_inj. by apply segment_text_inj.
Qed.

End History.

(** ** Lemmas: envelopes *)

Lemma jget_app k l l' : jget k (JObject (l ++ l')) = or_else (jget k (JObject l)) (jget k (JObject l')).
Proof. cbn. induction l as [|[k' v] l IH]; [done|]. cbn. case_bool_decide; [done|apply IH]. Qed.

Lemma jget_opt {A} k k' (f : A → Json) o : jget k (JObject (opt_member k' f o)) = if bool_decide (k' = k) then f <$> o else None.
Proof. destruct o; cbn; by case_bool_decide. Qed.

Lemma jget_remove k k' m : k ≠ k' → jget k (JObject (remove_member k' m)) = jget k (JObject m).
Proof.
  intros Hk. cbn. induction m as [|[j v] m IH]; [done|]. cbn. destruct (decide (j = k')) as [->|Hj].
  - rewrite bool_decide_eq_true_2, bool_decide_eq_false_2 by done. cbn. apply IH.
  - rewrite bool_decide_eq_false_2 by done. cbn. case_bool_decide; [done|apply IH].
Qed.

Lemma jget_removed k m : jget k (JObject (remove_member k m)) = None.
Proof.
  cbn. induction m as [|[j v] m IH]; [done|]. cbn. destruct (decide (j = k)) as [->|Hj]; [by rewrite bool_decide_eq_true_2|].
  rewrite (bool_decide_eq_false_2 (j = k)) by done. cbn. by rewrite bool_decide_eq_false_2.
Qed.

Lemma remove_app k l l' : remove_member k (l ++ l') = remove_member k l ++ remove_member k l'.
Proof. apply List.filter_app. Qed.

Lemma remove_opt {A} k (f : A → Json) o : remove_member k (opt_member k f o) = [].
Proof. destruct o; cbn; [|done]. by rewrite bool_decide_eq_true_2. Qed.

Lemma remove_idemp k m : remove_member k (remove_member k m) = remove_member k m.
Proof.
  unfold remove_member. induction m as [|kv m IH]; [done|]. cbn. destruct (negb (bool_decide (kv.1 = k))) eqn:E; cbn; [|done]. rewrite E. by f_equal.
Qed.

Lemma or_else_none {A} (o : option A) : or_else o None = o.
Proof. by destruct o. Qed.

Ltac members :=
  unfold envelope_for_hashing, envelope_members; rewrite ?jget_remove by done; rewrite !jget_app, !jget_opt; cbn [jget List.find fst];
  repeat first [rewrite bool_decide_eq_false_2 by discriminate | rewrite bool_decide_eq_true_2 by reflexivity]; cbn; rewrite ?or_else_none; try done.

Lemma hashing_members e :
  let v := envelope_for_hashing e true in
  jget "version" v = Some (JString (re_version e)) ∧ jget "kind" v = Some (JString (re_kind e)) ∧
  jget "receipt_id" v = Some (JString (re_receipt_id e)) ∧ jget "daemon_root_id" v = Some (JString (re_daemon_root_id e)) ∧
  jget "traceparent" v = JString <$> re_traceparent e ∧
  jget "termination_authority" v = Some (JString (TerminationAuthority_str (re_termination_authority e))) ∧
  jget "presence_kind" v = (λ k, JString (PresenceKind_str k)) <$> re_presence_kind e ∧ jget "body" v = Some (re_body e) ∧
  jget "presence_reason" v = (λ r, JString (PresenceReason_str r)) <$> re_presence_reason e ∧ jget "handle_id" v = JString <$> re_handle_id e ∧
  jget "challenge_hash" v = byte_array <$> re_challenge_hash e ∧ jget "verifier_aaguid" v = byte_array <$> re_verifier_aaguid e ∧
  jget "calling_principal" v = principal_value <$> re_calling_principal e ∧ jget "signature" v = None.
Proof.
  cbn zeta. split_and!.
  1-13: members.
  apply jget_removed.
Qed.

Lemma hashing_ignores_signature e s b : envelope_for_hashing (with_receipt_signature s e) b = envelope_for_hashing e b.
Proof. unfold envelope_for_hashing, envelope_members. rewrite !remove_app, !remove_opt. by destruct b. Qed.

Lemma hashing_ignores_id e i : envelope_for_hashing (with_receipt_id i e) false = envelope_for_hashing e false.
Proof. unfold envelope_for_hashing, envelope_members. rewrite !remove_app, !remove_opt. done. Qed.

(** The identifier a receipt should have: the digest, in hexadecimal, of the canonical form of every member but itself and the
    signature. *)
Definition identified {B : Blake3Ops} {J : JcsOps} (e : ReceiptEnvelope) : Prop :=
  ∃ b, canonicalize_jcs (JObject (
    [("version", JString (re_version e)); ("kind", JString (re_kind e)); ("daemon_root_id", JString (re_daemon_root_id e))]
    ++ opt_member "traceparent" JString (re_traceparent e)
    ++ [("termination_authority", JString (TerminationAuthority_str (re_termination_authority e)))]
    ++ opt_member "presence_kind" (λ k, JString (PresenceKind_str k)) (re_presence_kind e)
    ++ [("body", re_body e)]
    ++ opt_member "calling_principal" principal_value (re_calling_principal e)
    ++ opt_member "presence_reason" (λ r, JString (PresenceReason_str r)) (re_presence_reason e)
    ++ opt_member "handle_id" JString (re_handle_id e)
    ++ opt_member "challenge_hash" byte_array (re_challenge_hash e)
    ++ opt_member "verifier_aaguid" byte_array (re_verifier_aaguid e))) = Ok b ∧
    re_receipt_id e = hex_lower (blake3 b).

Lemma computed_identified {B : Blake3Ops} {J : JcsOps} e : compute_receipt_id e = Ok (re_receipt_id e) → identified e.
Proof.
  unfold compute_receipt_id, receipt_bytes, identified. intros (b & Hb%map_err_Ok & [= Hi])%result_bind_Ok. exists b. split; [|done].
  rewrite <-Hb. f_equal. unfold envelope_for_hashing, envelope_members. f_equal. rewrite !remove_app, !remove_opt.
  by destruct (re_traceparent e), (re_presence_kind e), (re_calling_principal e), (re_presence_reason e), (re_handle_id e), (re_challenge_hash e),
    (re_verifier_aaguid e).
Qed.

(** What a signature binds: every field, the contents of the body and of the caller up to their canonical form. *)
Definition same_receipt {J : JcsOps} (e e0 : ReceiptEnvelope) : Prop :=
  re_version e = re_version e0 ∧ re_kind e = re_kind e0 ∧ re_receipt_id e = re_receipt_id e0 ∧ re_daemon_root_id e = re_daemon_root_id e0 ∧
  re_traceparent e = re_traceparent e0 ∧ re_termination_authority e = re_termination_authority e0 ∧
  re_presence_kind e = re_presence_kind e0 ∧ canonicalize_jcs (re_body e) = canonicalize_jcs (re_body e0) ∧
  re_presence_reason e = re_presence_reason e0 ∧ re_handle_id e = re_handle_id e0 ∧
  canonicalize_jcs <$> (principal_value <$> re_calling_principal e) = canonicalize_jcs <$> (principal_value <$> re_calling_principal e0) ∧
  canonicalize_jcs <$> (byte_array <$> re_challenge_hash e) = canonicalize_jcs <$> (byte_array <$> re_challenge_hash e0) ∧
  canonicalize_jcs <$> (byte_array <$> re_verifier_aaguid e) = canonicalize_jcs <$> (byte_array <$> re_verifier_aaguid e0).

(** The keys the walk may end with, and the chain it accepts: in order of time, each witness a receipt of its kind that verifies
    under an anchor or a key an earlier witness introduced. *)
Definition introduced (trusted : list string) (chain : list RotationWitnessEntry) (k : string) : Prop :=
  k ∈ trusted ∨ ∃ w, w ∈ chain ∧ rw_new_identity_pub w = k.

Section SigningLemmas.
Context {B : Blake3Ops} {J : JcsOps}.
Implicit Types (e : ReceiptEnvelope) (verifier : Verifier) (chain : list RotationWitnessEntry) (pk : string).

Lemma sign_shape e signer e' :
  sign_receipt_v2 e signer = Ok e' →
  ∃ i b, compute_receipt_id e = Ok i ∧ receipt_bytes (envelope_for_hashing (with_receipt_id i e) true) = Ok b ∧
    e' = with_receipt_signature (Some (Envelope.signer_sign signer b)) (with_receipt_id i e).
Proof.
  unfold sign_receipt_v2. destruct (compute_receipt_id e) as [i|]; cbn; [|done].
  destruct (receipt_bytes (envelope_for_hashing (with_receipt_id i e) true)) as [b|] eqn:Eb; cbn; [|done]. intros [= <-]. by exists i, b.
Qed.

Lemma verify_shape e pk verifier :
  verify_receipt_v2 e pk verifier = Ok tt ↔
  compute_receipt_id e = Ok (re_receipt_id e) ∧
  ∃ s b, re_signature e = Some s ∧ receipt_bytes (envelope_for_hashing e true) = Ok b ∧ verifier pk b s = true.
Proof.
  unfold verify_receipt_v2. split.
  - destruct (compute_receipt_id e) as [i|]; cbn; [|done]. case_bool_decide as Hi; cbn; [|done]. subst i.
    destruct (re_signature e) as [s|]; cbn; [|done]. destruct (receipt_bytes _) as [b|]; cbn; [|done].
    destruct (verifier pk b s) eqn:Ev; [|done]. intros _. split; [done|]. by exists s, b.
  - intros (-> & s & b & -> & Hb & Hv). cbn. rewrite bool_decide_eq_true_2 by done. cbn. rewrite Hb. cbn. by rewrite Hv.
Qed.

Lemma id_depends e e' : envelope_for_hashing e false = envelope_for_hashing e' false → compute_receipt_id e = compute_receipt_id e'.
Proof. unfold compute_receipt_id. by intros ->. Qed.

Definition chain_valid (trusted : list string) verifier chain : Prop :=
  ∀ i w, chain !! i = Some w →
    introduced trusted (take i chain) (rw_prior_identity_pub w) ∧
    re_kind (rw_envelope w) = RECEIPT_KIND_IDENTITY_ROTATION_WITNESS ∧
    verify_receipt_v2 (rw_envelope w) (rw_prior_identity_pub w) verifier = Ok tt ∧
    ∀ w', chain !! S i = Some w' → rw_rotation_at w <= rw_rotation_at w'.

(** The next key joins the set once. *)
Definition extend_trust (trust : list string) (w : RotationWitnessEntry) : list string :=
  if bool_decide (rw_new_identity_pub w ∈ trust) then trust else trust ++ [rw_new_identity_pub w].

Lemma extend_trust_elem trust w k : k ∈ extend_trust trust w ↔ k ∈ trust ∨ k = rw_new_identity_pub w.
Proof. unfold extend_trust. case_bool_decide; set_solver. Qed.

Lemma introduced_cons trusted w chain k :
  introduced (extend_trust trusted w) chain k ↔ introduced trusted (w :: chain) k.
Proof. unfold introduced. rewrite extend_trust_elem. set_solver. Qed.

Lemma chain_valid_cons trusted verifier w chain :
  chain_valid trusted verifier (w :: chain) ↔
  (rw_prior_identity_pub w ∈ trusted ∧ re_kind (rw_envelope w) = RECEIPT_KIND_IDENTITY_ROTATION_WITNESS ∧
   verify_receipt_v2 (rw_envelope w) (rw_prior_identity_pub w) verifier = Ok tt ∧
   ∀ w', head chain = Some w' → rw_rotation_at w <= rw_rotation_at w') ∧
  chain_valid (extend_trust trusted w) verifier chain.
Proof.
  split.
  - intros Hv. split.
    + destruct (Hv 0%nat w eq_refl) as (Hp & Hk & Hs & Ho). split_and!; [|done|done|].
      * destruct Hp as [?|(? & Hx & _)]; [done|]. cbn in Hx. by apply not_elem_of_nil in Hx.
      * intros w' Hw'. apply Ho. cbn. by rewrite head_lookup in Hw'.
    + intros i x Hx. destruct (Hv (S i) x Hx) as (Hp & ?). split; [|done]. by apply introduced_cons.
  - intros [(Hp & Hk & Hs & Ho) Hv] [|i] x Hx; cbn in Hx.
    + injection Hx as <-. split_and!; [by left|done|done|]. intros w' Hw'. apply Ho. by rewrite head_lookup.
    + destruct (Hv i x Hx) as (Hp' & ?). split; [|done]. cbn [take]. by apply introduced_cons.
Qed.

Lemma walk_witnesses_ok show quote verifier chain index lt trust trust' :
  walk_witnesses show quote verifier index lt trust chain = Ok trust' →
  (∀ w t, head chain = Some w → lt = Some t → t <= rw_rotation_at w) ∧ chain_valid trust verifier chain ∧ ∀ k, k ∈ trust' ↔ introduced trust chain k.
Proof.
  revert index lt trust. induction chain as [|w chain IH]; intros index lt trust; cbn [walk_witnesses].
  - intros [= <-]. split; [done|]. split; [by intros ? ? ?|]. unfold introduced. set_solver.
  - destruct (match lt with Some _ => _ | None => _ end) as [[]|] eqn:Et; cbn; [|done].
    case_bool_decide as Hp; cbn; [|done]. case_bool_decide as Hk; cbn; [|done].
    destruct (verify_receipt_v2 (rw_envelope w) (rw_prior_identity_pub w) verifier) as [[]|] eqn:Hs; cbn; [|done].
    change (if bool_decide (rw_new_identity_pub w ∈ trust) then trust else trust ++ [rw_new_identity_pub w]) with (extend_trust trust w).
    intros (Ho & Hv & Hi)%IH. split_and!.
    + intros w' t [= <-] ->. destruct (rw_rotation_at w <? t) eqn:E; [done|]. lia.
    + apply chain_valid_cons. split_and!; try done. intros w' Hw'. by eapply Ho.
    + intros k. by rewrite Hi, introduced_cons.
Qed.

Lemma walk_witnesses_complete show quote verifier chain index lt trust :
  (∀ w t, head chain = Some w → lt = Some t → t <= rw_rotation_at w) → chain_valid trust verifier chain →
  ∃ trust', walk_witnesses show quote verifier index lt trust chain = Ok trust'.
Proof.
  revert index lt trust. induction chain as [|w chain IH]; intros index lt trust Ho Hv; cbn [walk_witnesses]; [by eexists|].
  apply chain_valid_cons in Hv as [(Hp & Hk & Hs & Hn) Hv].
  assert (match lt with Some t => if rw_rotation_at w <? t then _ else Ok tt | None => Ok tt end = @Ok unit SignError tt) as ->.
  { destruct lt as [t|]; [|done]. specialize (Ho w t eq_refl eq_refl). by destruct (Z.ltb_spec (rw_rotation_at w) t); [lia|]. }
  cbn. rewrite !bool_decide_eq_true_2 by done. cbn. rewrite Hs. cbn. fold (extend_trust trust w). apply IH; [|done].
  intros w' t Hw' [= <-]. by apply Hn.
Qed.

End SigningLemmas.

(** A receipt is accepted along a chain of rotations exactly if there is an anchor, the chain is valid (in order of time, each
    witness a verified receipt of its kind under an anchor or under a key that an earlier witness introduced) and the receipt verifies
    under an anchor or an introduced key. *)
Theorem rotation_chain_exact {B : Blake3Ops} {J : JcsOps} (show : SignError → string) (quote : string → string) (e : ReceiptEnvelope)
  (trusted : list string) (chain : list RotationWitnessEntry) (verifier : Verifier) :
  verify_receipt_v2_with_rotation_chain show quote e trusted chain verifier = Ok tt ↔
  trusted ≠ [] ∧ chain_valid trusted verifier chain ∧ ∃ k, introduced trusted chain k ∧ verify_receipt_v2 e k verifier = Ok tt.
Proof.
  unfold verify_receipt_v2_with_rotation_chain. case_bool_decide as Ht; [naive_solver|]. split.
  - destruct (walk_witnesses _ _ _ _ _ _ _) as [trust|] eqn:Ew; cbn; [|done]. apply walk_witnesses_ok in Ew as (_ & Hv & Hi).
    destruct (existsb _ trust) eqn:Ex; [|done]. intros _. split_and!; [done|done|]. apply existsb_exists in Ex as (k & Hk & Hok).
    exists k. split; [by apply Hi, list_elem_of_In|]. by destruct (verify_receipt_v2 e k verifier) as [[]|].
  - intros (_ & Hv & k & Hk & Hok). destruct (walk_witnesses_complete show quote verifier chain 0 None trusted) as [trust Ew]; [done..|].
    rewrite Ew. cbn. apply walk_witnesses_ok in Ew as (_ & _ & Hi). apply Hi in Hk.
    assert (existsb (λ k, match verify_receipt_v2 e k verifier with Ok _ => true | Err _ => false end) trust = true) as ->; [|done].
    apply existsb_exists. exists k. split; [by apply list_elem_of_In|]. by rewrite Hok.
Qed.

Lemma signed_verifies {B : Blake3Ops} {J : JcsOps} (e e' : ReceiptEnvelope) (signer : Signer) (verifier : Verifier) :
  (∀ m, verifier (signer_public_key signer) m (Envelope.signer_sign signer m) = true) → sign_receipt_v2 e signer = Ok e' →
  verify_receipt_v2 e' (signer_public_key signer) verifier = Ok tt.
Proof.
  intros Hs (i & b & Hi & Hb & ->)%sign_shape. apply verify_shape. split.
  - cbn. rewrite <-Hi. apply id_depends. by rewrite hashing_ignores_signature, hashing_ignores_id.
  - eexists _, b. rewrite hashing_ignores_signature. split; [done|]. by split.
Qed.

(** Signing changes the identifier and the signature only; a receipt signed
    with a key verifies under it, also along any valid chain that introduces the key. *)
Theorem signed_receipt_verifies {B : Blake3Ops} {J : JcsOps} (show : SignError → string) (quote : string → string) (e e' : ReceiptEnvelope)
  (signer : Signer) (verifier : Verifier) (trusted : list string) (chain : list RotationWitnessEntry) :
  (∀ m, verifier (signer_public_key signer) m (Envelope.signer_sign signer m) = true) →
  sign_receipt_v2 e signer = Ok e' →
  verify_receipt_v2 e' (signer_public_key signer) verifier = Ok tt ∧
  e' = with_receipt_signature (re_signature e') (with_receipt_id (re_receipt_id e') e) ∧
  (trusted ≠ [] → chain_valid trusted verifier chain → introduced trusted chain (signer_public_key signer) →
   verify_receipt_v2_with_rotation_chain show quote e' trusted chain verifier = Ok tt).
Proof.
  intros Hs Hsign. pose proof (signed_verifies _ _ _ _ Hs Hsign) as Hv. apply sign_shape in Hsign as (i & b & Hi & Hb & ->).
  split; [done|]. split; [done|]. intros Ht Hc Hk. unfold verify_receipt_v2_with_rotation_chain. rewrite bool_decide_eq_false_2 by done.
  destruct (walk_witnesses_complete show quote verifier chain 0 None trusted) as [trust Ew]; [done..|]. rewrite Ew. cbn.
  apply walk_witnesses_ok in Ew as (_ & _ & Htr). apply Htr in Hk.
  match goal with |- (if existsb ?f trust then _ else _) = _ => assert (existsb f trust = true) as -> end; [|done].
  apply existsb_exists. eexists. split; [by apply list_elem_of_In|]. by rewrite Hv.
Qed.

(** The texts of a member of two objects with one canonical form. *)
Lemma text_field {J : JcsOps} {L : JcsLaws} {A} v v' b k (f : A → string) (o o' : option A) :
  canonicalize_jcs v = Ok b → canonicalize_jcs v' = Ok b → (∀ x y, f x = f y → x = y) →
  jget k v = (λ x, JString (f x)) <$> o → jget k v' = (λ x, JString (f x)) <$> o' → o = o'.
Proof.
  intros Hv Hv' Hf Ho Ho'. pose proof (jcs_determines v v' b k Hv Hv') as E. unfold get_str in E. rewrite Ho, Ho' in E.
  destruct o, o'; cbn in E; try done. injection E as ->%Hf. done.
Qed.

(** The key of [pk] signed the receipts [log] and nothing else. *)
Definition signs_only {J : JcsOps} (verifier : Verifier) (pk : string) (log : list ReceiptEnvelope) : Prop :=
  ∀ m s, verifier pk m s = true → ∃ e0, e0 ∈ log ∧ receipt_bytes (envelope_for_hashing e0 true) = Ok m.

Lemma receipt_bytes_ok {J : JcsOps} v b : receipt_bytes v = Ok b ↔ canonicalize_jcs v = Ok b.
Proof. unfold receipt_bytes. destruct (canonicalize_jcs v); cbn; split; congruence. Qed.

Lemma same_bytes_same_receipt {J : JcsOps} {L : JcsLaws} {M : JcsMemberLaws} e e0 b :
  receipt_bytes (envelope_for_hashing e true) = Ok b → receipt_bytes (envelope_for_hashing e0 true) = Ok b → same_receipt e e0.
Proof.
  rewrite !receipt_bytes_ok. intros He He0.
  pose proof (hashing_members e) as (V1 & V2 & V3 & V4 & V5 & V6 & V7 & V8 & V9 & V10 & V11 & V12 & V13 & _).
  pose proof (hashing_members e0) as (W1 & W2 & W3 & W4 & W5 & W6 & W7 & W8 & W9 & W10 & W11 & W12 & W13 & _).
  pose proof (λ A k f o o', text_field (A := A) _ _ b k f o o' He He0) as T. pose proof (λ k, jcs_members _ _ b k He He0) as C.
  pose proof (C "body") as C8. pose proof (C "challenge_hash") as C11. pose proof (C "verifier_aaguid") as C12.
  pose proof (C "calling_principal") as C13. rewrite V8, W8 in C8. rewrite V11, W11 in C11. rewrite V12, W12 in C12. rewrite V13, W13 in C13.
  assert (∀ k (x y : string), jget k (envelope_for_hashing e true) = Some (JString x) → jget k (envelope_for_hashing e0 true) = Some (JString y) → x = y) as Ts.
  { intros k x y Hx Hy. enough (Some x = Some y) as E by by injection E. by apply (T string k id). }
  split_and!; [by eapply Ts|by eapply Ts|by eapply Ts|by eapply Ts| | | |by injection C8| | |done..].
  - by apply (T string "traceparent" id).
  - assert (TerminationAuthority_str (re_termination_authority e) = TerminationAuthority_str (re_termination_authority e0)) as E by by eapply Ts.
    by destruct (re_termination_authority e), (re_termination_authority e0).
  - apply (T _ "presence_kind" PresenceKind_str); [|done..]. by intros [] [].
  - apply (T _ "presence_reason" PresenceReason_str); [|done..]. by intros [] [].
  - by apply (T string "handle_id" id).
Qed.

(** The first witness that leaves a set of keys which holds the anchors: the key that signed it is in the set. *)
Lemma first_stray trusted chain (honest : list string) :
  trusted ⊆ honest → (∀ i w, chain !! i = Some w → introduced trusted (take i chain) (rw_prior_identity_pub w)) →
  (∀ k, introduced trusted chain k → k ∈ honest) ∨
  ∃ w, w ∈ chain ∧ rw_prior_identity_pub w ∈ honest ∧ rw_new_identity_pub w ∉ honest.
Proof.
  intros Ht. induction chain as [|w chain IH] using rev_ind; intros Hp.
  - left. intros k [?|(w & Hw & _)]; [by apply Ht|by apply not_elem_of_nil in Hw].
  - destruct IH as [Hin|(x & Hx & Hxp & Hxn)].
    + intros i x Hx. assert (i < length chain)%nat by by eapply lookup_lt_Some. specialize (Hp i x).
      rewrite lookup_app_l, take_app_le in Hp by lia. by apply Hp.
    + destruct (decide (rw_new_identity_pub w ∈ honest)) as [Hn|Hn].
      * left. intros k [?|(x & [Hx|Hx%list_elem_of_singleton]%elem_of_app & Hk)]; [by apply Ht| |by subst].
        apply Hin. right. by exists x.
      * right. exists w. split; [set_solver|]. split; [|done]. apply Hin. specialize (Hp (length chain) w).
        rewrite list_lookup_middle, take_app_length in Hp by done. by apply Hp.
    + right. exists x. split; [set_solver|done].
Qed.

(** Whatever key a last witness is said to introduce, the chain stays accepted: the key is not part of what was verified. *)
Lemma rotation_key_unbound {B : Blake3Ops} {J : JcsOps} show quote e trusted chain w k verifier :
  trusted ≠ [] → chain_valid trusted verifier (chain ++ [w]) → verify_receipt_v2 e k verifier = Ok tt →
  verify_receipt_v2_with_rotation_chain show quote e trusted
    (chain ++ [mkRotationWitness (rw_envelope w) (rw_prior_identity_pub w) k (rw_rotation_at w)]) verifier = Ok tt.
Proof.
  intros Ht Hv He. apply rotation_chain_exact. split; [done|]. split.
  - intros i x Hx. destruct (decide (i < length chain)%nat) as [Hi|Hi].
    + rewrite lookup_app_l in Hx by done. specialize (Hv i x). rewrite lookup_app_l in Hv by done. rewrite take_app_le in * by lia.
      destruct (Hv Hx) as (? & ? & ? & Hn). split_and!; try done. intros x' Hx'. destruct (decide (S i < length chain)%nat) as [Hs|Hs].
      * rewrite lookup_app_l in Hx' by done. apply Hn. by rewrite lookup_app_l.
      * replace (S i) with (length chain) in Hx', Hn by lia. rewrite list_lookup_middle in Hx' by done. injection Hx' as <-.
        cbn. apply Hn. by apply list_lookup_middle.
    + pose proof (lookup_lt_Some _ _ _ Hx) as Hl. rewrite length_app in Hl. cbn in Hl. assert (i = length chain) as -> by lia.
      rewrite list_lookup_middle in Hx by done. injection Hx as <-. destruct (Hv (length chain) w) as (Hp & ? & ? & _); [by apply list_lookup_middle|].
      rewrite take_app_length in *. split_and!; try done. intros x' Hx'%lookup_lt_Some. rewrite length_app in Hx'. cbn in Hx'. lia.
  - exists k. split; [|done]. right. eexists. split; [apply elem_of_app; right; by apply list_elem_of_singleton|done].
Qed.

(** C20. What is accepted was signed. Let [honest] be keys, the anchors among them, that signed the receipts in [log] and nothing else
    (of the other keys of the chain nothing is assumed). Then in an accepted receipt and in every witness of its chain the
    identifier is the digest of the canonical form of every other member but the signature, and the chain is in order of time. The receipt has the version, kind, identifier,
    daemon, trace, authority, presence and handle of one that an honest key signed, and the same body and caller up to canonical
    form; or the chain names a new key outside [honest] in a witness entry whose envelope, a rotation witness, an honest key did
    sign. Only the second case is left to a forger, and it is open because the new key stands beside the envelope and is not part of
    what is verified (rotation_key_unbound). Every witness entry that names an honest prior key carries a rotation witness this key
    signed. *)
Theorem accepted_receipt_authentic {B : Blake3Ops} {J : JcsOps} {L : JcsLaws} {M : JcsMemberLaws} (show : SignError → string)
  (quote : string → string) (e : ReceiptEnvelope) (trusted : list string) (chain : list RotationWitnessEntry) (verifier : Verifier)
  (honest : list string) (log : string → list ReceiptEnvelope) :
  trusted ⊆ honest → (∀ k, k ∈ honest → signs_only verifier k (log k)) →
  verify_receipt_v2_with_rotation_chain show quote e trusted chain verifier = Ok tt →
  let signed_witness w := ∃ e0, e0 ∈ log (rw_prior_identity_pub w) ∧ same_receipt (rw_envelope w) e0 ∧ re_kind e0 = RECEIPT_KIND_IDENTITY_ROTATION_WITNESS in
  identified e ∧
  (∀ i w, chain !! i = Some w →
    identified (rw_envelope w) ∧
    (rw_prior_identity_pub w ∈ trusted ∨ ∃ j w', (j < i)%nat ∧ chain !! j = Some w' ∧ rw_new_identity_pub w' = rw_prior_identity_pub w) ∧
    (rw_prior_identity_pub w ∈ honest → signed_witness w) ∧
    ∀ w', chain !! S i = Some w' → rw_rotation_at w <= rw_rotation_at w') ∧
  ((∃ k e0, k ∈ honest ∧ introduced trusted chain k ∧ e0 ∈ log k ∧ same_receipt e e0) ∨
   ∃ w, w ∈ chain ∧ rw_new_identity_pub w ∉ honest ∧ rw_prior_identity_pub w ∈ honest ∧ signed_witness w).
Proof.
  intros Ht Hlog (_ & Hv & k & Hk & Hve)%rotation_chain_exact.
  assert (∀ x q, q ∈ honest → verify_receipt_v2 x q verifier = Ok tt → ∃ e0, e0 ∈ log q ∧ same_receipt x e0) as Ha.
  { intros x q Hq (_ & s & b & _ & Hb & Hs)%verify_shape. destruct (Hlog q Hq b s Hs) as (e0 & He0 & Hb0). exists e0. split; [done|].
    by eapply same_bytes_same_receipt. }
  assert (∀ i w, chain !! i = Some w → rw_prior_identity_pub w ∈ honest →
    ∃ e0, e0 ∈ log (rw_prior_identity_pub w) ∧ same_receipt (rw_envelope w) e0 ∧ re_kind e0 = RECEIPT_KIND_IDENTITY_ROTATION_WITNESS) as Hw.
  { intros i w Hi Hq. destruct (Hv i w Hi) as (_ & Hkind & Hs & _). destruct (Ha _ _ Hq Hs) as (e0 & He0 & Hsame). exists e0.
    split_and!; [done|done|]. destruct Hsame as (_ & <- & _). done. }
  split; [by apply computed_identified; apply verify_shape in Hve as [? _]|]. split.
  - intros i w Hi. destruct (Hv i w Hi) as (Hp & _ & Hs & Hn). split_and!; [by apply computed_identified; apply verify_shape in Hs as [? _]| |by eapply Hw|done].
    destruct Hp as [?|(w' & (j & Hj)%list_elem_of_lookup & Hnew)]; [by left|]. right. apply lookup_take_Some in Hj as [Hj Hlt]. eauto.
  - destruct (first_stray trusted chain honest Ht) as [Hin|(w & Hin & Hp & Hn)]; [intros i w Hi; by apply (Hv i w Hi)| |].
    + left. destruct (Ha e k (Hin k Hk) Hve) as (e0 & ? & ?). exists k, e0. auto.
    + right. exists w. split_and!; [done|done|done|]. apply list_elem_of_lookup in Hin as [i Hi]. by eapply Hw.
Qed.

(** The parent's signature of a spawn witness verifies over the body it was added to, whatever was in its place before. *)
Lemma spawn_witness_verifies {J : JcsOps} (body body' : Json) (signer : Signer) (verifier : Verifier) :
  (∀ m, verifier (signer_public_key signer) m (Envelope.signer_sign signer m) = true) →
  sign_spawn_witness_parent_signature body signer = Ok body' →
  verify_spawn_witness_parent_signature body' (signer_public_key signer) verifier = Ok tt.
Proof.
  intros Hs. destruct body as [| | | | |m]; try done. unfold sign_spawn_witness_parent_signature, spawn_witness_canonical_bytes_for_parent.
  destruct (receipt_bytes _) as [b|] eqn:Eb; [|done]. intros [= <-].
  unfold verify_spawn_witness_parent_signature, spawn_witness_canonical_bytes_for_parent, get_str. rewrite jget_app, jget_removed. cbn.
  rewrite bool_decide_eq_true_2 by done. cbn. rewrite remove_app, remove_idemp.
  cbn. rewrite app_nil_r, Eb. cbn. by rewrite Hs.
Qed.

(** ** Lemmas: rollups *)

Definition group_of (mid : string) (receipts : list RollupReceipt) : list RollupReceipt :=
  List.filter (λ r, bool_decide (rr_materialization_id r = Some mid)) receipts.

Lemma rollup_groups_lookup receipts mid :
  rollup_groups receipts !! mid = match group_of mid receipts with [] => None | g => Some g end.
Proof.
  unfold rollup_groups. induction receipts as [|r receipts IH] using rev_ind; [done|]. rewrite foldl_app. cbn [foldl].
  unfold group_of in *. rewrite List.filter_app. cbn [List.filter]. unfold push_group at 1.
  destruct (rr_materialization_id r) as [mid'|] eqn:Em.
  - destruct (decide (mid' = mid)) as [->|Hne].
    + rewrite bool_decide_eq_true_2 by done. rewrite lookup_insert_eq, IH. by destruct (List.filter _ receipts).
    + rewrite bool_decide_eq_false_2 by congruence. rewrite lookup_insert_ne, IH, app_nil_r by done. done.
  - rewrite bool_decide_eq_false_2 by done. by rewrite app_nil_r.
Qed.

Lemma leb_trans (a b c : string) : String.leb a b = true → String.leb b c = true → String.leb a c = true.
Proof. intros H1 H2. apply Is_true_true. apply (@transitivity _ String.le _ a b c); by apply Is_true_true. Qed.

Lemma leb_refl (a : string) : String.leb a a = true.
Proof. by destruct (String.leb_total a a). Qed.

Section Timeline.
Context {A : Type} (time : A → string).
Let le (a b : A) := String.leb (time a) (time b).

Lemma ordered_head x l : ordered le (x :: l) → ∀ y, y ∈ x :: l → String.leb (time x) (time y) = true.
Proof.
  revert x. induction l as [|z l IH]; intros x Ho y.
  - rewrite list_elem_of_singleton. intros ->. apply leb_refl.
  - destruct Ho as [Hxz Ho]. rewrite elem_of_cons. intros [->|Hy]; [apply leb_refl|]. eapply leb_trans; [exact Hxz|]. by apply IH.
Qed.

Lemma ordered_last l z : ordered le l → last l = Some z → ∀ y, y ∈ l → String.leb (time y) (time z) = true.
Proof.
  induction l as [|x [|w l] IH]; intros Ho Hz y Hy; [done| |].
  - apply list_elem_of_singleton in Hy as ->. injection Hz as ->. apply leb_refl.
  - destruct Ho as [Hxw Ho]. rewrite elem_of_cons in Hy. destruct Hy as [->|Hy]; [|by apply IH].
    eapply leb_trans; [exact Hxw|]. apply IH; [done|done|]. by left.
Qed.

Lemma sort_time_ordered l : ordered le (sort_by le l).
Proof. apply sort_by_ordered. intros x y. apply string_leb_total. Qed.

End Timeline.

(** A sequence in the order of a text. *)
Lemma ordered_pairs {A} (time : A → string) l :
  ordered (λ a b, String.leb (time a) (time b)) l → ∀ i j x y, (i <= j)%nat → l !! i = Some x → l !! j = Some y → String.leb (time x) (time y) = true.
Proof.
  induction l as [|z l IH]; intros Ho [|i] j x y Hij Hx Hy; try done.
  - injection Hx as ->. eapply ordered_head; [exact Ho|]. by eapply list_elem_of_lookup_2.
  - destruct j as [|j]; [lia|]. cbn in Hx, Hy. eapply IH; [|apply le_S_n, Hij|done|done]. by destruct l; [|destruct Ho].
Qed.

Lemma build_rollup_times mid g s :
  s ∈ ro_sub_receipts (build_rollup mid g) →
  String.leb (ro_started_at (build_rollup mid g)) (sr_ts s) = true ∧
  ∀ t, ro_ended_at (build_rollup mid g) = Some t → String.leb (sr_ts s) t = true.
Proof.
  cbn [build_rollup ro_sub_receipts ro_started_at ro_ended_at].
  pose proof (sort_time_ordered sr_ts (sub_receipt <$> g)) as Ho. set (l := sort_by _ _) in *. intros Hs. split.
  - destruct l as [|x l]; [by apply not_elem_of_nil in Hs|]. exact (ordered_head sr_ts x l Ho s Hs).
  - intros t Ht. assert (sr_ts <$> last l = Some t) as Hl by by destruct (rollup_outcome g).
    destruct (last l) as [z|] eqn:El; [|done]. injection Hl as <-. by eapply ordered_last.
Qed.

Lemma first_some_none {A C} (f : A → option C) l : first_some f l = None ↔ Forall (λ x, f x = None) l.
Proof. unfold first_some. induction l as [|x l IH]; [done|]. cbn. rewrite Forall_cons. destruct (f x); [naive_solver|]. rewrite IH. naive_solver. Qed.

Lemma existsb_elem {A} (P : A → Prop) `{∀ x, Decision (P x)} l : existsb (λ x, bool_decide (P x)) l = true ↔ ∃ x, x ∈ l ∧ P x.
Proof.
  rewrite existsb_exists. split; intros (x & H1 & H2); exists x; (split; [by apply list_elem_of_In|]); [by apply bool_decide_eq_true in H2|by apply bool_decide_eq_true].
Qed.

Lemma existsb_find {A} (p : A → bool) l : existsb p l = match List.find p l with Some _ => true | None => false end.
Proof. induction l as [|x l IH]; [done|]. cbn. by destruct (p x). Qed.

Lemma rollup_success g :
  rollup_outcome g = RO_Success ↔
  Forall (λ r, rr_denied_reason r = None) g ∧ (∃ r, r ∈ g ∧ rr_kind r = "broker.revocation") ∧
  ∃ r, List.find (λ r, bool_decide (rr_kind r = "session.construct_invocation")) g = Some r ∧ rr_exit_code r = Some 0.
Proof.
  unfold rollup_outcome. set (inv := λ r, bool_decide (rr_kind r = "session.construct_invocation")).
  pose proof (first_some_none rr_denied_reason g) as Hd. pose proof (existsb_elem (λ r, rr_kind r = "broker.revocation") g) as Hr. cbn in Hr.
  pose proof (existsb_find inv g) as Hi. destruct (first_some rr_denied_reason g) as [reason|] eqn:Ed.
  { split; [done|]. intros [H%Hd _]. done. }
  destruct (List.find inv g) as [r|] eqn:Ef; rewrite Hi; cbn; [|split; [done|naive_solver]].
  destruct (existsb _ g); cbn; [|split; [done|intros (_ & H%Hr & _); done]].
  case_bool_decide as Hx; [|naive_solver]. split; [|done]. intros _. split_and!; [by apply Hd|by apply Hr|by exists r].
Qed.

(** For every order in which the map yields its groups there is one rollup per invocation, in the order of their starts; a rollup
    holds exactly the receipts of its invocation, in the order of time and within its start and end; it has no end exactly if it is in
    flight; and it is a success exactly if no receipt tells of a denial, one tells of the revocation, and the first of the invocation
    carries exit code 0. *)
Theorem rollups_partition (receipts : list RollupReceipt) (order : list (string * list RollupReceipt)) :
  iteration_of receipts order →
  let rs := compute_rollups order in
  NoDup (ro_materialization_id <$> rs) ∧
  (∀ mid, mid ∈ ro_materialization_id <$> rs ↔ group_of mid receipts ≠ []) ∧
  (∀ i j a b, (i <= j)%nat → rs !! i = Some a → rs !! j = Some b → String.leb (ro_started_at a) (ro_started_at b) = true) ∧
  ∀ ro, ro ∈ rs →
    let g := group_of (ro_materialization_id ro) receipts in
    ro_sub_receipts ro ≡ₚ sub_receipt <$> g ∧
    (∀ s, s ∈ ro_sub_receipts ro → String.leb (ro_started_at ro) (sr_ts s) = true ∧ ∀ t, ro_ended_at ro = Some t → String.leb (sr_ts s) t = true) ∧
    (ro_ended_at ro = None ↔ ro_outcome ro = RO_InFlight) ∧
    (ro_outcome ro = RO_Success ↔
     Forall (λ r, rr_denied_reason r = None) g ∧ (∃ r, r ∈ g ∧ rr_kind r = "broker.revocation") ∧
     ∃ r, List.find (λ r, bool_decide (rr_kind r = "session.construct_invocation")) g = Some r ∧ rr_exit_code r = Some 0).
Proof.
  intros Hit rs. assert (ro_materialization_id <$> rs ≡ₚ order.*1) as Hids.
  { unfold rs, compute_rollups. rewrite sort_by_perm, <-list_fmap_compose. done. }
  assert (∀ mid g, (mid, g) ∈ order ↔ rollup_groups receipts !! mid = Some g) as Hord.
  { intros mid g. unfold iteration_of in Hit. by rewrite Hit, elem_of_map_to_list. }
  split_and!.
  - rewrite Hids, Hit. apply NoDup_fst_map_to_list.
  - intros mid. rewrite Hids, list_elem_of_fmap. split.
    + intros ((mid', g) & -> & Hg%Hord). rewrite rollup_groups_lookup in Hg. cbn. by destruct (group_of mid' receipts).
    + intros Hne. exists (mid, group_of mid receipts). split; [done|]. apply Hord. rewrite rollup_groups_lookup. by destruct (group_of mid receipts).
  - apply ordered_pairs, sort_time_ordered.
  - intros ro Hro. assert (∃ mid g, group_of mid receipts = g ∧ g ≠ [] ∧ ro = build_rollup mid g) as (mid & g & Hg & Hne & ->).
    { unfold rs, compute_rollups in Hro. rewrite sort_by_perm in Hro. apply list_elem_of_fmap in Hro as ((mid, g) & -> & Hg%Hord).
      rewrite rollup_groups_lookup in Hg. exists mid, g. by destruct (group_of mid receipts); simplify_eq. }
    cbn [build_rollup ro_materialization_id]. rewrite Hg. split_and!.
    + apply sort_by_perm.
    + intros s. apply build_rollup_times.
    + cbn [build_rollup ro_ended_at ro_outcome].
      assert (sort_by (λ a b, String.leb (sr_ts a) (sr_ts b)) (sub_receipt <$> g) ≠ []) as Hs.
      { intros E. apply Hne. apply (f_equal length) in E. rewrite sort_by_perm, length_fmap in E. by destruct g. }
      apply last_is_Some in Hs as [x ->]. by destruct (rollup_outcome g).
    + apply rollup_success.
Qed.

(** ** A concrete instance *)

Module ToyReceipts.

(** Digests of 32 bytes: a polynomial in the bytes. *)
Definition poly (x : bytes) : N := fold_left (λ h a, (h * 1000003 + N_of_ascii a + 1) mod (2 ^ 256))%N x 5381%N.
Fixpoint le_bytes (n : nat) (h : N) : bytes := match n with O => [] | S n => ascii_of_N (h mod 256) :: le_bytes n (h / 256) end.
Lemma digest_bytes_length n h : length (le_bytes n h) = n.
Proof. revert h. induction n as [|n IH]; intros h; cbn; [done|]. by rewrite IH. Qed.

#[export] Instance b3 : Blake3Ops := {| blake3 x := le_bytes 32 (poly x) |}.
#[export] Instance b3_laws : Blake3Laws.
Proof. split. intros x. apply digest_bytes_length. Qed.

(** A code of values that is free of prefixes. *)
Fixpoint enc (s : string) (r : bytes) : bytes :=
  match s with EmptyString => "0"%char :: r | String a s => "1"%char :: a :: enc s r end.
Fixpoint enc_json (v : Json) (r : bytes) : bytes :=
  match v with
  | JNull => "n"%char :: r
  | JBool b => (if b then "t"%char else "f"%char) :: r
  | JNumber s => "d"%char :: enc s r
  | JString s => "s"%char :: enc s r
  | JArray l => "a"%char :: (fix go l := match l with [] => "."%char :: r | x :: l => ","%char :: enc_json x (go l) end) l
  | JObject m => "o"%char :: (fix go m := match m with [] => "."%char :: r | (k, x) :: m => ","%char :: enc k (enc_json x (go m)) end) m
  end.

Lemma enc_text_inj s s' r r' : enc s r = enc s' r' → s = s' ∧ r = r'.
Proof. revert s'. induction s as [|a s IH]; intros [|a' s']; cbn; [by intros [= ->]|done|done|]. intros [= -> [-> ->]%IH]. done. Qed.

Lemma enc_json_inj : ∀ v v' r r', enc_json v r = enc_json v' r' → v = v' ∧ r = r'.
Proof.
  fix IH 1. intros [|[]|s|s|l|m] [|[]|s'|s'|l'|m'] r r'; cbn; try discriminate.
  1-3: by intros [= ->].
  - by intros [= [-> ->]%enc_text_inj].
  - by intros [= [-> ->]%enc_text_inj].
  - intros [= E]. revert l' E. induction l as [|x l IHl]; intros [|x' l']; try discriminate.
    + by intros [= ->].
    + intros [= [-> E]%IH]. destruct (IHl l' E) as [[= ->] ->]. done.
  - intros [= E]. revert m' E. induction m as [|[k x] m IHm]; intros [|[k' x'] m']; try discriminate.
    + by intros [= ->].
    + intros [= [-> [-> E]%IH]%enc_text_inj]. destruct (IHm m' E) as [[= ->] ->]. done.
Qed.

#[export] Instance jcs : JcsOps := {| canonicalize_jcs v := Ok (enc_json v []) |}.
#[export] Instance jcs_laws : JcsLaws.
Proof. split; [by eexists|]. intros v v' b k [= <-] [= [-> _]%enc_json_inj]. done. Qed.
#[export] Instance jcs_member_laws : JcsMemberLaws.
Proof. split. intros v v' b k [= <-] [= [-> _]%enc_json_inj]. done. Qed.

Definition tool_call : ReceiptEnvelope :=
  mkReceipt RECEIPT_VERSION_V2 "atomic.tool_call" "" "root" None UserSession (Some AttestedNow) (JObject [("tool", JString "echo")]) None
    (Some (mkCallingPrincipal 501 20 7)) None None None None.
Definition rotation : ReceiptEnvelope :=
  mkReceipt RECEIPT_VERSION_V2 RECEIPT_KIND_IDENTITY_ROTATION_WITNESS "" "root" None DaemonPersonaAuthority None
    (JObject [("prev_epoch_root_id", JString "e0"); ("next_epoch_root_id", JString "e1")]) None None None None None None.

(** Signatures of [k] are texts that name [k]; the keys check them. *)
Definition key (k : string) : Signer := mkSigner (λ m, k +:+ of_bytes m) k.
Definition toy_verifier : Verifier := λ pk m s, bool_decide (s = pk +:+ of_bytes m).
Definition signed (e : ReceiptEnvelope) (k : string) : ReceiptEnvelope := match sign_receipt_v2 e (key k) with Ok e => e | Err _ => e end.
Definition hop : RotationWitnessEntry := mkRotationWitness (signed rotation "k0") "k0" "k1" 1000.

(** A verifier that accepts what the two keys signed. *)
Definition log (k : string) : list ReceiptEnvelope :=
  if bool_decide (k = "k0") then [signed rotation "k0"] else if bool_decide (k = "k1") then [signed tool_call "k1"] else [].
Definition log_verifier : Verifier := λ pk m s,
  existsb (λ e, match receipt_bytes (envelope_for_hashing e true) with Ok b => bool_decide (b = m) | Err _ => false end) (log pk).

Definition view (mid : option string) (kind ts : string) (exit : option Z) : RollupReceipt :=
  mkRollupReceipt mid kind ts "h" None None None None None None exit None.
Definition views : list RollupReceipt :=
  [view (Some "m1") "broker.materialization" "10:02" None; view None "session.open" "10:00" None;
   view (Some "m1") "session.construct_invocation" "10:03" (Some 0); view (Some "m2") "broker.materialization" "10:01" None;
   view (Some "m1") "broker.revocation" "10:04" None].

End ToyReceipts.

#[local] Existing Instances ToyReceipts.b3 ToyReceipts.b3_laws ToyReceipts.jcs ToyReceipts.jcs_laws ToyReceipts.jcs_member_laws.

Lemma toy_hop_kind : re_kind (rw_envelope ToyReceipts.hop) = RECEIPT_KIND_IDENTITY_ROTATION_WITNESS.
Proof. vm_compute. reflexivity. Qed.

Lemma toy_hop_valid verifier :
  verify_receipt_v2 (rw_envelope ToyReceipts.hop) (rw_prior_identity_pub ToyReceipts.hop) verifier = Ok tt → chain_valid ["k0"] verifier [ToyReceipts.hop].
Proof.
  intros Hv [|i] w Hw; [|by destruct i]. injection Hw as <-. split; [left; apply list_elem_of_singleton; reflexivity|].
  split; [exact toy_hop_kind|]. split; [exact Hv|done].
Qed.

Lemma toy_log_signs k : signs_only ToyReceipts.log_verifier k (ToyReceipts.log k).
Proof.
  intros m s. unfold ToyReceipts.log_verifier. rewrite existsb_exists. intros (e & He%list_elem_of_In & Hm). exists e. split; [done|].
  destruct (receipt_bytes _); [|done]. apply bool_decide_eq_true in Hm. by subst.
Qed.

Lemma toy_signed : sign_receipt_v2 ToyReceipts.tool_call (ToyReceipts.key "k1") = Ok (ToyReceipts.signed ToyReceipts.tool_call "k1").
Proof. vm_compute. reflexivity. Qed.

Lemma toy_accepted :
  verify_receipt_v2_with_rotation_chain (λ _, "") id (ToyReceipts.signed ToyReceipts.tool_call "k1") ["k0"] [ToyReceipts.hop] ToyReceipts.log_verifier = Ok tt.
Proof. vm_compute. reflexivity. Qed.

Lemma toy_hop_verifies : verify_receipt_v2 (rw_envelope ToyReceipts.hop) (rw_prior_identity_pub ToyReceipts.hop) ToyReceipts.toy_verifier = Ok tt.
Proof. vm_compute. reflexivity. Qed.

Lemma toy_key_verifies m : ToyReceipts.toy_verifier "k1" m (Envelope.signer_sign (ToyReceipts.key "k1") m) = true.
Proof. by apply bool_decide_eq_true. Qed.

Lemma toy_iteration : iteration_of ToyReceipts.views (map_to_list (rollup_groups ToyReceipts.views)).
Proof. unfold iteration_of. reflexivity. Qed.

Lemma toy_rollup_count : length (compute_rollups (map_to_list (rollup_groups ToyReceipts.views))) = 2%nat.
Proof. vm_compute. reflexivity. Qed.

(** A receipt of the second key is accepted from the first over one rotation. *)
Lemma signed_receipt_verifies_witness :
  verify_receipt_v2_with_rotation_chain (λ _, "") id (ToyReceipts.signed ToyReceipts.tool_call "k1") ["k0"] [ToyReceipts.hop] ToyReceipts.toy_verifier = Ok tt.
Proof.
  refine (proj2 (proj2 (signed_receipt_verifies (λ _, "") id ToyReceipts.tool_call (ToyReceipts.signed ToyReceipts.tool_call "k1")
    (ToyReceipts.key "k1") ToyReceipts.toy_verifier ["k0"] [ToyReceipts.hop] toy_key_verifies toy_signed)) _ _ _).
  - discriminate.
  - exact (toy_hop_valid _ toy_hop_verifies).
  - right. exists ToyReceipts.hop. split; [apply list_elem_of_singleton; reflexivity|reflexivity].
Defined.

Lemma accepted_receipt_authentic_witness :
  identified (ToyReceipts.signed ToyReceipts.tool_call "k1").
Proof.
  refine (proj1 (accepted_receipt_authentic (λ _, "") id (ToyReceipts.signed ToyReceipts.tool_call "k1") ["k0"] [ToyReceipts.hop]
    ToyReceipts.log_verifier ["k0"; "k1"] ToyReceipts.log _ (λ k _, toy_log_signs k) toy_accepted)).
  intros k Hk%list_elem_of_singleton. rewrite Hk. left.
Defined.

Lemma merkle_root_pads_witness :
  merkle_root (merkle_leaf <$> [["a"]; ["b"]; ["c"]]%char) = merkle_root (merkle_leaf <$> [["a"]; ["b"]; ["c"]; ["c"]]%char).
Proof. exact (merkle_root_pads [] (merkle_leaf ["a"%char]) (merkle_leaf ["b"%char]) (merkle_leaf ["c"%char]) (ex_intro _ 0%nat eq_refl)). Defined.

Lemma rollups_partition_witness :
  length (compute_rollups (map_to_list (rollup_groups ToyReceipts.views))) = 2%nat ∧
  NoDup (ro_materialization_id <$> compute_rollups (map_to_list (rollup_groups ToyReceipts.views))).
Proof. split; [exact toy_rollup_count|]. exact (proj1 (rollups_partition ToyReceipts.views _ toy_iteration)). Defined.
