(* ===== verification/ClaimJournal.v ===== *)
(** * The claim journal

    crates/ember-daemon/src/infra/claim_journal.rs: the claims of sessions and grants, in segments with a root each, recorded together
    with a row of the audit log; infra/receipt/issue.rs: the receipt of a closed scope, with the chain of principals of
    infra/identity_substrate.rs. *)

From stdpp Require Import base gmap sets list strings sorting.
From Stdlib Require Import Ascii Lia ZArith.
From S2P Require Import Prelude CoreTypes Numbers EventCodec EventDecode Envelope Materialize Metering ActionPolicy AuditLog Presence Receipts.

Local Infix "+:+" := String.append (at level 60, right associativity).
Local Open Scope Z_scope.
Local Notation "'let??' p ':=' e 'in' k" := (result_bind e (fun p => k)) (at level 200, p strict pattern, e at level 200, k at level 200, right associativity).

(** ** Data *)

Inductive ClaimScopeKind := AuthorityLane | GrantScope.
Inductive ClaimKind := CK_Approval | CK_Denial | CK_CredentialVended | CK_ScopeCheck.

Record ScopeRef := mkScopeRef { sf_kind : ClaimScopeKind; sf_id : string }.

#[export] Instance ClaimScopeKind_eq_dec : EqDecision ClaimScopeKind.
Proof. solve_decision. Defined.
#[export] Instance ClaimKind_eq_dec : EqDecision ClaimKind.
Proof. solve_decision. Defined.
#[export] Instance ScopeRef_eq_dec : EqDecision ScopeRef.
Proof. solve_decision. Defined.
#[export] Instance RollupOutcome_eq_dec : EqDecision RollupOutcome.
Proof. solve_decision. Defined.

Record AuditEvidenceInput := mkEvidence {
  av_agent_id : option string; av_action : string; av_credential : option string; av_outcome : string; av_details : option string }.

Record SuccessfulClaimInput := mkClaimInput {
  ci_source_key : string; ci_occurred_at : string; ci_claim_kind : ClaimKind; ci_tool : string; ci_action_ref : option ActionRef;
  ci_runner_class : option string; ci_execution_domain : option string; ci_materialization_class : option string; ci_input_hash : string;
  ci_input_redacted : Json; ci_resolved : Json; ci_audit : AuditEvidenceInput; ci_persona_id : option string; ci_grant_id : option string;
  ci_device_id : option string; ci_delegation_id : option string; ci_materialization_id : option string; ci_credential_name : option string }.

Record ClaimEvent := mkClaimEvent {
  ce_ts : string; ce_kind : ClaimKind; ce_tool : string; ce_action_ref : option ActionRef; ce_input_hash : string; ce_input_redacted : Json;
  ce_resolved : Json }.

Inductive AppendDisposition :=
| Appended (source_key : string) (audit_event_id scope_seq segment_no segment_seq : Z)
| Duplicate (source_key : string) (audit_event_id scope_seq : Z).

Record ScopedAppendDisposition := mkScoped { sa_scope : ScopeRef; sa_disposition : AppendDisposition }.

Inductive ClaimJournalError :=
| EmptyScopeId | MissingAuditAction | MissingSourceKey | MissingTool | MissingInputHash | EmptyPluginAddress | ScopeNotFound
| Backend (msg : string).

Definition DEFAULT_CLAIM_JOURNAL_SEGMENT_TARGET : Z := 64.

(** *** Tables *)

Record ScopeRow := mkScopeRow {
  sc_status : string; sc_next_scope_seq : Z; sc_open_segment_no : Z; sc_created_at : string; sc_closed_at : option string }.

Record SegmentRow := mkSegment {
  sg_segment_no : Z; sg_status : string; sg_first_scope_seq : Z; sg_last_scope_seq : Z; sg_claim_count : Z; sg_started_at : string;
  sg_ended_at : string; sg_merkle_root : string }.

Record ClaimRow := mkClaimRow {
  cr_scope_seq : Z; cr_segment_no : Z; cr_segment_seq : Z; cr_source_key : string; cr_audit_event_id : Z; cr_ts : string;
  cr_claim_kind : string; cr_tool : string; cr_plugin_address : option string; cr_action_key : option string;
  cr_action_version : option string; cr_runner_class : option string; cr_execution_domain : option string;
  cr_materialization_class : option string; cr_legacy_flat : bool; cr_input_hash : string; cr_input_redacted_json : string;
  cr_resolved_json : string; cr_persona_id : option string; cr_grant_id : option string; cr_device_id : option string;
  cr_delegation_id : option string; cr_materialization_id : option string; cr_credential_name : option string }.

(** The key of a scope is the pair of its columns; rows of one scope come in the order of insertion. *)
Definition ScopeKey : Type := string * string.

Record Journal := mkJournal {
  j_scopes : gmap ScopeKey ScopeRow; j_segments : gmap ScopeKey (list SegmentRow); j_claims : gmap ScopeKey (list ClaimRow);
  j_audit : AuditStore }.

Definition segments_of (j : Journal) (k : ScopeKey) : list SegmentRow := default [] (j_segments j !! k).
Definition claims_of (j : Journal) (k : ScopeKey) : list ClaimRow := default [] (j_claims j !! k).

Definition set_scope (k : ScopeKey) (r : ScopeRow) (j : Journal) : Journal :=
  mkJournal (<[k := r]> (j_scopes j)) (j_segments j) (j_claims j) (j_audit j).
Definition set_segments (k : ScopeKey) (l : list SegmentRow) (j : Journal) : Journal :=
  mkJournal (j_scopes j) (<[k := l]> (j_segments j)) (j_claims j) (j_audit j).
Definition set_claims (k : ScopeKey) (l : list ClaimRow) (j : Journal) : Journal :=
  mkJournal (j_scopes j) (j_segments j) (<[k := l]> (j_claims j)) (j_audit j).
Definition set_audit (a : AuditStore) (j : Journal) : Journal := mkJournal (j_scopes j) (j_segments j) (j_claims j) a.

(** What fails around a call: the statement that opens the transaction, the lookups of earlier claims, the writes on the tables, the
    COMMIT, which then undoes the transaction. [je_show] displays an error of the audit log. *)
Record JournalEnv := mkJournalEnv {
  je_audit : AuditEnv; je_begin : option string; je_lookup_fails : bool; je_write : option string; je_commit : option string; je_now : string;
  je_show : AuditError → string }.

(** [serde_json::to_string] and [from_str] of a value *)
Class JsonString := { json_to_string : Json → string; json_from_str : string → result Json string }.

(** ** Validation *)

Definition scope_kind_str (k : ClaimScopeKind) : string := match k with AuthorityLane => "session" | GrantScope => "grant" end.
Definition scope_key (s : ScopeRef) : ScopeKey := (scope_kind_str (sf_kind s), sf_id s).

Definition claim_kind_str (k : ClaimKind) : string :=
  match k with CK_Approval => "approval" | CK_Denial => "denial" | CK_CredentialVended => "credential_vended" | CK_ScopeCheck => "scope_check" end.

Definition claim_kind_from_str (kind : string) : result ClaimKind ClaimJournalError :=
  if bool_decide (kind = "approval") then Ok CK_Approval
  else if bool_decide (kind = "denial") then Ok CK_Denial
  else if bool_decide (kind = "credential_vended") then Ok CK_CredentialVended
  else if bool_decide (kind = "scope_check") then Ok CK_ScopeCheck
  else Err (Backend ("unknown claim_kind in journal: " +:+ kind)).

Definition validate_scope (s : ScopeRef) : result unit ClaimJournalError :=
  if str_is_empty (str_trim (sf_id s)) then Err EmptyScopeId else Ok tt.

Definition validate_input (i : SuccessfulClaimInput) : result unit ClaimJournalError :=
  if str_is_empty (str_trim (ci_source_key i)) then Err MissingSourceKey
  else if str_is_empty (str_trim (av_action (ci_audit i))) then Err MissingAuditAction
  else if str_is_empty (str_trim (ci_tool i)) then Err MissingTool
  else if str_is_empty (str_trim (ci_input_hash i)) then Err MissingInputHash
  else Ok tt.

Fixpoint normalize_scopes (normalized scopes : list ScopeRef) : result (list ScopeRef) ClaimJournalError :=
  match scopes with
  | [] => Ok normalized
  | s :: scopes => validate_scope s ;? normalize_scopes (if bool_decide (s ∈ normalized) then normalized else normalized ++ [s]) scopes
  end.

Definition validate_scope_set (scopes : list ScopeRef) : result (list ScopeRef) ClaimJournalError :=
  let? normalized := normalize_scopes [] scopes in if bool_decide (normalized = []) then Err EmptyScopeId else Ok normalized.

Definition validate_plugin_address (p : string) : result unit ClaimJournalError :=
  if str_is_empty (str_trim p) then Err EmptyPluginAddress else Ok tt.

Definition backfill_action_ref_from_tool (tool : string) : option ActionRef :=
  match ActionRef_parse (str_trim tool) with Ok r => Some r | Err _ => None end.

(** The reference, and whether there is only the flat text. *)
Definition resolve_action_ref (i : SuccessfulClaimInput) : option ActionRef * bool :=
  match ci_action_ref i with
  | Some r => (Some r, false)
  | None => match backfill_action_ref_from_tool (ci_tool i) with Some r => (Some r, false) | None => (None, true) end
  end.

(** ** Statements *)

(** A write on the tables. *)
Definition exec (e : JournalEnv) (j : Journal) : result Journal ClaimJournalError :=
  match je_write e with Some msg => Err (Backend msg) | None => Ok j end.

Definition no_rows {A} (o : option A) : result A ClaimJournalError := ok_or o (Backend "Query returned no rows").

Definition find_segment (no : Z) (l : list SegmentRow) : option SegmentRow := List.find (λ s, sg_segment_no s =? no) l.

(** [INSERT OR IGNORE] of a scope and of a segment *)
Definition insert_scope (k : ScopeKey) (r : ScopeRow) (j : Journal) : Journal :=
  match j_scopes j !! k with Some _ => j | None => set_scope k r j end.
Definition insert_segment (k : ScopeKey) (s : SegmentRow) (j : Journal) : Journal :=
  match find_segment (sg_segment_no s) (segments_of j k) with Some _ => j | None => set_segments k (segments_of j k ++ [s]) j end.

Definition update_segment (k : ScopeKey) (no : Z) (f : SegmentRow → SegmentRow) (j : Journal) : Journal :=
  set_segments k ((λ s, if sg_segment_no s =? no then f s else s) <$> segments_of j k) j.
Definition update_scope (k : ScopeKey) (f : ScopeRow → ScopeRow) (j : Journal) : Journal :=
  match j_scopes j !! k with Some r => set_scope k (f r) j | None => j end.

Definition with_open_segment (no : Z) (r : ScopeRow) : ScopeRow :=
  mkScopeRow (sc_status r) (sc_next_scope_seq r) no (sc_created_at r) (sc_closed_at r).
Definition with_next_seq (n : Z) (r : ScopeRow) : ScopeRow :=
  mkScopeRow (sc_status r) n (sc_open_segment_no r) (sc_created_at r) (sc_closed_at r).
Definition add_claim (seq : Z) (at_ root : string) (s : SegmentRow) : SegmentRow :=
  mkSegment (sg_segment_no s) (sg_status s) (sg_first_scope_seq s) seq (sg_claim_count s + 1) (sg_started_at s) at_ root.

Definition empty_segment (no seq : Z) (at_ : string) : SegmentRow := mkSegment no "open" seq seq 0 at_ at_ "".

Section Journaling.
Context {B : Blake3Ops} {A : AuditOps} {S : JsonString}.

(** The root over input hashes. *)
Definition segment_root (hashes : list string) : string :=
  if bool_decide (hashes = []) then "" else hex_lower (merkle_root ((λ h, merkle_leaf (to_bytes h)) <$> hashes)).

Definition compute_segment_merkle_root (j : Journal) (k : ScopeKey) (segment_no : Z) : string :=
  segment_root (cr_input_hash <$> sort_by (λ a b, cr_segment_seq a <=? cr_segment_seq b)
                                    (List.filter (λ c, cr_segment_no c =? segment_no) (claims_of j k))).

Definition upsert_scope_and_segment_state (e : JournalEnv) (segment_target : Z) (k : ScopeKey) (occurred_at : string) (j : Journal)
  : result (Z * Z * Z * Journal) ClaimJournalError :=
  let? j := exec e (insert_scope k (mkScopeRow "open" 1 0 occurred_at None) j) in
  let? row := no_rows (j_scopes j !! k) in
  let scope_seq := sc_next_scope_seq row in
  let? j := exec e (insert_segment k (empty_segment (sc_open_segment_no row) scope_seq occurred_at) j) in
  let? seg := no_rows (find_segment (sc_open_segment_no row) (segments_of j k)) in
  let?? (no, j) :=
    if segment_target <=? sg_claim_count seg
    then
      let no := sc_open_segment_no row + 1 in
      let? j := exec e (update_scope k (with_open_segment no) j) in
      let? j := exec e (insert_segment k (empty_segment no scope_seq occurred_at) j) in
      Ok (no, j)
    else Ok (sc_open_segment_no row, j) in
  let? seg := no_rows (find_segment no (segments_of j k)) in
  Ok (scope_seq, no, sg_claim_count seg + 1, j).

Definition claim_row (i : SuccessfulClaimInput) (audit_event_id scope_seq segment_no segment_seq : Z) : ClaimRow :=
  let resolved := resolve_action_ref i in
  mkClaimRow scope_seq segment_no segment_seq (ci_source_key i) audit_event_id (ci_occurred_at i) (claim_kind_str (ci_claim_kind i)) (ci_tool i)
    (plugin_address <$> resolved.1) (action_key <$> resolved.1) (action_version <$> resolved.1) (ci_runner_class i) (ci_execution_domain i)
    (ci_materialization_class i) resolved.2 (ci_input_hash i) (json_to_string (ci_input_redacted i)) (json_to_string (ci_resolved i))
    (ci_persona_id i) (ci_grant_id i) (ci_device_id i) (ci_delegation_id i) (ci_materialization_id i) (ci_credential_name i).

(** The primary key and the unique key of the table. *)
Definition insert_claim_row_for_scope (e : JournalEnv) (k : ScopeKey) (i : SuccessfulClaimInput) (audit_event_id scope_seq segment_no segment_seq : Z)
  (j : Journal) : result Journal ClaimJournalError :=
  let rows := claims_of j k in
  if existsb (λ c, (cr_scope_seq c =? scope_seq) || bool_decide (cr_source_key c = ci_source_key i)) rows
  then Err (Backend "UNIQUE constraint failed")
  else exec e (set_claims k (rows ++ [claim_row i audit_event_id scope_seq segment_no segment_seq]) j).

(** One scope: the claim, the root of its segment, the counters. *)
Definition append_claim (e : JournalEnv) (segment_target : Z) (i : SuccessfulClaimInput) (audit_event_id : Z) (k : ScopeKey) (j : Journal)
  : result (AppendDisposition * Journal) ClaimJournalError :=
  let?? (scope_seq, segment_no, segment_seq, j) := upsert_scope_and_segment_state e segment_target k (ci_occurred_at i) j in
  let? j := insert_claim_row_for_scope e k i audit_event_id scope_seq segment_no segment_seq j in
  let root := compute_segment_merkle_root j k segment_no in
  let? j := exec e (update_segment k segment_no (add_claim scope_seq (ci_occurred_at i) root) j) in
  let? j := exec e (update_scope k (with_next_seq (scope_seq + 1)) j) in
  Ok (Appended (ci_source_key i) audit_event_id scope_seq segment_no segment_seq, j).

(** The earlier row of a claim; a lookup that fails finds none. *)
Definition existing_claim (e : JournalEnv) (j : Journal) (k : ScopeKey) (source_key : string) : option (Z * Z) :=
  if je_lookup_fails e then None
  else (λ c, (cr_audit_event_id c, cr_scope_seq c)) <$> List.find (λ c, bool_decide (cr_source_key c = source_key)) (claims_of j k).

Fixpoint find_existing (e : JournalEnv) (j : Journal) (source_key : string) (prior : option Z) (scopes : list ScopeRef)
  : result (option Z * list ScopedAppendDisposition) ClaimJournalError :=
  match scopes with
  | [] => Ok (prior, [])
  | s :: scopes =>
      match existing_claim e j (scope_key s) source_key with
      | Some (audit_event_id, scope_seq) =>
          let? prior :=
            match prior with
            | Some p =>
                if negb (p =? audit_event_id)
                then Err (Backend ("inconsistent multi-scope journal state for source_key " +:+ source_key +:+ ": audit_event_id "
                                   +:+ i64_to_string p +:+ " != " +:+ i64_to_string audit_event_id))
                else Ok (Some p)
            | None => Ok (Some audit_event_id)
            end in
          let?? (prior, rest) := find_existing e j source_key prior scopes in
          Ok (prior, mkScoped s (Duplicate source_key audit_event_id scope_seq) :: rest)
      | None =>
          let?? (prior, rest) := find_existing e j source_key prior scopes in Ok (prior, mkScoped s (Duplicate source_key (-1) (-1)) :: rest)
      end
  end.

Definition needs_append (r : ScopedAppendDisposition) : bool :=
  match sa_disposition r with Duplicate _ a q => (a =? -1) && (q =? -1) | _ => false end.

Fixpoint append_results (e : JournalEnv) (segment_target : Z) (i : SuccessfulClaimInput) (audit_event_id : Z) (results : list ScopedAppendDisposition)
  (j : Journal) : result (list ScopedAppendDisposition * Journal) ClaimJournalError :=
  match results with
  | [] => Ok ([], j)
  | r :: results =>
      let?? (d, j) := if needs_append r then append_claim e segment_target i audit_event_id (scope_key (sa_scope r)) j else Ok (sa_disposition r, j) in
      let?? (rest, j) := append_results e segment_target i audit_event_id results j in
      Ok (mkScoped (sa_scope r) d :: rest, j)
  end.

(** The audit event of an earlier claim of the source, or a new row of the audit log. *)
Definition claim_audit_event (e : JournalEnv) (i : SuccessfulClaimInput) (existing : option Z) (j : Journal) : result (Z * Journal) ClaimJournalError :=
  match existing with
  | Some id => Ok (id, j)
  | None =>
      let v := ci_audit i in
      let (r, a) := append_audit_event_with_chain_in_tx (je_audit e) (av_agent_id v) (av_action v) (av_credential v) (av_outcome v) (av_details v)
                      (j_audit j) in
      match r with Ok id => Ok (id, set_audit a j) | Err err => Err (Backend (je_show e err)) end
  end.

(** The body of the transaction. *)
Definition record_in_tx (e : JournalEnv) (segment_target : Z) (scopes : list ScopeRef) (i : SuccessfulClaimInput) (j : Journal)
  : result (list ScopedAppendDisposition * Journal) ClaimJournalError :=
  let?? (existing, results) := find_existing e j (ci_source_key i) None scopes in
  if negb (existsb needs_append results) then Ok (results, j)
  else
    let?? (audit_event_id, j) := claim_audit_event e i existing j in
    append_results e segment_target i audit_event_id results j.

(** BEGIN IMMEDIATE, the body, COMMIT or ROLLBACK. The failures of COMMIT in [je_commit] are those after which SQLite has rolled the
    transaction back itself (a full disk, an I/O error). One that finds the database busy would leave the transaction open, since
    the code does not roll back there; it is outside the model. *)
Definition in_transaction {X} (e : JournalEnv) (body : Journal → result (X * Journal) ClaimJournalError) (j : Journal)
  : result X ClaimJournalError * Journal :=
  match je_begin e with
  | Some msg => (Err (Backend msg), j)
  | None =>
      match body j with
      | Ok (x, j') => match je_commit e with Some msg => (Err (Backend msg), j) | None => (Ok x, j') end
      | Err err => (Err err, j)
      end
  end.

Definition record_successful_claim_for_scopes (e : JournalEnv) (segment_target : Z) (scopes : list ScopeRef) (i : SuccessfulClaimInput) (j : Journal)
  : result (list ScopedAppendDisposition) ClaimJournalError * Journal :=
  match (let? scopes := validate_scope_set scopes in validate_input i ;? Ok scopes) with
  | Err err => (Err err, j)
  | Ok scopes => in_transaction e (record_in_tx e segment_target scopes i) j
  end.

Definition record_successful_claim (e : JournalEnv) (segment_target : Z) (scope : ScopeRef) (i : SuccessfulClaimInput) (j : Journal)
  : result AppendDisposition ClaimJournalError * Journal :=
  let (r, j) := record_successful_claim_for_scopes e segment_target [scope] i j in
  (let? results := r in
   match last results with
   | Some x => Ok (sa_disposition x)
   | None => Err (Backend "single-scope append unexpectedly returned no result")
   end, j).

End Journaling.

(** ** Reading *)

Record ClaimSegmentSummary := mkSegmentSummary {
  ss_segment_no : Z; ss_first_scope_seq : Z; ss_last_scope_seq : Z; ss_claim_count : Z; ss_started_at : string; ss_ended_at : string;
  ss_merkle_root : string }.

Record JournalSnapshot := mkSnapshot {
  sn_scope : ScopeRef; sn_claim_count : Z; sn_segment_count : Z; sn_open_segment_claims : Z; sn_open_segment_no : Z }.

Record ClosedScopeSummary := mkClosedScope {
  cs_scope : ScopeRef; cs_total_claims : Z; cs_segments : list ClaimSegmentSummary; cs_recent_claims : list ClaimEvent;
  cs_recent_claims_truncated : bool }.

Definition DEFAULT_RECENT_CLAIM_LIMIT : nat := 32.

Definition segment_summary (s : SegmentRow) : ClaimSegmentSummary :=
  mkSegmentSummary (sg_segment_no s) (sg_first_scope_seq s) (sg_last_scope_seq s) (sg_claim_count s) (sg_started_at s) (sg_ended_at s)
    (sg_merkle_root s).

Section Reading.
Context {B : Blake3Ops} {A : AuditOps} {S : JsonString}.

(** Rows of old versions without the columns of the reference. *)
Definition needs_backfill (c : ClaimRow) : bool :=
  negb (cr_legacy_flat c)
  && (bool_decide (cr_plugin_address c = None) || bool_decide (cr_action_key c = None) || bool_decide (cr_action_version c = None)).

Definition with_action (r : option ActionRef) (c : ClaimRow) : ClaimRow :=
  mkClaimRow (cr_scope_seq c) (cr_segment_no c) (cr_segment_seq c) (cr_source_key c) (cr_audit_event_id c) (cr_ts c) (cr_claim_kind c) (cr_tool c)
    (match r with Some r => Some (plugin_address r) | None => cr_plugin_address c end)
    (match r with Some r => Some (action_key r) | None => cr_action_key c end)
    (match r with Some r => Some (action_version r) | None => cr_action_version c end)
    (cr_runner_class c) (cr_execution_domain c) (cr_materialization_class c) (match r with Some _ => false | None => true end) (cr_input_hash c)
    (cr_input_redacted_json c) (cr_resolved_json c) (cr_persona_id c) (cr_grant_id c) (cr_device_id c) (cr_delegation_id c)
    (cr_materialization_id c) (cr_credential_name c).

Definition backfill_row (c : ClaimRow) : ClaimRow := if needs_backfill c then with_action (backfill_action_ref_from_tool (cr_tool c)) c else c.

Definition backfill_legacy_claim_action_refs (e : JournalEnv) (j : Journal) : result Journal ClaimJournalError :=
  if existsb (λ kl : ScopeKey * list ClaimRow, existsb needs_backfill kl.2) (map_to_list (j_claims j))
  then exec e (mkJournal (j_scopes j) (j_segments j) ((λ l : list ClaimRow, backfill_row <$> l) <$> j_claims j) (j_audit j))
  else Ok j.

Definition row_to_event (c : ClaimRow) : result ClaimEvent ClaimJournalError :=
  let? kind := claim_kind_from_str (cr_claim_kind c) in
  let? input := map_err Backend (json_from_str (cr_input_redacted_json c)) in
  let? resolved := map_err Backend (json_from_str (cr_resolved_json c)) in
  Ok (mkClaimEvent (cr_ts c) kind (cr_tool c)
        (match cr_plugin_address c, cr_action_key c, cr_action_version c with Some p, Some k, Some v => Some (mkActionRef p k v) | _, _, _ => None end)
        (cr_input_hash c) input resolved).

Fixpoint rows_to_events (l : list ClaimRow) : result (list ClaimEvent) ClaimJournalError :=
  match l with [] => Ok [] | c :: l => let? x := row_to_event c in let? r := rows_to_events l in Ok (x :: r) end.

Definition load_closed_scope_summary (e : JournalEnv) (scope : ScopeRef) (recent_claim_limit : nat) (j : Journal)
  : result (ClosedScopeSummary * Journal) ClaimJournalError :=
  let k := scope_key scope in
  let? j := backfill_legacy_claim_action_refs e j in
  let total := Z.of_nat (length (claims_of j k)) in
  let segments := segment_summary <$> sort_by (λ a b, sg_segment_no a <=? sg_segment_no b) (segments_of j k) in
  let? recent := rows_to_events (take recent_claim_limit (sort_by (λ a b, cr_scope_seq b <=? cr_scope_seq a) (claims_of j k))) in
  Ok (mkClosedScope scope total segments (rev recent) (Z.of_nat (length recent) <? total), j).

Definition close_scope_row (now : string) (r : ScopeRow) : ScopeRow :=
  mkScopeRow "closed" (sc_next_scope_seq r) (sc_open_segment_no r) (sc_created_at r) (Some (default now (sc_closed_at r))).
Definition close_segment_row (s : SegmentRow) : SegmentRow :=
  mkSegment (sg_segment_no s) "closed" (sg_first_scope_seq s) (sg_last_scope_seq s) (sg_claim_count s) (sg_started_at s) (sg_ended_at s) (sg_merkle_root s).

Definition close_scope (e : JournalEnv) (scope : ScopeRef) (recent_claim_limit : nat) (j : Journal)
  : result ClosedScopeSummary ClaimJournalError * Journal :=
  match validate_scope scope with
  | Err err => (Err err, j)
  | Ok _ =>
      in_transaction e (λ j,
        let k := scope_key scope in
        let? j' := exec e (update_scope k (close_scope_row (je_now e)) j) in
        (if bool_decide (j_scopes j !! k = None) then Err ScopeNotFound else Ok tt) ;?
        let? j' := exec e (set_segments k (close_segment_row <$> segments_of j' k) j') in
        load_closed_scope_summary e scope recent_claim_limit j') j
  end.

(** Without a transaction: the columns a read fills in stay. *)
Definition summarize_scope (e : JournalEnv) (scope : ScopeRef) (recent_claim_limit : nat) (j : Journal)
  : result ClosedScopeSummary ClaimJournalError * Journal :=
  match (validate_scope scope ;? ok_or (j_scopes j !! scope_key scope) ScopeNotFound) with
  | Err err => (Err err, j)
  | Ok _ =>
      match backfill_legacy_claim_action_refs e j with
      | Err err => (Err err, j)
      | Ok j' => (let? r := load_closed_scope_summary e scope recent_claim_limit j' in Ok r.1, j')
      end
  end.

Definition snapshot (scope : ScopeRef) (j : Journal) : result JournalSnapshot ClaimJournalError :=
  let k := scope_key scope in
  validate_scope scope ;?
  let? row := ok_or (j_scopes j !! k) ScopeNotFound in
  let? seg := no_rows (find_segment (sc_open_segment_no row) (segments_of j k)) in
  Ok (mkSnapshot scope (Z.of_nat (length (claims_of j k))) (Z.of_nat (length (segments_of j k))) (sg_claim_count seg) (sc_open_segment_no row)).

Definition close_scope_best_effort (e : JournalEnv) (scope : ScopeRef) (j : Journal) : option ClosedScopeSummary * Journal :=
  let (r, j) := close_scope e scope DEFAULT_RECENT_CLAIM_LIMIT j in (match r with Ok s => Some s | Err _ => None end, j).
Definition summarize_scope_best_effort (e : JournalEnv) (scope : ScopeRef) (j : Journal) : option ClosedScopeSummary * Journal :=
  let (r, j) := summarize_scope e scope DEFAULT_RECENT_CLAIM_LIMIT j in (match r with Ok s => Some s | Err _ => None end, j).

Definition close_session_scope_best_effort (e : JournalEnv) (id : string) := close_scope_best_effort e (mkScopeRef AuthorityLane id).
Definition close_grant_scope_best_effort (e : JournalEnv) (id : string) := close_scope_best_effort e (mkScopeRef GrantScope id).
Definition summarize_session_scope_best_effort (e : JournalEnv) (id : string) := summarize_scope_best_effort e (mkScopeRef AuthorityLane id).
Definition summarize_grant_scope_best_effort (e : JournalEnv) (id : string) := summarize_scope_best_effort e (mkScopeRef GrantScope id).

End Reading.

Definition close_summary_audit_fields (s : ClosedScopeSummary) : string :=
  "claim_count=" +:+ u64_to_string (cs_total_claims s) +:+ " segment_count=" +:+ u64_to_string (Z.of_nat (length (cs_segments s)))
  +:+ " recent_claims_truncated=" +:+ bool_to_string (cs_recent_claims_truncated s).

(** ** Usage of a service *)

Record ServiceRollupSummary := mkServiceRollup {
  sv_plugin_address : string; sv_window_start : string; sv_window_end : string; sv_total_claims : Z; sv_unique_personas : Z; sv_unique_grants : Z;
  sv_by_outcome : list (RollupOutcome * Z); sv_by_runner_class : list (string * Z); sv_last_claim_at : option string;
  sv_merkle_segment_refs : list string }.

(** [trim_start_matches] of a text *)
Fixpoint trim_start_matches_on (fuel : nat) (p l : bytes) : bytes :=
  match fuel, strip_prefix_on p l with S fuel, Some r => trim_start_matches_on fuel p r | _, _ => l end.
Definition trim_start_matches (p s : string) : string := of_bytes (trim_start_matches_on (String.length s) (to_bytes p) (to_bytes s)).

Definition rollup_outcome_from_audit_outcome (outcome : string) : RollupOutcome :=
  if bool_decide (outcome ∈ ["allowed"; "ok"; "success"; "minted"]) then RO_Success
  else if bool_decide (outcome = "in_flight") then RO_InFlight
  else if bool_decide (outcome = "incomplete") then RO_Incomplete
  else if str_starts_with outcome "denied" then RO_Denied outcome
  else if str_starts_with outcome "exit_code:"
  then RO_Errored (match parse_integer (- 2 ^ 31) (2 ^ 31 - 1) (trim_start_matches "exit_code:" outcome) with Ok z => z | Err _ => -1 end)
  else RO_Denied outcome.

(** The rows of the queries: of the service, in the window of texts, with a structured reference. *)
Definition in_service (plugin window_start window_end : string) (c : ClaimRow) : bool :=
  bool_decide (cr_plugin_address c = Some plugin) && String.leb window_start (cr_ts c) && String.leb (cr_ts c) window_end
  && bool_decide (is_Some (cr_action_key c)) && bool_decide (is_Some (cr_action_version c)) && negb (cr_legacy_flat c).

Definition all_claims (j : Journal) : list (ScopeKey * ClaimRow) := mjoin ((λ kl, (λ c, (kl.1, c)) <$> kl.2) <$> map_to_list (j_claims j)).

(** [JOIN audit_log a ON a.id = c.audit_event_id] *)
Definition audit_outcomes (rows : list AuditRow) (c : ClaimRow) : list string :=
  ar_outcome <$> List.filter (λ r, ar_id r =? cr_audit_event_id c) rows.

(** [GROUP BY] in the order [order] of the groups *)
Definition count_in (x : string) (l : list string) : Z := Z.of_nat (length (List.filter (λ y, bool_decide (y = x)) l)).
Definition group_counts (order l : list string) : list (string * Z) := (λ x, (x, count_in x l)) <$> order.
Definition groups_of (l order : list string) : Prop := NoDup order ∧ ∀ x, x ∈ order ↔ x ∈ l.

(** [HashMap::insert] *)
Definition map_insert (m : list (RollupOutcome * Z)) (o : RollupOutcome) (n : Z) : list (RollupOutcome * Z) :=
  List.filter (λ x : RollupOutcome * Z, negb (bool_decide (x.1 = o))) m ++ [(o, n)].
Definition map_get (o : RollupOutcome) (m : list (RollupOutcome * Z)) : option Z := snd <$> List.find (λ x, bool_decide (x.1 = o)) m.

Definition fold_outcomes (groups : list (string * Z)) : list (RollupOutcome * Z) :=
  foldl (λ m g, map_insert m (rollup_outcome_from_audit_outcome g.1) g.2) [] groups.

Definition ref_le (a b : ScopeKey * Z * string) : bool :=
  let '((ka, na), _) := a in let '((kb, nb), _) := b in
  if negb (bool_decide (ka.1 = kb.1)) then String.leb ka.1 kb.1
  else if negb (bool_decide (ka.2 = kb.2)) then String.leb ka.2 kb.2
  else na <=? nb.

Definition segment_ref (j : Journal) (kc : ScopeKey * ClaimRow) : list (ScopeKey * Z * string) :=
  match find_segment (cr_segment_no kc.2) (segments_of j kc.1) with
  | Some s => [((kc.1, cr_segment_no kc.2), sg_merkle_root s)]
  | None => []
  end.

Definition segment_ref_text (r : ScopeKey * Z * string) : string :=
  r.1.1.1 +:+ ":" +:+ r.1.1.2 +:+ ":" +:+ i64_to_string r.1.2 +:+ ":" +:+ r.2.

(** [outcomes] and [runners] are the orders of the groups. *)
Definition compute_service_rollup (outcomes runners : list string) (plugin window_start window_end : string) (j : Journal) : ServiceRollupSummary :=
  let rows := List.filter (λ kc, in_service plugin window_start window_end kc.2) (all_claims j) in
  let claims := rows.*2 in
  mkServiceRollup plugin window_start window_end (Z.of_nat (length claims)) (Z.of_nat (length (remove_dups (omap cr_persona_id claims))))
    (Z.of_nat (length (remove_dups (omap cr_grant_id claims))))
    (fold_outcomes (group_counts outcomes (mjoin (audit_outcomes (al_rows (j_audit j)) <$> claims))))
    (group_counts runners (List.filter (λ r, negb (str_is_empty r)) (omap cr_runner_class claims)))
    (last (sort_by String.leb (cr_ts <$> claims)))
    (segment_ref_text <$> sort_by ref_le (remove_dups (mjoin (segment_ref j <$> rows)))).

Definition summarize_by_service (e : JournalEnv) (outcomes runners : list string) (plugin window_start window_end : string) (j : Journal)
  : result ServiceRollupSummary ClaimJournalError * Journal :=
  match validate_plugin_address plugin with
  | Err err => (Err err, j)
  | Ok _ =>
      match backfill_legacy_claim_action_refs e j with
      | Err err => (Err err, j)
      | Ok j => (Ok (compute_service_rollup outcomes runners plugin window_start window_end j), j)
      end
  end.

(** ** Receipts of closed scopes *)

(** *** The chain of principals *)

Record SigningPrincipalRecord := mkPrincipal { spr_principal_id : string; spr_parent_id : string; spr_signing_device_id : option string }.
Record SigningAttribution := mkAttribution { sat_principal_id : string; sat_signing_device_id : string }.

Inductive PrincipalChainError :=
| PCE_MissingPrincipal (principal_id : string)
| PCE_MissingParent (principal_id parent_id : string)
| PCE_Cycle (principal_id : string)
| PCE_WrongAnchor (principal_id expected_anchor_id : string)
| PCE_MissingSigningDevice (principal_id : string).

Definition signing_attribution (r : SigningPrincipalRecord) : result SigningAttribution PrincipalChainError :=
  let? d := ok_or (spr_signing_device_id r) (PCE_MissingSigningDevice (spr_principal_id r)) in Ok (mkAttribution (spr_principal_id r) d).

Definition daemon_signing_device_id (pubkey_hex : string) : string := "device-daemon-" +:+ pubkey_hex.
Definition daemon_principal_record (pubkey_hex : string) : SigningPrincipalRecord :=
  mkPrincipal pubkey_hex pubkey_hex (Some (daemon_signing_device_id pubkey_hex)).

(** The map of the records: the last record of an id. *)
Definition principals_by_id (records : list SigningPrincipalRecord) : gmap string SigningPrincipalRecord :=
  foldl (λ m r, <[spr_principal_id r := r]> m) ∅ records.

Fixpoint walk_principals (fuel : nat) (by_id : gmap string SigningPrincipalRecord) (seen : gset string) (current trust_anchor_id : string)
  : option (result unit PrincipalChainError) :=
  match fuel with
  | O => None
  | S fuel =>
      match by_id !! current with
      | None => Some (Err (PCE_MissingPrincipal current))
      | Some record =>
          if bool_decide (current ∈ seen) then Some (Err (PCE_Cycle current))
          else if bool_decide (spr_parent_id record = spr_principal_id record)
          then Some (if bool_decide (spr_principal_id record = trust_anchor_id) then Ok tt else Err (PCE_WrongAnchor (spr_principal_id record) trust_anchor_id))
          else if bool_decide (by_id !! spr_parent_id record = None)
          then Some (Err (PCE_MissingParent (spr_principal_id record) (spr_parent_id record)))
          else walk_principals fuel by_id ({[current]} ∪ seen) (spr_parent_id record) trust_anchor_id
      end
  end.

(** Each round marks one record more. *)
Definition validate_principal_parent_chain (records : list SigningPrincipalRecord) (principal_id trust_anchor_id : string)
  : option (result unit PrincipalChainError) :=
  let by_id := principals_by_id records in walk_principals (S (size by_id)) by_id ∅ principal_id trust_anchor_id.

(** *** Bodies *)

Record AuditGap := mkGap { ag_from : string; ag_to : string; ag_reason : string }.
Inductive TerminationReason := TR_CleanExit | TR_HeartbeatLost | TR_TtlExpired | TR_ExplicitRevoke | TR_ExhaustedByBudget | TR_ParentCascadeRevoked.
Record TerminationMeta := mkTermination { tm_reason : TerminationReason; tm_last_heartbeat_at : option string; tm_pid_alive_at_check : option bool }.

Record ReceiptBody := mkReceiptBody {
  rb_claim_events : list ClaimEvent; rb_claim_count_total : option Z; rb_claim_events_truncated : bool;
  rb_claim_segment_summaries : list ClaimSegmentDigest; rb_claim_history_merkle_root : string; rb_permits_merkle_root : string;
  rb_device_id : option string; rb_delegation_id : option string; rb_delegation_template : option string; rb_pregrant_path : option string }.

Record ClaudeCodeBody := mkClaudeBody {
  cb_base : ReceiptBody; cb_audit_gaps : list AuditGap; cb_termination_reason : option TerminationReason; cb_last_heartbeat_at : option string;
  cb_pid_alive_at_check : option bool }.

Definition ReceiptBody_default : ReceiptBody := mkReceiptBody [] None false [] "" "" None None None None.
Definition RECEIPT_KIND_CLAUDE_CODE : string := "session.claude_code".
Definition RECEIPT_KIND_COMPOSITE_GRANT : string := "session.composite_grant".

Definition TerminationReason_str (r : TerminationReason) : string :=
  match r with
  | TR_CleanExit => "clean_exit" | TR_HeartbeatLost => "heartbeat_lost" | TR_TtlExpired => "ttl_expired" | TR_ExplicitRevoke => "explicit_revoke"
  | TR_ExhaustedByBudget => "exhausted_by_budget" | TR_ParentCascadeRevoked => "parent_cascade_revoked"
  end.

Definition u64_value (z : Z) : Json := JNumber (u64_to_string z).
Definition list_member {A} (k : string) (f : A → Json) (l : list A) : list (string * Json) :=
  match l with [] => [] | _ => [(k, JArray (f <$> l))] end.
Definition text_member (k s : string) : list (string * Json) := if str_is_empty s then [] else [(k, JString s)].

Definition action_ref_value (r : ActionRef) : Json :=
  JObject [("plugin_address", JString (plugin_address r)); ("action_key", JString (action_key r)); ("action_version", JString (action_version r))].
Definition claim_event_value (c : ClaimEvent) : Json :=
  JObject ([("ts", JString (ce_ts c)); ("kind", JString (claim_kind_str (ce_kind c))); ("tool", JString (ce_tool c))]
           ++ opt_member "action_ref" action_ref_value (ce_action_ref c)
           ++ [("input_hash", JString (ce_input_hash c)); ("input_redacted", ce_input_redacted c); ("resolved", ce_resolved c)]).
Definition segment_digest_value (d : ClaimSegmentDigest) : Json :=
  JObject [("segment_no", u64_value (sd_segment_no d)); ("first_scope_seq", u64_value (sd_first_scope_seq d));
           ("last_scope_seq", u64_value (sd_last_scope_seq d)); ("claim_count", u64_value (sd_claim_count d));
           ("started_at", JString (sd_started_at d)); ("ended_at", JString (sd_ended_at d)); ("merkle_root", JString (sd_merkle_root d))].
Definition audit_gap_value (g : AuditGap) : Json :=
  JObject [("from", JString (ag_from g)); ("to", JString (ag_to g)); ("reason", JString (ag_reason g))].

Definition receipt_body_members (b : ReceiptBody) : list (string * Json) :=
  [("claim_events", JArray (claim_event_value <$> rb_claim_events b))]
  ++ opt_member "claim_count_total" u64_value (rb_claim_count_total b)
  ++ (if rb_claim_events_truncated b then [("claim_events_truncated", JBool true)] else [])
  ++ list_member "claim_segment_summaries" segment_digest_value (rb_claim_segment_summaries b)
  ++ text_member "claim_history_merkle_root" (rb_claim_history_merkle_root b)
  ++ text_member "permits_merkle_root" (rb_permits_merkle_root b)
  ++ opt_member "device_id" JString (rb_device_id b) ++ opt_member "delegation_id" JString (rb_delegation_id b)
  ++ opt_member "delegation_template" JString (rb_delegation_template b) ++ opt_member "pregrant_path" JString (rb_pregrant_path b).

(** The base is flattened into the object. *)
Definition claude_body_value (b : ClaudeCodeBody) : Json :=
  JObject (receipt_body_members (cb_base b) ++ list_member "audit_gaps" audit_gap_value (cb_audit_gaps b)
           ++ opt_member "termination_reason" (λ r, JString (TerminationReason_str r)) (cb_termination_reason b)
           ++ opt_member "last_heartbeat_at" JString (cb_last_heartbeat_at b) ++ opt_member "pid_alive_at_check" JBool (cb_pid_alive_at_check b)).

(** *** Issuing *)

Inductive IssueError := IE_AuditGapsRead (path source : string) | IE_Sign (err : SignError) | IE_PrincipalChain (err : PrincipalChainError).

(** [entry(k).or_insert_with] *)
Definition insert_absent (k : string) (v : Json) (m : list (string * Json)) : list (string * Json) :=
  if bool_decide (k ∈ m.*1) then m else m ++ [(k, v)].

Definition stamp_signer_attribution (a : SigningAttribution) (body : Json) : Json :=
  match body with
  | JObject m => JObject (insert_absent "signing_device_id" (JString (sat_signing_device_id a)) (insert_absent "principal_id" (JString (sat_principal_id a)) m))
  | v => v
  end.

(** A file of gaps: its path, and its text when it exists. *)
Record GapFile := mkGapFile { gf_path : string; gf_text : option (result string string) }.

Section Issuing.
Context {B : Blake3Ops} {J : JcsOps}.
(** [serde_json::from_str::<AuditGap>] *)
Context (gap_from_str : string → option AuditGap).

Definition issue_atomic_receipt_with_attribution (kind : string) (body : Json) (t : TerminationAuthority) (daemon_root_id : string)
  (a : SigningAttribution) (signer : Signer) : result ReceiptEnvelope IssueError :=
  map_err IE_Sign (sign_receipt_v2 (mkReceipt RECEIPT_VERSION_V2 kind "" daemon_root_id None t None (stamp_signer_attribution a body) None None None None
                                      None None) signer).

Definition issue_atomic_receipt_with_principal_chain (kind : string) (body : Json) (t : TerminationAuthority) (daemon_root_id : string)
  (principals : list SigningPrincipalRecord) (principal_id trust_anchor_id : string) (signer : Signer) : option (result ReceiptEnvelope IssueError) :=
  match validate_principal_parent_chain principals principal_id trust_anchor_id with
  | None => None
  | Some r => Some
      (map_err IE_PrincipalChain r ;?
       let? principal := ok_or (List.find (λ r, bool_decide (spr_principal_id r = principal_id)) principals) (IE_PrincipalChain (PCE_MissingPrincipal principal_id)) in
       let? a := map_err IE_PrincipalChain (signing_attribution principal) in
       issue_atomic_receipt_with_attribution kind body t daemon_root_id a signer)
  end.

Definition issue_atomic_receipt (kind : string) (body : Json) (t : TerminationAuthority) (daemon_root_id : string) (signer : Signer)
  : option (result ReceiptEnvelope IssueError) :=
  let p := daemon_principal_record daemon_root_id in
  issue_atomic_receipt_with_principal_chain kind body t daemon_root_id [p] (spr_principal_id p) (spr_principal_id p) signer.

Definition claim_segment_digests_from_summary (s : ClosedScopeSummary) : list ClaimSegmentDigest :=
  (λ g, mkSegmentDigest (ss_segment_no g mod 2 ^ 64) (ss_first_scope_seq g mod 2 ^ 64) (ss_last_scope_seq g mod 2 ^ 64) (ss_claim_count g mod 2 ^ 64)
          (ss_started_at g) (ss_ended_at g) (ss_merkle_root g)) <$> cs_segments s.

Definition parse_audit_gaps (f : GapFile) : result (list AuditGap) IssueError :=
  match gf_text f with
  | Some (Err source) => Err (IE_AuditGapsRead (gf_path f) source)
  | Some (Ok raw) =>
      Ok (omap (λ line, let t := str_trim (of_bytes line) in if str_is_empty t then None else gap_from_str t) (lines_on (to_bytes raw)))
  | None => Ok []
  end.

Definition with_claims (events : list ClaimEvent) (root : string) (b : ReceiptBody) : ReceiptBody :=
  mkReceiptBody events (rb_claim_count_total b) (rb_claim_events_truncated b) (rb_claim_segment_summaries b) (rb_claim_history_merkle_root b) root
    (rb_device_id b) (rb_delegation_id b) (rb_delegation_template b) (rb_pregrant_path b).

Definition issue_session_receipt_with_body (kind : string) (claim_events : list ClaimEvent) (base_body_override : option ReceiptBody)
  (audit_gaps : option GapFile) (t : TerminationAuthority) (daemon_root_id : string) (meta : option TerminationMeta) (signer : Signer)
  : option (result ReceiptEnvelope IssueError) :=
  match match audit_gaps with Some f => parse_audit_gaps f | None => Ok [] end with
  | Err err => Some (Err err)
  | Ok gaps =>
      let root := segment_root (ce_input_hash <$> claim_events) in
      let body := mkClaudeBody (with_claims claim_events root (default ReceiptBody_default base_body_override)) gaps (tm_reason <$> meta)
                    (meta ≫= tm_last_heartbeat_at) (meta ≫= tm_pid_alive_at_check) in
      issue_atomic_receipt kind (claude_body_value body) t daemon_root_id signer
  end.

Definition issue_session_receipt (kind : string) (claim_events : list ClaimEvent) (audit_gaps : option GapFile) (t : TerminationAuthority)
  (daemon_root_id : string) (meta : option TerminationMeta) (signer : Signer) : option (result ReceiptEnvelope IssueError) :=
  issue_session_receipt_with_body kind claim_events None audit_gaps t daemon_root_id meta signer.

Definition closed_scope_body (s : ClosedScopeSummary) : ReceiptBody :=
  let digests := claim_segment_digests_from_summary s in
  mkReceiptBody (cs_recent_claims s) (Some (cs_total_claims s mod 2 ^ 64)) (cs_recent_claims_truncated s) digests (claim_history_merkle_root digests) ""
    None None None None.

Definition issue_session_receipt_from_closed_scope (kind : string) (s : ClosedScopeSummary) (audit_gaps : option GapFile) (t : TerminationAuthority)
  (daemon_root_id : string) (meta : option TerminationMeta) (signer : Signer) : option (result ReceiptEnvelope IssueError) :=
  let body := closed_scope_body s in
  issue_session_receipt_with_body kind (rb_claim_events body) (Some body) audit_gaps t daemon_root_id meta signer.

Definition issue_cohort_a_receipt_from_closed_scope := issue_session_receipt_from_closed_scope RECEIPT_KIND_CLAUDE_CODE.
Definition issue_cohort_a_receipt := issue_session_receipt RECEIPT_KIND_CLAUDE_CODE.

End Issuing.


(** ** The invariant of a scope *)

Section Invariant.
Context {B : Blake3Ops} {A : AuditOps} {JS : JsonString}.

(** A segment with its claims: its number, the positions of its claims and their root. *)
Definition seg_ok (n first : Z) (s : SegmentRow) (part : list ClaimRow) : Prop :=
  part ≠ [] ∧ sg_segment_no s = n ∧ sg_first_scope_seq s = first ∧ sg_last_scope_seq s = first + Z.of_nat (length part) - 1 ∧
  sg_claim_count s = Z.of_nat (length part) ∧ sg_merkle_root s = segment_root (cr_input_hash <$> part) ∧
  Some (sg_started_at s) = cr_ts <$> head part ∧ Some (sg_ended_at s) = cr_ts <$> last part ∧
  ∀ i c, part !! i = Some c → cr_segment_no c = n ∧ cr_segment_seq c = Z.of_nat i + 1 ∧ cr_scope_seq c = first + Z.of_nat i.

Fixpoint segs_ok (n first : Z) (segs : list SegmentRow) (parts : list (list ClaimRow)) : Prop :=
  match segs, parts with
  | [], [] => True
  | s :: segs, p :: parts => seg_ok n first s p ∧ segs_ok (n + 1) (first + Z.of_nat (length p)) segs parts
  | _, _ => False
  end.

(** The claims of a scope come in segments of [T], the last one possibly shorter; the counters of the scope follow them, and each
    source has one claim. *)
Definition scope_ok (T : Z) (row : option ScopeRow) (segs : list SegmentRow) (claims : list ClaimRow) : Prop :=
  ∃ parts, claims = mjoin parts ∧ segs_ok 0 1 segs parts ∧
    match row with
    | None => parts = []
    | Some r => parts ≠ [] ∧ sc_next_scope_seq r = 1 + Z.of_nat (length claims) ∧ sc_open_segment_no r = Z.of_nat (length parts) - 1
    end ∧
    (∀ i p, parts !! i = Some p → Z.of_nat (length p) <= T ∧ ((Datatypes.S i < length parts)%nat → Z.of_nat (length p) = T)) ∧
    NoDup (cr_source_key <$> claims).

Definition journal_ok (T : Z) (j : Journal) : Prop := ∀ k, scope_ok T (j_scopes j !! k) (segments_of j k) (claims_of j k).

Lemma join_cons {X} (p : list X) parts : mjoin (p :: parts) = p ++ mjoin parts.
Proof. done. Qed.
Lemma join_single {X} (p : list X) : mjoin [p] = p.
Proof. apply app_nil_r. Qed.

Lemma segs_ok_length n first segs parts : segs_ok n first segs parts → length segs = length parts.
Proof. revert n first parts. induction segs as [|s segs IH]; intros n first [|p parts]; cbn; try done. intros [_ H]. f_equal. by eapply IH. Qed.

Lemma segs_ok_snoc n first segs parts s p :
  segs_ok n first (segs ++ [s]) (parts ++ [p]) ↔
  segs_ok n first segs parts ∧ seg_ok (n + Z.of_nat (length parts)) (first + Z.of_nat (length (mjoin parts))) s p.
Proof.
  revert n first parts. induction segs as [|s' segs IH]; intros n first [|p' parts]; cbn [app segs_ok length]; rewrite ?join_cons.
  - rewrite !Z.add_0_r. tauto.
  - split; [|by intros [[] _]]. intros [_ H]. by destruct parts.
  - split; [|by intros [[] _]]. intros [_ H]. by destruct segs.
  - rewrite IH, length_app. replace (n + 1 + Z.of_nat (length parts)) with (n + Z.of_nat (Datatypes.S (length parts))) by lia.
    replace (first + Z.of_nat (length p') + Z.of_nat (length (mjoin parts))) with (first + Z.of_nat (length p' + length (mjoin parts))) by lia. tauto.
Qed.

Lemma segs_ok_lookup n first segs parts i s p :
  segs_ok n first segs parts → segs !! i = Some s → parts !! i = Some p →
  seg_ok (n + Z.of_nat i) (first + Z.of_nat (length (mjoin (take i parts)))) s p.
Proof.
  revert n first parts i. induction segs as [|s' segs IH]; intros n first [|p' parts] [|i] Hok; try done; cbn in Hok.
  - intros [= ->] [= ->]. cbn. rewrite !Z.add_0_r. tauto.
  - intros Hs Hp. destruct Hok as [_ Hok]. specialize (IH _ _ _ i Hok Hs Hp). cbn [take]. rewrite join_cons, length_app.
    by rewrite Nat2Z.inj_add, Nat2Z.inj_succ, <-Z.add_1_l, !Z.add_assoc.
Qed.

Lemma segs_ok_no n first segs parts : segs_ok n first segs parts → ∀ i s, segs !! i = Some s → sg_segment_no s = n + Z.of_nat i.
Proof.
  intros Hok i s Hs. destruct (parts !! i) as [p|] eqn:Hp.
  - pose proof (segs_ok_lookup _ _ _ _ _ _ _ Hok Hs Hp) as H. apply H.
  - apply lookup_ge_None in Hp. apply lookup_lt_Some in Hs. apply segs_ok_length in Hok. lia.
Qed.

Lemma claim_no n first segs parts c : segs_ok n first segs parts → c ∈ mjoin parts → n <= cr_segment_no c < n + Z.of_nat (length parts).
Proof.
  intros Hok (p & Hc & Hp)%list_elem_of_join. apply list_elem_of_lookup in Hp as [i Hp]. apply list_elem_of_lookup in Hc as [x Hc].
  destruct (segs !! i) as [s|] eqn:Hs.
  - destruct (segs_ok_lookup _ _ _ _ _ _ _ Hok Hs Hp) as (_ & _ & _ & _ & _ & _ & _ & _ & H). destruct (H x c Hc) as [-> _].
    apply lookup_lt_Some in Hp. lia.
  - apply lookup_ge_None in Hs. apply lookup_lt_Some in Hp. apply segs_ok_length in Hok. lia.
Qed.

Lemma find_segment_none no l : Forall (λ s, sg_segment_no s ≠ no) l → find_segment no l = None.
Proof. unfold find_segment. induction 1 as [|s l Hs _ IH]; [done|]. cbn. destruct (Z.eqb_spec (sg_segment_no s) no); done. Qed.

Lemma find_segment_snoc no l s : Forall (λ s, sg_segment_no s ≠ no) l → sg_segment_no s = no → find_segment no (l ++ [s]) = Some s.
Proof.
  unfold find_segment. induction 1 as [|x l Hx _ IH]; intros Hs; cbn; [by rewrite (proj2 (Z.eqb_eq _ _) Hs)|].
  destruct (Z.eqb_spec (sg_segment_no x) no); [done|]. by apply IH.
Qed.

Lemma update_snoc no l s (f : SegmentRow → SegmentRow) :
  Forall (λ s, sg_segment_no s ≠ no) l → sg_segment_no s = no → (λ s, if sg_segment_no s =? no then f s else s) <$> (l ++ [s]) = l ++ [f s].
Proof.
  intros Hl Hs. rewrite fmap_app. cbn. rewrite (proj2 (Z.eqb_eq _ _) Hs). f_equal. induction Hl as [|x l Hx _ IH]; [done|]. cbn.
  destruct (Z.eqb_spec (sg_segment_no x) no); [done|]. by rewrite IH.
Qed.

Lemma earlier_numbers n first segs parts : segs_ok n first segs parts → ∀ m, n + Z.of_nat (length parts) <= m → Forall (λ s, sg_segment_no s ≠ m) segs.
Proof.
  intros Hok m Hm. apply Forall_lookup. intros i s Hs. rewrite (segs_ok_no _ _ _ _ Hok i s Hs). apply lookup_lt_Some in Hs.
  apply segs_ok_length in Hok. lia.
Qed.

(** The claims of the last segment. *)
Lemma filter_last n first segs parts p m :
  segs_ok n first segs parts → m = n + Z.of_nat (length parts) → (∀ c, c ∈ p → cr_segment_no c = m) →
  List.filter (λ c, cr_segment_no c =? m) (mjoin (parts ++ [p])) = p.
Proof.
  intros Hok -> Hp. rewrite join_app, List.filter_app. rewrite join_single.
  assert (∀ l : list ClaimRow, (∀ c, c ∈ l → cr_segment_no c ≠ n + Z.of_nat (length parts)) → List.filter (λ c, cr_segment_no c =? n + Z.of_nat (length parts)) l = []) as Hn.
  { intros l. induction l as [|c l IH]; intros Hl; [done|]. cbn. destruct (Z.eqb_spec (cr_segment_no c) (n + Z.of_nat (length parts))) as [E|].
    - exfalso. apply (Hl c); [by left|done]. - apply IH. intros x Hx. apply Hl. by right. }
  rewrite Hn; [|intros c Hc; pose proof (claim_no _ _ _ _ _ Hok Hc); lia]. cbn. clear Hn. induction p as [|c p IH]; [done|]. cbn.
  rewrite (proj2 (Z.eqb_eq _ _)) by (apply Hp; by left). f_equal. apply IH. intros x Hx. apply Hp. by right.
Qed.

Lemma ordered_seq (f : ClaimRow → Z) (l : list ClaimRow) a : (∀ i c, l !! i = Some c → f c = a + Z.of_nat i) → EventDecode.ordered (λ x y, f x <=? f y) l.
Proof.
  revert a. induction l as [|c [|d l] IH]; intros a Hl; [done|done|]. split.
  - apply Z.leb_le. rewrite (Hl 0%nat c eq_refl), (Hl 1%nat d eq_refl). lia.
  - apply (IH (a + 1)). intros i x Hx. rewrite (Hl (Datatypes.S i) x Hx). lia.
Qed.

(** The tables between the upsert and the insert: the open segment is last and has room. *)
Definition ready (T : Z) (k : ScopeKey) (at_ : string) (j : Journal) (init : list (list ClaimRow)) (p : list ClaimRow) (isegs : list SegmentRow)
  (s : SegmentRow) (r : ScopeRow) : Prop :=
  j_scopes j !! k = Some r ∧ segments_of j k = isegs ++ [s] ∧ claims_of j k = mjoin (init ++ [p]) ∧ segs_ok 0 1 isegs init ∧
  Forall (λ q, Z.of_nat (length q) = T) init ∧ Z.of_nat (length p) < T ∧ sg_segment_no s = Z.of_nat (length init) ∧
  sg_first_scope_seq s = 1 + Z.of_nat (length (mjoin init)) ∧ sg_claim_count s = Z.of_nat (length p) ∧
  Some (sg_started_at s) = Some (default at_ (cr_ts <$> head p)) ∧
  (∀ i c, p !! i = Some c → cr_segment_no c = Z.of_nat (length init) ∧ cr_segment_seq c = Z.of_nat i + 1 ∧
    cr_scope_seq c = 1 + Z.of_nat (length (mjoin init)) + Z.of_nat i) ∧
  sc_next_scope_seq r = 1 + Z.of_nat (length (claims_of j k)) ∧ sc_open_segment_no r = Z.of_nat (length init).

(** Nothing but one scope changes. *)
Definition frame (k : ScopeKey) (j j' : Journal) : Prop :=
  j_audit j' = j_audit j ∧ ∀ k', k' ≠ k → j_scopes j' !! k' = j_scopes j !! k' ∧ segments_of j' k' = segments_of j k' ∧ claims_of j' k' = claims_of j k'.

Lemma exec_ok e j j' : exec e j = Ok j' ↔ je_write e = None ∧ j' = j.
Proof. unfold exec. destruct (je_write e); split; try naive_solver. Qed.

Lemma scopes_set k r j : j_scopes (set_scope k r j) !! k = Some r.
Proof. cbn. by rewrite lookup_insert_eq. Qed.
Lemma segments_set k l j : segments_of (set_segments k l j) k = l.
Proof. unfold segments_of. cbn. by rewrite lookup_insert_eq. Qed.
Lemma claims_set k l j : claims_of (set_claims k l j) k = l.
Proof. unfold claims_of. cbn. by rewrite lookup_insert_eq. Qed.

Lemma frame_scope k r j : frame k j (set_scope k r j).
Proof. split; [done|]. intros k' Hk. cbn. by rewrite lookup_insert_ne. Qed.
Lemma frame_segments k l j : frame k j (set_segments k l j).
Proof. split; [done|]. intros k' Hk. unfold segments_of. cbn. by rewrite lookup_insert_ne. Qed.
Lemma frame_claims k l j : frame k j (set_claims k l j).
Proof. split; [done|]. intros k' Hk. unfold claims_of. cbn. by rewrite lookup_insert_ne. Qed.
Lemma frame_refl k j : frame k j j.
Proof. done. Qed.
Lemma frame_trans k j1 j2 j3 : frame k j1 j2 → frame k j2 j3 → frame k j1 j3.
Proof.
  intros [Ha H] [Ha' H']. split; [congruence|]. intros k' Hk. destruct (H k' Hk) as (? & ? & ?), (H' k' Hk) as (? & ? & ?). split_and!; congruence.
Qed.

Lemma parts_full {X} T (parts init : list (list X)) p :
  parts = init ++ [p] →
  (∀ i q, parts !! i = Some q → Z.of_nat (length q) <= T ∧ ((Datatypes.S i < length parts)%nat → Z.of_nat (length q) = T)) →
  Forall (λ q, Z.of_nat (length q) = T) init ∧ Z.of_nat (length p) <= T.
Proof.
  intros -> H. split.
  - apply Forall_lookup. intros i q Hq. assert (i < length init)%nat by by eapply lookup_lt_Some.
    destruct (H i q) as [_ Hf]; [by rewrite lookup_app_l|]. apply Hf. rewrite length_app. cbn. lia.
  - destruct (H (length init) p) as [? _]; [|done]. by rewrite lookup_app_r, Nat.sub_diag.
Qed.

(** The scope, when there is one, with its last segment apart. *)
Lemma scope_ok_last T r segs claims :
  scope_ok T (Some r) segs claims →
  ∃ init p isegs s, segs = isegs ++ [s] ∧ claims = mjoin (init ++ [p]) ∧ segs_ok 0 1 isegs init ∧
    seg_ok (Z.of_nat (length init)) (1 + Z.of_nat (length (mjoin init))) s p ∧ Forall (λ q, Z.of_nat (length q) = T) init ∧
    Z.of_nat (length p) <= T ∧ sc_next_scope_seq r = 1 + Z.of_nat (length claims) ∧ sc_open_segment_no r = Z.of_nat (length init).
Proof.
  intros (parts & Hc & Hs & (Hne & Hn & Ho) & Hf & _). destruct parts as [|p init _] using rev_ind; [done|].
  destruct segs as [|s isegs _] using rev_ind; [by destruct init|]. destruct (parts_full _ _ _ _ eq_refl Hf) as [Hfull Hp].
  apply segs_ok_snoc in Hs as [Hs1 Hs2]. rewrite Z.add_0_l in Hs2. exists init, p, isegs, s. split_and!; try done.
  rewrite Ho, length_app. cbn. lia.
Qed.

Lemma insert_segment_found k no seq at_ j s :
  find_segment no (segments_of j k) = Some s → insert_segment k (empty_segment no seq at_) j = j.
Proof. unfold insert_segment. cbn. by intros ->. Qed.
Lemma insert_segment_new k no seq at_ j :
  find_segment no (segments_of j k) = None → insert_segment k (empty_segment no seq at_) j = set_segments k (segments_of j k ++ [empty_segment no seq at_]) j.
Proof. unfold insert_segment. cbn. by intros ->. Qed.

Lemma ready_empty T k at_ j init isegs r :
  1 <= T → j_scopes j !! k = Some r → claims_of j k = mjoin init → segs_ok 0 1 isegs init → Forall (λ q, Z.of_nat (length q) = T) init →
  sc_next_scope_seq r = 1 + Z.of_nat (length (claims_of j k)) → sc_open_segment_no r = Z.of_nat (length init) →
  let s := empty_segment (Z.of_nat (length init)) (1 + Z.of_nat (length (claims_of j k))) at_ in
  ready T k at_ (set_segments k (isegs ++ [s]) j) init [] isegs s r.
Proof.
  intros HT Hr Hc Hs Hf Hn Ho s. unfold ready. split_and!; try done.
  - apply segments_set.
  - change (claims_of (set_segments k (isegs ++ [s]) j) k) with (claims_of j k). rewrite Hc, join_app. cbn. by rewrite app_nil_r.
  - cbn. lia.
  - change (sg_first_scope_seq s) with (1 + Z.of_nat (length (claims_of j k))). by rewrite Hc.
Qed.

Lemma upsert_ready e T k at_ j :
  1 <= T → je_write e = None → scope_ok T (j_scopes j !! k) (segments_of j k) (claims_of j k) →
  ∃ j1 init p isegs s r,
    upsert_scope_and_segment_state e T k at_ j =
      Ok (1 + Z.of_nat (length (claims_of j k)), Z.of_nat (length init), Z.of_nat (length p) + 1, j1) ∧
    ready T k at_ j1 init p isegs s r ∧ claims_of j1 k = claims_of j k ∧ frame k j j1.
Proof.
  intros HT He Hok. assert (∀ x, exec e x = Ok x) as Hex by (intros x; by apply exec_ok).
  unfold upsert_scope_and_segment_state, no_rows. rewrite Hex. cbn [result_bind]. unfold insert_scope. destruct (j_scopes j !! k) as [r|] eqn:Er.
  - apply scope_ok_last in Hok as (init & p & isegs & s & Hsg & Hc & Hs & Hseg & Hfull & Hp & Hn & Ho).
    pose proof Hseg as (Hne & Hno & Hfst & _ & Hcnt & _ & Hst & _ & Hpos).
    assert (find_segment (sc_open_segment_no r) (segments_of j k) = Some s) as Hfind.
    { rewrite Hsg, Ho. apply find_segment_snoc; [|done]. by eapply earlier_numbers. }
    rewrite Er. cbn [ok_or result_bind]. rewrite (insert_segment_found _ _ _ _ _ s), Hex by done. cbn [result_bind]. rewrite Hfind. cbn [ok_or result_bind].
    rewrite Hcnt, Hn, Ho. destruct (Z.leb_spec T (Z.of_nat (length p))) as [Hle|Hlt].
    + rewrite Hex. cbn [result_bind]. unfold update_scope. rewrite Er.
      set (j1 := set_scope k _ j). assert (segs_ok 0 1 (isegs ++ [s]) (init ++ [p])) as Hs' by (apply segs_ok_snoc; by rewrite Z.add_0_l).
      assert (find_segment (Z.of_nat (length init) + 1) (segments_of j1 k) = None) as Hnone.
      { apply find_segment_none. change (segments_of j1 k) with (segments_of j k). rewrite Hsg. eapply earlier_numbers; [exact Hs'|].
        rewrite length_app. cbn. lia. }
      rewrite insert_segment_new, Hex by done. cbn [result_bind]. rewrite segments_set. change (segments_of j1 k) with (segments_of j k).
      rewrite Hsg, find_segment_snoc; [|by eapply earlier_numbers; [exact Hs'|rewrite length_app; cbn; lia]|done]. cbn [ok_or result_bind].
      assert (Z.of_nat (length init) + 1 = Z.of_nat (length (init ++ [p]))) as Hl by (rewrite length_app; cbn; lia). rewrite Hl.
      eexists _, (init ++ [p]), [], (isegs ++ [s]), _, _. split_and!; [reflexivity| |done|].
      * apply (ready_empty T k at_ j1); [done|apply lookup_insert_eq|done|done| |done|done].
        apply Forall_app. split; [done|]. constructor; [lia|done].
      * eapply frame_trans; [apply frame_scope|apply frame_segments].
    + rewrite Ho in Hfind. cbn [result_bind]. rewrite Hfind. cbn [ok_or result_bind]. rewrite Hcnt. eexists j, init, p, isegs, s, r.
      split_and!; [reflexivity| |done|done]. unfold ready. split_and!; try done. rewrite Hst. by destruct p.
  - destruct Hok as (parts & Hc & Hs & -> & _). cbn in Hc. destruct (segments_of j k) as [|? ?] eqn:Esg; [|done].
    cbn. rewrite lookup_insert_eq. cbn [ok_or result_bind sc_next_scope_seq sc_open_segment_no].
    set (r := mkScopeRow _ _ _ _ _). set (j1 := set_scope k r j). assert (segments_of j1 k = []) as Hj1 by done.
    rewrite insert_segment_new, Hex by (by rewrite Hj1). cbn [result_bind]. rewrite segments_set, Hj1. cbn.
    destruct (Z.leb_spec T 0) as [?|_]; [lia|]. cbn [result_bind]. rewrite segments_set, Hc. cbn [find_segment List.find sg_segment_no empty_segment Z.eqb ok_or result_bind]. eexists _, [], [], [], _, r. split_and!; [reflexivity| | |].
    + assert (claims_of j1 k = []) as Hc1 by exact Hc.
      pose proof (ready_empty T k at_ j1 [] [] r HT (lookup_insert_eq _ _ _) Hc1 I (Forall_nil_2 _)) as Hrdy. rewrite Hc1 in Hrdy. by apply Hrdy.
    + by rewrite <-Hc.
    + eapply frame_trans; [apply frame_scope|apply frame_segments].
Qed.

Lemma segs_ok_seq n first segs parts c : segs_ok n first segs parts → c ∈ mjoin parts → cr_scope_seq c < first + Z.of_nat (length (mjoin parts)).
Proof.
  revert n first parts. induction segs as [|s segs IH]; intros n first [|p parts]; try done; [by intros _ ?%not_elem_of_nil|].
  cbn [segs_ok]. rewrite join_cons. intros [(_ & _ & _ & _ & _ & _ & _ & _ & Hp) Hok]. rewrite length_app, elem_of_app. intros [[i Hi]%list_elem_of_lookup|Hc].
  - destruct (Hp i c Hi) as (_ & _ & ->). apply lookup_lt_Some in Hi. lia.
  - specialize (IH _ _ _ Hok Hc). lia.
Qed.

Lemma ready_seq T k at_ j init p isegs s r c :
  ready T k at_ j init p isegs s r → c ∈ claims_of j k → cr_scope_seq c < sc_next_scope_seq r.
Proof.
  intros (_ & _ & Hc & Hs & _ & _ & _ & _ & _ & _ & Hp & Hn & _). rewrite Hn, Hc, join_app, length_app, elem_of_app, join_single. intros [H|[i Hi]%list_elem_of_lookup].
  - pose proof (segs_ok_seq _ _ _ _ _ Hs H). lia.
  - destruct (Hp i c Hi) as (_ & _ & ->). apply lookup_lt_Some in Hi. lia.
Qed.

(** The claim joins the open segment. *)
Lemma ready_add T k j init p isegs s r i aid :
  1 <= T → ready T k (ci_occurred_at i) j init p isegs s r → ci_source_key i ∉ cr_source_key <$> claims_of j k → NoDup (cr_source_key <$> claims_of j k) →
  let c := claim_row i aid (1 + Z.of_nat (length (claims_of j k))) (Z.of_nat (length init)) (Z.of_nat (length p) + 1) in
  let root := segment_root (cr_input_hash <$> (p ++ [c])) in
  scope_ok T (Some (with_next_seq (1 + Z.of_nat (length (claims_of j k)) + 1) r))
    (isegs ++ [add_claim (1 + Z.of_nat (length (claims_of j k))) (ci_occurred_at i) root s]) (claims_of j k ++ [c]).
Proof.
  intros HT (Hr & Hsg & Hc & Hs & Hfull & Hp & Hno & Hfst & Hcnt & Hst & Hpos & Hn & Ho) Hfresh Hnd c root. exists (init ++ [p ++ [c]]).
  assert (mjoin (init ++ [p ++ [c]]) = claims_of j k ++ [c]) as Hj by (rewrite Hc, !join_app; cbn; by rewrite !app_nil_r, app_assoc).
  assert (Z.of_nat (length (claims_of j k)) = Z.of_nat (length (mjoin init)) + Z.of_nat (length p)) as Hlen.
  { rewrite Hc, join_app, length_app. rewrite join_single. lia. }
  split_and!.
  - done.
  - apply segs_ok_snoc. split; [done|]. rewrite Z.add_0_l. unfold seg_ok, add_claim. cbn [sg_segment_no sg_first_scope_seq sg_last_scope_seq sg_claim_count
      sg_merkle_root sg_started_at sg_ended_at]. split_and!; try done.
    + by destruct p.
    + rewrite length_app. cbn [length]. lia.
    + rewrite length_app. cbn [length]. lia.
    + injection Hst as ->. by destruct p.
    + by rewrite last_snoc.
    + intros x y Hx. apply lookup_app_Some in Hx as [Hx|[Hge Hx]]; [by apply Hpos|]. apply list_lookup_singleton_Some in Hx as [Hx <-].
      cbn [claim_row c cr_segment_no cr_segment_seq cr_scope_seq]. lia.
  - by destruct init.
  - rewrite length_app. cbn. lia.
  - cbn [with_next_seq sc_open_segment_no]. rewrite Ho, length_app. cbn. lia.
  - intros x q Hq. apply lookup_app_Some in Hq as [Hq|[Hge Hq]].
    + eapply Forall_lookup in Hfull; [|exact Hq]. cbn in Hfull. lia.
    + apply list_lookup_singleton_Some in Hq as [Hx <-]. rewrite !length_app. cbn. lia.
  - rewrite fmap_app, NoDup_app. split_and!; [done| |apply NoDup_singleton]. cbn. intros y Hy ->%list_elem_of_singleton. done.
Qed.

Lemma append_claim_shape e T i aid k j :
  1 <= T → je_write e = None → scope_ok T (j_scopes j !! k) (segments_of j k) (claims_of j k) → ci_source_key i ∉ cr_source_key <$> claims_of j k →
  ∃ no sq j',
    let q := 1 + Z.of_nat (length (claims_of j k)) in
    append_claim e T i aid k j = Ok (Appended (ci_source_key i) aid q no sq, j') ∧ claims_of j' k = claims_of j k ++ [claim_row i aid q no sq] ∧
    scope_ok T (j_scopes j' !! k) (segments_of j' k) (claims_of j' k) ∧ frame k j j'.
Proof.
  intros HT He Hok Hfresh. assert (NoDup (cr_source_key <$> claims_of j k)) as Hnd by (destruct Hok as (? & _ & _ & _ & _ & ?); done).
  assert (∀ x, exec e x = Ok x) as Hex by (intros x; by apply exec_ok).
  destruct (upsert_ready e T k (ci_occurred_at i) j HT He Hok) as (j1 & init & p & isegs & s & r & Hu & Hrdy & Hc1 & Hf).
  exists (Z.of_nat (length init)), (Z.of_nat (length p) + 1). unfold append_claim. rewrite Hu. cbn [result_bind].
  pose proof (ready_add T k j1 init p isegs s r i aid HT Hrdy) as Hadd. rewrite Hc1 in Hadd. specialize (Hadd Hfresh Hnd).
  set (q := 1 + Z.of_nat (length (claims_of j k))) in *. set (c := claim_row i aid q (Z.of_nat (length init)) (Z.of_nat (length p) + 1)) in *.
  assert (insert_claim_row_for_scope e k i aid q (Z.of_nat (length init)) (Z.of_nat (length p) + 1) j1 = Ok (set_claims k (claims_of j k ++ [c]) j1)) as ->.
  { unfold insert_claim_row_for_scope. rewrite Hc1. destruct (existsb _ _) eqn:Ex; [|apply Hex]. exfalso.
    apply existsb_exists in Ex as (x & Hx%list_elem_of_In & [Hq%Z.eqb_eq|Hk%bool_decide_eq_true]%orb_prop).
    - rewrite <-Hc1 in Hx. pose proof (ready_seq _ _ _ _ _ _ _ _ _ _ Hrdy Hx) as Hlt. destruct Hrdy as (_ & _ & _ & _ & _ & _ & _ & _ & _ & _ & _ & Hn & _).
      rewrite Hc1 in Hn. lia.
    - apply Hfresh. rewrite <-Hk. by apply list_elem_of_fmap_2. }
  cbn [result_bind]. rewrite Hex. cbn [result_bind]. set (j2 := set_claims k _ j1). rewrite Hex. cbn [result_bind].
  destruct Hrdy as (Hr & Hsg & Hc & Hs & Hfull & Hp & Hno & Hfst & Hcnt & Hst & Hpos & Hn & Ho).
  assert (compute_segment_merkle_root j2 k (Z.of_nat (length init)) = segment_root (cr_input_hash <$> (p ++ [c]))) as ->.
  { unfold compute_segment_merkle_root. f_equal. f_equal. unfold j2. rewrite claims_set, <-Hc1, Hc.
    assert (mjoin (init ++ [p]) ++ [c] = mjoin (init ++ [p ++ [c]])) as -> by (rewrite !join_app; cbn; by rewrite !app_nil_r, app_assoc).
    rewrite (filter_last 0 1 isegs init (p ++ [c])); [|done|lia|].
    - apply sort_by_id, (ordered_seq cr_segment_seq _ 1). intros x y Hx. apply lookup_app_Some in Hx as [Hx|[Hge Hx]].
      + destruct (Hpos x y Hx) as (_ & -> & _). lia.
      + apply list_lookup_singleton_Some in Hx as [Hx <-]. cbn. lia.
    - intros y Hy. apply elem_of_app in Hy as [[x Hx]%list_elem_of_lookup| ->%list_elem_of_singleton]; [by destruct (Hpos x y Hx)|done]. }
  assert (∀ f g root, update_scope k f (update_segment k root g j2) = set_scope k (f r) (update_segment k root g j2)) as ->.
  { intros f g root. unfold update_scope. change (j_scopes (update_segment k root g j2)) with (j_scopes j1). by rewrite Hr. }
  eexists. split_and!; [reflexivity|exact (claims_set k _ j1)| |].
  - rewrite scopes_set. change (claims_of _ k) with (claims_of j2 k). unfold j2 at 2. rewrite claims_set.
    match goal with |- context [segments_of (set_scope k ?x ?y) k] => change (segments_of (set_scope k x y) k) with (segments_of y k) end.
    unfold update_segment. rewrite segments_set. change (segments_of j2 k) with (segments_of j1 k). rewrite Hsg, update_snoc; [exact Hadd| |done].
    eapply earlier_numbers; [exact Hs|lia].
  - eapply frame_trans; [exact Hf|]. eapply frame_trans; [apply frame_claims|]. eapply frame_trans; [apply frame_segments|apply frame_scope].
Qed.

Lemma append_claim_ok e T i aid k j d j' :
  1 <= T → scope_ok T (j_scopes j !! k) (segments_of j k) (claims_of j k) → append_claim e T i aid k j = Ok (d, j') →
  ∃ no sq, let q := 1 + Z.of_nat (length (claims_of j k)) in
    d = Appended (ci_source_key i) aid q no sq ∧ ci_source_key i ∉ cr_source_key <$> claims_of j k ∧
    claims_of j' k = claims_of j k ++ [claim_row i aid q no sq] ∧ scope_ok T (j_scopes j' !! k) (segments_of j' k) (claims_of j' k) ∧ frame k j j'.
Proof.
  intros HT Hok Ha. destruct (je_write e) as [msg|] eqn:He.
  { unfold append_claim, upsert_scope_and_segment_state, exec in Ha. by rewrite He in Ha. }
  destruct (decide (ci_source_key i ∈ cr_source_key <$> claims_of j k)) as [Hin|Hfresh].
  - exfalso. destruct (upsert_ready e T k (ci_occurred_at i) j HT He Hok) as (j1 & init & p & isegs & s & r & Hu & _ & Hc1 & _).
    unfold append_claim in Ha. rewrite Hu in Ha. cbn [result_bind] in Ha. unfold insert_claim_row_for_scope in Ha. rewrite Hc1 in Ha.
    destruct (existsb _ _) eqn:Ex; [done|]. apply list_elem_of_fmap in Hin as (c & Hk & Hc).
    assert (existsb (λ c, (cr_scope_seq c =? 1 + Z.of_nat (length (claims_of j k))) || bool_decide (cr_source_key c = ci_source_key i)) (claims_of j k) = true) as E.
    { apply existsb_exists. exists c. split; [by apply list_elem_of_In|]. rewrite bool_decide_eq_true_2 by done. apply orb_true_r. }
    congruence.
  - destruct (append_claim_shape e T i aid k j HT He Hok Hfresh) as (no & sq & j2 & Hs & Hc & Hok2 & Hf). rewrite Hs in Ha. injection Ha as <- <-.
    by exists no, sq.
Qed.

(** A row with its audit event, as the journal writes it. *)
Definition row_ok (a : AuditStore) (c : ClaimRow) : Prop :=
  needs_backfill c = false ∧ 1 <= cr_scope_seq c ∧ ∃ r, r ∈ al_rows a ∧ ar_id r = cr_audit_event_id c.
Definition journal_wf (T : Z) (j : Journal) : Prop := journal_ok T j ∧ ∀ k, Forall (row_ok (j_audit j)) (claims_of j k).

(** Claims are only added. *)
Definition grows (j j' : Journal) : Prop :=
  (∀ k, claims_of j k `prefix_of` claims_of j' k) ∧ al_rows (j_audit j) `prefix_of` al_rows (j_audit j').

Lemma journal_grows_refl j : grows j j.
Proof. done. Qed.
Lemma journal_grows_trans j1 j2 j3 : grows j1 j2 → grows j2 j3 → grows j1 j3.
Proof. intros [H1 H1'] [H2 H2']. split; [|by etrans]. intros k. etrans; [apply H1|apply H2]. Qed.

Lemma claim_row_filled i aid q no sq : needs_backfill (claim_row i aid q no sq) = false.
Proof. unfold needs_backfill, claim_row, resolve_action_ref. cbn. destruct (ci_action_ref i); [done|]. by destruct (backfill_action_ref_from_tool (ci_tool i)). Qed.

Lemma row_ok_mono a a' c : al_rows a `prefix_of` al_rows a' → row_ok a c → row_ok a' c.
Proof. intros [l Hl] (Hb & Hs & r & Hr & Hi). split_and!; [done|done|]. exists r. split; [|done]. rewrite Hl. set_solver. Qed.

Lemma journal_wf_step T j j' k :
  journal_wf T j → frame k j j' → scope_ok T (j_scopes j' !! k) (segments_of j' k) (claims_of j' k) → Forall (row_ok (j_audit j)) (claims_of j' k) →
  journal_wf T j'.
Proof.
  intros [Hok Hrows] [Ha Hf] Hk Hr. split; intros k'; destruct (decide (k' = k)) as [->|Hne]; try done.
  - destruct (Hf k' Hne) as (-> & -> & ->). apply Hok.
  - by rewrite Ha.
  - rewrite Ha. destruct (Hf k' Hne) as (_ & _ & ->). apply Hrows.
Qed.

Lemma append_claim_wf e T i aid k j d j' :
  1 <= T → journal_wf T j → (∃ r, r ∈ al_rows (j_audit j) ∧ ar_id r = aid) → append_claim e T i aid k j = Ok (d, j') →
  journal_wf T j' ∧ grows j j' ∧ j_audit j' = j_audit j ∧
  ∃ no sq, let q := 1 + Z.of_nat (length (claims_of j k)) in
    d = Appended (ci_source_key i) aid q no sq ∧ claims_of j' k = claims_of j k ++ [claim_row i aid q no sq].
Proof.
  intros HT [Hok Hrows] Haid Ha. destruct (append_claim_ok _ _ _ _ _ _ _ _ HT (Hok k) Ha) as (no & sq & Hd & _ & Hc & Hok' & Hf). split_and!.
  - eapply journal_wf_step; [done|exact Hf|exact Hok'|]. rewrite Hc. apply Forall_app. split; [apply Hrows|]. constructor; [|done].
    split_and!; [apply claim_row_filled|cbn; lia|done].
  - split; [|by destruct Hf as [-> _]]. intros k'. destruct (decide (k' = k)) as [->|Hne]; [rewrite Hc; by eexists|]. destruct Hf as [_ Hf].
    destruct (Hf k' Hne) as (_ & _ & ->). done.
  - apply Hf.
  - by exists no, sq.
Qed.

(** What a disposition says of the row of a claim. *)
Definition disposed (j : Journal) (aid : Z) (key : string) (x : ScopedAppendDisposition) : Prop :=
  ∃ c, c ∈ claims_of j (scope_key (sa_scope x)) ∧ cr_source_key c = key ∧ cr_audit_event_id c = aid ∧
    match sa_disposition x with
    | Appended k a q no sq => k = key ∧ a = aid ∧ q = cr_scope_seq c ∧ no = cr_segment_no c ∧ sq = cr_segment_seq c
    | Duplicate k a q => k = key ∧ a = aid ∧ q = cr_scope_seq c
    end.

Lemma disposed_grows j j' aid key x : grows j j' → disposed j aid key x → disposed j' aid key x.
Proof. intros [Hg _] (c & Hc & H). exists c. split; [|done]. destruct (Hg (scope_key (sa_scope x))) as [l ->]. set_solver. Qed.

Lemma append_results_wf e T i aid results j rs j' :
  1 <= T → journal_wf T j → (∃ r, r ∈ al_rows (j_audit j) ∧ ar_id r = aid) →
  Forall (λ x, needs_append x = false → disposed j aid (ci_source_key i) x) results →
  append_results e T i aid results j = Ok (rs, j') →
  journal_wf T j' ∧ grows j j' ∧ j_audit j' = j_audit j ∧ sa_scope <$> rs = sa_scope <$> results ∧ Forall (disposed j' aid (ci_source_key i)) rs.
Proof.
  intros HT. revert j rs j'. induction results as [|x results IH]; intros j rs j' Hwf Haid Hd; cbn [append_results].
  - intros [= <- <-]. by split_and!.
  - apply Forall_cons in Hd as [Hx Hd]. destruct (needs_append x) eqn:En.
    + destruct (append_claim e T i aid (scope_key (sa_scope x)) j) as [[d j1]|] eqn:Ea; [|done]. cbn [result_bind].
      destruct (append_results e T i aid results j1) as [[rest j2]|] eqn:Er; [|done]. cbn [result_bind]. intros [= <- <-].
      destruct (append_claim_wf _ _ _ _ _ _ _ _ HT Hwf Haid Ea) as (Hwf1 & Hg1 & Ha1 & no & sq & -> & Hc). rewrite <-Ha1 in Haid.
      destruct (IH j1 rest j2 Hwf1 Haid) as (Hwf2 & Hg2 & Ha2 & Hs & Hr); [|done|].
      { eapply Forall_impl; [exact Hd|]. intros y Hy Hn. eapply disposed_grows; [exact Hg1|]. by apply Hy. }
      split_and!; [done|by eapply journal_grows_trans|congruence|cbn; congruence|]. constructor; [|done].
      eapply disposed_grows; [exact Hg2|]. eexists. cbn [sa_scope sa_disposition]. split; [rewrite Hc; apply elem_of_app; right; by left|].
      by split_and!.
    + cbn [result_bind]. destruct (append_results e T i aid results j) as [[rest j2]|] eqn:Er; [|done]. cbn [result_bind]. intros [= <- <-].
      destruct (IH j rest j2 Hwf Haid Hd Er) as (Hwf2 & Hg2 & Ha2 & Hs & Hr). split_and!; [done|done|done|cbn; congruence|]. constructor; [|done].
      eapply disposed_grows; [exact Hg2|]. specialize (Hx eq_refl). destruct x as [sc dsp]. exact Hx.
Qed.

Lemma existing_row e j k key a q :
  existing_claim e j k key = Some (a, q) → ∃ c, c ∈ claims_of j k ∧ cr_source_key c = key ∧ cr_audit_event_id c = a ∧ cr_scope_seq c = q.
Proof.
  unfold existing_claim. destruct (je_lookup_fails e); [done|]. destruct (List.find _ _) as [c|] eqn:Ef; [|done]. intros [= <- <-].
  apply find_some in Ef as [Hc%list_elem_of_In Hk%bool_decide_eq_true]. by exists c.
Qed.

Lemma find_existing_ok e j key prior scopes prior' rs T :
  journal_wf T j → find_existing e j key prior scopes = Ok (prior', rs) →
  sa_scope <$> rs = scopes ∧ (∀ p, prior = Some p → prior' = Some p) ∧
  Forall (λ x, needs_append x = false → ∃ a, prior' = Some a ∧ disposed j a key x) rs ∧
  (prior = None → prior' ≠ None → ∃ a, prior' = Some a ∧ ∃ r, r ∈ al_rows (j_audit j) ∧ ar_id r = a).
Proof.
  intros Hwf. revert prior rs. induction scopes as [|s scopes IH]; intros prior rs; cbn [find_existing].
  - intros [= <- <-]. split_and!; [done|done|done|done].
  - destruct (existing_claim e j (scope_key s) key) as [[a q]|] eqn:Ee.
    + apply existing_row in Ee as (c & Hc & Hk & Ha & Hq). destruct Hwf as [_ Hrows]. pose proof (Hrows (scope_key s)) as Hf.
      rewrite Forall_forall in Hf. destruct (Hf c Hc) as (_ & Hs1 & r & Hr & Hri). clear Hf.
      destruct (match prior with Some _ => _ | None => _ end) as [pr|] eqn:Ep in |- *; [|done]. cbn [result_bind].
      assert (pr = Some a ∧ ∀ x, prior = Some x → x = a) as [-> Hx].
      { destruct prior as [x|]; [|injection Ep as <-; by split]. destruct (Z.eqb_spec x a); cbn in Ep; [|done]. injection Ep as <-. split; [congruence|]. intros ? [= <-]. done. }
      destruct (find_existing e j key (Some a) scopes) as [[pr' rest]|] eqn:Er; [|done]. cbn [result_bind]. intros [= <- <-].
      destruct (IH (Some a) rest Er) as (Hs & Hpr & Hd & _). pose proof (Hpr a eq_refl) as ->. split_and!.
      * cbn. by rewrite Hs.
      * intros p ->. by rewrite (Hx p eq_refl).
      * constructor; [|done]. intros _. exists a. split; [done|]. exists c. cbn [sa_scope sa_disposition]. by split_and!.
      * intros _ _. exists a. split; [done|]. exists r. split; [done|congruence].
    + destruct (find_existing e j key prior scopes) as [[pr' rest]|] eqn:Er; [|done]. cbn [result_bind]. intros [= <- <-].
      destruct (IH prior rest Er) as (Hs & Hpr & Hd & Hn). split_and!; [cbn; by rewrite Hs|done| |done]. constructor; [|done]. cbn. done.
Qed.

Lemma audit_append_grows e agent action cred outcome details a id a' :
  append_audit_event_with_chain_in_tx e agent action cred outcome details a = (Ok id, a') →
  al_rows a `prefix_of` al_rows a' ∧ ∃ r, r ∈ al_rows a' ∧ ar_id r = id.
Proof.
  unfold append_audit_event_with_chain_in_tx, insert_audit. destruct (al_quarantined a); [done|]. destruct (ae_write e); [done|].
  destruct (row_admitted _ _); [|done]. intros [= <- <-]. cbn [al_rows]. split; [by eexists|]. eexists. split; [apply elem_of_app; right; by left|done].
Qed.

Lemma audit_append_prefix e agent action cred outcome details a :
  al_rows a `prefix_of` al_rows (append_audit_event_with_chain_in_tx e agent action cred outcome details a).2.
Proof.
  unfold append_audit_event_with_chain_in_tx, insert_audit. destruct (al_quarantined a); [done|]. destruct (ae_write e); [done|].
  destruct (row_admitted _ _); [|done]. by eexists.
Qed.

Lemma set_audit_wf T j a : journal_wf T j → al_rows (j_audit j) `prefix_of` al_rows a → journal_wf T (set_audit a j) ∧ grows j (set_audit a j).
Proof.
  intros [Hok Hrows] Hp. split; [|by split]. split; [exact Hok|]. intros k. change (claims_of (set_audit a j) k) with (claims_of j k).
  eapply Forall_impl; [apply Hrows|]. intros c. by apply row_ok_mono.
Qed.

Lemma claim_audit_event_wf e i ex j aid j1 T :
  journal_wf T j → (ex ≠ None → ∃ a, ex = Some a ∧ ∃ r, r ∈ al_rows (j_audit j) ∧ ar_id r = a) → claim_audit_event e i ex j = Ok (aid, j1) →
  journal_wf T j1 ∧ grows j j1 ∧ (∃ r, r ∈ al_rows (j_audit j1) ∧ ar_id r = aid) ∧ ∀ a, ex = Some a → a = aid.
Proof.
  intros Hwf Hex. unfold claim_audit_event. destruct ex as [a|].
  - intros [= <- <-]. destruct (Hex ltac:(done)) as (? & [= <-] & Hr). split_and!; [done|done|done|]. by intros ? [= <-].
  - destruct (append_audit_event_with_chain_in_tx _ _ _ _ _ _ _) as [[id|] a] eqn:Ea; [|done]. intros [= <- <-].
    apply audit_append_grows in Ea as [Hp Hr]. destruct (set_audit_wf _ _ _ Hwf Hp). by split_and!.
Qed.

Lemma record_in_tx_wf e T scopes i j rs j' :
  1 <= T → journal_wf T j → record_in_tx e T scopes i j = Ok (rs, j') →
  journal_wf T j' ∧ grows j j' ∧ sa_scope <$> rs = scopes ∧ (scopes ≠ [] → ∃ aid, Forall (disposed j' aid (ci_source_key i)) rs).
Proof.
  intros HT Hwf. unfold record_in_tx. destruct (find_existing e j (ci_source_key i) None scopes) as [[ex results]|] eqn:Ef; [|done]. cbn [result_bind].
  destruct (find_existing_ok _ _ _ _ _ _ _ _ Hwf Ef) as (Hs & _ & Hd & Hex). destruct (existsb needs_append results) eqn:En; cbn [negb].
  - destruct (claim_audit_event e i ex j) as [[aid j1]|] eqn:Ea; [|done]. cbn [result_bind]. intros Hr.
    destruct (claim_audit_event_wf _ _ _ _ _ _ _ Hwf (Hex eq_refl) Ea) as (Hwf1 & Hg1 & Haid & Heq).
    destruct (append_results_wf e T i aid results j1 rs j' HT Hwf1 Haid) as (Hwf2 & Hg2 & _ & Hs2 & Hr2); [|exact Hr|].
    { eapply Forall_impl; [exact Hd|]. intros x Hx Hn. destruct (Hx Hn) as (a & Ha & Hdis). rewrite (Heq a Ha) in Hdis. by eapply disposed_grows. }
    split_and!; [done|by eapply journal_grows_trans|congruence|]. intros _. by exists aid.
  - intros [= <- <-]. split_and!; [done|done|done|]. intros Hne. destruct results as [|x results]; [by destruct scopes|].
    rewrite Forall_forall in Hd. assert (∀ y, y ∈ x :: results → needs_append y = false) as Hnn.
    { intros y Hy. destruct (needs_append y) eqn:E; [|done]. exfalso. assert (existsb needs_append (x :: results) = true); [|congruence].
      apply existsb_exists. exists y. split; [by apply list_elem_of_In|done]. }
    destruct (Hd x) as (a & Ha & _); [by left|apply Hnn; by left|]. exists a. apply Forall_forall. intros y Hy.
    destruct (Hd y Hy (Hnn y Hy)) as (a' & Ha' & Hdis). congruence.
Qed.

Lemma in_transaction_cases {X} e (body : Journal → result (X * Journal) ClaimJournalError) j r j' :
  in_transaction e body j = (r, j') →
  (j' = j ∧ ∃ err, r = Err err) ∨ ∃ x, r = Ok x ∧ body j = Ok (x, j') ∧ je_begin e = None ∧ je_commit e = None.
Proof.
  unfold in_transaction. destruct (je_begin e); [intros [= <- <-]; left; by eauto|]. destruct (body j) as [[x j1]|err].
  - destruct (je_commit e); intros [= <- <-]; [left; by eauto|]. right. by exists x.
  - intros [= <- <-]. left. by eauto.
Qed.

Lemma normalize_nodup acc scopes l :
  normalize_scopes acc scopes = Ok l → NoDup acc → NoDup l ∧ (∀ s, s ∈ l ↔ s ∈ acc ∨ s ∈ scopes).
Proof.
  revert acc. induction scopes as [|s scopes IH]; intros acc; cbn [normalize_scopes].
  - intros [= <-] Hn. split; [done|]. set_solver.
  - destruct (validate_scope s) as [[]|]; [|done]. cbn [result_bind]. intros H Hn. destruct (IH _ H) as [? Hl].
    + case_bool_decide; [done|]. apply NoDup_app. split_and!; [done|set_solver|apply NoDup_singleton].
    + split; [done|]. intros x. rewrite Hl. case_bool_decide; set_solver.
Qed.

Lemma record_wf e T scopes i j r j' :
  1 <= T → journal_wf T j → record_successful_claim_for_scopes e T scopes i j = (r, j') →
  journal_wf T j' ∧ grows j j' ∧
  ∀ rs, r = Ok rs → validate_scope_set scopes = Ok (sa_scope <$> rs) ∧ ∃ aid, Forall (disposed j' aid (ci_source_key i)) rs.
Proof.
  intros HT Hwf. unfold record_successful_claim_for_scopes. destruct (validate_scope_set scopes) as [scs|] eqn:Ev; cbn [result_bind]; [|by intros [= <- <-]].
  destruct (validate_input i) as [[]|]; cbn [result_bind]; [|by intros [= <- <-]].
  intros [[-> [err ->]]|(x & -> & Hb & _)]%in_transaction_cases; [by split_and!|].
  destruct (record_in_tx_wf _ _ _ _ _ _ _ HT Hwf Hb) as (Hwf' & Hg & Hs & Hd). split_and!; [done|done|]. intros rs [= <-]. split; [by rewrite Hs|].
  apply Hd. unfold validate_scope_set in Ev. destruct (normalize_scopes [] scopes) as [l|]; cbn in Ev; [|done].
  case_bool_decide; [done|]. by injection Ev as <-.
Qed.

(** *** Reading and closing *)

Lemma backfill_id T e j : journal_wf T j → backfill_legacy_claim_action_refs e j = Ok j.
Proof.
  intros [_ Hrows]. unfold backfill_legacy_claim_action_refs. destruct (existsb _ _) eqn:Ex; [|done]. exfalso.
  apply existsb_exists in Ex as ((k & l) & Hk%list_elem_of_In%elem_of_map_to_list & Hl). apply existsb_exists in Hl as (c & Hc%list_elem_of_In & Hn).
  specialize (Hrows k). unfold claims_of in Hrows. rewrite Hk in Hrows. cbn in Hrows, Hc. rewrite Forall_forall in Hrows.
  destruct (Hrows c Hc) as [Hb _]. congruence.
Qed.

Lemma segs_ok_map n first segs parts (f : SegmentRow → SegmentRow) :
  (∀ n first s p, seg_ok n first s p → seg_ok n first (f s) p) → segs_ok n first segs parts → segs_ok n first (f <$> segs) parts.
Proof.
  intros Hf. revert n first parts. induction segs as [|s segs IH]; intros n first [|p parts]; try done. intros [Hs Hok]. split; [by apply Hf|by apply IH].
Qed.

Lemma scope_ok_close T r segs claims now :
  scope_ok T (Some r) segs claims → scope_ok T (Some (close_scope_row now r)) (close_segment_row <$> segs) claims.
Proof. intros (parts & Hc & Hs & Hr & Hp & Hn). exists parts. split; [done|]. split; [by apply segs_ok_map|]. split; [exact Hr|by split]. Qed.

Lemma segments_sorted T row segs claims : scope_ok T row segs claims → sort_by (λ a b, sg_segment_no a <=? sg_segment_no b) segs = segs.
Proof.
  intros (parts & _ & Hs & _). apply sort_by_id. pose proof (segs_ok_no _ _ _ _ Hs) as Hno. clear -Hno. revert Hno. generalize 0.
  induction segs as [|s [|s' segs] IH]; intros n Hno; [done|done|]. split.
  - apply Z.leb_le. rewrite (Hno 0%nat s eq_refl), (Hno 1%nat s' eq_refl). lia.
  - apply (IH (n + 1)). intros i x Hx. rewrite (Hno (Datatypes.S i) x Hx). lia.
Qed.

Lemma claims_positions n first segs parts : segs_ok n first segs parts → ∀ i c, mjoin parts !! i = Some c → cr_scope_seq c = first + Z.of_nat i.
Proof.
  revert n first parts. induction segs as [|s segs IH]; intros n first [|p parts]; try done. cbn [segs_ok]. rewrite join_cons.
  intros [(_ & _ & _ & _ & _ & _ & _ & _ & Hp) Hok] i c [Hi|[Hge Hi]]%lookup_app_Some; [by destruct (Hp i c Hi) as (_ & _ & ->)|].
  rewrite (IH _ _ _ Hok _ _ Hi). lia.
Qed.

Lemma sort_descending (l : list ClaimRow) a : (∀ i c, l !! i = Some c → cr_scope_seq c = a + Z.of_nat i) → sort_by (λ x y, cr_scope_seq y <=? cr_scope_seq x) l = rev l.
Proof.
  revert a. induction l as [|c l IH]; intros a Hl; [done|]. change (sort_by ?le (c :: l)) with (insert_by le c (sort_by le l)).
  rewrite (IH (a + 1)); [|intros i x Hx; rewrite (Hl (Datatypes.S i) x Hx); lia]. cbn [rev].
  assert (∀ x, x ∈ rev l → cr_scope_seq c < cr_scope_seq x) as Hlt.
  { intros x Hx%list_elem_of_In%in_rev%list_elem_of_In. apply list_elem_of_lookup in Hx as [i Hi]. rewrite (Hl 0%nat c eq_refl), (Hl (Datatypes.S i) x Hi). lia. }
  clear IH Hl. induction (rev l) as [|x m IHm]; [done|]. cbn [insert_by app]. destruct (Z.leb_spec (cr_scope_seq x) (cr_scope_seq c)) as [Hle|_].
  - specialize (Hlt x ltac:(by left)). lia.
  - f_equal. apply IHm. intros y Hy. apply Hlt. by right.
Qed.

Lemma rows_to_events_app l l' ev : rows_to_events (l ++ l') = Ok ev ↔ ∃ a b, rows_to_events l = Ok a ∧ rows_to_events l' = Ok b ∧ ev = a ++ b.
Proof.
  revert ev. induction l as [|c l IH]; intros ev; cbn [app rows_to_events].
  - split; [by exists [], ev|]. by intros (a & b & [= <-] & H & ->).
  - destruct (row_to_event c) as [x|]; cbn [result_bind]; [|naive_solver]. destruct (rows_to_events (l ++ l')) as [r|] eqn:Er; cbn [result_bind].
    + split.
      * intros [= <-]. destruct (proj1 (IH r) eq_refl) as (a & b & Ha & Hb & ->). exists (x :: a), b. by rewrite Ha.
      * intros (a & b & Ha & Hb & ->). destruct (rows_to_events l) as [a'|] eqn:El; [|done]. injection Ha as <-.
        destruct (proj1 (IH r) eq_refl) as (a2 & b2 & [= <-] & Hb2 & ->). rewrite Hb in Hb2. by injection Hb2 as <-.
    + split; [done|]. intros (a & b & Ha & Hb & ->). destruct (rows_to_events l) as [a'|] eqn:El; [|done]. injection Ha as <-.
      pose proof (proj2 (IH (a' ++ b)) (ex_intro _ a' (ex_intro _ b (conj eq_refl (conj Hb eq_refl))))). congruence.
Qed.

Lemma rows_to_events_rev l ev : rows_to_events l = Ok ev → rows_to_events (rev l) = Ok (rev ev).
Proof.
  revert ev. induction l as [|c l IH]; intros ev; cbn [rows_to_events rev]; [by intros [= <-]|]. destruct (row_to_event c) as [x|] eqn:Ex; [|done]. cbn [result_bind].
  destruct (rows_to_events l) as [r|] eqn:El; [|done]. intros [= <-]. apply rows_to_events_app. exists (rev r), [x]. split_and!; [by apply IH| |done].
  cbn. by rewrite Ex.
Qed.

Lemma rows_to_events_length l ev : rows_to_events l = Ok ev → length ev = length l.
Proof.
  revert ev. induction l as [|c l IH]; intros ev; cbn [rows_to_events]; [by intros [= <-]|]. destruct (row_to_event c); [|done]. cbn [result_bind].
  destruct (rows_to_events l) as [r|] eqn:El; [|done]. intros [= <-]. cbn. by rewrite (IH r).
Qed.

(** A summary gives the number of the claims, the segments in order and the last claims. *)
Definition summarizes (scope : ScopeRef) (limit : nat) (j : Journal) (s : ClosedScopeSummary) : Prop :=
  let claims := claims_of j (scope_key scope) in
  cs_scope s = scope ∧ cs_total_claims s = Z.of_nat (length claims) ∧ cs_segments s = segment_summary <$> segments_of j (scope_key scope) ∧
  rows_to_events (drop (length claims - limit) claims) = Ok (cs_recent_claims s) ∧
  (cs_recent_claims_truncated s = true ↔ (limit < length claims)%nat).

Lemma load_summarizes T e scope limit j s j' :
  journal_wf T j → load_closed_scope_summary e scope limit j = Ok (s, j') → j' = j ∧ summarizes scope limit j s.
Proof.
  intros Hwf. unfold load_closed_scope_summary. rewrite (backfill_id T) by done. cbn [result_bind]. destruct Hwf as [Hok _].
  pose proof (Hok (scope_key scope)) as Hk. rewrite (segments_sorted _ _ _ _ Hk). destruct Hk as (parts & Hc & Hs & _).
  rewrite (sort_descending _ 1) by (rewrite Hc; by eapply claims_positions).
  set (claims := claims_of j (scope_key scope)). destruct (rows_to_events (take limit (rev claims))) as [recent|] eqn:Er; [|done]. cbn [result_bind].
  intros [= <- <-]. split; [done|]. unfold summarizes. cbn [cs_scope cs_total_claims cs_segments cs_recent_claims cs_recent_claims_truncated].
  split_and!; [done|done|done| |].
  - fold claims. apply rows_to_events_rev in Er. rewrite <-Er. f_equal. by rewrite firstn_rev, rev_involutive.
  - apply rows_to_events_length in Er. rewrite length_take, length_rev in Er. rewrite Er. fold claims. rewrite Z.ltb_lt. lia.
Qed.

Lemma update_scope_found k f j r : j_scopes j !! k = Some r → update_scope k f j = set_scope k (f r) j.
Proof. unfold update_scope. by intros ->. Qed.

Lemma close_scope_wf T e scope limit j r j' :
  journal_wf T j → close_scope e scope limit j = (r, j') →
  journal_wf T j' ∧ grows j j' ∧ ∀ s, r = Ok s → summarizes scope limit j' s ∧ claims_of j' (scope_key scope) = claims_of j (scope_key scope) ∧
    segment_summary <$> segments_of j' (scope_key scope) = segment_summary <$> segments_of j (scope_key scope).
Proof.
  intros Hwf. unfold close_scope. destruct (validate_scope scope) as [[]|]; [|by intros [= <- <-]].
  intros [[-> [err ->]]|(x & -> & Hb & _)]%in_transaction_cases; [by split_and!|]. revert Hb. cbn zeta. set (k := scope_key scope).
  destruct (exec e _) as [j1|] eqn:E1; [|done]. apply exec_ok in E1 as [He ->]. cbn [result_bind].
  destruct (j_scopes j !! k) as [row|] eqn:Erow; [|by rewrite bool_decide_eq_true_2]. rewrite bool_decide_eq_false_2 by done. cbn [result_bind].
  rewrite (update_scope_found _ _ _ row) by done. unfold exec. rewrite He. cbn [result_bind]. set (j2 := set_segments k _ _). intros Hl.
  assert (frame k j j2) as Hf by (eapply frame_trans; [apply frame_scope|apply frame_segments]). pose proof Hwf as [Hok Hrows].
  assert (journal_wf T j2) as Hwf2.
  { eapply journal_wf_step; [done|exact Hf| |exact (Hrows k)]. unfold j2 at 2. rewrite segments_set.
    change (j_scopes j2 !! k) with (<[k:=close_scope_row (je_now e) row]> (j_scopes j) !! k). rewrite lookup_insert_eq.
    change (claims_of j2 k) with (claims_of j k). change (segments_of (set_scope k _ j) k) with (segments_of j k). apply scope_ok_close.
    rewrite <-Erow. apply Hok. }
  destruct (load_summarizes _ _ _ _ _ _ _ Hwf2 Hl) as [-> Hs]. split_and!; [done| |].
  - split; [|by destruct Hf as [-> _]]. intros k'. done.
  - intros s [= <-]. split_and!; [done|done|]. unfold j2. rewrite segments_set, <-list_fmap_compose. done.
Qed.

Lemma summarize_scope_wf T e scope limit j r j' :
  journal_wf T j → summarize_scope e scope limit j = (r, j') → j' = j ∧ ∀ s, r = Ok s → summarizes scope limit j s.
Proof.
  intros Hwf. unfold summarize_scope. destruct (validate_scope scope ;? _) as [row|]; [|intros [= <- <-]; by split].
  rewrite (backfill_id T) by done. intros [= <- <-]. split; [done|]. intros s.
  destruct (load_closed_scope_summary e scope limit j) as [[x j1]|] eqn:El; [|done]. intros [= <-]. by eapply load_summarizes in El as [_ H].
Qed.

Inductive JournalOp :=
| JRecord (scopes : list ScopeRef) (i : SuccessfulClaimInput)
| JClose (scope : ScopeRef) (limit : nat)
| JSummarize (scope : ScopeRef) (limit : nat)
| JService (outcomes runners : list string) (plugin window_start window_end : string)
| JAudit (agent : option string) (action : string) (credential : option string) (outcome : string) (details : option string).

Definition journal_step (T : Z) (j : Journal) (op : JournalEnv * JournalOp) : Journal :=
  let e := op.1 in
  match op.2 with
  | JRecord scopes i => (record_successful_claim_for_scopes e T scopes i j).2
  | JClose scope limit => (close_scope e scope limit j).2
  | JSummarize scope limit => (summarize_scope e scope limit j).2
  | JService outcomes runners plugin ws we => (summarize_by_service e outcomes runners plugin ws we j).2
  | JAudit agent action cred outcome details => set_audit (append_audit_event_with_chain_in_tx (je_audit e) agent action cred outcome details (j_audit j)).2 j
  end.

Definition run_journal (T : Z) (ops : list (JournalEnv * JournalOp)) (j : Journal) : Journal := foldl (journal_step T) j ops.
Definition empty_journal (a : AuditStore) : Journal := mkJournal ∅ ∅ ∅ a.

Lemma empty_journal_wf T a : journal_wf T (empty_journal a).
Proof. split; intros k; [|done]. exists []. split_and!; try done. constructor. Qed.

Lemma journal_step_wf T j op : 1 <= T → journal_wf T j → journal_wf T (journal_step T j op) ∧ grows j (journal_step T j op).
Proof.
  intros HT Hwf. destruct op as [e [scopes i|scope limit|scope limit|outcomes runners plugin ws we|agent action cred outcome details]]; cbn [journal_step fst snd].
  - destruct (record_successful_claim_for_scopes e T scopes i j) as [r j'] eqn:E. by destruct (record_wf _ _ _ _ _ _ _ HT Hwf E) as (? & ? & _).
  - destruct (close_scope e scope limit j) as [r j'] eqn:E. by destruct (close_scope_wf _ _ _ _ _ _ _ Hwf E) as (? & ? & _).
  - destruct (summarize_scope e scope limit j) as [r j'] eqn:E. by destruct (summarize_scope_wf _ _ _ _ _ _ _ Hwf E) as (-> & _).
  - unfold summarize_by_service. destruct (validate_plugin_address plugin); [|done]. by rewrite (backfill_id T).
  - apply set_audit_wf; [done|]. apply audit_append_prefix.
Qed.

Lemma run_journal_wf T ops j : 1 <= T → journal_wf T j → journal_wf T (run_journal T ops j) ∧ grows j (run_journal T ops j).
Proof.
  intros HT. revert j. induction ops as [|op ops IH]; intros j Hwf; [done|]. cbn [run_journal foldl].
  destruct (journal_step_wf T j op HT Hwf) as [Hwf1 Hg1]. destruct (IH _ Hwf1) as [Hwf2 Hg2]. split; [done|]. by eapply journal_grows_trans.
Qed.

(** The disposition of a claim that is already there. *)
Definition dup_of (x : ScopedAppendDisposition) : ScopedAppendDisposition :=
  mkScoped (sa_scope x) (match sa_disposition x with Appended k a q _ _ => Duplicate k a q | d => d end).

Lemma disposed_dup T j aid key x e :
  journal_wf T j → je_lookup_fails e = false → disposed j aid key x →
  ∃ q, 1 <= q ∧ existing_claim e j (scope_key (sa_scope x)) key = Some (aid, q) ∧ dup_of x = mkScoped (sa_scope x) (Duplicate key aid q).
Proof.
  intros [Hok Hrows] He (c & Hc & Hk & Ha & Hd). exists (cr_scope_seq c). pose proof (Hrows (scope_key (sa_scope x))) as Hr. rewrite Forall_forall in Hr.
  destruct (Hr c Hc) as (_ & Hs & _). split_and!; [done| |].
  - unfold existing_claim. rewrite He. destruct (List.find _ _) as [c'|] eqn:Ef.
    + apply find_some in Ef as [Hc'%list_elem_of_In Hk'%bool_decide_eq_true]. assert (c' = c) as ->; [|cbn; by rewrite Ha].
      destruct (Hok (scope_key (sa_scope x))) as (_ & _ & _ & _ & _ & Hnd). apply list_elem_of_lookup in Hc as [i Hi], Hc' as [i' Hi'].
      assert (i' = i) as ->; [|congruence]. eapply NoDup_lookup; [exact Hnd|rewrite list_lookup_fmap, Hi'; cbn; by rewrite Hk'|rewrite list_lookup_fmap, Hi; cbn; by rewrite Hk].
    + exfalso. pose proof (find_none _ _ Ef c ltac:(by apply list_elem_of_In)) as Hn. apply bool_decide_eq_false in Hn. done.
  - unfold dup_of. destruct (sa_disposition x); naive_solver.
Qed.

Lemma find_existing_dups T j aid key rs e prior :
  journal_wf T j → je_lookup_fails e = false → Forall (disposed j aid key) rs → prior = None ∨ prior = Some aid →
  ∃ prior', find_existing e j key prior (sa_scope <$> rs) = Ok (prior', dup_of <$> rs) ∧ existsb needs_append (dup_of <$> rs) = false.
Proof.
  intros Hwf He Hd. revert prior. induction Hd as [|x rs Hx _ IH]; intros prior Hp; [by eexists|].
  destruct (disposed_dup _ _ _ _ _ _ Hwf He Hx) as (q & Hq & Hex & Hdup). cbn [fmap list_fmap find_existing]. rewrite Hex.
  destruct (IH (Some aid) ltac:(by right)) as (p' & Hf & Hn). exists p'. cbn [existsb]. rewrite Hdup. split.
  - destruct Hp as [->| ->]; cbn [result_bind]; [|rewrite Z.eqb_refl; cbn [negb result_bind]]; rewrite Hf; done.
  - apply orb_false_iff. split; [|done]. cbn. destruct (Z.eqb_spec q (-1)); [lia|]. by rewrite andb_false_r.
Qed.

End Invariant.

(** C18. Exactly once. Whatever claims, closings, summaries and audit rows came before and after it and whatever failed in them, what
    a successful recording reported stays in the journal: in every scope the claim has the reported position and an audit row that is
    still in the log, no scope has another claim of this source, and a retry with a working database returns the same positions as
    duplicates and changes nothing. *)
Theorem claims_recorded_once {B : Blake3Ops} {A : AuditOps} {JS : JsonString} (T : Z) (a : AuditStore) (before after : list (JournalEnv * JournalOp))
  (e e' : JournalEnv) (scopes : list ScopeRef) (i i' : SuccessfulClaimInput) (rs : list ScopedAppendDisposition) (j1 : Journal) :
  1 <= T → record_successful_claim_for_scopes e T scopes i (run_journal T before (empty_journal a)) = (Ok rs, j1) →
  let j := run_journal T after j1 in
  (∀ x, x ∈ rs → ∃ c, claims_of j (scope_key (sa_scope x)) !! Z.to_nat (cr_scope_seq c - 1) = Some c ∧ cr_source_key c = ci_source_key i ∧
     (∀ c', c' ∈ claims_of j (scope_key (sa_scope x)) → cr_source_key c' = ci_source_key i → c' = c) ∧
     (∃ r, r ∈ al_rows (j_audit j) ∧ ar_id r = cr_audit_event_id c) ∧
     dup_of x = mkScoped (sa_scope x) (Duplicate (ci_source_key i) (cr_audit_event_id c) (cr_scope_seq c))) ∧
  (ci_source_key i' = ci_source_key i → validate_input i' = Ok tt → je_begin e' = None → je_lookup_fails e' = false → je_commit e' = None →
   record_successful_claim_for_scopes e' T scopes i' j = (Ok (dup_of <$> rs), j)).
Proof.
  intros HT Hrec j. destruct (run_journal_wf T before (empty_journal a) HT (empty_journal_wf T a)) as [Hwf0 _].
  destruct (record_wf _ _ _ _ _ _ _ HT Hwf0 Hrec) as (Hwf1 & _ & Hrs). destruct (Hrs rs eq_refl) as [Hv [aid Hd]].
  destruct (run_journal_wf T after j1 HT Hwf1) as [Hwf Hg]. fold j in Hwf, Hg.
  assert (Forall (disposed j aid (ci_source_key i)) rs) as Hdj by (eapply Forall_impl; [exact Hd|]; intros x; by apply disposed_grows). split.
  - intros x Hx. rewrite Forall_forall in Hdj. pose proof Hwf as [Hok Hrows].
    destruct (Hdj x Hx) as (c & Hc & Hk & Ha & Hdisp). exists c. destruct (Hok (scope_key (sa_scope x))) as (parts & Hcl & Hs & _ & _ & Hnd).
    assert (∀ n y, claims_of j (scope_key (sa_scope x)) !! n = Some y → cr_scope_seq y = 1 + Z.of_nat n) as Hpos by (rewrite Hcl; by eapply claims_positions).
    pose proof (Hrows (scope_key (sa_scope x))) as Hr. rewrite Forall_forall in Hr. destruct (Hr c Hc) as (_ & _ & Haud).
    apply list_elem_of_lookup in Hc as [n Hn]. split_and!; [|done| |done|].
    + rewrite (Hpos n c Hn). by replace (Z.to_nat (1 + Z.of_nat n - 1)) with n by lia.
    + intros c' [n' Hn']%list_elem_of_lookup Hk'. assert (n' = n) as ->; [|congruence].
      eapply NoDup_lookup; [exact Hnd|rewrite list_lookup_fmap, Hn'; cbn; by rewrite Hk'|rewrite list_lookup_fmap, Hn; cbn; by rewrite Hk].
    + unfold dup_of. destruct (sa_disposition x); naive_solver.
  - intros Hkey Hvi Hb Hl Hcm. unfold record_successful_claim_for_scopes. rewrite Hv. cbn [result_bind]. rewrite Hvi. cbn [result_bind].
    unfold in_transaction. rewrite Hb, Hcm. unfold record_in_tx. rewrite Hkey.
    destruct (find_existing_dups _ _ _ _ _ e' None Hwf Hl Hdj ltac:(by left)) as (p & -> & Hn). cbn [result_bind]. by rewrite Hn.
Qed.

Section Parts.
Context {X : Type} (T : Z).
Hypothesis HT : 1 <= T.
Implicit Types parts : list (list X).

Definition full parts : Prop := ∀ i p, parts !! i = Some p → Z.of_nat (length p) <= T ∧ ((S i < length parts)%nat → Z.of_nat (length p) = T).

Lemma full_tail p parts : full (p :: parts) → full parts.
Proof. intros H i q Hq. destruct (H (S i) q Hq) as [? Hf]. split; [done|]. intros. apply Hf. cbn. lia. Qed.

(** The part and the position of an element. *)
Lemma full_parts_find parts i c :
  full parts → mjoin parts !! i = Some c →
  ∃ n x p, parts !! n = Some p ∧ p !! x = Some c ∧ Z.of_nat n = Z.of_nat i / T ∧ Z.of_nat x = Z.of_nat i mod T.
Proof.
  revert i. induction parts as [|p parts IH]; intros i Hfull; [done|]. rewrite join_cons. intros [Hi|[Hge Hi]]%lookup_app_Some.
  - exists 0%nat, i, p. destruct (Hfull 0%nat p eq_refl) as [Hle _]. apply lookup_lt_Some in Hi as Hlt.
    split_and!; [done|done| |]; [rewrite Z.div_small by lia|rewrite Z.mod_small by lia]; done.
  - destruct (IH _ (full_tail _ _ Hfull) Hi) as (n & x & q & Hq & Hx & Hn & Hm). exists (S n), x, q.
    destruct (Hfull 0%nat p eq_refl) as [_ Hp]. apply lookup_lt_Some in Hq as Hlt.
    assert (Z.of_nat i = Z.of_nat (i - length p) + 1 * T) as Hi' by (cbn in Hp; lia).
    split_and!; [done|done| |]; rewrite Hi'; [rewrite Z.div_add by lia; lia|rewrite Z.mod_add by lia; done].
Qed.

Lemma full_prefix parts i : full parts → (i < length parts)%nat → Z.of_nat (length (mjoin (take i parts))) = Z.of_nat i * T.
Proof.
  revert parts. induction i as [|i IH]; intros [|p parts] Hfull Hi; cbn in Hi; [lia|done|lia|]. cbn [take]. rewrite join_cons, length_app.
  specialize (IH parts (full_tail _ _ Hfull) ltac:(lia)). destruct (Hfull 0%nat p eq_refl) as [_ Hp]. cbn [length] in Hp.
  rewrite Nat2Z.inj_add, IH, Nat2Z.inj_succ, Z.mul_succ_l, Hp by lia. lia.
Qed.

End Parts.

Lemma full_parts_lookup T (parts : list (list ClaimRow)) i c :
  1 <= T → full T parts → mjoin parts !! i = Some c →
  ∃ n x p, parts !! n = Some p ∧ p !! x = Some c ∧ Z.of_nat n = Z.of_nat i / T ∧ Z.of_nat x = Z.of_nat i mod T.
Proof. intros HT. by apply full_parts_find. Qed.

Lemma full_prefix_length T (parts : list (list ClaimRow)) i : full T parts → (i < length parts)%nat → Z.of_nat (length (mjoin (take i parts))) = Z.of_nat i * T.
Proof. apply full_prefix. Qed.

Lemma filter_none {X} (f : X → bool) l : (∀ x, x ∈ l → f x = false) → List.filter f l = [].
Proof. induction l as [|x l IH]; intros H; [done|]. cbn. rewrite (H x) by by left. apply IH. intros y Hy. apply H. by right. Qed.
Lemma filter_all {X} (f : X → bool) l : (∀ x, x ∈ l → f x = true) → List.filter f l = l.
Proof. induction l as [|x l IH]; intros H; [done|]. cbn. rewrite (H x) by by left. f_equal. apply IH. intros y Hy. apply H. by right. Qed.

(** The claims of one segment. *)
Lemma filter_part {B : Blake3Ops} n first segs parts i p :
  segs_ok n first segs parts → parts !! i = Some p → List.filter (λ c, cr_segment_no c =? n + Z.of_nat i) (mjoin parts) = p.
Proof.
  intros Hok Hp. rewrite <-(take_drop_middle _ _ _ Hp), join_app, join_cons, !List.filter_app.
  assert (∀ x q c, parts !! x = Some q → c ∈ q → cr_segment_no c = n + Z.of_nat x) as Hno.
  { intros x q c Hq [y Hy]%list_elem_of_lookup. destruct (segs !! x) as [s|] eqn:Es.
    - destruct (segs_ok_lookup _ _ _ _ _ _ _ Hok Es Hq) as (_ & _ & _ & _ & _ & _ & _ & _ & H). by destruct (H y c Hy).
    - apply lookup_ge_None in Es. apply lookup_lt_Some in Hq. apply segs_ok_length in Hok. lia. }
  rewrite (filter_none _ (mjoin (take i parts))), (filter_all _ p), (filter_none _ (mjoin (drop (S i) parts))); [apply app_nil_r|..].
  - intros c (q & Hc & [y Hq]%list_elem_of_lookup)%list_elem_of_join. rewrite lookup_drop in Hq. rewrite (Hno _ _ _ Hq Hc). apply Z.eqb_neq. lia.
  - intros c Hc. rewrite (Hno _ _ _ Hp Hc). apply Z.eqb_refl.
  - intros c (q & Hc & [y Hq]%list_elem_of_lookup)%list_elem_of_join. apply lookup_take_Some in Hq as [Hq ?]. rewrite (Hno _ _ _ Hq Hc). apply Z.eqb_neq. lia.
Qed.

(** C30. After any run from an empty journal, faults included, with a segment target of at least 1, the claims of every scope are
    numbered from 1 without gaps and cut into segments of the target size, of which only the last may be shorter; each segment
    carries the positions, the number, the Merkle root of the input hashes and, as its start and its end, the times of the first and
    the last of exactly its claims, and the counters of the scope are the next position and the last segment. *)
Theorem journal_segmented {B : Blake3Ops} {A : AuditOps} {JS : JsonString} (T : Z) (a : AuditStore) (ops : list (JournalEnv * JournalOp)) (k : ScopeKey) :
  1 <= T →
  let j := run_journal T ops (empty_journal a) in
  (∀ i c, claims_of j k !! i = Some c → cr_scope_seq c = Z.of_nat i + 1 ∧ cr_segment_no c = Z.of_nat i / T ∧ cr_segment_seq c = Z.of_nat i mod T + 1) ∧
  (∀ i s, segments_of j k !! i = Some s →
     let part := List.filter (λ c, cr_segment_no c =? Z.of_nat i) (claims_of j k) in
     sg_segment_no s = Z.of_nat i ∧ sg_first_scope_seq s = Z.of_nat i * T + 1 ∧ sg_claim_count s = Z.of_nat (length part) ∧ 1 <= sg_claim_count s <= T ∧
     sg_last_scope_seq s = sg_first_scope_seq s + sg_claim_count s - 1 ∧
     sg_merkle_root s = hex_lower (merkle_root ((λ c, merkle_leaf (to_bytes (cr_input_hash c))) <$> part)) ∧
     Some (sg_started_at s) = cr_ts <$> head part ∧ Some (sg_ended_at s) = cr_ts <$> last part) ∧
  ∀ r, j_scopes j !! k = Some r →
    sc_next_scope_seq r = Z.of_nat (length (claims_of j k)) + 1 ∧ sc_open_segment_no r = Z.of_nat (length (segments_of j k)) - 1.
Proof.
  intros HT j. destruct (run_journal_wf T ops (empty_journal a) HT (empty_journal_wf T a)) as [[Hok _] _].
  destruct (Hok k) as (parts & Hc & Hs & Hr & Hfull & _). fold j in Hc, Hs, Hr. pose proof (segs_ok_length _ _ _ _ Hs) as Hlen. split_and!.
  - intros i c Hi. rewrite Hc in Hi. destruct (full_parts_lookup T parts i c HT Hfull Hi) as (n & x & p & Hp & Hx & Hn & Hm).
    destruct (segments_of j k !! n) as [s|] eqn:Es; [|apply lookup_ge_None in Es; apply lookup_lt_Some in Hp; lia].
    destruct (segs_ok_lookup _ _ _ _ _ _ _ Hs Es Hp) as (_ & _ & _ & _ & _ & _ & _ & _ & Hpos). destruct (Hpos x c Hx) as (-> & -> & _).
    rewrite (claims_positions _ _ _ _ Hs i c Hi). lia.
  - intros i s Hi part. assert (is_Some (parts !! i)) as [p Hp] by (apply lookup_lt_is_Some; apply lookup_lt_Some in Hi; lia).
    assert (part = p) as Hpart by (unfold part; rewrite Hc; by eapply (filter_part 0 1)).
    destruct (segs_ok_lookup _ _ _ _ _ _ _ Hs Hi Hp) as (Hne & Hno & Hf & Hl & Hcnt & Hroot & Hst & Hen & _). rewrite Hpart. destruct (Hfull i p Hp) as [Hle _].
    assert (1 <= Z.of_nat (length p)) by (destruct p; [done|cbn; lia]).
    pose proof (full_prefix_length T parts i Hfull ltac:(by eapply lookup_lt_Some)) as Hpre. rewrite Hpre in Hf, Hl. split_and!; try first [done|lia].
    rewrite Hroot. unfold segment_root. rewrite bool_decide_eq_false_2 by by destruct p. by rewrite <-list_fmap_compose.
  - intros r Er. rewrite Er in Hr. destruct Hr as (_ & Hn & Ho). lia.
Qed.

(** *** What a history root binds *)

Definition digest_of (s : SegmentRow) : ClaimSegmentDigest :=
  mkSegmentDigest (sg_segment_no s mod 2 ^ 64) (sg_first_scope_seq s mod 2 ^ 64) (sg_last_scope_seq s mod 2 ^ 64) (sg_claim_count s mod 2 ^ 64)
    (sg_started_at s) (sg_ended_at s) (sg_merkle_root s).

Definition hashes_of (p : list ClaimRow) : list string := cr_input_hash <$> p.
Definition hash_leaves (p : list ClaimRow) : list bytes := to_bytes <$> hashes_of p.

(** The messages hashed for the root of a history and for the roots of its segments. *)
Definition history_inputs {B : Blake3Ops} (s : ClosedScopeSummary) (claims : list ClaimRow) : list bytes :=
  root_inputs (segment_leaves (claim_segment_digests_from_summary s))
  ++ mjoin ((λ g, root_inputs (hash_leaves (List.filter (λ c, cr_segment_no c =? ss_segment_no g) claims))) <$> cs_segments s).

Section Binding.
Context {B : Blake3Ops} {L : Blake3Laws}.

Lemma segment_root_leaves p : p ≠ [] → segment_root (hashes_of p) = hex_lower (merkle_root (merkle_leaf <$> hash_leaves p)).
Proof.
  intros Hp. unfold segment_root. rewrite bool_decide_eq_false_2 by (unfold hashes_of; by destruct p). f_equal. f_equal. unfold hash_leaves. by rewrite <-list_fmap_compose.
Qed.

Lemma hash_leaves_inj p q : hash_leaves p = hash_leaves q → hashes_of p = hashes_of q.
Proof.
  unfold hash_leaves. apply (fmap_Forall_inj (λ _, True)); [intros x y _ _; apply to_bytes_inj|by apply Forall_true..].
Qed.

Variable msgs : list bytes.
Hypothesis Hcf : collision_free msgs.

Lemma segment_root_binds p q :
  root_inputs (hash_leaves p) ⊆ msgs → root_inputs (hash_leaves q) ⊆ msgs → length p = length q → p ≠ [] →
  segment_root (hashes_of p) = segment_root (hashes_of q) → hashes_of p = hashes_of q.
Proof.
  intros Hp Hq Hlen Hne E. rewrite !segment_root_leaves in E; [|by destruct p, q|done]. apply hex_lower_inj in E. apply hash_leaves_inj.
  eapply leaves_root_inj; [exact Hcf|done|done| |exact E]. unfold hash_leaves, hashes_of. by rewrite !length_fmap.
Qed.

Lemma segments_bind n first n' first' segs segs' parts parts' :
  segs_ok n first segs parts → segs_ok n' first' segs' parts' → digest_of <$> segs = digest_of <$> segs' →
  Forall (λ p, root_inputs (hash_leaves p) ⊆ msgs ∧ Z.of_nat (length p) < 2 ^ 64) parts →
  Forall (λ p, root_inputs (hash_leaves p) ⊆ msgs ∧ Z.of_nat (length p) < 2 ^ 64) parts' →
  hashes_of <$> parts = hashes_of <$> parts'.
Proof.
  revert n first n' first' segs' parts parts'. induction segs as [|s segs IH]; intros n first n' first' [|s' segs'] [|p parts] [|p' parts'] Hok Hok' E; try done.
  rewrite !Forall_cons. intros [[Hm Hl] Hf] [[Hm' Hl'] Hf']. rewrite !fmap_cons in *. destruct Hok as [Hs Hok], Hok' as [Hs' Hok'].
  injection E as E1 E2 E3 Ec E4 E5 Er E. destruct Hs as (Hne & _ & _ & _ & Hcnt & Hroot & _), Hs' as (_ & _ & _ & _ & Hcnt' & Hroot' & _).
  f_equal; [|by eapply IH]. apply segment_root_binds; try done.
  - rewrite Hcnt, Hcnt', !Z.mod_small in Ec by lia. lia.
  - unfold hashes_of. congruence.
Qed.

End Binding.

Lemma digests_of_segments {JS : JsonString} scope limit j s :
  summarizes scope limit j s → claim_segment_digests_from_summary s = digest_of <$> segments_of j (scope_key scope).
Proof. intros (_ & _ & Hs & _). unfold claim_segment_digests_from_summary. rewrite Hs, <-list_fmap_compose. done. Qed.

Lemma mjoin_fmap {X Y} (f : X → Y) (l : list (list X)) : f <$> mjoin l = mjoin (fmap f <$> l).
Proof. induction l as [|x l IH]; [done|]. rewrite join_cons, fmap_app, fmap_cons, join_cons. by rewrite IH. Qed.

(** The segments and claims of a summary. *)
Lemma summary_parts {B : Blake3Ops} {JS : JsonString} T j scope limit s :
  journal_ok T j → summarizes scope limit j s → Z.of_nat (length (claims_of j (scope_key scope))) < 2 ^ 64 →
  (∀ c, c ∈ claims_of j (scope_key scope) → line_ok (cr_ts c)) →
  ∃ parts, claims_of j (scope_key scope) = mjoin parts ∧ segs_ok 0 1 (segments_of j (scope_key scope)) parts ∧
    segment_order (digest_of <$> segments_of j (scope_key scope)) = digest_of <$> segments_of j (scope_key scope) ∧
    Forall digest_wf (digest_of <$> segments_of j (scope_key scope)) ∧
    Forall (λ p, root_inputs (hash_leaves p) ⊆ history_inputs s (claims_of j (scope_key scope)) ∧ Z.of_nat (length p) < 2 ^ 64) parts.
Proof.
  intros Hok Hsum Hlt Hlines. destruct (Hok (scope_key scope)) as (parts & Hc & Hs & _). exists parts. pose proof (segs_ok_length _ _ _ _ Hs) as Hlen.
  set (segs := segments_of j (scope_key scope)) in *. set (claims := claims_of j (scope_key scope)) in *.
  assert (∀ p, p ∈ parts → (length p <= length claims)%nat) as Hsub.
  { intros p (l1 & l2 & ->)%list_elem_of_split. rewrite Hc, join_app, join_cons, !length_app. lia. }
  assert (length parts <= length claims)%nat as Hpl.
  { rewrite Hc. clear -Hs. revert Hs. generalize 0, 1. generalize segs. induction parts as [|p parts IH]; intros [|s sg] n f; try done.
    intros [(Hne & _) Hok]. rewrite join_cons, length_app. specialize (IH _ _ _ Hok). destruct p; [done|]. cbn. lia. }
  split_and!; [done|done| | |].
  - unfold segment_order. apply sort_by_id. assert (∀ i d, (digest_of <$> segs) !! i = Some d → sd_segment_no d = 0 + Z.of_nat i) as Hno.
    { intros i d Hd. rewrite list_lookup_fmap in Hd. destruct (segs !! i) as [sg|] eqn:Es; [|done]. injection Hd as <-. cbn.
      rewrite (segs_ok_no _ _ _ _ Hs i sg Es). apply lookup_lt_Some in Es. rewrite Z.mod_small; lia. }
    revert Hno. generalize 0. generalize (digest_of <$> segs). clear. intros l. induction l as [|d [|d' l] IH]; intros n Hno; [done|done|]. split.
    + apply Z.leb_le. rewrite (Hno 0%nat d eq_refl), (Hno 1%nat d' eq_refl). lia.
    + apply (IH (n + 1)). intros i x Hx. rewrite (Hno (S i) x Hx). lia.
  - apply Forall_fmap, Forall_lookup. intros i sg Hi. assert (is_Some (parts !! i)) as [p Hp] by (apply lookup_lt_is_Some; apply lookup_lt_Some in Hi; lia).
    destruct (segs_ok_lookup _ _ _ _ _ _ _ Hs Hi Hp) as (Hne & _ & _ & _ & _ & _ & Hst & Hen & _).
    assert (∀ c, c ∈ p → line_ok (cr_ts c)) as Hpl'. { intros c Hcp. apply Hlines. fold claims. rewrite Hc. apply list_elem_of_join. exists p. split; [done|]. by eapply list_elem_of_lookup_2. }
    assert (line_ok (sg_started_at sg)) as H1. { destruct p as [|c p]; [done|]. injection Hst as ->. apply Hpl'. by left. }
    assert (line_ok (sg_ended_at sg)) as H2. { destruct (last p) as [c|] eqn:El; [|done]. injection Hen as ->. apply Hpl'. by eapply last_Some_elem_of. }
    unfold digest_wf, digest_of; cbn [compose sd_segment_no sd_first_scope_seq sd_last_scope_seq sd_claim_count sd_started_at sd_ended_at].
    split_and!; try done; apply Z.mod_pos_bound; lia.
  - apply Forall_lookup. intros i p Hp. split.
    + unfold history_inputs. destruct Hsum as (_ & _ & -> & _). fold segs. assert (is_Some (segs !! i)) as [sg Hsg] by (apply lookup_lt_is_Some; apply lookup_lt_Some in Hp; lia).
      intros m Hm. apply elem_of_app. right. apply list_elem_of_join. eexists. split; [|apply list_elem_of_fmap; exists (segment_summary sg); split; [reflexivity|]].
      * cbn [segment_summary ss_segment_no]. rewrite (segs_ok_no _ _ _ _ Hs i sg Hsg), Hc. by rewrite (filter_part 0 1 segs parts i p).
      * apply list_elem_of_fmap_2. by eapply list_elem_of_lookup_2.
    + assert (length p <= length claims)%nat by (apply Hsub; by eapply list_elem_of_lookup_2). lia.
Qed.

(** C19. The history root of a closed scope binds its claims: two scopes, of any two daemons, whose receipts carry the same history
    root and the same number of segments hold claims with the same input hashes in the same order, unless the digests of two of the
    hashed messages collide. The times of claims are lines without breaks, as RFC 3339 times are. *)
Theorem history_root_binds_claims {B : Blake3Ops} {A : AuditOps} {JS : JsonString} {L : Blake3Laws} (T T' : Z) (a a' : AuditStore)
  (ops ops' : list (JournalEnv * JournalOp)) (e e' : JournalEnv) (scope scope' : ScopeRef) (limit limit' : nat) (s s' : ClosedScopeSummary) (j j' : Journal) :
  1 <= T → 1 <= T' →
  close_scope e scope limit (run_journal T ops (empty_journal a)) = (Ok s, j) →
  close_scope e' scope' limit' (run_journal T' ops' (empty_journal a')) = (Ok s', j') →
  let claims := claims_of j (scope_key scope) in
  let claims' := claims_of j' (scope_key scope') in
  Z.of_nat (length claims) < 2 ^ 64 → Z.of_nat (length claims') < 2 ^ 64 →
  (∀ c, c ∈ claims → line_ok (cr_ts c)) → (∀ c, c ∈ claims' → line_ok (cr_ts c)) →
  collision_free (history_inputs s claims ++ history_inputs s' claims') →
  rb_claim_history_merkle_root (closed_scope_body s) = rb_claim_history_merkle_root (closed_scope_body s') →
  length (rb_claim_segment_summaries (closed_scope_body s)) = length (rb_claim_segment_summaries (closed_scope_body s')) →
  cr_input_hash <$> claims = cr_input_hash <$> claims'.
Proof.
  intros HT HT' Hs Hs' claims claims' Hlt Hlt' Hlines Hlines' Hcf Hroot Hlen. cbn [closed_scope_body rb_claim_history_merkle_root rb_claim_segment_summaries] in *.
  destruct (close_scope_wf T _ _ _ _ _ _ (proj1 (run_journal_wf T ops _ HT (empty_journal_wf T a))) Hs) as ([Hok _] & _ & Hsum).
  destruct (close_scope_wf T' _ _ _ _ _ _ (proj1 (run_journal_wf T' ops' _ HT' (empty_journal_wf T' a'))) Hs') as ([Hok' _] & _ & Hsum').
  destruct (Hsum s eq_refl) as [Hsm _], (Hsum' s' eq_refl) as [Hsm' _]. clear Hsum Hsum'.
  destruct (summary_parts T j scope limit s Hok Hsm Hlt Hlines) as (parts & Hc & Hp & Hord & Hdw & Hin).
  destruct (summary_parts T' j' scope' limit' s' Hok' Hsm' Hlt' Hlines') as (parts' & Hc' & Hp' & Hord' & Hdw' & Hin').
  rewrite (digests_of_segments _ _ _ _ Hsm), (digests_of_segments _ _ _ _ Hsm') in Hlen, Hroot.
  assert (∀ x, x ∈ root_inputs (segment_leaves (digest_of <$> segments_of j (scope_key scope))) ++
    root_inputs (segment_leaves (digest_of <$> segments_of j' (scope_key scope'))) → x ∈ history_inputs s claims ++ history_inputs s' claims') as Hsub.
  { intros x. unfold history_inputs. rewrite (digests_of_segments _ _ _ _ Hsm), (digests_of_segments _ _ _ _ Hsm'), !elem_of_app. tauto. }
  apply history_root_inj in Hroot; [|intros x y Hx Hy; apply Hcf; by apply Hsub|done..].
  rewrite Hord, Hord' in Hroot. unfold claims, claims'. rewrite Hc, Hc', !mjoin_fmap. f_equal.
  eapply (segments_bind _ Hcf); [exact Hp|exact Hp'|exact Hroot|eapply Forall_impl; [exact Hin|]|eapply Forall_impl; [exact Hin'|]].
  - intros p [Hi ?]. split; [|done]. etrans; [exact Hi|]. intros x Hx. apply elem_of_app. by left.
  - intros p [Hi ?]. split; [|done]. etrans; [exact Hi|]. intros x Hx. apply elem_of_app. by right.
Qed.

(** *** Usage by outcome *)

Lemma map_get_app o m m' : map_get o (m ++ m') = match map_get o m with Some n => Some n | None => map_get o m' end.
Proof. unfold map_get. induction m as [|x m IH]; [done|]. cbn. case_bool_decide; [done|exact IH]. Qed.

Lemma map_get_removed o o' m : map_get o (List.filter (λ x : RollupOutcome * Z, negb (bool_decide (x.1 = o'))) m) = if bool_decide (o' = o) then None else map_get o m.
Proof.
  unfold map_get. induction m as [|[x n] m IH]; [cbn; by case_bool_decide|]. cbn. destruct (decide (x = o')) as [->|Hx].
  - rewrite (bool_decide_eq_true_2 (o' = o')) by done. cbn [negb]. rewrite IH. case_bool_decide; done.
  - rewrite (bool_decide_eq_false_2 (x = o')) by done. cbn. destruct (decide (x = o)) as [->|Hxo].
    + rewrite (bool_decide_eq_true_2 (o = o)) by done. by rewrite bool_decide_eq_false_2 by congruence.
    + rewrite (bool_decide_eq_false_2 (x = o)) by done. exact IH.
Qed.

Lemma map_get_insert o m o' n : map_get o (map_insert m o' n) = if bool_decide (o' = o) then Some n else map_get o m.
Proof.
  unfold map_insert. rewrite map_get_app, map_get_removed. unfold map_get at 2. cbn. case_bool_decide; [done|]. by destruct (map_get o m).
Qed.

(** The number under an outcome is that of one group. *)
Lemma fold_outcomes_last order l o n :
  map_get o (fold_outcomes (group_counts order l)) = Some n → ∃ x, x ∈ order ∧ rollup_outcome_from_audit_outcome x = o ∧ n = count_in x l.
Proof.
  unfold fold_outcomes, group_counts. induction order as [|x order IH] using rev_ind; [done|]. rewrite fmap_app, foldl_app. cbn [fmap list_fmap foldl fst snd]. rewrite map_get_insert.
  case_bool_decide as Hx; [intros [= <-]; exists x; set_solver|]. intros H%IH. destruct H as (y & ? & ?). exists y. set_solver.
Qed.

Lemma fold_outcomes_some order l x :
  x ∈ order → is_Some (map_get (rollup_outcome_from_audit_outcome x) (fold_outcomes (group_counts order l))).
Proof.
  unfold fold_outcomes, group_counts. induction order as [|y order IH] using rev_ind; [by intros ?%not_elem_of_nil|]. rewrite fmap_app, foldl_app.
  cbn [fmap list_fmap foldl fst snd]. rewrite map_get_insert, elem_of_app, list_elem_of_singleton. case_bool_decide; [done|]. intros [Hin| ->]; [by apply IH|done].
Qed.

Lemma count_two (P : string → bool) x y l :
  x ≠ y → P x = true → P y = true → count_in x l + count_in y l <= Z.of_nat (length (List.filter P l)).
Proof.
  intros Hne Hx Hy. unfold count_in. induction l as [|z l IH]; [done|]. cbn. destruct (decide (z = x)) as [->|Hzx].
  - rewrite (bool_decide_eq_true_2 (x = x)), (bool_decide_eq_false_2 (x = y)), Hx by done. cbn. lia.
  - rewrite (bool_decide_eq_false_2 (z = x)) by done. destruct (decide (z = y)) as [->|Hzy].
    + rewrite (bool_decide_eq_true_2 (y = y)), Hy by done. cbn. lia.
    + rewrite (bool_decide_eq_false_2 (z = y)) by done. destruct (P z); cbn; lia.
Qed.

Lemma count_pos x l : x ∈ l → 1 <= count_in x l.
Proof.
  unfold count_in. intros (l1 & l2 & ->)%list_elem_of_split. rewrite List.filter_app. cbn. rewrite bool_decide_eq_true_2 by done. rewrite length_app. cbn. lia.
Qed.

(** The outcomes that the query of a service groups. *)
Definition service_outcomes (plugin window_start window_end : string) (j : Journal) : list string :=
  mjoin (audit_outcomes (al_rows (j_audit j)) <$> (List.filter (λ kc, in_service plugin window_start window_end kc.2) (all_claims j)).*2).

(** C40. The usage of a service by outcome loses claims: when two different audit outcomes in the window stand for the same outcome of
    the summary, as allowed and ok do, the number under it is that of only one of them, less than the number of its claims, whatever
    the order of the groups. *)
Theorem service_outcomes_undercounted (order runners : list string) (plugin window_start window_end : string) (j : Journal) (x y : string) :
  let l := service_outcomes plugin window_start window_end j in
  let o := rollup_outcome_from_audit_outcome x in
  groups_of l order → x ∈ l → y ∈ l → x ≠ y → rollup_outcome_from_audit_outcome y = o →
  ∃ n, map_get o (sv_by_outcome (compute_service_rollup order runners plugin window_start window_end j)) = Some n ∧
    n < Z.of_nat (length (List.filter (λ z, bool_decide (rollup_outcome_from_audit_outcome z = o)) l)).
Proof.
  intros l o [_ Hord] Hx Hy Hne Ho. cbn [compute_service_rollup sv_by_outcome]. fold (service_outcomes plugin window_start window_end j). fold l.
  destruct (fold_outcomes_some order l x ltac:(by apply Hord)) as [n Hn]. exists n. split; [done|].
  apply fold_outcomes_last in Hn as (z & Hz & Hzo & ->). apply Hord in Hz.
  assert (∃ w, w ∈ l ∧ w ≠ z ∧ rollup_outcome_from_audit_outcome w = o) as (w & Hw & Hwz & Hwo).
  { destruct (decide (x = z)) as [->|Hxz]; [by exists y|by exists x]. }
  pose proof (count_two (λ v, bool_decide (rollup_outcome_from_audit_outcome v = o)) z w l ltac:(done)
    (bool_decide_eq_true_2 _ Hzo) (bool_decide_eq_true_2 _ Hwo)) as Hc. pose proof (count_pos w l Hw). lia.
Qed.

Lemma validate_single scope : validate_scope scope = Ok tt → validate_scope_set [scope] = Ok [scope].
Proof. intros H. unfold validate_scope_set. cbn [normalize_scopes]. rewrite H. cbn [result_bind]. by rewrite (bool_decide_eq_false_2 (scope ∈ [])) by apply not_elem_of_nil. Qed.

(** Closing does not end a scope: after a close that returned a summary, a claim of a new source for the scope is recorded like any
    other whenever its audit row can be written, and the next close returns one claim more than the summary of which the receipt was
    issued. *)
Theorem closed_scope_accepts_claims {B : Blake3Ops} {A : AuditOps} {JS : JsonString} (T : Z) (a a2 : AuditStore) (ops : list (JournalEnv * JournalOp))
  (e e' : JournalEnv) (scope : ScopeRef) (limit : nat) (s : ClosedScopeSummary) (j1 : Journal) (i : SuccessfulClaimInput) (id : Z) :
  1 <= T → close_scope e scope limit (run_journal T ops (empty_journal a)) = (Ok s, j1) →
  validate_input i = Ok tt → ci_source_key i ∉ cr_source_key <$> claims_of j1 (scope_key scope) →
  je_begin e' = None → je_write e' = None → je_commit e' = None →
  append_audit_event_with_chain_in_tx (je_audit e') (av_agent_id (ci_audit i)) (av_action (ci_audit i)) (av_credential (ci_audit i))
    (av_outcome (ci_audit i)) (av_details (ci_audit i)) (j_audit j1) = (Ok id, a2) →
  ∃ no sq j2,
    record_successful_claim_for_scopes e' T [scope] i j1 =
      (Ok [mkScoped scope (Appended (ci_source_key i) id (cs_total_claims s + 1) no sq)], j2) ∧
    ∀ e2 s2 j3, close_scope e2 scope limit j2 = (Ok s2, j3) → cs_total_claims s2 = cs_total_claims s + 1.
Proof.
  intros HT Hcl Hvi Hfresh Hb Hw Hcm Ha. destruct (run_journal_wf T ops (empty_journal a) HT (empty_journal_wf T a)) as [Hwf0 _].
  destruct (close_scope_wf T _ _ _ _ _ _ Hwf0 Hcl) as (Hwf1 & _ & Hsum). destruct (Hsum s eq_refl) as [(_ & Htot & _) _].
  set (k := scope_key scope) in *. apply audit_append_grows in Ha as Hag. destruct Hag as [Hp Hr].
  destruct (set_audit_wf _ _ _ Hwf1 Hp) as [Hwf2 _].
  destruct (append_claim_shape e' T i id k (set_audit a2 j1) HT Hw (proj1 Hwf2 k) Hfresh) as (no & sq & j2 & Happ & Hc2 & _ & _).
  change (claims_of (set_audit a2 j1) k) with (claims_of j1 k) in *. exists no, sq, j2.
  assert (record_successful_claim_for_scopes e' T [scope] i j1 = (Ok [mkScoped scope (Appended (ci_source_key i) id (cs_total_claims s + 1) no sq)], j2)) as Hrec.
  { unfold record_successful_claim_for_scopes. unfold close_scope in Hcl.
    destruct (validate_scope scope) as [[]|] eqn:Evs; [|done]. rewrite (validate_single _ Evs). cbn [result_bind]. rewrite Hvi. cbn [result_bind].
    assert (existing_claim e' j1 k (ci_source_key i) = None) as Hex.
    { destruct (existing_claim e' j1 k (ci_source_key i)) as [[x q]|] eqn:Ex; [|done]. apply existing_row in Ex as (c & Hc & Hk & _). exfalso. apply Hfresh.
      rewrite <-Hk. by apply list_elem_of_fmap_2. }
    unfold in_transaction. rewrite Hb, Hcm. unfold record_in_tx. cbn [find_existing]. fold k. rewrite Hex.
    cbn [result_bind existsb needs_append sa_disposition negb Z.eqb Pos.eqb andb orb claim_audit_event]. rewrite Ha. cbn [result_bind append_results].
    cbn [needs_append sa_disposition Z.eqb Pos.eqb andb sa_scope]. fold k. rewrite Happ. cbn [result_bind append_results]. rewrite Htot. by rewrite Z.add_comm. }
  split; [exact Hrec|]. intros e2 s2 j3 Hcl2. destruct (record_wf _ _ _ _ _ _ _ HT Hwf1 Hrec) as (Hwf3 & _).
  destruct (close_scope_wf T _ _ _ _ _ _ Hwf3 Hcl2) as (_ & _ & Hs2). destruct (Hs2 s2 eq_refl) as [(_ & Htot2 & _) [Hc3 _]].
  rewrite Htot2. change (scope_key scope) with k. fold k in Hc3. rewrite Hc3, Hc2, length_app, Htot. cbn. lia.
Qed.

(** *** Principals *)

(** The record of [p] leads to the anchor over [n] parents. *)
Inductive leads (by_id : gmap string SigningPrincipalRecord) (anchor : string) : nat → string → Prop :=
| leads_anchor r : by_id !! anchor = Some r → spr_parent_id r = anchor → leads by_id anchor 0 anchor
| leads_parent n p r : by_id !! p = Some r → spr_parent_id r ≠ p → leads by_id anchor n (spr_parent_id r) → leads by_id anchor (S n) p.

Lemma leads_unique by_id anchor n m p : leads by_id anchor n p → leads by_id anchor m p → n = m.
Proof.
  intros H. revert m. induction H as [r Hr Hp|n p r Hr Hp H IH]; intros m Hm; inversion Hm as [r' Hr' Hp'|m' p' r' Hr' Hp' H']; subst; simplify_eq; try done.
  f_equal. by apply IH.
Qed.

Lemma principals_by_id_key records k r : principals_by_id records !! k = Some r → spr_principal_id r = k.
Proof.
  unfold principals_by_id. assert (∀ m : gmap string SigningPrincipalRecord, (∀ k r, m !! k = Some r → spr_principal_id r = k) →
    ∀ k r, foldl (λ m r, <[spr_principal_id r := r]> m) m records !! k = Some r → spr_principal_id r = k) as H.
  { induction records as [|x records IH]; intros m Hm; [done|]. cbn. apply IH. intros k' r' [[? ?]|[? ?]]%lookup_insert_Some; [by subst|by apply Hm]. }
  apply H. done.
Qed.

Section Walk.
Context (by_id : gmap string SigningPrincipalRecord) (anchor : string).

Lemma walk_total fuel seen p : seen ⊆ dom by_id → (size (dom by_id) < fuel + size seen)%nat → is_Some (walk_principals fuel by_id seen p anchor).
Proof.
  revert seen p. induction fuel as [|fuel IH]; intros seen p Hs Hf; [apply subseteq_size in Hs; cbn in Hf; lia|]. cbn [walk_principals].
  destruct (by_id !! p) as [r|] eqn:Er; [|by eexists]. case_bool_decide as Hp; [by eexists|]. case_bool_decide; [by eexists|]. case_bool_decide; [by eexists|].
  apply IH.
  - apply elem_of_dom_2 in Er. set_solver.
  - rewrite size_union, size_singleton by set_solver. lia.
Qed.

Lemma walk_mono fuel fuel' seen p r : walk_principals fuel by_id seen p anchor = Some r → (fuel <= fuel')%nat → walk_principals fuel' by_id seen p anchor = Some r.
Proof.
  revert fuel' seen p. induction fuel as [|fuel IH]; intros [|fuel'] seen p; cbn [walk_principals]; [done|done|lia|].
  destruct (by_id !! p); [|done]. repeat (case_bool_decide; [done|]). intros Hw Hle. apply IH; [done|lia].
Qed.

Hypothesis Hkey : ∀ k r, by_id !! k = Some r → spr_principal_id r = k.

Lemma walk_sound fuel seen p : walk_principals fuel by_id seen p anchor = Some (Ok tt) → ∃ n, leads by_id anchor n p.
Proof.
  revert seen p. induction fuel as [|fuel IH]; intros seen p; [done|]. cbn [walk_principals]. destruct (by_id !! p) as [r|] eqn:Er; [|done].
  pose proof (Hkey _ _ Er) as Hk. case_bool_decide; [done|]. case_bool_decide as Hpar.
  - case_bool_decide as Ha; [|done]. intros _. exists 0%nat. subst anchor. rewrite Hk in *. by eapply leads_anchor.
  - case_bool_decide; [done|]. intros [n Hn]%IH. exists (S n). eapply leads_parent; [done| |done]. congruence.
Qed.

Lemma walk_complete n seen p :
  leads by_id anchor n p → (∀ x, x ∈ seen → ∃ m, leads by_id anchor m x ∧ (n < m)%nat) → walk_principals (S n) by_id seen p anchor = Some (Ok tt).
Proof.
  intros H. revert seen. induction H as [r Hr Hp|n p r Hr Hp H IH]; intros seen Hseen.
  - cbn [walk_principals]. rewrite Hr. pose proof (Hkey _ _ Hr) as Hk. rewrite bool_decide_eq_false_2.
    2:{ intros Hin. destruct (Hseen _ Hin) as (m & Hm & Hlt). assert (m = 0%nat); [|lia]. eapply leads_unique; [exact Hm|]. by eapply leads_anchor. }
    rewrite (bool_decide_eq_true_2 (spr_parent_id r = _)) by congruence. by rewrite bool_decide_eq_true_2 by done.
  - cbn [walk_principals]. rewrite Hr. pose proof (Hkey _ _ Hr) as Hk. assert (leads by_id anchor (S n) p) as Hl by by eapply leads_parent.
    rewrite bool_decide_eq_false_2.
    2:{ intros Hin. destruct (Hseen _ Hin) as (m & Hm & Hlt). pose proof (leads_unique _ _ _ _ _ Hm Hl). lia. }
    rewrite (bool_decide_eq_false_2 (spr_parent_id r = _)) by congruence.
    rewrite bool_decide_eq_false_2 by (inversion H; congruence). apply IH. intros x [->%elem_of_singleton|Hx]%elem_of_union.
    + exists (S n). split; [done|lia].
    + destruct (Hseen x Hx) as (m & Hm & Hlt). exists m. split; [done|lia].
Qed.

End Walk.

Lemma principal_chain_total (records : list SigningPrincipalRecord) (p anchor : string) :
  ∃ r, validate_principal_parent_chain records p anchor = Some r ∧ (r = Ok tt ↔ ∃ n, leads (principals_by_id records) anchor n p).
Proof.
  unfold validate_principal_parent_chain. set (m := principals_by_id records). pose proof (principals_by_id_key records) as Hk. fold m in Hk.
  destruct (walk_total m anchor (S (size m)) ∅ p) as [r Hr]; [set_solver|rewrite size_empty, size_dom; lia|]. exists r. split; [done|]. split.
  - intros ->. by eapply walk_sound.
  - intros [n Hn]. pose proof (walk_complete m anchor Hk n ∅ p Hn ltac:(set_solver)) as Hw.
    apply (walk_mono _ _ _ (max (S n) (S (size m)))) in Hw; [|lia]. apply (walk_mono _ _ _ (max (S n) (S (size m)))) in Hr; [|lia]. congruence.
Qed.

(** The check of the principals always ends, and accepts exactly those whose parents lead to the anchor, which is its own parent. *)
Theorem principal_chain_exact (records : list SigningPrincipalRecord) (p anchor : string) :
  ∃ r, validate_principal_parent_chain records p anchor = Some r ∧ (r = Ok tt ↔ ∃ n, leads (principals_by_id records) anchor n p).
Proof. apply principal_chain_total. Qed.

(** *** Issued receipts *)

Lemma jget_none_keys k m : jget k (JObject m) = None ↔ k ∉ m.*1.
Proof.
  cbn. induction m as [|[j v] m IH]; [cbn; set_solver|]. cbn. case_bool_decide as Hj; cbn; [subst; split; [done|set_solver]|]. rewrite IH. set_solver.
Qed.

Lemma jget_insert_absent k k' v m : jget k (JObject (insert_absent k' v m)) = if bool_decide (k' = k) then or_else (jget k (JObject m)) (Some v) else jget k (JObject m).
Proof.
  unfold insert_absent. destruct (decide (k' ∈ m.*1)) as [Hin|Hin].
  - rewrite bool_decide_eq_true_2 by done. case_bool_decide as Hk; [|done]. subst. destruct (jget k (JObject m)) eqn:E; [done|]. by apply jget_none_keys in E.
  - rewrite bool_decide_eq_false_2 by done. rewrite jget_app.
    assert (jget k (JObject [(k', v)]) = if bool_decide (k' = k) then Some v else None) as -> by (cbn; by case_bool_decide).
    case_bool_decide; [done|]. by rewrite or_else_none.
Qed.

Lemma jget_list {X} k k' (f : X → Json) l : jget k (JObject (list_member k' f l)) = if bool_decide (k' = k) then match l with [] => None | _ => Some (JArray (f <$> l)) end else None.
Proof. destruct l; cbn; by case_bool_decide. Qed.
Lemma jget_text k k' s : jget k (JObject (text_member k' s)) = if bool_decide (k' = k) then if str_is_empty s then None else Some (JString s) else None.
Proof. unfold text_member. destruct (str_is_empty s); cbn; by case_bool_decide. Qed.
Lemma jget_flag k k' (b : bool) v : jget k (JObject (if b then [(k', v)] else [])) = if bool_decide (k' = k) then if b then Some v else None else None.
Proof. destruct b; cbn; by case_bool_decide. Qed.

Ltac body_members :=
  unfold claude_body_value, receipt_body_members; rewrite ?jget_app, ?jget_opt, ?jget_list, ?jget_text, ?jget_flag; cbn [jget List.find fst];
  repeat first [rewrite bool_decide_eq_false_2 by discriminate | rewrite bool_decide_eq_true_2 by reflexivity]; cbn; rewrite ?or_else_none.

Lemma body_unstamped b : jget "principal_id" (claude_body_value b) = None ∧ jget "signing_device_id" (claude_body_value b) = None.
Proof. split; by body_members. Qed.

Lemma body_history b :
  jget "claim_history_merkle_root" (claude_body_value b) =
    (if str_is_empty (rb_claim_history_merkle_root (cb_base b)) then None else Some (JString (rb_claim_history_merkle_root (cb_base b)))) ∧
  jget "claim_count_total" (claude_body_value b) = u64_value <$> rb_claim_count_total (cb_base b) ∧
  jget "claim_events" (claude_body_value b) = Some (JArray (claim_event_value <$> rb_claim_events (cb_base b))).
Proof. split_and!; body_members; try done; by destruct (rb_claim_count_total (cb_base b)). Qed.

Lemma issue_atomic_eq {B : Blake3Ops} {J : JcsOps} kind body t root signer :
  issue_atomic_receipt kind body t root signer =
  Some (issue_atomic_receipt_with_attribution kind body t root (mkAttribution root (daemon_signing_device_id root)) signer).
Proof.
  unfold issue_atomic_receipt, issue_atomic_receipt_with_principal_chain.
  assert (validate_principal_parent_chain [daemon_principal_record root] root root = Some (Ok tt)) as Hval.
  { destruct (principal_chain_total [daemon_principal_record root] root root) as (r & Hr & Hiff). rewrite Hr. f_equal. apply Hiff. exists 0%nat.
    eapply leads_anchor; [apply lookup_insert_eq|done]. }
  change (spr_principal_id (daemon_principal_record root)) with root. rewrite Hval. cbn [List.find].
  rewrite bool_decide_eq_true_2 by done. reflexivity.
Qed.

(** The receipt of a closed scope: issuing ends; what it returns verifies under the signer's key, names the daemon and its device as
    the signer, and its body carries the number of all claims of the scope, the history root and the recent claims of the summary. *)
Theorem closed_scope_receipt_sound {B : Blake3Ops} {J : JcsOps} (gap : string → option AuditGap) (kind : string) (s : ClosedScopeSummary)
  (gaps : option GapFile) (t : TerminationAuthority) (root : string) (meta : option TerminationMeta) (signer : Signer) (verifier : Verifier) :
  (∀ m, verifier (signer_public_key signer) m (Envelope.signer_sign signer m) = true) →
  is_Some (issue_session_receipt_from_closed_scope gap kind s gaps t root meta signer) ∧
  ∀ e, issue_session_receipt_from_closed_scope gap kind s gaps t root meta signer = Some (Ok e) →
    verify_receipt_v2 e (signer_public_key signer) verifier = Ok tt ∧ re_kind e = kind ∧ re_daemon_root_id e = root ∧ re_termination_authority e = t ∧
    jget "principal_id" (re_body e) = Some (JString root) ∧ jget "signing_device_id" (re_body e) = Some (JString ("device-daemon-" +:+ root)) ∧
    jget "claim_count_total" (re_body e) = Some (u64_value (cs_total_claims s mod 2 ^ 64)) ∧
    jget "claim_history_merkle_root" (re_body e) =
      (let r := claim_history_merkle_root (claim_segment_digests_from_summary s) in if str_is_empty r then None else Some (JString r)) ∧
    jget "claim_events" (re_body e) = Some (JArray (claim_event_value <$> cs_recent_claims s)).
Proof.
  intros Hv. unfold issue_session_receipt_from_closed_scope, issue_session_receipt_with_body.
  destruct (match gaps with Some f => parse_audit_gaps gap f | None => Ok [] end) as [g|]; [|by split; [eexists|]]. cbn zeta.
  set (b := mkClaudeBody _ _ _ _ _). rewrite issue_atomic_eq. set (a := mkAttribution _ _). split; [by eexists|].
  intros e. unfold issue_atomic_receipt_with_attribution. destruct (sign_receipt_v2 _ signer) as [e1|] eqn:Es; [|done]. intros [= <-].
  apply sign_shape in Es as Hsh. split; [by eapply signed_verifies in Es|]. destruct Hsh as (i & by_ & _ & _ & ->).
  destruct (body_unstamped b) as [Hp Hd]. destruct (body_history b) as (Hh & Ht & He).
  change (re_body _) with (stamp_signer_attribution a (claude_body_value b)). unfold stamp_signer_attribution, claude_body_value in *.
  split_and!; [done..| | | | |]; rewrite !jget_insert_absent; repeat first [rewrite bool_decide_eq_false_2 by discriminate | rewrite bool_decide_eq_true_2 by reflexivity].
  - by rewrite Hp.
  - by rewrite Hd.
  - exact Ht.
  - exact Hh.
  - exact He.
Qed.

(** ** A concrete instance *)

Module ToyJournal.

#[local] Existing Instances ToyReceipts.b3 ToyReceipts.jcs ToyAudit.ops.

#[export] Instance json : JsonString := {| json_to_string _ := "null"; json_from_str _ := Ok JNull |}.

Definition env : JournalEnv := mkJournalEnv ToyAudit.e1 None false None None "t9" (λ _, "").
Definition action : ActionRef := mkActionRef "gh" "pr" "v1".
Definition claim (source ts hash outcome : string) : SuccessfulClaimInput :=
  mkClaimInput source ts CK_CredentialVended "gh/pr@v1" (Some action) None None None hash JNull JNull (mkEvidence None "broker.resolve" None outcome None)
    None None None None None None.

Definition session : ScopeRef := mkScopeRef AuthorityLane "s1".
Definition grant : ScopeRef := mkScopeRef GrantScope "g1".
Definition records (p : string) : list (JournalEnv * JournalOp) :=
  [(env, JRecord [session; grant] (claim (p +:+ "1") "t1" "h1" "allowed")); (env, JRecord [session] (claim (p +:+ "2") "t2" "h2" "ok"));
   (env, JRecord [session] (claim (p +:+ "3") "t3" "h3" "allowed"))].
Definition journal (p : string) : Journal := run_journal 2 (records p) (empty_journal ToyAudit.fresh).
Definition closed (p : string) : result ClosedScopeSummary ClaimJournalError * Journal := close_scope env session 2 (journal p).
Definition summary (p : string) : ClosedScopeSummary :=
  match (closed p).1 with Ok s => s | Err _ => mkClosedScope session 0 [] [] false end.

Definition recorded : result (list ScopedAppendDisposition) ClaimJournalError * Journal :=
  record_successful_claim_for_scopes env 2 [session; grant] (claim "d" "t4" "h4" "allowed") (journal "a").

End ToyJournal.

#[local] Existing Instances ToyReceipts.b3 ToyReceipts.b3_laws ToyReceipts.jcs ToyAudit.ops ToyJournal.json.

Lemma pair_eta {X Y} (p : X * Y) x : p.1 = x → p = (x, p.2).
Proof. by destruct p; intros <-. Qed.

Lemma collision_free_check {B : Blake3Ops} (l : list bytes) :
  (let ds := (λ x, (x, blake3 x)) <$> l in forallb (λ p, forallb (λ q, negb (bool_decide (p.2 = q.2)) || bool_decide (p.1 = q.1)) ds) ds) = true →
  collision_free l.
Proof.
  cbn zeta. rewrite forallb_forall. intros H x y Hx Hy E. specialize (H (x, blake3 x) ltac:(apply list_elem_of_In, list_elem_of_fmap; by exists x)).
  rewrite forallb_forall in H. specialize (H (y, blake3 y) ltac:(apply list_elem_of_In, list_elem_of_fmap; by exists y)). cbn in H.
  rewrite bool_decide_eq_true_2 in H by done. by apply bool_decide_eq_true in H.
Qed.

Lemma lines_check (l : list ClaimRow) : forallb (λ c, bool_decide (newline ∉ to_bytes (cr_ts c))) l = true → ∀ c, c ∈ l → line_ok (cr_ts c).
Proof. rewrite forallb_forall. intros H c Hc%list_elem_of_In. by apply H, bool_decide_eq_true in Hc. Qed.

Definition toy_dispositions : list ScopedAppendDisposition :=
  [mkScoped ToyJournal.session (Appended "d" 5 4 1 2); mkScoped ToyJournal.grant (Appended "d" 5 2 0 2)].
Lemma toy_recorded_ok : ToyJournal.recorded.1 = Ok toy_dispositions.
Proof. vm_compute. reflexivity. Qed.
Lemma toy_recorded :
  record_successful_claim_for_scopes ToyJournal.env 2 [ToyJournal.session; ToyJournal.grant] (ToyJournal.claim "d" "t4" "h4" "allowed")
    (run_journal 2 (ToyJournal.records "a") (empty_journal ToyAudit.fresh)) = (Ok toy_dispositions, ToyJournal.recorded.2).
Proof. transitivity ToyJournal.recorded; [reflexivity|]. exact (pair_eta _ _ toy_recorded_ok). Qed.

Lemma toy_closed p : (ToyJournal.closed p).1 = Ok (ToyJournal.summary p) →
  close_scope ToyJournal.env ToyJournal.session 2 (run_journal 2 (ToyJournal.records p) (empty_journal ToyAudit.fresh)) = (Ok (ToyJournal.summary p), (ToyJournal.closed p).2).
Proof. intros H. transitivity (ToyJournal.closed p); [reflexivity|]. exact (pair_eta _ _ H). Qed.
Lemma toy_closed_a : (ToyJournal.closed "a").1 = Ok (ToyJournal.summary "a").
Proof. vm_compute. reflexivity. Qed.
Lemma toy_closed_b : (ToyJournal.closed "b").1 = Ok (ToyJournal.summary "b").
Proof. vm_compute. reflexivity. Qed.

Lemma toy_claims_a : Z.of_nat (length (claims_of (ToyJournal.closed "a").2 (scope_key ToyJournal.session))) < 2 ^ 64.
Proof. vm_compute. reflexivity. Qed.
Lemma toy_claims_b : Z.of_nat (length (claims_of (ToyJournal.closed "b").2 (scope_key ToyJournal.session))) < 2 ^ 64.
Proof. vm_compute. reflexivity. Qed.
Lemma toy_lines_a : ∀ c, c ∈ claims_of (ToyJournal.closed "a").2 (scope_key ToyJournal.session) → line_ok (cr_ts c).
Proof. apply lines_check. vm_compute. reflexivity. Qed.
Lemma toy_lines_b : ∀ c, c ∈ claims_of (ToyJournal.closed "b").2 (scope_key ToyJournal.session) → line_ok (cr_ts c).
Proof. apply lines_check. vm_compute. reflexivity. Qed.
Lemma toy_no_collisions :
  collision_free (history_inputs (ToyJournal.summary "a") (claims_of (ToyJournal.closed "a").2 (scope_key ToyJournal.session))
                  ++ history_inputs (ToyJournal.summary "b") (claims_of (ToyJournal.closed "b").2 (scope_key ToyJournal.session))).
Proof. apply collision_free_check. vm_compute. reflexivity. Qed.
Lemma toy_same_root :
  rb_claim_history_merkle_root (closed_scope_body (ToyJournal.summary "a")) = rb_claim_history_merkle_root (closed_scope_body (ToyJournal.summary "b")) ∧
  length (rb_claim_segment_summaries (closed_scope_body (ToyJournal.summary "a"))) = length (rb_claim_segment_summaries (closed_scope_body (ToyJournal.summary "b"))).
Proof. vm_compute. split; reflexivity. Qed.
Lemma toy_outcomes : service_outcomes "gh" "t0" "t9" (ToyJournal.journal "a") = ["allowed"; "allowed"; "ok"; "allowed"] ∨
  service_outcomes "gh" "t0" "t9" (ToyJournal.journal "a") = ["allowed"; "ok"; "allowed"; "allowed"].
Proof. vm_compute. first [left; reflexivity|right; reflexivity]. Qed.

(** Three claims in segments of two, then a fourth that is sent twice. *)
Lemma claims_recorded_once_witness :
  let j := run_journal 2 [] ToyJournal.recorded.2 in
  record_successful_claim_for_scopes ToyJournal.env 2 [ToyJournal.session; ToyJournal.grant] (ToyJournal.claim "d" "t5" "h" "ok") j =
  (Ok (dup_of <$> toy_dispositions), j).
Proof.
  exact (proj2 (claims_recorded_once 2 ToyAudit.fresh (ToyJournal.records "a") [] ToyJournal.env ToyJournal.env [ToyJournal.session; ToyJournal.grant]
    (ToyJournal.claim "d" "t4" "h4" "allowed") (ToyJournal.claim "d" "t5" "h" "ok") toy_dispositions ToyJournal.recorded.2 ltac:(lia) toy_recorded)
    eq_refl eq_refl eq_refl eq_refl eq_refl).
Defined.

Lemma toy_third : is_Some (claims_of (run_journal 2 (ToyJournal.records "a") (empty_journal ToyAudit.fresh)) (scope_key ToyJournal.session) !! 2%nat).
Proof. apply (bool_decide_unpack _). vm_compute. exact I. Qed.

(** The third claim is the first of the second segment. *)
Lemma journal_segmented_witness : ∃ c,
  claims_of (run_journal 2 (ToyJournal.records "a") (empty_journal ToyAudit.fresh)) (scope_key ToyJournal.session) !! 2%nat = Some c ∧
  cr_segment_no c = 1 ∧ cr_segment_seq c = 1.
Proof.
  destruct toy_third as [c Hc]. exists c. split; [exact Hc|].
  exact (proj2 (proj1 (journal_segmented 2 ToyAudit.fresh (ToyJournal.records "a") (scope_key ToyJournal.session) ltac:(lia)) 2%nat c Hc)).
Defined.

Lemma history_root_binds_claims_witness :
  cr_input_hash <$> claims_of (ToyJournal.closed "a").2 (scope_key ToyJournal.session) = cr_input_hash <$> claims_of (ToyJournal.closed "b").2 (scope_key ToyJournal.session).
Proof.
  exact (history_root_binds_claims 2 2 ToyAudit.fresh ToyAudit.fresh (ToyJournal.records "a") (ToyJournal.records "b") ToyJournal.env ToyJournal.env
    ToyJournal.session ToyJournal.session 2 2 (ToyJournal.summary "a") (ToyJournal.summary "b") (ToyJournal.closed "a").2 (ToyJournal.closed "b").2 ltac:(lia) ltac:(lia)
    (toy_closed "a" toy_closed_a) (toy_closed "b" toy_closed_b) toy_claims_a toy_claims_b toy_lines_a toy_lines_b toy_no_collisions (proj1 toy_same_root) (proj2 toy_same_root)).
Defined.

Lemma toy_groups : groups_of (service_outcomes "gh" "t0" "t9" (ToyJournal.journal "a")) ["allowed"; "ok"].
Proof.
  split; [apply (bool_decide_unpack _); vm_compute; exact I|]. intros x. destruct toy_outcomes as [-> | ->]; set_solver.
Qed.
Lemma toy_outcome_in x : x = "allowed" ∨ x = "ok" → x ∈ service_outcomes "gh" "t0" "t9" (ToyJournal.journal "a").
Proof. intros [-> | ->]; destruct toy_outcomes as [-> | ->]; set_solver. Qed.

Lemma service_outcomes_undercounted_witness :
  ∃ n, map_get RO_Success (sv_by_outcome (compute_service_rollup ["allowed"; "ok"] [] "gh" "t0" "t9" (ToyJournal.journal "a"))) = Some n ∧
    n < Z.of_nat (length (List.filter (λ z, bool_decide (rollup_outcome_from_audit_outcome z = RO_Success)) (service_outcomes "gh" "t0" "t9" (ToyJournal.journal "a")))).
Proof.
  exact (service_outcomes_undercounted ["allowed"; "ok"] [] "gh" "t0" "t9" (ToyJournal.journal "a") "allowed" "ok" toy_groups
    (toy_outcome_in "allowed" (or_introl eq_refl)) (toy_outcome_in "ok" (or_intror eq_refl)) ltac:(discriminate) eq_refl).
Defined.

Lemma toy_fresh_key : "d" ∉ cr_source_key <$> claims_of (ToyJournal.closed "a").2 (scope_key ToyJournal.session).
Proof. apply (bool_decide_unpack _). vm_compute. exact I. Qed.
Lemma toy_audit_row :
  append_audit_event_with_chain_in_tx ToyAudit.e1 None "broker.resolve" None "allowed" None (j_audit (ToyJournal.closed "a").2) =
  (Ok 5, (append_audit_event_with_chain_in_tx ToyAudit.e1 None "broker.resolve" None "allowed" None (j_audit (ToyJournal.closed "a").2)).2).
Proof. apply pair_eta. vm_compute. reflexivity. Qed.

Lemma closed_scope_accepts_claims_witness : ∃ no sq j2,
  record_successful_claim_for_scopes ToyJournal.env 2 [ToyJournal.session] (ToyJournal.claim "d" "t4" "h4" "allowed") (ToyJournal.closed "a").2 =
  (Ok [mkScoped ToyJournal.session (Appended "d" 5 (cs_total_claims (ToyJournal.summary "a") + 1) no sq)], j2).
Proof.
  destruct (closed_scope_accepts_claims 2 ToyAudit.fresh _ (ToyJournal.records "a") ToyJournal.env ToyJournal.env ToyJournal.session 2 (ToyJournal.summary "a") (ToyJournal.closed "a").2
    (ToyJournal.claim "d" "t4" "h4" "allowed") 5 ltac:(lia) (toy_closed "a" toy_closed_a) eq_refl toy_fresh_key eq_refl eq_refl eq_refl toy_audit_row)
    as (no & sq & j2 & Hr & _). exists no, sq, j2. exact Hr.
Defined.

Lemma closed_scope_receipt_sound_witness :
  is_Some (issue_session_receipt_from_closed_scope (λ _, None) RECEIPT_KIND_COMPOSITE_GRANT (ToyJournal.summary "a") None DaemonPersonaAuthority "root" None (ToyReceipts.key "k1")).
Proof.
  exact (proj1 (closed_scope_receipt_sound (λ _, None) RECEIPT_KIND_COMPOSITE_GRANT (ToyJournal.summary "a") None DaemonPersonaAuthority "root" None
    (ToyReceipts.key "k1") ToyReceipts.toy_verifier toy_key_verifies)).
Defined.
